(* ===== verification/_CoqProject ===== *)
-Q . S2P
Prelude.v
Endian.v
Intset.v
Util.v
Glob.v
Dict.v
DictIter.v
DictBound.v
Scan.v
Hash.v
Lzf.v
Crc64.v
Ziplist.v
ZiplistSpec.v
Sds.v
Object.v
Bits.v
BitsSpec.v
HashType.v
HashTypeSpec.v
SetType.v
ListType.v
ListTypeSpec.v
Zipmap.v
Rio.v
Rdb.v
RdbLoad.v
RdbCodec.v
RdbObject.v
RdbSpec.v
RdbReload.v
RdbFile.v
Server.v
Pubsub.v
Watch.v
Db.v
TString.v
Table.v
Exec.v
Request.v
Invariant.v
Steps.v
StringSpec.v
KeySpec.v
View.v
Links.v
Safety.v
ExecSafe.v
Reach.v
RequestSpec.v
Messages.v
Access.v
Marking.v
WatchSound.v
Commands.v
Sentinel.v
SentinelNet.v
SentinelSpec.v
SentinelElection.v
SentinelSafety.v
SentinelSlave.v
SentinelLive.v
Zskiplist.v
ZskiplistSpec.v
ZskiplistInsert.v
ZskiplistDelete.v
ZskiplistOrder.v
ZskiplistOps.v
ZskiplistRange.v
Zset.v
ZsetSpec.v
ZsetRange.v
ZsetTheorems.v
Zzl.v
ZzlSpec.v
ZzlRead.v
ZzlWrite.v
ZzlObject.v
ZzlSession.v
ZzlTheorems.v
