(* ===== verification/Prelude.v ===== *)
(** * A verification library for the Redis 2.8.19 server core

    The repository vendors the sources of Redis 2.8.19 (src/redis-2.8.19/src). This
    development models the parts of the server that hold its logic, in two layers,
    and proves what makes them correct. File names below without a directory are
    files of src/redis-2.8.19/src.

    ** The layer of memory

    The data structures are modelled on the bytes or cells they occupy: a read or a
    write outside a block is [None], memory that was never written holds an
    arbitrary function [uninit], machine integers are [Z] with the wrap-around
    written out. So "returns [Some _]" includes that the operation stays in bounds.

    - Prelude.v (this file): integers of fixed width, blocks of memory, byte order of
      cells, sorted lists, the hint database and tactics for lengths.
    - Endian.v: endianconv.c, the reversals by swaps and what they compute.
    - Util.v: util.c, numbers as strings ([ll2string], [string2ll], [memtoll]).
    - Glob.v: util.c, [stringmatchlen], against a declarative relation.
    - Intset.v: intset.c, sorted arrays of integers with an encoding that widens.
    - Dict.v, DictIter.v, DictBound.v, Scan.v, Hash.v: dict.c and dict.h, hash tables
      with two tables and incremental rehashing, their iterators, how large they
      get, the cursor scan, the hash functions.
    - Lzf.v: lzf_c.c and lzf_d.c, compression; Crc64.v: crc64.c, the checksum.
    - Sds.v: sds.c and sds.h, dynamic strings.
    - Ziplist.v, ZiplistSpec.v: ziplist.c, lists in one block with variable-length
      entries and the cascade of length updates.
    - HashType.v, HashTypeSpec.v: the type API of t_hash.c, a map held by a ziplist or
      by a dictionary, converted from the one to the other; SetType.v: that of t_set.c,
      a set held by an intset or a dictionary; ListType.v, ListTypeSpec.v: that of
      t_list.c, a list held by a ziplist or a linked list, with what the commands do
      to the object. Their theorems are about sessions: any sequence of operations on
      a new object gives the answers of the finite map, the set or the list.

    - Zskiplist.v: t_zset.c, skip lists, with nodes in a store, spans, random heights and
      doubles up to comparison; ZskiplistSpec.v (the invariant [zsl_ok] and the search),
      ZskiplistInsert.v, ZskiplistDelete.v, ZskiplistOrder.v (the order of scores and
      members), ZskiplistOps.v and ZskiplistRange.v: a skip list is a sorted list. Zset.v:
      the object made of a skip list and a dictionary, and what the commands do with it;
      ZsetSpec.v, ZsetRange.v, ZsetTheorems.v: it is a sorted list of scores and members.
    - Zzl.v: t_zset.c, sorted sets kept as ziplists, the conversions and the object with
      either encoding; the C library's conversions of doubles are the class [Doubles].
      ZzlSpec.v and ZzlRead.v (reading), ZzlWrite.v (why every string fits in front of a
      member), ZzlObject.v (conversions), ZzlSession.v, ZzlTheorems.v: both encodings
      give the answers of the sorted list.
    - Bits.v: bitops.c, strings as bits: counting by words, the first bit, BITOP on several
      strings, one bit; BitsSpec.v: what these are on the list of bits.
    - Zipmap.v: zipmap.c, the old encoding of small hashes.
    - Rio.v: rio.c and rio.h, buffers and files as streams. Rdb.v and RdbLoad.v: the
      writers and the readers of rdb.c for strings, lists, sets, hashes, keys and
      databases, with the payload of DUMP and RESTORE (migrate.c). RdbCodec.v,
      RdbObject.v, RdbSpec.v, RdbReload.v: what it is to save and to load given bytes,
      for numbers and strings, for values, for databases, for the loop over a file.

    Each has a representation predicate or relation ([intset_ok], [dict_ok],
    [sds_ok], [place], ...) and one theorem per operation that says which abstract
    operation (on sets, finite maps, byte strings, lists) it implements.

    ** The layer of the server

    The commands run in a state monad over [Server.server] with failure for failed
    assertions and panics; strings are lists of bytes, dictionaries finite maps.

    - Object.v: object.c, string objects and their conversion to integers.
    - Server.v: redis.h, networking.c, the state, the clients, the replies.
    - Pubsub.v: pubsub.c and notify.c; Watch.v: the tables of multi.c; Db.v: db.c, the
      key space with lazy expiration; TString.v: t_string.c; Table.v: the command
      table of redis.c; Exec.v: [processCommand], [call] and [execCommand].
    - Request.v: the parsers of networking.c, the loop over the query buffer, and the
      writer of requests of aof.c.

    A handler is one definition, composed as the C functions call each other; a
    client is named by a number, a database by its index. The eviction of
    keys is modelled with the allocator, the idle times and the random draws as
    parameters. The dispatcher takes the eviction, the service of clients blocked on
    lists and the commands of other files as arguments: what it expects of the first is
    the class [EvictionSafe] of ExecSafe.v, of which [freeMemoryIfNeeded] is an instance;
    the second is not reached while no client is blocked ([idle]), which the modelled
    commands keep, and no theorem is about a request for one of the third.

    ** Sentinel

    - Sentinel.v: sentinel.c, the acting half of a sentinel: failure detection, votes,
      the failover state machine, hello messages, the timer. SentinelNet.v: a network
      of sentinels that monitor one master, whose messages are lost, repeated and
      delayed at will.
    - SentinelSpec.v, SentinelElection.v, SentinelSafety.v: who voted for whom, the
      invariant of a sentinel and of the network, that elections in one epoch have one
      winner, and a run with two winners for one failover epoch. SentinelSlave.v: the
      slave that is selected is the best one. SentinelLive.v: a failover ends
      when the links accept commands and the promoted slave stays up.

    ** What is proved

    - Invariant.v, Steps.v, StringSpec.v, KeySpec.v, Links.v: the consistency
      [server_ok] of the tables, and the effect of every operation and command as a
      function of the state, up to what only others read ([quiet]).
    - Safety.v, ExecSafe.v, Reach.v: no [harmless] request for a modelled command fails
      an assertion or leaves a buffer, in any state that clients can reach by connecting,
      sending such requests and disconnecting while the clock advances and keys are
      evicted. Patterns that the glob matcher reads past, and a SETRANGE that overflows,
      are not harmless.
    - RdbFile.v: a dump is loaded as it was, by a process of any encoding limits with
      enough databases; a dump that was cut is refused; a save writes the whole dump or
      fails; DUMP and RESTORE agree, and a payload that was changed is refused.
    - View.v, Commands.v: what clients observe: SET/GET, MSETNX, RENAME, MOVE, DEL,
      INCRBY, SETRANGE/GETRANGE, PEXPIRE/PTTL.
    - Marking.v, WatchSound.v: WATCH is sound, but for MOVE, PERSIST and eviction, and
      EXEC of a marked client aborts.
    - Messages.v: PUBLISH delivers exactly; Access.v: the command table and the
      password; RequestSpec.v: requests are read back as written, in one piece or
      in several, and pipelines are executed in order.

    ** Fuel

    A loop that is not structural takes fuel, and the theorems say that what the
    definitions pass is enough: the bytes of the block for the loops over a ziplist
    or a string (every turn passes at least one), the number of buckets for the
    tables, the number of digits for integers, the pattern and the string for the
    glob matcher, the number of requests for [processInputBuffer], the bytes to pass
    for a stream, the entries to save for a table, the bytes of the file for the loop
    of [rdbLoad], the nodes of a skip list for a walk along one of its levels.

    ** Not modelled

    System calls and what is made of them (ae, anet, the output buffers, the append
    only file, background saving, the renaming of the dump, replication, the links of
    sentinels, bio), Lua, the configuration file, the statistics
    and debugging commands, the tools, floating point (INCRBYFLOAT; of scores the
    comparisons are modelled, and the sum and the conversions to strings are parameters), the replies of the commands
    on lists, sets, hashes and sorted sets (the key space of the server layer moves
    their values around as abstract contents), unions and intersections of sorted
    sets, sorted sets in dumps, the commands around the bit operations, HyperLogLog;
    reference counts and allocation failure (zmalloc aborts). Everything under deps/ and the web application are
    other programs. *)
From stdpp Require Export base list numbers option strings sorting sets gmap.
From Stdlib Require Export ZArith Lia.

#[global] Set Default Proof Using "Type".
#[global] Set Warnings "-clear-no-such-hyp".
Open Scope Z_scope.

(** ** Machine integers

    A C integer is a [Z]; the casts that can change its value are written
    out with these two functions. *)
Definition uwrap (w z : Z) : Z := z mod 2 ^ w.
Definition swrap (w z : Z) : Z := (z + 2 ^ (w - 1)) mod 2 ^ w - 2 ^ (w - 1).

Abbreviation u8 := (uwrap 8).
Abbreviation u16 := (uwrap 16).
Abbreviation u32 := (uwrap 32).
Abbreviation u64 := (uwrap 64).
Abbreviation s8 := (swrap 8).
Abbreviation s16 := (swrap 16).
Abbreviation s32 := (swrap 32).
Abbreviation s64 := (swrap 64).

Definition INT16_MIN : Z := -32768.
Definition INT16_MAX : Z := 32767.
Definition INT32_MIN : Z := -2147483648.
Definition INT32_MAX : Z := 2147483647.
Definition LLONG_MIN : Z := -9223372036854775808.
Definition LLONG_MAX : Z := 9223372036854775807.
Definition ULLONG_MAX : Z := 18446744073709551615.

(** [x] fits a signed integer of [w] bits. *)
Definition sfits (w x : Z) : Prop := - 2 ^ (w - 1) <= x < 2 ^ (w - 1).

(** C's truth value of a comparison. *)
Definition b2z (b : bool) : Z := if b then 1 else 0.

Lemma uwrap_small w x : 0 <= x < 2 ^ w -> uwrap w x = x.
Proof. intros. by apply Z.mod_small. Qed.

Lemma uwrap_range w x : 0 <= w -> 0 <= uwrap w x < 2 ^ w.
Proof. intros. apply Z.mod_pos_bound. lia. Qed.

Lemma swrap_small w x : 0 < w -> sfits w x -> swrap w x = x.
Proof.
  unfold sfits, swrap. intros Hw Hx.
  assert (2 ^ w = 2 * 2 ^ (w - 1)) as Hp.
  { rewrite <- Z.pow_succ_r by lia. f_equal. lia. }
  rewrite Z.mod_small; lia.
Qed.

Lemma swrap_fits w x : 0 < w -> sfits w (swrap w x).
Proof.
  unfold sfits, swrap. intros Hw.
  assert (2 ^ w = 2 * 2 ^ (w - 1)) as Hp.
  { rewrite <- Z.pow_succ_r by lia. f_equal. lia. }
  assert (0 < 2 ^ (w - 1)) by (apply Z.pow_pos_nonneg; lia).
  pose proof (Z.mod_pos_bound (x + 2 ^ (w - 1)) (2 ^ w)). lia.
Qed.

Lemma swrap_uwrap_ge w v x : 0 < w <= v -> swrap w (uwrap v x) = swrap w x.
Proof.
  intros Hw. unfold swrap, uwrap. assert (2 ^ w <> 0) by (apply Z.pow_nonzero; lia).
  rewrite <- Z.add_mod_idemp_l, Z.mod_mod_divide, Z.add_mod_idemp_l; [done|done| |done].
  exists (2 ^ (v - w)). rewrite <- Z.pow_add_r by lia. f_equal. lia.
Qed.

Lemma swrap_uwrap w x : 0 < w -> swrap w (uwrap w x) = swrap w x.
Proof.
  unfold swrap, uwrap. intros. by rewrite Zplus_mod_idemp_l.
Qed.

(** ** Byte strings *)

(** The bytes of a C string literal, terminator not included. *)
Definition zs (s : string) : list Z :=
  map (fun c => Z.of_N (Ascii.N_of_ascii c)) (String.list_ascii_of_string s).

Definition byte_ok (b : Z) : Prop := 0 <= b < 256.
Abbreviation bytes_ok := (Forall byte_ok).

Definition zlen {A} (l : list A) : Z := Z.of_nat (length l).

Lemma Z2Nat_inj_zlen {A} (l : list A) : Z.to_nat (zlen l) = length l.
Proof. unfold zlen. lia. Qed.

Lemma zlen_nonneg {A} (l : list A) : 0 <= zlen l.
Proof. unfold zlen. lia. Qed.

Lemma zlen_app {A} (l k : list A) : zlen (l ++ k) = zlen l + zlen k.
Proof. unfold zlen. rewrite length_app. lia. Qed.

Lemma zlen_cons {A} (x : A) l : zlen (x :: l) = 1 + zlen l.
Proof. unfold zlen. simpl. lia. Qed.

Lemma zlen_nil {A} : zlen (@nil A) = 0.
Proof. done. Qed.

Lemma zlen_zero {A} (l : list A) : zlen l = 0 -> l = [].
Proof. unfold zlen. destruct l; simpl; [done|lia]. Qed.

Lemma zlen_take {A} n (l : list A) :
  0 <= n <= zlen l -> zlen (take (Z.to_nat n) l) = n.
Proof. unfold zlen. intros. rewrite length_take. lia. Qed.

Lemma zlen_drop {A} n (l : list A) :
  0 <= n <= zlen l -> zlen (drop (Z.to_nat n) l) = zlen l - n.
Proof. unfold zlen. intros. rewrite length_drop. lia. Qed.

Lemma zlen_replicate {A} n (x : A) :
  0 <= n -> zlen (replicate (Z.to_nat n) x) = n.
Proof. unfold zlen. intros. rewrite length_replicate. lia. Qed.

(** ** Memory blocks

    A C object of known size is a list of bytes. An access outside the
    object has no meaning in C: it is [None] here, so a theorem that says an
    operation returns [Some _] also says that it stays in bounds. *)
Definition rd {A} (m : list A) (i : Z) : option A :=
  if 0 <=? i then m !! Z.to_nat i else None.

Definition wr {A} (m : list A) (i : Z) (v : A) : option (list A) :=
  if (0 <=? i) && (i <? zlen m) then Some (<[Z.to_nat i := v]> m) else None.

(** [memcpy] out of, and into, a block. *)
Definition rd_block {A} (m : list A) (off n : Z) : option (list A) :=
  if (0 <=? off) && (0 <=? n) && (off + n <=? zlen m)
  then Some (take (Z.to_nat n) (drop (Z.to_nat off) m)) else None.

Definition wr_block {A} (m : list A) (off : Z) (src : list A) : option (list A) :=
  if (0 <=? off) && (off + zlen src <=? zlen m)
  then Some (take (Z.to_nat off) m ++ src ++ drop (Z.to_nat (off + zlen src)) m)
  else None.

(** [memmove(m+dst, m+src, n)]. *)
Definition memmove {A} (m : list A) (dst src n : Z) : option (list A) :=
  blk ← rd_block m src n; wr_block m dst blk.

Section memory.
Context {A : Type}.
Implicit Types (m k l src : list A) (i off n : Z).

Lemma rd_nat m (i : nat) : rd m (Z.of_nat i) = m !! i.
Proof. unfold rd. rewrite Nat2Z.id. by destruct (Z.leb_spec 0 (Z.of_nat i)); [|lia]. Qed.

Lemma rd_None_neg m i : i < 0 -> rd m i = None.
Proof. intros. unfold rd. by destruct (Z.leb_spec 0 i); [lia|]. Qed.

Lemma rd_None_ge m i : zlen m <= i -> rd m i = None.
Proof.
  unfold rd, zlen. intros. destruct (Z.leb_spec 0 i); [|done].
  apply lookup_ge_None. lia.
Qed.

Lemma rd_Some_bound m i x : rd m i = Some x -> 0 <= i < zlen m.
Proof.
  unfold rd, zlen. destruct (Z.leb_spec 0 i); [|done].
  intros ?%lookup_lt_Some. lia.
Qed.

Lemma rd_is_Some m i : 0 <= i < zlen m -> exists x, rd m i = Some x.
Proof.
  unfold rd, zlen. intros. destruct (Z.leb_spec 0 i); [|lia].
  apply lookup_lt_is_Some. lia.
Qed.

Lemma rd_app_l m k i : i < zlen m -> rd (m ++ k) i = rd m i.
Proof.
  unfold rd, zlen. intros. destruct (Z.leb_spec 0 i); [|done].
  apply lookup_app_l. lia.
Qed.

Lemma rd_app_r m k i : zlen m <= i -> rd (m ++ k) i = rd k (i - zlen m).
Proof.
  unfold rd, zlen. intros. destruct (Z.leb_spec 0 i), (Z.leb_spec 0 (i - Z.of_nat (length m)));
    try lia.
  rewrite lookup_app_r by lia. f_equal. lia.
Qed.

Lemma rd_here m x k i : i = zlen m -> rd (m ++ x :: k) i = Some x.
Proof. intros ->. rewrite rd_app_r by lia. by rewrite Z.sub_diag. Qed.

Lemma rd_at m x k : rd (m ++ x :: k) (zlen m) = Some x.
Proof. by apply rd_here. Qed.

Lemma rd_cons x m i : 0 < i -> rd (x :: m) i = rd m (i - 1).
Proof. intros. apply (rd_app_r [x] m i). rewrite zlen_cons, zlen_nil. lia. Qed.

Lemma rd_split m i x :
  rd m i = Some x ->
  m = take (Z.to_nat i) m ++ x :: drop (S (Z.to_nat i)) m.
Proof.
  unfold rd. destruct (Z.leb_spec 0 i); [|done].
  intros. symmetry. by apply take_drop_middle.
Qed.

Lemma rd_mid m i x : rd m i = Some x -> exists a b, m = a ++ x :: b /\ zlen a = i.
Proof.
  intros Hx. pose proof (rd_Some_bound _ _ _ Hx) as Hb.
  exists (take (Z.to_nat i) m), (drop (S (Z.to_nat i)) m). split; [by apply rd_split|].
  unfold zlen in *. rewrite length_take. lia.
Qed.

Lemma rd_elem m i x : rd m i = Some x -> x ∈ m.
Proof.
  unfold rd. destruct (Z.leb_spec 0 i); [|done]. apply list_elem_of_lookup_2.
Qed.

Lemma rd_Forall (P : A -> Prop) m i x : Forall P m -> rd m i = Some x -> P x.
Proof. intros Hm Hx%rd_elem. rewrite Forall_forall in Hm. auto. Qed.

Lemma wr_here m x k i v : i = zlen m -> wr (m ++ x :: k) i v = Some (m ++ v :: k).
Proof.
  intros ->. unfold wr. pose proof (zlen_nonneg m).
  rewrite zlen_app, zlen_cons. pose proof (zlen_nonneg k).
  destruct (Z.leb_spec 0 (zlen m)), (Z.ltb_spec (zlen m) (zlen m + (1 + zlen k)));
    try lia.
  simpl. f_equal. unfold zlen. rewrite Nat2Z.id.
  by rewrite insert_app_r_alt, Nat.sub_diag by lia.
Qed.

Lemma wr_head x k v : wr (x :: k) 0 v = Some (v :: k).
Proof. by apply (wr_here [] x k 0 v). Qed.

Lemma wr_ok m i v :
  0 <= i < zlen m -> wr m i v = Some (<[Z.to_nat i := v]> m).
Proof.
  unfold wr. intros. destruct (Z.leb_spec 0 i), (Z.ltb_spec i (zlen m)); done || lia.
Qed.

Lemma wr_Some m i v m' :
  wr m i v = Some m' -> 0 <= i < zlen m /\ m' = <[Z.to_nat i := v]> m.
Proof.
  unfold wr. destruct (Z.leb_spec 0 i), (Z.ltb_spec i (zlen m)); simpl;
    intros; simplify_eq; done.
Qed.

Lemma zlen_insert m (i : nat) v : zlen (<[i := v]> m) = zlen m.
Proof. unfold zlen. by rewrite length_insert. Qed.

Lemma rd_block_mid a b c m off n :
  m = a ++ b ++ c -> off = zlen a -> n = zlen b -> rd_block m off n = Some b.
Proof.
  intros -> -> ->. unfold rd_block. rewrite !zlen_app.
  pose proof (zlen_nonneg a). pose proof (zlen_nonneg b). pose proof (zlen_nonneg c).
  destruct (Z.leb_spec 0 (zlen a)), (Z.leb_spec 0 (zlen b)),
    (Z.leb_spec (zlen a + zlen b) (zlen a + (zlen b + zlen c))); try lia.
  simpl. f_equal. unfold zlen. rewrite !Nat2Z.id.
  by rewrite drop_app_length, take_app_length.
Qed.

Lemma wr_block_mid a b c m off src :
  m = a ++ b ++ c -> off = zlen a -> zlen src = zlen b ->
  wr_block m off src = Some (a ++ src ++ c).
Proof.
  intros -> -> Hsrc. unfold wr_block. rewrite !zlen_app, Hsrc.
  pose proof (zlen_nonneg a). pose proof (zlen_nonneg c).
  destruct (Z.leb_spec 0 (zlen a)),
    (Z.leb_spec (zlen a + zlen b) (zlen a + (zlen b + zlen c))); try lia.
  simpl. f_equal. unfold zlen. rewrite Nat2Z.id, take_app_length.
  do 2 f_equal. rewrite app_assoc.
  apply drop_app_length'. rewrite length_app. lia.
Qed.

Lemma rd_block_ok m off n :
  0 <= off -> 0 <= n -> off + n <= zlen m ->
  rd_block m off n = Some (take (Z.to_nat n) (drop (Z.to_nat off) m)).
Proof.
  unfold rd_block. intros.
  by destruct (Z.leb_spec 0 off), (Z.leb_spec 0 n), (Z.leb_spec (off + n) (zlen m));
    try lia.
Qed.

Lemma rd_block_Some m off n b :
  rd_block m off n = Some b ->
  0 <= off /\ 0 <= n /\ off + n <= zlen m /\ zlen b = n /\
  m = take (Z.to_nat off) m ++ b ++ drop (Z.to_nat (off + n)) m.
Proof.
  unfold rd_block.
  destruct (Z.leb_spec 0 off), (Z.leb_spec 0 n), (Z.leb_spec (off + n) (zlen m));
    simpl; intros; simplify_eq.
  split_and!; [done..| |].
  - unfold zlen in *. rewrite length_take, length_drop. lia.
  - rewrite Z2Nat.inj_add by lia. rewrite <- drop_drop.
    by rewrite !take_drop.
Qed.

Lemma wr_block_Some m off src m' :
  wr_block m off src = Some m' ->
  0 <= off /\ off + zlen src <= zlen m /\ zlen m' = zlen m /\
  m' = take (Z.to_nat off) m ++ src ++ drop (Z.to_nat (off + zlen src)) m.
Proof.
  unfold wr_block.
  destruct (Z.leb_spec 0 off), (Z.leb_spec (off + zlen src) (zlen m));
    simpl; intros; simplify_eq.
  split_and!; [done..| |done].
  pose proof (zlen_nonneg src).
  rewrite !zlen_app, zlen_take, zlen_drop; lia.
Qed.

Lemma wr_block_ok m off src :
  0 <= off -> off + zlen src <= zlen m ->
  wr_block m off src =
    Some (take (Z.to_nat off) m ++ src ++ drop (Z.to_nat (off + zlen src)) m).
Proof.
  unfold wr_block. intros.
  by destruct (Z.leb_spec 0 off), (Z.leb_spec (off + zlen src) (zlen m)); try lia.
Qed.
End memory.

(** ** Sorted lists *)
Lemma StronglySorted_rd {A} (R : A -> A -> Prop) l i j x y :
  StronglySorted R l -> rd l i = Some x -> rd l j = Some y -> i < j -> R x y.
Proof.
  intros Hs. revert i j. induction Hs as [|a l Hs IH Ha]; intros i j Hi Hj Hij.
  - apply rd_Some_bound in Hi. unfold zlen in Hi. simpl in Hi. lia.
  - pose proof (rd_Some_bound _ _ _ Hi).
    rewrite (rd_cons a l j) in Hj by lia.
    destruct (Z.eq_dec i 0) as [->|].
    + injection Hi as <-. by eapply rd_Forall.
    + rewrite rd_cons in Hi by lia. eapply IH; eauto. lia.
Qed.

Lemma StronglySorted_snoc {A} (R : A -> A -> Prop) l x :
  StronglySorted R l -> Forall (fun y => R y x) l -> StronglySorted R (l ++ [x]).
Proof.
  induction 1 as [|y l Hs IH Hy]; intros Hx; simpl; [by repeat constructor|].
  inversion Hx; subst. constructor; [by apply IH|].
  apply Forall_app. split; [done|]. by repeat constructor.
Qed.

Lemma StronglySorted_filter {A} (R : A -> A -> Prop) (P : A -> Prop)
    `{forall x, Decision (P x)} l :
  StronglySorted R l -> StronglySorted R (filter P l).
Proof.
  induction 1 as [|y l Hs IH Hy]; [constructor|].
  destruct (decide (P y)).
  - rewrite filter_cons_True by done. constructor; [done|].
    apply Forall_forall. intros x [_ Hx]%list_elem_of_filter.
    by rewrite Forall_forall in Hy; apply Hy.
  - by rewrite filter_cons_False.
Qed.

(** [zrealloc] keeps the common prefix; the bytes it adds hold whatever the
    allocator left there, the arbitrary function [uninit]. *)
Definition realloc (uninit : nat -> Z) (m : list Z) (n : Z) : list Z :=
  take (Z.to_nat n) m ++
  map (fun i => u8 (uninit i)) (seq (length m) (Z.to_nat n - length m)).

Lemma zlen_realloc uninit m n : 0 <= n -> zlen (realloc uninit m n) = n.
Proof.
  intros. unfold realloc, zlen.
  rewrite length_app, length_take, length_map, length_seq. lia.
Qed.

Lemma realloc_shrink uninit m k n : n = zlen m -> realloc uninit (m ++ k) n = m.
Proof.
  intros ->. unfold realloc, zlen. rewrite Nat2Z.id, take_app_length, length_app.
  replace (length m - (length m + length k))%nat with O by lia. simpl.
  by rewrite app_nil_r.
Qed.

Lemma realloc_grow uninit m n :
  zlen m <= n -> exists fresh, realloc uninit m n = m ++ fresh /\
    zlen fresh = n - zlen m /\ bytes_ok fresh.
Proof.
  unfold zlen. intros. unfold realloc. eexists. split_and!.
  - rewrite take_ge by lia. reflexivity.
  - rewrite length_map, length_seq. lia.
  - apply Forall_forall. intros b (i & -> & _)%list_elem_of_fmap.
    apply (uwrap_range 8). lia.
Qed.

(** ** Bit fields *)

Lemma lor_add a b k : 0 <= k -> 0 <= b < 2 ^ k -> Z.lor (Z.shiftl a k) b = a * 2 ^ k + b.
Proof.
  intros Hk Hb. rewrite <- Z.shiftl_mul_pow2 by done. rewrite <- Zbitwise.Z.add_lor_land.
  assert (Z.land (Z.shiftl a k) b = 0) as ->; [|lia].
  apply Z.bits_inj'. intros i Hi. rewrite Z.land_spec, Z.bits_0. destruct (Z.ltb_spec i k).
  - by rewrite Z.shiftl_spec_low.
  - rewrite (Z.mod_small_iff b (2 ^ k) ltac:(lia)) in * || idtac.
    rewrite <- (Z.mod_small b (2 ^ k)) by done. rewrite Z.mod_pow2_bits_high by lia. apply andb_false_r.
Qed.

(** A property of the numbers below [n], by cases. *)
Lemma below (P : Z -> bool) n : forallb P (map Z.of_nat (seq 0 n)) = true -> forall x, 0 <= x < Z.of_nat n -> P x = true.
Proof.
  rewrite forallb_forall. intros H x Hx. apply H, in_map_iff. exists (Z.to_nat x). split; [lia|]. apply in_seq. lia.
Qed.

Lemma byte_of n k : 0 <= k -> Z.land (Z.shiftr n k) 255 = (n / 2 ^ k) mod 256.
Proof. intros. rewrite Z.shiftr_div_pow2 by done. change 255 with (Z.ones 8). by rewrite Z.land_ones. Qed.

Lemma land_byte n : Z.land n 255 = n mod 256.
Proof. change 255 with (Z.ones 8). by rewrite Z.land_ones. Qed.

Lemma land_byte_ok n : byte_ok (Z.land n 255).
Proof. rewrite land_byte. apply Z.mod_pos_bound. lia. Qed.

(** ** Little-endian integers and arrays of fixed-size cells *)
Fixpoint le_bytes (n : nat) (z : Z) : list Z :=
  match n with O => [] | S n => z mod 256 :: le_bytes n (z / 256) end.

Fixpoint le_val (l : list Z) : Z :=
  match l with [] => 0 | b :: l => b + 256 * le_val l end.

Definition be_bytes (n : nat) (z : Z) : list Z := rev (le_bytes n z).
Definition be_val (l : list Z) : Z := le_val (rev l).

Lemma length_le_bytes n z : length (le_bytes n z) = n.
Proof. revert z. induction n; simpl; auto. Qed.

Lemma zlen_le_bytes n z : zlen (le_bytes n z) = Z.of_nat n.
Proof. unfold zlen. by rewrite length_le_bytes. Qed.

Lemma le_bytes_ok n z : bytes_ok (le_bytes n z).
Proof.
  revert z. induction n; simpl; constructor; auto.
  apply Z.mod_pos_bound. lia.
Qed.

Lemma le_val_bytes n z : le_val (le_bytes n z) = z mod 256 ^ Z.of_nat n.
Proof.
  revert z. induction n as [|n IH]; intros z; simpl.
  - by rewrite Z.mod_1_r.
  - rewrite IH, Nat2Z.inj_succ, Z.pow_succ_r by lia.
    rewrite Z.rem_mul_r; lia.
Qed.

Lemma le_val_uwrap n z : le_val (le_bytes n z) = uwrap (8 * Z.of_nat n) z.
Proof. rewrite le_val_bytes. unfold uwrap. by rewrite Z.pow_mul_r by lia. Qed.

Lemma le_bytes_val l : bytes_ok l -> le_bytes (length l) (le_val l) = l.
Proof.
  unfold byte_ok. induction 1 as [|b l Hb _ IH]; [done|]. simpl.
  rewrite Z.mul_comm. f_equal.
  - rewrite Z.mod_add by lia. by apply Z.mod_small.
  - rewrite Z.div_add by lia. by rewrite Z.div_small, Z.add_0_l.
Qed.

Lemma le_val_range l : bytes_ok l -> 0 <= le_val l < 256 ^ zlen l.
Proof.
  unfold byte_ok. induction 1 as [|b l Hb _ IH]; [done|].
  cbn [le_val]. rewrite zlen_cons, Z.pow_add_r, Z.pow_1_r; pose proof (zlen_nonneg l); lia.
Qed.

Lemma le_bytes_mod n z : le_bytes n (z mod 256 ^ Z.of_nat n) = le_bytes n z.
Proof.
  rewrite <- le_val_bytes. rewrite <- (length_le_bytes n z) at 1.
  apply le_bytes_val, le_bytes_ok.
Qed.

(** A signed integer stored in [k] bytes reads back as itself. *)
Lemma swrap_le_val k v :
  (0 < k)%nat -> sfits (8 * Z.of_nat k) v ->
  swrap (8 * Z.of_nat k) (le_val (le_bytes k v)) = v.
Proof.
  intros. rewrite le_val_uwrap, swrap_uwrap by lia. apply swrap_small; [lia|done].
Qed.

Definition cells (k : nat) (l : list Z) : list Z := concat (map (le_bytes k) l).

Lemma cells_app k l1 l2 : cells k (l1 ++ l2) = cells k l1 ++ cells k l2.
Proof. unfold cells. by rewrite map_app, concat_app. Qed.

Lemma cells_cons k x l : cells k (x :: l) = le_bytes k x ++ cells k l.
Proof. done. Qed.

Lemma zlen_cells k l : zlen (cells k l) = zlen l * Z.of_nat k.
Proof.
  induction l as [|x l IH]; [done|].
  rewrite cells_cons, zlen_app, zlen_cons, zlen_le_bytes, IH. lia.
Qed.

Lemma cells_bytes_ok k l : bytes_ok (cells k l).
Proof.
  induction l as [|x l IH]; [constructor|].
  rewrite cells_cons. apply Forall_app. split; [apply le_bytes_ok|done].
Qed.

Lemma rd_block_cells k l i v :
  rd l i = Some v ->
  rd_block (cells k l) (i * Z.of_nat k) (Z.of_nat k) = Some (le_bytes k v).
Proof.
  intros Hi. pose proof (rd_Some_bound _ _ _ Hi).
  apply (rd_block_mid (cells k (take (Z.to_nat i) l)) (le_bytes k v)
           (cells k (drop (S (Z.to_nat i)) l))).
  - by rewrite (rd_split _ _ _ Hi) at 1; rewrite cells_app, cells_cons.
  - by rewrite zlen_cells, zlen_take by lia.
  - by rewrite zlen_le_bytes.
Qed.

Lemma wr_block_cells k l i v :
  0 <= i < zlen l ->
  wr_block (cells k l) (i * Z.of_nat k) (le_bytes k v)
  = Some (cells k (<[Z.to_nat i := v]> l)).
Proof.
  intros Hi. destruct (rd_is_Some l i Hi) as [x Hx].
  pose proof (rd_split _ _ _ Hx) as Hl.
  erewrite (wr_block_mid (cells k (take (Z.to_nat i) l)) (le_bytes k x)
              (cells k (drop (S (Z.to_nat i)) l))).
  - f_equal. rewrite insert_take_drop by (unfold zlen in *; lia).
    by rewrite cells_app, cells_cons.
  - by rewrite Hl at 1; rewrite cells_app, cells_cons.
  - by rewrite zlen_cells, zlen_take by lia.
  - by rewrite !zlen_le_bytes.
Qed.

(** Any block whose size is a multiple of the cell size is an array. *)
Lemma cells_of_bytes k (n : nat) m :
  (0 < k)%nat -> bytes_ok m -> zlen m = Z.of_nat n * Z.of_nat k ->
  exists l, length l = n /\ m = cells k l.
Proof.
  intros Hk. revert m. induction n as [|n IH]; intros m Hm Hlen.
  - exists []. split; [done|]. apply zlen_zero. lia.
  - destruct (IH (drop k m)) as (l & Hl & Hd).
    + by apply Forall_drop.
    + unfold zlen in *. rewrite length_drop. lia.
    + exists (le_val (take k m) :: l). split; [simpl; lia|].
      rewrite cells_cons, <- Hd. rewrite <- (take_drop k m) at 1. f_equal.
      rewrite <- (le_bytes_val (take k m)) at 1 by by apply Forall_take.
      f_equal. rewrite length_take. unfold zlen in *. lia.
Qed.

Create Rewrite HintDb zlen.
#[export] Hint Rewrite @zlen_app @zlen_cons @zlen_nil @zlen_insert zlen_cells
  zlen_le_bytes : zlen.
Ltac zlen := autorewrite with zlen in *; simpl length in *;
  repeat match goal with
  | |- context [zlen ?l] => lazymatch goal with
      | _ : 0 <= zlen l |- _ => fail | _ => pose proof (zlen_nonneg l) end
  end; try lia.

(** Lengths of concatenations in the goal. *)
Ltac zlens := repeat first
  [ rewrite zlen_app | rewrite zlen_cons
  | match goal with |- context [zlen (@nil ?A)] => change (zlen (@nil A)) with 0 end ].
