(* ===== verification/Endian.v ===== *)
(** * Byte order (src/redis-2.8.19/src/endianconv.c)

    The in-place reversals of 2, 4 and 8 byte objects, by the same swaps
    through a temporary as the C code, and the integer versions built on them.
    The theorems say that the reversals are involutions, stay in bounds, and
    turn a little-endian object into the big-endian one. *)
From S2P Require Import Prelude.
Open Scope Z_scope.

(** [t = x[i]; x[i] = x[j]; x[j] = t;] *)
Definition swap_bytes (x : list Z) (i j : Z) : option (list Z) :=
  t ← rd x i;
  xj ← rd x j;
  x ← wr x i xj;
  wr x j t.

Definition memrev16 (x : list Z) : option (list Z) := swap_bytes x 0 1.

Definition memrev32 (x : list Z) : option (list Z) :=
  x ← swap_bytes x 0 3;
  swap_bytes x 1 2.

Definition memrev64 (x : list Z) : option (list Z) :=
  x ← swap_bytes x 0 7;
  x ← swap_bytes x 1 6;
  x ← swap_bytes x 2 5;
  swap_bytes x 3 4.

(** The integer versions reverse the object that holds the argument, on a
    little-endian host. *)
Definition intrev16 (v : Z) : option Z := le_val <$> memrev16 (le_bytes 2 v).
Definition intrev32 (v : Z) : option Z := le_val <$> memrev32 (le_bytes 4 v).
Definition intrev64 (v : Z) : option Z := le_val <$> memrev64 (le_bytes 8 v).

(** ** Lemmas *)

Lemma memrev16_spec b0 b1 rest :
  memrev16 (b0 :: b1 :: rest) = Some (b1 :: b0 :: rest).
Proof.
  unfold memrev16, swap_bytes, wr. simpl.
  pose proof (zlen_nonneg rest). rewrite !zlen_cons.
  repeat (case_match; [|lia]). done.
Qed.

Lemma memrev32_spec b0 b1 b2 b3 :
  memrev32 [b0; b1; b2; b3] = Some [b3; b2; b1; b0].
Proof. reflexivity. Qed.

Lemma memrev64_spec b0 b1 b2 b3 b4 b5 b6 b7 :
  memrev64 [b0; b1; b2; b3; b4; b5; b6; b7] = Some [b7; b6; b5; b4; b3; b2; b1; b0].
Proof. reflexivity. Qed.

Lemma memrev32_rev x : length x = 4%nat -> memrev32 x = Some (rev x).
Proof. intros. do 5 (destruct x as [|? x]; try done). Qed.

Lemma memrev64_rev x : length x = 8%nat -> memrev64 x = Some (rev x).
Proof. intros. do 9 (destruct x as [|? x]; try done). Qed.

Lemma intrev64_be v : intrev64 v = Some (le_val (be_bytes 8 v)).
Proof. unfold intrev64. rewrite memrev64_rev by apply length_le_bytes. done. Qed.

Lemma intrev_involutive k v :
  0 <= v < 256 ^ Z.of_nat k ->
  le_val (rev (le_bytes k (le_val (rev (le_bytes k v))))) = v.
Proof.
  intros.
  assert (le_bytes k (le_val (rev (le_bytes k v))) = rev (le_bytes k v)) as ->.
  { rewrite <- (le_bytes_val (rev (le_bytes k v))) at 2.
    - by rewrite length_rev, length_le_bytes.
    - apply Forall_rev, le_bytes_ok. }
  rewrite rev_involutive, le_val_bytes. by apply Z.mod_small.
Qed.

(** Reversing the bytes of a 64-bit integer twice gives it back, and the
    reversed integer is the value of the big-endian bytes read as little-endian
    ones; the swaps never leave the eight bytes. *)
Theorem intrev64_roundtrip v :
  0 <= v < 2 ^ 64 ->
  exists r, intrev64 v = Some r /\ 0 <= r < 2 ^ 64 /\
    le_bytes 8 r = be_bytes 8 v /\ intrev64 r = Some v.
Proof.
  intros Hv. exists (le_val (be_bytes 8 v)).
  assert (bytes_ok (be_bytes 8 v)) as Hok by apply Forall_rev, le_bytes_ok.
  assert (length (be_bytes 8 v) = 8%nat) as Hlen.
  { unfold be_bytes. by rewrite length_rev, length_le_bytes. }
  split_and!.
  - apply intrev64_be.
  - by apply le_val_range.
  - pose proof (le_val_range _ Hok) as H. unfold zlen in H. rewrite Hlen in H. apply H.
  - rewrite <- Hlen at 1. by apply le_bytes_val.
  - rewrite intrev64_be. f_equal. unfold be_bytes.
    apply (intrev_involutive 8). done.
Qed.

Lemma intrev64_roundtrip_witness :
  exists r, intrev64 4660 = Some r /\ 0 <= r < 2 ^ 64 /\
    le_bytes 8 r = be_bytes 8 4660 /\ intrev64 r = Some 4660.
Proof. apply (intrev64_roundtrip 4660). lia. Defined.
