(* ===== verification/Intset.v ===== *)
(** * Integer sets (src/redis-2.8.19/src/intset.c)

    The [intset] object is modelled at the byte level: the two header fields
    and the [contents] bytes, little-endian cells of 2, 4 or 8 bytes. Every
    read and write of [contents] is bounds checked ([None] when it leaves the
    block), [zrealloc] leaves arbitrary bytes in the room it adds, and the
    casts to [uint32_t] and [int] are written out.

    The theorems show that the operations implement a finite set of 64-bit
    integers, a strictly sorted list: search, insertion (with the in-place
    encoding upgrade), removal and membership. *)
From S2P Require Import Prelude.
Open Scope Z_scope.

Definition INTSET_ENC_INT16 : Z := 2.
Definition INTSET_ENC_INT32 : Z := 4.
Definition INTSET_ENC_INT64 : Z := 8.

Record intset := mkIntset { is_encoding : Z; is_length : Z; is_contents : list Z }.

(** [sizeof(intset)]: the two [uint32_t] header fields. *)
Definition sizeof_intset : Z := 8.

Section ops.
Context (uninit : nat -> Z).

Definition _intsetValueEncoding (v : Z) : Z :=
  if (v <? INT32_MIN) || (v >? INT32_MAX) then INTSET_ENC_INT64
  else if (v <? INT16_MIN) || (v >? INT16_MAX) then INTSET_ENC_INT32
  else INTSET_ENC_INT16.

Definition _intsetGetEncoded (s : intset) (pos enc : Z) : option Z :=
  if enc =? INTSET_ENC_INT64 then
    v64 ← rd_block (is_contents s) (pos * 8) 8; Some (s64 (le_val v64))
  else if enc =? INTSET_ENC_INT32 then
    v32 ← rd_block (is_contents s) (pos * 4) 4; Some (s32 (le_val v32))
  else
    v16 ← rd_block (is_contents s) (pos * 2) 2; Some (s16 (le_val v16)).

Definition _intsetGet (s : intset) (pos : Z) : option Z :=
  _intsetGetEncoded s pos (is_encoding s).

Definition _intsetSet (s : intset) (pos value : Z) : option intset :=
  c ← (if is_encoding s =? INTSET_ENC_INT64 then
         wr_block (is_contents s) (pos * 8) (le_bytes 8 value)
       else if is_encoding s =? INTSET_ENC_INT32 then
         wr_block (is_contents s) (pos * 4) (le_bytes 4 value)
       else
         wr_block (is_contents s) (pos * 2) (le_bytes 2 value));
  Some (mkIntset (is_encoding s) (is_length s) c).

Definition intsetNew : intset := mkIntset INTSET_ENC_INT16 0 [].

Definition intsetResize (s : intset) (len : Z) : intset :=
  let size := u32 (len * is_encoding s) in
  mkIntset (is_encoding s) (is_length s) (realloc uninit (is_contents s) size).

(** The loop of [intsetSearch]: it returns the final [min], [mid], [cur]. *)
Fixpoint search_loop (fuel : nat) (s : intset) (value min max mid cur : Z)
  : option (Z * Z * Z) :=
  if max >=? min then
    match fuel with
    | O => None
    | S fuel =>
        let mid := Z.shiftr (u32 (u32 min + u32 max)) 1 in
        cur ← _intsetGet s mid;
        if value >? cur then search_loop fuel s value (mid + 1) max mid cur
        else if value <? cur then search_loop fuel s value min (mid - 1) mid cur
        else Some (min, mid, cur)
    end
  else Some (min, mid, cur).

(** Result: the returned flag and [*pos]. *)
Definition intsetSearch (s : intset) (value : Z) : option (bool * Z) :=
  let min := 0 in
  let max := s32 (is_length s - 1) in
  if is_length s =? 0 then Some (false, 0)
  else
    last ← _intsetGet s (is_length s - 1);
    if value >? last then Some (false, is_length s)
    else
      first ← _intsetGet s 0;
      if value <? first then Some (false, 0)
      else
        '(min, mid, cur) ← search_loop (S (Z.to_nat (is_length s))) s value min max (-1) (-1);
        if value =? cur then Some (true, mid) else Some (false, min).

(** [while(length--) _intsetSet(s,length+prepend,_intsetGetEncoded(s,length,curenc));] *)
Fixpoint upgrade_loop (n : nat) (s : intset) (prepend curenc : Z) : option intset :=
  match n with
  | O => Some s
  | S n =>
      v ← _intsetGetEncoded s (Z.of_nat n) curenc;
      s ← _intsetSet s (Z.of_nat n + prepend) v;
      upgrade_loop n s prepend curenc
  end.

Definition intsetUpgradeAndAdd (s : intset) (value : Z) : option intset :=
  let curenc := is_encoding s in
  let newenc := _intsetValueEncoding value in
  let len := is_length s in
  let prepend := if value <? 0 then 1 else 0 in
  let s := mkIntset newenc (is_length s) (is_contents s) in
  let s := intsetResize s (u32 (is_length s + 1)) in
  s ← upgrade_loop (Z.to_nat len) s prepend curenc;
  s ← (if prepend =? 1 then _intsetSet s 0 value
        else _intsetSet s (is_length s) value);
  Some (mkIntset (is_encoding s) (u32 (is_length s + 1)) (is_contents s)).

Definition intsetMoveTail (s : intset) (from to : Z) : option intset :=
  let bytes := u32 (is_length s - from) in
  c ← (if is_encoding s =? INTSET_ENC_INT64 then
         memmove (is_contents s) (to * 8) (from * 8) (u32 (bytes * 8))
       else if is_encoding s =? INTSET_ENC_INT32 then
         memmove (is_contents s) (to * 4) (from * 4) (u32 (bytes * 4))
       else
         memmove (is_contents s) (to * 2) (from * 2) (u32 (bytes * 2)));
  Some (mkIntset (is_encoding s) (is_length s) c).

(** Result: the set and [*success]. *)
Definition intsetAdd (s : intset) (value : Z) : option (intset * bool) :=
  let valenc := _intsetValueEncoding value in
  if valenc >? is_encoding s then
    s ← intsetUpgradeAndAdd s value; Some (s, true)
  else
    '(found, pos) ← intsetSearch s value;
    if (found : bool) then Some (s, false)
    else
      let s := intsetResize s (u32 (is_length s + 1)) in
      s ← (if pos <? is_length s then intsetMoveTail s pos (pos + 1) else Some s);
      s ← _intsetSet s pos value;
      Some (mkIntset (is_encoding s) (u32 (is_length s + 1)) (is_contents s), true).

Definition intsetRemove (s : intset) (value : Z) : option (intset * bool) :=
  let valenc := _intsetValueEncoding value in
  if valenc <=? is_encoding s then
    '(found, pos) ← intsetSearch s value;
    if (found : bool) then
      let len := is_length s in
      s ← (if pos <? u32 (len - 1) then intsetMoveTail s (pos + 1) pos else Some s);
      let s := intsetResize s (u32 (len - 1)) in
      Some (mkIntset (is_encoding s) (u32 (len - 1)) (is_contents s), true)
    else Some (s, false)
  else Some (s, false).

Definition intsetFind (s : intset) (value : Z) : option bool :=
  let valenc := _intsetValueEncoding value in
  if valenc <=? is_encoding s then fst <$> intsetSearch s value else Some false.

(** [rand()] is the argument. *)
Definition intsetRandom (s : intset) (rand : Z) : option Z :=
  if is_length s =? 0 then None else _intsetGet s (rand mod is_length s).

(** [None] in the result is the return value 0, with [*value] not set. *)
Definition intsetGet (s : intset) (pos : Z) : option (option Z) :=
  if pos <? is_length s then Some <$> _intsetGet s pos else Some None.

Definition intsetLen (s : intset) : Z := is_length s.

Definition intsetBlobLen (s : intset) : Z :=
  sizeof_intset + u32 (is_length s * is_encoding s).
End ops.

(** ** Abstraction: a strictly sorted list *)

Definition enc_ok (e : Z) : Prop := e = 2 \/ e = 4 \/ e = 8.

Fixpoint insert_sorted (v : Z) (l : list Z) : list Z :=
  match l with
  | [] => [v]
  | x :: l' => if v <? x then v :: l else if v =? x then l else x :: insert_sorted v l'
  end.

Definition remove_sorted (v : Z) (l : list Z) : list Z :=
  filter (fun x => x <> v) l.

(** The object [s] holds the set whose sorted elements are [l]. *)
Record intset_repr (s : intset) (l : list Z) : Prop := {
  repr_enc : enc_ok (is_encoding s);
  repr_len : is_length s = zlen l;
  repr_cells : is_contents s = cells (Z.to_nat (is_encoding s)) l;
  repr_fits : Forall (sfits (8 * is_encoding s)) l;
  repr_sorted : StronglySorted Z.lt l
}.

(** The block, with room for one more element, is addressable by the
    [uint32_t] size computations. *)
Definition intset_small (l : list Z) : Prop := (zlen l + 1) * 8 < 2 ^ 32.

(** ** The branches on the encoding, once and for all *)

Section uniform.
Context (uninit : nat -> Z).

Lemma getEncoded_eq s pos e :
  enc_ok e ->
  _intsetGetEncoded s pos e
  = (b ← rd_block (is_contents s) (pos * e) e; Some (swrap (8 * e) (le_val b))).
Proof. intros [->|[->| ->]]; done. Qed.

Lemma set_eq s pos v :
  enc_ok (is_encoding s) ->
  _intsetSet s pos v
  = (c ← wr_block (is_contents s) (pos * is_encoding s)
           (le_bytes (Z.to_nat (is_encoding s)) v);
     Some (mkIntset (is_encoding s) (is_length s) c)).
Proof. unfold _intsetSet. by intros [->|[->| ->]]. Qed.

Lemma moveTail_eq s from to :
  enc_ok (is_encoding s) ->
  intsetMoveTail s from to
  = (c ← memmove (is_contents s) (to * is_encoding s) (from * is_encoding s)
           (u32 (u32 (is_length s - from) * is_encoding s));
     Some (mkIntset (is_encoding s) (is_length s) c)).
Proof. unfold intsetMoveTail. by intros [->|[->| ->]]. Qed.

Lemma enc_cell e : enc_ok e -> Z.of_nat (Z.to_nat e) = e /\ 0 < e.
Proof. intros [->|[->| ->]]; lia. Qed.

Lemma getEncoded_cells s pos e l x :
  enc_ok e -> is_contents s = cells (Z.to_nat e) l -> sfits (8 * e) x ->
  rd l pos = Some x -> _intsetGetEncoded s pos e = Some x.
Proof.
  intros He Hc Hx Hrd. destruct (enc_cell _ He) as [Hk Hpos].
  rewrite getEncoded_eq, Hc by done.
  pose proof (rd_block_cells (Z.to_nat e) _ _ _ Hrd) as Hb. rewrite Hk in Hb.
  rewrite Hb. simpl. f_equal. rewrite <- Hk at 1. apply swrap_le_val; [lia|].
  by rewrite Hk.
Qed.

Lemma get_repr s l pos x :
  intset_repr s l -> rd l pos = Some x -> _intsetGet s pos = Some x.
Proof.
  intros [] Hrd. eapply getEncoded_cells; eauto. by eapply rd_Forall.
Qed.

Lemma set_cells s l pos v :
  enc_ok (is_encoding s) -> is_contents s = cells (Z.to_nat (is_encoding s)) l ->
  0 <= pos < zlen l ->
  _intsetSet s pos v
  = Some (mkIntset (is_encoding s) (is_length s)
            (cells (Z.to_nat (is_encoding s)) (<[Z.to_nat pos := v]> l))).
Proof.
  intros He Hc Hpos. destruct (enc_cell _ He) as [Hk ?].
  rewrite set_eq, Hc by done.
  pose proof (wr_block_cells (Z.to_nat (is_encoding s)) l pos v) as Hw.
  rewrite Hk in Hw. by rewrite Hw.
Qed.

Lemma memmove_cells k l to from n :
  0 <= to -> 0 <= from -> 0 <= n -> to + n <= zlen l -> from + n <= zlen l ->
  memmove (cells k l) (to * Z.of_nat k) (from * Z.of_nat k) (n * Z.of_nat k)
  = Some (cells k (take (Z.to_nat to) l ++ take (Z.to_nat n) (drop (Z.to_nat from) l)
                     ++ drop (Z.to_nat (to + n)) l)).
Proof.
  intros. unfold memmove. set (b := take (Z.to_nat n) (drop (Z.to_nat from) l)).
  assert (zlen b = n) as Hb.
  { unfold b. apply zlen_take. rewrite zlen_drop; lia. }
  rewrite (rd_block_mid (cells k (take (Z.to_nat from) l)) (cells k b)
             (cells k (drop (Z.to_nat (from + n)) l))).
  - simpl. rewrite !cells_app. apply (wr_block_mid _
      (cells k (take (Z.to_nat n) (drop (Z.to_nat to) l)))).
    + rewrite <- !cells_app. f_equal.
      rewrite Z2Nat.inj_add, <- drop_drop by lia. by rewrite !take_drop.
    + rewrite zlen_cells, zlen_take; lia.
    + rewrite !zlen_cells, Hb, zlen_take; [done|]. rewrite zlen_drop; lia.
  - rewrite <- !cells_app. f_equal. unfold b.
    rewrite Z2Nat.inj_add, <- drop_drop by lia. by rewrite !take_drop.
  - rewrite zlen_cells, zlen_take; lia.
  - by rewrite zlen_cells, Hb.
Qed.

Lemma moveTail_cells s l from to :
  enc_ok (is_encoding s) -> is_contents s = cells (Z.to_nat (is_encoding s)) l ->
  0 <= to -> 0 <= from <= is_length s -> is_length s * is_encoding s < 2 ^ 32 ->
  to + (is_length s - from) <= zlen l -> is_length s <= zlen l ->
  intsetMoveTail s from to
  = Some (mkIntset (is_encoding s) (is_length s)
      (cells (Z.to_nat (is_encoding s))
         (take (Z.to_nat to) l
          ++ take (Z.to_nat (is_length s - from)) (drop (Z.to_nat from) l)
          ++ drop (Z.to_nat (to + (is_length s - from))) l))).
Proof.
  intros He Hc ? ? ? ? ?. destruct (enc_cell _ He) as [Hk ?].
  rewrite moveTail_eq, Hc by done.
  rewrite (uwrap_small 32 (is_length s - from)) by nia.
  rewrite (uwrap_small 32) by nia.
  pose proof (memmove_cells (Z.to_nat (is_encoding s)) l to from (is_length s - from)) as Hm.
  rewrite Hk in Hm. by rewrite Hm by lia.
Qed.

Lemma resize_grow s l :
  enc_ok (is_encoding s) -> is_contents s = cells (Z.to_nat (is_encoding s)) l ->
  (zlen l + 1) * is_encoding s < 2 ^ 32 ->
  exists j, intsetResize uninit s (u32 (zlen l + 1))
    = mkIntset (is_encoding s) (is_length s)
        (cells (Z.to_nat (is_encoding s)) (l ++ [j])).
Proof.
  intros He Hc Hsz. destruct (enc_cell _ He) as [Hk ?].
  pose proof (zlen_nonneg l).
  unfold intsetResize. rewrite (uwrap_small 32 (zlen l + 1)) by nia.
  rewrite uwrap_small by nia.
  destruct (realloc_grow uninit (is_contents s) ((zlen l + 1) * is_encoding s))
    as (f & -> & Hf & Hok).
  { rewrite Hc, zlen_cells. nia. }
  rewrite Hc, zlen_cells, Hk in Hf.
  destruct (cells_of_bytes (Z.to_nat (is_encoding s)) 1 f) as (j & Hj & ->);
    [lia|done|lia|].
  destruct j as [|j []]; try done. exists j. by rewrite Hc, cells_app.
Qed.
End uniform.

(** ** Binary search *)

(** What [intsetSearch] reports: the position of [v], or where it belongs. *)
Definition search_result (l : list Z) (v : Z) (found : bool) (pos : Z) : Prop :=
  if found then rd l pos = Some v
  else exists l1 l2, l = l1 ++ l2 /\ zlen l1 = pos /\
         Forall (fun x => x < v) l1 /\ Forall (fun x => v < x) l2.

Lemma rd_Forall_all {A} (P : A -> Prop) (l : list A) :
  (forall i x, rd l i = Some x -> P x) -> Forall P l.
Proof.
  intros H. apply Forall_lookup_2. intros i x Hi. apply (H (Z.of_nat i)).
  by rewrite rd_nat.
Qed.

Lemma search_result_split l v pos :
  0 <= pos <= zlen l ->
  (forall i x, rd l i = Some x -> i < pos -> x < v) ->
  (forall i x, rd l i = Some x -> pos <= i -> v < x) ->
  search_result l v false pos.
Proof.
  intros Hpos Hlo Hhi. exists (take (Z.to_nat pos) l), (drop (Z.to_nat pos) l).
  assert (zlen (take (Z.to_nat pos) l) = pos) as Hlen by (apply zlen_take; lia).
  rewrite take_drop. split_and!; [done|done| |]; apply rd_Forall_all; intros i x Hi;
    pose proof (rd_Some_bound _ _ _ Hi) as Hb.
  - apply (Hlo i); [|lia]. rewrite <- (take_drop (Z.to_nat pos) l).
    rewrite rd_app_l; [done|lia].
  - apply (Hhi (i + pos)); [|lia]. rewrite <- (take_drop (Z.to_nat pos) l).
    rewrite rd_app_r by lia. by replace (i + pos - _) with i by lia.
Qed.

Lemma mid_bounds min max :
  0 <= min <= max -> max < 2 ^ 31 ->
  min <= Z.shiftr (u32 (u32 min + u32 max)) 1 <= max.
Proof.
  intros. rewrite (uwrap_small 32 min), (uwrap_small 32 max) by lia.
  rewrite uwrap_small by lia. rewrite Z.shiftr_div_pow2 by lia.
  change (2 ^ 1) with 2. split; [apply Z.div_le_lower_bound|apply Z.div_le_upper_bound]; lia.
Qed.

Lemma search_loop_spec fuel s l v min max mid cur :
  intset_repr s l -> zlen l < 2 ^ 31 ->
  0 <= min -> max < zlen l -> min <= max + 1 -> (Z.to_nat (max - min + 1) <= fuel)%nat ->
  (forall i x, rd l i = Some x -> i < min -> x < v) ->
  (forall i x, rd l i = Some x -> max < i -> v < x) ->
  (cur = v -> min <= max) ->
  exists min' mid' cur', search_loop fuel s v min max mid cur = Some (min', mid', cur') /\
    (if v =? cur' then search_result l v true mid' else search_result l v false min').
Proof.
  intros Hs Hl. revert min max mid cur.
  induction fuel as [|fuel IH]; intros min max mid cur Hmin Hmax Hmm Hfuel Hlo Hhi Hcur;
    simpl; destruct (Z.geb_spec max min); try lia.
  1, 3: do 3 eexists; split; [done|]; destruct (Z.eqb_spec v cur);
    [subst; lia|apply search_result_split; [lia|done|intros ? ? ? ?; eapply Hhi; [done|lia]]].
  pose proof (mid_bounds min max) as Hmid.
  set (m := Z.shiftr _ 1) in *.
  destruct (rd_is_Some l m) as [x Hx]; [lia|].
  rewrite (get_repr _ _ _ _ Hs Hx). simpl.
  destruct (Z.gtb_spec v x); [|destruct (Z.ltb_spec v x)].
  - apply IH; try done; try lia. intros i y Hi ?.
    destruct (Z.eq_dec i m) as [->|]; [by simplify_eq|].
    trans x; [|lia]. eapply (StronglySorted_rd Z.lt); eauto using repr_sorted. lia.
  - apply IH; try done; try lia. intros i y Hi ?.
    destruct (Z.eq_dec i m) as [->|]; [by simplify_eq|].
    trans x; [lia|]. eapply (StronglySorted_rd Z.lt); eauto using repr_sorted. lia.
  - do 3 eexists. split; [done|]. replace x with v in * by lia. by rewrite Z.eqb_refl.
Qed.

Lemma intsetSearch_spec s l v :
  intset_repr s l -> zlen l < 2 ^ 31 ->
  exists found pos, intsetSearch s v = Some (found, pos) /\ search_result l v found pos.
Proof.
  intros Hs Hl. unfold intsetSearch. pose proof (zlen_nonneg l).
  rewrite (repr_len _ _ Hs).
  destruct (Z.eqb_spec (zlen l) 0) as [H0|H0].
  { do 2 eexists. split; [done|]. apply zlen_zero in H0 as ->. by exists [], []. }
  destruct (rd_is_Some l (zlen l - 1)) as [last Hlast]; [lia|].
  destruct (rd_is_Some l 0) as [first Hfirst]; [lia|].
  rewrite (get_repr _ _ _ _ Hs Hlast). simpl.
  destruct (Z.gtb_spec v last).
  { do 2 eexists. split; [done|]. apply search_result_split; [lia| |].
    - intros i x Hi ?. destruct (Z.eq_dec i (zlen l - 1)) as [->|]; [by simplify_eq|].
      trans last; [|lia]. eapply (StronglySorted_rd Z.lt); eauto using repr_sorted. lia.
    - intros i x Hi%rd_Some_bound. lia. }
  rewrite (get_repr _ _ _ _ Hs Hfirst). simpl.
  destruct (Z.ltb_spec v first).
  { do 2 eexists. split; [done|]. apply search_result_split; [lia| |].
    - intros i x Hi%rd_Some_bound. lia.
    - intros i x Hi ?. destruct (Z.eq_dec i 0) as [->|]; [by simplify_eq|].
      trans first; [lia|]. eapply (StronglySorted_rd Z.lt); eauto using repr_sorted. lia. }
  rewrite swrap_small by (unfold sfits; lia).
  destruct (search_loop_spec (S (Z.to_nat (zlen l))) s l v 0 (zlen l - 1) (-1) (-1))
    as (min & mid & cur & Hloop & Hres); try done; try lia.
  1, 2: intros i x Hi%rd_Some_bound; lia.
  cbn [search_loop] in Hloop |- *. setoid_rewrite Hloop. simpl.
  destruct (v =? cur); eauto.
Qed.

(** ** Insertion position and the abstract operations *)

Lemma insert_sorted_at l1 l2 v :
  Forall (fun x => x < v) l1 -> Forall (fun x => v < x) l2 ->
  insert_sorted v (l1 ++ l2) = l1 ++ v :: l2.
Proof.
  intros H1 H2. induction H1 as [|x l1 Hx _ IH]; simpl.
  - destruct H2; simpl; [done|]. by destruct (Z.ltb_spec v x); [|lia].
  - destruct (Z.ltb_spec v x), (Z.eqb_spec v x); try lia. by rewrite IH.
Qed.

Lemma insert_sorted_in l v : StronglySorted Z.lt l -> v ∈ l -> insert_sorted v l = l.
Proof.
  induction 1 as [|x l Hs IH Hx]; [by intros ?%not_elem_of_nil|].
  rewrite elem_of_cons. intros Hv. simpl.
  destruct (Z.ltb_spec v x), (Z.eqb_spec v x); try done; try lia.
  - destruct Hv as [|Hv]; [lia|]. rewrite Forall_forall in Hx.
    specialize (Hx v Hv). lia.
  - destruct Hv as [|Hv]; [lia|]. by rewrite (IH Hv).
Qed.

Lemma insert_sorted_length v l : (length (insert_sorted v l) <= S (length l))%nat.
Proof. induction l as [|x l IH]; cbn; [lia|]. destruct (v <? x), (v =? x); cbn; lia. Qed.

Lemma elem_of_insert_sorted l v w : w ∈ insert_sorted v l <-> w = v \/ w ∈ l.
Proof.
  induction l as [|x l IH]; simpl.
  - rewrite elem_of_cons. tauto.
  - destruct (Z.ltb_spec v x), (Z.eqb_spec v x); rewrite ?elem_of_cons, ?IH;
      subst; tauto.
Qed.

Lemma insert_sorted_sorted l v : StronglySorted Z.lt l -> StronglySorted Z.lt (insert_sorted v l).
Proof.
  induction 1 as [|x l Hs IH Hx]; simpl; [by repeat constructor|].
  destruct (Z.ltb_spec v x), (Z.eqb_spec v x); try lia; try by constructor.
  - constructor; [by constructor|]. constructor; [done|].
    eapply Forall_impl; [exact Hx|]. simpl. lia.
  - constructor; [done|]. apply Forall_forall.
    intros w [->|Hw]%elem_of_insert_sorted; [lia|]. by rewrite Forall_forall in Hx; apply Hx.
Qed.

Lemma search_found l v pos : search_result l v true pos -> v ∈ l.
Proof. apply rd_elem. Qed.

Lemma search_absent l v pos : search_result l v false pos -> v ∉ l.
Proof.
  intros (l1 & l2 & -> & _ & H1 & H2) [Hv|Hv]%elem_of_app.
  - rewrite Forall_forall in H1. specialize (H1 v Hv). lia.
  - rewrite Forall_forall in H2. specialize (H2 v Hv). lia.
Qed.

Lemma valueEncoding_spec v :
  sfits 64 v ->
  enc_ok (_intsetValueEncoding v) /\ sfits (8 * _intsetValueEncoding v) v /\
  forall e, enc_ok e -> sfits (8 * e) v <-> _intsetValueEncoding v <= e.
Proof.
  unfold _intsetValueEncoding, sfits, enc_ok, INT16_MIN, INT16_MAX, INT32_MIN, INT32_MAX,
    INTSET_ENC_INT16, INTSET_ENC_INT32, INTSET_ENC_INT64. intros Hv.
  destruct (Z.ltb_spec v (-2147483648)), (Z.gtb_spec v 2147483647); simpl;
    try (split_and!; [lia..|intros e [->|[->| ->]]; lia]).
  destruct (Z.ltb_spec v (-32768)), (Z.gtb_spec v 32767); simpl;
    (split_and!; [lia..|intros e [->|[->| ->]]; lia]).
Qed.

Lemma sfits_mono e e' v : 0 < e <= e' -> sfits (8 * e) v -> sfits (8 * e') v.
Proof.
  unfold sfits. intros.
  assert (2 ^ (8 * e - 1) <= 2 ^ (8 * e' - 1)) by (apply Z.pow_le_mono_r; lia). lia.
Qed.

(** The in-place conversion: the first [n] elements are still in the old
    encoding at the front of [Y], the others already behind it. *)
Lemma upgrade_loop_spec (n : nat) l tl s Y p cur :
  enc_ok cur -> enc_ok (is_encoding s) -> cur <= is_encoding s -> 0 <= p ->
  (n <= List.length l)%nat -> Forall (sfits (8 * cur)) l ->
  is_contents s = Y ++ cells (Z.to_nat (is_encoding s)) (drop n l ++ tl) ->
  zlen Y = (Z.of_nat n + p) * is_encoding s ->
  take (n * Z.to_nat cur) Y = cells (Z.to_nat cur) (take n l) ->
  exists Y', zlen Y' = p * is_encoding s /\
    upgrade_loop n s p cur =
      Some (mkIntset (is_encoding s) (is_length s)
              (Y' ++ cells (Z.to_nat (is_encoding s)) (l ++ tl))).
Proof.
  intros Hcur He Hle Hp Hn Hfits. destruct (enc_cell _ Hcur), (enc_cell _ He).
  destruct s as [e len c]. simpl in *. revert c Y. induction n as [|n IH]; intros c Y Hc HY Hpre.
  { exists Y. split; [lia|]. simpl. by rewrite Hc. }
  destruct (lookup_lt_is_Some_2 l n) as [x Hx]; [lia|].
  assert (_intsetGetEncoded (mkIntset e len c) (Z.of_nat n) cur = Some x) as Hget.
  { rewrite getEncoded_eq by done. simpl.
    rewrite (rd_block_mid (cells (Z.to_nat cur) (take n l)) (le_bytes (Z.to_nat cur) x)
      (drop (S n * Z.to_nat cur) Y ++ cells (Z.to_nat e) (drop (S n) l ++ tl))).
    - simpl. f_equal. rewrite <- H at 1. apply swrap_le_val; [lia|].
      rewrite H. rewrite Forall_forall in Hfits. apply Hfits.
      by eapply list_elem_of_lookup_2.
    - rewrite Hc. rewrite <- (take_drop (S n * Z.to_nat cur) Y) at 1.
      rewrite Hpre, (take_S_r _ _ _ Hx), cells_app. unfold cells at 2. simpl.
      by rewrite app_nil_r, <- !app_assoc.
    - rewrite zlen_cells. unfold zlen. rewrite length_take. lia.
    - rewrite zlen_le_bytes. lia. }
  cbn [upgrade_loop]. rewrite Hget. cbn [mbind option_bind].
  rewrite set_eq by done. cbn [is_contents is_encoding is_length].
  set (k := Z.to_nat ((Z.of_nat n + p) * e)).
  assert (zlen (take k Y) = (Z.of_nat n + p) * e) as Htk.
  { apply zlen_take. nia. }
  assert (zlen (drop k Y) = e) as Hdk.
  { unfold k. rewrite zlen_drop; nia. }
  rewrite (wr_block_mid (take k Y) (drop k Y) (cells (Z.to_nat e) (drop (S n) l ++ tl)));
    [|by rewrite app_assoc, take_drop|lia|rewrite zlen_le_bytes; lia].
  cbn [mbind option_bind].
  apply (IH ltac:(lia) _ (take k Y)).
  - f_equal. by rewrite (drop_S _ _ _ Hx).
  - done.
  - rewrite take_take, Nat.min_l by (unfold k; nia).
    apply (f_equal (take (n * Z.to_nat cur))) in Hpre.
    rewrite take_take, Nat.min_l in Hpre by nia. rewrite Hpre.
    rewrite (take_S_r _ _ _ Hx), cells_app. apply take_app_length'.
    pose proof (zlen_cells (Z.to_nat cur) (take n l)) as Hz. unfold zlen in Hz.
    rewrite length_take in Hz. lia.
Qed.

(** ** The operations refine the abstract set *)

Section refinement.
Context (uninit : nat -> Z).

Lemma insert_fits e l v :
  sfits (8 * e) v -> Forall (sfits (8 * e)) l -> Forall (sfits (8 * e)) (insert_sorted v l).
Proof.
  intros Hv Hl. apply Forall_forall. rewrite Forall_forall in Hl.
  intros w [->|Hw]%elem_of_insert_sorted; auto.
Qed.

Lemma upgrade_spec s l v :
  intset_repr s l -> intset_small l -> sfits 64 v ->
  _intsetValueEncoding v > is_encoding s ->
  exists s', intsetUpgradeAndAdd uninit s v = Some s' /\ intset_repr s' (insert_sorted v l).
Proof.
  intros [He Hlen Hc Hf Hsort] Hsmall Hv Henc.
  destruct (valueEncoding_spec v Hv) as (Hne & Hfit & Hiff).
  destruct s as [e len c]. unfold intset_small in *. simpl in *. subst len c.
  set (ne := _intsetValueEncoding v) in *.
  destruct (enc_cell _ He) as [Hk Hepos], (enc_cell _ Hne) as [Hnk Hnpos].
  assert (ne <= 8) by (destruct Hne as [->|[->| ->]]; lia).
  pose proof (zlen_nonneg l) as Hl0.
  set (p := if v <? 0 then 1 else 0).
  assert (0 <= p <= 1) by (unfold p; case_match; lia).
  (* the resized block *)
  unfold intsetUpgradeAndAdd. fold ne. simpl. fold p.
  unfold intsetResize. cbn [is_encoding is_length is_contents].
  rewrite (uwrap_small 32 (zlen l + 1)) by lia.
  rewrite (uwrap_small 32 ((zlen l + 1) * ne)) by nia.
  destruct (realloc_grow uninit (cells (Z.to_nat e) l) ((zlen l + 1) * ne))
    as (f & Hr & Hflen & Hfok); [rewrite zlen_cells; nia|].
  rewrite Hr. set (X := cells (Z.to_nat e) l ++ f) in *.
  assert (zlen X = (zlen l + 1) * ne) as HX.
  { unfold X. rewrite zlen_app, Hflen. lia. }
  set (k := Z.to_nat ((zlen l + p) * ne)).
  assert (zlen (take k X) = (zlen l + p) * ne) as HY by (apply zlen_take; nia).
  destruct (cells_of_bytes (Z.to_nat ne) (Z.to_nat (1 - p)) (drop k X)) as (tl & Htl & Hd).
  { lia. }
  { apply Forall_drop, Forall_app. split; [apply cells_bytes_ok|done]. }
  { unfold k. rewrite zlen_drop; nia. }
  rewrite (Z2Nat_inj_zlen l).
  destruct (upgrade_loop_spec (List.length l) l tl (mkIntset ne (zlen l) X) (take k X) p e)
    as (Y' & HY' & ->); cbn [is_encoding is_length is_contents] in *; try done; try lia.
  { simpl. by rewrite drop_all, app_nil_l, <- Hd, take_drop. }
  { unfold k. rewrite take_take, firstn_all, Nat.min_l by (unfold zlen; nia).
    unfold X. apply take_app_length'. pose proof (zlen_cells (Z.to_nat e) l) as Hz.
    unfold zlen in Hz. lia. }
  cbn [mbind option_bind is_encoding is_length].
  pose proof (Z.ltb_spec v 0) as Hvs. fold p in Hvs.
  assert (~ sfits (8 * e) v) as Hnot by (rewrite Hiff by done; lia).
  unfold p in *. clear p. destruct (v <? 0); simpl; inversion Hvs.
  - destruct tl; [|done]. rewrite app_nil_r.
    rewrite set_eq by done. simpl.
    rewrite (wr_block_mid [] Y' (cells (Z.to_nat ne) l));
      [|done|done|rewrite zlen_le_bytes; lia].
    simpl. eexists. split; [done|].
    assert (Forall (fun x => v < x) l) as Hlt.
    { eapply Forall_impl; [exact Hf|]. unfold sfits in *. simpl. lia. }
    pose proof (insert_sorted_at [] l v (Forall_nil_2 _) Hlt) as Hins.
    rewrite !app_nil_l in Hins. rewrite Hins.
    split; simpl; [done|rewrite zlen_cons, uwrap_small; lia|done| |by constructor].
    constructor; [done|]. eapply Forall_impl; [exact Hf|].
    intros x. apply sfits_mono. lia.
  - destruct tl as [|j []]; try done.
    assert (Y' = []) as -> by (apply zlen_zero; lia). simpl.
    assert (zlen (l ++ [j]) = zlen l + 1) as Hlj by (rewrite zlen_app; done).
    rewrite (set_cells _ (l ++ [j])); [|done|done|lia].
    eexists. split; [done|].
    rewrite Z2Nat_inj_zlen, insert_app_r_alt, Nat.sub_diag by lia. simpl.
    assert (Forall (fun x => x < v) l) as Hlt.
    { eapply Forall_impl; [exact Hf|]. unfold sfits in *. simpl. lia. }
    pose proof (insert_sorted_at l [] v Hlt (Forall_nil_2 _)) as Hins.
    rewrite app_nil_r in Hins. rewrite Hins.
    split; simpl; [done|rewrite zlen_app, zlen_cons, zlen_nil; rewrite uwrap_small; lia|done| |].
    + apply Forall_app. split; [|by constructor]. eapply Forall_impl; [exact Hf|].
      intros x. apply sfits_mono. lia.
    + apply StronglySorted_snoc; done.
Qed.

Lemma mem_bits s l v :
  intset_repr s l -> sfits 64 v -> v ∈ l -> _intsetValueEncoding v <= is_encoding s.
Proof.
  intros [He _ _ Hf _] Hv Hin. destruct (valueEncoding_spec v Hv) as (_ & _ & Hiff).
  apply Hiff; [done|]. rewrite Forall_forall in Hf. auto.
Qed.

(** Moving the tail up by one cell opens a gap, of unspecified content, at
    the insertion point. *)
Lemma open_gap e l1 l2 j :
  enc_ok e -> (zlen l1 + zlen l2) * e < 2 ^ 32 ->
  let s := mkIntset e (zlen l1 + zlen l2) (cells (Z.to_nat e) ((l1 ++ l2) ++ [j])) in
  exists x, (if zlen l1 <? zlen l1 + zlen l2 then intsetMoveTail s (zlen l1) (zlen l1 + 1)
             else Some s)
    = Some (mkIntset e (zlen l1 + zlen l2) (cells (Z.to_nat e) (l1 ++ x :: l2))).
Proof.
  intros He Hsz s. pose proof (zlen_nonneg l1). pose proof (zlen_nonneg l2).
  destruct (Z.ltb_spec (zlen l1) (zlen l1 + zlen l2)).
  - destruct l2 as [|y l2]; [rewrite zlen_nil in *; lia|]. exists y.
    unfold s. rewrite (moveTail_cells _ ((l1 ++ y :: l2) ++ [j])); simpl; try done; try nia.
    2, 3: rewrite !zlen_app, !zlen_cons, zlen_nil; lia.
    do 3 f_equal. rewrite zlen_cons.
    rewrite <- (app_assoc l1), (drop_app_length' l1) by (unfold zlen; lia).
    replace (Z.to_nat (zlen l1 + 1)) with (List.length (l1 ++ [y]))
      by (rewrite length_app; unfold zlen; simpl; lia).
    rewrite (drop_ge _ (Z.to_nat (zlen l1 + 1 + _)))
      by (rewrite !length_app; unfold zlen; simpl; rewrite ?length_app; simpl; lia).
    rewrite app_nil_r. simpl.
    change (l1 ++ y :: l2 ++ [j]) with (l1 ++ [y] ++ l2 ++ [j]).
    rewrite (app_assoc l1 [y]), take_app_length.
    rewrite <- app_assoc. simpl. do 2 f_equal.
    apply (take_app_length' (y :: l2)). unfold zlen. simpl. lia.
  - destruct l2 as [|y l2]; [|rewrite zlen_cons in *; pose proof (zlen_nonneg l2); lia].
    exists j. unfold s. by rewrite app_nil_r.
Qed.

Lemma intsetAdd_ok s l v :
  intset_repr s l -> intset_small l -> sfits 64 v ->
  exists s', intsetAdd uninit s v = Some (s', bool_decide (v ∉ l)) /\
    intset_repr s' (insert_sorted v l).
Proof.
  intros Hs Hsmall Hv. unfold intsetAdd. pose proof (zlen_nonneg l).
  pose proof Hsmall as Hsmall'. unfold intset_small in Hsmall'.
  destruct (Z.gtb_spec (_intsetValueEncoding v) (is_encoding s)) as [Henc|Henc].
  { destruct (upgrade_spec s l v) as (s' & -> & Hs'); [done|done|done|lia|].
    exists s'. split; [|done]. simpl. do 2 f_equal. symmetry.
    apply bool_decide_eq_true. intros ?%(mem_bits s); [lia|done|done]. }
  destruct (intsetSearch_spec s l v Hs) as (found & pos & -> & Hres); [lia|].
  simpl. destruct found.
  { apply search_found in Hres. exists s.
    rewrite insert_sorted_in by (done || apply Hs).
    rewrite bool_decide_eq_false_2 by auto. done. }
  rewrite bool_decide_eq_true_2 by by eapply search_absent.
  destruct Hres as (l1 & l2 & -> & Hpos & H1 & H2).
  rewrite insert_sorted_at by done.
  destruct Hs as [He Hlen Hc Hf Hsort]. destruct (enc_cell _ He) as [Hk Hepos].
  assert (is_encoding s <= 8) by (destruct He as [->|[->| ->]]; lia).
  rewrite Hlen.
  destruct (resize_grow uninit s (l1 ++ l2)) as [j Hj]; [done|done|nia|].
  rewrite Hj. cbn [is_length is_encoding is_contents]. rewrite Hlen.
  rewrite zlen_app in *.
  destruct (open_gap (is_encoding s) l1 l2 j) as [x Hx]; [done|nia|].
  subst pos.
  rewrite Hx. cbn [mbind option_bind].
  rewrite (set_cells _ (l1 ++ x :: l2));
    [|done|done|rewrite zlen_app, zlen_cons; pose proof (zlen_nonneg l1); pose proof (zlen_nonneg l2); lia].
  eexists. split; [done|]. cbn [is_length is_encoding is_contents].
  rewrite Z2Nat_inj_zlen, insert_app_r_alt, Nat.sub_diag by lia.
  split; cbn [is_length is_encoding is_contents]; [done| |done| |].
  - rewrite zlen_app, zlen_cons, uwrap_small; lia.
  - rewrite Forall_app in *. destruct Hf. split; [done|]. constructor; [|done].
    apply valueEncoding_spec; [done|done|lia].
  - rewrite <- (insert_sorted_at l1 l2 v) by done. by apply insert_sorted_sorted.
Qed.

(** C23: Adding a 64-bit integer to a well-formed intset always succeeds in
    bounds, whatever bytes the reallocation exposes and whether or not the
    encoding must be upgraded: the result is well formed, holds exactly the old
    elements and the new one, and [*success] tells if the element was new. *)
Theorem intsetAdd_refines s l v :
  intset_repr s l -> intset_small l -> sfits 64 v ->
  exists s', intsetAdd uninit s v = Some (s', bool_decide (v ∉ l)) /\
    intset_repr s' (insert_sorted v l).
Proof. apply intsetAdd_ok. Qed.

Lemma filter_all {A} (P : A -> Prop) `{forall x, Decision (P x)} l :
  Forall P l -> filter P l = l.
Proof. induction 1; [done|]. rewrite filter_cons_True by done. by f_equal. Qed.

Lemma remove_sorted_at a b v :
  StronglySorted Z.lt (a ++ v :: b) -> remove_sorted v (a ++ v :: b) = a ++ b.
Proof.
  intros Hs. unfold remove_sorted. rewrite filter_app, filter_cons_False by (intros []; done).
  rewrite !filter_all; [done| |]; apply Forall_forall; intros x Hx ->.
  - apply StronglySorted_app_1_r in Hs. inversion Hs as [|? ? _ Hb]; subst.
    rewrite Forall_forall in Hb. specialize (Hb v Hx). lia.
  - pose proof (StronglySorted_app_1_elem_of _ _ _ v v Hs Hx ltac:(left)). lia.
Qed.

Lemma remove_sorted_notin l v : v ∉ l -> remove_sorted v l = l.
Proof. intros Hv. apply filter_all, Forall_forall. by intros x Hx ->. Qed.

(** Moving the tail down by one cell closes the gap; the last cell is stale. *)
Lemma close_gap e a b v :
  enc_ok e -> (zlen a + 1 + zlen b) * e < 2 ^ 32 ->
  let s := mkIntset e (zlen a + 1 + zlen b) (cells (Z.to_nat e) (a ++ v :: b)) in
  exists x, (if zlen a <? zlen a + 1 + zlen b - 1 then intsetMoveTail s (zlen a + 1) (zlen a)
             else Some s)
    = Some (mkIntset e (zlen a + 1 + zlen b) (cells (Z.to_nat e) ((a ++ b) ++ [x]))).
Proof.
  intros He Hsz s. pose proof (zlen_nonneg a). pose proof (zlen_nonneg b).
  destruct (Z.ltb_spec (zlen a) (zlen a + 1 + zlen b - 1)).
  - assert (exists b' x, b = b' ++ [x]) as (b' & x & ->).
    { destruct b as [|x b _] using rev_ind; [rewrite zlen_nil in *; lia|]. eauto. }
    exists x. unfold s.
    rewrite (moveTail_cells _ (a ++ v :: b' ++ [x])); simpl; try done; try nia.
    2, 3: rewrite !zlen_app, !zlen_cons, zlen_app, zlen_cons, zlen_nil; lia.
    do 3 f_equal. rewrite Z2Nat_inj_zlen, take_app_length, <- app_assoc. f_equal.
    change (a ++ v :: b' ++ [x]) with (a ++ [v] ++ b' ++ [x]).
    rewrite (app_assoc a [v]), (drop_app_length' (a ++ [v]))
      by (rewrite length_app; unfold zlen; simpl; lia).
    rewrite (take_ge (b' ++ [x])) by (unfold zlen; lia). f_equal.
    rewrite (app_assoc (a ++ [v])), drop_app_length'; [done|].
    rewrite zlen_app. unfold zlen. rewrite !length_app. simpl. lia.
  - destruct b as [|y b]; [|rewrite zlen_cons in *; pose proof (zlen_nonneg b); lia].
    exists v. unfold s. by rewrite app_nil_r.
Qed.

Lemma intsetRemove_ok s l v :
  intset_repr s l -> intset_small l -> sfits 64 v ->
  exists s', intsetRemove uninit s v = Some (s', bool_decide (v ∈ l)) /\
    intset_repr s' (remove_sorted v l).
Proof.
  intros Hs Hsmall Hv. unfold intsetRemove. pose proof (zlen_nonneg l).
  unfold intset_small in Hsmall.
  destruct (Z.leb_spec (_intsetValueEncoding v) (is_encoding s)) as [Henc|Henc].
  2: { assert (v ∉ l) as Hnin by (intros ?%(mem_bits s); [lia|done|done]).
       exists s. by rewrite bool_decide_eq_false_2, remove_sorted_notin. }
  destruct (intsetSearch_spec s l v Hs) as (found & pos & -> & Hres); [lia|].
  simpl. destruct found.
  2: { apply search_absent in Hres. exists s.
       by rewrite bool_decide_eq_false_2, remove_sorted_notin. }
  pose proof (rd_split _ _ _ Hres) as Hl.
  pose proof (rd_Some_bound _ _ _ Hres) as Hb.
  assert (zlen (take (Z.to_nat pos) l) = pos) as Ha by (apply zlen_take; lia).
  rewrite bool_decide_eq_true_2 by by eapply search_found.
  set (a := take _ _) in *. set (b := drop _ _) in *. clearbody a b. subst l pos.
  destruct Hs as [He Hlen Hc Hf Hsort]. destruct (enc_cell _ He) as [Hk Hepos].
  assert (is_encoding s <= 8) by (destruct He as [->|[->| ->]]; lia).
  rewrite remove_sorted_at by done. destruct s as [e len c]; simpl in *. subst len c.
  rewrite zlen_app, zlen_cons in *. pose proof (zlen_nonneg a). pose proof (zlen_nonneg b).
  rewrite (uwrap_small 32) by lia. rewrite Z.add_assoc in *.
  destruct (close_gap e a b v) as [x Hx]; [done|nia|]. rewrite Hx. simpl.
  eexists. split; [done|]. unfold intsetResize. simpl.
  rewrite (uwrap_small 32) by nia.
  rewrite cells_app, realloc_shrink by (rewrite zlen_cells, zlen_app; lia).
  rewrite Forall_app, Forall_cons in Hf.
  split; simpl; [done|rewrite zlen_app; lia|done| |].
  - apply Forall_app. tauto.
  - rewrite <- (remove_sorted_at a b v) by done. unfold remove_sorted.
    by apply StronglySorted_filter.
Qed.

(** Removing a value from a well-formed intset stays in bounds, leaves a
    well-formed intset without that value and with the others, and [*success]
    tells if the value was there. *)
Theorem intsetRemove_refines s l v :
  intset_repr s l -> intset_small l -> sfits 64 v ->
  exists s', intsetRemove uninit s v = Some (s', bool_decide (v ∈ l)) /\
    intset_repr s' (remove_sorted v l).
Proof. apply intsetRemove_ok. Qed.

(** [intsetFind] is membership and [intsetGet] reads the sorted elements by
    position, failing exactly on the positions past the end. *)
Theorem intset_queries s l v pos :
  intset_repr s l -> intset_small l -> sfits 64 v -> 0 <= pos ->
  intsetFind s v = Some (bool_decide (v ∈ l)) /\
  intsetGet s pos = Some (rd l pos) /\
  intsetBlobLen s = sizeof_intset + zlen (is_contents s).
Proof.
  intros Hs Hsmall Hv Hpos. unfold intset_small in Hsmall. pose proof (zlen_nonneg l).
  split_and!.
  - unfold intsetFind.
    destruct (Z.leb_spec (_intsetValueEncoding v) (is_encoding s)) as [Henc|Henc].
    + destruct (intsetSearch_spec s l v Hs) as (found & i & -> & Hres); [lia|].
      simpl. f_equal. symmetry. destruct found.
      * apply bool_decide_eq_true. by eapply search_found.
      * apply bool_decide_eq_false. by eapply search_absent.
    + f_equal. symmetry. apply bool_decide_eq_false.
      intros ?%(mem_bits s); [lia|done|done].
  - unfold intsetGet. rewrite (repr_len _ _ Hs).
    destruct (Z.ltb_spec pos (zlen l)).
    + destruct (rd_is_Some l pos) as [x Hx]; [lia|].
      rewrite (get_repr _ _ _ _ Hs Hx). by rewrite Hx.
    + by rewrite rd_None_ge.
  - destruct Hs as [He Hlen Hc _ _]. unfold intsetBlobLen.
    rewrite Hlen, Hc, zlen_cells. destruct (enc_cell _ He) as [-> ?].
    assert (is_encoding s <= 8) by (destruct He as [->|[->| ->]]; lia).
    rewrite uwrap_small; nia.
Qed.
End refinement.

(** ** Concrete inputs: an int16 set that an addition upgrades to int64. *)

Definition set_1_5_9 : intset := mkIntset 2 3 [1; 0; 5; 0; 9; 0].

Lemma set_1_5_9_repr : intset_repr set_1_5_9 [1; 5; 9].
Proof.
  split; [by left|done|done| |].
  - repeat constructor; unfold sfits; simpl; lia.
  - repeat constructor; lia.
Defined.

Lemma intsetAdd_refines_witness :
  exists s', intsetAdd (fun _ => 7) set_1_5_9 (-1099511627776) = Some (s', true) /\
    intset_repr s' [-1099511627776; 1; 5; 9].
Proof.
  apply (intsetAdd_refines (fun _ => 7) set_1_5_9 [1; 5; 9] (-1099511627776) set_1_5_9_repr);
    [reflexivity|split; vm_compute; congruence].
Defined.

Lemma intsetRemove_refines_witness :
  exists s', intsetRemove (fun _ => 7) set_1_5_9 5 = Some (s', true) /\
    intset_repr s' [1; 9].
Proof.
  apply (intsetRemove_refines (fun _ => 7) set_1_5_9 [1; 5; 9] 5 set_1_5_9_repr);
    [reflexivity|split; vm_compute; congruence].
Defined.

Lemma intset_queries_witness :
  intsetFind set_1_5_9 9 = Some true /\ intsetGet set_1_5_9 2 = Some (Some 9) /\
  intsetBlobLen set_1_5_9 = 14.
Proof.
  apply (intset_queries set_1_5_9 [1; 5; 9] 9 2 set_1_5_9_repr);
    [reflexivity|split; vm_compute; congruence|lia].
Defined.
