(* ===== verification/Util.v ===== *)
(** * Numbers as strings (src/redis-2.8.19/src/util.c)

    [digits10], [ll2string], [string2ll], [string2l] and [memtoll], translated
    with their buffer accesses, unsigned arithmetic and return codes. A C string
    is a byte list that holds its terminating NUL; an access past it is [None].

    Printing and parsing are compared with [numeral], the predicate that says
    which byte strings are the decimal numeral of an integer. *)
From S2P Require Import Prelude.
Open Scope Z_scope.

Definition ch0 : Z := 48.   (* '0' *)
Definition ch_minus : Z := 45.
Definition is_digit (c : Z) : bool := (48 <=? c) && (c <=? 57).

(** ** digits10 *)

(** The recursion divides by 10^12: two levels are enough for 64 bits. *)
Fixpoint digits10_rec (fuel : nat) (v : Z) : option Z :=
  if v <? 10 then Some 1 else
  if v <? 100 then Some 2 else
  if v <? 1000 then Some 3 else
  if v <? 1000000000000 then
    if v <? 100000000 then
      if v <? 1000000 then
        if v <? 10000 then Some 4
        else Some (5 + b2z (v >=? 100000))
      else Some (7 + b2z (v >=? 10000000))
    else if v <? 10000000000 then Some (9 + b2z (v >=? 1000000000))
    else Some (11 + b2z (v >=? 100000000000))
  else
    match fuel with
    | O => None
    | S fuel => d ← digits10_rec fuel (v / 1000000000000); Some (12 + d)
    end.

Definition digits10 (v : Z) : option Z := digits10_rec 2 v.

(** ** ll2string *)

Definition digits_table : list Z := zs
  "00010203040506070809101112131415161718192021222324252627282930313233343536373839404142434445464748495051525354555657585960616263646566676869707172737475767778798081828384858687888990919293949596979899".

(** [dst[next] = digits[i + 1]; dst[next - 1] = digits[i];] *)
Definition put_pair (dst : list Z) (next i : Z) : option (list Z) :=
  d1 ← rd digits_table (i + 1);
  dst ← wr dst next d1;
  d0 ← rd digits_table i;
  wr dst (u32 (next - 1)) d0.

(** [while (value >= 100)]: two digits per turn, from the right. *)
Fixpoint ll2string_loop (fuel : nat) (dst : list Z) (next value : Z)
  : option (list Z * Z * Z) :=
  if value >=? 100 then
    match fuel with
    | O => None
    | S fuel =>
        let i := value mod 100 * 2 in
        let value := value / 100 in
        dst ← put_pair dst next i;
        ll2string_loop fuel dst (u32 (next - 2)) value
    end
  else Some (dst, next, value).

(** [Handle last 1-2 digits.] *)
Definition ll2string_last (dst : list Z) (next value : Z) : option (list Z) :=
  if value <? 10 then wr dst next (ch0 + u32 value)
  else put_pair dst next (u32 value * 2).

(** Result: the buffer and the returned length, 0 when it does not fit. *)
Definition ll2string (dst : list Z) (dstlen svalue : Z) : option (list Z * Z) :=
  let '(value, negative) :=
    if svalue <? 0 then
      (if negb (svalue =? LLONG_MIN) then u64 (- svalue) else u64 (LLONG_MAX + 1), 1)
    else (svalue, 0) in
  d ← digits10 value;
  let length := u32 (d + negative) in
  if length >=? dstlen then Some (dst, 0)
  else
    let next := length in
    dst ← wr dst next 0;
    let next := u32 (next - 1) in
    '(dst, next, value) ← ll2string_loop 10 dst next value;
    dst ← ll2string_last dst next value;
    dst ← (if negative =? 1 then wr dst 0 ch_minus else Some dst);
    Some (dst, length).

(** ** string2ll, string2l *)

(** [while (plen < slen && p[0] >= '0' && p[0] <= '9')]: [None] inside is
    the overflow return. *)
Fixpoint string2ll_loop (fuel : nat) (s : list Z) (slen plen v : Z)
  : option (option (Z * Z)) :=
  if plen <? slen then
    c ← rd s plen;
    if is_digit c then
      match fuel with
      | O => None
      | S fuel =>
          if v >? ULLONG_MAX / 10 then Some None
          else
            let v := u64 (v * 10) in
            if v >? ULLONG_MAX - (c - ch0) then Some None
            else string2ll_loop fuel s slen (plen + 1) (u64 (v + (c - ch0)))
      end
    else Some (Some (plen, v))
  else Some (Some (plen, v)).

(** [Some None] is the return value 0; [Some (Some v)] is 1 with [*value = v]. *)
Definition string2ll (s : list Z) (slen : Z) : option (option Z) :=
  let plen := 0 in
  if plen =? slen then Some None
  else
    c ← rd s 0;
    if (slen =? 1) && (c =? ch0) then Some (Some 0)
    else
      let negative := c =? ch_minus in
      let plen := if negative then 1 else 0 in
      if negative && (plen =? slen) then Some None
      else
        c ← rd s plen;
        if (49 <=? c) && (c <=? 57) then
          r ← string2ll_loop (Z.to_nat slen) s slen (plen + 1) (c - ch0);
          match r with
          | None => Some None
          | Some (plen, v) =>
              if plen <? slen then Some None
              else if (negative : bool) then
                if v >? - (LLONG_MIN + 1) + 1 then Some None
                else Some (Some (s64 (u64 (- v))))
              else
                if v >? LLONG_MAX then Some None
                else Some (Some (s64 v))
          end
        else if (c =? ch0) && (slen =? 1) then Some (Some 0)
        else Some None.

(** [long] and [long long] have 64 bits: the range test never fails. *)
Definition string2l (s : list Z) (slen : Z) : option (option Z) :=
  r ← string2ll s slen;
  match r with
  | None => Some None
  | Some llval =>
      if (llval <? LLONG_MIN) || (llval >? LLONG_MAX) then Some None
      else Some (Some llval)
  end.

(** ** Decimal numerals *)

Definition dec_acc (v : Z) (ds : list Z) : Z :=
  fold_left (fun a c => a * 10 + (c - ch0)) ds v.

(** [ds] are the ASCII digits of [v >= 0], without useless leading zeros. *)
Definition numeral (ds : list Z) (v : Z) : Prop :=
  ds <> [] /\ Forall (fun c => 48 <= c <= 57) ds /\
  (head ds = Some ch0 -> ds = [ch0]) /\ dec_acc 0 ds = v.

Definition signed_numeral (ds : list Z) (v : Z) : Prop :=
  (0 <= v /\ numeral ds v) \/
  (v < 0 /\ exists ds', ds = ch_minus :: ds' /\ numeral ds' (- v)).

Lemma numeral_nonempty ds v : numeral ds v -> 1 <= zlen ds.
Proof. intros [Hne _]. unfold zlen. destruct ds; simpl; [done|lia]. Qed.

Lemma dec_acc_app v ds ds' : dec_acc v (ds ++ ds') = dec_acc (dec_acc v ds) ds'.
Proof. apply fold_left_app. Qed.

Lemma dec_acc_0_cons c ds : dec_acc 0 (c :: ds) = dec_acc (c - ch0) ds.
Proof. unfold dec_acc. simpl. f_equal. Qed.

Lemma dec_acc_bounds v ds :
  0 <= v -> Forall (fun c => 48 <= c <= 57) ds ->
  v * 10 ^ zlen ds <= dec_acc v ds < (v + 1) * 10 ^ zlen ds.
Proof.
  unfold ch0. intros Hv Hds. revert v Hv. induction Hds as [|c ds Hc _ IH]; intros v Hv.
  - unfold dec_acc. simpl. rewrite zlen_nil. lia.
  - unfold dec_acc. simpl. unfold ch0. rewrite zlen_cons, Z.pow_add_r by zlen.
    specialize (IH (v * 10 + (c - 48)) ltac:(lia)). unfold dec_acc, ch0 in IH.
    assert (0 < 10 ^ zlen ds) by (apply Z.pow_pos_nonneg; zlen). nia.
Qed.

Lemma numeral_digit v : 0 <= v < 10 -> numeral [ch0 + v] v.
Proof.
  intros. unfold numeral, dec_acc, ch0. split_and!; [done| | |simpl; lia].
  - repeat constructor; lia.
  - intros [= ]. do 2 f_equal. lia.
Qed.

Lemma numeral_snoc ds v d :
  numeral ds v -> 0 < v -> 0 <= d < 10 -> numeral (ds ++ [ch0 + d]) (v * 10 + d).
Proof.
  unfold numeral. intros (Hne & Hd & Hz & Hv) Hpos Hdig. split_and!.
  - by destruct ds.
  - apply Forall_app. split; [done|]. unfold ch0. repeat constructor; lia.
  - destruct ds as [|c ds]; [done|]. simpl. intros [= ->].
    specialize (Hz eq_refl). by simplify_eq/=.
  - rewrite dec_acc_app, Hv. unfold dec_acc, ch0. simpl. lia.
Qed.

Lemma numeral_bounds ds v :
  numeral ds v -> 0 <= v < 10 ^ zlen ds /\ (0 < v -> 10 ^ (zlen ds - 1) <= v) /\
  (v = 0 -> zlen ds = 1).
Proof.
  intros (Hne & Hd & Hz & <-). pose proof (dec_acc_bounds 0 ds ltac:(lia) Hd).
  split_and!; [lia..| |].
  - intros Hp. destruct ds as [|c ds]; [done|]. rewrite zlen_cons.
    replace (1 + zlen ds - 1) with (zlen ds) by lia.
    apply Forall_cons in Hd as [Hc Hds]; simpl in Hc.
    destruct (Z.eq_dec c ch0) as [->|Hc0].
    + specialize (Hz eq_refl). by simplify_eq.
    + pose proof (dec_acc_bounds (c - ch0) ds ltac:(unfold ch0; lia) Hds).
      rewrite dec_acc_0_cons in *. unfold ch0 in *.
      assert (0 < 10 ^ zlen ds) by (apply Z.pow_pos_nonneg; zlen). nia.
  - destruct ds as [|c ds]; [done|]. apply Forall_cons in Hd as [Hc Hds]; simpl in Hc.
    destruct (Z.eq_dec c ch0) as [->|Hc0].
    + by rewrite (Hz eq_refl).
    + pose proof (dec_acc_bounds (c - ch0) ds ltac:(unfold ch0; lia) Hds).
      rewrite dec_acc_0_cons in *. unfold ch0 in *.
      assert (0 < 10 ^ zlen ds) by (apply Z.pow_pos_nonneg; zlen). nia.
Qed.

Lemma pow10_unique v d d' :
  1 <= d -> 1 <= d' -> 10 ^ (d - 1) <= v < 10 ^ d -> 10 ^ (d' - 1) <= v < 10 ^ d' -> d = d'.
Proof.
  intros Hd Hd' [H1 H2] [H3 H4].
  destruct (Z.lt_trichotomy d d') as [Hlt|[->|Hlt]]; [|done|].
  - pose proof (Z.pow_le_mono_r 10 d (d' - 1)). lia.
  - pose proof (Z.pow_le_mono_r 10 d' (d - 1)). lia.
Qed.

(** ** digits10 counts the digits *)

Lemma digits10_small fuel v :
  0 <= v < 10 ^ 12 ->
  exists d, digits10_rec fuel v = Some d /\ 1 <= d <= 12 /\ v < 10 ^ d /\
    (0 < v -> 10 ^ (d - 1) <= v) /\ (v = 0 -> d = 1).
Proof.
  intros Hv. destruct fuel; simpl;
  repeat match goal with
  | |- context [if ?a <? ?b then _ else _] => destruct (Z.ltb_spec a b)
  | |- context [?a >=? ?b] => destruct (Z.geb_spec a b)
  end; try lia; eexists; (split; [reflexivity|]); simpl; lia.
Qed.

Lemma digits10_spec v :
  0 <= v < 2 ^ 64 ->
  exists d, digits10 v = Some d /\ 1 <= d <= 20 /\ v < 10 ^ d /\
    (0 < v -> 10 ^ (d - 1) <= v) /\ (v = 0 -> d = 1).
Proof.
  intros Hv. unfold digits10.
  destruct (Z.lt_ge_cases v (10 ^ 12)) as [Hs|Hs].
  { destruct (digits10_small 2 v) as (d & Hd & ?); [lia|]. exists d. split; [done|lia]. }
  cbn [digits10_rec].
  destruct (Z.ltb_spec v 10), (Z.ltb_spec v 100), (Z.ltb_spec v 1000),
    (Z.ltb_spec v 1000000000000); try lia.
  destruct (digits10_small 1 (v / 1000000000000)) as (d & Hd & Hb & Hu & Hl & _).
  { split; [apply Z.div_pos; lia|apply Z.div_lt_upper_bound; lia]. }
  cbn [digits10_rec] in Hd. setoid_rewrite Hd. cbn [mbind option_bind].
  exists (12 + d).
  pose proof (Z.div_mod v 1000000000000 ltac:(lia)) as Hdm.
  pose proof (Z.mod_pos_bound v 1000000000000 ltac:(lia)).
  set (q := v / 1000000000000) in *.
  assert (0 < q) by (apply Z.div_str_pos; lia).
  assert (10 ^ (12 + d) = 10 ^ 12 * 10 ^ d) by (apply Z.pow_add_r; lia).
  assert (10 ^ (12 + d - 1) = 10 ^ 12 * 10 ^ (d - 1)).
  { rewrite <- Z.pow_add_r by lia. f_equal. lia. }
  assert (q < 10 ^ 8) by (apply Z.div_lt_upper_bound; lia).
  assert (d <= 8).
  { destruct (Z.le_gt_cases d 8); [done|].
    pose proof (Z.pow_le_mono_r 10 8 (d - 1)). lia. }
  split; [done|]. split; [lia|]. split; [lia|]. split; lia.
Qed.

(** ** ll2string writes the numeral *)

Lemma digits_table_spec i :
  0 <= i < 100 ->
  rd digits_table (i * 2) = Some (ch0 + i / 10) /\
  rd digits_table (i * 2 + 1) = Some (ch0 + i mod 10).
Proof.
  intros Hi.
  assert (forallb (fun n : nat => let i := Z.of_nat n in
    bool_decide (rd digits_table (i * 2) = Some (ch0 + i / 10)) &&
    bool_decide (rd digits_table (i * 2 + 1) = Some (ch0 + i mod 10))) (seq 0 100) = true)
    as Hall by (vm_compute; reflexivity).
  rewrite forallb_forall in Hall. specialize (Hall (Z.to_nat i)).
  rewrite in_seq, Z2Nat.id in Hall by lia.
  apply andb_true_iff in Hall as [H1%bool_decide_eq_true H2%bool_decide_eq_true]; [|lia].
  done.
Qed.

(** Writing the two digits of [x < 100] at the end of [pre]. *)
Lemma write_pair pre a b suffix next x :
  next = zlen pre + 1 -> zlen pre + 2 < 2 ^ 32 -> 0 <= x < 100 ->
  put_pair (pre ++ a :: b :: suffix) next (x * 2)
  = Some (pre ++ [ch0 + x / 10; ch0 + x mod 10] ++ suffix).
Proof.
  intros -> Hlen Hx. unfold put_pair. destruct (digits_table_spec x Hx) as [-> ->].
  cbn [mbind option_bind]. pose proof (zlen_nonneg pre).
  replace (pre ++ a :: b :: suffix) with ((pre ++ [a]) ++ b :: suffix)
    by by rewrite <- app_assoc.
  rewrite wr_here by (rewrite zlen_app, zlen_cons, zlen_nil; lia).
  cbn [mbind option_bind]. rewrite <- app_assoc. simpl.
  rewrite uwrap_small by lia. rewrite wr_here by lia. done.
Qed.

Lemma split_last {A} (l : list A) : 0 < zlen l -> exists pre a, l = pre ++ [a].
Proof. destruct l as [|a l _] using rev_ind; [unfold zlen; simpl; lia|eauto]. Qed.

Lemma split_last2 {A} (l : list A) :
  1 < zlen l -> exists pre a b, l = pre ++ [a; b] /\ zlen pre = zlen l - 2.
Proof.
  intros Hl. destruct (split_last l) as (p & b & ->); [lia|].
  rewrite zlen_app, zlen_cons, zlen_nil in *.
  destruct (split_last p) as (q & a & ->); [lia|]. exists q, a, b.
  rewrite <- app_assoc, zlen_app, zlen_cons, zlen_nil. split; [done|lia].
Qed.

Lemma numeral_pair ds v x :
  numeral ds v -> 0 < v -> 0 <= x < 100 ->
  numeral (ds ++ [ch0 + x / 10; ch0 + x mod 10]) (v * 100 + x).
Proof.
  intros Hn Hv Hx.
  replace (ds ++ [ch0 + x / 10; ch0 + x mod 10])
    with ((ds ++ [ch0 + x / 10]) ++ [ch0 + x mod 10]) by by rewrite <- app_assoc.
  pose proof (Z.div_mod x 10 ltac:(lia)). pose proof (Z.mod_pos_bound x 10 ltac:(lia)).
  replace (v * 100 + x) with ((v * 10 + x / 10) * 10 + x mod 10) by lia.
  apply numeral_snoc; [apply numeral_snoc|..]; try done; lia.
Qed.

(** The last digits fill the rest of the buffer. *)
Lemma ll2string_last_spec v :
  0 <= v < 100 ->
  exists ds, numeral ds v /\ forall pre suffix, zlen pre < 2 ^ 31 -> zlen ds <= zlen pre ->
    ll2string_last (pre ++ suffix) (zlen pre - 1) v
    = Some (take (Z.to_nat (zlen pre - zlen ds)) pre ++ ds ++ suffix).
Proof.
  intros Hv. unfold ll2string_last. rewrite uwrap_small by lia.
  destruct (Z.ltb_spec v 10).
  - exists [ch0 + v]. split; [apply numeral_digit; lia|].
    intros pre suffix _ Hl. rewrite zlen_cons, zlen_nil in *.
    destruct (split_last pre) as (p & a & ->); [lia|].
    rewrite zlen_app, zlen_cons, zlen_nil, <- app_assoc. simpl.
    rewrite wr_here by lia. f_equal. replace (_ + _ - _) with (zlen p) by lia.
    by rewrite Z2Nat_inj_zlen, take_app_length.
  - exists [ch0 + v / 10; ch0 + v mod 10]. split.
    + pose proof (Z.div_mod v 10 ltac:(lia)) as Hdm.
      pose proof (Z.mod_pos_bound v 10 ltac:(lia)).
      assert (1 <= v / 10) by (apply Z.div_le_lower_bound; lia).
      assert (v / 10 < 10) by (apply Z.div_lt_upper_bound; lia).
      rewrite Hdm at 3. rewrite Z.mul_comm. change [?a; ?b] with ([a] ++ [b]).
      apply numeral_snoc; [apply numeral_digit|..]; lia.
    + intros pre suffix Hp Hl. rewrite !zlen_cons, zlen_nil in *.
      destruct (split_last2 pre) as (p & a & b & -> & Hlp); [lia|].
      rewrite zlen_app, !zlen_cons, zlen_nil in *.
      rewrite <- app_assoc. cbn [app]. rewrite write_pair by lia.
      f_equal. replace (_ + _ - _) with (zlen p) by lia.
      by rewrite Z2Nat_inj_zlen, take_app_length.
Qed.

Lemma ll2string_loop_spec (fuel : nat) v :
  0 <= v < 100 ^ (Z.of_nat fuel + 1) ->
  exists ds, numeral ds v /\ forall pre suffix, zlen pre < 2 ^ 31 -> zlen ds <= zlen pre ->
    ('(dst, next, value) ← ll2string_loop fuel (pre ++ suffix) (zlen pre - 1) v;
     ll2string_last dst next value)
    = Some (take (Z.to_nat (zlen pre - zlen ds)) pre ++ ds ++ suffix).
Proof.
  revert v. induction fuel as [|fuel IH]; intros v Hv; simpl;
    destruct (Z.geb_spec v 100).
  - lia.
  - apply ll2string_last_spec. lia.
  - assert (0 <= v mod 100 < 100) by (apply Z.mod_pos_bound; lia).
    pose proof (Z.div_mod v 100 ltac:(lia)) as Hdm.
    assert (1 <= v / 100) by (apply Z.div_le_lower_bound; lia).
    destruct (IH (v / 100)) as (ds & Hn & Hrun).
    { split; [lia|]. apply Z.div_lt_upper_bound; [lia|].
      rewrite Nat2Z.inj_succ, Z.pow_add_r, Z.pow_succ_r in Hv by lia.
      rewrite Z.pow_add_r by lia. lia. }
    exists (ds ++ [ch0 + v mod 100 / 10; ch0 + (v mod 100) mod 10]). split.
    { rewrite Hdm at 3. rewrite Z.mul_comm. apply numeral_pair; [done|lia|done]. }
    intros pre suffix Hp Hl. rewrite zlen_app, !zlen_cons, zlen_nil in Hl.
    pose proof (numeral_nonempty _ _ Hn).
    destruct (split_last2 pre) as (p & a & b & -> & Hlp); [lia|].
    rewrite zlen_app, !zlen_cons, zlen_nil in *.
    rewrite <- app_assoc. cbn [app]. rewrite write_pair by lia. cbn [mbind option_bind].
    rewrite uwrap_small by lia.
    replace (_ - 1 - 2) with (zlen p - 1) by lia.
    rewrite Hrun by lia. f_equal.
    replace (zlen (ds ++ _)) with (zlen ds + 2) by (rewrite zlen_app; done).
    rewrite <- app_assoc, take_app_le by (unfold zlen in *; lia).
    do 2 f_equal. lia.
  - apply ll2string_last_spec. lia.
Qed.

Lemma ll2string_ok dst dstlen v :
  sfits 64 v -> zlen dst = dstlen ->
  exists ds, signed_numeral ds v /\
    ll2string dst dstlen v
    = Some (if zlen ds <? dstlen
            then (ds ++ [0] ++ drop (S (length ds)) dst, zlen ds) else (dst, 0)).
Proof.
  unfold sfits. intros Hv Hlen. unfold ll2string.
  set (neg := if v <? 0 then 1 else 0).
  assert ((if v <? 0 then (if negb (v =? LLONG_MIN) then u64 (- v) else u64 (LLONG_MAX + 1), 1)
           else (v, 0)) = (Z.abs v, neg)) as ->.
  { unfold neg, LLONG_MIN, LLONG_MAX. destruct (Z.ltb_spec v 0).
    - rewrite !uwrap_small by lia. destruct (Z.eqb_spec v (-9223372036854775808)); simpl;
        f_equal; lia.
    - f_equal; lia. }
  destruct (digits10_spec (Z.abs v)) as (d & -> & Hd & Hu & Hl & Hz); [lia|].
  destruct (ll2string_loop_spec 10 (Z.abs v)) as (ds & Hn & Hrun); [lia|].
  destruct (numeral_bounds _ _ Hn) as (Hb1 & Hb2 & Hb3).
  assert (zlen ds = d) as Hds.
  { destruct (Z.eq_dec (Z.abs v) 0) as [H0|]; [rewrite Hb3, Hz; done|].
    apply (pow10_unique (Z.abs v)); [|lia..].
    by eapply numeral_nonempty. }
  assert (0 <= neg <= 1) by (unfold neg; case_match; lia).
  cbn [mbind option_bind]. rewrite (uwrap_small 32 (d + neg)) by lia.
  set (sds := if v <? 0 then ch_minus :: ds else ds).
  assert (zlen sds = d + neg) as Hsds.
  { unfold sds, neg. case_match; rewrite ?zlen_cons; lia. }
  exists sds. split.
  { unfold sds, signed_numeral. destruct (Z.ltb_spec v 0); [right|left].
    - split; [lia|]. exists ds. by rewrite <- Z.abs_neq by lia.
    - split; [lia|]. by rewrite <- (Z.abs_eq v) by lia. }
  rewrite Hsds. destruct (Z.geb_spec (d + neg) dstlen) as [Hge|Hge];
    [by destruct (Z.ltb_spec (d + neg) dstlen); [lia|]|].
  destruct (Z.ltb_spec (d + neg) dstlen); [|lia].
  rewrite wr_ok by lia. cbn [mbind option_bind].
  rewrite insert_take_drop by (unfold zlen in *; lia).
  set (pre := take (Z.to_nat (d + neg)) dst).
  assert (zlen pre = d + neg) as Hpre by (apply zlen_take; lia).
  rewrite (uwrap_small 32 (d + neg - 1)) by lia.
  specialize (Hrun pre (0 :: drop (S (Z.to_nat (d + neg))) dst) ltac:(lia) ltac:(lia)).
  rewrite Hpre in Hrun. destruct (ll2string_loop 10 _ _ _) as [[[dst1 next] val]|]; [|done].
  cbn [mbind option_bind] in *. rewrite Hrun. cbn [mbind option_bind].
  assert (Z.to_nat (d + neg) = length sds) as -> by (unfold zlen in *; lia).
  replace (d + neg - zlen ds) with neg by lia. unfold neg, sds in *.
  destruct (v <? 0); simpl.
  - destruct pre as [|x pre]; [rewrite zlen_nil in Hpre; lia|]. done.
  - done.
Qed.

(** [ll2string] prints every 64-bit integer, [LLONG_MIN] included: into a
    buffer of [dstlen] bytes it writes the decimal numeral and a NUL and returns
    its length when the numeral and the NUL fit, and otherwise returns 0 and
    writes nothing. It never writes outside the buffer. *)
Theorem ll2string_spec dst dstlen v :
  sfits 64 v -> zlen dst = dstlen ->
  exists ds, signed_numeral ds v /\
    ll2string dst dstlen v
    = Some (if zlen ds <? dstlen
            then (ds ++ [0] ++ drop (S (length ds)) dst, zlen ds) else (dst, 0)).
Proof. apply ll2string_ok. Qed.

Lemma ll2string_spec_witness :
  exists ds, signed_numeral ds LLONG_MIN /\
    ll2string (replicate 21 255) 21 LLONG_MIN
    = Some (if zlen ds <? 21
            then (ds ++ [0] ++ drop (S (length ds)) (replicate 21 255), zlen ds)
            else (replicate 21 255, 0)).
Proof.
  apply (ll2string_spec (replicate 21 255) 21 LLONG_MIN);
    [split; vm_compute; congruence|reflexivity].
Defined.

(** ** string2ll accepts exactly the numerals of 64-bit integers *)

(** The digit loop on the rest of the string. *)
Fixpoint scan_digits (plen v : Z) (r : list Z) : option (Z * Z) :=
  match r with
  | [] => Some (plen, v)
  | c :: r =>
      if is_digit c then
        let v := v * 10 + (c - ch0) in
        if v >? ULLONG_MAX then None else scan_digits (plen + 1) v r
      else Some (plen, v)
  end.

Lemma is_digit_spec c : is_digit c = true <-> 48 <= c <= 57.
Proof. unfold is_digit. rewrite andb_true_iff, !Z.leb_le. done. Qed.

Lemma string2ll_loop_scan (fuel : nat) r pre v :
  (length r <= fuel)%nat -> 0 <= v <= ULLONG_MAX ->
  string2ll_loop fuel (pre ++ r) (zlen (pre ++ r)) (zlen pre) v
  = Some (scan_digits (zlen pre) v r).
Proof.
  revert fuel pre v. induction r as [|c r IH]; intros fuel pre v Hf Hv.
  - rewrite app_nil_r. destruct fuel; simpl; by rewrite Z.ltb_irrefl.
  - assert (zlen (pre ++ c :: r) = zlen pre + 1 + zlen r) as Hl
      by (rewrite zlen_app, zlen_cons; lia).
    assert (pre ++ c :: r = (pre ++ [c]) ++ r) as Heq by by rewrite <- app_assoc.
    destruct fuel as [|fuel]; [simpl in Hf; lia|]. cbn [string2ll_loop].
    rewrite Hl. pose proof (zlen_nonneg r).
    destruct (Z.ltb_spec (zlen pre) (zlen pre + 1 + zlen r)); [|lia].
    rewrite rd_here by done. cbn [mbind option_bind scan_digits].
    destruct (is_digit c) eqn:Hc; [|done]. apply is_digit_spec in Hc.
    unfold ULLONG_MAX, ch0 in *.
    assert (18446744073709551615 / 10 = 1844674407370955161) as -> by done.
    destruct (Z.gtb_spec (v * 10 + (c - 48)) 18446744073709551615) as [Hov|Hov].
    + destruct (Z.gtb_spec v 1844674407370955161); [done|].
      rewrite uwrap_small by lia.
      destruct (Z.gtb_spec (v * 10) (18446744073709551615 - (c - 48))); [done|lia].
    + destruct (Z.gtb_spec v 1844674407370955161); [lia|].
      rewrite (uwrap_small 64 (v * 10)) by lia.
      destruct (Z.gtb_spec (v * 10) (18446744073709551615 - (c - 48))); [lia|].
      rewrite uwrap_small by lia. rewrite <- Hl, Heq.
      replace (zlen pre + 1) with (zlen (pre ++ [c])) by (rewrite zlen_app; done).
      apply IH; [simpl in Hf; lia|lia].
Qed.

Lemma scan_digits_full r plen v p' v' :
  0 <= v ->
  (scan_digits plen v r = Some (p', v') /\ plen + zlen r <= p') <->
  (Forall (fun c => 48 <= c <= 57) r /\ p' = plen + zlen r /\ v' = dec_acc v r /\
   (r = [] \/ v' <= ULLONG_MAX)).
Proof.
  revert plen v. induction r as [|c r IH]; intros plen v Hv; cbn [scan_digits].
  - unfold dec_acc. simpl. rewrite zlen_nil. split.
    + intros [[= -> ->] ?]. split_and!; [constructor|lia|done|by left].
    + intros (_ & -> & -> & _). split; [f_equal; f_equal; lia|lia].
  - rewrite zlen_cons. pose proof (zlen_nonneg r). unfold ch0.
    destruct (is_digit c) eqn:Hc.
    + pose proof (proj1 (is_digit_spec c) Hc).
      change (dec_acc v (c :: r)) with (dec_acc (v * 10 + (c - 48)) r).
      destruct (Z.gtb_spec (v * 10 + (c - 48)) ULLONG_MAX).
      * split; [by intros [? _]|]. intros (Hd & _ & -> & [|Hu]); [done|].
        apply Forall_cons in Hd as [_ Hd].
        pose proof (dec_acc_bounds (v * 10 + (c - 48)) r ltac:(lia) Hd).
        assert (1 <= 10 ^ zlen r) by (apply Z.lt_pred_le, Z.pow_pos_nonneg; lia).
        nia.
      * rewrite (Z.add_assoc plen 1), IH, Forall_cons by lia.
        split; intros (? & ? & ? & ?); split_and!; try tauto; try lia.
        -- right. subst v'. destruct r; [unfold dec_acc; simpl; lia|by destruct_or!].
        -- right. by destruct_or!.
    + split.
      * intros [[= -> ->] ?]. lia.
      * intros (Hd & _). apply Forall_cons in Hd as [Hd _].
        by apply is_digit_spec in Hd; congruence.
Qed.

Lemma numeral_first_nonzero c r v :
  48 < c <= 57 ->
  numeral (c :: r) v <->
  Forall (fun c => 48 <= c <= 57) r /\ v = dec_acc (c - ch0) r.
Proof.
  intros Hc. unfold numeral. rewrite Forall_cons, dec_acc_0_cons. split.
  - intros (_ & [_ ?] & _ & <-). done.
  - intros [? ->]. split_and!; try done; try lia. intros [= ->]. unfold ch0 in *. lia.
Qed.

Lemma numeral_zero_first r v : numeral (ch0 :: r) v <-> r = [] /\ v = 0.
Proof.
  split.
  - intros (_ & _ & Hz & <-). specialize (Hz eq_refl). by simplify_eq.
  - intros [-> ->]. by apply (numeral_digit 0).
Qed.

(** Parsing the digits that follow the (optional) sign. *)
Lemma scan_numeral (pre : list Z) c r v fuel :
  48 < c <= 57 -> (length r <= fuel)%nat ->
  exists x, string2ll_loop fuel (pre ++ c :: r) (zlen (pre ++ c :: r)) (zlen pre + 1) (c - ch0)
            = Some x /\
    ((exists plen, x = Some (plen, v) /\ zlen (pre ++ c :: r) <= plen) <->
     numeral (c :: r) v /\ v <= ULLONG_MAX).
Proof.
  intros Hc Hf. replace (pre ++ c :: r) with ((pre ++ [c]) ++ r) by by rewrite <- app_assoc.
  replace (zlen pre + 1) with (zlen (pre ++ [c])) by (rewrite zlen_app; done).
  rewrite string2ll_loop_scan by (unfold ULLONG_MAX, ch0; lia).
  eexists. split; [done|]. rewrite numeral_first_nonzero by done.
  setoid_rewrite (zlen_app (pre ++ [c]) r).
  setoid_rewrite scan_digits_full; [|unfold ch0; lia]. split.
  - intros (p & Hd & _ & Hv & Hu). split; [done|]. subst v.
    destruct Hu as [-> |]; [|done]. unfold dec_acc, ch0, ULLONG_MAX. simpl. lia.
  - intros [[Hd Hv] Hu]. eexists. eauto.
Qed.

Lemma numeral_head c r v : numeral (c :: r) v -> 48 <= c <= 57.
Proof. intros (_ & Hd & _). by apply Forall_cons in Hd as [? _]. Qed.

Lemma numeral_nonneg ds v : numeral ds v -> 0 <= v.
Proof. intros H%numeral_bounds. lia. Qed.

Lemma signed_numeral_pos c r v :
  c <> ch_minus -> signed_numeral (c :: r) v <-> numeral (c :: r) v.
Proof.
  intros Hc. split.
  - intros [[_ ?]|(_ & ? & [= ? ?] & _)]; done.
  - intros H. left. split; [by eapply numeral_nonneg|done].
Qed.

Lemma signed_numeral_neg r v :
  signed_numeral (ch_minus :: r) v <-> v < 0 /\ numeral r (- v).
Proof.
  split.
  - intros [[_ ?%numeral_head]|(? & ? & [= <-] & ?)]; [unfold ch_minus in *; lia|done].
  - intros [? ?]. right. eauto.
Qed.

(** The part of [string2ll] after the first digit, which is 1-9. *)
Lemma string2ll_digits (pre r : list Z) c (negative : bool) :
  48 < c <= 57 ->
  exists x,
    (r' ← string2ll_loop (Z.to_nat (zlen (pre ++ c :: r))) (pre ++ c :: r)
            (zlen (pre ++ c :: r)) (zlen pre + 1) (c - ch0);
     match r' with
     | None => Some None
     | Some (plen, v) =>
         if plen <? zlen (pre ++ c :: r) then Some None
         else if negative then
           if v >? - (LLONG_MIN + 1) + 1 then Some None else Some (Some (s64 (u64 (- v))))
         else if v >? LLONG_MAX then Some None else Some (Some (s64 v))
     end) = Some x /\
    forall v, x = Some v <->
      sfits 64 v /\ (if negative then v < 0 else 0 <= v) /\
      numeral (c :: r) (if negative then - v else v).
Proof.
  intros Hc. set (s := pre ++ c :: r).
  assert (length r <= Z.to_nat (zlen s))%nat as Hf.
  { unfold s, zlen. rewrite length_app. simpl. lia. }
  destruct (scan_numeral pre c r 0 (Z.to_nat (zlen s)) Hc Hf) as (x & Hx & _). fold s in Hx.
  assert (forall v, (exists plen, x = Some (plen, v) /\ zlen s <= plen) <->
    numeral (c :: r) v /\ v <= ULLONG_MAX) as Hiff.
  { intros v. destruct (scan_numeral pre c r v (Z.to_nat (zlen s)) Hc Hf) as (x' & Hx' & H).
    fold s in Hx', H. rewrite Hx in Hx'. by injection Hx' as <-. }
  rewrite Hx. cbn [mbind option_bind]. clear Hx Hf.
  assert (forall w, numeral (c :: r) w -> 1 <= w) as Hpos.
  { intros w Hw. pose proof (numeral_bounds _ _ Hw) as (_ & _ & H0).
    apply numeral_first_nonzero in Hw as [Hd ->]; [|done].
    pose proof (dec_acc_bounds (c - ch0) r ltac:(unfold ch0; lia) Hd).
    assert (0 < 10 ^ zlen r) by (apply Z.pow_pos_nonneg; zlen). unfold ch0 in *. nia. }
  unfold sfits, ULLONG_MAX, LLONG_MIN, LLONG_MAX in *. change (2 ^ (64 - 1)) with 9223372036854775808.
  destruct x as [[plen w]|].
  2: { exists None. split; [done|]. intros v. split; [done|].
       intros (Hv & Hsgn & Hn). exfalso.
       destruct (proj2 (Hiff (if negative then - v else v))) as (? & ? & _); [|done].
       split; [done|]. destruct negative; lia. }
  destruct (Z.ltb_spec plen (zlen s)).
  { exists None. split; [done|]. intros v. split; [done|].
    intros (Hv & Hsgn & Hn). exfalso.
    destruct (proj2 (Hiff (if negative then - v else v))) as (? & ? & ?); [|simplify_eq; lia].
    split; [done|]. destruct negative; lia. }
  destruct (proj1 (Hiff w)) as [Hw Hwu]; [eauto|].
  assert (forall w', numeral (c :: r) w' -> w' = w) as Huniq.
  { intros w' Hw'. destruct Hw as (_ & _ & _ & <-), Hw' as (_ & _ & _ & <-). done. }
  specialize (Hpos w Hw). destruct negative.
  - destruct (Z.gtb_spec w (- (-9223372036854775808 + 1) + 1)); (eexists; split; [done|]);
      intros v; split; try done.
    + intros (? & ? & Hn%Huniq). lia.
    + intros [= <-]. rewrite swrap_uwrap, swrap_small by (unfold sfits; lia).
      rewrite Z.opp_involutive. split_and!; [lia..|done].
    + intros (? & ? & Hn%Huniq). f_equal.
      rewrite swrap_uwrap, swrap_small by (unfold sfits; lia). lia.
  - destruct (Z.gtb_spec w 9223372036854775807); (eexists; split; [done|]);
      intros v; split; try done.
    + intros (? & ? & Hn%Huniq). lia.
    + intros [= <-]. rewrite swrap_small by (unfold sfits; lia). split_and!; [lia..|done].
    + intros (? & ? & ->%Huniq). f_equal. apply swrap_small; unfold sfits; lia.
Qed.

Lemma string2ll_ok s :
  exists r, string2ll s (zlen s) = Some r /\
    forall v, r = Some v <-> sfits 64 v /\ signed_numeral s v.
Proof.
  destruct s as [|c r].
  { exists None. split; [done|]. intros v. split; [done|].
    intros [_ [[_ [? _]]|(_ & ? & ? & _)]]; done. }
  unfold string2ll. rewrite zlen_cons. pose proof (zlen_nonneg r).
  destruct (Z.eqb_spec 0 (1 + zlen r)); [lia|]. change (rd (c :: r) 0) with (Some c).
  cbn [mbind option_bind].
  destruct ((1 + zlen r =? 1) && (c =? ch0)) eqn:Hzero.
  { apply andb_true_iff in Hzero as [Hr%Z.eqb_eq ->%Z.eqb_eq].
    assert (r = []) as -> by (apply zlen_zero; lia).
    exists (Some 0). split; [done|]. intros v. rewrite signed_numeral_pos, numeral_zero_first by done.
    unfold sfits. split; [intros [= <-]; split_and!; done || lia|]. by intros (_ & _ & ->). }
  destruct (Z.eqb_spec c ch_minus) as [->|Hminus]; cbn [andb].
  - destruct (Z.eqb_spec 1 (1 + zlen r)).
    { assert (r = []) as -> by (apply zlen_zero; lia).
      exists None. split; [done|]. intros v. rewrite signed_numeral_neg.
      split; [done|]. by intros (_ & _ & ? & _). }
    destruct r as [|c r]; [done|]. change (rd (ch_minus :: c :: r) 1) with (Some c).
    cbn [mbind option_bind]. rewrite <- (zlen_cons ch_minus (c :: r)) in *.
    destruct (Z.leb_spec 49 c), (Z.leb_spec c 57); cbn [andb].
    1: { destruct (string2ll_digits [ch_minus] r c true) as (x & Hx & Hiff); [lia|].
         cbn [app] in Hx. exists x. split; [done|]. intros v. rewrite Hiff, signed_numeral_neg.
         tauto. }
    all: assert ((zlen (ch_minus :: c :: r) =? 1) = false) as ->
      by (apply Z.eqb_neq; rewrite !zlen_cons; pose proof (zlen_nonneg r); lia).
    all: rewrite andb_false_r; exists None; split; [done|]; intros v; split; [done|];
      intros [_ [? Hn]%signed_numeral_neg].
    all: pose proof (numeral_head _ _ _ Hn); try lia.
    assert (c = ch0) as -> by (unfold ch0; lia). apply numeral_zero_first in Hn. lia.
  - change (rd (c :: r) 0) with (Some c). cbn [mbind option_bind]. rewrite <- (zlen_cons c r) in *.
    destruct (Z.leb_spec 49 c), (Z.leb_spec c 57); cbn [andb].
    1: { destruct (string2ll_digits [] r c false) as (x & Hx & Hiff); [lia|].
         cbn [app] in Hx. exists x. split; [done|]. intros v.
         rewrite Hiff, signed_numeral_pos by done.
         split; [tauto|]. intros [? Hn]. pose proof (numeral_nonneg _ _ Hn). tauto. }
    all: rewrite andb_comm, Hzero; exists None; split; [done|]; intros v; split; [done|];
      intros [_ Hn]; rewrite signed_numeral_pos in Hn by done.
    all: pose proof (numeral_head _ _ _ Hn); try lia.
    assert (c = ch0) as -> by (unfold ch0; lia). apply numeral_zero_first in Hn as [-> _].
    done.
Qed.

(** [string2ll] decides decimal numerals: on any byte string it returns
    without reading past the end, and it returns 1 with the value [v] exactly when
    the string is the numeral of [v] (optional minus sign, no leading zeros, no
    other character) and [v] fits a [long long]. *)
Theorem string2ll_iff s :
  exists r, string2ll s (zlen s) = Some r /\
    forall v, r = Some v <-> sfits 64 v /\ signed_numeral s v.
Proof. apply string2ll_ok. Qed.

Lemma dec_acc_inj ds : forall ds' a a',
  length ds = length ds' -> Forall (fun c => 48 <= c <= 57) ds -> Forall (fun c => 48 <= c <= 57) ds' ->
  0 <= a -> 0 <= a' -> dec_acc a ds = dec_acc a' ds' -> a = a' /\ ds = ds'.
Proof.
  induction ds as [|c ds IH]; intros [|c' ds'] a a' Hl Hd Hd' Ha Ha' Heq; try done.
  apply Forall_cons in Hd as [Hc Hd]. apply Forall_cons in Hd' as [Hc' Hd']. injection Hl as Hl.
  destruct (IH ds' (a * 10 + (c - ch0)) (a' * 10 + (c' - ch0)) Hl Hd Hd') as [Hacc ->]; [unfold ch0; lia..|exact Heq|].
  unfold ch0 in Hacc. split; [lia|]. f_equal. lia.
Qed.

(** A number has one numeral. *)
Lemma numeral_unique ds ds' v : numeral ds v -> numeral ds' v -> ds = ds'.
Proof.
  intros H H'. destruct (numeral_bounds ds v H) as ([Hv Hlt] & Hpos & Hz). destruct (numeral_bounds ds' v H') as ([_ Hlt'] & Hpos' & Hz').
  pose proof (numeral_nonempty ds v H). pose proof (numeral_nonempty ds' v H').
  assert (zlen ds = zlen ds') as Hl.
  { destruct (Z.eq_dec v 0) as [->|]; [rewrite Hz, Hz'; done|]. apply (pow10_unique v); lia. }
  destruct H as (_ & Hd & _ & Heq), H' as (_ & Hd' & _ & Heq').
  apply (dec_acc_inj ds ds' 0 0); [unfold zlen in Hl; lia|done|done|done|done|congruence].
Qed.

Lemma signed_numeral_unique ds ds' v : signed_numeral ds v -> signed_numeral ds' v -> ds = ds'.
Proof.
  intros [[? H]|[? (l & -> & H)]] [[? H']|[? (l' & -> & H')]]; try lia; [by eapply numeral_unique|].
  f_equal. by eapply numeral_unique.
Qed.

Lemma signed_numeral_len ds v : sfits 64 v -> signed_numeral ds v -> zlen ds <= 20.
Proof.
  unfold sfits. intros Hv.
  assert (forall ds v, 0 <= v <= 2 ^ 63 -> numeral ds v -> zlen ds <= 19) as H.
  { intros l w Hw (_ & Hb & Hz)%numeral_bounds.
    destruct (Z.eq_dec w 0) as [H0|]; [rewrite Hz; lia|].
    destruct (Z.le_gt_cases (zlen l) 19) as [|Hlt]; [done|].
    pose proof (Z.pow_le_mono_r 10 19 (zlen l - 1)). lia. }
  intros [[? Hn]|(? & ds' & -> & Hn)]; [|rewrite zlen_cons];
    apply H in Hn; lia.
Qed.

(** Round trip: whatever 64-bit integer [ll2string] prints into a buffer of
    at least 21 bytes, [string2ll] and [string2l] read back from the bytes it
    announced. *)
Theorem ll2string_roundtrip dst dstlen v :
  sfits 64 v -> zlen dst = dstlen -> 21 <= dstlen ->
  exists dst' n, ll2string dst dstlen v = Some (dst', n) /\ 0 < n /\ rd dst' n = Some 0 /\
    string2ll (take (Z.to_nat n) dst') n = Some (Some v) /\
    string2l (take (Z.to_nat n) dst') n = Some (Some v).
Proof.
  intros Hv Hlen Hbig. destruct (ll2string_ok dst dstlen v Hv Hlen) as (ds & Hds & ->).
  pose proof (signed_numeral_len _ _ Hv Hds).
  destruct (Z.ltb_spec (zlen ds) dstlen); [|lia].
  eexists _, _. split; [done|].
  assert (string2ll ds (zlen ds) = Some (Some v)) as Hrt.
  { destruct (string2ll_ok ds) as (r & -> & Hr). f_equal. by apply Hr. }
  rewrite Z2Nat_inj_zlen, take_app_length. split_and!; [|by apply rd_here|done|].
  - destruct Hds as [[_ Hn]|(_ & ? & -> & _)]; [|rewrite zlen_cons; zlen].
    apply numeral_nonempty in Hn. lia.
  - unfold string2l. rewrite Hrt. cbn [mbind option_bind].
    unfold sfits, LLONG_MIN, LLONG_MAX in *.
    destruct (Z.ltb_spec v (-9223372036854775808)), (Z.gtb_spec v 9223372036854775807);
      try done; lia.
Qed.

Lemma ll2string_roundtrip_witness :
  exists dst' n, ll2string (replicate 24 7) 24 (-305) = Some (dst', n) /\ 0 < n /\
    rd dst' n = Some 0 /\ string2ll (take (Z.to_nat n) dst') n = Some (Some (-305)) /\
    string2l (take (Z.to_nat n) dst') n = Some (Some (-305)).
Proof.
  apply (ll2string_roundtrip (replicate 24 7) 24 (-305));
    [split; vm_compute; congruence|reflexivity|lia].
Defined.

(** ** memtoll *)

Definition to_lower (c : Z) : Z := if (65 <=? c) && (c <=? 90) then c + 32 else c.

(** The characters of the C string at the start of [u], up to its NUL. *)
Fixpoint c_str (u : list Z) : option (list Z) :=
  match u with
  | [] => None
  | c :: u => if c =? 0 then Some [] else (c ::.) <$> c_str u
  end.

(** [!strcasecmp(u, w)] *)
Definition strcase_eq (u w : list Z) : bool :=
  bool_decide (map to_lower u = map to_lower w).

(** Skips the characters for which [isdigit] holds, from [u]. *)
Fixpoint skip_digits (fuel : nat) (p : list Z) (u : Z) : option Z :=
  c ← rd p u;
  if negb (c =? 0) && is_digit c then
    match fuel with O => None | S fuel => skip_digits fuel p (u + 1) end
  else Some u.

(** The C library's [strtoll(buf, NULL, 10)] on an optional minus sign and
    digits: it saturates. *)
Definition strtoll10 (buf : list Z) : Z :=
  let v := match buf with
           | c :: ds => if c =? ch_minus then - dec_acc 0 ds else dec_acc 0 buf
           | [] => 0
           end in
  Z.max LLONG_MIN (Z.min LLONG_MAX v).

(** A signed multiplication that overflows has no meaning in C. *)
Definition smul64 (a b : Z) : option Z :=
  if (LLONG_MIN <=? a * b) && (a * b <=? LLONG_MAX) then Some (a * b) else None.

(** Result: the returned value and [*err]. *)
Definition memtoll (p : list Z) : option (Z * Z) :=
  c ← rd p 0;
  u ← skip_digits (length p) p (if c =? ch_minus then 1 else 0);
  unit ← c_str (drop (Z.to_nat u) p);
  let '(mul, err) :=
    if bool_decide (unit = []) || strcase_eq unit (zs "b") then (1, 0)
    else if strcase_eq unit (zs "k") then (1000, 0)
    else if strcase_eq unit (zs "kb") then (1024, 0)
    else if strcase_eq unit (zs "m") then (1000 * 1000, 0)
    else if strcase_eq unit (zs "mb") then (1024 * 1024, 0)
    else if strcase_eq unit (zs "g") then (1000 * 1000 * 1000, 0)
    else if strcase_eq unit (zs "gb") then (1024 * 1024 * 1024, 0)
    else (1, 1) in
  let digits := u32 u in
  if digits >=? 128 then Some (LLONG_MAX, 1)
  else
    let val := strtoll10 (take (Z.to_nat digits) p) in
    r ← smul64 val mul;
    Some (r, err).

(** The unit suffixes and what they multiply by. *)
Definition memory_units : list (list Z * Z) :=
  [([], 1); (zs "b", 1); (zs "k", 1000); (zs "kb", 1024); (zs "m", 1000000);
   (zs "mb", 1048576); (zs "g", 1000000000); (zs "gb", 1073741824)].

Lemma skip_digits_spec ds pre rest fuel :
  Forall (fun c => 48 <= c <= 57) ds -> (length ds <= fuel)%nat ->
  (exists c rest', rest = c :: rest' /\ is_digit c = false) ->
  skip_digits fuel (pre ++ ds ++ rest) (zlen pre) = Some (zlen pre + zlen ds).
Proof.
  intros Hds. revert pre fuel. induction Hds as [|d ds Hd _ IH]; intros pre fuel Hf Hr.
  - destruct Hr as (c & rest' & -> & Hc).
    destruct fuel; cbn [skip_digits app]; rewrite rd_at; cbn [mbind option_bind];
      rewrite Hc, andb_false_r; zlens; by rewrite Z.add_0_r.
  - destruct fuel as [|fuel]; [simpl in Hf; lia|]. cbn [skip_digits app].
    rewrite rd_at. cbn [mbind option_bind].
    rewrite (proj2 (is_digit_spec d)) by lia.
    destruct (Z.eqb_spec d 0); [lia|]. cbn [negb andb].
    specialize (IH (pre ++ [d]) fuel ltac:(simpl in Hf; lia) Hr).
    rewrite <- app_assoc in IH. cbn [app] in IH.
    replace (zlen (pre ++ [d])) with (zlen pre + 1) in IH by by zlens.
    rewrite IH. f_equal. zlens. lia.
Qed.

Lemma c_str_app u rest : Forall (fun c => c <> 0) u -> c_str (u ++ 0 :: rest) = Some u.
Proof.
  induction 1 as [|c u Hc _ IH]; [done|]. cbn [c_str app].
  destruct (Z.eqb_spec c 0); [done|]. by rewrite IH.
Qed.

Lemma c_str_total b : exists p, c_str (b ++ [0]) = Some p.
Proof.
  induction b as [|a b [p IH]]; simpl; [by exists []|]. destruct (a =? 0); [by exists []|].
  rewrite IH. by eexists.
Qed.

Lemma signed_numeral_nonzero ds v : signed_numeral ds v -> Forall (fun c => c <> 0 /\ byte_ok c) ds.
Proof.
  assert (forall ds v, numeral ds v -> Forall (fun c => c <> 0 /\ byte_ok c) ds) as Hn.
  { intros ds' v' (_ & Hd & _). eapply Forall_impl; [exact Hd|]. unfold byte_ok. intros c Hc. lia. }
  intros [[_ H]|(_ & ds' & -> & H)]; [by eapply Hn|]. constructor; [done|by eapply Hn].
Qed.

(** A numeral followed by one of the unit suffixes, in upper or lower case,
    is converted to the number of bytes it stands for, without an error, when that
    number fits a [long long]. *)
Theorem memtoll_units ds v u name mul :
  numeral ds v -> zlen ds < 128 -> (name, mul) ∈ memory_units ->
  map to_lower u = name -> v * mul <= LLONG_MAX ->
  memtoll (ds ++ u ++ [0]) = Some (v * mul, 0).
Proof.
  intros Hn Hlen Hin Hu Hmax. pose proof (numeral_nonneg _ _ Hn) as Hv.
  pose proof Hn as (_ & Hd & _ & Hval).
  assert (Forall (fun c => c <> 0 /\ is_digit c = false) u) as Hu0.
  { apply Forall_forall. intros c Hc.
    assert (to_lower c ∈ name) as Hlow by (subst name; by apply list_elem_of_fmap_2).
    assert (Forall (fun p : list Z * Z => Forall (fun c => 57 < c) p.1) memory_units) as Hall
      by (repeat constructor; lia).
    rewrite Forall_forall in Hall. specialize (Hall _ Hin). rewrite Forall_forall in Hall.
    specialize (Hall _ Hlow). revert Hall. unfold to_lower, is_digit.
    destruct (Z.leb_spec 65 c), (Z.leb_spec c 90); simpl; intros;
      (split; [lia|]); apply andb_false_iff; right; apply Z.leb_gt; lia. }
  assert (rd (ds ++ u ++ [0]) 0 <> Some ch_minus /\ exists c, rd (ds ++ u ++ [0]) 0 = Some c)
    as [Hneg [c0 Hc0]].
  { destruct Hn as (Hne & _). destruct ds as [|c ds]; [done|].
    apply Forall_cons in Hd as [Hc _]. simpl in Hc.
    split; [intros [= ->]; unfold ch_minus in Hc; lia|by exists c]. }
  unfold memtoll. rewrite Hc0 in *. cbn [mbind option_bind].
  destruct (Z.eqb_spec c0 ch_minus) as [->|_]; [done|].
  change (ds ++ u ++ [0]) with ([] ++ ds ++ u ++ [0]) at 2.
  rewrite (skip_digits_spec ds [] (u ++ [0])); [|done|rewrite !length_app; lia|].
  2: { destruct Hu0 as [|c u' [_ Hc] _]; [by exists 0, []|by exists c, (u' ++ [0])]. }
  cbn [mbind option_bind]. change (zlen (@nil Z)) with 0. rewrite ?app_nil_l, !Z.add_0_l, Z2Nat_inj_zlen, drop_app_length.
  rewrite c_str_app by (eapply Forall_impl; [exact Hu0|]; by intros c [? _]).
  cbn [mbind option_bind].
  pose proof (zlen_nonneg ds).
  rewrite uwrap_small by lia. rewrite Z2Nat_inj_zlen, take_app_length.
  assert (strtoll10 ds = v \/ mul = 0) as Hstr.
  { left. unfold strtoll10. destruct ds as [|c ds]; [by destruct Hn|].
    injection Hc0 as ->. destruct (Z.eqb_spec c0 ch_minus); [by subst|].
    rewrite Hval. assert (1 <= mul) by
      (repeat (apply elem_of_cons in Hin as [[= _ ->]|Hin]; [lia|]); by apply elem_of_nil in Hin).
    unfold LLONG_MIN, LLONG_MAX in *. nia. }
  assert ((if bool_decide (u = []) || strcase_eq u (zs "b") then (1, 0)
    else if strcase_eq u (zs "k") then (1000, 0)
    else if strcase_eq u (zs "kb") then (1024, 0)
    else if strcase_eq u (zs "m") then (1000 * 1000, 0)
    else if strcase_eq u (zs "mb") then (1024 * 1024, 0)
    else if strcase_eq u (zs "g") then (1000 * 1000 * 1000, 0)
    else if strcase_eq u (zs "gb") then (1024 * 1024 * 1024, 0)
    else (1, 1)) = (mul, 0)) as ->.
  { unfold strcase_eq. rewrite Hu.
    repeat (apply elem_of_cons in Hin as [[= -> ->]|Hin];
      [first [rewrite (bool_decide_eq_false_2 (u = [])) by by intros -> | destruct u; [|done]];
       reflexivity|]). by apply elem_of_nil in Hin. }
  destruct (Z.geb_spec (zlen ds) 128); [lia|].
  assert (1 <= mul) by
    (repeat (apply elem_of_cons in Hin as [[= _ ->]|Hin]; [lia|]); by apply elem_of_nil in Hin).
  destruct Hstr as [-> | ->]; [|lia]. unfold smul64.
  destruct (Z.leb_spec LLONG_MIN (v * mul)), (Z.leb_spec (v * mul) LLONG_MAX);
    try done; unfold LLONG_MIN in *; nia.
Qed.

Lemma memtoll_units_witness : memtoll (zs "12Gb" ++ [0]) = Some (12884901888, 0).
Proof.
  apply (memtoll_units (zs "12") 12 (zs "Gb") (zs "gb") 1073741824);
    [|reflexivity|by do 7 apply list_elem_of_further; left|reflexivity|done].
  apply (numeral_snoc (zs "1") 1 2); [apply (numeral_digit 1)|..]; lia.
Defined.
