(* ===== verification/Glob.v ===== *)
(** * Glob-style pattern matching (src/redis-2.8.19/src/util.c)

    [stringmatchlen], on NUL-terminated patterns and strings: the pointers are
    indexes, the accesses are bounds checked and a run that would read past a
    terminator is [None]. The relation [glob] says what a pattern means; the
    theorems relate the two and exhibit the inputs on which they differ. *)
From S2P Require Import Prelude Util.
Open Scope Z_scope.

Section matcher.
Context (pat str : list Z) (nocase : bool).

(** [while (pattern[1] == '*')] *)
Fixpoint squeeze_stars (fuel : nat) (p plen : Z) : option (Z * Z) :=
  c ← rd pat (p + 1);
  if c =? 42 then
    match fuel with O => None | S fuel => squeeze_stars fuel (p + 1) (plen - 1) end
  else Some (p, plen).

(** [while ( *pattern == '*')], once the string is consumed. *)
Fixpoint trailing_stars (fuel : nat) (p plen : Z) : option Z :=
  c ← rd pat p;
  if c =? 42 then
    match fuel with O => None | S fuel => trailing_stars fuel (p + 1) (plen - 1) end
  else Some plen.

(** The character tests of the matcher: equal, equal up to case, in a range. *)
Definition char_eq (a b : Z) : bool :=
  if nocase then to_lower a =? to_lower b else a =? b.

Definition in_range (a b c : Z) : bool :=
  let start := s8 a in
  let end_ := s8 b in
  let c := s8 c in
  let '(start, end_) := if start >? end_ then (end_, start) else (start, end_) in
  let '(start, end_, c) :=
    if nocase then (to_lower start, to_lower end_, to_lower c) else (start, end_, c) in
  (c >=? start) && (c <=? end_).

(** The [while(1)] loop over the items of a bracket; [c0] is [string[0]]. *)
Fixpoint class_loop (fuel : nat) (p plen c0 : Z) (matched : bool)
  : option (Z * Z * bool) :=
  match fuel with
  | O => None
  | S fuel =>
      a ← rd pat p;
      if a =? 92 then
        b ← rd pat (p + 1);
        class_loop fuel (p + 2) (plen - 2) c0 (matched || (b =? c0))
      else if a =? 93 then Some (p, plen, matched)
      else if plen =? 0 then Some (p - 1, plen + 1, matched)
      else
        a1 ← rd pat (p + 1);
        if (a1 =? 45) && (plen >=? 3) then
          b ← rd pat (p + 2);
          class_loop fuel (p + 3) (plen - 3) c0 (matched || in_range a b c0)
        else class_loop fuel (p + 1) (plen - 1) c0 (matched || char_eq a c0)
  end.

(** The code after the [switch]; [loop] is the next turn. *)
Definition advance (loop : Z -> Z -> Z -> Z -> option bool) (p plen s slen : Z)
  : option bool :=
  let p := p + 1 in
  let plen := plen - 1 in
  if slen =? 0 then
    plen ← trailing_stars (length pat) p plen;
    Some (plen =? 0)
  else loop p plen s slen.

(** The [default] case. *)
Definition literal (loop : Z -> Z -> Z -> Z -> option bool) (p plen s slen : Z)
  : option bool :=
  a ← rd pat p;
  b ← rd str s;
  if char_eq a b then advance loop p plen (s + 1) (slen - 1) else Some false.

(** The [while(stringLen)] of the star case; [rec] is the recursive call. *)
Fixpoint star_loop (rec : Z -> Z -> option bool) (k : nat) (s slen : Z) : option bool :=
  if slen =? 0 then Some false
  else
    match k with
    | O => None
    | S k =>
        r ← rec s slen;
        if (r : bool) then Some true else star_loop rec k (s + 1) (slen - 1)
    end.

(** One turn of [while(patternLen)] and the turns after it, from the state
    [p], [plen], [s], [slen]: indexes of [pattern] and [string], and lengths. *)
Fixpoint match_loop (fuel : nat) (p plen s slen : Z) {struct fuel} : option bool :=
  if plen =? 0 then Some (slen =? 0)
  else
    match fuel with
    | O => None
    | S fuel =>
        c ← rd pat p;
        if c =? 42 then
          '(p, plen) ← squeeze_stars (length pat) p plen;
          if plen =? 1 then Some true
          else star_loop (match_loop fuel (p + 1) (plen - 1)) fuel s slen
        else if c =? 63 then
          if slen =? 0 then Some false
          else advance (match_loop fuel) p plen (s + 1) (slen - 1)
        else if c =? 91 then
          c1 ← rd pat (p + 1);
          let neg := c1 =? 94 in
          let '(p, plen) := if (neg : bool) then (p + 2, plen - 2) else (p + 1, plen - 1) in
          c0 ← rd str s;
          '(p, plen, matched) ← class_loop (S (length pat)) p plen c0 false;
          if xorb neg matched then advance (match_loop fuel) p plen (s + 1) (slen - 1)
          else Some false
        else if c =? 92 then
          if plen >=? 2 then literal (match_loop fuel) (p + 1) (plen - 1) s slen
          else literal (match_loop fuel) p plen s slen
        else literal (match_loop fuel) p plen s slen
    end.
End matcher.

(** The fuel is the number of characters, pattern and string together. *)
Definition stringmatchlen (pattern : list Z) (patternLen : Z) (string : list Z)
    (stringLen : Z) (nocase : bool) : option bool :=
  match_loop pattern string nocase (S (Z.to_nat (patternLen + stringLen))) 0 patternLen 0 stringLen.

Definition stringmatch (pattern string : list Z) (nocase : bool) : option bool :=
  p ← c_str pattern;
  s ← c_str string;
  stringmatchlen pattern (zlen p) string (zlen s) nocase.

(** ** What a pattern means *)

Section glob.
Context (nocase : bool).

(** The items of a bracket, after [\[] and [^]: whether one of them accepts
    [c0], and the pattern after the closing bracket (an unclosed bracket ends with
    the pattern). [None]: the pattern ends after a backslash. *)
Fixpoint class_items (l : list Z) (c0 : Z) (matched : bool) : option (bool * list Z) :=
  match l with
  | [] => Some (matched, [])
  | a :: l1 =>
      if a =? 92 then
        match l1 with
        | b :: l2 => class_items l2 c0 (matched || (b =? c0))
        | [] => None
        end
      else if a =? 93 then Some (matched, l1)
      else
        match l1 with
        | a1 :: (b :: l3) =>
            if a1 =? 45 then class_items l3 c0 (matched || in_range nocase a b c0)
            else class_items l1 c0 (matched || char_eq nocase a c0)
        | _ => class_items l1 c0 (matched || char_eq nocase a c0)
        end
  end.

Definition class_accepts (l : list Z) (c0 : Z) : option (bool * list Z) :=
  match l with
  | 94 :: l => '(m, l) ← class_items l c0 false; Some (negb m, l)
  | _ => class_items l c0 false
  end.

Inductive glob : list Z -> list Z -> Prop :=
| glob_nil : glob [] []
| glob_star_skip p s : glob p s -> glob (42 :: p) s
| glob_star_take p c s : glob (42 :: p) s -> glob (42 :: p) (c :: s)
| glob_any p c s : glob p s -> glob (63 :: p) (c :: s)
| glob_class p p' c s :
    class_accepts p c = Some (true, p') -> glob p' s -> glob (91 :: p) (c :: s)
| glob_escape p d c s :
    char_eq nocase d c = true -> glob p s -> glob (92 :: d :: p) (c :: s)
| glob_char p d c s :
    d ∉ [42; 63; 91; 92] -> char_eq nocase d c = true -> glob p s ->
    glob (d :: p) (c :: s).

Lemma glob_nil_inv s : glob [] s <-> s = [].
Proof. split; [by inversion 1|intros ->; constructor]. Qed.

Lemma glob_star_suffix p s : glob (42 :: p) s <-> exists s1 s2, s = s1 ++ s2 /\ glob p s2.
Proof.
  split.
  - remember (42 :: p) as q eqn:Hq. intros Hg.
    induction Hg as [| |p' c s Hg IH| | | |p' d c s Hd]; simplify_eq.
    + by exists [], s.
    + destruct (IH eq_refl) as (s1 & s2 & -> & ?). by exists (c :: s1), s2.
    + destruct Hd. set_solver.
  - intros (s1 & s2 & -> & Hg). induction s1 as [|c s1 IH]; simpl; by constructor.
Qed.

Lemma glob_star_star p s : glob (42 :: 42 :: p) s <-> glob (42 :: p) s.
Proof.
  rewrite (glob_star_suffix (42 :: p)). split.
  - intros (s1 & s2 & -> & (s3 & s4 & -> & Hg)%glob_star_suffix).
    apply glob_star_suffix. exists (s1 ++ s3), s4. by rewrite app_assoc.
  - intros Hg. by exists [], s.
Qed.

(** Only stars match the empty string. *)
Lemma glob_empty_string p d : glob (d :: p) [] <-> d = 42 /\ glob p [].
Proof. split; [by inversion 1|intros [-> ?]; by constructor]. Qed.
End glob.

(** ** The matcher decides [glob] *)

Section matcher_spec.
Context (nocase : bool).

(** The patterns for which the reads of the matcher stay in the C string. *)
Definition no_final_backslash (p : list Z) : Prop := last p <> Some 92.

Lemma no_final_backslash_tail a p : no_final_backslash (a :: p) -> no_final_backslash p.
Proof. unfold no_final_backslash. by destruct p. Qed.

Lemma squeeze_stars_spec l pp fuel :
  (length l <= fuel)%nat ->
  exists q pp', pp ++ 42 :: l ++ [0] = pp' ++ 42 :: q ++ [0] /\ head q <> Some 42 /\
    (length q <= length l)%nat /\
    squeeze_stars (pp ++ 42 :: l ++ [0]) fuel (zlen pp) (1 + zlen l)
      = Some (zlen pp', 1 + zlen q) /\
    (no_final_backslash l -> no_final_backslash q) /\
    (forall s, glob nocase (42 :: l) s <-> glob nocase (42 :: q) s).
Proof.
  revert pp fuel. induction l as [|c l IH]; intros pp fuel Hf.
  - exists [], pp. split_and!; try done.
    assert (rd (pp ++ 42 :: [] ++ [0]) (zlen pp + 1) = Some 0) as Hrd.
    { rewrite rd_app_r by lia. by replace (zlen pp + 1 - zlen pp) with 1 by lia. }
    destruct fuel; cbn [squeeze_stars]; by rewrite Hrd.
  - assert (pp ++ 42 :: (c :: l) ++ [0] = (pp ++ [42]) ++ c :: l ++ [0]) as Heq
      by by rewrite <- app_assoc.
    assert (rd (pp ++ 42 :: (c :: l) ++ [0]) (zlen pp + 1) = Some c) as Hrd.
    { rewrite Heq. apply rd_here. rewrite zlen_app. done. }
    destruct (Z.eqb_spec c 42) as [->|Hc].
    + destruct fuel as [|fuel]; [simpl in Hf; lia|].
      destruct (IH (pp ++ [42]) fuel) as (q & pp' & Hpp & Hq & Hlen & Hsq & Hb & Hg);
        [simpl in Hf; lia|].
      exists q, pp'. split_and!; try done.
      * by rewrite Heq.
      * simpl. lia.
      * cbn [squeeze_stars]. rewrite Hrd. cbn [mbind option_bind].
        rewrite Heq, zlen_cons, <- Hsq. zlens.
        simpl. f_equal; lia.
      * intros ?%no_final_backslash_tail. auto.
      * intros s. by rewrite glob_star_star.
    + exists (c :: l), pp. split_and!; try done.
      * simpl; congruence.
      * destruct fuel; cbn [squeeze_stars]; rewrite Hrd; cbn [mbind option_bind];
          by destruct (Z.eqb_spec c 42).
Qed.

Lemma trailing_stars_spec l pp fuel :
  (length l <= fuel)%nat ->
  exists n, trailing_stars (pp ++ l ++ [0]) fuel (zlen pp) (zlen l) = Some n /\
    (n = 0 <-> glob nocase l []).
Proof.
  revert pp fuel. induction l as [|c l IH]; intros pp fuel Hf.
  - exists 0. split; [|by rewrite glob_nil_inv].
    destruct fuel; cbn [trailing_stars app]; by rewrite rd_here.
  - setoid_rewrite glob_empty_string. destruct fuel as [|fuel]; [simpl in Hf; lia|].
    cbn [trailing_stars app]. rewrite rd_here by done. cbn [mbind option_bind].
    destruct (Z.eqb_spec c 42) as [->|Hc].
    + destruct (IH (pp ++ [42]) fuel) as (n & Hn & Hiff); [simpl in Hf; lia|].
      exists n. split; [|tauto]. rewrite <- Hn, <- app_assoc. zlens.
      simpl. f_equal; lia.
    + exists (zlen (c :: l)). split; [done|]. rewrite zlen_cons.
      pose proof (zlen_nonneg l). split; [lia|tauto].
Qed.

Lemma class_loop_spec pat c0 n l :
  (length l <= n)%nat -> forall pp m fuel,
  (length l < fuel)%nat -> pat = pp ++ l ++ [0] -> no_final_backslash l ->
  exists b q pp', class_items nocase l c0 m = Some (b, q) /\
    pat = pp' ++ q ++ [0] /\ (length q <= length l)%nat /\ no_final_backslash q /\
    class_loop pat nocase fuel (zlen pp) (zlen l) c0 m = Some (zlen pp' - 1, zlen q + 1, b).
Proof.
  revert l. induction n as [|n IH]; intros l Hn pp m fuel Hf -> Hl;
    (destruct fuel as [|fuel]; [lia|]);
    (destruct l as [|a l1];
     [exists m, [], pp; split_and!; [done..|]; cbn [class_loop app]; by rewrite rd_at|]);
    [simpl in Hn; lia|].
  cbn [class_loop class_items app]. rewrite rd_at. cbn [mbind option_bind].
  rewrite zlen_cons. pose proof (zlen_nonneg l1).
  assert (pp ++ a :: l1 ++ [0] = (pp ++ [a]) ++ l1 ++ [0]) as Heq by by rewrite <- app_assoc.
  assert (zlen (pp ++ [a]) = zlen pp + 1) as Hlen by by rewrite zlen_app.
  assert (rd (pp ++ a :: l1 ++ [0]) (zlen pp + 1) = Some (default 0 (head l1))) as Hrd1.
  { rewrite Heq. destruct l1; by apply rd_here. }
  assert (forall l2 k pp2 m, (length l2 < length (a :: l1))%nat ->
    pp ++ a :: l1 ++ [0] = pp2 ++ l2 ++ [0] -> zlen pp2 = zlen pp + k ->
    zlen l2 = 1 + zlen l1 - k -> no_final_backslash l2 ->
    exists b q pp', class_items nocase l2 c0 m = Some (b, q) /\
      pp ++ a :: l1 ++ [0] = pp' ++ q ++ [0] /\ (length q <= length (a :: l1))%nat /\
      no_final_backslash q /\
      class_loop (pp ++ a :: l1 ++ [0]) nocase fuel (zlen pp + k) (1 + zlen l1 - k) c0 m
      = Some (zlen pp' - 1, zlen q + 1, b)) as Hrec.
  { intros l2 k pp2 m' Hlt Hpat <- <- Hl2. simpl in *.
    destruct (IH l2 ltac:(lia) pp2 m' fuel ltac:(lia) Hpat Hl2) as (b & q & pp' & ? & ? & ? & ? & ?).
    exists b, q, pp'. split_and!; try done. lia. }
  destruct (Z.eqb_spec a 92) as [->|Ha92].
  { rewrite Hrd1. destruct l1 as [|b l2]; [done|]. cbn [mbind option_bind head default from_option id].
    apply (Hrec l2 2 (pp ++ [92; b])); [simpl; lia|by rewrite <- app_assoc| | |].
    - by rewrite zlen_app.
    - rewrite zlen_cons. lia.
    - by do 2 eapply no_final_backslash_tail. }
  destruct (Z.eqb_spec a 93) as [->|Ha93].
  { exists m, l1, (pp ++ [93]). split_and!; [done|done|simpl; lia|by eapply no_final_backslash_tail|].
    do 3 f_equal; lia. }
  destruct (Z.eqb_spec (1 + zlen l1) 0); [lia|].
  rewrite Hrd1. cbn [mbind option_bind].
  assert (forall m, exists b q pp', class_items nocase l1 c0 m = Some (b, q) /\
      pp ++ a :: l1 ++ [0] = pp' ++ q ++ [0] /\ (length q <= length (a :: l1))%nat /\
      no_final_backslash q /\
      class_loop (pp ++ a :: l1 ++ [0]) nocase fuel (zlen pp + 1) (1 + zlen l1 - 1) c0 m
      = Some (zlen pp' - 1, zlen q + 1, b)) as Hlit.
  { intros m'. apply (Hrec l1 1 (pp ++ [a])); [simpl; lia|done|done|lia|].
    by eapply no_final_backslash_tail. }
  destruct l1 as [|a1 [|b l3]]; cbn [head default from_option id].
  - destruct (0 =? 45) eqn:H0; [done|]. apply Hlit.
  - rewrite !zlen_cons, zlen_nil in *. rewrite andb_false_r. apply Hlit.
  - rewrite !zlen_cons in *. pose proof (zlen_nonneg l3).
    destruct (Z.eqb_spec a1 45) as [->|].
    2: { destruct (Z.geb_spec (1 + (1 + (1 + zlen l3))) 3); apply Hlit. }
    destruct (Z.geb_spec (1 + (1 + (1 + zlen l3))) 3); [|lia]. cbn [andb].
    assert (rd (pp ++ a :: (45 :: b :: l3) ++ [0]) (zlen pp + 2) = Some b) as ->.
    { change (pp ++ a :: (45 :: b :: l3) ++ [0]) with (pp ++ [a; 45] ++ b :: l3 ++ [0]).
      rewrite app_assoc. apply rd_here. by rewrite zlen_app. }
    cbn [mbind option_bind].
    apply (Hrec l3 3 (pp ++ [a; 45; b])); [simpl; lia|by rewrite <- app_assoc| | |].
    + by rewrite zlen_app.
    + lia.
    + by do 3 eapply no_final_backslash_tail.
Qed.

(** The empty string is compared with its terminator: the first character of
    the pattern must not be one that can accept a NUL. *)
Definition empty_safe (p s : list Z) : Prop :=
  s <> [] \/ (forall c, head p = Some c -> c ∉ [0; 91; 92]).

Definition loop_ok (fuel : nat) : Prop :=
  forall pr sr pp sp, (length pr + length sr <= fuel)%nat ->
    no_final_backslash pr -> empty_safe pr sr ->
    exists b, match_loop (pp ++ pr ++ [0]) (sp ++ sr ++ [0]) nocase fuel
                (zlen pp) (zlen pr) (zlen sp) (zlen sr) = Some b /\
      (b = true <-> glob nocase pr sr).

Lemma char_eq_nul d : d <> 0 -> char_eq nocase d 0 = false.
Proof.
  intros Hd. unfold char_eq. destruct nocase; [|by apply Z.eqb_neq].
  apply Z.eqb_neq. unfold to_lower. simpl.
  destruct (Z.leb_spec 65 d), (Z.leb_spec d 90); simpl; lia.
Qed.

Lemma advance_spec fuel q sr pp sp p :
  loop_ok fuel -> (length q + length sr <= fuel)%nat -> no_final_backslash q ->
  p = zlen pp - 1 ->
  exists b, advance (pp ++ q ++ [0]) (match_loop (pp ++ q ++ [0]) (sp ++ sr ++ [0]) nocase fuel)
              p (zlen q + 1) (zlen sp) (zlen sr) = Some b /\
    (b = true <-> glob nocase q sr).
Proof.
  intros Hok Hf Hq ->. unfold advance.
  replace (zlen pp - 1 + 1) with (zlen pp) by lia.
  replace (zlen q + 1 - 1) with (zlen q) by lia.
  destruct (Z.eqb_spec (zlen sr) 0) as [Hz|Hz].
  - apply zlen_zero in Hz as ->.
    destruct (trailing_stars_spec q pp (length (pp ++ q ++ [0]))) as (n & -> & Hn).
    { rewrite !length_app. lia. }
    exists (n =? 0). split; [done|]. by rewrite Z.eqb_eq.
  - apply Hok; [done|done|]. left. intros ->. done.
Qed.

Lemma literal_spec fuel d q sr pp sp :
  loop_ok fuel -> (length q + length sr <= fuel)%nat -> no_final_backslash q ->
  (sr <> [] \/ d <> 0) ->
  exists b, literal (pp ++ d :: q ++ [0]) (sp ++ sr ++ [0]) nocase
      (match_loop (pp ++ d :: q ++ [0]) (sp ++ sr ++ [0]) nocase fuel)
      (zlen pp) (1 + zlen q) (zlen sp) (zlen sr) = Some b /\
    (b = true <-> exists c sr', sr = c :: sr' /\ char_eq nocase d c = true /\ glob nocase q sr').
Proof.
  intros Hok Hf Hq Hne. unfold literal. rewrite rd_at. cbn [mbind option_bind].
  destruct sr as [|c sr]; cbn [app].
  - destruct Hne as [?|Hd]; [done|]. rewrite rd_at. cbn [mbind option_bind].
    rewrite char_eq_nul by done. exists false. split; [done|].
    split; [done|]. by intros (? & ? & ? & _).
  - rewrite rd_at. cbn [mbind option_bind].
    destruct (char_eq nocase d c) eqn:Hc.
    2: { exists false. split; [done|]. split; [done|].
         intros (? & ? & [= <- <-] & ? & _). congruence. }
    destruct (advance_spec fuel q sr (pp ++ [d]) (sp ++ [c]) (zlen pp)) as (b & Hb & Hiff);
      [done|simpl in Hf; lia|done|zlens; lia|].
    exists b. split.
    + rewrite <- Hb, <- !app_assoc. zlens. simpl. f_equal; lia.
    + rewrite Hiff. split; [eauto|]. by intros (? & ? & [= <- <-] & _ & ?).
Qed.

Lemma star_loop_spec fuel q pp pat :
  loop_ok fuel -> pat = pp ++ q ++ [0] -> no_final_backslash q ->
  forall sr sp k, (length q + length sr <= fuel)%nat -> (length sr <= k)%nat ->
  exists b, star_loop (match_loop pat (sp ++ sr ++ [0]) nocase fuel (zlen pp) (zlen q))
              k (zlen sp) (zlen sr) = Some b /\
    (b = true <-> exists s1 s2, sr = s1 ++ s2 /\ s2 <> [] /\ glob nocase q s2).
Proof.
  intros Hok -> Hq. induction sr as [|c sr IH]; intros sp k Hf Hk.
  - exists false. split; [by destruct k|]. split; [done|].
    intros (s1 & s2 & [_ ?]%symmetry%app_eq_nil & ? & _). done.
  - destruct k as [|k]; [simpl in Hk; lia|]. cbn [star_loop].
    destruct (Z.eqb_spec (zlen (c :: sr)) 0) as [Hz%zlen_zero|_]; [done|].
    destruct (Hok q (c :: sr) pp sp) as (b & -> & Hb); [done|done|by left|].
    cbn [mbind option_bind]. destruct b.
    { exists true. split; [done|]. split; [|done]. intros _.
      exists [], (c :: sr). split; [done|]. split; [done|]. by apply Hb. }
    destruct (IH (sp ++ [c]) k) as (b & Hrun & Hiff); [simpl in Hf; lia|simpl in Hk; lia|].
    exists b. split.
    + rewrite <- Hrun, <- app_assoc. zlens. simpl. f_equal; lia.
    + rewrite Hiff. split.
      * intros (s1 & s2 & -> & ? & ?). by exists (c :: s1), s2.
      * intros ([|c' s1] & s2 & Heq & ? & Hg); simplify_eq/=; [|by eauto].
        by apply Hb in Hg.
Qed.

Lemma class_turn fuel l sr pp sp :
  loop_ok fuel -> (length l + length sr <= S fuel)%nat -> no_final_backslash l -> sr <> [] ->
  exists b,
    (let pat := (pp ++ [91]) ++ l ++ [0] in
     let str := sp ++ sr ++ [0] in
     c1 ← rd pat (zlen pp + 1);
     let neg := c1 =? 94 in
     let '(p, plen) := if (neg : bool) then (zlen pp + 2, 1 + zlen l - 2)
                       else (zlen pp + 1, 1 + zlen l - 1) in
     c0 ← rd str (zlen sp);
     '(p, plen, matched) ← class_loop pat nocase (S (length pat)) p plen c0 false;
     if xorb neg matched then
       advance pat (match_loop pat str nocase fuel) p plen (zlen sp + 1) (zlen sr - 1)
     else Some false) = Some b /\
    (b = true <-> glob nocase (91 :: l) sr).
Proof.
  intros Hok Hf Hl Hne. destruct sr as [|c0 sr]; [done|].
  assert (exists (neg : bool) l' pp' k,
    (pp ++ [91]) ++ l ++ [0] = pp' ++ l' ++ [0] /\ zlen pp' = zlen pp + k /\
    zlen l' = 1 + zlen l - k /\ no_final_backslash l' /\ (length l' <= length l)%nat /\
    (default 0 (head l) =? 94) = neg /\ k = (if neg then 2 else 1) /\
    class_accepts nocase l c0
      = ('(m, q) ← class_items nocase l' c0 false; Some (xorb neg m, q)))
    as (neg & l' & pp' & k & Hpat & Hpp' & Hlen' & Hl' & Hll & Hneg & Hk & Hacc).
  { destruct (Z.eqb_spec (default 0 (head l)) 94) as [Heq|Hneq].
    - destruct l as [|a l]; simpl in Heq; [done|]. subst a.
      exists true, l, (pp ++ [91; 94]), 2. split_and!; try done.
      + by rewrite <- !app_assoc.
      + by zlens.
      + zlens. lia.
      + by eapply no_final_backslash_tail.
      + simpl. lia.
    - exists false, l, (pp ++ [91]), 1. apply Z.eqb_neq in Hneq.
      split_and!; try done; try (zlens; lia).
      + destruct l as [|a l]; [done|]. apply Z.eqb_neq in Hneq. simpl in Hneq.
        assert (class_accepts nocase (a :: l) c0 = class_items nocase (a :: l) c0 false) as ->.
        { unfold class_accepts. repeat case_match; done. }
        by destruct (class_items nocase (a :: l) c0 false) as [[[] ?]|]. }
  assert (rd ((pp ++ [91]) ++ l ++ [0]) (zlen pp + 1) = Some (default 0 (head l))) as Hc1.
  { destruct l; apply rd_here; by zlens. }
  cbn zeta. rewrite Hc1. cbn [mbind option_bind]. rewrite Hneg.
  assert ((if neg then (zlen pp + 2, 1 + zlen l - 2) else (zlen pp + 1, 1 + zlen l - 1))
          = (zlen pp', zlen l')) as -> by (subst k; destruct neg; f_equal; lia).
  cbn [app]. rewrite rd_at. cbn [mbind option_bind]. rewrite Hpat.
  destruct (class_loop_spec (pp' ++ l' ++ [0]) c0 (length l') l' ltac:(lia) pp' false
    (S (length (pp' ++ l' ++ [0])))) as (m & q & pp2 & Hitems & Hp2 & Hq & Hqb & Hrun);
    [rewrite !length_app; lia|done|done|].
  rewrite Hrun. cbn [mbind option_bind]. rewrite Hitems in Hacc. cbn [mbind option_bind] in Hacc.
  assert (glob nocase (91 :: l) (c0 :: sr) <-> xorb neg m = true /\ glob nocase q sr) as Hglob.
  { split.
    - inversion 1 as [| | | |? ? ? ? Hacc' ?| |? ? ? ? Hd]; subst; [|by destruct Hd; set_solver].
      rewrite Hacc in Hacc'. by simplify_eq.
    - intros [Hx ?]. rewrite Hx in Hacc. by eapply glob_class. }
  setoid_rewrite Hglob. clear Hglob. destruct (xorb neg m).
  2: { exists false. split; [done|]. by split; [|intros [? _]]. }
  rewrite Hp2. change (sp ++ c0 :: sr ++ [0]) with (sp ++ [c0] ++ sr ++ [0]).
  rewrite (app_assoc sp).
  destruct (advance_spec fuel q sr pp2 (sp ++ [c0]) (zlen pp2 - 1)) as (b & Hb & Hiff);
    [done|simpl in Hf; lia|done|done|].
  exists b. split; [|tauto]. rewrite <- Hb. zlens. f_equal; lia.
Qed.

Lemma match_loop_spec fuel : loop_ok fuel.
Proof.
  induction fuel as [|fuel IH]; intros pr sr pp sp Hf Hpr Hes.
  { destruct pr; [|simpl in Hf; lia]. destruct sr; [|simpl in Hf; lia].
    exists true. split; [done|]. split; [constructor|done]. }
  destruct pr as [|d l].
  { exists (zlen sr =? 0). split; [done|]. rewrite glob_nil_inv, Z.eqb_eq.
    split; [apply zlen_zero|by intros ->]. }
  cbn [match_loop]. destruct (Z.eqb_spec (zlen (d :: l)) 0) as [Hz%zlen_zero|_]; [done|].
  cbn [app]. rewrite rd_at. cbn [mbind option_bind].
  pose proof (no_final_backslash_tail _ _ Hpr) as Hl. simpl in Hf.
  destruct (Z.eqb_spec d 42) as [->|H42]; [|destruct (Z.eqb_spec d 63) as [->|H63];
    [|destruct (Z.eqb_spec d 91) as [->|H91]; [|destruct (Z.eqb_spec d 92) as [->|H92]]]].
  - (* star *)
    rewrite zlen_cons.
    destruct (squeeze_stars_spec l pp (length (pp ++ 42 :: l ++ [0])))
      as (q & pp' & Hpat & Hq & Hlen & Hsq & Hqb & Hg).
    { rewrite length_app. simpl. rewrite length_app. lia. }
    rewrite Hsq. cbn [mbind option_bind]. setoid_rewrite Hg. rewrite Hpat.
    destruct (Z.eqb_spec (1 + zlen q) 1).
    { assert (q = []) as -> by (apply zlen_zero; lia). exists true. split; [done|].
      split; [|done]. intros _. apply glob_star_suffix. exists sr, []. rewrite app_nil_r.
      split; [done|constructor]. }
    replace (1 + zlen q - 1) with (zlen q) by lia.
    destruct (star_loop_spec fuel q (pp' ++ [42]) (pp' ++ 42 :: q ++ [0]) IH) with
      (sr := sr) (sp := sp) (k := fuel) as (b & Hb & Hiff);
      [by rewrite <- app_assoc|auto|lia|lia|].
    replace (zlen (pp' ++ [42])) with (zlen pp' + 1) in Hb by by zlens. exists b. split; [exact Hb|].
    rewrite Hiff, glob_star_suffix. split; [naive_solver|].
    intros (s1 & s2 & -> & Hgq). exists s1, s2. split_and!; try done. intros ->.
    destruct q as [|a q]; [done|]. apply glob_empty_string in Hgq as [-> _]. done.
  - (* question mark *)
    destruct sr as [|c sr].
    { exists false. split; [done|]. by rewrite glob_empty_string; split; [|intros [? _]]. }
    destruct (Z.eqb_spec (zlen (c :: sr)) 0) as [Hz%zlen_zero|_]; [done|].
    destruct (advance_spec fuel l sr (pp ++ [63]) (sp ++ [c]) (zlen pp)) as (b & Hb & Hiff);
      [done|simpl in Hf; lia|done|zlens; lia|].
    exists b. split.
    + rewrite <- Hb, <- !app_assoc. zlens. simpl. f_equal; lia.
    + rewrite Hiff. split; [by constructor|].
      inversion 1 as [| | | | | |? ? ? ? Hd]; subst; [done|]. destruct Hd. set_solver.
  - (* bracket *)
    assert (sr <> []) as Hne.
    { destruct Hes as [|Hes]; [done|]. destruct (Hes 91 eq_refl). set_solver. }
    destruct (class_turn fuel l sr pp sp) as (b & Hb & Hiff); [done|lia|done|done|].
    exists b. split; [|done]. rewrite <- Hb, <- app_assoc, zlen_cons. done.
  - (* escape *)
    assert (sr <> []) as Hne.
    { destruct Hes as [|Hes]; [done|]. destruct (Hes 92 eq_refl). set_solver. }
    destruct l as [|d l]; [done|]. rewrite zlen_cons. pose proof (zlen_nonneg l).
    rewrite (zlen_cons d l). destruct (Z.geb_spec (1 + (1 + zlen l)) 2); [|lia].
    destruct (literal_spec fuel d l sr (pp ++ [92]) sp) as (b & Hb & Hiff);
      [done|simpl in Hf; lia|by eapply no_final_backslash_tail|by left|].
    exists b. split.
    + rewrite <- Hb, <- !app_assoc. zlens. simpl. f_equal; lia.
    + rewrite Hiff. split.
      * intros (c & sr' & -> & ? & ?). by apply glob_escape.
      * inversion 1 as [| | | | | |? ? ? ? Hd]; subst; [eauto|]. destruct Hd. set_solver.
  - (* an ordinary character *)
    destruct (literal_spec fuel d l sr pp sp) as (b & Hb & Hiff); [done|lia|done| |].
    { destruct Hes as [|Hes]; [by left|right]. intros ->. destruct (Hes 0 eq_refl). set_solver. }
    exists b. rewrite zlen_cons. split; [exact Hb|]. rewrite Hiff. split.
    + intros (c & sr' & -> & ? & ?). apply glob_char; [set_solver|done|done].
    + inversion 1; subst; try done. eauto.
Qed.
End matcher_spec.

Lemma stringmatchlen_ok p s nocase :
  no_final_backslash p -> empty_safe p s ->
  exists b, stringmatchlen (p ++ [0]) (zlen p) (s ++ [0]) (zlen s) nocase = Some b /\
    (b = true <-> glob nocase p s).
Proof.
  intros Hp Hs. unfold stringmatchlen.
  apply (match_loop_spec nocase _ p s [] []); [|done|done].
  unfold zlen. lia.
Qed.

(** C37: On every pattern that does not end with a backslash the matcher
    terminates, never reads past the terminators of the pattern and of the string,
    and answers whether the pattern matches the string; the exception is the empty
    string with a pattern that starts with a bracket, a backslash or a NUL. *)
Theorem stringmatchlen_glob p s nocase :
  no_final_backslash p -> empty_safe p s ->
  exists b, stringmatchlen (p ++ [0]) (zlen p) (s ++ [0]) (zlen s) nocase = Some b /\
    (b = true <-> glob nocase p s).
Proof. apply stringmatchlen_ok. Qed.

Lemma stringmatchlen_glob_witness :
  exists b, stringmatchlen (zs "h[a-e]*o" ++ [0]) 8 (zs "hello" ++ [0]) 5 false = Some b /\
    (b = true <-> glob false (zs "h[a-e]*o") (zs "hello")).
Proof.
  apply (stringmatchlen_glob (zs "h[a-e]*o") (zs "hello") false); [done|by left].
Defined.

(** The exception is real: a negated bracket accepts the terminator of the
    empty string, so ["[^a]*"] matches the empty string although no character is
    there to match the bracket, and ["[^a]*x"] goes on to read past the end. *)
Theorem stringmatchlen_empty_overread :
  stringmatchlen (zs "[^a]*" ++ [0]) 5 [0] 0 false = Some true /\
  ~ glob false (zs "[^a]*") [] /\
  stringmatchlen (zs "[^a]*x" ++ [0]) 6 [0] 0 false = None.
Proof.
  split_and!; [reflexivity| |reflexivity]. intros [? _]%glob_empty_string. done.
Qed.
