(* ===== verification/Dict.v ===== *)
(** * Hash tables with incremental rehashing (src/redis-2.8.19/src/dict.c, dict.h)

    A table is a list of buckets, a bucket the chain of its entries, a
    dictionary two tables and a rehash index. Pointers to entries are triples
    (table, bucket, position in the chain); an access outside a table or through
    a null pointer is [None]. The hash function and the global resize flag are
    parameters. *)
From S2P Require Import Prelude.
Open Scope Z_scope.

Definition DICT_HT_INITIAL_SIZE : Z := 4.
Definition dict_force_resize_ratio : Z := 5.
Definition LONG_MAX : Z := 9223372036854775807.

Inductive dict_status := DICT_OK | DICT_ERR.

Section dict.
Context {K V : Type} {K_eq_dec : EqDecision K}.
Context (hashFunction : K -> Z) (dict_can_resize : bool) (uninit : V).

Record dictht := mkHt { table : list (list (K * V)); size : Z; sizemask : Z; used : Z }.

Record dict := mkDict { ht0 : dictht; ht1 : dictht; rehashidx : Z; iterators : Z }.

(** A [dictEntry *]: which table, bucket, position in the chain. *)
Definition entry_ref : Type := bool * Z * nat.

Definition get_ht (d : dict) (t : bool) : dictht := if t then ht1 d else ht0 d.

Definition set_ht (d : dict) (t : bool) (h : dictht) : dict :=
  if t then mkDict (ht0 d) h (rehashidx d) (iterators d)
  else mkDict h (ht1 d) (rehashidx d) (iterators d).

Definition dictHashKey (key : K) : Z := u32 (hashFunction key).
Definition dictSize (d : dict) : Z := used (ht0 d) + used (ht1 d).
Definition dictIsRehashing (d : dict) : bool := negb (rehashidx d =? -1).

Definition _dictReset : dictht := mkHt [] 0 0 0.

Definition dictCreate : dict := mkDict _dictReset _dictReset (-1) 0.

Fixpoint next_power_loop (fuel : nat) (size i : Z) : option Z :=
  if i >=? size then Some i
  else match fuel with O => None | S fuel => next_power_loop fuel size (u64 (i * 2)) end.

Definition _dictNextPower (size : Z) : option Z :=
  if size >=? LONG_MAX then Some LONG_MAX
  else next_power_loop 64 size DICT_HT_INITIAL_SIZE.

Definition dictExpand (d : dict) (sz : Z) : option (dict * dict_status) :=
  realsize ← _dictNextPower sz;
  if dictIsRehashing d || (used (ht0 d) >? sz) then Some (d, DICT_ERR)
  else
    let n := mkHt (replicate (Z.to_nat realsize) []) realsize (realsize - 1) 0 in
    if bool_decide (table (ht0 d) = []) then
      Some (mkDict n (ht1 d) (rehashidx d) (iterators d), DICT_OK)
    else Some (mkDict (ht0 d) n 0 (iterators d), DICT_OK).

Definition dictResize (d : dict) : option (dict * dict_status) :=
  if negb dict_can_resize || dictIsRehashing d then Some (d, DICT_ERR)
  else
    let minimal := used (ht0 d) in
    let minimal := if minimal <? DICT_HT_INITIAL_SIZE then DICT_HT_INITIAL_SIZE else minimal in
    dictExpand d minimal.

(** [while(d->ht[0].table[d->rehashidx] == NULL) d->rehashidx++;] *)
Fixpoint skip_empty (fuel : nat) (t : list (list (K * V))) (idx : Z) : option Z :=
  b ← rd t idx;
  match b with
  | [] => match fuel with O => None | S fuel => skip_empty fuel t (idx + 1) end
  | _ => Some idx
  end.

(** [while(de)]: every entry of the bucket is pushed on its new chain. *)
Fixpoint move_bucket (de : list (K * V)) (h0 h1 : dictht) : option (dictht * dictht) :=
  match de with
  | [] => Some (h0, h1)
  | e :: nextde =>
      let h := Z.land (dictHashKey e.1) (sizemask h1) in
      chain ← rd (table h1) h;
      t1 ← wr (table h1) h (e :: chain);
      move_bucket nextde (mkHt (table h0) (size h0) (sizemask h0) (used h0 - 1))
        (mkHt t1 (size h1) (sizemask h1) (used h1 + 1))
  end.

(** [n] turns of [while(n--)]; the flag is the returned 1 or 0. *)
Fixpoint rehash_loop (n : nat) (d : dict) : option (dict * bool) :=
  match n with
  | O => Some (d, true)
  | S n =>
      if used (ht0 d) =? 0 then
        Some (mkDict (ht1 d) _dictReset (-1) (iterators d), false)
      else
        idx ← skip_empty (length (table (ht0 d))) (table (ht0 d)) (rehashidx d);
        de ← rd (table (ht0 d)) idx;
        '(h0, h1) ← move_bucket de (ht0 d) (ht1 d);
        t0 ← wr (table h0) idx [];
        rehash_loop n (mkDict (mkHt t0 (size h0) (sizemask h0) (used h0)) h1 (idx + 1)
                         (iterators d))
  end.

Definition dictRehash (d : dict) (n : nat) : option (dict * bool) :=
  if negb (dictIsRehashing d) then Some (d, false) else rehash_loop n d.

Definition _dictRehashStep (d : dict) : option dict :=
  if iterators d =? 0 then fst <$> dictRehash d 1 else Some d.

Definition _dictExpandIfNeeded (d : dict) : option (dict * dict_status) :=
  if dictIsRehashing d then Some (d, DICT_OK)
  else if size (ht0 d) =? 0 then dictExpand d DICT_HT_INITIAL_SIZE
  else if (used (ht0 d) >=? size (ht0 d)) &&
          (dict_can_resize || (used (ht0 d) / size (ht0 d) >? dict_force_resize_ratio))
  then dictExpand d (used (ht0 d) * 2)
  else Some (d, DICT_OK).

(** The position of [key] in a chain. *)
Fixpoint chain_find (key : K) (he : list (K * V)) : option nat :=
  match he with
  | [] => None
  | e :: next => if decide (key = e.1) then Some O else S <$> chain_find key next
  end.

(** The result is the returned [int]; -1 says that the key exists. *)
Definition _dictKeyIndex (d : dict) (key : K) : option (dict * Z) :=
  '(d, st) ← _dictExpandIfNeeded d;
  match st with
  | DICT_ERR => Some (d, -1)
  | DICT_OK =>
      let h := dictHashKey key in
      let idx := Z.land h (sizemask (ht0 d)) in
      he ← rd (table (ht0 d)) idx;
      match chain_find key he with
      | Some _ => Some (d, -1)
      | None =>
          if negb (dictIsRehashing d) then Some (d, s32 idx)
          else
            let idx := Z.land h (sizemask (ht1 d)) in
            he ← rd (table (ht1 d)) idx;
            match chain_find key he with
            | Some _ => Some (d, -1)
            | None => Some (d, s32 idx)
            end
      end
  end.

(** The new entry's value is still [uninit]. *)
Definition dictAddRaw (d : dict) (key : K) : option (dict * option entry_ref) :=
  d ← (if dictIsRehashing d then _dictRehashStep d else Some d);
  '(d, index) ← _dictKeyIndex d key;
  if index =? -1 then Some (d, None)
  else
    let t := dictIsRehashing d in
    let ht := get_ht d t in
    chain ← rd (table ht) index;
    tb ← wr (table ht) index ((key, uninit) :: chain);
    Some (set_ht d t (mkHt tb (size ht) (sizemask ht) (used ht + 1)),
          Some (t, index, O)).

Definition dictGetEntry (d : dict) (r : entry_ref) : option (K * V) :=
  let '(t, idx, pos) := r in
  chain ← rd (table (get_ht d t)) idx;
  chain !! pos.

Definition dictGetVal (d : dict) (r : entry_ref) : option V := snd <$> dictGetEntry d r.

Definition dictSetVal (d : dict) (r : entry_ref) (val : V) : option dict :=
  let '(t, idx, pos) := r in
  let ht := get_ht d t in
  chain ← rd (table ht) idx;
  e ← chain !! pos;
  tb ← wr (table ht) idx (<[pos := (e.1, val)]> chain);
  Some (set_ht d t (mkHt tb (size ht) (sizemask ht) (used ht))).

Definition dictAdd (d : dict) (key : K) (val : V) : option (dict * dict_status) :=
  '(d, entry) ← dictAddRaw d key;
  match entry with
  | None => Some (d, DICT_ERR)
  | Some r => d ← dictSetVal d r val; Some (d, DICT_OK)
  end.

Definition dictFind (d : dict) (key : K) : option (dict * option entry_ref) :=
  if size (ht0 d) =? 0 then Some (d, None)
  else
    d ← (if dictIsRehashing d then _dictRehashStep d else Some d);
    let h := dictHashKey key in
    let idx := Z.land h (sizemask (ht0 d)) in
    he ← rd (table (ht0 d)) idx;
    match chain_find key he with
    | Some pos => Some (d, Some (false, idx, pos))
    | None =>
        if negb (dictIsRehashing d) then Some (d, None)
        else
          let idx := Z.land h (sizemask (ht1 d)) in
          he ← rd (table (ht1 d)) idx;
          match chain_find key he with
          | Some pos => Some (d, Some (true, idx, pos))
          | None => Some (d, None)
          end
    end.

Definition dictFetchValue (d : dict) (key : K) : option (dict * option V) :=
  '(d, he) ← dictFind d key;
  match he with
  | Some r => v ← dictGetVal d r; Some (d, Some v)
  | None => Some (d, None)
  end.

(** Result: 1 ([true]) when the key was added, 0 when its value was updated. *)
Definition dictReplace (d : dict) (key : K) (val : V) : option (dict * bool) :=
  '(d, st) ← dictAdd d key val;
  match st with
  | DICT_OK => Some (d, true)
  | DICT_ERR =>
      '(d, entry) ← dictFind d key;
      r ← entry;
      d ← dictSetVal d r val;
      Some (d, false)
  end.

Definition dictReplaceRaw (d : dict) (key : K) : option (dict * option entry_ref) :=
  '(d, entry) ← dictFind d key;
  match entry with
  | Some r => Some (d, Some r)
  | None => dictAddRaw d key
  end.

(** Unlinks the entry at [pos] of a chain; the last component is the entry
    given to the destructors, if any. *)
Definition unlink (d : dict) (t : bool) (idx : Z) (he : list (K * V)) (pos : nat)
    (nofree : bool) : option (dict * dict_status * option (K * V)) :=
  let ht := get_ht d t in
  e ← he !! pos;
  tb ← wr (table ht) idx (take pos he ++ drop (S pos) he);
  Some (set_ht d t (mkHt tb (size ht) (sizemask ht) (used ht - 1)), DICT_OK,
        if nofree then None else Some e).

Definition dictGenericDelete (d : dict) (key : K) (nofree : bool)
  : option (dict * dict_status * option (K * V)) :=
  if size (ht0 d) =? 0 then Some (d, DICT_ERR, None)
  else
    d ← (if dictIsRehashing d then _dictRehashStep d else Some d);
    let h := dictHashKey key in
    let idx := Z.land h (sizemask (ht0 d)) in
    he ← rd (table (ht0 d)) idx;
    match chain_find key he with
    | Some pos => unlink d false idx he pos nofree
    | None =>
        if negb (dictIsRehashing d) then Some (d, DICT_ERR, None)
        else
          let idx := Z.land h (sizemask (ht1 d)) in
          he ← rd (table (ht1 d)) idx;
          match chain_find key he with
          | Some pos => unlink d true idx he pos nofree
          | None => Some (d, DICT_ERR, None)
          end
    end.

Definition dictDelete (d : dict) (key : K) := dictGenericDelete d key false.
Definition dictDeleteNoFree (d : dict) (key : K) := dictGenericDelete d key true.

(** [for (i = 0; i < ht->size && ht->used > 0; i++)]: the freed entries. *)
Fixpoint clear_loop (t : list (list (K * V))) (used : Z) : list (K * V) :=
  match t with
  | [] => []
  | he :: t => if used >? 0 then he ++ clear_loop t (used - zlen he) else []
  end.

Definition _dictClear (ht : dictht) : dictht * list (K * V) :=
  (_dictReset, clear_loop (table ht) (used ht)).

Definition dictEmpty (d : dict) : dict * list (K * V) :=
  let '(h0, freed0) := _dictClear (ht0 d) in
  let '(h1, freed1) := _dictClear (ht1 d) in
  (mkDict h0 h1 (-1) 0, freed0 ++ freed1).

(** [random()] is a stream of numbers; [None] also when it is too short. *)
Fixpoint random_bucket (rnd : list Z) (d : dict) : option (list (K * V) * list Z) :=
  match rnd with
  | [] => None
  | r :: rnd =>
      he ← (if dictIsRehashing d then
              let h := r mod (size (ht0 d) + size (ht1 d)) in
              if h >=? size (ht0 d) then rd (table (ht1 d)) (h - size (ht0 d))
              else rd (table (ht0 d)) h
            else rd (table (ht0 d)) (Z.land r (sizemask (ht0 d))));
      match he with
      | [] => random_bucket rnd d
      | _ => Some (he, rnd)
      end
  end.

Definition dictGetRandomKey (d : dict) (rnd : list Z)
  : option (dict * option (K * V)) :=
  if dictSize d =? 0 then Some (d, None)
  else
    d ← (if dictIsRehashing d then _dictRehashStep d else Some d);
    '(he, rnd) ← random_bucket rnd d;
    r ← head rnd;
    e ← rd he (r mod zlen he);
    Some (d, Some e).
End dict.

Arguments dictht : clear implicits.
Arguments dict : clear implicits.

(** ** Chains *)

Section chains.
Context {K V : Type} {K_eq_dec : EqDecision K}.

Lemma chain_find_Some key (he : list (K * V)) pos :
  chain_find key he = Some pos -> exists v, he !! pos = Some (key, v).
Proof.
  revert pos. induction he as [|[k v] he IH]; intros pos; simpl; [done|].
  case_decide as Hk; simpl in Hk; [subst; intros [= <-]; eauto|].
  destruct (chain_find key he); [|done]. simpl. intros [= <-]. by apply IH.
Qed.

Lemma chain_find_None key (he : list (K * V)) :
  chain_find key he = None <-> key ∉ he.*1.
Proof.
  induction he as [|[k v] he IH]; simpl; [split; [by intros _ ?%not_elem_of_nil|done]|].
  rewrite not_elem_of_cons. case_decide as Hk; simpl in Hk.
  - split; [done|]. intros [? _]. done.
  - destruct (chain_find key he); simpl; [|tauto].
    split; [done|]. intros [_ Hn]. by apply IH in Hn.
Qed.

End chains.

(** ** The invariant *)

Section invariant.
Context {K V : Type} {K_eq_dec : EqDecision K}.
Context (hashFunction : K -> Z).
Implicit Types (h : dictht K V) (d : dict K V) (t : list (list (K * V))).

(** An allocated table: a power of two buckets, the exact number of entries,
    every entry in the bucket its hash selects. *)
Record ht_wf h : Prop := {
  wf_len : size h = zlen (table h);
  wf_pow : exists k, 0 <= k < 63 /\ size h = 2 ^ k;
  wf_mask : sizemask h = size h - 1;
  wf_used : used h = zlen (concat (table h));
  wf_place : forall i chain e, rd (table h) i = Some chain -> e ∈ chain ->
      Z.land (dictHashKey hashFunction e.1) (sizemask h) = i
}.

Definition entries d : list (K * V) := concat (table (ht0 d)) ++ concat (table (ht1 d)).

(** Not rehashing: only the first table, perhaps not allocated. Rehashing:
    two tables, the buckets of the first one below the index are empty. *)
Definition phase_ok d : Prop :=
  (rehashidx d = -1 /\ ht1 d = _dictReset /\ (ht0 d = _dictReset \/ ht_wf (ht0 d))) \/
  (0 <= rehashidx d <= size (ht0 d) /\ ht_wf (ht0 d) /\ ht_wf (ht1 d) /\
   forall i chain, rd (table (ht0 d)) i = Some chain -> i < rehashidx d -> chain = []).

Record dict_ok d : Prop := {
  ok_phase : phase_ok d;
  ok_nodup : NoDup (entries d).*1
}.

(** ** Replacing one bucket of a table *)

Definition others t (i : nat) : list (K * V) := concat (take i t) ++ concat (drop (S i) t).

Lemma concat_others t i chain :
  t !! i = Some chain -> concat t ≡ₚ chain ++ others t i.
Proof.
  intros Hi. rewrite <- (take_drop_middle _ _ _ Hi) at 1. unfold others.
  rewrite concat_app. simpl. rewrite !app_assoc. by rewrite (Permutation_app_comm chain).
Qed.

Lemma concat_insert t i chain chain' :
  t !! i = Some chain -> concat (<[i:=chain']> t) ≡ₚ chain' ++ others t i.
Proof.
  intros Hi. rewrite (concat_others _ i chain') by
    (apply list_lookup_insert_eq; by eapply lookup_lt_Some).
  unfold others. by rewrite take_insert_ge, drop_insert_lt by lia.
Qed.

Lemma rd_lookup {A} (l : list A) i x : rd l i = Some x <-> 0 <= i /\ l !! Z.to_nat i = Some x.
Proof.
  unfold rd. destruct (Z.leb_spec 0 i); [tauto|]. split; [done|lia].
Qed.

Lemma rd_insert {A} (l : list A) i j x y :
  rd (<[Z.to_nat i := x]> l) j = Some y -> 0 <= i < zlen l ->
  (i = j /\ x = y) \/ (i <> j /\ rd l j = Some y).
Proof.
  intros [Hj Hl]%rd_lookup Hi. destruct (Z.eq_dec i j) as [->|Hne].
  - left. rewrite list_lookup_insert_eq in Hl by (unfold zlen in *; lia). by simplify_eq.
  - right. rewrite list_lookup_insert_ne in Hl by lia. split; [done|]. by apply rd_lookup.
Qed.

Lemma mask_bound h x :
  ht_wf h -> 0 <= x -> 0 <= Z.land x (sizemask h) < zlen (table h).
Proof.
  intros [Hlen (k & Hk & Hs) Hm _ _] Hx. rewrite Hm, <- Hlen, Hs.
  replace (2 ^ k - 1) with (Z.ones k) by (rewrite Z.ones_equiv; lia).
  rewrite Z.land_ones by lia. apply Z.mod_pos_bound. lia.
Qed.

Lemma hash_nonneg key : 0 <= dictHashKey hashFunction key < 2 ^ 32.
Proof. by apply (uwrap_range 32). Qed.

Lemma bucket_exists h key :
  ht_wf h -> exists chain,
    rd (table h) (Z.land (dictHashKey hashFunction key) (sizemask h)) = Some chain.
Proof. intros Hw. apply rd_is_Some, mask_bound; [done|apply hash_nonneg]. Qed.

Lemma not_reset h : ht_wf h -> 0 < size h /\ table h <> [].
Proof.
  intros [Hlen (k & Hk & Hs) _ _ _].
  assert (0 < size h) by (rewrite Hs; apply Z.pow_pos_nonneg; lia).
  split; [done|]. intros Ht. rewrite Ht in Hlen. unfold zlen in Hlen. simpl in Hlen. lia.
Qed.

(** Updating a bucket keeps a table well formed. *)
Lemma ht_wf_update h i chain chain' u :
  ht_wf h -> rd (table h) i = Some chain ->
  (forall e, e ∈ chain' -> Z.land (dictHashKey hashFunction e.1) (sizemask h) = i) ->
  u = used h + zlen chain' - zlen chain ->
  ht_wf (mkHt (<[Z.to_nat i := chain']> (table h)) (size h) (sizemask h) u).
Proof.
  intros Hw Hrd Hchain ->. destruct Hw as [Hlen Hpow Hm Hu Hp].
  pose proof (rd_Some_bound _ _ _ Hrd). pose proof Hrd as [? Hl]%rd_lookup.
  split; cbn [table size sizemask used]; [by rewrite zlen_insert|done|done| |].
  - rewrite Hu. unfold zlen. rewrite (concat_insert _ _ _ _ Hl), (concat_others _ _ _ Hl).
    rewrite !length_app. lia.
  - intros j c e Hj He. destruct (rd_insert _ _ _ _ _ Hj) as [[<- <-]|[_ Hj']]; eauto.
Qed.

Lemma wr_bucket (t : list (list (K * V))) i chain chain' :
  rd t i = Some chain -> wr t i chain' = Some (<[Z.to_nat i := chain']> t).
Proof. intros H%rd_Some_bound. by apply wr_ok. Qed.

Lemma key_in_bucket h key v chain :
  ht_wf h -> rd (table h) (Z.land (dictHashKey hashFunction key) (sizemask h)) = Some chain ->
  (key, v) ∈ concat (table h) <-> (key, v) ∈ chain.
Proof.
  intros Hw Hc. split.
  - intros (b & Hb & He)%list_elem_of_In%List.in_concat. 
    apply list_elem_of_In in Hb, He. apply list_elem_of_lookup in Hb as [i Hi].
    assert (rd (table h) (Z.of_nat i) = Some b) as Hrd by by rewrite rd_nat.
    pose proof (wf_place _ Hw _ _ _ Hrd He) as Hp. simpl in Hp.
    rewrite Hp, Hrd in Hc. by simplify_eq.
  - intros He. apply list_elem_of_In, List.in_concat. exists chain.
    split; apply list_elem_of_In; [by eapply rd_elem|done].
Qed.

(** ** One rehashing step *)

Lemma rehashing_spec d :
  phase_ok d ->
  (dictIsRehashing d = false /\ rehashidx d = -1 /\ ht1 d = _dictReset /\
     (ht0 d = _dictReset \/ ht_wf (ht0 d))) \/
  (dictIsRehashing d = true /\ 0 <= rehashidx d <= size (ht0 d) /\ ht_wf (ht0 d) /\
     ht_wf (ht1 d) /\
     forall i chain, rd (table (ht0 d)) i = Some chain -> i < rehashidx d -> chain = []).
Proof.
  unfold dictIsRehashing. intros [(H & ? & ?)|(H & ? & ? & ?)]; [left|right].
  - by rewrite H.
  - destruct (Z.eqb_spec (rehashidx d) (-1)); [lia|done].
Qed.

Lemma skip_empty_spec t : concat t <> [] -> forall fuel idx,
  0 <= idx <= zlen t -> (Z.to_nat (zlen t - idx) <= fuel)%nat ->
  (forall i chain, rd t i = Some chain -> i < idx -> chain = []) ->
  exists idx' chain, skip_empty fuel t idx = Some idx' /\ idx <= idx' < zlen t /\
    rd t idx' = Some chain /\
    (forall i chain, rd t i = Some chain -> i < idx' -> chain = []).
Proof.
  intros Hne fuel. induction fuel as [|fuel IH]; intros idx Hidx Hf Hlow.
  { destruct Hne. apply concat_nil_Forall, Forall_lookup_2. intros i c Hi.
    apply (Hlow (Z.of_nat i)); [by rewrite rd_nat|].
    apply lookup_lt_Some in Hi. unfold zlen in *. lia. }
  destruct (Z.eq_dec idx (zlen t)) as [->|Hlt].
  { destruct Hne. apply concat_nil_Forall, Forall_lookup_2. intros i c Hi.
    apply (Hlow (Z.of_nat i)); [by rewrite rd_nat|].
    apply lookup_lt_Some in Hi. unfold zlen in *. lia. }
  destruct (rd_is_Some t idx) as [chain Hc]; [lia|].
  cbn [skip_empty]. rewrite Hc. cbn [mbind option_bind]. destruct chain as [|e chain].
  - destruct (IH (idx + 1)) as (idx' & c & ? & ? & ? & ?); [lia|lia| |].
    + intros i c Hi Hlt'. destruct (Z.eq_dec i idx) as [->|]; [congruence|].
      eapply Hlow; [done|lia].
    + exists idx', c. split_and!; try done; lia.
  - exists idx, (e :: chain). split_and!; try done; lia.
Qed.

Lemma move_bucket_spec de h0 h1 :
  ht_wf h1 ->
  exists h1', move_bucket hashFunction de h0 h1
      = Some (mkHt (table h0) (size h0) (sizemask h0) (used h0 - zlen de), h1') /\
    ht_wf h1' /\ size h1' = size h1 /\ concat (table h1') ≡ₚ de ++ concat (table h1).
Proof.
  revert h0 h1. induction de as [|e de IH]; intros h0 h1 Hw.
  - exists h1. split_and!; try done. destruct h0. simpl. do 3 f_equal. change (zlen []) with 0. lia.
  - destruct (bucket_exists h1 e.1 Hw) as [chain Hc].
    cbn [move_bucket]. rewrite Hc. cbn [mbind option_bind].
    rewrite (wr_bucket _ _ _ _ Hc). cbn [mbind option_bind].
    set (i := Z.land _ _) in *.
    pose proof Hc as [Hi Hl]%rd_lookup.
    destruct (IH (mkHt (table h0) (size h0) (sizemask h0) (used h0 - 1))
                (mkHt (<[Z.to_nat i := e :: chain]> (table h1)) (size h1) (sizemask h1)
                   (used h1 + 1))) as (h1' & Hrun & Hw' & Hs & Hperm).
    { eapply ht_wf_update; [done|done| |].
      - intros e' [->|He']%elem_of_cons; [done|]. by eapply wf_place.
      - rewrite zlen_cons. lia. }
    cbn [table size sizemask used] in *. exists h1'. split_and!; [|done|done|].
    + rewrite Hrun. do 3 f_equal. rewrite zlen_cons. lia.
    + rewrite Hperm, (concat_insert _ _ _ _ Hl), (concat_others _ _ _ Hl).
      cbn [app]. rewrite <- (Permutation_middle de). done.
Qed.

(** The entries are those of [d], up to order. *)
Definition same_entries d d' : Prop := dict_ok d' /\ entries d' ≡ₚ entries d.

Lemma same_entries_trans d1 d2 d3 :
  same_entries d1 d2 -> same_entries d2 d3 -> same_entries d1 d3.
Proof. intros [_ H1] [? H2]. split; [done|]. by rewrite H2. Qed.

Lemma dict_ok_perm d d' : dict_ok d -> phase_ok d' -> entries d' ≡ₚ entries d -> dict_ok d'.
Proof. intros [_ Hn] Hp Hperm. split; [done|]. by rewrite Hperm. Qed.

Lemma rehash_move d :
  dict_ok d -> dictIsRehashing d = true -> used (ht0 d) <> 0 ->
  exists idx de h0 h1 t0,
    skip_empty (length (table (ht0 d))) (table (ht0 d)) (rehashidx d) = Some idx /\
    rd (table (ht0 d)) idx = Some de /\
    move_bucket hashFunction de (ht0 d) (ht1 d) = Some (h0, h1) /\
    wr (table h0) idx [] = Some t0 /\
    let d' := mkDict (mkHt t0 (size h0) (sizemask h0) (used h0)) h1 (idx + 1) (iterators d) in
    same_entries d d' /\ dictIsRehashing d' = true /\ rehashidx d < rehashidx d' /\
    size (ht0 d') = size (ht0 d) /\ size (ht1 d') = size (ht1 d).
Proof.
  intros Hok Hre Hu.
  destruct (rehashing_spec d (ok_phase _ Hok)) as [[? _]|(_ & Hidx & Hw0 & Hw1 & Hlow)];
    [congruence|].
  rewrite (wf_used _ Hw0) in Hu. rewrite (wf_len _ Hw0) in Hidx.
  destruct (skip_empty_spec (table (ht0 d))) with (fuel := length (table (ht0 d)))
    (idx := rehashidx d) as (idx & de & Hskip & Hb & Hde & Hlow'); [|lia| |done|].
  { intros Hnil. by rewrite Hnil in Hu. }
  { unfold zlen. lia. }
  destruct (move_bucket_spec de (ht0 d) (ht1 d) Hw1) as (h1 & Hmove & Hw1' & Hs1 & Hperm).
  exists idx, de, (mkHt (table (ht0 d)) (size (ht0 d)) (sizemask (ht0 d))
    (used (ht0 d) - zlen de)), h1, (<[Z.to_nat idx := []]> (table (ht0 d))).
  cbn [table size sizemask used]. do 3 (split; [done|]).
  split; [by eapply wr_bucket|]. cbv zeta.
  pose proof Hde as [? Hl]%rd_lookup.
  assert (ht_wf (mkHt (<[Z.to_nat idx := []]> (table (ht0 d))) (size (ht0 d)) (sizemask (ht0 d))
    (used (ht0 d) - zlen de))) as Hw0'.
  { eapply ht_wf_update; [done|done|by intros ? ?%not_elem_of_nil|].
    change (zlen (@nil (K * V))) with 0. lia. }
  assert (entries (mkDict (mkHt (<[Z.to_nat idx := []]> (table (ht0 d))) (size (ht0 d))
     (sizemask (ht0 d)) (used (ht0 d) - zlen de)) h1 (idx + 1) (iterators d)) ≡ₚ entries d) as Hent.
  { unfold entries. cbn [ht0 ht1 table].
    rewrite (concat_insert _ _ _ _ Hl), (concat_others _ _ _ Hl), Hperm. cbn [app].
    rewrite !app_assoc. apply Permutation_app_tail. apply Permutation_app_comm. }
  assert (dictIsRehashing (mkDict (mkHt (<[Z.to_nat idx := []]> (table (ht0 d))) (size (ht0 d))
     (sizemask (ht0 d)) (used (ht0 d) - zlen de)) h1 (idx + 1) (iterators d)) = true) as Hre'.
  { unfold dictIsRehashing. cbn [rehashidx]. destruct (Z.eqb_spec (idx + 1) (-1)); [lia|done]. }
  split; [|split; [done|split; [cbn [rehashidx]; lia|done]]].
  split; [|done]. eapply dict_ok_perm; [done| |done]. right.
  cbn [rehashidx ht0 ht1 size table]. rewrite (wf_len _ Hw0).
  split; [lia|]. split; [by rewrite <- (wf_len _ Hw0)|]. split; [done|].
  intros i c Hi Hlt. destruct (rd_insert _ _ _ _ _ Hi) as [[_ <-]|[Hne Hi']]; [lia|done|].
  eapply Hlow'; [done|lia].
Qed.

Lemma rehash_finish d :
  dict_ok d -> dictIsRehashing d = true -> used (ht0 d) = 0 ->
  same_entries d (mkDict (ht1 d) _dictReset (-1) (iterators d)).
Proof.
  intros Hok Hre Hu.
  destruct (rehashing_spec d (ok_phase _ Hok)) as [[? _]|(_ & Hidx & Hw0 & Hw1 & Hlow)];
    [congruence|].
  assert (entries (mkDict (ht1 d) _dictReset (-1) (iterators d)) ≡ₚ entries d) as Hent.
  { unfold entries. cbn [ht0 ht1 table _dictReset concat].
    rewrite (wf_used _ Hw0) in Hu. apply zlen_zero in Hu. by rewrite Hu, app_nil_r. }
  split; [|done]. eapply dict_ok_perm; [done| |done]. left. auto.
Qed.

Lemma rehash_loop_spec n d :
  dict_ok d -> dictIsRehashing d = true ->
  exists d' more, rehash_loop hashFunction n d = Some (d', more) /\ same_entries d d' /\
    iterators d' = iterators d /\
    (if (more : bool)
     then dictIsRehashing d' = true /\ rehashidx d + Z.of_nat n <= rehashidx d' /\
          size (ht0 d') = size (ht0 d) /\ size (ht1 d') = size (ht1 d)
     else dictIsRehashing d' = false /\ size (ht0 d') = size (ht1 d)).
Proof.
  revert d. induction n as [|n IH]; intros d Hok Hre.
  { exists d, true. split_and!; try done. lia. }
  cbn [rehash_loop]. destruct (Z.eqb_spec (used (ht0 d)) 0) as [Hu|Hu].
  { eexists _, false. split; [done|]. split; [by apply rehash_finish|]. done. }
  destruct (rehash_move d Hok Hre Hu)
    as (idx & de & h0 & h1 & t0 & -> & Hde & Hmv & Hw & Hd' & Hre' & Hidx & Hs0 & Hs1).
  cbn [mbind option_bind]. rewrite Hde. cbn [mbind option_bind].
  rewrite Hmv. cbn [mbind option_bind]. rewrite Hw. cbn [mbind option_bind].
  destruct (IH _ (proj1 Hd') Hre') as (d2 & more & -> & Hsame & Hit & Hmore).
  exists d2, more. split; [done|]. split; [by eapply same_entries_trans|].
  split; [done|]. destruct more; [|destruct Hmore; split; congruence].
  destruct Hmore as (? & ? & ? & ?). split_and!; try done; try congruence. lia.
Qed.

Lemma rehash_step_spec d :
  dict_ok d ->
  exists d', (if dictIsRehashing d then _dictRehashStep hashFunction d else Some d) = Some d' /\
    same_entries d d' /\ (ht_wf (ht0 d) -> ht_wf (ht0 d')) /\ iterators d' = iterators d /\
    (size (ht0 d') <= Z.max (size (ht0 d)) (size (ht1 d))) /\
    (size (ht1 d') <= Z.max (size (ht0 d)) (size (ht1 d))).
Proof.
  intros Hok. destruct (dictIsRehashing d) eqn:Hre.
  2: { exists d. split_and!; try done; lia. }
  unfold _dictRehashStep, dictRehash. rewrite Hre.
  destruct (Z.eqb_spec (iterators d) 0).
  2: { exists d. split_and!; try done; lia. }
  destruct (rehash_loop_spec 1 d Hok Hre) as (d' & more & Hrun & Hsame & Hit & Hmore).
  cbn [negb]. rewrite Hrun. exists d'. split; [done|]. split; [done|].
  pose proof (rehashing_spec d (ok_phase _ Hok)) as [[? _]|(_ & Hidx & Hw0 & Hw1 & _)]; [congruence|].
  destruct (not_reset _ Hw0), (not_reset _ Hw1).
  pose proof (rehashing_spec d' (ok_phase _ (proj1 Hsame))) as
    [(Hre' & _ & Hr1 & Hr0)|(Hre' & _ & Hw0' & _)].
  - destruct more; [destruct Hmore; congruence|]. destruct Hmore as [_ Hs].
    rewrite Hr1. split_and!; try done; try (simpl; lia). intros _.
    destruct Hr0 as [Hr0|]; [|done]. rewrite Hr0 in Hs. simpl in Hs. lia.
  - destruct more; [|destruct Hmore; congruence]. destruct Hmore as (_ & _ & Hs0 & Hs1).
    split_and!; try done; lia.
Qed.

(** ** Growing *)

Lemma next_power_spec sz :
  0 <= sz <= 2 ^ 62 ->
  exists k, 2 <= k <= 62 /\ _dictNextPower sz = Some (2 ^ k) /\ sz <= 2 ^ k /\
    (k = 2 \/ 2 ^ (k - 1) < sz).
Proof.
  intros Hsz. unfold _dictNextPower, LONG_MAX, DICT_HT_INITIAL_SIZE.
  destruct (Z.geb_spec sz 9223372036854775807); [lia|].
  assert (forall (fuel : nat) j, 2 <= j <= 62 -> 62 - j <= Z.of_nat fuel ->
    (j = 2 \/ 2 ^ (j - 1) < sz) ->
    exists k, 2 <= k <= 62 /\ next_power_loop fuel sz (2 ^ j) = Some (2 ^ k) /\ sz <= 2 ^ k /\
      (k = 2 \/ 2 ^ (k - 1) < sz)) as Hloop.
  { induction fuel as [|fuel IH]; intros j Hj Hf Hlow; cbn [next_power_loop];
      destruct (Z.geb_spec (2 ^ j) sz); try (exists j; done).
    - assert (j = 62) as -> by lia. lia.
    - assert (j < 62).
      { destruct (Z.eq_dec j 62) as [->|]; [lia|lia]. }
      pose proof (Z.pow_pos_nonneg 2 j ltac:(lia) ltac:(lia)).
      replace (2 ^ j * 2) with (2 ^ (j + 1)) by (rewrite Z.pow_add_r by lia; lia).
      assert (2 ^ (j + 1) <= 2 ^ 62) by (apply Z.pow_le_mono_r; lia).
      rewrite uwrap_small by lia. apply IH; [lia|lia|].
      right. by replace (j + 1 - 1) with j by lia. }
  destruct (Hloop 64%nat 2) as (k & ? & ? & ?); [lia|lia|by left|]. by exists k.
Qed.

Lemma fresh_ht_wf k :
  0 <= k <= 62 -> ht_wf (mkHt (replicate (Z.to_nat (2 ^ k)) []) (2 ^ k) (2 ^ k - 1) 0).
Proof.
  intros Hk. assert (0 < 2 ^ k) by (apply Z.pow_pos_nonneg; lia).
  assert (forall n, concat (replicate n (@nil (K * V))) = []) as Hnil
    by (induction n; done).
  split; cbn [size table sizemask used].
  - rewrite zlen_replicate; lia.
  - exists k. lia.
  - done.
  - by rewrite Hnil.
  - intros i chain e [_ Hi]%rd_lookup He. apply lookup_replicate in Hi as [-> _].
    by apply not_elem_of_nil in He.
Qed.

Lemma fresh_entries k :
  concat (replicate (Z.to_nat (2 ^ k)) (@nil (K * V))) = [].
Proof. induction (Z.to_nat (2 ^ k)); done. Qed.

Lemma dictExpand_spec d sz :
  dict_ok d -> dictIsRehashing d = false -> used (ht0 d) <= sz -> 0 <= sz <= 2 ^ 62 ->
  exists d' k, dictExpand d sz = Some (d', DICT_OK) /\ same_entries d d' /\
    iterators d' = iterators d /\
    2 <= k /\ sz <= 2 ^ k /\ (k = 2 \/ 2 ^ (k - 1) < sz) /\ ht_wf (ht0 d') /\
    (if bool_decide (table (ht0 d) = [])
     then dictIsRehashing d' = false /\ size (ht0 d') = 2 ^ k /\ ht1 d' = ht1 d
     else dictIsRehashing d' = true /\ ht0 d' = ht0 d /\ size (ht1 d') = 2 ^ k).
Proof.
  intros Hok Hre Hu Hsz. unfold dictExpand.
  destruct (next_power_spec sz Hsz) as (k & Hk & -> & Hle & Hmin). cbn [mbind option_bind].
  rewrite Hre. destruct (Z.gtb_spec (used (ht0 d)) sz); [lia|]. cbn [orb].
  pose proof (fresh_ht_wf k ltac:(lia)) as Hfresh.
  destruct (rehashing_spec d (ok_phase _ Hok)) as [(_ & Hidx & Hr1 & Hr0)|[? _]]; [|congruence].
  case_bool_decide as Hnull.
  - eexists _, k. split; [done|].
    assert (ht0 d = _dictReset) as Hz.
    { destruct Hr0 as [|Hw]; [done|]. by destruct (not_reset _ Hw). }
    split_and!; try done; try lia.
    + split; [split|].
      * left. cbn [rehashidx ht0 ht1]. auto.
      * unfold entries. cbn [ht0 ht1 table]. rewrite fresh_entries, Hr1. constructor.
      * unfold entries. cbn [ht0 ht1 table]. by rewrite fresh_entries, Hz.
  - assert (ht_wf (ht0 d)) as Hw by (destruct Hr0 as [Hz|]; [by rewrite Hz in Hnull|done]).
    destruct (not_reset _ Hw). eexists _, k. split; [done|].
    split_and!; try done; try lia.
    split; [split|].
    + right. cbn [rehashidx ht0 ht1]. split_and!; try done; try lia.
      intros i c Hi%rd_Some_bound ?. lia.
    + pose proof (ok_nodup _ Hok) as Hn. unfold entries in *. cbn [ht0 ht1 table].
      rewrite fresh_entries. by rewrite Hr1 in Hn.
    + unfold entries. cbn [ht0 ht1 table]. by rewrite fresh_entries, Hr1.
Qed.

(** ** Looking a key up in the one or two buckets that can hold it *)

Definition bucket_of (h : dictht K V) (key : K) : Z :=
  Z.land (dictHashKey hashFunction key) (sizemask h).

Lemma entries_key d key :
  key ∈ (entries d).*1 <-> exists v, (key, v) ∈ concat (table (ht0 d)) \/ (key, v) ∈ concat (table (ht1 d)).
Proof.
  unfold entries. rewrite fmap_app, elem_of_app, !list_elem_of_fmap. split.
  - intros [([k v] & -> & ?)|([k v] & -> & ?)]; exists v; auto.
  - intros [v [?|?]]; [left|right]; by exists (key, v).
Qed.

Inductive lookup_case d (key : K) : Prop :=
  | found_in (t : bool) (chain : list (K * V)) (pos : nat) (v : V) :
      (t = true -> dictIsRehashing d = true /\
         exists c0, rd (table (ht0 d)) (bucket_of (ht0 d) key) = Some c0 /\ chain_find key c0 = None) ->
      ht_wf (get_ht d t) ->
      rd (table (get_ht d t)) (bucket_of (get_ht d t) key) = Some chain ->
      chain_find key chain = Some pos -> chain !! pos = Some (key, v) -> lookup_case d key
  | absent c0 :
      rd (table (ht0 d)) (bucket_of (ht0 d) key) = Some c0 -> chain_find key c0 = None ->
      (dictIsRehashing d = true -> exists c1,
         rd (table (ht1 d)) (bucket_of (ht1 d) key) = Some c1 /\ chain_find key c1 = None) ->
      key ∉ (entries d).*1 -> lookup_case d key.

Lemma lookup_cases d key : dict_ok d -> ht_wf (ht0 d) -> lookup_case d key.
Proof.
  intros Hok Hw0. destruct (bucket_exists (ht0 d) key Hw0) as [c0 Hc0].
  destruct (chain_find key c0) as [pos|] eqn:Hf0.
  { destruct (chain_find_Some _ _ _ Hf0) as [v Hv].
    by eapply (found_in d key false c0 pos v). }
  assert (forall v, (key, v) ∉ concat (table (ht0 d))) as Hn0.
  { intros v Hin. apply chain_find_None in Hf0. apply Hf0.
    apply (key_in_bucket (ht0 d) key v c0 Hw0 Hc0) in Hin.
    apply list_elem_of_fmap. by exists (key, v). }
  destruct (rehashing_spec d (ok_phase _ Hok)) as [(Hre & _ & Hr1 & _)|(Hre & _ & _ & Hw1 & _)].
  - eapply absent; [done|done|congruence|].
    rewrite entries_key. intros [v [?|Hin]]; [by eapply Hn0|].
    rewrite Hr1 in Hin. by apply not_elem_of_nil in Hin.
  - destruct (bucket_exists (ht1 d) key Hw1) as [c1 Hc1].
    destruct (chain_find key c1) as [pos|] eqn:Hf1.
    + destruct (chain_find_Some _ _ _ Hf1) as [v Hv].
      eapply (found_in d key true c1 pos v); try done. eauto.
    + eapply absent; [done|done|eauto|].
      rewrite entries_key. intros [v [?|Hin]]; [by eapply Hn0|].
      apply chain_find_None in Hf1. apply Hf1.
      apply (key_in_bucket (ht1 d) key v c1 Hw1 Hc1) in Hin.
      apply list_elem_of_fmap. by exists (key, v).
Qed.
End invariant.

(** ** The dictionary as a finite map *)

Section refinement.
Context {K V : Type} {K_eq_dec : EqDecision K} {K_countable : Countable K}.
Context (hashFunction : K -> Z) (dict_can_resize : bool) (uninit : V).
Implicit Types (d : dict K V).

Abbreviation dict_ok := (dict_ok hashFunction).
Abbreviation ht_wf := (ht_wf hashFunction).
Abbreviation same_entries := (same_entries hashFunction).

Definition to_map d : gmap K V := list_to_map (entries d).

Lemma to_map_lookup d k v : dict_ok d -> to_map d !! k = Some v <-> (k, v) ∈ entries d.
Proof. intros Hok. symmetry. apply elem_of_list_to_map, Hok. Qed.

Lemma to_map_None d k : k ∉ (entries d).*1 <-> to_map d !! k = None.
Proof. apply not_elem_of_list_to_map. Qed.

Lemma to_map_same d d' : same_entries d d' -> to_map d' = to_map d.
Proof. intros [Hok Hp]. apply list_to_map_proper; [apply Hok|done]. Qed.

(** A reference to the entry of [key], whose value is [v]. *)
Definition ref_ok d (r : entry_ref) (key : K) (v : V) : Prop :=
  let '(t, idx, pos) := r in
  ht_wf (get_ht d t) /\ (t = true -> dictIsRehashing d = true) /\
  idx = bucket_of hashFunction (get_ht d t) key /\
  exists chain, rd (table (get_ht d t)) idx = Some chain /\ chain !! pos = Some (key, v).

(** Replacing a bucket of one of the tables of a dictionary. *)
Lemma set_bucket d t idx chain chain' u :
  dict_ok d -> ht_wf (get_ht d t) -> (t = true -> dictIsRehashing d = true) ->
  (t = false -> dictIsRehashing d = true -> chain <> []) ->
  rd (table (get_ht d t)) idx = Some chain ->
  (forall e, e ∈ chain' ->
     Z.land (dictHashKey hashFunction e.1) (sizemask (get_ht d t)) = idx) ->
  u = used (get_ht d t) + zlen chain' - zlen chain ->
  exists tb rest,
    wr (table (get_ht d t)) idx chain' = Some tb /\
    let d' := set_ht d t (mkHt tb (size (get_ht d t)) (sizemask (get_ht d t)) u) in
    phase_ok hashFunction d' /\ entries d ≡ₚ chain ++ rest /\ entries d' ≡ₚ chain' ++ rest /\
    dictIsRehashing d' = dictIsRehashing d.
Proof.
  intros Hok Hw Ht Hne Hrd Hplace Hu.
  pose proof (ht_wf_update hashFunction _ _ _ _ _ Hw Hrd Hplace Hu) as Hw'.
  pose proof Hrd as [Hidx Hl]%rd_lookup.
  exists (<[Z.to_nat idx := chain']> (table (get_ht d t))).
  exists (others (table (get_ht d t)) (Z.to_nat idx) ++ concat (table (get_ht d (negb t)))).
  split; [by eapply wr_bucket|]. cbv zeta.
  set (h' := mkHt _ _ _ u) in *.
  assert (concat (table h') ≡ₚ chain' ++ others (table (get_ht d t)) (Z.to_nat idx)) as Hc'
    by by eapply concat_insert.
  pose proof (concat_others _ _ _ Hl) as Hc.
  assert (phase_ok hashFunction (set_ht d t h')) as Hphase.
  { destruct (rehashing_spec hashFunction d (ok_phase _ _ Hok))
      as [(Hre & Hi & Hr1 & Hr0)|(Hre & Hi & Hw0 & Hw1 & Hlow)].
    - destruct t; [rewrite Ht in Hre by done; done|]. left. simpl in *. auto.
    - right. destruct t; simpl in *; split_and!; try done; try lia.
      intros i c Hi' Hlt. destruct (rd_insert _ _ _ _ _ Hi') as [[-> ->]|[_ ?]];
        [by eapply rd_Some_bound| |by eapply Hlow].
      destruct (Hne eq_refl Hre). by eapply Hlow. }
  split_and!; [done| | |by destruct t].
  - destruct t; unfold entries; simpl in *; rewrite Hc, <- ?app_assoc;
      [by rewrite Permutation_app_comm, <- app_assoc|done].
  - destruct t; unfold entries; simpl in *; rewrite Hc', <- ?app_assoc;
      [by rewrite Permutation_app_comm, <- app_assoc|done].
Qed.

Lemma dict_ok_nodup d l : phase_ok hashFunction d -> entries d ≡ₚ l -> NoDup l.*1 -> dict_ok d.
Proof. intros Hp He Hn. split; [done|]. by rewrite He. Qed.

(** Writing the value of an entry. *)
Lemma dictSetVal_spec d r key v val :
  dict_ok d -> ref_ok d r key v ->
  exists d', dictSetVal d r val = Some d' /\ dict_ok d' /\
    to_map d' = <[key := val]> (to_map d).
Proof.
  destruct r as [[t idx] pos]. intros Hok (Hw & Ht & -> & chain & Hc & Hpos).
  unfold dictSetVal. rewrite Hc. cbn [mbind option_bind]. rewrite Hpos. cbn [mbind option_bind fst].
  destruct (set_bucket d t (bucket_of hashFunction (get_ht d t) key) chain
    (<[pos := (key, val)]> chain) (used (get_ht d t))) as (tb & rest & Hwr & Hphase & He & He' & _);
    try done.
  { intros _ _ ->. by rewrite lookup_nil in Hpos. }
  { intros e [i Hi]%list_elem_of_lookup. destruct (decide (i = pos)) as [->|].
    - rewrite list_lookup_insert_eq in Hi by by eapply lookup_lt_Some. by simplify_eq.
    - rewrite list_lookup_insert_ne in Hi by done.
      eapply wf_place; [done|done|by eapply list_elem_of_lookup_2]. }
  { rewrite zlen_insert. lia. }
  rewrite Hwr. cbn [mbind option_bind]. eexists. split; [done|].
  pose proof (take_drop_middle _ _ _ Hpos) as Hsplit.
  rewrite insert_take_drop in He' by by eapply lookup_lt_Some.
  set (l := take pos chain ++ drop (S pos) chain ++ rest).
  assert (entries d ≡ₚ (key, v) :: l) as Hd.
  { rewrite He, <- Hsplit, <- app_assoc. cbn [app]. by rewrite <- Permutation_middle. }
  assert (forall d', entries d' ≡ₚ (take pos chain ++ (key, val) :: drop (S pos) chain) ++ rest ->
    entries d' ≡ₚ (key, val) :: l) as Hd'.
  { intros d' ->. rewrite <- app_assoc. cbn [app]. by rewrite <- Permutation_middle. }
  apply Hd' in He'. clear Hd'.
  pose proof (ok_nodup _ _ Hok) as Hn. rewrite Hd in Hn. cbn [fmap list_fmap fst] in Hn.
  assert (NoDup ((key, val) :: l).*1) as Hn' by done.
  split; [by eapply dict_ok_nodup|].
  unfold to_map. rewrite (list_to_map_proper (entries d) _ (ok_nodup _ _ Hok) Hd).
  rewrite (list_to_map_proper _ ((key, val) :: l)); [|by rewrite He'|done].
  simpl. by rewrite insert_insert_eq.
Qed.

Lemma unallocated_entries d : dict_ok d -> size (ht0 d) = 0 -> entries d = [].
Proof.
  intros Hok Hz. destruct (rehashing_spec hashFunction d (ok_phase _ _ Hok)) as
    [(_ & _ & Hr1 & [Hr0|Hw])|(_ & _ & Hw & _)];
    [|destruct (not_reset hashFunction _ Hw); lia..].
  unfold entries. by rewrite Hr0, Hr1.
Qed.

Lemma allocated_wf d : dict_ok d -> size (ht0 d) <> 0 -> ht_wf (ht0 d).
Proof.
  intros Hok Hz. destruct (rehashing_spec hashFunction d (ok_phase _ _ Hok)) as
    [(_ & _ & _ & [Hr0|])|(_ & _ & ? & _)]; try done. by rewrite Hr0 in Hz.
Qed.

Lemma dictFind_spec d key :
  dict_ok d ->
  exists d' r, dictFind hashFunction d key = Some (d', r) /\ dict_ok d' /\
    to_map d' = to_map d /\
    match r with
    | Some r => exists v, to_map d !! key = Some v /\ ref_ok d' r key v
    | None => to_map d !! key = None
    end.
Proof.
  intros Hok. unfold dictFind. destruct (Z.eqb_spec (size (ht0 d)) 0) as [Hz|Hz].
  { exists d, None. split_and!; try done. apply to_map_None.
    rewrite (unallocated_entries d Hok Hz). apply not_elem_of_nil. }
  pose proof (allocated_wf d Hok Hz) as Hw.
  destruct (rehash_step_spec hashFunction d Hok) as (d' & Hstep & Hsame & Hw' & _).
  rewrite Hstep. cbn [mbind option_bind]. specialize (Hw' Hw).
  pose proof (proj1 Hsame) as Hok'. pose proof (to_map_same _ _ Hsame) as Hmap.
  rewrite <- Hmap. clear Hstep.
  destruct (lookup_cases hashFunction d' key Hok' Hw')
    as [t chain pos v Ht Hwt Hc Hf Hpos|c0 Hc0 Hf0 Hc1 Hn].
  - assert ((key, v) ∈ entries d') as Hin.
    { assert ((key, v) ∈ concat (table (get_ht d' t))) as Hin.
      { eapply (key_in_bucket hashFunction); [done|exact Hc|]. by eapply list_elem_of_lookup_2. }
      unfold entries. apply elem_of_app. destruct t; auto. }
    exists d', (Some (t, bucket_of hashFunction (get_ht d' t) key, pos)).
    split; [|split_and!; try done; exists v; split; [by apply to_map_lookup|];
             split_and!; try done; [intros ?; by apply Ht|eauto]].
    destruct t.
    + destruct (Ht eq_refl) as (Hre & c0 & Hc0 & Hf0). unfold bucket_of in *.
      rewrite Hc0. cbn [mbind option_bind]. rewrite Hf0, Hre. cbn [negb].
      simpl in Hc. rewrite Hc. cbn [mbind option_bind]. by rewrite Hf.
    + unfold bucket_of in *. simpl in Hc. rewrite Hc. cbn [mbind option_bind]. by rewrite Hf.
  - exists d', None. split; [|split_and!; try done; by apply to_map_None].
    unfold bucket_of in *. rewrite Hc0. cbn [mbind option_bind]. rewrite Hf0.
    destruct (dictIsRehashing d') eqn:Hre; [|done]. cbn [negb].
    destruct (Hc1 eq_refl) as (c1 & Hr1 & Hf1). rewrite Hr1. cbn [mbind option_bind]. by rewrite Hf1.
Qed.

Lemma entries_size d : dict_ok d -> dictSize d = zlen (entries d).
Proof.
  intros Hok. unfold dictSize, entries. rewrite zlen_app.
  destruct (rehashing_spec hashFunction d (ok_phase _ _ Hok))
    as [(_ & _ & Hr1 & [Hr0|Hw])|(_ & _ & Hw0 & Hw1 & _)].
  - by rewrite Hr0, Hr1.
  - rewrite Hr1, (wf_used _ _ Hw). done.
  - by rewrite (wf_used _ _ Hw0), (wf_used _ _ Hw1).
Qed.

(** Small enough for bucket indices to fit the [int] of [_dictKeyIndex] after
    the next expansion. *)
Definition small d : Prop :=
  dictSize d <= 2 ^ 29 /\ size (ht0 d) <= 2 ^ 31 /\ size (ht1 d) <= 2 ^ 31.

Lemma expand_needed_spec d :
  dict_ok d -> small d ->
  exists d', _dictExpandIfNeeded dict_can_resize d = Some (d', DICT_OK) /\
    same_entries d d' /\ ht_wf (ht0 d') /\ small d'.
Proof.
  intros Hok (Hn & Hs0 & Hs1). unfold _dictExpandIfNeeded.
  destruct (rehashing_spec hashFunction d (ok_phase _ _ Hok))
    as [(Hre & _ & Hr1 & Hr0)|(Hre & _ & Hw0 & Hw1 & _)]; rewrite Hre.
  2: { exists d. split_and!; try done. }
  pose proof (entries_size d Hok) as Hsz.
  assert (used (ht1 d) = 0) as Hu1 by by rewrite Hr1.
  assert (0 <= used (ht0 d) <= 2 ^ 29) as Hu.
  { pose proof (zlen_nonneg (entries d)). unfold dictSize in *. lia. }
  assert (forall sz, used (ht0 d) <= sz <= 2 ^ 30 -> exists d',
    dictExpand d sz = Some (d', DICT_OK) /\ same_entries d d' /\ ht_wf (ht0 d') /\ small d')
    as Hexp.
  { intros sz Hsz'.
    destruct (dictExpand_spec hashFunction d sz Hok Hre) as
      (d' & k & He & Hsame & _ & Hk & _ & Hmin & Hw & Hcase); [lia..|].
    assert (2 ^ k <= 2 ^ 31) as Hpow.
    { apply Z.pow_le_mono_r; [lia|]. destruct Hmin as [->|Hmin]; [lia|].
      assert (k - 1 < 30); [|lia]. apply (Z.pow_lt_mono_r_iff 2); lia. }
    exists d'. split_and!; try done.
    pose proof (entries_size d' (proj1 Hsame)) as Hsz2. unfold zlen in *.
    rewrite (proj2 Hsame) in Hsz2. split; [lia|]. case_bool_decide.
    - destruct Hcase as (_ & -> & ->). done.
    - destruct Hcase as (_ & -> & ->). done. }
  destruct (Z.eqb_spec (size (ht0 d)) 0) as [Hz|Hz].
  { apply Hexp. destruct Hr0 as [Hr0|Hw]; [|destruct (not_reset _ _ Hw); lia].
    rewrite Hr0. simpl. unfold DICT_HT_INITIAL_SIZE. lia. }
  destruct Hr0 as [Hr0|Hw]; [by rewrite Hr0 in Hz|].
  destruct (_ && _); [apply Hexp; lia|]. by exists d.
Qed.

Lemma bucket_small d t key :
  ht_wf (get_ht d t) -> small d ->
  s32 (bucket_of hashFunction (get_ht d t) key) = bucket_of hashFunction (get_ht d t) key /\
  bucket_of hashFunction (get_ht d t) key <> -1.
Proof.
  intros Hw Hs.
  pose proof (mask_bound hashFunction _ _ Hw (proj1 (hash_nonneg hashFunction key))) as Hb.
  rewrite <- (wf_len _ _ Hw) in Hb. unfold bucket_of. set (i := Z.land _ _) in *.
  assert (size (get_ht d t) <= 2 ^ 31) by (destruct t; apply Hs).
  split; [apply swrap_small; [lia|unfold sfits; lia]|lia].
Qed.

Lemma phase_new_table d :
  dict_ok d -> ht_wf (ht0 d) -> ht_wf (get_ht d (dictIsRehashing d)).
Proof.
  intros Hok Hw.
  destruct (rehashing_spec hashFunction d (ok_phase _ _ Hok)) as [(-> & _)|(-> & _ & _ & ? & _)];
    done.
Qed.

Lemma dictKeyIndex_spec d key :
  dict_ok d -> small d ->
  exists d' i, _dictKeyIndex hashFunction dict_can_resize d key = Some (d', i) /\
    same_entries d d' /\ ht_wf (ht0 d') /\
    ((i = -1 /\ (key ∈ (entries d).*1)) \/
     (i <> -1 /\ (key ∉ (entries d).*1) /\
      i = bucket_of hashFunction (get_ht d' (dictIsRehashing d')) key)).
Proof.
  intros Hok Hs. unfold _dictKeyIndex.
  destruct (expand_needed_spec d Hok Hs) as (d' & -> & Hsame & Hw & Hs').
  cbn [mbind option_bind]. pose proof (proj1 Hsame) as Hok'.
  pose proof (phase_new_table d' Hok' Hw) as Hw1.
  assert (forall k, k ∈ (entries d).*1 <-> k ∈ (entries d').*1) as Hk
    by (intros k; by rewrite (proj2 Hsame)).
  destruct (lookup_cases hashFunction d' key Hok' Hw)
    as [t chain pos v Ht Hwt Hc Hf Hpos|c0 Hc0 Hf0 Hc1 Hn].
  - exists d', (-1). assert (key ∈ (entries d).*1).
    { apply Hk, entries_key. exists v. destruct t; [right|left];
      (eapply (key_in_bucket hashFunction); [done|exact Hc|by eapply list_elem_of_lookup_2]). }
    split; [|by auto]. destruct t.
    + destruct (Ht eq_refl) as (Hre & c0 & Hc0 & Hf0). unfold bucket_of in *.
      rewrite Hc0. cbn [mbind option_bind]. rewrite Hf0, Hre. cbn [negb].
      simpl in Hc. rewrite Hc. cbn [mbind option_bind]. by rewrite Hf.
    + unfold bucket_of in *. simpl in Hc. rewrite Hc. cbn [mbind option_bind]. by rewrite Hf.
  - destruct (bucket_small d' _ key Hw1 Hs') as [Hb1 Hb2].
    exists d', (bucket_of hashFunction (get_ht d' (dictIsRehashing d')) key).
    split; [|split; [done|]; split; [done|]; right; split_and!; [done|by rewrite Hk|done]].
    unfold bucket_of in *. rewrite Hc0. cbn [mbind option_bind]. rewrite Hf0.
    destruct (dictIsRehashing d') eqn:Hre; cbn [negb get_ht] in *; [|by rewrite Hb1].
    destruct (Hc1 eq_refl) as (c1 & Hr1 & Hf1). rewrite Hr1. cbn [mbind option_bind].
    rewrite Hf1. by rewrite Hb1.
Qed.

Lemma get_set_ht d t h : get_ht (set_ht d t h) t = h.
Proof. by destruct t. Qed.

Lemma dictAddRaw_spec d key :
  dict_ok d -> small d ->
  exists d' r, dictAddRaw hashFunction dict_can_resize uninit d key = Some (d', r) /\ dict_ok d' /\
    match r with
    | None => is_Some (to_map d !! key) /\ to_map d' = to_map d
    | Some r => to_map d !! key = None /\ to_map d' = <[key := uninit]> (to_map d) /\
                ref_ok d' r key uninit
    end.
Proof.
  intros Hok Hs. unfold dictAddRaw.
  destruct (rehash_step_spec hashFunction d Hok) as (d1 & -> & Hsame1 & _ & _ & Hs0 & Hs1).
  cbn [mbind option_bind].
  assert (small d1) as Hs'.
  { destruct Hs as (Hn & ? & ?). split; [|lia].
    rewrite (entries_size _ (proj1 Hsame1)). unfold zlen. rewrite (proj2 Hsame1).
    rewrite entries_size in Hn by done. done. }
  destruct (dictKeyIndex_spec d1 key (proj1 Hsame1) Hs') as (d2 & i & -> & Hsame2 & Hw & Hi).
  cbn [mbind option_bind].
  pose proof (same_entries_trans hashFunction _ _ _ Hsame1 Hsame2) as Hsame.
  pose proof (to_map_same _ _ Hsame) as Hm. pose proof (proj1 Hsame) as Hok2.
  assert (key ∈ (entries d1).*1 <-> key ∈ (entries d).*1) as Hk by by rewrite (proj2 Hsame1).
  destruct Hi as [[-> Hin]|(Hi & Hnin & ->)].
  { cbn. exists d2, None. split_and!; try done. apply not_eq_None_Some.
    intros Hnone%to_map_None. by rewrite Hk in Hin. }
  destruct (Z.eqb_spec (bucket_of hashFunction (get_ht d2 (dictIsRehashing d2)) key) (-1));
    [done|].
  pose proof (phase_new_table d2 Hok2 Hw) as Hw1.
  destruct (bucket_exists hashFunction _ key Hw1) as [chain Hc].
  fold (bucket_of hashFunction (get_ht d2 (dictIsRehashing d2)) key) in Hc.
  remember (dictIsRehashing d2) as t eqn:Ht; symmetry in Ht.
  remember (bucket_of hashFunction (get_ht d2 t) key) as idx eqn:Hidx.
  rewrite Hc. cbn [mbind option_bind].
  destruct (set_bucket d2 t idx chain ((key, uninit) :: chain) (used (get_ht d2 t) + 1))
    as (tb & rest & Hwr & Hphase & He & He' & Hre'); try done.
  1-2: congruence.
  { intros e [->|He]%elem_of_cons; [by subst|]. by eapply wf_place. }
  { zlens. lia. }
  rewrite Hwr. cbn [mbind option_bind].
  eexists _, (Some (t, idx, O)). split; [done|].
  assert (entries (set_ht d2 t (mkHt tb (size (get_ht d2 t)) (sizemask (get_ht d2 t))
    (used (get_ht d2 t) + 1))) ≡ₚ (key, uninit) :: entries d2) as Hnew by by rewrite He', He.
  assert (key ∉ (entries d2).*1) as Hnin2 by (rewrite (proj2 Hsame); by rewrite <- Hk).
  pose proof (ok_nodup _ _ Hok2) as Hn2.
  assert (NoDup ((key, uninit) :: entries d2).*1) as Hnd by (apply NoDup_cons; by split).
  split; [by eapply dict_ok_nodup|]. split_and!.
  - apply to_map_None. by rewrite <- Hk.
  - unfold to_map. rewrite (list_to_map_proper _ ((key, uninit) :: entries d2));
      [|by rewrite Hnew|done]. simpl. f_equal. exact Hm.
  - unfold ref_ok. rewrite get_set_ht. apply wr_Some in Hwr as [Hb ->]. split_and!.
    + eapply ht_wf_update; [done|exact Hc| |zlens; lia].
      intros e [->|He2]%elem_of_cons; [by subst|]. by eapply wf_place.
    + intros Htr. rewrite Hre'. congruence.
    + done.
    + exists ((key, uninit) :: chain). split; [|done].
      simpl. apply rd_lookup. split; [lia|].
      apply list_lookup_insert_eq. unfold zlen in Hb. lia.
Qed.


Lemma dictAdd_spec d key val :
  dict_ok d -> small d ->
  exists d' st, dictAdd hashFunction dict_can_resize uninit d key val = Some (d', st) /\
    dict_ok d' /\
    match to_map d !! key with
    | None => st = DICT_OK /\ to_map d' = <[key := val]> (to_map d)
    | Some _ => st = DICT_ERR /\ to_map d' = to_map d
    end.
Proof.
  intros Hok Hs. unfold dictAdd.
  destruct (dictAddRaw_spec d key Hok Hs) as (d1 & [r|] & -> & Hok1 & Hr);
    cbn [mbind option_bind].
  - destruct Hr as (-> & Hm & Href).
    destruct (dictSetVal_spec d1 r key uninit val Hok1 Href) as (d2 & -> & Hok2 & Hm2).
    cbn [mbind option_bind]. exists d2, DICT_OK. split_and!; try done.
    by rewrite Hm2, Hm, insert_insert_eq.
  - destruct Hr as ([v ->] & Hm). by exists d1, DICT_ERR.
Qed.

(** C20: [dictAdd] inserts exactly when the key is absent, whatever rehashing or
    expansion it triggers, and otherwise fails leaving the mapping as it is. *)
Theorem dictAdd_refines d key val :
  dict_ok d -> small d ->
  exists d' st, dictAdd hashFunction dict_can_resize uninit d key val = Some (d', st) /\
    dict_ok d' /\
    match to_map d !! key with
    | None => st = DICT_OK /\ to_map d' = <[key := val]> (to_map d)
    | Some _ => st = DICT_ERR /\ to_map d' = to_map d
    end.
Proof. apply dictAdd_spec. Qed.

Lemma dictGetVal_ref d r key v : ref_ok d r key v -> dictGetVal d r = Some v.
Proof.
  destruct r as [[t idx] pos]. intros (_ & _ & _ & chain & Hc & Hp).
  unfold dictGetVal, dictGetEntry. rewrite Hc. cbn [mbind option_bind]. by rewrite Hp.
Qed.

(** [dictFetchValue] returns what the mapping holds; the rehashing step it
    may perform changes no entry. *)
Theorem dictFetchValue_refines d key :
  dict_ok d ->
  exists d', dictFetchValue hashFunction d key = Some (d', to_map d !! key) /\
    dict_ok d' /\ to_map d' = to_map d.
Proof.
  intros Hok. unfold dictFetchValue.
  destruct (dictFind_spec d key Hok) as (d' & r & -> & Hok' & Hm & Hr).
  cbn [mbind option_bind]. exists d'. destruct r as [r|].
  - destruct Hr as (v & -> & Href). by rewrite (dictGetVal_ref _ _ _ _ Href).
  - by rewrite Hr.
Qed.

(** [dictReplace] always ends with the key bound to the value, and its
    result says whether the key was new. *)
Theorem dictReplace_refines d key val :
  dict_ok d -> small d ->
  exists d', dictReplace hashFunction dict_can_resize uninit d key val
      = Some (d', bool_decide (to_map d !! key = None)) /\
    dict_ok d' /\ to_map d' = <[key := val]> (to_map d).
Proof.
  intros Hok Hs. unfold dictReplace.
  destruct (dictAdd_spec d key val Hok Hs) as (d1 & st & -> & Hok1 & Hst).
  cbn [mbind option_bind]. destruct (to_map d !! key) as [v|] eqn:Hk.
  - destruct Hst as [-> Hm1].
    destruct (dictFind_spec d1 key Hok1) as (d2 & r & -> & Hok2 & Hm2 & Hr).
    rewrite Hm1, Hk in Hr. destruct r as [r|]; [|done].
    destruct Hr as (v' & _ & Href). cbn [mbind option_bind].
    destruct (dictSetVal_spec d2 r key v' val Hok2 Href) as (d3 & -> & Hok3 & Hm3).
    cbn [mbind option_bind]. exists d3. split_and!; try done. by rewrite Hm3, Hm2, Hm1.
  - destruct Hst as [-> Hm1]. by exists d1.
Qed.

Lemma unlink_spec d t key chain pos v nofree :
  dict_ok d -> ht_wf (get_ht d t) -> (t = true -> dictIsRehashing d = true) ->
  rd (table (get_ht d t)) (bucket_of hashFunction (get_ht d t) key) = Some chain ->
  chain !! pos = Some (key, v) ->
  exists d', unlink d t (bucket_of hashFunction (get_ht d t) key) chain pos nofree
      = Some (d', DICT_OK, if nofree then None else Some (key, v)) /\
    dict_ok d' /\ to_map d' = delete key (to_map d) /\ to_map d !! key = Some v.
Proof.
  intros Hok Hw Ht Hc Hpos. unfold unlink. rewrite Hpos. cbn [mbind option_bind].
  pose proof (take_drop_middle _ _ _ Hpos) as Hsplit.
  destruct (set_bucket d t (bucket_of hashFunction (get_ht d t) key) chain
    (take pos chain ++ drop (S pos) chain) (used (get_ht d t) - 1))
    as (tb & rest & -> & Hphase & He & He' & _); try done.
  { intros _ _ ->. by rewrite lookup_nil in Hpos. }
  { intros e He. eapply wf_place; [done|done|]. rewrite <- Hsplit.
    apply elem_of_app in He as [?|?]; apply elem_of_app; [by left|right].
    apply elem_of_cons; by right. }
  { rewrite <- Hsplit at 3. zlens. lia. }
  cbn [mbind option_bind]. eexists. split; [done|].
  set (l := (take pos chain ++ drop (S pos) chain) ++ rest) in *.
  assert (entries d ≡ₚ (key, v) :: l) as Hd.
  { rewrite He, <- Hsplit, <- app_assoc. cbn [app]. unfold l.
    by rewrite <- Permutation_middle, <- app_assoc. }
  pose proof (ok_nodup _ _ Hok) as Hn. rewrite Hd in Hn. cbn [fmap list_fmap fst] in Hn.
  apply NoDup_cons in Hn as [Hnin Hn].
  assert (to_map d = <[key := v]> (list_to_map l)) as Hm.
  { unfold to_map. by rewrite (list_to_map_proper (entries d) _ (ok_nodup _ _ Hok) Hd). }
  split; [by eapply dict_ok_nodup|]. rewrite Hm. split; [|by rewrite lookup_insert_eq].
  unfold to_map. rewrite (list_to_map_proper _ l); [|by rewrite He'|done].
  rewrite delete_insert_id; [done|]. by apply not_elem_of_list_to_map.
Qed.

Lemma dictGenericDelete_spec d key nofree :
  dict_ok d ->
  exists d' st freed, dictGenericDelete hashFunction d key nofree = Some (d', st, freed) /\
    dict_ok d' /\ to_map d' = delete key (to_map d) /\
    match to_map d !! key with
    | None => st = DICT_ERR /\ freed = None
    | Some v => st = DICT_OK /\ freed = if nofree then None else Some (key, v)
    end.
Proof.
  intros Hok. unfold dictGenericDelete. destruct (Z.eqb_spec (size (ht0 d)) 0) as [Hz|Hz].
  { exists d, DICT_ERR, None. assert (to_map d !! key = None) as Hn.
    { apply to_map_None. rewrite (unallocated_entries d Hok Hz). apply not_elem_of_nil. }
    rewrite Hn. by rewrite delete_id. }
  pose proof (allocated_wf d Hok Hz) as Hw.
  destruct (rehash_step_spec hashFunction d Hok) as (d' & -> & Hsame & Hw' & _).
  cbn [mbind option_bind]. specialize (Hw' Hw).
  pose proof (proj1 Hsame) as Hok'. rewrite <- (to_map_same _ _ Hsame).
  destruct (lookup_cases hashFunction d' key Hok' Hw')
    as [t chain pos v Ht Hwt Hc Hf Hpos|c0 Hc0 Hf0 Hc1 Hn].
  - destruct (unlink_spec d' t key chain pos v nofree Hok' Hwt (fun H => proj1 (Ht H)) Hc Hpos)
      as (d2 & Hun & Hok2 & Hm2 & Hv).
    exists d2, DICT_OK, (if nofree then None else Some (key, v)). rewrite Hv.
    split; [|done]. destruct t.
    + destruct (Ht eq_refl) as (Hre & c0 & Hc0 & Hf0). unfold bucket_of in *.
      rewrite Hc0. cbn [mbind option_bind]. rewrite Hf0, Hre. cbn [negb].
      simpl in Hc. rewrite Hc. cbn [mbind option_bind]. by rewrite Hf.
    + unfold bucket_of in *. simpl in Hc. rewrite Hc. cbn [mbind option_bind]. by rewrite Hf.
  - exists d', DICT_ERR, None. apply to_map_None in Hn. rewrite Hn.
    split; [|by rewrite delete_id].
    unfold bucket_of in *. rewrite Hc0. cbn [mbind option_bind]. rewrite Hf0.
    destruct (dictIsRehashing d') eqn:Hre; [|done]. cbn [negb].
    destruct (Hc1 eq_refl) as (c1 & Hr1 & Hf1). rewrite Hr1. cbn [mbind option_bind].
    by rewrite Hf1.
Qed.

(** [dictDelete] and [dictDeleteNoFree] remove exactly the key, report
    whether it was there, and give to the destructors the entry removed (or
    nothing, without freeing). *)
Theorem dictGenericDelete_refines d key nofree :
  dict_ok d ->
  exists d' st freed, dictGenericDelete hashFunction d key nofree = Some (d', st, freed) /\
    dict_ok d' /\ to_map d' = delete key (to_map d) /\
    match to_map d !! key with
    | None => st = DICT_ERR /\ freed = None
    | Some v => st = DICT_OK /\ freed = if nofree then None else Some (key, v)
    end.
Proof. apply dictGenericDelete_spec. Qed.

(** C21: Incremental rehashing terminates and loses nothing: [n] steps keep
    every entry, and once [n] exceeds the size of the old table the dictionary
    is left with the new table alone. *)
Theorem dictRehash_terminates d n :
  dict_ok d -> dictIsRehashing d = true ->
  exists d' more, dictRehash hashFunction d n = Some (d', more) /\
    dict_ok d' /\ to_map d' = to_map d /\ dictIsRehashing d' = more /\
    (size (ht0 d) < Z.of_nat n -> more = false /\ size (ht0 d') = size (ht1 d)).
Proof.
  intros Hok Hre. unfold dictRehash. rewrite Hre. cbn [negb].
  destruct (rehash_loop_spec hashFunction n d Hok Hre) as (d' & more & Hrun & Hsame & _ & Hmore).
  exists d', more. split_and!; [done|apply Hsame|by apply to_map_same| |].
  - destruct more; apply Hmore.
  - intros Hn. destruct more; [|by destruct Hmore]. exfalso. destruct Hmore as (Hre' & Hidx & Hs & _).
    destruct (rehashing_spec hashFunction d' (ok_phase _ _ (proj1 Hsame)))
      as [[? _]|(_ & Hb & _)]; [congruence|].
    destruct (rehashing_spec hashFunction d (ok_phase _ _ Hok))
      as [[? _]|(_ & Hb0 & _)]; [congruence|]. lia.
Qed.

Lemma clear_loop_all (t : list (list (K * V))) u :
  u = zlen (concat t) -> clear_loop t u = concat t.
Proof.
  revert u. induction t as [|he t IH]; intros u Hu; [done|]. simpl in *.
  rewrite zlen_app in Hu. destruct (Z.gtb_spec u 0).
  - f_equal. apply IH. lia.
  - symmetry. apply zlen_zero. zlens. pose proof (zlen_nonneg he).
    pose proof (zlen_nonneg (concat t)). lia.
Qed.

Lemma dictEmpty_frees_all d :
  dict_ok d -> dictEmpty d = (dictCreate, entries d).
Proof.
  intros Hok. unfold dictEmpty, entries. simpl. f_equal.
  destruct (rehashing_spec hashFunction d (ok_phase _ _ Hok))
    as [(_ & _ & Hr1 & [Hr0|Hw])|(_ & _ & Hw0 & Hw1 & _)].
  - by rewrite Hr0, Hr1.
  - rewrite Hr1, clear_loop_all; [done|apply (wf_used _ _ Hw)].
  - rewrite !clear_loop_all; [done|apply (wf_used _ _ Hw1)|apply (wf_used _ _ Hw0)].
Qed.

End refinement.

(** ** Checking a concrete dictionary, and witnesses *)

Section check.
Context {K V : Type} {K_eq_dec : EqDecision K}.
Context (hashFunction : K -> Z).
Implicit Types (h : dictht K V) (d : dict K V).

Definition ht_check h : bool :=
  let k := Z.log2 (size h) in
  (size h =? zlen (table h)) && (0 <=? k) && (k <? 63) && (size h =? 2 ^ k) &&
  (sizemask h =? size h - 1) && (used h =? zlen (concat (table h))) &&
  forallb (fun i : nat =>
    forallb (fun e => Z.land (dictHashKey hashFunction e.1) (sizemask h) =? Z.of_nat i)
      (nth i (table h) [])) (seq 0 (length (table h))).

Lemma ht_check_sound h : ht_check h = true -> ht_wf hashFunction h.
Proof.
  unfold ht_check. rewrite !andb_true_iff, !Z.eqb_eq, Z.leb_le, Z.ltb_lt.
  intros ((((((Hl & Hk) & Hk') & Hs) & Hm) & Hu) & Hp).
  split; [done|eexists; split; [split; [exact Hk|exact Hk']|exact Hs]|done|done|].
  intros i chain e [Hi Hc]%rd_lookup He. rewrite forallb_forall in Hp.
  specialize (Hp (Z.to_nat i)). rewrite List.in_seq in Hp.
  rewrite (nth_lookup_Some _ _ _ _ Hc), forallb_forall in Hp.
  apply list_elem_of_In in He. pose proof (lookup_lt_Some _ _ _ Hc).
  specialize (Hp ltac:(lia) e He). apply Z.eqb_eq in Hp. lia.
Qed.

Definition low_empty (t : list (list (K * V))) (idx : Z) : bool :=
  forallb (fun c => match c with [] => true | _ => false end) (take (Z.to_nat idx) t).

Definition dict_check d : bool :=
  (if rehashidx d =? -1 then
     match table (ht1 d) with
     | [] => (size (ht1 d) =? 0) && (sizemask (ht1 d) =? 0) && (used (ht1 d) =? 0)
     | _ => false
     end && ht_check (ht0 d)
   else (0 <=? rehashidx d) && (rehashidx d <=? size (ht0 d)) && ht_check (ht0 d) &&
        ht_check (ht1 d) && low_empty (table (ht0 d)) (rehashidx d)) &&
  bool_decide (NoDup (entries d).*1).

Lemma dict_check_sound d : dict_check d = true -> dict_ok hashFunction d.
Proof.
  unfold dict_check. rewrite andb_true_iff. intros [Hp Hn%bool_decide_eq_true].
  split; [|done]. destruct (Z.eqb_spec (rehashidx d) (-1)) as [Hr|Hr].
  - apply andb_prop in Hp as [Hp Hw]. left. split; [done|]. split; [|right; by apply ht_check_sound].
    destruct (ht1 d) as [[|] s m u]; [|done]. simpl in Hp.
    rewrite !andb_true_iff, !Z.eqb_eq in Hp. by destruct Hp as ((-> & ->) & ->).
  - rewrite !andb_true_iff, !Z.leb_le in Hp. destruct Hp as ((((H0 & H1) & Hw0) & Hw1) & Hlow).
    right. split_and!; [done..|by apply ht_check_sound|by apply ht_check_sound|].
    intros i chain [Hi Hc]%rd_lookup Hlt. unfold low_empty in Hlow.
    rewrite forallb_forall in Hlow. specialize (Hlow chain).
    destruct chain; [done|]. exfalso. discriminate Hlow.
    apply list_elem_of_In, list_elem_of_lookup. exists (Z.to_nat i).
    by rewrite lookup_take_lt by lia.
Qed.
End check.

Definition id_hash (key : Z) : Z := key.

(** Two keys in one bucket of four, being moved to eight buckets. *)
Definition moving_dict : dict Z Z :=
  mkDict (mkHt [[]; [(1, 10); (5, 50)]; []; []] 4 3 2)
         (mkHt (replicate 8 []) 8 7 0) 1 0.

Lemma moving_dict_ok : dict_ok id_hash moving_dict.
Proof. apply dict_check_sound. reflexivity. Qed.

Lemma moving_dict_small : small moving_dict.
Proof. vm_compute. done. Qed.

Lemma dictAdd_refines_witness :
  exists d' st, dictAdd id_hash true 0 moving_dict 9 90 = Some (d', st) /\ dict_ok id_hash d' /\
    match to_map moving_dict !! 9 with
    | None => st = DICT_OK /\ to_map d' = <[9 := 90]> (to_map moving_dict)
    | Some _ => st = DICT_ERR /\ to_map d' = to_map moving_dict
    end.
Proof.
  exact (dictAdd_refines id_hash true 0 moving_dict 9 90 moving_dict_ok moving_dict_small).
Defined.

Lemma dictFetchValue_refines_witness :
  exists d', dictFetchValue id_hash moving_dict 5 = Some (d', to_map moving_dict !! 5) /\
    dict_ok id_hash d' /\ to_map d' = to_map moving_dict.
Proof. exact (dictFetchValue_refines id_hash moving_dict 5 moving_dict_ok). Defined.

Lemma dictReplace_refines_witness :
  exists d', dictReplace id_hash true 0 moving_dict 5 51
      = Some (d', bool_decide (to_map moving_dict !! 5 = None)) /\
    dict_ok id_hash d' /\ to_map d' = <[5 := 51]> (to_map moving_dict).
Proof.
  exact (dictReplace_refines id_hash true 0 moving_dict 5 51 moving_dict_ok moving_dict_small).
Defined.

Lemma dictGenericDelete_refines_witness :
  exists d' st freed, dictGenericDelete id_hash moving_dict 5 false = Some (d', st, freed) /\
    dict_ok id_hash d' /\ to_map d' = delete 5 (to_map moving_dict) /\
    match to_map moving_dict !! 5 with
    | None => st = DICT_ERR /\ freed = None
    | Some v => st = DICT_OK /\ freed = Some (5, v)
    end.
Proof. exact (dictGenericDelete_refines id_hash moving_dict 5 false moving_dict_ok). Defined.

Lemma dictRehash_terminates_witness :
  exists d' more, dictRehash id_hash moving_dict 5 = Some (d', more) /\
    dict_ok id_hash d' /\ to_map d' = to_map moving_dict /\ dictIsRehashing d' = more /\
    (size (ht0 moving_dict) < Z.of_nat 5 ->
     more = false /\ size (ht0 d') = size (ht1 moving_dict)).
Proof. exact (dictRehash_terminates id_hash moving_dict 5 moving_dict_ok eq_refl). Defined.
