(* ===== verification/DictIter.v ===== *)
(** * Iterators of dictionaries (src/redis-2.8.19/src/dict.c)

    An iterator walks over the buckets of the first table, then, while the
    dictionary is being rehashed, over those of the second one. A pointer to an
    entry is the rest of its chain, the null pointer the empty one. The dictionary is
    not modified between two calls: what a safe iterator changes is the count that
    keeps [_dictRehashStep] away. The fingerprint only detects misuse and is not
    modelled. *)
From S2P Require Import Prelude Dict.
Open Scope Z_scope.

Section iterator.
Context {K V : Type}.
Implicit Types (d : dict K V).

Record dictIterator := mkIter {
  it_table : bool;
  it_index : Z;
  it_safe : bool;
  it_entry : list (K * V);
  it_nextEntry : list (K * V)
}.

Definition dictGetIterator : dictIterator := mkIter false (-1) false [] [].
Definition dictGetSafeIterator : dictIterator := mkIter false (-1) true [] [].

(** The entry, or the null pointer, the iterator and the dictionary. *)
Fixpoint next_loop (fuel : nat) d (iter : dictIterator) : option (option (K * V) * dictIterator * dict K V) :=
  match fuel with
  | O => None
  | S fuel =>
      match it_entry iter with
      | [] =>
          let d := if (it_index iter =? -1) && negb (it_table iter) && it_safe iter
                   then mkDict (ht0 d) (ht1 d) (rehashidx d) (iterators d + 1) else d in
          let index := it_index iter + 1 in
          let past := index >=? size (get_ht d (it_table iter)) in
          if past && negb (dictIsRehashing d && negb (it_table iter)) then
            Some (None, mkIter (it_table iter) index (it_safe iter) [] (it_nextEntry iter), d)
          else
            let t := past || it_table iter in
            let index := if past then 0 else index in
            entry ← rd (table (get_ht d t)) index;
            match entry with
            | [] => next_loop fuel d (mkIter t index (it_safe iter) [] (it_nextEntry iter))
            | e :: next => Some (Some e, mkIter t index (it_safe iter) entry next, d)
            end
      | _ :: _ =>
          match it_nextEntry iter with
          | [] => next_loop fuel d (mkIter (it_table iter) (it_index iter) (it_safe iter) [] [])
          | e :: next => Some (Some e, mkIter (it_table iter) (it_index iter) (it_safe iter) (e :: next) next, d)
          end
      end
  end.

(** Every turn that does not end passes a bucket, or leaves one. *)
Definition dictNext d (iter : dictIterator) : option (option (K * V) * dictIterator * dict K V) :=
  next_loop (length (table (ht0 d)) + length (table (ht1 d)) + 3) d iter.

Definition dictReleaseIterator d (iter : dictIterator) : dict K V :=
  if negb ((it_index iter =? -1) && negb (it_table iter)) && it_safe iter
  then mkDict (ht0 d) (ht1 d) (rehashidx d) (iterators d - 1) else d.

(** [while((de = dictNext(di)) != NULL) ...]: the entries that the body is given. *)
Fixpoint drain (fuel : nat) d (iter : dictIterator) : option (list (K * V) * dictIterator * dict K V) :=
  match fuel with
  | O => None
  | S fuel =>
      '(e, iter, d) ← dictNext d iter;
      match e with
      | None => Some ([], iter, d)
      | Some e => '(es, iter, d) ← drain fuel d iter; Some (e :: es, iter, d)
      end
  end.

Definition dict_iterate (safe : bool) d : option (list (K * V) * dict K V) :=
  let iter := if safe then dictGetSafeIterator else dictGetIterator in
  '(es, iter, d) ← drain (S (length (concat (table (ht0 d)) ++ concat (table (ht1 d))))) d iter;
  Some (es, dictReleaseIterator d iter).
End iterator.

Arguments dictIterator : clear implicits.

(** ** What is left to be visited *)

Section walk.
Context {K V : Type} {K_eq_dec : EqDecision K} (hashFunction : K -> Z).
Implicit Types (d : dict K V).

(** The tables are what they say, and the second one is there when it is used. *)
Definition tables_ok d : Prop :=
  size (ht0 d) = zlen (table (ht0 d)) /\ size (ht1 d) = zlen (table (ht1 d)) /\
  (dictIsRehashing d = true -> 0 < zlen (table (ht1 d))) /\
  (dictIsRehashing d = false -> table (ht1 d) = []).

Lemma dict_ok_tables d : dict_ok hashFunction d -> tables_ok d.
Proof.
  intros Hok. destruct (rehashing_spec hashFunction d (ok_phase _ _ Hok)) as [(Hre & _ & H1 & H0)|(Hre & _ & H0 & H1 & _)].
  - split_and!; [|by rewrite H1|congruence|by rewrite H1].
    destruct H0 as [->|H0]; [done|apply (wf_len _ _ H0)].
  - split_and!; [apply (wf_len _ _ H0)|apply (wf_len _ _ H1)| |congruence]. intros _.
    rewrite <- (wf_len _ _ H1). destruct (wf_pow _ _ H1) as (k & Hk & ->). apply Z.pow_pos_nonneg; lia.
Qed.

(** The entries from bucket [i] of a table on. *)
Definition from (t : list (list (K * V))) (i : Z) : list (K * V) := concat (drop (Z.to_nat i) t).

Definition rest d (iter : dictIterator K V) : list (K * V) :=
  match it_entry iter with [] => [] | _ => it_nextEntry iter end ++
  (if it_table iter then from (table (ht1 d)) (it_index iter + 1)
   else from (table (ht0 d)) (it_index iter + 1) ++ concat (table (ht1 d))).

Definition iter_ok d (iter : dictIterator K V) : Prop :=
  -1 <= it_index iter < zlen (table (get_ht d (it_table iter))) /\
  (it_table iter = true -> dictIsRehashing d = true /\ 0 <= it_index iter).

(** The number of turns before an entry is found. *)
Definition turns d (iter : dictIterator K V) : Z :=
  (if it_table iter then zlen (table (ht1 d)) - it_index iter
   else zlen (table (ht0 d)) + zlen (table (ht1 d)) - it_index iter) +
  (match it_entry iter with [] => 0 | _ => 1 end).

Lemma from_here t i (b : list (K * V)) : rd t i = Some b -> from t i = b ++ from t (i + 1).
Proof.
  unfold rd, from. destruct (Z.leb_spec 0 i); [|done]. intros Hi. rewrite (drop_S _ _ _ Hi).
  by replace (Z.to_nat (i + 1)) with (S (Z.to_nat i)) by lia.
Qed.

Lemma from_past t i : zlen t <= i -> from t i = [].
Proof. intros. unfold from. rewrite drop_ge; [done|]. unfold zlen in *. lia. Qed.

(** What a call returns, and the iterator and the dictionary after it. *)
Definition next_ok d (iter : dictIterator K V) (r : option (K * V) * dictIterator K V * dict K V) : Prop :=
  let '(e, iter', d') := r in
  d' = mkDict (ht0 d) (ht1 d) (rehashidx d)
         (iterators d + b2z ((it_index iter =? -1) && negb (it_table iter) && it_safe iter)) /\
  it_safe iter' = it_safe iter /\ 0 <= it_index iter' /\
  match e with
  | Some e => rest d iter = e :: rest d' iter' /\ iter_ok d' iter'
  | None => rest d iter = []
  end.

Lemma next_ok_step d d1 iter iter1 r :
  d1 = mkDict (ht0 d) (ht1 d) (rehashidx d)
         (iterators d + b2z ((it_index iter =? -1) && negb (it_table iter) && it_safe iter)) ->
  0 <= it_index iter1 -> it_safe iter1 = it_safe iter -> rest d iter = rest d1 iter1 ->
  next_ok d1 iter1 r -> next_ok d iter r.
Proof.
  intros -> Hi Hs Hr. destruct r as [[e iter'] d']. intros (-> & Hs' & Hi' & He). cbn [ht0 ht1 rehashidx iterators] in *.
  assert ((it_index iter1 =? -1) = false) as -> by by apply Z.eqb_neq; lia. cbn [andb b2z]. rewrite Z.add_0_r.
  split; [done|]. split; [congruence|]. split; [done|].
  destruct e as [e|]; rewrite Hr; [destruct He as [He ?]; split; [|done]|]; by rewrite He.
Qed.

(** Turning to the bucket [j] of the table [t]. *)
Lemma visit_ok fuel d d1 iter t j :
  d1 = mkDict (ht0 d) (ht1 d) (rehashidx d)
         (iterators d + b2z ((it_index iter =? -1) && negb (it_table iter) && it_safe iter)) ->
  0 <= j < zlen (table (get_ht d t)) -> (t = true -> dictIsRehashing d = true) ->
  rest d iter = (if t then from (table (ht1 d)) j else from (table (ht0 d)) j ++ concat (table (ht1 d))) ->
  (forall it, it = mkIter t j (it_safe iter) [] (it_nextEntry iter) ->
    exists r, next_loop fuel d1 it = Some r /\ next_ok d1 it r) ->
  exists r, (entry ← rd (table (get_ht d1 t)) j;
             match entry with
             | [] => next_loop fuel d1 (mkIter t j (it_safe iter) [] (it_nextEntry iter))
             | e :: next => Some (Some e, mkIter t j (it_safe iter) entry next, d1)
             end) = Some r /\ next_ok d iter r.
Proof.
  intros Hd1 Hj Ht Hr IH. destruct (rd_is_Some (table (get_ht d t)) j Hj) as [b Hb].
  assert (table (get_ht d1 t) = table (get_ht d t)) as -> by (rewrite Hd1; by destruct t).
  rewrite Hb. cbn [mbind option_bind].
  assert (rest d iter = b ++ rest d1 (mkIter t j (it_safe iter) [] [])) as Hb'.
  { rewrite Hr, Hd1. unfold rest. cbn [it_entry it_table it_index ht0 ht1].
    destruct t; cbn [get_ht] in Hb; rewrite (from_here _ _ _ Hb); [done|by rewrite <- app_assoc]. }
  destruct b as [|e next].
  - destruct (IH _ eq_refl) as (r & -> & Hok). exists r. split; [done|].
    by apply (next_ok_step d d1 iter (mkIter t j (it_safe iter) [] (it_nextEntry iter))); try done; cbn; try lia.
  - eexists. split; [reflexivity|]. cbn [next_ok it_safe it_index]. split; [done|]. split; [done|]. split; [lia|].
    split; [exact Hb'|]. split; cbn [it_table it_index].
    + rewrite Hd1. destruct t; cbn [get_ht ht0 ht1] in *; lia.
    + intros Ht'. rewrite Hd1. split; [by apply Ht|lia].
Qed.

Lemma next_loop_ok fuel : forall d iter, tables_ok d -> iter_ok d iter -> (it_entry iter <> [] -> 0 <= it_index iter) ->
  turns d iter <= Z.of_nat fuel -> exists r, next_loop fuel d iter = Some r /\ next_ok d iter r.
Proof.
  induction fuel as [|fuel IH]; intros d iter Ht [Hi Hi1] He Hf.
  { exfalso. unfold turns, get_ht in *. pose proof (zlen_nonneg (table (ht1 d))).
    destruct (it_table iter), (it_entry iter); lia. }
  pose proof Ht as (Hs0 & Hs1 & Hre & Hnr). cbn [next_loop]. destruct (it_entry iter) as [|e0 en] eqn:Hen.
  - assert (exists d1, d1 = mkDict (ht0 d) (ht1 d) (rehashidx d)
         (iterators d + b2z ((it_index iter =? -1) && negb (it_table iter) && it_safe iter)) /\
       (if (it_index iter =? -1) && negb (it_table iter) && it_safe iter
        then mkDict (ht0 d) (ht1 d) (rehashidx d) (iterators d + 1) else d) = d1) as (d1 & Hd1 & ->).
    { eexists. split; [reflexivity|]. destruct ((it_index iter =? -1) && negb (it_table iter) && it_safe iter); [done|].
      cbn [b2z]. rewrite Z.add_0_r. by destruct d. }
    assert (size (get_ht d1 (it_table iter)) = zlen (table (get_ht d (it_table iter)))) as ->.
    { rewrite Hd1. by destruct (it_table iter). }
    assert (dictIsRehashing d1 = dictIsRehashing d) as -> by by rewrite Hd1.
    assert (forall t j, 0 <= j < zlen (table (get_ht d t)) -> (t = true -> dictIsRehashing d = true) ->
      zlen (if t then table (ht1 d) else table (ht0 d) ++ table (ht1 d)) - j <= Z.of_nat fuel ->
      forall it, it = mkIter t j (it_safe iter) [] (it_nextEntry iter) ->
      exists r, next_loop fuel d1 it = Some r /\ next_ok d1 it r) as Hrec.
    { intros t j Hj Hjt Hm it ->. apply IH.
      - by rewrite Hd1.
      - split; cbn [it_table it_index]; [rewrite Hd1; destruct t; cbn [get_ht ht0 ht1] in *; lia|].
        intros Hjt'. rewrite Hd1. split; [by apply Hjt|lia].
      - done.
      - unfold turns. cbn [it_table it_index it_entry]. rewrite Hd1. cbn [ht0 ht1]. rewrite ?zlen_app in Hm.
        destruct t; rewrite ?zlen_app in Hm; lia. }
    unfold turns in Hf. rewrite Hen in Hf. pose proof (zlen_nonneg (table (ht1 d))).
    destruct (Z.geb_spec (it_index iter + 1) (zlen (table (get_ht d (it_table iter))))) as [Hpast|Hpast]; cbn [andb orb].
    + destruct (dictIsRehashing d && negb (it_table iter)) eqn:Hsw; cbn [negb].
      * apply andb_true_iff in Hsw as [Hr Ht0]. apply negb_true_iff in Ht0. rewrite Ht0 in Hpast, Hf, Hi. cbn [get_ht] in *.
        apply visit_ok; [done|specialize (Hre Hr); cbn [get_ht]; lia|done| |].
        -- unfold rest. rewrite Hen, Ht0. cbn [app]. rewrite from_past by lia. done.
        -- apply Hrec; [specialize (Hre Hr); cbn [get_ht]; lia|done|lia].
      * eexists. split; [reflexivity|]. cbn [next_ok it_safe it_index].
        split; [done|]. split; [done|]. split; [lia|]. unfold rest. rewrite Hen. cbn [app].
        destruct (it_table iter) eqn:Htb in Hpast, Hsw |- *; cbn [get_ht negb] in Hpast, Hsw; [apply from_past; lia|].
        rewrite from_past by lia. rewrite andb_true_r in Hsw. by rewrite (Hnr Hsw).
    + apply visit_ok; [done|lia|by intros [? _]%Hi1| |].
      * unfold rest. rewrite Hen. done.
      * apply Hrec; [lia|by intros [? _]%Hi1|]. destruct (it_table iter) eqn:Htb in Hf |- *; rewrite ?zlen_app; lia.
  - specialize (He ltac:(done)). destruct (it_nextEntry iter) as [|e next] eqn:Hne.
    + destruct (IH d (mkIter (it_table iter) (it_index iter) (it_safe iter) [] [])) as (r & -> & Hok); try done.
      { unfold turns in *. cbn [it_table it_index it_entry]. rewrite Hen in Hf. lia. }
      exists r. split; [done|].
      apply (next_ok_step d d iter (mkIter (it_table iter) (it_index iter) (it_safe iter) [] [])); try done.
      * assert ((it_index iter =? -1) = false) as -> by by apply Z.eqb_neq; lia. cbn [andb b2z]. rewrite Z.add_0_r. by destruct d.
      * unfold rest. cbn [it_entry it_table it_index]. by rewrite Hen, Hne.
    + eexists. split; [reflexivity|]. cbn [next_ok it_safe it_index].
      assert ((it_index iter =? -1) = false) as -> by by apply Z.eqb_neq; lia. cbn [andb b2z]. rewrite Z.add_0_r.
      split; [by destruct d|]. split; [done|]. split; [done|]. split.
      * unfold rest. cbn [it_entry it_nextEntry it_table it_index]. by rewrite Hen, Hne.
      * done.
Qed.

(** The iterator stands before the entries [es]. *)
Definition visiting d (iter : dictIterator K V) (es : list (K * V)) : Prop :=
  tables_ok d /\ iter_ok d iter /\ (it_entry iter <> [] -> 0 <= it_index iter) /\ rest d iter = es.

(** The dictionary once a safe iterator has started to move. *)
Definition guarded d (iter : dictIterator K V) : dict K V :=
  mkDict (ht0 d) (ht1 d) (rehashidx d)
    (iterators d + b2z ((it_index iter =? -1) && negb (it_table iter) && it_safe iter)).

Lemma dictNext_ok d iter es : visiting d iter es ->
  exists iter', dictNext d iter = Some (head es, iter', guarded d iter) /\
    it_safe iter' = it_safe iter /\ 0 <= it_index iter' /\ (es = [] \/ visiting (guarded d iter) iter' (tail es)).
Proof.
  intros (Ht & Hi & He & <-). unfold dictNext.
  destruct (next_loop_ok (length (table (ht0 d)) + length (table (ht1 d)) + 3) d iter) as ([[e iter1] d1] & -> & Hok);
    [done..| |].
  { destruct Hi as [Hi _]. unfold turns, zlen in *. destruct (it_table iter), (it_entry iter); lia. }
  cbn [next_ok] in Hok. destruct Hok as (-> & Hs & Hi1 & Hr). exists iter1. destruct e as [e|].
  - destruct Hr as [-> Hit]. split; [done|]. split; [done|]. split; [done|]. right. by split_and!.
  - rewrite Hr. split; [done|]. split; [done|]. split; [done|]. by left.
Qed.

Lemma visiting_start safe d : dict_ok hashFunction d ->
  visiting d (if safe : bool then dictGetSafeIterator else dictGetIterator) (entries d).
Proof.
  intros Hok. split; [by apply dict_ok_tables|]. pose proof (zlen_nonneg (table (ht0 d))).
  split; [split|split]; destruct safe; cbn; try done; lia.
Qed.

Lemma guarded_moved d iter : 0 <= it_index iter -> guarded d iter = d.
Proof.
  intros Hi. unfold guarded. assert ((it_index iter =? -1) = false) as -> by by apply Z.eqb_neq; lia.
  destruct d. cbn. by rewrite Z.add_0_r.
Qed.

Lemma drain_ok fuel : forall d iter es, visiting d iter es -> (length es < fuel)%nat ->
  exists iter', drain fuel d iter = Some (es, iter', guarded d iter) /\
    it_safe iter' = it_safe iter /\ 0 <= it_index iter'.
Proof.
  induction fuel as [|fuel IH]; intros d iter es Hv Hf; [lia|]. cbn [drain].
  destruct (dictNext_ok d iter es Hv) as (iter1 & -> & Hs & Hi1 & Hr). cbn [mbind option_bind].
  destruct es as [|e es]; cbn [head]; [by exists iter1|]. destruct Hr as [Hr|Hr]; [done|]. cbn [length tail] in *.
  destruct (IH _ iter1 es Hr ltac:(lia)) as (iter' & -> & Hs' & Hi'). cbn [mbind option_bind]. exists iter'.
  split; [|split; [congruence|done]]. unfold guarded. cbn [ht0 ht1 rehashidx iterators].
  assert ((it_index iter1 =? -1) = false) as -> by by apply Z.eqb_neq; lia. cbn [andb b2z]. by rewrite Z.add_0_r.
Qed.

(** An iteration sees every entry exactly once, and leaves the dictionary as it was. *)
Lemma dict_iterate_ok safe d : dict_ok hashFunction d -> dict_iterate safe d = Some (entries d, d).
Proof.
  intros Hok. pose proof (visiting_start safe d Hok) as Hv. unfold dict_iterate.
  destruct (drain_ok (S (length (entries d))) d _ (entries d) Hv) as (iter' & Hrun & Hs & Hi); [lia|].
  unfold entries in Hrun at 1. cbv zeta. rewrite Hrun. cbn [mbind option_bind]. do 2 f_equal.
  unfold dictReleaseIterator, guarded. assert ((it_index iter' =? -1) = false) as -> by by apply Z.eqb_neq; lia.
  rewrite Hs. destruct d as [a b c n], safe; cbn; f_equal; lia.
Qed.
End walk.

(** Walking over a well-formed dictionary with [dictNext] returns every entry of its
    two tables exactly once, ends, and leaves the dictionary, its count of
    iterators included, as it was. *)
Theorem dict_iterate_entries {K V} `{EqDecision K} (hashFunction : K -> Z) safe (d : dict K V) :
  dict_ok hashFunction d -> dict_iterate safe d = Some (entries d, d) /\ NoDup (entries d).*1.
Proof. intros Hok. split; [by apply (dict_iterate_ok hashFunction)|apply Hok]. Qed.

Lemma dict_iterate_entries_witness :
  entries moving_dict <> [] /\ dict_iterate true moving_dict = Some (entries moving_dict, moving_dict) /\
  NoDup (entries moving_dict).*1.
Proof.
  split; [done|]. apply (dict_iterate_entries id_hash true moving_dict moving_dict_ok).
Defined.
