(* ===== verification/DictBound.v ===== *)
(** * Dictionaries within their bounds (src/redis-2.8.19/src/dict.c)

    The sizes of the tables follow the number of entries: the condition under which
    the operations do not overflow an [int] is kept by all of them, so that a client
    only has to bound the number of its keys. *)
From S2P Require Import Prelude Dict.
Open Scope Z_scope.

Section cap.
Context {K V : Type} {K_eq_dec : EqDecision K} {K_countable : Countable K}.
Context (hashFunction : K -> Z) (dict_can_resize : bool) (uninit : V).
Implicit Types (d : dict K V) (m : gmap K V).

Definition cap d : Z := Z.max (Dict.size (ht0 d)) (Dict.size (ht1 d)).

Lemma ok_cap d : dict_ok hashFunction d -> 0 <= Dict.size (ht0 d) /\ 0 <= Dict.size (ht1 d).
Proof.
  intros Hok. destruct (rehashing_spec hashFunction d (ok_phase _ _ Hok)) as [(_ & _ & H1 & H0)|(_ & _ & H0 & H1 & _)].
  - rewrite H1. split; [|done]. destruct H0 as [->|H0]; [done|]. rewrite (wf_len _ _ H0). apply zlen_nonneg.
  - rewrite (wf_len _ _ H0), (wf_len _ _ H1). split; apply zlen_nonneg.
Qed.

Lemma map_size d : dict_ok hashFunction d -> Z.of_nat (base.size (to_map d)) = dictSize d.
Proof.
  intros Hok. rewrite (entries_size hashFunction d Hok). unfold to_map, zlen. f_equal.
  apply map_size_list_to_map, Hok.
Qed.

Lemma step_cap d d' : dict_ok hashFunction d ->
  (if dictIsRehashing d then _dictRehashStep hashFunction d else Some d) = Some d' -> cap d' <= cap d.
Proof.
  intros Hok Hrun. destruct (rehash_step_spec hashFunction d Hok) as (d1 & Hrun1 & _ & _ & _ & H0 & H1).
  rewrite Hrun in Hrun1. injection Hrun1 as <-. unfold cap. lia.
Qed.

Lemma expand_cap d sz d' st : 0 <= sz <= 2 ^ 62 -> dictExpand d sz = Some (d', st) ->
  cap d' <= Z.max (cap d) (Z.max 4 (2 * sz)).
Proof.
  intros Hsz. unfold dictExpand. destruct (next_power_spec sz Hsz) as (k & Hk & -> & Hle & Hmin).
  cbn [mbind option_bind].
  assert (2 ^ k <= Z.max 4 (2 * sz)).
  { destruct Hmin as [->|Hmin]; [lia|]. replace k with (k - 1 + 1) by lia. rewrite Z.pow_add_r by lia. lia. }
  destruct (_ || _); [intros [= <- _]; unfold cap; lia|].
  case_bool_decide; intros [= <- _]; unfold cap; cbn; lia.
Qed.

Lemma needed_cap d d' st : 0 <= used (ht0 d) <= 2 ^ 60 -> _dictExpandIfNeeded dict_can_resize d = Some (d', st) ->
  cap d' <= Z.max (cap d) (Z.max 8 (4 * used (ht0 d))).
Proof.
  intros Hu. unfold _dictExpandIfNeeded. destruct (dictIsRehashing d); [intros [= <- _]; lia|].
  destruct (Dict.size (ht0 d) =? 0).
  { intros H%expand_cap; [unfold DICT_HT_INITIAL_SIZE in *; lia|unfold DICT_HT_INITIAL_SIZE; lia]. }
  destruct (_ && _); [|intros [= <- _]; lia]. intros H%expand_cap; lia.
Qed.

Lemma set_cap d t h : Dict.size h = Dict.size (get_ht d t) -> cap (set_ht d t h) = cap d.
Proof. destruct t; unfold cap; cbn; by intros ->. Qed.

Lemma setval_cap d r v d' : dictSetVal d r v = Some d' -> cap d' = cap d.
Proof.
  destruct r as [[t idx] pos]. unfold dictSetVal.
  intros (chain & _ & (e & _ & (tb & _ & [= <-])%bind_Some)%bind_Some)%bind_Some. by apply set_cap.
Qed.

Lemma keyindex_cap d key d' i : 0 <= used (ht0 d) <= 2 ^ 60 ->
  _dictKeyIndex hashFunction dict_can_resize d key = Some (d', i) -> cap d' <= Z.max (cap d) (Z.max 8 (4 * used (ht0 d))).
Proof.
  intros Hu. unfold _dictKeyIndex. intros ([d1 st] & Hn%needed_cap & H)%bind_Some; [|done].
  destruct st; [|by injection H as <- _]. apply bind_Some in H as (he & _ & H).
  destruct (chain_find key he); [by injection H as <- _|]. destruct (negb _); [by injection H as <- _|].
  apply bind_Some in H as (he' & _ & H). by destruct (chain_find key he'); injection H as <- _.
Qed.

Lemma used_size d : dict_ok hashFunction d -> 0 <= used (ht0 d) <= dictSize d /\ 0 <= used (ht1 d).
Proof.
  intros Hok. unfold dictSize.
  destruct (rehashing_spec hashFunction d (ok_phase _ _ Hok)) as [(_ & _ & H1 & H0)|(_ & _ & H0 & H1 & _)].
  - rewrite H1. destruct H0 as [->|H0]; [done|]. rewrite (wf_used _ _ H0). pose proof (zlen_nonneg (concat (table (ht0 d)))). cbn. lia.
  - rewrite (wf_used _ _ H0), (wf_used _ _ H1).
    pose proof (zlen_nonneg (concat (table (ht0 d)))). pose proof (zlen_nonneg (concat (table (ht1 d)))). lia.
Qed.

Lemma addraw_cap d key d' r : dict_ok hashFunction d -> dictSize d <= 2 ^ 60 ->
  dictAddRaw hashFunction dict_can_resize uninit d key = Some (d', r) ->
  cap d' <= Z.max (cap d) (Z.max 8 (4 * dictSize d)).
Proof.
  intros Hok Hs. unfold dictAddRaw. intros (d1 & Hstep & H)%bind_Some.
  pose proof (step_cap d d1 Hok Hstep). destruct (rehash_step_spec hashFunction d Hok) as (d1' & Hrun1 & Hsame & _).
  rewrite Hstep in Hrun1. injection Hrun1 as <-. pose proof (used_size d1 (proj1 Hsame)) as [Hu _].
  assert (dictSize d1 = dictSize d) as Hsz.
  { rewrite (entries_size _ _ (proj1 Hsame)), (entries_size _ _ Hok). unfold zlen. by rewrite (proj2 Hsame). }
  apply bind_Some in H as ([d2 i] & Hk%keyindex_cap & H); [|lia]. destruct (i =? -1); [injection H as <- _; lia|].
  cbv zeta in H. apply bind_Some in H as (chain & _ & H). apply bind_Some in H as (tb & _ & H). injection H as <- _.
  rewrite set_cap by done. lia.
Qed.

Lemma add_cap d key v d' st : dict_ok hashFunction d -> dictSize d <= 2 ^ 60 ->
  dictAdd hashFunction dict_can_resize uninit d key v = Some (d', st) ->
  cap d' <= Z.max (cap d) (Z.max 8 (4 * dictSize d)).
Proof.
  intros Hok Hs. unfold dictAdd. intros ([d1 r] & H1%addraw_cap & H)%bind_Some; [|done..].
  destruct r; [|by injection H as <- _]. apply bind_Some in H as (d2 & H2%setval_cap & H). injection H as <- _. lia.
Qed.

Lemma find_cap d key d' r : dict_ok hashFunction d -> dictFind hashFunction d key = Some (d', r) -> cap d' <= cap d.
Proof.
  intros Hok. unfold dictFind. destruct (Dict.size (ht0 d) =? 0); [by intros [= <- _]|].
  intros (d1 & Hstep%step_cap & H)%bind_Some; [|done]. apply bind_Some in H as (he & _ & H).
  destruct (chain_find key he); [by injection H as <- _|]. destruct (negb _); [by injection H as <- _|].
  apply bind_Some in H as (he' & _ & H). by destruct (chain_find key he'); injection H as <- _.
Qed.

Lemma delete_cap d key nofree d' st e : dict_ok hashFunction d ->
  dictGenericDelete hashFunction d key nofree = Some (d', st, e) -> cap d' <= cap d.
Proof.
  intros Hok. unfold dictGenericDelete. destruct (Dict.size (ht0 d) =? 0); [by intros [= <- _]|].
  intros (d1 & Hstep%step_cap & H)%bind_Some; [|done]. apply bind_Some in H as (he & _ & H).
  assert (forall t idx chain pos, unlink d1 t idx chain pos nofree = Some (d', st, e) -> cap d' <= cap d) as Hun.
  { intros t idx chain pos. unfold unlink. intros (x & _ & (tb & _ & [= <- _])%bind_Some)%bind_Some. by rewrite set_cap. }
  destruct (chain_find key he); [by eapply Hun|]. destruct (negb _); [by injection H as <- _|].
  apply bind_Some in H as (he' & _ & H). destruct (chain_find key he'); [by eapply Hun|by injection H as <- _].
Qed.

(** ** The count of iterators

    No operation but the iteration itself changes it. *)

Lemma rehash_iters n : forall d d' b, rehash_loop hashFunction n d = Some (d', b) -> iterators d' = iterators d.
Proof.
  induction n as [|n IH]; intros d d' b; cbn [rehash_loop]; [by intros [= <- _]|]. destruct (used (ht0 d) =? 0); [by intros [= <- _]|].
  intros (idx & _ & (de & _ & ([h0 h1] & _ & (t0 & _ & H%IH)%bind_Some)%bind_Some)%bind_Some)%bind_Some. exact H.
Qed.

Lemma step_iters d d' : (if dictIsRehashing d then _dictRehashStep hashFunction d else Some d) = Some d' -> iterators d' = iterators d.
Proof.
  destruct (dictIsRehashing d); [|by intros [= <-]]. unfold _dictRehashStep, dictRehash. destruct (iterators d =? 0); [|by intros [= <-]].
  destruct (negb _); [by intros [= <-]|]. intros ([d1 b] & H%rehash_iters & ->)%fmap_Some. exact H.
Qed.

Lemma expand_iters d sz d' st : dictExpand d sz = Some (d', st) -> iterators d' = iterators d.
Proof.
  unfold dictExpand. intros (n & _ & H)%bind_Some. destruct (_ || _); [by injection H as <- _|].
  by destruct (bool_decide _); injection H as <- _.
Qed.

Lemma set_iters d t h : iterators (set_ht d t h) = iterators d.
Proof. by destruct t. Qed.

Lemma setval_iters d r v d' : dictSetVal d r v = Some d' -> iterators d' = iterators d.
Proof.
  destruct r as [[t idx] pos]. unfold dictSetVal.
  intros (chain & _ & (e & _ & (tb & _ & [= <-])%bind_Some)%bind_Some)%bind_Some. apply set_iters.
Qed.

Lemma keyindex_iters d key d' i : _dictKeyIndex hashFunction dict_can_resize d key = Some (d', i) -> iterators d' = iterators d.
Proof.
  unfold _dictKeyIndex. intros ([d1 st] & Hn & H)%bind_Some. assert (iterators d1 = iterators d) as <-.
  { revert Hn. unfold _dictExpandIfNeeded. destruct (dictIsRehashing d); [by intros [= <- _]|]. destruct (_ =? 0); [by intros H1%expand_iters|].
    destruct (_ && _); [by intros H1%expand_iters|by intros [= <- _]]. }
  destruct st; [|by injection H as <- _]. apply bind_Some in H as (he & _ & H).
  destruct (chain_find key he); [by injection H as <- _|]. destruct (negb _); [by injection H as <- _|].
  apply bind_Some in H as (he' & _ & H). by destruct (chain_find key he'); injection H as <- _.
Qed.

Lemma add_iters d key v d' st : dictAdd hashFunction dict_can_resize uninit d key v = Some (d', st) -> iterators d' = iterators d.
Proof.
  unfold dictAdd, dictAddRaw. intros ([d1 r] & (d2 & <-%step_iters & ([d3 i] & <-%keyindex_iters & H1)%bind_Some)%bind_Some & H)%bind_Some.
  assert (iterators d1 = iterators d3) as <-.
  { destruct (i =? -1); [by injection H1 as <- _|]. cbv zeta in H1. apply bind_Some in H1 as (chain & _ & (tb & _ & [= <- _])%bind_Some).
    apply set_iters. }
  destruct r; [|by injection H as <- _]. apply bind_Some in H as (d4 & <-%setval_iters & [= <- _]). done.
Qed.

Lemma find_iters d key d' r : dictFind hashFunction d key = Some (d', r) -> iterators d' = iterators d.
Proof.
  unfold dictFind. destruct (Dict.size (ht0 d) =? 0); [by intros [= <- _]|].
  intros (d1 & <-%step_iters & H)%bind_Some. apply bind_Some in H as (he & _ & H).
  destruct (chain_find key he); [by injection H as <- _|]. destruct (negb _); [by injection H as <- _|].
  apply bind_Some in H as (he' & _ & H). by destruct (chain_find key he'); injection H as <- _.
Qed.

(** ** The invariant and the operations *)

Definition dict_inv d : Prop := dict_ok hashFunction d /\ cap d <= 2 ^ 31.

Definition few m : Prop := Z.of_nat (base.size m) <= 2 ^ 29.

Lemma dict_inv_small d : dict_inv d -> few (to_map d) -> small d.
Proof. intros [Hok Hc] Hf. unfold few in Hf. rewrite map_size in Hf by done. unfold small, cap in *. lia. Qed.

Lemma create_inv : dict_inv dictCreate /\ to_map (dictCreate : dict K V) = ∅.
Proof. split; [|done]. split; [|done]. split; [by left; auto|constructor]. Qed.

Lemma dictAdd_inv d key v : dict_inv d -> few (to_map d) ->
  exists d' st, dictAdd hashFunction dict_can_resize uninit d key v = Some (d', st) /\ dict_inv d' /\
    match to_map d !! key with
    | None => st = DICT_OK /\ to_map d' = <[key := v]> (to_map d)
    | Some _ => st = DICT_ERR /\ to_map d' = to_map d
    end.
Proof.
  intros Hi Hf. pose proof (dict_inv_small d Hi Hf) as Hs. destruct Hi as [Hok Hc].
  destruct (dictAdd_spec hashFunction dict_can_resize uninit d key v Hok Hs) as (d' & st & Hrun & Hok' & Hm).
  exists d', st. split; [done|]. split; [|done]. split; [done|]. unfold few in Hf. rewrite map_size in Hf by done.
  apply add_cap in Hrun; [lia|done|lia].
Qed.

Lemma dictFind_inv d key : dict_inv d ->
  exists d' r, dictFind hashFunction d key = Some (d', r) /\ dict_inv d' /\ to_map d' = to_map d /\
    (is_Some (to_map d !! key) <-> r <> None).
Proof.
  intros [Hok Hc]. destruct (dictFind_spec hashFunction d key Hok) as (d' & r & Hrun & Hok' & Hm & Hr).
  exists d', r. split; [done|]. apply find_cap in Hrun; [|done]. split; [split; [done|lia]|]. split; [done|].
  destruct r as [r|]; [destruct Hr as (v & -> & _); by split|rewrite Hr; split; [by intros []|done]].
Qed.

Lemma dictFetchValue_inv d key : dict_inv d ->
  exists d', dictFetchValue hashFunction d key = Some (d', to_map d !! key) /\ dict_inv d' /\ to_map d' = to_map d.
Proof.
  intros [Hok Hc]. unfold dictFetchValue. destruct (dictFind_spec hashFunction d key Hok) as (d' & r & Hrun & Hok' & Hm & Hr).
  rewrite Hrun. cbn [mbind option_bind]. apply find_cap in Hrun; [|done]. exists d'.
  assert (dict_inv d') by (split; [done|lia]). destruct r as [r|]; [|by rewrite Hr].
  destruct Hr as (v & -> & Href). by rewrite (dictGetVal_ref _ _ _ _ _ Href).
Qed.

Lemma dictReplace_inv d key v : dict_inv d -> few (to_map d) ->
  exists d', dictReplace hashFunction dict_can_resize uninit d key v = Some (d', bool_decide (to_map d !! key = None)) /\
    dict_inv d' /\ to_map d' = <[key := v]> (to_map d).
Proof.
  intros Hi Hf. unfold dictReplace. destruct (dictAdd_inv d key v Hi Hf) as (d1 & st & -> & Hi1 & Hst).
  cbn [mbind option_bind]. destruct (to_map d !! key) as [v0|] eqn:Hk; destruct Hst as [-> Hm1]; [|by exists d1].
  destruct Hi1 as [Hok1 Hc1]. destruct (dictFind_spec hashFunction d1 key Hok1) as (d2 & r & Hrun2 & Hok2 & Hm2 & Hr).
  rewrite Hrun2. cbn [mbind option_bind]. apply find_cap in Hrun2; [|done]. rewrite Hm1, Hk in Hr.
  destruct r as [r|]; [|done]. destruct Hr as (v' & _ & Href). cbn [mbind option_bind].
  destruct (dictSetVal_spec hashFunction d2 r key v' v Hok2 Href) as (d3 & Hrun3 & Hok3 & Hm3). rewrite Hrun3.
  apply setval_cap in Hrun3. cbn [mbind option_bind]. exists d3. split; [done|]. split; [split; [done|lia]|].
  by rewrite Hm3, Hm2, Hm1.
Qed.

(** [dictReplaceRaw], and the value written at the entry it returns. *)
Lemma dictReplaceRaw_inv d key v : dict_inv d -> few (to_map d) ->
  exists d1 r d2, dictReplaceRaw hashFunction dict_can_resize uninit d key = Some (d1, Some r) /\ dictSetVal d1 r v = Some d2 /\
    dict_inv d2 /\ to_map d2 = <[key := v]> (to_map d).
Proof.
  intros Hi Hf. unfold dictReplaceRaw. destruct Hi as [Hok Hc].
  destruct (dictFind_spec hashFunction d key Hok) as (d1 & r & Hrun & Hok1 & Hm1 & Hr). rewrite Hrun. cbn [mbind option_bind].
  apply find_cap in Hrun; [|done]. destruct r as [r|].
  - destruct Hr as (v' & _ & Href). destruct (dictSetVal_spec hashFunction d1 r key v' v Hok1 Href) as (d2 & Hset & Hok2 & Hm2).
    exists d1, r, d2. split; [done|]. split; [done|]. apply setval_cap in Hset. split; [split; [done|lia]|]. by rewrite Hm2, Hm1.
  - assert (dict_inv d1) as Hi1 by (split; [done|lia]). rewrite <- Hm1 in Hf, Hr. pose proof (dict_inv_small d1 Hi1 Hf) as Hs.
    destruct (dictAddRaw_spec hashFunction dict_can_resize uninit d1 key Hok1 Hs) as (d2 & r & Hadd & Hok2 & Hr2). rewrite Hadd.
    destruct r as [r|]; [|destruct Hr2 as [[x Hx] _]; congruence]. destruct Hr2 as (_ & Hm2 & Href).
    destruct (dictSetVal_spec hashFunction d2 r key uninit v Hok2 Href) as (d3 & Hset & Hok3 & Hm3). exists d2, r, d3.
    split; [done|]. split; [done|]. apply setval_cap in Hset. unfold few in Hf. rewrite map_size in Hf by done.
    apply addraw_cap in Hadd; [|done|lia]. split; [split; [done|lia]|]. by rewrite Hm3, Hm2, Hm1, insert_insert_eq.
Qed.

(** A dictionary with an iterator is not changed by a search. *)
Lemma dictFind_frozen d key d' r : iterators d <> 0 -> dictFind hashFunction d key = Some (d', r) -> d' = d.
Proof.
  intros Hit. unfold dictFind, _dictRehashStep. destruct (_ =? 0); [by intros [= <- _]|]. destruct (Z.eqb_spec (iterators d) 0); [done|].
  assert ((if dictIsRehashing d then Some d else Some d) = Some d) as -> by by destruct (dictIsRehashing d).
  cbn [mbind option_bind]. destruct (rd (table (ht0 d)) _) as [he|]; [|done]. cbn [mbind option_bind].
  destruct (chain_find key he); [by intros [= <- _]|]. destruct (negb _); [by intros [= <- _]|].
  destruct (rd (table (ht1 d)) _) as [he'|]; [|done]. cbn [mbind option_bind]. by destruct (chain_find key he'); intros [= <- _].
Qed.

Lemma dictDelete_inv d key : dict_inv d ->
  exists d' st freed, dictDelete hashFunction d key = Some (d', st, freed) /\ dict_inv d' /\
    to_map d' = delete key (to_map d) /\ (st = DICT_OK <-> is_Some (to_map d !! key)).
Proof.
  intros [Hok Hc]. unfold dictDelete.
  destruct (dictGenericDelete_spec hashFunction d key false Hok) as (d' & st & freed & Hrun & Hok' & Hm & Hst).
  exists d', st, freed. split; [done|]. apply delete_cap in Hrun; [|done]. split; [split; [done|lia]|]. split; [done|].
  destruct (to_map d !! key); destruct Hst as [-> _]; split; try done; by intros [].
Qed.

Lemma dictExpand_inv d sz : dict_inv d -> 0 <= sz <= 2 ^ 30 ->
  exists d' st, dictExpand d sz = Some (d', st) /\ dict_inv d' /\ to_map d' = to_map d.
Proof.
  intros [Hok Hc] Hsz. destruct (next_power_spec sz ltac:(lia)) as (k & _ & Hp & _).
  destruct (dictIsRehashing d || (used (ht0 d) >? sz)) eqn:Hr.
  { exists d, DICT_ERR. unfold dictExpand. rewrite Hp. cbn [mbind option_bind]. by rewrite Hr. }
  apply orb_false_iff in Hr as [Hr Hu]. rewrite Z.gtb_ltb in Hu. apply Z.ltb_ge in Hu.
  destruct (dictExpand_spec hashFunction d sz Hok Hr) as (d' & k' & Hrun & Hsame & _); [lia..|].
  exists d', DICT_OK. split; [done|]. apply expand_cap in Hrun; [|lia].
  split; [split; [apply Hsame|lia]|by apply (to_map_same hashFunction)].
Qed.

Lemma dictResize_inv d : dict_inv d -> few (to_map d) ->
  exists d' st, dictResize dict_can_resize d = Some (d', st) /\ dict_inv d' /\ to_map d' = to_map d.
Proof.
  intros [Hok Hc] Hf. unfold few in Hf. rewrite map_size in Hf by done. unfold dictResize.
  destruct (negb dict_can_resize || dictIsRehashing d) eqn:Hr; [by exists d, DICT_ERR|].
  apply orb_false_iff in Hr as [_ Hr]. pose proof (used_size d Hok) as [Hu Hu1].
  set (sz := if used (ht0 d) <? DICT_HT_INITIAL_SIZE then DICT_HT_INITIAL_SIZE else used (ht0 d)).
  assert (used (ht0 d) <= sz <= 2 ^ 29).
  { unfold sz, DICT_HT_INITIAL_SIZE. destruct (Z.ltb_spec (used (ht0 d)) 4); lia. }
  destruct (dictExpand_spec hashFunction d sz Hok Hr) as (d' & k & Hrun & Hsame & _); [lia..|].
  exists d', DICT_OK. split; [done|]. apply expand_cap in Hrun; [|lia].
  split; [split; [apply Hsame|lia]|by apply (to_map_same hashFunction)].
Qed.
End cap.
