(* ===== verification/Scan.v ===== *)
(** * The cursor scan of the hash table (dictScan of src/redis-2.8.19/src/dict.c)

    The bit reversal [rev] and the reverse-binary iteration that must return
    every element although the table is resized between the calls. The calls to
    [fn] are the list of the entries given to it. *)
From S2P Require Import Prelude Dict.
Open Scope Z_scope.

Definition not64 (x : Z) : Z := Z.lxor x (2 ^ 64 - 1).

(** One turn of [while ((s >>= 1) > 0)]. *)
Definition rev_step (s mask v : Z) : Z :=
  Z.lor (Z.land (Z.shiftr v s) mask) (Z.land (u64 (Z.shiftl v s)) (not64 mask)).

Fixpoint rev_loop (fuel : nat) (s mask v : Z) : option Z :=
  let s := Z.shiftr s 1 in
  if s >? 0 then
    match fuel with
    | O => None
    | S fuel =>
        let mask := Z.lxor mask (u64 (Z.shiftl mask s)) in
        rev_loop fuel s mask (rev_step s mask v)
    end
  else Some v.

Definition rev (v : Z) : option Z := rev_loop 6 64 (2 ^ 64 - 1) v.

Section scan.
Context {K V : Type}.

(** The [do ... while (v & (m0 ^ m1))] over the larger table. *)
Fixpoint scan_expand (fuel : nat) (t1 : list (list (K * V))) (m0 m1 v : Z)
  : option (list (K * V) * Z) :=
  match fuel with
  | O => None
  | S fuel =>
      de ← rd t1 (Z.land v m1);
      let v := Z.lor (Z.land (u64 (Z.lor v m0 + 1)) (not64 m0)) (Z.land v m0) in
      if Z.land v (Z.lxor m0 m1) =? 0 then Some (de, v)
      else
        '(out, v) ← scan_expand fuel t1 m0 m1 v;
        Some (de ++ out, v)
  end.

Definition scan_next (v m0 : Z) : option Z :=
  let v := Z.lor v (not64 m0) in
  v ← rev v;
  rev (u64 (v + 1)).

(** The smaller and the larger table of a rehashing dictionary. *)
Definition scan_tables (d : dict K V) : dictht K V * dictht K V :=
  if size (ht0 d) >? size (ht1 d) then (ht1 d, ht0 d) else (ht0 d, ht1 d).

Definition dictScan (d : dict K V) (v : Z) : option (list (K * V) * Z) :=
  if dictSize d =? 0 then Some ([], 0)
  else if negb (dictIsRehashing d) then
    let m0 := sizemask (ht0 d) in
    de ← rd (table (ht0 d)) (Z.land v m0);
    v ← scan_next v m0;
    Some (de, v)
  else
    let '(t0, t1) := scan_tables d in
    let m0 := sizemask t0 in
    let m1 := sizemask t1 in
    de ← rd (table t0) (Z.land v m0);
    '(out, v) ← scan_expand (length (table t1)) (table t1) m0 m1 v;
    v ← scan_next v m0;
    Some (de ++ out, v).
End scan.

(** Successive calls, each on the dictionary as it then is. *)
Fixpoint scan_calls {K V} (ds : list (dict K V)) (v : Z) : option (list (K * V) * Z) :=
  match ds with
  | [] => Some ([], v)
  | d :: ds =>
      '(out, v) ← dictScan d v;
      '(out', v) ← scan_calls ds v;
      Some (out ++ out', v)
  end.

(** ** Bits *)

Lemma testbit_u64 x i : 0 <= i -> Z.testbit (u64 x) i = (i <? 64) && Z.testbit x i.
Proof.
  intros. unfold uwrap. destruct (Z.ltb_spec i 64).
  - by rewrite Z.mod_pow2_bits_low.
  - by rewrite Z.mod_pow2_bits_high by lia.
Qed.

Lemma testbit_ones n i : 0 <= i -> 0 <= n -> Z.testbit (2 ^ n - 1) i = (i <? n).
Proof.
  intros. replace (2 ^ n - 1) with (Z.ones n) by (rewrite Z.ones_equiv; lia).
  rewrite Z.testbit_ones by lia. destruct (Z.leb_spec 0 i); [done|lia].
Qed.

Lemma testbit_not64 x i : 0 <= i < 64 -> Z.testbit (not64 x) i = negb (Z.testbit x i).
Proof.
  intros. unfold not64. rewrite Z.lxor_spec, testbit_ones by lia.
  destruct (Z.ltb_spec i 64); [|lia]. by destruct (Z.testbit x i).
Qed.

Definition is_u64 (x : Z) : Prop := 0 <= x < 2 ^ 64.

Lemma u64_is x : is_u64 (u64 x).
Proof. unfold is_u64, uwrap. apply Z.mod_pos_bound. lia. Qed.

Lemma u64_id x : is_u64 x -> u64 x = x.
Proof. apply Z.mod_small. Qed.

Lemma is_u64_bits x : 0 <= x -> (forall i, 64 <= i -> Z.testbit x i = false) -> is_u64 x.
Proof.
  intros Hx Hb. assert (u64 x = x) as <-; [|apply u64_is].
  apply Z.bits_inj'. intros i Hi. rewrite testbit_u64 by done.
  destruct (Z.ltb_spec i 64); [done|]. by rewrite Hb by lia.
Qed.

Lemma is_u64_high x i : is_u64 x -> 64 <= i -> Z.testbit x i = false.
Proof.
  intros Hx Hi. rewrite <- (u64_id x Hx), testbit_u64 by lia.
  by destruct (Z.ltb_spec i 64); [lia|].
Qed.

Lemma u64_ext x y :
  is_u64 x -> is_u64 y -> (forall i, 0 <= i < 64 -> Z.testbit x i = Z.testbit y i) -> x = y.
Proof.
  intros Hx Hy Hb. apply Z.bits_inj'. intros i Hi. destruct (Z.ltb_spec i 64); [by apply Hb|].
  by rewrite !is_u64_high.
Qed.

Lemma is_u64_lor x y : is_u64 x -> is_u64 y -> is_u64 (Z.lor x y).
Proof.
  intros Hx Hy. apply is_u64_bits; [apply Z.lor_nonneg; unfold is_u64 in *; lia|].
  intros i Hi. by rewrite Z.lor_spec, !is_u64_high.
Qed.

Lemma is_u64_land x y : is_u64 x -> 0 <= y -> is_u64 (Z.land x y).
Proof.
  intros Hx Hy. apply is_u64_bits; [apply Z.land_nonneg; auto|].
  intros i Hi. by rewrite Z.land_spec, (is_u64_high x).
Qed.

Lemma is_u64_not x : is_u64 x -> is_u64 (not64 x).
Proof.
  intros Hx. apply is_u64_bits.
  - apply Z.lxor_nonneg. unfold is_u64 in Hx. lia.
  - intros i Hi. unfold not64. rewrite Z.lxor_spec, is_u64_high, testbit_ones by (done || lia).
    by destruct (Z.ltb_spec i 64); [lia|].
Qed.

(** ** [rev] reverses the 64 bits *)

Lemma rev_step_is s mask v : is_u64 v -> is_u64 mask -> 0 <= s -> is_u64 (rev_step s mask v).
Proof.
  intros Hv Hm Hs. unfold rev_step. apply is_u64_lor.
  - rewrite Z.land_comm. apply is_u64_land; [done|]. apply Z.shiftr_nonneg, Hv.
  - apply is_u64_land; [apply u64_is|]. apply is_u64_not in Hm. apply Hm.
Qed.

(** A mask that selects the bits whose number lacks the bit [s]. *)
Definition mask_ok (s mask : Z) : bool :=
  (0 <=? s) && (s <? 64) && forallb (fun i : nat =>
    let i := Z.of_nat i in
    if Z.testbit mask i then (Z.lxor i s =? i + s) && (i + s <? 64)
    else Z.lxor i s =? i - s) (seq 0 64).

Lemma rev_step_bits s mask v i :
  mask_ok s mask = true -> 0 <= i < 64 ->
  Z.testbit (rev_step s mask v) i = Z.testbit v (Z.lxor i s).
Proof.
  intros [[Hs0 Hs1]%andb_prop Hm]%andb_prop Hi.
  rewrite forallb_forall in Hm. specialize (Hm (Z.to_nat i)).
  rewrite List.in_seq, Z2Nat.id in Hm by lia. specialize (Hm ltac:(lia)). cbv zeta in Hm.
  unfold rev_step. rewrite Z.lor_spec, !Z.land_spec, testbit_not64 by lia.
  destruct (Z.testbit mask i).
  - apply andb_prop in Hm as [->%Z.eqb_eq _].
    rewrite Z.shiftr_spec by lia. by rewrite andb_true_r, andb_false_r, orb_false_r.
  - apply Z.eqb_eq in Hm as ->. rewrite testbit_u64 by lia.
    destruct (Z.ltb_spec i 64); [|lia]. rewrite Z.shiftl_spec by lia.
    by rewrite andb_true_r, andb_false_r.
Qed.

(** The value [rev] computes. *)
Definition rev64 (v : Z) : Z :=
  rev_step 1 6148914691236517205 (rev_step 2 3689348814741910323
  (rev_step 4 1085102592571150095 (rev_step 8 71777214294589695
  (rev_step 16 281470681808895 (rev_step 32 4294967295 v))))).

Lemma rev_eq v : rev v = Some (rev64 v).
Proof. reflexivity. Qed.

Lemma rev64_is v : is_u64 v -> is_u64 (rev64 v).
Proof. intros Hv. unfold rev64. repeat (apply rev_step_is; [|unfold is_u64; lia|lia]). done. Qed.

Lemma lxor_range i s : 0 <= i < 64 -> 0 <= s < 64 -> 0 <= Z.lxor i s < 64.
Proof.
  intros Hi Hs. split; [apply Z.lxor_nonneg; lia|].
  destruct (Z.eq_dec (Z.lxor i s) 0) as [->|Hne]; [lia|].
  change 64 with (2 ^ 6). apply Z.log2_lt_pow2; [pose proof (proj2 (Z.lxor_nonneg i s)); lia|].
  pose proof (Z.log2_lxor i s ltac:(lia) ltac:(lia)).
  assert (Z.log2 i < 6) by (destruct (Z.eq_dec i 0) as [->|]; [done|apply Z.log2_lt_pow2; lia]).
  assert (Z.log2 s < 6) by (destruct (Z.eq_dec s 0) as [->|]; [done|apply Z.log2_lt_pow2; lia]).
  lia.
Qed.

Lemma lxor_63 i : 0 <= i < 64 -> Z.lxor i 63 = 63 - i.
Proof.
  intros Hi.
  assert (forallb (fun n : nat => Z.lxor (Z.of_nat n) 63 =? 63 - Z.of_nat n) (seq 0 64) = true)
    as Ha by reflexivity.
  rewrite forallb_forall in Ha. specialize (Ha (Z.to_nat i)).
  rewrite List.in_seq, Z2Nat.id in Ha by lia. apply Z.eqb_eq, Ha. lia.
Qed.

Lemma rev64_bits v i : 0 <= i < 64 -> Z.testbit (rev64 v) i = Z.testbit v (63 - i).
Proof.
  intros Hi. unfold rev64.
  rewrite !rev_step_bits; try reflexivity; repeat apply lxor_range; try lia.
  rewrite !Z.lxor_assoc. f_equal. simpl. by apply lxor_63.
Qed.

Lemma rev64_involutive v : is_u64 v -> rev64 (rev64 v) = v.
Proof.
  intros Hv. apply u64_ext; [by do 2 apply rev64_is|done|].
  intros i Hi. rewrite !rev64_bits by lia. f_equal. lia.
Qed.

(** ** The cursor in reversed order *)

(** [k] is the number of mask bits: [2^k - 1] is the mask of a table. *)
Definition block (k v : Z) : Z := rev64 v / 2 ^ (64 - k).

Lemma block_bits k v i :
  0 <= k <= 64 -> is_u64 v -> 0 <= i -> Z.testbit (block k v) i = (i <? k) && Z.testbit v (k - 1 - i).
Proof.
  intros Hk Hv Hi. unfold block. rewrite <- Z.shiftr_div_pow2, Z.shiftr_spec by lia.
  destruct (Z.ltb_spec i k).
  - rewrite rev64_bits by lia. simpl. f_equal. lia.
  - rewrite is_u64_high; [done|by apply rev64_is|lia].
Qed.

Lemma block_eq k x y :
  0 <= k <= 64 -> is_u64 x -> is_u64 y ->
  Z.land x (2 ^ k - 1) = Z.land y (2 ^ k - 1) <-> block k x = block k y.
Proof.
  intros Hk Hx Hy. split; intros Heq; apply Z.bits_inj'; intros i Hi.
  - rewrite !block_bits by done. destruct (Z.ltb_spec i k); [|done]. simpl.
    apply (f_equal (fun z => Z.testbit z (k - 1 - i))) in Heq.
    rewrite !Z.land_spec, !testbit_ones in Heq by lia.
    destruct (Z.ltb_spec (k - 1 - i) k); [|lia]. by rewrite !andb_true_r in Heq.
  - rewrite !Z.land_spec, !testbit_ones by lia. destruct (Z.ltb_spec i k); [|by rewrite !andb_false_r].
    rewrite !andb_true_r. apply (f_equal (fun z => Z.testbit z (k - 1 - i))) in Heq.
    rewrite !block_bits in Heq by (done || lia).
    destruct (Z.ltb_spec (k - 1 - i) k); [|lia]. simpl in Heq.
    by replace (k - 1 - (k - 1 - i)) with i in Heq by lia.
Qed.

Lemma block_bound k v : 0 <= k <= 64 -> is_u64 v -> 0 <= block k v < 2 ^ k.
Proof.
  intros Hk Hv. pose proof (rev64_is v Hv) as [H0 H1]. unfold block.
  assert (0 < 2 ^ (64 - k)) by (apply Z.pow_pos_nonneg; lia).
  split; [apply Z.div_pos; lia|].
  apply Z.div_lt_upper_bound; [lia|]. rewrite <- Z.pow_add_r by lia.
  by replace (64 - k + k) with 64 by lia.
Qed.

Lemma pow_u64 k : 0 <= k < 64 -> is_u64 (2 ^ k - 1).
Proof.
  intros Hk. assert (0 < 2 ^ k) by (apply Z.pow_pos_nonneg; lia).
  assert (2 ^ k < 2 ^ 64) by (apply Z.pow_lt_mono_r; lia). unfold is_u64. lia.
Qed.

Lemma lor_low_shift r a n :
  0 <= n -> Z.land r (2 ^ n - 1) + Z.shiftl a n = Z.lor (Z.land r (2 ^ n - 1)) (Z.shiftl a n).
Proof.
  intros Hn. rewrite Z.add_nocarry_lxor, <- Z.lxor_lor; [done|..];
    apply Z.bits_inj'; intros i Hi; rewrite !Z.land_spec, Z.bits_0, testbit_ones by lia;
    (destruct (Z.ltb_spec i n); [|by rewrite andb_false_r]);
    rewrite Z.shiftl_spec_low by done; by rewrite andb_false_r.
Qed.

Lemma lor_ones_shift a n :
  0 <= n -> 2 ^ n - 1 + Z.shiftl a n = Z.lor (2 ^ n - 1) (Z.shiftl a n).
Proof. intros Hn. pose proof (lor_low_shift (2 ^ n - 1) a n Hn). by rewrite Z.land_diag in *. Qed.

(** The next cursor, read reversed: the start of the next block. *)
Lemma scan_next_spec k v :
  0 <= k < 64 -> is_u64 v ->
  exists v', scan_next v (2 ^ k - 1) = Some v' /\ is_u64 v' /\
    rev64 v' = u64 ((block k v + 1) * 2 ^ (64 - k)).
Proof.
  intros Hk Hv. pose proof (pow_u64 k Hk) as Hm.
  pose proof (is_u64_lor _ _ Hv (is_u64_not _ Hm)) as Hv1.
  unfold scan_next. rewrite rev_eq. cbn [mbind option_bind]. rewrite rev_eq.
  eexists. split; [done|]. split; [apply rev64_is, u64_is|].
  rewrite rev64_involutive by apply u64_is. f_equal.
  set (N := 64 - k).
  assert (rev64 (Z.lor v (not64 (2 ^ k - 1))) = Z.lor (block k v * 2 ^ N) (2 ^ N - 1)) as ->.
  { apply Z.bits_inj'. intros i Hi. destruct (Z.ltb_spec i 64) as [Hi64|Hi64].
    - rewrite rev64_bits, !Z.lor_spec, testbit_not64, !testbit_ones by (unfold N; lia).
      rewrite <- Z.shiftl_mul_pow2 by (unfold N; lia).
      destruct (Z.ltb_spec i N), (Z.ltb_spec (63 - i) k); unfold N in *; try lia; simpl.
      rewrite !orb_false_r, Z.shiftl_spec, block_bits by (done || lia).
      destruct (Z.ltb_spec (i - (64 - k)) k); [|lia]. simpl. f_equal. lia.
    - rewrite is_u64_high by (try apply rev64_is; done).
      rewrite Z.lor_spec, testbit_ones, <- Z.shiftl_mul_pow2, Z.shiftl_spec, block_bits
        by (done || unfold N; lia).
      destruct (Z.ltb_spec i N), (Z.ltb_spec (i - N) k); unfold N in *; try done; lia. }
  rewrite Z.lor_comm, <- Z.shiftl_mul_pow2, <- lor_ones_shift by (unfold N; lia).
  rewrite Z.shiftl_mul_pow2 by (unfold N; lia). lia.
Qed.

Opaque rev rev64 scan_next.

Lemma bind_some {A B} (x : A) (f : A -> option B) : (Some x ≫= f) = f x.
Proof. reflexivity. Qed.

(** ** The expansions of a cursor in the larger table *)

Lemma pow2_pos k : 0 <= k -> 0 < 2 ^ k.
Proof. intros. apply Z.pow_pos_nonneg; lia. Qed.

Lemma mask_mod v k : 0 <= k -> Z.land v (2 ^ k - 1) = v mod 2 ^ k.
Proof.
  intros. replace (2 ^ k - 1) with (Z.ones k) by (rewrite Z.ones_equiv; lia).
  by apply Z.land_ones.
Qed.

(** The increment of the bits above the smaller mask. *)
Lemma expand_next k v :
  0 <= k < 64 -> is_u64 v ->
  Z.lor (Z.land (u64 (Z.lor v (2 ^ k - 1) + 1)) (not64 (2 ^ k - 1))) (Z.land v (2 ^ k - 1))
  = u64 (v + 2 ^ k).
Proof.
  intros Hk Hv. pose proof (pow2_pos k ltac:(lia)) as Hp.
  pose proof (Z.div_mod v (2 ^ k) ltac:(lia)) as Hdm.
  assert (Z.lor v (2 ^ k - 1) + 1 = Z.shiftl (v / 2 ^ k + 1) k) as ->.
  { assert (Z.lor v (2 ^ k - 1) = Z.lor (2 ^ k - 1) (Z.shiftl (v / 2 ^ k) k)) as ->.
    { apply Z.bits_inj'. intros i Hi.
      rewrite !Z.lor_spec, testbit_ones, Z.shiftl_spec, <- Z.shiftr_div_pow2 by lia.
      destruct (Z.ltb_spec i k); [by rewrite orb_true_r|].
      rewrite Z.shiftr_spec, orb_false_r by lia. simpl. f_equal. lia. }
    rewrite <- lor_ones_shift, !Z.shiftl_mul_pow2 by lia. lia. }
  assert (v + 2 ^ k = Z.land v (2 ^ k - 1) + Z.shiftl (v / 2 ^ k + 1) k) as ->.
  { rewrite Z.shiftl_mul_pow2, mask_mod by lia. lia. }
  rewrite lor_low_shift by lia. set (w := Z.shiftl _ k).
  assert (forall i, 0 <= i < k -> Z.testbit w i = false) as Hw
    by (intros; apply Z.shiftl_spec_low; lia).
  pose proof (pow_u64 k Hk) as Hm.
  apply u64_ext; [|apply u64_is|].
  { apply is_u64_lor; [|apply is_u64_land; [done|apply Hm]].
    apply is_u64_land; [apply u64_is|]. apply (is_u64_not _ Hm). }
  intros i Hi. rewrite Z.lor_spec, Z.land_spec, !testbit_u64, Z.lor_spec, testbit_not64 by lia.
  destruct (Z.ltb_spec i 64); [|lia]. rewrite Z.land_spec, testbit_ones by lia.
  destruct (Z.ltb_spec i k); simpl.
  - by rewrite Hw, andb_false_r, orb_false_r by lia.
  - by rewrite !andb_false_r, orb_false_r, andb_true_r.
Qed.

(** The number of the expansion of the smaller index that [v] selects. *)
Definition expansion (k0 k1 v : Z) : Z := (v mod 2 ^ k1) / 2 ^ k0.

Lemma expansion_mask k0 k1 v :
  0 <= k0 <= k1 -> Z.land v (Z.lxor (2 ^ k0 - 1) (2 ^ k1 - 1)) = Z.shiftl (expansion k0 k1 v) k0.
Proof.
  intros Hk. unfold expansion. rewrite <- mask_mod, <- Z.shiftr_div_pow2 by lia.
  apply Z.bits_inj'. intros i Hi.
  rewrite Z.land_spec, Z.lxor_spec, Z.shiftl_spec, !testbit_ones by lia.
  destruct (Z.ltb_spec i k0).
  - rewrite (Z.testbit_neg_r _ (i - k0)) by lia. destruct (Z.ltb_spec i k1); [|lia]. by rewrite andb_false_r.
  - rewrite Z.shiftr_spec, Z.land_spec, testbit_ones by lia.
    replace (i - k0 + k0) with i by lia. by destruct (Z.ltb_spec i k1).
Qed.

Lemma expansion_bound k0 k1 v : 0 <= k0 <= k1 -> 0 <= expansion k0 k1 v < 2 ^ (k1 - k0).
Proof.
  intros Hk. unfold expansion. pose proof (pow2_pos k0 ltac:(lia)).
  pose proof (Z.mod_pos_bound v (2 ^ k1) (pow2_pos k1 ltac:(lia))).
  split; [apply Z.div_pos; lia|]. apply Z.div_lt_upper_bound; [done|].
  rewrite <- Z.pow_add_r by lia. replace (k0 + (k1 - k0)) with k1 by lia. lia.
Qed.

Lemma pow2_split k0 k1 : 0 <= k0 <= k1 -> 2 ^ k1 = 2 ^ (k1 - k0) * 2 ^ k0.
Proof. intros. rewrite <- Z.pow_add_r by lia. f_equal. lia. Qed.

Lemma mod_mod_pow x k0 k1 : 0 <= k0 <= k1 -> (x mod 2 ^ k1) mod 2 ^ k0 = x mod 2 ^ k0.
Proof.
  intros Hk. apply Z.mod_mod_divide. exists (2 ^ (k1 - k0)). by apply pow2_split.
Qed.

Lemma expansion_next k0 k1 v :
  0 <= k0 <= k1 -> k1 < 64 ->
  expansion k0 k1 (u64 (v + 2 ^ k0)) =
  if expansion k0 k1 v + 1 =? 2 ^ (k1 - k0) then 0 else expansion k0 k1 v + 1.
Proof.
  intros Hk Hk1. pose proof (expansion_bound k0 k1 v Hk) as Hb. unfold expansion in *. unfold uwrap.
  rewrite mod_mod_pow by lia. rewrite <- Z.add_mod_idemp_l by (apply Z.pow_nonzero; lia).
  pose proof (pow2_pos k0 ltac:(lia)). pose proof (pow2_split k0 k1 Hk) as Hsp.
  pose proof (Z.mod_pos_bound v (2 ^ k1) (pow2_pos k1 ltac:(lia))) as Hw.
  set (w := v mod 2 ^ k1) in *. set (q := w / 2 ^ k0) in *.
  pose proof (Z.div_mod w (2 ^ k0) ltac:(lia)) as Hdm. fold q in Hdm.
  pose proof (Z.mod_pos_bound w (2 ^ k0) ltac:(lia)).
  destruct (Z.eqb_spec (q + 1) (2 ^ (k1 - k0))) as [Hq|Hq].
  - rewrite (Z.mod_eq _ (2 ^ k1)) by lia.
    assert (2 ^ k1 = q * 2 ^ k0 + 2 ^ k0) as Hp by (rewrite Hsp, <- Hq; lia).
    replace ((w + 2 ^ k0) / 2 ^ k1) with 1; [apply Z.div_small; lia|].
    apply Z.div_unique with (w + 2 ^ k0 - 2 ^ k1); lia.
  - assert ((q + 2) * 2 ^ k0 <= 2 ^ k1) by (rewrite Hsp; apply Z.mul_le_mono_nonneg_r; lia).
    rewrite Z.mod_small by lia. symmetry. apply Z.div_unique with (w mod 2 ^ k0); lia.
Qed.

Section expand.
Context {K V : Type}.

(** The loop gives every bucket of the larger table that expands the index,
    from the expansion the cursor starts with to the last one. *)
Lemma scan_expand_spec (t1 : list (list (K * V))) k0 k1 :
  0 <= k0 <= k1 -> k1 < 63 -> zlen t1 = 2 ^ k1 ->
  forall fuel v, is_u64 v -> 2 ^ (k1 - k0) - expansion k0 k1 v <= Z.of_nat fuel ->
  exists out v', scan_expand fuel t1 (2 ^ k0 - 1) (2 ^ k1 - 1) v = Some (out, v') /\
    is_u64 v' /\ v' mod 2 ^ k0 = v mod 2 ^ k0 /\
    forall i chain e, rd t1 i = Some chain -> e ∈ chain ->
      i mod 2 ^ k0 = v mod 2 ^ k0 -> expansion k0 k1 v <= i / 2 ^ k0 -> e ∈ out.
Proof.
  intros Hk Hk1 Hlen fuel. induction fuel as [|fuel IH]; intros v Hv Hf;
    pose proof (expansion_bound k0 k1 v Hk) as Hb; [lia|].
  pose proof (pow2_pos k0 ltac:(lia)) as Hp0. pose proof (pow2_split k0 k1 Hk) as Hsp.
  cbn [scan_expand]. rewrite !mask_mod by lia.
  pose proof (Z.mod_pos_bound v (2 ^ k1) (pow2_pos k1 ltac:(lia))) as Hw.
  destruct (rd_is_Some t1 (v mod 2 ^ k1)) as [de Hde]; [lia|].
  rewrite Hde. cbn [mbind option_bind].
  pose proof (expand_next k0 v ltac:(lia) Hv) as Hn. rewrite mask_mod in Hn by lia. rewrite Hn.
  rewrite expansion_mask, expansion_next by lia. set (v1 := u64 (v + 2 ^ k0)).
  assert (v1 mod 2 ^ k0 = v mod 2 ^ k0) as Hv1.
  { unfold v1, uwrap. rewrite mod_mod_pow by lia.
    replace (v + 2 ^ k0) with (v + 1 * 2 ^ k0) by lia. apply Z.mod_add. lia. }
  assert (forall i chain e, rd t1 i = Some chain -> e ∈ chain ->
    i mod 2 ^ k0 = v mod 2 ^ k0 -> expansion k0 k1 v = i / 2 ^ k0 -> e ∈ de) as Hde_in.
  { intros i chain e Hi He Hmod Hq. replace i with (v mod 2 ^ k1) in Hi; [by simplify_eq|].
    rewrite (Z.div_mod i (2 ^ k0)), (Z.div_mod (v mod 2 ^ k1) (2 ^ k0)) by lia.
    unfold expansion in Hq. rewrite Hq, mod_mod_pow, Hmod by lia. done. }
  destruct (Z.eqb_spec (expansion k0 k1 v + 1) (2 ^ (k1 - k0))) as [Hlast|Hmore].
  - rewrite Z.shiftl_0_l. cbn. exists de, v1. split_and!; try done; [apply u64_is..|].
    intros i chain e Hi He Hmod Hq. eapply Hde_in; [done..|].
    apply Z.le_antisymm; [done|]. pose proof (rd_Some_bound _ _ _ Hi).
    assert (i / 2 ^ k0 < 2 ^ (k1 - k0)); [|lia]. apply Z.div_lt_upper_bound; lia.
  - rewrite Z.shiftl_mul_pow2 by lia.
    destruct (Z.eqb_spec ((expansion k0 k1 v + 1) * 2 ^ k0) 0); [lia|].
    pose proof (expansion_next k0 k1 v Hk ltac:(lia)) as Hx. fold v1 in Hx.
    destruct (Z.eqb_spec (expansion k0 k1 v + 1) (2 ^ (k1 - k0))); [done|].
    destruct (IH v1 (u64_is _) ltac:(lia)) as (out & v' & -> & Hv' & Hmod' & Hout).
    cbn [mbind option_bind]. exists (de ++ out), v'. split_and!; [done|apply Hv'..|congruence|].
    intros i chain e Hi He Hmod Hq. apply elem_of_app.
    destruct (Z.eq_dec (expansion k0 k1 v) (i / 2 ^ k0)) as [Heq|Hne].
    + left. by eapply Hde_in.
    + right. eapply Hout; [done..|congruence|lia].
Qed.
End expand.

(** ** Coverage of the scan *)

Section coverage.
Context {K V : Type} {K_eq_dec : EqDecision K} {K_countable : Countable K}.
Context (hashFunction : K -> Z).
Implicit Types (d : dict K V) (ds : list (dict K V)).

Abbreviation dict_ok := (dict_ok hashFunction).

(** The mask that the cursor is advanced under. *)
Definition scan_mask d : Z :=
  sizemask (if dictIsRehashing d then (scan_tables d).1 else ht0 d).

Definition hash_block (k : Z) (key : K) : Z := block k (dictHashKey hashFunction key).

Lemma hash_is_u64 key : is_u64 (dictHashKey hashFunction key).
Proof. pose proof (hash_nonneg hashFunction key). unfold is_u64. lia. Qed.

Lemma block_mod k x y :
  0 <= k <= 64 -> is_u64 x -> is_u64 y -> x mod 2 ^ k = y mod 2 ^ k <-> block k x = block k y.
Proof. intros. rewrite <- !mask_mod by lia. by apply block_eq. Qed.

Lemma wf_mask_pow (h : dictht K V) :
  ht_wf hashFunction h -> exists k, 0 <= k < 63 /\ sizemask h = 2 ^ k - 1 /\
    zlen (table h) = 2 ^ k /\ size h = 2 ^ k.
Proof.
  intros [Hlen (k & Hk & Hs) Hm _ _]. exists k. rewrite Hm, <- Hlen. lia.
Qed.

(** The bucket of an entry selected by the cursor, and the place of the other
    entries of its block. *)
Lemma entry_place (h : dictht K V) k (e : K * V) :
  ht_wf hashFunction h -> sizemask h = 2 ^ k - 1 -> 0 <= k < 63 -> e ∈ concat (table h) ->
  exists i chain, rd (table h) i = Some chain /\ e ∈ chain /\
    i = dictHashKey hashFunction e.1 mod 2 ^ k.
Proof.
  intros Hw Hm Hk He. destruct e as [key v].
  destruct (bucket_exists hashFunction h key Hw) as [chain Hc].
  apply (key_in_bucket hashFunction h key v chain Hw Hc) in He.
  rewrite Hm, mask_mod in Hc by lia. eauto.
Qed.

Lemma emit_bucket (h : dictht K V) k v :
  ht_wf hashFunction h -> sizemask h = 2 ^ k - 1 -> 0 <= k < 63 -> is_u64 v ->
  exists de, rd (table h) (Z.land v (sizemask h)) = Some de /\
    forall e, e ∈ concat (table h) -> hash_block k e.1 = block k v -> e ∈ de.
Proof.
  intros Hw Hm Hk Hv. destruct (rd_is_Some (table h) (Z.land v (sizemask h))) as [de Hde].
  { apply (mask_bound hashFunction); [done|apply Hv]. }
  exists de. split; [done|]. intros e He Hb.
  destruct (entry_place h k e Hw Hm Hk He) as (i & chain & Hi & Hin & ->).
  apply block_mod in Hb; [|lia|apply hash_is_u64|done].
  rewrite Hm, mask_mod in Hde by lia. rewrite Hb in Hi. by simplify_eq.
Qed.

(** What a call with mask [2 ^ k - 1] promises: the cursor moves to the next
    block, and every entry whose hash is in the block it leaves is emitted. *)
Definition scan_step d (v k : Z) (out : list (K * V)) (v' : Z) : Prop :=
  0 <= k < 63 /\ scan_mask d = 2 ^ k - 1 /\ is_u64 v' /\
  rev64 v' = u64 ((block k v + 1) * 2 ^ (64 - k)) /\
  forall e, e ∈ entries d -> hash_block k e.1 = block k v -> e ∈ out.

Lemma dictScan_one d v :
  dict_ok d -> is_u64 v -> dictSize d <> 0 -> dictIsRehashing d = false ->
  exists k out v', dictScan d v = Some (out, v') /\ scan_step d v k out v'.
Proof.
  intros Hok Hv Hne Hre. unfold dictScan, scan_step, scan_mask.
  destruct (Z.eqb_spec (dictSize d) 0) as [|_]; [done|]. rewrite Hre. cbn [negb].
  destruct (rehashing_spec hashFunction d (ok_phase _ _ Hok))
    as [(_ & _ & Hr1 & [Hr0|Hw])|(Hre' & _)]; [|..|congruence].
  { unfold dictSize in Hne. by rewrite Hr0, Hr1 in Hne. }
  destruct (wf_mask_pow _ Hw) as (k & Hk & Hm & _).
  destruct (emit_bucket (ht0 d) k v Hw Hm Hk Hv) as (de & Hrd & Hde).
  destruct (scan_next_spec k v ltac:(lia) Hv) as (v' & Hn & Hv' & Hrev).
  exists k, de, v'. split.
  { rewrite Hrd, bind_some, Hm, Hn, bind_some. reflexivity. }
  split; [exact Hk|]. split; [exact Hm|]. split; [exact Hv'|]. split; [exact Hrev|].
  intros e He. unfold entries in He. rewrite Hr1, app_nil_r in He. by apply Hde.
Qed.

Lemma scan_tables_spec d :
  dict_ok d -> dictIsRehashing d = true ->
  exists t0 t1, scan_tables d = (t0, t1) /\ ht_wf hashFunction t0 /\
    ht_wf hashFunction t1 /\ size t0 <= size t1 /\
    forall e, e ∈ entries d -> e ∈ concat (table t0) \/ e ∈ concat (table t1).
Proof.
  intros Hok Hre. destruct (rehashing_spec hashFunction d (ok_phase _ _ Hok))
    as [(Hre' & _)|(_ & _ & Hw0 & Hw1 & _)]; [congruence|].
  unfold scan_tables, entries. setoid_rewrite elem_of_app.
  destruct (Z.gtb_spec (size (ht0 d)) (size (ht1 d)));
    [exists (ht1 d), (ht0 d)|exists (ht0 d), (ht1 d)]; split_and!; try done; try lia; tauto.
Qed.

Lemma dictScan_two d v :
  dict_ok d -> is_u64 v -> dictSize d <> 0 -> dictIsRehashing d = true -> v <= scan_mask d ->
  exists k out v', dictScan d v = Some (out, v') /\ scan_step d v k out v'.
Proof.
  intros Hok Hv Hne Hre Hcov. unfold dictScan, scan_step, scan_mask in *.
  destruct (Z.eqb_spec (dictSize d) 0) as [|_]; [done|]. rewrite Hre in *. cbn [negb].
  destruct (scan_tables_spec d Hok Hre) as (t0 & t1 & Ht & Hw0 & Hw1 & Hle & Hin).
  rewrite Ht in *. cbn [fst] in *.
  destruct (wf_mask_pow _ Hw0) as (k0 & Hk0 & Hm0 & _ & Hs0).
  destruct (wf_mask_pow _ Hw1) as (k1 & Hk1 & Hm1 & Hl1 & Hs1).
  assert (k0 <= k1) as Hk by (apply (Z.pow_le_mono_r_iff 2); lia).
  destruct (emit_bucket t0 k0 v Hw0 Hm0 Hk0 Hv) as (de & Hrd & Hde).
  assert (expansion k0 k1 v = 0) as Hx.
  { unfold expansion. unfold is_u64 in Hv. rewrite Z.mod_small by lia. apply Z.div_small. lia. }
  destruct (scan_expand_spec (table t1) k0 k1 ltac:(lia) ltac:(lia) Hl1
    (length (table t1)) v Hv) as (out & v1 & Hexp & Hv1 & Hmod & Hout).
  { rewrite Hx. unfold zlen in Hl1. rewrite Hl1.
    pose proof (Z.pow_le_mono_r 2 (k1 - k0) k1). lia. }
  destruct (scan_next_spec k0 v1 ltac:(lia) Hv1) as (v' & Hn & Hv' & Hrev).
  exists k0, (de ++ out), v'. split.
  { rewrite Hrd, bind_some, Hm0, Hm1, Hexp, bind_some, Hn, bind_some. reflexivity. }
  apply (block_mod k0) in Hmod; [|lia|done|done]. rewrite Hmod in Hrev.
  split; [exact Hk0|]. split; [exact Hm0|]. split; [exact Hv'|]. split; [exact Hrev|].
  intros e He Hb. apply elem_of_app. destruct (Hin e He) as [H0|H1]; [left; by apply Hde|right].
  destruct (entry_place t1 k1 e Hw1 Hm1 Hk1 H1) as (i & chain & Hi & Hc & ->).
  eapply Hout; [exact Hi|exact Hc| |].
  - rewrite mod_mod_pow by lia. apply block_mod; [lia|apply hash_is_u64|exact Hv|exact Hb].
  - rewrite Hx. pose proof (Z.mod_pos_bound (dictHashKey hashFunction e.1) (2 ^ k1)
      (pow2_pos k1 ltac:(lia))). apply Z.div_pos; [lia|apply pow2_pos; lia].
Qed.

(** The cursor a call returns is below the mask of its table. *)
Lemma cursor_below k v' b :
  0 <= k < 63 -> is_u64 v' -> rev64 v' = u64 (b * 2 ^ (64 - k)) -> v' <= 2 ^ k - 1.
Proof.
  intros Hk Hv' Hr. assert (v' mod 2 ^ k = v') as <-.
  2: { pose proof (Z.mod_pos_bound v' (2 ^ k) (pow2_pos k ltac:(lia))). lia. }
  rewrite <- mask_mod by lia. apply Z.bits_inj'. intros i Hi.
  rewrite Z.land_spec, testbit_ones by lia. destruct (Z.ltb_spec i k); [by rewrite andb_true_r|].
  rewrite andb_false_r. symmetry. destruct (Z.ltb_spec i 64); [|by apply is_u64_high].
  replace i with (63 - (63 - i)) by lia. rewrite <- rev64_bits, Hr, testbit_u64 by lia.
  rewrite <- Z.shiftl_mul_pow2 by lia. rewrite Z.shiftl_spec_low by lia. apply andb_false_r.
Qed.

(** One call covers a key or leaves it ahead of the cursor. *)
Lemma scan_step_key d v k out v' key :
  is_u64 v -> scan_step d v k out v' -> key ∈ (entries d).*1 ->
  rev64 v <= rev64 (dictHashKey hashFunction key) ->
  key ∈ out.*1 \/ (v' <> 0 /\ rev64 v' <= rev64 (dictHashKey hashFunction key)).
Proof.
  intros Hv (Hk & _ & Hv' & Hrev & Hout) Hin Hle.
  pose proof (rev64_is _ (hash_is_u64 key)) as Hh.
  destruct (Z.eq_dec (hash_block k key) (block k v)) as [Hb|Hb].
  - left. apply list_elem_of_fmap in Hin as ([k' x] & -> & He). apply list_elem_of_fmap.
    exists (k', x). split; [done|]. by apply Hout.
  - right. unfold hash_block, block in *. set (h := rev64 (dictHashKey _ _)) in *.
    set (p := 2 ^ (64 - k)) in *. assert (0 < p) by (apply pow2_pos; lia).
    pose proof (Z.div_le_mono (rev64 v) h p ltac:(lia) Hle).
    assert ((rev64 v / p + 1) * p <= h / p * p) by (apply Z.mul_le_mono_nonneg_r; lia).
    pose proof (Z.mul_div_le h p ltac:(lia)).
    pose proof (rev64_is v Hv) as Hrv.
    assert (0 <= rev64 v / p) by (apply Z.div_pos; unfold is_u64 in Hrv; lia).
    unfold is_u64 in Hh. unfold uwrap in Hrev. rewrite Z.mod_small in Hrev by nia.
    split; [|lia]. intros ->. change (rev64 0) with 0 in Hrev. nia.
Qed.

(** Every call made while rehashing has a smaller table at least as large as the
    table of the call before: no scan goes on during a shrink. *)
Fixpoint no_shrink (m : Z) ds : Prop :=
  match ds with
  | [] => True
  | d :: ds => (dictIsRehashing d = true -> m <= scan_mask d) /\ no_shrink (scan_mask d) ds
  end.

Lemma dictScan_call d v m key :
  dict_ok d -> is_u64 v -> v <= m -> (dictIsRehashing d = true -> m <= scan_mask d) ->
  key ∈ (entries d).*1 ->
  exists k out v', dictScan d v = Some (out, v') /\ scan_step d v k out v' /\ v' <= scan_mask d.
Proof.
  intros Hok Hv Hm Hs Hin.
  assert (dictSize d <> 0) as Hne.
  { rewrite (entries_size hashFunction d Hok). intros Hz%zlen_zero. rewrite Hz in Hin.
    by apply not_elem_of_nil in Hin. }
  assert (exists k out v', dictScan d v = Some (out, v') /\ scan_step d v k out v')
    as (k & out & v' & Hrun & Hstep).
  { destruct (dictIsRehashing d) eqn:Hre;
      [apply dictScan_two; try done; specialize (Hs eq_refl); lia|by apply dictScan_one]. }
  exists k, out, v'. split_and!; [done|apply Hstep..|].
  destruct Hstep as (Hk & -> & Hv' & Hrev & _). by eapply cursor_below.
Qed.

Lemma scan_calls_spec ds key :
  Forall dict_ok ds -> (forall d, d ∈ ds -> key ∈ (entries d).*1) ->
  forall v m, is_u64 v -> v <= m -> no_shrink m ds ->
  exists out v', scan_calls ds v = Some (out, v') /\ is_u64 v' /\
    (rev64 v <= rev64 (dictHashKey hashFunction key) ->
     key ∈ out.*1 \/ (rev64 v' <= rev64 (dictHashKey hashFunction key) /\ (ds <> [] -> v' <> 0))).
Proof.
  induction ds as [|d ds IH]; intros Hok Hin v m Hv Hm Hs.
  { exists [], v. split_and!; try done; try apply Hv. auto. }
  apply Forall_cons in Hok as [Hd Hok]. destruct Hs as [Hs0 Hs].
  assert (key ∈ (entries d).*1) as Hkd by (apply Hin; apply elem_of_cons; by left).
  destruct (dictScan_call d v m key Hd Hv Hm Hs0 Hkd) as (k & out & v1 & Hrun & Hstep & Hv1).
  destruct (IH Hok (fun d' H => Hin d' (proj2 (elem_of_cons _ _ _) (or_intror H))) v1 (scan_mask d))
    as (out' & v' & Hrun' & Hv' & Hcov); [apply Hstep|done..|].
  exists (out ++ out'), v'. cbn [scan_calls]. rewrite Hrun, bind_some, Hrun', bind_some.
  split_and!; [done|apply Hv'..|]. intros Hle. rewrite fmap_app, elem_of_app.
  destruct (scan_step_key d v k out v1 key Hv Hstep Hkd Hle) as [?|[Hnz Hle1]]; [auto|].
  destruct (Hcov Hle1) as [?|[Hle2 Hnz2]]; [auto|]. right. split; [done|]. intros _.
  destruct ds; [|by apply Hnz2]. cbn in Hrun'. by simplify_eq.
Qed.

(** C22: A scan started with cursor 0 never fails, and when its cursor is 0 again
    every key that was in the dictionary at each call has been returned, whatever
    insertions, deletions, expansions and rehashing steps happened in between,
    provided no call is made while the table is being shrunk. *)
Theorem dictScan_complete ds key :
  Forall dict_ok ds -> ds <> [] -> no_shrink 0 ds ->
  (forall d, d ∈ ds -> is_Some (to_map d !! key)) ->
  exists out v', scan_calls ds 0 = Some (out, v') /\ (v' = 0 -> key ∈ out.*1).
Proof.
  intros Hok Hne Hs Hin.
  destruct (scan_calls_spec ds key Hok) with (v := 0) (m := 0) as (out & v' & Hrun & _ & Hcov);
    try done.
  { intros d Hd. destruct (Hin d Hd) as [x Hx]. apply list_elem_of_fmap.
    exists (key, x). split; [done|]. apply (to_map_lookup hashFunction); [|done].
    rewrite Forall_forall in Hok. by apply Hok. }
  exists out, v'. split; [done|]. intros ->.
  destruct Hcov as [?|[_ Hnz]]; [|done|by destruct (Hnz Hne)].
  change (rev64 0) with 0. apply rev64_is, hash_is_u64.
Qed.

Lemma scan_mask_pow d :
  dict_ok d -> dictSize d <> 0 -> exists k, 0 <= k < 63 /\ scan_mask d = 2 ^ k - 1.
Proof.
  intros Hok Hne. unfold scan_mask. destruct (dictIsRehashing d) eqn:Hre.
  - destruct (scan_tables_spec d Hok Hre) as (t0 & t1 & -> & Hw & _).
    destruct (wf_mask_pow _ Hw) as (k & ? & ? & _). eauto.
  - destruct (wf_mask_pow (ht0 d)) as (k & ? & ? & _); [|by eauto].
    apply (allocated_wf hashFunction d Hok). intros Hz. apply Hne.
    by rewrite (entries_size hashFunction d Hok), (unallocated_entries hashFunction d Hok Hz).
Qed.

(** [n] blocks before the end, [n] calls reach the cursor 0. *)
Lemma scan_run_same d key n k v :
  dict_ok d -> key ∈ (entries d).*1 -> 0 <= k < 63 -> scan_mask d = 2 ^ k - 1 -> is_u64 v ->
  v <= scan_mask d -> rev64 v = (2 ^ k - Z.of_nat n) * 2 ^ (64 - k) ->
  exists out, scan_calls (replicate n d) v = Some (out, 0).
Proof.
  intros Hok Hkey Hk Hm. revert v. assert (2 ^ k * 2 ^ (64 - k) = 2 ^ 64) as Hp.
  { rewrite <- Z.pow_add_r by lia. f_equal. lia. }
  induction n as [|n IH]; intros v Hv Hle Hrev.
  - pose proof (rev64_is v Hv) as Hr. rewrite Hrev, Z.sub_0_r, Hp in Hr. unfold is_u64 in Hr. lia.
  - destruct (dictScan_call d v (scan_mask d) key Hok Hv Hle (fun _ => Z.le_refl _) Hkey)
      as (k' & out & v1 & Hrun1 & (Hk' & Hm' & Hv1 & Hrev1 & _) & Hle1).
    assert (k' = k) as -> by (apply (Z.pow_inj_r 2); lia).
    assert (0 < 2 ^ (64 - k)) by (apply pow2_pos; lia).
    unfold block in Hrev1. rewrite Hrev, Z.div_mul in Hrev1 by lia.
    replace (2 ^ k - Z.of_nat (S n) + 1) with (2 ^ k - Z.of_nat n) in Hrev1 by lia.
    cbn [replicate scan_calls]. rewrite Hrun1, bind_some. destruct n as [|n].
    + rewrite Z.sub_0_r, Hp in Hrev1. change (u64 (2 ^ 64)) with 0 in Hrev1.
      assert (v1 = 0) as -> by by rewrite <- (rev64_involutive v1 Hv1), Hrev1.
      exists (out ++ []). reflexivity.
    + rewrite u64_id in Hrev1.
      * destruct (IH v1 Hv1 Hle1 Hrev1) as [out' ->]. rewrite bind_some. eauto.
      * pose proof (block_bound k v ltac:(lia) Hv) as Hb. unfold block in Hb.
        rewrite Hrev, Z.div_mul in Hb by lia. unfold is_u64. nia.
Qed.

(** On a dictionary that does not change a scan ends: after as many calls as
    the smaller table has buckets the cursor is 0 again. *)
Theorem dictScan_ends d :
  dict_ok d -> dictSize d <> 0 ->
  exists out, scan_calls (replicate (Z.to_nat (scan_mask d + 1)) d) 0 = Some (out, 0).
Proof.
  intros Hok Hne.
  assert (exists key, key ∈ (entries d).*1) as [key Hkey].
  { rewrite (entries_size hashFunction d Hok) in Hne. destruct (entries d) as [|[k x] l]; [done|].
    exists k. apply elem_of_cons. by left. }
  destruct (scan_mask_pow d Hok Hne) as (k & Hk & Hm). rewrite Hm.
  pose proof (pow2_pos k ltac:(lia)).
  apply (scan_run_same d key _ k); try done; unfold is_u64; try lia.
  change (rev64 0) with 0. rewrite Z2Nat.id by lia. lia.
Qed.
End coverage.

(** ** Witnesses *)

(** The key 4 in a table of 16 buckets. *)
Definition small_dict : dict Z Z :=
  match (d ← (fst <$> dictExpand dictCreate 16); fst <$> dictAdd id_hash true 0 d 4 40) with
  | Some d => d
  | None => dictCreate
  end.

(** [small_dict] while it is being resized to 4 buckets. *)
Definition shrinking_dict : dict Z Z :=
  match dictResize true small_dict with Some (d, _) => d | None => dictCreate end.

(** The comment of [dictScan] promises every element present from start to
    end; a scan that goes on while the table shrinks misses one. The key 4 is in
    the table of 16 buckets before, and in the dictionary being resized to 4
    buckets after the first call, but the scan ends without returning it. *)
Theorem dictScan_shrink_misses :
  snd <$> dictFetchValue id_hash small_dict 4 = Some (Some 40) /\
  snd <$> dictFetchValue id_hash shrinking_dict 4 = Some (Some 40) /\
  dictIsRehashing shrinking_dict = true /\
  scan_calls (small_dict :: replicate 4 shrinking_dict) 0 = Some ([], 0).
Proof. vm_compute. done. Qed.

(** A dictionary that grows while it is scanned. *)
Lemma dictScan_complete_witness :
  exists out v', scan_calls [moving_dict; moving_dict; moving_dict; moving_dict] 0 = Some (out, v') /\
    (v' = 0 -> 5 ∈ out.*1).
Proof.
  apply (dictScan_complete id_hash).
  - by repeat (apply Forall_cons; split; [exact moving_dict_ok|]).
  - done.
  - vm_compute. repeat split; done.
  - intros d Hd. repeat (apply elem_of_cons in Hd as [->|Hd]; [vm_compute; by eexists|]).
    by apply not_elem_of_nil in Hd.
Defined.

Lemma dictScan_ends_witness :
  exists out, scan_calls (replicate (Z.to_nat (scan_mask moving_dict + 1)) moving_dict) 0
    = Some (out, 0).
Proof. apply (dictScan_ends id_hash); [exact moving_dict_ok|vm_compute; done]. Defined.
