(* ===== verification/Hash.v ===== *)
(** * Hash functions (dictIntHashFunction, dictGenHashFunction and
    dictGenCaseHashFunction of src/redis-2.8.19/src/dict.c)

    Unsigned 32-bit arithmetic; a read outside the buffer is [None]. The two
    functions on buffers take the seed as an argument. *)
From S2P Require Import Prelude Util.
Open Scope Z_scope.

Definition not32 (x : Z) : Z := u32 (Z.lnot x).

Definition dictIntHashFunction (key : Z) : Z :=
  let key := u32 (key + not32 (u32 (Z.shiftl key 15))) in
  let key := Z.lxor key (Z.shiftr key 10) in
  let key := u32 (key + u32 (Z.shiftl key 3)) in
  let key := Z.lxor key (Z.shiftr key 6) in
  let key := u32 (key + not32 (u32 (Z.shiftl key 11))) in
  Z.lxor key (Z.shiftr key 16).

Definition murmur_m : Z := 1540483477.

(** [while(len >= 4)]; the words are little endian. *)
Fixpoint murmur_loop (fuel : nat) (data : list Z) (pos len h : Z) : option (Z * Z * Z) :=
  if len >=? 4 then
    match fuel with
    | O => None
    | S fuel =>
        w ← rd_block data pos 4;
        let k := le_val w in
        let k := u32 (k * murmur_m) in
        let k := Z.lxor k (Z.shiftr k 24) in
        let k := u32 (k * murmur_m) in
        let h := u32 (h * murmur_m) in
        murmur_loop fuel data (pos + 4) (len - 4) (Z.lxor h k)
    end
  else Some (pos, len, h).

(** The [switch(len)], whose cases fall through. *)
Definition murmur_tail (data : list Z) (pos len h : Z) : option Z :=
  h ← (if len =? 3 then b ← rd data (pos + 2); Some (Z.lxor h (Z.shiftl b 16)) else Some h);
  h ← (if (len =? 3) || (len =? 2) then b ← rd data (pos + 1); Some (Z.lxor h (Z.shiftl b 8))
       else Some h);
  if (len =? 3) || (len =? 2) || (len =? 1) then
    b ← rd data pos; Some (u32 (Z.lxor h b * murmur_m))
  else Some h.

Definition dictGenHashFunction (seed : Z) (key : list Z) (len : Z) : option Z :=
  '(pos, len, h) ← murmur_loop (Z.to_nat len) key 0 len (u32 (Z.lxor seed len));
  h ← murmur_tail key pos len h;
  let h := Z.lxor h (Z.shiftr h 13) in
  let h := u32 (h * murmur_m) in
  Some (Z.lxor h (Z.shiftr h 15)).

(** [n] turns of [while (len--)]. *)
Fixpoint case_hash_loop (n : nat) (buf : list Z) (pos hash : Z) : option Z :=
  match n with
  | O => Some hash
  | S n =>
      c ← rd buf pos;
      case_hash_loop n buf (pos + 1) (u32 (u32 (u32 (Z.shiftl hash 5) + hash) + to_lower c))
  end.

Definition dictGenCaseHashFunction (seed : Z) (buf : list Z) (len : Z) : option Z :=
  case_hash_loop (Z.to_nat len) buf 0 (u32 seed).

(** ** The integer mix is injective *)

Lemma xorshift_inj w x y n :
  0 < n -> 0 <= w -> 0 <= x < 2 ^ w -> 0 <= y < 2 ^ w ->
  Z.lxor x (Z.shiftr x n) = Z.lxor y (Z.shiftr y n) -> x = y.
Proof.
  intros Hn Hw Hx Hy Heq.
  assert (forall (k : nat) i, 0 <= i -> w - Z.of_nat k <= i -> Z.testbit x i = Z.testbit y i) as Hb.
  { assert (forall z i, 0 <= z < 2 ^ w -> w <= i -> Z.testbit z i = false) as Hhigh.
    { intros z i Hz Hi. rewrite <- (Z.mod_small z (2 ^ w)) by done.
      by apply Z.mod_pow2_bits_high. }
    induction k as [|k IH]; intros i Hi Hik.
    - by rewrite !Hhigh by (done || lia).
    - apply (f_equal (fun z => Z.testbit z i)) in Heq.
      rewrite !Z.lxor_spec, !Z.shiftr_spec, (IH (i + n)) in Heq by lia.
      destruct (Z.testbit x i), (Z.testbit y i), (Z.testbit y (i + n)); done. }
  apply Z.bits_inj'. intros i Hi. apply (Hb (Z.to_nat w)); lia.
Qed.

Lemma xorshift_range w x n :
  0 <= n -> 0 <= w -> 0 <= x < 2 ^ w -> 0 <= Z.lxor x (Z.shiftr x n) < 2 ^ w.
Proof.
  intros Hn Hw Hx.
  assert (0 <= Z.lxor x (Z.shiftr x n)) by (apply Z.lxor_nonneg; rewrite Z.shiftr_nonneg; lia).
  split; [done|]. rewrite <- (Z.mod_small (Z.lxor _ _) (2 ^ w)).
  { apply Z.mod_pos_bound, Z.pow_pos_nonneg; lia. }
  split; [done|]. assert (forall z i, 0 <= z < 2 ^ w -> w <= i -> Z.testbit z i = false) as Hhigh.
  { intros z i Hz Hi. rewrite <- (Z.mod_small z (2 ^ w)) by done. by apply Z.mod_pow2_bits_high. }
  assert (Z.lxor x (Z.shiftr x n) mod 2 ^ w = Z.lxor x (Z.shiftr x n)) as <-.
  { apply Z.bits_inj'. intros i Hi. destruct (Z.ltb_spec i w).
    - by rewrite Z.mod_pow2_bits_low.
    - rewrite Z.mod_pow2_bits_high, Z.lxor_spec, Z.shiftr_spec, !Hhigh by (done || lia). done. }
  apply Z.mod_pos_bound, Z.pow_pos_nonneg; lia.
Qed.
(** An addition of a shifted copy, complemented or not, is an odd multiple. *)
Lemma mix_step_inj a b n x y :
  0 < n < 32 -> (a = 1 \/ a = -1) -> 0 <= x < 2 ^ 32 -> 0 <= y < 2 ^ 32 ->
  u32 (x + a * (x * 2 ^ n) + b) = u32 (y + a * (y * 2 ^ n) + b) -> x = y.
Proof.
  intros Hn Ha Hx Hy Heq. unfold uwrap in Heq.
  assert ((2 ^ 32 | (x - y) * (1 + a * 2 ^ n))) as Hdiv.
  { apply Z.mod_divide; [lia|].
    replace ((x - y) * (1 + a * 2 ^ n))
      with ((x + a * (x * 2 ^ n) + b) - (y + a * (y * 2 ^ n) + b)) by lia.
    by rewrite Zminus_mod, Heq, Z.sub_diag. }
  rewrite Z.mul_comm in Hdiv. apply Z.gauss in Hdiv as [q Hq].
  - assert (q = 0) by nia. lia.
  - apply Z.coprime_pow_l; [lia|]. apply Z.bezout_1_gcd.
    exists (- (a * 2 ^ (n - 1))), 1.
    replace (2 ^ n) with (2 ^ (n - 1) * 2); [lia|].
    rewrite Z.mul_comm, <- Z.pow_succ_r by lia. f_equal. lia.
Qed.

Lemma not32_eq x : not32 (u32 x) = u32 (- x - 1).
Proof.
  unfold not32, uwrap. rewrite <- (Z.mod_add (- x - 1) (x / 2 ^ 32)) by lia. f_equal.
  unfold Z.lnot. rewrite (Z.mod_eq x) by lia. lia.
Qed.

(** Each of the six steps as a function on 32-bit words. *)
Definition mix_add (a b n x : Z) : Z := u32 (x + a * (x * 2 ^ n) + b).
Definition mix_xor (n x : Z) : Z := Z.lxor x (Z.shiftr x n).

Lemma mix_add_not n x : 0 <= n -> u32 (x + not32 (u32 (Z.shiftl x n))) = mix_add (-1) (-1) n x.
Proof.
  intros. rewrite not32_eq, Z.shiftl_mul_pow2 by lia. unfold mix_add, uwrap.
  rewrite Z.add_mod_idemp_r by lia. f_equal. lia.
Qed.

Lemma mix_add_shift n x : 0 <= n -> u32 (x + u32 (Z.shiftl x n)) = mix_add 1 0 n x.
Proof.
  intros. rewrite Z.shiftl_mul_pow2 by lia. unfold mix_add, uwrap.
  rewrite Z.add_mod_idemp_r by lia. f_equal. lia.
Qed.

Lemma mix_eq x :
  dictIntHashFunction x =
  mix_xor 16 (mix_add (-1) (-1) 11 (mix_xor 6 (mix_add 1 0 3 (mix_xor 10 (mix_add (-1) (-1) 15 x))))).
Proof.
  unfold dictIntHashFunction. rewrite !mix_add_not by lia. rewrite mix_add_shift by lia.
  unfold mix_xor. reflexivity.
Qed.

Lemma mix_range a b n x : 0 <= mix_add a b n x < 2 ^ 32.
Proof. apply uwrap_range. lia. Qed.

Lemma mix_xor_range n x : 0 <= n -> 0 <= x < 2 ^ 32 -> 0 <= mix_xor n x < 2 ^ 32.
Proof. intros. apply xorshift_range; lia. Qed.

Lemma mix_xor_inj n x y :
  0 < n -> 0 <= x < 2 ^ 32 -> 0 <= y < 2 ^ 32 -> mix_xor n x = mix_xor n y -> x = y.
Proof. intros. by apply (xorshift_inj 32 x y n). Qed.

Lemma mix_add_inj a b n x y :
  0 < n < 32 -> (a = 1 \/ a = -1) -> 0 <= x < 2 ^ 32 -> 0 <= y < 2 ^ 32 ->
  mix_add a b n x = mix_add a b n y -> x = y.
Proof. apply mix_step_inj. Qed.

#[local] Hint Resolve mix_range mix_xor_range : core.

(** The integer hash loses nothing: two 32-bit keys with the same hash are
    equal. *)
Theorem dictIntHashFunction_inj x y :
  0 <= x < 2 ^ 32 -> 0 <= y < 2 ^ 32 ->
  dictIntHashFunction x = dictIntHashFunction y -> x = y.
Proof.
  intros Hx Hy. rewrite !mix_eq. intros H.
  do 3 (apply mix_xor_inj in H; [|lia|auto with lia|auto with lia];
        apply mix_add_inj in H; [|lia|lia|auto with lia|auto with lia]).
  done.
Qed.

Lemma dictIntHashFunction_inj_witness :
  (0 <= 7 < 2 ^ 32) /\ dictIntHashFunction 7 = dictIntHashFunction 7 /\ 7 = 7.
Proof.
  split; [lia|]. split; [reflexivity|]. apply (dictIntHashFunction_inj 7 7); [lia|lia|reflexivity].
Defined.

(** ** The hash of buffers *)

Lemma case_hash_eq n : forall buf buf' pos h,
  0 <= pos -> pos + Z.of_nat n <= zlen buf -> map to_lower buf = map to_lower buf' ->
  case_hash_loop n buf pos h = case_hash_loop n buf' pos h /\
  is_Some (case_hash_loop n buf pos h).
Proof.
  induction n as [|n IH]; intros buf buf' pos h Hp Hn Heq; [by split; [|eexists]|].
  cbn [case_hash_loop]. destruct (rd_is_Some buf pos ltac:(lia)) as [c Hc].
  assert (exists c', rd buf' pos = Some c' /\ to_lower c' = to_lower c) as (c' & Hc' & Hlow).
  { pose proof (f_equal (fun l => l !! Z.to_nat pos) Heq) as Hl.
    unfold rd in *. destruct (Z.leb_spec 0 pos); [|lia].
    change (map to_lower buf) with (to_lower <$> buf) in Hl.
    change (map to_lower buf') with (to_lower <$> buf') in Hl.
    rewrite !list_lookup_fmap, Hc in Hl. destruct (buf' !! Z.to_nat pos) as [c'|]; [|done].
    exists c'. split; [done|]. simpl in Hl. congruence. }
  rewrite Hc, Hc'. cbn [mbind option_bind]. rewrite Hlow. apply IH; [lia|lia|done].
Qed.

(** The hash of the command tables reads only the buffer and agrees with
    the comparison of their keys: strings equal up to case have equal hashes. *)
Theorem dictGenCaseHashFunction_nocase seed u w :
  strcase_eq u w = true ->
  is_Some (dictGenCaseHashFunction seed u (zlen u)) /\
  dictGenCaseHashFunction seed w (zlen w) = dictGenCaseHashFunction seed u (zlen u).
Proof.
  unfold strcase_eq. intros Heq%bool_decide_eq_true.
  assert (zlen w = zlen u) as ->.
  { unfold zlen. by rewrite <- (length_map to_lower w), <- Heq, length_map. }
  unfold dictGenCaseHashFunction.
  destruct (case_hash_eq (Z.to_nat (zlen u)) u w 0 (u32 seed)) as [-> ?];
    [lia|rewrite Z2Nat.id by apply zlen_nonneg; lia|done|done].
Qed.

Lemma dictGenCaseHashFunction_nocase_witness :
  strcase_eq (zs "get") (zs "GeT") = true /\
  is_Some (dictGenCaseHashFunction 5381 (zs "get") (zlen (zs "get"))) /\
  dictGenCaseHashFunction 5381 (zs "GeT") (zlen (zs "GeT"))
    = dictGenCaseHashFunction 5381 (zs "get") (zlen (zs "get")).
Proof. split; [reflexivity|]. apply dictGenCaseHashFunction_nocase. reflexivity. Defined.

Lemma murmur_loop_ok fuel : forall data pos len h,
  0 <= pos -> 0 <= len -> pos + len = zlen data -> len <= Z.of_nat fuel ->
  exists pos' len' h', murmur_loop fuel data pos len h = Some (pos', len', h') /\
    0 <= pos' /\ 0 <= len' < 4 /\ pos' + len' = zlen data.
Proof.
  induction fuel as [|fuel IH]; intros data pos len h Hp Hl Hsum Hf; cbn [murmur_loop];
    destruct (Z.geb_spec len 4); try lia.
  - exists pos, len, h. split_and!; [done|lia..].
  - rewrite rd_block_ok by lia. cbn [mbind option_bind]. apply IH; lia.
  - exists pos, len, h. split_and!; [done|lia..].
Qed.

(** The hash of keys is total: it reads exactly the bytes of the buffer. *)
Lemma dictGenHashFunction_total seed key : is_Some (dictGenHashFunction seed key (zlen key)).
Proof.
  unfold dictGenHashFunction. pose proof (zlen_nonneg key).
  destruct (murmur_loop_ok (Z.to_nat (zlen key)) key 0 (zlen key) (u32 (Z.lxor seed (zlen key))))
    as (pos & len & h & -> & Hp & Hl & Hsum); [lia..|].
  cbn [mbind option_bind]. unfold murmur_tail.
  assert (forall i, pos <= i < zlen key -> is_Some (rd key i)) as Hrd
    by (intros i Hi; destruct (rd_is_Some key i ltac:(lia)) as [b ->]; done).
  destruct (Z.eqb_spec len 3), (Z.eqb_spec len 2), (Z.eqb_spec len 1); try lia; simpl;
    repeat match goal with |- context [rd key ?i] =>
      destruct (Hrd i ltac:(lia)) as [? ->]; cbn [mbind option_bind] end; by eexists.
Qed.
