(* ===== verification/Lzf.v ===== *)
(** * LZF compression (src/redis-2.8.19/src/lzf_c.c, lzf_d.c, lzfP.h)

    The compressor and the decompressor on the bytes of their buffers; a pointer is
    an offset into its buffer, a pointer of the hash table an offset from the start
    of the input. The table is on the stack and never initialised (INIT_HTAB is 0):
    it starts as an arbitrary function. The configuration is that of lzfP.h on
    amd64: HLOG is 16, VERY_FAST and CHECK_INPUT are 1, STRICT_ALIGN is 0. *)
From S2P Require Import Prelude.
Open Scope Z_scope.

Definition HLOG : Z := 16.
Definition HSIZE : Z := Z.shiftl 1 HLOG.
Definition MAX_LIT : Z := Z.shiftl 1 5.
Definition MAX_OFF : Z := Z.shiftl 1 13.
Definition MAX_REF : Z := Z.shiftl 1 8 + Z.shiftl 1 3.

(** ** lzf_compress *)

Definition FRST (p0 p1 : Z) : Z := Z.lor (Z.shiftl p0 8) p1.
Definition NEXT (v p2 : Z) : Z := u32 (Z.lor (Z.shiftl v 8) p2).
Definition IDX (h : Z) : Z := Z.land (u32 (Z.shiftr h (3 * 8 - HLOG) - h * 5)) (HSIZE - 1).

(** The hash table, as a function of the slot. *)
Definition set_slot (htab : Z -> Z) (i v : Z) : Z -> Z := fun j => if j =? i then v else htab j.

Record cstate := mkC { ip : Z; op : Z; lit : Z; hval : Z; htab : Z -> Z; obuf : list Z }.

Section compress.
Context (inp : list Z) (out_len : Z).
Let in_end := zlen inp.
Let out_end := out_len.

(** One more literal byte, and the end of its run when that is full. *)
Definition literal (s : cstate) : option cstate :=
  b ← rd inp (ip s);
  out1 ← wr (obuf s) (op s) b;
  let lit1 := lit s + 1 in
  let op1 := op s + 1 in
  if lit1 =? MAX_LIT then
    out2 ← wr out1 (op1 - lit1 - 1) (u8 (lit1 - 1));
    Some (mkC (ip s + 1) (op1 + 1) 0 (hval s) (htab s) out2)
  else Some (mkC (ip s + 1) op1 lit1 (hval s) (htab s) out1).

(** The test for a match at [ref]. *)
Definition is_match (ref ip : Z) : option bool :=
  if (u64 (ip - ref - 1) <? MAX_OFF) && (ip + 4 <? in_end) && (ref >? 0) then
    r ← rd_block inp ref 2;
    p ← rd_block inp ip 2;
    if bool_decide (r = p) then
      r2 ← rd inp (ref + 2); p2 ← rd inp (ip + 2); Some (r2 =? p2)
    else Some false
  else Some false.

(** [n] unrolled comparisons: the length and whether one of them failed. *)
Fixpoint probe (n : nat) (ref ip len : Z) : option (Z * bool) :=
  match n with
  | O => Some (len, false)
  | S n =>
      a ← rd inp (ref + (len + 1));
      b ← rd inp (ip + (len + 1));
      if a =? b then probe n ref ip (len + 1) else Some (len + 1, true)
  end.

(** [do len++; while (len < maxlen && ref[len] == ip[len])]. *)
Fixpoint extend (fuel : nat) (ref ip len maxlen : Z) : option Z :=
  match fuel with
  | O => None
  | S fuel =>
      let len := len + 1 in
      if len <? maxlen then
        a ← rd inp (ref + len);
        b ← rd inp (ip + len);
        if a =? b then extend fuel ref ip len maxlen else Some len
      else Some len
  end.

Definition match_len (ref ip : Z) : option Z :=
  let len := 2 in
  let maxlen := in_end - ip - len in
  let maxlen := if maxlen >? MAX_REF then MAX_REF else maxlen in
  let fuel := Z.to_nat MAX_REF in
  if maxlen >? 16 then
    '(len, stop) ← probe 16 ref ip len;
    if stop : bool then Some len else extend fuel ref ip len maxlen
  else extend fuel ref ip len maxlen.

(** The bytes of a back reference: [len] is the number of octets less two. *)
Definition backref (off len : Z) : list Z :=
  if len <? 7 then [u8 (Z.shiftr off 8 + Z.shiftl len 5); u8 off]
  else [u8 (Z.shiftr off 8 + Z.shiftl 7 5); u8 (len - 7); u8 off].

Inductive turn := Return0 (out : list Z) | Break (s : cstate) | Continue (s : cstate).

Definition matched (s : cstate) (ref : Z) : option turn :=
  let off := u64 (ip s - ref - 1) in
  out1 ← wr (obuf s) (op s - lit s - 1) (u8 (lit s - 1));
  let op1 := op s - b2z (lit s =? 0) in
  if op1 + 3 + 1 >=? out_end then Some (Return0 out1)
  else
    len ← match_len ref (ip s);
    let len := len - 2 in
    let ip1 := ip s + 1 in
    out2 ← wr_block out1 op1 (backref off len);
    let op2 := op1 + zlen (backref off len) + 1 in
    let ip2 := ip1 + (len + 1) in
    if ip2 >=? in_end - 2 then Some (Break (mkC ip2 op2 0 (hval s) (htab s) out2))
    else
      let ip3 := ip2 - 2 in
      b0 ← rd inp ip3;
      b1 ← rd inp (ip3 + 1);
      b2 ← rd inp (ip3 + 2);
      let hval1 := NEXT (FRST b0 b1) b2 in
      let htab1 := set_slot (htab s) (IDX hval1) ip3 in
      b3 ← rd inp (ip3 + 1 + 2);
      let hval2 := NEXT hval1 b3 in
      let htab2 := set_slot htab1 (IDX hval2) (ip3 + 1) in
      Some (Continue (mkC (ip3 + 1 + 1) op2 0 hval2 htab2 out2)).

(** One turn of the main loop. *)
Definition compress_turn (s : cstate) : option turn :=
  b ← rd inp (ip s + 2);
  let hval1 := NEXT (hval s) b in
  let ref := htab s (IDX hval1) in
  let s1 := mkC (ip s) (op s) (lit s) hval1 (set_slot (htab s) (IDX hval1) (ip s)) (obuf s) in
  found ← is_match ref (ip s);
  if found : bool then matched s1 ref
  else if op s >=? out_end then Some (Return0 (obuf s))
  else s2 ← literal s1; Some (Continue s2).

(** The main loop; [Return0] is [return 0]. *)
Fixpoint compress_loop (fuel : nat) (s : cstate) : option turn :=
  if ip s <? in_end - 2 then
    match fuel with
    | O => None
    | S fuel =>
        t ← compress_turn s;
        match t with
        | Continue s => compress_loop fuel s
        | _ => Some t
        end
    end
  else Some (Break s).

(** The last bytes. *)
Fixpoint tail_loop (fuel : nat) (s : cstate) : option cstate :=
  if ip s <? in_end then
    match fuel with
    | O => None
    | S fuel => s ← literal s; tail_loop fuel s
    end
  else Some s.

(** The number of bytes of the result, 0 when it does not fit, and the buffer. *)
Definition lzf_compress (htab0 : Z -> Z) (out : list Z) : option (Z * list Z) :=
  if (in_end =? 0) || (out_len =? 0) then Some (0, out)
  else
    b0 ← rd inp 0;
    b1 ← rd inp 1;
    let s := mkC 0 1 0 (FRST b0 b1) htab0 out in
    t ← compress_loop (length inp) s;
    match t with
    | Return0 out => Some (0, out)
    | Break s | Continue s =>
        if op s + 3 >? out_end then Some (0, obuf s)
        else
          s ← tail_loop 3 s;
          out1 ← wr (obuf s) (op s - lit s - 1) (u8 (lit s - 1));
          Some (op s - b2z (lit s =? 0), out1)
    end.
End compress.

(** ** lzf_decompress *)

(** [do *op++ = *ip++; while (--ctrl)], [n] turns. *)
Fixpoint copy_in (n : nat) (inp : list Z) (ip op : Z) (out : list Z) : option (list Z) :=
  match n with
  | O => Some out
  | S n => b ← rd inp ip; out ← wr out op b; copy_in n inp (ip + 1) (op + 1) out
  end.

(** [*op++ = *ref++], [n] times, within the output. *)
Fixpoint copy_ref (n : nat) (ref op : Z) (out : list Z) : option (list Z) :=
  match n with
  | O => Some out
  | S n => b ← rd out ref; out ← wr out op b; copy_ref n (ref + 1) (op + 1) out
  end.

(** Why [lzf_decompress] gave up. *)
Inductive lzf_errno := E2BIG | EINVAL.

Record dstate := mkD { d_ip : Z; d_op : Z; d_out : list Z }.

Section decompress.
Context (inp : list Z) (out_len : Z).
Let in_end := zlen inp.
Let out_end := out_len.

(** The copy of a back reference, its offset still to be completed. *)
Definition back_reference (s : dstate) (ref len ip : Z) : option (dstate + lzf_errno) :=
  let op := d_op s in
  b ← rd inp ip;
  let ref := ref - b in
  let ip := ip + 1 in
  if op + len + 2 >? out_end then Some (inr E2BIG)
  else if ref <? 0 then Some (inr EINVAL)
  else
    out ← copy_ref (Z.to_nat (len + 2)) ref op (d_out s);
    Some (inl (mkD ip (op + len + 2) out)).

(** One turn of the loop. *)
Definition decompress_turn (s : dstate) : option (dstate + lzf_errno) :=
  ctrl ← rd inp (d_ip s);
  let ip := d_ip s + 1 in
  let op := d_op s in
  if ctrl <? Z.shiftl 1 5 then
    let ctrl := ctrl + 1 in
    if op + ctrl >? out_end then Some (inr E2BIG)
    else if ip + ctrl >? in_end then Some (inr EINVAL)
    else
      out ← copy_in (Z.to_nat ctrl) inp ip op (d_out s);
      Some (inl (mkD (ip + ctrl) (op + ctrl) out))
  else
    let len := Z.shiftr ctrl 5 in
    let ref := op - Z.shiftl (Z.land ctrl 31) 8 - 1 in
    if ip >=? in_end then Some (inr EINVAL)
    else if len =? 7 then
      b ← rd inp ip;
      if ip + 1 >=? in_end then Some (inr EINVAL) else back_reference s ref (len + b) (ip + 1)
    else back_reference s ref len ip.

(** [do ... while (ip < in_end)]. *)
Fixpoint decompress_loop (fuel : nat) (s : dstate) : option (dstate + lzf_errno) :=
  match fuel with
  | O => None
  | S fuel =>
      r ← decompress_turn s;
      match r with
      | inr e => Some (inr e)
      | inl s => if d_ip s <? in_end then decompress_loop fuel s else Some (inl s)
      end
  end.

(** The number of bytes written and the buffer; the error is 0 and [errno]. *)
Definition lzf_decompress (out : list Z) : option (Z * list Z + lzf_errno) :=
  r ← decompress_loop (S (length inp)) (mkD 0 0 out);
  Some (match r with inl s => inl (d_op s, d_out s) | inr e => inr e end).
End decompress.

(** ** What a compressed block means

    A block is a sequence of runs of literal bytes and of references back into the
    output; [n] is the length of a reference less two. *)
Inductive token := Lit (bs : list Z) | Ref (off n : Z).

Definition tok_ok (t : token) : Prop :=
  match t with
  | Lit bs => 1 <= zlen bs <= 32 /\ bytes_ok bs
  | Ref off n => 0 <= off < 8192 /\ 1 <= n <= 262
  end.

Definition enc (t : token) : list Z :=
  match t with
  | Lit bs => (zlen bs - 1) :: bs
  | Ref off n => backref off n
  end.

(** [n] times the byte that lies [off] and one places before the end. *)
Fixpoint copy_back (n : nat) (off : Z) (acc : list Z) : option (list Z) :=
  match n with
  | O => Some acc
  | S n => b ← rd acc (zlen acc - off - 1); copy_back n off (acc ++ [b])
  end.

Definition expand_tok (acc : list Z) (t : token) : option (list Z) :=
  match t with
  | Lit bs => Some (acc ++ bs)
  | Ref off n => copy_back (Z.to_nat (n + 2)) off acc
  end.

Fixpoint expand (acc : list Z) (ts : list token) : option (list Z) :=
  match ts with
  | [] => Some acc
  | t :: ts => acc ← expand_tok acc t; expand acc ts
  end.

Definition encs (ts : list token) : list Z := concat (map enc ts).

Lemma expand_app ts1 ts2 acc :
  expand acc (ts1 ++ ts2) = a ← expand acc ts1; expand a ts2.
Proof.
  revert acc. induction ts1 as [|t ts1 IH]; intros acc; [done|]. cbn [expand app].
  destruct (expand_tok acc t); [apply IH|done].
Qed.

Lemma encs_app ts1 ts2 : encs (ts1 ++ ts2) = encs ts1 ++ encs ts2.
Proof. unfold encs. by rewrite map_app, concat_app. Qed.

Lemma copy_back_zlen n off : forall acc acc',
  copy_back n off acc = Some acc' -> zlen acc' = zlen acc + Z.of_nat n.
Proof.
  induction n as [|n IH]; intros acc acc'; cbn [copy_back]; [intros [= <-]; lia|].
  intros (b & _ & Hc)%bind_Some. rewrite (IH _ _ Hc). zlens. lia.
Qed.

Lemma expand_tok_zlen acc t acc' :
  tok_ok t -> expand_tok acc t = Some acc' -> zlen acc < zlen acc'.
Proof.
  destruct t as [bs|off n]; cbn; intros Hok.
  - intros [= <-]. zlens. lia.
  - intros ->%copy_back_zlen. lia.
Qed.

Lemma expand_zlen ts : forall acc acc',
  Forall tok_ok ts -> expand acc ts = Some acc' -> zlen acc <= zlen acc'.
Proof.
  induction ts as [|t ts IH]; intros acc acc' Hok; cbn [expand]; [intros [= <-]; lia|].
  apply Forall_cons in Hok as [Ht Hts]. intros (a & Ha & He)%bind_Some.
  pose proof (expand_tok_zlen _ _ _ Ht Ha). pose proof (IH _ _ Hts He). lia.
Qed.

(** ** The bytes of a reference *)

Lemma backref_short off n :
  0 <= off < 8192 -> 1 <= n < 7 -> backref off n = [32 * n + off / 256; off mod 256].
Proof.
  intros Ho Hn. unfold backref. destruct (Z.ltb_spec n 7); [|lia].
  rewrite Z.shiftr_div_pow2, Z.shiftl_mul_pow2 by lia. change (2 ^ 8) with 256. change (2 ^ 5) with 32.
  assert (0 <= off / 256 < 32) by (split; [apply Z.div_pos|apply Z.div_lt_upper_bound]; lia).
  rewrite (uwrap_small 8 (_ + _)) by lia. unfold uwrap. change (2 ^ 8) with 256. f_equal. lia.
Qed.

Lemma backref_long off n :
  0 <= off < 8192 -> 7 <= n <= 262 -> backref off n = [224 + off / 256; n - 7; off mod 256].
Proof.
  intros Ho Hn. unfold backref. destruct (Z.ltb_spec n 7); [lia|].
  rewrite Z.shiftr_div_pow2 by lia. change (2 ^ 8) with 256. change (Z.shiftl 7 5) with 224.
  assert (0 <= off / 256 < 32) by (split; [apply Z.div_pos|apply Z.div_lt_upper_bound]; lia).
  rewrite !(uwrap_small 8 (_ + _)), (uwrap_small 8 (_ - _)) by lia. unfold uwrap. change (2 ^ 8) with 256.
  f_equal. lia.
Qed.

Lemma backref_bytes off n : 0 <= off < 8192 -> 1 <= n <= 262 ->
  2 <= zlen (backref off n) <= 3 /\ bytes_ok (backref off n).
Proof.
  intros Ho Hn. unfold backref. destruct (n <? 7); (split; [done|]);
    repeat (constructor; [apply (uwrap_range 8); lia|]); constructor.
Qed.

(** The fields of the first byte. *)
Lemma ctrl_fields c q : 0 <= q < 32 -> 0 <= c < 8 ->
  Z.shiftr (32 * c + q) 5 = c /\ Z.shiftl (Z.land (32 * c + q) 31) 8 = 256 * q.
Proof.
  intros Hq Hc. rewrite Z.shiftr_div_pow2, Z.shiftl_mul_pow2 by lia.
  change 31 with (Z.ones 5). rewrite Z.land_ones by lia. change (2 ^ 5) with 32. change (2 ^ 8) with 256.
  split; Z.to_euclidean_division_equations; lia.
Qed.

(** ** The decompressor follows the tokens *)

Lemma copy_in_ok bs : forall pre post acc junk,
  (length bs <= length junk)%nat ->
  copy_in (length bs) (pre ++ bs ++ post) (zlen pre) (zlen acc) (acc ++ junk)
  = Some (acc ++ bs ++ drop (length bs) junk).
Proof.
  induction bs as [|b bs IH]; intros pre post acc junk Hl; cbn [length copy_in app drop]; [done|].
  rewrite rd_at. cbn [mbind option_bind]. destruct junk as [|j junk]; [simpl in Hl; lia|].
  rewrite wr_here by done. cbn [mbind option_bind].
  replace (pre ++ b :: bs ++ post) with ((pre ++ [b]) ++ bs ++ post) by by rewrite <- app_assoc.
  replace (acc ++ b :: junk) with ((acc ++ [b]) ++ junk) by by rewrite <- app_assoc.
  replace (zlen pre + 1) with (zlen (pre ++ [b])) by (zlens; lia).
  replace (zlen acc + 1) with (zlen (acc ++ [b])) by (zlens; lia).
  rewrite IH by (simpl in Hl; lia). by rewrite <- app_assoc.
Qed.

Lemma copy_ref_ok n off : forall acc acc' junk, 0 <= off ->
  copy_back n off acc = Some acc' -> (n <= length junk)%nat ->
  copy_ref n (zlen acc - off - 1) (zlen acc) (acc ++ junk) = Some (acc' ++ drop n junk).
Proof.
  induction n as [|n IH]; intros acc acc' junk Ho Hc Hl; cbn [copy_ref copy_back] in *.
  { by injection Hc as ->. }
  apply bind_Some in Hc as (b & Hb & Hc). destruct junk as [|j junk]; [simpl in Hl; lia|].
  rewrite rd_app_l, Hb by lia. cbn [mbind option_bind].
  rewrite wr_here by done. cbn [mbind option_bind].
  replace (acc ++ b :: junk) with ((acc ++ [b]) ++ junk) by by rewrite <- app_assoc.
  replace (zlen acc - off - 1 + 1) with (zlen (acc ++ [b]) - off - 1) by (zlens; lia).
  replace (zlen acc + 1) with (zlen (acc ++ [b])) by (zlens; lia).
  by rewrite (IH _ acc') by (done || simpl in Hl; lia).
Qed.

Lemma zlen_nat {A} (l : list A) n : 0 <= n -> zlen l = n -> length l = Z.to_nat n.
Proof. unfold zlen. lia. Qed.

(** The bounds that the decompressor checks hold: the output fits. *)
Section decode.
Context (inp : list Z) (out_len : Z).

Lemma decompress_lit pre bs post acc junk :
  inp = pre ++ enc (Lit bs) ++ post -> 1 <= zlen bs <= 32 ->
  zlen (acc ++ junk) = out_len -> zlen acc + zlen bs <= out_len ->
  decompress_turn inp out_len (mkD (zlen pre) (zlen acc) (acc ++ junk))
  = Some (inl (mkD (zlen pre + zlen (enc (Lit bs))) (zlen (acc ++ bs)) ((acc ++ bs) ++ drop (length bs) junk))).
Proof.
  intros Hi Hb Ho Hfit. unfold decompress_turn. cbn [d_ip d_op d_out enc] in *.
  rewrite Hi at 1. cbn [app]. rewrite rd_at. cbn [mbind option_bind]. change (Z.shiftl 1 5) with 32.
  destruct (Z.ltb_spec (zlen bs - 1) 32); [|lia].
  replace (zlen bs - 1 + 1) with (zlen bs) by lia.
  rewrite zlen_app in Ho. destruct (Z.gtb_spec (zlen acc + zlen bs) out_len); [lia|].
  assert (zlen inp = zlen pre + 1 + zlen bs + zlen post) as Hl by (rewrite Hi; zlens; lia).
  pose proof (zlen_nonneg post). destruct (Z.gtb_spec (zlen pre + 1 + zlen bs) (zlen inp)); [lia|].
  rewrite Z2Nat_inj_zlen. rewrite Hi.
  replace (pre ++ (zlen bs - 1 :: bs) ++ post) with ((pre ++ [zlen bs - 1]) ++ bs ++ post)
    by by rewrite <- app_assoc.
  replace (zlen pre + 1) with (zlen (pre ++ [zlen bs - 1])) by (zlens; lia).
  rewrite copy_in_ok by (unfold zlen in *; lia). cbn [mbind option_bind].
  do 3 f_equal; [zlens; lia|zlens; lia|by rewrite <- app_assoc].
Qed.

Lemma back_reference_ok ip q off n acc acc' junk :
  rd inp ip = Some (off mod 256) -> q = 256 * (off / 256) -> tok_ok (Ref off n) ->
  copy_back (Z.to_nat (n + 2)) off acc = Some acc' ->
  zlen (acc ++ junk) = out_len -> zlen acc' <= out_len -> forall ip0,
  back_reference inp out_len (mkD ip0 (zlen acc) (acc ++ junk)) (zlen acc - q - 1) n ip
  = Some (inl (mkD (ip + 1) (zlen acc') (acc' ++ drop (Z.to_nat (n + 2)) junk))).
Proof.
  intros Hb Hq [Hoff Hn] Hc Ho Hfit ip0. unfold back_reference. cbn [d_op d_out]. rewrite Hb.
  cbn [mbind option_bind]. pose proof (copy_back_zlen _ _ _ _ Hc) as Hz. rewrite Z2Nat.id in Hz by lia.
  assert (0 <= zlen acc - off - 1).
  { replace (Z.to_nat (n + 2)) with (S (Z.to_nat (n + 1))) in Hc by lia.
    cbn [copy_back] in Hc. apply bind_Some in Hc as (b & Hr & _). apply rd_Some_bound in Hr. lia. }
  destruct (Z.gtb_spec (zlen acc + n + 2) out_len); [lia|].
  replace (zlen acc - q - 1 - off mod 256) with (zlen acc - off - 1) by (pose proof (Z.div_mod off 256); lia).
  destruct (Z.ltb_spec (zlen acc - off - 1) 0); [lia|]. rewrite zlen_app in Ho.
  rewrite (copy_ref_ok _ off acc acc') by (done || unfold zlen in *; lia).
  cbn [mbind option_bind]. do 3 f_equal. lia.
Qed.

Lemma decompress_ref pre off n post acc acc' junk :
  inp = pre ++ enc (Ref off n) ++ post -> tok_ok (Ref off n) ->
  copy_back (Z.to_nat (n + 2)) off acc = Some acc' ->
  zlen (acc ++ junk) = out_len -> zlen acc' <= out_len ->
  decompress_turn inp out_len (mkD (zlen pre) (zlen acc) (acc ++ junk))
  = Some (inl (mkD (zlen pre + zlen (enc (Ref off n))) (zlen acc') (acc' ++ drop (Z.to_nat (n + 2)) junk))).
Proof.
  intros Hi Hok Hc Ho Hfit. pose proof Hok as [Hoff Hn]. unfold decompress_turn. cbn [d_ip d_op d_out enc] in *.
  assert (0 <= off / 256 < 32) by (split; [apply Z.div_pos|apply Z.div_lt_upper_bound]; lia).
  change (Z.shiftl 1 5) with 32. pose proof (zlen_nonneg post). pose proof (zlen_nonneg pre).
  assert (forall l, inp = pre ++ l ++ post -> forall k, 0 <= k < zlen l -> rd inp (zlen pre + k) = rd l k) as Hrd.
  { intros l -> k Hk. rewrite rd_app_r, rd_app_l by lia. by replace (zlen pre + k - zlen pre) with k by lia. }
  assert (forall l, inp = pre ++ l ++ post -> zlen pre + zlen l <= zlen inp) as Hlen.
  { intros l ->. zlens. lia. }
  destruct (Z.ltb_spec n 7) as [Hn7|Hn7].
  - rewrite backref_short in Hi |- * by lia. destruct (ctrl_fields n (off / 256)) as [Hf1 Hf2]; [lia..|].
    specialize (Hrd _ Hi). specialize (Hlen _ Hi). rewrite !zlen_cons, zlen_nil in Hlen. pose proof (Hrd 0 ltac:(done)) as Hr0. pose proof (Hrd 1 ltac:(done)) as Hr1.
    rewrite Z.add_0_r in Hr0. change (rd _ 0) with (Some (32 * n + off / 256)) in Hr0.
    rewrite Hr0. cbn [mbind option_bind].
    destruct (Z.ltb_spec (32 * n + off / 256) 32); [lia|]. rewrite Hf1, Hf2.
    destruct (Z.geb_spec (zlen pre + 1) (zlen inp)); [lia|]. destruct (Z.eqb_spec n 7); [lia|].
    rewrite (back_reference_ok _ _ off n acc acc') by done. do 3 f_equal. zlens. lia.
  - rewrite backref_long in Hi |- * by lia. destruct (ctrl_fields 7 (off / 256)) as [Hf1 Hf2]; [lia..|].
    specialize (Hrd _ Hi). specialize (Hlen _ Hi). rewrite !zlen_cons, zlen_nil in Hlen.
    pose proof (Hrd 0 ltac:(done)) as Hr0. pose proof (Hrd 1 ltac:(done)) as Hr1. pose proof (Hrd 2 ltac:(done)) as Hr2.
    rewrite Z.add_0_r in Hr0. change (rd _ 0) with (Some (224 + off / 256)) in Hr0.
    change (rd _ 1) with (Some (n - 7)) in Hr1. rewrite Hr0. change (32 * 7) with 224 in *. cbn [mbind option_bind].
    destruct (Z.ltb_spec (224 + off / 256) 32); [lia|]. rewrite Hf1, Hf2.
    destruct (Z.geb_spec (zlen pre + 1) (zlen inp)); [lia|]. change (7 =? 7) with true. cbv iota.
    rewrite Hr1. cbn [mbind option_bind].
    destruct (Z.geb_spec (zlen pre + 1 + 1) (zlen inp)); [lia|]. replace (7 + (n - 7)) with n by lia.
    replace (zlen pre + 1 + 1) with (zlen pre + 2) by lia.
    rewrite (back_reference_ok _ _ off n acc acc') by done. do 3 f_equal. zlens. lia.
Qed.

(** One token, and all of them. *)
Lemma decompress_token pre t post acc acc' junk :
  inp = pre ++ enc t ++ post -> tok_ok t -> expand_tok acc t = Some acc' ->
  zlen (acc ++ junk) = out_len -> zlen acc' <= out_len ->
  exists junk', decompress_turn inp out_len (mkD (zlen pre) (zlen acc) (acc ++ junk))
  = Some (inl (mkD (zlen (pre ++ enc t)) (zlen acc') (acc' ++ junk'))) /\ zlen (acc' ++ junk') = out_len.
Proof.
  intros Hi Ht He Ho Hfit. rewrite (zlen_app pre). destruct t as [bs|off n]; cbn [expand_tok] in He.
  - injection He as <-. destruct Ht as [Hb _]. exists (drop (length bs) junk). rewrite zlen_app in Hfit. split.
    + by rewrite (decompress_lit pre bs post).
    + unfold zlen in *. rewrite !length_app, length_drop in *. lia.
  - exists (drop (Z.to_nat (n + 2)) junk). split; [by rewrite (decompress_ref pre off n post acc acc')|].
    apply copy_back_zlen in He. unfold zlen in *. rewrite !length_app, length_drop in *. lia.
Qed.

Lemma enc_zlen t : tok_ok t -> 1 < zlen (enc t).
Proof.
  destruct t as [bs|off n]; cbn [enc]; intros [H1 H2].
  - zlens. lia.
  - pose proof (backref_bytes off n H1 H2). lia.
Qed.

Lemma decompress_loop_ok ts : forall pre acc acc' junk fuel,
  inp = pre ++ encs ts -> Forall tok_ok ts -> ts <> [] -> expand acc ts = Some acc' ->
  zlen (acc ++ junk) = out_len -> zlen acc' <= out_len -> (length ts <= fuel)%nat ->
  exists junk', decompress_loop inp out_len fuel (mkD (zlen pre) (zlen acc) (acc ++ junk))
  = Some (inl (mkD (zlen inp) (zlen acc') (acc' ++ junk'))) /\ zlen (acc' ++ junk') = out_len.
Proof.
  induction ts as [|t ts IH]; intros pre acc acc' junk fuel Hi Hok Hne He Ho Hfit Hf; [done|].
  apply Forall_cons in Hok as [Ht Hts]. destruct fuel as [|fuel]; [simpl in Hf; lia|].
  cbn [expand] in He. apply bind_Some in He as (a & Ha & He). pose proof (expand_zlen _ _ _ Hts He).
  assert (encs (t :: ts) = enc t ++ encs ts) as Hc by done. rewrite Hc in Hi.
  destruct (decompress_token pre t (encs ts) acc a junk) as (junk1 & Hrun & Hj); [done..|lia|].
  cbn [decompress_loop]. rewrite Hrun. cbn [mbind option_bind d_ip].
  destruct ts as [|t2 ts].
  - cbn [expand] in He. injection He as ->. assert (zlen (pre ++ enc t) = zlen inp) as Hl.
    { rewrite Hi. unfold encs. cbn. by rewrite app_nil_r. }
    rewrite Hl. destruct (Z.ltb_spec (zlen inp) (zlen inp)); [lia|]. by exists junk1.
  - assert (zlen (pre ++ enc t) < zlen inp).
    { rewrite Hi. apply Forall_cons in Hts as [Ht2 _]. change (encs (t2 :: ts)) with (enc t2 ++ encs ts).
      zlens. pose proof (zlen_nonneg (encs ts)). pose proof (enc_zlen t2 Ht2). lia. }
    destruct (Z.ltb_spec (zlen (pre ++ enc t)) (zlen inp)); [|lia].
    apply (IH (pre ++ enc t) a acc' junk1 fuel); try done; [by rewrite <- app_assoc|simpl in *; lia].
Qed.
End decode.

(** ** The compressor writes tokens *)

Section compress_ok.
Context (inp : list Z) (out_len : Z).
Hypothesis (Hlen : 2 <= zlen inp < 2 ^ 32) (Hbytes : bytes_ok inp).

(** [n] bytes from [ref] are those from [p]. *)
Definition matches (ref p n : Z) : Prop := forall i, 0 <= i < n -> rd inp (ref + i) = rd inp (p + i).

Lemma matches_step ref p n x :
  matches ref p n -> rd inp (ref + n) = Some x -> rd inp (p + n) = Some x -> matches ref p (n + 1).
Proof. intros Hm H1 H2 i Hi. destruct (Z.eq_dec i n) as [->|]; [congruence|apply Hm; lia]. Qed.

Lemma probe_ok ref p n : forall len, 0 <= len -> 0 < ref < p -> p + len + Z.of_nat n < zlen inp ->
  matches ref p (len + 1) ->
  exists len' stop, probe inp n ref p len = Some (len', stop) /\ len <= len' <= len + Z.of_nat n /\
    (stop = true -> len < len' /\ matches ref p len') /\
    (stop = false -> len' = len + Z.of_nat n /\ matches ref p (len' + 1)).
Proof.
  induction n as [|n IH]; intros len Hl Hr Hp Hm; cbn [probe].
  { exists len, false. split_and!; [done|lia|lia|done|]. intros _. split; [lia|done]. }
  destruct (rd_is_Some inp (ref + (len + 1))) as [a Ha]; [lia|].
  destruct (rd_is_Some inp (p + (len + 1))) as [b Hb]; [lia|].
  rewrite Ha, Hb. cbn [mbind option_bind]. destruct (Z.eqb_spec a b) as [<-|].
  - destruct (IH (len + 1)) as (len' & stop & -> & Hb' & Ht & Hf); [lia..|by eapply matches_step|].
    exists len', stop. split_and!; [done|lia|lia|..].
    + intros Hs. destruct (Ht Hs). split; [lia|done].
    + intros Hs. destruct (Hf Hs). split; [lia|done].
  - exists (len + 1), true. split_and!; [done|lia|lia| |done]. intros _. split; [lia|done].
Qed.

Lemma extend_ok ref p maxlen fuel : forall len, 0 <= len -> 0 < ref < p -> p + maxlen <= zlen inp ->
  matches ref p (len + 1) -> maxlen - len <= Z.of_nat fuel -> (0 < fuel)%nat ->
  exists len', extend inp fuel ref p len maxlen = Some len' /\ len < len' <= Z.max maxlen (len + 1) /\
    matches ref p len'.
Proof.
  induction fuel as [|fuel IH]; intros len Hl Hr Hp Hm Hf Hf0; [lia|]. cbn [extend].
  destruct (Z.ltb_spec (len + 1) maxlen).
  - destruct (rd_is_Some inp (ref + (len + 1))) as [a Ha]; [lia|].
    destruct (rd_is_Some inp (p + (len + 1))) as [b Hb]; [lia|].
    rewrite Ha, Hb. cbn [mbind option_bind]. destruct (Z.eqb_spec a b) as [<-|].
    + destruct (IH (len + 1)) as (len' & -> & Hb' & Hm'); [lia..|by eapply matches_step|lia|lia|].
      exists len'. split_and!; [done|lia|lia|done].
    + exists (len + 1). split_and!; [done|lia|lia|done].
  - exists (len + 1). split_and!; [done|lia|lia|done].
Qed.

Lemma match_len_ok ref p : 0 < ref < p -> p + 4 < zlen inp -> matches ref p 3 ->
  exists len, match_len inp ref p = Some len /\ 3 <= len <= 264 /\ p + len <= zlen inp /\ matches ref p len.
Proof.
  intros Hr Hp Hm. unfold match_len. change MAX_REF with 264.
  set (m := if zlen inp - p - 2 >? 264 then 264 else zlen inp - p - 2).
  assert (3 <= m <= 264 /\ m <= zlen inp - p - 2) as [Hm1 Hm2].
  { unfold m. destruct (Z.gtb_spec (zlen inp - p - 2) 264); lia. }
  cbv zeta. destruct (Z.gtb_spec m 16).
  - destruct (probe_ok ref p 16 2) as (len & stop & -> & Hb & Ht & Hf); [lia..|done|].
    cbn [mbind option_bind]. destruct stop.
    + destruct (Ht eq_refl) as [? Hm']. exists len. split_and!; [done|lia|lia|lia|done].
    + destruct (Hf eq_refl) as [-> Hm'].
      destruct (extend_ok ref p m (Z.to_nat 264) (2 + Z.of_nat 16)) as (len & -> & Hl & Hm3); [lia..|done|lia|lia|].
      exists len. split_and!; [done|lia|lia|lia|done].
  - destruct (extend_ok ref p m (Z.to_nat 264) 2) as (len & -> & Hl & Hm3); [lia..|done|lia|lia|].
    exists len. split_and!; [done|lia|lia|lia|done].
Qed.

Lemma is_match_ok ref p : - 2 ^ 63 <= ref < 2 ^ 63 -> 0 <= p < zlen inp ->
  exists found, is_match inp ref p = Some found /\
    (found = true -> 0 < ref < p /\ u64 (p - ref - 1) = p - ref - 1 /\ p - ref - 1 < 8192 /\ p + 4 < zlen inp /\ matches ref p 3).
Proof using Hlen.
  intros Hr Hp. unfold is_match. change MAX_OFF with 8192.
  destruct (Z.ltb_spec (u64 (p - ref - 1)) 8192) as [Ho|], (Z.ltb_spec (p + 4) (zlen inp)), (Z.gtb_spec ref 0);
    cbn [andb]; try by exists false.
  assert (ref < p /\ u64 (p - ref - 1) = p - ref - 1) as [Hlt Hu].
  { destruct (Z.lt_ge_cases ref p); [split; [done|apply uwrap_small; lia]|]. exfalso.
    unfold uwrap in Ho. rewrite <- (Z.mod_add _ 1) in Ho by lia. rewrite Z.mod_small in Ho; lia. }
  rewrite !rd_block_ok by lia. cbn [mbind option_bind].
  assert (forall q, 0 <= q -> q + 2 < zlen inp -> exists x y z, rd inp q = Some x /\ rd inp (q + 1) = Some y /\
    rd inp (q + 2) = Some z /\ take (Z.to_nat 2) (drop (Z.to_nat q) inp) = [x; y]) as Hget.
  { intros q Hq1 Hq2. destruct (rd_is_Some inp q) as [x Hx]; [lia|].
    destruct (rd_is_Some inp (q + 1)) as [y Hy]; [lia|]. destruct (rd_is_Some inp (q + 2)) as [z Hz]; [lia|].
    exists x, y, z. split_and!; [done..|]. unfold rd in Hx, Hy.
    destruct (Z.leb_spec 0 q), (Z.leb_spec 0 (q + 1)); try lia.
    replace (Z.to_nat (q + 1)) with (S (Z.to_nat q)) in Hy by lia.
    rewrite (drop_S _ _ _ Hx), (drop_S _ _ _ Hy). done. }
  destruct (Hget ref) as (x & y & z & Hx & Hy & Hz & ->); [lia..|].
  destruct (Hget p) as (x' & y' & z' & Hx' & Hy' & Hz' & ->); [lia..|].
  destruct (bool_decide_reflect ([x; y] = [x'; y'])) as [[= <- <-]|]; [|by exists false].
  rewrite Hz, Hz'. cbn [mbind option_bind]. exists (z =? z'). split; [done|]. intros <-%Z.eqb_eq.
  split_and!; [lia..|]. intros i Hi.
  assert (i = 0 \/ i = 1 \/ i = 2) as [->|[->| ->]] by lia; rewrite ?Z.add_0_r; congruence.
Qed.

(** A match reads back as the bytes it stands for. *)
Lemma copy_back_match ref n : forall p, 0 < ref < p -> p + Z.of_nat n <= zlen inp -> matches ref p (Z.of_nat n) ->
  copy_back n (p - ref - 1) (take (Z.to_nat p) inp) = Some (take (Z.to_nat (p + Z.of_nat n)) inp).
Proof.
  revert ref. induction n as [|n IH]; intros ref p Hr Hp Hm; cbn [copy_back]; [by rewrite Z.add_0_r|].
  rewrite zlen_take by lia. destruct (rd_is_Some inp p) as [b Hb]; [lia|].
  assert (rd (take (Z.to_nat p) inp) (p - (p - ref - 1) - 1) = Some b) as ->.
  { replace (p - (p - ref - 1) - 1) with ref by lia. pose proof (Hm 0 ltac:(lia)) as H0.
    rewrite !Z.add_0_r, Hb in H0. rewrite <- H0. unfold rd.
    destruct (Z.leb_spec 0 ref); [|lia]. apply lookup_take_lt. lia. }
  cbn [mbind option_bind].
  assert (take (Z.to_nat p) inp ++ [b] = take (Z.to_nat (p + 1)) inp) as ->.
  { replace (Z.to_nat (p + 1)) with (S (Z.to_nat p)) by lia. symmetry. apply take_S_r.
    unfold rd in Hb. by destruct (Z.leb_spec 0 p); [|lia]. }
  replace (p - ref - 1) with (p + 1 - (ref + 1) - 1) by lia. rewrite (IH (ref + 1)); [f_equal; f_equal; lia|lia|lia|].
  intros i Hi. replace (ref + 1 + i) with (ref + (i + 1)) by lia. replace (p + 1 + i) with (p + (i + 1)) by lia.
  apply Hm. lia.
Qed.

(** The tokens written so far, the run of literals that is open and, before it, the
    place of its first byte. *)
Record inv (s : cstate) (ts : list token) (ls : list Z) : Prop := mkInv {
  inv_toks : Forall tok_ok ts;
  inv_lits : zlen ls = lit s /\ lit s < 32;
  inv_ip : 0 <= ip s <= zlen inp;
  inv_expand : exists d, expand [] ts = Some d /\ d ++ ls = take (Z.to_nat (ip s)) inp;
  inv_out : exists h rest, obuf s = encs ts ++ h :: ls ++ rest;
  inv_op : op s = zlen (encs ts) + 1 + zlen ls;
  inv_fit : op s <= out_len + 1 /\ zlen (obuf s) = out_len + 1;
  inv_tab : forall i, - 2 ^ 63 <= htab s i < 2 ^ 63
}.

Lemma take_snoc p b : 0 <= p -> rd inp p = Some b -> take (Z.to_nat (p + 1)) inp = take (Z.to_nat p) inp ++ [b].
Proof.
  intros Hp Hb. replace (Z.to_nat (p + 1)) with (S (Z.to_nat p)) by lia. apply take_S_r.
  unfold rd in Hb. by destruct (Z.leb_spec 0 p); [|lia].
Qed.

(** The open run becomes a token when its length is written in front of it. *)
Lemma close_run ts ls h rest out d p :
  out = encs ts ++ h :: ls ++ rest -> Forall tok_ok ts -> 1 <= zlen ls <= 32 -> bytes_ok ls ->
  expand [] ts = Some d -> d ++ ls = p ->
  wr out (zlen (encs ts)) (u8 (zlen ls - 1)) = Some (encs (ts ++ [Lit ls]) ++ rest) /\
  Forall tok_ok (ts ++ [Lit ls]) /\ expand [] (ts ++ [Lit ls]) = Some p.
Proof.
  intros -> Hok Hl Hb Hd <-. rewrite wr_here by done. split_and!.
  - rewrite encs_app. unfold encs at 3. cbn [map concat enc]. rewrite app_nil_r, <- app_assoc.
    rewrite uwrap_small by lia. done.
  - rewrite Forall_app, Forall_singleton. done.
  - rewrite expand_app, Hd. done.
Qed.

Lemma inv_bytes s ts ls : inv s ts ls -> bytes_ok ls.
Proof using Hbytes.
  intros [_ _ _ (d & _ & Hd) _ _ _ _]. assert (bytes_ok (d ++ ls)) as [_ ?]%Forall_app; [|done].
  rewrite Hd. by apply Forall_take.
Qed.

Lemma literal_ok s ts ls : inv s ts ls -> ip s < zlen inp -> op s < out_len ->
  exists s' ts' ls', literal inp s = Some s' /\ inv s' ts' ls' /\ ip s' = ip s + 1 /\
    (lit s < 31 -> op s' = op s + 1) /\ (op s' = op s + 1 \/ op s' = op s + 2 /\ lit s' = 0).
Proof using Hbytes Hlen.
  intros Hinv Hip Hop. pose proof (inv_bytes _ _ _ Hinv) as Hbl.
  destruct Hinv as [Hok [Hl1 Hl2] Hi (d & Hd & Hdl) (h & rest & Ho) Hop' [Hf1 Hf2] Htab].
  pose proof (zlen_nonneg (encs ts)). pose proof (zlen_nonneg ls).
  destruct (rd_is_Some inp (ip s)) as [b Hb]; [lia|]. unfold literal. rewrite Hb. cbn [mbind option_bind].
  assert (byte_ok b) as Hbb by by eapply rd_Forall in Hb.
  assert (bytes_ok (ls ++ [b])) by by rewrite Forall_app, Forall_singleton.
  destruct rest as [|r rest]; [rewrite Ho in Hf2; revert Hf2; zlens; lia|].
  assert (wr (obuf s) (op s) b = Some (encs ts ++ h :: (ls ++ [b]) ++ rest)) as ->.
  { rewrite Ho. replace (encs ts ++ h :: ls ++ r :: rest) with ((encs ts ++ h :: ls) ++ r :: rest)
      by by rewrite <- app_assoc. rewrite wr_here by (zlens; lia). by rewrite <- !app_assoc. }
  cbn [mbind option_bind]. cbv zeta. change MAX_LIT with 32.
  assert (d ++ ls ++ [b] = take (Z.to_nat (ip s + 1)) inp) as Hd'.
  { rewrite (take_snoc _ b) by (done || lia). by rewrite <- Hdl, <- app_assoc. }
  assert (zlen (encs ts ++ h :: (ls ++ [b]) ++ rest) = out_len + 1) as Hlen'.
  { rewrite <- Hf2, Ho. zlens. lia. }
  destruct (Z.eqb_spec (lit s + 1) 32).
  - assert (zlen (ls ++ [b]) = 32) as H32 by (zlens; lia).
    destruct (close_run ts (ls ++ [b]) h rest _ d _ eq_refl Hok ltac:(lia) ltac:(done) Hd Hd') as (Hw & Ht & He).
    replace (op s + 1 - (lit s + 1) - 1) with (zlen (encs ts)) by lia.
    replace (lit s + 1 - 1) with (zlen (ls ++ [b]) - 1) by lia. rewrite Hw. cbn [mbind option_bind].
    assert (zlen (encs (ts ++ [Lit (ls ++ [b])])) = zlen (encs ts) + 33) as Hz.
    { rewrite encs_app. unfold encs at 2. cbn [map concat enc]. rewrite app_nil_r. rewrite zlen_app, zlen_cons. lia. }
    assert (zlen (encs (ts ++ [Lit (ls ++ [b])]) ++ rest) = out_len + 1) as Hz2.
    { rewrite <- Hlen'. rewrite zlen_app, Hz. rewrite (zlen_app (encs ts)), zlen_cons, (zlen_app _ rest). lia. }
    destruct rest as [|r' rest]; [rewrite app_nil_r in Hz2; lia|].
    eexists _, _, []. split; [reflexivity|]. split; [|cbn; split_and!; [lia..|]; right; lia].
    constructor; cbn; try done; try lia.
    + eexists. split; [exact He|]. by rewrite app_nil_r.
    + by exists r', rest.
    + change (zlen (@nil Z)) with 0. lia.
  - eexists _, ts, (ls ++ [b]). split; [reflexivity|]. split; [|cbn; split_and!; [lia..|]; left; lia].
    assert (zlen (ls ++ [b]) = zlen ls + 1) by (zlens; lia).
    constructor; cbn; try done; try lia; by eauto.
Qed.

(** The end of the open run, empty or not. *)
Lemma flush_ok s ts ls : inv s ts ls ->
  exists out1 ts1 rest1, wr (obuf s) (op s - lit s - 1) (u8 (lit s - 1)) = Some out1 /\
    out1 = encs ts1 ++ rest1 /\ Forall tok_ok ts1 /\ expand [] ts1 = Some (take (Z.to_nat (ip s)) inp) /\
    zlen out1 = out_len + 1 /\ op s - b2z (lit s =? 0) = zlen (encs ts1).
Proof using Hbytes Hlen.
  intros Hinv. pose proof (inv_bytes _ _ _ Hinv) as Hbl.
  destruct Hinv as [Hok [Hl1 Hl2] Hi (d & Hd & Hdl) (h & rest & Ho) Hop' [Hf1 Hf2] Htab].
  pose proof (zlen_nonneg ls). replace (op s - lit s - 1) with (zlen (encs ts)) by lia.
  destruct (Z.eqb_spec (lit s) 0) as [H0|H0]; cbn [b2z].
  - assert (ls = []) as -> by (apply zlen_zero; lia). rewrite Ho, wr_here by done. cbn [app] in *.
    eexists _, ts, (u8 (lit s - 1) :: rest). split; [reflexivity|]. split_and!; [done..| | |].
    + by rewrite Hd, <- Hdl, app_nil_r.
    + rewrite <- Hf2, Ho. zlens. lia.
    + change (zlen (@nil Z)) with 0 in *. lia.
  - destruct (close_run ts ls h rest _ d _ Ho Hok ltac:(lia) Hbl Hd Hdl) as (Hw & Ht & He).
    rewrite <- Hl1. rewrite Hw. eexists _, _, rest. split; [reflexivity|].
    assert (zlen (encs (ts ++ [Lit ls])) = zlen (encs ts) + 1 + zlen ls) as Hz.
    { rewrite encs_app. unfold encs at 2. cbn [map concat enc]. rewrite app_nil_r. rewrite zlen_app, zlen_cons. lia. }
    split_and!; [done..| |lia]. rewrite zlen_app, Hz, <- Hf2, Ho, zlen_app, zlen_cons, zlen_app. lia.
Qed.

Lemma set_slot_range (t : Z -> Z) i v :
  (forall j, - 2 ^ 63 <= t j < 2 ^ 63) -> - 2 ^ 63 <= v < 2 ^ 63 -> forall j, - 2 ^ 63 <= set_slot t i v j < 2 ^ 63.
Proof. intros Ht Hv j. unfold set_slot. by destruct (j =? i). Qed.

(** What a turn leaves: it goes on past where it started, or stops near the end. *)
Definition turn_ok (s : cstate) (t : turn) : Prop :=
  match t with
  | Return0 _ => True
  | Break s' => (exists ts ls, inv s' ts ls) /\ zlen inp - 2 <= ip s'
  | Continue s' => (exists ts ls, inv s' ts ls) /\ ip s < ip s'
  end.

(** After a reference, an empty run is open. *)
Lemma inv_after_ref ts1 rest1 out1 off n p t hv :
  out1 = encs ts1 ++ rest1 -> Forall tok_ok (ts1 ++ [Ref off n]) ->
  expand [] (ts1 ++ [Ref off n]) = Some (take (Z.to_nat p) inp) -> 0 <= p <= zlen inp ->
  zlen out1 = out_len + 1 -> zlen (encs ts1) + 4 < out_len -> (forall i, - 2 ^ 63 <= t i < 2 ^ 63) ->
  exists out2, wr_block out1 (zlen (encs ts1)) (backref off n) = Some out2 /\
    inv (mkC p (zlen (encs ts1) + zlen (backref off n) + 1) 0 hv t out2) (ts1 ++ [Ref off n]) [].
Proof.
  intros Ho Hok He Hp Hz Hroom Ht.
  assert (2 <= zlen (backref off n) <= 3) as Hb.
  { apply Forall_app in Hok as [_ [[]]%Forall_singleton]. by apply backref_bytes. }
  set (k := Z.to_nat (zlen (backref off n))).
  assert (zlen rest1 = out_len + 1 - zlen (encs ts1)) as Hr by (rewrite <- Hz, Ho; zlens; lia).
  assert (zlen (take k rest1) = zlen (backref off n)) as Hk by (apply zlen_take; lia).
  erewrite (wr_block_mid (encs ts1) (take k rest1) (drop k rest1)); [|by rewrite take_drop|done|done].
  assert (encs ts1 ++ backref off n = encs (ts1 ++ [Ref off n])) as Hc.
  { rewrite encs_app. unfold encs at 3. cbn [map concat enc]. by rewrite app_nil_r. }
  eexists. split; [reflexivity|].
  assert (zlen (drop k rest1) = zlen rest1 - zlen (backref off n)) as Hd by (apply zlen_drop; lia).
  destruct (drop k rest1) as [|h rest] eqn:Hdrop; [change (zlen (@nil Z)) with 0 in Hd; lia|].
  constructor; cbn [ip op lit obuf htab]; try done.
  - eexists. split; [exact He|]. by rewrite app_nil_r.
  - exists h, rest. by rewrite app_assoc, Hc.
  - rewrite <- Hc, zlen_app. change (zlen (@nil Z)) with 0. lia.
  - split; [lia|]. rewrite !zlen_app, Hd. lia.
Qed.

Lemma matched_ok s ts ls ref : inv s ts ls -> 0 < ref < ip s ->
  u64 (ip s - ref - 1) = ip s - ref - 1 -> ip s - ref - 1 < 8192 -> ip s + 4 < zlen inp -> matches ref (ip s) 3 ->
  exists t, matched inp out_len s ref = Some t /\ turn_ok s t.
Proof using Hbytes Hlen.
  intros Hinv Hr Hu Hoff Hip Hm. unfold matched.
  destruct (flush_ok _ _ _ Hinv) as (out1 & ts1 & rest1 & -> & Ho & Hok & He & Hz & Hop).
  cbn [mbind option_bind]. cbv zeta. rewrite Hop.
  destruct (Z.geb_spec (zlen (encs ts1) + 3 + 1) out_len); [by eexists|].
  destruct (match_len_ok ref (ip s)) as (len & -> & Hl & Hfit & Hm'); [done..|]. cbn [mbind option_bind].
  assert (- 2 ^ 63 <= ip s < 2 ^ 63) by lia.
  destruct (inv_after_ref ts1 rest1 out1 (ip s - ref - 1) (len - 2) (ip s + len) (htab s) (hval s)) as (out2 & Hw & Hinv2);
    [done| |  |lia|done|lia|apply Hinv|].
  { rewrite Forall_app, Forall_singleton. split; [done|]. cbn. lia. }
  { rewrite expand_app, He. cbn [mbind option_bind expand expand_tok].
    replace (len - 2 + 2) with (Z.of_nat (Z.to_nat len)) by lia. rewrite Nat2Z.id.
    rewrite copy_back_match; rewrite ?Z2Nat.id by lia; done || lia. }
  rewrite Hu, Hw. cbn [mbind option_bind].
  replace (ip s + 1 + (len - 2 + 1)) with (ip s + len) by lia.
  destruct (Z.geb_spec (ip s + len) (zlen inp - 2)) as [Hend|Hend].
  - eexists. split; [reflexivity|]. split; [by eauto|]. cbn. lia.
  - destruct (rd_is_Some inp (ip s + len - 2)) as [b0 ->]; [lia|].
    destruct (rd_is_Some inp (ip s + len - 2 + 1)) as [b1 ->]; [lia|].
    destruct (rd_is_Some inp (ip s + len - 2 + 2)) as [b2 ->]; [lia|].
    destruct (rd_is_Some inp (ip s + len - 2 + 1 + 2)) as [b3 ->]; [lia|]. cbn [mbind option_bind].
    eexists. split; [reflexivity|]. split; [|cbn; lia]. exists (ts1 ++ [Ref (ip s - ref - 1) (len - 2)]), [].
    replace (ip s + len - 2 + 1 + 1) with (ip s + len) by lia.
    destruct Hinv2 as [Hi1 Hi2 Hi3 Hi4 Hi5 Hi6 Hi7 Hi8]. constructor; cbn in *; try done.
    intros j. apply set_slot_range; [intros j'; apply set_slot_range; [done|]|]; lia.
Qed.

Lemma compress_turn_ok s ts ls : inv s ts ls -> ip s < zlen inp - 2 ->
  exists t, compress_turn inp out_len s = Some t /\ turn_ok s t.
Proof using Hbytes Hlen.
  intros Hinv Hip. unfold compress_turn. pose proof (inv_ip _ _ _ Hinv).
  destruct (rd_is_Some inp (ip s + 2)) as [b ->]; [lia|]. cbn [mbind option_bind].
  set (h := NEXT (hval s) b). set (ref := htab s (IDX h)).
  set (s1 := mkC (ip s) (op s) (lit s) h (set_slot (htab s) (IDX h) (ip s)) (obuf s)).
  assert (inv s1 ts ls) as Hinv1.
  { destruct Hinv as [Hi1 Hi2 Hi3 Hi4 Hi5 Hi6 Hi7 Hi8]. constructor; cbn in *; try done.
    apply set_slot_range; [done|lia]. }
  destruct (is_match_ok ref (ip s)) as (found & -> & Hfound); [apply Hinv|lia|]. cbn [mbind option_bind].
  destruct found.
  - destruct (Hfound eq_refl) as (Hr & Hu & Ho & Hend & Hm). by apply (matched_ok s1 ts ls).
  - destruct (Z.geb_spec (op s) out_len); [by eexists|].
    destruct (literal_ok s1 ts ls Hinv1) as (s' & ts' & ls' & -> & Hinv' & Hip' & _); [cbn; lia..|].
    cbn [mbind option_bind]. eexists. split; [reflexivity|]. split; [by eauto|]. rewrite Hip'. cbn. lia.
Qed.

Lemma compress_loop_ok fuel : forall s ts ls, inv s ts ls -> zlen inp - ip s <= Z.of_nat fuel ->
  exists t, compress_loop inp out_len fuel s = Some t /\
    match t with
    | Return0 _ => True
    | Break s' | Continue s' => (exists ts' ls', inv s' ts' ls') /\ zlen inp - 2 <= ip s'
    end.
Proof using Hbytes Hlen.
  induction fuel as [|fuel IH]; intros s ts ls Hinv Hf; cbn [compress_loop];
    (destruct (Z.ltb_spec (ip s) (zlen inp - 2)); [|eexists; split; [reflexivity|]; split; [by eauto|lia]]).
  { pose proof (inv_ip _ _ _ Hinv). lia. }
  destruct (compress_turn_ok s ts ls) as (t & -> & Ht); [done..|]. cbn [mbind option_bind].
  destruct t as [o|s'|s']; cbn in Ht; [by eexists..|].
  destruct Ht as [(ts' & ls' & Hinv') Hip']. apply (IH s' ts' ls'); [done|lia].
Qed.

Lemma tail_loop_ok s ts ls : inv s ts ls -> zlen inp - 2 <= ip s -> op s + 3 <= out_len ->
  exists s' ts' ls', tail_loop inp 3 s = Some s' /\ inv s' ts' ls' /\ ip s' = zlen inp /\ op s' <= out_len.
Proof using Hbytes Hlen.
  intros Hinv Hip Hop. pose proof (inv_ip _ _ _ Hinv) as Hi. cbn [tail_loop].
  destruct (Z.ltb_spec (ip s) (zlen inp)); [|exists s, ts, ls; split_and!; [done..|lia|lia]].
  destruct (literal_ok s ts ls Hinv) as (s1 & ts1 & ls1 & -> & Hinv1 & Hip1 & _ & Hop1); [lia..|].
  cbn [mbind option_bind]. destruct (Z.ltb_spec (ip s1) (zlen inp));
    [|exists s1, ts1, ls1; split_and!; [done..|lia|destruct Hop1 as [|[]]; lia]].
  destruct (literal_ok s1 ts1 ls1 Hinv1) as (s2 & ts2 & ls2 & -> & Hinv2 & Hip2 & Ho2 & Hop2);
    [lia|destruct Hop1 as [|[]]; lia|].
  cbn [mbind option_bind]. destruct (Z.ltb_spec (ip s2) (zlen inp)); [lia|].
  exists s2, ts2, ls2. split_and!; [done..|lia|].
  destruct Hop1 as [|[? Hl]]; [destruct Hop2 as [|[]]; lia|]. rewrite Hl in Ho2. lia.
Qed.

(** The result is 0, or a block of tokens that stands for the input and fits; one
    byte past the announced room may be overwritten. *)
Lemma lzf_compress_ok htab0 out : zlen out = out_len + 1 -> 0 <= out_len -> (forall i, - 2 ^ 63 <= htab0 i < 2 ^ 63) ->
  exists r out', lzf_compress inp out_len htab0 out = Some (r, out') /\
    (r = 0 \/ exists ts, Forall tok_ok ts /\ expand [] ts = Some inp /\ r = zlen (encs ts) /\
      take (Z.to_nat r) out' = encs ts /\ 0 < r <= out_len).
Proof using Hbytes Hlen.
  intros Ho Ho0 Ht. unfold lzf_compress.
  destruct (Z.eqb_spec (zlen inp) 0); [lia|]. destruct (Z.eqb_spec out_len 0); cbn [orb]; [by eauto|].
  destruct (rd_is_Some inp 0) as [b0 ->]; [lia|]. destruct (rd_is_Some inp 1) as [b1 ->]; [lia|].
  cbn [mbind option_bind].
  destruct (compress_loop_ok (length inp) (mkC 0 1 0 (FRST b0 b1) htab0 out) [] []) as (t & -> & Hloop).
  { constructor; cbn; try done; try lia.
    - by exists [].
    - destruct out as [|h rest]; [change (zlen (@nil Z)) with 0 in Ho; lia|]. by exists h, rest. }
  { cbn. unfold zlen. lia. }
  cbn [mbind option_bind].
  assert (forall s, (exists ts ls, inv s ts ls) /\ zlen inp - 2 <= ip s -> exists r out',
    (if op s + 3 >? out_len then Some (0, obuf s) else
      s ← tail_loop inp 3 s;
      out1 ← wr (obuf s) (op s - lit s - 1) (u8 (lit s - 1));
      Some (op s - b2z (lit s =? 0), out1)) = Some (r, out') /\
    (r = 0 \/ exists ts, Forall tok_ok ts /\ expand [] ts = Some inp /\ r = zlen (encs ts) /\
      take (Z.to_nat r) out' = encs ts /\ 0 < r <= out_len)) as Hend.
  { intros s [(ts & ls & Hinv) Hip]. destruct (Z.gtb_spec (op s + 3) out_len); [by eauto|].
    destruct (tail_loop_ok s ts ls) as (s' & ts' & ls' & -> & Hinv' & Hip' & Hop'); [done..|lia|].
    cbn [mbind option_bind].
    destruct (flush_ok _ _ _ Hinv') as (out1 & ts1 & rest1 & -> & Hout & Hok & He & Hz & Hop1).
    cbn [mbind option_bind]. eexists _, _. split; [reflexivity|]. right. exists ts1. rewrite Hop1.
    rewrite Hip', Z2Nat_inj_zlen, take_ge in He by lia.
    assert (ts1 <> []) as Hne by (intros ->; cbn in He; injection He as Hnil; rewrite <- Hnil in Hlen;
      change (zlen (@nil Z)) with 0 in Hlen; lia).
    do 3 (split; [done|]). split_and!.
    - by rewrite Hout, Z2Nat_inj_zlen, take_app_length.
    - destruct ts1 as [|t1 ts1]; [done|]. apply Forall_cons in Hok as [Ht1 _].
      change (encs (t1 :: ts1)) with (enc t1 ++ encs ts1). rewrite zlen_app.
      pose proof (enc_zlen t1 Ht1). pose proof (zlen_nonneg (encs ts1)). lia.
    - pose proof (proj1 (inv_lits _ _ _ Hinv')). pose proof (zlen_nonneg ls').
      unfold b2z in Hop1. destruct (lit s' =? 0); lia. }
  destruct t as [o|s|s]; [by eauto|by apply Hend..].
Qed.
End compress_ok.

(** ** Round trip *)

Lemma enc_bytes t : tok_ok t -> bytes_ok (enc t).
Proof.
  destruct t as [bs|off n]; intros [H1 H2]; cbn [enc]; [|by apply backref_bytes].
  constructor; [|done]. unfold byte_ok. lia.
Qed.

Lemma encs_bytes ts : Forall tok_ok ts -> bytes_ok (encs ts).
Proof.
  induction 1 as [|t ts Ht _ IH]; [constructor|].
  change (encs (t :: ts)) with (enc t ++ encs ts). apply Forall_app. split; [by apply enc_bytes|done].
Qed.

Lemma encs_length ts : Forall tok_ok ts -> (length ts <= length (encs ts))%nat.
Proof.
  induction 1 as [|t ts Ht _ IH]; [done|]. change (encs (t :: ts)) with (enc t ++ encs ts).
  pose proof (enc_zlen t Ht). unfold zlen in *. rewrite length_app. simpl. lia.
Qed.

Lemma lzf_decompress_ok ts d out :
  Forall tok_ok ts -> ts <> [] -> expand [] ts = Some d -> zlen d <= zlen out ->
  exists junk, lzf_decompress (encs ts) (zlen out) out = Some (inl (zlen d, d ++ junk)) /\
    zlen (d ++ junk) = zlen out.
Proof.
  intros Hok Hne He Hfit. unfold lzf_decompress.
  destruct (decompress_loop_ok (encs ts) (zlen out) ts [] [] d out (S (length (encs ts)))) as (junk & Hrun & Hj);
    try done; [pose proof (encs_length ts Hok); lia|].
  change (zlen (@nil Z)) with 0 in Hrun. cbn [app] in Hrun. rewrite Hrun. by exists junk.
Qed.

Lemma lzf_roundtrip_ok inp out_len htab0 out dst :
  bytes_ok inp -> 2 <= zlen inp < 2 ^ 32 -> 0 <= out_len -> zlen out = out_len + 1 ->
  (forall i, - 2 ^ 63 <= htab0 i < 2 ^ 63) -> zlen dst = zlen inp ->
  exists r out', lzf_compress inp out_len htab0 out = Some (r, out') /\ 0 <= r <= out_len /\
    (r = 0 \/ 0 < r /\ bytes_ok (take (Z.to_nat r) out') /\ zlen (take (Z.to_nat r) out') = r /\
      lzf_decompress (take (Z.to_nat r) out') (zlen inp) dst = Some (inl (zlen inp, inp))).
Proof.
  intros Hb Hl Ho Hz Ht Hd.
  destruct (lzf_compress_ok inp out_len Hl Hb htab0 out Hz Ho Ht) as (r & out' & Hrun & Hr).
  exists r, out'. destruct Hr as [->|(ts & Hok & He & Hr & Htk & Hpos)]; [split_and!; [done|lia|lia|by left]|].
  split_and!; [done|lia|lia|]. right. rewrite Htk. split; [lia|]. split; [by apply encs_bytes|]. split; [done|].
  destruct (lzf_decompress_ok ts inp dst) as (junk & Hdec & Hj); [done| |done|lia|].
  { intros ->. cbn in He. injection He as <-. change (zlen (@nil Z)) with 0 in Hl. lia. }
  rewrite Hd in Hdec. rewrite Hdec. assert (junk = []) as ->; [|by rewrite app_nil_r].
  apply zlen_zero. rewrite zlen_app in Hj. lia.
Qed.

(** C34: Whatever the uninitialised hash table holds, [lzf_compress] stays within its
    input and one byte past its announced room, and ends; it returns 0, or a length
    within the room such that [lzf_decompress] of these bytes gives the input back. *)
Theorem lzf_roundtrip inp out_len htab0 out dst :
  bytes_ok inp -> 2 <= zlen inp < 2 ^ 32 -> 0 <= out_len -> zlen out = out_len + 1 ->
  (forall i, - 2 ^ 63 <= htab0 i < 2 ^ 63) -> zlen dst = zlen inp ->
  exists r out', lzf_compress inp out_len htab0 out = Some (r, out') /\ 0 <= r <= out_len /\
    (r = 0 \/ 0 < r /\ bytes_ok (take (Z.to_nat r) out') /\ zlen (take (Z.to_nat r) out') = r /\
      lzf_decompress (take (Z.to_nat r) out') (zlen inp) dst = Some (inl (zlen inp, inp))).
Proof. apply lzf_roundtrip_ok. Qed.

Lemma lzf_roundtrip_witness :
  lzf_compress (zs "abcabcabcabcabcabcabcabcabc") 26 (fun _ => 77) (replicate 27 0)
    = Some (11, [3; 97; 98; 99; 97; 224; 12; 2; 1; 98; 99] ++ replicate 16 0) /\
  exists r out', lzf_compress (zs "abcabcabcabcabcabcabcabcabc") 26 (fun _ => 77) (replicate 27 0) = Some (r, out') /\
    0 <= r <= 26 /\ (r = 0 \/ 0 < r /\ bytes_ok (take (Z.to_nat r) out') /\ zlen (take (Z.to_nat r) out') = r /\
      lzf_decompress (take (Z.to_nat r) out') 27 (replicate 27 0) = Some (inl (27, zs "abcabcabcabcabcabcabcabcabc"))).
Proof.
  split; [by vm_compute|].
  apply (lzf_roundtrip (zs "abcabcabcabcabcabcabcabcabc") 26 (fun _ => 77) (replicate 27 0) (replicate 27 0));
    first [done | lia | by apply (bool_decide_unpack _)].
Defined.

(** ** Hostile input *)

Section hostile.
Context (inp : list Z) (out_len : Z).
Hypothesis (Hbytes : bytes_ok inp).

Definition dec_inv (s : dstate) : Prop := 0 <= d_op s <= out_len /\ zlen (d_out s) = out_len.

Lemma copy_in_safe n : forall ip op out, 0 <= ip -> 0 <= op ->
  ip + Z.of_nat n <= zlen inp -> op + Z.of_nat n <= zlen out ->
  exists out', copy_in n inp ip op out = Some out' /\ zlen out' = zlen out.
Proof.
  induction n as [|n IH]; intros ip op out Hi Ho Hin Hout; cbn [copy_in]; [by exists out|].
  destruct (rd_is_Some inp ip) as [b ->]; [lia|]. cbn [mbind option_bind].
  rewrite wr_ok by lia. cbn [mbind option_bind].
  destruct (IH (ip + 1) (op + 1) (<[Z.to_nat op := b]> out)) as (out' & -> & Hz); rewrite ?zlen_insert in *; try lia.
  by exists out'.
Qed.

Lemma copy_ref_safe n : forall ref op out, 0 <= ref < op -> op + Z.of_nat n <= zlen out ->
  exists out', copy_ref n ref op out = Some out' /\ zlen out' = zlen out.
Proof.
  induction n as [|n IH]; intros ref op out Hr Hout; cbn [copy_ref]; [by exists out|].
  destruct (rd_is_Some out ref) as [b ->]; [lia|]. cbn [mbind option_bind].
  rewrite wr_ok by lia. cbn [mbind option_bind].
  destruct (IH (ref + 1) (op + 1) (<[Z.to_nat op := b]> out)) as (out' & -> & Hz); rewrite ?zlen_insert in *; try lia.
  by exists out'.
Qed.

Lemma back_reference_safe s ref len ip : dec_inv s -> 0 <= ip < zlen inp -> ref < d_op s -> 0 <= len ->
  exists r, back_reference inp out_len s ref len ip = Some r /\
    forall s', r = inl s' -> dec_inv s' /\ ip < d_ip s'.
Proof using Hbytes.
  intros [Hop Hz] Hip Hr Hl. unfold back_reference.
  destruct (rd_is_Some inp ip) as [b Hb]; [lia|]. rewrite Hb. cbn [mbind option_bind].
  assert (byte_ok b) as Hbb by by eapply rd_Forall in Hb. unfold byte_ok in Hbb.
  destruct (Z.gtb_spec (d_op s + len + 2) out_len); [by eexists|].
  destruct (Z.ltb_spec (ref - b) 0); [by eexists|].
  destruct (copy_ref_safe (Z.to_nat (len + 2)) (ref - b) (d_op s) (d_out s)) as (out' & -> & Hz'); [lia..|].
  eexists. split; [reflexivity|]. intros s' [= <-]. unfold dec_inv. cbn. lia.
Qed.

Lemma decompress_turn_safe s : dec_inv s -> 0 <= d_ip s < zlen inp ->
  exists r, decompress_turn inp out_len s = Some r /\ forall s', r = inl s' -> dec_inv s' /\ d_ip s < d_ip s'.
Proof using Hbytes.
  intros Hs Hip. pose proof Hs as [Hop Hz]. unfold decompress_turn.
  destruct (rd_is_Some inp (d_ip s)) as [c Hc]; [lia|]. rewrite Hc. cbn [mbind option_bind].
  assert (byte_ok c) as Hcb by by eapply rd_Forall in Hc. unfold byte_ok in Hcb. change (Z.shiftl 1 5) with 32.
  destruct (Z.ltb_spec c 32).
  - destruct (Z.gtb_spec (d_op s + (c + 1)) out_len); [by eexists|].
    destruct (Z.gtb_spec (d_ip s + 1 + (c + 1)) (zlen inp)); [by eexists|].
    destruct (copy_in_safe (Z.to_nat (c + 1)) (d_ip s + 1) (d_op s) (d_out s)) as (out' & -> & Hz'); [lia..|].
    eexists. split; [reflexivity|]. intros s' [= <-]. unfold dec_inv. cbn. lia.
  - destruct (Z.geb_spec (d_ip s + 1) (zlen inp)); [by eexists|].
    assert (0 <= Z.shiftl (Z.land c 31) 8) by (apply Z.shiftl_nonneg, Z.land_nonneg; lia).
    assert (0 <= Z.shiftr c 5) by (apply Z.shiftr_nonneg; lia).
    destruct (Z.shiftr c 5 =? 7).
    + destruct (rd_is_Some inp (d_ip s + 1)) as [b Hb]; [lia|]. rewrite Hb. cbn [mbind option_bind].
      assert (byte_ok b) as Hbb by by eapply rd_Forall in Hb. unfold byte_ok in Hbb.
      destruct (Z.geb_spec (d_ip s + 1 + 1) (zlen inp)); [by eexists|].
      destruct (back_reference_safe s (d_op s - Z.shiftl (Z.land c 31) 8 - 1) (Z.shiftr c 5 + b) (d_ip s + 1 + 1))
        as (r & -> & Hr); [done|lia..|].
      eexists. split; [reflexivity|]. intros s' ->. destruct (Hr s' eq_refl). split; [done|lia].
    + destruct (back_reference_safe s (d_op s - Z.shiftl (Z.land c 31) 8 - 1) (Z.shiftr c 5) (d_ip s + 1))
        as (r & -> & Hr); [done|lia..|].
      eexists. split; [reflexivity|]. intros s' ->. destruct (Hr s' eq_refl). split; [done|lia].
Qed.

Lemma decompress_loop_safe fuel : forall s, dec_inv s -> 0 <= d_ip s < zlen inp -> zlen inp - d_ip s < Z.of_nat fuel ->
  exists r, decompress_loop inp out_len fuel s = Some r /\ forall s', r = inl s' -> dec_inv s'.
Proof using Hbytes.
  induction fuel as [|fuel IH]; intros s Hs Hip Hf; [lia|]. cbn [decompress_loop].
  destruct (decompress_turn_safe s Hs Hip) as (r & -> & Hr). cbn [mbind option_bind].
  destruct r as [s'|e]; [|by eexists]. destruct (Hr s' eq_refl) as [Hs' Hlt].
  destruct (Z.ltb_spec (d_ip s') (zlen inp)); [apply IH; [done|lia|lia]|].
  eexists. split; [reflexivity|]. by intros ? [= <-].
Qed.
End hostile.

Lemma lzf_decompress_safe_ok inp out : bytes_ok inp -> 0 < zlen inp ->
  exists r, lzf_decompress inp (zlen out) out = Some r /\
    forall n out', r = inl (n, out') -> 0 <= n <= zlen out /\ zlen out' = zlen out.
Proof.
  intros Hb Hi. unfold lzf_decompress. pose proof (zlen_nonneg out).
  destruct (decompress_loop_safe inp (zlen out) Hb (S (length inp)) (mkD 0 0 out)) as (r & -> & Hr);
    [split; [cbn; lia|done]|cbn; lia|cbn; unfold zlen; lia|].
  cbn [mbind option_bind]. eexists. split; [reflexivity|]. intros n out' Heq.
  destruct r as [s|e]; [|done]. injection Heq as <- <-. by destruct (Hr s eq_refl).
Qed.

(** C35: On any non-empty input, [lzf_decompress] ends without reading or writing out of
    its two buffers: it reports an error or a length within the output. *)
Theorem lzf_decompress_safe inp out : bytes_ok inp -> 0 < zlen inp ->
  exists r, lzf_decompress inp (zlen out) out = Some r /\
    forall n out', r = inl (n, out') -> 0 <= n <= zlen out /\ zlen out' = zlen out.
Proof. apply lzf_decompress_safe_ok. Qed.

Lemma lzf_decompress_safe_witness :
  lzf_decompress [1; 9; 9; 63; 255] 8 (replicate 8 0) = Some (inr EINVAL) /\
  exists r, lzf_decompress [1; 9; 9; 63; 255] 8 (replicate 8 0) = Some r /\
    forall n out', r = inl (n, out') -> 0 <= n <= 8 /\ zlen out' = 8.
Proof.
  split; [by vm_compute|].
  apply (lzf_decompress_safe [1; 9; 9; 63; 255] (replicate 8 0)); [by apply (bool_decide_unpack _)|done].
Defined.

(** With a buffer of exactly the announced room, the compressor writes one byte
    past it: a run of 32 literals that ends at the end of the buffer opens another
    run, whose length is written when a match follows. *)
Theorem lzf_compress_overflow :
  let inp := map Z.of_nat (seq 0 32) ++ [1; 2; 3; 4; 5] in
  zlen inp = 37 /\ lzf_compress inp (zlen inp - 4) (fun _ => 0) (replicate 33 0) = None /\
  exists out, lzf_compress inp (zlen inp - 4) (fun _ => 0) (replicate 34 0) = Some (0, out).
Proof. split; [done|]. split; [by vm_compute|]. eexists. by vm_compute. Qed.
