(* ===== verification/Crc64.v ===== *)
(** * CRC64 (src/redis-2.8.19/src/crc64.c)

    The checksum of RDB files and of DUMP payloads, computed byte by byte with a
    table, against the bit by bit division, and the errors that it detects. *)
From S2P Require Import Prelude.
Open Scope Z_scope.

Definition crc64_tab : list Z :=
  [
   0x0000000000000000; 0x7ad870c830358979; 0xf5b0e190606b12f2; 0x8f689158505e9b8b;
   0xc038e5739841b68f; 0xbae095bba8743ff6; 0x358804e3f82aa47d; 0x4f50742bc81f2d04;
   0xab28ecb46814fe75; 0xd1f09c7c5821770c; 0x5e980d24087fec87; 0x24407dec384a65fe;
   0x6b1009c7f05548fa; 0x11c8790fc060c183; 0x9ea0e857903e5a08; 0xe478989fa00bd371;
   0x7d08ff3b88be6f81; 0x07d08ff3b88be6f8; 0x88b81eabe8d57d73; 0xf2606e63d8e0f40a;
   0xbd301a4810ffd90e; 0xc7e86a8020ca5077; 0x4880fbd87094cbfc; 0x32588b1040a14285;
   0xd620138fe0aa91f4; 0xacf86347d09f188d; 0x2390f21f80c18306; 0x594882d7b0f40a7f;
   0x1618f6fc78eb277b; 0x6cc0863448deae02; 0xe3a8176c18803589; 0x997067a428b5bcf0;
   0xfa11fe77117cdf02; 0x80c98ebf2149567b; 0x0fa11fe77117cdf0; 0x75796f2f41224489;
   0x3a291b04893d698d; 0x40f16bccb908e0f4; 0xcf99fa94e9567b7f; 0xb5418a5cd963f206;
   0x513912c379682177; 0x2be1620b495da80e; 0xa489f35319033385; 0xde51839b2936bafc;
   0x9101f7b0e12997f8; 0xebd98778d11c1e81; 0x64b116208142850a; 0x1e6966e8b1770c73;
   0x8719014c99c2b083; 0xfdc17184a9f739fa; 0x72a9e0dcf9a9a271; 0x08719014c99c2b08;
   0x4721e43f0183060c; 0x3df994f731b68f75; 0xb29105af61e814fe; 0xc849756751dd9d87;
   0x2c31edf8f1d64ef6; 0x56e99d30c1e3c78f; 0xd9810c6891bd5c04; 0xa3597ca0a188d57d;
   0xec09088b6997f879; 0x96d1784359a27100; 0x19b9e91b09fcea8b; 0x636199d339c963f2;
   0xdf7adabd7a6e2d6f; 0xa5a2aa754a5ba416; 0x2aca3b2d1a053f9d; 0x50124be52a30b6e4;
   0x1f423fcee22f9be0; 0x659a4f06d21a1299; 0xeaf2de5e82448912; 0x902aae96b271006b;
   0x74523609127ad31a; 0x0e8a46c1224f5a63; 0x81e2d7997211c1e8; 0xfb3aa75142244891;
   0xb46ad37a8a3b6595; 0xceb2a3b2ba0eecec; 0x41da32eaea507767; 0x3b024222da65fe1e;
   0xa2722586f2d042ee; 0xd8aa554ec2e5cb97; 0x57c2c41692bb501c; 0x2d1ab4dea28ed965;
   0x624ac0f56a91f461; 0x1892b03d5aa47d18; 0x97fa21650afae693; 0xed2251ad3acf6fea;
   0x095ac9329ac4bc9b; 0x7382b9faaaf135e2; 0xfcea28a2faafae69; 0x8632586aca9a2710;
   0xc9622c4102850a14; 0xb3ba5c8932b0836d; 0x3cd2cdd162ee18e6; 0x460abd1952db919f;
   0x256b24ca6b12f26d; 0x5fb354025b277b14; 0xd0dbc55a0b79e09f; 0xaa03b5923b4c69e6;
   0xe553c1b9f35344e2; 0x9f8bb171c366cd9b; 0x10e3202993385610; 0x6a3b50e1a30ddf69;
   0x8e43c87e03060c18; 0xf49bb8b633338561; 0x7bf329ee636d1eea; 0x012b592653589793;
   0x4e7b2d0d9b47ba97; 0x34a35dc5ab7233ee; 0xbbcbcc9dfb2ca865; 0xc113bc55cb19211c;
   0x5863dbf1e3ac9dec; 0x22bbab39d3991495; 0xadd33a6183c78f1e; 0xd70b4aa9b3f20667;
   0x985b3e827bed2b63; 0xe2834e4a4bd8a21a; 0x6debdf121b863991; 0x1733afda2bb3b0e8;
   0xf34b37458bb86399; 0x8993478dbb8deae0; 0x06fbd6d5ebd3716b; 0x7c23a61ddbe6f812;
   0x3373d23613f9d516; 0x49aba2fe23cc5c6f; 0xc6c333a67392c7e4; 0xbc1b436e43a74e9d;
   0x95ac9329ac4bc9b5; 0xef74e3e19c7e40cc; 0x601c72b9cc20db47; 0x1ac40271fc15523e;
   0x5594765a340a7f3a; 0x2f4c0692043ff643; 0xa02497ca54616dc8; 0xdafce7026454e4b1;
   0x3e847f9dc45f37c0; 0x445c0f55f46abeb9; 0xcb349e0da4342532; 0xb1eceec59401ac4b;
   0xfebc9aee5c1e814f; 0x8464ea266c2b0836; 0x0b0c7b7e3c7593bd; 0x71d40bb60c401ac4;
   0xe8a46c1224f5a634; 0x927c1cda14c02f4d; 0x1d148d82449eb4c6; 0x67ccfd4a74ab3dbf;
   0x289c8961bcb410bb; 0x5244f9a98c8199c2; 0xdd2c68f1dcdf0249; 0xa7f41839ecea8b30;
   0x438c80a64ce15841; 0x3954f06e7cd4d138; 0xb63c61362c8a4ab3; 0xcce411fe1cbfc3ca;
   0x83b465d5d4a0eece; 0xf96c151de49567b7; 0x76048445b4cbfc3c; 0x0cdcf48d84fe7545;
   0x6fbd6d5ebd3716b7; 0x15651d968d029fce; 0x9a0d8ccedd5c0445; 0xe0d5fc06ed698d3c;
   0xaf85882d2576a038; 0xd55df8e515432941; 0x5a3569bd451db2ca; 0x20ed197575283bb3;
   0xc49581ead523e8c2; 0xbe4df122e51661bb; 0x3125607ab548fa30; 0x4bfd10b2857d7349;
   0x04ad64994d625e4d; 0x7e7514517d57d734; 0xf11d85092d094cbf; 0x8bc5f5c11d3cc5c6;
   0x12b5926535897936; 0x686de2ad05bcf04f; 0xe70573f555e26bc4; 0x9ddd033d65d7e2bd;
   0xd28d7716adc8cfb9; 0xa85507de9dfd46c0; 0x273d9686cda3dd4b; 0x5de5e64efd965432;
   0xb99d7ed15d9d8743; 0xc3450e196da80e3a; 0x4c2d9f413df695b1; 0x36f5ef890dc31cc8;
   0x79a59ba2c5dc31cc; 0x037deb6af5e9b8b5; 0x8c157a32a5b7233e; 0xf6cd0afa9582aa47;
   0x4ad64994d625e4da; 0x300e395ce6106da3; 0xbf66a804b64ef628; 0xc5bed8cc867b7f51;
   0x8aeeace74e645255; 0xf036dc2f7e51db2c; 0x7f5e4d772e0f40a7; 0x05863dbf1e3ac9de;
   0xe1fea520be311aaf; 0x9b26d5e88e0493d6; 0x144e44b0de5a085d; 0x6e963478ee6f8124;
   0x21c640532670ac20; 0x5b1e309b16452559; 0xd476a1c3461bbed2; 0xaeaed10b762e37ab;
   0x37deb6af5e9b8b5b; 0x4d06c6676eae0222; 0xc26e573f3ef099a9; 0xb8b627f70ec510d0;
   0xf7e653dcc6da3dd4; 0x8d3e2314f6efb4ad; 0x0256b24ca6b12f26; 0x788ec2849684a65f;
   0x9cf65a1b368f752e; 0xe62e2ad306bafc57; 0x6946bb8b56e467dc; 0x139ecb4366d1eea5;
   0x5ccebf68aecec3a1; 0x2616cfa09efb4ad8; 0xa97e5ef8cea5d153; 0xd3a62e30fe90582a;
   0xb0c7b7e3c7593bd8; 0xca1fc72bf76cb2a1; 0x45775673a732292a; 0x3faf26bb9707a053;
   0x70ff52905f188d57; 0x0a2722586f2d042e; 0x854fb3003f739fa5; 0xff97c3c80f4616dc;
   0x1bef5b57af4dc5ad; 0x61372b9f9f784cd4; 0xee5fbac7cf26d75f; 0x9487ca0fff135e26;
   0xdbd7be24370c7322; 0xa10fceec0739fa5b; 0x2e675fb4576761d0; 0x54bf2f7c6752e8a9;
   0xcdcf48d84fe75459; 0xb71738107fd2dd20; 0x387fa9482f8c46ab; 0x42a7d9801fb9cfd2;
   0x0df7adabd7a6e2d6; 0x772fdd63e7936baf; 0xf8474c3bb7cdf024; 0x829f3cf387f8795d;
   0x66e7a46c27f3aa2c; 0x1c3fd4a417c62355; 0x935745fc4798b8de; 0xe98f353477ad31a7;
   0xa6df411fbfb21ca3; 0xdc0731d78f8795da; 0x536fa08fdfd90e51; 0x29b7d047efec8728
  ].

Fixpoint crc64 (crc : Z) (s : list Z) : option Z :=
  match s with
  | [] => Some crc
  | byte :: s =>
      t ← rd crc64_tab (Z.lxor (u8 crc) byte);
      crc64 (Z.lxor t (Z.shiftr crc 8)) s
  end.

(** ** The division

    The polynomial of the header of crc64.c, reflected; a message is one number,
    its first byte the lowest. *)
Definition crc64_poly : Z := 0xad93d23594c935a9.

Definition reflect (w : nat) (z : Z) : Z :=
  foldr (fun i acc => if Z.testbit z (Z.of_nat i) then Z.setbit acc (Z.of_nat (w - 1 - i)) else acc) 0 (seq 0 w).

Definition crc64_rpoly : Z := Eval vm_compute in reflect 64 crc64_poly.

(** One bit leaves the register on the right. *)
Definition crc_bit (c : Z) : Z := Z.lxor (Z.shiftr c 1) (if Z.testbit c 0 then crc64_rpoly else 0).

Fixpoint crc_bits (n : nat) (c : Z) : Z :=
  match n with O => c | S n => crc_bits n (crc_bit c) end.

(** ** Linearity *)

Lemma crc_bit_lxor a b : crc_bit (Z.lxor a b) = Z.lxor (crc_bit a) (crc_bit b).
Proof.
  unfold crc_bit. rewrite Z.lxor_spec, Z.shiftr_lxor.
  assert (forall x y p q : Z, Z.lxor (Z.lxor x p) (Z.lxor y q) = Z.lxor (Z.lxor x y) (Z.lxor p q)) as ->.
  { intros x y p q. rewrite !Z.lxor_assoc. f_equal. rewrite <- !Z.lxor_assoc. f_equal. apply Z.lxor_comm. }
  f_equal. by destruct (Z.testbit a 0), (Z.testbit b 0).
Qed.

Lemma crc_bits_lxor n : forall a b, crc_bits n (Z.lxor a b) = Z.lxor (crc_bits n a) (crc_bits n b).
Proof. induction n as [|n IH]; intros a b; cbn [crc_bits]; [done|]. by rewrite crc_bit_lxor, IH. Qed.

Lemma crc_bits_0 n : crc_bits n 0 = 0.
Proof. by induction n. Qed.

Lemma crc_bits_add n m c : crc_bits (n + m) c = crc_bits m (crc_bits n c).
Proof. revert c. induction n as [|n IH]; intros c; [done|]. apply IH. Qed.

(** A number whose low bits are 0 is shifted only. *)
Lemma crc_bit_double c : crc_bit (2 * c) = c.
Proof.
  unfold crc_bit. rewrite Z.testbit_even_0, Z.lxor_0_r, Z.shiftr_div_pow2 by lia.
  change (2 ^ 1) with 2. rewrite Z.mul_comm. by apply Z.div_mul.
Qed.

Lemma crc_bits_shift n c : crc_bits n (Z.shiftl c (Z.of_nat n)) = c.
Proof.
  revert c. induction n as [|n IH]; intros c; cbn [crc_bits]; [apply Z.shiftl_0_r|].
  rewrite Z.shiftl_mul_pow2, Nat2Z.inj_succ, Z.pow_succ_r by lia.
  replace (c * (2 * 2 ^ Z.of_nat n)) with (2 * (c * 2 ^ Z.of_nat n)) by lia.
  rewrite crc_bit_double, <- Z.shiftl_mul_pow2 by lia. apply IH.
Qed.

(** Bits above the width of a number. *)
Lemma log2_small w x : 0 < w -> 0 <= x < 2 ^ w -> Z.log2 x < w.
Proof. intros Hw Hx. destruct (Z.eq_dec x 0) as [->|]; [done|]. apply Z.log2_lt_pow2; lia. Qed.

Lemma testbit_small w x i : 0 < w -> 0 <= x < 2 ^ w -> w <= i -> Z.testbit x i = false.
Proof. intros Hw Hx Hi. pose proof (log2_small w x Hw Hx). apply Z.bits_above_log2; lia. Qed.

Lemma lxor_small w a b : 0 < w -> 0 <= a < 2 ^ w -> 0 <= b < 2 ^ w -> 0 <= Z.lxor a b < 2 ^ w.
Proof.
  intros Hw Ha Hb. assert (0 <= Z.lxor a b) by (apply Z.lxor_nonneg; lia). split; [done|].
  pose proof (Z.log2_lxor a b ltac:(lia) ltac:(lia)).
  pose proof (log2_small w a Hw Ha). pose proof (log2_small w b Hw Hb).
  destruct (Z.eq_dec (Z.lxor a b) 0) as [->|]; [lia|]. apply Z.log2_lt_pow2; lia.
Qed.

(** The low byte and the rest. *)
Lemma split_byte c : c = Z.lxor (u8 c) (Z.shiftl (Z.shiftr c 8) 8).
Proof.
  apply Z.bits_inj'. intros i Hi. unfold uwrap. rewrite Z.lxor_spec, Z.testbit_mod_pow2, Z.shiftl_spec by lia.
  destruct (Z.ltb_spec i 8); cbn [andb].
  - rewrite (Z.testbit_neg_r _ (i - 8)) by lia. by rewrite xorb_false_r.
  - rewrite Z.shiftr_spec by lia. replace (i - 8 + 8) with i by lia. by rewrite xorb_false_l.
Qed.

Lemma crc_bits_8_shift c : crc_bits 8 (Z.shiftl c 8) = c.
Proof. exact (crc_bits_shift 8 c). Qed.

Lemma crc_bits_8 c : crc_bits 8 c = Z.lxor (crc_bits 8 (u8 c)) (Z.shiftr c 8).
Proof.
  rewrite (split_byte c) at 1. by rewrite crc_bits_lxor, crc_bits_8_shift.
Qed.

(** The table holds the division of the bytes. *)
Lemma crc64_tab_ok i : 0 <= i < 256 -> rd crc64_tab i = Some (crc_bits 8 i).
Proof.
  assert (forallb (fun j => bool_decide (rd crc64_tab (Z.of_nat j) = Some (crc_bits 8 (Z.of_nat j)))) (seq 0 256) = true)
    as Hall by by vm_compute.
  intros Hi. rewrite forallb_forall in Hall. specialize (Hall (Z.to_nat i)).
  rewrite in_seq, bool_decide_eq_true, Z2Nat.id in Hall by lia. apply Hall. lia.
Qed.

Lemma lxor_byte a b : byte_ok b -> byte_ok (Z.lxor (u8 a) b).
Proof. intros Hb. apply (lxor_small 8); [lia|by apply uwrap_range|done]. Qed.

Lemma crc_step c b : byte_ok b -> Z.lxor (crc_bits 8 (Z.lxor (u8 c) b)) (Z.shiftr c 8) = crc_bits 8 (Z.lxor c b).
Proof.
  intros Hb. rewrite (crc_bits_8 (Z.lxor c b)). unfold byte_ok in Hb.
  assert (u8 (Z.lxor c b) = Z.lxor (u8 c) b) as ->.
  { apply Z.bits_inj'. intros i Hi. unfold uwrap. rewrite Z.lxor_spec, !Z.testbit_mod_pow2, Z.lxor_spec by lia.
    destruct (Z.ltb_spec i 8); [done|]. by rewrite (testbit_small 8 b). }
  rewrite Z.shiftr_lxor, (Z.shiftr_div_pow2 b) by lia. rewrite (Z.div_small b) by (change (2 ^ 8) with 256; lia).
  by rewrite Z.lxor_0_r.
Qed.

Lemma crc64_ok s : forall c, bytes_ok s -> crc64 c s = Some (crc_bits (8 * length s) (Z.lxor c (le_val s))).
Proof.
  induction s as [|b s IH]; intros c Hs; [by cbn; rewrite Z.lxor_0_r|].
  apply Forall_cons in Hs as [Hb Hs]. cbn [crc64]. pose proof (lxor_byte c b Hb) as Hi. unfold byte_ok in Hi.
  rewrite crc64_tab_ok by done. cbn [mbind option_bind]. rewrite crc_step by done. rewrite IH by done. f_equal.
  replace (8 * length (b :: s))%nat with (8 + 8 * length s)%nat by (cbn [length]; lia).
  rewrite crc_bits_add. f_equal. cbn [le_val].
  assert (b + 256 * le_val s = Z.lxor b (Z.shiftl (le_val s) 8)) as ->.
  { unfold byte_ok in Hb. rewrite Z.shiftl_mul_pow2 by lia. change (2 ^ 8) with 256.
    rewrite (Z.mul_comm 256). apply Z.add_nocarry_lxor.
    apply Z.bits_inj'. intros i Hi'. rewrite Z.land_spec, Z.bits_0.
    replace (le_val s * 256) with (le_val s * 2 ^ 8) by done. rewrite <- Z.shiftl_mul_pow2, Z.shiftl_spec by lia.
    destruct (Z.ltb_spec i 8); [by rewrite (Z.testbit_neg_r _ (i - 8)), andb_false_r by lia|].
    by rewrite (testbit_small 8 b). }
  by rewrite <- Z.lxor_assoc, (crc_bits_lxor 8 (Z.lxor c b)), crc_bits_8_shift.
Qed.

(** ** The errors that are detected *)

Definition word (c : Z) : Prop := 0 <= c < 2 ^ 64.

Lemma word_shiftr c : word c -> 0 <= Z.shiftr c 1 < 2 ^ 63.
Proof.
  unfold word. intros. rewrite Z.shiftr_div_pow2 by lia. change (2 ^ 1) with 2.
  split; [apply Z.div_pos|apply Z.div_lt_upper_bound]; lia.
Qed.

Lemma crc_bit_word c : word c -> word (crc_bit c).
Proof.
  intros Hc. pose proof (word_shiftr c Hc). apply (lxor_small 64); [lia|lia|].
  unfold crc64_rpoly. destruct (Z.testbit c 0); lia.
Qed.

(** The register never forgets: bit 63 tells whether the polynomial was added. *)
Lemma crc_bit_zero c : word c -> crc_bit c = 0 -> c = 0.
Proof.
  intros Hc H0. pose proof (word_shiftr c Hc) as Hs. unfold crc_bit in H0.
  assert (Z.testbit c 0 = false) as Hb.
  { assert (Z.testbit (Z.lxor (Z.shiftr c 1) (if Z.testbit c 0 then crc64_rpoly else 0)) 63 = false) as H63
      by by rewrite H0.
    rewrite Z.lxor_spec, (testbit_small 63) in H63 by lia. by destruct (Z.testbit c 0). }
  rewrite Hb, Z.lxor_0_r in H0. rewrite Z.bit0_odd in Hb. rewrite (Z.div_mod c 2), Zmod_odd, Hb by lia.
  rewrite Z.shiftr_div_pow2 in H0 by lia. change (2 ^ 1) with 2 in H0. by rewrite H0.
Qed.

Lemma crc_bits_zero n : forall c, word c -> crc_bits n c = 0 -> c = 0.
Proof.
  induction n as [|n IH]; intros c Hc H0; [done|]. cbn [crc_bits] in H0.
  apply crc_bit_zero; [done|]. apply IH; [by apply crc_bit_word|done].
Qed.

Lemma le_val_app l1 l2 : le_val (l1 ++ l2) = le_val l1 + 256 ^ zlen l1 * le_val l2.
Proof.
  induction l1 as [|b l1 IH]; [cbn [app le_val]; change (256 ^ zlen []) with 1; lia|].
  cbn [app le_val]. rewrite IH, zlen_cons, Z.pow_add_r by (done || apply zlen_nonneg). lia.
Qed.

Lemma le_val_inj l1 l2 : bytes_ok l1 -> bytes_ok l2 -> length l1 = length l2 -> le_val l1 = le_val l2 -> l1 = l2.
Proof. intros H1 H2 Hl Hv. rewrite <- (le_bytes_val l1), <- (le_bytes_val l2) by done. by rewrite Hl, Hv. Qed.

Lemma crc64_fold c s : bytes_ok s -> forall c', crc64 c s = Some c' -> c' = crc_bits (8 * length s) (Z.lxor c (le_val s)).
Proof. intros Hs c'. rewrite crc64_ok by done. by intros [= <-]. Qed.

Lemma crc64_app s1 s2 : forall c, crc64 c (s1 ++ s2) = c1 ← crc64 c s1; crc64 c1 s2.
Proof.
  induction s1 as [|b s1 IH]; intros c; [done|]. cbn [app crc64].
  destruct (rd crc64_tab (Z.lxor (u8 c) b)); [apply IH|done].
Qed.

Lemma crc_bits_word n : forall c, word c -> word (crc_bits n c).
Proof. induction n as [|n IH]; intros c Hc; [done|]. by apply IH, crc_bit_word. Qed.

Lemma crc_bits_inj n a b : word a -> word b -> crc_bits n a = crc_bits n b -> a = b.
Proof.
  intros Ha Hb H. apply Z.lxor_eq, (crc_bits_zero n).
  - apply (lxor_small 64); [lia|done|done].
  - by rewrite crc_bits_lxor, H, Z.lxor_nilpotent.
Qed.

Lemma pow_256 k : 0 <= k -> 256 ^ k = 2 ^ (8 * k).
Proof. intros. rewrite Z.pow_mul_r by lia. done. Qed.

(** The register is a word whatever was read. *)
Lemma crc64_word s : forall c, bytes_ok s -> word c -> exists c', crc64 c s = Some c' /\ word c'.
Proof.
  induction s as [|b s IH]; intros c Hs Hc; [by exists c|]. apply Forall_cons in Hs as [Hb Hs]. cbn [crc64].
  pose proof (lxor_byte c b Hb) as Hi. unfold byte_ok in Hi. rewrite crc64_tab_ok by done. cbn [mbind option_bind].
  rewrite crc_step by done. apply IH; [done|]. apply crc_bits_word, (lxor_small 64); [lia|done|].
  unfold byte_ok in Hb. lia.
Qed.

(** A window of at most eight bytes is read injectively from any state. *)
Lemma crc64_window c w1 w2 x : word c -> bytes_ok w1 -> bytes_ok w2 -> length w1 = length w2 -> (length w1 <= 8)%nat ->
  crc64 c w1 = Some x -> crc64 c w2 = Some x -> w1 = w2.
Proof.
  intros Hc H1 H2 Hl H8 E1 E2. apply crc64_fold in E1, E2; [|done..]. rewrite <- Hl, E1 in E2.
  assert (forall w, bytes_ok w -> (length w <= 8)%nat -> word (le_val w)) as Hw.
  { intros w Hw Hlen. pose proof (le_val_range w Hw). unfold word.
    rewrite pow_256 in * by apply zlen_nonneg. split; [lia|].
    eapply Z.lt_le_trans; [apply H|]. apply Z.pow_le_mono_r; unfold zlen; lia. }
  apply crc_bits_inj in E2; [|apply (lxor_small 64); [lia|done|by apply Hw]..|].
  2: { apply (lxor_small 64); [lia|done|]. apply Hw; [done|lia]. }
  apply le_val_inj; [done..|]. apply (f_equal (Z.lxor c)) in E2.
  by rewrite <- !Z.lxor_assoc, Z.lxor_nilpotent, !Z.lxor_0_l in E2.
Qed.

Lemma crc64_inj s : forall c1 c2 x, bytes_ok s -> word c1 -> word c2 ->
  crc64 c1 s = Some x -> crc64 c2 s = Some x -> c1 = c2.
Proof.
  intros c1 c2 x Hs H1 H2 E1 E2. apply crc64_fold in E1, E2; [|done..].
  rewrite !crc_bits_lxor in E1, E2. apply (crc_bits_inj (8 * length s)); [done..|].
  rewrite E1 in E2. apply (f_equal (fun z => Z.lxor z (crc_bits (8 * length s) (le_val s)))) in E2.
  by rewrite !Z.lxor_assoc, Z.lxor_nilpotent, !Z.lxor_0_r in E2.
Qed.

(** The table-driven [crc64] never leaves its table and computes, for every message, the
    remainder of the bit by bit division of the message, as one number, by the
    reflected Jones polynomial; it can be computed in pieces. *)
Theorem crc64_division c s1 s2 : bytes_ok s1 -> bytes_ok s2 ->
  crc64 c (s1 ++ s2) = Some (crc_bits (8 * length (s1 ++ s2)) (Z.lxor c (le_val (s1 ++ s2)))) /\
  crc64 c (s1 ++ s2) = (c1 ← crc64 c s1; crc64 c1 s2).
Proof.
  intros H1 H2. split; [|apply crc64_app]. apply crc64_ok. by apply Forall_app.
Qed.

Lemma crc64_division_witness :
  crc64 0 (zs "123456789") = Some 0xe9c6d914c4b8d9ca /\
  crc64 0 (zs "1234" ++ zs "56789") = Some (crc_bits 72 (Z.lxor 0 (le_val (zs "123456789")))) /\
  crc64 0 (zs "1234" ++ zs "56789") = (c1 ← crc64 0 (zs "1234"); crc64 c1 (zs "56789")).
Proof.
  split; [by vm_compute|].
  apply (crc64_division 0 (zs "1234") (zs "56789")); by apply (bool_decide_unpack _).
Defined.

Lemma crc64_detects_ok c pre w1 w2 post : word c -> bytes_ok (pre ++ w1 ++ post) -> bytes_ok w2 ->
  length w1 = length w2 -> (length w1 <= 8)%nat -> w1 <> w2 ->
  crc64 c (pre ++ w1 ++ post) <> crc64 c (pre ++ w2 ++ post).
Proof.
  intros Hc Hb H2 Hl H8 Hne E. apply Forall_app in Hb as [Hp [H1 Hq]%Forall_app].
  rewrite !crc64_app in E. destruct (crc64_word pre c Hp Hc) as (c0 & Hc0 & Hw0). rewrite Hc0 in E.
  cbn [mbind option_bind] in E. rewrite !crc64_app in E.
  destruct (crc64_word w1 c0 H1 Hw0) as (a & Ha & Hwa), (crc64_word w2 c0 H2 Hw0) as (b & Hb & Hwb).
  rewrite Ha, Hb in E. cbn [mbind option_bind] in E. destruct (crc64_word post a Hq Hwa) as (x & Hx & _).
  assert (a = b) as <- by (rewrite Hx in E; by apply (crc64_inj post a b x)). by apply Hne, (crc64_window c0 w1 w2 a).
Qed.

(** C36: The checksum detects every change confined to eight consecutive bytes: two
    messages of the same length that differ exactly there have different checksums. *)
Theorem crc64_detects c pre w1 w2 post : word c -> bytes_ok (pre ++ w1 ++ post) -> bytes_ok w2 ->
  length w1 = length w2 -> (length w1 <= 8)%nat -> w1 <> w2 ->
  crc64 c (pre ++ w1 ++ post) <> crc64 c (pre ++ w2 ++ post).
Proof. apply crc64_detects_ok. Qed.

Lemma crc64_detects_witness :
  (zs "0006" <> zs "1007") /\ crc64 0 (zs "REDIS" ++ zs "0006" ++ [0; 1]) <> crc64 0 (zs "REDIS" ++ zs "1007" ++ [0; 1]).
Proof.
  split; [done|]. apply (crc64_detects 0 (zs "REDIS") (zs "0006") (zs "1007") [0; 1]);
    try done; [by apply (bool_decide_unpack _)..|]. simpl. lia.
Defined.
