(* ===== verification/Ziplist.v ===== *)
(** * Ziplists (src/redis-2.8.19/src/ziplist.c)

    The compact list of strings and integers in one block of memory, byte by
    byte: a pointer into the block is an offset, a read or a write outside the
    block is [None]. The host is little-endian, where the [intrev..ifbe] and
    [memrev..ifbe] do nothing. *)
From S2P Require Import Prelude Util.
Open Scope Z_scope.

Definition ZIP_END : Z := 255.
Definition ZIP_BIGLEN : Z := 254.
Definition ZIP_STR_MASK : Z := 192.
Definition ZIP_STR_06B : Z := Z.shiftl 0 6.
Definition ZIP_STR_14B : Z := Z.shiftl 1 6.
Definition ZIP_STR_32B : Z := Z.shiftl 2 6.
Definition ZIP_INT_16B : Z := Z.lor 192 (Z.shiftl 0 4).
Definition ZIP_INT_32B : Z := Z.lor 192 (Z.shiftl 1 4).
Definition ZIP_INT_64B : Z := Z.lor 192 (Z.shiftl 2 4).
Definition ZIP_INT_24B : Z := Z.lor 192 (Z.shiftl 3 4).
Definition ZIP_INT_8B : Z := 254.
Definition ZIP_INT_IMM_MASK : Z := 15.
Definition ZIP_INT_IMM_MIN : Z := 241.
Definition ZIP_INT_IMM_MAX : Z := 253.
Definition INT24_MAX : Z := 8388607.
Definition INT24_MIN : Z := - INT24_MAX - 1.
Definition UINT16_MAX : Z := 65535.

Definition ZIP_IS_STR (enc : Z) : bool := Z.land enc ZIP_STR_MASK <? ZIP_STR_MASK.

(** ** The header *)

Definition ZIPLIST_BYTES (zl : list Z) : option Z := le_val <$> rd_block zl 0 4.
Definition ZIPLIST_TAIL_OFFSET (zl : list Z) : option Z := le_val <$> rd_block zl 4 4.
Definition ZIPLIST_LENGTH (zl : list Z) : option Z := le_val <$> rd_block zl 8 2.
Definition set_BYTES (zl : list Z) (v : Z) : option (list Z) := wr_block zl 0 (le_bytes 4 v).
Definition set_TAIL_OFFSET (zl : list Z) (v : Z) : option (list Z) := wr_block zl 4 (le_bytes 4 v).
Definition set_LENGTH (zl : list Z) (v : Z) : option (list Z) := wr_block zl 8 (le_bytes 2 v).

Definition ZIPLIST_HEADER_SIZE : Z := 10.
Definition ZIPLIST_ENTRY_HEAD : Z := ZIPLIST_HEADER_SIZE.
Definition ZIPLIST_ENTRY_TAIL (zl : list Z) : option Z := ZIPLIST_TAIL_OFFSET zl.
Definition ZIPLIST_ENTRY_END (zl : list Z) : option Z := n ← ZIPLIST_BYTES zl; Some (n - 1).

Definition ZIPLIST_INCR_LENGTH (zl : list Z) (incr : Z) : option (list Z) :=
  n ← ZIPLIST_LENGTH zl;
  if n <? UINT16_MAX then set_LENGTH zl (n + incr) else Some zl.

(** ** Entries *)

Record zlentry := mkZlentry {
  prevrawlensize : Z; prevrawlen : Z;
  lensize : Z; len : Z;
  headersize : Z;
  encoding : Z;
  zp : Z
}.

Definition zipIntSize (encoding : Z) : Z :=
  if encoding =? ZIP_INT_8B then 1
  else if encoding =? ZIP_INT_16B then 2
  else if encoding =? ZIP_INT_24B then 3
  else if encoding =? ZIP_INT_32B then 4
  else if encoding =? ZIP_INT_64B then 8
  else 0.

(** The bytes that [zipEncodeLength] writes; it returns their number. *)
Definition zipEncodeLength (encoding rawlen : Z) : list Z :=
  if ZIP_IS_STR encoding then
    if rawlen <=? 63 then [Z.lor ZIP_STR_06B rawlen]
    else if rawlen <=? 16383 then [Z.lor ZIP_STR_14B (Z.land (Z.shiftr rawlen 8) 63); Z.land rawlen 255]
    else [ZIP_STR_32B; Z.land (Z.shiftr rawlen 24) 255; Z.land (Z.shiftr rawlen 16) 255;
          Z.land (Z.shiftr rawlen 8) 255; Z.land rawlen 255]
  else [encoding].

Definition ZIP_ENTRY_ENCODING (b : Z) : Z := if b <? ZIP_STR_MASK then Z.land b ZIP_STR_MASK else b.

(** [encoding], [lensize] and [len]. *)
Definition ZIP_DECODE_LENGTH (zl : list Z) (ptr : Z) : option (Z * Z * Z) :=
  b0 ← rd zl ptr;
  let encoding := ZIP_ENTRY_ENCODING b0 in
  if encoding <? ZIP_STR_MASK then
    if encoding =? ZIP_STR_06B then Some (encoding, 1, Z.land b0 63)
    else if encoding =? ZIP_STR_14B then
      b1 ← rd zl (ptr + 1); Some (encoding, 2, Z.lor (Z.shiftl (Z.land b0 63) 8) b1)
    else if encoding =? ZIP_STR_32B then
      b1 ← rd zl (ptr + 1); b2 ← rd zl (ptr + 2); b3 ← rd zl (ptr + 3); b4 ← rd zl (ptr + 4);
      Some (encoding, 5, Z.lor (Z.lor (Z.lor (Z.shiftl b1 24) (Z.shiftl b2 16)) (Z.shiftl b3 8)) b4)
    else None
  else Some (encoding, 1, zipIntSize encoding).

(** The bytes of [zipPrevEncodeLength] and of [zipPrevEncodeLengthForceLarge]. *)
Definition zipPrevEncodeLength (len : Z) : list Z :=
  if len <? ZIP_BIGLEN then [len] else ZIP_BIGLEN :: le_bytes 4 len.
Definition zipPrevEncodeLengthForceLarge (len : Z) : list Z := ZIP_BIGLEN :: le_bytes 4 len.

Definition ZIP_DECODE_PREVLENSIZE (zl : list Z) (ptr : Z) : option Z :=
  b ← rd zl ptr; Some (if b <? ZIP_BIGLEN then 1 else 5).

Definition ZIP_DECODE_PREVLEN (zl : list Z) (ptr : Z) : option (Z * Z) :=
  prevlensize ← ZIP_DECODE_PREVLENSIZE zl ptr;
  if prevlensize =? 1 then b ← rd zl ptr; Some (prevlensize, b)
  else l ← rd_block zl (ptr + 1) 4; Some (prevlensize, le_val l).

Definition zipPrevLenByteDiff (zl : list Z) (p len : Z) : option Z :=
  prevlensize ← ZIP_DECODE_PREVLENSIZE zl p;
  Some (zlen (zipPrevEncodeLength len) - prevlensize).

Definition zipRawEntryLength (zl : list Z) (p : Z) : option Z :=
  prevlensize ← ZIP_DECODE_PREVLENSIZE zl p;
  '(_, lensize, len) ← ZIP_DECODE_LENGTH zl (p + prevlensize);
  Some (u32 (prevlensize + lensize + len)).

Definition zipEntry (zl : list Z) (p : Z) : option zlentry :=
  '(prevrawlensize, prevrawlen) ← ZIP_DECODE_PREVLEN zl p;
  '(encoding, lensize, len) ← ZIP_DECODE_LENGTH zl (p + prevrawlensize);
  Some (mkZlentry prevrawlensize prevrawlen lensize len (prevrawlensize + lensize) encoding p).

(** ** Integers *)

Definition int_encoding (value : Z) : Z :=
  if (value >=? 0) && (value <=? 12) then ZIP_INT_IMM_MIN + value
  else if (value >=? -128) && (value <=? 127) then ZIP_INT_8B
  else if (value >=? INT16_MIN) && (value <=? INT16_MAX) then ZIP_INT_16B
  else if (value >=? INT24_MIN) && (value <=? INT24_MAX) then ZIP_INT_24B
  else if (value >=? INT32_MIN) && (value <=? INT32_MAX) then ZIP_INT_32B
  else ZIP_INT_64B.

(** The value and its encoding. *)
Definition zipTryEncoding (entry : list Z) (entrylen : Z) : option (option (Z * Z)) :=
  if (entrylen >=? 32) || (entrylen =? 0) then Some None
  else
    v ← string2ll entry entrylen;
    Some (option_map (fun value => (value, int_encoding value)) v).

Definition zipSaveInteger (zl : list Z) (p value encoding : Z) : option (list Z) :=
  if encoding =? ZIP_INT_8B then wr_block zl p (le_bytes 1 value)
  else if encoding =? ZIP_INT_16B then wr_block zl p (le_bytes 2 value)
  else if encoding =? ZIP_INT_24B then wr_block zl p (drop 1 (le_bytes 4 (Z.shiftl value 8)))
  else if encoding =? ZIP_INT_32B then wr_block zl p (le_bytes 4 value)
  else if encoding =? ZIP_INT_64B then wr_block zl p (le_bytes 8 value)
  else if (encoding >=? ZIP_INT_IMM_MIN) && (encoding <=? ZIP_INT_IMM_MAX) then Some zl
  else None.

Definition zipLoadInteger (zl : list Z) (p encoding : Z) : option Z :=
  if encoding =? ZIP_INT_8B then l ← rd_block zl p 1; Some (s8 (le_val l))
  else if encoding =? ZIP_INT_16B then l ← rd_block zl p 2; Some (s16 (le_val l))
  else if encoding =? ZIP_INT_32B then l ← rd_block zl p 4; Some (s32 (le_val l))
  else if encoding =? ZIP_INT_24B then l ← rd_block zl p 3; Some (Z.shiftr (s32 (le_val (0 :: l))) 8)
  else if encoding =? ZIP_INT_64B then l ← rd_block zl p 8; Some (s64 (le_val l))
  else if (encoding >=? ZIP_INT_IMM_MIN) && (encoding <=? ZIP_INT_IMM_MAX) then
    Some (Z.land encoding ZIP_INT_IMM_MASK - 1)
  else None.

(** ** The list *)

Section ops.
Context (uninit : nat -> Z).

Definition ziplistNew : option (list Z) :=
  let bytes := ZIPLIST_HEADER_SIZE + 1 in
  zl ← set_BYTES (realloc uninit [] bytes) bytes;
  zl ← set_TAIL_OFFSET zl ZIPLIST_HEADER_SIZE;
  zl ← set_LENGTH zl 0;
  wr zl (bytes - 1) ZIP_END.

Definition ziplistResize (zl : list Z) (len : Z) : option (list Z) :=
  let len := u32 len in
  zl ← set_BYTES (realloc uninit zl len) len;
  wr zl (len - 1) ZIP_END.

(** One entry is passed at each turn: the bytes of the list are fuel enough. *)
Fixpoint cascade_loop (fuel : nat) (zl : list Z) (p curlen : Z) : option (list Z) :=
  match fuel with
  | O => None
  | S fuel =>
      b ← rd zl p;
      if b =? ZIP_END then Some zl
      else
        cur ← zipEntry zl p;
        let rawlen := u32 (headersize cur + len cur) in
        let rawlensize := zlen (zipPrevEncodeLength rawlen) in
        b ← rd zl (p + rawlen);
        if b =? ZIP_END then Some zl
        else
          next ← zipEntry zl (p + rawlen);
          if prevrawlen next =? rawlen then Some zl
          else if prevrawlensize next <? rawlensize then
            let extra := rawlensize - prevrawlensize next in
            zl ← ziplistResize zl (curlen + extra);
            let np := p + rawlen in
            tail ← ZIPLIST_TAIL_OFFSET zl;
            zl ← (if negb (tail =? np) then set_TAIL_OFFSET zl (tail + extra) else Some zl);
            zl ← memmove zl (np + rawlensize) (np + prevrawlensize next) (curlen - np - prevrawlensize next - 1);
            zl ← wr_block zl np (zipPrevEncodeLength rawlen);
            cascade_loop fuel zl (p + rawlen) (curlen + extra)
          else if prevrawlensize next >? rawlensize then
            wr_block zl (p + rawlen) (zipPrevEncodeLengthForceLarge rawlen)
          else wr_block zl (p + rawlen) (zipPrevEncodeLength rawlen)
  end.

Definition __ziplistCascadeUpdate (zl : list Z) (p : Z) : option (list Z) :=
  curlen ← ZIPLIST_BYTES zl;
  cascade_loop (length zl) zl p curlen.

(** The loop of [__ziplistDelete]: [p] and [deleted]. *)
Fixpoint skip_loop (fuel : nat) (zl : list Z) (p i num : Z) : option (Z * Z) :=
  b ← rd zl p;
  if negb (b =? ZIP_END) && (i <? num) then
    match fuel with
    | O => None
    | S fuel => n ← zipRawEntryLength zl p; skip_loop fuel zl (p + n) (i + 1) num
    end
  else Some (p, i).

(** The entries from [p] on move to the place of the deleted ones, [totlen] bytes
    before; the first of them learns the length of its new predecessor. *)
Definition delete_move (zl : list Z) (first : zlentry) (p totlen : Z) : option (list Z * Z) :=
  b ← rd zl p;
  if negb (b =? ZIP_END) then
    nextdiff ← zipPrevLenByteDiff zl p (prevrawlen first);
    let p := p - nextdiff in
    zl ← wr_block zl p (zipPrevEncodeLength (prevrawlen first));
    off ← ZIPLIST_TAIL_OFFSET zl;
    zl ← set_TAIL_OFFSET zl (off - totlen);
    tail ← zipEntry zl p;
    b ← rd zl (p + headersize tail + len tail);
    zl ← (if negb (b =? ZIP_END) then off ← ZIPLIST_TAIL_OFFSET zl; set_TAIL_OFFSET zl (off + nextdiff)
          else Some zl);
    bytes ← ZIPLIST_BYTES zl;
    zl ← memmove zl (zp first) p (bytes - p - 1);
    Some (zl, nextdiff)
  else zl ← set_TAIL_OFFSET zl (zp first - prevrawlen first); Some (zl, 0).

Definition __ziplistDelete (zl : list Z) (p num : Z) : option (list Z) :=
  first ← zipEntry zl p;
  '(p, deleted) ← skip_loop (length zl) zl p 0 num;
  let totlen := u32 (p - zp first) in
  if totlen >? 0 then
    '(zl, nextdiff) ← delete_move zl first p totlen;
    bytes ← ZIPLIST_BYTES zl;
    zl ← ziplistResize zl (bytes - totlen + nextdiff);
    zl ← ZIPLIST_INCR_LENGTH zl (- deleted);
    if negb (nextdiff =? 0) then __ziplistCascadeUpdate zl (zp first) else Some zl
  else Some zl.

(** The length of the entry before the place [p]. *)
Definition insert_prevlen (zl : list Z) (p : Z) : option Z :=
  b ← rd zl p;
  if negb (b =? ZIP_END) then snd <$> ZIP_DECODE_PREVLEN zl p
  else
    ptail ← ZIPLIST_ENTRY_TAIL zl;
    t ← rd zl ptail;
    if negb (t =? ZIP_END) then zipRawEntryLength zl ptail else Some 0.

(** "Apply memory move when necessary and update tail offset." *)
Definition insert_move (zl : list Z) (p curlen reqlen nextdiff : Z) : option (list Z) :=
  b ← rd zl p;
  if negb (b =? ZIP_END) then
    zl ← memmove zl (p + reqlen) (p - nextdiff) (curlen - p - 1 + nextdiff);
    zl ← wr_block zl (p + reqlen) (zipPrevEncodeLength reqlen);
    off ← ZIPLIST_TAIL_OFFSET zl;
    zl ← set_TAIL_OFFSET zl (off + reqlen);
    tail ← zipEntry zl (p + reqlen);
    b ← rd zl (p + reqlen + headersize tail + len tail);
    if negb (b =? ZIP_END) then off ← ZIPLIST_TAIL_OFFSET zl; set_TAIL_OFFSET zl (off + nextdiff)
    else Some zl
  else set_TAIL_OFFSET zl p.

(** "Write the entry": [encoding] is 0 for a string. *)
Definition insert_write (zl : list Z) (p prevlen encoding value : Z) (s : list Z) (slen : Z) : option (list Z) :=
  let l := zipPrevEncodeLength prevlen in
  zl ← wr_block zl p l;
  let p := p + zlen l in
  let l := zipEncodeLength encoding slen in
  zl ← wr_block zl p l;
  let p := p + zlen l in
  if ZIP_IS_STR encoding then src ← rd_block s 0 slen; wr_block zl p src
  else zipSaveInteger zl p value encoding.

Definition __ziplistInsert (zl : list Z) (p : Z) (s : list Z) (slen : Z) : option (list Z) :=
  curlen ← ZIPLIST_BYTES zl;
  prevlen ← insert_prevlen zl p;
  e ← zipTryEncoding s slen;
  let encoding := match e with Some (_, encoding) => encoding | None => 0 end in
  let value := match e with Some (value, _) => value | None => 123456789 end in
  let reqlen := match e with Some (_, encoding) => zipIntSize encoding | None => slen end in
  let reqlen := reqlen + zlen (zipPrevEncodeLength prevlen) in
  let reqlen := reqlen + zlen (zipEncodeLength encoding slen) in
  b ← rd zl p;
  nextdiff ← (if negb (b =? ZIP_END) then zipPrevLenByteDiff zl p reqlen else Some 0);
  zl ← ziplistResize zl (curlen + reqlen + nextdiff);
  zl ← insert_move zl p curlen reqlen nextdiff;
  zl ← (if negb (nextdiff =? 0) then __ziplistCascadeUpdate zl (p + reqlen) else Some zl);
  zl ← insert_write zl p prevlen encoding value s slen;
  ZIPLIST_INCR_LENGTH zl 1.

Inductive where_t := ZIPLIST_HEAD | ZIPLIST_TAIL.

Definition ziplistPush (zl s : list Z) (slen : Z) (where_ : where_t) : option (list Z) :=
  p ← match where_ with ZIPLIST_HEAD => Some ZIPLIST_ENTRY_HEAD | ZIPLIST_TAIL => ZIPLIST_ENTRY_END zl end;
  __ziplistInsert zl p s slen.
End ops.

(** ** Access *)

(** The loops of [ziplistIndex]: [p] and [index]. *)
Fixpoint forward_loop (fuel : nat) (zl : list Z) (p index : Z) : option (Z * Z) :=
  b ← rd zl p;
  if b =? ZIP_END then Some (p, index)
  else if index =? 0 then Some (p, index - 1)
  else
    match fuel with
    | O => None
    | S fuel => n ← zipRawEntryLength zl p; forward_loop fuel zl (p + n) (index - 1)
    end.

Fixpoint backward_loop (fuel : nat) (zl : list Z) (p prevlen index : Z) : option (Z * Z) :=
  if prevlen >? 0 then
    if index =? 0 then Some (p, index - 1)
    else
      match fuel with
      | O => None
      | S fuel =>
          let p := p - prevlen in
          '(_, prevlen) ← ZIP_DECODE_PREVLEN zl p;
          backward_loop fuel zl p prevlen (index - 1)
      end
  else Some (p, index).

(** [Some None] is the NULL pointer. *)
Definition ziplistIndex (zl : list Z) (index : Z) : option (option Z) :=
  '(p, index) ← (
    if index <? 0 then
      let index := - index - 1 in
      p ← ZIPLIST_ENTRY_TAIL zl;
      b ← rd zl p;
      if negb (b =? ZIP_END) then
        '(_, prevlen) ← ZIP_DECODE_PREVLEN zl p; backward_loop (length zl) zl p prevlen index
      else Some (p, index)
    else forward_loop (length zl) zl ZIPLIST_ENTRY_HEAD index);
  b ← rd zl p;
  Some (if (b =? ZIP_END) || (index >? 0) then None else Some p).

Definition ziplistNext (zl : list Z) (p : Z) : option (option Z) :=
  b ← rd zl p;
  if b =? ZIP_END then Some None
  else
    n ← zipRawEntryLength zl p;
    b ← rd zl (p + n);
    Some (if b =? ZIP_END then None else Some (p + n)).

Definition ziplistPrev (zl : list Z) (p : Z) : option (option Z) :=
  b ← rd zl p;
  if b =? ZIP_END then
    p ← ZIPLIST_ENTRY_TAIL zl;
    b ← rd zl p;
    Some (if b =? ZIP_END then None else Some p)
  else if p =? ZIPLIST_ENTRY_HEAD then Some None
  else
    '(_, prevlen) ← ZIP_DECODE_PREVLEN zl p;
    if prevlen >? 0 then Some (Some (p - prevlen)) else None.

(** What [ziplistGet] stores; [None] where it returns 0. *)
Definition ziplistGet (zl : list Z) (p : option Z) : option (option (list Z + Z)) :=
  match p with
  | None => Some None
  | Some p =>
      b ← rd zl p;
      if b =? ZIP_END then Some None
      else
        entry ← zipEntry zl p;
        if ZIP_IS_STR (encoding entry) then
          s ← rd_block zl (p + headersize entry) (len entry); Some (Some (inl s))
        else v ← zipLoadInteger zl (p + headersize entry) (encoding entry); Some (Some (inr v))
  end.

Definition ziplistInsert := __ziplistInsert.

(** The pointer to the entry is an offset and stays as it is. *)
Definition ziplistDelete (uninit : nat -> Z) (zl : list Z) (p : Z) : option (list Z) := __ziplistDelete uninit zl p 1.

Definition ziplistDeleteRange (uninit : nat -> Z) (zl : list Z) (index num : Z) : option (list Z) :=
  p ← ziplistIndex zl (s32 index);
  match p with None => Some zl | Some p => __ziplistDelete uninit zl p num end.

Definition ziplistCompare (zl : list Z) (p : Z) (sstr : list Z) (slen : Z) : option bool :=
  b ← rd zl p;
  if b =? ZIP_END then Some false
  else
    entry ← zipEntry zl p;
    if ZIP_IS_STR (encoding entry) then
      if len entry =? slen then
        a ← rd_block zl (p + headersize entry) slen; b ← rd_block sstr 0 slen; Some (bool_decide (a = b))
      else Some false
    else
      e ← zipTryEncoding sstr slen;
      match e with
      | Some (sval, _) => zval ← zipLoadInteger zl (p + headersize entry) (encoding entry); Some (zval =? sval)
      | None => Some false
      end.

(** [vencoding]: 0 before the first integer is met, 255 when the string is not an
    integer. *)
Fixpoint find_loop (fuel : nat) (zl : list Z) (p : Z) (vstr : list Z) (vlen skip skipcnt vencoding vll : Z)
    : option (option Z) :=
  b ← rd zl p;
  if b =? ZIP_END then Some None
  else
    match fuel with
    | O => None
    | S fuel =>
        prevlensize ← ZIP_DECODE_PREVLENSIZE zl p;
        '(encoding, lensize, len) ← ZIP_DECODE_LENGTH zl (p + prevlensize);
        let q := p + prevlensize + lensize in
        if skipcnt =? 0 then
          if ZIP_IS_STR encoding then
            found ← (if len =? vlen then a ← rd_block zl q vlen; b ← rd_block vstr 0 vlen; Some (bool_decide (a = b))
                     else Some false);
            if found : bool then Some (Some p)
            else find_loop fuel zl (q + len) vstr vlen skip skip vencoding vll
          else
            '(vencoding, vll) ← (
              if vencoding =? 0 then
                e ← zipTryEncoding vstr vlen;
                let '(vencoding, vll) := match e with Some (v, enc) => (enc, v) | None => (255, vll) end in
                if vencoding =? 0 then None else Some (vencoding, vll)
              else Some (vencoding, vll));
            found ← (if negb (vencoding =? 255) then ll ← zipLoadInteger zl q encoding; Some (ll =? vll)
                     else Some false);
            if found : bool then Some (Some p)
            else find_loop fuel zl (q + len) vstr vlen skip skip vencoding vll
        else find_loop fuel zl (q + len) vstr vlen skip (skipcnt - 1) vencoding vll
    end.

Definition ziplistFind (zl : list Z) (p : Z) (vstr : list Z) (vlen skip : Z) : option (option Z) :=
  find_loop (length zl) zl p vstr vlen skip 0 0 0.

Fixpoint count_loop (fuel : nat) (zl : list Z) (p len : Z) : option Z :=
  b ← rd zl p;
  if b =? ZIP_END then Some len
  else
    match fuel with
    | O => None
    | S fuel => n ← zipRawEntryLength zl p; count_loop fuel zl (p + n) (len + 1)
    end.

(** The length, and the list in which it may have been stored again. *)
Definition ziplistLen (zl : list Z) : option (Z * list Z) :=
  n ← ZIPLIST_LENGTH zl;
  if n <? UINT16_MAX then Some (n, zl)
  else
    len ← count_loop (length zl) zl ZIPLIST_HEADER_SIZE 0;
    zl ← (if len <? UINT16_MAX then set_LENGTH zl len else Some zl);
    Some (len, zl).

Definition ziplistBlobLen (zl : list Z) : option Z := ZIPLIST_BYTES zl.

(** ** Examples *)

Definition push_all (l : list (list Z)) : option (list Z) :=
  foldl (fun zl s => zl ← zl; ziplistPush (fun _ => 0) zl s (zlen s) ZIPLIST_TAIL) (ziplistNew (fun _ => 0)) l.

Example four_entries :
  push_all [zs "2"; zs "5"; zs "1024"; zs "ab"] =
    Some [23; 0; 0; 0; 18; 0; 0; 0; 4; 0; 0; 243; 2; 246; 2; 192; 0; 4; 4; 2; 97; 98; 255].
Proof. vm_compute. reflexivity. Qed.

Example read_back :
  (zl ← push_all [zs "2"; zs "5"; zs "1024"; zs "ab"]; p ← ziplistIndex zl (-2); ziplistGet zl p) = Some (Some (inr 1024)).
Proof. vm_compute. reflexivity. Qed.
