(* ===== verification/ZiplistSpec.v ===== *)
(** * Ziplists implement lists (src/redis-2.8.19/src/ziplist.c)

    The layout of a ziplist as a function of its entries, and what each operation
    does to the list of strings it holds. *)
From S2P Require Import Prelude Util Ziplist.
Open Scope Z_scope.

(** ** Bit fields *)

Lemma encoding_06b x : 0 <= x < 64 -> ZIP_ENTRY_ENCODING x = 0 /\ Z.land x 63 = x.
Proof.
  intros Hx. pose proof (below (fun x => (ZIP_ENTRY_ENCODING x =? 0) && (Z.land x 63 =? x)) 64 eq_refl x Hx) as H.
  cbv beta in H. lia.
Qed.

Lemma encoding_14b x : 0 <= x < 64 -> ZIP_ENTRY_ENCODING (Z.lor ZIP_STR_14B x) = 64 /\ Z.land (Z.lor ZIP_STR_14B x) 63 = x.
Proof.
  intros Hx. pose proof (below (fun x => (ZIP_ENTRY_ENCODING (Z.lor ZIP_STR_14B x) =? 64) &&
    (Z.land (Z.lor ZIP_STR_14B x) 63 =? x)) 64 eq_refl x Hx) as H. cbv beta in H. lia.
Qed.

(** ** The encoding of one value *)

Definition code (s : list Z) : option (Z * Z) := default None (zipTryEncoding s (zlen s)).

Definition int_payload (encoding value : Z) : list Z :=
  if encoding =? ZIP_INT_8B then le_bytes 1 value
  else if encoding =? ZIP_INT_16B then le_bytes 2 value
  else if encoding =? ZIP_INT_24B then drop 1 (le_bytes 4 (Z.shiftl value 8))
  else if encoding =? ZIP_INT_32B then le_bytes 4 value
  else if encoding =? ZIP_INT_64B then le_bytes 8 value
  else [].

Definition len_bytes (s : list Z) : list Z :=
  zipEncodeLength (match code s with Some (_, encoding) => encoding | None => 0 end) (zlen s).
Definition payload (s : list Z) : list Z :=
  match code s with Some (v, encoding) => int_payload encoding v | None => s end.
Definition body (s : list Z) : list Z := len_bytes s ++ payload s.

(** The encodings of integers. *)
Definition int_enc (encoding : Z) : Prop :=
  241 <= encoding <= 254 \/ encoding = 192 \/ encoding = 208 \/ encoding = 224 \/ encoding = 240.

Lemma int_encoding_int v : int_enc (int_encoding v).
Proof.
  assert (ZIP_INT_8B = 254 /\ ZIP_INT_16B = 192 /\ ZIP_INT_32B = 208 /\ ZIP_INT_64B = 224 /\ ZIP_INT_24B = 240) as H0 by done.
  unfold int_encoding, int_enc, ZIP_INT_IMM_MIN. destruct ((v >=? 0) && (v <=? 12)) eqn:Hb; [clear H0; lia|].
  clear Hb. repeat (destruct (_ && _); [lia|]). lia.
Qed.

Lemma zipTryEncoding_cases s :
  (zipTryEncoding s (zlen s) = Some None /\ code s = None) \/
  exists v, sfits 64 v /\ signed_numeral s v /\ zipTryEncoding s (zlen s) = Some (Some (v, int_encoding v)) /\
    code s = Some (v, int_encoding v).
Proof.
  unfold code, zipTryEncoding. destruct ((zlen s >=? 32) || (zlen s =? 0)); [by left|].
  destruct (string2ll_ok s) as (r & -> & Hr). cbn [mbind option_bind option_map default from_option id].
  destruct r as [v|]; [|by left]. right. exists v. destruct (proj1 (Hr v) eq_refl). done.
Qed.

Lemma int_not_str encoding : int_enc encoding -> ZIP_IS_STR encoding = false.
Proof.
  intros H. assert (192 <= encoding < 256) as Hr by (unfold int_enc in H; lia).
  pose proof (below (fun x => implb (192 <=? x) (negb (ZIP_IS_STR x))) 256 eq_refl encoding ltac:(lia)) as Hb.
  cbv beta in Hb. destruct (Z.leb_spec 192 encoding); [|lia]. by destruct (ZIP_IS_STR encoding).
Qed.

Lemma zlen_int_payload v : zlen (int_payload (int_encoding v) v) = zipIntSize (int_encoding v).
Proof.
  unfold int_payload, zipIntSize. generalize (int_encoding v) as e. intros e.
  repeat (match goal with |- context [if ?b then _ else _] => destruct b end; [reflexivity|]). reflexivity.
Qed.

(** The length of the encoded length, and of the payload. *)
Definition lsz (s : list Z) : Z := zlen (len_bytes s).
Definition enc_of (s : list Z) : Z :=
  match code s with
  | Some (_, encoding) => encoding
  | None => if zlen s <=? 63 then ZIP_STR_06B else if zlen s <=? 16383 then ZIP_STR_14B else ZIP_STR_32B
  end.

Lemma rd_shift {A} (P l : list A) i : 0 <= i -> rd (P ++ l) (zlen P + i) = rd l i.
Proof. intros. rewrite rd_app_r by lia. f_equal. lia. Qed.

Lemma int_encoding_decode encoding : int_enc encoding -> ZIP_ENTRY_ENCODING encoding = encoding /\ 192 <= encoding < 255.
Proof.
  intros H. assert (192 <= encoding < 255) by (unfold int_enc in H; lia). split; [|done]. unfold ZIP_ENTRY_ENCODING.
  destruct (Z.ltb_spec encoding ZIP_STR_MASK); [unfold ZIP_STR_MASK in *; lia|done].
Qed.

Lemma decode_length P s k :
  zlen s < 2 ^ 32 ->
  ZIP_DECODE_LENGTH (P ++ body s ++ k) (zlen P) = Some (enc_of s, lsz s, zlen (payload s)).
Proof.
  intros Hs. pose proof (zlen_nonneg s) as Hs0. unfold body, lsz, enc_of, payload, len_bytes, ZIP_DECODE_LENGTH.
  rewrite <- app_assoc. destruct (zipTryEncoding_cases s) as [[_ ->]|(v & _ & _ & _ & ->)].
  - unfold zipEncodeLength. change (ZIP_IS_STR 0) with true. cbv iota.
    destruct (Z.leb_spec (zlen s) 63).
    { change (Z.lor ZIP_STR_06B (zlen s)) with (Z.lor 0 (zlen s)). rewrite Z.lor_0_l. cbn [app]. rewrite rd_at.
      cbn [mbind option_bind]. destruct (encoding_06b (zlen s)) as [-> ->]; [lia|]. done. }
    destruct (Z.leb_spec (zlen s) 16383).
    { assert (0 <= zlen s / 2 ^ 8 < 64) as Hh by (split; [apply Z.div_pos; lia|apply Z.div_lt_upper_bound; lia]).
      replace (Z.land (Z.shiftr (zlen s) 8) 63) with (zlen s / 2 ^ 8)
        by (change 63 with (Z.ones 6); rewrite Z.shiftr_div_pow2, Z.land_ones by lia; by rewrite Z.mod_small by done).
      destruct (encoding_14b _ Hh) as [He Hl]. cbn [app]. rewrite rd_at.
      cbn [mbind option_bind]. rewrite He, Hl. change (64 <? ZIP_STR_MASK) with true. cbv iota.
      change (64 =? ZIP_STR_06B) with false. change (64 =? ZIP_STR_14B) with true. cbv iota.
      rewrite rd_shift by lia. set (l := _ :: Z.land (zlen s) 255 :: s ++ k).
      change (rd l 1) with (Some (Z.land (zlen s) 255)). cbn [mbind option_bind].
      change 255 with (Z.ones 8). rewrite Z.land_ones by lia. rewrite lor_add by (try apply Z.mod_pos_bound; lia).
      change (zlen [_; _]) with 2. do 2 f_equal. pose proof (Z.div_mod (zlen s) (2 ^ 8)). lia. }
    cbn [app]. rewrite rd_at. cbn [mbind option_bind]. change (ZIP_ENTRY_ENCODING ZIP_STR_32B) with 128.
    change (128 <? ZIP_STR_MASK) with true. cbv iota.
    change (128 =? ZIP_STR_06B) with false. change (128 =? ZIP_STR_14B) with false. change (128 =? ZIP_STR_32B) with true. cbv iota.
    rewrite !byte_of by lia. change 255 with (Z.ones 8). rewrite Z.land_ones by lia.
    set (b1 := (zlen s / 2 ^ 24) mod 256). set (b2 := (zlen s / 2 ^ 16) mod 256).
    set (b3 := (zlen s / 2 ^ 8) mod 256). set (b4 := zlen s mod 2 ^ 8).
    rewrite !rd_shift by lia. set (l := ZIP_STR_32B :: b1 :: b2 :: b3 :: b4 :: s ++ k).
    change (rd l 1) with (Some b1). change (rd l 2) with (Some b2). change (rd l 3) with (Some b3).
    change (rd l 4) with (Some b4). cbn [mbind option_bind].
    change (zlen [_; _; _; _; _]) with 5. do 2 f_equal.
    assert (0 <= b2 < 256) by (apply Z.mod_pos_bound; lia). assert (0 <= b3 < 256) by (apply Z.mod_pos_bound; lia).
    assert (0 <= b4 < 256) by (apply Z.mod_pos_bound; lia).
    rewrite (Z.shiftl_mul_pow2 b2), (Z.shiftl_mul_pow2 b3) by lia. rewrite lor_add by lia.
    replace (b1 * 2 ^ 24 + b2 * 2 ^ 16) with (Z.shiftl (b1 * 256 + b2) 16) by (rewrite Z.shiftl_mul_pow2; lia).
    rewrite lor_add by lia.
    replace ((b1 * 256 + b2) * 2 ^ 16 + b3 * 2 ^ 8) with (Z.shiftl ((b1 * 256 + b2) * 256 + b3) 8) by (rewrite Z.shiftl_mul_pow2; lia).
    rewrite lor_add by lia. unfold b1, b2, b3, b4. Z.to_euclidean_division_equations. lia.
  - unfold zipEncodeLength. rewrite int_not_str by apply int_encoding_int. cbn [app]. rewrite rd_at.
    cbn [mbind option_bind]. destruct (int_encoding_decode (int_encoding v) (int_encoding_int v)) as [-> Hr].
    destruct (Z.ltb_spec (int_encoding v) ZIP_STR_MASK); [unfold ZIP_STR_MASK in *; lia|]. by rewrite zlen_int_payload.
Qed.

(** ** Integers *)

Inductive int_spec (v : Z) : Z -> Prop :=
  | spec_imm : 0 <= v <= 12 -> int_spec v (ZIP_INT_IMM_MIN + v)
  | spec_8b : sfits 8 v -> int_spec v ZIP_INT_8B
  | spec_16b : sfits 16 v -> int_spec v ZIP_INT_16B
  | spec_24b : sfits 24 v -> int_spec v ZIP_INT_24B
  | spec_32b : sfits 32 v -> int_spec v ZIP_INT_32B
  | spec_64b : sfits 64 v -> int_spec v ZIP_INT_64B.

Lemma int_encoding_spec v : sfits 64 v -> int_spec v (int_encoding v).
Proof.
  intros Hv. unfold int_encoding, INT16_MIN, INT16_MAX, INT24_MIN, INT24_MAX, INT32_MIN, INT32_MAX.
  repeat (destruct (_ && _) eqn:Hb; [constructor; unfold sfits; lia|clear Hb]). by constructor.
Qed.

(** None of the encodings with a payload. *)
Lemma imm_neq v : 0 <= v <= 12 ->
  (ZIP_INT_IMM_MIN + v =? ZIP_INT_8B) = false /\ (ZIP_INT_IMM_MIN + v =? ZIP_INT_16B) = false /\
  (ZIP_INT_IMM_MIN + v =? ZIP_INT_24B) = false /\ (ZIP_INT_IMM_MIN + v =? ZIP_INT_32B) = false /\
  (ZIP_INT_IMM_MIN + v =? ZIP_INT_64B) = false /\
  (ZIP_INT_IMM_MIN + v >=? ZIP_INT_IMM_MIN) && (ZIP_INT_IMM_MIN + v <=? ZIP_INT_IMM_MAX) = true.
Proof.
  intros Hv. unfold ZIP_INT_IMM_MIN, ZIP_INT_IMM_MAX, ZIP_INT_8B. change ZIP_INT_16B with 192. change ZIP_INT_24B with 240.
  change ZIP_INT_32B with 208. change ZIP_INT_64B with 224. lia.
Qed.

Lemma imm_mask v : 0 <= v <= 12 -> Z.land (ZIP_INT_IMM_MIN + v) ZIP_INT_IMM_MASK - 1 = v.
Proof.
  intros Hv. pose proof (below (fun v => Z.land (ZIP_INT_IMM_MIN + v) ZIP_INT_IMM_MASK - 1 =? v) 13 eq_refl v ltac:(lia)) as H.
  cbv beta in H. lia.
Qed.

Lemma le_val_swrap n v : 0 < Z.of_nat n -> sfits (8 * Z.of_nat n) v -> swrap (8 * Z.of_nat n) (le_val (le_bytes n v)) = v.
Proof. intros Hn Hv. rewrite le_val_uwrap, swrap_uwrap, swrap_small by lia || done. done. Qed.

Lemma load_payload P v k :
  sfits 64 v -> zipLoadInteger (P ++ int_payload (int_encoding v) v ++ k) (zlen P) (int_encoding v) = Some v.
Proof.
  intros Hv. destruct (int_encoding_spec v Hv) as [Hi|Hi|Hi|Hi|Hi|Hi]; unfold zipLoadInteger, int_payload.
  - destruct (imm_neq v Hi) as (-> & -> & -> & -> & -> & ->). by rewrite imm_mask.
  - rewrite Z.eqb_refl. rewrite (rd_block_mid P (le_bytes 1 v) k) by done. cbn [mbind option_bind]. f_equal.
    by apply (le_val_swrap 1).
  - change (ZIP_INT_16B =? ZIP_INT_8B) with false. rewrite Z.eqb_refl. cbv iota.
    rewrite (rd_block_mid P (le_bytes 2 v) k) by done. cbn [mbind option_bind]. f_equal. by apply (le_val_swrap 2).
  - change (ZIP_INT_24B =? ZIP_INT_8B) with false. change (ZIP_INT_24B =? ZIP_INT_16B) with false.
    change (ZIP_INT_24B =? ZIP_INT_32B) with false. rewrite Z.eqb_refl. cbv iota.
    rewrite (rd_block_mid P (drop 1 (le_bytes 4 (Z.shiftl v 8))) k) by done. cbn [mbind option_bind]. f_equal.
    rewrite Z.shiftl_mul_pow2 by lia.
    assert (0 :: drop 1 (le_bytes 4 (v * 2 ^ 8)) = le_bytes 4 (v * 2 ^ 8)) as ->.
    { change (le_bytes 4 (v * 2 ^ 8)) with (v * 2 ^ 8 mod 256 :: le_bytes 3 (v * 2 ^ 8 / 256)). cbn [drop].
      rewrite drop_0. f_equal. symmetry. apply Z.mod_mul. lia. }
    rewrite (le_val_swrap 4); [|lia|unfold sfits in *; lia]. rewrite Z.shiftr_div_pow2 by lia. apply Z.div_mul. lia.
  - change (ZIP_INT_32B =? ZIP_INT_8B) with false. change (ZIP_INT_32B =? ZIP_INT_16B) with false.
    change (ZIP_INT_32B =? ZIP_INT_24B) with false. rewrite Z.eqb_refl. cbv iota.
    rewrite (rd_block_mid P (le_bytes 4 v) k) by done. cbn [mbind option_bind]. f_equal. by apply (le_val_swrap 4).
  - change (ZIP_INT_64B =? ZIP_INT_8B) with false. change (ZIP_INT_64B =? ZIP_INT_16B) with false.
    change (ZIP_INT_64B =? ZIP_INT_24B) with false. change (ZIP_INT_64B =? ZIP_INT_32B) with false.
    rewrite Z.eqb_refl. cbv iota.
    rewrite (rd_block_mid P (le_bytes 8 v) k) by done. cbn [mbind option_bind]. f_equal. by apply (le_val_swrap 8).
Qed.

Lemma save_payload P X v k :
  sfits 64 v -> zlen X = zlen (int_payload (int_encoding v) v) ->
  zipSaveInteger (P ++ X ++ k) (zlen P) v (int_encoding v) = Some (P ++ int_payload (int_encoding v) v ++ k).
Proof.
  intros Hv. destruct (int_encoding_spec v Hv) as [Hi|Hi|Hi|Hi|Hi|Hi]; unfold zipSaveInteger, int_payload.
  - destruct (imm_neq v Hi) as (-> & -> & -> & -> & -> & ->). cbn [zlen]. intros HX%zlen_zero. by rewrite HX.
  - intros HX. by apply (wr_block_mid P X k).
  - change (ZIP_INT_16B =? ZIP_INT_8B) with false. intros HX. by apply (wr_block_mid P X k).
  - change (ZIP_INT_24B =? ZIP_INT_8B) with false. change (ZIP_INT_24B =? ZIP_INT_16B) with false. intros HX.
    by apply (wr_block_mid P X k).
  - change (ZIP_INT_32B =? ZIP_INT_8B) with false. change (ZIP_INT_32B =? ZIP_INT_16B) with false.
    change (ZIP_INT_32B =? ZIP_INT_24B) with false. intros HX. by apply (wr_block_mid P X k).
  - change (ZIP_INT_64B =? ZIP_INT_8B) with false. change (ZIP_INT_64B =? ZIP_INT_16B) with false.
    change (ZIP_INT_64B =? ZIP_INT_24B) with false. change (ZIP_INT_64B =? ZIP_INT_32B) with false.
    intros HX. by apply (wr_block_mid P X k).
Qed.

(** ** Entries in memory *)

(** An entry: what it says of the length of the previous one, in how many bytes,
    and its string. *)
Record entry := mkEntry { pv : Z; ps : Z; text : list Z }.

Definition prev_bytes (e : entry) : list Z := if ps e =? 1 then [pv e] else ZIP_BIGLEN :: le_bytes 4 (pv e).
Definition raw (e : entry) : list Z := prev_bytes e ++ body (text e).
Definition size (e : entry) : Z := zlen (raw e).

Definition entry_ok (e : entry) : Prop :=
  (ps e = 1 /\ 0 <= pv e < ZIP_BIGLEN \/ ps e = 5 /\ 0 <= pv e < 2 ^ 32) /\ zlen (text e) < 2 ^ 32.

(** The bytes that a length of [n] takes. *)
Definition enc_size (n : Z) : Z := zlen (zipPrevEncodeLength n).

Lemma enc_size_cases n : n < ZIP_BIGLEN /\ enc_size n = 1 \/ ZIP_BIGLEN <= n /\ enc_size n = 5.
Proof. unfold enc_size, zipPrevEncodeLength. destruct (Z.ltb_spec n ZIP_BIGLEN); [by left|by right]. Qed.

Lemma zlen_prev_bytes e : entry_ok e -> zlen (prev_bytes e) = ps e.
Proof. intros [Hp _]. unfold prev_bytes. destruct Hp as [[-> _]|[-> _]]; done. Qed.

Lemma lsz_bounds s : 1 <= lsz s <= 5.
Proof.
  unfold lsz, len_bytes, zipEncodeLength. destruct (ZIP_IS_STR _); [|done].
  destruct (_ <=? _); [done|]. by destruct (_ <=? _).
Qed.

Lemma zlen_body s : zlen (body s) = lsz s + zlen (payload s).
Proof. unfold body. apply zlen_app. Qed.

Lemma size_body e : entry_ok e -> size e = ps e + zlen (body (text e)).
Proof. intros He. unfold size, raw. by rewrite zlen_app, zlen_prev_bytes. Qed.

Lemma size_eq e : entry_ok e -> size e = ps e + lsz (text e) + zlen (payload (text e)).
Proof. intros He. unfold size, raw. rewrite zlen_app, zlen_prev_bytes, zlen_body by done. lia. Qed.

Lemma ps_cases e : entry_ok e -> ps e = 1 \/ ps e = 5.
Proof. intros [[[? _]|[? _]] _]; auto. Qed.

Lemma size_pos e : entry_ok e -> 2 <= size e.
Proof.
  intros He. rewrite size_eq by done. pose proof (lsz_bounds (text e)). pose proof (zlen_nonneg (payload (text e))).
  destruct (ps_cases e He); lia.
Qed.

Section entry_at.
Context (P T : list Z) (e : entry) (Hok : entry_ok e).
Local Abbreviation m := (P ++ raw e ++ T).

Lemma raw_split : raw e = prev_bytes e ++ body (text e).
Proof. done. Qed.

Lemma first_byte : exists b, rd m (zlen P) = Some b /\ b <> ZIP_END /\ (b < ZIP_BIGLEN <-> ps e = 1).
Proof using Hok.
  unfold raw, prev_bytes. destruct Hok as [[[Hs Hp]|[Hs Hp]] _]; rewrite Hs; cbn [Z.eqb Pos.eqb app];
    rewrite rd_at; eexists; (split; [done|]); unfold ZIP_END, ZIP_BIGLEN in *; split; [lia|split; lia|lia|split; lia].
Qed.

Lemma prevlensize_at : ZIP_DECODE_PREVLENSIZE m (zlen P) = Some (ps e).
Proof using Hok.
  unfold ZIP_DECODE_PREVLENSIZE. destruct first_byte as (b & -> & _ & Hb). cbn [mbind option_bind].
  destruct (ps_cases e Hok), (Z.ltb_spec b ZIP_BIGLEN); f_equal; lia.
Qed.

Lemma prevlen_at : ZIP_DECODE_PREVLEN m (zlen P) = Some (ps e, pv e).
Proof using Hok.
  unfold ZIP_DECODE_PREVLEN. rewrite prevlensize_at. cbn [mbind option_bind]. unfold raw, prev_bytes.
  destruct Hok as [[[Hs Hp]|[Hs Hp]] _]; rewrite Hs; cbn [Z.eqb Pos.eqb].
  - cbn [app]. by rewrite rd_at.
  - cbn [app]. rewrite (rd_block_mid (P ++ [ZIP_BIGLEN]) (le_bytes 4 (pv e)) (body (text e) ++ T)).
    + cbn [mbind option_bind]. rewrite le_val_uwrap, uwrap_small by done. done.
    + by rewrite <- !app_assoc.
    + rewrite zlen_app. done.
    + by rewrite zlen_le_bytes.
Qed.

Lemma length_at : ZIP_DECODE_LENGTH m (zlen P + ps e) = Some (enc_of (text e), lsz (text e), zlen (payload (text e))).
Proof using Hok.
  unfold raw. rewrite <- app_assoc. rewrite <- (zlen_prev_bytes e Hok), <- zlen_app, app_assoc.
  apply decode_length, Hok.
Qed.

Lemma zipEntry_at :
  zipEntry m (zlen P) = Some (mkZlentry (ps e) (pv e) (lsz (text e)) (zlen (payload (text e)))
    (ps e + lsz (text e)) (enc_of (text e)) (zlen P)).
Proof using Hok. unfold zipEntry. rewrite prevlen_at. cbn [mbind option_bind]. by rewrite length_at. Qed.

Lemma zipRawEntryLength_at : size e < 2 ^ 32 -> zipRawEntryLength m (zlen P) = Some (size e).
Proof using Hok.
  intros Hs. unfold zipRawEntryLength. rewrite prevlensize_at. cbn [mbind option_bind]. rewrite length_at.
  cbn [mbind option_bind]. rewrite <- size_eq by done. rewrite uwrap_small; [done|]. pose proof (size_pos e Hok). lia.
Qed.
End entry_at.

(** ** The header *)

Definition hdr (total tail n : Z) : list Z := le_bytes 4 total ++ le_bytes 4 tail ++ le_bytes 2 n.

Lemma zlen_hdr total tail n : zlen (hdr total tail n) = 10.
Proof. reflexivity. Qed.

Section header.
Context (total tail n : Z) (R : list Z).

Lemma bytes_hdr : 0 <= total < 2 ^ 32 -> ZIPLIST_BYTES (hdr total tail n ++ R) = Some total.
Proof.
  intros Ht. unfold ZIPLIST_BYTES. rewrite (rd_block_mid [] (le_bytes 4 total) (le_bytes 4 tail ++ le_bytes 2 n ++ R)) by done.
  cbn [fmap option_fmap option_map]. by rewrite le_val_uwrap, uwrap_small.
Qed.

Lemma tail_hdr : 0 <= tail < 2 ^ 32 -> ZIPLIST_TAIL_OFFSET (hdr total tail n ++ R) = Some tail.
Proof.
  intros Ht. unfold ZIPLIST_TAIL_OFFSET.
  rewrite (rd_block_mid (le_bytes 4 total) (le_bytes 4 tail) (le_bytes 2 n ++ R)) by done.
  cbn [fmap option_fmap option_map]. by rewrite le_val_uwrap, uwrap_small.
Qed.

Lemma length_hdr : 0 <= n < 2 ^ 16 -> ZIPLIST_LENGTH (hdr total tail n ++ R) = Some n.
Proof.
  intros Ht. unfold ZIPLIST_LENGTH.
  rewrite (rd_block_mid (le_bytes 4 total ++ le_bytes 4 tail) (le_bytes 2 n) R) by done.
  cbn [fmap option_fmap option_map]. by rewrite le_val_uwrap, uwrap_small.
Qed.

Lemma set_bytes_hdr v : set_BYTES (hdr total tail n ++ R) v = Some (hdr v tail n ++ R).
Proof. unfold set_BYTES. by apply (wr_block_mid [] (le_bytes 4 total) (le_bytes 4 tail ++ le_bytes 2 n ++ R)). Qed.

Lemma set_tail_hdr v : set_TAIL_OFFSET (hdr total tail n ++ R) v = Some (hdr total v n ++ R).
Proof.
  unfold set_TAIL_OFFSET. rewrite (wr_block_mid (le_bytes 4 total) (le_bytes 4 tail) (le_bytes 2 n ++ R)) by done. done.
Qed.

Lemma set_length_hdr v : set_LENGTH (hdr total tail n ++ R) v = Some (hdr total tail v ++ R).
Proof.
  unfold set_LENGTH. rewrite (wr_block_mid (le_bytes 4 total ++ le_bytes 4 tail) (le_bytes 2 n) R) by done. done.
Qed.
End header.

(** [n] after [incr] more entries. *)
Definition incr_length (n incr : Z) : Z := if n <? UINT16_MAX then n + incr else n.

Lemma incr_hdr total tail n R incr :
  0 <= n < 2 ^ 16 -> ZIPLIST_INCR_LENGTH (hdr total tail n ++ R) incr = Some (hdr total tail (incr_length n incr) ++ R).
Proof.
  intros Hn. unfold ZIPLIST_INCR_LENGTH, incr_length. rewrite length_hdr by done. cbn [mbind option_bind].
  destruct (_ <? _); [apply set_length_hdr|done].
Qed.

(** Growing keeps the contents; the old end mark stays where it was. *)
Lemma zl_resize_grow uninit total tail n R d :
  total = 11 + zlen R -> 0 <= d -> total + d < 2 ^ 32 ->
  exists G, zlen G = d /\ head (G ++ [ZIP_END]) = Some ZIP_END /\
    ziplistResize uninit (hdr total tail n ++ R ++ [ZIP_END]) (total + d) =
      Some (hdr (total + d) tail n ++ R ++ G ++ [ZIP_END]).
Proof.
  intros Ht Hd Hmax. pose proof (zlen_nonneg R). unfold ziplistResize. rewrite uwrap_small by lia.
  assert (zlen (hdr total tail n ++ R ++ [ZIP_END]) = total) as Hz
    by (rewrite !zlen_app, zlen_hdr; change (zlen [ZIP_END]) with 1; lia).
  destruct (realloc_grow uninit (hdr total tail n ++ R ++ [ZIP_END]) (total + d)) as (F & -> & HF & _); [lia|].
  rewrite Hz in HF. rewrite <- app_assoc, set_bytes_hdr. cbn [mbind option_bind].
  destruct (Z.eqb_spec d 0) as [->|Hnz].
  - assert (F = []) as -> by (apply zlen_zero; lia). exists []. split_and!; [done|done|]. rewrite !app_nil_r. cbn [app].
    rewrite app_assoc. apply wr_here. rewrite zlen_app, zlen_hdr. lia.
  - destruct F as [|x F] using rev_ind; [change (zlen []) with 0 in HF; lia|]. clear IHF.
    rewrite zlen_app in HF. change (zlen [x]) with 1 in HF.
    exists (ZIP_END :: F). split_and!; [rewrite zlen_cons; lia|done|].
    replace (hdr (total + d) tail n ++ (R ++ [ZIP_END]) ++ F ++ [x])
      with ((hdr (total + d) tail n ++ R ++ [ZIP_END] ++ F) ++ [x]) by (by rewrite <- !app_assoc).
    rewrite wr_here; [by rewrite <- !app_assoc|]. rewrite !zlen_app, zlen_hdr. change (zlen [ZIP_END]) with 1. lia.
Qed.

Lemma resize_shrink uninit total tail n R D total' :
  total' = 11 + zlen R -> total' < 2 ^ 32 -> D <> [] ->
  ziplistResize uninit (hdr total tail n ++ R ++ D) total' = Some (hdr total' tail n ++ R ++ [ZIP_END]).
Proof.
  intros Ht Hmax HD. pose proof (zlen_nonneg R). unfold ziplistResize. rewrite uwrap_small by lia.
  destruct D as [|x D]; [done|].
  replace (hdr total tail n ++ R ++ x :: D) with ((hdr total tail n ++ R ++ [x]) ++ D) by (by rewrite <- !app_assoc).
  rewrite realloc_shrink by (rewrite !zlen_app, zlen_hdr; change (zlen [x]) with 1; lia).
  rewrite set_bytes_hdr. cbn [mbind option_bind]. rewrite app_assoc.
  rewrite wr_here; [by rewrite <- app_assoc|]. rewrite zlen_app, zlen_hdr. lia.
Qed.

(** ** Whole lists *)

Definition layout (es : list entry) : list Z := concat (map raw es).

(** The block that holds the bytes [P] and then the entries [es]. *)
Definition total_of (P : list Z) (es : list entry) : Z := 11 + zlen P + zlen (layout es).
Definition tail_of (P : list Z) (es : list entry) : Z := 10 + zlen P + zlen (layout (removelast es)).
Definition blk (n : Z) (P : list Z) (es : list entry) : list Z :=
  hdr (total_of P es) (tail_of P es) n ++ P ++ layout es ++ [ZIP_END].

Lemma layout_cons e es : layout (e :: es) = raw e ++ layout es.
Proof. done. Qed.

Lemma layout_app a b : layout (a ++ b) = layout a ++ layout b.
Proof. unfold layout. by rewrite map_app, concat_app. Qed.

Ltac app_eq := repeat rewrite <- app_assoc; cbn [app]; repeat rewrite <- app_assoc; reflexivity.

Lemma zlen_layout_cons e es : zlen (layout (e :: es)) = size e + zlen (layout es).
Proof. rewrite layout_cons. apply zlen_app. Qed.

Lemma blk_skip n P e es : es <> [] -> blk n P (e :: es) = blk n (P ++ raw e) es.
Proof.
  intros Hes. unfold blk, total_of, tail_of. rewrite zlen_layout_cons, zlen_app. fold (size e).
  destruct es as [|x es]; [done|]. change (removelast (e :: x :: es)) with (e :: removelast (x :: es)).
  rewrite (zlen_layout_cons e (removelast _)), (layout_cons e). f_equal; [f_equal; lia|app_eq].
Qed.

Lemma zlen_blk n P es : zlen (blk n P es) = total_of P es.
Proof. unfold blk, total_of. rewrite !zlen_app, zlen_hdr. change (zlen [ZIP_END]) with 1. lia. Qed.

Lemma memmove_split (m P Q E T : list Z) dst src n k :
  m = P ++ Q ++ E -> zlen Q = k + zlen T -> 0 <= k -> rd_block m src n = Some T -> dst = zlen P + k ->
  exists X, zlen X = k /\ memmove m dst src n = Some (P ++ X ++ T ++ E).
Proof.
  intros Hm HQ Hk HT ->. exists (take (Z.to_nat k) Q). pose proof (zlen_nonneg T).
  assert (zlen (take (Z.to_nat k) Q) = k) as HX by (rewrite zlen_take; lia). split; [done|].
  unfold memmove. rewrite HT. cbn [mbind option_bind].
  rewrite (wr_block_mid (P ++ take (Z.to_nat k) Q) (drop (Z.to_nat k) Q) E).
  - f_equal. app_eq.
  - rewrite Hm. rewrite <- (take_drop (Z.to_nat k) Q) at 1. app_eq.
  - rewrite zlen_app. lia.
  - rewrite zlen_drop; lia.
Qed.

(** Setting the lengths right from an entry on, whose predecessor takes [prev]
    bytes. *)
Fixpoint relink (prev : Z) (es : list entry) : list entry :=
  match es with
  | [] => []
  | e :: l =>
      if pv e =? prev then e :: l
      else if ps e <? enc_size prev then
        let e' := mkEntry prev 5 (text e) in e' :: relink (size e') l
      else mkEntry prev (ps e) (text e) :: l
  end.

Section cascade.
Context (uninit : nat -> Z) (n : Z).

Lemma first_at P e es : entry_ok e ->
  exists b, rd (blk n P (e :: es)) (10 + zlen P) = Some b /\ b <> ZIP_END /\ (b < ZIP_BIGLEN <-> ps e = 1).
Proof.
  intros He. unfold blk. rewrite layout_cons.
  destruct (first_byte (hdr (total_of P (e :: es)) (tail_of P (e :: es)) n ++ P) (layout es ++ [ZIP_END]) e He) as (b & Hb & ?).
  exists b. split; [|done]. rewrite zlen_app, zlen_hdr in Hb. rewrite <- Hb. f_equal. app_eq.
Qed.

Lemma end_at P : rd (blk n P []) (10 + zlen P) = Some ZIP_END.
Proof.
  unfold blk. cbn [layout map concat app]. rewrite app_assoc.
  apply rd_here. rewrite zlen_app, zlen_hdr. done.
Qed.

Lemma entry_at P e es : entry_ok e ->
  zipEntry (blk n P (e :: es)) (10 + zlen P) =
    Some (mkZlentry (ps e) (pv e) (lsz (text e)) (zlen (payload (text e))) (ps e + lsz (text e)) (enc_of (text e)) (10 + zlen P)).
Proof.
  intros He. unfold blk. rewrite layout_cons.
  pose proof (zipEntry_at (hdr (total_of P (e :: es)) (tail_of P (e :: es)) n ++ P) (layout es ++ [ZIP_END]) e He) as Hb.
  rewrite zlen_app, zlen_hdr in Hb. rewrite <- Hb. f_equal. app_eq.
Qed.

Lemma grow_next P cur nxt rest :
  entry_ok cur -> entry_ok nxt -> ps nxt = 1 -> ZIP_BIGLEN <= size cur < 2 ^ 32 ->
  total_of P (cur :: nxt :: rest) + 4 < 2 ^ 32 ->
  (let np := 10 + zlen P + size cur in
   zl ← ziplistResize uninit (blk n P (cur :: nxt :: rest)) (total_of P (cur :: nxt :: rest) + 4);
   tail ← ZIPLIST_TAIL_OFFSET zl;
   zl ← (if negb (tail =? np) then set_TAIL_OFFSET zl (tail + 4) else Some zl);
   zl ← memmove zl (np + 5) (np + 1) (total_of P (cur :: nxt :: rest) - np - 1 - 1);
   wr_block zl np (zipPrevEncodeLength (size cur))) =
  Some (blk n P (cur :: mkEntry (size cur) 5 (text nxt) :: rest)).
Proof.
  intros Hc Hn Hps Hsz Hmax. cbv zeta. set (T := body (text nxt) ++ layout rest).
  pose proof (size_pos cur Hc). pose proof (size_pos nxt Hn). pose proof (zlen_nonneg P).
  pose proof (zlen_nonneg (layout rest)). pose proof (zlen_nonneg (layout (removelast (nxt :: rest)))).
  assert (zlen (layout (cur :: nxt :: rest)) = size cur + (1 + zlen T)) as HL.
  { rewrite !zlen_layout_cons, (size_body nxt), Hps by done. unfold T. rewrite zlen_app. lia. }
  assert (entry_ok (mkEntry (size cur) 5 (text nxt))) as Hn' by (split; [right; cbn [ps pv]; split; [done|lia]|apply Hn]).
  assert (size (mkEntry (size cur) 5 (text nxt)) = size nxt + 4) as Hsn
    by (rewrite (size_body _ Hn'), (size_body nxt Hn), Hps; cbn [ps text]; lia).
  set (t0 := tail_of P (cur :: nxt :: rest)).
  assert (t0 = 10 + zlen P + size cur + zlen (layout (removelast (nxt :: rest)))) as Ht0
    by (unfold t0, tail_of; change (removelast (cur :: nxt :: rest)) with (cur :: removelast (nxt :: rest));
        rewrite zlen_layout_cons; lia).
  assert (zlen (layout (removelast (nxt :: rest))) <= 1 + zlen T) as Hrem.
  { assert (1 + zlen T = zlen (layout (nxt :: rest))) as -> by (rewrite zlen_layout_cons in HL; lia).
    rewrite (app_removelast_last nxt (l := nxt :: rest)) at 2 by done. rewrite layout_app, zlen_app.
    pose proof (zlen_nonneg (layout [List.last (nxt :: rest) nxt])). lia. }
  unfold total_of in Hmax. rewrite HL in Hmax.
  unfold blk at 1. fold t0.
  replace (P ++ layout (cur :: nxt :: rest) ++ [ZIP_END]) with ((P ++ layout (cur :: nxt :: rest)) ++ [ZIP_END]) by app_eq.
  destruct (zl_resize_grow uninit (total_of P (cur :: nxt :: rest)) t0 n (P ++ layout (cur :: nxt :: rest)) 4)
    as (G & HG & _ & ->); [unfold total_of; rewrite zlen_app; lia|lia|unfold total_of; lia|].
  cbn [mbind option_bind]. rewrite tail_hdr by lia. cbn [mbind option_bind].
  set (t1 := tail_of P (cur :: mkEntry (size cur) 5 (text nxt) :: rest)).
  set (total' := total_of P (cur :: nxt :: rest) + 4).
  assert ((if negb (t0 =? 10 + zlen P + size cur)
           then set_TAIL_OFFSET (hdr total' t0 n ++ (P ++ layout (cur :: nxt :: rest)) ++ G ++ [ZIP_END]) (t0 + 4)
           else Some (hdr total' t0 n ++ (P ++ layout (cur :: nxt :: rest)) ++ G ++ [ZIP_END])) =
          Some (hdr total' t1 n ++ (P ++ layout (cur :: nxt :: rest)) ++ G ++ [ZIP_END])) as ->.
  { unfold t1, tail_of. change (removelast (cur :: ?a :: rest)) with (cur :: removelast (a :: rest)).
    rewrite zlen_layout_cons. destruct rest as [|x rest].
    - cbn [removelast layout map concat] in *. change (zlen (@nil Z)) with 0 in *.
      destruct (Z.eqb_spec t0 (10 + zlen P + size cur)); [|lia]. cbn [negb]. do 3 f_equal. lia.
    - change (removelast (?a :: x :: rest)) with (a :: removelast (x :: rest)) in *. rewrite zlen_layout_cons in *.
      pose proof (zlen_nonneg (layout (removelast (x :: rest)))).
      destruct (Z.eqb_spec t0 (10 + zlen P + size cur)); [lia|]. cbn [negb]. rewrite set_tail_hdr. do 3 f_equal. lia. }
  cbn [mbind option_bind].
  destruct (memmove_split (hdr total' t1 n ++ (P ++ layout (cur :: nxt :: rest)) ++ G ++ [ZIP_END])
    (hdr total' t1 n ++ P ++ raw cur) (raw nxt ++ layout rest ++ G) [ZIP_END] T
    (10 + zlen P + size cur + 5) (10 + zlen P + size cur + 1) (total_of P (cur :: nxt :: rest) - (10 + zlen P + size cur) - 1 - 1) 5)
    as (X & HX & ->).
  - rewrite !layout_cons. app_eq.
  - rewrite !zlen_app. fold (size nxt). rewrite zlen_layout_cons in HL. rewrite zlen_layout_cons in HL. lia.
  - lia.
  - apply (rd_block_mid (hdr total' t1 n ++ P ++ raw cur ++ prev_bytes nxt) T (G ++ [ZIP_END])).
    + unfold T. rewrite !layout_cons. unfold raw at 2. app_eq.
    + rewrite !zlen_app, zlen_hdr, zlen_prev_bytes, Hps by done. unfold size. lia.
    + unfold total_of. lia.
  - rewrite !zlen_app, zlen_hdr. unfold size. lia.
  - cbn [mbind option_bind].
    assert (zipPrevEncodeLength (size cur) = prev_bytes (mkEntry (size cur) 5 (text nxt))) as ->.
    { unfold zipPrevEncodeLength. destruct (Z.ltb_spec (size cur) ZIP_BIGLEN); [lia|done]. }
    rewrite (wr_block_mid (hdr total' t1 n ++ P ++ raw cur) X (T ++ [ZIP_END])).
    + f_equal. unfold blk. fold t1. rewrite !layout_cons. unfold raw at 3. cbn [text]. unfold T.
      assert (total' = total_of P (cur :: mkEntry (size cur) 5 (text nxt) :: rest)) as ->; [|app_eq].
      unfold total', total_of. rewrite !zlen_layout_cons. lia.
    + app_eq.
    + rewrite !zlen_app, zlen_hdr. unfold size. lia.
    + by rewrite HX.
Qed.

Lemma next_first P cur nxt rest : entry_ok nxt ->
  exists b, rd (blk n P (cur :: nxt :: rest)) (10 + zlen P + size cur) = Some b /\ b <> ZIP_END.
Proof.
  intros Hn. rewrite blk_skip by done. destruct (first_at (P ++ raw cur) nxt rest Hn) as (b & Hb & ? & _). exists b.
  split; [|done]. rewrite <- Hb. f_equal. rewrite zlen_app. unfold size. lia.
Qed.

Lemma last_next P cur : rd (blk n P [cur]) (10 + zlen P + size cur) = Some ZIP_END.
Proof.
  unfold blk. cbn [layout map concat]. rewrite app_nil_r.
  replace (hdr (total_of P [cur]) (tail_of P [cur]) n ++ P ++ raw cur ++ [ZIP_END])
    with ((hdr (total_of P [cur]) (tail_of P [cur]) n ++ P ++ raw cur) ++ [ZIP_END]) by app_eq.
  apply rd_here. rewrite !zlen_app, zlen_hdr. unfold size. lia.
Qed.

Lemma next_entry P cur nxt rest : entry_ok nxt ->
  zipEntry (blk n P (cur :: nxt :: rest)) (10 + zlen P + size cur) =
    Some (mkZlentry (ps nxt) (pv nxt) (lsz (text nxt)) (zlen (payload (text nxt))) (ps nxt + lsz (text nxt))
            (enc_of (text nxt)) (10 + zlen P + size cur)).
Proof.
  intros Hn. rewrite blk_skip by done. pose proof (entry_at (P ++ raw cur) nxt rest Hn) as H.
  rewrite zlen_app in H. unfold size. by rewrite Z.add_assoc in H.
Qed.

(** Storing the length in the bytes that are there. *)
Lemma set_prev P e es x W :
  entry_ok e -> W = prev_bytes (mkEntry x (ps e) (text e)) -> entry_ok (mkEntry x (ps e) (text e)) ->
  wr_block (blk n P (e :: es)) (10 + zlen P) W = Some (blk n P (mkEntry x (ps e) (text e) :: es)).
Proof.
  intros He -> He'. set (e' := mkEntry x (ps e) (text e)) in *.
  assert (size e' = size e) as Hsz by (by rewrite !size_body).
  assert (total_of P (e' :: es) = total_of P (e :: es)) as Ht by (unfold total_of; rewrite !zlen_layout_cons; lia).
  assert (tail_of P (e' :: es) = tail_of P (e :: es)) as Ht'.
  { unfold tail_of. destruct es; [done|]. change (removelast (?a :: e0 :: es)) with (a :: removelast (e0 :: es)).
    rewrite !zlen_layout_cons. lia. }
  unfold blk at 1. rewrite layout_cons. unfold raw.
  rewrite (wr_block_mid (hdr (total_of P (e :: es)) (tail_of P (e :: es)) n ++ P) (prev_bytes e)
    (body (text e) ++ layout es ++ [ZIP_END])).
  - unfold blk. rewrite Ht, Ht', layout_cons. unfold raw. cbn [text e']. f_equal. app_eq.
  - app_eq.
  - by rewrite zlen_app, zlen_hdr.
  - by rewrite !zlen_prev_bytes.
Qed.

Lemma cascade_ok rest : forall cur P fuel,
  Forall entry_ok (cur :: rest) -> total_of P (cur :: rest) + 4 * zlen rest < 2 ^ 32 -> (length rest < fuel)%nat ->
  cascade_loop uninit fuel (blk n P (cur :: rest)) (10 + zlen P) (total_of P (cur :: rest)) =
    Some (blk n P (cur :: relink (size cur) rest)).
Proof.
  induction rest as [|nxt rest IH]; intros cur P fuel Hok Hmax Hfuel; (destruct fuel as [|fuel]; [simpl in Hfuel; lia|]);
    apply Forall_cons in Hok as [Hc Hok]; cbn [cascade_loop]; pose proof (zlen_nonneg P).
  - destruct (first_at P cur [] Hc) as (b & -> & Hb & _). cbn [mbind option_bind].
    destruct (Z.eqb_spec b ZIP_END); [done|]. rewrite entry_at by done. cbn [mbind option_bind headersize len].
    rewrite <- size_eq by done. pose proof (size_pos cur Hc).
    unfold total_of in Hmax. rewrite zlen_layout_cons in Hmax. change (zlen (@nil entry)) with 0 in Hmax.
    change (zlen (layout [])) with 0 in Hmax. rewrite uwrap_small by lia. by rewrite last_next.
  - apply Forall_cons in Hok as [Hn Hok]. pose proof (zlen_nonneg rest). pose proof (zlen_nonneg (layout rest)).
    pose proof (size_pos cur Hc). pose proof (size_pos nxt Hn). rewrite zlen_cons in Hmax.
    assert (total_of P (cur :: nxt :: rest) = 11 + zlen P + size cur + size nxt + zlen (layout rest)) as Htot
      by (unfold total_of; rewrite !zlen_layout_cons; lia).
    destruct (first_at P cur (nxt :: rest) Hc) as (b & -> & Hb & _). cbn [mbind option_bind].
    destruct (Z.eqb_spec b ZIP_END); [done|]. rewrite entry_at by done. cbn [mbind option_bind headersize len].
    rewrite <- size_eq, uwrap_small by (done || lia).
    destruct (next_first P cur nxt rest Hn) as (b' & -> & Hb'). cbn [mbind option_bind].
    destruct (Z.eqb_spec b' ZIP_END); [done|]. rewrite next_entry by done. cbn [mbind option_bind prevrawlen prevrawlensize relink].
    fold (enc_size (size cur)). destruct (Z.eqb_spec (pv nxt) (size cur)); [done|].
    destruct (Z.ltb_spec (ps nxt) (enc_size (size cur))) as [Hlt|Hge].
    + destruct (enc_size_cases (size cur)) as [[? Hes]|[Hbig Hes]], (ps_cases nxt Hn) as [Hps|Hps]; try lia.
      rewrite Hes, Hps. cbn [Z.sub Z.opp Z.add Z.pos_sub]. change (5 - 1) with 4.
      pose proof (grow_next P cur nxt rest Hc Hn Hps ltac:(lia) ltac:(lia)) as Hgrow. cbv zeta in Hgrow.
      set (nxt' := mkEntry (size cur) 5 (text nxt)) in *.
      assert (entry_ok nxt') as Hn' by (split; [right; cbn [ps pv nxt']; split; [done|lia]|apply Hn]).
      assert (size nxt' = size nxt + 4) as Hsn by (rewrite (size_body _ Hn'), (size_body nxt Hn), Hps; cbn [ps text nxt']; lia).
      destruct (ziplistResize _ _ _) as [zl1|]; [|done]. cbn [mbind option_bind] in *.
      destruct (ZIPLIST_TAIL_OFFSET zl1) as [tl|]; [|done]. cbn [mbind option_bind] in *.
      destruct (if negb _ then _ else _) as [zl2|]; [|done]. cbn [mbind option_bind] in *.
      destruct (memmove _ _ _ _) as [zl3|]; [|done]. cbn [mbind option_bind] in *. rewrite Hgrow. cbn [mbind option_bind].
      specialize (IH nxt' (P ++ raw cur) fuel). rewrite <- (blk_skip n P cur (nxt' :: rest)) in IH by done.
      assert (total_of (P ++ raw cur) (nxt' :: rest) = total_of P (cur :: nxt :: rest) + 4) as Htot'
        by (rewrite Htot; unfold total_of; rewrite zlen_layout_cons, zlen_app; unfold size in *; lia).
      rewrite Htot', zlen_app in IH. fold (size cur) in IH. rewrite Z.add_assoc in IH.
      rewrite IH; [|by constructor|lia|simpl in Hfuel; lia]. by rewrite (blk_skip n P cur (_ :: _)).
    + rewrite (blk_skip n P cur (nxt :: rest)), (blk_skip n P cur (_ :: rest)) by done.
      replace (10 + zlen P + size cur) with (10 + zlen (P ++ raw cur)) by (rewrite zlen_app; unfold size; lia).
      assert (entry_ok (mkEntry (size cur) (ps nxt) (text nxt))) as Hn'.
      { split; [|apply Hn]. cbn [ps pv].
        destruct (enc_size_cases (size cur)) as [[? ?]|[? ?]], (ps_cases nxt Hn) as [?|?]; lia. }
      destruct (Z.gtb_spec (ps nxt) (enc_size (size cur))) as [Hgt|Hle]; (apply set_prev; [done| |done]).
      * destruct (enc_size_cases (size cur)) as [[? Hes]|[? Hes]], (ps_cases nxt Hn) as [Hps|Hps]; try lia.
        unfold prev_bytes. cbn [ps pv]. by rewrite Hps.
      * destruct (enc_size_cases (size cur)) as [[? Hes]|[? Hes]], (ps_cases nxt Hn) as [Hps|Hps]; try lia;
          unfold prev_bytes, zipPrevEncodeLength; cbn [ps pv]; rewrite Hps;
          destruct (Z.ltb_spec (size cur) ZIP_BIGLEN); done || lia.
Qed.
End cascade.

(** ** Links *)

(** Each entry says how long the one before it is; [prev] for the first. *)
Fixpoint linked (prev : Z) (es : list entry) : Prop :=
  match es with [] => True | e :: l => pv e = prev /\ linked (size e) l end.

(** The length of the last entry. *)
Definition end_size (prev : Z) (es : list entry) : Z := match last es with Some e => size e | None => prev end.

Lemma end_size_cons prev e es : end_size prev (e :: es) = end_size (size e) es.
Proof. unfold end_size. rewrite last_cons. by destruct (last es). Qed.

Lemma linked_app a : forall prev b, linked prev (a ++ b) <-> linked prev a /\ linked (end_size prev a) b.
Proof.
  induction a as [|e a IH]; intros prev b; [cbn; tauto|]. cbn [linked app]. rewrite IH, end_size_cons. tauto.
Qed.

Lemma relink_linked prev es : linked prev es -> relink prev es = es.
Proof. destruct es as [|e l]; [done|]. intros [Hp _]. cbn [relink]. by rewrite Hp, Z.eqb_refl. Qed.

Lemma relink_texts es : forall prev, map text (relink prev es) = map text es.
Proof.
  induction es as [|e l IH]; intros prev; [done|]. cbn [relink]. destruct (_ =? _); [done|]. destruct (_ <? _); [|done].
  cbn [map text]. by rewrite IH.
Qed.

Lemma size_set e x k : entry_ok e -> entry_ok (mkEntry x k (text e)) -> size (mkEntry x k (text e)) = size e - ps e + k.
Proof. intros He He'. rewrite (size_body _ He'), (size_body e He). cbn [ps text]. lia. Qed.

Lemma set_prev_ok e x k : entry_ok e -> 0 <= x < 2 ^ 32 -> k = enc_size x \/ k = 5 -> entry_ok (mkEntry x k (text e)).
Proof.
  intros [_ Ht] Hx Hk. split; [|done]. cbn [ps pv]. destruct (enc_size_cases x) as [[? He]|[? He]]; lia.
Qed.

Lemma relink_spec es : forall prev,
  0 <= prev < 2 ^ 32 -> Forall entry_ok es -> (match es with [] => True | e :: l => linked (size e) l end) ->
  zlen (layout es) + 4 * zlen es < 2 ^ 32 ->
  Forall entry_ok (relink prev es) /\ linked prev (relink prev es) /\ length (relink prev es) = length es /\
  zlen (layout (relink prev es)) <= zlen (layout es) + 4 * zlen es.
Proof.
  induction es as [|e l IH]; intros prev Hp Hok Hl Hmax; [done|]. apply Forall_cons in Hok as [He Hok]. cbn [relink].
  pose proof (size_pos e He). pose proof (zlen_nonneg l). pose proof (zlen_nonneg (layout l)).
  rewrite zlen_layout_cons, zlen_cons in *.
  destruct (Z.eqb_spec (pv e) prev) as [Hpe|Hpe].
  { split_and!; [by constructor|by split|done|rewrite zlen_layout_cons; lia]. }
  destruct (Z.ltb_spec (ps e) (enc_size prev)) as [Hlt|Hge].
  - assert (entry_ok (mkEntry prev 5 (text e))) as He' by (by apply set_prev_ok; auto).
    pose proof (size_set e prev 5 He He') as Hsz. set (e' := mkEntry prev 5 (text e)) in *.
    assert (size e' <= size e + 4) by (destruct (ps_cases e He); lia).
    destruct (IH (size e')) as (HA & HB & HC & HD).
    + pose proof (size_pos e' He'). lia.
    + done.
    + destruct l as [|x l]; [done|]. apply Hl.
    + lia.
    + split_and!; [by constructor|by split|simpl; by rewrite HC|rewrite zlen_layout_cons; lia].
  - assert (entry_ok (mkEntry prev (ps e) (text e))) as He'.
    { destruct (ps_cases e He) as [Hps|Hps]; [|by apply set_prev_ok; auto].
      apply set_prev_ok; [done|done|left]. destruct (enc_size_cases prev); lia. }
    pose proof (size_set e prev (ps e) He He') as Hsz.
    assert (size (mkEntry prev (ps e) (text e)) = size e) as Hse by lia.
    split_and!; [by constructor|split; [done|by rewrite Hse]|done|rewrite zlen_layout_cons, Hse; lia].
Qed.

(** What comes after a place where the length of the predecessor has changed. *)
Definition settle (prev : Z) (es : list entry) : list entry :=
  match es with
  | [] => []
  | e :: l => let e' := mkEntry prev (enc_size prev) (text e) in e' :: relink (size e') l
  end.

Lemma settle_texts prev es : map text (settle prev es) = map text es.
Proof. destruct es as [|e l]; [done|]. cbn [settle map text]. by rewrite relink_texts. Qed.

Lemma settle_spec prev prev0 es :
  0 <= prev < 2 ^ 32 -> Forall entry_ok es -> linked prev0 es -> zlen (layout es) + 4 * zlen es < 2 ^ 32 ->
  Forall entry_ok (settle prev es) /\ linked prev (settle prev es) /\ length (settle prev es) = length es /\
  zlen (layout (settle prev es)) <= zlen (layout es) + 4 * zlen es.
Proof.
  intros Hp Hok Hl Hmax. destruct es as [|e l]; [done|]. apply Forall_cons in Hok as [He Hok]. destruct Hl as [_ Hl].
  pose proof (size_pos e He). pose proof (zlen_nonneg l). pose proof (zlen_nonneg (layout l)).
  rewrite zlen_layout_cons, zlen_cons in *. cbn [settle].
  assert (entry_ok (mkEntry prev (enc_size prev) (text e))) as He' by (by apply set_prev_ok; auto).
  pose proof (size_set e prev (enc_size prev) He He') as Hsz. set (e' := mkEntry prev (enc_size prev) (text e)) in *.
  pose proof (size_pos e' He').
  assert (size e' <= size e + 4) by (destruct (ps_cases e He), (enc_size_cases prev); lia).
  destruct (relink_spec l (size e')) as (HA & HB & HC & HD).
  - lia.
  - done.
  - destruct l as [|x l]; [done|]. apply Hl.
  - lia.
  - split_and!; [by constructor|by split|simpl; by rewrite HC|rewrite zlen_layout_cons; lia].
Qed.

(** ** Insertion *)

Lemma zipTry_code s : zipTryEncoding s (zlen s) = Some (code s).
Proof. destruct (zipTryEncoding_cases s) as [[-> ->]|(v & _ & _ & -> & ->)]; done. Qed.

Lemma split_len {A} (X : list A) a b :
  zlen X = a + b -> 0 <= a -> 0 <= b -> exists X1 X2, X = X1 ++ X2 /\ zlen X1 = a /\ zlen X2 = b.
Proof.
  intros HX Ha Hb. exists (take (Z.to_nat a) X), (drop (Z.to_nat a) X). rewrite take_drop.
  split_and!; [done|rewrite zlen_take; lia|rewrite zlen_drop; lia].
Qed.

Lemma blk_skip_all a : forall n P b, b <> [] -> blk n P (a ++ b) = blk n (P ++ layout a) b.
Proof.
  induction a as [|e a IH]; intros n P b Hb; [cbn [layout map concat app]; by rewrite app_nil_r|].
  cbn [app]. rewrite blk_skip by (by destruct a). rewrite IH by done. f_equal. rewrite layout_cons. app_eq.
Qed.

(** The entry that is inserted. *)
Definition new_entry (prev : Z) (s : list Z) : entry := mkEntry prev (enc_size prev) s.

Lemma new_entry_ok prev s : 0 <= prev < 2 ^ 32 -> zlen s < 2 ^ 32 -> entry_ok (new_entry prev s).
Proof. intros Hp Hs. split; [|done]. cbn [ps pv new_entry]. destruct (enc_size_cases prev); lia. Qed.

Lemma new_prev_bytes prev s : prev_bytes (new_entry prev s) = zipPrevEncodeLength prev.
Proof.
  unfold prev_bytes, new_entry. cbn [ps pv].
  destruct (enc_size_cases prev) as [[? ->]|[? ->]]; unfold zipPrevEncodeLength; cbn [Z.eqb Pos.eqb];
    by destruct (Z.ltb_spec prev ZIP_BIGLEN); try lia.
Qed.

Definition encoding_of (s : list Z) : Z := match code s with Some (_, encoding) => encoding | None => 0 end.

Lemma insert_write_ok h P X S prev s :
  zlen h = 10 -> 0 <= prev < 2 ^ 32 -> zlen s < 2 ^ 32 -> zlen X = size (new_entry prev s) ->
  insert_write (h ++ P ++ X ++ S) (10 + zlen P) prev (encoding_of s)
    (match code s with Some (value, _) => value | None => 123456789 end) s (zlen s) =
  Some (h ++ P ++ raw (new_entry prev s) ++ S).
Proof.
  intros Hh Hp Hs HX. pose proof (new_entry_ok prev s Hp Hs) as Hok. rewrite size_eq in HX by done.
  cbn [ps text new_entry] in HX. pose proof (lsz_bounds s). pose proof (zlen_nonneg (payload s)).
  assert (0 <= enc_size prev) by apply zlen_nonneg.
  destruct (split_len X (enc_size prev) (lsz s + zlen (payload s))) as (X1 & X23 & -> & HX1 & HX23); [lia..|].
  destruct (split_len X23 (lsz s) (zlen (payload s))) as (X2 & X3 & -> & HX2 & HX3); [lia..|].
  unfold insert_write. rewrite (wr_block_mid (h ++ P) X1 ((X2 ++ X3) ++ S)); [|app_eq|rewrite zlen_app; lia|by rewrite HX1].
  cbn [mbind option_bind]. fold (enc_size prev). change (zipEncodeLength (encoding_of s) (zlen s)) with (len_bytes s).
  rewrite (wr_block_mid (h ++ P ++ zipPrevEncodeLength prev) X2 (X3 ++ S));
    [|app_eq|rewrite !zlen_app; fold (enc_size prev); lia|by rewrite HX2].
  cbn [mbind option_bind]. fold (lsz s).
  set (A := h ++ P ++ zipPrevEncodeLength prev ++ len_bytes s).
  replace ((h ++ P ++ zipPrevEncodeLength prev) ++ len_bytes s ++ X3 ++ S) with (A ++ X3 ++ S) by (unfold A; app_eq).
  assert (10 + zlen P + enc_size prev + lsz s = zlen A) as ->
    by (unfold A; rewrite !zlen_app; fold (enc_size prev) (lsz s); lia).
  assert (A ++ payload s ++ S = h ++ P ++ raw (new_entry prev s) ++ S) as <-
    by (unfold A, raw, body; rewrite new_prev_bytes; cbn [text new_entry]; app_eq).
  unfold encoding_of, payload in *. destruct (zipTryEncoding_cases s) as [[_ Hc]|(v & Hv & _ & _ & Hc)]; rewrite Hc in *.
  - change (ZIP_IS_STR 0) with true. cbv iota. rewrite (rd_block_mid [] s []) by (done || by rewrite app_nil_r).
    cbn [mbind option_bind]. by apply (wr_block_mid A X3 S).
  - rewrite int_not_str by apply int_encoding_int. by apply save_payload.
Qed.

Lemma insert_prevlen_ok n a b :
  Forall entry_ok (a ++ b) -> linked 0 (a ++ b) -> total_of [] (a ++ b) < 2 ^ 32 ->
  insert_prevlen (blk n [] (a ++ b)) (10 + zlen (layout a)) = Some (end_size 0 a).
Proof.
  intros Hok Hl Hmax. apply linked_app in Hl as [_ Hl]. unfold insert_prevlen. destruct b as [|nxt b].
  - rewrite app_nil_r in *. assert (rd (blk n [] a) (10 + zlen (layout a)) = Some ZIP_END) as ->.
    { unfold blk. cbn [app]. rewrite app_assoc. apply rd_here. by rewrite zlen_app, zlen_hdr. }
    cbn [mbind option_bind]. rewrite Z.eqb_refl. cbn [negb].
    assert (ZIPLIST_ENTRY_TAIL (blk n [] a) = Some (tail_of [] a)) as ->.
    { apply tail_hdr. unfold tail_of, total_of in *. change (zlen []) with 0 in *.
      pose proof (zlen_nonneg (layout (removelast a))). split; [lia|].
      destruct a as [|x a _] using rev_ind; [done|]. rewrite removelast_last. rewrite layout_app, zlen_app in Hmax.
      pose proof (zlen_nonneg (layout [x])). lia. }
    cbn [mbind option_bind]. destruct a as [|x a _] using rev_ind; [done|].
    apply Forall_app in Hok as [_ Hx]. apply Forall_cons in Hx as [Hx _].
    unfold tail_of, end_size. rewrite removelast_last, last_snoc, blk_skip_all by done.
    destruct (first_at n ([] ++ layout a) x [] Hx) as (b & Hb & Hne & _). change (zlen ([] ++ layout a)) with (zlen (layout a)) in Hb.
    change (10 + zlen [] + zlen (layout a)) with (10 + zlen (layout a)). rewrite Hb.
    cbn [mbind option_bind]. destruct (Z.eqb_spec b ZIP_END); [done|]. cbn [negb].
    unfold blk. rewrite layout_cons.
    pose proof (zipRawEntryLength_at (hdr (total_of ([] ++ layout a) [x]) (tail_of ([] ++ layout a) [x]) n ++ layout a)
      (layout [] ++ [ZIP_END]) x Hx) as H. rewrite zlen_app, zlen_hdr in H.
    replace (hdr (total_of ([] ++ layout a) [x]) (tail_of ([] ++ layout a) [x]) n ++ ([] ++ layout a) ++ (raw x ++ layout []) ++ [ZIP_END])
      with ((hdr (total_of ([] ++ layout a) [x]) (tail_of ([] ++ layout a) [x]) n ++ layout a) ++ raw x ++ layout [] ++ [ZIP_END]) by app_eq.
    apply H. unfold total_of in Hmax. rewrite layout_app, zlen_app, zlen_layout_cons in Hmax.
    pose proof (zlen_nonneg (layout a)). change (zlen []) with 0 in Hmax. change (zlen (layout [])) with 0 in Hmax. lia.
  - apply Forall_app in Hok as [_ Hok]. apply Forall_cons in Hok as [Hn _]. rewrite blk_skip_all by done. destruct Hl as [<- _].
    destruct (first_at n ([] ++ layout a) nxt b Hn) as (c & Hc & Hne & _). change (zlen ([] ++ layout a)) with (zlen (layout a)) in Hc.
    rewrite Hc. cbn [mbind option_bind]. destruct (Z.eqb_spec c ZIP_END); [done|]. cbn [negb].
    unfold blk. rewrite layout_cons.
    set (h := hdr (total_of ([] ++ layout a) (nxt :: b)) (tail_of ([] ++ layout a) (nxt :: b)) n).
    pose proof (prevlen_at (h ++ layout a) (layout b ++ [ZIP_END]) nxt Hn) as H. rewrite zlen_app in H.
    change (zlen h) with 10 in H.
    replace (h ++ ([] ++ layout a) ++ (raw nxt ++ layout b) ++ [ZIP_END])
      with ((h ++ layout a) ++ raw nxt ++ layout b ++ [ZIP_END]) by app_eq. by rewrite H.
Qed.

Lemma zlen_removelast e es : entry_ok e -> zlen (layout (removelast (e :: es))) <= zlen (layout (e :: es)).
Proof.
  intros _. rewrite (app_removelast_last e (l := e :: es)) at 2 by done. rewrite layout_app, zlen_app.
  pose proof (zlen_nonneg (layout [List.last (e :: es) e])). lia.
Qed.

(** The tail offset when the first entry has changed its length by [d]. *)
Lemma tail_set P X e x k es d :
  zlen X = d -> entry_ok e -> entry_ok (mkEntry x k (text e)) ->
  tail_of (P ++ X) (mkEntry x k (text e) :: es) = tail_of P (e :: es) + d + (match es with [] => 0 | _ => k - ps e end).
Proof.
  intros HX He He'. unfold tail_of. rewrite zlen_app. destruct es as [|y es].
  - cbn [removelast layout map concat]. lia.
  - change (removelast (?a :: y :: es)) with (a :: removelast (y :: es)). rewrite !zlen_layout_cons, size_set by done. lia.
Qed.

Section insert_move.
Context (n : Z) (P : list Z) (nxt : entry) (rest : list entry) (r : Z) (G : list Z).
Context (Hn : entry_ok nxt) (Hrest : Forall entry_ok rest) (Hr : 2 <= r).
Local Abbreviation d := (enc_size r - ps nxt).
Context (HG : zlen G = r + d) (Hmax : total_of P (nxt :: rest) + r + 4 < 2 ^ 32).
Local Abbreviation nxt' := (mkEntry r (enc_size r) (text nxt)).
Local Abbreviation total' := (total_of P (nxt :: rest) + r + d).

Lemma insert_next_ok : entry_ok nxt'.
Proof using Hn Hr Hmax HG.
  pose proof (zlen_nonneg P). pose proof (zlen_nonneg (layout rest)). pose proof (size_pos nxt Hn).
  unfold total_of in Hmax. rewrite zlen_layout_cons in Hmax. pose proof (zlen_nonneg G).
  apply set_prev_ok; [done| |by left]. destruct (ps_cases nxt Hn), (enc_size_cases r); lia.
Qed.

(** The bytes before and after: [X] is left for the new entry. *)
Lemma insert_bytes :
  exists X, zlen X = r /\
    (zl ← memmove (hdr total' (tail_of P (nxt :: rest)) n ++ (P ++ layout (nxt :: rest)) ++ G ++ [ZIP_END])
            (10 + zlen P + r) (10 + zlen P - d) (total_of P (nxt :: rest) - (10 + zlen P) - 1 + d);
     wr_block zl (10 + zlen P + r) (zipPrevEncodeLength r)) =
    Some (hdr total' (tail_of P (nxt :: rest)) n ++ (P ++ X) ++ layout (nxt' :: rest) ++ [ZIP_END]).
Proof using Hn Hr Hmax HG.
  set (h := hdr total' (tail_of P (nxt :: rest)) n). set (T := body (text nxt) ++ layout rest).
  pose proof (zlen_nonneg P). pose proof (zlen_nonneg T). pose proof (zlen_nonneg (layout rest)).
  assert (1 <= enc_size r <= 5) as He by (destruct (enc_size_cases r); lia).
  assert (zlen (layout (nxt :: rest)) = ps nxt + zlen T) as HL
    by (rewrite zlen_layout_cons, size_body by done; unfold T; rewrite zlen_app; lia).
  destruct (split_len (h ++ P ++ prev_bytes nxt) (10 + zlen P + ps nxt - enc_size r) (enc_size r)) as (A1 & Y & HY & Hl1 & Hl2).
  { rewrite !zlen_app, zlen_prev_bytes by done. change (zlen h) with 10. lia. }
  { destruct (ps_cases nxt Hn); lia. }
  { lia. }
  destruct (memmove_split (h ++ (P ++ layout (nxt :: rest)) ++ G ++ [ZIP_END]) (h ++ P) (layout (nxt :: rest) ++ G) [ZIP_END]
    (Y ++ T) (10 + zlen P + r) (10 + zlen P - d) (total_of P (nxt :: rest) - (10 + zlen P) - 1 + d) r) as (X & HX & ->).
  - app_eq.
  - rewrite !zlen_app. lia.
  - lia.
  - apply (rd_block_mid A1 (Y ++ T) (G ++ [ZIP_END])).
    + rewrite layout_cons. unfold raw.
      replace (h ++ (P ++ (prev_bytes nxt ++ body (text nxt)) ++ layout rest) ++ G ++ [ZIP_END])
        with ((h ++ P ++ prev_bytes nxt) ++ T ++ G ++ [ZIP_END]) by (unfold T; app_eq). rewrite HY. app_eq.
    + lia.
    + rewrite zlen_app. unfold total_of. lia.
  - rewrite zlen_app. change (zlen h) with 10. lia.
  - exists X. split; [done|]. cbn [mbind option_bind].
    rewrite (wr_block_mid (h ++ P ++ X) Y (T ++ [ZIP_END])).
    + f_equal. rewrite layout_cons. unfold raw. cbn [text]. pose proof (new_prev_bytes r (text nxt)) as Hpb.
      unfold new_entry in Hpb. rewrite Hpb. unfold T. app_eq.
    + app_eq.
    + rewrite !zlen_app. change (zlen h) with 10. lia.
    + by rewrite Hl2.
Qed.

Lemma insert_move_ok :
  exists X, zlen X = r /\
    insert_move (hdr total' (tail_of P (nxt :: rest)) n ++ (P ++ layout (nxt :: rest)) ++ G ++ [ZIP_END])
      (10 + zlen P) (total_of P (nxt :: rest)) r d = Some (blk n (P ++ X) (nxt' :: rest)).
Proof using Hn Hrest Hr Hmax HG.
  pose proof insert_next_ok as Hn'. destruct insert_bytes as (X & HX & Hrun). exists X. split; [done|].
  pose proof (zlen_nonneg P). pose proof (zlen_nonneg (layout rest)). pose proof (zlen_nonneg G).
  pose proof (size_pos nxt Hn). pose proof (zlen_removelast nxt rest Hn) as Hrl. pose proof (zlen_nonneg (layout (removelast (nxt :: rest)))).
  set (u := tail_of P (nxt :: rest)) in *. unfold insert_move.
  destruct (first_byte (hdr total' u n ++ P) (layout rest ++ G ++ [ZIP_END]) nxt Hn) as (b & Hb & Hne & _).
  rewrite zlen_app, zlen_hdr in Hb.
  replace (hdr total' u n ++ (P ++ layout (nxt :: rest)) ++ G ++ [ZIP_END])
    with ((hdr total' u n ++ P) ++ raw nxt ++ layout rest ++ G ++ [ZIP_END]) in * by (rewrite layout_cons; app_eq).
  rewrite Hb. cbn [mbind option_bind]. destruct (Z.eqb_spec b ZIP_END); [done|]. cbn [negb].
  destruct (memmove _ _ _ _) as [zl|]; [|done]. cbn [mbind option_bind] in *. rewrite Hrun. cbn [mbind option_bind].
  assert (total_of (P ++ X) (nxt' :: rest) = total') as Htot.
  { unfold total_of. rewrite zlen_app, !zlen_layout_cons, size_set by done. lia. }
  assert (0 <= u /\ u + r + Z.max d 0 < 2 ^ 32) as Hu.
  { unfold u, tail_of. pose proof Hmax as Hm. unfold total_of in Hm. rewrite zlen_layout_cons in Hm, Hrl.
    destruct (ps_cases nxt Hn), (enc_size_cases r); lia. }
  rewrite tail_hdr by lia. cbn [mbind option_bind]. rewrite set_tail_hdr. cbn [mbind option_bind].
  set (R := (P ++ X) ++ layout (nxt' :: rest) ++ [ZIP_END]).
  assert (forall t, zipEntry (hdr total' t n ++ R) (10 + zlen P + r) = Some (mkZlentry (ps nxt') (pv nxt') (lsz (text nxt'))
    (zlen (payload (text nxt'))) (ps nxt' + lsz (text nxt')) (enc_of (text nxt')) (10 + zlen P + r))) as Hze.
  { intros t. pose proof (zipEntry_at (hdr total' t n ++ P ++ X) (layout rest ++ [ZIP_END]) nxt' Hn') as H'.
    rewrite !zlen_app, zlen_hdr, HX, Z.add_assoc in H'. rewrite <- H'. f_equal. unfold R. rewrite layout_cons. app_eq. }
  rewrite Hze. cbn [mbind option_bind headersize len].
  replace (10 + zlen P + r + (ps nxt' + lsz (text nxt')) + zlen (payload (text nxt'))) with (10 + zlen P + r + size nxt')
    by (rewrite (size_eq nxt' Hn'); lia).
  pose proof (tail_set P X nxt r (enc_size r) rest r HX Hn Hn') as Htail. fold u in Htail.
  set (tot := total') in *. clearbody tot.
  destruct rest as [|x rest']; [|apply Forall_cons in Hrest as [Hx _]].
  - assert (rd (hdr tot (u + r) n ++ R) (10 + zlen P + r + size nxt') = Some ZIP_END) as ->.
    { unfold R. cbn [layout map concat]. rewrite app_nil_r.
      replace (hdr tot (u + r) n ++ (P ++ X) ++ raw nxt' ++ [ZIP_END])
        with ((hdr tot (u + r) n ++ (P ++ X) ++ raw nxt') ++ [ZIP_END]) by app_eq.
      apply rd_here. rewrite !zlen_app, zlen_hdr. unfold size. lia. }
    cbn [mbind option_bind]. rewrite Z.eqb_refl. cbn [negb]. unfold blk. rewrite Htot, Htail, Z.add_0_r. done.
  - assert (exists c, rd (hdr tot (u + r) n ++ R) (10 + zlen P + r + size nxt') = Some c /\ c <> ZIP_END) as (c & -> & Hc).
    { destruct (first_byte (hdr tot (u + r) n ++ (P ++ X) ++ raw nxt') (layout rest' ++ [ZIP_END]) x Hx) as (c & Hrd & ? & _).
      exists c. split; [|done]. rewrite <- Hrd. f_equal; [unfold R; rewrite !layout_cons; app_eq|].
      rewrite !zlen_app, zlen_hdr. unfold size. lia. }
    cbn [mbind option_bind]. destruct (Z.eqb_spec c ZIP_END); [done|]. cbn [negb]. rewrite tail_hdr by lia.
    cbn [mbind option_bind]. rewrite set_tail_hdr. unfold blk. rewrite Htot, Htail. done.
Qed.
End insert_move.

Lemma layout_long es : Forall entry_ok es -> 2 * zlen es <= zlen (layout es).
Proof.
  induction 1 as [|e l He _ IH]; [done|]. rewrite zlen_cons, zlen_layout_cons. pose proof (size_pos e He). lia.
Qed.

Lemma cascade_update uninit n P cur rest :
  Forall entry_ok (cur :: rest) -> total_of P (cur :: rest) + 4 * zlen rest < 2 ^ 32 ->
  __ziplistCascadeUpdate uninit (blk n P (cur :: rest)) (10 + zlen P) = Some (blk n P (cur :: relink (size cur) rest)).
Proof.
  intros Hok Hmax. unfold __ziplistCascadeUpdate. pose proof (zlen_nonneg rest). pose proof (zlen_nonneg P).
  pose proof (zlen_nonneg (layout (cur :: rest))).
  assert (ZIPLIST_BYTES (blk n P (cur :: rest)) = Some (total_of P (cur :: rest))) as ->
    by (apply bytes_hdr; unfold total_of in *; lia). cbn [mbind option_bind].
  apply cascade_ok; [done|done|]. pose proof (zlen_blk n P (cur :: rest)) as Hl. pose proof (layout_long _ Hok) as Hll.
  rewrite zlen_cons in Hll. unfold total_of in Hl. unfold zlen in *. lia.
Qed.

Lemma reqlen_eq prev s : 0 <= prev < 2 ^ 32 -> zlen s < 2 ^ 32 ->
  match code s with Some (_, encoding) => zipIntSize encoding | None => zlen s end + zlen (zipPrevEncodeLength prev) +
    zlen (zipEncodeLength (encoding_of s) (zlen s)) = size (new_entry prev s).
Proof.
  intros Hp Hs. rewrite size_eq by by apply new_entry_ok. cbn [ps text new_entry]. fold (enc_size prev).
  change (zlen (zipEncodeLength (encoding_of s) (zlen s))) with (lsz s). unfold payload.
  destruct (zipTryEncoding_cases s) as [[_ ->]|(v & _ & _ & _ & ->)]; [lia|]. rewrite zlen_int_payload. lia.
Qed.

Lemma new_size prev s : 0 <= prev < 2 ^ 32 -> zlen s < 2 ^ 32 -> 2 <= size (new_entry prev s) <= zlen s + 18.
Proof.
  intros Hp Hs. split; [by apply size_pos, new_entry_ok|]. rewrite size_eq by by apply new_entry_ok.
  cbn [ps text new_entry]. pose proof (lsz_bounds s). pose proof (zlen_nonneg s).
  assert (enc_size prev <= 5) by (destruct (enc_size_cases prev); lia). unfold payload.
  destruct (zipTryEncoding_cases s) as [[_ ->]|(v & _ & _ & _ & ->)]; [lia|]. rewrite zlen_int_payload.
  assert (zipIntSize (int_encoding v) <= 8); [|lia]. unfold zipIntSize. repeat (destruct (_ =? _); [lia|]). lia.
Qed.

Lemma end_size_bound a : Forall entry_ok a -> 0 <= end_size 0 a <= zlen (layout a).
Proof.
  intros Hok. destruct a as [|x a _] using rev_ind; [done|]. unfold end_size. rewrite last_snoc, layout_app, zlen_app.
  apply Forall_app in Hok as [_ Hx]. apply Forall_cons in Hx as [Hx _]. pose proof (size_pos x Hx).
  rewrite zlen_layout_cons. pose proof (zlen_nonneg (layout a)). change (zlen (layout [])) with 0. lia.
Qed.

Lemma insert_finish n P X es prev s :
  es <> [] -> 0 <= prev < 2 ^ 32 -> zlen s < 2 ^ 32 -> zlen X = size (new_entry prev s) -> 0 <= n < 2 ^ 16 ->
  (zl ← insert_write (blk n (P ++ X) es) (10 + zlen P) prev (encoding_of s)
          (match code s with Some (value, _) => value | None => 123456789 end) s (zlen s);
   ZIPLIST_INCR_LENGTH zl 1) = Some (blk (incr_length n 1) P (new_entry prev s :: es)).
Proof.
  intros Hes Hp Hs HX Hn. unfold blk at 1.
  replace ((P ++ X) ++ layout es ++ [ZIP_END]) with (P ++ X ++ layout es ++ [ZIP_END]) by app_eq.
  rewrite insert_write_ok by done. cbn [mbind option_bind]. rewrite incr_hdr, blk_skip by done. unfold blk.
  assert (total_of (P ++ X) es = total_of (P ++ raw (new_entry prev s)) es) as ->
    by (unfold total_of; rewrite !zlen_app, HX; done).
  assert (tail_of (P ++ X) es = tail_of (P ++ raw (new_entry prev s)) es) as ->
    by (unfold tail_of; rewrite !zlen_app, HX; done). f_equal. app_eq.
Qed.

(** Where the entry of the place [b] has a length field that is wider than it has
    to be, a very short new entry would not leave room for it. *)
Definition room (prev : Z) (s : list Z) (b : list entry) : Prop :=
  match b with [] => True | nxt :: _ => ps nxt = 1 \/ 4 <= size (new_entry prev s) end.

Section insert.
Context (uninit : nat -> Z) (n : Z) (a b : list entry) (s : list Z).
Context (Hok : Forall entry_ok (a ++ b)) (Hl : linked 0 (a ++ b)) (Hs : zlen s < 2 ^ 32) (Hn : 0 <= n < 2 ^ 16).
Context (Hmax : total_of [] (a ++ b) + zlen s + 30 + 4 * zlen (a ++ b) < 2 ^ 32).
Local Abbreviation new := (new_entry (end_size 0 a) s).
Local Abbreviation r := (size new).

Lemma insert_prev_range : 0 <= end_size 0 a < 2 ^ 32 /\ 2 <= r <= zlen s + 18 /\ 0 <= zlen (layout a) /\
  zlen (layout (a ++ b)) = zlen (layout a) + zlen (layout b).
Proof using Hok Hs Hmax.
  apply Forall_app in Hok as [Ha _]. pose proof (end_size_bound a Ha). unfold total_of in Hmax.
  rewrite layout_app, zlen_app in *. pose proof (zlen_nonneg (layout b)). pose proof (zlen_nonneg s).
  pose proof (zlen_nonneg (a ++ b)). change (zlen []) with 0 in Hmax. split; [lia|]. split; [apply new_size; lia|]. lia.
Qed.

Lemma insert_last : b = [] ->
  __ziplistInsert uninit (blk n [] (a ++ b)) (10 + zlen (layout a)) s (zlen s) =
    Some (blk (incr_length n 1) [] (a ++ new :: settle r b)).
Proof using Hok Hl Hs Hn Hmax.
  intros Hb. destruct insert_prev_range as (Hp & Hr & Hla & _). unfold __ziplistInsert.
  pose proof (zlen_nonneg s). pose proof (zlen_nonneg (a ++ b)).
  rewrite insert_prevlen_ok by (done || unfold total_of in *; lia).
  subst b. rewrite app_nil_r in *. assert (total_of [] a = 11 + zlen (layout a)) as Ht by (unfold total_of; change (zlen []) with 0; lia).
  assert (rd (blk n [] a) (10 + zlen (layout a)) = Some ZIP_END) as Hrd
    by (unfold blk; cbn [app]; rewrite app_assoc; apply rd_here; by rewrite zlen_app, zlen_hdr).
  assert (ZIPLIST_BYTES (blk n [] a) = Some (total_of [] a)) as -> by (apply bytes_hdr; lia).
  cbn [mbind option_bind]. rewrite zipTry_code. cbn [mbind option_bind].
  fold (encoding_of s). rewrite reqlen_eq by done. rewrite Hrd. cbn [mbind option_bind].
  change (ZIP_END =? ZIP_END) with true. cbn [negb mbind option_bind].
  rewrite Z.add_0_r. unfold blk. cbn [app].
  destruct (zl_resize_grow uninit (total_of [] a) (tail_of [] a) n (layout a) r Ht) as (G & HG & HG0 & ->); [lia|lia|].
  cbn [mbind option_bind]. unfold insert_move.
  assert (rd (hdr (total_of [] a + r) (tail_of [] a) n ++ layout a ++ G ++ [ZIP_END]) (10 + zlen (layout a)) = Some ZIP_END) as ->.
  { rewrite app_assoc, <- zlen_hdr with (total := total_of [] a + r) (tail := tail_of [] a) (n := n).
    rewrite <- zlen_app, <- (Z.add_0_r (zlen _)), rd_shift by done. destruct (G ++ [ZIP_END]); [done|exact HG0]. }
  cbn [mbind option_bind]. change (ZIP_END =? ZIP_END) with true. cbn [negb]. rewrite set_tail_hdr. cbn [mbind option_bind Z.eqb negb].
  rewrite insert_write_ok by done. cbn [mbind option_bind]. rewrite incr_hdr by done. f_equal.
  unfold blk. cbn [settle app]. unfold total_of, tail_of. rewrite removelast_last, !layout_app, zlen_app, !layout_cons.
  cbn [layout map concat]. rewrite app_nil_r. fold r. f_equal; [|app_eq]. f_equal; change (zlen []) with 0; lia.
Qed.

Lemma insert_before nxt rest : b = nxt :: rest -> room (end_size 0 a) s b ->
  __ziplistInsert uninit (blk n [] (a ++ b)) (10 + zlen (layout a)) s (zlen s) =
    Some (blk (incr_length n 1) [] (a ++ new :: settle r b)).
Proof using Hok Hl Hs Hn Hmax.
  intros Hb Hroom. destruct insert_prev_range as (Hp & Hr & Hla & Hlab). unfold __ziplistInsert.
  pose proof (zlen_nonneg s). pose proof (zlen_nonneg (a ++ b)).
  rewrite insert_prevlen_ok by (done || unfold total_of in *; lia).
  apply linked_app in Hl as [_ Hlb]. pose proof Hok as Hokb. apply Forall_app in Hokb as [_ Hokb]. subst b.
  apply Forall_cons in Hokb as [Hx Hokr]. destruct Hlb as [_ Hlr].
  rewrite !blk_skip_all by done. cbn [app]. set (P := layout a) in *.
  assert (total_of P (nxt :: rest) = total_of [] (a ++ nxt :: rest)) as Ht
    by (unfold total_of; rewrite Hlab; change (zlen []) with 0; lia).
  rewrite zlen_app, zlen_cons in Hmax. pose proof (zlen_nonneg a). pose proof (zlen_nonneg rest).
  pose proof (size_pos nxt Hx) as Hsn. pose proof (zlen_nonneg (layout rest)).
  assert (total_of P (nxt :: rest) = 11 + zlen P + size nxt + zlen (layout rest)) as Ht2
    by (unfold total_of; rewrite zlen_layout_cons; lia).
  assert (ZIPLIST_BYTES (blk n P (nxt :: rest)) = Some (total_of P (nxt :: rest))) as -> by (apply bytes_hdr; lia).
  cbn [mbind option_bind]. rewrite zipTry_code. cbn [mbind option_bind]. fold (encoding_of s). rewrite reqlen_eq by done.
  destruct (first_at n P nxt rest Hx) as (c & -> & Hc & _). cbn [mbind option_bind].
  destruct (Z.eqb_spec c ZIP_END); [done|]. cbn [negb].
  assert (zipPrevLenByteDiff (blk n P (nxt :: rest)) (10 + zlen P) r = Some (enc_size r - ps nxt)) as ->.
  { unfold zipPrevLenByteDiff, blk. rewrite layout_cons.
    pose proof (prevlensize_at (hdr (total_of P (nxt :: rest)) (tail_of P (nxt :: rest)) n ++ P) (layout rest ++ [ZIP_END]) nxt Hx) as H'.
    rewrite zlen_app, zlen_hdr in H'.
    replace (hdr (total_of P (nxt :: rest)) (tail_of P (nxt :: rest)) n ++ P ++ (raw nxt ++ layout rest) ++ [ZIP_END])
      with ((hdr (total_of P (nxt :: rest)) (tail_of P (nxt :: rest)) n ++ P) ++ raw nxt ++ layout rest ++ [ZIP_END]) by app_eq.
    by rewrite H'. }
  cbn [mbind option_bind]. set (d := enc_size r - ps nxt).
  assert (0 <= r + d /\ d <= 4) as [Hrd Hd4].
  { unfold d, room in *. destruct (ps_cases nxt Hx), (enc_size_cases r), Hroom; lia. }
  unfold blk at 1. replace (P ++ layout (nxt :: rest) ++ [ZIP_END]) with ((P ++ layout (nxt :: rest)) ++ [ZIP_END]) by app_eq.
  replace (total_of P (nxt :: rest) + r + d) with (total_of P (nxt :: rest) + (r + d)) by lia.
  destruct (zl_resize_grow uninit (total_of P (nxt :: rest)) (tail_of P (nxt :: rest)) n (P ++ layout (nxt :: rest)) (r + d))
    as (G & HG & _ & ->); [unfold total_of; rewrite zlen_app; lia|lia|lia|]. cbn [mbind option_bind].
  replace (total_of P (nxt :: rest) + (r + d)) with (total_of P (nxt :: rest) + r + d) by lia.
  destruct (insert_move_ok n P nxt rest r G Hx Hokr ltac:(lia) HG ltac:(lia)) as (X & HX & HM).
  fold d in HM. rewrite HM. cbn [mbind option_bind].
  pose proof (insert_next_ok P nxt rest r G Hx ltac:(lia) HG ltac:(lia)) as Hn'.
  assert ((if negb (d =? 0) then __ziplistCascadeUpdate uninit (blk n (P ++ X) (mkEntry r (enc_size r) (text nxt) :: rest)) (10 + zlen P + r)
           else Some (blk n (P ++ X) (mkEntry r (enc_size r) (text nxt) :: rest))) = Some (blk n (P ++ X) (settle r (nxt :: rest)))) as ->.
  { pose proof (size_set nxt r (enc_size r) Hx Hn') as Hss. cbn [settle]. destruct (Z.eqb_spec d 0) as [Hd0|Hd0]; cbn [negb].
    - rewrite relink_linked; [done|]. assert (size (mkEntry r (enc_size r) (text nxt)) = size nxt) as -> by lia. done.
    - replace (10 + zlen P + r) with (10 + zlen (P ++ X)) by (rewrite zlen_app; lia). apply cascade_update; [by constructor|].
      unfold total_of. rewrite zlen_app, zlen_layout_cons. lia. }
  cbn [mbind option_bind]. by rewrite insert_finish by done.
Qed.
End insert.

(** ** Deletion *)

Lemma skip_ok num dl : forall Q S i fuel c,
  Forall entry_ok dl -> zlen (layout dl) < 2 ^ 32 -> head S = Some c -> i + zlen dl <= num ->
  c = ZIP_END \/ i + zlen dl = num -> (length dl <= fuel)%nat ->
  skip_loop fuel (Q ++ layout dl ++ S) (zlen Q) i num = Some (zlen Q + zlen (layout dl), i + zlen dl).
Proof.
  induction dl as [|e dl IH]; intros Q S i fuel c Hok Hmax Hc Hle Hend Hfuel.
  - cbn [layout map concat app]. change (zlen (@nil Z)) with 0. change (zlen (@nil entry)) with 0 in *.
    destruct S as [|y S]; [done|]. injection Hc as ->.
    assert (negb (c =? ZIP_END) && (i <? num) = false) as Hstop.
    { destruct Hend as [->|<-]; [done|]. rewrite Z.add_0_r, Z.ltb_irrefl. apply andb_false_r. }
    destruct fuel; cbn [skip_loop]; rewrite rd_at; cbn [mbind option_bind]; rewrite Hstop; do 2 f_equal; lia.
  - apply Forall_cons in Hok as [He Hok]. rewrite zlen_cons, zlen_layout_cons in *. rewrite layout_cons.
    pose proof (zlen_nonneg dl). pose proof (size_pos e He). pose proof (zlen_nonneg (layout dl)).
    destruct fuel as [|fuel]; [simpl in Hfuel; lia|]. cbn [skip_loop]. rewrite <- app_assoc.
    destruct (first_byte Q (layout dl ++ S) e He) as (b & -> & Hb & _). cbn [mbind option_bind].
    destruct (Z.eqb_spec b ZIP_END); [done|]. destruct (Z.ltb_spec i num); [|lia]. cbn [negb andb].
    rewrite zipRawEntryLength_at by (done || lia). cbn [mbind option_bind].
    specialize (IH (Q ++ raw e) S (i + 1) fuel c Hok). rewrite <- app_assoc, zlen_app in IH. fold (size e) in IH.
    rewrite IH; [do 2 f_equal; lia|lia|done|lia|destruct Hend; [by left|right; lia]|simpl in Hfuel; lia].
Qed.

Lemma end_tail a : Forall entry_ok a -> zlen (layout a) - end_size 0 a = zlen (layout (removelast a)).
Proof.
  intros Hok. destruct a as [|x a _] using rev_ind; [done|]. unfold end_size. rewrite last_snoc, removelast_last.
  rewrite layout_app, zlen_app, zlen_layout_cons. change (zlen (layout [])) with 0. lia.
Qed.

Section delete_move.
Context (n : Z) (P : list Z) (dl : list entry) (nxt : entry) (rest : list entry) (q : Z) (first : zlentry).
Context (Hn : entry_ok nxt) (Hrest : Forall entry_ok rest) (Hq : 0 <= q < 2 ^ 32).
Local Abbreviation L := (zlen (layout dl)).
Local Abbreviation k := (enc_size q).
Local Abbreviation d := (k - ps nxt).
Local Abbreviation nxt' := (mkEntry q k (text nxt)).
Context (Hfirst : prevrawlen first = q) (Hzp : zp first = 10 + zlen P) (HL : k <= L).
Local Abbreviation T := (total_of (P ++ layout dl) (nxt :: rest)).
Context (Hmax : T + 4 < 2 ^ 32).

Lemma delete_next_ok : entry_ok nxt'.
Proof using Hn Hq. apply set_prev_ok; [done|done|by left]. Qed.

Lemma delete_move_ok :
  exists E, E <> [] /\
    delete_move (blk n (P ++ layout dl) (nxt :: rest)) first (10 + zlen P + L) L =
      Some (hdr T (tail_of P (nxt' :: rest)) n ++ (P ++ layout (nxt' :: rest)) ++ E, d).
Proof using Hn Hrest Hq Hfirst Hzp HL Hmax.
  pose proof delete_next_ok as Hn'. pose proof (size_set nxt q k Hn Hn') as Hss.
  pose proof (zlen_nonneg P). pose proof (zlen_nonneg (layout rest)). pose proof (size_pos nxt Hn).
  pose proof (zlen_removelast nxt rest Hn) as Hrl. pose proof (zlen_nonneg (layout (removelast (nxt :: rest)))).
  assert (0 <= k <= 5) as Hk by (destruct (enc_size_cases q); lia).
  assert (T = 11 + zlen P + L + size nxt + zlen (layout rest)) as HT
    by (unfold total_of; rewrite zlen_app, zlen_layout_cons; lia).
  set (u := tail_of (P ++ layout dl) (nxt :: rest)).
  assert (u = 10 + zlen P + L + zlen (layout (removelast (nxt :: rest)))) as Hu by (unfold u, tail_of; rewrite zlen_app; lia).
  rewrite zlen_layout_cons in Hrl. unfold delete_move.
  destruct (first_at n (P ++ layout dl) nxt rest Hn) as (b & Hb & Hne & _). rewrite zlen_app, Z.add_assoc in Hb.
  rewrite Hb. cbn [mbind option_bind]. destruct (Z.eqb_spec b ZIP_END); [done|]. cbn [negb]. rewrite Hfirst.
  set (h := hdr T u n).
  assert (blk n (P ++ layout dl) (nxt :: rest) = (h ++ P ++ layout dl) ++ raw nxt ++ layout rest ++ [ZIP_END]) as Hblk
    by (unfold blk; rewrite layout_cons; app_eq).
  unfold zipPrevLenByteDiff. rewrite Hblk.
  pose proof (prevlensize_at (h ++ P ++ layout dl) (layout rest ++ [ZIP_END]) nxt Hn) as Hps.
  rewrite !zlen_app, Z.add_assoc in Hps. change (zlen h) with 10 in Hps. rewrite Hps. cbn [mbind option_bind].
  change (zlen (zipPrevEncodeLength q)) with k.
  destruct (split_len (layout dl ++ prev_bytes nxt) (L + ps nxt - k) k) as (D1 & Y & HY & HD1 & HlY).
  { rewrite zlen_app, zlen_prev_bytes by done. lia. }
  { destruct (ps_cases nxt Hn); lia. }
  { lia. }
  set (B := body (text nxt) ++ layout rest).
  replace ((h ++ P ++ layout dl) ++ raw nxt ++ layout rest ++ [ZIP_END])
    with ((h ++ P) ++ (layout dl ++ prev_bytes nxt) ++ B ++ [ZIP_END]) by (unfold B, raw; app_eq).
  rewrite HY. rewrite (wr_block_mid (h ++ P ++ D1) Y (B ++ [ZIP_END]));
    [|app_eq|rewrite !zlen_app; change (zlen h) with 10; lia|rewrite HlY; done].
  cbn [mbind option_bind]. pose proof (new_prev_bytes q (text nxt)) as Hpb. unfold new_entry in Hpb. rewrite <- Hpb.
  set (R := P ++ D1 ++ raw nxt' ++ layout rest ++ [ZIP_END]).
  assert ((h ++ P ++ D1) ++ prev_bytes nxt' ++ B ++ [ZIP_END] = h ++ R) as ->
    by (unfold R, B, raw; cbn [text]; app_eq).
  unfold h. rewrite tail_hdr by lia. cbn [mbind option_bind]. rewrite set_tail_hdr. cbn [mbind option_bind].
  set (p' := 10 + zlen P + L - d).
  assert (forall t, zipEntry (hdr T t n ++ R) p' = Some (mkZlentry (ps nxt') (pv nxt') (lsz (text nxt'))
    (zlen (payload (text nxt'))) (ps nxt' + lsz (text nxt')) (enc_of (text nxt')) p')) as Hze.
  { intros t. pose proof (zipEntry_at (hdr T t n ++ P ++ D1) (layout rest ++ [ZIP_END]) nxt' Hn') as H'.
    assert (zlen (hdr T t n ++ P ++ D1) = p') as Hz by (rewrite !zlen_app, zlen_hdr; unfold p'; lia). rewrite Hz in H'.
    rewrite <- H'. f_equal. unfold R. app_eq. }
  rewrite Hze. cbn [mbind option_bind headersize len].
  replace (p' + (ps nxt' + lsz (text nxt')) + zlen (payload (text nxt'))) with (p' + size nxt')
    by (rewrite (size_eq nxt' Hn'); lia).
  set (M := raw nxt' ++ layout rest).
  assert (zlen M = size nxt' + zlen (layout rest)) as HM by (unfold M; rewrite zlen_app; done).
  pose proof (tail_set P [] nxt q k rest 0 eq_refl Hn Hn') as Htail. rewrite app_nil_r in Htail.
  assert (tail_of P (nxt :: rest) = u - L) as Htu by (unfold tail_of; lia).
  assert (forall h1 : list Z, zlen h1 = 10 -> exists c, rd (h1 ++ R) (p' + size nxt') = Some c /\
    (if negb (c =? ZIP_END) then d else 0) = (match rest with [] => 0 | _ => d end)) as Hnext.
  { intros h1 Hh1. assert (p' + size nxt' = zlen (h1 ++ P ++ D1 ++ raw nxt')) as ->
      by (rewrite !zlen_app; unfold p', size; lia).
    destruct rest as [|x rest'].
    - exists ZIP_END. split; [|done]. unfold R. cbn [layout map concat app].
      replace (h1 ++ P ++ D1 ++ raw nxt' ++ [ZIP_END]) with ((h1 ++ P ++ D1 ++ raw nxt') ++ [ZIP_END]) by app_eq. apply rd_at.
    - pose proof Hrest as Hrest'. apply Forall_cons in Hrest' as [Hx _].
      destruct (first_byte (h1 ++ P ++ D1 ++ raw nxt') (layout rest' ++ [ZIP_END]) x Hx) as (c & Hrd & Hcne & _).
      exists c. split; [|destruct (Z.eqb_spec c ZIP_END); done]. rewrite <- Hrd.
      f_equal. unfold R. rewrite !layout_cons. app_eq. }
  destruct (Hnext (hdr T (u - L) n) eq_refl) as (c & -> & Hc).
  cbn [mbind option_bind].
  assert ((if negb (c =? ZIP_END) then off ← ZIPLIST_TAIL_OFFSET (hdr T (u - L) n ++ R); set_TAIL_OFFSET (hdr T (u - L) n ++ R) (off + d)
           else Some (hdr T (u - L) n ++ R)) = Some (hdr T (tail_of P (nxt' :: rest)) n ++ R)) as ->.
  { rewrite Htail, Htu, <- Hc. destruct (negb (c =? ZIP_END)); [|by rewrite !Z.add_0_r].
    rewrite tail_hdr by lia. cbn [mbind option_bind]. rewrite set_tail_hdr. by rewrite Z.add_0_r. }
  cbn [mbind option_bind]. rewrite bytes_hdr by lia. cbn [mbind option_bind]. rewrite Hzp.
  destruct (split_len (D1 ++ M ++ [ZIP_END]) (zlen M) (zlen D1 + 1)) as (Q & E & HQE & HQ & HE);
    [rewrite !zlen_app; change (zlen [ZIP_END]) with 1; lia|apply zlen_nonneg|pose proof (zlen_nonneg D1); lia|].
  destruct (memmove_split (hdr T (tail_of P (nxt' :: rest)) n ++ R) (hdr T (tail_of P (nxt' :: rest)) n ++ P) Q E M
    (10 + zlen P) p' (T - p' - 1) 0) as (X & HX & ->).
  - unfold R. replace (P ++ D1 ++ raw nxt' ++ layout rest ++ [ZIP_END]) with (P ++ (D1 ++ M ++ [ZIP_END])) by (unfold M; app_eq).
    rewrite HQE. app_eq.
  - lia.
  - done.
  - apply (rd_block_mid (hdr T (tail_of P (nxt' :: rest)) n ++ P ++ D1) M [ZIP_END]).
    + unfold R, M. app_eq.
    + rewrite !zlen_app, zlen_hdr. unfold p'. lia.
    + unfold p'. lia.
  - rewrite zlen_app, zlen_hdr. lia.
  - apply zlen_zero in HX as ->. cbn [mbind option_bind app]. exists E. split.
    + intros ->. change (zlen []) with 0 in HE. pose proof (zlen_nonneg D1). lia.
    + f_equal. f_equal. rewrite layout_cons. unfold M. app_eq.
Qed.
End delete_move.

Section delete.
Context (uninit : nat -> Z) (n : Z) (a dl b : list entry) (num : Z).
Context (Hok : Forall entry_ok (a ++ dl ++ b)) (Hl : linked 0 (a ++ dl ++ b)) (Hn : 0 <= n < 2 ^ 16).
Context (Hdl : dl <> []) (Hnum : zlen dl <= num) (Hend : b = [] \/ zlen dl = num).
Context (Hmax : total_of [] (a ++ dl ++ b) + 4 + 4 * zlen b < 2 ^ 32).
Local Abbreviation q := (end_size 0 a).
Local Abbreviation P := (layout a).

Lemma delete_skip :
  skip_loop (length (blk n [] (a ++ dl ++ b))) (blk n [] (a ++ dl ++ b)) (10 + zlen P) 0 num =
    Some (10 + zlen P + zlen (layout dl), zlen dl).
Proof using Type*.
  pose proof Hok as Hokd. apply Forall_app in Hokd as [_ Hokd]. apply Forall_app in Hokd as [Hokd Hokb].
  pose proof (layout_long dl Hokd) as Hlong. pose proof (zlen_blk n [] (a ++ dl ++ b)) as Hzl.
  pose proof Hmax as Hm. unfold total_of in Hm, Hzl. rewrite !layout_app, !zlen_app in Hm, Hzl. change (zlen []) with 0 in Hm, Hzl.
  pose proof (zlen_nonneg P). pose proof (zlen_nonneg (layout dl)). pose proof (zlen_nonneg (layout b)). pose proof (zlen_nonneg b).
  set (h := hdr (total_of [] (a ++ dl ++ b)) (tail_of [] (a ++ dl ++ b)) n).
  assert (blk n [] (a ++ dl ++ b) = (h ++ P) ++ layout dl ++ layout b ++ [ZIP_END]) as Hb
    by (unfold blk; rewrite !layout_app; app_eq).
  assert (exists c, head (layout b ++ [ZIP_END]) = Some c /\ (c = ZIP_END \/ 0 + zlen dl = num)) as (c & Hc & Hce).
  { destruct Hend as [->|Heq]; [exists ZIP_END; auto|].
    destruct (layout b ++ [ZIP_END]) as [|c l] eqn:Hl0; [by apply app_nil in Hl0 as [_ ?]|]. exists c. auto. }
  pose proof (skip_ok num dl (h ++ P) (layout b ++ [ZIP_END]) 0 (length (blk n [] (a ++ dl ++ b))) c Hokd ltac:(lia) Hc ltac:(lia) Hce) as Hs.
  rewrite <- Hb in Hs. rewrite zlen_app in Hs. change (zlen h) with 10 in Hs. apply Hs. unfold zlen in *. lia.
Qed.

Lemma delete_facts :
  0 <= q < 2 ^ 32 /\ enc_size q <= zlen (layout dl) /\ 2 <= zlen (layout dl) /\
  exists first, zipEntry (blk n [] (a ++ dl ++ b)) (10 + zlen P) = Some first /\ prevrawlen first = q /\ zp first = 10 + zlen P.
Proof using Type*.
  destruct dl as [|e dl']; [done|]. pose proof Hl as Hlk. rewrite linked_app in Hlk. destruct Hlk as [_ [Hpe _]].
  pose proof Hok as Hokd. apply Forall_app in Hokd as [Hoka Hokd]. apply Forall_cons in Hokd as [He _].
  pose proof (end_size_bound a Hoka). pose proof (size_pos e He). pose proof (zlen_nonneg (layout dl')).
  pose proof (zlen_nonneg (layout b)). pose proof (zlen_nonneg b). pose proof Hmax as Hm. unfold total_of in Hm.
  rewrite !layout_app, !zlen_app in Hm. change (zlen []) with 0 in Hm. rewrite zlen_layout_cons in *.
  split_and!; [lia|lia| |lia|].
  - pose proof (size_body e He). pose proof (zlen_nonneg (body (text e))). destruct (enc_size_cases q), (proj1 He); lia.
  - rewrite blk_skip_all by done. cbn [app]. rewrite entry_at by done. by eexists.
Qed.

Lemma delete_ok :
  __ziplistDelete uninit (blk n [] (a ++ dl ++ b)) (10 + zlen P) num =
    Some (blk (incr_length n (- zlen dl)) [] (a ++ settle q b)).
Proof using Type*.
  destruct delete_facts as (Hq & HL & HL2 & first & Hf & Hfp & Hfz). unfold __ziplistDelete. rewrite Hf. cbn [mbind option_bind].
  rewrite delete_skip. cbn [mbind option_bind]. rewrite Hfz. pose proof Hmax as Hm. unfold total_of in Hm.
  rewrite !layout_app, !zlen_app in Hm. change (zlen []) with 0 in Hm. pose proof (zlen_nonneg P). pose proof (zlen_nonneg (layout b)).
  pose proof (zlen_nonneg b). replace (10 + zlen P + zlen (layout dl) - (10 + zlen P)) with (zlen (layout dl)) by lia.
  rewrite uwrap_small by lia. destruct (Z.gtb_spec (zlen (layout dl)) 0); [|lia].
  pose proof Hok as Hokd. apply Forall_app in Hokd as [Hoka Hokd]. apply Forall_app in Hokd as [Hokd Hokb].
  destruct b as [|nxt rest].
  - unfold delete_move. rewrite app_nil_r in *. cbn [settle]. rewrite app_nil_r.
    assert (rd (blk n [] (a ++ dl)) (10 + zlen P + zlen (layout dl)) = Some ZIP_END) as ->.
    { unfold blk. cbn [app]. rewrite app_assoc. apply rd_here. rewrite zlen_app, zlen_hdr, layout_app, zlen_app. lia. }
    cbn [mbind option_bind]. change (ZIP_END =? ZIP_END) with true. cbn [negb]. rewrite Hfz, Hfp.
    unfold blk. rewrite set_tail_hdr. cbn [mbind option_bind]. rewrite bytes_hdr by (unfold total_of in *; pose proof (zlen_nonneg (layout (a ++ dl))); change (zlen []) with 0 in *; lia).
    cbn [mbind option_bind app]. rewrite layout_app, <- app_assoc.
    assert (layout dl ++ [ZIP_END] <> []) as HD by (intros [_ ?]%app_nil; done).
    rewrite (resize_shrink uninit _ _ n P (layout dl ++ [ZIP_END]));
      [|unfold total_of; rewrite layout_app, zlen_app; change (zlen []) with 0; lia|
       unfold total_of; rewrite layout_app, zlen_app; change (zlen []) with 0 in *; change (zlen (layout [])) with 0 in *; lia|done].
    cbn [mbind option_bind]. rewrite incr_hdr by done. cbn [mbind option_bind Z.eqb negb]. do 3 f_equal.
    + unfold total_of. rewrite layout_app, zlen_app. change (zlen []) with 0. lia.
    + unfold tail_of. pose proof (end_tail a Hoka). change (zlen []) with 0. lia.
  - apply Forall_cons in Hokb as [Hx Hokr]. rewrite linked_app, linked_app in Hl. destruct Hl as (_ & _ & _ & Hlr).
    rewrite zlen_layout_cons, zlen_cons in *. pose proof (size_pos nxt Hx). pose proof (zlen_nonneg (layout rest)). pose proof (zlen_nonneg rest).
    assert (total_of (P ++ layout dl) (nxt :: rest) = 11 + zlen P + zlen (layout dl) + size nxt + zlen (layout rest)) as HT
      by (unfold total_of; rewrite zlen_app, zlen_layout_cons; lia).
    assert (blk n [] (a ++ dl ++ nxt :: rest) = blk n (P ++ layout dl) (nxt :: rest)) as Hblk
      by (rewrite !blk_skip_all by (by destruct dl); done).
    rewrite Hblk. destruct (delete_move_ok n P dl nxt rest q first Hx Hokr Hq Hfp Hfz HL ltac:(lia)) as (E & HE & ->).
    pose proof (delete_next_ok nxt q Hx Hq) as Hn'. pose proof (size_set nxt q (enc_size q) Hx Hn') as Hss.
    set (nxt' := mkEntry q (enc_size q) (text nxt)) in *. cbn [mbind option_bind]. set (d := enc_size q - ps nxt) in *.
    rewrite bytes_hdr by lia. cbn [mbind option_bind].
    assert (total_of P (nxt' :: rest) = total_of (P ++ layout dl) (nxt :: rest) - zlen (layout dl) + d) as Htot
      by (rewrite HT; unfold total_of; rewrite zlen_layout_cons; unfold d; lia).
    assert (d <= 4) by (unfold d; destruct (ps_cases nxt Hx), (enc_size_cases q); lia).
    rewrite resize_shrink; [|rewrite <- Htot; unfold total_of; rewrite zlen_app; lia|lia|done].
    cbn [mbind option_bind]. rewrite incr_hdr by done. cbn [mbind option_bind]. rewrite <- Htot, <- app_assoc.
    rewrite blk_skip_all by done. cbn [app settle]. fold nxt'.
    change (hdr (total_of P (nxt' :: rest)) (tail_of P (nxt' :: rest)) (incr_length n (- zlen dl)) ++ P ++ layout (nxt' :: rest) ++ [ZIP_END])
      with (blk (incr_length n (- zlen dl)) P (nxt' :: rest)).
    destruct (Z.eqb_spec d 0) as [Hd0|Hd0]; cbn [negb].
    + rewrite relink_linked; [done|]. assert (size nxt' = size nxt) as -> by (unfold d in *; lia). done.
    + apply cascade_update; [by constructor|]. unfold total_of in Htot |- *. rewrite zlen_layout_cons. unfold d in *. lia.
Qed.
End delete.

(** ** The list of strings *)

(** The count of the header is exact, or has reached its limit and says nothing. *)
Definition length_ok (n len : Z) : Prop := n = UINT16_MAX \/ n = len /\ len < UINT16_MAX.

Definition head_ok (es : list entry) : Prop := match es with [] => True | e :: _ => ps e = 1 end.

Record rep (zl : list Z) (n : Z) (es : list entry) : Prop := {
  rep_bytes : zl = blk n [] es;
  rep_ok : Forall entry_ok es;
  rep_linked : linked 0 es;
  rep_length : length_ok n (zlen es);
  rep_head : head_ok es;
  rep_small : total_of [] es < 2 ^ 32
}.

(** The ziplist [zl] holds the strings [l1] before the offset [p], and [l2] from it
    on. *)
Definition place (zl : list Z) (l1 l2 : list (list Z)) (p : Z) : Prop :=
  exists n a b, rep zl n (a ++ b) /\ map text a = l1 /\ map text b = l2 /\ p = 10 + zlen (layout a).

(** The ziplist [zl] holds the strings [l]. *)
Definition ziplist_ok (zl : list Z) (l : list (list Z)) : Prop := place zl [] l ZIPLIST_ENTRY_HEAD.

Lemma rep_place zl n a b : rep zl n (a ++ b) -> place zl (map text a) (map text b) (10 + zlen (layout a)).
Proof. intros H. by exists n, a, b. Qed.

Lemma rep_ziplist_ok zl n es : rep zl n es -> ziplist_ok zl (map text es).
Proof. intros H. by apply (rep_place zl n [] es). Qed.

Lemma ziplist_ok_rep zl l : ziplist_ok zl l -> exists n es, rep zl n es /\ map text es = l.
Proof. intros (n & a & b & H & Ha & Hb & _). apply map_eq_nil in Ha as ->. by exists n, b. Qed.

Lemma place_ziplist_ok zl l1 l2 p : place zl l1 l2 p -> ziplist_ok zl (l1 ++ l2).
Proof. intros (n & a & b & H & <- & <- & _). rewrite <- map_app. by eapply rep_ziplist_ok. Qed.

Lemma ziplist_ok_place zl l1 l2 : ziplist_ok zl (l1 ++ l2) -> exists p, place zl l1 l2 p.
Proof.
  intros (n & es & H & Heq)%ziplist_ok_rep. apply map_eq_app in Heq as (a & b & -> & <- & <-).
  eexists. by eapply rep_place.
Qed.

Lemma length_ok_range n (es : list entry) : length_ok n (zlen es) -> 0 <= n < 2 ^ 16.
Proof. pose proof (zlen_nonneg es). unfold length_ok, UINT16_MAX. lia. Qed.

Lemma rep_zlen zl n es : rep zl n es -> zlen zl = total_of [] es.
Proof. intros H. by rewrite (rep_bytes _ _ _ H), zlen_blk. Qed.

Lemma rep_end_size zl n a b : rep zl n (a ++ b) -> 0 <= end_size 0 a < 2 ^ 32.
Proof.
  intros H. pose proof (rep_ok _ _ _ H) as Hok. apply Forall_app in Hok as [Ha _]. pose proof (end_size_bound a Ha).
  pose proof (rep_small _ _ _ H) as Hs. unfold total_of in Hs. rewrite layout_app, zlen_app in Hs.
  pose proof (zlen_nonneg (layout b)). change (zlen []) with 0 in Hs. lia.
Qed.

Lemma zlen_map {A B} (f : A -> B) l : zlen (map f l) = zlen l.
Proof. unfold zlen. by rewrite length_map. Qed.

(** Putting the links right after a change at a place. *)
Lemma rep_settle n zl a b mid m (Hrep : rep zl n (a ++ b)) b0 dl :
  b = dl ++ b0 -> Forall entry_ok mid -> linked (end_size 0 a) mid ->
  (mid = [] \/ exists e, mid = [e] /\ ps e = enc_size (end_size 0 a)) ->
  length_ok m (zlen a + zlen mid + zlen b0) ->
  total_of [] (a ++ b) + zlen (layout mid) + 4 * zlen (a ++ b) < 2 ^ 32 ->
  rep (blk m [] (a ++ mid ++ settle (end_size (end_size 0 a) mid) b0)) m
    (a ++ mid ++ settle (end_size (end_size 0 a) mid) b0).
Proof.
  intros -> Hmid Hlm Hshape Hlen Hmax. pose proof (rep_end_size _ _ _ _ Hrep) as Hes. destruct Hrep as [_ Hok Hl _ Hhd _].
  apply Forall_app in Hok as [Ha Hb]. apply Forall_app in Hb as [Hdl Hb]. rewrite !linked_app in Hl. destruct Hl as (Hla & _ & Hlb).
  unfold total_of in Hmax. rewrite !layout_app, !zlen_app in Hmax. change (zlen []) with 0 in Hmax.
  pose proof (zlen_nonneg (layout a)). pose proof (zlen_nonneg (layout dl)). pose proof (zlen_nonneg (layout b0)).
  pose proof (zlen_nonneg (layout mid)). pose proof (zlen_nonneg a). pose proof (zlen_nonneg dl). pose proof (zlen_nonneg b0).
  assert (0 <= end_size (end_size 0 a) mid < 2 ^ 32) as Hes2.
  { destruct Hshape as [->|(e & -> & _)]; [done|]. change (end_size (end_size 0 a) [e]) with (size e).
    rewrite zlen_layout_cons in *. change (zlen (layout [])) with 0 in *. pose proof (zlen_nonneg (raw e)) as Hrz. fold (size e) in Hrz. lia. }
  destruct (settle_spec _ _ b0 Hes2 Hb Hlb ltac:(lia)) as (HA & HB & HC & HD).
  constructor.
  - done.
  - by rewrite !Forall_app.
  - rewrite !linked_app. done.
  - replace (zlen _) with (zlen a + zlen mid + zlen b0); [done|]. rewrite !zlen_app. unfold zlen at 6. rewrite HC. unfold zlen. lia.
  - destruct a as [|x a]; [|exact Hhd]. cbn [app]. destruct Hshape as [->|(e & -> & Hpe)].
    + cbn [app]. destruct b0; [done|]. done.
    + cbn [app head_ok]. by rewrite Hpe.
  - unfold total_of. rewrite !layout_app, !zlen_app. change (zlen []) with 0. lia.
Qed.

(** Whether a string can be inserted at a place: see [insert_overread]. *)
Definition fits (zl : list Z) (p : Z) (s : list Z) : Prop :=
  rd zl p = Some ZIP_END \/ ZIP_DECODE_PREVLENSIZE zl p = Some 1 \/ 3 <= zlen (body s).

Lemma fits_room n a b s :
  Forall entry_ok b -> fits (blk n [] (a ++ b)) (10 + zlen (layout a)) s -> room (end_size 0 a) s b.
Proof.
  intros Hok Hfit. destruct b as [|nxt b]; [done|]. apply Forall_cons in Hok as [Hn _]. rewrite blk_skip_all in Hfit by done.
  cbn [app] in Hfit. set (P := layout a) in *. destruct Hfit as [Hf|[Hf|Hf]].
  - destruct (first_at n P nxt b Hn) as (c & Hc & Hne & _). rewrite Hc in Hf. congruence.
  - left. unfold blk in Hf. rewrite layout_cons in Hf.
    pose proof (prevlensize_at (hdr (total_of P (nxt :: b)) (tail_of P (nxt :: b)) n ++ P) (layout b ++ [ZIP_END]) nxt Hn) as H.
    rewrite zlen_app, zlen_hdr in H.
    replace (hdr (total_of P (nxt :: b)) (tail_of P (nxt :: b)) n ++ P ++ (raw nxt ++ layout b) ++ [ZIP_END])
      with ((hdr (total_of P (nxt :: b)) (tail_of P (nxt :: b)) n ++ P) ++ raw nxt ++ layout b ++ [ZIP_END]) in Hf by app_eq.
    rewrite H in Hf. by injection Hf.
  - right. unfold size, raw. rewrite zlen_app, new_prev_bytes. fold (enc_size (end_size 0 a)). cbn [text new_entry].
    destruct (enc_size_cases (end_size 0 a)); lia.
Qed.

(** The entries from the place of an insertion on. *)
Definition inserted (a b : list entry) (s : list Z) : list entry :=
  let new := new_entry (end_size 0 a) s in new :: settle (size new) b.

Lemma insert_entries uninit zl n a b s :
  rep zl n (a ++ b) -> room (end_size 0 a) s b -> zlen zl + zlen s + 4 * zlen (a ++ b) + 60 < 2 ^ 32 ->
  exists zl' n', __ziplistInsert uninit zl (10 + zlen (layout a)) s (zlen s) = Some zl' /\ rep zl' n' (a ++ inserted a b s).
Proof.
  intros Hrep Hroom Hmax. pose proof (rep_end_size _ _ _ _ Hrep) as Hes. pose proof (rep_zlen _ _ _ Hrep) as Hzl.
  pose proof (zlen_nonneg s). pose proof (zlen_nonneg (a ++ b)). rewrite Hzl in Hmax.
  pose proof Hrep as [-> Hok Hl Hlen _ _].
  assert (0 <= total_of [] (a ++ b)) by (unfold total_of; pose proof (zlen_nonneg (layout (a ++ b))); change (zlen []) with 0; lia).
  assert (zlen s < 2 ^ 32) as Hs by lia. set (new := new_entry (end_size 0 a) s).
  pose proof (new_entry_ok (end_size 0 a) s Hes Hs) as Hnew. pose proof (new_size (end_size 0 a) s Hes Hs) as Hsz. fold new in Hsz, Hnew.
  exists (blk (incr_length n 1) [] (a ++ new :: settle (size new) b)), (incr_length n 1). unfold inserted. fold new.
  pose proof (length_ok_range _ _ Hlen) as Hn. split_and!.
  - assert (b = [] \/ exists nxt rest, b = nxt :: rest) as [Hb|(nxt & rest & Hb)] by (destruct b; eauto).
    + apply insert_last; try done. lia.
    + apply (insert_before uninit n a b s Hok Hl Hs Hn ltac:(lia) nxt rest); done.
  - apply (rep_settle n _ a b [new] (incr_length n 1) Hrep b []).
    + done.
    + by constructor.
    + done.
    + right. by exists new.
    + change (zlen [new]) with 1. rewrite zlen_app in Hlen. unfold length_ok, incr_length, UINT16_MAX in *.
      destruct (Z.ltb_spec n 65535); lia.
    + rewrite zlen_layout_cons. change (zlen (layout [])) with 0. lia.
Qed.

Lemma insert_place uninit zl n a b s :
  rep zl n (a ++ b) -> room (end_size 0 a) s b -> zlen zl + zlen s + 4 * zlen (a ++ b) + 60 < 2 ^ 32 ->
  exists zl' n' b', __ziplistInsert uninit zl (10 + zlen (layout a)) s (zlen s) = Some zl' /\
    rep zl' n' (a ++ b') /\ map text b' = s :: map text b.
Proof.
  intros Hrep Hroom Hmax. destruct (insert_entries uninit zl n a b s Hrep Hroom Hmax) as (zl' & n' & Hrun & Hrep').
  exists zl', n', (inserted a b s). split; [done|]. split; [done|]. unfold inserted. cbn [map]. by rewrite settle_texts.
Qed.

Lemma ziplistInsert_ok uninit zl l1 l2 p s :
  place zl l1 l2 p -> fits zl p s -> zlen zl + zlen s + 4 * zlen (l1 ++ l2) + 60 < 2 ^ 32 ->
  exists zl', ziplistInsert uninit zl p s (zlen s) = Some zl' /\ place zl' l1 (s :: l2) p.
Proof.
  intros (n & a & b & Hrep & <- & <- & ->) Hfit Hmax. rewrite <- map_app, zlen_map in Hmax.
  pose proof Hrep as [Hb Hok _ _ _ _]. rewrite Hb in Hfit. apply Forall_app in Hok as [_ Hokb]. apply fits_room in Hfit; [|done].
  destruct (insert_place uninit zl n a b s Hrep Hfit Hmax) as (zl' & n' & b' & Hrun & Hrep' & Hb').
  exists zl'. split; [done|]. rewrite <- Hb'. by eapply rep_place.
Qed.

(** C24: [ziplistInsert] puts the string before the place it is given, whatever the
    lengths that have to be put right behind it, and stays in the block; only a
    place whose length field is wider than it has to be cannot take a very short
    entry. *)
Theorem ziplistInsert_refines uninit zl l1 l2 p s :
  place zl l1 l2 p -> fits zl p s -> zlen zl + zlen s + 4 * zlen (l1 ++ l2) + 60 < 2 ^ 32 ->
  exists zl', ziplistInsert uninit zl p s (zlen s) = Some zl' /\ place zl' l1 (s :: l2) p.
Proof. apply ziplistInsert_ok. Qed.

(** The end of the entries. *)
Lemma entry_end_ok zl n es : rep zl n es -> ZIPLIST_ENTRY_END zl = Some (10 + zlen (layout es)).
Proof.
  intros Hrep. unfold ZIPLIST_ENTRY_END. assert (ZIPLIST_BYTES zl = Some (total_of [] es)) as ->.
  { rewrite (rep_bytes _ _ _ Hrep). apply bytes_hdr. pose proof (rep_small _ _ _ Hrep). unfold total_of in *.
    pose proof (zlen_nonneg (layout es)). change (zlen []) with 0 in *. lia. }
  cbn [mbind option_bind]. f_equal. unfold total_of. change (zlen []) with 0. lia.
Qed.

Lemma ziplistPush_ok uninit zl l s where_ :
  ziplist_ok zl l -> zlen zl + zlen s + 4 * zlen l + 60 < 2 ^ 32 ->
  exists zl', ziplistPush uninit zl s (zlen s) where_ = Some zl' /\
    ziplist_ok zl' (match where_ with ZIPLIST_HEAD => s :: l | ZIPLIST_TAIL => l ++ [s] end).
Proof.
  intros (n & es & Hrep & <-)%ziplist_ok_rep Hmax. rewrite zlen_map in Hmax. unfold ziplistPush. destruct where_.
  - assert (room (end_size 0 []) s es) as Hroom by (destruct es; [done|left; apply (rep_head _ _ _ Hrep)]).
    destruct (insert_place uninit zl n [] es s Hrep Hroom Hmax) as (zl' & n' & b' & Hrun & Hrep' & Hb').
    exists zl'. cbn [mbind option_bind]. split; [exact Hrun|]. rewrite <- Hb'. by eapply rep_ziplist_ok.
  - assert (rep zl n (es ++ [])) as Hrep0 by by rewrite app_nil_r.
    destruct (insert_place uninit zl n es [] s Hrep0 I ltac:(by rewrite app_nil_r)) as (zl' & n' & b' & Hrun & Hrep' & Hb').
    exists zl'. rewrite (entry_end_ok zl n es Hrep). cbn [mbind option_bind]. split; [exact Hrun|].
    cbn [map] in Hb'. rewrite <- Hb', <- map_app. by eapply rep_ziplist_ok.
Qed.

(** [ziplistPush] adds the string at the chosen end, without any condition but the
    4 GB a ziplist can take. *)
Theorem ziplistPush_refines uninit zl l s where_ :
  ziplist_ok zl l -> zlen zl + zlen s + 4 * zlen l + 60 < 2 ^ 32 ->
  exists zl', ziplistPush uninit zl s (zlen s) where_ = Some zl' /\
    ziplist_ok zl' (match where_ with ZIPLIST_HEAD => s :: l | ZIPLIST_TAIL => l ++ [s] end).
Proof. apply ziplistPush_ok. Qed.

Lemma delete_entries uninit zl n a dl b num :
  rep zl n (a ++ dl ++ b) -> dl <> [] -> zlen dl <= num -> b = [] \/ zlen dl = num ->
  zlen zl + 4 * zlen (a ++ dl ++ b) + 8 < 2 ^ 32 ->
  exists zl' n', __ziplistDelete uninit zl (10 + zlen (layout a)) num = Some zl' /\ rep zl' n' (a ++ settle (end_size 0 a) b).
Proof.
  intros Hrep Hdl Hnum Hend Hmax. pose proof (rep_zlen _ _ _ Hrep) as Hzl. rewrite Hzl in Hmax.
  pose proof Hrep as [-> Hok Hl Hlen _ _]. pose proof (zlen_nonneg a). pose proof (zlen_nonneg dl). pose proof (zlen_nonneg b).
  exists (blk (incr_length n (- zlen dl)) [] (a ++ settle (end_size 0 a) b)), (incr_length n (- zlen dl)).
  pose proof (length_ok_range _ _ Hlen) as Hn. rewrite !zlen_app in *. split_and!.
  - apply delete_ok; try done. lia.
  - apply (rep_settle n _ a (dl ++ b) [] (incr_length n (- zlen dl)) Hrep b dl).
    + done.
    + constructor.
    + done.
    + by left.
    + change (zlen []) with 0. unfold length_ok, incr_length, UINT16_MAX in *. change (zlen (@nil entry)) with 0.
      destruct (Z.ltb_spec n 65535); lia.
    + rewrite !zlen_app. change (zlen (layout [])) with 0. lia.
Qed.

Lemma delete_place uninit zl n a dl b num :
  rep zl n (a ++ dl ++ b) -> dl <> [] -> zlen dl <= num -> b = [] \/ zlen dl = num ->
  zlen zl + 4 * zlen (a ++ dl ++ b) + 8 < 2 ^ 32 ->
  exists zl' n' b', __ziplistDelete uninit zl (10 + zlen (layout a)) num = Some zl' /\
    rep zl' n' (a ++ b') /\ map text b' = map text b /\ forall s, room (end_size 0 a) s b'.
Proof.
  intros Hrep Hdl Hnum Hend Hmax. destruct (delete_entries uninit zl n a dl b num Hrep Hdl Hnum Hend Hmax) as (zl' & n' & Hrun & Hrep').
  exists zl', n', (settle (end_size 0 a) b). split; [done|]. split; [done|]. split.
  - apply settle_texts.
  - intros s. pose proof (rep_end_size _ _ _ _ Hrep) as Hes. destruct b as [|e b]; [done|]. cbn [settle room ps].
    destruct (enc_size_cases (end_size 0 a)) as [[? ->]|[? Hsz]]; [by left|]. right.
    unfold size, raw. rewrite zlen_app, new_prev_bytes. fold (enc_size (end_size 0 a)). rewrite Hsz.
    pose proof (zlen_nonneg (body (text (new_entry (end_size 0 a) s)))). lia.
Qed.

Lemma ziplistDelete_ok uninit zl l1 s l2 p :
  place zl l1 (s :: l2) p -> zlen zl + 4 * zlen (l1 ++ s :: l2) + 8 < 2 ^ 32 ->
  exists zl', ziplistDelete uninit zl p = Some zl' /\ place zl' l1 l2 p.
Proof.
  intros (n & a & b & Hrep & <- & Hb & ->) Hmax. destruct b as [|e b]; [done|]. injection Hb as <- <-.
  assert (zlen (map text a ++ text e :: map text b) = zlen (a ++ [e] ++ b)) as Hz
    by (change (text e :: map text b) with (map text (e :: b)); by rewrite <- map_app, zlen_map).
  rewrite Hz in Hmax.
  destruct (delete_place uninit zl n a [e] b 1 Hrep) as (zl' & n' & b' & Hrun & Hrep' & Hb' & _); [done|done|by right|done|].
  exists zl'. split; [exact Hrun|]. rewrite <- Hb'. by eapply rep_place.
Qed.

(** After a deletion any string fits the place: the length field of the next entry has
    just been written. *)
Lemma ziplistDelete_then uninit zl l1 s l2 p :
  place zl l1 (s :: l2) p -> zlen zl + 4 * zlen (l1 ++ s :: l2) + 8 < 2 ^ 32 ->
  exists zl', ziplistDelete uninit zl p = Some zl' /\ place zl' l1 l2 p /\
    forall t, zlen zl' + zlen t + 4 * zlen (l1 ++ l2) + 60 < 2 ^ 32 ->
      exists zl2, ziplistInsert uninit zl' p t (zlen t) = Some zl2 /\ place zl2 l1 (t :: l2) p.
Proof.
  intros (n & a & b & Hrep & <- & Hb & ->) Hmax. destruct b as [|e b]; [done|]. injection Hb as <- <-.
  assert (zlen (map text a ++ text e :: map text b) = zlen (a ++ [e] ++ b)) as Hz
    by (change (text e :: map text b) with (map text (e :: b)); by rewrite <- map_app, zlen_map).
  rewrite Hz in Hmax.
  destruct (delete_place uninit zl n a [e] b 1 Hrep) as (zl' & n' & b' & Hrun & Hrep' & Hb' & Hroom); [done|done|by right|done|].
  exists zl'. split; [exact Hrun|]. rewrite <- Hb'. split; [by eapply rep_place|]. intros t Ht.
  rewrite <- map_app, zlen_map in Ht.
  destruct (insert_place uninit zl' n' a b' t Hrep' (Hroom t) Ht) as (zl2 & n2 & b2 & Hrun2 & Hrep2 & Hb2).
  exists zl2. split; [done|]. rewrite <- Hb2. by eapply rep_place.
Qed.

(** The block is made of bytes. *)
Lemma zipEncodeLength_bytes encoding n : int_enc encoding \/ encoding = 0 -> 0 <= n -> bytes_ok (zipEncodeLength encoding n).
Proof.
  intros He Hn. unfold zipEncodeLength. destruct (ZIP_IS_STR encoding).
  - destruct (Z.leb_spec n 63); [|destruct (Z.leb_spec n 16383)].
    + change ZIP_STR_06B with 0. rewrite Z.lor_0_l. repeat constructor; lia.
    + change 63 with (Z.ones 6). rewrite Z.land_ones by done. set (x := Z.shiftr n 8 mod 2 ^ 6).
      assert (0 <= x < 64) as Hx by (apply Z.mod_pos_bound; done). change ZIP_STR_14B with 64.
      pose proof (below (fun x => (0 <=? Z.lor 64 x) && (Z.lor 64 x <? 256)) 64 eq_refl x Hx) as H1. cbv beta in H1.
      rewrite andb_true_iff, Z.leb_le, Z.ltb_lt in H1. constructor; [exact H1|]. constructor; [apply land_byte_ok|constructor].
    + constructor; [done|]. repeat (constructor; [apply land_byte_ok|]). constructor.
  - constructor; [|done]. unfold byte_ok, int_enc in *. lia.
Qed.

Lemma body_bytes s : bytes_ok s -> bytes_ok (body s).
Proof.
  intros Hs. pose proof (zlen_nonneg s). unfold body, len_bytes, payload.
  destruct (zipTryEncoding_cases s) as [[_ ->]|(v & _ & _ & _ & ->)]; apply Forall_app_2.
  - apply zipEncodeLength_bytes; [by right|done].
  - done.
  - apply zipEncodeLength_bytes; [left; apply int_encoding_int|done].
  - unfold int_payload. repeat (destruct (_ =? _); [try apply Forall_drop; apply le_bytes_ok|]). constructor.
Qed.

Lemma raw_bytes e : entry_ok e -> bytes_ok (text e) -> bytes_ok (raw e).
Proof.
  intros [Hp _] Ht. apply Forall_app_2; [|by apply body_bytes]. unfold prev_bytes, ZIP_BIGLEN in *.
  destruct Hp as [[-> Hp]|[-> Hp]]; cbn [Z.eqb Pos.eqb]; constructor; unfold byte_ok; try lia; [constructor|apply le_bytes_ok].
Qed.

Lemma ziplist_ok_bytes zl l : ziplist_ok zl l -> Forall (Forall byte_ok) l -> bytes_ok zl.
Proof.
  intros (n & es & Hrep & <-)%ziplist_ok_rep Hl. rewrite (rep_bytes _ _ _ Hrep). unfold blk, hdr. cbn [app].
  repeat apply Forall_app_2; try apply le_bytes_ok; [|by repeat constructor]. pose proof (rep_ok _ _ _ Hrep) as Hok. clear Hrep.
  induction Hok as [|e es He _ IH]; [constructor|]. cbn [map] in Hl. apply Forall_cons in Hl as [Ht Hl]. rewrite layout_cons.
  apply Forall_app_2; [by apply raw_bytes|by apply IH].
Qed.

(** The block begins with its size. *)
Lemma ziplist_ok_total zl l : ziplist_ok zl l -> exists rest, zl = le_bytes 4 (zlen zl) ++ rest /\ ziplistBlobLen zl = Some (zlen zl).
Proof.
  intros (n & es & Hrep & <-)%ziplist_ok_rep. pose proof (rep_small _ _ _ Hrep) as Hs. pose proof (rep_zlen _ _ _ Hrep) as Hz.
  pose proof (rep_bytes _ _ _ Hrep) as Hzl. unfold blk, hdr in Hzl. rewrite <- !app_assoc, <- Hz in Hzl.
  eexists. split; [exact Hzl|]. assert (forall n m rest, m = le_bytes 4 n ++ rest -> 0 <= n < 2 ^ 32 -> ZIPLIST_BYTES m = Some n) as Hread.
  { intros k m rest -> Hk. unfold ZIPLIST_BYTES. rewrite (rd_block_mid [] (le_bytes 4 k) rest) by done.
    cbn [fmap option_fmap option_map]. by rewrite le_val_uwrap, uwrap_small. }
  eapply Hread; [exact Hzl|]. rewrite Hz. pose proof (zlen_nonneg (layout es)). unfold total_of in *. change (zlen []) with 0 in *. lia.
Qed.

(** A bound on the block by what it holds. *)
Definition weight (l : list (list Z)) : Z := foldr (fun s acc => zlen s + 18 + acc) 11 l.

Lemma weight_cons s l : weight (s :: l) = zlen s + 18 + weight l.
Proof. done. Qed.

Lemma weight_app l1 l2 : weight (l1 ++ l2) = weight l1 + weight l2 - 11.
Proof.
  induction l1 as [|s l1 IH]; [cbn [app]; change (weight []) with 11; lia|].
  cbn [app]. rewrite !weight_cons. lia.
Qed.

Lemma weight_zlen l : 11 + 18 * zlen l <= weight l.
Proof.
  induction l as [|s l IH]; [done|]. rewrite weight_cons, zlen_cons. pose proof (zlen_nonneg s). lia.
Qed.

Lemma size_text e : entry_ok e -> size e <= zlen (text e) + 18.
Proof.
  intros He. rewrite size_eq by done. pose proof (lsz_bounds (text e)). pose proof (zlen_nonneg (text e)).
  assert (ps e <= 5) by (destruct (ps_cases e He); lia). unfold payload.
  destruct (zipTryEncoding_cases (text e)) as [[_ ->]|(v & _ & _ & _ & ->)]; [lia|]. rewrite zlen_int_payload.
  assert (zipIntSize (int_encoding v) <= 8); [|lia]. unfold zipIntSize. repeat (destruct (_ =? _); [lia|]). lia.
Qed.

Lemma ziplist_ok_weight zl l : ziplist_ok zl l -> zlen zl <= weight l.
Proof.
  intros (n & es & Hrep & <-)%ziplist_ok_rep. rewrite (rep_zlen _ _ _ Hrep). unfold total_of. change (zlen []) with 0.
  pose proof (rep_ok _ _ _ Hrep) as Hok. clear Hrep. induction Hok as [|e es He Hok IH]; [done|].
  rewrite zlen_layout_cons. cbn [map]. rewrite weight_cons. pose proof (size_text e He). unfold size in *. lia.
Qed.

(** C25: [ziplistDelete] removes the string at the place it is given; the same offset is
    then the place of the next one, so that a list can be filtered in one pass. *)
Theorem ziplistDelete_refines uninit zl l1 s l2 p :
  place zl l1 (s :: l2) p -> zlen zl + 4 * zlen (l1 ++ s :: l2) + 8 < 2 ^ 32 ->
  exists zl', ziplistDelete uninit zl p = Some zl' /\ place zl' l1 l2 p.
Proof. apply ziplistDelete_ok. Qed.

(** ** Access *)

Lemma forward_ok es : forall Q index fuel,
  Forall entry_ok es -> zlen (layout es) < 2 ^ 32 -> 0 <= index -> (length es <= fuel)%nat ->
  forward_loop fuel (Q ++ layout es ++ [ZIP_END]) (zlen Q) index =
    if index <? zlen es then Some (zlen Q + zlen (layout (take (Z.to_nat index) es)), -1)
    else Some (zlen Q + zlen (layout es), index - zlen es).
Proof.
  induction es as [|e es IH]; intros Q index fuel Hok Hmax Hi Hfuel.
  - cbn [layout map concat app]. change (zlen (@nil entry)) with 0. destruct (Z.ltb_spec index 0); [lia|].
    change (zlen []) with 0. rewrite Z.add_0_r, Z.sub_0_r.
    destruct fuel; cbn [forward_loop]; rewrite rd_at; done.
  - apply Forall_cons in Hok as [He Hok]. rewrite zlen_cons, zlen_layout_cons in *. rewrite layout_cons, <- app_assoc.
    pose proof (zlen_nonneg es). pose proof (size_pos e He). pose proof (zlen_nonneg (layout es)).
    destruct fuel as [|fuel]; [simpl in Hfuel; lia|]. cbn [forward_loop].
    destruct (first_byte Q (layout es ++ [ZIP_END]) e He) as (b & -> & Hb & _). cbn [mbind option_bind].
    destruct (Z.eqb_spec b ZIP_END); [done|]. destruct (Z.eqb_spec index 0) as [->|Hi0].
    { destruct (Z.ltb_spec 0 (1 + zlen es)); [|lia]. change (take (Z.to_nat 0) (e :: es)) with (@nil entry). change (zlen (layout [])) with 0. do 2 f_equal. lia. }
    rewrite zipRawEntryLength_at by (done || lia). cbn [mbind option_bind].
    specialize (IH (Q ++ raw e) (index - 1) fuel Hok). rewrite <- app_assoc, zlen_app in IH. fold (size e) in IH.
    rewrite IH; [|lia|lia|simpl in Hfuel; lia].
    replace (Z.to_nat index) with (S (Z.to_nat (index - 1))) by lia. cbn [take]. rewrite zlen_layout_cons.
    destruct (Z.ltb_spec (index - 1) (zlen es)), (Z.ltb_spec index (1 + zlen es)); try lia; do 2 f_equal; lia.
Qed.

(** The backward walk: [a] is what is left before the entry at [p]. *)
Lemma backward_ok h S a : forall x c index fuel,
  zlen h = 10 -> Forall entry_ok (a ++ x :: c) -> linked 0 (a ++ x :: c) -> 0 <= index -> (length a <= fuel)%nat ->
  exists index',
    backward_loop fuel (h ++ layout (a ++ x :: c) ++ S) (10 + zlen (layout a)) (end_size 0 a) index =
      Some (10 + zlen (layout (take (length a - Z.to_nat index) a)), index') /\ (0 < index' <-> zlen a < index).
Proof.
  induction a as [|y a IH] using rev_ind; intros x c index fuel Hh Hok Hl Hi Hfuel.
  - cbn [length Nat.sub take layout map concat app end_size last]. exists index. unfold end_size. cbn [last].
    split; [by destruct fuel|]. change (zlen (@nil entry)) with 0. lia.
  - rewrite <- app_assoc in Hok, Hl. cbn [app] in Hok, Hl. pose proof Hok as Hoky. apply Forall_app in Hoky as [_ Hoky].
    apply Forall_cons in Hoky as [Hy _]. pose proof (size_pos y Hy) as Hsy.
    unfold end_size. rewrite last_snoc. pose proof (zlen_nonneg a).
    assert (zlen (a ++ [y]) = zlen a + 1) as Hza by apply zlen_app.
    assert (length (a ++ [y]) = length a + 1)%nat as Hla by apply length_app. rewrite Hza, Hla in *. destruct fuel as [|fuel]; [lia|]. cbn [backward_loop].
    destruct (Z.gtb_spec (size y) 0); [|lia]. destruct (Z.eqb_spec index 0) as [->|Hi0].
    { exists (-1). split; [|lia]. change (Z.to_nat 0) with O. rewrite take_ge by lia. done. }
    rewrite <- app_assoc. cbn [app].
    assert (10 + zlen (layout (a ++ [y])) - size y = 10 + zlen (layout a)) as ->
      by (rewrite layout_app, zlen_app, zlen_layout_cons; change (zlen (layout [])) with 0; lia).
    assert (ZIP_DECODE_PREVLEN (h ++ layout (a ++ y :: x :: c) ++ S) (10 + zlen (layout a)) = Some (ps y, pv y)) as ->.
    { pose proof (prevlen_at (h ++ layout a) (layout (x :: c) ++ S) y Hy) as H'. rewrite zlen_app, Hh in H'. rewrite <- H'.
      f_equal. rewrite layout_app, !layout_cons. app_eq. }
    cbn [mbind option_bind]. pose proof Hl as Hly. rewrite linked_app in Hly. destruct Hly as [_ [-> _]].
    destruct (IH y (x :: c) (index - 1) fuel Hh Hok Hl ltac:(lia) ltac:(lia)) as (i' & Hrun & Hi'). exists i'.
    split; [|lia]. rewrite Hrun. do 5 f_equal.
    replace (length a + 1 - Z.to_nat index)%nat with (length a - Z.to_nat (index - 1))%nat by lia.
    by rewrite take_app_le by lia.
Qed.

Lemma rep_tail zl n es : rep zl n es -> ZIPLIST_ENTRY_TAIL zl = Some (10 + zlen (layout (removelast es))).
Proof.
  intros H. rewrite (rep_bytes _ _ _ H). pose proof (rep_small _ _ _ H) as Hs. unfold blk, ZIPLIST_ENTRY_TAIL. rewrite tail_hdr.
  - done.
  - unfold tail_of, total_of in *. change (zlen []) with 0 in *. pose proof (zlen_nonneg (layout (removelast es))).
    assert (zlen (layout (removelast es)) <= zlen (layout es)); [|lia].
    destruct es as [|e es]; [done|]. apply zlen_removelast. pose proof (rep_ok _ _ _ H) as Hok. by apply Forall_cons in Hok as [He _].
Qed.

(** The byte at a place. *)
Lemma rep_first zl n a b : rep zl n (a ++ b) ->
  exists c, rd zl (10 + zlen (layout a)) = Some c /\ (c = ZIP_END <-> b = []).
Proof.
  intros H. pose proof (rep_ok _ _ _ H) as Hok. apply Forall_app in Hok as [_ Hok]. rewrite (rep_bytes _ _ _ H).
  destruct b as [|e b].
  - rewrite app_nil_r. exists ZIP_END. split; [|done]. unfold blk. cbn [app]. rewrite app_assoc. apply rd_here.
    by rewrite zlen_app, zlen_hdr.
  - apply Forall_cons in Hok as [He _]. rewrite blk_skip_all by done. destruct (first_at n ([] ++ layout a) e b He) as (c & Hc & Hne & _).
    exists c. split; [exact Hc|]. done.
Qed.

Lemma ziplistIndex_ok zl l i :
  ziplist_ok zl l ->
  let j := if i <? 0 then zlen l + i else i in
  exists r, ziplistIndex zl i = Some r /\
    match r with
    | Some p => 0 <= j < zlen l /\ place zl (take (Z.to_nat j) l) (drop (Z.to_nat j) l) p
    | None => j < 0 \/ zlen l <= j
    end.
Proof.
  intros (n & es & Hrep & <-)%ziplist_ok_rep j.
  pose proof Hrep as [Hzl Hok Hl _ _ Hsmall]. pose proof (layout_long es Hok) as Hlong. pose proof (zlen_nonneg es).
  assert (length es <= length zl)%nat as Hfuel.
  { pose proof (rep_zlen _ _ _ Hrep) as Hz. unfold total_of in Hz. change (zlen []) with 0 in Hz. unfold zlen in *. lia. }
  assert (zlen (layout es) < 2 ^ 32) as Hlay by (unfold total_of in Hsmall; change (zlen []) with 0 in Hsmall; lia).
  assert (forall k, (k <= length es)%nat -> place zl (take k (map text es)) (drop k (map text es)) (10 + zlen (layout (take k es)))) as Hpl.
  { intros k Hk. rewrite <- (take_drop k es) in Hrep at 1. rewrite <- !fmap_take, <- !fmap_drop. by eapply rep_place. }
  unfold ziplistIndex, j. rewrite ?zlen_map. destruct (Z.ltb_spec i 0) as [Hneg|Hpos].
  - rewrite (rep_tail _ _ _ Hrep). cbn [mbind option_bind]. destruct es as [|x a _] using rev_ind.
    + destruct (rep_first zl n [] [] Hrep) as (c & Hc & Hce). cbn [removelast layout map concat].
      change (10 + zlen []) with (10 + zlen (layout [])). rewrite Hc. cbn [mbind option_bind].
      assert (c = ZIP_END) as -> by by apply Hce. change (ZIP_END =? ZIP_END) with true. cbn [negb mbind option_bind].
      rewrite Hc. cbn [mbind option_bind]. change (ZIP_END =? ZIP_END) with true. exists None. split; [done|].
      change (zlen (@nil entry)) with 0. lia.
    + rewrite removelast_last. destruct (rep_first zl n a [x] Hrep) as (c & Hc & Hce). rewrite Hc. cbn [mbind option_bind].
      destruct (Z.eqb_spec c ZIP_END) as [->|_]; [by destruct Hce as [Hce _]; specialize (Hce eq_refl)|].
      cbn [negb]. rewrite zlen_app in *. change (zlen [x]) with 1 in *. pose proof (zlen_nonneg a).
      set (h := hdr (total_of [] (a ++ [x])) (tail_of [] (a ++ [x])) n).
      assert (zl = h ++ layout (a ++ [x]) ++ [ZIP_END]) as Hzl' by (rewrite Hzl; done).
      pose proof Hok as Hokx. apply Forall_app in Hokx as [_ Hokx]. apply Forall_cons in Hokx as [Hx _].
      pose proof (prevlen_at (h ++ layout a) [ZIP_END] x Hx) as Hpv. rewrite zlen_app in Hpv. change (zlen h) with 10 in Hpv.
      assert ((h ++ layout a) ++ raw x ++ [ZIP_END] = zl) as Hzz
        by (rewrite Hzl', layout_app, layout_cons; cbn [layout map concat]; rewrite app_nil_r; app_eq).
      rewrite Hzz in Hpv. rewrite Hpv. cbn [mbind option_bind]. pose proof Hl as Hlx. rewrite linked_app in Hlx. destruct Hlx as [_ [-> _]].
      rewrite length_app in Hfuel. destruct (backward_ok h [ZIP_END] a x [] (- i - 1) (length zl) eq_refl Hok Hl ltac:(lia) ltac:(lia))
        as (i' & Hrun & Hi'). rewrite <- Hzl' in Hrun. rewrite Hrun. cbn [mbind option_bind].
      set (k := (length a - Z.to_nat (- i - 1))%nat) in *.
      assert (take k a = take k (a ++ [x])) as Htk by (rewrite take_app_le by (unfold k; lia); done). rewrite Htk.
      rewrite <- (take_drop k (a ++ [x])) in Hrep. destruct (rep_first _ _ _ _ Hrep) as (c' & Hc' & Hce'). rewrite Hc'.
      cbn [mbind option_bind]. destruct (Z.eqb_spec c' ZIP_END) as [Hce2|_].
      { apply Hce' in Hce2. apply (f_equal length) in Hce2. rewrite length_drop, length_app in Hce2. simpl in Hce2. unfold k in Hce2. lia. }
      cbn [orb]. destruct (Z.gtb_spec i' 0); eexists; (split; [done|]).
      * left. lia.
      * assert (- i - 1 <= zlen a) as Hle by lia. split; [lia|].
        assert (Z.to_nat (zlen a + 1 + i) = k) as -> by (unfold k, zlen in *; lia). apply Hpl. unfold k. rewrite length_app. simpl. lia.
  - set (h := hdr (total_of [] es) (tail_of [] es) n).
    pose proof (forward_ok es h i (length zl) Hok Hlay ltac:(lia) Hfuel) as Hf.
    assert (h ++ layout es ++ [ZIP_END] = zl) as Hzz by (by rewrite Hzl). rewrite Hzz in Hf. change (zlen h) with ZIPLIST_ENTRY_HEAD in Hf.
    rewrite Hf. destruct (Z.ltb_spec i (zlen es)) as [Hlt|Hge]; cbn [mbind option_bind].
    + set (k := Z.to_nat i). pose proof Hrep as Hrep2. rewrite <- (take_drop k es) in Hrep2.
      destruct (rep_first _ _ _ _ Hrep2) as (c & Hc & Hce). change ZIPLIST_ENTRY_HEAD with 10. rewrite Hc. cbn [mbind option_bind].
      destruct (Z.eqb_spec c ZIP_END) as [Hce2|_].
      { apply Hce in Hce2. apply (f_equal length) in Hce2. rewrite length_drop in Hce2. simpl in Hce2. unfold k, zlen in *. lia. }
      eexists. split; [done|]. split; [lia|]. apply Hpl. unfold k, zlen in *. lia.
    + assert (rep zl n (es ++ [])) as Hrep2 by by rewrite app_nil_r.
      destruct (rep_first _ _ _ _ Hrep2) as (c & Hc & Hce). change ZIPLIST_ENTRY_HEAD with 10. rewrite Hc. cbn [mbind option_bind].
      assert (c = ZIP_END) as -> by by apply Hce. change (ZIP_END =? ZIP_END) with true. exists None. split; [done|]. lia.
Qed.

(** [ziplistIndex] finds the place of the string with the given index, from the end
    when it is negative, and gives NULL when there is none. *)
Theorem ziplistIndex_refines zl l i :
  ziplist_ok zl l ->
  let j := if i <? 0 then zlen l + i else i in
  exists r, ziplistIndex zl i = Some r /\
    match r with
    | Some p => 0 <= j < zlen l /\ place zl (take (Z.to_nat j) l) (drop (Z.to_nat j) l) p
    | None => j < 0 \/ zlen l <= j
    end.
Proof. apply ziplistIndex_ok. Qed.

(** ** Reading entries *)

Lemma is_str s : ZIP_IS_STR (enc_of s) = match code s with Some _ => false | None => true end.
Proof.
  unfold enc_of. destruct (zipTryEncoding_cases s) as [[_ ->]|(v & _ & _ & _ & ->)].
  - destruct (_ <=? _); [done|]. by destruct (_ <=? _).
  - apply int_not_str, int_encoding_int.
Qed.

(** What [ziplistGet] says of a string. *)
Definition reads (s : list Z) (r : list Z + Z) : Prop :=
  match r with inl t => t = s | inr v => sfits 64 v /\ signed_numeral s v end.

Section value_at.
Context (P T : list Z) (e : entry) (Hok : entry_ok e).
Local Abbreviation m := (P ++ raw e ++ T).

Lemma payload_split : m = (P ++ prev_bytes e ++ len_bytes (text e)) ++ payload (text e) ++ T /\
  zlen (P ++ prev_bytes e ++ len_bytes (text e)) = zlen P + ps e + lsz (text e).
Proof using Hok.
  split; [unfold raw, body; app_eq|]. rewrite !zlen_app, zlen_prev_bytes by done. fold (lsz (text e)). lia.
Qed.

Lemma string_at : code (text e) = None ->
  rd_block m (zlen P + ps e + lsz (text e)) (zlen (payload (text e))) = Some (text e).
Proof using Hok.
  intros Hc. destruct payload_split as [-> Hz]. unfold payload. rewrite Hc.
  by apply (rd_block_mid (P ++ prev_bytes e ++ len_bytes (text e)) (text e) T).
Qed.

Lemma integer_at v : code (text e) = Some (v, int_encoding v) -> sfits 64 v ->
  zipLoadInteger m (zlen P + ps e + lsz (text e)) (int_encoding v) = Some v.
Proof using Hok.
  intros Hc Hv. destruct payload_split as [-> Hz]. unfold payload. rewrite Hc, <- Hz. by apply load_payload.
Qed.
End value_at.

(** The bytes of a ziplist around a place. *)
Lemma rep_split zl n a e b : rep zl n (a ++ e :: b) ->
  exists P T, zl = P ++ raw e ++ T /\ zlen P = 10 + zlen (layout a) /\ entry_ok e.
Proof.
  intros H. pose proof (rep_ok _ _ _ H) as Hok. apply Forall_app in Hok as [_ Hok]. apply Forall_cons in Hok as [He _].
  exists (hdr (total_of [] (a ++ e :: b)) (tail_of [] (a ++ e :: b)) n ++ layout a), (layout b ++ [ZIP_END]).
  split_and!; [|by rewrite zlen_app, zlen_hdr|done]. rewrite (rep_bytes _ _ _ H). unfold blk. rewrite layout_app, layout_cons. app_eq.
Qed.

Lemma ziplistGet_ok zl l1 l2 p :
  place zl l1 l2 p ->
  exists r, ziplistGet zl (Some p) = Some r /\
    match l2 with [] => r = None | s :: _ => exists v, r = Some v /\ reads s v end.
Proof.
  intros (n & a & b & Hrep & _ & <- & ->). destruct (rep_first _ _ _ _ Hrep) as (c & Hc & Hce). unfold ziplistGet.
  rewrite Hc. cbn [mbind option_bind]. destruct b as [|e b].
  - assert (c = ZIP_END) as -> by by apply Hce. by exists None.
  - destruct (Z.eqb_spec c ZIP_END) as [->|_]; [by destruct Hce as [Hce _]; specialize (Hce eq_refl)|].
    destruct (rep_split _ _ _ _ _ Hrep) as (P & T & -> & <- & He). rewrite zipEntry_at by done.
    cbn [mbind option_bind encoding headersize len map]. rewrite is_str, Z.add_assoc.
    destruct (zipTryEncoding_cases (text e)) as [[_ Hcd]|(v & Hv & Hnum & _ & Hcd)]; rewrite Hcd.
    + rewrite string_at by done. eexists. split; [done|]. by eexists.
    + unfold enc_of. rewrite Hcd, integer_at by done. eexists. split; [done|]. eexists. by split; [done|].
Qed.

(** [ziplistGet] reads back exactly the string that was inserted, as bytes or as the
    integer it is the numeral of, and nothing at the end of the list. *)
Theorem ziplistGet_refines zl l1 l2 p :
  place zl l1 l2 p ->
  exists r, ziplistGet zl (Some p) = Some r /\
    match l2 with [] => r = None | s :: _ => exists v, r = Some v /\ reads s v end.
Proof. apply ziplistGet_ok. Qed.

(** ** Search *)

(** The reference: the first string equal to [v], looking at one in [skip + 1]. *)
Fixpoint find_index (v : list Z) (skip k : Z) (l : list (list Z)) : option nat :=
  match l with
  | [] => None
  | s :: l =>
      if k =? 0 then if decide (s = v) then Some O else S <$> find_index v skip skip l
      else S <$> find_index v skip (k - 1) l
  end.

(** What is known of the searched string. *)
Definition cached (v : list Z) (vencoding vll : Z) : Prop :=
  vencoding = 0 \/ match code v with Some (w, enc) => vencoding = enc /\ vll = w | None => vencoding = 255 end.

Lemma code_eq s v w : code s = Some (w, int_encoding w) -> signed_numeral s w ->
  match code v with Some (w', _) => w = w' <-> s = v | None => s <> v end.
Proof.
  intros Hs Hn. destruct (code v) as [[w' enc']|] eqn:Hc; [|intros ->; congruence].
  destruct (zipTryEncoding_cases v) as [[_ H]|(w2 & _ & Hn' & _ & H)]; [congruence|].
  assert (w2 = w') as <- by congruence. split; [intros ->; by eapply signed_numeral_unique|]. intros ->. congruence.
Qed.

Lemma find_ok v skip es : forall Q k vencoding vll fuel,
  Forall entry_ok es -> 0 <= k -> 0 <= skip -> cached v vencoding vll -> (length es <= fuel)%nat ->
  find_loop fuel (Q ++ layout es ++ [ZIP_END]) (zlen Q) v (zlen v) skip k vencoding vll =
    Some ((fun i => zlen Q + zlen (layout (take i es))) <$> find_index v skip k (map text es)).
Proof.
  induction es as [|e es IH]; intros Q k vencoding vll fuel Hok Hk Hskip Hc Hfuel.
  { cbn [layout map concat app find_index]. destruct fuel; cbn [find_loop]; rewrite rd_at; done. }
  apply Forall_cons in Hok as [He Hok]. rewrite layout_cons, <- app_assoc.
  destruct fuel as [|fuel]; [simpl in Hfuel; lia|]. cbn [find_loop].
  destruct (first_byte Q (layout es ++ [ZIP_END]) e He) as (b & -> & Hb & _). cbn [mbind option_bind].
  destruct (Z.eqb_spec b ZIP_END); [done|]. rewrite prevlensize_at by done. cbn [mbind option_bind].
  rewrite length_at by done. cbn [mbind option_bind map find_index].
  assert (forall k' ve vl, 0 <= k' -> cached v ve vl ->
    find_loop fuel (Q ++ raw e ++ layout es ++ [ZIP_END]) (zlen Q + ps e + lsz (text e) + zlen (payload (text e))) v (zlen v) skip k' ve vl =
    Some ((fun i => zlen Q + zlen (layout (take i (e :: es)))) <$> (S <$> find_index v skip k' (map text es)))) as Hrec.
  { intros k' ve vl Hk' Hc'. specialize (IH (Q ++ raw e) k' ve vl fuel Hok Hk' Hskip Hc' ltac:(simpl in Hfuel; lia)).
    rewrite <- app_assoc, zlen_app in IH. fold (size e) in IH. rewrite (size_eq e He), !Z.add_assoc in IH. rewrite IH. f_equal.
    destruct (find_index v skip k' (map text es)) as [i|]; [|done]. cbn [fmap option_fmap option_map take].
    rewrite zlen_layout_cons, (size_eq e He). f_equal. lia. }
  destruct (Z.eqb_spec k 0) as [->|Hk0]; [|by apply Hrec; [lia|]]. rewrite is_str.
  destruct (zipTryEncoding_cases (text e)) as [[_ Hcd]|(w & Hw & Hnum & _ & Hcd)]; rewrite Hcd.
  - assert (payload (text e) = text e) as Hpl by (unfold payload; by rewrite Hcd).
    assert ((if zlen (payload (text e)) =? zlen v
             then a ← rd_block (Q ++ raw e ++ layout es ++ [ZIP_END]) (zlen Q + ps e + lsz (text e)) (zlen v);
                  b ← rd_block v 0 (zlen v); Some (bool_decide (a = b))
             else Some false) = Some (bool_decide (text e = v))) as ->.
    { pose proof (string_at Q (layout es ++ [ZIP_END]) e He Hcd) as Hs. rewrite Hpl in *.
      destruct (Z.eqb_spec (zlen (text e)) (zlen v)) as [Hz|Hz].
      - rewrite Hz in Hs. rewrite Hs.
        cbn [mbind option_bind]. by rewrite (rd_block_mid [] v []) by (done || by rewrite app_nil_r).
      - rewrite bool_decide_false; [done|]. intros Heq. apply Hz. by rewrite Heq. }
    cbn [mbind option_bind]. destruct (decide (text e = v)) as [Hev|Hne].
    + rewrite bool_decide_true by done. cbn [fmap option_fmap option_map take layout map concat]. f_equal. f_equal.
      change (zlen (@nil Z)) with 0. lia.
    + rewrite bool_decide_false by done. by apply Hrec.
  - pose proof (code_eq (text e) v w Hcd Hnum) as Heq.
    assert (exists ve vl, (if vencoding =? 0
       then e ← zipTryEncoding v (zlen v);
            let '(vencoding, vll) := match e with Some (v, enc) => (enc, v) | None => (255, vll) end in
            if vencoding =? 0 then None else Some (vencoding, vll)
       else Some (vencoding, vll)) = Some (ve, vl) /\ cached v ve vl /\ ve <> 0) as (ve & vl & -> & Hcv & Hve).
    { destruct (Z.eqb_spec vencoding 0) as [->|Hnz]; [|by exists vencoding, vll].
      rewrite zipTry_code. cbn [mbind option_bind]. unfold cached.
      destruct (zipTryEncoding_cases v) as [[_ ->]|(w2 & _ & _ & _ & ->)]; [by exists 255, vll; split; [|split; [right|]]|].
      exists (int_encoding w2), w2. pose proof (int_encoding_decode _ (int_encoding_int w2)) as [_ Hr].
      destruct (Z.eqb_spec (int_encoding w2) 0); [lia|]. split; [done|]. split; [by right|done]. }
    cbn [mbind option_bind]. unfold enc_of at 1. rewrite Hcd, integer_at by done. cbn [mbind option_bind].
    destruct Hcv as [|Hcv]; [done|].
    assert ((if negb (ve =? 255) then Some (w =? vl) else Some false) = Some (bool_decide (text e = v))) as ->.
    { destruct (zipTryEncoding_cases v) as [[_ Hv]|(w2 & _ & _ & _ & Hv)]; rewrite Hv in Hcv, Heq.
      - subst ve. cbn [Z.eqb Pos.eqb negb]. by rewrite bool_decide_false.
      - destruct Hcv as [-> ->]. pose proof (int_encoding_decode _ (int_encoding_int w2)) as [_ Hr].
        destruct (Z.eqb_spec (int_encoding w2) 255); [lia|]. cbn [negb]. f_equal.
        destruct (Z.eqb_spec w w2) as [Hww|Hww]; symmetry; [apply bool_decide_eq_true|apply bool_decide_eq_false]; tauto. }
    cbn [mbind option_bind]. destruct (decide (text e = v)) as [Hev|Hne].
    + rewrite bool_decide_true by done. cbn [fmap option_fmap option_map take layout map concat]. f_equal. f_equal.
      change (zlen (@nil Z)) with 0. lia.
    + rewrite bool_decide_false by done. apply Hrec; [done|by right].
Qed.

Lemma rep_fuel zl n es : rep zl n es -> (length es <= length zl)%nat /\ zlen (layout es) < 2 ^ 32.
Proof.
  intros H. pose proof (layout_long es (rep_ok _ _ _ H)). pose proof (rep_zlen _ _ _ H) as Hz. pose proof (rep_small _ _ _ H) as Hs.
  unfold total_of in Hz, Hs. change (zlen []) with 0 in *. pose proof (zlen_nonneg es). unfold zlen in *. lia.
Qed.

Lemma ziplistFind_ok zl l1 l2 p v skip :
  place zl l1 l2 p -> 0 <= skip ->
  exists r, ziplistFind zl p v (zlen v) skip = Some r /\
    match find_index v skip 0 l2 with
    | None => r = None
    | Some i => exists q, r = Some q /\ place zl (l1 ++ take i l2) (drop i l2) q
    end.
Proof.
  intros (n & a & b & Hrep & <- & <- & ->) Hskip. destruct (rep_fuel _ _ _ Hrep) as [Hf _].
  pose proof (rep_ok _ _ _ Hrep) as Hok. apply Forall_app in Hok as [_ Hok]. rewrite length_app in Hf.
  set (h := hdr (total_of [] (a ++ b)) (tail_of [] (a ++ b)) n).
  pose proof (find_ok v skip b (h ++ layout a) 0 0 0 (length zl) Hok ltac:(lia) Hskip (or_introl eq_refl) ltac:(lia)) as Hrun.
  assert ((h ++ layout a) ++ layout b ++ [ZIP_END] = zl) as Hzl
    by (rewrite (rep_bytes _ _ _ Hrep); unfold blk; rewrite layout_app; app_eq).
  rewrite Hzl, zlen_app in Hrun. change (zlen h) with 10 in Hrun. unfold ziplistFind. rewrite Hrun.
  destruct (find_index v skip 0 (map text b)) as [i|] eqn:Hi; [|by eexists]. eexists. split; [done|]. eexists. split; [done|].
  rewrite <- (take_drop i b), app_assoc in Hrep. pose proof (rep_place _ _ _ _ Hrep) as Hp.
  rewrite map_app, layout_app, zlen_app, Z.add_assoc in Hp. rewrite <- !fmap_take, <- !fmap_drop. exact Hp.
Qed.

(** [ziplistFind], from a place on, finds what the reference finds: integers match
    by value and strings by their bytes, which comes to the equality of the strings. *)
Theorem ziplistFind_refines zl l1 l2 p v skip :
  place zl l1 l2 p -> 0 <= skip ->
  exists r, ziplistFind zl p v (zlen v) skip = Some r /\
    match find_index v skip 0 l2 with
    | None => r = None
    | Some i => exists q, r = Some q /\ place zl (l1 ++ take i l2) (drop i l2) q
    end.
Proof. apply ziplistFind_ok. Qed.

(** [ziplistCompare] decides the equality of the strings. *)
Lemma ziplistCompare_ok zl l1 s l2 p t : place zl l1 (s :: l2) p ->
  ziplistCompare zl p t (zlen t) = Some (bool_decide (s = t)).
Proof.
  intros (n & a & b & Hrep & _ & Hb & ->). destruct b as [|e b]; [done|]. injection Hb as <- _.
  destruct (rep_split _ _ _ _ _ Hrep) as (P & T & -> & <- & He). unfold ziplistCompare.
  destruct (first_byte P T e He) as (c & -> & Hc & _). cbn [mbind option_bind]. destruct (Z.eqb_spec c ZIP_END); [done|].
  rewrite zipEntry_at by done. cbn [mbind option_bind encoding headersize len]. rewrite is_str, Z.add_assoc.
  destruct (zipTryEncoding_cases (text e)) as [[_ Hcd]|(w & Hw & Hnum & _ & Hcd)]; rewrite Hcd.
  - pose proof (string_at P T e He Hcd) as Hs. assert (payload (text e) = text e) as Hpl by (unfold payload; by rewrite Hcd).
    rewrite Hpl in *. destruct (Z.eqb_spec (zlen (text e)) (zlen t)) as [Hz|Hz].
    + rewrite Hz in Hs. rewrite Hs. cbn [mbind option_bind]. by rewrite (rd_block_mid [] t []) by (done || by rewrite app_nil_r).
    + rewrite bool_decide_false; [done|]. intros Heq. apply Hz. by rewrite Heq.
  - pose proof (code_eq (text e) t w Hcd Hnum) as Heq. rewrite zipTry_code. cbn [mbind option_bind].
    destruct (code t) as [[w' enc']|]; [|by rewrite bool_decide_false].
    unfold enc_of. rewrite Hcd, integer_at by done. cbn [mbind option_bind]. f_equal.
    destruct (Z.eqb_spec w w') as [Hww|Hww]; symmetry; [apply bool_decide_eq_true|apply bool_decide_eq_false]; tauto.
Qed.

(** ** Length *)

Lemma count_ok es : forall Q k fuel,
  Forall entry_ok es -> zlen (layout es) < 2 ^ 32 -> (length es <= fuel)%nat ->
  count_loop fuel (Q ++ layout es ++ [ZIP_END]) (zlen Q) k = Some (k + zlen es).
Proof.
  induction es as [|e es IH]; intros Q k fuel Hok Hmax Hfuel.
  - cbn [layout map concat app]. change (zlen (@nil entry)) with 0. rewrite Z.add_0_r.
    destruct fuel; cbn [count_loop]; rewrite rd_at; done.
  - apply Forall_cons in Hok as [He Hok]. rewrite zlen_cons, zlen_layout_cons in *. rewrite layout_cons, <- app_assoc.
    pose proof (size_pos e He). pose proof (zlen_nonneg (layout es)).
    destruct fuel as [|fuel]; [simpl in Hfuel; lia|]. cbn [count_loop].
    destruct (first_byte Q (layout es ++ [ZIP_END]) e He) as (b & -> & Hb & _). cbn [mbind option_bind].
    destruct (Z.eqb_spec b ZIP_END); [done|]. rewrite zipRawEntryLength_at by (done || lia). cbn [mbind option_bind].
    specialize (IH (Q ++ raw e) (k + 1) fuel Hok). rewrite <- app_assoc, zlen_app in IH. fold (size e) in IH.
    rewrite IH; [f_equal; lia|lia|simpl in Hfuel; lia].
Qed.

(** [ziplistLen] is the length, also when it has outgrown its field; then it is
    counted, and stored again if it fits. *)
Lemma length_entries zl n es :
  rep zl n es -> exists zl' n', ziplistLen zl = Some (zlen es, zl') /\ rep zl' n' es.
Proof.
  intros Hrep. destruct (rep_fuel _ _ _ Hrep) as [Hf Hs].
  pose proof Hrep as [Hzl Hok Hl Hlen Hhd Hsm]. pose proof (length_ok_range _ _ Hlen) as Hn. pose proof (zlen_nonneg es).
  unfold ziplistLen. assert (ZIPLIST_LENGTH zl = Some n) as -> by (rewrite Hzl; by apply length_hdr). cbn [mbind option_bind].
  destruct (Z.ltb_spec n UINT16_MAX) as [Hlt|Hge].
  { exists zl, n. split; [|done]. do 2 f_equal. destruct Hlen; [unfold UINT16_MAX in *|]; lia. }
  pose proof (count_ok es (hdr (total_of [] es) (tail_of [] es) n) 0 (length zl) Hok Hs Hf) as Hc.
  change (hdr (total_of [] es) (tail_of [] es) n ++ layout es ++ [ZIP_END]) with (blk n [] es) in Hc.
  change (zlen (hdr (total_of [] es) (tail_of [] es) n)) with ZIPLIST_HEADER_SIZE in Hc. rewrite <- Hzl in Hc.
  rewrite Hc. cbn [mbind option_bind]. rewrite Z.add_0_l. destruct (Z.ltb_spec (zlen es) UINT16_MAX) as [Hlt|_].
  - exists (blk (zlen es) [] es), (zlen es).
    assert (set_LENGTH zl (zlen es) = Some (blk (zlen es) [] es)) as -> by (rewrite Hzl; apply set_length_hdr). split; [done|].
    constructor; try done. by right.
  - by exists zl, n.
Qed.

Lemma ziplistLen_ok zl l :
  ziplist_ok zl l -> exists zl', ziplistLen zl = Some (zlen l, zl') /\ ziplist_ok zl' l.
Proof.
  intros (n & es & Hrep & <-)%ziplist_ok_rep. rewrite zlen_map. destruct (length_entries zl n es Hrep) as (zl' & n' & Hrun & Hrep').
  exists zl'. split; [done|by eapply rep_ziplist_ok].
Qed.

Theorem ziplistLen_refines zl l :
  ziplist_ok zl l -> exists zl', ziplistLen zl = Some (zlen l, zl') /\ ziplist_ok zl' l.
Proof. apply ziplistLen_ok. Qed.

(** ** Walking *)

(** [ziplistNext] and [ziplistPrev] move to the neighbouring places; past the last
    string, and before the first, they give NULL. From the end, the previous place
    is the last one. *)
Lemma ziplist_walk zl l1 s l2 p :
  place zl l1 (s :: l2) p ->
  (exists r, ziplistNext zl p = Some r /\
    match l2 with [] => r = None | _ => exists q, r = Some q /\ place zl (l1 ++ [s]) l2 q end) /\
  (exists r, ziplistPrev zl p = Some r /\
    match last l1 with
    | None => r = None
    | Some t => exists q, r = Some q /\ place zl (removelast l1) (t :: s :: l2) q
    end).
Proof.
  intros (n & a & b & Hrep & <- & Hb & ->). destruct b as [|e b]; [done|]. injection Hb as <- <-.
  destruct (rep_first _ _ _ _ Hrep) as (c & Hc & Hce). unfold ziplistNext, ziplistPrev. rewrite Hc. cbn [mbind option_bind].
  destruct (Z.eqb_spec c ZIP_END) as [->|_]; [by destruct Hce as [Hce _]; specialize (Hce eq_refl)|].
  destruct (rep_split _ _ _ _ _ Hrep) as (P & T & Hzl & HP & He).
  pose proof (rep_linked _ _ _ Hrep) as Hl. rewrite linked_app in Hl. destruct Hl as [_ [Hpv _]].
  pose proof (rep_ok _ _ _ Hrep) as Hok. apply Forall_app in Hok as [Hoka _].
  destruct (rep_fuel _ _ _ Hrep) as [_ Hs]. rewrite layout_app, zlen_app, zlen_layout_cons in Hs.
  pose proof (zlen_nonneg (layout a)). pose proof (zlen_nonneg (layout b)). split.
  - assert (zipRawEntryLength zl (10 + zlen (layout a)) = Some (size e)) as ->
      by (rewrite Hzl, <- HP; apply zipRawEntryLength_at; [done|lia]).
    cbn [mbind option_bind].
    assert (rep zl n ((a ++ [e]) ++ b)) as Hrep2 by by rewrite <- app_assoc.
    destruct (rep_first _ _ _ _ Hrep2) as (c' & Hc' & Hce'). pose proof (rep_place _ _ _ _ Hrep2) as Hpl.
    rewrite layout_app, zlen_app, zlen_layout_cons in Hc', Hpl. change (zlen (layout [])) with 0 in Hc', Hpl.
    replace (10 + (zlen (layout a) + (size e + 0))) with (10 + zlen (layout a) + size e) in Hc', Hpl by lia.
    rewrite Hc'. cbn [mbind option_bind]. destruct b as [|y b].
    + assert (c' = ZIP_END) as -> by by apply Hce'. by eexists.
    + destruct (Z.eqb_spec c' ZIP_END) as [->|_]; [by destruct Hce' as [Hce' _]; specialize (Hce' eq_refl)|].
      eexists. split; [done|]. eexists. split; [done|]. by rewrite map_app in Hpl.
  - destruct a as [|y a _] using rev_ind.
    + change (10 + zlen (layout [])) with 10. change (10 =? ZIPLIST_ENTRY_HEAD) with true. cbv iota. eexists. split; done.
    + rewrite layout_app, zlen_app, zlen_layout_cons in *. change (zlen (layout [])) with 0 in *.
      apply Forall_app in Hoka as [_ Hy]. apply Forall_cons in Hy as [Hy _]. pose proof (size_pos y Hy). pose proof (zlen_nonneg (layout a)).
      unfold ZIPLIST_ENTRY_HEAD, ZIPLIST_HEADER_SIZE. destruct (Z.eqb_spec (10 + (zlen (layout a) + (size y + 0))) 10); [lia|].
      assert (ZIP_DECODE_PREVLEN zl (10 + (zlen (layout a) + (size y + 0))) = Some (ps e, pv e)) as ->
        by (rewrite Hzl, <- HP; by apply prevlen_at).
      cbn [mbind option_bind]. rewrite Hpv. unfold end_size. rewrite last_snoc. destruct (Z.gtb_spec (size y) 0); [|lia].
      rewrite map_app. cbn [map]. rewrite last_snoc, removelast_last. eexists. split; [done|]. eexists. split; [done|].
      replace (10 + (zlen (layout a) + (size y + 0)) - size y) with (10 + zlen (layout a)) by lia.
      rewrite <- app_assoc in Hrep. by apply (rep_place _ _ _ _ Hrep).
Qed.

(** Before the end stands the last string. *)
Lemma ziplistPrev_end zl l p : place zl l [] p -> ziplistPrev zl p = ziplistIndex zl (-1).
Proof.
  intros Hp. pose proof (place_ziplist_ok _ _ _ _ Hp) as Hzl. rewrite app_nil_r in Hzl.
  destruct Hp as (n & a & b & Hrep & _ & Hb & ->). apply map_eq_nil in Hb as ->.
  destruct (rep_first _ _ _ _ Hrep) as (c & Hc & Hce). assert (c = ZIP_END) as -> by by apply Hce.
  destruct (ziplistIndex_ok zl l (-1) Hzl) as (r & Hr & _). rewrite Hr. unfold ziplistIndex in Hr. unfold ziplistPrev.
  rewrite Hc. cbn [mbind option_bind]. change (ZIP_END =? ZIP_END) with true. change (-1 <? 0) with true in Hr.
  change (- -1 - 1) with 0 in Hr. cbv iota zeta in *. destruct (ZIPLIST_ENTRY_TAIL zl) as [t|]; [|done]. cbn [mbind option_bind] in *.
  destruct (rd zl t) as [b|] eqn:Ht; [|done]. cbn [mbind option_bind] in *. destruct (b =? ZIP_END) eqn:Hb; cbn [negb] in Hr.
  - cbn [mbind option_bind] in Hr. rewrite Ht in Hr. cbn [mbind option_bind] in Hr. by rewrite Hb in Hr.
  - destruct (ZIP_DECODE_PREVLEN zl t) as [[pl pv]|]; [|done]. cbn [mbind option_bind] in Hr.
    assert (exists k, backward_loop (length zl) zl t pv 0 = Some (t, k) /\ (k >? 0) = false) as (k & Hbk & Hk)
      by (destruct (length zl); cbn [backward_loop]; destruct (pv >? 0); eauto).
    rewrite Hbk in Hr. cbn [mbind option_bind] in Hr. rewrite Ht in Hr. cbn [mbind option_bind] in Hr. by rewrite Hb, Hk in Hr.
Qed.

Lemma delete_none uninit zl n a e b :
  rep zl n (a ++ e :: b) -> __ziplistDelete uninit zl (10 + zlen (layout a)) 0 = Some zl.
Proof.
  intros Hrep. destruct (rep_split _ _ _ _ _ Hrep) as (P & T & -> & Hz & He). rewrite <- Hz. unfold __ziplistDelete.
  rewrite zipEntry_at by done. cbn [mbind option_bind]. destruct (first_byte P T e He) as (c & Hc & _).
  destruct (length (P ++ raw e ++ T)) eqn:Hlen; cbn [skip_loop]; rewrite Hc; cbn [mbind option_bind];
    rewrite andb_false_r; cbn [mbind option_bind zp]; by rewrite Z.sub_diag.
Qed.

Lemma ziplistDeleteRange_ok uninit zl l i num :
  ziplist_ok zl l -> 0 <= num -> zlen zl + 4 * zlen l + 8 < 2 ^ 32 ->
  let j := if s32 i <? 0 then zlen l + s32 i else s32 i in
  exists zl', ziplistDeleteRange uninit zl i num = Some zl' /\
    ziplist_ok zl' (if (0 <=? j) && (j <? zlen l) then take (Z.to_nat j) l ++ drop (Z.to_nat (j + num)) l else l).
Proof.
  intros Hzl Hnum Hmax j. unfold ziplistDeleteRange.
  destruct (ziplistIndex_ok zl l (s32 i) Hzl) as (r & -> & Hr). cbn [mbind option_bind]. fold j in Hr.
  destruct r as [p|].
  2: { exists zl. split; [done|]. destruct (Z.leb_spec 0 j), (Z.ltb_spec j (zlen l)); done || lia. }
  destruct Hr as (Hil & n & a & b & Hrep & Ha & Hb & ->).
  rewrite (proj2 (Z.leb_le 0 j)), (proj2 (Z.ltb_lt j (zlen l))) by lia. cbn [andb].
  assert (map text (a ++ b) = l) as Hab by (rewrite map_app, Ha, Hb; apply take_drop).
  assert (zlen (a ++ b) = zlen l) as Hlab by (rewrite <- Hab; by rewrite zlen_map).
  assert (b <> []) as Hbne.
  { intros ->. apply (f_equal length) in Hb. rewrite length_drop in Hb. unfold zlen in *. simpl in Hb. lia. }
  destruct (decide (num = 0)) as [->|Hn0].
  { destruct b as [|e b]; [done|]. exists zl. split; [by eapply delete_none|]. by rewrite Z.add_0_r, take_drop. }
  set (k := Z.to_nat num). rewrite <- (take_drop k b) in Hrep.
  destruct (delete_place uninit zl n a (take k b) (drop k b) num Hrep) as (zl' & n' & b' & Hrun & Hrep' & Hb' & _).
  - destruct b; [done|]. unfold k. by destruct (Z.to_nat num) eqn:?; [lia|].
  - unfold zlen. rewrite length_take. unfold k. lia.
  - destruct (decide (length b <= k)%nat) as [Hle|Hgt]; [left; by apply drop_ge|right].
    unfold zlen. rewrite length_take. unfold k in *. lia.
  - rewrite take_drop, Hlab. done.
  - exists zl'. split; [exact Hrun|]. pose proof (rep_ziplist_ok _ _ _ Hrep') as Hok. rewrite map_app, Hb', Ha in Hok.
    replace (drop (Z.to_nat (j + num)) l) with (map text (drop k b)); [exact Hok|].
    change (map text (drop k b)) with (text <$> drop k b). rewrite fmap_drop. change (text <$> b) with (map text b).
    rewrite Hb, drop_drop. f_equal. unfold k. lia.
Qed.

(** [ziplistDeleteRange] removes [num] strings from the index on, or as many as there
    are; an index outside the list removes nothing. *)
Theorem ziplistDeleteRange_refines uninit zl l i num :
  ziplist_ok zl l -> 0 <= i < 2 ^ 31 -> 0 < num -> zlen zl + 4 * zlen l + 8 < 2 ^ 32 ->
  exists zl', ziplistDeleteRange uninit zl i num = Some zl' /\
    ziplist_ok zl' (take (Z.to_nat i) l ++ drop (Z.to_nat (i + num)) l).
Proof.
  intros Hzl Hi Hnum Hmax. destruct (ziplistDeleteRange_ok uninit zl l i num Hzl ltac:(lia) Hmax) as (zl' & Hrun & Hok).
  exists zl'. split; [done|]. rewrite swrap_small in Hok by (unfold sfits; lia).
  destruct (Z.ltb_spec i 0), (Z.leb_spec 0 i), (Z.ltb_spec i (zlen l)); try lia; cbn [andb] in Hok; [done|].
  rewrite take_ge, drop_ge, app_nil_r by (unfold zlen in *; lia). done.
Qed.

(** ** An insertion out of bounds *)

(** Three entries; after the first has been deleted the second is shorter than 254
    bytes again, but the third keeps its five-byte length field. *)
Definition wide : option (list Z) :=
  zl ← push_all [repeat 97 260; repeat 98 248; zs "b"]; ziplistDelete (fun _ => 0) zl 10.

(** [ziplistInsert] before an entry whose length field is wider than it has to be:
    with a one-digit number the new entry takes two bytes, the next one gives up
    four, the block is made smaller before its contents are moved, and bytes beyond
    its end are read. No operation before that is wrong: the list is well formed
    and holds two strings. *)
Theorem insert_overread :
  match wide with
  | Some zl => ziplistIndex zl 1 = Some (Some 261) /\ ziplistGet zl (Some 261) = Some (Some (inl (zs "b"))) /\
      ziplistLen zl = Some (2, zl) /\ ziplistInsert (fun _ => 0) zl 261 (zs "1") 1 = None
  | None => False
  end.
Proof. vm_compute. done. Qed.

(** ** Instances *)

Lemma new_ok uninit : exists zl, ziplistNew uninit = Some zl /\ ziplist_ok zl [].
Proof.
  eexists. split; [reflexivity|]. apply (rep_ziplist_ok _ 0 []). constructor; try done. right. done.
Qed.

Definition demo_list : list (list Z) := [zs "2"; zs "ab"; zs "1024"].
Definition demo_zl : list Z := [21; 0; 0; 0; 16; 0; 0; 0; 3; 0; 0; 243; 2; 2; 97; 98; 4; 192; 0; 4; 255].

Example demo_pushed : push_all demo_list = Some demo_zl.
Proof. vm_compute. reflexivity. Qed.

Lemma demo_rep : rep demo_zl 3 ([mkEntry 0 1 (zs "2")] ++ [mkEntry 2 1 (zs "ab"); mkEntry 4 1 (zs "1024")]).
Proof.
  constructor; [vm_compute; reflexivity| |done|by right|done|vm_compute; reflexivity].
  repeat constructor; simpl; unfold ZIP_BIGLEN; lia.
Qed.

Lemma demo_zl_ok : ziplist_ok demo_zl demo_list.
Proof. apply (rep_ziplist_ok _ _ _ demo_rep). Qed.

Lemma demo_place : place demo_zl [zs "2"] [zs "ab"; zs "1024"] 12.
Proof. apply (rep_place _ _ _ _ demo_rep). Qed.

Lemma ziplistPush_refines_witness :
  exists zl', ziplistPush (fun _ => 0) demo_zl (zs "-7") 2 ZIPLIST_HEAD = Some zl' /\ ziplist_ok zl' (zs "-7" :: demo_list).
Proof. apply (ziplistPush_refines (fun _ => 0) demo_zl demo_list (zs "-7") ZIPLIST_HEAD); [apply demo_zl_ok|done]. Defined.

Lemma ziplistInsert_refines_witness :
  exists zl', ziplistInsert (fun _ => 0) demo_zl 12 (zs "x") 1 = Some zl' /\ place zl' [zs "2"] [zs "x"; zs "ab"; zs "1024"] 12.
Proof.
  apply (ziplistInsert_refines (fun _ => 0) demo_zl [zs "2"] [zs "ab"; zs "1024"] 12 (zs "x")); [apply demo_place|right; by left|done].
Defined.

Lemma ziplistDelete_refines_witness :
  exists zl', ziplistDelete (fun _ => 0) demo_zl 12 = Some zl' /\ place zl' [zs "2"] [zs "1024"] 12.
Proof. apply (ziplistDelete_refines (fun _ => 0) demo_zl [zs "2"] (zs "ab") [zs "1024"] 12); [apply demo_place|done]. Defined.

Lemma ziplistIndex_refines_witness :
  exists r, ziplistIndex demo_zl (-2) = Some r /\
    match r with Some p => 0 <= 1 < 3 /\ place demo_zl [zs "2"] [zs "ab"; zs "1024"] p | None => 1 < 0 \/ 3 <= 1 end.
Proof. apply (ziplistIndex_refines demo_zl demo_list (-2)). apply demo_zl_ok. Defined.

Lemma ziplistGet_refines_witness :
  exists r, ziplistGet demo_zl (Some 12) = Some r /\ exists v, r = Some v /\ reads (zs "ab") v.
Proof. apply (ziplistGet_refines demo_zl [zs "2"] [zs "ab"; zs "1024"] 12). apply demo_place. Defined.

Lemma ziplistFind_refines_witness :
  exists r, ziplistFind demo_zl 12 (zs "1024") 4 0 = Some r /\
    exists q, r = Some q /\ place demo_zl [zs "2"; zs "ab"] [zs "1024"] q.
Proof. apply (ziplistFind_refines demo_zl [zs "2"] [zs "ab"; zs "1024"] 12 (zs "1024") 0); [apply demo_place|done]. Defined.

Lemma ziplistLen_refines_witness : exists zl', ziplistLen demo_zl = Some (3, zl') /\ ziplist_ok zl' demo_list.
Proof. apply (ziplistLen_refines demo_zl demo_list). apply demo_zl_ok. Defined.

Lemma ziplist_walk_witness :
  (exists r, ziplistNext demo_zl 12 = Some r /\
    exists q, r = Some q /\ place demo_zl [zs "2"; zs "ab"] [zs "1024"] q) /\
  (exists r, ziplistPrev demo_zl 12 = Some r /\ exists q, r = Some q /\ place demo_zl [] demo_list q).
Proof. apply (ziplist_walk demo_zl [zs "2"] (zs "ab") [zs "1024"] 12). apply demo_place. Defined.

Lemma ziplistDeleteRange_refines_witness :
  exists zl', ziplistDeleteRange (fun _ => 0) demo_zl 1 9 = Some zl' /\ ziplist_ok zl' [zs "2"].
Proof. apply (ziplistDeleteRange_refines (fun _ => 0) demo_zl demo_list 1 9); [apply demo_zl_ok|lia|done|done]. Defined.
