(* ===== verification/Sds.v ===== *)
(** * Dynamic strings (src/redis-2.8.19/src/sds.c, sds.h)

    A string is its header and the bytes of its buffer, [len + free + 1] of
    them; an access outside the buffer is [None]. [uninit] gives the contents of
    memory that realloc has not written. Allocation does not fail: zmalloc
    aborts the process instead. *)
From S2P Require Import Prelude Util.
Open Scope Z_scope.

Definition SDS_MAX_PREALLOC : Z := 1024 * 1024.
Definition SDS_LLSTR_SIZE : Z := 21.
Definition SDS_HDR : Z := 8.

Record sds := mkSds { slen : Z; sfree : Z; sbuf : list Z }.

(** [strlen]: [None] when there is no terminator. *)
Definition strlen (t : list Z) : option Z := zlen <$> c_str t.

(** [memcmp] on the first [n] bytes: the sign is the sign of the result. *)
Fixpoint memcmp (a b : list Z) : Z :=
  match a, b with
  | x :: a, y :: b => if x =? y then memcmp a b else x - y
  | _, _ => 0
  end.

Definition is_print (c : Z) : bool := (32 <=? c) && (c <=? 126).
Definition is_space (c : Z) : bool := (c =? 32) || ((9 <=? c) && (c <=? 13)).
Definition to_upper (c : Z) : Z := if (97 <=? c) && (c <=? 122) then c - 32 else c.

Section sds.
Context (uninit : nat -> Z).

Definition sdslen (s : sds) : Z := slen s.
Definition sdsavail (s : sds) : Z := sfree s.

(** [init = None] is the null pointer: zeroed memory. *)
Definition sdsnewlen (init : option (list Z)) (initlen : Z) : option sds :=
  let buf := match init with
             | Some _ => realloc uninit [] (initlen + 1)
             | None => replicate (Z.to_nat (initlen + 1)) 0
             end in
  buf ← match init with
        | Some p => if initlen =? 0 then Some buf
                    else b ← rd_block p 0 initlen; wr_block buf 0 b
        | None => Some buf
        end;
  buf ← wr buf initlen 0;
  Some (mkSds (u32 initlen) 0 buf).

Definition sdsempty : option sds := sdsnewlen (Some [0]) 0.

Definition sdsnew (init : option (list Z)) : option sds :=
  initlen ← match init with None => Some 0 | Some p => strlen p end;
  sdsnewlen init initlen.

Definition sdsdup (s : sds) : option sds := sdsnewlen (Some (sbuf s)) (sdslen s).

Definition sdsupdatelen (s : sds) : option sds :=
  reallen ← strlen (sbuf s);
  let reallen := s32 reallen in
  Some (mkSds (u32 reallen) (u32 (sfree s + u32 (slen s - u32 reallen))) (sbuf s)).

Definition sdsclear (s : sds) : option sds :=
  buf ← wr (sbuf s) 0 0;
  Some (mkSds 0 (u32 (sfree s + slen s)) buf).

Definition sdsMakeRoomFor (s : sds) (addlen : Z) : sds :=
  let free := sdsavail s in
  if free >=? addlen then s
  else
    let len := sdslen s in
    let newlen := u64 (len + addlen) in
    let newlen := u64 (if newlen <? SDS_MAX_PREALLOC then newlen * 2
                       else newlen + SDS_MAX_PREALLOC) in
    mkSds (slen s) (u32 (newlen - len)) (realloc uninit (sbuf s) (u64 (newlen + 1))).

Definition sdsRemoveFreeSpace (s : sds) : sds :=
  mkSds (slen s) 0 (realloc uninit (sbuf s) (slen s + 1)).

Definition sdsAllocSize (s : sds) : Z := SDS_HDR + slen s + sfree s + 1.

(** [None] also stands for the failure of the assertion. *)
Definition sdsIncrLen (s : sds) (incr : Z) : option sds :=
  if (if incr >=? 0 then sfree s >=? u32 incr else slen s >=? u32 (- incr)) then
    let len := u32 (slen s + incr) in
    buf ← wr (sbuf s) len 0;
    Some (mkSds len (u32 (sfree s - incr)) buf)
  else None.

Definition sdsgrowzero (s : sds) (len : Z) : option sds :=
  let curlen := slen s in
  if len <=? curlen then Some s
  else
    let s := sdsMakeRoomFor s (len - curlen) in
    buf ← wr_block (sbuf s) curlen (replicate (Z.to_nat (len - curlen + 1)) 0);
    let totlen := u32 (slen s + sfree s) in
    Some (mkSds (u32 len) (u32 (totlen - u32 len)) buf).

Definition sdscatlen (s : sds) (t : list Z) (len : Z) : option sds :=
  let curlen := sdslen s in
  let s := sdsMakeRoomFor s len in
  b ← rd_block t 0 len;
  buf ← wr_block (sbuf s) curlen b;
  let s := mkSds (u32 (curlen + len)) (u32 (sfree s - len)) buf in
  buf ← wr (sbuf s) (curlen + len) 0;
  Some (mkSds (slen s) (sfree s) buf).

Definition sdscat (s : sds) (t : list Z) : option sds := n ← strlen t; sdscatlen s t n.
Definition sdscatsds (s t : sds) : option sds := sdscatlen s (sbuf t) (sdslen t).

Definition sdscpylen (s : sds) (t : list Z) (len : Z) : option sds :=
  let totlen := u32 (sfree s + slen s) in
  let s := if totlen <? len then sdsMakeRoomFor s (u64 (len - slen s)) else s in
  let totlen := if totlen <? len then u32 (sfree s + slen s) else totlen in
  b ← rd_block t 0 len;
  buf ← wr_block (sbuf s) 0 b;
  buf ← wr buf len 0;
  Some (mkSds (u32 len) (u32 (totlen - len)) buf).

Definition sdscpy (s : sds) (t : list Z) : option sds := n ← strlen t; sdscpylen s t n.

(** ** Numbers *)

(** [do { *p++ = '0'+(v%10); v /= 10; } while(v);] *)
Fixpoint ll2str_loop (fuel : nat) (buf : list Z) (p v : Z) : option (list Z * Z) :=
  match fuel with
  | O => None
  | S fuel =>
      buf ← wr buf p (ch0 + v mod 10);
      let v := v / 10 in
      if v =? 0 then Some (buf, p + 1) else ll2str_loop fuel buf (p + 1) v
  end.

(** [while(s < p)]: the swaps that reverse the string. *)
Fixpoint swap_loop (fuel : nat) (buf : list Z) (s p : Z) : option (list Z) :=
  if s <? p then
    match fuel with
    | O => None
    | S fuel =>
        aux ← rd buf s;
        b ← rd buf p;
        buf ← wr buf s b;
        buf ← wr buf p aux;
        swap_loop fuel buf (s + 1) (p - 1)
    end
  else Some buf.

Definition sdsll2str (buf : list Z) (value : Z) : option (list Z * Z) :=
  let v := if value <? 0 then u64 (- value) else value in
  '(buf, p) ← ll2str_loop 20 buf 0 v;
  '(buf, p) ← (if value <? 0 then buf ← wr buf p ch_minus; Some (buf, p + 1) else Some (buf, p));
  let l := p in
  buf ← wr buf p 0;
  buf ← swap_loop 20 buf 0 (p - 1);
  Some (buf, l).

Definition sdsull2str (buf : list Z) (v : Z) : option (list Z * Z) :=
  '(buf, p) ← ll2str_loop 20 buf 0 v;
  let l := p in
  buf ← wr buf p 0;
  buf ← swap_loop 20 buf 0 (p - 1);
  Some (buf, l).

Definition ll_buf : list Z := realloc uninit [] SDS_LLSTR_SIZE.

Definition sdsfromlonglong (value : Z) : option sds :=
  '(buf, len) ← sdsll2str ll_buf value;
  sdsnewlen (Some buf) len.

(** ** Formatting *)

(** [vsnprintf(buf, buflen, ...)] of a text: what fits and a terminator. *)
Definition vsnprintf (buf : list Z) (buflen : Z) (text : list Z) : option (list Z) :=
  wr_block buf 0 (take (Z.to_nat (buflen - 1)) text ++ [0]).

(** The [while(1)] that doubles the buffer until the text fits; [text] is the
    text that the format and its arguments denote. *)
Fixpoint vprintf_loop (fuel : nat) (buf : list Z) (buflen : Z) (text : list Z) : option (list Z) :=
  buf ← wr buf (buflen - 2) 0;
  buf ← vsnprintf buf buflen text;
  c ← rd buf (buflen - 2);
  if negb (c =? 0) then
    match fuel with
    | O => None
    | S fuel =>
        let buflen := buflen * 2 in
        vprintf_loop fuel (realloc uninit [] buflen) buflen text
    end
  else Some buf.

Definition sdscatvprintf (fuel : nat) (s : sds) (fmtlen : Z) (text : list Z) : option sds :=
  let buflen := fmtlen * 2 in
  let buflen := if buflen >? 1024 then buflen else 1024 in
  buf ← vprintf_loop fuel (realloc uninit [] buflen) buflen text;
  sdscat s buf.

(** [fuel] is the number of doublings, no more than bits of a size. *)
Definition sdscatprintf (s : sds) (fmtlen : Z) (text : list Z) : option sds :=
  sdscatvprintf 64 s fmtlen text.

(** The variadic arguments of [sdscatfmt]. *)
Inductive fmt_arg :=
  | ArgStr (str : list Z)
  | ArgSds (str : sds)
  | ArgNum (num : Z).

(** The code shared by the conversions: [l] bytes of [str] at [s+i]. *)
Definition fmt_put (s : sds) (i : Z) (str : list Z) (l : Z) : option (sds * Z) :=
  let s := if sfree s <? l then sdsMakeRoomFor s l else s in
  b ← rd_block str 0 l;
  buf ← wr_block (sbuf s) i b;
  Some (mkSds (u32 (slen s + l)) (u32 (sfree s - l)) buf, s32 (i + l)).

Definition fmt_char (s : sds) (i c : Z) : option (sds * Z) :=
  buf ← wr (sbuf s) i c;
  Some (mkSds (u32 (slen s + 1)) (u32 (sfree s - 1)) buf, i + 1).

Definition fmt_conv (s : sds) (i next : Z) (ap : list fmt_arg)
  : option (sds * Z * list fmt_arg) :=
  if (next =? 115) || (next =? 83) then
    match ap with
    | ArgStr str :: ap =>
        if next =? 115 then l ← strlen str; '(s, i) ← fmt_put s i str (u32 l); Some (s, i, ap)
        else None
    | ArgSds str :: ap =>
        if next =? 83 then '(s, i) ← fmt_put s i (sbuf str) (u32 (sdslen str)); Some (s, i, ap)
        else None
    | _ => None
    end
  else if (next =? 105) || (next =? 73) then
    match ap with
    | ArgNum num :: ap =>
        let num := if next =? 105 then s32 num else s64 num in
        '(buf, l) ← sdsll2str ll_buf num;
        '(s, i) ← fmt_put s i buf (u32 l); Some (s, i, ap)
    | _ => None
    end
  else if (next =? 117) || (next =? 85) then
    match ap with
    | ArgNum num :: ap =>
        let unum := if next =? 117 then u32 num else u64 num in
        '(buf, l) ← sdsull2str ll_buf unum;
        '(s, i) ← fmt_put s i buf (u32 l); Some (s, i, ap)
    | _ => None
    end
  else '(s, i) ← fmt_char s i next; Some (s, i, ap).

(** [while ( *f)]; a format that ends with a lone percent reads past its end. *)
Fixpoint fmt_loop (fuel : nat) (s : sds) (i : Z) (fmt : list Z) (f : Z) (ap : list fmt_arg)
  : option (sds * Z) :=
  c ← rd fmt f;
  if c =? 0 then Some (s, i)
  else
    match fuel with
    | O => None
    | S fuel =>
        let s := if sfree s =? 0 then sdsMakeRoomFor s 1 else s in
        if c =? 37 then
          next ← rd fmt (f + 1);
          '(s, i, ap) ← fmt_conv s i next ap;
          fmt_loop fuel s i fmt (f + 2) ap
        else
          '(s, i) ← fmt_char s i c;
          fmt_loop fuel s i fmt (f + 1) ap
    end.

Definition sdscatfmt (s : sds) (fmt : list Z) (ap : list fmt_arg) : option sds :=
  let initlen := sdslen s in
  '(s, i) ← fmt_loop (length fmt) s (s32 initlen) fmt 0 ap;
  buf ← wr (sbuf s) i 0;
  Some (mkSds (slen s) (sfree s) buf).

(** ** Trimming, ranges, case, comparison *)

(** [strchr(cset, c)] is not null: also for the terminator. *)
Definition in_cset (cset : list Z) (c : Z) : option bool :=
  l ← c_str cset; Some (bool_decide (c ∈ l) || (c =? 0)).

Fixpoint trim_left (fuel : nat) (buf cset : list Z) (sp end_ : Z) : option Z :=
  if sp <=? end_ then
    c ← rd buf sp;
    b ← in_cset cset c;
    if (b : bool) then
      match fuel with O => None | S fuel => trim_left fuel buf cset (sp + 1) end_ end
    else Some sp
  else Some sp.

Fixpoint trim_right (fuel : nat) (buf cset : list Z) (ep : Z) : option Z :=
  if ep >? 0 then
    c ← rd buf ep;
    b ← in_cset cset c;
    if (b : bool) then
      match fuel with O => None | S fuel => trim_right fuel buf cset (ep - 1) end
    else Some ep
  else Some ep.

Definition sdstrim (s : sds) (cset : list Z) : option sds :=
  let end_ := sdslen s - 1 in
  sp ← trim_left (length (sbuf s)) (sbuf s) cset 0 end_;
  ep ← trim_right (length (sbuf s)) (sbuf s) cset end_;
  let len := if sp >? ep then 0 else ep - sp + 1 in
  buf ← (if negb (sp =? 0) then memmove (sbuf s) 0 sp len else Some (sbuf s));
  buf ← wr buf len 0;
  Some (mkSds (u32 len) (u32 (sfree s + u64 (slen s - len))) buf).

Definition sdsrange (s : sds) (start end_ : Z) : option sds :=
  let len := sdslen s in
  if len =? 0 then Some s
  else
    let start := if start <? 0 then let start := s32 (u64 (len + start)) in
                                    if start <? 0 then 0 else start else start in
    let end_ := if end_ <? 0 then let end_ := s32 (u64 (len + end_)) in
                                  if end_ <? 0 then 0 else end_ else end_ in
    let newlen := if start >? end_ then 0 else end_ - start + 1 in
    let '(start, newlen) :=
      if negb (newlen =? 0) then
        if start >=? s32 len then (start, 0)
        else if end_ >=? s32 len then
          let end_ := s32 (len - 1) in
          (start, if start >? end_ then 0 else end_ - start + 1)
        else (start, newlen)
      else (0, newlen) in
    buf ← (if negb (start =? 0) && negb (newlen =? 0)
           then memmove (sbuf s) 0 start newlen else Some (sbuf s));
    buf ← wr buf newlen 0;
    Some (mkSds (u32 newlen) (u32 (sfree s + u64 (slen s - newlen))) buf).

(** [for (j = 0; j < len; j++) s[j] = f(s[j]);], from [j], [n] turns. *)
Fixpoint map_loop (f : Z -> Z) (n : nat) (buf : list Z) (j : Z) : option (list Z) :=
  match n with
  | O => Some buf
  | S n => c ← rd buf j; buf ← wr buf j (f c); map_loop f n buf (j + 1)
  end.

Definition sdstolower (s : sds) : option sds :=
  buf ← map_loop to_lower (Z.to_nat (sdslen s)) (sbuf s) 0; Some (mkSds (slen s) (sfree s) buf).
Definition sdstoupper (s : sds) : option sds :=
  buf ← map_loop to_upper (Z.to_nat (sdslen s)) (sbuf s) 0; Some (mkSds (slen s) (sfree s) buf).

Definition sdscmp (s1 s2 : sds) : option Z :=
  let l1 := sdslen s1 in
  let l2 := sdslen s2 in
  let minlen := if l1 <? l2 then l1 else l2 in
  a ← rd_block (sbuf s1) 0 minlen;
  b ← rd_block (sbuf s2) 0 minlen;
  let cmp := memcmp a b in
  Some (if cmp =? 0 then s32 (l1 - l2) else cmp).

(** The first [i] with [from[i] = c] gives [to[i]]. *)
Fixpoint map_char (c : Z) (from to : list Z) : Z :=
  match from, to with
  | f :: from, t :: to => if c =? f then t else map_char c from to
  | _, _ => c
  end.

Definition sdsmapchars (s : sds) (from to : list Z) (setlen : Z) : option sds :=
  from ← rd_block from 0 setlen;
  to ← rd_block to 0 setlen;
  buf ← map_loop (fun c => map_char c from to) (Z.to_nat (sdslen s)) (sbuf s) 0;
  Some (mkSds (slen s) (sfree s) buf).

(** ** Splitting and joining *)

(** Storing a token: [None] when the array has no such slot. *)
Definition put_token (tokens : list sds) (slots : Z) (tok : sds) : option (list sds) :=
  if zlen tokens <? slots then Some (tokens ++ [tok]) else None.

Fixpoint split_loop (fuel : nat) (s : list Z) (len : Z) (sep : list Z) (seplen : Z)
    (tokens : list sds) (slots start j : Z) : option (list sds * Z * Z) :=
  if j <? len - (seplen - 1) then
    match fuel with
    | O => None
    | S fuel =>
        let slots := if slots <? zlen tokens + 2 then slots * 2 else slots in
        c ← rd s j;
        c0 ← rd sep 0;
        a ← rd_block s j seplen;
        b ← rd_block sep 0 seplen;
        if ((seplen =? 1) && (c =? c0)) || (memcmp a b =? 0) then
          tok ← (p ← rd_block s start (zlen s - start); sdsnewlen (Some p) (j - start));
          tokens ← put_token tokens slots tok;
          split_loop fuel s len sep seplen tokens slots (j + seplen) (j + seplen)
        else split_loop fuel s len sep seplen tokens slots start (j + 1)
    end
  else Some (tokens, slots, start).

(** The inner [None] is the returned null pointer. *)
Definition sdssplitlen (s : list Z) (len : Z) (sep : list Z) (seplen : Z)
  : option (option (list sds)) :=
  if (seplen <? 1) || (len <? 0) then Some None
  else if len =? 0 then Some (Some [])
  else
    '(tokens, slots, start) ← split_loop (Z.to_nat len) s len sep seplen [] 5 0 0;
    tok ← (p ← rd_block s start (zlen s - start); sdsnewlen (Some p) (len - start));
    tokens ← put_token tokens slots tok;
    Some (Some tokens).

Fixpoint join_loop (argv : list (list Z)) (join : sds) (sep : list Z) : option sds :=
  match argv with
  | [] => Some join
  | a :: argv =>
      join ← sdscat join a;
      join ← match argv with [] => Some join | _ => sdscat join sep end;
      join_loop argv join sep
  end.

Definition sdsjoin (argv : list (list Z)) (sep : list Z) : option sds :=
  join ← sdsempty; join_loop argv join sep.

(** ** Quoting *)

Definition hex_char (n : Z) : Z := if n <? 10 then ch0 + n else 87 + n.

Definition repr_char (s : sds) (c : Z) : option sds :=
  if (c =? 92) || (c =? 34) then sdscatprintf s 3 [92; c]
  else if c =? 10 then sdscatlen s [92; 110; 0] 2
  else if c =? 13 then sdscatlen s [92; 114; 0] 2
  else if c =? 9 then sdscatlen s [92; 116; 0] 2
  else if c =? 7 then sdscatlen s [92; 97; 0] 2
  else if c =? 8 then sdscatlen s [92; 98; 0] 2
  else if is_print c then sdscatprintf s 2 [c]
  else sdscatprintf s 6 [92; 120; hex_char (c / 16); hex_char (c mod 16)].

Fixpoint repr_loop (n : nat) (s : sds) (p : list Z) (i : Z) : option sds :=
  match n with
  | O => Some s
  | S n => c ← rd p i; s ← repr_char s c; repr_loop n s p (i + 1)
  end.

Definition sdscatrepr (s : sds) (p : list Z) (len : Z) : option sds :=
  s ← sdscatlen s [34; 0] 1;
  s ← repr_loop (Z.to_nat len) s p 0;
  sdscatlen s [34; 0] 1.

Definition is_hex_digit (c : Z) : bool :=
  ((48 <=? c) && (c <=? 57)) || ((97 <=? c) && (c <=? 102)) || ((65 <=? c) && (c <=? 70)).

Definition hex_digit_to_int (c : Z) : Z :=
  if (48 <=? c) && (c <=? 57) then c - 48
  else if (97 <=? c) && (c <=? 102) then c - 87
  else if (65 <=? c) && (c <=? 70) then c - 55
  else 0.

(** The byte of a hexadecimal escape at [p], when there is one. *)
Definition hex_escape (line : list Z) (p : Z) : option (option Z) :=
  c ← rd line p;
  if negb (c =? 92) then Some None
  else
    c1 ← rd line (p + 1);
    if negb (c1 =? 120) then Some None
    else
      c2 ← rd line (p + 2);
      if negb (is_hex_digit c2) then Some None
      else
        c3 ← rd line (p + 3);
        if negb (is_hex_digit c3) then Some None
        else Some (Some (u8 (hex_digit_to_int c2 * 16 + hex_digit_to_int c3))).

Definition unescape (c : Z) : Z :=
  if c =? 110 then 10 else if c =? 114 then 13 else if c =? 116 then 9
  else if c =? 98 then 8 else if c =? 97 then 7 else c.

(** What one turn of [while(!done)] does before [if ( *p) p++]. *)
Inductive sa_step :=
  | SaErr
  | SaGo (p : Z) (current : sds) (inq insq done : bool).

Definition sa_quote_end (line : list Z) (p : Z) (current : sds) (inq insq : bool)
  : option sa_step :=
  c1 ← rd line (p + 1);
  if negb (c1 =? 0) && negb (is_space c1) then Some SaErr
  else Some (SaGo p current inq insq true).

Definition sa_inq (line : list Z) (p : Z) (current : sds) : option sa_step :=
  h ← hex_escape line p;
  match h with
  | Some byte => current ← sdscatlen current [byte] 1; Some (SaGo (p + 3) current true false false)
  | None =>
      c ← rd line p;
      c1 ← (if c =? 92 then rd line (p + 1) else Some 0);
      if (c =? 92) && negb (c1 =? 0) then
        current ← sdscatlen current [unescape c1] 1;
        Some (SaGo (p + 1) current true false false)
      else if c =? 34 then sa_quote_end line p current true false
      else if c =? 0 then Some SaErr
      else current ← sdscatlen current [c] 1; Some (SaGo p current true false false)
  end.

Definition sa_insq (line : list Z) (p : Z) (current : sds) : option sa_step :=
  c ← rd line p;
  c1 ← (if c =? 92 then rd line (p + 1) else Some 0);
  if (c =? 92) && (c1 =? 39) then
    current ← sdscatlen current [39] 1; Some (SaGo (p + 1) current false true false)
  else if c =? 39 then sa_quote_end line p current false true
  else if c =? 0 then Some SaErr
  else current ← sdscatlen current [c] 1; Some (SaGo p current false true false).

Definition sa_plain (line : list Z) (p : Z) (current : sds) : option sa_step :=
  c ← rd line p;
  if (c =? 32) || (c =? 10) || (c =? 13) || (c =? 9) || (c =? 0) then
    Some (SaGo p current false false true)
  else if c =? 34 then Some (SaGo p current true false false)
  else if c =? 39 then Some (SaGo p current false true false)
  else current ← sdscatlen current [c] 1; Some (SaGo p current false false false).

(** [while(!done)]; the inner [None] is [goto err]. *)
Fixpoint sa_token (fuel : nat) (line : list Z) (p : Z) (current : sds) (inq insq : bool)
  : option (option (Z * sds)) :=
  r ← (if inq then sa_inq line p current
       else if insq then sa_insq line p current else sa_plain line p current);
  match r with
  | SaErr => Some None
  | SaGo p current inq insq done =>
      c ← rd line p;
      let p := if negb (c =? 0) then p + 1 else p in
      if done then Some (Some (p, current))
      else match fuel with O => None | S fuel => sa_token fuel line p current inq insq end
  end.

Fixpoint skip_blanks (fuel : nat) (line : list Z) (p : Z) : option Z :=
  c ← rd line p;
  if negb (c =? 0) && is_space c then
    match fuel with O => None | S fuel => skip_blanks fuel line (p + 1) end
  else Some p.

(** [while(1)]; the inner [None] is the null pointer returned on errors. *)
Fixpoint sa_loop (fuel : nat) (line : list Z) (p : Z) (vector : list sds)
  : option (option (list sds)) :=
  p ← skip_blanks (length line) line p;
  c ← rd line p;
  if negb (c =? 0) then
    current ← sdsempty;
    r ← sa_token (length line) line p current false false;
    match r with
    | None => Some None
    | Some (p, current) =>
        match fuel with
        | O => None
        | S fuel => sa_loop fuel line p (vector ++ [current])
        end
    end
  else Some (Some vector).

Definition sdssplitargs (line : list Z) : option (option (list sds)) :=
  sa_loop (length line) line 0 [].

End sds.

(** ** What a string holds *)

(** [s] holds the bytes [c]: header and terminator agree with the buffer. *)
Definition holds (s : sds) (c : list Z) : Prop :=
  exists rest, s = mkSds (zlen c) (zlen rest) (c ++ 0 :: rest) /\ zlen c + zlen rest < 2 ^ 32.

(** The strings the theorems are about; Redis limits them to 512 MB. *)
Definition SDS_LIM : Z := 2 ^ 31.

Lemma holds_len s c : holds s c -> slen s = zlen c.
Proof. by intros (rest & -> & _). Qed.

Lemma holds_rd_block s c : holds s c -> rd_block (sbuf s) 0 (zlen c) = Some c.
Proof.
  intros (rest & -> & _). cbn [sbuf].
  by rewrite (rd_block_mid [] c (0 :: rest)).
Qed.

Lemma holds_inj s c c' : holds s c -> holds s c' -> c = c'.
Proof.
  intros H H'. pose proof (holds_len _ _ H) as Hl. rewrite (holds_len _ _ H') in Hl.
  apply holds_rd_block in H, H'. rewrite Hl in H'. congruence.
Qed.

Section sds_proofs.
Context (uninit : nat -> Z).

Lemma sdsnewlen_spec p b :
  rd_block p 0 (zlen b) = Some b -> zlen b < SDS_LIM ->
  exists s, sdsnewlen uninit (Some p) (zlen b) = Some s /\ holds s b.
Proof.
  intros Hp Hb. unfold SDS_LIM in Hb. pose proof (zlen_nonneg b). unfold sdsnewlen.
  destruct (realloc_grow uninit [] (zlen b + 1)) as (fresh & -> & Hf & _);
    [rewrite zlen_nil; lia|].
  rewrite zlen_nil in Hf. cbn [app].
  destruct (split_last fresh) as (pre & x & ->); [lia|]. zlen.
  exists (mkSds (zlen b) 0 (b ++ [0])). split; [|exists []; split; [done|zlens; lia]].
  assert ((if zlen b =? 0 then Some (pre ++ [x])
           else b0 ← rd_block p 0 (zlen b); wr_block (pre ++ [x]) 0 b0) = Some (b ++ [x])) as ->.
  { destruct (Z.eqb_spec (zlen b) 0) as [Hz|Hz].
    - assert (zlen pre = 0) as Hp0%zlen_zero by lia. apply zlen_zero in Hz. by subst.
    - rewrite Hp. cbn [mbind option_bind].
      rewrite (wr_block_mid [] pre [x]); [done|done|done|lia]. }
  cbn [mbind option_bind]. rewrite wr_here by done. cbn [mbind option_bind].
  by rewrite uwrap_small by lia.
Qed.

Lemma sdsempty_spec : exists s, sdsempty uninit = Some s /\ holds s [].
Proof. apply (sdsnewlen_spec [0] []); [done|]. unfold SDS_LIM. zlens. lia. Qed.

Lemma makeroom_spec s c addlen :
  holds s c -> 0 <= addlen -> zlen c + addlen <= SDS_LIM ->
  exists rest, sdsMakeRoomFor uninit s addlen = mkSds (zlen c) (zlen rest) (c ++ 0 :: rest) /\
    addlen <= zlen rest /\ zlen c + zlen rest < 2 ^ 32.
Proof.
  intros (rest & -> & Hlim) Ha Hl. unfold SDS_LIM in Hl. unfold sdsMakeRoomFor, sdsavail, sdslen.
  cbn [slen sfree sbuf]. pose proof (zlen_nonneg c). pose proof (zlen_nonneg rest).
  destruct (Z.geb_spec (zlen rest) addlen); [by exists rest|].
  unfold SDS_MAX_PREALLOC. rewrite (uwrap_small 64 (zlen c + addlen)) by lia.
  set (n := if _ <? _ then _ else _).
  assert (zlen c + addlen <= n < 2 ^ 32) as Hn
    by (unfold n; destruct (Z.ltb_spec (zlen c + addlen) (1024 * 1024)); lia).
  rewrite (uwrap_small 64 n), (uwrap_small 64 (n + 1)), (uwrap_small 32) by lia.
  destruct (realloc_grow uninit (c ++ 0 :: rest) (n + 1)) as (fresh & -> & Hf & _);
    [zlens; lia|]. zlen.
  exists (rest ++ fresh). zlens. rewrite <- app_assoc. cbn [app].
  split_and!; [f_equal; lia|lia|lia].
Qed.

Lemma sdscatlen_spec s c t b :
  holds s c -> rd_block t 0 (zlen b) = Some b -> zlen c + zlen b <= SDS_LIM ->
  exists s', sdscatlen uninit s t (zlen b) = Some s' /\ holds s' (c ++ b).
Proof.
  intros Hs Ht Hl. pose proof (zlen_nonneg b). pose proof (zlen_nonneg c).
  unfold sdscatlen, sdslen. rewrite (holds_len _ _ Hs).
  destruct (makeroom_spec s c (zlen b) Hs) as (rest & -> & Hr & Hlim); [lia|lia|].
  rewrite Ht. cbn [mbind option_bind sbuf slen sfree]. unfold SDS_LIM in Hl.
  assert (exists pre x post, 0 :: rest = pre ++ x :: post /\ zlen pre = zlen b)
    as (pre & x & post & Hsplit & Hpre).
  { destruct (rd_is_Some (0 :: rest) (zlen b)) as [x Hx]; [zlens; lia|].
    destruct (rd_mid _ _ _ Hx) as (pre & post & ? & ?). eauto. }
  rewrite Hsplit, (wr_block_mid c pre (x :: post)); [|done|done|lia].
  cbn [mbind option_bind]. rewrite app_assoc, wr_here by (zlens; lia).
  cbn [mbind option_bind]. eexists. split; [done|].
  exists post. assert (zlen rest = zlen b + zlen post) as Hz.
  { apply (f_equal zlen) in Hsplit. rewrite zlen_app, !zlen_cons in Hsplit. lia. }
  zlens. rewrite !uwrap_small by lia. split; [f_equal; lia|lia].
Qed.

Lemma strlen_app l rest : Forall (fun c => c <> 0) l -> strlen (l ++ 0 :: rest) = Some (zlen l).
Proof. intros. unfold strlen. by rewrite c_str_app. Qed.

Lemma sdscat_spec s c l rest :
  holds s c -> Forall (fun c => c <> 0) l -> zlen c + zlen l <= SDS_LIM ->
  exists s', sdscat uninit s (l ++ 0 :: rest) = Some s' /\ holds s' (c ++ l).
Proof.
  intros Hs Hl Hlim. unfold sdscat. rewrite strlen_app by done. cbn [mbind option_bind].
  apply sdscatlen_spec; [done| |done]. by apply (rd_block_mid [] l (0 :: rest)).
Qed.

Lemma vsnprintf_fits pre text :
  zlen text <= zlen pre -> forall y,
  exists rest, vsnprintf (pre ++ [0; y]) (zlen pre + 2) text = Some (text ++ 0 :: rest) /\
    rd (text ++ 0 :: rest) (zlen pre) = Some 0.
Proof.
  intros Hle y. pose proof (zlen_nonneg text). unfold vsnprintf.
  rewrite take_ge by (unfold zlen in *; lia).
  destruct (Z.eq_dec (zlen text) (zlen pre)) as [Heq|Hne].
  - exists [y]. change (pre ++ [0; y]) with ([] ++ pre ++ [0] ++ [y]). rewrite (app_assoc pre).
    rewrite (wr_block_mid [] (pre ++ [0]) [y]); [|done|done|zlens; lia].
    rewrite <- Heq, <- app_assoc. split; [done|apply rd_at].
  - destruct (rd_is_Some pre (zlen text)) as [x Hx]; [lia|].
    destruct (rd_mid _ _ _ Hx) as (a & b & -> & Ha). zlen.
    exists (b ++ [0; y]). rewrite <- app_assoc. cbn [app].
    change (a ++ x :: b ++ [0; y]) with (a ++ [x] ++ b ++ [0; y]). rewrite app_assoc.
    rewrite (wr_block_mid [] (a ++ [x]) (b ++ [0; y])); [|done|done|zlens; lia].
    rewrite <- app_assoc. split; [done|].
    change (text ++ 0 :: b ++ [0; y]) with (text ++ (0 :: b) ++ 0 :: [y]).
    rewrite app_assoc. apply rd_here. zlens. lia.
Qed.

Lemma vsnprintf_cut buf text :
  Forall (fun c => c <> 0) text -> 2 <= zlen buf -> zlen buf - 2 < zlen text ->
  exists buf' c, vsnprintf buf (zlen buf) text = Some buf' /\ rd buf' (zlen buf - 2) = Some c /\
    c <> 0.
Proof.
  intros Ht Hb Hl. unfold vsnprintf.
  destruct (rd_is_Some text (zlen buf - 2)) as [c Hc]; [lia|].
  destruct (rd_mid _ _ _ Hc) as (a & b & -> & Ha).
  exists (a ++ [c; 0]), c.
  assert (take (Z.to_nat (zlen buf - 1)) (a ++ c :: b) = a ++ [c]) as ->.
  { rewrite take_app, take_ge by (unfold zlen in *; lia). f_equal.
    replace (Z.to_nat (zlen buf - 1) - length a)%nat with 1%nat by (unfold zlen in *; lia). done. }
  rewrite wr_block_ok by (zlens; lia). cbn [app take Z.to_nat].
  rewrite drop_ge, app_nil_r by (unfold zlen in *; rewrite !length_app; simpl; lia).
  rewrite <- app_assoc. cbn [app].
  split_and!; [done|apply rd_here; lia|]. by eapply (rd_Forall _ _ _ _ Ht).
Qed.

Lemma wr_sentinel (buf : list Z) :
  2 <= zlen buf -> exists pre y, wr buf (zlen buf - 2) 0 = Some (pre ++ [0; y]) /\
    zlen buf = zlen pre + 2.
Proof.
  intros Hb. destruct (rd_is_Some buf (zlen buf - 2)) as [x Hx]; [lia|].
  destruct (rd_mid _ _ _ Hx) as (pre & post & Hsplit & Hpre).
  assert (zlen post = 1) as Hpost.
  { apply (f_equal zlen) in Hsplit. rewrite zlen_app, zlen_cons in Hsplit. lia. }
  destruct post as [|y [|]]; [done| |].
  - exists pre, y. split; [|lia]. rewrite <- Hpre, Hsplit. by apply wr_here.
  - rewrite !zlen_cons in Hpost. pose proof (zlen_nonneg l). lia.
Qed.

(** The buffer that the doubling loop leaves holds the whole text. *)
Lemma vprintf_loop_spec fuel : forall buf text,
  Forall (fun c => c <> 0) text -> 2 <= zlen buf -> zlen text + 2 <= zlen buf * 2 ^ Z.of_nat fuel ->
  exists rest, vprintf_loop uninit fuel buf (zlen buf) text = Some (text ++ 0 :: rest).
Proof.
  induction fuel as [|fuel IH]; intros buf text Ht Hb Hf; cbn [vprintf_loop];
    destruct (wr_sentinel buf Hb) as (pre & y & -> & Hz); cbn [mbind option_bind];
    (destruct (Z_le_gt_dec (zlen text) (zlen pre)) as [Hle|Hgt];
     [destruct (vsnprintf_fits pre text Hle y) as (rest & Hv & Hrd); rewrite <- Hz in Hv;
      rewrite Hv; cbn [mbind option_bind]; replace (zlen buf - 2) with (zlen pre) by lia;
      rewrite Hrd; by exists rest|]).
  - simpl in Hf. lia.
  - assert (zlen buf = zlen (pre ++ [0; y])) as Hb' by (zlens; lia). rewrite !Hb'.
    destruct (vsnprintf_cut (pre ++ [0; y]) text Ht) as (b' & c & -> & Hc & Hne); [lia|lia|].
    cbn [mbind option_bind]. rewrite Hc. cbn [mbind option_bind].
    destruct (Z.eqb_spec c 0); [done|]. cbn [negb]. rewrite <- Hb'.
    assert (zlen (realloc uninit [] (zlen buf * 2)) = zlen buf * 2) as Hr
      by (apply zlen_realloc; lia).
    destruct (IH (realloc uninit [] (zlen buf * 2)) text Ht) as [rest Hrest]; [lia| |].
    + rewrite Hr. replace (Z.of_nat (S fuel)) with (Z.of_nat fuel + 1) in Hf by lia.
      rewrite Z.pow_add_r in Hf by lia. lia.
    + rewrite Hr in Hrest. by exists rest.
Qed.

Lemma sdscatprintf_spec s c fmtlen text :
  holds s c -> Forall (fun c => c <> 0) text -> 0 <= fmtlen < 2 ^ 32 ->
  zlen c + zlen text <= SDS_LIM ->
  exists s', sdscatprintf uninit s fmtlen text = Some s' /\ holds s' (c ++ text).
Proof.
  intros Hs Ht Hf Hl. unfold sdscatprintf, sdscatvprintf. unfold SDS_LIM in Hl.
  set (n := if _ >? _ then _ else _).
  assert (1024 <= n) as Hn by (unfold n; destruct (Z.gtb_spec (fmtlen * 2) 1024); lia).
  assert (zlen (realloc uninit [] n) = n) as Hr by (apply zlen_realloc; lia).
  pose proof (zlen_nonneg c).
  destruct (vprintf_loop_spec 64 (realloc uninit [] n) text Ht) as [rest Hrest]; [lia| |].
  { rewrite Hr. transitivity (1024 * 2 ^ Z.of_nat 64); [|apply Z.mul_le_mono_nonneg_r; lia].
    change (2 ^ Z.of_nat 64) with 18446744073709551616. lia. }
  rewrite Hr in Hrest. rewrite Hrest. cbn [mbind option_bind].
  by apply sdscat_spec.
Qed.

(** ** Quoting and parsing back *)

(** The text [sdscatrepr] appends for one byte. *)
Definition esc (c : Z) : list Z :=
  if (c =? 92) || (c =? 34) then [92; c]
  else if c =? 10 then [92; 110] else if c =? 13 then [92; 114] else if c =? 9 then [92; 116]
  else if c =? 7 then [92; 97] else if c =? 8 then [92; 98]
  else if is_print c then [c]
  else [92; 120; hex_char (c / 16); hex_char (c mod 16)].

Definition quoted (p : list Z) : list Z := 34 :: flat_map esc p ++ [34].

(** A property of every byte, by evaluation. *)
Lemma byte_check (f : Z -> bool) c :
  forallb (fun n : nat => f (Z.of_nat n)) (seq 0 256) = true -> byte_ok c -> f c = true.
Proof.
  unfold byte_ok. intros Ha Hc. rewrite forallb_forall in Ha. specialize (Ha (Z.to_nat c)).
  rewrite List.in_seq, Z2Nat.id in Ha by lia. apply Ha. lia.
Qed.

Lemma esc_check c :
  byte_ok c -> Forall (fun x => x <> 0) (esc c) /\ 1 <= zlen (esc c) <= 4.
Proof.
  intros Hc. pose proof (byte_check (fun c => forallb (fun x => negb (x =? 0)) (esc c) &&
    (1 <=? zlen (esc c)) && (zlen (esc c) <=? 4)) c eq_refl Hc) as Ha.
  simpl in Ha. rewrite !andb_true_iff, forallb_forall, !Z.leb_le in Ha.
  destruct Ha as [[Ha H1] H4]. split; [|lia].
  apply Forall_forall. intros x Hx%list_elem_of_In%Ha. by destruct (Z.eqb_spec x 0).
Qed.

Lemma hex_check c :
  byte_ok c -> is_hex_digit (hex_char (c / 16)) = true /\
  is_hex_digit (hex_char (c mod 16)) = true /\
  u8 (hex_digit_to_int (hex_char (c / 16)) * 16 + hex_digit_to_int (hex_char (c mod 16))) = c.
Proof.
  intros Hc. pose proof (byte_check (fun c => is_hex_digit (hex_char (c / 16)) &&
    is_hex_digit (hex_char (c mod 16)) &&
    (u8 (hex_digit_to_int (hex_char (c / 16)) * 16 + hex_digit_to_int (hex_char (c mod 16))) =? c))
    c eq_refl Hc) as Ha.
  simpl in Ha. rewrite !andb_true_iff, Z.eqb_eq in Ha. tauto.
Qed.

Lemma repr_char_spec s h c :
  holds s h -> byte_ok c -> zlen h + 4 <= SDS_LIM ->
  exists s', repr_char uninit s c = Some s' /\ holds s' (h ++ esc c).
Proof.
  intros Hs Hc Hl. destruct (esc_check c Hc) as [Hnz Hlen].
  assert (forall fmtlen, 0 <= fmtlen < 2 ^ 32 ->
    exists s', sdscatprintf uninit s fmtlen (esc c) = Some s' /\ holds s' (h ++ esc c)) as Hp
    by (intros; apply sdscatprintf_spec; (done || lia)).
  assert (forall x, esc c = [92; x] ->
    exists s', sdscatlen uninit s [92; x; 0] 2 = Some s' /\ holds s' (h ++ esc c)) as Hcat.
  { intros x ->. apply (sdscatlen_spec s h [92; x; 0] [92; x]); [done|done|].
    change (zlen [92; x]) with 2. lia. }
  unfold repr_char. unfold esc in *.
  destruct ((c =? 92) || (c =? 34)); [by apply Hp|].
  repeat (match goal with |- context [if c =? ?n then _ else _] => destruct (c =? n) end;
    [by apply Hcat|]).
  by destruct (is_print c); apply Hp.
Qed.

Lemma repr_loop_spec p : forall pre s h,
  holds s h -> bytes_ok p -> zlen h + 4 * zlen p <= SDS_LIM ->
  exists s', repr_loop uninit (length p) s (pre ++ p) (zlen pre) = Some s' /\
    holds s' (h ++ flat_map esc p).
Proof.
  induction p as [|c p IH]; intros pre s h Hs Hb Hl.
  { exists s. simpl. by rewrite app_nil_r. }
  apply Forall_cons in Hb as [Hc Hb]. rewrite zlen_cons in Hl. pose proof (zlen_nonneg p).
  cbn [repr_loop length]. rewrite rd_at. cbn [mbind option_bind].
  destruct (repr_char_spec s h c Hs Hc) as (s1 & -> & Hs1); [lia|]. cbn [mbind option_bind].
  destruct (esc_check c Hc) as [_ Hlen].
  destruct (IH (pre ++ [c]) s1 (h ++ esc c) Hs1 Hb) as (s' & Hrun & Hs'); [zlens; lia|].
  rewrite <- app_assoc in Hrun. cbn [app] in Hrun.
  replace (zlen (pre ++ [c])) with (zlen pre + 1) in Hrun by (zlens; lia).
  exists s'. split; [done|]. cbn [flat_map]. by rewrite app_assoc.
Qed.

Lemma sdscatrepr_spec s h p :
  holds s h -> bytes_ok p -> zlen h + 4 * zlen p + 2 <= SDS_LIM ->
  exists s', sdscatrepr uninit s p (zlen p) = Some s' /\ holds s' (h ++ quoted p).
Proof.
  intros Hs Hb Hl. unfold sdscatrepr. pose proof (zlen_nonneg p).
  destruct (sdscatlen_spec s h [34; 0] [34] Hs) as (s1 & Hrun1 & Hs1); [done|zlens; lia|].
  change (zlen [34]) with 1 in Hrun1. rewrite Hrun1. cbn [mbind option_bind].
  destruct (repr_loop_spec p [] s1 (h ++ [34]) Hs1 Hb) as (s2 & Hrun2 & Hs2); [zlens; lia|].
  cbn [app] in Hrun2. change (zlen []) with 0 in Hrun2.
  replace (Z.to_nat (zlen p)) with (length p) by (unfold zlen; lia).
  rewrite Hrun2. cbn [mbind option_bind].
  assert (zlen (flat_map esc p) <= 4 * zlen p) as Hf.
  { clear -Hb. induction Hb as [|c p Hc _ IH]; [done|]. cbn [flat_map].
    rewrite zlen_app, zlen_cons. pose proof (esc_check c Hc). lia. }
  destruct (sdscatlen_spec s2 _ [34; 0] [34] Hs2) as (s3 & Hrun3 & Hs3); [done|zlens; lia|].
  change (zlen [34]) with 1 in Hrun3. exists s3. split; [done|].
  unfold quoted. by rewrite <- !app_assoc in Hs3.
Qed.

Lemma rd_plus {A} (pre l : list A) k : 0 <= k -> rd (pre ++ l) (zlen pre + k) = rd l k.
Proof. intros. rewrite rd_app_r by lia. f_equal. lia. Qed.

Lemma rd_1 {A} (a b : A) l : rd (a :: b :: l) 1 = Some b.
Proof. reflexivity. Qed.
Lemma rd_2 {A} (a b c : A) l : rd (a :: b :: c :: l) 2 = Some c.
Proof. reflexivity. Qed.
Lemma rd_3 {A} (a b c d : A) l : rd (a :: b :: c :: d :: l) 3 = Some d.
Proof. reflexivity. Qed.

#[local] Arguments sdscatlen : simpl never.

(** Inside double quotes the parser reads one escaped byte back. *)
Lemma sa_inq_esc pre c tl cur h :
  byte_ok c -> holds cur h -> zlen h + 1 <= SDS_LIM ->
  exists cur', sa_inq uninit (pre ++ esc c ++ tl) (zlen pre) cur
      = Some (SaGo (zlen pre + (zlen (esc c) - 1)) cur' true false false) /\ holds cur' (h ++ [c]).
Proof.
  intros Hc Hcur Hl.
  destruct (sdscatlen_spec cur h [c] [c] Hcur) as (cur' & Hcat & Hcur'); [done|zlens; lia|].
  change (zlen [c]) with 1 in Hcat. exists cur'. split; [|done].
  pose proof (esc_check c Hc) as [Hnz _]. pose proof (hex_check c Hc) as (Hx1 & Hx2 & Hx).
  unfold sa_inq, hex_escape. unfold esc in *.
  destruct (Z.eqb_spec c 92) as [->|H92]; [|destruct (Z.eqb_spec c 34) as [->|H34]]; cbn [orb] in *.
  1, 2: cbn [app]; rewrite !rd_at, !rd_plus, rd_1 by lia; cbn; cbn in Hcat; rewrite Hcat; cbn;
    do 2 f_equal; lia.
  repeat (match goal with |- context [if c =? ?n then _ else _] => destruct (Z.eqb_spec c n) as [->|] end;
    [cbn [app]; rewrite !rd_at, !rd_plus, rd_1 by lia; cbn; cbn in Hcat; rewrite Hcat; cbn;
     do 2 f_equal; lia|]).
  destruct (is_print c).
  - cbn [app]. rewrite !rd_at. cbn [mbind option_bind].
    destruct (Z.eqb_spec c 92); [done|]. cbn [negb mbind option_bind].
    cbn [mbind option_bind].
    destruct (Z.eqb_spec c 92); [done|]. cbn [mbind option_bind andb].
    destruct (Z.eqb_spec c 34); [done|]. apply Forall_cons in Hnz as [Hnz _].
    destruct (Z.eqb_spec c 0); [done|]. rewrite Hcat. cbn. do 2 f_equal. change (zlen [c]) with 1. lia.
  - cbn [app]. rewrite !rd_at, !rd_plus, rd_1, rd_2, rd_3 by lia.
    cbn [mbind option_bind Z.eqb Pos.eqb negb]. rewrite Hx1. cbn [negb].
    rewrite Hx2. cbn [negb mbind option_bind].
    rewrite Hx, Hcat. cbn [mbind option_bind]. do 2 f_equal.
Qed.

(** The whole token, up to the closing quote and the end of the line. *)
Lemma sa_token_quoted p : forall fuel pre rest cur h,
  (length p <= fuel)%nat -> bytes_ok p -> holds cur h -> zlen h + zlen p <= SDS_LIM ->
  exists cur', sa_token uninit fuel (pre ++ flat_map esc p ++ 34 :: 0 :: rest) (zlen pre) cur true false
      = Some (Some (zlen pre + zlen (flat_map esc p) + 1, cur')) /\ holds cur' (h ++ p).
Proof.
  induction p as [|c p IH]; intros fuel pre rest cur h Hf Hb Hcur Hl.
  - exists cur. rewrite app_nil_r. split; [|done]. cbn [flat_map app].
    destruct fuel; cbn [sa_token]; unfold sa_inq, hex_escape, sa_quote_end;
      rewrite !rd_at; cbn [mbind option_bind Z.eqb Pos.eqb negb andb]; rewrite rd_plus, rd_1 by lia;
      cbn [mbind option_bind Z.eqb Pos.eqb negb andb]; rewrite !rd_at;
      cbn [mbind option_bind Z.eqb Pos.eqb negb andb]; do 3 f_equal; change (zlen (@nil Z)) with 0; lia.
  - apply Forall_cons in Hb as [Hc Hb]. rewrite zlen_cons in Hl. pose proof (zlen_nonneg p).
    destruct fuel as [|fuel]; [simpl in Hf; lia|]. simpl in Hf.
    cbn [flat_map]. rewrite <- app_assoc.
    destruct (sa_inq_esc pre c (flat_map esc p ++ 34 :: 0 :: rest) cur h Hc Hcur)
      as (cur1 & Hin & Hcur1); [lia|].
    cbn [sa_token]. rewrite Hin. cbn [mbind option_bind].
    pose proof (esc_check c Hc) as [Hnz Hlen].
    destruct (rd_is_Some (esc c) (zlen (esc c) - 1)) as [x Hx]; [lia|].
    rewrite rd_plus, rd_app_l, Hx by lia. cbn [mbind option_bind].
    pose proof (rd_Forall _ _ _ _ Hnz Hx) as Hx0. cbv beta in Hx0.
    destruct (Z.eqb_spec x 0); [done|]. cbn [negb].
    destruct (IH fuel (pre ++ esc c) rest cur1 (h ++ [c])) as (cur' & Hrun & Hcur');
      [lia|done|done|zlens; lia|].
    exists cur'. rewrite <- app_assoc in Hcur'. split; [|done].
    rewrite <- app_assoc in Hrun. rewrite zlen_app in Hrun.
    replace (zlen pre + (zlen (esc c) - 1) + 1) with (zlen pre + zlen (esc c)) by lia.
    rewrite Hrun. do 3 f_equal. zlens. lia.
Qed.

(** What [sdscatrepr] quotes, [sdssplitargs] reads back: for every byte
    string, the quoted form is parsed as one argument that holds exactly that
    string; neither function fails or leaves its buffers. *)
Theorem sdssplitargs_catrepr p :
  bytes_ok p -> 4 * zlen p + 2 <= SDS_LIM ->
  exists s0 s tok, sdsempty uninit = Some s0 /\ sdscatrepr uninit s0 p (zlen p) = Some s /\
    sdssplitargs uninit (sbuf s) = Some (Some [tok]) /\ holds tok p.
Proof.
  intros Hb Hl. destruct sdsempty_spec as (s0 & He & Hs0).
  destruct (sdscatrepr_spec s0 [] p Hs0 Hb) as (s & Hrepr & Hs); [zlens; lia|].
  destruct Hs as (rest & Hs & _). cbn [app] in Hs.
  subst s. eexists s0, _. unfold sdssplitargs. unfold quoted in *.
  set (line := (34 :: flat_map esc p ++ [34]) ++ 0 :: rest).
  assert (line = [34] ++ flat_map esc p ++ 34 :: 0 :: rest) as Hline.
  { unfold line. cbn [app]. by rewrite <- app_assoc. }
  assert (exists n, length line = S (S n) /\ (length p <= S n)%nat) as (n & Hn & Hpn).
  { rewrite Hline. cbn [app length]. rewrite length_app. cbn [length].
    exists (length (flat_map esc p) + length rest + 1)%nat. split; [lia|].
    assert (length p <= length (flat_map esc p))%nat; [|lia].
    clear -Hb. induction Hb as [|c p Hc _ IH]; [done|]. cbn [flat_map length].
    rewrite length_app. pose proof (esc_check c Hc) as [_ ?]. unfold zlen in *. lia. }
  destruct (sa_token_quoted p (S n) [34] rest s0 [] Hpn Hb Hs0) as (tok & Htok & Hholds);
    [zlens; pose proof (zlen_nonneg p); lia|].
  exists tok. split; [exact He|]. split; [exact Hrepr|]. split; [|exact Hholds].
  cbn [sbuf]. fold line. rewrite Hn. cbn [sa_loop]. rewrite Hn.
  assert (skip_blanks (S (S n)) line 0 = Some 0) as -> by (rewrite Hline; reflexivity).
  cbn [mbind option_bind]. assert (rd line 0 = Some 34) as Hr0 by by rewrite Hline.
  rewrite Hr0. cbn [mbind option_bind Z.eqb negb]. rewrite He. cbn [mbind option_bind].
  assert (sa_token uninit (S (S n)) line 0 s0 false false
    = sa_token uninit (S n) line (0 + 1) s0 true false) as ->.
  { cbn [sa_token]. unfold sa_plain. rewrite Hr0.
    cbn [mbind option_bind Z.eqb Pos.eqb orb]. rewrite Hr0. reflexivity. }
  rewrite <- Hline in Htok. change (0 + 1) with (zlen [34]). rewrite Htok.
  cbn [mbind option_bind]. change (zlen [34]) with 1.
  assert (rd line (1 + zlen (flat_map esc p) + 1) = Some 0) as Hend.
  { rewrite Hline. replace (1 + zlen (flat_map esc p) + 1)
      with (zlen ([34] ++ flat_map esc p) + 1) by (zlens; lia).
    rewrite app_assoc, rd_plus by lia. apply rd_1. }
  cbn [skip_blanks]. rewrite Hend. cbn [mbind option_bind Z.eqb negb andb].
  rewrite Hend. cbn [mbind option_bind Z.eqb negb app]. done.
Qed.

(** ** Numbers *)

(** The digits the loop writes, least significant first, read back reversed. *)
Lemma ll2str_loop_spec (fuel : nat) : forall v out junk,
  0 <= v < 10 ^ Z.of_nat fuel -> Z.of_nat fuel <= zlen junk ->
  (1 <= fuel)%nat ->
  exists ds junk', ll2str_loop fuel (out ++ junk) (zlen out) v
      = Some (out ++ List.rev ds ++ junk', zlen out + zlen ds) /\
    numeral ds v /\ zlen ds + zlen junk' = zlen junk /\ zlen ds <= Z.of_nat fuel.
Proof.
  induction fuel as [|fuel IH]; intros v out junk Hv Hj Hf; [lia|].
  destruct junk as [|x junk]; [change (zlen (@nil Z)) with 0 in Hj; lia|].
  rewrite zlen_cons in Hj. cbn [ll2str_loop]. rewrite wr_here by done. cbn [mbind option_bind].
  pose proof (Z.mod_pos_bound v 10 ltac:(lia)) as Hm.
  pose proof (Z.div_mod v 10 ltac:(lia)) as Hdm.
  destruct (Z.eqb_spec (v / 10) 0) as [Hz|Hz].
  - exists [ch0 + v mod 10], junk. cbn [List.rev app]. split_and!; [done| |zlens; lia|zlens; lia].
    rewrite Hz in Hdm. replace (v mod 10) with v by lia. apply numeral_digit. lia.
  - destruct fuel as [|fuel].
    { exfalso. apply Hz. apply Z.div_small. simpl in Hv. lia. }
    destruct (IH (v / 10) (out ++ [ch0 + v mod 10]) junk) as (ds & junk' & Hrun & Hn & Hl & Hle);
      [|lia|lia|].
    { replace (Z.of_nat (S (S fuel))) with (Z.of_nat (S fuel) + 1) in Hv by lia.
      rewrite Z.pow_add_r in Hv by lia. split; [apply Z.div_pos; lia|].
      apply Z.div_lt_upper_bound; lia. }
    exists (ds ++ [ch0 + v mod 10]), junk'.
    rewrite <- app_assoc, zlen_app in Hrun. cbn [app] in Hrun. change (zlen [_]) with 1 in Hrun.
    rewrite Hrun, rev_app_distr, <- app_assoc. cbn [List.rev app]. split_and!.
    + do 2 f_equal. zlens. lia.
    + rewrite Hdm at 2. rewrite Z.mul_comm. apply numeral_snoc; [done| |done].
      assert (0 <= v / 10) by (apply Z.div_pos; lia). lia.
    + zlens. lia.
    + zlens. lia.
Qed.

Lemma swap_loop_spec (fuel : nat) : forall a mid b,
  zlen mid <= 2 * Z.of_nat fuel + 1 ->
  swap_loop fuel (a ++ mid ++ b) (zlen a) (zlen a + zlen mid - 1) = Some (a ++ List.rev mid ++ b).
Proof.
  induction fuel as [|fuel IH]; intros a mid b Hf.
  all: destruct mid as [|x mid];
    [cbn [swap_loop app List.rev]; change (zlen (@nil Z)) with 0;
     (destruct (Z.ltb_spec (zlen a) (zlen a + 0 - 1)); [lia|done])|].
  all: rewrite zlen_cons in Hf |- *; pose proof (zlen_nonneg mid).
  - assert (mid = []) as -> by (apply zlen_zero; lia). cbn [swap_loop app List.rev].
    change (zlen (@nil Z)) with 0. destruct (Z.ltb_spec (zlen a) (zlen a + (1 + 0) - 1)); [lia|done].
  - cbn [swap_loop]. destruct (Z.ltb_spec (zlen a) (zlen a + (1 + zlen mid) - 1)) as [Hlt|].
    2: { assert (mid = []) as -> by (apply zlen_zero; lia). done. }
    destruct (split_last mid) as (mid' & y & ->); [lia|].
    cbn [app]. rewrite rd_at. cbn [mbind option_bind].
    assert (zlen a + (1 + zlen (mid' ++ [y])) - 1 = zlen (a ++ x :: mid')) as -> by (zlens; lia).
    rewrite <- (app_assoc mid'). cbn [app].
    assert (a ++ x :: mid' ++ y :: b = (a ++ x :: mid') ++ y :: b) as Hassoc by by rewrite <- app_assoc.
    rewrite Hassoc, rd_at, <- Hassoc. cbn [mbind option_bind].
    rewrite wr_here by done. cbn [mbind option_bind].
    assert (a ++ y :: mid' ++ y :: b = (a ++ y :: mid') ++ y :: b) as -> by by rewrite <- app_assoc.
    rewrite wr_here by (zlens; lia). cbn [mbind option_bind].
    specialize (IH (a ++ [y]) mid' (x :: b)). rewrite zlen_app in Hf. change (zlen [y]) with 1 in Hf.
    rewrite <- !app_assoc in IH. cbn [app] in IH. rewrite <- !app_assoc. cbn [app].
    replace (zlen (a ++ [y])) with (zlen a + 1) in IH by (zlens; lia).
    replace (zlen (a ++ x :: mid') - 1) with (zlen a + 1 + zlen mid' - 1) by (zlens; lia).
    rewrite IH by lia. cbn [List.rev]. rewrite rev_app_distr, <- !app_assoc. done.
Qed.

Lemma ull_digits_spec (v : Z) buf :
  0 <= v < 2 ^ 64 -> zlen buf = SDS_LLSTR_SIZE ->
  exists ds junk, ll2str_loop 20 buf 0 v = Some (List.rev ds ++ junk, zlen ds) /\
    numeral ds v /\ zlen ds + zlen junk = SDS_LLSTR_SIZE /\ zlen ds <= 20.
Proof.
  intros Hv Hb. unfold SDS_LLSTR_SIZE in *.
  destruct (ll2str_loop_spec 20 v [] buf) as (ds & junk & Hrun & Hn & Hl & Hle); [simpl; lia|lia|lia|].
  exists ds, junk. cbn [app] in Hrun. change (zlen []) with 0 in Hrun. rewrite Hrun.
  split_and!; [done|done|lia|lia].
Qed.

Lemma sdsull2str_spec v buf :
  0 <= v < 2 ^ 64 -> zlen buf = SDS_LLSTR_SIZE ->
  exists ds junk, sdsull2str buf v = Some (ds ++ 0 :: junk, zlen ds) /\ numeral ds v /\ zlen ds <= 20.
Proof.
  intros Hv Hb. destruct (ull_digits_spec v buf Hv Hb) as (ds & junk & Hrun & Hn & Hl & Hle).
  unfold sdsull2str. rewrite Hrun. cbn [mbind option_bind].
  destruct junk as [|x junk]; [change (zlen (@nil Z)) with 0 in Hl; unfold SDS_LLSTR_SIZE in Hl; lia|].
  assert (zlen (List.rev ds) = zlen ds) as Hr by (unfold zlen; by rewrite List.length_rev).
  rewrite wr_here by done. cbn [mbind option_bind].
  pose proof (swap_loop_spec 20 [] (List.rev ds) (0 :: junk)) as Hsw. cbn [app] in Hsw.
  change (zlen []) with 0 in Hsw. rewrite Hr, Z.add_0_l, rev_involutive in Hsw.
  rewrite Hsw by lia. cbn [mbind option_bind]. exists ds, junk. done.
Qed.

(** The number printer of the string library writes the decimal numeral of
    every 64-bit integer, sign included, in its 21-byte buffer. *)
Theorem sdsll2str_spec value buf :
  sfits 64 value -> zlen buf = SDS_LLSTR_SIZE ->
  exists ds junk, sdsll2str buf value = Some (ds ++ 0 :: junk, zlen ds) /\
    signed_numeral ds value /\ zlen ds <= 20.
Proof.
  unfold sfits. intros Hv Hb. unfold sdsll2str.
  set (v := if value <? 0 then _ else _).
  assert (v = Z.abs value) as Hva
    by (unfold v; destruct (Z.ltb_spec value 0); [rewrite uwrap_small|]; lia).
  destruct (ull_digits_spec v buf ltac:(lia) Hb) as (ds & junk & -> & Hn & Hl & Hle).
  cbn [mbind option_bind]. rewrite Hva in Hn. unfold SDS_LLSTR_SIZE in *.
  assert (zlen (List.rev ds) = zlen ds) as Hr by (unfold zlen; by rewrite List.length_rev).
  destruct junk as [|x junk]; [change (zlen (@nil Z)) with 0 in Hl; lia|]. rewrite zlen_cons in Hl.
  assert (zlen ds <= 19 \/ 0 <= value) as H19.
  { destruct (Z.leb_spec 0 value) as [|Hneg]; [by right|]. left.
    destruct (numeral_bounds _ _ Hn) as (_ & Hlow & _). specialize (Hlow ltac:(lia)).
    assert (zlen ds - 1 < 19); [|lia]. apply (Z.pow_lt_mono_r_iff 10); [lia|lia|].
    change (10 ^ 19) with 10000000000000000000. lia. }
  destruct (Z.ltb_spec value 0) as [Hneg|Hpos].
  - destruct junk as [|y junk]; [change (zlen (@nil Z)) with 0 in Hl; lia|].
    rewrite wr_here by done. cbn [mbind option_bind].
    change (List.rev ds ++ ch_minus :: y :: junk) with (List.rev ds ++ [ch_minus] ++ y :: junk).
    rewrite app_assoc, wr_here by (zlens; lia). cbn [mbind option_bind].
    pose proof (swap_loop_spec 20 [] (List.rev ds ++ [ch_minus]) (0 :: junk)) as Hsw.
    cbn [app] in Hsw. rewrite zlen_app, Hr in Hsw. change (zlen [ch_minus]) with 1 in Hsw.
    change (zlen []) with 0 in Hsw. rewrite Z.add_0_l, rev_app_distr, rev_involutive in Hsw.
    cbn [List.rev app] in Hsw. rewrite Hsw by lia. cbn [mbind option_bind].
    exists (ch_minus :: ds), junk. zlens. split_and!; [f_equal; f_equal; lia| |lia].
    right. split; [done|]. exists ds. split; [done|]. by replace (- value) with (Z.abs value) by lia.
  - cbn [mbind option_bind]. rewrite wr_here by done. cbn [mbind option_bind].
    pose proof (swap_loop_spec 20 [] (List.rev ds) (0 :: junk)) as Hsw. cbn [app] in Hsw.
    change (zlen []) with 0 in Hsw. rewrite Hr, Z.add_0_l, rev_involutive in Hsw.
    rewrite Hsw by lia. cbn [mbind option_bind]. exists ds, junk. split_and!; [done| |lia].
    left. split; [done|]. by replace value with (Z.abs value) by lia.
Qed.

(** ** Editing in place *)

(** Writing a prefix and its terminator in a buffer. *)
Lemma put_prefix buf b :
  zlen b < zlen buf ->
  exists buf1 rest, wr_block buf 0 b = Some buf1 /\ wr buf1 (zlen b) 0 = Some (b ++ 0 :: rest) /\
    zlen b + zlen rest + 1 = zlen buf.
Proof.
  intros Hl. pose proof (zlen_nonneg b). rewrite wr_block_ok by lia.
  destruct (rd_is_Some buf (zlen b)) as [x Hx]; [lia|].
  destruct (rd_mid _ _ _ Hx) as (pre & rest & -> & Hp). zlen.
  eexists _, rest. split; [done|]. cbn [Z.to_nat take app].
  rewrite Z.add_0_l, drop_app_length' by (unfold zlen in *; lia).
  split; [by apply wr_here|lia].
Qed.

Lemma sdscpylen_spec s c t b :
  holds s c -> rd_block t 0 (zlen b) = Some b -> zlen b <= SDS_LIM -> zlen c <= SDS_LIM ->
  exists s', sdscpylen uninit s t (zlen b) = Some s' /\ holds s' b.
Proof.
  intros Hs Ht Hl Hlc. pose proof (zlen_nonneg b). pose proof (zlen_nonneg c).
  pose proof Hs as (rest & -> & Hlim). pose proof (zlen_nonneg rest).
  unfold sdscpylen. cbn [slen sfree]. rewrite (uwrap_small 32 (_ + _)) by lia. unfold SDS_LIM in *.
  destruct (Z.ltb_spec (zlen rest + zlen c) (zlen b)) as [Hlt|Hge].
  - rewrite (uwrap_small 64) by lia.
    destruct (makeroom_spec _ c (zlen b - zlen c) Hs) as (rest' & -> & Hr & Hlim'); [lia|unfold SDS_LIM; lia|].
    rewrite Ht. cbn [mbind option_bind sbuf slen sfree].
    destruct (put_prefix (c ++ 0 :: rest') b) as (buf1 & rest2 & -> & Hwr & Hz); [zlens; lia|].
    cbn [mbind option_bind]. rewrite Hwr. cbn [mbind option_bind]. eexists. split; [done|].
    rewrite zlen_app, zlen_cons in Hz. exists rest2. pose proof (zlen_nonneg rest2).
    rewrite !(uwrap_small 32) by (rewrite ?uwrap_small; lia). split; [f_equal; lia|lia].
  - rewrite Ht. cbn [mbind option_bind sbuf slen sfree].
    destruct (put_prefix (c ++ 0 :: rest) b) as (buf1 & rest2 & -> & Hwr & Hz); [zlens; lia|].
    cbn [mbind option_bind]. rewrite Hwr. cbn [mbind option_bind]. eexists. split; [done|].
    rewrite zlen_app, zlen_cons in Hz. exists rest2. pose proof (zlen_nonneg rest2).
    rewrite !(uwrap_small 32) by lia. split; [f_equal; lia|lia].
Qed.

(** Keeping the first bytes after a move to the front. *)
Lemma shrink_spec s c a m b :
  holds s c -> c = a ++ m ++ b -> (forall skip : bool, (skip = true -> zlen a = 0 \/ zlen m = 0) ->
  exists buf buf', (if skip then Some (sbuf s) else memmove (sbuf s) 0 (zlen a) (zlen m)) = Some buf /\
    wr buf (zlen m) 0 = Some buf' /\
    holds (mkSds (u32 (zlen m)) (u32 (sfree s + u64 (slen s - zlen m))) buf') m).
Proof.
  intros (rest & -> & Hlim) Hc skip Hskip. cbn [sbuf sfree slen].
  assert (zlen c = zlen a + (zlen m + zlen b)) as Hz by (rewrite Hc; zlens; lia).
  pose proof (zlen_nonneg m). pose proof (zlen_nonneg a). pose proof (zlen_nonneg b).
  pose proof (zlen_nonneg rest).
  assert (forall rest', zlen m + zlen rest' + 1 = zlen (c ++ 0 :: rest) ->
    holds (mkSds (u32 (zlen m)) (u32 (zlen rest + u64 (zlen c - zlen m))) (m ++ 0 :: rest')) m) as Hh.
  { intros rest' Hr. rewrite zlen_app, zlen_cons in Hr. exists rest'.
    rewrite (uwrap_small 64), !(uwrap_small 32) by lia. split; [f_equal; lia|lia]. }
  destruct skip.
  - destruct (rd_is_Some (c ++ 0 :: rest) (zlen m)) as [x Hx]; [zlens; lia|].
    destruct (rd_mid _ _ _ Hx) as (pre & post & Hsplit & Hp).
    assert (pre = m) as ->.
    { destruct (Hskip eq_refl) as [->%zlen_zero|Hm%zlen_zero]; [|subst m; by apply zlen_zero].
      rewrite Hc in Hsplit. cbn [app] in Hsplit. rewrite <- app_assoc in Hsplit.
      apply app_inj_1 in Hsplit as [Hm _]; [done|]. unfold zlen in Hp. lia. }
    eexists _, _. split; [done|]. rewrite Hsplit. split; [by apply wr_here|].
    apply Hh. rewrite Hsplit. zlens. lia.
  - unfold memmove. rewrite (rd_block_mid a m (b ++ 0 :: rest)); [|by rewrite Hc, <- !app_assoc|done..].
    cbn [mbind option_bind].
    destruct (put_prefix (c ++ 0 :: rest) m) as (buf1 & rest2 & Hwb & Hwr & Hz2); [zlens; lia|].
    eexists _, _. split; [exact Hwb|]. split; [exact Hwr|]. apply Hh. done.
Qed.

(** The index a negative argument stands for. *)
Definition norm_index (len i : Z) : Z := if i <? 0 then Z.max 0 (len + i) else i.

(** The bytes from index [start] to index [end_], both inclusive. *)
Definition slice (c : list Z) (start end_ : Z) : list Z :=
  let start := norm_index (zlen c) start in
  let end_ := Z.min (norm_index (zlen c) end_) (zlen c - 1) in
  take (Z.to_nat (end_ - start + 1)) (drop (Z.to_nat start) c).

(** [sdsrange] keeps exactly the bytes between the two indexes, inclusive,
    negative ones counted from the end, out-of-range ones cut, in bounds. *)
Theorem sdsrange_spec s c start end_ :
  holds s c -> zlen c < 2 ^ 31 -> sfits 32 start -> sfits 32 end_ ->
  exists s', sdsrange s start end_ = Some s' /\ holds s' (slice c start end_).
Proof.
  intros Hs Hl Hst He. unfold sfits in *. unfold sdsrange, sdslen. rewrite (holds_len _ _ Hs).
  pose proof (zlen_nonneg c). destruct (Z.eqb_spec (zlen c) 0) as [Hz|Hz].
  { exists s. split; [done|]. apply zlen_zero in Hz. subst c. unfold slice.
    by rewrite drop_nil, take_nil. }
  assert (forall i, - 2 ^ 31 <= i < 2 ^ 31 ->
    (if i <? 0 then let i := s32 (u64 (zlen c + i)) in if i <? 0 then 0 else i else i)
    = norm_index (zlen c) i) as Hnorm.
  { intros i Hi. unfold norm_index. destruct (Z.ltb_spec i 0); [|done].
    rewrite swrap_uwrap_ge, swrap_small by (unfold sfits; lia).
    cbv zeta. destruct (Z.ltb_spec (zlen c + i) 0); lia. }
  assert (0 <= norm_index (zlen c) start < 2 ^ 31) as Hns
    by (unfold norm_index; destruct (Z.ltb_spec start 0); lia).
  assert (0 <= norm_index (zlen c) end_ < 2 ^ 31) as Hne
    by (unfold norm_index; destruct (Z.ltb_spec end_ 0); lia).
  rewrite !Hnorm by lia. unfold slice. cbv zeta.
  rewrite !(swrap_small 32) by (unfold sfits; lia).
  set (i := norm_index (zlen c) start) in *. set (j := norm_index (zlen c) end_) in *.
  assert (forall n k, 0 <= k <= zlen c -> 0 <= n <= zlen c - k -> exists s',
    (buf ← (if negb (k =? 0) && negb (n =? 0) then memmove (sbuf s) 0 k n else Some (sbuf s));
     buf ← wr buf n 0;
     Some (mkSds (u32 n) (u32 (sfree s + u64 (slen s - n))) buf)) = Some s' /\
    holds s' (take (Z.to_nat n) (drop (Z.to_nat k) c))) as Hfin.
  { intros n k Hk Hn.
    set (a := take (Z.to_nat k) c). set (m := take (Z.to_nat n) (drop (Z.to_nat k) c)).
    set (b := drop (Z.to_nat n) (drop (Z.to_nat k) c)).
    assert (zlen a = k /\ zlen m = n) as [Ha Hm].
    { unfold a, m, zlen in *. rewrite !length_take, length_drop. lia. }
    assert (c = a ++ m ++ b) as Hsplit by (unfold a, m, b; by rewrite !take_drop).
    destruct (shrink_spec s c a m b Hs Hsplit ((k =? 0) || (n =? 0))) as (buf & buf' & Hb & Hw & Hh).
    { rewrite Ha, Hm. intros [?%Z.eqb_eq|?%Z.eqb_eq]%orb_prop; auto. }
    rewrite Ha, Hm in *. rewrite <- negb_orb. destruct ((k =? 0) || (n =? 0)); cbn [negb];
      rewrite Hb; cbn [mbind option_bind]; rewrite Hw; cbn [mbind option_bind]; eauto. }
  assert (forall n k, n <= 0 -> take (Z.to_nat n) (drop k c) = []) as Hnil
    by (intros n k Hn; by replace (Z.to_nat n) with O by lia).
  rewrite (holds_len _ _ Hs) in Hfin.
  destruct (Z.gtb_spec i j).
  { cbn [negb Z.eqb]. rewrite Hnil by lia. apply (Hfin 0 0); lia. }
  destruct (Z.eqb_spec (j - i + 1) 0); [lia|]. cbn [negb].
  destruct (Z.geb_spec i (zlen c)).
  { rewrite Hnil by lia. specialize (Hfin 0 0 ltac:(lia) ltac:(lia)).
    cbn [Z.eqb negb andb] in *. rewrite andb_false_r. by rewrite take_0 in *. }
  destruct (Z.geb_spec j (zlen c)).
  - destruct (Z.gtb_spec i (zlen c - 1)); [lia|]. rewrite Z.min_r by lia.
    apply (Hfin (zlen c - 1 - i + 1) i); lia.
  - rewrite Z.min_l by lia. apply (Hfin (j - i + 1) i); lia.
Qed.

(** ** Trimming *)

(** What [sdstrim] strips: the characters of the set and NUL. *)
Definition trimmed (l : list Z) (c : Z) : bool := bool_decide (c ∈ l) || (c =? 0).

Lemma trim_left_spec (fuel : nat) : forall l j buf a tl post,
  buf = a ++ tl ++ post -> (length tl <= fuel)%nat ->
  exists t1 t2, tl = t1 ++ t2 /\ Forall (fun c => trimmed l c = true) t1 /\
    (forall c, head t2 = Some c -> trimmed l c = false) /\
    (c_str j = Some l ->
     trim_left fuel buf j (zlen a) (zlen a + zlen tl - 1) = Some (zlen a + zlen t1)).
Proof.
  induction fuel as [|fuel IH]; intros l j buf a tl post -> Hf; destruct tl as [|c tl];
    try (simpl in Hf; lia).
  1, 2: exists [], []; split_and!; [done|constructor|done|]; intros _; cbn [trim_left];
    change (zlen (@nil Z)) with 0; (destruct (Z.leb_spec (zlen a) (zlen a + 0 - 1)); [lia|]);
    f_equal; lia.
  simpl in Hf. destruct (trimmed l c) eqn:Hc.
  - destruct (IH l j (a ++ c :: tl ++ post) (a ++ [c]) tl post) as (t1 & t2 & -> & H1 & H2 & Hrun);
      [by rewrite <- app_assoc|lia|].
    exists (c :: t1), t2. split_and!; [done|by constructor|done|]. intros Hj. specialize (Hrun Hj).
    cbn [trim_left app]. pose proof (zlen_nonneg (t1 ++ t2)). rewrite !zlen_cons.
    destruct (Z.leb_spec (zlen a) (zlen a + (1 + zlen (t1 ++ t2)) - 1)); [|lia].
    rewrite rd_at. cbn [mbind option_bind]. unfold in_cset. rewrite Hj. cbn [mbind option_bind].
    fold (trimmed l c). rewrite Hc.
    replace (zlen (a ++ [c])) with (zlen a + 1) in Hrun by (zlens; lia).
    replace (zlen a + (1 + zlen (t1 ++ t2)) - 1) with (zlen a + 1 + zlen (t1 ++ t2) - 1) by lia.
    rewrite Hrun. f_equal. lia.
  - exists [], (c :: tl). split_and!; [done|constructor|by intros ? [= <-]|]. intros Hj.
    cbn [trim_left app]. pose proof (zlen_nonneg tl). rewrite !zlen_cons.
    destruct (Z.leb_spec (zlen a) (zlen a + (1 + zlen tl) - 1)); [|lia].
    rewrite rd_at. cbn [mbind option_bind]. unfold in_cset. rewrite Hj. cbn [mbind option_bind].
    fold (trimmed l c). rewrite Hc. f_equal. change (zlen (@nil Z)) with 0. lia.
Qed.

Lemma trim_right_spec (fuel : nat) : forall l j c post,
  (length c <= fuel)%nat -> c_str j = Some l ->
  exists c1 b1, c = c1 ++ b1 /\ Forall (fun c => trimmed l c = true) b1 /\
    (zlen c1 <= 1 \/ forall x, last c1 = Some x -> trimmed l x = false) /\
    trim_right fuel (c ++ post) j (zlen c - 1) = Some (zlen c1 - 1).
Proof.
  induction fuel as [|fuel IH]; intros l j c post Hf Hj.
  { exists c, []. destruct c; [|simpl in Hf; lia]. split_and!; [done|constructor|left; done|done]. }
  destruct (Z_le_gt_dec (zlen c) 1) as [Hle|Hgt].
  { exists c, []. rewrite app_nil_r. split_and!; [done|constructor|by left|].
    cbn [trim_right]. by destruct (Z.gtb_spec (zlen c - 1) 0); [lia|]. }
  destruct (split_last c) as (c0 & x & ->); [lia|]. rewrite zlen_app in *. change (zlen [x]) with 1 in *.
  cbn [trim_right]. destruct (Z.gtb_spec (zlen c0 + 1 - 1) 0); [|lia].
  rewrite <- app_assoc. cbn [app]. replace (zlen c0 + 1 - 1) with (zlen c0) by lia.
  rewrite rd_at. cbn [mbind option_bind]. unfold in_cset. rewrite Hj. cbn [mbind option_bind].
  fold (trimmed l x). destruct (trimmed l x) eqn:Hx.
  - rewrite length_app in Hf. simpl in Hf.
    destruct (IH l j c0 (x :: post)) as (c1 & b1 & -> & Hb & Hlast & Hrun); [lia|done|].
    exists c1, (b1 ++ [x]). rewrite <- app_assoc. split_and!; [done| |done|done].
    apply Forall_app. split; [done|]. by constructor.
  - exists (c0 ++ [x]), []. rewrite app_nil_r. split_and!; [done|constructor| |].
    + right. intros y. rewrite last_snoc. by intros [= <-].
    + f_equal. zlens. lia.
Qed.

(** [sdstrim] removes from both ends exactly the maximal runs of characters
    that are in the set or are NUL (strchr also finds the terminator), even when
    nothing is left. *)
Theorem sdstrim_spec s c cset l :
  holds s c -> c_str cset = Some l ->
  exists s' a m b, sdstrim s cset = Some s' /\ holds s' m /\ c = a ++ m ++ b /\
    Forall (fun c => trimmed l c = true) (a ++ b) /\
    (forall x, head m = Some x -> trimmed l x = false) /\
    (forall x, last m = Some x -> trimmed l x = false).
Proof.
  intros Hs Hj. pose proof Hs as (rest & Hsb & Hlim). unfold sdstrim, sdslen.
  rewrite (holds_len _ _ Hs).
  assert (sbuf s = c ++ 0 :: rest) as Hb by by rewrite Hsb. rewrite Hb.
  assert (length c <= length (c ++ 0%Z :: rest))%nat as Hfuel by (rewrite length_app; lia).
  destruct (trim_left_spec (length (c ++ 0 :: rest)) l cset (c ++ 0 :: rest) [] c (0 :: rest))
    as (a & tl & Hc & Ha & Hhead & Hleft); [done|done|].
  specialize (Hleft Hj). change (zlen []) with 0 in Hleft. rewrite !Z.add_0_l in Hleft.
  rewrite Hleft. cbn [mbind option_bind].
  destruct (trim_right_spec (length (c ++ 0 :: rest)) l cset c (0 :: rest) Hfuel Hj)
    as (c1 & b & Hc1 & Hbt & Hlast & Hright).
  rewrite Hright. cbn [mbind option_bind].
  assert (forall m b', c = a ++ m ++ b' ->
    (if zlen a >? zlen c1 - 1 then 0 else zlen c1 - 1 - zlen a + 1) = zlen m ->
    exists s', (let len := if zlen a >? zlen c1 - 1 then 0 else zlen c1 - 1 - zlen a + 1 in
       buf ← (if negb (zlen a =? 0) then memmove (c ++ 0 :: rest) 0 (zlen a) len
              else Some (c ++ 0 :: rest));
       buf ← wr buf len 0;
       Some (mkSds (u32 len) (u32 (sfree s + u64 (slen s - len))) buf)) = Some s' /\
      holds s' m) as Hfin.
  { intros m b' Hsplit ->. cbv zeta.
    destruct (shrink_spec s c a m b' Hs Hsplit (zlen a =? 0)) as (buf & buf' & Hbuf & Hw & Hh);
      [intros ?%Z.eqb_eq; by left|]. rewrite Hb in Hbuf.
    destruct (zlen a =? 0); cbn [negb]; rewrite Hbuf; cbn [mbind option_bind]; rewrite Hw;
      cbn [mbind option_bind]; eauto. }
  rewrite (holds_len _ _ Hs) in Hfin. cbv zeta in Hfin |- *.
  pose proof (f_equal zlen Hc) as Hz. pose proof (f_equal zlen Hc1) as Hz1.
  rewrite zlen_app in Hz, Hz1. pose proof (zlen_nonneg b). pose proof (zlen_nonneg c1).
  destruct tl as [|h t].
  - change (zlen (@nil Z)) with 0 in Hz. rewrite app_nil_r in Hc. subst a.
    destruct (Hfin [] []) as (s' & Hrun & Hs').
    + by rewrite app_nil_r.
    + by destruct (Z.gtb_spec (zlen c) (zlen c1 - 1)); [|lia].
    + exists s', c, [], []. rewrite !app_nil_r. done.
  - assert (exists m, c1 = a ++ h :: m) as [m Hm].
    { rewrite Hc in Hc1. apply app_eq_inv in Hc1 as [(k & Ha' & Hk)|(k & -> & Hk)].
      - subst a. destruct k as [|x k]; [cbn in Hk; subst b|].
        + exfalso. apply Forall_cons in Hbt as [Hh _]. rewrite (Hhead h) in Hh; done.
        + exfalso. rewrite Hk in Hbt. apply Forall_app in Hbt as [_ Hbt].
          apply Forall_cons in Hbt as [Hh _]. rewrite (Hhead h) in Hh; done.
      - destruct k as [|x k]; [cbn in Hk; subst b|].
        + exfalso. apply Forall_cons in Hbt as [Hh _]. rewrite (Hhead h) in Hh; done.
        + injection Hk as <- _. by exists k. }
    assert (zlen c1 = zlen a + (1 + zlen m)) as Hzm by (rewrite Hm; zlens; lia).
    pose proof (zlen_nonneg m). pose proof (zlen_nonneg a).
    assert (c = a ++ (h :: m) ++ b) as Hsplit by (rewrite Hc1, Hm, <- app_assoc; done).
    destruct (Hfin (h :: m) b Hsplit) as (s' & Hrun & Hs').
    { rewrite zlen_cons. destruct (Z.gtb_spec (zlen a) (zlen c1 - 1)); lia. }
    exists s', a, (h :: m), b. split_and!; [done|done|done|by apply Forall_app| |].
    + intros x [= <-]. by apply Hhead.
    + intros x Hx. destruct Hlast as [Hle|Hlast].
      * assert (m = []) as -> by (apply zlen_zero; lia). injection Hx as <-. by apply Hhead.
      * apply Hlast. rewrite Hm. by rewrite last_app, Hx.
Qed.

(** ** Growing, clearing, copying *)

Lemma sdsgrowzero_spec s c len :
  holds s c -> 0 <= len <= SDS_LIM -> zlen c <= SDS_LIM ->
  exists s', sdsgrowzero uninit s len = Some s' /\
    holds s' (c ++ replicate (Z.to_nat (len - zlen c)) 0).
Proof.
  intros Hs Hl Hlc. unfold sdsgrowzero. rewrite (holds_len _ _ Hs). pose proof (zlen_nonneg c).
  destruct (Z.leb_spec len (zlen c)).
  { exists s. replace (Z.to_nat (len - zlen c)) with O by lia. by rewrite app_nil_r. }
  destruct (makeroom_spec s c (len - zlen c) Hs) as (rest & -> & Hr & Hlim); [lia|lia|].
  cbn [sbuf slen sfree].
  set (n := Z.to_nat (len - zlen c)).
  assert (replicate (Z.to_nat (len - zlen c + 1)) 0 = replicate n 0 ++ [0]) as ->.
  { replace (Z.to_nat (len - zlen c + 1)) with (n + 1)%nat by (unfold n; lia).
    by rewrite replicate_add. }
  assert (zlen (replicate n 0) = len - zlen c) as Hn by (unfold n; rewrite zlen_replicate; lia).
  assert (0 :: rest = take (S n) (0 :: rest) ++ drop n rest) as Hsp by by rewrite <- (take_drop (S n) (0 :: rest)) at 1.
  assert (zlen (take (S n) (0 :: rest)) = len - zlen c + 1) as Hzt.
  { cbn [take]. rewrite zlen_cons. unfold zlen in *. rewrite length_take. unfold n. lia. }
  rewrite Hsp, (wr_block_mid c (take (S n) (0 :: rest)) (drop n rest)); [|done|done|zlens; lia].
  cbn [mbind option_bind]. unfold SDS_LIM in *. eexists. split; [done|].
  exists (drop n rest). zlens. rewrite Hn.
  assert (zlen (drop n rest) = zlen rest - (len - zlen c)) as Hd
    by (unfold zlen in *; rewrite length_drop; unfold n; lia).
  rewrite !(uwrap_small 32) by (rewrite ?uwrap_small; lia).
  split; [|lia]. rewrite <- !app_assoc. cbn [app]. f_equal; lia.
Qed.

Lemma sdsclear_spec s c : holds s c -> exists s', sdsclear s = Some s' /\ holds s' [].
Proof.
  intros (rest & -> & Hl). unfold sdsclear. cbn [sbuf slen sfree].
  destruct (put_prefix (c ++ 0 :: rest) []) as (buf & rest' & Hb & Hw & Hz).
  { pose proof (zlen_nonneg c). pose proof (zlen_nonneg rest). zlens. lia. }
  rewrite wr_block_ok in Hb;
    [|lia|pose proof (zlen_nonneg (c ++ 0 :: rest)); change (zlen (@nil Z)) with 0; lia].
  cbn in Hb. injection Hb as <-. change (zlen (@nil Z)) with 0 in Hw. rewrite drop_0 in Hw. rewrite Hw.
  cbn [mbind option_bind].
  eexists. split; [done|]. exists rest'. rewrite zlen_app, zlen_cons in Hz.
  change (zlen (@nil Z)) with 0 in *. pose proof (zlen_nonneg c). pose proof (zlen_nonneg rest).
  rewrite uwrap_small by lia. split; [f_equal; lia|lia].
Qed.

(** Writing into the free space and then moving the end there. *)
Lemma sdsIncrLen_spec c new rest incr :
  zlen c + zlen new + zlen rest + 1 < 2 ^ 32 -> zlen new < 2 ^ 31 -> incr = zlen new ->
  forall x, exists s', sdsIncrLen (mkSds (zlen c) (zlen new + zlen rest) (c ++ new ++ x :: rest)) incr
      = Some s' /\ holds s' (c ++ new).
Proof.
  intros Hl Hn -> x. unfold sdsIncrLen. cbn [slen sfree sbuf]. pose proof (zlen_nonneg new).
  pose proof (zlen_nonneg rest). pose proof (zlen_nonneg c).
  destruct (Z.geb_spec (zlen new) 0); [|lia]. rewrite (uwrap_small 32 (zlen new)) by lia.
  destruct (Z.geb_spec (zlen new + zlen rest) (zlen new)); [|lia].
  rewrite (uwrap_small 32 (zlen c + _)) by lia. rewrite app_assoc, wr_here by (zlens; lia).
  cbn [mbind option_bind]. eexists. split; [done|]. exists rest.
  rewrite uwrap_small by lia. zlens. split; [f_equal; lia|lia].
Qed.

(** The operations that build strings: appending, overwriting and growing
    leave the string holding exactly the new contents, for any contents of the
    memory realloc returns, up to 2 GB. *)
Theorem sds_build s c t b len :
  holds s c -> rd_block t 0 (zlen b) = Some b -> zlen c + zlen b <= SDS_LIM -> 0 <= len <= SDS_LIM ->
  (exists s', sdscatlen uninit s t (zlen b) = Some s' /\ holds s' (c ++ b)) /\
  (exists s', sdscpylen uninit s t (zlen b) = Some s' /\ holds s' b) /\
  (exists s', sdsgrowzero uninit s len = Some s' /\
     holds s' (c ++ replicate (Z.to_nat (len - zlen c)) 0)) /\
  (exists s', sdsclear s = Some s' /\ holds s' []).
Proof.
  intros Hs Ht Hl Hlen. pose proof (zlen_nonneg c). pose proof (zlen_nonneg b). split_and!.
  - by apply sdscatlen_spec.
  - apply (sdscpylen_spec s c); (done || lia).
  - apply sdsgrowzero_spec; (done || lia).
  - by eapply sdsclear_spec.
Qed.

(** ** Splitting and joining *)

Lemma memcmp_zero a : forall b, length a = length b -> memcmp a b = 0 <-> a = b.
Proof.
  induction a as [|x a IH]; intros [|y b] Hl; try done. simpl in *.
  destruct (Z.eqb_spec x y) as [->|Hne].
  - rewrite IH by lia. split; [by intros ->|by intros [= ->]].
  - split; [lia|]. intros [= ? ?]. done.
Qed.

(** The tokens with the separator between them. *)
Fixpoint intersperse (sep : list Z) (ts : list (list Z)) : list Z :=
  match ts with
  | [] => []
  | t :: ts => t ++ match ts with [] => [] | _ => sep ++ intersperse sep ts end
  end.

Lemma intersperse_snoc sep ts t :
  ts <> [] -> intersperse sep (ts ++ [t]) = intersperse sep ts ++ sep ++ t.
Proof.
  induction ts as [|u [|w ts] IH]; intros Hne; [done| |].
  - simpl. by rewrite app_nil_r, app_nil_r.
  - cbn [app intersperse] in *. rewrite IH by done. by rewrite !app_assoc.
Qed.

(** [sep] does not occur in [l]. *)
Definition no_sep (sep l : list Z) : Prop := forall a b, l <> a ++ sep ++ b.

Lemma no_sep_app sep cur rest :
  (forall i, (i < length cur)%nat -> ~ sep `prefix_of` drop i (cur ++ rest)) ->
  sep <> [] -> no_sep sep cur.
Proof.
  intros H Hne a b ->. destruct (decide (length a < length (a ++ sep ++ b))%nat) as [Hlt|Hge].
  - apply (H (length a) Hlt). rewrite <- !app_assoc, drop_app_length. by eexists.
  - rewrite !length_app in Hge. destruct sep; [done|simpl in Hge; lia].
Qed.

Lemma sdsnewlen_at (s done cur rest : list Z) start :
  s = done ++ cur ++ rest -> start = zlen done -> zlen s < SDS_LIM ->
  exists tok, (p ← rd_block s start (zlen s - start); sdsnewlen uninit (Some p) (zlen cur)) = Some tok /\
    holds tok cur.
Proof.
  intros -> -> Hl. rewrite zlen_app in *.
  rewrite (rd_block_mid done (cur ++ rest) []); [|by rewrite app_nil_r|done|lia].
  cbn [mbind option_bind].
  apply sdsnewlen_spec; [by apply (rd_block_mid [] cur rest)|].
  rewrite zlen_app in Hl. pose proof (zlen_nonneg done). pose proof (zlen_nonneg rest). lia.
Qed.

(** The test of one position: it sees whether the separator starts there. *)
Lemma sep_test (sep pre c_rest : list Z) :
  sep <> [] -> zlen sep <= zlen c_rest ->
  exists c c0, rd (pre ++ c_rest) (zlen pre) = Some c /\ rd sep 0 = Some c0 /\
    rd_block (pre ++ c_rest) (zlen pre) (zlen sep) = Some (take (length sep) c_rest) /\
    rd_block sep 0 (zlen sep) = Some sep /\
    ((zlen sep =? 1) && (c =? c0)) || (memcmp (take (length sep) c_rest) sep =? 0)
      = bool_decide (sep `prefix_of` c_rest).
Proof.
  intros Hne Hl. destruct sep as [|c0 sep'] eqn:Hsep; [done|]. rewrite <- Hsep in *.
  destruct c_rest as [|c rest].
  { rewrite Hsep, zlen_cons in Hl. pose proof (zlen_nonneg sep'). change (zlen (@nil Z)) with 0 in Hl. lia. }
  exists c, c0. split_and!.
  - apply rd_at.
  - by rewrite Hsep.
  - apply (rd_block_mid pre _ (drop (length sep) (c :: rest))); [by rewrite take_drop|done|].
    unfold zlen in *. rewrite length_take. lia.
  - apply (rd_block_mid [] sep []); [by rewrite app_nil_r|done|done].
  - apply eq_true_iff_eq. rewrite bool_decide_eq_true, orb_true_iff, andb_true_iff, !Z.eqb_eq.
    rewrite memcmp_zero by (rewrite length_take; unfold zlen in *; lia). split.
    + intros [[H1 ->]|Ht].
      * rewrite Hsep in *. rewrite zlen_cons in H1.
        assert (sep' = []) as -> by (apply zlen_zero; lia). by exists rest.
      * exists (drop (length sep) (c :: rest)). by rewrite <- Ht at 1; rewrite take_drop.
    + intros [k Hk]. right. by rewrite Hk, take_app_length.
Qed.

(** The state of the loop: the tokens found, the current token's bytes so far,
    the rest; no separator starts in the current bytes. *)
Definition split_state (sep dn cur rest : list Z) (tokens : list sds) (ts : list (list Z))
    (slots : Z) : Prop :=
  Forall2 holds tokens ts /\ zlen tokens < slots /\ 5 <= slots /\
  (forall i, (i < length cur)%nat -> ~ sep `prefix_of` drop i (cur ++ rest)) /\
  Forall (no_sep sep) ts /\ dn = concat (map (fun t => t ++ sep) ts).

Lemma split_state_next sep dn cur c rest tokens ts slots :
  split_state sep dn cur (c :: rest) tokens ts slots -> ~ sep `prefix_of` c :: rest ->
  split_state sep dn (cur ++ [c]) rest tokens ts
    (if slots <? zlen tokens + 2 then slots * 2 else slots).
Proof.
  intros (Htok & Hsl & H5 & Hno & Hts & Hdn) Hn. split_and!; try done.
  - destruct (Z.ltb_spec slots (zlen tokens + 2)); lia.
  - destruct (Z.ltb_spec slots (zlen tokens + 2)); lia.
  - intros i Hi. rewrite <- app_assoc. cbn [app]. rewrite length_app in Hi. simpl in Hi.
    destruct (decide (i < length cur)%nat); [by apply Hno|].
    by rewrite drop_app_length' by lia.
Qed.

Lemma split_state_token sep dn cur rest tok tokens ts slots :
  split_state sep dn cur (sep ++ rest) tokens ts slots -> sep <> [] -> holds tok cur ->
  split_state sep (dn ++ cur ++ sep) [] rest (tokens ++ [tok]) (ts ++ [cur])
    (if slots <? zlen tokens + 2 then slots * 2 else slots).
Proof.
  intros (Htok & Hsl & H5 & Hno & Hts & Hdn) Hne Hh. split_and!.
  - apply Forall2_app; [done|]. by constructor.
  - zlens. destruct (Z.ltb_spec slots (zlen tokens + 2)); lia.
  - destruct (Z.ltb_spec slots (zlen tokens + 2)); lia.
  - intros i Hi. simpl in Hi. lia.
  - apply Forall_app. split; [done|]. constructor; [|done].
    by apply (no_sep_app sep cur (sep ++ rest)).
  - rewrite map_app, concat_app, <- Hdn. cbn [map concat]. by rewrite app_nil_r.
Qed.

Lemma split_loop_spec (sep : list Z) (fuel : nat) : forall dn cur rest tokens ts slots,
  sep <> [] -> (length rest <= fuel)%nat -> zlen (dn ++ cur ++ rest) < SDS_LIM ->
  split_state sep dn cur rest tokens ts slots ->
  exists dn' cur' tokens' ts' slots',
    split_loop uninit fuel (dn ++ cur ++ rest) (zlen (dn ++ cur ++ rest)) sep (zlen sep)
      tokens slots (zlen dn) (zlen (dn ++ cur)) = Some (tokens', slots', zlen dn') /\
    dn' ++ cur' = dn ++ cur ++ rest /\ split_state sep dn' cur' [] tokens' ts' slots'.
Proof.
  induction fuel as [|fuel IH]; intros dn cur rest tokens ts slots Hne Hf Hl Hst.
  all: assert (0 < zlen sep) as Hsep by (destruct sep; [done|rewrite zlen_cons; pose proof (zlen_nonneg sep); lia]).
  all: pose proof (zlen_nonneg rest) as Hr0; cbn [split_loop].
  all: assert (zlen (dn ++ cur ++ rest) = zlen (dn ++ cur) + zlen rest) as Hz by (zlens; lia); rewrite Hz.
  all: destruct (Z.ltb_spec (zlen (dn ++ cur)) (zlen (dn ++ cur) + zlen rest - (zlen sep - 1))) as [Hlt|Hge].
  1: destruct rest; [change (zlen (@nil Z)) with 0 in *; lia|simpl in Hf; lia].
  1, 3: exists dn, (cur ++ rest), tokens, ts, slots; destruct Hst as (Htok & Hsl & H5 & Hno & Hts & Hdn);
    split_and!; [done|done|split_and!; try done]; intros i Hi; rewrite app_nil_r;
    (destruct (decide (i < length cur)%nat); [by apply Hno|]);
    intros [k Hk]; apply (f_equal length) in Hk; rewrite length_drop, !length_app in Hk;
    rewrite length_app in Hi; unfold zlen in *; rewrite ?length_app in *; lia.
  destruct (sep_test sep (dn ++ cur) rest Hne) as (c & c0 & Hc & Hc0 & Hb & Hbs & Htest); [lia|].
  rewrite <- app_assoc in Hc, Hb. rewrite Hc, Hc0, Hb, Hbs. cbn [mbind option_bind]. rewrite Htest.
  case_bool_decide as Hp.
  - destruct Hp as [rest' ->].
    destruct (sdsnewlen_at (dn ++ cur ++ sep ++ rest') dn cur (sep ++ rest') (zlen dn) eq_refl eq_refl Hl)
      as (tok & Htok & Hh).
    rewrite <- Hz. replace (zlen (dn ++ cur) - zlen dn) with (zlen cur) by (zlens; lia).
    cbn [mbind option_bind] in *. rewrite Htok. cbn [mbind option_bind].
    pose proof (split_state_token _ _ _ _ _ _ _ _ Hst Hne Hh) as Hst'.
    assert (zlen tokens < (if slots <? zlen tokens + 2 then slots * 2 else slots)) as Hlt2.
    { destruct Hst as (_ & ? & ? & _). destruct (Z.ltb_spec slots (zlen tokens + 2)); lia. }
    unfold put_token. apply Z.ltb_lt in Hlt2. rewrite Hlt2. cbn [mbind option_bind].
    edestruct (IH (dn ++ cur ++ sep) [] rest' (tokens ++ [tok]) (ts ++ [cur]))
      as (dn' & cur' & tokens' & ts' & slots' & Hrun & Hsplit & Hst2);
      [exact Hne| | |exact Hst'|].
    { rewrite length_app in Hf. destruct sep; [done|simpl in Hf; lia]. }
    { cbn [app]. by rewrite <- !app_assoc. }
    cbn [app] in Hrun, Hsplit. rewrite app_nil_r, <- !app_assoc in Hrun. rewrite <- !app_assoc in Hsplit.
    exists dn', cur', tokens', ts', slots'. split_and!; [|done|apply Hst2..].
    rewrite <- Hrun. f_equal; zlens; lia.
  - destruct rest as [|c' rest]; [by rewrite app_nil_r, rd_None_ge in Hc by lia|].
    assert (c' = c) as -> by (rewrite app_assoc, rd_at in Hc; congruence).
    pose proof (split_state_next _ _ _ _ _ _ _ _ Hst Hp) as Hst'.
    edestruct (IH dn (cur ++ [c]) rest tokens ts)
      as (dn' & cur' & tokens' & ts' & slots' & Hrun & Hsplit & Hst2);
      [exact Hne| | |exact Hst'|].
    { simpl in Hf. lia. }
    { by rewrite <- app_assoc. }
    rewrite <- app_assoc in Hrun, Hsplit. cbn [app] in Hrun, Hsplit.
    exists dn', cur', tokens', ts', slots'. split_and!; [|done|apply Hst2..].
    rewrite <- Hz. rewrite <- Hrun. f_equal. zlens. lia.
Qed.

Lemma intersperse_concat sep ts t :
  concat (map (fun t => t ++ sep) ts) ++ t = intersperse sep (ts ++ [t]).
Proof.
  induction ts as [|u ts IH]; [simpl; by rewrite app_nil_r|].
  cbn [map concat app intersperse]. rewrite <- !app_assoc, IH.
  destruct (ts ++ [t]) eqn:He; [by destruct ts|]. done.
Qed.

Lemma split_tokens s sep :
  sep <> [] -> s <> [] -> zlen s < SDS_LIM ->
  exists tokens ts, sdssplitlen uninit s (zlen s) sep (zlen sep) = Some (Some tokens) /\
    Forall2 holds tokens ts /\ intersperse sep ts = s /\ Forall (no_sep sep) ts.
Proof.
  intros Hne Hs Hl. unfold sdssplitlen.
  assert (1 <= zlen sep) as Hsep by (destruct sep; [done|rewrite zlen_cons; pose proof (zlen_nonneg sep); lia]).
  assert (1 <= zlen s) as Hs1 by (destruct s; [done|rewrite zlen_cons; pose proof (zlen_nonneg s); lia]).
  destruct (Z.ltb_spec (zlen sep) 1), (Z.ltb_spec (zlen s) 0), (Z.eqb_spec (zlen s) 0); try lia.
  cbn [orb]. edestruct (split_loop_spec sep (Z.to_nat (zlen s)) [] [] s [] [] 5)
    as (dn & cur & tokens & ts & slots & Hrun & Hsplit & (Htok & Hsl & _ & Hno & Hts & Hdn));
    [done|unfold zlen; lia|done| |].
  { split_and!; try done; []; intros i Hi; simpl in Hi; lia. }
  cbn [app] in Hrun, Hsplit. change (zlen (@nil Z)) with 0 in Hrun. rewrite Hrun. cbn [mbind option_bind].
  destruct (sdsnewlen_at s dn cur [] (zlen dn)) as (tok & Ht & Hh); [by rewrite app_nil_r|done|done|].
  assert (zlen s = zlen dn + zlen cur) as Hz by (rewrite <- Hsplit; zlens; lia).
  replace (zlen s - zlen dn) with (zlen cur) in * by lia.
  cbn [mbind option_bind] in Ht. rewrite Ht. cbn [mbind option_bind].
  unfold put_token. apply Z.ltb_lt in Hsl. rewrite Hsl. cbn [mbind option_bind].
  exists (tokens ++ [tok]), (ts ++ [cur]). split; [done|]. split_and!.
  - apply Forall2_app; [done|]. by constructor.
  - by rewrite <- intersperse_concat, <- Hdn.
  - apply Forall_app. split; [done|]. constructor; [|done].
    apply (no_sep_app sep cur []); [|done]. exact Hno.
Qed.

(** Splitting a non-empty string cuts it at the separators: the tokens, with
    the separator between them, are the string, and none contains the separator;
    the token array never overflows. *)
Theorem sdssplitlen_spec s sep :
  sep <> [] -> s <> [] -> zlen s < SDS_LIM ->
  exists tokens ts, sdssplitlen uninit s (zlen s) sep (zlen sep) = Some (Some tokens) /\
    Forall2 holds tokens ts /\ intersperse sep ts = s /\ Forall (no_sep sep) ts.
Proof. apply split_tokens. Qed.

Lemma join_loop_spec sep : forall argv ts join c,
  Forall (fun x => x <> 0) sep -> Forall2 (fun a t => exists r, a = t ++ 0 :: r) argv ts ->
  Forall (Forall (fun x => x <> 0)) ts -> holds join c ->
  zlen c + zlen (intersperse sep ts) <= SDS_LIM ->
  exists s, join_loop uninit argv join (sep ++ [0]) = Some s /\ holds s (c ++ intersperse sep ts).
Proof.
  intros argv ts join c Hsep Hall. revert join c.
  induction Hall as [|a t argv ts [r ->] Hall IH]; intros join c Hnz Hj Hl.
  { exists join. cbn [join_loop intersperse]. by rewrite app_nil_r. }
  apply Forall_cons in Hnz as [Hnt Hnz]. cbn [intersperse] in *.
  rewrite !zlen_app in Hl. pose proof (zlen_nonneg t).
  cbn [join_loop].
  destruct Hall as [|a' t' argv' ts' Ha Hall].
  - change (zlen (@nil Z)) with 0 in Hl.
    destruct (sdscat_spec join c t r Hj Hnt) as (j1 & -> & Hj1); [lia|]. cbn [mbind option_bind join_loop].
    exists j1. by rewrite !app_nil_r.
  - rewrite zlen_app in Hl. pose proof (zlen_nonneg sep).
    pose proof (zlen_nonneg (intersperse sep (t' :: ts'))).
    destruct (sdscat_spec join c t r Hj Hnt) as (j1 & -> & Hj1); [lia|]. cbn [mbind option_bind].
    destruct (sdscat_spec j1 (c ++ t) sep [] Hj1 Hsep) as (j2 & -> & Hj2); [zlens; lia|].
    cbn [mbind option_bind].
    destruct (IH j2 ((c ++ t) ++ sep) Hnz Hj2) as (s & Hrun & Hs).
    { rewrite !zlen_app. lia. }
    exists s. split; [done|]. by rewrite <- !app_assoc in Hs.
Qed.

(** Joining with the separator the tokens of a split gives the string back
    (both free of NUL, as [sdsjoin] takes C strings). *)
Theorem sdsjoin_split s sep :
  sep <> [] -> s <> [] -> zlen s < SDS_LIM ->
  Forall (fun x => x <> 0) s -> Forall (fun x => x <> 0) sep ->
  exists tokens r, sdssplitlen uninit s (zlen s) sep (zlen sep) = Some (Some tokens) /\
    sdsjoin uninit (map sbuf tokens) (sep ++ [0]) = Some r /\ holds r s.
Proof.
  intros Hne Hs Hl Hnz Hsnz. destruct (split_tokens s sep Hne Hs Hl) as (tokens & ts & Hrun & Htok & Hi & _).
  destruct sdsempty_spec as (s0 & He & Hs0).
  destruct (join_loop_spec sep (map sbuf tokens) ts s0 []) as (r & Hj & Hr); [done| | |done| |].
  - clear -Htok. induction Htok as [|tok t tokens ts (rest & -> & _) _ IH]; [constructor|].
    cbn [map]. constructor; [|done]. by exists rest.
  - clear -Hnz Hi. subst s. induction ts as [|t ts IH]; [constructor|]. cbn [intersperse] in Hnz.
    apply Forall_app in Hnz as [Ht Hnz]. constructor; [done|]. apply IH.
    destruct ts; [constructor|]. by apply Forall_app in Hnz as [_ ?].
  - rewrite Hi. change (zlen (@nil Z)) with 0. lia.
  - exists tokens, r. split; [done|]. unfold sdsjoin. rewrite He. cbn [mbind option_bind].
    split; [done|]. by rewrite Hi in Hr.
Qed.

(** ** Comparison *)

(** Lexicographic order of byte strings, a prefix first. *)
Fixpoint lex_cmp (a b : list Z) : comparison :=
  match a, b with
  | [], [] => Eq
  | [], _ => Lt
  | _, [] => Gt
  | x :: a, y :: b => match x ?= y with Eq => lex_cmp a b | c => c end
  end.

(** The sign of [sdscmp] is the lexicographic order of the two contents. *)
Theorem sdscmp_spec s1 s2 c1 c2 :
  holds s1 c1 -> holds s2 c2 -> zlen c1 < 2 ^ 31 -> zlen c2 < 2 ^ 31 ->
  exists r, sdscmp s1 s2 = Some r /\ (r ?= 0) = lex_cmp c1 c2.
Proof.
  intros H1 H2 Hl1 Hl2. unfold sdscmp, sdslen. rewrite (holds_len _ _ H1), (holds_len _ _ H2).
  pose proof (zlen_nonneg c1). pose proof (zlen_nonneg c2).
  set (n := if zlen c1 <? zlen c2 then zlen c1 else zlen c2).
  assert (n = Z.min (zlen c1) (zlen c2)) as Hn by (unfold n; destruct (Z.ltb_spec (zlen c1) (zlen c2)); lia).
  assert (forall s c, holds s c -> n <= zlen c -> rd_block (sbuf s) 0 n = Some (take (Z.to_nat n) c)) as Hrd.
  { intros s c (rest & -> & _) Hle. cbn [sbuf].
    apply (rd_block_mid [] _ (drop (Z.to_nat n) c ++ 0 :: rest)); [|done|].
    - cbn [app]. by rewrite app_assoc, take_drop.
    - unfold zlen in *. rewrite length_take. lia. }
  rewrite (Hrd _ _ H1), (Hrd _ _ H2) by lia. cbn [mbind option_bind]. eexists. split; [done|].
  rewrite (swrap_small 32) by (unfold sfits; lia). rewrite Hn. clear.
  assert (Z.to_nat (Z.min (zlen c1) (zlen c2)) = Nat.min (length c1) (length c2)) as -> by (unfold zlen; lia).
  revert c2. induction c1 as [|x c1 IH]; intros [|y c2]; cbn [length Nat.min take memcmp lex_cmp Z.eqb].
  - done.
  - rewrite zlen_cons. change (zlen (@nil Z)) with 0. pose proof (zlen_nonneg c2).
    apply Z.compare_lt_iff. lia.
  - rewrite zlen_cons. change (zlen (@nil Z)) with 0. pose proof (zlen_nonneg c1).
    apply Z.compare_gt_iff. lia.
  - destruct (Z.eqb_spec x y) as [->|Hne].
    + rewrite Z.compare_refl, !zlen_cons. rewrite <- IH.
      by replace (1 + zlen c1 - (1 + zlen c2)) with (zlen c1 - zlen c2) by lia.
    + destruct (Z.eqb_spec (x - y) 0); [lia|]. destruct (Z.compare_spec x y); [lia| |].
      * apply Z.compare_lt_iff. lia.
      * apply Z.compare_gt_iff. lia.
Qed.
End sds_proofs.

(** ** Instances *)

(** Fresh memory holds zeros; a string with some free space. *)
Definition zero_fill : nat -> Z := fun _ => 0.
Definition ex_sds (c : list Z) : sds := mkSds (zlen c) 3 (c ++ [0; 170; 170; 170]).

Lemma ex_sds_holds c : zlen c < 2 ^ 31 -> holds (ex_sds c) c.
Proof. intros Hc. exists [170; 170; 170]. split; [done|]. change (zlen [170; 170; 170]) with 3. lia. Qed.

Lemma sdssplitargs_catrepr_witness :
  exists s0 s tok, sdsempty zero_fill = Some s0 /\ sdscatrepr zero_fill s0 [34; 0; 200; 97; 10] 5 = Some s /\
    sdssplitargs zero_fill (sbuf s) = Some (Some [tok]) /\ holds tok [34; 0; 200; 97; 10].
Proof.
  apply (sdssplitargs_catrepr zero_fill [34; 0; 200; 97; 10]); [|done].
  repeat constructor; done.
Defined.

Lemma sdsll2str_spec_witness :
  exists ds junk, sdsll2str (replicate 21 0) (-120) = Some (ds ++ 0 :: junk, zlen ds) /\
    signed_numeral ds (-120) /\ zlen ds <= 20.
Proof. apply (sdsll2str_spec (-120) (replicate 21 0)); [done|done]. Defined.

Lemma sdsrange_spec_witness :
  exists s', sdsrange (ex_sds [97; 98; 99; 100]) 1 (-2) = Some s' /\ holds s' [98; 99].
Proof. apply (sdsrange_spec (ex_sds [97; 98; 99; 100]) [97; 98; 99; 100] 1 (-2)); [by apply ex_sds_holds|done..]. Defined.

Lemma sdstrim_spec_witness :
  exists s' a m b, sdstrim (ex_sds [32; 97; 32; 32]) [32; 0] = Some s' /\ holds s' m /\
    [32; 97; 32; 32] = a ++ m ++ b /\ Forall (fun c => trimmed [32] c = true) (a ++ b) /\
    (forall x, head m = Some x -> trimmed [32] x = false) /\
    (forall x, last m = Some x -> trimmed [32] x = false).
Proof. apply (sdstrim_spec (ex_sds [32; 97; 32; 32]) [32; 97; 32; 32] [32; 0] [32]); [by apply ex_sds_holds|done]. Defined.

Lemma sds_build_witness :
  (exists s', sdscatlen zero_fill (ex_sds [97]) [98; 99] 2 = Some s' /\ holds s' [97; 98; 99]) /\
  (exists s', sdscpylen zero_fill (ex_sds [97]) [98; 99] 2 = Some s' /\ holds s' [98; 99]) /\
  (exists s', sdsgrowzero zero_fill (ex_sds [97]) 4 = Some s' /\ holds s' [97; 0; 0; 0]) /\
  (exists s', sdsclear (ex_sds [97]) = Some s' /\ holds s' []).
Proof. apply (sds_build zero_fill (ex_sds [97]) [97] [98; 99] [98; 99] 4); [by apply ex_sds_holds|done..]. Defined.

Lemma sdssplitlen_spec_witness :
  exists tokens ts, sdssplitlen zero_fill [97; 44; 98] 3 [44] 1 = Some (Some tokens) /\
    Forall2 holds tokens ts /\ intersperse [44] ts = [97; 44; 98] /\ Forall (no_sep [44]) ts.
Proof. apply (sdssplitlen_spec zero_fill [97; 44; 98] [44]); done. Defined.

Lemma sdsjoin_split_witness :
  exists tokens r, sdssplitlen zero_fill [97; 44; 98] 3 [44] 1 = Some (Some tokens) /\
    sdsjoin zero_fill (map sbuf tokens) [44; 0] = Some r /\ holds r [97; 44; 98].
Proof. apply (sdsjoin_split zero_fill [97; 44; 98] [44]); [done|done|done|repeat constructor; done..]. Defined.

Lemma sdscmp_spec_witness :
  exists r, sdscmp (ex_sds [97; 98]) (ex_sds [97]) = Some r /\ (r ?= 0) = Gt.
Proof. apply (sdscmp_spec (ex_sds [97; 98]) (ex_sds [97]) [97; 98] [97]); [by apply ex_sds_holds..|done|done]. Defined.
