(* ===== verification/Object.v ===== *)
(** * Redis objects (src/redis-2.8.19/src/object.c)

    Values as the key space holds them. A string object is integer-encoded or
    raw; the other types carry their abstract contents (their encodings are the
    subject of other files). Reference counts and the LRU clock are not modelled:
    every modification goes through an unshared copy, so sharing is not visible. *)
From S2P Require Import Prelude Util Sds.
Open Scope Z_scope.

Abbreviation bytes := (list Z).

Inductive robj :=
  | StrInt (value : Z)
  | StrRaw (ptr : bytes)
  | ListObj (l : list bytes)
  | SetObj (s : gset bytes)
  | ZsetObj (z : gmap bytes Z)
  | HashObj (h : gmap bytes bytes).

Inductive rtype := REDIS_STRING | REDIS_LIST | REDIS_SET | REDIS_ZSET | REDIS_HASH.

#[global] Instance robj_eq_dec : EqDecision robj.
Proof. solve_decision. Defined.

#[global] Instance rtype_eq_dec : EqDecision rtype.
Proof. solve_decision. Defined.

Definition obj_type (o : robj) : rtype :=
  match o with
  | StrInt _ | StrRaw _ => REDIS_STRING
  | ListObj _ => REDIS_LIST
  | SetObj _ => REDIS_SET
  | ZsetObj _ => REDIS_ZSET
  | HashObj _ => REDIS_HASH
  end.

(** The 32-byte stack buffer of [getDecodedObject] and its content. *)
Definition ll_str (value : Z) : option bytes :=
  '(buf, len) ← ll2string (replicate 32 0) 32 value;
  rd_block buf 0 len.

Definition createStringObjectFromLongLong (value : Z) : robj := StrInt value.

Definition tryObjectEncoding (s : bytes) : option robj :=
  let len := zlen s in
  if len >? 21 then Some (StrRaw s)
  else
    r ← string2l s len;
    Some (match r with Some value => StrInt value | None => StrRaw s end).

(** The bytes of a string object; [None] is the panic on other encodings. *)
Definition getDecodedObject (o : robj) : option bytes :=
  match o with
  | StrRaw s => Some s
  | StrInt value => ll_str value
  | _ => None
  end.

Definition stringObjectLen (o : robj) : option Z :=
  match o with
  | StrRaw s => Some (zlen s)
  | StrInt value => snd <$> ll2string (replicate 32 0) 32 value
  | _ => None
  end.

Definition compareStringObjects (a b : robj) : option Z :=
  astr ← getDecodedObject a;
  bstr ← getDecodedObject b;
  let alen := zlen astr in
  let blen := zlen bstr in
  let minlen := Z.to_nat (if alen <? blen then alen else blen) in
  let cmp := memcmp (take minlen astr) (take minlen bstr) in
  Some (if cmp =? 0 then s32 (alen - blen) else cmp).

Definition equalStringObjects (a b : robj) : option bool :=
  match a, b with
  | StrInt x, StrInt y => Some (x =? y)
  | _, _ => c ← compareStringObjects a b; Some (c =? 0)
  end.

(** The C library's [strtoll(p, &eptr, 10)] on the characters of a C string:
    the saturated value, the characters left at [eptr] and ERANGE. *)
Fixpoint skip_space (p : bytes) : bytes :=
  match p with
  | c :: q => if is_space c then skip_space q else p
  | [] => []
  end.

Fixpoint digit_prefix (p : bytes) : bytes * bytes :=
  match p with
  | c :: q => if is_digit c then let '(ds, r) := digit_prefix q in (c :: ds, r) else ([], p)
  | [] => ([], [])
  end.

Definition strtoll (p : bytes) : Z * bytes * bool :=
  let q := skip_space p in
  let '(neg, q) := match q with
                   | c :: r => if c =? ch_minus then (true, r) else if c =? 43 then (false, r) else (false, q)
                   | [] => (false, [])
                   end in
  let '(ds, rest) := digit_prefix q in
  match ds with
  | [] => (0, p, false)
  | _ =>
      let v := if neg : bool then - dec_acc 0 ds else dec_acc 0 ds in
      if v <? LLONG_MIN then (LLONG_MIN, rest, true)
      else if v >? LLONG_MAX then (LLONG_MAX, rest, true)
      else (v, rest, false)
  end.

(** Outer [None]: the assertion; inner [None]: REDIS_ERR. *)
Definition getLongLongFromObject (o : option robj) : option (option Z) :=
  match o with
  | None => Some (Some 0)
  | Some (StrInt value) => Some (Some value)
  | Some (StrRaw s) =>
      p ← c_str (s ++ [0]);
      let '(value, eptr, erange) := strtoll p in
      let first_is_space := match p with c :: _ => is_space c | [] => false end in
      Some (if first_is_space || negb (bool_decide (eptr = [])) || erange then None
            else Some value)
  | Some _ => None
  end.

(** [REDIS_OK] with the value, or [REDIS_ERR]. *)
Definition isObjectRepresentableAsLongLong (o : robj) : option (option Z) :=
  match o with
  | StrInt value => Some (Some value)
  | StrRaw s => string2ll s (zlen s)
  | _ => None
  end.

Definition strEncoding_raw_int (o : robj) : bytes :=
  match o with StrInt _ => zs "int" | _ => zs "raw" end.

(** ** Lemmas *)

Lemma ll_str_spec value :
  sfits 64 value -> exists ds, ll_str value = Some ds /\ signed_numeral ds value /\ zlen ds <= 20 /\
    ll2string (replicate 32 0) 32 value = Some (ds ++ [0] ++ drop (S (length ds)) (replicate 32 0), zlen ds).
Proof.
  intros Hv. destruct (ll2string_ok (replicate 32 0) 32 value Hv eq_refl) as (ds & Hs & Hrun).
  pose proof (signed_numeral_len ds value Hv Hs) as Hl.
  destruct (Z.ltb_spec (zlen ds) 32); [|lia].
  exists ds. unfold ll_str. rewrite Hrun. cbn [mbind option_bind].
  split_and!; [|done|lia|done].
  by apply (rd_block_mid [] ds ([0] ++ drop (S (length ds)) (replicate 32 0))).
Qed.

(** [string2l] accepts exactly the numerals of 64-bit integers. *)
Lemma string2l_spec s :
  exists r, string2l s (zlen s) = Some r /\
    forall v, r = Some v <-> sfits 64 v /\ signed_numeral s v.
Proof.
  destruct (string2ll_ok s) as (r & Hrun & Hr). exists r. split; [|done].
  unfold string2l. rewrite Hrun. cbn [mbind option_bind]. destruct r as [v|]; [|done].
  destruct (proj1 (Hr v) eq_refl) as [Hv _]. unfold sfits, LLONG_MIN, LLONG_MAX in *.
  destruct (Z.ltb_spec v (-9223372036854775808)), (Z.gtb_spec v 9223372036854775807);
    try done; lia.
Qed.

Lemma strtoll_fits p v q e : strtoll p = (v, q, e) -> sfits 64 v.
Proof.
  unfold strtoll. intros H. destruct (skip_space p) as [|a r].
  - simpl in H. by simplify_eq.
  - revert H. set (x := if a =? ch_minus then _ else _). destruct x as [neg q'].
    destruct (digit_prefix q') as [ds rest]. destruct ds as [|d ds]; [by intros; simplify_eq|].
    set (w := if neg then _ else _). unfold LLONG_MIN, LLONG_MAX.
    destruct (Z.ltb_spec w (-9223372036854775808)); [by intros; simplify_eq|].
    destruct (Z.gtb_spec w 9223372036854775807); intros; simplify_eq; [done|]. split; lia.
Qed.

(** A stored object holds an integer only when it fits a [long]. *)
Definition obj_ok (o : robj) : Prop :=
  match o with StrInt value => sfits 64 value | _ => True end.

Lemma tryObjectEncoding_ok s :
  exists o, tryObjectEncoding s = Some o /\ obj_type o = REDIS_STRING /\ obj_ok o /\
    getDecodedObject o = Some s /\ stringObjectLen o = Some (zlen s).
Proof.
  unfold tryObjectEncoding. destruct (Z.gtb_spec (zlen s) 21); [by exists (StrRaw s)|].
  destruct (string2l_spec s) as (r & -> & Hr). cbn [mbind option_bind].
  destruct r as [v|]; [|by exists (StrRaw s)]. destruct (proj1 (Hr v) eq_refl) as [Hv Hs].
  exists (StrInt v). destruct (ll_str_spec v Hv) as (ds & Hds & Hn & _ & Hrun).
  rewrite (signed_numeral_unique s ds v Hs Hn). split_and!; try done. unfold stringObjectLen. by rewrite Hrun.
Qed.

(** The decimal numeral of a 64-bit integer. *)
Definition dec (value : Z) : bytes := default [] (ll_str value).

Lemma dec_spec value : sfits 64 value -> ll_str value = Some (dec value) /\ signed_numeral (dec value) value /\ zlen (dec value) <= 20.
Proof. intros Hv. unfold dec. by destruct (ll_str_spec value Hv) as (ds & -> & Hs & Hl & _). Qed.

Lemma dec_numeral s value : sfits 64 value -> signed_numeral s value -> s = dec value.
Proof. intros Hv Hs. destruct (dec_spec value Hv) as (_ & Hd & _). by apply (signed_numeral_unique s _ value). Qed.

Lemma dec_inj v w : sfits 64 v -> sfits 64 w -> dec v = dec w -> v = w.
Proof.
  intros Hv Hw Heq. destruct (string2ll_ok (dec v)) as (r & _ & Hr).
  destruct (dec_spec v Hv) as (_ & Hsv & _). destruct (dec_spec w Hw) as (_ & Hsw & _). rewrite <- Heq in Hsw.
  pose proof (proj2 (Hr v) (conj Hv Hsv)) as H1. pose proof (proj2 (Hr w) (conj Hw Hsw)) as H2. congruence.
Qed.

(** The integer that a string object is, if it is one. *)
Lemma representable_ok o s : obj_ok o -> getDecodedObject o = Some s ->
  exists r, isObjectRepresentableAsLongLong o = Some r /\
    forall v, r = Some v <-> sfits 64 v /\ s = dec v.
Proof.
  destruct o as [n|t| | | |]; intros Ho Hs; try done; cbn [getDecodedObject isObjectRepresentableAsLongLong obj_ok] in *.
  - destruct (dec_spec n Ho) as (Hn & _). rewrite Hn in Hs. injection Hs as <-. eexists. split; [reflexivity|].
    intros v. split; [by intros [= ->]|]. intros [Hv Heq]. f_equal. by apply dec_inj.
  - injection Hs as ->. destruct (string2ll_ok s) as (r & -> & Hr). exists r. split; [done|]. intros v. rewrite Hr.
    split; intros [Hv H]; (split; [done|]); [by apply dec_numeral|]. subst s. by destruct (dec_spec v Hv) as (_ & ? & _).
Qed.

(** Encoding a string argument as an object loses nothing: the object is
    well formed, decodes to the same bytes and reports the same length. *)
Theorem tryObjectEncoding_decode s :
  exists o, tryObjectEncoding s = Some o /\ obj_type o = REDIS_STRING /\ obj_ok o /\
    getDecodedObject o = Some s /\ stringObjectLen o = Some (zlen s).
Proof. apply tryObjectEncoding_ok. Qed.
