(* ===== verification/Bits.v ===== *)
(** * Bits of strings (src/redis-2.8.19/src/bitops.c)

    The helpers of the bit commands on blocks of bytes: counting the bits that are set,
    finding the first one, and the operations of BITOP on several strings. A pointer is
    an offset in a block; [base] is the address of the block, of which only the alignment
    matters. The integers of the machine are little-endian. *)
From S2P Require Import Prelude Object.
Open Scope Z_scope.

(** ** Reads through pointers *)

Definition byte_at (m : bytes) (p : Z) : option Z := u8 <$> rd m p.
Definition word32_at (m : bytes) (p : Z) : option Z := b ← rd_block m p 4; Some (u32 (le_val b)).
Definition word64_at (m : bytes) (p : Z) : option Z := b ← rd_block m p 8; Some (u64 (le_val b)).

(** ** Counting *)

Definition bitsinbyte : list Z :=
  [0;1;1;2;1;2;2;3;1;2;2;3;2;3;3;4;1;2;2;3;2;3;3;4;2;3;3;4;3;4;4;5;
   1;2;2;3;2;3;3;4;2;3;3;4;3;4;4;5;2;3;3;4;3;4;4;5;3;4;4;5;4;5;5;6;
   1;2;2;3;2;3;3;4;2;3;3;4;3;4;4;5;2;3;3;4;3;4;4;5;3;4;4;5;4;5;5;6;
   2;3;3;4;3;4;4;5;3;4;4;5;4;5;5;6;3;4;4;5;4;5;5;6;4;5;5;6;5;6;6;7;
   1;2;2;3;2;3;3;4;2;3;3;4;3;4;4;5;2;3;3;4;3;4;4;5;3;4;4;5;4;5;5;6;
   2;3;3;4;3;4;4;5;3;4;4;5;4;5;5;6;3;4;4;5;4;5;5;6;4;5;5;6;5;6;6;7;
   2;3;3;4;3;4;4;5;3;4;4;5;4;5;5;6;3;4;4;5;4;5;5;6;4;5;5;6;5;6;6;7;
   3;4;4;5;4;5;5;6;4;5;5;6;5;6;6;7;4;5;5;6;5;6;6;7;5;6;6;7;6;7;7;8].

(** The bits of a word, counted in parallel: by twos, by fours, by bytes. *)
Definition pop_twos (aux : Z) : Z := u32 (aux - Z.land (Z.shiftr aux 1) 0x55555555).
Definition pop_fours (aux : Z) : Z := u32 (Z.land aux 0x33333333 + Z.land (Z.shiftr aux 2) 0x33333333).
Definition pop_bytes (aux : Z) : Z := Z.shiftr (u32 (Z.land (u32 (aux + Z.shiftr aux 4)) 0x0F0F0F0F * 0x01010101)) 24.
Definition pop_word (aux : Z) : Z := pop_bytes (pop_fours (pop_twos aux)).

Section popcount.
Context (base : Z) (m : bytes).

(** [p], [count] and [bits] after the bytes before the first aligned word. *)
Fixpoint pop_unaligned (fuel : nat) (p count bits : Z) : option (Z * Z * Z) :=
  if negb (Z.land (base + p) 3 =? 0) && negb (count =? 0) then
    match fuel with
    | O => None
    | S fuel => b ← byte_at m p; n ← rd bitsinbyte b; pop_unaligned fuel (p + 1) (count - 1) (u64 (bits + n))
    end
  else Some (p, count, bits).

(** 16 bytes at a time. *)
Fixpoint pop_blocks (fuel : nat) (p count bits : Z) : option (Z * Z * Z) :=
  if count >=? 16 then
    match fuel with
    | O => None
    | S fuel =>
        aux1 ← word32_at m p;
        aux2 ← word32_at m (p + 4);
        aux3 ← word32_at m (p + 8);
        aux4 ← word32_at m (p + 12);
        pop_blocks fuel (p + 16) (count - 16) (u64 (bits + u32 (pop_word aux1 + pop_word aux2 + pop_word aux3 + pop_word aux4)))
    end
  else Some (p, count, bits).

Fixpoint pop_rest (fuel : nat) (p count bits : Z) : option Z :=
  if count =? 0 then Some bits
  else
    match fuel with
    | O => None
    | S fuel => b ← byte_at m p; n ← rd bitsinbyte b; pop_rest fuel (p + 1) (count - 1) (u64 (bits + n))
    end.

Definition redisPopcount (s count : Z) : option Z :=
  '(p, count, bits) ← pop_unaligned 3 s count 0;
  '(p, count, bits) ← pop_blocks (length m) p count bits;
  pop_rest (length m) p count bits.

(** ** The first bit *)

(** [c], [count] and [pos] after the bytes before the first aligned word that hold
    nothing but the other bit. *)
Fixpoint skip_bytes (fuel : nat) (skipval c count pos : Z) : option (Z * Z * Z) :=
  if negb (Z.land (base + c) 7 =? 0) && negb (count =? 0) then
    b ← byte_at m c;
    if negb (b =? skipval) then Some (c, count, pos)
    else match fuel with O => None | S fuel => skip_bytes fuel skipval (c + 1) (count - 1) (s64 (pos + 8)) end
  else Some (c, count, pos).

Fixpoint skip_words (fuel : nat) (skipval l count pos : Z) : option (Z * Z * Z) :=
  if count >=? 8 then
    w ← word64_at m l;
    if negb (w =? skipval) then Some (l, count, pos)
    else match fuel with O => None | S fuel => skip_words fuel skipval (l + 8) (count - 8) (s64 (pos + 64)) end
  else Some (l, count, pos).

(** [n] more bytes into the word, the first the most significant; zeros at the end. *)
Fixpoint load_word (n : nat) (c count word : Z) : option Z :=
  match n with
  | O => Some word
  | S n =>
      let word := u64 (Z.shiftl word 8) in
      if negb (count =? 0) then b ← byte_at m c; load_word n (c + 1) (count - 1) (Z.lor word b)
      else load_word n c count word
  end.

(** [one] is the mask; when it is gone the code panics. *)
Fixpoint scan_bits (fuel : nat) (one word : Z) (bit : bool) (pos : Z) : option Z :=
  match fuel with
  | O => None
  | S fuel => if eqb (negb (Z.land one word =? 0)) bit then Some pos else scan_bits fuel (Z.shiftr one 1) word bit (s64 (pos + 1))
  end.

Definition redisBitpos (s count : Z) (bit : bool) : option Z :=
  '(c, count, pos) ← skip_bytes 7 (if bit then 0 else 255) s count 0;
  '(l, count, pos) ← skip_words (length m) (if bit then 0 else ULLONG_MAX) c count pos;
  word ← load_word 8 l count 0;
  if bit && (word =? 0) then Some (-1) else scan_bits 64 (2 ^ 63) word bit pos.
End popcount.

(** ** Single bits *)

(** The byte after SETBIT, and the bit that was there. *)
Definition setbit_byte (byteval bitoffset on : Z) : Z * Z :=
  let bit := 7 - Z.land bitoffset 7 in
  let bitval := Z.land byteval (Z.shiftl 1 bit) in
  let byteval := Z.land byteval (Z.lnot (Z.shiftl 1 bit)) in
  let byteval := Z.lor byteval (Z.shiftl (Z.land on 1) bit) in
  (u8 byteval, bitval).

(** The string grown with zeros, with the byte at its place. *)
Definition setbit_bytes (s : bytes) (bitoffset on : Z) : option (bytes * Z) :=
  let byte := Z.shiftr bitoffset 3 in
  let s := s ++ replicate (Z.to_nat (byte + 1 - zlen s)) 0 in
  byteval ← byte_at s byte;
  let '(byteval, bitval) := setbit_byte byteval bitoffset on in
  s ← wr s byte byteval;
  Some (s, bitval).

Definition getbit_bytes (s : bytes) (bitoffset : Z) : option Z :=
  let byte := Z.shiftr bitoffset 3 in
  let bit := 7 - Z.land bitoffset 7 in
  if byte <? zlen s then byteval ← byte_at s byte; Some (Z.land byteval (Z.shiftl 1 bit)) else Some 0.

(** ** BITOP *)

Inductive bitop := BITOP_AND | BITOP_OR | BITOP_XOR | BITOP_NOT.

#[global] Instance bitop_eq_dec : EqDecision bitop.
Proof. solve_decision. Defined.

(** What is done with one more source. *)
Definition bitop_with (op : bitop) (output byte : Z) : Z :=
  match op with
  | BITOP_AND => Z.land output byte
  | BITOP_OR => Z.lor output byte
  | BITOP_XOR => Z.lxor output byte
  | BITOP_NOT => output
  end.

Section bitop.
Context (op : bitop) (src : list bytes).

(** One word of the fast path. *)
Definition fast_word (s res : bytes) (j : Z) : option bytes :=
  a ← word64_at res j;
  b ← word64_at s j;
  wr_block res j (le_bytes 8 (bitop_with op a b)).

Definition fast_not (res : bytes) (j : Z) : option bytes :=
  a ← word64_at res j;
  wr_block res j (le_bytes 8 (u64 (Z.lnot a))).

(** Four words, from the offset [j]. *)
Definition four_words (f : bytes -> Z -> option bytes) (res : bytes) (j : Z) : option bytes :=
  res ← f res j;
  res ← f res (j + 8);
  res ← f res (j + 16);
  f res (j + 24).

(** The sources after the first one, at the offset [j]. *)
Fixpoint fast_sources (l : list bytes) (res : bytes) (j : Z) : option bytes :=
  match l with
  | [] => Some res
  | s :: l => res ← four_words (fast_word s) res j; fast_sources l res j
  end.

(** [res] and [j] after the fast path. *)
Fixpoint fast_loop (fuel : nat) (res : bytes) (j minlen : Z) : option (bytes * Z) :=
  if minlen >=? 32 then
    match fuel with
    | O => None
    | S fuel =>
        res ← (if bool_decide (op = BITOP_NOT) then four_words fast_not res j else fast_sources (drop 1 src) res j);
        fast_loop fuel res (j + 32) (minlen - 32)
    end
  else Some (res, j).

(** The byte [j] of the result, from the bytes of the sources. *)
Definition byte_or_zero (s : bytes) (j : Z) : option Z := if zlen s <=? j then Some 0 else byte_at s j.

Fixpoint slow_sources (l : list bytes) (output j : Z) : option Z :=
  match l with
  | [] => Some output
  | s :: l => byte ← byte_or_zero s j; slow_sources l (bitop_with op output byte) j
  end.

Definition slow_byte (j : Z) : option Z :=
  s ← head src;
  output ← byte_or_zero s j;
  let output := if bool_decide (op = BITOP_NOT) then u8 (Z.lnot output) else output in
  slow_sources (drop 1 src) output j.

Fixpoint slow_loop (fuel : nat) (res : bytes) (j maxlen : Z) : option bytes :=
  if j <? maxlen then
    match fuel with
    | O => None
    | S fuel => output ← slow_byte j; res ← wr res j output; slow_loop fuel res (j + 1) maxlen
    end
  else Some res.

(** The result, when [maxlen] is not zero. *)
Definition bitop_bytes (maxlen minlen : Z) : option bytes :=
  let res := replicate (Z.to_nat maxlen) 0 in
  '(res, j) ← (if negb (minlen =? 0) && (zlen src <=? 16) then
                 s ← head src; b ← rd_block s 0 minlen; res ← wr_block res 0 b; fast_loop (Z.to_nat minlen) res 0 minlen
               else Some (res, 0));
  slow_loop (Z.to_nat maxlen) res j maxlen.
End bitop.

(** ** Examples *)

Example popcount_foobar : redisPopcount 1 (zs "foobar") 0 6 = Some 26.
Proof. reflexivity. Qed.

Example bitpos_examples :
  redisBitpos 0 [255; 240; 0] 0 3 false = Some 12 /\ redisBitpos 0 [0; 255; 240] 0 3 true = Some 8 /\
  redisBitpos 0 [0; 0; 0] 0 3 true = Some (-1) /\ redisBitpos 3 [255; 255; 255] 0 3 false = Some 24.
Proof. split_and!; reflexivity. Qed.

Example bitop_and : bitop_bytes BITOP_AND [zs "foobar"; zs "abcdef"] 6 6 = Some (zs "`bc`ab").
Proof. reflexivity. Qed.
