(* ===== verification/BitsSpec.v ===== *)
(** * What the bit operations compute

    A string is a list of bits, the most significant bit of a byte first. The counting
    and searching functions of Bits.v, which read four and eight bytes at a time, are
    compared with that list; BITOP is compared with the operation byte by byte. *)
From S2P Require Import Prelude Object Bits.
Open Scope Z_scope.

(** ** Strings as bits *)

Definition byte_bits (b : Z) : list bool := map (Z.testbit b) [7; 6; 5; 4; 3; 2; 1; 0].
Definition bits (m : bytes) : list bool := flat_map byte_bits m.
Definition ones (l : list bool) : Z := zlen (filter (fun b => b = true) l).
Definition seg (m : bytes) (p n : Z) : bytes := take (Z.to_nat n) (drop (Z.to_nat p) m).

Lemma bits_app m k : bits (m ++ k) = bits m ++ bits k.
Proof. apply flat_map_app. Qed.

Lemma length_bits m : length (bits m) = (8 * length m)%nat.
Proof. unfold bits. induction m as [|b m IH]; [done|]. cbn [flat_map]. rewrite length_app, IH. cbn [length byte_bits map]. lia. Qed.

Lemma ones_app l k : ones (l ++ k) = ones l + ones k.
Proof. unfold ones. by rewrite filter_app, zlen_app. Qed.

Lemma ones_range l : 0 <= ones l <= zlen l.
Proof. unfold ones, zlen. pose proof (length_filter (fun b => b = true) l). lia. Qed.

Lemma seg_app m p c n : 0 <= p -> 0 <= n <= c -> seg m p c = seg m p n ++ seg m (p + n) (c - n).
Proof.
  intros. unfold seg. rewrite Z2Nat.inj_add, Z2Nat.inj_sub by lia. rewrite <- drop_drop.
  replace (Z.to_nat c) with (Z.to_nat n + (Z.to_nat c - Z.to_nat n))%nat at 1 by lia.
  by rewrite take_take_drop.
Qed.

Lemma seg_zero m p : seg m p 0 = [].
Proof. done. Qed.

Lemma seg_one m p b : rd m p = Some b -> seg m p 1 = [b].
Proof.
  intros Hb. apply rd_mid in Hb as (a & k & -> & <-). unfold seg. rewrite Z2Nat_inj_zlen, drop_app_length. done.
Qed.

Lemma seg_cons m p c b : rd m p = Some b -> 0 < c -> seg m p c = b :: seg m (p + 1) (c - 1).
Proof.
  intros Hb Hc. pose proof (rd_Some_bound _ _ _ Hb). rewrite (seg_app m p c 1) by lia.
  by rewrite (seg_one m p b Hb).
Qed.

Lemma zlen_seg m p c : 0 <= p -> 0 <= c -> p + c <= zlen m -> zlen (seg m p c) = c.
Proof. intros. unfold seg. rewrite zlen_take; [done|]. rewrite zlen_drop; lia. Qed.

Lemma seg_ok m p c : bytes_ok m -> bytes_ok (seg m p c).
Proof. intros. unfold seg. by apply Forall_take, Forall_drop. Qed.

Lemma ones_seg m p c : 0 <= p -> 0 <= c -> p + c <= zlen m -> 0 <= ones (bits (seg m p c)) <= 8 * c.
Proof.
  intros. pose proof (ones_range (bits (seg m p c))) as Ho. pose proof (zlen_seg m p c ltac:(lia) ltac:(lia) ltac:(lia)) as Hl.
  unfold zlen in Ho, Hl. rewrite length_bits in Ho. lia.
Qed.

(** Reads of valid bytes. *)
Lemma byte_at_ok m p : bytes_ok m -> 0 <= p < zlen m -> exists b, byte_at m p = Some b /\ rd m p = Some b /\ byte_ok b.
Proof.
  intros Hm Hp. destruct (rd_is_Some m p Hp) as [b Hb]. exists b. pose proof (rd_Forall _ _ _ _ Hm Hb) as Hok.
  unfold byte_at. rewrite Hb. cbn. split_and!; [|done..]. f_equal. by apply uwrap_small.
Qed.

Lemma word_at_ok k m p :
  bytes_ok m -> 0 <= p -> 0 <= k -> p + k <= zlen m ->
  rd_block m p k = Some (seg m p k) /\ 0 <= le_val (seg m p k) < 2 ^ (8 * k).
Proof.
  intros Hm Hp Hk Hl. split; [by apply rd_block_ok|].
  pose proof (le_val_range _ (seg_ok m p k Hm)) as Hr. rewrite zlen_seg in Hr by lia. by rewrite Z.pow_mul_r by lia.
Qed.

Lemma word32_at_ok m p : bytes_ok m -> 0 <= p -> p + 4 <= zlen m -> word32_at m p = Some (le_val (seg m p 4)).
Proof.
  intros Hm Hp Hl. destruct (word_at_ok 4 m p Hm Hp ltac:(lia) Hl) as [Hb Hr]. unfold word32_at. rewrite Hb. cbn [mbind option_bind].
  f_equal. by apply uwrap_small.
Qed.

Lemma word64_at_ok m p : bytes_ok m -> 0 <= p -> p + 8 <= zlen m -> word64_at m p = Some (le_val (seg m p 8)).
Proof.
  intros Hm Hp Hl. destruct (word_at_ok 8 m p Hm Hp ltac:(lia) Hl) as [Hb Hr]. unfold word64_at. rewrite Hb. cbn [mbind option_bind].
  f_equal. by apply uwrap_small.
Qed.

(** ** Bits of numbers in base 256 *)

Lemma testbit_field x y i : byte_ok x -> 0 <= i -> Z.testbit (x + 256 * y) i = if i <? 8 then Z.testbit x i else Z.testbit y (i - 8).
Proof.
  intros Hx Hi. unfold byte_ok in Hx. destruct (Z.ltb_spec i 8).
  - rewrite <- (Z.mod_pow2_bits_low (x + 256 * y) 8 i) by lia. f_equal.
    change (2 ^ 8) with 256. rewrite Z.mul_comm, Z.mod_add, Z.mod_small; lia.
  - replace i with ((i - 8) + 8) at 1 by lia. rewrite <- Z.div_pow2_bits by lia. f_equal.
    change (2 ^ 8) with 256. rewrite Z.mul_comm, Z.div_add, Z.div_small; lia.
Qed.

(** A mask that is zero where the shift brings in the next byte. *)
Lemma land_shiftr_field k x y c d :
  0 <= k <= 8 -> byte_ok x -> 0 <= c < 2 ^ (8 - k) ->
  Z.land (Z.shiftr (x + 256 * y) k) (c + 256 * d) = Z.land (Z.shiftr x k) c + 256 * Z.land (Z.shiftr y k) d.
Proof.
  intros Hk Hx Hc. assert (2 ^ (8 - k) <= 2 ^ 8) by (apply Z.pow_le_mono_r; lia).
  assert (byte_ok c) as Hcb by (unfold byte_ok; lia).
  assert (byte_ok (Z.land (Z.shiftr x k) c)) as Hlo.
  { unfold byte_ok in *. rewrite Z.shiftr_div_pow2 by lia. split; [apply Z.land_nonneg; lia|].
    destruct (Z.eq_dec (Z.land (x / 2 ^ k) c) 0) as [->|Hn]; [lia|].
    assert (0 <= Z.land (x / 2 ^ k) c) by (apply Z.land_nonneg; lia).
    apply (Z.log2_lt_pow2 _ 8); [lia|]. pose proof (Z.log2_land (x / 2 ^ k) c ltac:(apply Z.div_pos; lia) ltac:(lia)).
    assert (Z.log2 c < 8); [|lia]. destruct (Z.eq_dec c 0) as [->|]; [done|]. apply Z.log2_lt_pow2; lia. }
  apply Z.bits_inj'. intros i Hi. rewrite Z.land_spec, Z.shiftr_spec, !testbit_field by (done || lia).
  destruct (Z.ltb_spec i 8).
  - rewrite Z.land_spec, Z.shiftr_spec by lia. destruct (Z.ltb_spec (i + k) 8); [done|].
    replace (Z.testbit c i) with false; [by rewrite !andb_false_r|].
    symmetry. destruct (Z.eq_dec c 0) as [->|]; [apply Z.bits_0|]. apply Z.bits_above_log2; [lia|].
    apply Z.lt_le_trans with (8 - k); [|lia]. apply Z.log2_lt_pow2; lia.
  - rewrite Z.land_spec, Z.shiftr_spec by lia. destruct (Z.ltb_spec (i + k) 8); [lia|]. do 2 f_equal. lia.
Qed.

Lemma land_field x y c d : byte_ok x -> byte_ok c -> Z.land (x + 256 * y) (c + 256 * d) = Z.land x c + 256 * Z.land y d.
Proof. intros Hx Hc. exact (land_shiftr_field 0 x y c d ltac:(lia) Hx Hc). Qed.

(** The same operation on the four bytes of a word. *)
Lemma land_shiftr_word k x0 x1 x2 x3 c :
  0 <= k <= 8 -> byte_ok x0 -> byte_ok x1 -> byte_ok x2 -> byte_ok x3 -> 0 <= c < 2 ^ (8 - k) ->
  Z.land (Z.shiftr (le_val [x0; x1; x2; x3]) k) (le_val [c; c; c; c]) =
  le_val (map (fun x => Z.land (Z.shiftr x k) c) [x0; x1; x2; x3]).
Proof.
  intros. cbn [le_val map]. rewrite !land_shiftr_field by done. rewrite Z.shiftr_0_l, Z.land_0_l. done.
Qed.

(** ** Counting *)

Definition twos (b : Z) : Z := b - Z.land (Z.shiftr b 1) 0x55.
Definition fours (b : Z) : Z := Z.land b 0x33 + Z.land (Z.shiftr b 2) 0x33.

Lemma byte_counts b :
  byte_ok b ->
  byte_ok (twos b) /\ byte_ok (fours (twos b)) /\ fours (twos b) mod 16 <= 4 /\ fours (twos b) / 16 <= 4 /\
  ones (byte_bits b) = fours (twos b) mod 16 + fours (twos b) / 16.
Proof.
  intros Hb.
  pose proof (below (fun b => (0 <=? twos b) && (twos b <? 256) && (0 <=? fours (twos b)) && (fours (twos b) <? 256) &&
             (fours (twos b) mod 16 <=? 4) && (fours (twos b) / 16 <=? 4) &&
             (ones (byte_bits b) =? fours (twos b) mod 16 + fours (twos b) / 16)) 256 ltac:(vm_compute; reflexivity) b Hb) as H.
  cbn beta in H. rewrite !andb_true_iff, !Z.leb_le, !Z.ltb_lt, Z.eqb_eq in H. unfold byte_ok. tauto.
Qed.

Lemma bitsinbyte_ok b : byte_ok b -> rd bitsinbyte b = Some (ones (byte_bits b)).
Proof.
  intros Hb.
  pose proof (below (fun b => match rd bitsinbyte b with Some n => n =? ones (byte_bits b) | None => false end) 256
    ltac:(vm_compute; reflexivity) b Hb) as H.
  cbn beta in H. destruct (rd bitsinbyte b); [|done]. f_equal. lia.
Qed.

Lemma pop_twos_word x0 x1 x2 x3 :
  byte_ok x0 -> byte_ok x1 -> byte_ok x2 -> byte_ok x3 -> pop_twos (le_val [x0; x1; x2; x3]) = le_val (map twos [x0; x1; x2; x3]).
Proof.
  intros H0 H1 H2 H3. unfold pop_twos. change 0x55555555 with (le_val [0x55; 0x55; 0x55; 0x55]).
  rewrite land_shiftr_word by (done || lia). cbn [le_val map].
  pose proof (byte_counts _ H0) as (? & _). pose proof (byte_counts _ H1) as (? & _).
  pose proof (byte_counts _ H2) as (? & _). pose proof (byte_counts _ H3) as (? & _).
  unfold twos, byte_ok in *. rewrite uwrap_small; lia.
Qed.

Lemma pop_fours_word x0 x1 x2 x3 :
  byte_ok x0 -> byte_ok x1 -> byte_ok x2 -> byte_ok x3 ->
  byte_ok (fours x0) -> byte_ok (fours x1) -> byte_ok (fours x2) -> byte_ok (fours x3) ->
  pop_fours (le_val [x0; x1; x2; x3]) = le_val (map fours [x0; x1; x2; x3]).
Proof.
  intros H0 H1 H2 H3 F0 F1 F2 F3. unfold pop_fours. change 0x33333333 with (le_val [0x33; 0x33; 0x33; 0x33]).
  rewrite <- (Z.shiftr_0_r (le_val [x0; x1; x2; x3])) at 1.
  rewrite !land_shiftr_word by (done || lia). cbn [le_val map]. rewrite !Z.shiftr_0_r.
  unfold fours, byte_ok in *. rewrite uwrap_small; lia.
Qed.

#[local] Ltac divlia := Z.to_euclidean_division_equations; lia.

Lemma nibble l h : 0 <= l < 16 -> (l + 16 * h) mod 16 = l /\ (l + 16 * h) / 16 = h.
Proof. intros. split; divlia. Qed.

(** No nibble holds more than four, so that none overflows. *)
Lemma pop_bytes_nibbles l0 h0 l1 h1 l2 h2 l3 h3 :
  0 <= l0 <= 4 -> 0 <= h0 <= 4 -> 0 <= l1 <= 4 -> 0 <= h1 <= 4 -> 0 <= l2 <= 4 -> 0 <= h2 <= 4 -> 0 <= l3 <= 4 -> 0 <= h3 <= 4 ->
  pop_bytes (le_val [l0 + 16 * h0; l1 + 16 * h1; l2 + 16 * h2; l3 + 16 * h3]) = l0 + h0 + (l1 + h1) + (l2 + h2) + (l3 + h3).
Proof.
  intros. unfold pop_bytes.
  set (w := le_val _). assert (0 <= w < 2 ^ 31) as Hw by (subst w; cbn [le_val]; lia).
  assert (Z.shiftr w 4 = le_val [h0 + 16 * l1; h1 + 16 * l2; h2 + 16 * l3; h3]) as ->.
  { rewrite Z.shiftr_div_pow2 by lia. subst w. cbn [le_val]. symmetry. apply Z.div_unique with l0; lia. }
  assert (u32 (w + le_val [h0 + 16 * l1; h1 + 16 * l2; h2 + 16 * l3; h3]) =
          le_val [(l0 + h0) + 16 * (h0 + l1); (l1 + h1) + 16 * (h1 + l2); (l2 + h2) + 16 * (h2 + l3); (l3 + h3) + 16 * h3]) as ->.
  { rewrite uwrap_small; [subst w; cbn [le_val]; lia|]. cbn [le_val]. lia. }
  change 0x0F0F0F0F with (le_val [0x0F; 0x0F; 0x0F; 0x0F]). cbn [le_val].
  rewrite !land_field by (unfold byte_ok; lia). rewrite Z.land_0_r.
  change 15 with (Z.ones 4). rewrite !Z.land_ones by lia. change (2 ^ 4) with 16.
  rewrite (proj1 (nibble (l0 + h0) _ ltac:(lia))), (proj1 (nibble (l1 + h1) _ ltac:(lia))), (proj1 (nibble (l2 + h2) _ ltac:(lia))), (proj1 (nibble (l3 + h3) _ ltac:(lia))).
  rewrite Z.shiftr_div_pow2 by lia. unfold uwrap. change (2 ^ 24) with 16777216. change (2 ^ 32) with 4294967296.
  set (s0 := l0 + h0) in *. set (s1 := l1 + h1) in *. set (s2 := l2 + h2) in *. set (s3 := l3 + h3) in *.
  rewrite <- (Z.mod_unique _ _ (s1 + s2 + s3 + 256 * (s2 + s3) + 65536 * s3)
                ((s0 + s1 + s2 + s3) * 16777216 + (s0 + s1 + s2) * 65536 + (s0 + s1) * 256 + s0)) by lia.
  symmetry. apply Z.div_unique with ((s0 + s1 + s2) * 65536 + (s0 + s1) * 256 + s0); lia.
Qed.

Lemma pop_bytes_word x0 x1 x2 x3 :
  byte_ok x0 -> byte_ok x1 -> byte_ok x2 -> byte_ok x3 ->
  x0 mod 16 <= 4 -> x1 mod 16 <= 4 -> x2 mod 16 <= 4 -> x3 mod 16 <= 4 ->
  x0 / 16 <= 4 -> x1 / 16 <= 4 -> x2 / 16 <= 4 -> x3 / 16 <= 4 ->
  pop_bytes (le_val [x0; x1; x2; x3]) = (x0 mod 16 + x0 / 16) + (x1 mod 16 + x1 / 16) + (x2 mod 16 + x2 / 16) + (x3 mod 16 + x3 / 16).
Proof.
  assert (forall x, x = x mod 16 + 16 * (x / 16)) as E by (intros x; pose proof (Z.div_mod x 16); lia).
  assert (forall x, byte_ok x -> 0 <= x mod 16 /\ 0 <= x / 16) as N.
  { unfold byte_ok. intros x Hx. split; [apply Z.mod_pos_bound; lia|apply Z.div_pos; lia]. }
  intros. etrans; [|apply pop_bytes_nibbles; split; try apply N; done]. by rewrite <- !E.
Qed.

Lemma pop_word_ok m :
  bytes_ok m -> length m = 4%nat -> pop_word (le_val m) = ones (bits m).
Proof.
  intros Hm Hl. destruct m as [|x0 [|x1 [|x2 [|x3 [|]]]]]; try done.
  apply Forall_cons in Hm as [H0 Hm]. apply Forall_cons in Hm as [H1 Hm]. apply Forall_cons in Hm as [H2 Hm]. apply Forall_cons in Hm as [H3 _].
  unfold pop_word. rewrite pop_twos_word by done.
  apply byte_counts in H0 as (? & ? & ? & ? & E0), H1 as (? & ? & ? & ? & E1), H2 as (? & ? & ? & ? & E2), H3 as (? & ? & ? & ? & E3).
  cbn [map]. rewrite pop_fours_word by done. cbn [map]. rewrite pop_bytes_word by done. rewrite <- E0, <- E1, <- E2, <- E3.
  unfold bits. cbn [flat_map]. rewrite !ones_app. change (ones []) with 0. lia.
Qed.

Section popcount.
Context (base : Z) (m : bytes) (Hm : bytes_ok m).

Lemma land_3 x : Z.land x 3 = x mod 4.
Proof using. change 3 with (Z.ones 2). by rewrite Z.land_ones. Qed.

(** Each loop keeps the sum of what was counted and what is left. *)
Lemma pop_byte_step p c n :
  0 <= p -> 0 < c -> p + c <= zlen m -> 0 <= n -> n + ones (bits (seg m p c)) < 2 ^ 64 ->
  exists b k, byte_at m p = Some b /\ rd bitsinbyte b = Some k /\ 0 <= k /\ u64 (n + k) = n + k /\
    n + k + ones (bits (seg m (p + 1) (c - 1))) = n + ones (bits (seg m p c)).
Proof using Hm.
  intros Hp Hc Hl Hn Hs. destruct (byte_at_ok m p Hm ltac:(lia)) as (b & Hb & Hr & Hok).
  rewrite (seg_cons m p c b Hr Hc) in *. unfold bits in *. cbn [flat_map] in *. fold (bits (seg m (p + 1) (c - 1))) in *.
  rewrite ones_app in *. pose proof (ones_range (byte_bits b)). pose proof (ones_range (bits (seg m (p + 1) (c - 1)))).
  exists b, (ones (byte_bits b)). split_and!; [done|by apply bitsinbyte_ok|lia| |lia]. apply uwrap_small. lia.
Qed.

Lemma pop_unaligned_ok fuel p c n :
  (4 - (base + p) mod 4) mod 4 <= Z.of_nat fuel -> 0 <= p -> 0 <= c -> p + c <= zlen m -> 0 <= n ->
  n + ones (bits (seg m p c)) < 2 ^ 64 ->
  exists p' c' n', pop_unaligned base m fuel p c n = Some (p', c', n') /\ 0 <= p' /\ 0 <= c' /\ p' + c' <= zlen m /\ 0 <= n' /\
    n' + ones (bits (seg m p' c')) = n + ones (bits (seg m p c)).
Proof using Hm.
  revert p c n. induction fuel as [|fuel IH]; intros p c n Hf Hp Hc Hl Hn Hs; cbn [pop_unaligned]; rewrite land_3;
    pose proof (Z.mod_pos_bound (base + p) 4 ltac:(lia)) as Hb; destruct (Z.eqb_spec ((base + p) mod 4) 0) as [E|E]; cbn [negb andb];
    try (by exists p, c, n).
  - exfalso. rewrite Z.mod_small in Hf; lia.
  - destruct (Z.eqb_spec c 0); [by exists p, c, n|]. cbn [negb].
    destruct (pop_byte_step p c n) as (b & k & -> & Hk & Hk0 & Hw & Hsum); [done|lia|done..|]. cbn [mbind option_bind]. rewrite Hk. cbn [mbind option_bind].
    rewrite Hw. destruct (IH (p + 1) (c - 1) (n + k)) as (p' & c' & n' & -> & ? & ? & ? & ? & Heq); try lia.
    + rewrite Z.mod_small in Hf by lia. Z.to_euclidean_division_equations; lia.
    + exists p', c', n'. split_and!; try done. lia.
Qed.

Lemma pop_blocks_ok fuel p c n :
  c <= Z.of_nat fuel -> 0 <= p -> 0 <= c -> p + c <= zlen m -> 0 <= n -> n + ones (bits (seg m p c)) < 2 ^ 64 ->
  exists p' c' n', pop_blocks m fuel p c n = Some (p', c', n') /\ 0 <= p' /\ 0 <= c' <= c /\ p' + c' <= zlen m /\ 0 <= n' /\
    n' + ones (bits (seg m p' c')) = n + ones (bits (seg m p c)).
Proof using Hm.
  revert p c n. induction fuel as [|fuel IH]; intros p c n Hf Hp Hc Hl Hn Hs; cbn [pop_blocks];
    destruct (Z.geb_spec c 16); try (exists p, c, n; split_and!; (done || lia)).
  rewrite !word32_at_ok by (done || lia). cbn [mbind option_bind].
  assert (forall q, 0 <= q -> q + 4 <= zlen m -> pop_word (le_val (seg m q 4)) = ones (bits (seg m q 4))) as Hw.
  { intros q Hq Hq4. apply pop_word_ok; [by apply seg_ok|]. pose proof (zlen_seg m q 4 Hq ltac:(lia) Hq4) as Hz. unfold zlen in Hz. lia. }
  rewrite !Hw by lia.
  assert (ones (bits (seg m p c)) = ones (bits (seg m p 4)) + ones (bits (seg m (p + 4) 4)) + ones (bits (seg m (p + 8) 4)) +
            ones (bits (seg m (p + 12) 4)) + ones (bits (seg m (p + 16) (c - 16)))) as E.
  { rewrite (seg_app m p c 4), (seg_app m (p + 4) (c - 4) 4), (seg_app m (p + 4 + 4) (c - 4 - 4) 4), (seg_app m (p + 4 + 4 + 4) (c - 4 - 4 - 4) 4) by lia.
    rewrite !bits_app, !ones_app. rewrite <- !Z.add_assoc, <- !Z.sub_add_distr. change (4 + 4) with 8. change (4 + 8) with 12. change (8 + 4) with 12. change (12 + 4) with 16. change (4 + 12) with 16. done. }
  rewrite E in *.
  pose proof (ones_seg m p 4 ltac:(lia) ltac:(lia) ltac:(lia)). pose proof (ones_seg m (p + 4) 4 ltac:(lia) ltac:(lia) ltac:(lia)).
  pose proof (ones_seg m (p + 8) 4 ltac:(lia) ltac:(lia) ltac:(lia)). pose proof (ones_seg m (p + 12) 4 ltac:(lia) ltac:(lia) ltac:(lia)).
  pose proof (ones_seg m (p + 16) (c - 16) ltac:(lia) ltac:(lia) ltac:(lia)).
  rewrite (uwrap_small 32) by lia. rewrite (uwrap_small 64) by lia.
  destruct (IH (p + 16) (c - 16) (n + (ones (bits (seg m p 4)) + ones (bits (seg m (p + 4) 4)) + ones (bits (seg m (p + 8) 4)) + ones (bits (seg m (p + 12) 4)))))
    as (p' & c' & n' & -> & ? & ? & ? & ? & Heq); try lia.
  exists p', c', n'. split_and!; try done; lia.
Qed.

Lemma pop_rest_ok fuel p c n :
  c <= Z.of_nat fuel -> 0 <= p -> 0 <= c -> p + c <= zlen m -> 0 <= n -> n + ones (bits (seg m p c)) < 2 ^ 64 ->
  pop_rest m fuel p c n = Some (n + ones (bits (seg m p c))).
Proof using Hm.
  revert p c n. induction fuel as [|fuel IH]; intros p c n Hf Hp Hc Hl Hn Hs; cbn [pop_rest];
    destruct (Z.eqb_spec c 0) as [->|]; try (rewrite seg_zero; change (ones (bits [])) with 0; f_equal; lia); [lia|].
  destruct (pop_byte_step p c n) as (b & k & -> & Hk & Hk0 & Hw & Hsum); [done|lia|done..|]. cbn [mbind option_bind]. rewrite Hk. cbn [mbind option_bind].
  rewrite Hw, IH by lia. by f_equal.
Qed.

Lemma popcount_ok s count :
  0 <= s -> 0 <= count -> s + count <= zlen m -> 8 * zlen m < 2 ^ 64 ->
  redisPopcount base m s count = Some (ones (bits (seg m s count))).
Proof using Hm.
  intros Hs Hc Hl Hz. pose proof (ones_seg m s count Hs Hc Hl) as Ho. unfold redisPopcount.
  destruct (pop_unaligned_ok 3 s count 0) as (p & c & n & -> & ? & ? & ? & ? & E1); try lia.
  { Z.to_euclidean_division_equations; lia. }
  cbn [mbind option_bind].
  destruct (pop_blocks_ok (length m) p c n) as (p' & c' & n' & -> & ? & ? & ? & ? & E2); try (unfold zlen in *; lia).
  cbn [mbind option_bind]. rewrite pop_rest_ok by (unfold zlen in *; lia). f_equal. lia.
Qed.
End popcount.

(** ** The first bit *)

(** The index of the first [b], the length when there is none. *)
Fixpoint bit_index (b : bool) (l : list bool) : Z :=
  match l with
  | [] => 0
  | x :: l => if eqb x b then 0 else 1 + bit_index b l
  end.

Lemma bit_index_range b l : 0 <= bit_index b l <= zlen l.
Proof. induction l as [|x l IH]; [done|]. cbn [bit_index]. rewrite zlen_cons. destruct (eqb x b); lia. Qed.

Lemma bit_index_app b l k : bit_index b (l ++ k) = if bit_index b l <? zlen l then bit_index b l else zlen l + bit_index b k.
Proof.
  induction l as [|x l IH]; [done|]. cbn [app bit_index]. rewrite IH, zlen_cons. pose proof (bit_index_range b l). destruct (eqb x b).
  - destruct (Z.ltb_spec 0 (1 + zlen l)); [done|pose proof (zlen_nonneg l); lia].
  - destruct (Z.ltb_spec (bit_index b l) (zlen l)), (Z.ltb_spec (1 + bit_index b l) (1 + zlen l)); lia.
Qed.

Lemma bit_index_none b l : bit_index b l = zlen l <-> l = replicate (length l) (negb b).
Proof.
  induction l as [|x l IH]; [done|]. cbn [bit_index]. rewrite zlen_cons. pose proof (bit_index_range b l). cbn [length replicate].
  destruct x, b; cbn [eqb negb]; split; intros E; try (pose proof (zlen_nonneg l); lia); try done;
    try (f_equal; apply IH; lia); injection E; intros E'; apply IH in E'; lia.
Qed.

Lemma bit_index_replicate b n : bit_index b (replicate n (negb b)) = Z.of_nat n.
Proof.
  pose proof (proj2 (bit_index_none b (replicate n (negb b)))) as H. unfold zlen in H. rewrite length_replicate in H. by apply H.
Qed.

Lemma bit_index_find b l :
  match list_find (eq b) l with Some (i, _) => bit_index b l = Z.of_nat i /\ (i < length l)%nat | None => bit_index b l = Z.of_nat (length l) end.
Proof.
  induction l as [|x l IH]; [done|]. cbn [list_find bit_index length]. destruct (decide (b = x)) as [<-|Hne].
  - rewrite eqb_reflx. split; [done|lia].
  - rewrite (proj2 (eqb_false_iff _ _)) by congruence. destruct (list_find (eq b) l) as [[i y]|]; cbn [fmap option_fmap option_map prod_map]; cbn; lia.
Qed.

(** The bits of a word of [n] bits. *)
Fixpoint word_bits (n : nat) (w : Z) : list bool :=
  match n with O => [] | S n => Z.testbit w (Z.of_nat n) :: word_bits n w end.

Lemma length_word_bits n w : length (word_bits n w) = n.
Proof. induction n as [|n IH]; [done|]. cbn [word_bits length]. by rewrite IH. Qed.

Lemma word_bits_ext n v w : (forall i, 0 <= i < Z.of_nat n -> Z.testbit v i = Z.testbit w i) -> word_bits n v = word_bits n w.
Proof.
  induction n as [|n IH]; intros H; [done|]. cbn [word_bits]. rewrite H by lia. f_equal. apply IH. intros. apply H. lia.
Qed.

Lemma word_bits_zero n w : 0 <= w < 2 ^ Z.of_nat n -> word_bits n w = replicate n false -> w = 0.
Proof.
  intros Hw E. apply Z.bits_inj_0. intros i. destruct (Z.lt_ge_cases i 0); [by apply Z.testbit_neg_r|].
  destruct (Z.lt_ge_cases i (Z.of_nat n)) as [Hi|Hi].
  - clear Hw. revert Hi E. induction n as [|n IH]; [lia|]. intros Hi E. cbn [word_bits replicate] in E. injection E as E0 E.
    destruct (Z.eq_dec i (Z.of_nat n)) as [->|]; [done|]. apply IH; [lia|done].
  - rewrite <- (Z.mod_small w (2 ^ Z.of_nat n)) by done. by apply Z.mod_pow2_bits_high; lia.
Qed.

Lemma word_bits_byte b : byte_ok b -> word_bits 8 b = byte_bits b.
Proof. done. Qed.

(** The word grows by a byte on the right. *)
Lemma word_bits_push n w b : byte_ok b -> word_bits (n + 8) (Z.lor (Z.shiftl w 8) b) = word_bits n w ++ byte_bits b.
Proof.
  intros Hb. induction n as [|n IH].
  - apply word_bits_ext. intros i Hi. rewrite Z.lor_spec, Z.shiftl_spec_low by lia. done.
  - cbn [plus word_bits app]. rewrite IH. f_equal. rewrite Z.lor_spec, Z.shiftl_spec by lia.
    replace (Z.of_nat (n + 8) - 8) with (Z.of_nat n) by lia.
    replace (Z.testbit b (Z.of_nat (n + 8))) with false; [by rewrite orb_false_r|]. symmetry.
    unfold byte_ok in Hb. rewrite <- (Z.mod_small b (2 ^ 8)) by done. apply Z.mod_pow2_bits_high. lia.
Qed.

(** The byte whose bits are all [x]. *)
Definition byte_all (x : bool) : Z := if x then 255 else 0.

Lemma byte_bits_all x : byte_bits (byte_all x) = replicate 8 x.
Proof. by destruct x. Qed.

Lemma byte_bits_all_inv x b : byte_ok b -> byte_bits b = replicate 8 x -> b = byte_all x.
Proof.
  intros Hb E.
  pose proof (below (fun b => eqb (b =? 255) (forallb id (byte_bits b)) && eqb (b =? 0) (forallb negb (byte_bits b))) 256
    ltac:(vm_compute; reflexivity) b Hb) as H.
  cbn beta in H. rewrite E in H. destruct x; cbn in H; destruct (Z.eqb_spec b 255), (Z.eqb_spec b 0); done.
Qed.

Lemma bits_all n x : bits (replicate n (byte_all x)) = replicate (8 * n) x.
Proof.
  induction n as [|n IH]; [done|]. unfold bits in *. cbn [replicate flat_map]. rewrite IH, byte_bits_all, <- replicate_add. f_equal. lia.
Qed.

Lemma bits_all_inv l x : bytes_ok l -> bits l = replicate (8 * length l) x -> l = replicate (length l) (byte_all x).
Proof.
  induction l as [|b l IH]; intros Hl E; [done|]. apply Forall_cons in Hl as [Hb Hl]. unfold bits in E. cbn [flat_map length] in E.
  replace (8 * S (length l))%nat with (8 + 8 * length l)%nat in E by lia. rewrite replicate_add in E.
  apply app_inj_1 in E as [Eb El]; [|done]. cbn [length replicate]. rewrite <- IH by done. f_equal. by apply byte_bits_all_inv.
Qed.

Lemma le_val_all (x : bool) : le_val (replicate 8 (byte_all x)) = if x then ULLONG_MAX else 0.
Proof. by destruct x. Qed.

Lemma le_val_all_inv l (x : bool) : bytes_ok l -> length l = 8%nat -> le_val l = (if x then ULLONG_MAX else 0) -> l = replicate 8 (byte_all x).
Proof. intros Hl Hn E. rewrite <- (le_bytes_val l Hl), Hn, E. by destruct x. Qed.

Lemma testbit_mask w n : 0 <= n -> negb (Z.land w (2 ^ n) =? 0) = Z.testbit w n.
Proof.
  intros Hn. assert (Z.land w (2 ^ n) = if Z.testbit w n then 2 ^ n else 0) as ->.
  { apply Z.bits_inj'. intros i Hi. rewrite Z.land_spec, Z.pow2_bits_eqb by done.
    destruct (Z.eqb_spec n i) as [->|]; [|rewrite andb_false_r; destruct (Z.testbit w n)];
      rewrite ?Z.bits_0, ?andb_true_r; [|by rewrite Z.pow2_bits_false|done].
    destruct (Z.testbit w i) eqn:E; [by rewrite Z.pow2_bits_true|by rewrite Z.bits_0]. }
  destruct (Z.testbit w n); [|done]. pose proof (Z.pow_pos_nonneg 2 n). by destruct (Z.eqb_spec (2 ^ n) 0); [lia|].
Qed.

Lemma lor_shift_range n w b : byte_ok b -> 0 <= w < 2 ^ Z.of_nat n -> 0 <= Z.lor (Z.shiftl w 8) b < 2 ^ Z.of_nat (n + 8).
Proof.
  unfold byte_ok. intros Hb Hw. assert (Z.lor (Z.shiftl w 8) b = b + 256 * w) as ->.
  { apply Z.bits_inj'. intros i Hi. rewrite Z.lor_spec, testbit_field by done. destruct (Z.ltb_spec i 8).
    - by rewrite Z.shiftl_spec_low.
    - rewrite Z.shiftl_spec by lia. rewrite <- (Z.mod_small b (2 ^ 8)) by done. by rewrite Z.mod_pow2_bits_high, orb_false_r by lia. }
  rewrite Nat2Z.inj_add, Z.pow_add_r by lia. change (2 ^ Z.of_nat 8) with 256. lia.
Qed.

Section bitpos.
Context (base : Z) (m : bytes) (Hm : bytes_ok m) (Hz : 8 * zlen m < 2 ^ 62) (bit : bool).

(** What a loop that skips bytes keeps: only the other bit was passed. *)
Definition skipped (c n pos c' n' pos' : Z) : Prop :=
  0 <= c' /\ 0 <= n' <= n /\ c' + n' = c + n /\ pos' = pos + 8 * (c' - c) /\
  bits (seg m c n) = replicate (Z.to_nat (8 * (n - n'))) (negb bit) ++ bits (seg m c' n').

Lemma skipped_refl c n pos : 0 <= c -> 0 <= n -> skipped c n pos c n pos.
Proof using. intros. unfold skipped. rewrite !Z.sub_diag. split_and!; (done || lia). Qed.

Lemma skipped_step k c n pos c' n' pos' :
  0 <= c -> 0 <= k <= n -> seg m c k = replicate (Z.to_nat k) (byte_all (negb bit)) ->
  skipped (c + k) (n - k) (pos + 8 * k) c' n' pos' -> skipped c n pos c' n' pos'.
Proof using.
  unfold skipped. intros Hc Hk Hs (? & ? & ? & ? & Hb). split_and!; try lia.
  rewrite (seg_app m c n k), bits_app, Hs, bits_all, Hb, app_assoc, <- replicate_add by lia. do 2 f_equal. lia.
Qed.

Lemma s64_pos x : 0 <= x < 2 ^ 63 -> s64 x = x.
Proof using. intros. apply swrap_small; [lia|]. unfold sfits. change (2 ^ (64 - 1)) with (2 ^ 63). lia. Qed.

Lemma land_7 x : Z.land x 7 = x mod 8.
Proof using. change 7 with (Z.ones 3). by rewrite Z.land_ones. Qed.

Lemma skip_bytes_ok fuel c n pos :
  (8 - (base + c) mod 8) mod 8 <= Z.of_nat fuel -> 0 <= c -> 0 <= n -> c + n <= zlen m -> 0 <= pos -> pos + 8 * n < 2 ^ 62 ->
  exists c' n' pos', skip_bytes base m fuel (if bit then 0 else 255) c n pos = Some (c', n', pos') /\ skipped c n pos c' n' pos'.
Proof using Hm.
  revert c n pos. induction fuel as [|fuel IH]; intros c n pos Hf Hc Hn Hl Hp Hx; cbn [skip_bytes]; rewrite land_7;
    pose proof (Z.mod_pos_bound (base + c) 8 ltac:(lia)) as Hb; destruct (Z.eqb_spec ((base + c) mod 8) 0) as [E|E]; cbn [negb andb];
    try (exists c, n, pos; split; [done|by apply skipped_refl]).
  - exfalso. rewrite Z.mod_small in Hf; lia.
  - destruct (Z.eqb_spec n 0); [exists c, n, pos; split; [done|by apply skipped_refl]|]. cbn [negb].
    destruct (byte_at_ok m c Hm ltac:(lia)) as (b & -> & Hr & Hok). cbn [mbind option_bind].
    destruct (Z.eqb_spec b (if bit then 0 else 255)) as [->|]; cbn [negb]; [|exists c, n, pos; split; [done|by apply skipped_refl]].
    rewrite s64_pos by lia.
    destruct (IH (c + 1) (n - 1) (pos + 8)) as (c' & n' & pos' & -> & Hs); try lia.
    + rewrite Z.mod_small in Hf by lia. Z.to_euclidean_division_equations; lia.
    + exists c', n', pos'. split; [done|]. apply (skipped_step 1); [lia..| |done]. rewrite (seg_one m c _ Hr). by destruct bit.
Qed.

Lemma skip_words_ok fuel c n pos :
  n <= Z.of_nat fuel -> 0 <= c -> 0 <= n -> c + n <= zlen m -> 0 <= pos -> pos + 8 * n < 2 ^ 62 ->
  exists c' n' pos', skip_words m fuel (if bit then 0 else ULLONG_MAX) c n pos = Some (c', n', pos') /\ skipped c n pos c' n' pos' /\
    (8 <= n' -> seg m c' 8 <> replicate 8 (byte_all (negb bit))).
Proof using Hm.
  revert c n pos. induction fuel as [|fuel IH]; intros c n pos Hf Hc Hn Hl Hp Hx; cbn [skip_words];
    destruct (Z.geb_spec n 8); try (exists c, n, pos; split_and!; [done|by apply skipped_refl|lia]); [lia|].
  rewrite word64_at_ok by (done || lia). cbn [mbind option_bind].
  assert (length (seg m c 8) = 8%nat) as Hl8 by (pose proof (zlen_seg m c 8 ltac:(lia) ltac:(lia) ltac:(lia)) as E; unfold zlen in E; lia).
  destruct (Z.eqb_spec (le_val (seg m c 8)) (if bit then 0 else ULLONG_MAX)) as [E|E]; cbn [negb].
  - assert (seg m c 8 = replicate 8 (byte_all (negb bit))) as E' by (apply le_val_all_inv; [by apply seg_ok|done|rewrite E; by destruct bit]).
    rewrite s64_pos by lia.
    destruct (IH (c + 8) (n - 8) (pos + 64)) as (c' & n' & pos' & -> & Hs & Hw); try lia.
    exists c', n', pos'. split_and!; [done| |done]. by apply (skipped_step 8); [lia..| |].
  - exists c, n, pos. split_and!; [done|by apply skipped_refl|]. intros _ E'. apply E. rewrite E', le_val_all. by destruct bit.
Qed.

Lemma load_word_ok n k c cnt w :
  0 <= c -> 0 <= cnt -> c + cnt <= zlen m -> (k + n <= 8)%nat -> 0 <= w < 2 ^ Z.of_nat (8 * k) ->
  exists w', load_word m n c cnt w = Some w' /\ 0 <= w' < 2 ^ Z.of_nat (8 * k + 8 * n) /\
    word_bits (8 * k + 8 * n) w' = word_bits (8 * k) w ++ bits (take n (seg m c cnt ++ replicate n 0)).
Proof using Hm.
  revert k c cnt w. induction n as [|n IH]; intros k c cnt w Hc Hn Hl Hk Hw; cbn [load_word].
  - exists w. rewrite Nat.mul_0_r, Nat.add_0_r, take_0, app_nil_r. done.
  - assert (2 ^ Z.of_nat (8 * k) * 2 ^ 8 <= 2 ^ 64) as Hp by (rewrite <- Z.pow_add_r by lia; apply Z.pow_le_mono_r; lia).
    assert (u64 (Z.shiftl w 8) = Z.shiftl w 8) as -> by (rewrite Z.shiftl_mul_pow2 by lia; apply uwrap_small; lia).
    assert (exists b c' cnt', byte_ok b /\ 0 <= c' /\ 0 <= cnt' /\ c' + cnt' <= zlen m /\
              load_word m (S n) c cnt w = load_word m n c' cnt' (Z.lor (Z.shiftl w 8) b) /\
              take (S n) (seg m c cnt ++ replicate (S n) 0) = b :: take n (seg m c' cnt' ++ replicate n 0)) as (b & c' & cnt' & Hb & Hc' & Hn' & Hl' & Hload & Htake).
    { cbn [load_word]. rewrite Z.shiftl_mul_pow2, (uwrap_small 64) by lia. rewrite <- Z.shiftl_mul_pow2 by lia.
      destruct (Z.eqb_spec cnt 0) as [->|]; cbn [negb].
      - exists 0, c, 0. rewrite Z.lor_0_r. split_and!; done || lia.
      - destruct (byte_at_ok m c Hm ltac:(lia)) as (b & -> & Hr & Hok). exists b, (c + 1), (cnt - 1). cbn [mbind option_bind].
        rewrite (seg_cons m c cnt b Hr) by lia. split_and!; try (done || lia). cbn [app take]. f_equal.
        rewrite replicate_S_end, app_assoc. apply take_app_le. rewrite length_app, length_replicate. lia. }
    cbn [load_word] in Hload. rewrite Z.shiftl_mul_pow2, (uwrap_small 64) in Hload by lia. rewrite <- Z.shiftl_mul_pow2 in Hload by lia. rewrite Hload.
    destruct (IH (S k) c' cnt' (Z.lor (Z.shiftl w 8) b)) as (w' & -> & Hr & E); try done; [lia| |].
    { replace (8 * S k)%nat with (8 * k + 8)%nat by lia. by apply lor_shift_range. }
    exists w'. replace (8 * k + 8 * S n)%nat with (8 * S k + 8 * n)%nat by lia. split_and!; [done|apply Hr|apply Hr|].
    rewrite E, Htake. replace (8 * S k)%nat with (8 * k + 8)%nat by lia. rewrite word_bits_push by done.
    unfold bits. cbn [flat_map]. by rewrite app_assoc.
Qed.

Lemma scan_bits_ok n w pos :
  0 <= pos < 2 ^ 62 -> (n <= 64)%nat -> bit_index bit (word_bits n w) < Z.of_nat n ->
  scan_bits n (2 ^ (Z.of_nat n - 1)) w bit pos = Some (pos + bit_index bit (word_bits n w)).
Proof using.
  revert pos. enough (forall pos, 0 <= pos /\ pos + Z.of_nat n < 2 ^ 63 -> bit_index bit (word_bits n w) < Z.of_nat n ->
    scan_bits n (2 ^ (Z.of_nat n - 1)) w bit pos = Some (pos + bit_index bit (word_bits n w))) as H by (intros; apply H; lia).
  induction n as [|n IH]; intros pos Hp Hi; [simpl in Hi; lia|]. cbn [scan_bits word_bits bit_index] in *.
  replace (Z.of_nat (S n) - 1) with (Z.of_nat n) by lia.
  assert (negb (Z.land (2 ^ Z.of_nat n) w =? 0) = Z.testbit w (Z.of_nat n)) as ->.
  { rewrite Z.land_comm. by rewrite testbit_mask by lia. }
  destruct (eqb (Z.testbit w (Z.of_nat n)) bit); [f_equal; lia|].
  rewrite s64_pos by lia. destruct n as [|n]; [simpl in Hi; lia|].
  assert (Z.shiftr (2 ^ Z.of_nat (S n)) 1 = 2 ^ (Z.of_nat (S n) - 1)) as ->.
  { rewrite Z.shiftr_div_pow2 by lia. change (2 ^ 1) with 2. replace (Z.of_nat (S n)) with (Z.of_nat (S n) - 1 + 1) at 1 by lia.
    rewrite Z.pow_add_r by lia. change (2 ^ 1) with 2. by rewrite Z.div_mul. }
  rewrite IH by lia. f_equal. lia.
Qed.

(** The search goes on in the last word: the bits that are left, with zeros after them. *)
Lemma last_word c n :
  0 <= c -> 0 <= n -> c + n <= zlen m -> (8 <= n -> seg m c 8 <> replicate 8 (byte_all (negb bit))) ->
  let l := bits (take 8 (seg m c n ++ replicate 8 0)) in
  if bit && (bit_index bit l =? 64) then bit_index bit (bits (seg m c n)) = 8 * n
  else bit_index bit l < 64 /\ bit_index bit l = bit_index bit (bits (seg m c n)) /\ (bit = true -> bit_index bit l < 8 * n).
Proof using Hm.
  intros Hc Hn Hl Hw l. pose proof (zlen_seg m c n Hc Hn Hl) as Hs. unfold zlen in Hs.
  destruct (Z.lt_ge_cases n 8) as [Hlt|Hge].
  - assert (l = bits (seg m c n) ++ replicate (8 * (8 - Z.to_nat n)) false) as El.
    { subst l. rewrite take_app_ge by lia. rewrite bits_app. f_equal. rewrite take_replicate. change 0 with (byte_all false). rewrite bits_all. f_equal. lia. }
    pose proof (bit_index_range bit (bits (seg m c n))) as Hr. unfold zlen in Hr. rewrite length_bits in Hr.
    assert (bit_index bit l = _) as Ei by (rewrite El; apply bit_index_app). unfold zlen in Ei. rewrite length_bits in Ei.
    destruct bit; cbn [andb].
    + rewrite (bit_index_replicate true) in Ei. destruct (Z.ltb_spec (bit_index true (bits (seg m c n))) (Z.of_nat (8 * length (seg m c n))));
        destruct (Z.eqb_spec (bit_index true l) 64); lia.
    + assert (bit_index false (replicate (8 * (8 - Z.to_nat n)) false) = 0) as E0 by (replace (8 * (8 - Z.to_nat n))%nat with (S (8 * (8 - Z.to_nat n) - 1)) by lia; done).
      rewrite E0 in Ei. destruct (Z.ltb_spec (bit_index false (bits (seg m c n))) (Z.of_nat (8 * length (seg m c n)))); lia.
  - assert (l = bits (seg m c 8)) as El.
    { subst l. rewrite take_app_le by lia. f_equal. unfold seg. rewrite take_take. f_equal. lia. }
    assert (length (seg m c 8) = 8%nat) as H8 by (pose proof (zlen_seg m c 8 Hc ltac:(lia) ltac:(lia)) as E; unfold zlen in E; lia).
    pose proof (bit_index_range bit l) as Hr. unfold zlen in Hr. rewrite El, length_bits, H8, <- El in Hr.
    assert (bit_index bit l <> 64) as Hne.
    { intros E. apply (Hw Hge). rewrite <- H8. apply bits_all_inv; [by apply seg_ok|]. rewrite <- El, <- length_bits, <- El. apply bit_index_none.
      unfold zlen. rewrite El, length_bits, H8, <- El. done. }
    rewrite (proj2 (Z.eqb_neq _ _) Hne), andb_false_r. split_and!; [lia| |lia].
    rewrite (seg_app m c n 8), bits_app, bit_index_app, <- El by lia. unfold zlen. rewrite El, length_bits, H8, <- El.
    destruct (Z.ltb_spec (bit_index bit l) (Z.of_nat (8 * 8))); lia.
Qed.

Lemma skipped_index c n pos c' n' pos' :
  0 <= c -> 0 <= n -> skipped c n pos c' n' pos' -> pos + bit_index bit (bits (seg m c n)) = pos' + bit_index bit (bits (seg m c' n')).
Proof using.
  intros Hc Hn (? & ? & ? & -> & ->). rewrite bit_index_app, bit_index_replicate. unfold zlen. rewrite length_replicate.
  destruct (Z.ltb_spec (Z.of_nat (Z.to_nat (8 * (n - n')))) (Z.of_nat (Z.to_nat (8 * (n - n'))))); lia.
Qed.

Lemma bitpos_ok s count :
  0 <= s -> 0 <= count -> s + count <= zlen m ->
  redisBitpos base m s count bit = Some (let i := bit_index bit (bits (seg m s count)) in if bit && (i =? 8 * count) then -1 else i).
Proof using Hm Hz.
  intros Hs Hc Hl. unfold redisBitpos.
  destruct (skip_bytes_ok 7 s count 0) as (c1 & n1 & p1 & -> & Hs1); try lia; [Z.to_euclidean_division_equations; lia|]. cbn [mbind option_bind].
  pose proof Hs1 as (? & ? & ? & ? & _).
  destruct (skip_words_ok (length m) c1 n1 p1) as (c & n & p & -> & Hs2 & Hw); try (unfold zlen in *; lia). cbn [mbind option_bind].
  pose proof Hs2 as (? & ? & ? & ? & _).
  destruct (load_word_ok 8 0 c n 0) as (w & -> & Hr & Hb); try lia. cbn [mbind option_bind]. cbn [Nat.mul Nat.add word_bits app] in Hb, Hr.
  apply skipped_index in Hs1; [|lia..]. apply skipped_index in Hs2; [|lia..]. cbn zeta.
  pose proof (last_word c n ltac:(lia) ltac:(lia) ltac:(lia) Hw) as Hlast. cbn zeta in Hlast.
  change (word_bits 64 w = bits (take 8 (seg m c n ++ replicate 8 0))) in Hb. rewrite <- Hb in Hlast.
  assert (bit = true -> (w =? 0) = (bit_index bit (word_bits 64 w) =? 64)) as Hzero.
  { intros ->. destruct (Z.eqb_spec w 0) as [->|Hne]; [done|]. symmetry. apply Z.eqb_neq. intros E. apply Hne.
    apply (word_bits_zero 64); [done|]. rewrite <- (length_word_bits 64 w) at 2. apply (bit_index_none true). unfold zlen. by rewrite length_word_bits. }
  assert (bit && (w =? 0) = bit && (bit_index bit (word_bits 64 w) =? 64)) as -> by (destruct bit; [by rewrite Hzero|done]).
  pose proof (bit_index_range bit (bits (seg m c n))) as Hir. unfold zlen in Hir. rewrite length_bits in Hir. pose proof (zlen_seg m c n ltac:(lia) ltac:(lia) ltac:(lia)) as Hzl. unfold zlen in Hzl.
  destruct (bit && (bit_index bit (word_bits 64 w) =? 64)) eqn:E.
  - apply andb_true_iff in E as [-> _]. cbn [andb]. destruct (Z.eqb_spec (bit_index true (bits (seg m s count))) (8 * count)); [done|lia].
  - change (2 ^ 63) with (2 ^ (Z.of_nat 64 - 1)). rewrite scan_bits_ok by lia. f_equal.
    destruct (bit && (bit_index bit (bits (seg m s count)) =? 8 * count)) eqn:E'; [|lia].
    apply andb_true_iff in E' as [Eb E']. apply Z.eqb_eq in E'. destruct Hlast as (_ & He & Hlt). specialize (Hlt Eb). lia.
Qed.
End bitpos.

(** ** BITOP

    The bytes of the result, whichever of them the fast path of the code computes eight
    at a time: byte by byte, with the shorter strings padded with zeros. *)

Definition byte0 (s : bytes) (i : nat) : Z := default 0 (s !! i).

Definition first_byte (op : bitop) (b : Z) : Z := if bool_decide (op = BITOP_NOT) then 255 - b else b.

(** The byte [i] of the result. *)
Definition bitop_byte (op : bitop) (src : list bytes) (i : nat) : Z :=
  match src with
  | [] => 0
  | s :: src => foldl (fun o s => bitop_with op o (byte0 s i)) (first_byte op (byte0 s i)) src
  end.

Lemma byte0_ok s i : bytes_ok s -> byte_ok (byte0 s i).
Proof.
  intros Hs. unfold byte0. destruct (s !! i) as [b|] eqn:E; [|by unfold byte_ok]. cbn. by apply (Forall_lookup_1 _ _ _ _ Hs E).
Qed.

Lemma lnot_byte b : byte_ok b -> u8 (Z.lnot b) = 255 - b.
Proof. unfold byte_ok, Z.lnot. intros. unfold uwrap. symmetry. apply Z.mod_unique with (-1); change (2 ^ 8) with 256; lia. Qed.

(** A list of bytes is determined by its length and its bytes. *)
Lemma list_of_bytes (r : bytes) n (f : nat -> Z) : length r = n -> (forall i, (i < n)%nat -> byte0 r i = f i) -> r = map f (seq 0 n).
Proof.
  intros Hl Hf. apply list_eq. intros i. destruct (decide (i < n)%nat) as [Hi|Hi].
  - rewrite (list_lookup_fmap f), (proj2 (lookup_seq _ _ _ _)) by (split; [done|lia]). cbn. rewrite <- Hf by done.
    unfold byte0. destruct (r !! i) eqn:E; [done|]. apply lookup_ge_None in E. lia.
  - rewrite !lookup_ge_None_2; [done|rewrite length_map, length_seq; lia|lia].
Qed.

(** ** Operations on words, byte by byte *)

Definition op_bit (op : bitop) (a b : bool) : bool :=
  match op with BITOP_AND => a && b | BITOP_OR => a || b | BITOP_XOR => xorb a b | BITOP_NOT => a end.

Lemma bitop_with_spec op a b i : 0 <= i -> Z.testbit (bitop_with op a b) i = op_bit op (Z.testbit a i) (Z.testbit b i).
Proof. intros. destruct op; cbn; [apply Z.land_spec|apply Z.lor_spec|apply Z.lxor_spec|done]. Qed.

Lemma byte_ok_iff x : byte_ok x <-> 0 <= x /\ forall i, 8 <= i -> Z.testbit x i = false.
Proof.
  unfold byte_ok. split.
  - intros Hx. split; [lia|]. intros i Hi. rewrite <- (Z.mod_small x (2 ^ 8)) by done. apply Z.mod_pow2_bits_high. lia.
  - intros [Hx Hb]. assert (x = x mod 2 ^ 8) as ->; [|apply Z.mod_pos_bound; lia]. apply Z.bits_inj'. intros i Hi.
    destruct (Z.lt_ge_cases i 8); [by rewrite Z.mod_pow2_bits_low|]. rewrite Z.mod_pow2_bits_high by lia. by apply Hb.
Qed.

Lemma bitop_with_ok op a b : byte_ok a -> byte_ok b -> byte_ok (bitop_with op a b).
Proof.
  rewrite !byte_ok_iff. intros [Ha Ha'] [Hb Hb']. split.
  - destruct op; cbn; [apply Z.land_nonneg|apply Z.lor_nonneg|apply Z.lxor_nonneg|]; tauto.
  - intros i Hi. rewrite bitop_with_spec, Ha', Hb' by lia. by destruct op.
Qed.

Lemma bitop_with_field op x y c d :
  byte_ok x -> byte_ok c -> bitop_with op (x + 256 * y) (c + 256 * d) = bitop_with op x c + 256 * bitop_with op y d.
Proof.
  intros Hx Hc. apply Z.bits_inj'. intros i Hi. rewrite bitop_with_spec, !testbit_field by (done || by apply bitop_with_ok).
  destruct (Z.ltb_spec i 8); by rewrite bitop_with_spec by lia.
Qed.

Lemma le_bytes_field n x y : byte_ok x -> le_bytes (S n) (x + 256 * y) = x :: le_bytes n y.
Proof.
  intros Hx. unfold byte_ok in Hx. cbn [le_bytes]. rewrite (Z.mul_comm 256), Z.mod_add, Z.div_add, Z.mod_small, Z.div_small by lia. done.
Qed.

Lemma le_bytes_bitop op a b :
  bytes_ok a -> bytes_ok b -> length a = length b -> le_bytes (length a) (bitop_with op (le_val a) (le_val b)) = zip_with (bitop_with op) a b.
Proof.
  intros Ha. revert b. induction Ha as [|x a Hx Ha IH]; intros [|y b] Hb Hl; try done. apply Forall_cons in Hb as [Hy Hb].
  cbn [length le_val zip_with]. rewrite bitop_with_field by done. rewrite le_bytes_field by by apply bitop_with_ok. rewrite IH; [done..|]. simpl in Hl. lia.
Qed.

Lemma le_bytes_lnot a : bytes_ok a -> le_bytes (length a) (Z.lnot (le_val a)) = map (fun b => 255 - b) a.
Proof.
  induction 1 as [|x a Hx Ha IH]; [done|]. cbn [length le_val map]. unfold byte_ok in Hx.
  replace (Z.lnot (x + 256 * le_val a)) with ((255 - x) + 256 * Z.lnot (le_val a)) by (unfold Z.lnot; lia).
  rewrite le_bytes_field by (unfold byte_ok; lia). by rewrite IH.
Qed.

(** ** The fast path *)

(** The bytes from [j] on, [k] of them, replaced by what [g] makes of them. *)
Definition patched (j k : Z) (g : nat -> Z -> Z) (res res' : bytes) : Prop :=
  length res' = length res /\ bytes_ok res' /\
  forall i, byte0 res' i = if (j <=? Z.of_nat i) && (Z.of_nat i <? j + k) then g i (byte0 res i) else byte0 res i.

Lemma patched_app j k l g res res' res'' : 0 <= k -> 0 <= l -> patched j k g res res' -> patched (j + k) l g res' res'' -> patched j (k + l) g res res''.
Proof.
  intros Hk Hl (L1 & O1 & B1) (L2 & O2 & B2). split_and!; [congruence|done|]. intros i. rewrite B2, B1.
  destruct (Z.leb_spec (j + k) (Z.of_nat i)), (Z.ltb_spec (Z.of_nat i) (j + k + l)), (Z.leb_spec j (Z.of_nat i)), (Z.ltb_spec (Z.of_nat i) (j + k)),
    (Z.ltb_spec (Z.of_nat i) (j + (k + l))); cbn; done || lia.
Qed.

Lemma patched_nil j g res : bytes_ok res -> patched j 0 g res res.
Proof. intros. split_and!; [done..|]. intros i. destruct (Z.leb_spec j (Z.of_nat i)), (Z.ltb_spec (Z.of_nat i) (j + 0)); done || lia. Qed.

Lemma patched_comp j k g h res res' res'' :
  patched j k g res res' -> patched j k h res' res'' -> patched j k (fun i b => h i (g i b)) res res''.
Proof.
  intros (L1 & O1 & B1) (L2 & O2 & B2). split_and!; [congruence|done|]. intros i. rewrite B2, B1.
  by destruct ((j <=? Z.of_nat i) && (Z.of_nat i <? j + k)).
Qed.

Lemma byte0_seg s p n i : 0 <= p -> Z.of_nat i < n -> byte0 (seg s p n) i = byte0 s (Z.to_nat p + i).
Proof. intros. unfold byte0, seg. rewrite lookup_take_lt by lia. by rewrite lookup_drop. Qed.

(** What is written over the bytes at [j]. *)
Lemma wr_block_patched res j k l g :
  bytes_ok res -> bytes_ok l -> 0 <= j -> zlen l = k -> j + k <= zlen res ->
  (forall i, Z.of_nat i < k -> byte0 l i = g (Z.to_nat j + i)%nat (byte0 (seg res j k) i)) ->
  exists res', wr_block res j l = Some res' /\ patched j k g res res'.
Proof.
  intros Hr Hl Hj <- Hb Hg.
  assert (wr_block res j l = Some (take (Z.to_nat j) res ++ l ++ drop (Z.to_nat (j + zlen l)) res)) as E.
  { unfold wr_block. destruct (Z.leb_spec 0 j), (Z.leb_spec (j + zlen l) (zlen res)); done || lia. }
  unfold zlen in *. eexists. split; [exact E|]. split_and!.
  - rewrite !length_app, length_take, length_drop. lia.
  - rewrite !Forall_app. split_and!; [by apply Forall_take|done|by apply Forall_drop].
  - intros i. destruct (Z.leb_spec j (Z.of_nat i)); cbn [andb].
    + destruct (Z.ltb_spec (Z.of_nat i) (j + Z.of_nat (length l))).
      * replace i with (Z.to_nat j + (i - Z.to_nat j))%nat at 2 3 by lia. rewrite <- (byte0_seg res j (Z.of_nat (length l))), <- Hg by lia.
        unfold byte0. rewrite lookup_app_r; rewrite length_take; [|lia]. rewrite lookup_app_l by lia. do 2 f_equal. lia.
      * unfold byte0. rewrite lookup_app_r; rewrite length_take; [|lia]. rewrite lookup_app_r by lia. rewrite lookup_drop. do 2 f_equal. lia.
    + unfold byte0. rewrite lookup_app_l by (rewrite length_take; lia). by rewrite lookup_take_lt by lia.
Qed.

Lemma length_seg8 s j : 0 <= j -> j + 8 <= zlen s -> length (seg s j 8) = 8%nat.
Proof. intros. pose proof (zlen_seg s j 8 ltac:(lia) ltac:(lia) ltac:(lia)) as E. unfold zlen in E. lia. Qed.

Lemma fast_word_ok op s res j :
  bytes_ok s -> bytes_ok res -> 0 <= j -> j + 8 <= zlen s -> j + 8 <= zlen res ->
  exists res', fast_word op s res j = Some res' /\ patched j 8 (fun i b => bitop_with op b (byte0 s i)) res res'.
Proof.
  intros Hs Hr Hj Hls Hlr. unfold fast_word. rewrite !word64_at_ok by done. cbn [mbind option_bind].
  pose proof (length_seg8 s j Hj Hls) as L1. pose proof (length_seg8 res j Hj Hlr) as L2.
  pose proof (le_bytes_bitop op (seg res j 8) (seg s j 8) (seg_ok _ _ _ Hr) (seg_ok _ _ _ Hs) ltac:(congruence)) as E. rewrite L2 in E. rewrite E.
  apply wr_block_patched; try done.
  - rewrite <- E. apply le_bytes_ok.
  - unfold zlen. rewrite length_zip_with_l_eq; lia.
  - intros i Hi. rewrite <- (byte0_seg s j 8) by lia. unfold byte0. rewrite lookup_zip_with.
    destruct (lookup_lt_is_Some_2 (seg res j 8) i ltac:(lia)) as [a ->]. destruct (lookup_lt_is_Some_2 (seg s j 8) i ltac:(lia)) as [b ->]. done.
Qed.

Lemma fast_not_ok res j :
  bytes_ok res -> 0 <= j -> j + 8 <= zlen res -> exists res', fast_not res j = Some res' /\ patched j 8 (fun _ b => 255 - b) res res'.
Proof.
  intros Hr Hj Hlr. unfold fast_not. rewrite word64_at_ok by done. cbn [mbind option_bind].
  pose proof (length_seg8 res j Hj Hlr) as L. pose proof (le_bytes_lnot (seg res j 8) (seg_ok _ _ _ Hr)) as E. rewrite L in E.
  change (u64 (Z.lnot (le_val (seg res j 8)))) with (Z.lnot (le_val (seg res j 8)) mod 256 ^ Z.of_nat 8). rewrite le_bytes_mod, E.
  apply wr_block_patched; try done.
  - rewrite <- E. apply le_bytes_ok.
  - unfold zlen. rewrite length_map. lia.
  - intros i Hi. unfold byte0. rewrite (list_lookup_fmap (fun b => 255 - b)).
    destruct (lookup_lt_is_Some_2 (seg res j 8) i ltac:(lia)) as [a ->]. done.
Qed.

Lemma zlen_patched j k g res res' : patched j k g res res' -> zlen res' = zlen res.
Proof. intros (L & _). unfold zlen. by rewrite L. Qed.

Lemma four_words_ok f g n res j :
  (forall res j, bytes_ok res -> 0 <= j -> j + 8 <= zlen res -> j + 8 <= n ->
     exists res', f res j = Some res' /\ patched j 8 g res res') ->
  bytes_ok res -> 0 <= j -> j + 32 <= zlen res -> j + 32 <= n ->
  exists res', four_words f res j = Some res' /\ patched j 32 g res res'.
Proof.
  intros Hf Hr Hj Hl Hg. unfold four_words.
  destruct (Hf res j) as (r1 & -> & H1); [done|lia..|]. pose proof (zlen_patched _ _ _ _ _ H1) as L1. pose proof H1 as (_ & O1 & _). cbn [mbind option_bind].
  destruct (Hf r1 (j + 8)) as (r2 & -> & H2); [done|lia..|]. pose proof (zlen_patched _ _ _ _ _ H2) as L2. pose proof H2 as (_ & O2 & _). cbn [mbind option_bind].
  destruct (Hf r2 (j + 16)) as (r3 & -> & H3); [done|lia..|]. pose proof (zlen_patched _ _ _ _ _ H3) as L3. pose proof H3 as (_ & O3 & _). cbn [mbind option_bind].
  destruct (Hf r3 (j + 24)) as (r4 & -> & H4); [done|lia..|].
  exists r4. split; [done|]. apply (patched_app j 24 8 _ res r3); [lia..| |done]. apply (patched_app j 16 8 _ res r2); [lia..| |done]. by apply (patched_app j 8 8 _ res r1).
Qed.

Section fast.
Context (op : bitop) (n : Z).

(** The sources of which the code reads [n] bytes by words. *)
Definition long (l : list bytes) : Prop := Forall (fun s => bytes_ok s /\ n <= zlen s) l.

Lemma fast_sources_ok l res j :
  long l -> bytes_ok res -> 0 <= j -> j + 32 <= zlen res -> j + 32 <= n ->
  exists res', fast_sources op l res j = Some res' /\ patched j 32 (fun i b => foldl (fun o s => bitop_with op o (byte0 s i)) b l) res res'.
Proof using.
  intros Hl. revert res. induction Hl as [|s l [Hs Hn] Hl IH]; intros res Hr Hj Hlr Hln; cbn [fast_sources].
  - exists res. split; [done|]. split_and!; [done..|]. intros i. cbn. by destruct (_ && _).
  - destruct (four_words_ok (fast_word op s) (fun i b => bitop_with op b (byte0 s i)) n res j) as (r1 & -> & H1); [|done|lia..|].
    { intros. by apply fast_word_ok; [..|lia|]. }
    cbn [mbind option_bind]. pose proof (zlen_patched _ _ _ _ _ H1) as L1. pose proof H1 as (_ & O1 & _).
    destruct (IH r1) as (r2 & -> & H2); [done|lia..|]. exists r2. split; [done|]. exact (patched_comp _ _ _ _ _ _ _ H1 H2).
Qed.

(** One round of the loop of the fast path. *)
Definition fast_byte (l : list bytes) (i : nat) (b : Z) : Z :=
  if bool_decide (op = BITOP_NOT) then 255 - b else foldl (fun o s => bitop_with op o (byte0 s i)) b l.

Lemma fast_round_ok src res j :
  long (drop 1 src) -> bytes_ok res -> 0 <= j -> j + 32 <= zlen res -> j + 32 <= n ->
  exists res', (if bool_decide (op = BITOP_NOT) then four_words fast_not res j else fast_sources op (drop 1 src) res j) = Some res' /\
    patched j 32 (fast_byte (drop 1 src)) res res'.
Proof using.
  intros. unfold fast_byte. destruct (bool_decide (op = BITOP_NOT)).
  - apply (four_words_ok _ _ n); try done. intros. by apply fast_not_ok.
  - by apply fast_sources_ok.
Qed.

Lemma fast_loop_ok src fuel res j minlen :
  minlen <= Z.of_nat fuel -> long (drop 1 src) -> bytes_ok res -> 0 <= j -> j + minlen <= zlen res -> j + minlen <= n -> 0 <= minlen ->
  exists res' j', fast_loop op src fuel res j minlen = Some (res', j') /\ j <= j' <= j + minlen /\ patched j (j' - j) (fast_byte (drop 1 src)) res res'.
Proof using.
  revert res j minlen. induction fuel as [|fuel IH]; intros res j minlen Hf Hl Hr Hj Hz Hn Hm; cbn [fast_loop]; destruct (Z.geb_spec minlen 32); try lia.
  - exists res, j. split_and!; [done|lia..|]. rewrite Z.sub_diag. by apply patched_nil.
  - destruct (fast_round_ok src res j) as (r1 & -> & H1); [done|done|lia..|]. cbn [mbind option_bind].
    pose proof (zlen_patched _ _ _ _ _ H1) as L1. pose proof H1 as (_ & O1 & _).
    destruct (IH r1 (j + 32) (minlen - 32)) as (r2 & j' & -> & Hj' & H2); [lia|done|done|lia..|].
    exists r2, j'. split_and!; [done|lia..|]. replace (j' - j) with (32 + (j' - (j + 32))) by lia. apply (patched_app _ _ _ _ _ r1); [lia..|done|done].
  - exists res, j. split_and!; [done|lia..|]. rewrite Z.sub_diag. by apply patched_nil.
Qed.
End fast.

(** ** The rest, and the whole *)

Lemma byte_or_zero_ok s j : bytes_ok s -> 0 <= j -> byte_or_zero s j = Some (byte0 s (Z.to_nat j)).
Proof.
  intros Hs Hj. unfold byte_or_zero, byte0. destruct (Z.leb_spec (zlen s) j).
  - rewrite lookup_ge_None_2; [done|]. unfold zlen in *. lia.
  - destruct (byte_at_ok s j Hs ltac:(lia)) as (b & -> & Hr & _). unfold rd in Hr. destruct (Z.leb_spec 0 j); [|lia]. by rewrite Hr.
Qed.

Lemma slow_sources_ok op l o j :
  Forall bytes_ok l -> 0 <= j -> slow_sources op l o j = Some (foldl (fun o s => bitop_with op o (byte0 s (Z.to_nat j))) o l).
Proof.
  intros Hl Hj. revert o. induction Hl as [|s l Hs Hl IH]; intros o; [done|]. cbn [slow_sources]. rewrite byte_or_zero_ok by done. apply IH.
Qed.

Lemma slow_byte_ok op src j : src <> [] -> Forall bytes_ok src -> 0 <= j -> slow_byte op src j = Some (bitop_byte op src (Z.to_nat j)).
Proof.
  intros Hne Hs Hj. destruct src as [|s l]; [done|]. apply Forall_cons in Hs as [Hs Hl]. unfold slow_byte. cbn [head mbind option_bind].
  rewrite byte_or_zero_ok by done. cbn [mbind option_bind drop]. rewrite slow_sources_ok by done. cbn [bitop_byte]. unfold first_byte.
  destruct (bool_decide (op = BITOP_NOT)); [|done]. by rewrite lnot_byte by by apply byte0_ok.
Qed.

Lemma slow_loop_ok op src fuel res j maxlen :
  src <> [] -> Forall bytes_ok src -> maxlen - j <= Z.of_nat fuel -> 0 <= j <= maxlen -> zlen res = maxlen ->
  (forall i, Z.of_nat i < j -> byte0 res i = bitop_byte op src i) ->
  slow_loop op src fuel res j maxlen = Some (map (bitop_byte op src) (seq 0 (Z.to_nat maxlen))).
Proof.
  intros Hne Hs. revert res j. induction fuel as [|fuel IH]; intros res j Hf Hj Hl Hb; cbn [slow_loop]; destruct (Z.ltb_spec j maxlen); try lia.
  - f_equal. apply list_of_bytes; [unfold zlen in Hl; lia|]. intros. apply Hb. lia.
  - rewrite slow_byte_ok by (done || lia). cbn [mbind option_bind]. rewrite wr_ok by lia. cbn [mbind option_bind]. apply IH; [lia..|by rewrite zlen_insert|].
    intros i Hi. unfold byte0. destruct (decide (i = Z.to_nat j)) as [->|].
    + rewrite list_lookup_insert_eq; [done|]. unfold zlen in Hl. lia.
    + rewrite list_lookup_insert_ne by done. apply Hb. lia.
  - f_equal. apply list_of_bytes; [unfold zlen in Hl; lia|]. intros. apply Hb. lia.
Qed.

Lemma foldl_not l i b : foldl (fun o s => bitop_with BITOP_NOT o (byte0 s i)) b l = b.
Proof. by induction l. Qed.

(** Lengths as the command computes them. *)
Lemma bitop_bytes_ok op src maxlen minlen :
  src <> [] -> Forall bytes_ok src -> 0 <= minlen <= maxlen -> Forall (fun s => minlen <= zlen s) src ->
  bitop_bytes op src maxlen minlen = Some (map (bitop_byte op src) (seq 0 (Z.to_nat maxlen))).
Proof.
  intros Hne Hs Hm Hl. unfold bitop_bytes. set (res := replicate (Z.to_nat maxlen) 0).
  assert (zlen res = maxlen) as Hr by (apply zlen_replicate; lia).
  assert (bytes_ok res) as Hok by (apply Forall_replicate; by unfold byte_ok).
  destruct (negb (minlen =? 0) && (zlen src <=? 16)); cbn [mbind option_bind]; [|by apply slow_loop_ok; [done|done|lia..|intros; lia]].
  destruct src as [|s l]; [done|]. apply Forall_cons in Hs as Hs'. destruct Hs' as [Hs0 Hsl]. apply Forall_cons in Hl as [Hls Hll]. cbn [head mbind option_bind].
  destruct (word_at_ok minlen s 0 Hs0) as [-> _]; [lia..|]. cbn [mbind option_bind].
  destruct (wr_block_patched res 0 minlen (seg s 0 minlen) (fun i _ => byte0 s i)) as (r1 & -> & H1);
    [done|by apply seg_ok|lia|by rewrite zlen_seg by lia|lia|intros i Hi; by rewrite byte0_seg by lia|]. cbn [mbind option_bind].
  pose proof (zlen_patched _ _ _ _ _ H1) as L1. pose proof H1 as (_ & O1 & B1).
  destruct (fast_loop_ok op minlen (s :: l) (Z.to_nat minlen) r1 0 minlen) as (r2 & j & -> & Hj & H2); [lia| |done|lia..|].
  { unfold long. cbn [drop]. apply Forall_and. done. }
  cbn [mbind option_bind]. pose proof (zlen_patched _ _ _ _ _ H2) as L2. pose proof H2 as (_ & O2 & B2).
  apply slow_loop_ok; [done|done|lia..|]. intros i Hi. rewrite B2, B1. cbn [drop].
  rewrite (proj2 (Z.leb_le 0 _)), !(proj2 (Z.ltb_lt _ _)) by lia. cbn [andb bitop_byte]. unfold fast_byte, first_byte.
  destruct (bool_decide_reflect (op = BITOP_NOT)) as [->|]; [by rewrite foldl_not|done].
Qed.

(** ** In bits *)

Definition bit_at (s : bytes) (i : nat) : bool := default false (bits s !! i).

Definition bitop_bit (op : bitop) (src : list bytes) (i : nat) : bool :=
  match src with
  | [] => false
  | s :: src => foldl (fun o s => op_bit op o (bit_at s i)) (if bool_decide (op = BITOP_NOT) then negb (bit_at s i) else bit_at s i) src
  end.

Lemma byte_bits_lookup b r : (r < 8)%nat -> byte_bits b !! r = Some (Z.testbit b (7 - Z.of_nat r)).
Proof. intros. do 8 (destruct r as [|r]; [done|]). lia. Qed.

Lemma bits_lookup l q r : (r < 8)%nat -> bits l !! (8 * q + r)%nat = (fun b => Z.testbit b (7 - Z.of_nat r)) <$> l !! q.
Proof.
  intros Hr. revert q. induction l as [|b l IH]; intros q; [done|]. change (bits (b :: l)) with (byte_bits b ++ bits l).
  destruct q as [|q].
  - rewrite lookup_app_l by (cbn [length byte_bits map]; lia). rewrite Nat.mul_0_r, Nat.add_0_l. cbn. by apply byte_bits_lookup.
  - rewrite lookup_app_r by (cbn [length byte_bits map]; lia). rewrite lookup_cons_ne_0 by done. cbn [Nat.pred]. rewrite <- IH. f_equal. cbn [length byte_bits map]. lia.
Qed.

Lemma bit_at_ok s q r : (r < 8)%nat -> bit_at s (8 * q + r) = Z.testbit (byte0 s q) (7 - Z.of_nat r).
Proof. intros Hr. unfold bit_at, byte0. rewrite bits_lookup by done. destruct (s !! q); [done|]. symmetry. apply Z.bits_0. Qed.

Lemma first_byte_spec op b k : byte_ok b -> 0 <= k < 8 -> Z.testbit (first_byte op b) k = if bool_decide (op = BITOP_NOT) then negb (Z.testbit b k) else Z.testbit b k.
Proof.
  intros Hb Hk. unfold first_byte. destruct (bool_decide (op = BITOP_NOT)); [|done].
  rewrite <- lnot_byte by done. unfold uwrap. rewrite Z.mod_pow2_bits_low by lia. apply Z.lnot_spec; lia.
Qed.

Lemma foldl_bitop_spec op l o q r :
  (r < 8)%nat -> Z.testbit (foldl (fun o s => bitop_with op o (byte0 s q)) o l) (7 - Z.of_nat r) =
  foldl (fun o s => op_bit op o (bit_at s (8 * q + r))) (Z.testbit o (7 - Z.of_nat r)) l.
Proof.
  intros Hr. revert o. induction l as [|s l IH]; intros o; [done|]. cbn [foldl]. rewrite IH, bit_at_ok by done. f_equal. apply bitop_with_spec. lia.
Qed.

Lemma bitop_byte_bits op src q r :
  Forall bytes_ok src -> (r < 8)%nat -> Z.testbit (bitop_byte op src q) (7 - Z.of_nat r) = bitop_bit op src (8 * q + r).
Proof.
  intros Hs Hr. destruct src as [|s l]; [apply Z.bits_0|]. apply Forall_cons in Hs as [Hs _]. cbn [bitop_byte bitop_bit].
  rewrite foldl_bitop_spec by done. f_equal. rewrite bit_at_ok by done. apply first_byte_spec; [by apply byte0_ok|lia].
Qed.

Lemma bits_of_bytes op src n :
  Forall bytes_ok src -> bits (map (bitop_byte op src) (seq 0 n)) = map (bitop_bit op src) (seq 0 (8 * n)).
Proof.
  intros Hs. apply list_eq. intros i. pose proof (Nat.div_mod_eq i 8) as E. pose proof (Nat.mod_upper_bound i 8 ltac:(lia)) as Hr.
  rewrite E. clear E. revert Hr. generalize (i / 8)%nat (i mod 8)%nat. intros q r Hr. rewrite bits_lookup by done.
  rewrite (list_lookup_fmap (bitop_byte op src)), (list_lookup_fmap (bitop_bit op src)). destruct (decide (q < n)%nat).
  - rewrite !(proj2 (lookup_seq _ _ _ _)) by (split; [done|lia]). cbn. f_equal. by apply bitop_byte_bits.
  - rewrite !lookup_ge_None_2 by (rewrite length_seq; lia). done.
Qed.

(** ** Single bits *)

Lemma testbit_one i : i <> 0 -> Z.testbit 1 i = false.
Proof. intros. destruct (Z.lt_ge_cases i 0); [by apply Z.testbit_neg_r|]. apply Z.bits_above_log2; cbn; lia. Qed.

(** The string of SETBIT, in bits: grown with zeros to the byte of the offset, and changed there alone. *)
Lemma setbit_byte_ok b o on :
  byte_ok b -> 0 <= on <= 1 -> byte_ok (setbit_byte b o on).1 /\
  forall r, (r < 8)%nat -> Z.testbit (setbit_byte b o on).1 (7 - Z.of_nat r) = if Z.of_nat r =? o mod 8 then on =? 1 else Z.testbit b (7 - Z.of_nat r).
Proof.
  intros Hb Hon. split; [apply uwrap_range; lia|]. intros r Hr. unfold setbit_byte. cbn [fst]. unfold uwrap. rewrite Z.mod_pow2_bits_low by lia.
  rewrite land_7. pose proof (Z.mod_pos_bound o 8 ltac:(lia)).
  rewrite Z.lor_spec, Z.land_spec, Z.lnot_spec, !Z.shiftl_spec by lia.
  assert (on = 0 \/ on = 1) as [-> | ->] by lia.
  - change (Z.land 0 1) with 0. rewrite Z.bits_0, orb_false_r.
    destruct (Z.eqb_spec (Z.of_nat r) (o mod 8)) as [->|].
    + rewrite Z.sub_diag. cbn. by rewrite andb_false_r.
    + rewrite testbit_one by lia. by rewrite andb_true_r.
  - change (Z.land 1 1) with 1. destruct (Z.eqb_spec (Z.of_nat r) (o mod 8)) as [->|].
    + rewrite Z.sub_diag. cbn. by rewrite orb_true_r.
    + rewrite testbit_one by lia. by rewrite andb_true_r, orb_false_r.
Qed.

(** The string after SETBIT: the length, and the bits; the bit that was there. *)
Lemma setbit_bytes_ok s o on :
  bytes_ok s -> 0 <= o -> 0 <= on <= 1 ->
  exists s' v, setbit_bytes s o on = Some (s', v) /\ bytes_ok s' /\ zlen s' = Z.max (zlen s) (o / 8 + 1) /\
    (v =? 0) = negb (bit_at s (Z.to_nat o)) /\
    forall i, bit_at s' i = if Z.of_nat i =? o then on =? 1 else bit_at s i.
Proof.
  intros Hs Ho Hon. unfold setbit_bytes. rewrite Z.shiftr_div_pow2 by lia. change (2 ^ 3) with 8.
  set (t := s ++ replicate (Z.to_nat (o / 8 + 1 - zlen s)) 0). pose proof (Z.div_pos o 8 ltac:(lia) ltac:(lia)) as Hq.
  assert (bytes_ok t) as Ht by (apply Forall_app; split; [done|apply Forall_replicate; by unfold byte_ok]).
  assert (zlen t = Z.max (zlen s) (o / 8 + 1)) as Hl by (subst t; unfold zlen; rewrite length_app, length_replicate; lia).
  assert (forall i, byte0 t i = byte0 s i) as Hb.
  { intros i. subst t. unfold byte0. destruct (decide (i < length s)%nat); [by rewrite lookup_app_l|]. rewrite lookup_app_r by lia.
    rewrite (lookup_ge_None_2 s i) by lia. destruct (replicate _ 0 !! _) eqn:E; [|done]. by apply lookup_replicate in E as [-> _]. }
  destruct (byte_at_ok t (o / 8) Ht ltac:(lia)) as (b & -> & Hr & Hok). cbn [mbind option_bind].
  destruct (setbit_byte_ok b o on Hok Hon) as [Hok' Hbits]. destruct (setbit_byte b o on) as [b' v] eqn:E. cbn [fst] in *.
  rewrite wr_ok by lia. cbn [mbind option_bind]. exists (<[Z.to_nat (o / 8) := b']> t), v.
  assert (byte0 s (Z.to_nat (o / 8)) = b) as Hob.
  { rewrite <- Hb. unfold byte0. unfold rd in Hr. destruct (Z.leb_spec 0 (o / 8)); [|lia]. by rewrite Hr. }
  pose proof (Z.mod_pos_bound o 8 ltac:(lia)) as Hm. pose proof (Z.div_mod o 8 ltac:(lia)) as Hdm.
  split_and!; [done|by apply Forall_insert|by rewrite zlen_insert| |].
  - replace (Z.to_nat o) with (8 * Z.to_nat (o / 8) + Z.to_nat (o mod 8))%nat by lia. rewrite bit_at_ok, Hob by lia.
    unfold setbit_byte in E. injection E as _ <-. rewrite land_7, Z.shiftl_1_l.
    rewrite <- (negb_involutive (_ =? 0)), testbit_mask by lia. do 2 f_equal. lia.
  - intros i. pose proof (Nat.div_mod_eq i 8) as Ei. pose proof (Nat.mod_upper_bound i 8 ltac:(lia)) as Hi.
    rewrite Ei. revert Hi. generalize (i / 8)%nat (i mod 8)%nat. clear i Ei. intros q r Hi. rewrite !bit_at_ok by done.
    destruct (decide (q = Z.to_nat (o / 8))) as [->|].
    + unfold byte0 at 1. rewrite list_lookup_insert_eq by (unfold zlen in *; lia). cbn [default]. rewrite Hbits, Hob by done.
      destruct (Z.eqb_spec (Z.of_nat r) (o mod 8)), (Z.eqb_spec (Z.of_nat (8 * Z.to_nat (o / 8) + r)) o); done || lia.
    + unfold byte0 at 1. rewrite list_lookup_insert_ne by done. fold (byte0 t q). rewrite Hb.
      destruct (Z.eqb_spec (Z.of_nat (8 * q + r)) o); [|done]. exfalso. apply n. rewrite <- e, Nat2Z.inj_add, Nat2Z.inj_mul, Z.mul_comm, Z.div_add_l, Z.div_small by lia. lia.
Qed.

Lemma getbit_bytes_ok s o : bytes_ok s -> 0 <= o -> exists v, getbit_bytes s o = Some v /\ (v =? 0) = negb (bit_at s (Z.to_nat o)).
Proof.
  intros Hs Ho. unfold getbit_bytes. rewrite Z.shiftr_div_pow2 by lia. change (2 ^ 3) with 8.
  pose proof (Z.mod_pos_bound o 8 ltac:(lia)) as Hm. pose proof (Z.div_mod o 8 ltac:(lia)) as Hdm. pose proof (Z.div_pos o 8 ltac:(lia) ltac:(lia)) as Hq.
  replace (Z.to_nat o) with (8 * Z.to_nat (o / 8) + Z.to_nat (o mod 8))%nat by lia. rewrite bit_at_ok by lia. unfold byte0.
  destruct (Z.ltb_spec (o / 8) (zlen s)).
  - destruct (byte_at_ok s (o / 8) Hs ltac:(lia)) as (b & -> & Hr & Hok). cbn [mbind option_bind]. eexists. split; [done|].
    unfold rd in Hr. destruct (Z.leb_spec 0 (o / 8)); [|lia]. rewrite Hr. cbn [default].
    rewrite land_7, Z.shiftl_1_l, <- (negb_involutive (_ =? 0)), testbit_mask by lia. do 2 f_equal. lia.
  - exists 0. split; [done|]. rewrite lookup_ge_None_2 by (unfold zlen in *; lia). cbn [default]. by rewrite Z.bits_0.
Qed.

(** ** Properties *)

(** C32: redisPopcount counts the bits that are set in the bytes it is given, wherever they
    begin in memory: byte by byte up to the first aligned word, 16 bytes at a time, and
    byte by byte at the end; it reads nothing else. *)
Theorem redisPopcount_counts (base : Z) (m : bytes) (s count : Z) :
  bytes_ok m -> 0 <= s -> 0 <= count -> s + count <= zlen m -> 8 * zlen m < 2 ^ 64 ->
  redisPopcount base m s count = Some (ones (bits (seg m s count))).
Proof. intros. by apply popcount_ok. Qed.

Theorem redisPopcount_counts_witness : redisPopcount 1 (zs "the quick brown fox jumps over") 2 27 = Some 106.
Proof.
  rewrite (redisPopcount_counts 1 (zs "the quick brown fox jumps over") 2 27); [reflexivity|repeat constructor; done|lia|lia|vm_compute; done|vm_compute; done].
Defined.

(** C33: redisBitpos returns the index of the first bit that is as asked; without one, -1
    for a one, and for a zero the index after the last bit. *)
Theorem redisBitpos_first (base : Z) (m : bytes) (s count : Z) (bit : bool) :
  bytes_ok m -> 8 * zlen m < 2 ^ 62 -> 0 <= s -> 0 <= count -> s + count <= zlen m ->
  redisBitpos base m s count bit =
  Some (match list_find (eq bit) (bits (seg m s count)) with Some (i, _) => Z.of_nat i | None => if bit then -1 else 8 * count end).
Proof.
  intros Hm Hz Hs Hc Hl. rewrite bitpos_ok by done. f_equal. cbn zeta.
  pose proof (zlen_seg m s count Hs Hc Hl) as Hn. unfold zlen in Hn.
  pose proof (bit_index_find bit (bits (seg m s count))) as Hf. rewrite length_bits in Hf.
  destruct (list_find (eq bit) (bits (seg m s count))) as [[i x]|].
  - destruct Hf as [-> Hi]. rewrite (proj2 (Z.eqb_neq _ _)), andb_false_r; [done|lia].
  - rewrite Hf. replace (Z.of_nat (8 * length (seg m s count))) with (8 * count) by lia. rewrite Z.eqb_refl, andb_true_r. done.
Qed.

Theorem redisBitpos_first_witness : redisBitpos 3 [7; 255; 255; 255; 255; 255; 255; 255; 255; 255; 255; 255; 255; 255; 255; 191; 0] 1 16 false = Some 113.
Proof.
  rewrite (redisBitpos_first 3 _ 1 16 false); [reflexivity|repeat constructor; done|vm_compute; done|lia|lia|vm_compute; done].
Defined.

(** C31: BITOP: the bits of the result are the operation on the bits of the sources, the
    shorter ones padded with zeros, whatever part of it the fast path has done. *)
Theorem bitop_bytes_bits (op : bitop) (src : list bytes) (maxlen minlen : Z) :
  src <> [] -> Forall bytes_ok src -> 0 <= minlen <= maxlen -> Forall (fun s => minlen <= zlen s) src ->
  exists res, bitop_bytes op src maxlen minlen = Some res /\ zlen res = maxlen /\
    bits res = map (bitop_bit op src) (seq 0 (8 * Z.to_nat maxlen)).
Proof.
  intros Hne Hs Hm Hl. eexists. split_and!; [by apply bitop_bytes_ok| |by apply bits_of_bytes].
  unfold zlen. rewrite length_map, length_seq. lia.
Qed.

Theorem bitop_bytes_bits_witness :
  exists res, bitop_bytes BITOP_XOR [zs "the quick brown fox jumps over the lazy dog"; replicate 40 85] 43 40 = Some res /\ zlen res = 43 /\
    bits res = map (bitop_bit BITOP_XOR [zs "the quick brown fox jumps over the lazy dog"; replicate 40 85]) (seq 0 344).
Proof.
  apply (bitop_bytes_bits BITOP_XOR [zs "the quick brown fox jumps over the lazy dog"; replicate 40 85] 43 40);
    [done|repeat constructor; done|lia|repeat constructor; vm_compute; done].
Defined.

(** After the bit at an offset is set or cleared, the bit read at any offset is the new
    one there and the old one elsewhere; the string has grown to hold it, and no more. *)
Theorem setbit_getbit (s : bytes) (o on : Z) :
  bytes_ok s -> 0 <= o -> 0 <= on <= 1 ->
  exists s' v, setbit_bytes s o on = Some (s', v) /\ zlen s' = Z.max (zlen s) (o / 8 + 1) /\
    (exists w, getbit_bytes s o = Some w /\ (w =? 0) = (v =? 0)) /\
    forall p, 0 <= p -> exists w, getbit_bytes s' p = Some w /\
      if p =? o then (w =? 0) = (on =? 0) else exists u, getbit_bytes s p = Some u /\ (w =? 0) = (u =? 0).
Proof.
  intros Hs Ho Hon. destruct (setbit_bytes_ok s o on Hs Ho Hon) as (s' & v & E & Hs' & Hl & Hv & Hb).
  exists s', v. split_and!; [done|done| |].
  - destruct (getbit_bytes_ok s o Hs Ho) as (w & -> & Hw). exists w. split; [done|congruence].
  - intros p Hp. destruct (getbit_bytes_ok s' p Hs' Hp) as (w & -> & Hw). exists w. split; [done|]. rewrite Hw, Hb.
    rewrite Z2Nat.id by done. destruct (Z.eqb_spec p o).
    + assert (on = 0 \/ on = 1) as [-> | ->] by lia; done.
    + destruct (getbit_bytes_ok s p Hs Hp) as (u & -> & Hu). exists u. split; [done|congruence].
Qed.

Theorem setbit_getbit_witness :
  exists s' v, setbit_bytes (zs "ab") 37 1 = Some (s', v) /\ zlen s' = 5 /\
    (exists w, getbit_bytes (zs "ab") 37 = Some w /\ (w =? 0) = (v =? 0)) /\
    forall p, 0 <= p -> exists w, getbit_bytes s' p = Some w /\
      if p =? 37 then (w =? 0) = false else exists u, getbit_bytes (zs "ab") p = Some u /\ (w =? 0) = (u =? 0).
Proof. apply (setbit_getbit (zs "ab") 37 1); [repeat constructor; done|lia|lia]. Defined.
