(* ===== verification/HashType.v ===== *)
(** * The hash type (src/redis-2.8.19/src/t_hash.c)

    A hash is a ziplist of fields and values, or, when it has many or long entries, a
    dictionary. The keys of a dictionary are compared and hashed by their decoded
    bytes ([dictEncObjKeyCompare], [dictEncObjHash]) and are always stored in their
    shortest encoding, so that they are modelled by these bytes. A read of a
    dictionary may move a bucket: it returns the object too. *)
From S2P Require Import Prelude Util Object Dict Ziplist.
Open Scope Z_scope.

(** The configuration of the encodings, and what the operations on memory depend on. *)
Record type_env := mkEnv {
  hash_max_ziplist_entries : Z;
  hash_max_ziplist_value : Z;
  set_max_intset_entries : Z;
  list_max_ziplist_entries : Z;
  list_max_ziplist_value : Z;
  hash_fun : bytes -> Z;
  can_resize : bool;
  fresh : nat -> Z
}.

(** [tryObjectEncoding] of an object, and an object that a ziplist entry becomes. *)
Definition encode_object (o : robj) : option robj :=
  match o with StrRaw s => tryObjectEncoding s | _ => Some o end.

Definition zl_object (v : bytes + Z) : robj :=
  match v with inl s => StrRaw s | inr n => createStringObjectFromLongLong n end.

Definition REDIS_HT_MINFILL : Z := 10.

Definition dictSlots {K V} (d : dict K V) : Z := size (ht0 d) + size (ht1 d).

(** redis.c. *)
Definition htNeedsResize {K V} (d : dict K V) : bool :=
  let size := dictSlots d in
  let used := dictSize d in
  negb (size =? 0) && negb (used =? 0) && (size >? DICT_HT_INITIAL_SIZE) && (used * 100 / size <? REDIS_HT_MINFILL).

Inductive hobj := HashZiplist (zl : list Z) | HashHT (d : dict bytes robj).

Section hash.
Context (env : type_env).

Definition hashTypeLength (o : hobj) : option (Z * hobj) :=
  match o with
  | HashZiplist zl => '(n, zl) ← ziplistLen zl; Some (n / 2, HashZiplist zl)
  | HashHT d => Some (dictSize d, o)
  end.

(** ** Iteration over a ziplist *)

(** The cursor is the pair of pointers to a field and its value, null at first. *)
Definition hashTypeNext (zl : list Z) (cur : option (Z * Z)) : option (option (Z * Z)) :=
  fptr ← match cur with
         | None => ziplistIndex zl 0
         | Some (_, vptr) => ziplistNext zl vptr
         end;
  match fptr with
  | None => Some None
  | Some fptr =>
      vptr ← ziplistNext zl fptr;
      vptr ← vptr;
      Some (Some (fptr, vptr))
  end.

(** [hashTypeCurrentObject] at one of the pointers. *)
Definition hashTypeCurrentObject (zl : list Z) (p : Z) : option robj :=
  v ← ziplistGet zl (Some p);
  v ← v;
  Some (zl_object v).

(** The loop of [hashTypeConvertZiplist]; every turn passes two entries. *)
Fixpoint convert_loop (fuel : nat) (zl : list Z) (cur : option (Z * Z)) (d : dict bytes robj) : option (dict bytes robj) :=
  match fuel with
  | O => None
  | S fuel =>
      nxt ← hashTypeNext zl cur;
      match nxt with
      | None => Some d
      | Some (fptr, vptr) =>
          field ← hashTypeCurrentObject zl fptr;
          field ← encode_object field;
          value ← hashTypeCurrentObject zl vptr;
          value ← encode_object value;
          key ← getDecodedObject field;
          '(d, st) ← dictAdd (hash_fun env) (can_resize env) value d key value;
          match st with
          | DICT_OK => convert_loop fuel zl (Some (fptr, vptr)) d
          | DICT_ERR => None
          end
      end
  end.

(** To [REDIS_ENCODING_HT]; from it, the panic. *)
Definition hashTypeConvert (o : hobj) : option hobj :=
  match o with
  | HashZiplist zl => d ← convert_loop (length zl) zl None dictCreate; Some (HashHT d)
  | HashHT _ => None
  end.

(** [argv] from [start] to [end]. *)
Definition hashTypeTryConversion (o : hobj) (args : list robj) : option hobj :=
  match o with
  | HashZiplist _ =>
      if existsb (fun a => match a with StrRaw s => zlen s >? hash_max_ziplist_value env | _ => false end) args
      then hashTypeConvert o else Some o
  | HashHT _ => Some o
  end.

Definition hashTypeTryObjectEncoding (subject : hobj) (o1 : robj) : option robj :=
  match subject with HashHT _ => encode_object o1 | HashZiplist _ => Some o1 end.

(** ** Access *)

(** The pointer to a field: the head of the list, then the search that skips values. *)
Definition find_field (zl : list Z) (field : bytes) : option (option Z) :=
  fptr ← ziplistIndex zl 0;
  match fptr with
  | None => Some None
  | Some fptr => ziplistFind zl fptr field (zlen field) 1
  end.

(** [Some None] is -1. *)
Definition hashTypeGetFromZiplist (zl : list Z) (field : robj) : option (option (bytes + Z)) :=
  field ← getDecodedObject field;
  fptr ← find_field zl field;
  match fptr with
  | None => Some None
  | Some fptr =>
      vptr ← ziplistNext zl fptr;
      vptr ← vptr;
      v ← ziplistGet zl (Some vptr);
      v ← v;
      Some (Some v)
  end.

Definition hashTypeGetFromHashTable (d : dict bytes robj) (field : robj) : option (dict bytes robj * option robj) :=
  key ← getDecodedObject field;
  dictFetchValue (hash_fun env) d key.

Definition hashTypeGetObject (o : hobj) (field : robj) : option (hobj * option robj) :=
  match o with
  | HashZiplist zl => v ← hashTypeGetFromZiplist zl field; Some (o, option_map zl_object v)
  | HashHT d => '(d, v) ← hashTypeGetFromHashTable d field; Some (HashHT d, v)
  end.

Definition hashTypeExists (o : hobj) (field : robj) : option (hobj * bool) :=
  match o with
  | HashZiplist zl => v ← hashTypeGetFromZiplist zl field; Some (o, bool_decide (v <> None))
  | HashHT d => '(d, v) ← hashTypeGetFromHashTable d field; Some (HashHT d, bool_decide (v <> None))
  end.

(** The object and whether it was an update. *)
Definition hashTypeSet (o : hobj) (field value : robj) : option (hobj * bool) :=
  match o with
  | HashZiplist zl =>
      field ← getDecodedObject field;
      value ← getDecodedObject value;
      fptr ← find_field zl field;
      '(zl, update) ← (
        match fptr with
        | Some fptr =>
            vptr ← ziplistNext zl fptr;
            vptr ← vptr;
            zl ← ziplistDelete (fresh env) zl vptr;
            zl ← ziplistInsert (fresh env) zl vptr value (zlen value);
            Some (zl, true)
        | None =>
            zl ← ziplistPush (fresh env) zl field (zlen field) ZIPLIST_TAIL;
            zl ← ziplistPush (fresh env) zl value (zlen value) ZIPLIST_TAIL;
            Some (zl, false)
        end);
      '(n, o) ← hashTypeLength (HashZiplist zl);
      o ← (if n >? hash_max_ziplist_entries env then hashTypeConvert o else Some o);
      Some (o, update)
  | HashHT d =>
      key ← getDecodedObject field;
      '(d, inserted) ← dictReplace (hash_fun env) (can_resize env) value d key value;
      Some (HashHT d, negb inserted)
  end.

(** The object and whether the field was there. *)
Definition hashTypeDelete (o : hobj) (field : robj) : option (hobj * bool) :=
  match o with
  | HashZiplist zl =>
      field ← getDecodedObject field;
      fptr ← find_field zl field;
      match fptr with
      | None => Some (o, false)
      | Some fptr =>
          zl ← ziplistDelete (fresh env) zl fptr;
          zl ← ziplistDelete (fresh env) zl fptr;
          Some (HashZiplist zl, true)
      end
  | HashHT d =>
      key ← getDecodedObject field;
      '(d, st, _) ← dictDelete (hash_fun env) d key;
      match st with
      | DICT_ERR => Some (HashHT d, false)
      | DICT_OK =>
          d ← (if htNeedsResize d then fst <$> dictResize (can_resize env) d else Some d);
          Some (HashHT d, true)
      end
  end.
End hash.

Definition createHashObject (env : type_env) : option hobj := HashZiplist <$> ziplistNew (fresh env).
