(* ===== verification/HashTypeSpec.v ===== *)
(** * The hash type is a finite map (src/redis-2.8.19/src/t_hash.c)

    Both encodings hold a map from fields to values; every operation, conversions
    included, computes the operation on the map. *)
From S2P Require Import Prelude Util Object Dict DictBound Ziplist ZiplistSpec HashType.
Open Scope Z_scope.

(** ** Fields and values in a list *)

Fixpoint flat (l : list (bytes * bytes)) : list bytes :=
  match l with [] => [] | (f, v) :: l => f :: v :: flat l end.

Lemma flat_app l1 l2 : flat (l1 ++ l2) = flat l1 ++ flat l2.
Proof. induction l1 as [|[f v] l1 IH]; [done|]. cbn [app flat]. by rewrite IH. Qed.

Lemma flat_length l : length (flat l) = (2 * length l)%nat.
Proof. induction l as [|[f v] l IH]; [done|]. cbn [flat length]. lia. Qed.

Lemma zlen_flat l : zlen (flat l) = 2 * zlen l.
Proof. unfold zlen. rewrite flat_length. lia. Qed.

Definition pairs_weight (l : list (bytes * bytes)) : Z := weight (flat l).

Lemma pairs_weight_cons f v l : pairs_weight ((f, v) :: l) = zlen f + zlen v + 36 + pairs_weight l.
Proof. unfold pairs_weight. cbn [flat]. rewrite !weight_cons. lia. Qed.

Lemma pairs_weight_perm l1 l2 : l1 ≡ₚ l2 -> pairs_weight l1 = pairs_weight l2.
Proof. induction 1 as [|[f v] l1 l2|[f v] [g w] l|]; rewrite ?pairs_weight_cons; lia. Qed.

Lemma pairs_weight_app l1 l2 : pairs_weight (l1 ++ l2) = pairs_weight l1 + pairs_weight l2 - 11.
Proof. unfold pairs_weight. by rewrite flat_app, weight_app. Qed.

Lemma pairs_weight_zlen l : 11 + 36 * zlen l <= pairs_weight l.
Proof. unfold pairs_weight. pose proof (weight_zlen (flat l)). rewrite zlen_flat in *. lia. Qed.

(** A field among the pairs. *)
Lemma pairs_find f (l : list (bytes * bytes)) :
  (exists l1 v l2, l = l1 ++ (f, v) :: l2 /\ f ∉ l1.*1) \/ f ∉ l.*1.
Proof.
  induction l as [|[g w] l IH]; [right; apply not_elem_of_nil|]. destruct (decide (g = f)) as [->|Hne].
  - left. exists [], w, l. split; [done|apply not_elem_of_nil].
  - destruct IH as [(l1 & v & l2 & -> & Hn)|Hn]; [left|right].
    + exists ((g, w) :: l1), v, l2. split; [done|]. by rewrite fmap_cons, not_elem_of_cons.
    + by rewrite fmap_cons, not_elem_of_cons.
Qed.

Lemma find_index_pair f g w l : find_index f 1 0 (g :: w :: l) =
  if decide (g = f) then Some O else S <$> (S <$> find_index f 1 0 l).
Proof. reflexivity. Qed.

Lemma find_flat_none f l : f ∉ l.*1 -> find_index f 1 0 (flat l) = None.
Proof.
  induction l as [|[g w] l IH]; [done|]. rewrite fmap_cons, not_elem_of_cons. intros [Hne Hn]. cbn [fst] in Hne.
  cbn [flat]. rewrite find_index_pair, decide_False by congruence. by rewrite (IH Hn).
Qed.

Lemma find_flat_some f v l1 l2 : f ∉ l1.*1 -> find_index f 1 0 (flat (l1 ++ (f, v) :: l2)) = Some (2 * length l1)%nat.
Proof.
  induction l1 as [|[g w] l1 IH]; rewrite ?fmap_cons, ?not_elem_of_cons.
  - intros _. cbn [app flat]. by rewrite find_index_pair, decide_True.
  - intros [Hne Hn]. cbn [fst] in Hne. cbn [flat app]. rewrite find_index_pair, decide_False by congruence. rewrite (IH Hn).
    cbn [fmap option_fmap option_map length]. f_equal. lia.
Qed.

(** ** What a hash holds *)

Definition decoded (m : gmap bytes robj) : gmap bytes bytes := omap getDecodedObject m.

(** Every value is a well-formed string. *)
Definition strings_ok (m : gmap bytes robj) : Prop := map_Forall (fun _ v => obj_ok v /\ is_Some (getDecodedObject v)) m.

Inductive hash_repr (env : type_env) : hobj -> gmap bytes bytes -> Prop :=
  | repr_ziplist zl l : ziplist_ok zl (flat l) -> NoDup l.*1 -> hash_repr env (HashZiplist zl) (list_to_map l)
  | repr_ht d : dict_inv (hash_fun env) d -> strings_ok (to_map d) -> hash_repr env (HashHT d) (decoded (to_map d)).

(** Room for one more field, whatever the encoding: the ziplist stays below 4 GB. *)
Definition hash_weight (m : gmap bytes bytes) : Z := pairs_weight (map_to_list m).

Definition hash_room (m : gmap bytes bytes) (f v : bytes) : Prop :=
  2 * (hash_weight m + zlen f + zlen v) + 300 < 2 ^ 32.

Lemma hash_weight_pairs l : NoDup l.*1 -> hash_weight (list_to_map l) = pairs_weight l.
Proof. intros Hn. apply pairs_weight_perm. by apply map_to_list_to_map. Qed.

Lemma hash_room_few (m : gmap bytes bytes) f v : hash_room m f v -> Z.of_nat (base.size m) <= 2 ^ 28.
Proof.
  unfold hash_room, hash_weight. pose proof (pairs_weight_zlen (map_to_list m)) as Hw.
  unfold zlen in Hw at 1. rewrite length_map_to_list in Hw. pose proof (zlen_nonneg f). pose proof (zlen_nonneg v). lia.
Qed.

Lemma decoded_size m : strings_ok m -> base.size (decoded m) = base.size m.
Proof.
  intros Hs. rewrite <- !size_dom. f_equal. apply set_eq. intros k. unfold decoded.
  rewrite !elem_of_dom, lookup_omap. split.
  - intros [v Hv]. by destruct (m !! k).
  - intros [o Ho]. rewrite Ho. by apply Hs in Ho as [_ ?].
Qed.

Lemma decoded_insert m k o v : getDecodedObject o = Some v -> decoded (<[k := o]> m) = <[k := v]> (decoded m).
Proof. intros Ho. unfold decoded. by rewrite (omap_insert_Some _ _ _ _ _ Ho). Qed.

Lemma strings_insert m k o v : obj_ok o -> getDecodedObject o = Some v -> strings_ok m -> strings_ok (<[k := o]> m).
Proof. intros Hok Ho Hm. apply map_Forall_insert_2; [by rewrite Ho|done]. Qed.

(** ** Reading *)

Lemma zl_object_ok s r : reads s r -> getDecodedObject (zl_object r) = Some s.
Proof.
  destruct r as [t|n]; cbn [reads zl_object]; [by intros ->|]. intros [Hn Hs]. cbn [getDecodedObject createStringObjectFromLongLong].
  destruct (ll_str_spec n Hn) as (ds & -> & Hds & _). f_equal. by apply (signed_numeral_unique ds s n).
Qed.

Lemma encode_object_ok o s : obj_ok o -> getDecodedObject o = Some s ->
  exists o', encode_object o = Some o' /\ obj_ok o' /\ getDecodedObject o' = Some s.
Proof.
  destruct o; intros Ho H; try done; [by eexists|]. injection H as ->. cbn [encode_object].
  destruct (tryObjectEncoding_ok s) as (o' & -> & _ & Hok & Hd & _). by exists o'.
Qed.

(** The result of [find_field]: the place of the field, with its value behind it. *)
Lemma find_field_ok zl l f : ziplist_ok zl (flat l) -> NoDup l.*1 ->
  (find_field zl f = Some None /\ f ∉ l.*1) \/
  exists p l1 v l2, find_field zl f = Some (Some p) /\ l = l1 ++ (f, v) :: l2 /\
    place zl (flat l1) (f :: v :: flat l2) p.
Proof.
  intros Hzl Hn. unfold find_field. destruct (ziplistIndex_ok zl (flat l) 0 Hzl) as (r & -> & Hr).
  cbn [mbind option_bind]. cbn in Hr. destruct r as [p|].
  - destruct Hr as [Hlt Hp]. rewrite drop_0 in Hp. cbn in Hp.
    destruct (ziplistFind_ok zl [] (flat l) p f 1 Hp) as (r & Hrun & Hr); [lia|]. rewrite Hrun.
    destruct (pairs_find f l) as [(l1 & v & l2 & -> & Hnin)|Hnin].
    + right. rewrite find_flat_some in Hr by done. destruct Hr as (q & -> & Hq). exists q, l1, v, l2.
      split; [done|]. split; [done|]. cbn [app] in Hq.
      rewrite flat_app, take_app_length', drop_app_length' in Hq by by rewrite flat_length. done.
    + left. rewrite find_flat_none in Hr by done. by rewrite Hr.
  - left. split; [done|]. assert (l = []) as ->; [|apply not_elem_of_nil].
    apply zlen_zero. rewrite zlen_flat in Hr. pose proof (zlen_nonneg l). lia.
Qed.

Lemma find_value zl l1 f v l2 p : place zl (flat l1) (f :: v :: flat l2) p ->
  exists q r, ziplistNext zl p = Some (Some q) /\ place zl (flat l1 ++ [f]) (v :: flat l2) q /\
    ziplistGet zl (Some q) = Some (Some r) /\ reads v r.
Proof.
  intros Hp. destruct (proj1 (ziplist_walk _ _ _ _ _ Hp)) as (r & Hrun & q & -> & Hq).
  destruct (ziplistGet_ok _ _ _ _ Hq) as (x & Hget & y & -> & Hy). by exists q, y.
Qed.

Lemma lookup_pairs (f v : bytes) l1 l2 : NoDup (l1 ++ (f, v) :: l2).*1 ->
  (list_to_map (l1 ++ (f, v) :: l2) : gmap bytes bytes) !! f = Some v.
Proof. intros Hn. apply elem_of_list_to_map; [done|]. apply elem_of_app. right. by left. Qed.

Section spec.
Context (env : type_env).

Lemma getFromZiplist_ok zl l fo f : ziplist_ok zl (flat l) -> NoDup l.*1 -> getDecodedObject fo = Some f ->
  exists r, hashTypeGetFromZiplist zl fo = Some r /\
    match r with
    | Some r => exists v, (list_to_map l : gmap bytes bytes) !! f = Some v /\ reads v r
    | None => (list_to_map l : gmap bytes bytes) !! f = None
    end.
Proof.
  intros Hzl Hn Hf. unfold hashTypeGetFromZiplist. rewrite Hf. cbn [mbind option_bind].
  destruct (find_field_ok zl l f Hzl Hn) as [[-> Hnin]|(p & l1 & v & l2 & -> & -> & Hp)]; cbn [mbind option_bind].
  - exists None. split; [done|]. by apply not_elem_of_list_to_map.
  - destruct (find_value _ _ _ _ _ _ Hp) as (q & r & -> & Hq & Hget & Hr). cbn [mbind option_bind].
    rewrite Hget. cbn [mbind option_bind]. exists (Some r). split; [done|]. exists v. split; [by apply lookup_pairs|done].
Qed.

(** Reading a field: the object is the same hash still, the result decodes to the
    value. *)
Lemma hash_get_ok o m fo f : hash_repr env o m -> getDecodedObject fo = Some f ->
  exists o' r, hashTypeGetObject env o fo = Some (o', r) /\ hash_repr env o' m /\ (r ≫= getDecodedObject) = m !! f /\
    (r = None <-> m !! f = None).
Proof.
  intros Ho Hf. destruct Ho as [zl l Hzl Hn|d Hd Hs]; cbn [hashTypeGetObject].
  - destruct (getFromZiplist_ok zl l fo f Hzl Hn Hf) as (r & -> & Hr). cbn [mbind option_bind].
    eexists _, _. split; [reflexivity|]. split; [by constructor|]. destruct r as [r|]; [|by rewrite Hr].
    destruct Hr as (v & -> & Hv). cbn [option_map mbind option_bind]. by rewrite (zl_object_ok _ _ Hv).
  - unfold hashTypeGetFromHashTable. rewrite Hf. cbn [mbind option_bind].
    destruct (dictFetchValue_inv (hash_fun env) d f Hd) as (d' & -> & Hd' & Hm). cbn [mbind option_bind].
    eexists _, _. split; [reflexivity|]. split; [rewrite <- Hm; constructor; [done|by rewrite Hm]|].
    unfold decoded. rewrite lookup_omap. destruct (to_map d !! f) as [o|] eqn:Hk; [|done].
    apply Hs in Hk as [_ [v Hv]]. cbn. by rewrite Hv.
Qed.

Lemma hash_exists_ok o m fo f : hash_repr env o m -> getDecodedObject fo = Some f ->
  exists o', hashTypeExists env o fo = Some (o', bool_decide (is_Some (m !! f))) /\ hash_repr env o' m.
Proof.
  intros Ho Hf. destruct (hash_get_ok o m fo f Ho Hf) as (o' & r & Hrun & Ho' & _ & Hr).
  assert (bool_decide (is_Some (m !! f)) = bool_decide (r <> None)) as Hb.
  { apply bool_decide_ext. rewrite <- not_eq_None_Some. by rewrite Hr. }
  rewrite Hb. destruct o as [zl|d]; cbn [hashTypeGetObject hashTypeExists] in *.
  - apply bind_Some in Hrun as (v & -> & [= <- <-]). cbn [mbind option_bind]. eexists. split; [|done].
    do 2 f_equal. apply bool_decide_ext. by destruct v.
  - apply bind_Some in Hrun as ([d' v] & -> & [= <- <-]). cbn [mbind option_bind]. by eexists.
Qed.

Lemma hash_length_ok o m : hash_repr env o m -> exists o', hashTypeLength o = Some (Z.of_nat (base.size m), o') /\ hash_repr env o' m.
Proof.
  intros [zl l Hzl Hn|d Hd Hs]; cbn [hashTypeLength].
  - destruct (ziplistLen_ok zl _ Hzl) as (zl' & -> & Hzl'). cbn [mbind option_bind]. rewrite zlen_flat.
    rewrite Z.mul_comm, Z.div_mul by done. eexists. split; [|by constructor]. do 2 f_equal.
    unfold zlen. f_equal. symmetry. by apply map_size_list_to_map.
  - eexists. split; [|by constructor]. do 2 f_equal. rewrite <- (map_size (hash_fun env)) by apply Hd. by rewrite decoded_size.
Qed.
End spec.

(** ** Conversion *)

Lemma ziplist_fuel zl l : ziplist_ok zl l -> (length l <= length zl)%nat /\ (0 < length zl)%nat.
Proof.
  intros (n & es & Hrep & <-)%ziplist_ok_rep. rewrite length_map. destruct (rep_fuel _ _ _ Hrep) as [Hf _].
  split; [done|]. rewrite (rep_bytes _ _ _ Hrep). unfold blk, hdr. rewrite !length_app. cbn. lia.
Qed.

(** Where the cursor stands: behind the pairs [l1]. *)
Definition cursor (zl : list Z) (l1 l2 : list (bytes * bytes)) (cur : option (Z * Z)) : Prop :=
  match cur with
  | None => l1 = [] /\ ziplist_ok zl (flat l2)
  | Some (_, vptr) => exists l0 f v, l1 = l0 ++ [(f, v)] /\ place zl (flat l0 ++ [f]) (v :: flat l2) vptr
  end.

Lemma hashTypeNext_ok zl l1 l2 cur : cursor zl l1 l2 cur ->
  match l2 with
  | [] => hashTypeNext zl cur = Some None
  | (f, v) :: l2' => exists fptr vptr, hashTypeNext zl cur = Some (Some (fptr, vptr)) /\
      place zl (flat l1) (f :: v :: flat l2') fptr /\ place zl (flat l1 ++ [f]) (v :: flat l2') vptr
  end.
Proof.
  intros Hc. assert (exists r, (match cur with None => ziplistIndex zl 0 | Some (_, vptr) => ziplistNext zl vptr end) = Some r /\
    match l2 with [] => r = None | _ => exists q, r = Some q /\ place zl (flat l1) (flat l2) q end) as (r & Hrun & Hr).
  { destruct cur as [[fp vp]|]; cbn [cursor] in Hc.
    - destruct Hc as (l0 & f & v & -> & Hp). destruct (proj1 (ziplist_walk _ _ _ _ _ Hp)) as (r & -> & Hr).
      exists r. split; [done|]. destruct l2 as [|[g w] l2]; [done|]. cbn [flat] in Hr. destruct Hr as (q & -> & Hq).
      exists q. split; [done|]. by rewrite flat_app, <- app_assoc in *.
    - destruct Hc as [-> Hzl]. destruct (ziplistIndex_ok zl (flat l2) 0 Hzl) as (r & -> & Hr). exists r. split; [done|].
      change (0 <? 0) with false in Hr. cbv iota in Hr. destruct r as [p|].
      + destruct l2 as [|[g w] l2]; [by destruct Hr as [[_ Hr] _]|]. exists p. split; [done|]. by destruct Hr as [_ Hp].
      + destruct l2 as [|[g w] l2]; [done|]. rewrite zlen_flat, zlen_cons in Hr. pose proof (zlen_nonneg l2). lia. }
  unfold hashTypeNext. rewrite Hrun. cbn [mbind option_bind]. destruct l2 as [|[f v] l2]; [by rewrite Hr|].
  destruct Hr as (q & -> & Hq). cbn [flat] in Hq.
  destruct (find_value _ _ _ _ _ _ Hq) as (q2 & r2 & -> & Hq2 & _). cbn [mbind option_bind]. by exists q, q2.
Qed.

Lemma currentObject_ok zl l1 s l2 p : place zl l1 (s :: l2) p ->
  exists o, hashTypeCurrentObject zl p = Some o /\ obj_ok o /\ getDecodedObject o = Some s.
Proof.
  intros Hp. destruct (ziplistGet_ok _ _ _ _ Hp) as (x & Hget & r & -> & Hr). unfold hashTypeCurrentObject.
  rewrite Hget. cbn [mbind option_bind]. eexists. split; [reflexivity|].
  split; [destruct r; [done|apply Hr]|by apply zl_object_ok].
Qed.

Lemma decoded_none m f : strings_ok m -> decoded m !! f = None -> m !! f = None.
Proof.
  intros Hs. unfold decoded. rewrite lookup_omap. destruct (m !! f) as [o|] eqn:Hk; [|done].
  apply Hs in Hk as [_ [v Hv]]. cbn. by rewrite Hv.
Qed.

Section conversion.
Context (env : type_env).

Lemma convert_loop_ok fuel : forall zl l1 l2 cur d, cursor zl l1 l2 cur -> NoDup (l1 ++ l2).*1 ->
  dict_inv (hash_fun env) d -> strings_ok (to_map d) -> decoded (to_map d) = list_to_map l1 ->
  Z.of_nat (length (l1 ++ l2)) <= 2 ^ 29 -> (length l2 < fuel)%nat ->
  exists d', convert_loop env fuel zl cur d = Some d' /\ dict_inv (hash_fun env) d' /\ strings_ok (to_map d') /\
    decoded (to_map d') = list_to_map (l1 ++ l2).
Proof.
  induction fuel as [|fuel IH]; intros zl l1 l2 cur d Hc Hn Hd Hs Hm Hlen Hf; [lia|]. cbn [convert_loop].
  pose proof (hashTypeNext_ok _ _ _ _ Hc) as Hnext. destruct l2 as [|[f v] l2].
  { rewrite Hnext. cbn [mbind option_bind]. rewrite app_nil_r. by exists d. }
  destruct Hnext as (fp & vp & -> & Hfp & Hvp). cbn [mbind option_bind].
  destruct (currentObject_ok _ _ _ _ _ Hfp) as (fo & -> & Hfok & Hfo). cbn [mbind option_bind].
  destruct (encode_object_ok fo f Hfok Hfo) as (fo' & -> & Hfok' & Hfo'). cbn [mbind option_bind].
  destruct (currentObject_ok _ _ _ _ _ Hvp) as (vo & -> & Hvok & Hvo). cbn [mbind option_bind].
  destruct (encode_object_ok vo v Hvok Hvo) as (vo' & -> & Hvok' & Hvo'). cbn [mbind option_bind]. rewrite Hfo'. cbn [mbind option_bind].
  assert (f ∉ l1.*1) as Hnin.
  { rewrite fmap_app in Hn. apply NoDup_app in Hn as (_ & Hn & _). intros Hin. apply (Hn f Hin). by left. }
  assert (to_map d !! f = None) as Hnone.
  { apply decoded_none; [done|]. rewrite Hm. by apply not_elem_of_list_to_map. }
  destruct (dictAdd_inv (hash_fun env) (can_resize env) vo' d f vo' Hd) as (d' & st & -> & Hd' & Hst).
  { unfold few. rewrite <- decoded_size, Hm by done. rewrite map_size_list_to_map.
    - rewrite length_app in Hlen. lia.
    - rewrite fmap_app in Hn. by apply NoDup_app in Hn as [? _]. }
  rewrite Hnone in Hst. destruct Hst as [-> Hm']. cbn [mbind option_bind].
  replace (l1 ++ (f, v) :: l2) with ((l1 ++ [(f, v)]) ++ l2) in * by by rewrite <- app_assoc.
  apply IH.
  - cbn [cursor]. by exists l1, f, v.
  - done.
  - done.
  - rewrite Hm'. by apply (strings_insert _ _ _ v).
  - rewrite Hm', (decoded_insert _ _ _ v), Hm by done. symmetry. by apply list_to_map_snoc.
  - done.
  - simpl in Hf. lia.
Qed.

Lemma few_pairs l : 2 * pairs_weight l < 2 ^ 32 -> Z.of_nat (length l) <= 2 ^ 29.
Proof. pose proof (pairs_weight_zlen l). unfold zlen in *. lia. Qed.

Lemma hash_convert_ht zl l : ziplist_ok zl (flat l) -> NoDup l.*1 -> 2 * pairs_weight l < 2 ^ 32 ->
  exists d, hashTypeConvert env (HashZiplist zl) = Some (HashHT d) /\ dict_inv (hash_fun env) d /\ strings_ok (to_map d) /\
    decoded (to_map d) = list_to_map l.
Proof.
  intros Hzl Hn Hw%few_pairs. unfold hashTypeConvert. destruct (create_inv (V := robj) (hash_fun env)) as [Hd Hm].
  destruct (convert_loop_ok (length zl) zl [] l None dictCreate) as (d' & -> & Hd' & Hs' & Hm'); try done.
  - destruct (ziplist_fuel _ _ Hzl) as [Hf Hf0]. rewrite flat_length in Hf. lia.
  - by exists d'.
Qed.

Lemma hash_convert_ok zl l : ziplist_ok zl (flat l) -> NoDup l.*1 -> 2 * pairs_weight l < 2 ^ 32 ->
  exists o', hashTypeConvert env (HashZiplist zl) = Some o' /\ hash_repr env o' (list_to_map l).
Proof.
  intros Hzl Hn Hw. destruct (hash_convert_ht zl l Hzl Hn Hw) as (d & -> & Hd & Hs & <-). eexists. split; [done|by constructor].
Qed.

(** ** Writing *)

Lemma pairs_update (f v w : bytes) l1 l2 : NoDup (l1 ++ (f, w) :: l2).*1 ->
  NoDup (l1 ++ (f, v) :: l2).*1 /\
  (list_to_map (l1 ++ (f, v) :: l2) : gmap bytes bytes) = <[f := v]> (list_to_map (l1 ++ (f, w) :: l2)).
Proof.
  intros Hn. assert (NoDup (l1 ++ (f, v) :: l2).*1) as Hn' by by rewrite fmap_app in *. split; [done|].
  apply map_eq. intros k. destruct (decide (k = f)) as [->|Hk].
  - rewrite lookup_insert_eq. by apply lookup_pairs.
  - rewrite lookup_insert_ne by done. rewrite !list_to_map_app, !list_to_map_cons, !lookup_union, !lookup_insert_ne by done. done.
Qed.

Lemma place_weight zl l1 l2 p : place zl l1 l2 p -> zlen zl <= weight (l1 ++ l2).
Proof. intros H. by eapply ziplist_ok_weight, place_ziplist_ok. Qed.

Lemma hash_zset_ok zl l fo vo f v : ziplist_ok zl (flat l) -> NoDup l.*1 -> hash_room (list_to_map l) f v ->
  getDecodedObject fo = Some f -> getDecodedObject vo = Some v ->
  exists o', hashTypeSet env (HashZiplist zl) fo vo
      = Some (o', bool_decide (is_Some ((list_to_map l : gmap bytes bytes) !! f))) /\
    hash_repr env o' (<[f := v]> (list_to_map l)).
Proof.
  intros Hzl Hn Hroom Hf Hv. unfold hash_room in Hroom. rewrite hash_weight_pairs in Hroom by done.
  unfold hashTypeSet. rewrite Hf, Hv. cbn [mbind option_bind].
  pose proof (zlen_nonneg f). pose proof (zlen_nonneg v).
  assert (exists l' zl', ziplist_ok zl' (flat l') /\ NoDup l'.*1 /\ list_to_map l' = <[f := v]> (list_to_map l : gmap bytes bytes) /\
    pairs_weight l' <= pairs_weight l + zlen f + zlen v + 36 /\
    exists r, find_field zl f = Some r /\
    match r with
     | Some fptr =>
         vptr ← ziplistNext zl fptr; vptr ← vptr;
         zl ← ziplistDelete (fresh env) zl vptr;
         zl ← ziplistInsert (fresh env) zl vptr v (zlen v);
         Some (zl, true)
     | None =>
         zl ← ziplistPush (fresh env) zl f (zlen f) ZIPLIST_TAIL;
         zl ← ziplistPush (fresh env) zl v (zlen v) ZIPLIST_TAIL;
         Some (zl, false)
     end = Some (zl', bool_decide (is_Some ((list_to_map l : gmap bytes bytes) !! f)))) as
    (l' & zl' & Hzl' & Hn' & Hm' & Hw' & r & Hfind & Hrun).
  { destruct (find_field_ok zl l f Hzl Hn) as [[Hfind Hnin]|(p & l1 & w & l2 & Hfind & -> & Hp)].
    - pose proof (ziplist_ok_weight _ _ Hzl). fold (pairs_weight l) in *. pose proof (pairs_weight_zlen l).
      destruct (ziplistPush_ok (fresh env) zl (flat l) f ZIPLIST_TAIL Hzl) as (zl1 & Hrun1 & Hzl1).
      { rewrite zlen_flat. lia. }
      pose proof (ziplist_ok_weight _ _ Hzl1) as Hw1. rewrite weight_app, weight_cons in Hw1.
      change (weight []) with 11 in Hw1. fold (pairs_weight l) in Hw1.
      destruct (ziplistPush_ok (fresh env) zl1 _ v ZIPLIST_TAIL Hzl1) as (zl2 & Hrun2 & Hzl2).
      { rewrite zlen_app, zlen_flat. change (zlen [f]) with 1. lia. }
      exists (l ++ [(f, v)]), zl2.
      assert (NoDup (l ++ [(f, v)]).*1) as Hn2.
      { rewrite fmap_app. apply NoDup_app. split; [done|]. split; [|by apply NoDup_singleton].
        intros k Hk. cbn. rewrite list_elem_of_singleton. by intros ->. }
      split_and!.
      + rewrite flat_app. cbn [flat]. by rewrite <- app_assoc in Hzl2.
      + done.
      + by apply list_to_map_snoc.
      + rewrite pairs_weight_app, pairs_weight_cons. change (pairs_weight []) with 11. lia.
      + exists None. split; [done|]. rewrite Hrun1. cbn [mbind option_bind]. rewrite Hrun2. cbn [mbind option_bind].
        do 2 f_equal. symmetry. apply bool_decide_eq_false. rewrite (proj1 (not_elem_of_list_to_map l f) Hnin). by intros [].
    - destruct (find_value _ _ _ _ _ _ Hp) as (q & r & Hrun0 & Hq & _).
      pose proof (place_weight _ _ _ _ Hq) as Hwq. pose proof (weight_zlen ((flat l1 ++ [f]) ++ w :: flat l2)) as Hzq.
      assert (weight ((flat l1 ++ [f]) ++ w :: flat l2) = pairs_weight (l1 ++ (f, w) :: l2)) as Heq
        by (unfold pairs_weight; rewrite flat_app, <- app_assoc; done).
      destruct (ziplistDelete_then (fresh env) _ _ _ _ _ Hq) as (zl1 & Hrun1 & Hzl1 & Hins); [lia|].
      pose proof (place_weight _ _ _ _ Hzl1) as Hw1. pose proof (weight_zlen ((flat l1 ++ [f]) ++ flat l2)) as Hz1.
      rewrite !weight_app, !weight_cons in *. change (weight []) with 11 in *. pose proof (zlen_nonneg w). rewrite !zlen_app in *.
      rewrite zlen_cons in *. change (zlen [f]) with 1 in *.
      destruct (Hins v) as (zl2 & Hrun2 & Hzl2); [lia|].
      destruct (pairs_update f v w l1 l2 Hn) as [Hn2 Hm2]. exists (l1 ++ (f, v) :: l2), zl2. split_and!.
      + apply place_ziplist_ok in Hzl2. rewrite flat_app. by rewrite <- app_assoc in Hzl2.
      + done.
      + done.
      + rewrite pairs_weight_app, pairs_weight_cons in *. rewrite pairs_weight_app, pairs_weight_cons. lia.
      + exists (Some p). split; [done|]. rewrite Hrun0. cbn [mbind option_bind]. rewrite Hrun1. cbn [mbind option_bind].
        rewrite Hrun2. cbn [mbind option_bind]. do 2 f_equal. symmetry. apply bool_decide_eq_true. rewrite lookup_pairs by done. by eexists. }
  rewrite Hfind. cbn [mbind option_bind]. rewrite Hrun. cbn [mbind option_bind]. rewrite <- Hm'.
  cbn [hashTypeLength]. destruct (ziplistLen_ok zl' _ Hzl') as (zl2 & -> & Hzl2). cbn [mbind option_bind].
  destruct (_ >? _); [|cbn [mbind option_bind]; eexists; split; [reflexivity|by constructor]].
  destruct (hash_convert_ok zl2 l') as (o' & -> & Ho'); [done|done|lia|].
  cbn [mbind option_bind]. by eexists.
Qed.

(** [hashTypeSet] binds the field and says whether it was there. *)
Lemma hash_set_ok o m fo vo f v : hash_repr env o m -> hash_room m f v ->
  getDecodedObject fo = Some f -> obj_ok vo -> getDecodedObject vo = Some v ->
  exists o', hashTypeSet env o fo vo = Some (o', bool_decide (is_Some (m !! f))) /\ hash_repr env o' (<[f := v]> m).
Proof.
  intros Ho Hroom Hf Hvok Hv. destruct Ho as [zl l Hzl Hn|d Hd Hs]; [by apply hash_zset_ok|].
  cbn [hashTypeSet]. rewrite Hf. cbn [mbind option_bind].
  destruct (dictReplace_inv (hash_fun env) (can_resize env) vo d f vo Hd) as (d' & -> & Hd' & Hm').
  { apply hash_room_few in Hroom. rewrite decoded_size in Hroom by done. unfold few. lia. }
  cbn [mbind option_bind]. eexists. split; [|rewrite <- (decoded_insert _ _ vo) by done; rewrite <- Hm'; constructor;
    [done|rewrite Hm'; by apply (strings_insert _ _ _ v)]].
  do 2 f_equal. unfold decoded. rewrite lookup_omap. destruct (to_map d !! f) as [o|] eqn:Hk.
  - apply Hs in Hk as [_ [w Hw]]. cbn. rewrite Hw. done.
  - done.
Qed.

Lemma pairs_delete (f w : bytes) l1 l2 : NoDup (l1 ++ (f, w) :: l2).*1 ->
  NoDup (l1 ++ l2).*1 /\ (list_to_map (l1 ++ l2) : gmap bytes bytes) = delete f (list_to_map (l1 ++ (f, w) :: l2)).
Proof.
  intros Hn. rewrite fmap_app, fmap_cons in Hn. pose proof Hn as Hn1.
  rewrite <- Permutation_middle in Hn1. apply NoDup_cons in Hn1 as [Hnin Hn1]. rewrite <- fmap_app in Hn1, Hnin.
  split; [done|]. rewrite (list_to_map_proper (l1 ++ (f, w) :: l2) ((f, w) :: l1 ++ l2)).
  - cbn. rewrite delete_insert_id; [done|]. by apply not_elem_of_list_to_map.
  - by rewrite fmap_app, fmap_cons.
  - by rewrite Permutation_middle.
Qed.

(** [hashTypeDelete] removes the field and says whether it was there. *)
Lemma hash_delete_ok o m fo f : hash_repr env o m -> hash_room m [] [] -> getDecodedObject fo = Some f ->
  exists o', hashTypeDelete env o fo = Some (o', bool_decide (is_Some (m !! f))) /\ hash_repr env o' (delete f m).
Proof.
  intros Ho Hroom Hf. destruct Ho as [zl l Hzl Hn|d Hd Hs]; cbn [hashTypeDelete]; rewrite Hf; cbn [mbind option_bind].
  - unfold hash_room in Hroom. rewrite hash_weight_pairs in Hroom by done. change (zlen (@nil Z)) with 0 in Hroom.
    destruct (find_field_ok zl l f Hzl Hn) as [[-> Hnin]|(p & l1 & w & l2 & -> & -> & Hp)]; cbn [mbind option_bind].
    + assert ((list_to_map l : gmap bytes bytes) !! f = None) as Hnone by by apply not_elem_of_list_to_map.
      rewrite Hnone, delete_id by done. eexists. split; [reflexivity|]. by constructor.
    + pose proof (place_weight _ _ _ _ Hp). pose proof (weight_zlen (flat l1 ++ f :: w :: flat l2)).
      assert (weight (flat l1 ++ f :: w :: flat l2) = pairs_weight (l1 ++ (f, w) :: l2)) as Heq
        by (unfold pairs_weight; by rewrite flat_app).
      destruct (ziplistDelete_ok (fresh env) _ _ _ _ _ Hp) as (zl1 & -> & Hp1); [lia|]. cbn [mbind option_bind].
      pose proof (place_weight _ _ _ _ Hp1). pose proof (weight_zlen (flat l1 ++ w :: flat l2)).
      rewrite !weight_app, !weight_cons in *. pose proof (zlen_nonneg f).
      destruct (ziplistDelete_ok (fresh env) _ _ _ _ _ Hp1) as (zl2 & -> & Hp2); [lia|]. cbn [mbind option_bind].
      rewrite lookup_pairs by done. destruct (pairs_delete f w l1 l2 Hn) as [Hn2 <-]. eexists. split; [reflexivity|].
      constructor; [|done]. rewrite flat_app. by eapply place_ziplist_ok.
  - destruct (dictDelete_inv (hash_fun env) d f Hd) as (d' & st & freed & -> & Hd' & Hm' & Hst). cbn [mbind option_bind].
    assert (strings_ok (to_map d')) as Hs' by (rewrite Hm'; by apply map_Forall_delete).
    assert (decoded (to_map d') = delete f (decoded (to_map d))) as Hdel by (rewrite Hm'; unfold decoded; by rewrite omap_delete).
    assert (is_Some (decoded (to_map d) !! f) <-> is_Some (to_map d !! f)) as Hiff.
    { unfold decoded. rewrite lookup_omap. split; [by intros [v Hv]; destruct (to_map d !! f)|].
      intros [o Ho]. rewrite Ho. by apply Hs in Ho as [_ ?]. }
    rewrite (bool_decide_ext _ _ Hiff), <- Hdel. destruct st.
    + rewrite (bool_decide_eq_true_2 (is_Some (to_map d !! f))) by by apply Hst.
      destruct (htNeedsResize d'); [|cbn [mbind option_bind]; eexists; split; [reflexivity|by constructor]].
      destruct (dictResize_inv (hash_fun env) (can_resize env) d' Hd') as (d2 & st2 & -> & Hd2 & Hm2).
      { apply hash_room_few in Hroom. rewrite decoded_size in Hroom by done. unfold few. rewrite Hm'.
        rewrite map_size_delete. destruct (to_map d !! f); cbn; lia. }
      cbn [fmap option_fmap option_map fst mbind option_bind]. eexists. split; [reflexivity|]. rewrite <- Hm2. constructor; [done|by rewrite Hm2].
    + rewrite (bool_decide_eq_false_2 (is_Some (to_map d !! f))) by by intros ?%Hst. eexists. split; [reflexivity|]. by constructor.
Qed.
End conversion.

(** ** A session on one hash *)

Section session.
Context (env : type_env).

(** What the commands of the hash type ask of it. *)
Inductive hash_op :=
  | OpSet (field value : robj)
  | OpDelete (field : robj)
  | OpGet (field : robj)
  | OpExists (field : robj)
  | OpLength
  | OpTry (args : list robj).

Inductive hash_answer := AFlag (b : bool) | AValue (v : option bytes) | ALength (n : Z) | ADone.

(** An operation on the object, conversions included. *)
Definition hash_step (o : hobj) (op : hash_op) : option (hobj * hash_answer) :=
  match op with
  | OpSet f v => '(o, b) ← hashTypeSet env o f v; Some (o, AFlag b)
  | OpDelete f => '(o, b) ← hashTypeDelete env o f; Some (o, AFlag b)
  | OpGet f => '(o, v) ← hashTypeGetObject env o f; Some (o, AValue (v ≫= getDecodedObject))
  | OpExists f => '(o, b) ← hashTypeExists env o f; Some (o, AFlag b)
  | OpLength => '(n, o) ← hashTypeLength o; Some (o, ALength n)
  | OpTry args => o ← hashTypeTryConversion env o args; Some (o, ADone)
  end.

Fixpoint hash_steps (o : hobj) (ops : list hash_op) : option (hobj * list hash_answer) :=
  match ops with
  | [] => Some (o, [])
  | op :: ops => '(o, a) ← hash_step o op; '(o, l) ← hash_steps o ops; Some (o, a :: l)
  end.

(** The same operation on a finite map. *)
Definition map_step (m : gmap bytes bytes) (op : hash_op) : option (gmap bytes bytes * hash_answer) :=
  match op with
  | OpSet f v =>
      f ← getDecodedObject f; v ← getDecodedObject v;
      Some (<[f := v]> m, AFlag (bool_decide (is_Some (m !! f))))
  | OpDelete f => f ← getDecodedObject f; Some (delete f m, AFlag (bool_decide (is_Some (m !! f))))
  | OpGet f => f ← getDecodedObject f; Some (m, AValue (m !! f))
  | OpExists f => f ← getDecodedObject f; Some (m, AFlag (bool_decide (is_Some (m !! f))))
  | OpLength => Some (m, ALength (Z.of_nat (base.size m)))
  | OpTry _ => Some (m, ADone)
  end.

Fixpoint map_steps (m : gmap bytes bytes) (ops : list hash_op) : option (gmap bytes bytes * list hash_answer) :=
  match ops with
  | [] => Some (m, [])
  | op :: ops => '(m, a) ← map_step m op; '(m, l) ← map_steps m ops; Some (m, a :: l)
  end.

(** Well-formed values, and room for every operation of the session. *)
Definition step_room (m : gmap bytes bytes) (op : hash_op) : Prop :=
  match op with
  | OpSet f v => obj_ok v /\ forall fb vb, getDecodedObject f = Some fb -> getDecodedObject v = Some vb -> hash_room m fb vb
  | _ => hash_room m [] []
  end.

Fixpoint session_room (m : gmap bytes bytes) (ops : list hash_op) : Prop :=
  match ops with
  | [] => True
  | op :: ops => step_room m op /\ forall m1 a, map_step m op = Some (m1, a) -> session_room m1 ops
  end.

Lemma hash_try_ok o m args : hash_repr env o m -> hash_room m [] [] ->
  exists o', hashTypeTryConversion env o args = Some o' /\ hash_repr env o' m.
Proof.
  intros Ho Hroom. destruct Ho as [zl l Hzl Hn|d Hd Hs]; cbn [hashTypeTryConversion].
  - destruct (existsb _ args); [|eexists; split; [reflexivity|by constructor]].
    apply hash_convert_ok; [done|done|]. unfold hash_room in Hroom. rewrite hash_weight_pairs in Hroom by done.
    change (zlen (@nil Z)) with 0 in Hroom. lia.
  - eexists. split; [reflexivity|]. by constructor.
Qed.

Lemma hash_step_ok o m op m1 a : hash_repr env o m -> map_step m op = Some (m1, a) -> step_room m op ->
  exists o1, hash_step o op = Some (o1, a) /\ hash_repr env o1 m1.
Proof.
  intros Ho Hm Hroom. destruct op as [fo vo|fo|fo|fo| |args]; cbn [map_step hash_step step_room] in *;
    try (destruct (getDecodedObject fo) as [f|] eqn:Hf; [|done]; cbn [mbind option_bind] in Hm).
  - destruct (getDecodedObject vo) as [v|] eqn:Hv; [|done]. cbn [mbind option_bind] in Hm. injection Hm as <- <-.
    destruct Hroom as [Hok Hroom]. destruct (hash_set_ok env o m fo vo f v) as (o1 & -> & Ho1); eauto.
  - injection Hm as <- <-. destruct (hash_delete_ok env o m fo f) as (o1 & -> & Ho1); eauto.
  - injection Hm as <- <-.
    destruct (hash_get_ok env o m fo f Ho Hf) as (o1 & r & -> & Ho1 & Hr & _). cbn [mbind option_bind]. rewrite Hr. eauto.
  - injection Hm as <- <-. destruct (hash_exists_ok env o m fo f Ho Hf) as (o1 & -> & Ho1). eauto.
  - injection Hm as <- <-. destruct (hash_length_ok env o m Ho) as (o1 & -> & Ho1). eauto.
  - injection Hm as <- <-. destruct (hash_try_ok o m args Ho Hroom) as (o1 & -> & Ho1). eauto.
Qed.

Lemma hash_steps_ok ops : forall o m m' l, hash_repr env o m -> map_steps m ops = Some (m', l) -> session_room m ops ->
  exists o', hash_steps o ops = Some (o', l) /\ hash_repr env o' m'.
Proof.
  induction ops as [|op ops IH]; intros o m m' l Ho Hm Hroom; cbn [map_steps hash_steps session_room] in *.
  - injection Hm as <- <-. eauto.
  - destruct (map_step m op) as [[m1 a]|] eqn:Hstep; [|done]. cbn [mbind option_bind] in Hm.
    destruct (map_steps m1 ops) as [[m2 l2]|] eqn:Hrest; [|done]. injection Hm as <- <-.
    destruct Hroom as [Hroom Hnext].
    destruct (hash_step_ok o m op m1 a Ho Hstep Hroom) as (o1 & -> & Ho1). cbn [mbind option_bind].
    destruct (IH o1 m1 m2 l2 Ho1 Hrest) as (o' & -> & Ho'); eauto.
Qed.

Lemma createHashObject_ok : exists o, createHashObject env = Some o /\ hash_repr env o ∅.
Proof.
  destruct (new_ok (fresh env)) as (zl & Hnew & Hzl). exists (HashZiplist zl).
  unfold createHashObject. rewrite Hnew. split; [done|]. apply (repr_ziplist env zl []); [done|constructor].
Qed.
End session.

(** C26: a hash is a finite map. Every sequence of sets, deletions, reads, length
    queries and conversions on a hash that was just created gives the answers of the
    same sequence on the empty map, and the object, a ziplist or a dictionary by then,
    holds the resulting map; no read or write leaves its block, for every hash
    function, whatever memory holds when it is allocated. *)
Theorem hash_session env ops m l : map_steps ∅ ops = Some (m, l) -> session_room ∅ ops ->
  exists o o', createHashObject env = Some o /\ hash_steps env o ops = Some (o', l) /\ hash_repr env o' m.
Proof.
  intros Hm Hroom. destruct (createHashObject_ok env) as (o & Hnew & Ho).
  destruct (hash_steps_ok env ops o ∅ m l Ho Hm Hroom) as (o' & Hrun & Ho'). eauto.
Qed.

(** Two entries are too many for the ziplist of this configuration. *)
Definition demo_env : type_env := mkEnv 1 64 512 512 64 (fun k => zlen k) true (fun _ => 7).

Definition demo_ops : list hash_op :=
  [OpSet (StrRaw [97]) (StrRaw [49; 48]); OpSet (StrRaw [98]) (StrInt 7); OpGet (StrRaw [97]); OpDelete (StrRaw [98]); OpLength].

Lemma demo_room : session_room ∅ demo_ops.
Proof.
  cbn [session_room demo_ops step_room]. repeat match goal with
  | |- _ /\ _ => split
  | |- True => exact I
  | |- forall m1 a, map_step _ _ = _ -> _ => intros m1 a Hm; vm_compute in Hm; injection Hm as <- <-
  | |- forall fb vb, _ => intros fb vb Hf Hv; vm_compute in Hf, Hv; injection Hf as <-; injection Hv as <-
  | |- hash_room _ _ _ => vm_compute; reflexivity
  | |- obj_ok _ => vm_compute; split; congruence
  end.
Qed.

Lemma hash_session_witness : exists o o', createHashObject demo_env = Some o /\
  hash_steps demo_env o demo_ops = Some (o', [AFlag false; AFlag false; AValue (Some [49; 48]); AFlag true; ALength 1]) /\
  hash_repr demo_env o' {[ [97] := [49; 48] ]}.
Proof. apply (hash_session demo_env demo_ops); [by vm_compute|apply demo_room]. Defined.
