(* ===== verification/SetType.v ===== *)
(** * The set type (src/redis-2.8.19/src/t_set.c)

    A set of integers is an intset; a set with another member, or with many members,
    is a dictionary without values. As in HashType.v the keys of a dictionary are
    the decoded bytes of the objects, which are stored in their shortest encoding. *)
From S2P Require Import Prelude Util Object Intset Dict DictIter DictBound HashType.
Open Scope Z_scope.

Inductive setobj := SetIntset (s : intset) | SetHT (d : dict bytes unit).

(** An iterator: that of the dictionary, or the next position of the intset. *)
Inductive setTypeIterator := SiHT (di : dictIterator bytes unit) | SiIntset (ii : Z).

(** What [setTypeNext] returns by its two pointers. *)
Inductive set_element := ElemObj (o : robj) | ElemInt (v : Z).

Section set.
Context (env : type_env).

Definition createIntsetObject : setobj := SetIntset intsetNew.
Definition createSetObject : setobj := SetHT dictCreate.

Definition setTypeCreate (value : robj) : option setobj :=
  r ← isObjectRepresentableAsLongLong value;
  Some (match r with Some _ => createIntsetObject | None => createSetObject end).

(** ** Iteration *)

Definition setTypeInitIterator (subject : setobj) : setTypeIterator :=
  match subject with SetHT _ => SiHT dictGetIterator | SetIntset _ => SiIntset 0 end.

(** The element, or -1 at the end, and the iterator; an unsafe iterator does not
    change the dictionary. *)
Definition setTypeNext (subject : setobj) (si : setTypeIterator) : option (option set_element * setTypeIterator) :=
  match subject, si with
  | SetHT d, SiHT di =>
      '(de, di, _) ← dictNext d di;
      match de with
      | None => Some (None, SiHT di)
      | Some (k, _) => o ← encode_object (StrRaw k); Some (Some (ElemObj o), SiHT di)
      end
  | SetIntset s, SiIntset ii =>
      r ← intsetGet s ii;
      Some (option_map ElemInt r, SiIntset (ii + 1))
  | _, _ => None
  end.

Definition setTypeNextObject (subject : setobj) (si : setTypeIterator) : option (option robj * setTypeIterator) :=
  '(e, si) ← setTypeNext subject si;
  Some (match e with
        | None => None
        | Some (ElemInt v) => Some (createStringObjectFromLongLong v)
        | Some (ElemObj o) => Some o
        end, si).

(** ** Size and conversion *)

Definition setTypeSize (subject : setobj) : Z :=
  match subject with SetHT d => dictSize d | SetIntset s => intsetLen s end.

(** The loop of [setTypeConvert]. *)
Fixpoint set_convert_loop (fuel : nat) (subject : setobj) (si : setTypeIterator) (d : dict bytes unit) : option (dict bytes unit) :=
  match fuel with
  | O => None
  | S fuel =>
      '(e, si) ← setTypeNext subject si;
      match e with
      | None => Some d
      | Some (ElemInt v) =>
          key ← getDecodedObject (createStringObjectFromLongLong v);
          '(d, st) ← dictAdd (hash_fun env) (can_resize env) tt d key tt;
          match st with
          | DICT_OK => set_convert_loop fuel subject si d
          | DICT_ERR => None
          end
      | Some (ElemObj _) => None
      end
  end.

(** To [REDIS_ENCODING_HT]; from it, the failed assertion. *)
Definition setTypeConvert (setobj : setobj) : option SetType.setobj :=
  match setobj with
  | SetIntset s =>
      '(d, _) ← dictExpand dictCreate (intsetLen s);
      d ← set_convert_loop (S (Z.to_nat (intsetLen s))) setobj (setTypeInitIterator setobj) d;
      Some (SetHT d)
  | SetHT _ => None
  end.

(** ** Members *)

Definition setTypeAdd (subject : setobj) (value : robj) : option (setobj * bool) :=
  match subject with
  | SetHT d =>
      key ← getDecodedObject value;
      '(d, st) ← dictAdd (hash_fun env) (can_resize env) tt d key tt;
      Some (SetHT d, match st with DICT_OK => true | DICT_ERR => false end)
  | SetIntset s =>
      r ← isObjectRepresentableAsLongLong value;
      match r with
      | Some llval =>
          '(s, success) ← intsetAdd (fresh env) s llval;
          if success : bool then
            o ← (if intsetLen s >? set_max_intset_entries env then setTypeConvert (SetIntset s) else Some (SetIntset s));
            Some (o, true)
          else Some (SetIntset s, false)
      | None =>
          o ← setTypeConvert subject;
          match o with
          | SetHT d =>
              key ← getDecodedObject value;
              '(d, st) ← dictAdd (hash_fun env) (can_resize env) tt d key tt;
              match st with DICT_OK => Some (SetHT d, true) | DICT_ERR => None end
          | SetIntset _ => None
          end
      end
  end.

Definition setTypeRemove (setobj : setobj) (value : robj) : option (SetType.setobj * bool) :=
  match setobj with
  | SetHT d =>
      key ← getDecodedObject value;
      '(d, st, _) ← dictDelete (hash_fun env) d key;
      match st with
      | DICT_OK =>
          d ← (if htNeedsResize d then fst <$> dictResize (can_resize env) d else Some d);
          Some (SetHT d, true)
      | DICT_ERR => Some (SetHT d, false)
      end
  | SetIntset s =>
      r ← isObjectRepresentableAsLongLong value;
      match r with
      | Some llval => '(s, success) ← intsetRemove (fresh env) s llval; Some (SetIntset s, success)
      | None => Some (setobj, false)
      end
  end.

Definition setTypeIsMember (subject : setobj) (value : robj) : option (setobj * bool) :=
  match subject with
  | SetHT d =>
      key ← getDecodedObject value;
      '(d, r) ← dictFind (hash_fun env) d key;
      Some (SetHT d, bool_decide (r <> None))
  | SetIntset s =>
      r ← isObjectRepresentableAsLongLong value;
      match r with
      | Some llval => b ← intsetFind s llval; Some (subject, b)
      | None => Some (subject, false)
      end
  end.

(** Every member, as the commands that list a set iterate over it. *)
Fixpoint set_members (fuel : nat) (subject : setobj) (si : setTypeIterator) : option (list robj) :=
  match fuel with
  | O => None
  | S fuel =>
      '(o, si) ← setTypeNextObject subject si;
      match o with
      | None => Some []
      | Some o => l ← set_members fuel subject si; Some (o :: l)
      end
  end.
End set.

(** ** What a set holds *)

Definition numerals (l : list Z) : gset bytes := list_to_set (dec <$> l).

Inductive set_repr (env : type_env) : setobj -> gset bytes -> Prop :=
  | repr_intset s l : intset_repr s l -> Forall (sfits 64) l -> set_repr env (SetIntset s) (numerals l)
  | repr_set_ht d : dict_inv (hash_fun env) d -> set_repr env (SetHT d) (dom (to_map d)).

(** The set is within the bounds, and has room for one more member. *)
Definition set_fits (X : gset bytes) : Prop := Z.of_nat (base.size X) <= 2 ^ 28.
Definition set_room (X : gset bytes) : Prop := Z.of_nat (base.size X) < 2 ^ 28.

Lemma set_room_fits X : set_room X -> set_fits X.
Proof. unfold set_room, set_fits. lia. Qed.

Lemma elem_of_numerals s l : s ∈ numerals l <-> exists v, v ∈ l /\ s = dec v.
Proof. unfold numerals. rewrite elem_of_list_to_set, list_elem_of_fmap. split; intros (v & H1 & H2); eauto. Qed.

Lemma numerals_mem v l : Forall (sfits 64) l -> sfits 64 v -> dec v ∈ numerals l <-> v ∈ l.
Proof.
  rewrite Forall_forall. intros Hl Hv. rewrite elem_of_numerals. split; [|by eauto].
  intros (w & Hw & Heq). assert (v = w) as ->; [|done]. apply dec_inj; [done|by apply Hl|done].
Qed.

Lemma numerals_cons v l : numerals (v :: l) = {[dec v]} ∪ numerals l.
Proof. done. Qed.

Lemma numerals_insert v l : numerals (insert_sorted v l) = {[dec v]} ∪ numerals l.
Proof.
  apply sets.set_eq. intros s. rewrite elem_of_union, elem_of_singleton, !elem_of_numerals. split.
  - intros (w & Hw & ->). apply elem_of_insert_sorted in Hw as [->|Hw]; [by left|right; eauto].
  - intros [->|(w & Hw & ->)]; [exists v|exists w]; (split; [apply elem_of_insert_sorted|done]); auto.
Qed.

Lemma numerals_remove v l : Forall (sfits 64) l -> sfits 64 v -> numerals (remove_sorted v l) = numerals l ∖ {[dec v]}.
Proof.
  intros Hl Hv. apply sets.set_eq. intros s. rewrite elem_of_difference, elem_of_singleton, !elem_of_numerals.
  unfold remove_sorted. split.
  - intros (w & Hw & ->). apply list_elem_of_filter in Hw as [Hne Hw]. split; [eauto|].
    intros Heq. apply Hne, dec_inj; [|done..]. by rewrite Forall_forall in Hl; apply Hl.
  - intros [(w & Hw & ->) Hne]. exists w. split; [|done]. apply list_elem_of_filter. split; [|done]. by intros ->.
Qed.

Lemma sorted_NoDup l : StronglySorted Z.lt l -> NoDup l.
Proof.
  induction 1 as [|v l _ IH Hv]; constructor; [|done]. intros Hin. rewrite Forall_forall in Hv. specialize (Hv v Hin). lia.
Qed.

Lemma numerals_size l : StronglySorted Z.lt l -> Forall (sfits 64) l -> base.size (numerals l) = length l.
Proof.
  intros Hs Hl. induction l as [|v l IH]; [done|]. apply StronglySorted_inv in Hs as [Hs Hv].
  apply Forall_cons in Hl as [Hfv Hl]. rewrite numerals_cons, size_union, size_singleton, IH by
    (try done; apply disjoint_singleton_l; rewrite numerals_mem by done; intros Hin; rewrite Forall_forall in Hv;
     specialize (Hv v Hin); lia). done.
Qed.

Section spec.
Context (env : type_env).

Lemma intset_room s l : intset_repr s l -> Forall (sfits 64) l -> set_fits (numerals l) -> intset_small l.
Proof.
  intros Hs Hl. unfold set_fits, intset_small. rewrite numerals_size by (done || apply Hs). unfold zlen. lia.
Qed.

Lemma few_dom (d : dict bytes unit) : set_fits (dom (to_map d)) -> few (to_map d).
Proof. unfold set_fits, few. rewrite size_dom. lia. Qed.

Lemma set_repr_size o X : set_repr env o X -> setTypeSize o = Z.of_nat (base.size X).
Proof.
  intros [s l Hs Hl|d Hd]; cbn [setTypeSize].
  - rewrite numerals_size by (done || apply Hs). unfold intsetLen. apply (repr_len _ _ Hs).
  - rewrite size_dom. symmetry. apply (map_size (hash_fun env)), Hd.
Qed.

(** Reading an intset by position. *)
Lemma next_intset s l ii : intset_repr s l -> intset_small l -> 0 <= ii ->
  setTypeNext (SetIntset s) (SiIntset ii) = Some (option_map ElemInt (rd l ii), SiIntset (ii + 1)).
Proof.
  intros Hs Hsm Hi. cbn [setTypeNext]. destruct (intset_queries s l 0 ii Hs Hsm) as (_ & -> & _); [by vm_compute|done|done].
Qed.

Lemma dom_add (m : gmap bytes unit) k : dom (<[k := tt]> m) = {[k]} ∪ dom m.
Proof. by rewrite dom_insert_L. Qed.

Lemma set_convert_loop_ok s l fuel : forall l1 l2 d, intset_repr s l -> Forall (sfits 64) l -> set_fits (numerals l) ->
  l = l1 ++ l2 -> (length l2 < fuel)%nat -> dict_inv (hash_fun env) d -> dom (to_map d) = numerals l1 ->
  exists d', set_convert_loop env fuel (SetIntset s) (SiIntset (zlen l1)) d = Some d' /\
    dict_inv (hash_fun env) d' /\ dom (to_map d') = numerals l.
Proof.
  induction fuel as [|fuel IH]; intros l1 l2 d Hs Hl Hroom -> Hf Hd Hdom; [lia|]. cbn [set_convert_loop].
  pose proof (intset_room _ _ Hs Hl Hroom) as Hsm. rewrite (next_intset s _ _ Hs Hsm) by apply zlen_nonneg.
  cbn [mbind option_bind]. destruct l2 as [|v l2].
  - rewrite app_nil_r, rd_None_ge by lia. cbn [option_map]. by exists d.
  - rewrite rd_at. cbn [option_map mbind option_bind]. apply Forall_app in Hl as [Hl1 Hl2]. apply Forall_cons in Hl2 as [Hv Hl2].
    destruct (dec_spec v Hv) as (Hdec & _). cbn [getDecodedObject createStringObjectFromLongLong]. rewrite Hdec. cbn [mbind option_bind].
    assert (to_map d !! dec v = None) as Hnone.
    { apply not_elem_of_dom. rewrite Hdom, numerals_mem by done. intros Hin.
      pose proof (StronglySorted_app_1_elem_of _ _ _ v v (repr_sorted _ _ Hs) Hin ltac:(left)). lia. }
    destruct (dictAdd_inv (hash_fun env) (can_resize env) tt d (dec v) tt Hd) as (d1 & st & -> & Hd1 & Hm).
    { apply few_dom. unfold set_fits in *. rewrite numerals_size in Hroom by (apply Hs || by apply Forall_app_2; [|constructor]).
      rewrite Hdom, numerals_size; [rewrite length_app in Hroom; lia| |done]. eapply StronglySorted_app_1_l, Hs. }
    rewrite Hnone in Hm. destruct Hm as [-> Hm]. cbn [mbind option_bind].
    rewrite (cons_middle v l1 l2), app_assoc in *. replace (zlen l1 + 1) with (zlen (l1 ++ [v])) by (rewrite zlen_app; done).
    apply (IH _ l2); try done.
    + apply Forall_app. split; [by apply Forall_app_2; [|constructor]|done].
    + cbn [length] in Hf. lia.
    + rewrite Hm, dom_add, Hdom. unfold numerals. rewrite fmap_app, list_to_set_app_L. cbn. set_solver.
Qed.

Lemma setTypeConvert_ok s l : intset_repr s l -> Forall (sfits 64) l -> set_fits (numerals l) ->
  exists d, setTypeConvert env (SetIntset s) = Some (SetHT d) /\ dict_inv (hash_fun env) d /\ dom (to_map d) = numerals l.
Proof.
  intros Hs Hl Hroom. cbn [setTypeConvert]. destruct (create_inv (V := unit) (hash_fun env)) as [Hd Hm].
  pose proof Hroom as Hr. unfold set_fits in Hr. rewrite numerals_size in Hr by (done || apply Hs).
  assert (intsetLen s = zlen l) as Hlen by apply (repr_len _ _ Hs). rewrite Hlen.
  destruct (dictExpand_inv (hash_fun env) dictCreate (zlen l) Hd) as (d1 & st & -> & Hd1 & Hm1); [unfold zlen; lia|].
  cbn [mbind option_bind setTypeInitIterator].
  destruct (set_convert_loop_ok s l (S (Z.to_nat (zlen l))) [] l d1) as (d2 & Hrun & Hd2 & Hdom); try done.
  { unfold zlen. lia. } { by rewrite Hm1, Hm. }
  change (zlen (@nil Z)) with 0 in Hrun. rewrite Hrun. cbn [mbind option_bind]. eauto.
Qed.

Lemma ht_add d k : dict_inv (hash_fun env) d -> set_fits (dom (to_map d)) ->
  exists d' st, dictAdd (hash_fun env) (can_resize env) tt d k tt = Some (d', st) /\ dict_inv (hash_fun env) d' /\
    dom (to_map d') = {[k]} ∪ dom (to_map d) /\ (if bool_decide (k ∈ dom (to_map d)) then st = DICT_ERR else st = DICT_OK).
Proof.
  intros Hd Hroom. destruct (dictAdd_inv (hash_fun env) (can_resize env) tt d k tt Hd) as (d1 & st & -> & Hd1 & Hm);
    [by apply few_dom|]. exists d1, st. split; [done|]. split; [done|].
  destruct (to_map d !! k) as [[]|] eqn:Hk; destruct Hm as [-> ->].
  - apply elem_of_dom_2 in Hk as Hin. rewrite bool_decide_eq_true_2 by done. split; [set_solver|done].
  - apply not_elem_of_dom in Hk as Hnin. rewrite bool_decide_eq_false_2 by done. split; [apply dom_add|done].
Qed.

(** An object that is not an integer is in no intset. *)
Lemma not_numeral l k : Forall (sfits 64) l -> (forall v, ~ (sfits 64 v /\ k = dec v)) -> k ∉ numerals l.
Proof.
  intros Hl Hk (v & Hv & ->)%elem_of_numerals. rewrite Forall_forall in Hl. by apply (Hk v); split; [apply Hl|].
Qed.

Lemma set_add_ok o X value k : set_repr env o X -> set_room X -> obj_ok value -> getDecodedObject value = Some k ->
  exists o', setTypeAdd env o value = Some (o', bool_decide (k ∉ X)) /\ set_repr env o' ({[k]} ∪ X).
Proof.
  intros Ho Hroom Hok Hk. destruct Ho as [s l Hs Hl|d Hd]; cbn [setTypeAdd].
  2: { rewrite Hk. cbn [mbind option_bind]. destruct (ht_add d k Hd (set_room_fits _ Hroom)) as (d1 & st & -> & Hd1 & <- & Hst).
       cbn [mbind option_bind]. eexists. split; [|by constructor]. do 2 f_equal.
       case_bool_decide as Hin; subst st; symmetry; [by apply bool_decide_eq_false_2; intros ?|by apply bool_decide_eq_true_2]. }
  pose proof (intset_room _ _ Hs Hl (set_room_fits _ Hroom)) as Hsm.
  destruct (representable_ok value k Hok Hk) as (r & -> & Hr). cbn [mbind option_bind]. destruct r as [v|].
  - destruct (proj1 (Hr v) eq_refl) as [Hv ->]. destruct (intsetAdd_ok (fresh env) s l v Hs Hsm Hv) as (s' & -> & Hs').
    cbn [mbind option_bind]. rewrite (bool_decide_ext (dec v ∉ numerals l) (v ∉ l)) by (by rewrite numerals_mem).
    assert (Forall (sfits 64) (insert_sorted v l)) as Hl'.
    { apply Forall_forall. intros w [->|Hw]%elem_of_insert_sorted; [done|]. by rewrite Forall_forall in Hl; apply Hl. }
    rewrite <- numerals_insert. destruct (bool_decide (v ∉ l)) eqn:Hb; [|eexists; split; [reflexivity|by constructor]].
    destruct (_ >? _); cbn [mbind option_bind]; [|eexists; split; [reflexivity|by constructor]].
    destruct (setTypeConvert_ok s' _ Hs' Hl') as (d & -> & Hd & <-); [|cbn [mbind option_bind]; eexists; split; [reflexivity|by constructor]].
    unfold set_room, set_fits in *. rewrite numerals_size in Hroom |- * by (done || apply Hs || apply Hs').
    pose proof (insert_sorted_length v l). lia.
  - destruct (setTypeConvert_ok s l Hs Hl (set_room_fits _ Hroom)) as (d & -> & Hd & Hdom). rewrite Hk. cbn [mbind option_bind].
    destruct (ht_add d k Hd) as (d1 & st & -> & Hd1 & Hd1' & Hst); [rewrite Hdom; by apply set_room_fits|].
    assert (k ∉ numerals l) as Hnin by (apply not_numeral; [done|]; intros v Hv%Hr; done).
    rewrite bool_decide_eq_false_2 in Hst by by rewrite Hdom. subst st. cbn [mbind option_bind].
    rewrite bool_decide_eq_true_2 by done. rewrite <- Hdom, <- Hd1'. eexists. split; [reflexivity|by constructor].
Qed.

Lemma set_remove_ok o X value k : set_repr env o X -> set_room X -> obj_ok value -> getDecodedObject value = Some k ->
  exists o', setTypeRemove env o value = Some (o', bool_decide (k ∈ X)) /\ set_repr env o' (X ∖ {[k]}).
Proof.
  intros Ho Hroom Hok Hk. destruct Ho as [s l Hs Hl|d Hd]; cbn [setTypeRemove].
  - pose proof (intset_room _ _ Hs Hl (set_room_fits _ Hroom)) as Hsm.
    destruct (representable_ok value k Hok Hk) as (r & -> & Hr). cbn [mbind option_bind]. destruct r as [v|].
    + destruct (proj1 (Hr v) eq_refl) as [Hv ->]. destruct (intsetRemove_ok (fresh env) s l v Hs Hsm Hv) as (s' & -> & Hs').
      cbn [mbind option_bind]. rewrite (bool_decide_ext (dec v ∈ numerals l) (v ∈ l)) by (by apply numerals_mem).
      rewrite <- numerals_remove by done. eexists. split; [reflexivity|]. constructor; [done|].
      apply Forall_forall. intros w [_ Hw]%list_elem_of_filter. by rewrite Forall_forall in Hl; apply Hl.
    + assert (k ∉ numerals l) as Hnin by (apply not_numeral; [done|]; intros v Hv%Hr; done).
      rewrite bool_decide_eq_false_2, difference_disjoint_L by (done || set_solver). eexists. split; [reflexivity|by constructor].
  - rewrite Hk. cbn [mbind option_bind]. destruct (dictDelete_inv (hash_fun env) d k Hd) as (d1 & st & freed & -> & Hd1 & Hm & Hst).
    cbn [mbind option_bind]. assert (dom (to_map d) ∖ {[k]} = dom (to_map d1)) as -> by (by rewrite Hm, dom_delete_L).
    destruct st; [rewrite bool_decide_eq_true_2 by (rewrite elem_of_dom; by apply Hst)|
      rewrite bool_decide_eq_false_2 by (rewrite elem_of_dom; by intros ?%Hst); eexists; split; [reflexivity|by constructor]].
    destruct (htNeedsResize d1); [|cbn [mbind option_bind]; eexists; split; [reflexivity|by constructor]].
    destruct (dictResize_inv (hash_fun env) (can_resize env) d1 Hd1) as (d2 & st2 & -> & Hd2 & Hm2).
    { apply few_dom. rewrite Hm, dom_delete_L. unfold set_room, set_fits in *.
      pose proof (subseteq_size (dom (to_map d) ∖ {[k]}) (dom (to_map d)) ltac:(set_solver)). lia. }
    cbn [fmap option_fmap option_map fst mbind option_bind]. rewrite <- Hm2. eexists. split; [reflexivity|by constructor].
Qed.

Lemma set_member_ok o X value k : set_repr env o X -> set_room X -> obj_ok value -> getDecodedObject value = Some k ->
  exists o', setTypeIsMember env o value = Some (o', bool_decide (k ∈ X)) /\ set_repr env o' X.
Proof.
  intros Ho Hroom Hok Hk. destruct Ho as [s l Hs Hl|d Hd]; cbn [setTypeIsMember].
  - pose proof (intset_room _ _ Hs Hl (set_room_fits _ Hroom)) as Hsm.
    destruct (representable_ok value k Hok Hk) as (r & -> & Hr). cbn [mbind option_bind]. destruct r as [v|].
    + destruct (proj1 (Hr v) eq_refl) as [Hv ->]. destruct (intset_queries s l v 0 Hs Hsm Hv) as (-> & _); [lia|].
      cbn [mbind option_bind]. rewrite (bool_decide_ext (dec v ∈ numerals l) (v ∈ l)) by (by apply numerals_mem).
      eexists. split; [reflexivity|by constructor].
    + assert (k ∉ numerals l) as Hnin by (apply not_numeral; [done|]; intros v Hv%Hr; done).
      rewrite bool_decide_eq_false_2 by done. eexists. split; [reflexivity|by constructor].
  - rewrite Hk. cbn [mbind option_bind]. destruct (dictFind_inv (hash_fun env) d k Hd) as (d1 & r & -> & Hd1 & Hm & Hr).
    cbn [mbind option_bind]. rewrite (bool_decide_ext (k ∈ dom (to_map d)) (r <> None)) by (by rewrite elem_of_dom).
    rewrite <- Hm. eexists. split; [reflexivity|by constructor].
Qed.

(** ** Iteration over the members *)

Lemma members_intset s l fuel : forall l1 l2, intset_repr s l -> intset_small l ->
  l = l1 ++ l2 -> (length l2 < fuel)%nat -> set_members fuel (SetIntset s) (SiIntset (zlen l1)) = Some (StrInt <$> l2).
Proof.
  induction fuel as [|fuel IH]; intros l1 l2 Hs Hsm -> Hf; [lia|]. cbn [set_members]. unfold setTypeNextObject.
  rewrite (next_intset s _ _ Hs Hsm) by apply zlen_nonneg. cbn [mbind option_bind]. destruct l2 as [|v l2].
  - by rewrite app_nil_r, rd_None_ge by lia.
  - rewrite rd_at. cbn [option_map mbind option_bind]. cbn [length] in Hf.
    rewrite (cons_middle v l1 l2), app_assoc in *. replace (zlen l1 + 1) with (zlen (l1 ++ [v])) by (rewrite zlen_app; done).
    rewrite (IH (l1 ++ [v]) l2) by (done || lia). done.
Qed.

Lemma members_ht d fuel : forall di es, visiting d di es -> it_safe di = false -> (length es < fuel)%nat ->
  exists l, set_members fuel (SetHT d) (SiHT di) = Some l /\ getDecodedObject <$> l = Some <$> es.*1 /\ Forall obj_ok l.
Proof.
  induction fuel as [|fuel IH]; intros di es Hv Hsafe Hf; [lia|]. cbn [set_members]. unfold setTypeNextObject, setTypeNext.
  destruct (dictNext_ok d di es Hv) as (di' & -> & Hs' & _ & Hr). cbn [mbind option_bind].
  destruct es as [|[k u] es]; cbn [head]; [by exists []|]. destruct Hr as [|Hr]; [done|]. cbn [length tail] in *.
  assert (guarded d di = d) as Hg.
  { unfold guarded. rewrite Hsafe, andb_false_r. cbn [b2z]. rewrite Z.add_0_r. by destruct d. }
  rewrite Hg in Hr. cbn [encode_object]. destruct (tryObjectEncoding_ok k) as (o & -> & _ & Hok & Hd & _).
  cbn [mbind option_bind]. destruct (IH di' es Hr) as (l & -> & Hl & Hlok); [congruence|lia|].
  exists (o :: l). split; [done|]. split; [by rewrite !fmap_cons, Hd, Hl|by constructor].
Qed.

(** Iterating returns every member once. *)
Lemma set_members_ok o X fuel : set_repr env o X -> set_room X -> (base.size X < fuel)%nat ->
  exists l ms, set_members fuel o (setTypeInitIterator o) = Some l /\ getDecodedObject <$> l = Some <$> ms /\
    Forall obj_ok l /\ ms ≡ₚ elements X.
Proof.
  intros Ho Hroom Hf. destruct Ho as [s l Hs Hl|d Hd]; cbn [setTypeInitIterator].
  - pose proof (intset_room _ _ Hs Hl (set_room_fits _ Hroom)) as Hsm. rewrite numerals_size in Hf by (done || apply Hs).
    exists (StrInt <$> l), (dec <$> l). split; [by apply (members_intset s l fuel [] l)|]. split_and!.
    + rewrite <- !list_fmap_compose. apply list_fmap_ext. intros i v Hv. cbn.
      rewrite Forall_lookup in Hl. by destruct (dec_spec v (Hl _ _ Hv)) as (-> & _).
    + by apply Forall_fmap.
    + unfold numerals. symmetry. apply elements_list_to_set. apply (NoDup_fmap_2_strong dec).
      * intros v w Hv Hw. rewrite Forall_forall in Hl. apply dec_inj; by apply Hl.
      * by apply sorted_NoDup, Hs.
  - destruct (members_ht d fuel dictGetIterator (entries d)) as (l & Hrun & Hl & Hok); [by apply (visiting_start (hash_fun env) false), Hd|done| |].
    + rewrite size_dom in Hf. pose proof (map_size (hash_fun env) d (proj1 Hd)) as Hsz.
      rewrite (entries_size (hash_fun env) d (proj1 Hd)) in Hsz. unfold zlen in Hsz. lia.
    + exists l, (entries d).*1. split_and!; [done..|]. unfold to_map. rewrite dom_list_to_map_L.
      symmetry. apply elements_list_to_set. apply Hd.
Qed.
End spec.

(** ** A session on one set *)

Inductive set_op := SAdd (value : robj) | SRemove (value : robj) | SMember (value : robj) | SSize | SMembers.

Inductive set_answer := SFlag (b : bool) | SCount (n : Z) | SList (X : gset bytes).

(** A listing of the members must not repeat one. *)
Definition listing (l : list robj) : option (gset bytes) :=
  ms ← mapM getDecodedObject l;
  if bool_decide (NoDup ms) then Some (list_to_set ms) else None.

Definition set_step (env : type_env) (o : setobj) (op : set_op) : option (setobj * set_answer) :=
  match op with
  | SAdd v => '(o, b) ← setTypeAdd env o v; Some (o, SFlag b)
  | SRemove v => '(o, b) ← setTypeRemove env o v; Some (o, SFlag b)
  | SMember v => '(o, b) ← setTypeIsMember env o v; Some (o, SFlag b)
  | SSize => Some (o, SCount (setTypeSize o))
  | SMembers =>
      l ← set_members (S (Z.to_nat (setTypeSize o))) o (setTypeInitIterator o);
      X ← listing l;
      Some (o, SList X)
  end.

Fixpoint set_steps (env : type_env) (o : setobj) (ops : list set_op) : option (setobj * list set_answer) :=
  match ops with
  | [] => Some (o, [])
  | op :: ops => '(o, a) ← set_step env o op; '(o, l) ← set_steps env o ops; Some (o, a :: l)
  end.

(** The same operation on a finite set of strings. *)
Definition fset_step (X : gset bytes) (op : set_op) : option (gset bytes * set_answer) :=
  match op with
  | SAdd v => k ← getDecodedObject v; Some ({[k]} ∪ X, SFlag (bool_decide (k ∉ X)))
  | SRemove v => k ← getDecodedObject v; Some (X ∖ {[k]}, SFlag (bool_decide (k ∈ X)))
  | SMember v => k ← getDecodedObject v; Some (X, SFlag (bool_decide (k ∈ X)))
  | SSize => Some (X, SCount (Z.of_nat (base.size X)))
  | SMembers => Some (X, SList X)
  end.

Fixpoint fset_steps (X : gset bytes) (ops : list set_op) : option (gset bytes * list set_answer) :=
  match ops with
  | [] => Some (X, [])
  | op :: ops => '(X, a) ← fset_step X op; '(X, l) ← fset_steps X ops; Some (X, a :: l)
  end.

Definition op_ok (op : set_op) : Prop :=
  match op with SAdd v | SRemove v | SMember v => obj_ok v | _ => True end.

Lemma fset_step_size X op X' a : fset_step X op = Some (X', a) -> (base.size X' <= S (base.size X))%nat.
Proof.
  destruct op as [v|v|v| |]; cbn [fset_step]; try (intros (k & _ & [= <- <-])%bind_Some); try (intros [= <- <-]); try lia.
  - pose proof (size_union_alt {[k]} X) as H. rewrite size_singleton in H.
    pose proof (subseteq_size (X ∖ {[k]}) X ltac:(set_solver)). lia.
  - pose proof (subseteq_size (X ∖ {[k]}) X ltac:(set_solver)). lia.
Qed.

Lemma set_step_ok env o X op X' a : set_repr env o X -> set_room X -> op_ok op -> fset_step X op = Some (X', a) ->
  exists o', set_step env o op = Some (o', a) /\ set_repr env o' X'.
Proof.
  intros Ho Hroom Hop Hs. destruct op as [v|v|v| |]; cbn [fset_step set_step op_ok] in *.
  - apply bind_Some in Hs as (k & Hk & [= <- <-]). destruct (set_add_ok env o X v k Ho Hroom Hop Hk) as (o' & -> & Ho'). eauto.
  - apply bind_Some in Hs as (k & Hk & [= <- <-]). destruct (set_remove_ok env o X v k Ho Hroom Hop Hk) as (o' & -> & Ho'). eauto.
  - apply bind_Some in Hs as (k & Hk & [= <- <-]). destruct (set_member_ok env o X v k Ho Hroom Hop Hk) as (o' & -> & Ho'). eauto.
  - injection Hs as <- <-. rewrite (set_repr_size env o X Ho). eauto.
  - injection Hs as <- <-. destruct (set_members_ok env o X (S (Z.to_nat (setTypeSize o))) Ho Hroom) as (l & ms & -> & Hms & _ & Hp).
    { rewrite (set_repr_size env o X Ho). lia. }
    cbn [mbind option_bind]. unfold listing. assert (mapM getDecodedObject l = Some ms) as ->.
    { apply mapM_Some. apply Forall2_fmap_l with (f := getDecodedObject) (P := fun x y => x = Some y). rewrite Hms.
      clear. induction ms; constructor; done. }
    cbn [mbind option_bind]. rewrite bool_decide_eq_true_2 by (rewrite Hp; apply NoDup_elements).
    assert (list_to_set ms = X) as -> by (rewrite (list_to_set_perm_L _ _ Hp); apply list_to_set_elements_L).
    cbn [mbind option_bind]. eauto.
Qed.

Lemma set_steps_ok env ops : forall o X X' l, set_repr env o X -> Forall op_ok ops ->
  Z.of_nat (base.size X + length ops) < 2 ^ 28 -> fset_steps X ops = Some (X', l) ->
  exists o', set_steps env o ops = Some (o', l) /\ set_repr env o' X'.
Proof.
  induction ops as [|op ops IH]; intros o X X' l Ho Hops Hroom Hs; cbn [fset_steps set_steps length] in *.
  - injection Hs as <- <-. eauto.
  - apply Forall_cons in Hops as [Hop Hops]. apply bind_Some in Hs as ([X1 a] & Hstep & Hs).
    apply bind_Some in Hs as ([X2 l1] & Hs & [= <- <-]).
    destruct (set_step_ok env o X op X1 a Ho) as (o1 & -> & Ho1); [unfold set_room; lia|done|done|]. cbn [mbind option_bind].
    apply fset_step_size in Hstep. destruct (IH o1 X1 X2 l1 Ho1 Hops) as (o' & -> & Ho'); [lia|done|]. eauto.
Qed.

Lemma setTypeCreate_ok env value k : obj_ok value -> getDecodedObject value = Some k ->
  exists o, setTypeCreate value = Some o /\ set_repr env o ∅.
Proof.
  intros Hok Hk. unfold setTypeCreate. destruct (representable_ok value k Hok Hk) as (r & -> & _).
  destruct (create_inv (V := unit) (hash_fun env)) as [Hd Hm]. cbn [mbind option_bind]. eexists. split; [reflexivity|]. destruct r.
  - apply (repr_intset env intsetNew []); [|constructor]. split; [by left|done|done|constructor|constructor].
  - assert (∅ = dom (to_map (dictCreate (K := bytes) (V := unit)))) as -> by by rewrite Hm, dom_empty_L. by constructor.
Qed.

(** C27: a set is a finite set of strings in both encodings: every sequence of
    additions, removals, membership tests, counts and listings on the object that
    [setTypeCreate] makes for its first value gives the answers of the same sequence
    on the empty set; a listing has every member exactly once. *)
Theorem set_session env value k ops X l : obj_ok value -> getDecodedObject value = Some k ->
  Forall op_ok ops -> zlen ops < 2 ^ 28 -> fset_steps ∅ ops = Some (X, l) ->
  exists o o', setTypeCreate value = Some o /\ set_steps env o ops = Some (o', l) /\ set_repr env o' X.
Proof.
  intros Hok Hk Hops Hlen Hs. destruct (setTypeCreate_ok env value k Hok Hk) as (o & Hnew & Ho).
  destruct (set_steps_ok env ops o ∅ X l Ho Hops) as (o' & Hrun & Ho'); [rewrite size_empty; exact Hlen|done|]. eauto.
Qed.

Definition demo_env : type_env := mkEnv 512 64 2 512 64 (fun k => zlen k) true (fun _ => 7).

Definition demo_ops : list set_op :=
  [SAdd (StrInt 70000); SAdd (StrRaw [53]); SAdd (StrInt 5); SMembers; SAdd (StrRaw [97]); SRemove (StrInt 5); SMember (StrRaw [97]); SSize].

Lemma set_session_witness : exists o o', setTypeCreate (StrInt 70000) = Some o /\
  set_steps demo_env o demo_ops = Some (o', [SFlag true; SFlag true; SFlag false; SList {[ [55;48;48;48;48]; [53] ]};
    SFlag true; SFlag true; SFlag true; SCount 2]) /\ set_repr demo_env o' {[ [55;48;48;48;48]; [97] ]}.
Proof.
  apply (set_session demo_env (StrInt 70000) [55;48;48;48;48] demo_ops); [by vm_compute|by vm_compute| |done|by vm_compute].
  repeat constructor; by vm_compute.
Defined.
