(* ===== verification/ListType.v ===== *)
(** * The list type (src/redis-2.8.19/src/t_list.c, adlist.c)

    A list is a ziplist, or, when it has many or long elements, a linked list of
    objects. A node of the linked list is named by its position, a place in the
    ziplist by its offset; the parts of the commands that work on the object follow
    the functions of the list API. *)
From S2P Require Import Prelude Util Object Ziplist HashType.
Open Scope Z_scope.

Inductive listobj := ListZiplist (zl : list Z) | ListLinked (l : list robj).

Inductive list_end := REDIS_HEAD | REDIS_TAIL.

#[global] Instance list_end_eq_dec : EqDecision list_end.
Proof. solve_decision. Defined.

(** [li->zi] or [li->ln], null at the end. *)
Record listTypeIterator := mkLi { li_at : option Z; li_direction : list_end }.

(** ** The linked list (adlist.c) *)

(** A position, if there is a node. *)
Definition node_at {A} (l : list A) (i : Z) : option Z := if (0 <=? i) && (i <? zlen l) then Some i else None.

Definition listIndex {A} (l : list A) (index : Z) : option Z :=
  if index <? 0 then node_at l (zlen l - 1 - (- index - 1)) else node_at l index.

Definition listDelNode {A} (l : list A) (i : Z) : list A := take (Z.to_nat i) l ++ drop (S (Z.to_nat i)) l.

(** Before or after a node. *)
Definition listInsertNode {A} (l : list A) (i : Z) (x : A) (after : bool) : list A :=
  let i := if after then S (Z.to_nat i) else Z.to_nat i in
  take i l ++ x :: drop i l.

Section list_type.
Context (env : type_env).

Definition createListObject : listobj := ListLinked [].
Definition createZiplistObject : option listobj := ListZiplist <$> ziplistNew (fresh env).

Definition listTypeLength (subject : listobj) : option (Z * listobj) :=
  match subject with
  | ListZiplist zl => '(n, zl) ← ziplistLen zl; Some (n, ListZiplist zl)
  | ListLinked l => Some (zlen l, subject)
  end.

(** ** Iterators *)

(** The index becomes an [int] in a call of [ziplistIndex]. *)
Definition listTypeInitIterator (subject : listobj) (index : Z) (direction : list_end) : option listTypeIterator :=
  match subject with
  | ListZiplist zl => p ← ziplistIndex zl (s32 index); Some (mkLi p direction)
  | ListLinked l => Some (mkLi (listIndex l index) direction)
  end.

(** The entry, if there is one, and the iterator. *)
Definition listTypeNext (subject : listobj) (li : listTypeIterator) : option (option Z * listTypeIterator) :=
  match li_at li with
  | None => Some (None, li)
  | Some p =>
      nxt ← match subject, li_direction li with
            | ListZiplist zl, REDIS_TAIL => ziplistNext zl p
            | ListZiplist zl, REDIS_HEAD => ziplistPrev zl p
            | ListLinked l, REDIS_TAIL => Some (node_at l (p + 1))
            | ListLinked l, REDIS_HEAD => Some (node_at l (p - 1))
            end;
      Some (Some p, mkLi nxt (li_direction li))
  end.

Definition listTypeGet (subject : listobj) (entry : Z) : option (option robj) :=
  match subject with
  | ListZiplist zl => v ← ziplistGet zl (Some entry); Some (option_map zl_object v)
  | ListLinked l => o ← rd l entry; Some (Some o)
  end.

Definition listTypeEqual (subject : listobj) (entry : Z) (o : robj) : option bool :=
  match subject with
  | ListZiplist zl =>
      match o with StrRaw s => ziplistCompare zl entry s (zlen s) | _ => None end
  | ListLinked l => x ← rd l entry; equalStringObjects o x
  end.

Definition listTypeInsert (subject : listobj) (entry : Z) (value : robj) (where_ : list_end) : option listobj :=
  match subject with
  | ListZiplist zl =>
      value ← getDecodedObject value;
      match where_ with
      | REDIS_TAIL =>
          next ← ziplistNext zl entry;
          match next with
          | None => ListZiplist <$> ziplistPush (fresh env) zl value (zlen value) ZIPLIST_TAIL
          | Some next => ListZiplist <$> ziplistInsert (fresh env) zl next value (zlen value)
          end
      | REDIS_HEAD => ListZiplist <$> ziplistInsert (fresh env) zl entry value (zlen value)
      end
  | ListLinked l =>
      Some (ListLinked (listInsertNode l entry value (bool_decide (where_ = REDIS_TAIL))))
  end.

(** The list without the entry, and the iterator past it. *)
Definition listTypeDelete (subject : listobj) (li : listTypeIterator) (entry : Z) : option (listobj * listTypeIterator) :=
  match subject with
  | ListZiplist zl =>
      zl ← ziplistDelete (fresh env) zl entry;
      at_ ← match li_direction li with REDIS_TAIL => Some (Some entry) | REDIS_HEAD => ziplistPrev zl entry end;
      Some (ListZiplist zl, mkLi at_ (li_direction li))
  | ListLinked l =>
      let l := listDelNode l entry in
      let at_ := match li_direction li with REDIS_TAIL => node_at l entry | REDIS_HEAD => node_at l (entry - 1) end in
      Some (ListLinked l, mkLi at_ (li_direction li))
  end.

(** ** Conversion *)

Fixpoint list_convert_loop (fuel : nat) (subject : listobj) (li : listTypeIterator) (l : list robj) : option (list robj) :=
  match fuel with
  | O => None
  | S fuel =>
      '(entry, li) ← listTypeNext subject li;
      match entry with
      | None => Some l
      | Some p =>
          o ← listTypeGet subject p;
          o ← o;
          list_convert_loop fuel subject li (l ++ [o])
      end
  end.

(** To [REDIS_ENCODING_LINKEDLIST]; the bytes of a ziplist bound its entries. *)
Definition listTypeConvert (subject : listobj) : option listobj :=
  li ← listTypeInitIterator subject 0 REDIS_TAIL;
  l ← list_convert_loop (S (match subject with ListZiplist zl => length zl | ListLinked l => length l end)) subject li [];
  Some (ListLinked l).

Definition listTypeTryConversion (subject : listobj) (value : robj) : option listobj :=
  match subject, value with
  | ListZiplist _, StrRaw s => if zlen s >? list_max_ziplist_value env then listTypeConvert subject else Some subject
  | _, _ => Some subject
  end.

(** ** The ends *)

Definition listTypePush (subject : listobj) (value : robj) (where_ : list_end) : option listobj :=
  subject ← listTypeTryConversion subject value;
  subject ← match subject with
            | ListZiplist _ =>
                '(n, subject) ← listTypeLength subject;
                if n >=? list_max_ziplist_entries env then listTypeConvert subject else Some subject
            | _ => Some subject
            end;
  match subject with
  | ListZiplist zl =>
      let pos := match where_ with REDIS_HEAD => ZIPLIST_HEAD | REDIS_TAIL => ZIPLIST_TAIL end in
      value ← getDecodedObject value;
      ListZiplist <$> ziplistPush (fresh env) zl value (zlen value) pos
  | ListLinked l => Some (ListLinked (match where_ with REDIS_HEAD => value :: l | REDIS_TAIL => l ++ [value] end))
  end.

Definition listTypePop (subject : listobj) (where_ : list_end) : option (option robj * listobj) :=
  match subject with
  | ListZiplist zl =>
      let pos := match where_ with REDIS_HEAD => 0 | REDIS_TAIL => -1 end in
      p ← ziplistIndex zl pos;
      v ← ziplistGet zl p;
      match p, v with
      | Some p, Some v => zl ← ziplistDelete (fresh env) zl p; Some (Some (zl_object v), ListZiplist zl)
      | _, _ => Some (None, subject)
      end
  | ListLinked l =>
      let ln := match where_ with REDIS_HEAD => node_at l 0 | REDIS_TAIL => node_at l (zlen l - 1) end in
      match ln with
      | None => Some (None, subject)
      | Some i => o ← rd l i; Some (Some o, ListLinked (listDelNode l i))
      end
  end.

(** ** What the commands do to the object *)

(** [lindexCommand]. *)
Definition lindex (o : listobj) (index : Z) : option (option robj) :=
  match o with
  | ListZiplist zl => p ← ziplistIndex zl (s32 index); v ← ziplistGet zl p; Some (option_map zl_object v)
  | ListLinked l => match listIndex l index with None => Some None | Some i => x ← rd l i; Some (Some x) end
  end.

(** [lsetCommand]: the object, converted or not, and whether the index was in range. *)
Definition lset (o : listobj) (index : Z) (value : robj) : option (listobj * bool) :=
  o ← listTypeTryConversion o value;
  match o with
  | ListZiplist zl =>
      p ← ziplistIndex zl (s32 index);
      match p with
      | None => Some (o, false)
      | Some p =>
          zl ← ziplistDelete (fresh env) zl p;
          value ← getDecodedObject value;
          zl ← ziplistInsert (fresh env) zl p value (zlen value);
          Some (ListZiplist zl, true)
      end
  | ListLinked l =>
      match listIndex l index with
      | None => Some (o, false)
      | Some i => Some (ListLinked (<[Z.to_nat i := value]> l), true)
      end
  end.

(** The loops of [lrangeCommand]. *)
Fixpoint range_ziplist (n : nat) (zl : list Z) (p : option Z) : option (list robj) :=
  match n with
  | O => Some []
  | S n =>
      v ← ziplistGet zl p;
      v ← v;
      p' ← p;
      p ← ziplistNext zl p';
      rest ← range_ziplist n zl p;
      Some (zl_object v :: rest)
  end.

Fixpoint range_linked (n : nat) (l : list robj) (ln : option Z) : option (list robj) :=
  match n with
  | O => Some []
  | S n =>
      i ← ln;
      o ← rd l i;
      rest ← range_linked n l (node_at l (i + 1));
      Some (o :: rest)
  end.

(** The range of the arguments of [lrangeCommand] and [ltrimCommand]: start, end. *)
Definition list_range (llen start end_ : Z) : option (Z * Z) :=
  let start := if start <? 0 then llen + start else start in
  let end_ := if end_ <? 0 then llen + end_ else end_ in
  let start := if start <? 0 then 0 else start in
  if (start >? end_) || (start >=? llen) then None
  else Some (start, if end_ >=? llen then llen - 1 else end_).

Definition lrange (o : listobj) (start end_ : Z) : option (list robj * listobj) :=
  '(llen, o) ← listTypeLength o;
  match list_range llen start end_ with
  | None => Some ([], o)
  | Some (start, end_) =>
      let rangelen := Z.to_nat (end_ - start + 1) in
      match o with
      | ListZiplist zl => p ← ziplistIndex zl (s32 start); r ← range_ziplist rangelen zl p; Some (r, o)
      | ListLinked l =>
          let start := if start >? llen / 2 then start - llen else start in
          r ← range_linked rangelen l (listIndex l start);
          Some (r, o)
      end
  end.

(** The loops of [ltrimCommand] that take nodes off the two ends. *)
Fixpoint ltrim_first (n : nat) (l : list robj) : option (list robj) :=
  match n with O => Some l | S n => ln ← node_at l 0; ltrim_first n (listDelNode l ln) end.

Fixpoint ltrim_last (n : nat) (l : list robj) : option (list robj) :=
  match n with O => Some l | S n => ln ← node_at l (zlen l - 1); ltrim_last n (listDelNode l ln) end.

(** [ltrimCommand]: the numbers of elements to remove at both ends, as [unsigned int]. *)
Definition ltrim (o : listobj) (start end_ : Z) : option listobj :=
  '(llen, o) ← listTypeLength o;
  let '(ltrim, rtrim) := match list_range llen start end_ with
                         | None => (llen, 0)
                         | Some (start, end_) => (start, llen - end_ - 1)
                         end in
  match o with
  | ListZiplist zl =>
      zl ← ziplistDeleteRange (fresh env) zl 0 (u32 ltrim);
      zl ← ziplistDeleteRange (fresh env) zl (u32 (- rtrim)) (u32 rtrim);
      Some (ListZiplist zl)
  | ListLinked l => l ← ltrim_first (Z.to_nat ltrim) l; l ← ltrim_last (Z.to_nat rtrim) l; Some (ListLinked l)
  end.

(** The loop of [pushxGenericCommand] with a pivot. *)
Fixpoint insert_seek (fuel : nat) (subject : listobj) (li : listTypeIterator) (refval val : robj) (where_ : list_end)
  : option (listobj * bool) :=
  match fuel with
  | O => None
  | S fuel =>
      '(entry, li) ← listTypeNext subject li;
      match entry with
      | None => Some (subject, false)
      | Some p =>
          eq ← listTypeEqual subject p refval;
          if eq : bool then subject ← listTypeInsert subject p val where_; Some (subject, true)
          else insert_seek fuel subject li refval val where_
      end
  end.

(** An upper bound of the turns of an iteration. *)
Definition list_fuel (o : listobj) : nat := S (match o with ListZiplist zl => length zl | ListLinked l => length l end).

(** LINSERT. *)
Definition linsert (subject : listobj) (refval val : robj) (where_ : list_end) : option (listobj * bool) :=
  subject ← listTypeTryConversion subject val;
  iter ← listTypeInitIterator subject 0 REDIS_TAIL;
  '(subject, inserted) ← insert_seek (list_fuel subject) subject iter refval val where_;
  subject ← match subject with
            | ListZiplist _ =>
                if inserted : bool then
                  '(n, subject) ← listTypeLength subject;
                  if n >? list_max_ziplist_entries env then listTypeConvert subject else Some subject
                else Some subject
            | _ => Some subject
            end;
  Some (subject, inserted).

(** The loop of [lremCommand]. *)
Fixpoint lrem_loop (fuel : nat) (subject : listobj) (li : listTypeIterator) (obj : robj) (toremove removed : Z)
  : option (listobj * Z) :=
  match fuel with
  | O => None
  | S fuel =>
      '(entry, li) ← listTypeNext subject li;
      match entry with
      | None => Some (subject, removed)
      | Some p =>
          eq ← listTypeEqual subject p obj;
          if eq : bool then
            '(subject, li) ← listTypeDelete subject li p;
            let removed := removed + 1 in
            if negb (toremove =? 0) && (removed =? toremove) then Some (subject, removed)
            else lrem_loop fuel subject li obj toremove removed
          else lrem_loop fuel subject li obj toremove removed
      end
  end.

Definition lrem (subject : listobj) (toremove : Z) (obj : robj) : option (listobj * Z) :=
  obj ← match subject with ListZiplist _ => StrRaw <$> getDecodedObject obj | _ => Some obj end;
  '(toremove, li) ← (
    if toremove <? 0 then li ← listTypeInitIterator subject (-1) REDIS_HEAD; Some (s64 (- toremove), li)
    else li ← listTypeInitIterator subject 0 REDIS_TAIL; Some (toremove, li));
  lrem_loop (list_fuel subject) subject li obj toremove 0.
End list_type.
