(* ===== verification/ListTypeSpec.v ===== *)
(** * The list type is a list (src/redis-2.8.19/src/t_list.c)

    Both encodings hold a list of strings; every operation of the API, conversions
    included, and the parts of the commands that work on the object compute the
    operation on the list. *)
From S2P Require Import Prelude Util Sds Object Ziplist ZiplistSpec HashType HashTypeSpec ListType.
Open Scope Z_scope.

(** ** The list of an object *)

Definition strings_of (l : list robj) (L : list bytes) : Prop := Forall2 (fun o s => obj_ok o /\ getDecodedObject o = Some s) l L.

Definition list_repr (o : listobj) (L : list bytes) : Prop :=
  match o with ListZiplist zl => ziplist_ok zl L | ListLinked l => strings_of l L end.

(** Room for one more string. *)
Definition list_room (L : list bytes) (s : bytes) : Prop := 2 * weight L + zlen s + 200 < 2 ^ 31.

(** The strings [L1] stand before a pointer, [L2] from it on. *)
Definition at_place (o : listobj) (L1 L2 : list bytes) (p : Z) : Prop :=
  match o with ListZiplist zl => place zl L1 L2 p | ListLinked l => strings_of l (L1 ++ L2) /\ p = zlen L1 end.

(** An iterator that goes to the tail has [L2] before it; one that goes to the head, [L1]. *)
Definition cursor (o : listobj) (L1 L2 : list bytes) (c : option Z) : Prop :=
  match L2 with [] => c = None | _ => exists p, c = Some p /\ at_place o L1 L2 p end.

Definition back_cursor (o : listobj) (L1 L2 : list bytes) (c : option Z) : Prop :=
  match last L1 with None => c = None | Some x => exists p, c = Some p /\ at_place o (removelast L1) (x :: L2) p end.

Lemma strings_length l L : strings_of l L -> zlen l = zlen L.
Proof. intros H%Forall2_length. unfold zlen. by rewrite H. Qed.

Lemma strings_rd l L1 x L2 : strings_of l (L1 ++ x :: L2) ->
  exists o, rd l (zlen L1) = Some o /\ obj_ok o /\ getDecodedObject o = Some x.
Proof.
  intros (l1 & l2 & H1 & H2 & ->)%Forall2_app_inv_r. apply Forall2_cons_inv_r in H2 as (o & l3 & Ho & H2 & ->).
  exists o. apply strings_length in H1. by rewrite <- H1, rd_at.
Qed.

Lemma at_place_repr o L1 L2 p : at_place o L1 L2 p -> list_repr o (L1 ++ L2).
Proof. destruct o; [apply place_ziplist_ok|by intros []]. Qed.

Lemma node_at_in {A} (l : list A) i : 0 <= i < zlen l -> node_at l i = Some i.
Proof. intros. unfold node_at. destruct (Z.leb_spec 0 i), (Z.ltb_spec i (zlen l)); done || lia. Qed.

Lemma node_at_out {A} (l : list A) i : i < 0 \/ zlen l <= i -> node_at l i = None.
Proof. intros. unfold node_at. destruct (Z.leb_spec 0 i), (Z.ltb_spec i (zlen l)); done || lia. Qed.

(** The node after the strings [L1]. *)
Lemma node_cursor l L1 L2 : strings_of l (L1 ++ L2) -> cursor (ListLinked l) L1 L2 (node_at l (zlen L1)).
Proof.
  intros H. pose proof (strings_length _ _ H) as Hz. rewrite zlen_app in Hz. pose proof (zlen_nonneg L1).
  unfold cursor. destruct L2 as [|x L2]; [apply node_at_out; rewrite zlen_nil in Hz; lia|].
  rewrite zlen_cons in Hz. pose proof (zlen_nonneg L2). exists (zlen L1). split; [apply node_at_in; lia|by split].
Qed.

Lemma node_back_cursor l L1 L2 : strings_of l (L1 ++ L2) -> back_cursor (ListLinked l) L1 L2 (node_at l (zlen L1 - 1)).
Proof.
  intros H. pose proof (strings_length _ _ H) as Hz. rewrite zlen_app in Hz. unfold back_cursor. pose proof (zlen_nonneg L2).
  destruct L1 as [|x L1 _] using rev_ind; [apply node_at_out; left; done|]. rewrite last_snoc, removelast_last.
  rewrite zlen_app in *. change (zlen [x]) with 1 in *. pose proof (zlen_nonneg L1).
  exists (zlen L1). split; [rewrite node_at_in by lia; f_equal; lia|]. split; [by rewrite <- app_assoc in H|done].
Qed.

(** ** Iterators *)

Lemma init_tail o L : list_repr o L -> exists c, listTypeInitIterator o 0 REDIS_TAIL = Some (mkLi c REDIS_TAIL) /\ cursor o [] L c.
Proof.
  destruct o as [zl|l]; intros H; cbn [listTypeInitIterator].
  - change (s32 0) with 0. destruct (ziplistIndex_ok zl L 0 H) as (r & -> & Hr). change (0 <? 0) with false in Hr. cbv iota in Hr. cbn [mbind option_bind].
    eexists. split; [reflexivity|]. unfold cursor. destruct r as [p|].
    + destruct Hr as [Hr Hp]. destruct L; [exfalso; unfold zlen in Hr; cbn in Hr; lia|]. by exists p.
    + destruct L; [done|]. rewrite zlen_cons in Hr. pose proof (zlen_nonneg L). lia.
  - eexists. split; [reflexivity|]. by apply (node_cursor l [] L).
Qed.

Lemma place_last zl L p j : 0 <= j < zlen L -> j = zlen L - 1 -> place zl (take (Z.to_nat j) L) (drop (Z.to_nat j) L) p ->
  exists x, last L = Some x /\ place zl (removelast L) [x] p.
Proof.
  intros Hj -> Hp. destruct L as [|x L _] using rev_ind; [exfalso; unfold zlen in Hj; cbn in Hj; lia|]. exists x. rewrite last_snoc, removelast_last.
  rewrite zlen_app in Hp. change (zlen [x]) with 1 in Hp. replace (Z.to_nat (zlen L + 1 - 1)) with (length L) in Hp by (unfold zlen; lia).
  by rewrite take_app_length, drop_app_length in Hp.
Qed.

Lemma init_head o L : list_repr o L -> exists c, listTypeInitIterator o (-1) REDIS_HEAD = Some (mkLi c REDIS_HEAD) /\ back_cursor o L [] c.
Proof.
  destruct o as [zl|l]; intros H; cbn [listTypeInitIterator].
  - change (s32 (-1)) with (-1). destruct (ziplistIndex_ok zl L (-1) H) as (r & -> & Hr). change (-1 <? 0) with true in Hr. cbv iota in Hr.
    cbn [mbind option_bind]. eexists. split; [reflexivity|]. unfold back_cursor. destruct r as [p|].
    + destruct Hr as [Hr Hp]. destruct (place_last zl L p _ Hr ltac:(lia) Hp) as (x & -> & Hx). eauto.
    + destruct L as [|x L _] using rev_ind; [done|]. rewrite zlen_app in Hr. change (zlen [x]) with 1 in Hr. pose proof (zlen_nonneg L). lia.
  - eexists. split; [reflexivity|]. unfold listIndex. change (-1 <? 0) with true. cbv iota. change (- -1 - 1) with 0. rewrite Z.sub_0_r.
    rewrite (strings_length _ _ H). apply (node_back_cursor l L []). by rewrite app_nil_r.
Qed.

Lemma next_tail o L1 L2 c : list_repr o (L1 ++ L2) -> cursor o L1 L2 c ->
  match L2 with
  | [] => listTypeNext o (mkLi c REDIS_TAIL) = Some (None, mkLi c REDIS_TAIL)
  | x :: L2' => exists p c', listTypeNext o (mkLi c REDIS_TAIL) = Some (Some p, mkLi c' REDIS_TAIL) /\
      at_place o L1 L2 p /\ cursor o (L1 ++ [x]) L2' c'
  end.
Proof.
  intros Ho Hc. destruct L2 as [|x L2]; cbn [cursor] in Hc; [by subst c|]. destruct Hc as (p & -> & Hp).
  exists p. unfold listTypeNext. cbn [li_at li_direction]. destruct o as [zl|l]; cbn [at_place] in Hp.
  - destruct (ziplist_walk zl L1 x L2 p Hp) as [(r & -> & Hr) _]. cbn [mbind option_bind]. exists r. split; [done|]. split; [done|].
    unfold cursor. by destruct L2.
  - destruct Hp as [Hs ->]. cbn [mbind option_bind]. eexists. split; [reflexivity|]. split; [by split|].
    replace (zlen L1 + 1) with (zlen (L1 ++ [x])) by (rewrite zlen_app; done). apply node_cursor. by rewrite <- app_assoc.
Qed.

Lemma next_head o L1 L2 c : back_cursor o L1 L2 c ->
  match last L1 with
  | None => listTypeNext o (mkLi c REDIS_HEAD) = Some (None, mkLi c REDIS_HEAD)
  | Some x => exists p c', listTypeNext o (mkLi c REDIS_HEAD) = Some (Some p, mkLi c' REDIS_HEAD) /\
      at_place o (removelast L1) (x :: L2) p /\ back_cursor o (removelast L1) (x :: L2) c'
  end.
Proof.
  intros Hc. unfold back_cursor in Hc. destruct (last L1) as [x|]; [|by subst c]. destruct Hc as (p & -> & Hp).
  exists p. unfold listTypeNext. cbn [li_at li_direction]. destruct o as [zl|l]; cbn [at_place] in Hp.
  - destruct (ziplist_walk zl _ x L2 p Hp) as [_ (r & -> & Hr)]. cbn [mbind option_bind]. exists r. split; [done|]. split; [done|].
    unfold back_cursor. by destruct (last (removelast L1)).
  - destruct Hp as [Hs ->]. cbn [mbind option_bind]. eexists. split; [reflexivity|]. split; [by split|]. by apply node_back_cursor.
Qed.

Lemma get_at o L1 x L2 p : at_place o L1 (x :: L2) p ->
  exists ob, listTypeGet o p = Some (Some ob) /\ getDecodedObject ob = Some x /\ obj_ok ob.
Proof.
  destruct o as [zl|l]; cbn [at_place listTypeGet].
  - intros Hp. destruct (ziplistGet_ok zl L1 (x :: L2) p Hp) as (r & -> & v & -> & Hv). cbn [mbind option_bind option_map].
    exists (zl_object v). split; [done|]. split; [by apply zl_object_ok|]. destruct v as [t|n]; [done|]. by destruct Hv.
  - intros [Hs ->]. destruct (strings_rd l L1 x L2 Hs) as (ob & -> & Hok & Hd). cbn [mbind option_bind]. eauto.
Qed.

(** ** Comparison *)

Lemma compare_ok a b x y : zlen x < 2 ^ 31 -> zlen y < 2 ^ 31 -> getDecodedObject a = Some x -> getDecodedObject b = Some y ->
  exists c, compareStringObjects a b = Some c /\ (c = 0 <-> x = y).
Proof.
  intros Hx Hy Ha Hb. unfold compareStringObjects. rewrite Ha, Hb. cbn [mbind option_bind]. eexists. split; [reflexivity|].
  pose proof (zlen_nonneg x). pose proof (zlen_nonneg y). rewrite swrap_small by (unfold sfits; lia).
  set (m := if zlen x <? zlen y then zlen x else zlen y).
  assert (length (take (Z.to_nat m) x) = length (take (Z.to_nat m) y)) as Hl.
  { rewrite !length_take. unfold m, zlen in *. destruct (Z.ltb_spec (Z.of_nat (length x)) (Z.of_nat (length y))); lia. }
  pose proof (memcmp_zero _ _ Hl) as Hm. destruct (Z.eqb_spec (memcmp (take (Z.to_nat m) x) (take (Z.to_nat m) y)) 0) as [Hc|Hc].
  - apply Hm in Hc. split; [|intros ->; lia]. intros Hz. assert (zlen x = zlen y) as Hxy by lia.
    unfold m in Hc. rewrite Hxy, Z.ltb_irrefl in Hc. unfold zlen in *.
    rewrite Nat2Z.id, !firstn_all2 in Hc by lia. done.
  - split; [done|]. intros ->. exfalso. by apply Hc, Hm.
Qed.

Lemma eqb_decide (x y : Z) : (x =? y) = bool_decide (x = y).
Proof. destruct (Z.eqb_spec x y); symmetry; [by apply bool_decide_eq_true_2|by apply bool_decide_eq_false_2]. Qed.

Lemma equal_ok a b x y : zlen x < 2 ^ 31 -> zlen y < 2 ^ 31 -> obj_ok a -> obj_ok b ->
  getDecodedObject a = Some x -> getDecodedObject b = Some y -> equalStringObjects a b = Some (bool_decide (x = y)).
Proof.
  intros Hx Hy Hoa Hob Ha Hb. destruct (compare_ok a b x y Hx Hy Ha Hb) as (c & Hc & Hiff).
  assert ((c' ← compareStringObjects a b; Some (c' =? 0)) = Some (bool_decide (x = y))) as Hgen.
  { rewrite Hc. cbn [mbind option_bind]. f_equal. rewrite eqb_decide. by apply bool_decide_ext. }
  destruct a as [v|s| | | |], b as [w|t| | | |]; try done. cbn [equalStringObjects getDecodedObject obj_ok] in *.
  destruct (dec_spec v Hoa) as (Hv & _). destruct (dec_spec w Hob) as (Hw & _).
  assert (x = dec v) as -> by congruence. assert (y = dec w) as -> by congruence. f_equal. rewrite eqb_decide.
  apply bool_decide_ext. split; [by intros ->|by apply dec_inj].
Qed.

(** What an element can be compared to: [listTypeEqual] on a ziplist asserts a raw string. *)
Definition comparable (o : listobj) (ob : robj) (t : bytes) : Prop :=
  match o with ListZiplist _ => ob = StrRaw t | ListLinked _ => obj_ok ob /\ getDecodedObject ob = Some t end.

Lemma equal_at o L1 x L2 p ob t : at_place o L1 (x :: L2) p -> zlen x < 2 ^ 31 -> zlen t < 2 ^ 31 -> comparable o ob t ->
  listTypeEqual o p ob = Some (bool_decide (x = t)).
Proof.
  destruct o as [zl|l]; cbn [at_place listTypeEqual comparable].
  - intros Hp _ _ ->. by eapply ziplistCompare_ok.
  - intros [Hs ->] Hx Ht [Hob Hd]. destruct (strings_rd l L1 x L2 Hs) as (y & -> & Hy & Hyd). cbn [mbind option_bind].
    rewrite (equal_ok ob y t x) by done. f_equal. by apply bool_decide_ext.
Qed.

(** ** Conversion *)

Section ops.
Context (env : type_env).

Lemma ziplist_places zl L : ziplist_ok zl L -> list_room L [] -> zlen zl + 4 * zlen L + 100 < 2 ^ 31.
Proof.
  intros Hzl Hr. unfold list_room in Hr. change (zlen (@nil Z)) with 0 in Hr.
  pose proof (ziplist_ok_weight _ _ Hzl). pose proof (weight_zlen L). pose proof (zlen_nonneg L). lia.
Qed.

Lemma list_room_weaken L s : list_room L s -> list_room L [].
Proof. unfold list_room. change (zlen (@nil Z)) with 0. pose proof (zlen_nonneg s). lia. Qed.

Lemma list_room_incl L1 L2 x s : list_room (L1 ++ x :: L2) s -> list_room (L1 ++ L2) s.
Proof. unfold list_room. rewrite !weight_app, weight_cons. pose proof (zlen_nonneg x). lia. Qed.

Lemma list_room_elem L1 x L2 s : list_room (L1 ++ x :: L2) s -> zlen x < 2 ^ 31.
Proof.
  unfold list_room. rewrite weight_app, weight_cons. pose proof (weight_zlen L1). pose proof (weight_zlen L2).
  pose proof (zlen_nonneg L1). pose proof (zlen_nonneg L2). pose proof (zlen_nonneg s). lia.
Qed.

Lemma list_convert_loop_ok fuel : forall o L1 L2 c acc, list_repr o (L1 ++ L2) -> cursor o L1 L2 c -> strings_of acc L1 ->
  (length L2 < fuel)%nat -> exists l, list_convert_loop fuel o (mkLi c REDIS_TAIL) acc = Some l /\ strings_of l (L1 ++ L2).
Proof.
  induction fuel as [|fuel IH]; intros o L1 L2 c acc Ho Hc Hacc Hf; [lia|]. cbn [list_convert_loop].
  pose proof (next_tail o L1 L2 c Ho Hc) as Hn. destruct L2 as [|x L2].
  - rewrite Hn. cbn [mbind option_bind]. exists acc. by rewrite app_nil_r.
  - destruct Hn as (p & c' & -> & Hp & Hc'). cbn [mbind option_bind].
    destruct (get_at o L1 x L2 p Hp) as (ob & -> & Hd & Hob). cbn [mbind option_bind].
    rewrite (cons_middle x L1 L2), app_assoc in Ho |- *. apply IH; try done; [|cbn [length] in Hf; lia].
    apply Forall2_app; [done|]. by constructor.
Qed.

Lemma repr_fuel o L : list_repr o L -> (length L < list_fuel o)%nat.
Proof.
  unfold list_fuel. destruct o as [zl|l]; cbn [list_repr].
  - intros [Hf _]%ziplist_fuel. lia.
  - intros H%Forall2_length. lia.
Qed.

Lemma list_convert_ok o L : list_repr o L -> exists l, listTypeConvert o = Some (ListLinked l) /\ strings_of l L.
Proof.
  intros Ho. unfold listTypeConvert. destruct (init_tail o L Ho) as (c & -> & Hc). cbn [mbind option_bind].
  destruct (list_convert_loop_ok (list_fuel o) o [] L c [] Ho Hc) as (l & Hrun & Hl); [constructor|by apply repr_fuel|].
  unfold list_fuel in Hrun. rewrite Hrun. cbn [mbind option_bind]. eauto.
Qed.

Lemma list_try_ok o L v : list_repr o L -> exists o', listTypeTryConversion env o v = Some o' /\ list_repr o' L.
Proof.
  intros Ho. destruct o as [zl|l]; [|by exists (ListLinked l)]. cbn [listTypeTryConversion].
  destruct v as [n|s| | | |]; try by exists (ListZiplist zl). destruct (_ >? _); [|by exists (ListZiplist zl)].
  destruct (list_convert_ok _ L Ho) as (l & -> & Hl). by exists (ListLinked l).
Qed.

Lemma list_length_ok o L : list_repr o L -> exists o', listTypeLength o = Some (zlen L, o') /\ list_repr o' L.
Proof.
  destruct o as [zl|l]; cbn [list_repr listTypeLength]; intros Ho.
  - destruct (ziplistLen_ok zl L Ho) as (zl' & -> & Hzl'). by exists (ListZiplist zl').
  - exists (ListLinked l). split; [|exact Ho]. by rewrite (strings_length _ _ Ho).
Qed.

(** A ziplist may be converted when it has too many entries. *)
Lemma list_limit_ok o L b :
  list_repr o L ->
  exists o', match o with
             | ListZiplist _ => '(n, o) ← listTypeLength o; if (b n : bool) then listTypeConvert o else Some o
             | _ => Some o
             end = Some o' /\ list_repr o' L.
Proof.
  intros Ho. destruct o as [zl|l]; [|by exists (ListLinked l)]. destruct (list_length_ok _ L Ho) as (o' & -> & Ho'). cbn [mbind option_bind].
  destruct (b (zlen L)); [|by exists o']. destruct (list_convert_ok o' L Ho') as (l & -> & Hl). by exists (ListLinked l).
Qed.

(** ** The ends *)

Definition l_push (L : list bytes) (v : bytes) (w : list_end) : list bytes :=
  match w with REDIS_HEAD => v :: L | REDIS_TAIL => L ++ [v] end.

Lemma list_push_ok o L vo v w : list_repr o L -> list_room L v -> obj_ok vo -> getDecodedObject vo = Some v ->
  exists o', listTypePush env o vo w = Some o' /\ list_repr o' (l_push L v w).
Proof.
  intros Ho Hroom Hvo Hv. unfold listTypePush. destruct (list_try_ok o L vo Ho) as (o1 & -> & Ho1). cbn [mbind option_bind].
  destruct (list_limit_ok o1 L (fun n => n >=? list_max_ziplist_entries env) Ho1) as (o2 & -> & Ho2). cbn [mbind option_bind].
  destruct o2 as [zl|l]; cbn [list_repr] in Ho2.
  - rewrite Hv. cbn [mbind option_bind]. pose proof (ziplist_places zl L Ho2 (list_room_weaken _ _ Hroom)).
    pose proof (ziplist_ok_weight _ _ Ho2). pose proof (weight_zlen L). pose proof (zlen_nonneg L). unfold list_room in Hroom.
    destruct (ziplistPush_ok (fresh env) zl L v (match w with REDIS_HEAD => ZIPLIST_HEAD | REDIS_TAIL => ZIPLIST_TAIL end) Ho2) as (zl' & -> & Hzl'); [lia|].
    eexists. split; [reflexivity|]. by destruct w.
  - eexists. split; [reflexivity|]. destruct w; cbn [list_repr l_push]; [by constructor|]. apply Forall2_app; [done|]. by constructor.
Qed.

Definition l_pop (L : list bytes) (w : list_end) : option bytes * list bytes :=
  match w with REDIS_HEAD => (head L, tail L) | REDIS_TAIL => (last L, removelast L) end.

Lemma strings_del l L1 x L2 : strings_of l (L1 ++ x :: L2) -> strings_of (listDelNode l (zlen L1)) (L1 ++ L2).
Proof.
  intros (l1 & l2 & H1 & H2 & ->)%Forall2_app_inv_r. apply Forall2_cons_inv_r in H2 as (o & l3 & Ho & H2 & ->).
  apply Forall2_length in H1 as Hl. unfold listDelNode, zlen. rewrite Nat2Z.id, <- Hl, take_app_length.
  rewrite (cons_middle o l1 l3), app_assoc, drop_app_length' by (rewrite length_app; cbn; lia). by apply Forall2_app.
Qed.

Lemma del_at o L1 x L2 p : at_place o L1 (x :: L2) p -> list_room (L1 ++ x :: L2) [] ->
  match o with
  | ListZiplist zl => exists zl', ziplistDelete (fresh env) zl p = Some zl' /\ place zl' L1 L2 p
  | ListLinked l => strings_of (listDelNode l p) (L1 ++ L2) /\ p = zlen L1
  end.
Proof.
  destruct o as [zl|l]; cbn [at_place].
  - intros Hp Hroom. apply ziplistDelete_ok with (1 := Hp). apply place_ziplist_ok in Hp.
    pose proof (ziplist_places zl _ Hp Hroom). lia.
  - intros [Hs ->] _. split; [by eapply strings_del|done].
Qed.

Lemma list_pop_ok o L w : list_repr o L -> list_room L [] ->
  exists r o', listTypePop env o w = Some (r, o') /\ list_repr o' (snd (l_pop L w)) /\
    match fst (l_pop L w) with None => r = None | Some x => exists ob, r = Some ob /\ obj_ok ob /\ getDecodedObject ob = Some x end.
Proof.
  intros Ho Hroom. assert (L = [] \/ exists L1 x L2, L = L1 ++ x :: L2 /\ l_pop L w = (Some x, L1 ++ L2) /\
    (zlen L1 = (match w with REDIS_HEAD => 0 | REDIS_TAIL => zlen L - 1 end))) as [->|(L1 & x & L2 & -> & Hpop & Hat)].
  { destruct w.
    - destruct L as [|x L]; [by left|right; by exists [], x, L].
    - destruct L as [|x L _] using rev_ind; [by left|right]. exists L, x, []. cbn [l_pop].
      rewrite last_snoc, removelast_last, app_nil_r, zlen_app. change (zlen [x]) with 1. split_and!; [done..|lia]. }
  - exists None, o. split; [|by destruct w]. destruct o as [zl|l]; cbn [list_repr listTypePop] in *.
    + destruct (ziplistIndex_ok zl [] (match w with REDIS_HEAD => 0 | REDIS_TAIL => -1 end) Ho) as (r & -> & Hr). cbn [mbind option_bind].
      destruct r as [p|]; [exfalso; unfold zlen in Hr; destruct w; cbn in Hr; lia|]. done.
    + inversion Ho; subst l. by destruct w.
  - rewrite Hpop. cbn [fst snd]. destruct o as [zl|l]; cbn [list_repr listTypePop] in *.
    + destruct (ziplistIndex_ok zl _ (match w with REDIS_HEAD => 0 | REDIS_TAIL => -1 end) Ho) as (r & -> & Hr). cbn [mbind option_bind].
      set (j := if _ <? 0 then _ else _) in Hr. pose proof (zlen_nonneg L1). pose proof (zlen_nonneg L2).
      assert (zlen (L1 ++ x :: L2) = zlen L1 + (1 + zlen L2)) as Hz by by rewrite zlen_app, zlen_cons.
      assert (j = zlen L1) as Hj by (unfold j; destruct w; [change (0 <? 0) with false|change (-1 <? 0) with true]; cbv iota; lia).
      rewrite Hj in Hr. clear j Hj. destruct r as [p|]; [|lia]. destruct Hr as [_ Hp]. unfold zlen in Hp.
      rewrite Nat2Z.id, take_app_length, drop_app_length in Hp.
      destruct (ziplistGet_ok zl L1 (x :: L2) p Hp) as (r & -> & v & -> & Hv). cbn [mbind option_bind].
      destruct (del_at (ListZiplist zl) L1 x L2 p Hp Hroom) as (zl' & -> & Hp'). cbn [mbind option_bind].
      eexists _, _. split; [reflexivity|]. split; [by apply place_ziplist_ok with (1 := Hp')|]. exists (zl_object v).
      split; [done|]. split; [destruct v; [done|by destruct Hv]|by apply zl_object_ok].
    + assert ((match w with REDIS_HEAD => node_at l 0 | REDIS_TAIL => node_at l (zlen l - 1) end) = Some (zlen L1)) as ->.
      { rewrite (strings_length _ _ Ho). rewrite zlen_app, zlen_cons in *. pose proof (zlen_nonneg L1). pose proof (zlen_nonneg L2).
        pose proof (strings_length _ _ Ho) as Hz. rewrite zlen_app, zlen_cons in Hz. destruct w; rewrite node_at_in by lia; f_equal; lia. }
      destruct (strings_rd l L1 x L2 Ho) as (ob & -> & Hok & Hd). cbn [mbind option_bind].
      eexists _, _. split; [reflexivity|]. split; [by eapply strings_del|]. eauto.
Qed.
End ops.

(** ** Positions *)

(** The element an index names, from the head or from the tail. *)
Definition l_at (L : list bytes) (i : Z) : option nat :=
  let j := if i <? 0 then zlen L + i else i in
  if (0 <=? j) && (j <? zlen L) then Some (Z.to_nat j) else None.

Lemma l_at_split L i k : l_at L i = Some k -> exists x : bytes, L = take k L ++ x :: drop (S k) L /\ length (take k L) = k /\ L !! k = Some x.
Proof.
  unfold l_at. set (j := if i <? 0 then _ else _). destruct (Z.leb_spec 0 j); [|done]. destruct (Z.ltb_spec j (zlen L)); [|done].
  intros [= <-]. destruct (lookup_lt_is_Some_2 L (Z.to_nat j)) as [x Hx]; [unfold zlen in *; lia|].
  exists x. split; [symmetry; by apply take_drop_middle|]. split; [rewrite length_take; unfold zlen in *; lia|done].
Qed.

Lemma l_at_past L i : 0 <= i -> zlen L <= i -> l_at L i = None.
Proof. intros Hi HL. unfold l_at. destruct (Z.ltb_spec i 0), (Z.ltb_spec i (zlen L)); try lia. by rewrite andb_false_r. Qed.

Lemma ziplist_at zl L i : ziplist_ok zl L -> sfits 32 i ->
  exists r, ziplistIndex zl (s32 i) = Some r /\
    match l_at L i with None => r = None | Some k => exists p, r = Some p /\ place zl (take k L) (drop k L) p end.
Proof.
  intros Hzl Hi. rewrite swrap_small by done. destruct (ziplistIndex_ok zl L i Hzl) as (r & -> & Hr). exists r. split; [done|].
  unfold l_at. set (j := if i <? 0 then _ else _) in *. clearbody j. destruct r as [p|].
  - destruct Hr as [Hj Hp]. destruct (Z.leb_spec 0 j), (Z.ltb_spec j (zlen L)); try lia. cbn [andb]. eauto.
  - destruct (Z.leb_spec 0 j), (Z.ltb_spec j (zlen L)); try lia; done.
Qed.

Lemma linked_at l L i : strings_of l L -> listIndex l i = option_map Z.of_nat (l_at L i).
Proof.
  intros H%strings_length. unfold listIndex, l_at, node_at. rewrite H.
  destruct (Z.ltb_spec i 0); [replace (zlen L - 1 - (- i - 1)) with (zlen L + i) by lia|].
  - destruct (Z.leb_spec 0 (zlen L + i)), (Z.ltb_spec (zlen L + i) (zlen L)); cbn; try done. f_equal. lia.
  - destruct (Z.leb_spec 0 i), (Z.ltb_spec i (zlen L)); cbn; try done. f_equal. lia.
Qed.

Section positions.
Context (env : type_env).

Lemma lindex_ok o L i : list_repr o L -> sfits 32 i ->
  exists r, lindex o i = Some r /\ (r ≫= getDecodedObject) = (l_at L i ≫= (L !!.)) /\ (r = None <-> l_at L i = None).
Proof.
  intros Ho Hi. destruct o as [zl|l]; cbn [list_repr lindex] in *.
  - destruct (ziplist_at zl L i Ho Hi) as (r & -> & Hr). cbn [mbind option_bind].
    destruct (l_at L i) as [k|] eqn:Hk; [|subst r; by exists None]. destruct Hr as (p & -> & Hp).
    destruct (l_at_split L i k Hk) as (x & _ & _ & Hx). rewrite (drop_S _ _ _ Hx) in Hp.
    destruct (ziplistGet_ok zl _ _ p Hp) as (r & -> & v & -> & Hv). cbn [mbind option_bind option_map].
    eexists. split; [reflexivity|]. cbn. rewrite (zl_object_ok x v Hv). by rewrite Hx.
  - rewrite (linked_at l L i Ho). destruct (l_at L i) as [k|] eqn:Hk; cbn [option_map]; [|by exists None].
    destruct (l_at_split L i k Hk) as (x & Hl & Hz & Hx). rewrite Hl in Ho. destruct (strings_rd l _ x _ Ho) as (ob & Hrd & _ & Hd).
    assert (zlen (take k L) = Z.of_nat k) as Hzk by (unfold zlen; by rewrite Hz). rewrite Hzk in Hrd. rewrite Hrd. cbn [mbind option_bind].
    eexists. split; [reflexivity|]. cbn. by rewrite Hd, Hx.
Qed.

Lemma lset_ok o L i vo v : list_repr o L -> list_room L v -> sfits 32 i -> obj_ok vo -> getDecodedObject vo = Some v ->
  exists o', lset env o i vo = Some (o', bool_decide (is_Some (l_at L i))) /\
    list_repr o' (match l_at L i with Some k => <[k := v]> L | None => L end).
Proof.
  intros Ho Hroom Hi Hvo Hv. unfold lset. destruct (list_try_ok env o L vo Ho) as (o1 & -> & Ho1). cbn [mbind option_bind].
  destruct o1 as [zl|l]; cbn [list_repr] in Ho1.
  - destruct (ziplist_at zl L i Ho1 Hi) as (r & -> & Hr). cbn [mbind option_bind].
    destruct (l_at L i) as [k|] eqn:Hk; [|subst r; by exists (ListZiplist zl)]. destruct Hr as (p & -> & Hp).
    destruct (l_at_split L i k Hk) as (x & Hl & Hz & Hx). rewrite (drop_S _ _ _ Hx) in Hp.
    pose proof (ziplist_places zl L Ho1 (list_room_weaken _ _ Hroom)) as Hb.
    pose proof (ziplist_ok_weight _ _ Ho1) as Hw. pose proof (weight_zlen L). pose proof (zlen_nonneg L). unfold list_room in Hroom.
    destruct (ziplistDelete_then (fresh env) zl _ x _ p Hp) as (zl1 & -> & Hp1 & Hins); [rewrite <- Hl; lia|]. cbn [mbind option_bind].
    rewrite Hv. cbn [mbind option_bind].
    assert (zlen (take k L ++ drop (S k) L) <= zlen L /\ weight (take k L ++ drop (S k) L) <= weight L) as [Hz1 Hw1].
    { rewrite Hl at 3 6. rewrite !weight_app, weight_cons, !zlen_app, zlen_cons. pose proof (zlen_nonneg x). lia. }
    pose proof (ziplist_ok_weight _ _ (place_ziplist_ok _ _ _ _ Hp1)).
    destruct (Hins v) as (zl2 & -> & Hp2); [lia|]. eexists. split; [reflexivity|]. cbn [list_repr].
    rewrite insert_take_drop by by apply lookup_lt_is_Some_1. by apply place_ziplist_ok with (1 := Hp2).
  - rewrite (linked_at l L i Ho1). destruct (l_at L i) as [k|] eqn:Hk; cbn [option_map]; [|by exists (ListLinked l)].
    eexists. split; [reflexivity|]. rewrite Nat2Z.id. cbn [list_repr]. by apply Forall2_insert.
Qed.

(** ** Ranges *)

Definition l_range (L : list bytes) (start end_ : Z) : list bytes :=
  match list_range (zlen L) start end_ with
  | None => []
  | Some (s, e) => take (Z.to_nat (e - s + 1)) (drop (Z.to_nat s) L)
  end.

Lemma list_range_bounds n start end_ s e : list_range n start end_ = Some (s, e) -> 0 <= s <= e /\ e < n.
Proof.
  unfold list_range. set (a := if start <? 0 then _ else _). set (b := if end_ <? 0 then _ else _).
  set (a' := if a <? 0 then 0 else a). assert (0 <= a') by (unfold a'; destruct (Z.ltb_spec a 0); lia). clearbody a' b.
  destruct (Z.gtb_spec a' b), (Z.geb_spec a' n); try done. cbn [orb]. intros [= <- <-]. destruct (Z.geb_spec b n); lia.
Qed.

Lemma range_ziplist_ok n : forall zl L1 L2 c, ziplist_ok zl (L1 ++ L2) -> cursor (ListZiplist zl) L1 L2 c -> (n <= length L2)%nat ->
  exists r, range_ziplist n zl c = Some r /\ strings_of r (take n L2).
Proof.
  induction n as [|n IH]; intros zl L1 L2 c Hzl Hc Hn; cbn [range_ziplist].
  - eexists. split; [reflexivity|]. constructor.
  - destruct L2 as [|x L2]; cbn [length] in Hn; [lia|]. destruct Hc as (p & -> & Hp). cbn [at_place] in Hp.
    destruct (ziplistGet_ok zl L1 _ p Hp) as (r & -> & v & -> & Hv). cbn [mbind option_bind].
    destruct (ziplist_walk zl L1 x L2 p Hp) as [(q & -> & Hq) _]. cbn [mbind option_bind].
    rewrite (cons_middle x L1 L2), app_assoc in Hzl.
    destruct (IH zl (L1 ++ [x]) L2 q Hzl) as (r & -> & Hr); [by destruct L2|lia|]. cbn [mbind option_bind].
    eexists. split; [reflexivity|]. constructor; [|done]. split; [destruct v; [done|by destruct Hv]|by apply zl_object_ok].
Qed.

Lemma range_linked_ok n : forall l L1 L2, strings_of l (L1 ++ L2) -> (n <= length L2)%nat ->
  exists r, range_linked n l (node_at l (zlen L1)) = Some r /\ strings_of r (take n L2).
Proof.
  induction n as [|n IH]; intros l L1 L2 Hs Hn; cbn [range_linked].
  - eexists. split; [reflexivity|]. constructor.
  - destruct L2 as [|x L2]; cbn [length] in Hn; [lia|].
    destruct (node_cursor l L1 (x :: L2) Hs) as (p & -> & _ & ->). cbn [mbind option_bind].
    destruct (strings_rd l L1 x L2 Hs) as (ob & -> & Hok & Hd). cbn [mbind option_bind].
    rewrite (cons_middle x L1 L2), app_assoc in Hs. replace (zlen L1 + 1) with (zlen (L1 ++ [x])) by (rewrite zlen_app; done).
    destruct (IH l (L1 ++ [x]) L2 Hs ltac:(lia)) as (r & -> & Hr). cbn [mbind option_bind].
    eexists. split; [reflexivity|]. by constructor.
Qed.

Lemma lrange_ok o L start end_ : list_repr o L -> list_room L [] ->
  exists r o', lrange o start end_ = Some (r, o') /\ list_repr o' L /\ strings_of r (l_range L start end_).
Proof.
  intros Ho Hroom. unfold lrange, l_range. destruct (list_length_ok o L Ho) as (o1 & -> & Ho1). cbn [mbind option_bind].
  destruct (list_range (zlen L) start end_) as [[s e]|] eqn:Hr; [|exists [], o1; split; [done|]; split; [done|constructor]].
  apply list_range_bounds in Hr as [Hs He]. pose proof (weight_zlen L). unfold list_room in Hroom.
  change (zlen (@nil Z)) with 0 in Hroom. pose proof (zlen_nonneg L).
  assert (zlen (take (Z.to_nat s) L) = s) as Hzs by (unfold zlen in *; rewrite length_take; lia).
  assert ((Z.to_nat (e - s + 1) <= length (drop (Z.to_nat s) L))%nat) as Hn by (rewrite length_drop; unfold zlen in *; lia).
  rewrite <- (take_drop (Z.to_nat s) L) in Ho1. destruct o1 as [zl|l]; cbn [list_repr] in Ho1.
  - pose proof Ho1 as Hzl. rewrite take_drop in Hzl. destruct (ziplist_at zl L s Hzl) as (c & -> & Hc); [unfold sfits; lia|]. cbn [mbind option_bind].
    unfold l_at in Hc. destruct (Z.ltb_spec s 0); [lia|]. destruct (Z.leb_spec 0 s), (Z.ltb_spec s (zlen L)); try lia. cbn [andb] in Hc.
    destruct Hc as (p & -> & Hp). destruct (range_ziplist_ok (Z.to_nat (e - s + 1)) zl _ _ (Some p) Ho1) as (r & -> & Hrr); [|done|].
    { unfold cursor. destruct (drop (Z.to_nat s) L); [cbn in Hn; lia|]. by exists p. }
    cbn [mbind option_bind]. exists r, (ListZiplist zl). split; [done|]. by split.
  - pose proof (strings_length _ _ Ho1) as Hl. rewrite take_drop in Hl.
    assert (listIndex l (if s >? zlen L / 2 then s - zlen L else s) = node_at l (zlen (take (Z.to_nat s) L))) as ->.
    { rewrite Hzs. unfold listIndex. destruct (Z.gtb_spec s (zlen L / 2)).
      - destruct (Z.ltb_spec (s - zlen L) 0); [|lia]. rewrite Hl. f_equal. lia.
      - destruct (Z.ltb_spec s 0); [lia|done]. }
    destruct (range_linked_ok (Z.to_nat (e - s + 1)) l _ _ Ho1 Hn) as (r & -> & Hrr). cbn [mbind option_bind].
    rewrite take_drop in Ho1. exists r, (ListLinked l). split; [done|]. by split.
Qed.

Lemma ltrim_first_ok n : forall l L, strings_of l L -> (n <= length L)%nat ->
  exists l', ltrim_first n l = Some l' /\ strings_of l' (drop n L).
Proof.
  induction n as [|n IH]; intros l L Hs Hn; cbn [ltrim_first]; [by exists l; rewrite drop_0|].
  destruct L as [|x L]; cbn [length] in Hn; [lia|]. destruct (node_cursor l [] (x :: L) Hs) as (p & Hp & _ & ->).
  change (zlen (@nil bytes)) with 0 in Hp. rewrite Hp. cbn [mbind option_bind]. apply (IH _ L); [|lia].
  by apply (strings_del l [] x L).
Qed.

Lemma ltrim_last_ok n : forall l L, strings_of l L -> (n <= length L)%nat ->
  exists l', ltrim_last n l = Some l' /\ strings_of l' (take (length L - n) L).
Proof.
  induction n as [|n IH]; intros l L Hs Hn; cbn [ltrim_last]; [exists l; by rewrite Nat.sub_0_r, firstn_all|].
  destruct L as [|x L _] using rev_ind; cbn [length] in Hn; [lia|]. rewrite length_app in *. cbn [length] in *.
  assert (node_at l (zlen l - 1) = Some (zlen L)) as ->.
  { rewrite (strings_length _ _ Hs), zlen_app. change (zlen [x]) with 1. pose proof (zlen_nonneg L).
    rewrite node_at_in; [f_equal; lia|]. rewrite (strings_length _ _ Hs), zlen_app. change (zlen [x]) with 1. lia. }
  cbn [mbind option_bind]. destruct (IH (listDelNode l (zlen L)) L) as (l' & -> & Hl'); [|lia|].
  - pose proof (strings_del l L x [] Hs) as H. by rewrite app_nil_r in H.
  - exists l'. split; [done|]. replace (length L + 1 - S n)%nat with (length L - n)%nat by lia. by rewrite take_app_le by lia.
Qed.

Lemma s32_u32_opp n : 0 <= n < 2 ^ 31 -> s32 (u32 (- n)) = - n.
Proof.
  intros Hn. unfold swrap, uwrap. destruct (decide (n = 0)) as [->|]; [done|].
  replace (- n mod 2 ^ 32) with (2 ^ 32 - n) by (apply (Z.mod_unique_pos _ _ (-1)); lia).
  replace (2 ^ 32 - n + 2 ^ (32 - 1)) with (2 ^ (32 - 1) - n + 1 * 2 ^ 32) by lia. rewrite Z.mod_add by done.
  rewrite Z.mod_small by lia. lia.
Qed.

(** Taking [a] elements off the head and [b] off the tail of a ziplist. *)
Lemma trim_ziplist zl L a b : ziplist_ok zl L -> list_room L [] -> 0 <= a -> 0 <= b -> a + b <= zlen L ->
  exists zl1 zl2, ziplistDeleteRange (fresh env) zl 0 (u32 a) = Some zl1 /\
    ziplistDeleteRange (fresh env) zl1 (u32 (- b)) (u32 b) = Some zl2 /\
    ziplist_ok zl2 (take (Z.to_nat (zlen L - a - b)) (drop (Z.to_nat a) L)).
Proof.
  intros Hzl Hroom Ha Hb Hab. pose proof (ziplist_places zl L Hzl Hroom). pose proof (zlen_nonneg zl). pose proof (zlen_nonneg L).
  rewrite !(uwrap_small 32 a), (uwrap_small 32 b) by lia.
  destruct (ziplistDeleteRange_ok (fresh env) zl L 0 a Hzl ltac:(lia) ltac:(lia)) as (zl1 & -> & Hzl1). exists zl1.
  change (s32 0) with 0 in Hzl1. change (0 <? 0) with false in Hzl1. cbv iota zeta in Hzl1. change (0 <=? 0) with true in Hzl1.
  assert (ziplist_ok zl1 (drop (Z.to_nat a) L)) as Hd.
  { destruct (Z.ltb_spec 0 (zlen L)); cbn [andb take app] in Hzl1; [by rewrite take_0 in Hzl1|].
    rewrite drop_ge in * by (unfold zlen in *; lia). destruct L; [done|]. unfold zlen in *. cbn in *. lia. }
  clear Hzl1. set (L1 := drop (Z.to_nat a) L) in *.
  assert (zlen L1 = zlen L - a) as Hz1 by (unfold L1, zlen in *; rewrite length_drop; lia).
  assert (list_room L1 []) as Hr1.
  { unfold list_room in *. rewrite <- (take_drop (Z.to_nat a) L), weight_app in Hroom. fold L1 in Hroom.
    pose proof (weight_zlen (take (Z.to_nat a) L)). pose proof (zlen_nonneg (take (Z.to_nat a) L)). lia. }
  pose proof (ziplist_places zl1 L1 Hd Hr1).
  destruct (ziplistDeleteRange_ok (fresh env) zl1 L1 (u32 (- b)) b Hd ltac:(lia) ltac:(lia)) as (zl2 & -> & Hzl2). exists zl2.
  split; [done|]. split; [done|]. rewrite s32_u32_opp in Hzl2 by lia. clearbody L1. rewrite <- Hz1.
  destruct (decide (b = 0)) as [->|Hb0].
  - change (- 0 <? 0) with false in Hzl2. cbv iota zeta in Hzl2. rewrite Z.sub_0_r.
    rewrite firstn_all2 by (unfold zlen; lia). destruct ((0 <=? -0) && (-0 <? zlen L1)); [|done]. exact Hzl2.
  - destruct (Z.ltb_spec (- b) 0); [|lia]. destruct (Z.leb_spec 0 (zlen L1 + - b)), (Z.ltb_spec (zlen L1 + - b) (zlen L1)); try lia.
    cbn [andb] in Hzl2. rewrite (drop_ge L1) in Hzl2 by (unfold zlen in *; lia). rewrite app_nil_r in Hzl2. exact Hzl2.
Qed.

Lemma ltrim_ok o L start end_ : list_repr o L -> list_room L [] ->
  exists o', ltrim env o start end_ = Some o' /\ list_repr o' (l_range L start end_).
Proof.
  intros Ho Hroom. unfold ltrim, l_range. destruct (list_length_ok o L Ho) as (o1 & -> & Ho1). cbn [mbind option_bind].
  assert (exists a b, match list_range (zlen L) start end_ with None => (zlen L, 0) | Some (s, e) => (s, zlen L - e - 1) end = (a, b) /\
    0 <= a /\ 0 <= b /\ a + b <= zlen L /\
    match list_range (zlen L) start end_ with None => [] | Some (s, e) => take (Z.to_nat (e - s + 1)) (drop (Z.to_nat s) L) end =
      take (Z.to_nat (zlen L - a - b)) (drop (Z.to_nat a) L)) as (a & b & -> & Ha & Hb & Hab & ->).
  { destruct (list_range (zlen L) start end_) as [[s e]|] eqn:Hr.
    - apply list_range_bounds in Hr. exists s, (zlen L - e - 1). split_and!; [done|lia..|]. do 2 f_equal. lia.
    - pose proof (zlen_nonneg L). exists (zlen L), 0. split_and!; [done|lia..|]. by rewrite Z.sub_diag. }
  destruct o1 as [zl|l]; cbn [list_repr] in Ho1.
  - destruct (trim_ziplist zl L a b Ho1 Hroom Ha Hb Hab) as (zl1 & zl2 & -> & Hrun & Hok). cbn [mbind option_bind].
    rewrite Hrun. cbn [mbind option_bind]. eexists. split; [reflexivity|done].
  - destruct (ltrim_first_ok (Z.to_nat a) l L Ho1) as (l1 & -> & Hl1); [unfold zlen in *; lia|]. cbn [mbind option_bind].
    destruct (ltrim_last_ok (Z.to_nat b) l1 _ Hl1) as (l2 & -> & Hl2); [rewrite length_drop; unfold zlen in *; lia|]. cbn [mbind option_bind].
    eexists. split; [reflexivity|]. cbn [list_repr]. rewrite length_drop in Hl2.
    by replace (Z.to_nat (zlen L - a - b)) with (length L - Z.to_nat a - Z.to_nat b)%nat by (unfold zlen; lia).
Qed.
End positions.

(** ** Insertion at a pivot *)

(** The entry of the string is long enough for the bug of [__ziplistInsert] not to
    show: see ZiplistSpec.insert_overread. *)
Definition wide (s : bytes) : Prop := 3 <= zlen (body s).

Fixpoint l_insert (ref v : bytes) (w : list_end) (L : list bytes) : option (list bytes) :=
  match L with
  | [] => None
  | x :: L =>
      if decide (x = ref) then Some (match w with REDIS_HEAD => v :: x :: L | REDIS_TAIL => x :: v :: L end)
      else cons x <$> l_insert ref v w L
  end.

(** Removal of the elements equal to [t]: [k] of them, or all when [k] is 0. *)
Fixpoint l_rem (k : Z) (t : bytes) (L : list bytes) : list bytes * Z :=
  match L with
  | [] => ([], 0)
  | x :: L =>
      if decide (x = t) then
        if k =? 1 then (L, 1) else let '(r, c) := l_rem (if k =? 0 then 0 else k - 1) t L in (r, c + 1)
      else let '(r, c) := l_rem k t L in (x :: r, c)
  end.

Section pivot.
Context (env : type_env).

Lemma insert_at o L1 x L2 p vo v w : at_place o L1 (x :: L2) p -> list_room (L1 ++ x :: L2) v -> wide v ->
  obj_ok vo -> getDecodedObject vo = Some v ->
  exists o', listTypeInsert env o p vo w = Some o' /\
    list_repr o' (L1 ++ match w with REDIS_HEAD => v :: x :: L2 | REDIS_TAIL => x :: v :: L2 end).
Proof.
  intros Hp Hroom Hwide Hvo Hv. pose proof (at_place_repr _ _ _ _ Hp) as Ho.
  destruct o as [zl|l]; cbn [at_place listTypeInsert list_repr] in *.
  - rewrite Hv. cbn [mbind option_bind]. pose proof (ziplist_places zl _ Ho (list_room_weaken _ _ Hroom)) as Hb.
    pose proof (ziplist_ok_weight _ _ Ho) as Hw. pose proof (weight_zlen (L1 ++ x :: L2)). unfold list_room in Hroom.
    pose proof (zlen_nonneg (L1 ++ x :: L2)).
    assert (forall K1 K2 q, K1 ++ K2 = L1 ++ x :: L2 -> place zl K1 K2 q ->
      exists o', ListZiplist <$> ziplistInsert (fresh env) zl q v (zlen v) = Some o' /\ list_repr o' (K1 ++ v :: K2)) as Hins.
    { intros K1 K2 q HK Hq. destruct (ziplistInsert_ok (fresh env) zl K1 K2 q v Hq) as (zl' & -> & Hp'); [right; by right|rewrite HK; lia|].
      eexists. split; [reflexivity|]. by apply place_ziplist_ok with (1 := Hp'). }
    destruct w; [by apply (Hins L1 (x :: L2))|].
    destruct (ziplist_walk zl L1 x L2 p Hp) as [(q & -> & Hq) _]. cbn [mbind option_bind].
    rewrite (cons_middle x L1 (v :: L2)), app_assoc. destruct L2 as [|y L2].
    + subst q. destruct (ziplistPush_ok (fresh env) zl _ v ZIPLIST_TAIL Ho) as (zl' & -> & Hzl'); [lia|].
      eexists. split; [reflexivity|]. exact Hzl'.
    + destruct Hq as (q' & -> & Hq). apply (Hins (L1 ++ [x]) (y :: L2)); [by rewrite <- app_assoc|done].
  - destruct Hp as [_ ->]. eexists. split; [reflexivity|]. cbn [list_repr].
    apply Forall2_app_inv_r in Ho as (l1 & l2 & H1 & H2 & ->). apply Forall2_cons_inv_r in H2 as (o & l3 & Hx & H2 & ->).
    apply Forall2_length in H1 as Hl. unfold listInsertNode. rewrite bool_decide_decide. unfold zlen. rewrite Nat2Z.id, <- Hl.
    destruct w.
    + destruct (decide _); [done|]. rewrite take_app_length, drop_app_length. apply Forall2_app; [done|]. constructor; [done|]. by constructor.
    + destruct (decide _); [|done]. rewrite (cons_middle o l1 l3), app_assoc, (cons_middle x L1 (v :: L2)), app_assoc.
      assert (length (l1 ++ [o]) = S (length l1)) as Hlen by (rewrite length_app; cbn; lia).
      rewrite take_app_length', drop_app_length' by done. apply Forall2_app; [|by constructor].
      apply Forall2_app; [done|]. by constructor.
Qed.

Lemma insert_seek_ok fuel ref vo v w : forall o L1 L2 c refo, list_repr o (L1 ++ L2) -> cursor o L1 L2 c ->
  list_room (L1 ++ L2) v -> wide v -> obj_ok vo -> getDecodedObject vo = Some v -> comparable o refo ref -> zlen ref < 2 ^ 31 ->
  (length L2 < fuel)%nat ->
  exists o', insert_seek env fuel o (mkLi c REDIS_TAIL) refo vo w = Some (o', bool_decide (is_Some (l_insert ref v w L2))) /\
    list_repr o' (L1 ++ default L2 (l_insert ref v w L2)).
Proof.
  induction fuel as [|fuel IH]; intros o L1 L2 c refo Ho Hc Hroom Hwide Hvo Hv Href Hrl Hf; [lia|]. cbn [insert_seek].
  pose proof (next_tail o L1 L2 c Ho Hc) as Hn. destruct L2 as [|x L2].
  - rewrite Hn. cbn [mbind option_bind]. by exists o.
  - destruct Hn as (p & c' & -> & Hp & Hc'). cbn [mbind option_bind l_insert].
    rewrite (equal_at o L1 x L2 p refo ref Hp) by (done || by eapply list_room_elem). cbn [mbind option_bind].
    destruct (decide (x = ref)) as [Heq|Hne].
    + rewrite bool_decide_eq_true_2 by done. destruct (insert_at o L1 x L2 p vo v w Hp Hroom Hwide Hvo Hv) as (o' & -> & Ho').
      cbn [mbind option_bind]. eexists. split; [reflexivity|]. exact Ho'.
    + rewrite bool_decide_eq_false_2 by done. rewrite (cons_middle x L1 L2), app_assoc in Ho, Hroom.
      destruct (IH o (L1 ++ [x]) L2 c' refo Ho Hc' Hroom Hwide Hvo Hv Href Hrl) as (o' & -> & Ho'); [cbn [length] in Hf; lia|].
      rewrite <- app_assoc in Ho'. exists o'. destruct (l_insert ref v w L2) as [L'|]; exact (conj eq_refl Ho').
Qed.

Lemma linsert_ok o L ref vo v w : list_repr o L -> list_room L v -> wide v -> obj_ok vo -> getDecodedObject vo = Some v ->
  zlen ref < 2 ^ 31 ->
  exists o', linsert env o (StrRaw ref) vo w = Some (o', bool_decide (is_Some (l_insert ref v w L))) /\
    list_repr o' (default L (l_insert ref v w L)).
Proof.
  intros Ho Hroom Hwide Hvo Hv Href. unfold linsert. destruct (list_try_ok env o L vo Ho) as (o1 & -> & Ho1). cbn [mbind option_bind].
  destruct (init_tail o1 L Ho1) as (c & -> & Hc). cbn [mbind option_bind].
  destruct (insert_seek_ok (list_fuel o1) ref vo v w o1 [] L c (StrRaw ref) Ho1 Hc Hroom Hwide Hvo Hv) as (o2 & -> & Ho2);
    [by destruct o1|done|by apply repr_fuel|]. cbn [mbind option_bind app] in *.
  set (b := bool_decide _). destruct o2 as [zl|l]; [|by exists (ListLinked l)]. destruct b; [|by exists (ListZiplist zl)].
  destruct (list_limit_ok (ListZiplist zl) _ (fun n => n >? list_max_ziplist_entries env) Ho2) as (o3 & -> & Ho3).
  cbn [mbind option_bind]. eauto.
Qed.

(** ** Removal *)

Lemma weight_rem k t : forall L, weight (fst (l_rem k t L)) <= weight L.
Proof.
  intros L. revert k. induction L as [|x L IH]; intros k; cbn [l_rem]; [done|]. rewrite weight_cons. pose proof (zlen_nonneg x).
  destruct (decide (x = t)).
  - destruct (k =? 1); [cbn [fst]; lia|]. specialize (IH (if k =? 0 then 0 else k - 1)). destruct (l_rem _ t L). cbn [fst] in *. lia.
  - specialize (IH k). destruct (l_rem k t L). cbn [fst] in *. rewrite weight_cons. lia.
Qed.

(** The iterator after a deletion: in a ziplist it may stand at the end of the block,
    where the next call finds an entry that is equal to nothing. *)
Definition loose (o : listobj) (L1 L2 : list bytes) (c : option Z) : Prop :=
  cursor o L1 L2 c \/ match o, c with ListZiplist zl, Some p => place zl L1 L2 p | _, _ => False end.

Definition extra (o : listobj) : nat := match o with ListZiplist _ => 1 | ListLinked _ => 0 end.

Lemma list_delete_ok w o L1 x L2 p c : at_place o L1 (x :: L2) p -> list_room (L1 ++ x :: L2) [] ->
  exists o' c', listTypeDelete env o (mkLi c w) p = Some (o', mkLi c' w) /\ list_repr o' (L1 ++ L2) /\ (extra o' = extra o)%nat /\
    match w with REDIS_TAIL => loose o' L1 L2 c' | REDIS_HEAD => back_cursor o' L1 L2 c' end.
Proof.
  intros Hp Hroom. pose proof (del_at env o L1 x L2 p Hp Hroom) as Hdel. destruct o as [zl|l]; cbn [listTypeDelete li_direction].
  - destruct Hdel as (zl' & -> & Hp'). cbn [mbind option_bind]. pose proof (place_ziplist_ok _ _ _ _ Hp') as Hzl. destruct w.
    + assert (exists c', ziplistPrev zl' p = Some c' /\ back_cursor (ListZiplist zl') L1 L2 c') as (c' & -> & Hc').
      { destruct L2 as [|y L2].
        - rewrite (ziplistPrev_end zl' L1 p Hp'). rewrite app_nil_r in Hzl.
          destruct (init_head (ListZiplist zl') L1 Hzl) as (c' & Hrun & Hc'). cbn [listTypeInitIterator] in Hrun.
          change (s32 (-1)) with (-1) in Hrun. destruct (ziplistIndex zl' (-1)); [|done]. injection Hrun as ->. eauto.
        - destruct (ziplist_walk zl' L1 y L2 p Hp') as [_ (r & -> & Hr)]. exists r. split; [done|]. unfold back_cursor.
          by destruct (last L1). }
      cbn [mbind option_bind]. exists (ListZiplist zl'), c'. split; [done|]. split; [exact Hzl|]. by split.
    + cbn [mbind option_bind]. exists (ListZiplist zl'), (Some p). split; [done|]. split; [exact Hzl|]. split; [done|]. by right.
  - destruct Hdel as [Hs ->]. destruct w; (eexists _, _; split; [reflexivity|]; split; [exact Hs|]; split; [done|]).
    + by apply node_back_cursor.
    + left. by apply node_cursor.
Qed.

(** From a loose cursor, past the end at most one entry is seen. *)
Lemma loose_next o L1 L2 c : list_repr o (L1 ++ L2) -> loose o L1 L2 c ->
  cursor o L1 L2 c \/ L2 = [] /\ (extra o = 1)%nat /\ exists p, listTypeNext o (mkLi c REDIS_TAIL) = Some (Some p, mkLi None REDIS_TAIL) /\
    forall t, listTypeEqual o p (StrRaw t) = Some false.
Proof.
  intros Ho [Hc|Hc]; [by left|]. destruct o as [zl|l]; [|done]. destruct c as [p|]; [|done].
  destruct L2 as [|x L2]; [|left; by exists p]. right. split; [done|]. split; [done|]. exists p.
  destruct Hc as (n & a & b & Hrep & _ & Hb & ->). apply map_eq_nil in Hb as ->.
  destruct (rep_first _ _ _ _ Hrep) as (e & Hc & Hce). assert (e = ZIP_END) as -> by by apply Hce.
  unfold listTypeNext, listTypeEqual, ziplistNext, ziplistCompare. cbn [li_at li_direction]. rewrite Hc. cbn [mbind option_bind].
  change (ZIP_END =? ZIP_END) with true. done.
Qed.

(** How many more are to be removed: 0 is all of them. *)
Definition left_to (k removed : Z) : Z := if k =? 0 then 0 else k - removed.

Lemma left_stop k removed : (left_to k removed =? 1) = negb (k =? 0) && (removed + 1 =? k).
Proof.
  unfold left_to. destruct (Z.eqb_spec k 0); cbn [negb andb]; [done|].
  destruct (Z.eqb_spec (removed + 1) k), (Z.eqb_spec (k - removed) 1); done || lia.
Qed.

Lemma left_next k removed : k = 0 \/ removed < k ->
  (if left_to k removed =? 0 then 0 else left_to k removed - 1) = left_to k (removed + 1).
Proof. unfold left_to. destruct (Z.eqb_spec k 0); [done|]. destruct (Z.eqb_spec (k - removed) 0); lia. Qed.

Lemma left_go k removed : k = 0 \/ removed < k -> negb (k =? 0) && (removed + 1 =? k) = false -> k = 0 \/ removed + 1 < k.
Proof. destruct (Z.eqb_spec k 0), (Z.eqb_spec (removed + 1) k); cbn; intros; try done; lia. Qed.

Lemma lrem_tail fuel t k : forall o L1 L2 c obj removed, list_repr o (L1 ++ L2) -> loose o L1 L2 c ->
  list_room (L1 ++ L2) [] -> comparable o obj t -> zlen t < 2 ^ 31 -> (k = 0 \/ removed < k) ->
  (length L2 + extra o < fuel)%nat ->
  exists o', lrem_loop env fuel o (mkLi c REDIS_TAIL) obj k removed = Some (o', removed + snd (l_rem (left_to k removed) t L2)) /\
    list_repr o' (L1 ++ fst (l_rem (left_to k removed) t L2)).
Proof.
  induction fuel as [|fuel IH]; intros o L1 L2 c obj removed Ho Hc Hroom Hobj Ht Hk Hf; [lia|]. cbn [lrem_loop].
  destruct (loose_next o L1 L2 c Ho Hc) as [Hc'|(-> & He & p & -> & Heq)].
  2: { cbn [mbind option_bind]. destruct o as [zl|l]; [|done]. cbn [comparable] in Hobj. subst obj. rewrite Heq. cbn [mbind option_bind].
       destruct fuel; [cbn in *; lia|]. cbn [lrem_loop listTypeNext li_at mbind option_bind l_rem snd fst]. rewrite Z.add_0_r. eauto. }
  pose proof (next_tail o L1 L2 c Ho Hc') as Hn. destruct L2 as [|x L2].
  - rewrite Hn. cbn [mbind option_bind l_rem fst snd]. rewrite Z.add_0_r. eauto.
  - destruct Hn as (p & c' & -> & Hp & Hc2). cbn [mbind option_bind l_rem]. cbn [length] in Hf.
    rewrite (equal_at o L1 x L2 p obj t Hp) by (done || by eapply list_room_elem). cbn [mbind option_bind].
    destruct (decide (x = t)) as [Heq|Hne].
    + rewrite bool_decide_eq_true_2 by done. destruct (list_delete_ok REDIS_TAIL o L1 x L2 p c' Hp Hroom) as (o1 & c1 & -> & Ho1 & He1 & Hc1).
      cbn [mbind option_bind]. rewrite left_stop.
      destruct (negb (k =? 0) && (removed + 1 =? k)) eqn:Hstop; [cbn [fst snd]; eauto|].
      rewrite left_next by done.
      destruct (IH o1 L1 L2 c1 obj (removed + 1) Ho1 Hc1) as (o' & Hrun & Ho').
      * by eapply list_room_incl.
      * destruct o, o1; try done.
      * done.
      * by apply left_go.
      * rewrite He1. lia.
      * exists o'. rewrite Hrun. destruct (l_rem (left_to k (removed + 1)) t L2) as [r n]. cbn [fst snd] in *. split; [|done]. do 2 f_equal. lia.
    + rewrite bool_decide_eq_false_2 by done. rewrite (cons_middle x L1 L2), app_assoc in Ho, Hroom.
      destruct (IH o (L1 ++ [x]) L2 c' obj removed Ho) as (o' & Hrun & Ho'); [by left|done..|lia|]. exists o'. rewrite Hrun.
      destruct (l_rem (left_to k removed) t L2) as [r n]. cbn [fst snd] in *. rewrite <- app_assoc in Ho'. by split.
Qed.

Lemma lrem_head fuel t k : forall o L1 L2 c obj removed, list_repr o (reverse L1 ++ L2) -> back_cursor o (reverse L1) L2 c ->
  list_room (reverse L1 ++ L2) [] -> comparable o obj t -> zlen t < 2 ^ 31 -> (k = 0 \/ removed < k) -> (length L1 < fuel)%nat ->
  exists o', lrem_loop env fuel o (mkLi c REDIS_HEAD) obj k removed = Some (o', removed + snd (l_rem (left_to k removed) t L1)) /\
    list_repr o' (reverse (fst (l_rem (left_to k removed) t L1)) ++ L2).
Proof.
  induction fuel as [|fuel IH]; intros o L1 L2 c obj removed Ho Hc Hroom Hobj Ht Hk Hf; [lia|]. cbn [lrem_loop].
  pose proof (next_head o (reverse L1) L2 c Hc) as Hn. destruct L1 as [|x L1].
  - cbn [reverse last] in Hn. rewrite Hn. cbn [mbind option_bind l_rem fst snd]. rewrite Z.add_0_r. eauto.
  - rewrite reverse_cons in *. rewrite last_snoc, removelast_last in Hn. rewrite <- app_assoc in Ho, Hroom. cbn [app] in Ho, Hroom.
    destruct Hn as (p & c' & -> & Hp & Hc2). cbn [mbind option_bind l_rem]. cbn [length] in Hf.
    rewrite (equal_at o (reverse L1) x L2 p obj t Hp) by (done || by eapply list_room_elem). cbn [mbind option_bind].
    destruct (decide (x = t)) as [Heq|Hne].
    + rewrite bool_decide_eq_true_2 by done. destruct (list_delete_ok REDIS_HEAD o _ x L2 p c' Hp Hroom) as (o1 & c1 & -> & Ho1 & He1 & Hc1).
      cbn [mbind option_bind]. rewrite left_stop.
      destruct (negb (k =? 0) && (removed + 1 =? k)) eqn:Hstop; [cbn [fst snd]; eauto|].
      rewrite left_next by done.
      destruct (IH o1 L1 L2 c1 obj (removed + 1) Ho1 Hc1) as (o' & Hrun & Ho').
      * by eapply list_room_incl.
      * destruct o, o1; try done.
      * done.
      * by apply left_go.
      * lia.
      * exists o'. rewrite Hrun. destruct (l_rem (left_to k (removed + 1)) t L1) as [r n]. cbn [fst snd] in *. split; [|done]. do 2 f_equal. lia.
    + rewrite bool_decide_eq_false_2 by done.
      destruct (IH o L1 (x :: L2) c' obj removed Ho Hc2 Hroom Hobj Ht Hk) as (o' & Hrun & Ho'); [lia|]. exists o'. rewrite Hrun.
      destruct (l_rem (left_to k removed) t L1) as [r n]. cbn [fst snd] in *. rewrite reverse_cons, <- app_assoc. by split.
Qed.

(** LREM: from the head, or from the tail when the count is negative. *)
Definition l_lrem (n : Z) (t : bytes) (L : list bytes) : list bytes * Z :=
  if n <? 0 then let '(r, c) := l_rem (- n) t (reverse L) in (reverse r, c) else l_rem n t L.

Lemma repr_fuel2 o L : list_repr o L -> (length L + extra o < list_fuel o)%nat.
Proof.
  unfold list_fuel. destruct o as [zl|l]; cbn [list_repr extra].
  - intros Hzl. pose proof (ziplist_ok_rep _ _ Hzl) as (n & es & Hrep & <-). rewrite length_map.
    pose proof (layout_long es (rep_ok _ _ _ Hrep)). pose proof (rep_zlen _ _ _ Hrep) as Hz. unfold total_of in Hz.
    change (zlen []) with 0 in Hz. unfold zlen in *. lia.
  - intros H%Forall2_length. lia.
Qed.

Lemma lrem_ok o L n tobj t : list_repr o L -> list_room L [] -> sfits 64 n -> n <> LLONG_MIN -> obj_ok tobj -> getDecodedObject tobj = Some t ->
  zlen t < 2 ^ 31 ->
  exists o', lrem env o n tobj = Some (o', snd (l_lrem n t L)) /\ list_repr o' (fst (l_lrem n t L)).
Proof.
  intros Ho Hroom Hn Hmin Hto Hd Ht. unfold lrem, l_lrem.
  assert (exists ob, match o with ListZiplist _ => StrRaw <$> getDecodedObject tobj | _ => Some tobj end = Some ob /\ comparable o ob t) as (ob & -> & Hob).
  { rewrite Hd. destruct o; eexists; (split; [reflexivity|done]). }
  cbn [mbind option_bind]. destruct (Z.ltb_spec n 0) as [Hneg|Hpos].
  - destruct (init_head o L Ho) as (c & -> & Hc). cbn [mbind option_bind]. rewrite swrap_small by (done || (unfold sfits, LLONG_MIN in *; lia)).
    rewrite <- (reverse_involutive L) in Ho, Hroom, Hc. pose proof (repr_fuel2 o _ Ho) as Hf. rewrite length_reverse in Hf.
    destruct (lrem_head (list_fuel o) t (- n) o (reverse L) [] c ob 0) as (o' & -> & Ho'); rewrite ?app_nil_r; try done; [lia..|].
    unfold left_to in *. destruct (Z.eqb_spec (- n) 0); [lia|]. rewrite Z.sub_0_r in *. rewrite app_nil_r in Ho'. exists o'.
    destruct (l_rem (- n) t (reverse L)) as [r k]. cbn [fst snd] in *. by split.
  - destruct (init_tail o L Ho) as (c & -> & Hc). cbn [mbind option_bind]. pose proof (repr_fuel2 o _ Ho) as Hf.
    destruct (lrem_tail (list_fuel o) t n o [] L c ob 0) as (o' & -> & Ho'); [done|by left|done..|lia|done|].
    assert (left_to n 0 = n) as Hl by (unfold left_to; destruct (Z.eqb_spec n 0); lia). rewrite Hl in *. cbn [app] in Ho'. exists o'. by split.
Qed.
End pivot.

(** ** A session on one list *)

Inductive list_op :=
  | OPush (value : robj) (where_ : list_end)
  | OPop (where_ : list_end)
  | OLen
  | OIndex (i : Z)
  | OSet (i : Z) (value : robj)
  | ORange (start end_ : Z)
  | OTrim (start end_ : Z)
  | OInsert (pivot : bytes) (value : robj) (where_ : list_end)
  | ORem (count : Z) (value : robj).

Inductive list_answer := LFlag (b : bool) | LNum (n : Z) | LValue (v : option bytes) | LValues (l : list bytes) | LDone.

Definition list_step (env : type_env) (o : listobj) (op : list_op) : option (listobj * list_answer) :=
  match op with
  | OPush v w => o ← listTypePush env o v w; Some (o, LDone)
  | OPop w => '(r, o) ← listTypePop env o w; Some (o, LValue (r ≫= getDecodedObject))
  | OLen => '(n, o) ← listTypeLength o; Some (o, LNum n)
  | OIndex i => r ← lindex o i; Some (o, LValue (r ≫= getDecodedObject))
  | OSet i v => '(o, b) ← lset env o i v; Some (o, LFlag b)
  | ORange s e => '(r, o) ← lrange o s e; l ← mapM getDecodedObject r; Some (o, LValues l)
  | OTrim s e => o ← ltrim env o s e; Some (o, LDone)
  | OInsert p v w => '(o, b) ← linsert env o (StrRaw p) v w; Some (o, LFlag b)
  | ORem n v => '(o, k) ← lrem env o n v; Some (o, LNum k)
  end.

Fixpoint list_steps (env : type_env) (o : listobj) (ops : list list_op) : option (listobj * list list_answer) :=
  match ops with
  | [] => Some (o, [])
  | op :: ops => '(o, a) ← list_step env o op; '(o, l) ← list_steps env o ops; Some (o, a :: l)
  end.

(** The same operation on a list of strings. *)
Definition l_step (L : list bytes) (op : list_op) : option (list bytes * list_answer) :=
  match op with
  | OPush v w => v ← getDecodedObject v; Some (l_push L v w, LDone)
  | OPop w => Some (snd (l_pop L w), LValue (fst (l_pop L w)))
  | OLen => Some (L, LNum (zlen L))
  | OIndex i => Some (L, LValue (l_at L i ≫= (L !!.)))
  | OSet i v =>
      v ← getDecodedObject v;
      Some (match l_at L i with Some k => <[k := v]> L | None => L end, LFlag (bool_decide (is_Some (l_at L i))))
  | ORange s e => Some (L, LValues (l_range L s e))
  | OTrim s e => Some (l_range L s e, LDone)
  | OInsert p v w =>
      v ← getDecodedObject v;
      Some (default L (l_insert p v w L), LFlag (bool_decide (is_Some (l_insert p v w L))))
  | ORem n v => v ← getDecodedObject v; Some (fst (l_lrem n v L), LNum (snd (l_lrem n v L)))
  end.

Fixpoint l_steps (L : list bytes) (ops : list list_op) : option (list bytes * list list_answer) :=
  match ops with
  | [] => Some (L, [])
  | op :: ops => '(L, a) ← l_step L op; '(L, l) ← l_steps L ops; Some (L, a :: l)
  end.

(** The arguments: indexes fit an [int], there is room, and what is inserted at a
    pivot is wide enough. *)
Definition list_arg (L : list bytes) (op : list_op) : Prop :=
  match op with
  | OPush v _ => obj_ok v /\ forall s, getDecodedObject v = Some s -> list_room L s
  | OIndex i => sfits 32 i /\ list_room L []
  | OSet i v => sfits 32 i /\ obj_ok v /\ forall s, getDecodedObject v = Some s -> list_room L s
  | OInsert p v _ => zlen p < 2 ^ 31 /\ obj_ok v /\ forall s, getDecodedObject v = Some s -> list_room L s /\ wide s
  | ORem n v => sfits 64 n /\ n <> LLONG_MIN /\ obj_ok v /\ list_room L [] /\ forall s, getDecodedObject v = Some s -> zlen s < 2 ^ 31
  | _ => list_room L []
  end.

Fixpoint list_args (L : list bytes) (ops : list list_op) : Prop :=
  match ops with
  | [] => True
  | op :: ops => list_arg L op /\ forall L1 a, l_step L op = Some (L1, a) -> list_args L1 ops
  end.

Lemma strings_mapM r L : strings_of r L -> mapM getDecodedObject r = Some L.
Proof. intros H. apply mapM_Some. eapply Forall2_impl; [exact H|]. by intros o x [_ Hd]. Qed.

Lemma list_step_ok env o L op L1 a : list_repr o L -> list_arg L op -> l_step L op = Some (L1, a) ->
  exists o1, list_step env o op = Some (o1, a) /\ list_repr o1 L1.
Proof.
  intros Ho Harg Hs. destruct op as [vo w|w| |i|i vo|s e|s e|p vo w|n vo]; cbn [l_step list_step list_arg] in *;
    try (apply bind_Some in Hs as (v & Hv & Hs)); injection Hs as <- <-.
  - destruct Harg as [Hok Hr]. destruct (list_push_ok env o L vo v w Ho (Hr v Hv) Hok Hv) as (o1 & -> & Ho1). eauto.
  - destruct (list_pop_ok env o L w Ho Harg) as (r & o1 & -> & Ho1 & Hr). cbn [mbind option_bind]. eexists. split; [|exact Ho1].
    destruct (fst (l_pop L w)) as [x|]; [destruct Hr as (ob & -> & _ & Hd); cbn; by rewrite Hd|by subst r].
  - destruct (list_length_ok o L Ho) as (o1 & -> & Ho1). eauto.
  - destruct Harg as [Hi _]. destruct (lindex_ok o L i Ho Hi) as (r & -> & Hr & _). cbn [mbind option_bind]. rewrite Hr. eauto.
  - destruct Harg as (Hi & Hok & Hr). destruct (lset_ok env o L i vo v Ho (Hr v Hv) Hi Hok Hv) as (o1 & -> & Ho1). eauto.
  - destruct (lrange_ok o L s e Ho Harg) as (r & o1 & -> & Ho1 & Hr). cbn [mbind option_bind]. rewrite (strings_mapM _ _ Hr). eauto.
  - destruct (ltrim_ok env o L s e Ho Harg) as (o1 & -> & Ho1). eauto.
  - destruct Harg as (Hp & Hok & Hr). destruct (Hr v Hv) as [Hroom Hw].
    destruct (linsert_ok env o L p vo v w Ho Hroom Hw Hok Hv Hp) as (o1 & -> & Ho1). eauto.
  - destruct Harg as (Hn & Hmin & Hok & Hroom & Hl). destruct (lrem_ok env o L n vo v Ho Hroom Hn Hmin Hok Hv (Hl v Hv)) as (o1 & -> & Ho1). eauto.
Qed.

Lemma list_steps_ok env ops : forall o L L1 l, list_repr o L -> list_args L ops -> l_steps L ops = Some (L1, l) ->
  exists o1, list_steps env o ops = Some (o1, l) /\ list_repr o1 L1.
Proof.
  induction ops as [|op ops IH]; intros o L L1 l Ho Hargs Hs; cbn [l_steps list_steps list_args] in *.
  - injection Hs as <- <-. eauto.
  - destruct Hargs as [Harg Hargs]. apply bind_Some in Hs as ([L2 a] & Hstep & Hs). apply bind_Some in Hs as ([L3 l3] & Hs & [= <- <-]).
    destruct (list_step_ok env o L op L2 a Ho Harg Hstep) as (o2 & -> & Ho2). cbn [mbind option_bind].
    destruct (IH o2 L2 L3 l3 Ho2 (Hargs _ _ Hstep) Hs) as (o' & -> & Ho'). eauto.
Qed.

(** C28: a list is a list in both encodings: every sequence of pushes, pops, reads by
    index and by range, updates, trims, insertions at a pivot and removals by value
    on a new list gives the answers of the same sequence on the empty list of
    strings, and the object holds the resulting list, whether and whenever it has
    been converted; nothing is read or written outside a block. The indexes fit an
    [int], what is inserted at a pivot is [wide] enough for [ziplistInsert], no count of
    removals is [LLONG_MIN], and the list has room in a ziplist. *)
Theorem list_session env ops L l : list_args [] ops -> l_steps [] ops = Some (L, l) ->
  exists o o', createZiplistObject env = Some o /\ list_steps env o ops = Some (o', l) /\ list_repr o' L.
Proof.
  intros Hargs Hs. destruct (new_ok (fresh env)) as (zl & Hnew & Hzl). unfold createZiplistObject. rewrite Hnew.
  destruct (list_steps_ok env ops (ListZiplist zl) [] L l Hzl Hargs Hs) as (o' & Hrun & Ho'). exists (ListZiplist zl), o'. by split_and!.
Qed.

(** LINDEX with an index that does not fit an [int] depends on the encoding: the
    ziplist is asked for the index modulo 2^32, so that 4294967296 is the first
    element, which the linked list of the same strings does not have. *)
Theorem lindex_truncates zl l x L i : ziplist_ok zl (x :: L) -> strings_of l (x :: L) -> zlen (x :: L) <= i -> 0 <= i -> s32 i = 0 ->
  lindex (ListLinked l) i = Some None /\ exists ob, lindex (ListZiplist zl) i = Some (Some ob) /\ getDecodedObject ob = Some x.
Proof.
  intros Hzl Hl Hlen Hi H32. split.
  - cbn [lindex]. by rewrite (linked_at l _ _ Hl), l_at_past by lia.
  - cbn [lindex]. rewrite H32. change 0 with (s32 0).
    destruct (ziplist_at zl (x :: L) 0 Hzl) as (r & -> & Hr); [unfold sfits; lia|]. cbn [mbind option_bind].
    assert (l_at (x :: L) 0 = Some 0%nat) as Hat.
    { unfold l_at. change (0 <? 0) with false. cbv iota. change (0 <=? 0) with true. rewrite zlen_cons. pose proof (zlen_nonneg L).
      by destruct (Z.ltb_spec 0 (1 + zlen L)); [|lia]. }
    rewrite Hat in Hr. destruct Hr as (p & -> & Hp). destruct (ziplistGet_ok zl [] (x :: L) p Hp) as (r & -> & v & -> & Hv).
    cbn [mbind option_bind option_map]. eexists. split; [reflexivity|]. by apply zl_object_ok.
Qed.

Definition list_demo_env : type_env := mkEnv 512 64 512 3 8 (fun k => zlen k) true (fun _ => 7).

(** The ninth byte of a value makes a linked list of it. *)
Definition list_demo : list list_op :=
  [OPush (StrInt 5) REDIS_TAIL; OPush (StrRaw (zs "abc")) REDIS_HEAD; OInsert (zs "5") (StrRaw (zs "pivot")) REDIS_HEAD;
   OPush (StrRaw (zs "123456789")) REDIS_TAIL; ORange (-3) 100; OSet (-1) (StrRaw (zs "abc")); ORem (-1) (StrRaw (zs "abc"));
   OTrim 1 (-1); OPop REDIS_TAIL; OLen].

Lemma list_demo_args : list_args [] list_demo.
Proof.
  cbn [list_args list_demo list_arg]. repeat match goal with
  | |- _ /\ _ => split
  | |- True => exact I
  | |- forall L1 a, l_step _ _ = _ -> _ => intros L1 a Hm; vm_compute in Hm; injection Hm as <- <-
  | |- forall s, getDecodedObject _ = _ -> _ => intros s Hd; vm_compute in Hd; injection Hd as <-
  | |- obj_ok _ => by vm_compute
  | |- sfits _ _ => by vm_compute
  | |- wide _ => by vm_compute
  | |- list_room _ _ => by vm_compute
  | |- _ <> _ => done
  | |- _ < _ => by vm_compute
  end.
Qed.

Lemma list_session_witness : exists o o', createZiplistObject list_demo_env = Some o /\
  list_steps list_demo_env o list_demo = Some (o', [LDone; LDone; LFlag true; LDone; LValues [zs "pivot"; zs "5"; zs "123456789"];
    LFlag true; LNum 1; LDone; LValue (Some (zs "5")); LNum 1]) /\ list_repr o' [zs "pivot"].
Proof. apply (list_session list_demo_env list_demo); [apply list_demo_args|by vm_compute]. Defined.

Lemma lindex_truncates_witness :
  lindex (ListLinked [StrInt 2; StrRaw (zs "ab"); StrInt 1024]) 4294967296 = Some None /\
  exists ob, lindex (ListZiplist demo_zl) 4294967296 = Some (Some ob) /\ getDecodedObject ob = Some (zs "2").
Proof.
  apply (lindex_truncates demo_zl _ (zs "2") [zs "ab"; zs "1024"] 4294967296); [apply demo_zl_ok| |by vm_compute|done|by vm_compute].
  repeat constructor; by vm_compute.
Defined.
