(* ===== verification/Zipmap.v ===== *)
(** * Zipmaps (src/redis-2.8.19/src/zipmap.c)

    A map of strings in one block: the length byte, then for every entry the length
    and the bytes of the key, the length of the value, the number of free bytes behind
    it, its bytes and the free bytes, and 255 at the end. Pointers are positions in
    the block; lengths are 32 bits wide. *)
From S2P Require Import Prelude Util Object.
Open Scope Z_scope.

Definition ZIPMAP_BIGLEN : Z := 254.
Definition ZIPMAP_END : Z := 255.
Definition ZIPMAP_VALUE_MAX_FREE : Z := 4.

Definition ZIPMAP_LEN_BYTES (l : Z) : Z := if l <? ZIPMAP_BIGLEN then 1 else 4 + 1.

Section zipmap.
Context (uninit : nat -> Z).

Definition zipmapNew : list Z := [0; ZIPMAP_END].

Definition zipmapDecodeLength (zm : list Z) (p : Z) : option Z :=
  len ← rd zm p;
  if len <? ZIPMAP_BIGLEN then Some len else le_val <$> rd_block zm (p + 1) 4.

(** The encoded length, and writing it at [p]; with a null pointer the C function
    returns its size, which is [ZIPMAP_LEN_BYTES]. *)
Definition zipmap_length (len : Z) : list Z :=
  if len <? ZIPMAP_BIGLEN then [len] else ZIPMAP_BIGLEN :: le_bytes 4 len.

Definition zipmapEncodeLength (zm : list Z) (p len : Z) : option (list Z * Z) :=
  zm ← wr_block zm p (zipmap_length len);
  Some (zm, ZIPMAP_LEN_BYTES len).

(** The loop of [zipmapLookupRaw], a turn for each entry. *)
Fixpoint lookup_loop (fuel : nat) (zm : list Z) (key : option bytes) (klen : Z) (total : bool) (p : Z) (k : option Z)
  : option (option Z * Z) :=
  c ← rd zm p;
  if c =? ZIPMAP_END then Some (k, p)
  else
    match fuel with
    | O => None
    | S fuel =>
        l ← zipmapDecodeLength zm p;
        let llen := ZIPMAP_LEN_BYTES l in
        same ← (match key, k with
                | Some key, None =>
                    if l =? klen then b ← rd_block zm (p + llen) l; Some (bool_decide (b = take (Z.to_nat l) key)) else Some false
                | _, _ => Some false
                end);
        if (same : bool) && negb total then Some (Some p, p)
        else
          let k := if same : bool then Some p else k in
          let p := p + u32 (llen + l) in
          l ← zipmapDecodeLength zm p;
          let p := p + ZIPMAP_LEN_BYTES l in
          free ← rd zm p;
          lookup_loop fuel zm key klen total (p + u32 (l + 1 + free)) k
    end.

(** The entry, and [*totlen] when it is asked for. *)
Definition zipmapLookupRaw (zm : list Z) (key : option bytes) (klen : Z) (total : bool) : option (option Z * Z) :=
  '(k, p) ← lookup_loop (length zm) zm key klen total 1 None;
  Some (k, u32 p + 1).

Definition zipmapRequiredLength (klen vlen : Z) : Z :=
  let l := u32 (klen + vlen + 3) in
  let l := if klen >=? ZIPMAP_BIGLEN then u32 (l + 4) else l in
  if vlen >=? ZIPMAP_BIGLEN then u32 (l + 4) else l.

Definition zipmapRawKeyLength (zm : list Z) (p : Z) : option Z :=
  l ← zipmapDecodeLength zm p;
  Some (u32 (ZIPMAP_LEN_BYTES l + l)).

Definition zipmapRawValueLength (zm : list Z) (p : Z) : option Z :=
  l ← zipmapDecodeLength zm p;
  let used := ZIPMAP_LEN_BYTES l in
  free ← rd zm (p + used);
  Some (u32 (used + (free + 1 + l))).

Definition zipmapRawEntryLength (zm : list Z) (p : Z) : option Z :=
  l ← zipmapRawKeyLength zm p;
  v ← zipmapRawValueLength zm (p + l);
  Some (u32 (l + v)).

Definition zipmapResize (zm : list Z) (len : Z) : option (list Z) :=
  wr (realloc uninit zm len) (len - 1) ZIPMAP_END.

(** The last part of [zipmapSet]: the key and the value written at [p]. *)
Definition zipmap_write (zm : list Z) (p : Z) (key : bytes) (klen : Z) (val : bytes) (vlen vempty : Z) : option (list Z) :=
  '(zm, n) ← zipmapEncodeLength zm p klen;
  let p := p + n in
  k ← rd_block key 0 klen;
  zm ← wr_block zm p k;
  let p := p + klen in
  '(zm, n) ← zipmapEncodeLength zm p vlen;
  let p := p + n in
  zm ← wr zm p (u8 vempty);
  v ← rd_block val 0 vlen;
  wr_block zm (p + 1) v.

(** The map and [*update]. *)
Definition zipmapSet (zm : list Z) (key : bytes) (klen : Z) (val : bytes) (vlen : Z) : option (list Z * bool) :=
  let reqlen := zipmapRequiredLength klen vlen in
  '(p, zmlen) ← zipmapLookupRaw zm (Some key) klen true;
  '(zm, zmlen, p, freelen, update) ← (
    match p with
    | None =>
        zm ← zipmapResize zm (u32 (zmlen + reqlen));
        n ← rd zm 0;
        zm ← (if n <? ZIPMAP_BIGLEN then wr zm 0 (u8 (n + 1)) else Some zm);
        Some (zm, u32 (zmlen + reqlen), zmlen - 1, reqlen, false)
    | Some p =>
        freelen ← zipmapRawEntryLength zm p;
        if freelen <? reqlen then
          let offset := p in
          zm ← zipmapResize zm (u32 (zmlen - freelen + reqlen));
          zm ← memmove zm (offset + reqlen) (offset + freelen) (u32 (zmlen - (offset + freelen + 1)));
          Some (zm, u32 (zmlen - freelen + reqlen), offset, reqlen, true)
        else Some (zm, zmlen, p, freelen, true)
    end);
  let empty := u32 (freelen - reqlen) in
  '(zm, vempty) ← (
    if empty >=? ZIPMAP_VALUE_MAX_FREE then
      let offset := p in
      zm ← memmove zm (offset + reqlen) (offset + freelen) (u32 (zmlen - (offset + freelen + 1)));
      zm ← zipmapResize zm (u32 (zmlen - empty));
      Some (zm, 0)
    else Some (zm, empty));
  zm ← zipmap_write zm p key klen val vlen vempty;
  Some (zm, update).

(** The map and [*deleted]. *)
Definition zipmapDel (zm : list Z) (key : bytes) (klen : Z) : option (list Z * bool) :=
  '(p, zmlen) ← zipmapLookupRaw zm (Some key) klen true;
  match p with
  | Some p =>
      freelen ← zipmapRawEntryLength zm p;
      zm ← memmove zm p (p + freelen) (u32 (zmlen - (p + freelen + 1)));
      zm ← zipmapResize zm (u32 (zmlen - freelen));
      n ← rd zm 0;
      zm ← (if n <? ZIPMAP_BIGLEN then wr zm 0 (u8 (n - 1)) else Some zm);
      Some (zm, true)
  | None => Some (zm, false)
  end.

Definition zipmapRewind (zm : list Z) : Z := 1.

(** The next pointer, with key and value as position and length; null at the end. *)
Definition zipmapNext (zm : list Z) (p : Z) : option (option (Z * (Z * Z) * (Z * Z))) :=
  c ← rd zm p;
  if c =? ZIPMAP_END then Some None
  else
    klen ← zipmapDecodeLength zm p;
    let key := p + ZIPMAP_LEN_BYTES klen in
    n ← zipmapRawKeyLength zm p;
    let p := p + n in
    vlen ← zipmapDecodeLength zm p;
    let value := p + 1 + ZIPMAP_LEN_BYTES vlen in
    n ← zipmapRawValueLength zm p;
    Some (Some (p + n, (key, klen), (value, vlen))).

(** The value as position and length. *)
Definition zipmapGet (zm : list Z) (key : bytes) (klen : Z) : option (option (Z * Z)) :=
  '(p, _) ← zipmapLookupRaw zm (Some key) klen false;
  match p with
  | None => Some None
  | Some p =>
      n ← zipmapRawKeyLength zm p;
      let p := p + n in
      vlen ← zipmapDecodeLength zm p;
      Some (Some (p + ZIPMAP_LEN_BYTES vlen + 1, vlen))
  end.

Definition zipmapExists (zm : list Z) (key : bytes) (klen : Z) : option bool :=
  '(p, _) ← zipmapLookupRaw zm (Some key) klen false;
  Some (bool_decide (p <> None)).

Fixpoint len_loop (fuel : nat) (zm : list Z) (p len : Z) : option Z :=
  match fuel with
  | O => None
  | S fuel =>
      r ← zipmapNext zm p;
      match r with
      | None => Some len
      | Some (p, _, _) => len_loop fuel zm p (u32 (len + 1))
      end
  end.

(** The number of entries, and the map in which it may have been stored. *)
Definition zipmapLen (zm : list Z) : option (Z * list Z) :=
  n ← rd zm 0;
  if n <? ZIPMAP_BIGLEN then Some (n, zm)
  else
    len ← len_loop (length zm) zm (zipmapRewind zm) 0;
    zm ← (if len <? ZIPMAP_BIGLEN then wr zm 0 (u8 len) else Some zm);
    Some (len, zm).

Definition zipmapBlobLen (zm : list Z) : option Z :=
  '(_, totlen) ← zipmapLookupRaw zm None 0 true;
  Some totlen.
End zipmap.

Example zipmap_foo :
  (r ← zipmapSet (fun _ => 7) zipmapNew (zs "foo") 3 (zs "bar") 3; zipmapSet (fun _ => 7) (fst r) (zs "foo") 3 (zs "hi") 2) =
    Some ([1; 3; 102; 111; 111; 2; 1; 104; 105; 114; 255], true).
Proof. reflexivity. Qed.
