(* ===== verification/Rio.v ===== *)
(** * Streams (src/redis-2.8.19/src/rio.c, rio.h)

    An object with the bytes of a buffer or of a file, read and written in chunks,
    with an optional checksum of what passes. A [FILE] of the C library is its
    bytes, the position, and how many bytes the device takes before a write comes
    out short. The target made of sockets is not modelled. *)
From S2P Require Import Prelude Util Object Crc64.
Open Scope Z_scope.

Inductive rio_io :=
  | RioBuffer (ptr : bytes) (pos : Z)
  | RioFile (fp : bytes) (pos : Z) (room : Z) (buffered autosync : Z).

(** [update_cksum] is either null or, as far as the state goes, the generic update. *)
Record rio := mkRio {
  io : rio_io;
  update_cksum : bool;
  cksum : Z;
  processed_bytes : Z;
  max_processing_chunk : Z
}.

Definition with_io (r : rio) (d : rio_io) : rio := mkRio d (update_cksum r) (cksum r) (processed_bytes r) (max_processing_chunk r).
Definition with_cksum (r : rio) (c : Z) : rio := mkRio (io r) (update_cksum r) c (processed_bytes r) (max_processing_chunk r).
Definition processed (r : rio) (n : Z) : rio :=
  mkRio (io r) (update_cksum r) (cksum r) (processed_bytes r + n) (max_processing_chunk r).

Definition rioInitWithBuffer (s : bytes) : rio := mkRio (RioBuffer s 0) false 0 0 0.
Definition rioInitWithFile (fp : bytes) (pos room : Z) : rio := mkRio (RioFile fp pos room 0 0) false 0 0 0.

(** ** The two targets *)

Definition rioBufferWrite (ptr : bytes) (pos : Z) (buf : bytes) : rio_io := RioBuffer (ptr ++ buf) (pos + zlen buf).

Definition rioBufferRead (ptr : bytes) (pos len : Z) : option (bytes * rio_io) :=
  if zlen ptr - pos <? len then None
  else Some (take (Z.to_nat len) (drop (Z.to_nat pos) ptr), RioBuffer ptr (pos + len)).

(** [fwrite] at the position, as much as the device takes: all of it or an error. *)
Definition fwrite (fp : bytes) (pos room : Z) (buf : bytes) : bytes * Z * Z * bool :=
  let n := Z.min (zlen buf) (Z.max 0 room) in
  let put := take (Z.to_nat n) buf in
  (take (Z.to_nat pos) fp ++ put ++ drop (Z.to_nat (pos + n)) fp, pos + n, room - n, n =? zlen buf).

Definition rioFileWrite (fp : bytes) (pos room buffered autosync : Z) (buf : bytes) : rio_io * bool :=
  let '(fp, pos, room, retval) := fwrite fp pos room buf in
  let buffered := buffered + zlen buf in
  let buffered := if negb (autosync =? 0) && (buffered >=? autosync) then 0 else buffered in
  (RioFile fp pos room buffered autosync, retval).

(** [fread] of [len] bytes: all of them or an error at the end of the file. *)
Definition rioFileRead (fp : bytes) (pos room buffered autosync len : Z) : option bytes * rio_io :=
  if zlen fp - pos <? len then (None, RioFile fp (Z.max pos (zlen fp)) room buffered autosync)
  else (Some (take (Z.to_nat len) (drop (Z.to_nat pos) fp)), RioFile fp (pos + len) room buffered autosync).

Definition io_write (d : rio_io) (buf : bytes) : rio_io * bool :=
  match d with
  | RioBuffer ptr pos => (rioBufferWrite ptr pos buf, true)
  | RioFile fp pos room buffered autosync => rioFileWrite fp pos room buffered autosync buf
  end.

Definition io_read (d : rio_io) (len : Z) : option bytes * rio_io :=
  match d with
  | RioBuffer ptr pos =>
      match rioBufferRead ptr pos len with Some (b, d) => (Some b, d) | None => (None, d) end
  | RioFile fp pos room buffered autosync => rioFileRead fp pos room buffered autosync len
  end.

(** ** Reading and writing *)

Definition rioGenericUpdateChecksum (r : rio) (buf : bytes) : option rio :=
  c ← crc64 (cksum r) buf; Some (with_cksum r c).

Definition chunk (r : rio) (len : Z) : Z :=
  if negb (max_processing_chunk r =? 0) && (max_processing_chunk r <? len) then max_processing_chunk r else len.

(** The loops of [rioWrite] and [rioRead]; each turn passes a byte at least. The
    flag is the result of [rioWrite], [None] that of a failed [rioRead]. *)
Fixpoint rioWrite_loop (fuel : nat) (r : rio) (buf : bytes) : option (rio * bool) :=
  match buf, fuel with
  | [], _ => Some (r, true)
  | _, O => None
  | _, S fuel =>
      let bytes_to_write := chunk r (zlen buf) in
      let b := take (Z.to_nat bytes_to_write) buf in
      r ← (if update_cksum r then rioGenericUpdateChecksum r b else Some r);
      let '(d, ok) := io_write (io r) b in
      let r := with_io r d in
      if ok : bool then rioWrite_loop fuel (processed r bytes_to_write) (drop (Z.to_nat bytes_to_write) buf)
      else Some (r, false)
  end.

Definition rioWrite (r : rio) (buf : bytes) : option (rio * bool) := rioWrite_loop (length buf) r buf.

Fixpoint rioRead_loop (fuel : nat) (r : rio) (len : Z) (buf : bytes) : option (option bytes * rio) :=
  if len =? 0 then Some (Some buf, r)
  else
    match fuel with
    | O => None
    | S fuel =>
        let bytes_to_read := chunk r len in
        match io_read (io r) bytes_to_read with
        | (None, d) => Some (None, with_io r d)
        | (Some b, d) =>
            let r := with_io r d in
            r ← (if update_cksum r then rioGenericUpdateChecksum r b else Some r);
            rioRead_loop fuel (processed r bytes_to_read) (len - bytes_to_read) (buf ++ b)
        end
    end.

Definition rioRead (r : rio) (len : Z) : option (option bytes * rio) := rioRead_loop (Z.to_nat len) r len [].

Definition rioTell (r : rio) : Z := match io r with RioBuffer _ pos => pos | RioFile _ pos _ _ _ => pos end.

Definition rioSetAutoSync (r : rio) (bytes_ : Z) : option rio :=
  match io r with
  | RioFile fp pos room buffered _ => Some (with_io r (RioFile fp pos room buffered bytes_))
  | RioBuffer _ _ => None
  end.

(** ** The protocol for the append only file *)

(** The result 0 is an error. *)
Definition rioWriteBulkCount (r : rio) (prefix count : Z) : option (rio * Z) :=
  '(cbuf, n) ← ll2string (replicate 127 0) 127 count;
  digits ← rd_block cbuf 0 n;
  let cbuf := prefix :: digits ++ [13; 10] in
  '(r, ok) ← rioWrite r cbuf;
  Some (r, if ok : bool then zlen cbuf else 0).

Definition rioWriteBulkString (r : rio) (buf : bytes) (len : Z) : option (rio * Z) :=
  '(r, nwritten) ← rioWriteBulkCount r 36 (s32 len);
  if nwritten =? 0 then Some (r, 0)
  else
    b ← rd_block buf 0 len;
    '(r, ok) ← (if len >? 0 then rioWrite r b else Some (r, true));
    if negb ok then Some (r, 0)
    else
      '(r, ok) ← rioWrite r [13; 10];
      Some (r, if ok : bool then nwritten + len + 2 else 0).

Definition rioWriteBulkLongLong (r : rio) (l : Z) : option (rio * Z) :=
  '(lbuf, llen) ← ll2string (replicate 32 0) 32 l;
  rioWriteBulkString r lbuf llen.

(** ** What is read *)

(** The checksum, total on lists of bytes. *)
Definition crc_of (c : Z) (s : bytes) : Z := default c (crc64 c s).

Definition content (d : rio_io) : bytes := match d with RioBuffer p _ => p | RioFile p _ _ _ _ => p end.
Definition pos_of (d : rio_io) : Z := match d with RioBuffer _ n => n | RioFile _ n _ _ _ => n end.

(** What is left to be read. *)
Definition unread (r : rio) : bytes := drop (Z.to_nat (pos_of (io r))) (content (io r)).

Record rio_ok (r : rio) : Prop := {
  ok_pos : 0 <= pos_of (io r) <= zlen (content (io r));
  ok_bytes : bytes_ok (content (io r));
  ok_cksum : word (cksum r);
  ok_chunk : 0 <= max_processing_chunk r
}.

Definition moved (d : rio_io) (n : Z) : rio_io :=
  match d with
  | RioBuffer p pos => RioBuffer p (pos + n)
  | RioFile p pos room b a => RioFile p (pos + n) room b a
  end.

(** The stream after [bs] have been read from it. *)
Definition after (r : rio) (bs : bytes) : rio :=
  mkRio (moved (io r) (zlen bs)) (update_cksum r) (if update_cksum r then crc_of (cksum r) bs else cksum r)
    (processed_bytes r + zlen bs) (max_processing_chunk r).

Lemma crc_of_ok c s : word c -> bytes_ok s -> crc64 c s = Some (crc_of c s) /\ word (crc_of c s).
Proof. intros Hc Hs. destruct (crc64_word s c Hs Hc) as (c' & Hrun & Hw). unfold crc_of. rewrite Hrun. by split. Qed.

Lemma crc_of_app c s1 s2 : word c -> bytes_ok (s1 ++ s2) -> crc_of c (s1 ++ s2) = crc_of (crc_of c s1) s2.
Proof.
  intros Hc [Hs1 Hs2]%Forall_app. destruct (crc_of_ok c s1 Hc Hs1) as [H1 Hw].
  destruct (crc_of_ok _ s2 Hw Hs2) as [H2 _]. unfold crc_of at 1. rewrite crc64_app, H1. cbn [mbind option_bind]. by rewrite H2.
Qed.

Lemma moved_pos d n : pos_of (moved d n) = pos_of d + n.
Proof. by destruct d. Qed.

Lemma moved_content d n : content (moved d n) = content d.
Proof. by destruct d. Qed.

Lemma moved_moved d n m : moved (moved d n) m = moved d (n + m).
Proof. destruct d; cbn [moved]; by rewrite Z.add_assoc. Qed.

Lemma unread_len r : rio_ok r -> zlen (unread r) = zlen (content (io r)) - pos_of (io r).
Proof. intros [Hp _ _ _]. unfold unread, zlen in *. rewrite length_drop. lia. Qed.

Lemma unread_bytes r : rio_ok r -> bytes_ok (unread r).
Proof. intros [_ Hb _ _]. by apply Forall_drop. Qed.

Lemma after_nil r : after r [] = r.
Proof.
  destruct r as [d u c p m]. unfold after. cbn [io update_cksum cksum processed_bytes max_processing_chunk].
  change (zlen (@nil Z)) with 0. rewrite Z.add_0_r. f_equal; [destruct d; cbn; by rewrite Z.add_0_r|by destruct u].
Qed.

Lemma after_unread r bs tl : rio_ok r -> unread r = bs ++ tl -> unread (after r bs) = tl.
Proof.
  intros [Hp _ _ _] Hu. unfold unread, after in *. cbn [io]. rewrite moved_pos, moved_content.
  rewrite Z2Nat.inj_add, <- drop_drop, Hu by (lia || apply zlen_nonneg). apply drop_app_length'. unfold zlen. lia.
Qed.

Lemma after_ok r bs tl : rio_ok r -> unread r = bs ++ tl -> rio_ok (after r bs).
Proof.
  intros Hr Hu. pose proof (unread_len r Hr) as Hl. pose proof (unread_bytes r Hr) as Hb. rewrite Hu in Hl, Hb.
  rewrite zlen_app in Hl. pose proof (zlen_nonneg bs). pose proof (zlen_nonneg tl). apply Forall_app in Hb as [Hb _].
  destruct Hr as [Hp Hc Hw Hm]. split; unfold after; cbn [io cksum max_processing_chunk]; rewrite ?moved_pos, ?moved_content; try done; [lia|].
  destruct (update_cksum r); [by apply crc_of_ok|done].
Qed.

Lemma after_after r b1 b2 : word (cksum r) -> bytes_ok (b1 ++ b2) -> after (after r b1) b2 = after r (b1 ++ b2).
Proof.
  intros Hw Hb. unfold after. cbn [io update_cksum cksum processed_bytes max_processing_chunk].
  rewrite moved_moved, zlen_app, Z.add_assoc. f_equal. destruct (update_cksum r); [|done]. by rewrite crc_of_app.
Qed.

(** One call of the target. *)
Lemma io_read_ok r bs tl : rio_ok r -> unread r = bs ++ tl -> io_read (io r) (zlen bs) = (Some bs, moved (io r) (zlen bs)).
Proof.
  intros Hr Hu. pose proof (unread_len r Hr) as Hl. rewrite Hu, zlen_app in Hl. pose proof (zlen_nonneg tl).
  unfold unread in Hu. destruct r as [d u c p m]. cbn [io] in *.
  destruct d as [ptr pos|fp pos room b a]; cbn [io_read content pos_of moved] in *;
    [unfold rioBufferRead; destruct (Z.ltb_spec (zlen ptr - pos) (zlen bs)); [lia|]|
     unfold rioFileRead; destruct (Z.ltb_spec (zlen fp - pos) (zlen bs)); [lia|]];
    rewrite Hu; do 2 f_equal; (rewrite take_app_length'; [done|unfold zlen; lia]).
Qed.

Lemma io_read_short r n : rio_ok r -> zlen (unread r) < n ->
  exists d, io_read (io r) n = (None, d).
Proof.
  intros Hr Hn. rewrite (unread_len r Hr) in Hn. destruct r as [d u c p m]. cbn [io] in *.
  destruct d as [ptr pos|fp pos room b a]; cbn [io_read content pos_of] in *;
    [unfold rioBufferRead; destruct (Z.ltb_spec (zlen ptr - pos) n); [eauto|lia]|
     unfold rioFileRead; destruct (Z.ltb_spec (zlen fp - pos) n); [eauto|lia]].
Qed.

Lemma chunk_bounds r n : rio_ok r -> 0 < n -> 0 < chunk r n <= n.
Proof.
  intros [_ _ _ Hm] Hn. unfold chunk. destruct (Z.eqb_spec (max_processing_chunk r) 0); cbn [negb andb]; [lia|].
  destruct (Z.ltb_spec (max_processing_chunk r) n); lia.
Qed.

(** A turn of the loop is a step of [after]. *)
Lemma read_turn r b tl : rio_ok r -> unread r = b ++ tl ->
  (r1 ← (if update_cksum (with_io r (moved (io r) (zlen b))) then rioGenericUpdateChecksum (with_io r (moved (io r) (zlen b))) b
         else Some (with_io r (moved (io r) (zlen b)))); Some (processed r1 (zlen b))) = Some (after r b).
Proof.
  intros Hr Hu. pose proof (unread_bytes r Hr) as Hb. rewrite Hu in Hb. apply Forall_app in Hb as [Hb _].
  destruct (crc_of_ok (cksum r) b (ok_cksum r Hr) Hb) as [Hc _]. unfold rioGenericUpdateChecksum, with_io, after. cbn [update_cksum cksum].
  destruct (update_cksum r) eqn:Hup; [rewrite Hc|]; done.
Qed.

Lemma rioRead_loop_ok fuel : forall r bs tl acc, rio_ok r -> unread r = bs ++ tl -> (length bs <= fuel)%nat ->
  rioRead_loop fuel r (zlen bs) acc = Some (Some (acc ++ bs), after r bs).
Proof.
  induction fuel as [|fuel IH]; intros r bs tl acc Hr Hu Hf.
  - destruct bs; [|cbn in Hf; lia]. cbn. by rewrite app_nil_r, after_nil.
  - destruct (decide (bs = [])) as [->|Hne]; [cbn; by rewrite app_nil_r, after_nil|].
    cbn [rioRead_loop]. assert (0 < zlen bs) as Hpos by (destruct bs; [done|]; unfold zlen; cbn; lia).
    destruct (Z.eqb_spec (zlen bs) 0); [lia|]. pose proof (chunk_bounds r (zlen bs) Hr Hpos) as Hc.
    set (c := chunk r (zlen bs)) in *. clearbody c. set (b := take (Z.to_nat c) bs). set (b' := drop (Z.to_nat c) bs).
    assert (zlen b = c) as Hb by (unfold b, zlen in *; rewrite length_take; lia).
    assert (bs = b ++ b') as Hbs by (unfold b, b'; by rewrite take_drop).
    assert (unread r = b ++ b' ++ tl) as Hu' by by rewrite app_assoc, <- Hbs.
    pose proof (io_read_ok r b _ Hr Hu') as Hio. pose proof (read_turn r b _ Hr Hu') as Ht. rewrite Hb in Hio, Ht. rewrite Hio.
    destruct (if update_cksum _ then _ else _) as [r1|]; [|done]. cbn [mbind option_bind] in *. assert (processed r1 c = after r b) as -> by congruence.
    replace (zlen bs - c) with (zlen b') by (rewrite Hbs, zlen_app; lia).
    rewrite (IH (after r b) b' tl (acc ++ b)); [|by eapply after_ok|by apply (after_unread r b)|].
    + pose proof (unread_bytes r Hr) as Hok. rewrite Hu in Hok. apply Forall_app in Hok as [Hok _]. rewrite Hbs in Hok.
      rewrite after_after by (done || apply Hr). rewrite <- app_assoc. by rewrite <- Hbs.
    + apply (f_equal length) in Hbs. rewrite length_app in Hbs. unfold zlen in *. lia.
Qed.

(** [rioRead] returns the next bytes, whatever the size of the chunks. *)
Lemma rioRead_ok r bs tl : rio_ok r -> unread r = bs ++ tl -> rioRead r (zlen bs) = Some (Some bs, after r bs).
Proof. intros Hr Hu. apply (rioRead_loop_ok _ r bs tl []); [done|done|unfold zlen; lia]. Qed.

Lemma rioRead_loop_short fuel : forall r n acc, rio_ok r -> zlen (unread r) < n -> n <= Z.of_nat fuel ->
  exists r', rioRead_loop fuel r n acc = Some (None, r').
Proof.
  induction fuel as [|fuel IH]; intros r n acc Hr Hn Hf; pose proof (zlen_nonneg (unread r)); [lia|].
  cbn [rioRead_loop]. destruct (Z.eqb_spec n 0); [lia|]. pose proof (chunk_bounds r n Hr ltac:(lia)) as Hc.
  set (c := chunk r n) in *. clearbody c. destruct (decide (zlen (unread r) < c)) as [Hs|Hs].
  - destruct (io_read_short r c Hr Hs) as (d & ->). eauto.
  - set (b := take (Z.to_nat c) (unread r)). set (b' := drop (Z.to_nat c) (unread r)).
    assert (zlen b = c) as Hb by (unfold b, zlen in *; rewrite length_take; lia).
    assert (unread r = b ++ b') as Hu by (unfold b, b'; by rewrite take_drop).
    pose proof (io_read_ok r b _ Hr Hu) as Hio. pose proof (read_turn r b _ Hr Hu) as Ht. rewrite Hb in Hio, Ht. rewrite Hio.
    destruct (if update_cksum _ then _ else _) as [r1|]; [|done]. cbn [mbind option_bind] in *. assert (processed r1 c = after r b) as -> by congruence.
    apply IH; [by eapply after_ok| |lia]. rewrite (after_unread r b b' Hr Hu). rewrite Hu, zlen_app in Hn. lia.
Qed.

(** At the end of the stream it fails. *)
Lemma rioRead_short r n : rio_ok r -> zlen (unread r) < n -> exists r', rioRead r n = Some (None, r').
Proof. intros Hr Hn. pose proof (zlen_nonneg (unread r)). apply rioRead_loop_short; [done|done|lia]. Qed.

(** ** What is written *)

(** Room on the device; a buffer has no bound. *)
Definition room_for (d : rio_io) (n : Z) : Prop := match d with RioBuffer _ _ => True | RioFile _ _ room _ _ => n <= room end.

(** The stream [r'] is [r] with [bs] appended. *)
Record wrote (r : rio) (bs : bytes) (r' : rio) : Prop := {
  wrote_content : content (io r') = content (io r) ++ bs;
  wrote_upd : update_cksum r' = update_cksum r;
  wrote_cksum : cksum r' = if update_cksum r then crc_of (cksum r) bs else cksum r;
  wrote_processed : processed_bytes r' = processed_bytes r + zlen bs;
  wrote_chunk : max_processing_chunk r' = max_processing_chunk r;
  wrote_room : forall n, room_for (io r') n <-> room_for (io r) (zlen bs + n)
}.

(** A stream to append to. *)
Record sink (r : rio) : Prop := {
  sink_pos : pos_of (io r) = zlen (content (io r));
  sink_cksum : word (cksum r);
  sink_chunk : 0 <= max_processing_chunk r
}.

Lemma wrote_trans r b1 r1 b2 r2 : word (cksum r) -> bytes_ok (b1 ++ b2) -> wrote r b1 r1 -> wrote r1 b2 r2 -> wrote r (b1 ++ b2) r2.
Proof.
  intros Hw Hb [H1 H2 H3 H4 H5 H6] [G1 G2 G3 G4 G5 G6]. split; try congruence.
  - by rewrite G1, H1, app_assoc.
  - rewrite G3, H2, H3. destruct (update_cksum r); [|done]. by rewrite crc_of_app.
  - rewrite G4, H4, zlen_app. lia.
  - intros n. by rewrite G6, H6, zlen_app, Z.add_assoc.
Qed.

Lemma io_write_ok d bs : pos_of d = zlen (content d) -> room_for d (zlen bs) ->
  exists d', io_write d bs = (d', true) /\ content d' = content d ++ bs /\ pos_of d' = zlen (content d') /\
    forall n, room_for d' n <-> room_for d (zlen bs + n).
Proof.
  destruct d as [ptr pos|fp pos room b a]; cbn [pos_of content room_for io_write]; intros -> Hroom.
  - eexists. split; [reflexivity|]. cbn. split; [done|]. split; [by rewrite zlen_app|done].
  - unfold rioFileWrite, fwrite. pose proof (zlen_nonneg bs). rewrite Z.min_l by lia. rewrite Z.eqb_refl.
    eexists. split; [reflexivity|]. cbn [content pos_of room_for].
    rewrite (firstn_all2 bs) by (unfold zlen; lia). rewrite drop_ge by (unfold zlen; lia). rewrite app_nil_r.
    rewrite firstn_all2 by (unfold zlen; lia). split; [done|]. split; [by rewrite zlen_app|]. intros n. lia.
Qed.

Lemma io_write_full d bs : bs <> [] -> ~ room_for d (zlen bs) -> exists d', io_write d bs = (d', false).
Proof.
  destruct d as [ptr pos|fp pos room b a]; cbn [room_for io_write]; [tauto|]. intros Hne Hroom.
  assert (0 < zlen bs) by (destruct bs; [done|]; unfold zlen; cbn; lia).
  unfold rioFileWrite, fwrite. destruct (Z.eqb_spec (Z.min (zlen bs) (Z.max 0 room)) (zlen bs)); [lia|eauto].
Qed.

Lemma room_for_le d n m : room_for d n -> m <= n -> room_for d m.
Proof. destruct d; cbn [room_for]; [done|lia]. Qed.

#[global] Instance room_for_dec d n : Decision (room_for d n).
Proof. destruct d; cbn [room_for]; solve_decision. Defined.

Lemma wrote_nil r : word (cksum r) -> wrote r [] r.
Proof.
  split; try done; [by rewrite app_nil_r| |change (zlen []) with 0; lia]. by destruct (update_cksum r).
Qed.

(** A turn of the loop of [rioWrite]. *)
Lemma write_turn r b : sink r -> bytes_ok b -> b <> [] ->
  exists r1 d ok, (if update_cksum r then rioGenericUpdateChecksum r b else Some r) = Some r1 /\ io_write (io r1) b = (d, ok) /\
    if (ok : bool) then room_for (io r) (zlen b) /\ wrote r b (processed (with_io r1 d) (zlen b)) /\ sink (processed (with_io r1 d) (zlen b))
    else ~ room_for (io r) (zlen b).
Proof.
  destruct r as [d0 u c p m]. intros [Hp Hw Hm] Hb Hne. cbn [io cksum max_processing_chunk update_cksum] in *.
  destruct (crc_of_ok c b Hw Hb) as [Hc Hw'].
  exists (mkRio d0 u (if u then crc_of c b else c) p m). unfold rioGenericUpdateChecksum. cbn [io cksum].
  assert ((if u then c' ← crc64 c b; Some (with_cksum (mkRio d0 u c p m) c') else Some (mkRio d0 u c p m)) =
    Some (mkRio d0 u (if u then crc_of c b else c) p m)) as -> by (destruct u; [by rewrite Hc|done]).
  destruct (decide (room_for d0 (zlen b))) as [Hr|Hr].
  - destruct (io_write_ok d0 b Hp Hr) as (d & Hio & Hcon & Hpos & Hroom). exists d, true.
    split; [done|]. split; [done|]. split; [done|]. split; split; cbn; try done. by destruct u.
  - destruct (io_write_full d0 b Hne Hr) as (d & Hio). by exists d, false.
Qed.

Lemma rioWrite_loop_ok fuel : forall r bs, sink r -> bytes_ok bs -> (length bs <= fuel)%nat ->
  exists r' ok, rioWrite_loop fuel r bs = Some (r', ok) /\
    if (ok : bool) then wrote r bs r' /\ sink r' else ~ room_for (io r) (zlen bs).
Proof.
  induction fuel as [|fuel IH]; intros r bs Hs Hb Hf.
  { destruct bs; [|cbn in Hf; lia]. exists r, true. split; [done|]. split; [by apply wrote_nil, Hs|done]. }
  destruct (decide (bs = [])) as [->|Hne]; [exists r, true; split; [done|]; split; [by apply wrote_nil, Hs|done]|].
  assert (0 < zlen bs) as Hpos by (destruct bs; [done|]; unfold zlen; cbn; lia).
  assert (0 < chunk r (zlen bs) <= zlen bs) as Hc.
  { pose proof (sink_chunk r Hs). unfold chunk. destruct (Z.eqb_spec (max_processing_chunk r) 0); cbn [negb andb]; [lia|].
    destruct (Z.ltb_spec (max_processing_chunk r) (zlen bs)); lia. }
  set (c := chunk r (zlen bs)) in *. set (b := take (Z.to_nat c) bs). set (b' := drop (Z.to_nat c) bs).
  assert (zlen b = c) as Hzb by (unfold b, zlen in *; rewrite length_take; lia).
  assert (bs = b ++ b') as Hbs by (unfold b, b'; by rewrite take_drop).
  assert (rioWrite_loop (S fuel) r bs =
    (r1 ← (if update_cksum r then rioGenericUpdateChecksum r b else Some r);
     let '(d, ok) := io_write (io r1) b in
     if ok : bool then rioWrite_loop fuel (processed (with_io r1 d) (zlen b)) b' else Some (with_io r1 d, false))) as ->
    by (destruct bs; [done|]; by rewrite Hzb).
  rewrite Hbs in Hb. pose proof Hb as Hb0. apply Forall_app in Hb as [Hb1 Hb2].
  destruct (write_turn r b Hs Hb1) as (r1 & d & ok & -> & Hio & Hok).
  { intros Hbn. rewrite Hbn in Hzb. change (zlen (@nil Z)) with 0 in Hzb. lia. }
  cbn [mbind option_bind]. rewrite Hio. destruct ok.
  - destruct Hok as (Hroom & Hwr & Hsink).
    destruct (IH (processed (with_io r1 d) (zlen b)) b' Hsink Hb2) as (r' & ok & -> & Hok).
    { apply (f_equal length) in Hbs. rewrite length_app in Hbs. unfold zlen in *. lia. }
    exists r', ok. split; [done|]. destruct ok.
    + destruct Hok as [Hw2 Hs2]. split; [|done]. rewrite Hbs. by eapply wrote_trans; [apply Hs|done|..].
    + rewrite Hbs, zlen_app. by rewrite <- (wrote_room _ _ _ Hwr).
  - exists (with_io r1 d), false. split; [done|]. intros Hr. apply Hok. eapply room_for_le; [done|]. lia.
Qed.

(** [rioWrite] appends everything, or the device is too small. *)
Lemma rioWrite_ok r bs : sink r -> bytes_ok bs ->
  exists r' ok, rioWrite r bs = Some (r', ok) /\
    if (ok : bool) then wrote r bs r' /\ sink r' else ~ room_for (io r) (zlen bs).
Proof. intros. by apply rioWrite_loop_ok. Qed.
