(* ===== verification/Rdb.v ===== *)
(** * The dump format: saving (src/redis-2.8.19/src/rdb.c, rdb.h)

    The functions that write values, keys and databases to a stream. As in the code
    the stream may be null, to measure what would be written; -1 is an error of the
    stream, the other results count bytes in an [int]. A sorted set is not among the
    values of this file. The host is little-endian. *)
From S2P Require Import Prelude Util Sds Object Lzf Intset Dict DictIter Ziplist HashType SetType ListType Rio.
Open Scope Z_scope.

Definition REDIS_RDB_VERSION : Z := 6.

Definition REDIS_RDB_6BITLEN : Z := 0.
Definition REDIS_RDB_14BITLEN : Z := 1.
Definition REDIS_RDB_32BITLEN : Z := 2.
Definition REDIS_RDB_ENCVAL : Z := 3.
Definition REDIS_RDB_LENERR : Z := 4294967295.

Definition REDIS_RDB_ENC_INT8 : Z := 0.
Definition REDIS_RDB_ENC_INT16 : Z := 1.
Definition REDIS_RDB_ENC_INT32 : Z := 2.
Definition REDIS_RDB_ENC_LZF : Z := 3.

Definition REDIS_RDB_TYPE_STRING : Z := 0.
Definition REDIS_RDB_TYPE_LIST : Z := 1.
Definition REDIS_RDB_TYPE_SET : Z := 2.
Definition REDIS_RDB_TYPE_ZSET : Z := 3.
Definition REDIS_RDB_TYPE_HASH : Z := 4.
Definition REDIS_RDB_TYPE_HASH_ZIPMAP : Z := 9.
Definition REDIS_RDB_TYPE_LIST_ZIPLIST : Z := 10.
Definition REDIS_RDB_TYPE_SET_INTSET : Z := 11.
Definition REDIS_RDB_TYPE_ZSET_ZIPLIST : Z := 12.
Definition REDIS_RDB_TYPE_HASH_ZIPLIST : Z := 13.

Definition rdbIsObjectType (t : Z) : bool := (t >=? 0) && (t <=? 4) || (t >=? 9) && (t <=? 13).

Definition REDIS_RDB_OPCODE_EXPIRETIME_MS : Z := 252.
Definition REDIS_RDB_OPCODE_EXPIRETIME : Z := 253.
Definition REDIS_RDB_OPCODE_SELECTDB : Z := 254.
Definition REDIS_RDB_OPCODE_EOF : Z := 255.

(** A value with its encoding. *)
Inductive value :=
  | VString (o : robj)
  | VList (o : listobj)
  | VSet (o : setobj)
  | VHash (o : hobj).

(** The configuration, and what the table of the compressor holds at first. *)
Record rdb_env := mkRdbEnv {
  types : type_env;
  rdb_compression : bool;
  rdb_checksum : bool;
  htab0 : Z -> Z
}.

(** ** Writers *)

Definition writer : Type := option rio -> option (Z * option rio).

(** [if ((n = f) == -1) return -1;] *)
Definition wbind (f : writer) (k : Z -> writer) : writer := fun rdb =>
  '(n, rdb) ← f rdb;
  if n =? -1 then Some (-1, rdb) else k n rdb.

Definition wret (n : Z) : writer := fun rdb => Some (n, rdb).

(** A computation on memory, which can leave a block. *)
Definition wlift {A} (o : option A) (k : A -> writer) : writer := fun rdb => x ← o; k x rdb.

Notation "n ⇐ f ; k" := (wbind f (fun n => k)) (at level 20, f at level 100, k at level 200, right associativity).

Definition rdbWriteRaw (p : bytes) : writer := fun rdb =>
  match rdb with
  | None => Some (s32 (zlen p), None)
  | Some r => '(r, ok) ← rioWrite r p; Some (if ok : bool then s32 (zlen p) else -1, Some r)
  end.

Definition rdbSaveType (type : Z) : writer := rdbWriteRaw [u8 type].

Definition rdbSaveMillisecondTime (t : Z) : writer := rdbWriteRaw (le_bytes 8 t).

(** The byte order of the network. *)
Definition htonl (x : Z) : Z := le_val (rev (le_bytes 4 x)).

Definition rdbSaveLen (len : Z) : writer :=
  let len := u32 len in
  if len <? Z.shiftl 1 6 then
    _ ⇐ rdbWriteRaw [Z.lor (Z.land len 255) (Z.shiftl REDIS_RDB_6BITLEN 6)];
    wret 1
  else if len <? Z.shiftl 1 14 then
    _ ⇐ rdbWriteRaw [Z.lor (Z.land (Z.shiftr len 8) 255) (Z.shiftl REDIS_RDB_14BITLEN 6); Z.land len 255];
    wret 2
  else
    _ ⇐ rdbWriteRaw [Z.shiftl REDIS_RDB_32BITLEN 6];
    _ ⇐ rdbWriteRaw (le_bytes 4 (htonl len));
    wret (1 + 4).

(** The bytes in [enc]; [None] is the length 0. *)
Definition rdbEncodeInteger (value : Z) : option bytes :=
  let tag enctype := Z.lor (Z.shiftl REDIS_RDB_ENCVAL 6) enctype in
  if (value >=? - Z.shiftl 1 7) && (value <=? Z.shiftl 1 7 - 1) then
    Some [tag REDIS_RDB_ENC_INT8; Z.land value 255]
  else if (value >=? - Z.shiftl 1 15) && (value <=? Z.shiftl 1 15 - 1) then
    Some [tag REDIS_RDB_ENC_INT16; Z.land value 255; Z.land (Z.shiftr value 8) 255]
  else if (value >=? - Z.shiftl 1 31) && (value <=? Z.shiftl 1 31 - 1) then
    Some [tag REDIS_RDB_ENC_INT32; Z.land value 255; Z.land (Z.shiftr value 8) 255;
          Z.land (Z.shiftr value 16) 255; Z.land (Z.shiftr value 24) 255]
  else None.

(** [s] is the block of the string, with what follows it in memory. *)
Definition rdbTryIntegerEncoding (s : bytes) (len : Z) : option (option bytes) :=
  p ← c_str s;
  let '(value, endptr, _) := strtoll p in
  if negb (bool_decide (endptr = [])) then Some None
  else
    '(buf, _) ← ll2string (replicate 32 0) 32 value;
    n ← strlen buf;
    if negb (n =? len) then Some None
    else
      a ← rd_block buf 0 len;
      b ← rd_block s 0 len;
      Some (if bool_decide (a = b) then rdbEncodeInteger value else None).

Section save.
Context (env : rdb_env).

Definition rdbSaveLzfStringObject (s : bytes) (len : Z) : writer :=
  if len <=? 4 then wret 0
  else
    let outlen := len - 4 in
    wlift (rd_block s 0 len) (fun inp =>
    wlift (lzf_compress inp outlen (htab0 env) (realloc (fresh (types env)) [] (outlen + 1))) (fun '(comprlen, out) =>
    if comprlen =? 0 then wret 0
    else
      n1 ⇐ rdbWriteRaw [Z.lor (Z.shiftl REDIS_RDB_ENCVAL 6) REDIS_RDB_ENC_LZF];
      n2 ⇐ rdbSaveLen comprlen;
      n3 ⇐ rdbSaveLen len;
      wlift (rd_block out 0 comprlen) (fun data =>
      n4 ⇐ rdbWriteRaw data;
      wret (s32 (n1 + n2 + n3 + n4))))).

(** "Store verbatim". *)
Definition save_verbatim (s : bytes) (len : Z) : writer :=
  n ⇐ rdbSaveLen len;
  if len >? 0 then
    wlift (rd_block s 0 len) (fun data =>
    _ ⇐ rdbWriteRaw data;
    wret (s32 (n + len)))
  else wret n.

Definition rdbSaveRawString (s : bytes) (len : Z) : writer :=
  wlift (if len <=? 11 then rdbTryIntegerEncoding s len else Some None) (fun enc =>
  match enc with
  | Some buf => _ ⇐ rdbWriteRaw buf; wret (zlen buf)
  | None =>
      n ⇐ (if rdb_compression env && (len >? 20) then rdbSaveLzfStringObject s len else wret 0);
      if n >? 0 then wret n else save_verbatim s len
  end).

Definition rdbSaveLongLongAsStringObject (value : Z) : writer :=
  match rdbEncodeInteger value with
  | Some buf => rdbWriteRaw buf
  | None =>
      wlift (ll2string (replicate 32 0) 32 value) (fun '(buf, enclen) =>
      if negb (enclen <? 32) then (fun _ => None)
      else
        n1 ⇐ rdbSaveLen enclen;
        wlift (rd_block buf 0 enclen) (fun data =>
        n2 ⇐ rdbWriteRaw data;
        wret (s32 (n1 + n2))))
  end.

(** An sds is followed by its terminator. *)
Definition rdbSaveStringObject (obj : robj) : writer :=
  match obj with
  | StrInt value => rdbSaveLongLongAsStringObject value
  | StrRaw s => rdbSaveRawString (s ++ [0]) (zlen s)
  | _ => fun _ => None
  end.

Definition rdbSaveObjectType (o : value) : writer :=
  rdbSaveType
    match o with
    | VString _ => REDIS_RDB_TYPE_STRING
    | VList (ListZiplist _) => REDIS_RDB_TYPE_LIST_ZIPLIST
    | VList (ListLinked _) => REDIS_RDB_TYPE_LIST
    | VSet (SetIntset _) => REDIS_RDB_TYPE_SET_INTSET
    | VSet (SetHT _) => REDIS_RDB_TYPE_SET
    | VHash (HashZiplist _) => REDIS_RDB_TYPE_HASH_ZIPLIST
    | VHash (HashHT _) => REDIS_RDB_TYPE_HASH
    end.

(** The loops over the elements add to [nwritten]. *)
Fixpoint save_list (l : list robj) (nwritten : Z) : writer :=
  match l with
  | [] => wret nwritten
  | eleobj :: l => n ⇐ rdbSaveStringObject eleobj; save_list l (s32 (nwritten + n))
  end.

Fixpoint save_set (fuel : nat) (set : dict bytes unit) (di : dictIterator bytes unit) (nwritten : Z) : writer :=
  match fuel with
  | O => fun _ => None
  | S fuel =>
      wlift (dictNext set di) (fun '(de, di, _) =>
      match de with
      | None => wret nwritten
      | Some (k, _) =>
          wlift (encode_object (StrRaw k)) (fun eleobj =>
          n ⇐ rdbSaveStringObject eleobj;
          save_set fuel set di (s32 (nwritten + n)))
      end)
  end.

Fixpoint save_hash (fuel : nat) (d : dict bytes robj) (di : dictIterator bytes robj) (nwritten : Z) : writer :=
  match fuel with
  | O => fun _ => None
  | S fuel =>
      wlift (dictNext d di) (fun '(de, di, _) =>
      match de with
      | None => wret nwritten
      | Some (k, val) =>
          wlift (encode_object (StrRaw k)) (fun key =>
          n1 ⇐ rdbSaveStringObject key;
          n2 ⇐ rdbSaveStringObject val;
          save_hash fuel d di (s32 (s32 (nwritten + n1) + n2)))
      end)
  end.

(** The bytes of an intset. *)
Definition intset_block (s : intset) : bytes := le_bytes 4 (is_encoding s) ++ le_bytes 4 (is_length s) ++ is_contents s.

Definition rdbSaveObject (o : value) : writer :=
  match o with
  | VString o => rdbSaveStringObject o
  | VList (ListZiplist zl) => wlift (ziplistBlobLen zl) (fun l => rdbSaveRawString zl l)
  | VList (ListLinked l) => n ⇐ rdbSaveLen (zlen l); save_list l n
  | VSet (SetIntset s) => rdbSaveRawString (intset_block s) (intsetBlobLen s)
  | VSet (SetHT d) =>
      n ⇐ rdbSaveLen (dictSize d);
      save_set (S (Z.to_nat (dictSize d))) d dictGetIterator n
  | VHash (HashZiplist zl) => wlift (ziplistBlobLen zl) (fun l => rdbSaveRawString zl l)
  | VHash (HashHT d) =>
      n ⇐ rdbSaveLen (dictSize d);
      save_hash (S (Z.to_nat (dictSize d))) d dictGetIterator n
  end.

(** [rdbSaveObject(NULL,o)]. *)
Definition rdbSavedObjectLen (o : value) : option Z :=
  '(len, _) ← rdbSaveObject o None;
  if len =? -1 then None else Some len.

(** 1 when the pair was saved, 0 when it was left out. *)
Definition rdbSaveKeyValuePair (key : robj) (val : value) (expiretime now : Z) : writer :=
  let save :=
    _ ⇐ rdbSaveObjectType val;
    _ ⇐ rdbSaveStringObject key;
    _ ⇐ rdbSaveObject val;
    wret 1 in
  if negb (expiretime =? -1) then
    if expiretime <? now then wret 0
    else
      _ ⇐ rdbSaveType REDIS_RDB_OPCODE_EXPIRETIME_MS;
      _ ⇐ rdbSaveMillisecondTime expiretime;
      save
  else save.
End save.

(** ** Databases *)

Record rdb_db := mkRdbDb { rd_dict : dict bytes value; rd_expires : dict bytes Z }.

Section save_dbs.
Context (env : rdb_env).

(** db.c: the deadline, or -1. *)
Definition getExpire (db : rdb_db) (key : bytes) : option (Z * rdb_db) :=
  if dictSize (rd_expires db) =? 0 then Some (-1, db)
  else
    '(ex, de) ← dictFind (hash_fun (types env)) (rd_expires db) key;
    match de with
    | None => Some (-1, mkRdbDb (rd_dict db) ex)
    | Some r =>
        '(d, e) ← dictFind (hash_fun (types env)) (rd_dict db) key;
        match e with
        | None => None
        | Some _ => when ← dictGetVal ex r; Some (when, mkRdbDb d ex)
        end
    end.

(** A writer on a stream that is there. *)
Definition wrun (w : writer) (rdb : rio) : option (Z * rio) :=
  '(n, rdb) ← w (Some rdb); rdb ← rdb; Some (n, rdb).

(** "Iterate this DB writing every entry"; the flag is false after an error. *)
Fixpoint save_keys (fuel : nat) (db : rdb_db) (di : dictIterator bytes value) (now : Z) (rdb : rio)
  : option (bool * rio * rdb_db * dictIterator bytes value) :=
  match fuel with
  | O => None
  | S fuel =>
      '(de, di, d) ← dictNext (rd_dict db) di;
      let db := mkRdbDb d (rd_expires db) in
      match de with
      | None => Some (true, rdb, db, di)
      | Some (key, o) =>
          '(expire, db) ← getExpire db key;
          '(n, rdb) ← wrun (rdbSaveKeyValuePair env (StrRaw key) o expire now) rdb;
          if n =? -1 then Some (false, rdb, db, di) else save_keys fuel db di now rdb
      end
  end.

Fixpoint save_dbs (j : Z) (dbs : list rdb_db) (now : Z) (rdb : rio) : option (bool * rio * list rdb_db) :=
  match dbs with
  | [] => Some (true, rdb, [])
  | db :: dbs =>
      if dictSize (rd_dict db) =? 0 then
        '(ok, rdb, dbs) ← save_dbs (j + 1) dbs now rdb; Some (ok, rdb, db :: dbs)
      else
        '(n, rdb) ← wrun (_ ⇐ rdbSaveType REDIS_RDB_OPCODE_SELECTDB; _ ⇐ rdbSaveLen j; wret 0) rdb;
        if n =? -1 then Some (false, rdb, db :: dbs)
        else
          '(ok, rdb, db, di) ← save_keys (S (Z.to_nat (dictSize (rd_dict db)))) db dictGetSafeIterator now rdb;
          let db := mkRdbDb (dictReleaseIterator (rd_dict db) di) (rd_expires db) in
          if ok : bool then '(ok, rdb, dbs) ← save_dbs (j + 1) dbs now rdb; Some (ok, rdb, db :: dbs)
          else Some (false, rdb, db :: dbs)
  end.

(** [snprintf] with "%04d" of a number of at most four digits. *)
Definition four_digits (n : Z) : bytes :=
  [ch0 + n / 1000 mod 10; ch0 + n / 100 mod 10; ch0 + n / 10 mod 10; ch0 + n mod 10].

Definition rdb_magic : bytes := zs "REDIS" ++ four_digits REDIS_RDB_VERSION.

Definition set_update_cksum (r : rio) : rio := mkRio (io r) true (cksum r) (processed_bytes r) (max_processing_chunk r).

(** The result is whether it is [REDIS_OK]; a lookup may move buckets, which does not
    happen to the dictionary that is being iterated over. *)
Definition rdbSaveRio (dbs : list rdb_db) (now : Z) (rdb : rio) : option (bool * rio * list rdb_db) :=
  let rdb := if rdb_checksum env then set_update_cksum rdb else rdb in
  '(n, rdb) ← wrun (rdbWriteRaw rdb_magic) rdb;
  if n =? -1 then Some (false, rdb, dbs)
  else
    '(ok, rdb, dbs) ← save_dbs 0 dbs now rdb;
    if negb ok then Some (false, rdb, dbs)
    else
      '(n, rdb) ← wrun (rdbSaveType REDIS_RDB_OPCODE_EOF) rdb;
      if n =? -1 then Some (false, rdb, dbs)
      else
        '(rdb, ok) ← rioWrite rdb (le_bytes 8 (cksum rdb));
        Some (ok, rdb, dbs).

Definition REDIS_EOF_MARK_SIZE : Z := 40.

(** [eofmark] holds the random characters. *)
Definition rdbSaveRioWithEOFMark (eofmark : bytes) (dbs : list rdb_db) (now : Z) (rdb : rio) : option (bool * rio * list rdb_db) :=
  '(rdb, ok) ← rioWrite rdb (zs "$EOF:");
  if negb ok then Some (false, rdb, dbs) else
  mark ← rd_block eofmark 0 REDIS_EOF_MARK_SIZE;
  '(rdb, ok) ← rioWrite rdb mark;
  if negb ok then Some (false, rdb, dbs) else
  '(rdb, ok) ← rioWrite rdb [13; 10];
  if negb ok then Some (false, rdb, dbs) else
  '(ok, rdb, dbs) ← rdbSaveRio dbs now rdb;
  if negb ok then Some (false, rdb, dbs) else
  '(rdb, ok) ← rioWrite rdb mark;
  Some (ok, rdb, dbs).
End save_dbs.
