(* ===== verification/RdbLoad.v ===== *)
(** * The dump format: loading (src/redis-2.8.19/src/rdb.c)

    The functions that read values, keys and databases from a stream, and the payload
    of DUMP and RESTORE (migrate.c). A loader fails with [Some (None, _)], the null
    pointer or the error value of the code; [None] is the abort of an assertion, or
    an access out of bounds. The branches for sorted sets are not translated. *)
From S2P Require Import Prelude Util Sds Object Lzf Crc64 Intset Dict Ziplist HashType SetType ListType Zipmap Rio Rdb.
Open Scope Z_scope.

Definition loader (A : Type) : Type := rio -> option (option A * rio).

Definition lret {A} (x : A) : loader A := fun rdb => Some (Some x, rdb).

(** [if ((x = f) == NULL) return NULL;] *)
Definition lbind {A B} (f : loader A) (k : A -> loader B) : loader B := fun rdb =>
  '(x, rdb) ← f rdb;
  match x with None => Some (None, rdb) | Some x => k x rdb end.

Notation "x ⟵ f ; k" := (lbind f (fun x => k)) (at level 20, f at level 100, k at level 200, right associativity).

Definition lfail {A} : loader A := fun rdb => Some (None, rdb).

(** A computation on memory. *)
Definition llift {A} (o : option A) : loader A := fun rdb => x ← o; Some (Some x, rdb).

(** A function with an error value among its results, and its test at a call. *)
Definition reader (A : Type) : Type := rio -> option (A * rio).

Definition unless (err : Z) (f : reader Z) : loader Z := fun rdb =>
  '(n, rdb) ← f rdb;
  Some (if n =? err then None else Some n, rdb).

(** ** Numbers *)

Definition rdbLoadType : reader Z := fun rdb =>
  '(buf, rdb) ← rioRead rdb 1;
  match buf with
  | None => Some (-1, rdb)
  | Some buf => type ← rd buf 0; Some (type, rdb)
  end.

Definition rdbLoadObjectType : reader Z := fun rdb =>
  '(type, rdb) ← rdbLoadType rdb;
  Some (if type =? -1 then -1 else if negb (rdbIsObjectType type) then -1 else type, rdb).

Definition rdbLoadTime : reader Z := fun rdb =>
  '(buf, rdb) ← rioRead rdb 4;
  Some (match buf with None => -1 | Some buf => s32 (le_val buf) end, rdb).

Definition rdbLoadMillisecondTime : reader Z := fun rdb =>
  '(buf, rdb) ← rioRead rdb 8;
  Some (match buf with None => -1 | Some buf => s64 (le_val buf) end, rdb).

Definition ntohl : Z -> Z := htonl.

(** The length and [*isencoded]. *)
Definition rdbLoadLen : reader (Z * bool) := fun rdb =>
  '(buf, rdb) ← rioRead rdb 1;
  match buf with
  | None => Some (REDIS_RDB_LENERR, false, rdb)
  | Some buf =>
      b0 ← rd buf 0;
      let type := Z.shiftr (Z.land b0 192) 6 in
      if type =? REDIS_RDB_ENCVAL then Some (Z.land b0 63, true, rdb)
      else if type =? REDIS_RDB_6BITLEN then Some (Z.land b0 63, false, rdb)
      else if type =? REDIS_RDB_14BITLEN then
        '(buf, rdb) ← rioRead rdb 1;
        match buf with
        | None => Some (REDIS_RDB_LENERR, false, rdb)
        | Some buf => b1 ← rd buf 0; Some (Z.lor (Z.shiftl (Z.land b0 63) 8) b1, false, rdb)
        end
      else
        '(len, rdb) ← rioRead rdb 4;
        match len with
        | None => Some (REDIS_RDB_LENERR, false, rdb)
        | Some len => Some (ntohl (le_val len), false, rdb)
        end
  end.

(** [rdbLoadLen(rdb,NULL)]. *)
Definition rdbLoadLen_null : reader Z := fun rdb => '(len, _, rdb) ← rdbLoadLen rdb; Some (len, rdb).

(** ** Strings *)

Section load.
Context (env : rdb_env).

Definition rdbLoadIntegerObject (enctype : Z) (encode : bool) : loader robj :=
  val ⟵ (
    if enctype =? REDIS_RDB_ENC_INT8 then
      enc ⟵ (fun rdb => rioRead rdb 1);
      llift (e0 ← rd enc 0; Some (s8 e0))
    else if enctype =? REDIS_RDB_ENC_INT16 then
      enc ⟵ (fun rdb => rioRead rdb 2);
      llift (e0 ← rd enc 0; e1 ← rd enc 1; Some (s16 (u16 (Z.lor e0 (Z.shiftl e1 8)))))
    else if enctype =? REDIS_RDB_ENC_INT32 then
      enc ⟵ (fun rdb => rioRead rdb 4);
      llift (e0 ← rd enc 0; e1 ← rd enc 1; e2 ← rd enc 2; e3 ← rd enc 3;
             Some (s32 (u32 (Z.lor (Z.lor (Z.lor e0 (Z.shiftl e1 8)) (Z.shiftl e2 16)) (Z.shiftl e3 24)))))
    else (fun _ => None));
  if encode then lret (createStringObjectFromLongLong val)
  else
    s ⟵ llift (s ← sdsfromlonglong (fresh (types env)) val; rd_block (sbuf s) 0 (sdslen s));
    lret (StrRaw s).

(** A fresh string is filled with zeros. *)
Definition rdbLoadLzfStringObject : loader robj :=
  clen ⟵ unless REDIS_RDB_LENERR rdbLoadLen_null;
  len ⟵ unless REDIS_RDB_LENERR rdbLoadLen_null;
  c ⟵ (fun rdb => rioRead rdb clen);
  r ⟵ llift (lzf_decompress c len (replicate (Z.to_nat len) 0));
  match r with
  | inl (n, val) => if n =? 0 then lfail else lret (StrRaw val)
  | inr _ => lfail
  end.

Definition rdbGenericLoadStringObject (encode : bool) : loader robj :=
  r ⟵ (fun rdb => '(r, rdb) ← rdbLoadLen rdb; Some (Some r, rdb));
  let '(len, isencoded) := r in
  if isencoded : bool then
    if (len =? REDIS_RDB_ENC_INT8) || (len =? REDIS_RDB_ENC_INT16) || (len =? REDIS_RDB_ENC_INT32)
    then rdbLoadIntegerObject len encode
    else if len =? REDIS_RDB_ENC_LZF then rdbLoadLzfStringObject
    else (fun _ => None)
  else if len =? REDIS_RDB_LENERR then lfail
  else
    val ⟵ (fun rdb => if len =? 0 then Some (Some [], rdb) else rioRead rdb len);
    lret (StrRaw val).

Definition rdbLoadStringObject : loader robj := rdbGenericLoadStringObject false.
Definition rdbLoadEncodedStringObject : loader robj := rdbGenericLoadStringObject true.

(** ** Values *)

Definition raw_of (o : robj) : option bytes := match o with StrRaw s => Some s | _ => None end.

(** [while(len--)] over the elements of a list. *)
Fixpoint load_list (len : nat) (o : listobj) : loader listobj :=
  match len with
  | O => lret o
  | S len =>
      ele ⟵ rdbLoadEncodedStringObject;
      o ⟵ llift (match o, ele with
                 | ListZiplist _, StrRaw s =>
                     if zlen s >? list_max_ziplist_value (types env) then listTypeConvert o else Some o
                 | _, _ => Some o
                 end);
      o ⟵ llift (match o with
                 | ListZiplist zl =>
                     dec ← getDecodedObject ele;
                     ListZiplist <$> ziplistPush (fresh (types env)) zl dec (zlen dec) ZIPLIST_TAIL
                 | ListLinked l => ele ← encode_object ele; Some (ListLinked (l ++ [ele]))
                 end);
      load_list len o
  end.

(** The loop over the [len] elements of a set; [n] are left. *)
Fixpoint load_set (n : nat) (len : Z) (o : setobj) : loader setobj :=
  match n with
  | O => lret o
  | S n =>
      ele ⟵ rdbLoadEncodedStringObject;
      ele ⟵ llift (encode_object ele);
      o ⟵ llift (match o with
                 | SetIntset s =>
                     r ← isObjectRepresentableAsLongLong ele;
                     match r with
                     | Some llval => '(s, _) ← intsetAdd (fresh (types env)) s llval; Some (SetIntset s)
                     | None =>
                         o ← setTypeConvert (types env) o;
                         match o with
                         | SetHT d => '(d, _) ← dictExpand d len; Some (SetHT d)
                         | SetIntset _ => None
                         end
                     end
                 | SetHT _ => Some o
                 end);
      o ⟵ llift (match o with
                 | SetHT d =>
                     key ← getDecodedObject ele;
                     '(d, _) ← dictAdd (hash_fun (types env)) (can_resize (types env)) tt d key tt;
                     Some (SetHT d)
                 | SetIntset _ => Some o
                 end);
      load_set n len o
  end.

(** The first loop of a hash: raw strings into the ziplist, until one is too long. *)
Fixpoint load_hash_ziplist (len : nat) (zl : list Z) : loader (nat * hobj) :=
  match len with
  | O => lret (O, HashZiplist zl)
  | S len =>
      field ⟵ rdbLoadStringObject;
      field ⟵ llift (raw_of field);
      value ⟵ rdbLoadStringObject;
      value ⟵ llift (raw_of value);
      zl ⟵ llift (ziplistPush (fresh (types env)) zl field (zlen field) ZIPLIST_TAIL);
      zl ⟵ llift (ziplistPush (fresh (types env)) zl value (zlen value) ZIPLIST_TAIL);
      if (zlen field >? hash_max_ziplist_value (types env)) || (zlen value >? hash_max_ziplist_value (types env))
      then o ⟵ llift (hashTypeConvert (types env) (HashZiplist zl)); lret (len, o)
      else load_hash_ziplist len zl
  end.

(** The second loop: encoded strings into the hash table; a field seen twice is the
    failed assertion. *)
Fixpoint load_hash_ht (len : nat) (d : dict bytes robj) : loader hobj :=
  match len with
  | O => lret (HashHT d)
  | S len =>
      field ⟵ rdbLoadEncodedStringObject;
      value ⟵ rdbLoadEncodedStringObject;
      field ⟵ llift (encode_object field);
      value ⟵ llift (encode_object value);
      d ⟵ llift (key ← getDecodedObject field;
                 '(d, ret) ← dictAdd (hash_fun (types env)) (can_resize (types env)) value d key value;
                 match ret with DICT_OK => Some d | DICT_ERR => None end);
      load_hash_ht len d
  end.

(** The ziplist of a zipmap, and the length of the longest string. *)
Fixpoint zipmap_entries (fuel : nat) (zm : list Z) (zi : Z) (zl : list Z) (maxlen : Z) : option (list Z * Z) :=
  match fuel with
  | O => None
  | S fuel =>
      r ← zipmapNext zm zi;
      match r with
      | None => Some (zl, maxlen)
      | Some (zi, (fstr, flen), (vstr, vlen)) =>
          let maxlen := if flen >? maxlen then flen else maxlen in
          let maxlen := if vlen >? maxlen then vlen else maxlen in
          f ← rd_block zm fstr flen;
          v ← rd_block zm vstr vlen;
          zl ← ziplistPush (fresh (types env)) zl f flen ZIPLIST_TAIL;
          zl ← ziplistPush (fresh (types env)) zl v vlen ZIPLIST_TAIL;
          zipmap_entries fuel zm zi zl maxlen
      end
  end.

(** The header of an intset and its cells, out of a block. *)
Definition intset_of_block (b : bytes) : option intset :=
  e ← rd_block b 0 4;
  l ← rd_block b 4 4;
  Some (mkIntset (le_val e) (le_val l) (drop 8 b)).

(** A value that was saved as one block, converted to the base type when it has too
    many elements for this configuration. *)
Definition load_blob (rdbtype : Z) (b : bytes) : option value :=
  if rdbtype =? REDIS_RDB_TYPE_HASH_ZIPMAP then
    '(zl, maxlen) ← (zl ← ziplistNew (fresh (types env)); zipmap_entries (length b) b (zipmapRewind b) zl 0);
    '(n, o) ← hashTypeLength (HashZiplist zl);
    VHash <$> (if (n >? hash_max_ziplist_entries (types env)) || (maxlen >? hash_max_ziplist_value (types env))
               then hashTypeConvert (types env) o else Some o)
  else if rdbtype =? REDIS_RDB_TYPE_LIST_ZIPLIST then
    '(n, zl) ← ziplistLen b;
    VList <$> (if n >? list_max_ziplist_entries (types env) then listTypeConvert (ListZiplist zl) else Some (ListZiplist zl))
  else if rdbtype =? REDIS_RDB_TYPE_SET_INTSET then
    s ← intset_of_block b;
    VSet <$> (if intsetLen s >? set_max_intset_entries (types env) then setTypeConvert (types env) (SetIntset s) else Some (SetIntset s))
  else if rdbtype =? REDIS_RDB_TYPE_HASH_ZIPLIST then
    '(n, o) ← hashTypeLength (HashZiplist b);
    VHash <$> (if n >? hash_max_ziplist_entries (types env) then hashTypeConvert (types env) o else Some o)
  else None.

Definition rdbLoadObject (rdbtype : Z) : loader value :=
  if rdbtype =? REDIS_RDB_TYPE_STRING then
    o ⟵ rdbLoadEncodedStringObject;
    o ⟵ llift (encode_object o);
    lret (VString o)
  else if rdbtype =? REDIS_RDB_TYPE_LIST then
    len ⟵ unless REDIS_RDB_LENERR rdbLoadLen_null;
    o ⟵ llift (if len >? list_max_ziplist_entries (types env) then Some createListObject else createZiplistObject (types env));
    o ⟵ load_list (Z.to_nat len) o;
    lret (VList o)
  else if rdbtype =? REDIS_RDB_TYPE_SET then
    len ⟵ unless REDIS_RDB_LENERR rdbLoadLen_null;
    o ⟵ llift (if len >? set_max_intset_entries (types env) then
                 if len >? DICT_HT_INITIAL_SIZE then '(d, _) ← dictExpand dictCreate len; Some (SetHT d)
                 else Some createSetObject
               else Some createIntsetObject);
    o ⟵ load_set (Z.to_nat len) len o;
    lret (VSet o)
  else if rdbtype =? REDIS_RDB_TYPE_HASH then
    len ⟵ unless REDIS_RDB_LENERR rdbLoadLen_null;
    o ⟵ llift (o ← createHashObject (types env);
               if len >? hash_max_ziplist_entries (types env) then hashTypeConvert (types env) o else Some o);
    r ⟵ (match o with
          | HashZiplist zl => load_hash_ziplist (Z.to_nat len) zl
          | HashHT _ => lret (Z.to_nat len, o)
          end);
    let '(left_, o) := r in
    o ⟵ (match o with
         | HashHT d => load_hash_ht left_ d
         | HashZiplist _ => if Nat.eqb left_ 0 then lret o else (fun _ => None)
         end);
    lret (VHash o)
  else if (rdbtype =? REDIS_RDB_TYPE_HASH_ZIPMAP) || (rdbtype =? REDIS_RDB_TYPE_LIST_ZIPLIST) ||
          (rdbtype =? REDIS_RDB_TYPE_SET_INTSET) || (rdbtype =? REDIS_RDB_TYPE_HASH_ZIPLIST) then
    aux ⟵ rdbLoadStringObject;
    aux ⟵ llift (raw_of aux);
    llift (load_blob rdbtype aux)
  else (fun _ => None).

(** ** Databases *)

Definition rdb_dbAdd (db : rdb_db) (key : bytes) (val : value) : option rdb_db :=
  '(d, retval) ← dictAdd (hash_fun (types env)) (can_resize (types env)) val (rd_dict db) key val;
  match retval with DICT_OK => Some (mkRdbDb d (rd_expires db)) | DICT_ERR => None end.

Definition rdb_setExpire (db : rdb_db) (key : bytes) (when : Z) : option rdb_db :=
  '(d, kde) ← dictFind (hash_fun (types env)) (rd_dict db) key;
  match kde with
  | None => None
  | Some _ =>
      '(ex, de) ← dictReplaceRaw (hash_fun (types env)) (can_resize (types env)) when (rd_expires db) key;
      de ← de;
      ex ← dictSetVal ex de when;
      Some (mkRdbDb d ex)
  end.

(** The outcome of a load: [REDIS_OK], [REDIS_ERR] before anything is read, or the
    exit of the process. *)
Inductive load_result := LoadOk (dbs : list rdb_db) | LoadErr | LoadExit.

(** What one turn of the loop of [rdbLoad] does: go on with a database, leave, or exit. *)
Inductive load_turn := TurnDb (dbid : Z) (dbs : list rdb_db) | TurnEof | TurnExit.

Context (masterhost : bool) (now : Z).

Definition load_pair (type expiretime dbid : Z) (dbs : list rdb_db) : loader load_turn :=
  key ⟵ rdbLoadStringObject;
  key ⟵ llift (raw_of key);
  val ⟵ rdbLoadObject type;
  if negb masterhost && negb (expiretime =? -1) && (expiretime <? now) then lret (TurnDb dbid dbs)
  else
    dbs ⟵ llift (db ← rd dbs dbid;
                 db ← rdb_dbAdd db key val;
                 db ← (if negb (expiretime =? -1) then rdb_setExpire db key expiretime else Some db);
                 wr dbs dbid db);
    lret (TurnDb dbid dbs).

(** The type, after the expire time if there is one. *)
Definition load_expire : loader (Z * Z) :=
  type ⟵ unless (-1) rdbLoadType;
  if type =? REDIS_RDB_OPCODE_EXPIRETIME then
    expiretime ⟵ unless (-1) rdbLoadTime;
    type ⟵ unless (-1) rdbLoadType;
    lret (type, s64 (expiretime * 1000))
  else if type =? REDIS_RDB_OPCODE_EXPIRETIME_MS then
    expiretime ⟵ unless (-1) rdbLoadMillisecondTime;
    type ⟵ unless (-1) rdbLoadType;
    lret (type, expiretime)
  else lret (type, -1).

Definition load_turn_ (dbid : Z) (dbs : list rdb_db) : loader load_turn :=
  r ⟵ load_expire;
  let '(type, expiretime) := r in
  if type =? REDIS_RDB_OPCODE_EOF then lret TurnEof
  else if type =? REDIS_RDB_OPCODE_SELECTDB then
    dbid ⟵ unless REDIS_RDB_LENERR rdbLoadLen_null;
    if dbid >=? zlen dbs then lret TurnExit else lret (TurnDb dbid dbs)
  else load_pair type expiretime dbid dbs.

(** The [while(1)] of [rdbLoad]; every turn reads a byte. *)
Fixpoint load_loop (fuel : nat) (dbid : Z) (dbs : list rdb_db) : loader (option (list rdb_db)) :=
  match fuel with
  | O => fun _ => None
  | S fuel =>
      t ⟵ load_turn_ dbid dbs;
      match t with
      | TurnExit => lret None
      | TurnEof => lret (Some dbs)
      | TurnDb dbid dbs => load_loop fuel dbid dbs
      end
  end.

(** "Verify the checksum": whether the process goes on. *)
Definition load_verify (rdbver : Z) : loader bool := fun rdb =>
  if (rdbver >=? 5) && rdb_checksum env then
    let expected := cksum rdb in
    '(buf, rdb) ← rioRead rdb 8;
    match buf with
    | None => Some (None, rdb)
    | Some buf =>
        let cksum := le_val buf in
        Some (Some ((cksum =? 0) || (cksum =? expected)), rdb)
    end
  else Some (Some true, rdb).

Definition atoi (p : bytes) : Z := s32 (fst (fst (strtoll p))).

(** [fp] is the content of the file, [interval] the configured size of the chunks. *)
Definition rdbLoad (fp : bytes) (interval : Z) (dbs : list rdb_db) : option load_result :=
  let rdb := mkRio (RioFile fp 0 0 0 0) (rdb_checksum env) 0 0 interval in
  '(buf, rdb) ← rioRead rdb 9;
  match buf with
  | None => Some LoadExit
  | Some buf =>
      magic ← rd_block buf 0 5;
      if negb (bool_decide (magic = zs "REDIS")) then Some LoadErr
      else
        p ← c_str (drop 5 (buf ++ [0]));
        let rdbver := atoi p in
        if (rdbver <? 1) || (rdbver >? REDIS_RDB_VERSION) then Some LoadErr
        else
          '(r, rdb) ← load_loop (S (length fp)) 0 dbs rdb;
          match r with
          | None | Some None => Some LoadExit
          | Some (Some dbs) =>
              '(ok, _) ← load_verify rdbver rdb;
              Some (match ok with Some true => LoadOk dbs | _ => LoadExit end)
          end
  end.
End load.

(** ** The payload of DUMP *)

Definition createDumpPayload (env : rdb_env) (o : value) : option bytes :=
  let payload := rioInitWithBuffer [] in
  '(n, payload) ← wrun (rdbSaveObjectType o) payload;
  if n =? 0 then None
  else
    '(n, payload) ← wrun (rdbSaveObject env o) payload;
    if n =? 0 then None
    else
      let buf := [Z.land REDIS_RDB_VERSION 255; Z.land (Z.shiftr REDIS_RDB_VERSION 8) 255] in
      let ptr := content (io payload) ++ buf in
      crc ← crc64 0 ptr;
      Some (ptr ++ le_bytes 8 crc).

(** Whether the result is [REDIS_OK]. *)
Definition verifyDumpPayload (p : bytes) (len : Z) : option bool :=
  if len <? 10 then Some false
  else
    let footer := len - 10 in
    f0 ← rd p footer;
    f1 ← rd p (footer + 1);
    if negb (Z.lor (Z.shiftl f1 8) f0 =? REDIS_RDB_VERSION) then Some false
    else
      body ← rd_block p 0 (len - 8);
      crc ← crc64 0 body;
      b ← rd_block p (footer + 2) 8;
      Some (bool_decide (le_bytes 8 crc = b)).

(** The part of RESTORE between the checks and the key space: the object, or the error
    for bad data. *)
Definition restore_object (env : rdb_env) (p : bytes) : option (option value) :=
  ok ← verifyDumpPayload p (zlen p);
  if negb ok then Some None
  else
    let payload := rioInitWithBuffer p in
    '(r, _) ← (type ⟵ unless (-1) rdbLoadObjectType; rdbLoadObject env type) payload;
    Some r.
