(* ===== verification/RdbCodec.v ===== *)
(** * The dump format: what it is to save and to load (src/redis-2.8.19/src/rdb.c)

    A writer saves given bytes on every stream, or reports that the device is too
    small; a loader loads given bytes from every stream, and fails when the stream
    ends among them. Both compose, and the functions for numbers and strings are
    shown to be inverse to each other. *)
From S2P Require Import Prelude Util Sds Object Lzf Crc64 HashType Rio Rdb RdbLoad.
Open Scope Z_scope.

(** ** Saving *)

(** The result [n] and the bytes [bs], whether the stream is null or not. *)
Definition saves (m : writer) (n : Z) (bs : bytes) : Prop :=
  0 <= n /\ bytes_ok bs /\ m None = Some (n, None) /\
  forall r, sink r -> exists k r', m (Some r) = Some (k, Some r') /\
    (k = n /\ wrote r bs r' /\ sink r' \/ k = -1 /\ ~ room_for (io r) (zlen bs)).

Lemma saves_ret n : 0 <= n -> saves (wret n) n [].
Proof.
  intros Hn. split; [done|]. split; [constructor|]. split; [done|]. intros r Hr. exists n, r. split; [done|]. left.
  split; [done|]. split; [by apply wrote_nil, Hr|done].
Qed.

Lemma saves_bind f k n1 b1 n2 b2 : saves f n1 b1 -> saves (k n1) n2 b2 -> saves (wbind f k) n2 (b1 ++ b2).
Proof.
  intros (Hn1 & Hb1 & Hnull1 & Hf) (Hn2 & Hb2 & Hnull2 & Hk). assert (bytes_ok (b1 ++ b2)) as Hb by by apply Forall_app_2.
  assert ((n1 =? -1) = false) as Hne by (apply Z.eqb_neq; lia).
  split; [done|]. split; [done|]. unfold wbind. split; [by rewrite Hnull1; cbn [mbind option_bind]; rewrite Hne|]. intros r Hr.
  destruct (Hf r Hr) as (k1 & r1 & -> & [(-> & Hw1 & Hr1)|(-> & Hno)]); cbn [mbind option_bind].
  - rewrite Hne. destruct (Hk r1 Hr1) as (k2 & r2 & -> & Hk2). exists k2, r2. split; [done|]. rewrite zlen_app.
    destruct Hk2 as [(-> & Hw2 & Hr2)|(-> & Hno)].
    + left. split; [done|]. split; [|done]. eapply wrote_trans; [apply Hr|done|done|done].
    + right. split; [done|]. by rewrite <- (wrote_room _ _ _ Hw1).
  - exists (-1), r1. split; [done|]. right. split; [done|]. intros Hroom. apply Hno. eapply room_for_le; [done|].
    rewrite zlen_app. pose proof (zlen_nonneg b2). lia.
Qed.

Lemma saves_last f k n1 bs n2 : saves f n1 bs -> saves (k n1) n2 [] -> saves (wbind f k) n2 bs.
Proof. intros Hf Hk. rewrite <- (app_nil_r bs). by apply (saves_bind f k n1). Qed.

Lemma saves_lift {A} (o : option A) x k n bs : o = Some x -> saves (k x) n bs -> saves (wlift o k) n bs.
Proof. intros -> H. exact H. Qed.

Lemma saves_raw p : bytes_ok p -> zlen p < 2 ^ 31 -> saves (rdbWriteRaw p) (zlen p) p.
Proof.
  intros Hp Hl. pose proof (zlen_nonneg p). assert (s32 (zlen p) = zlen p) as Hs by (apply swrap_small; [lia|split; lia]).
  split; [done|]. split; [done|]. unfold rdbWriteRaw. rewrite Hs. split; [done|]. intros r Hr.
  destruct (rioWrite_ok r p Hr Hp) as (r' & ok & -> & Hok). cbn [mbind option_bind]. destruct ok.
  - exists (zlen p), r'. split; [done|]. left. by destruct Hok.
  - exists (-1), r'. split; [done|]. by right.
Qed.

Lemma saves_eq m n bs n' bs' : saves m n bs -> n = n' -> bs = bs' -> saves m n' bs'.
Proof. by intros H -> ->. Qed.

(** ** Loading *)

(** At [r], the bytes [bs] are loaded as a value with [P]; when the stream ends among
    them the loader fails. *)
Definition loads_at (r : rio) {A} (m : loader A) (bs : bytes) (P : A -> Prop) : Prop :=
  (forall tl, unread r = bs ++ tl -> exists x, m r = Some (Some x, after r bs) /\ P x) /\
  (forall b suf, bs = unread r ++ b :: suf -> exists r', m r = Some (None, r')).

Definition loads {A} (m : loader A) (bs : bytes) (P : A -> Prop) : Prop := forall r, rio_ok r -> loads_at r m bs P.

Lemma loads_ret {A} (x : A) (P : A -> Prop) : P x -> loads (lret x) [] P.
Proof.
  intros Hx r _. split; [|intros b suf Heq; by destruct (unread r)]. intros tl _. exists x. split; [|done]. by rewrite after_nil.
Qed.

Lemma loads_mono {A} (m : loader A) bs (P Q : A -> Prop) : loads m bs P -> (forall x, P x -> Q x) -> loads m bs Q.
Proof.
  intros Hm HPQ r Hr. destruct (Hm r Hr) as [H1 H2]. split; [|done]. intros tl Htl. destruct (H1 tl Htl) as (x & -> & Hx). eauto.
Qed.

Lemma loads_at_bind {A B} r (f : loader A) (k : A -> loader B) b1 b2 P Q : rio_ok r -> loads_at r f b1 P ->
  (forall x tl, unread r = b1 ++ tl -> P x -> loads_at (after r b1) (k x) b2 Q) -> loads_at r (lbind f k) (b1 ++ b2) Q.
Proof.
  intros Hr [Hf1 Hf2] Hk. unfold lbind. split.
  - intros tl Htl. rewrite <- app_assoc in Htl. destruct (Hf1 _ Htl) as (x & -> & Hx). cbn [mbind option_bind].
    destruct (Hk x _ Htl Hx) as [Hk1 _]. destruct (Hk1 tl) as (y & -> & Hy); [by apply (after_unread r b1)|]. exists y. split; [|done].
    rewrite after_after; [done|by apply Hr|]. pose proof (unread_bytes r Hr) as Hb. rewrite Htl, app_assoc in Hb. by apply Forall_app in Hb as [].
  - intros b suf Heq. destruct (decide (length b1 <= length (unread r))%nat) as [Hl|Hl].
    + assert (exists c, unread r = b1 ++ c /\ b2 = c ++ b :: suf) as (c & Hu & H2).
      { exists (drop (length b1) (unread r)). pose proof (f_equal (take (length b1)) Heq) as Ht. pose proof (f_equal (drop (length b1)) Heq) as Hd.
        rewrite take_app_length, take_app_le in Ht by done. rewrite drop_app_length, drop_app_le in Hd by done.
        split; [rewrite Ht at 1; by rewrite take_drop|done]. }
      destruct (Hf1 c Hu) as (x & -> & Hx). cbn [mbind option_bind]. destruct (Hk x c Hu Hx) as [_ Hk2].
      apply (Hk2 b suf). by rewrite (after_unread r b1 c Hr Hu).
    + assert (exists c suf', b1 = unread r ++ c :: suf') as (c & suf' & H1).
      { pose proof (f_equal (take (length b1)) Heq) as Ht. rewrite take_app_length, take_app_ge in Ht by lia.
        destruct (take (length b1 - length (unread r)) (b :: suf)) as [|c l] eqn:Hc; [|by exists c, l].
        rewrite app_nil_r in Ht. rewrite Ht in Hl. lia. }
      destruct (Hf2 c suf' H1) as (r' & ->). cbn [mbind option_bind]. eauto.
Qed.

Lemma loads_bind {A B} (f : loader A) (k : A -> loader B) b1 b2 P Q :
  loads f b1 P -> (forall x, P x -> loads (k x) b2 Q) -> loads (lbind f k) (b1 ++ b2) Q.
Proof. intros Hf Hk r Hr. eapply loads_at_bind; [done|by apply Hf|]. intros x tl Htl Hx. eapply Hk; [done|by eapply after_ok]. Qed.

Lemma loads_lift {A} (o : option A) x (P : A -> Prop) : o = Some x -> P x -> loads (llift o) [] P.
Proof. intros -> Hx. apply (loads_ret x P Hx). Qed.

(** A loader that computes the same. *)
Lemma loads_ext {A} (m m' : loader A) bs P : (forall r, m' r = m r) -> loads m bs P -> loads m' bs P.
Proof. intros Heq Hm r Hr. unfold loads_at. rewrite Heq. by apply Hm. Qed.

(** The last read, and a step on memory in front of the rest. *)
Lemma loads_last {A B} (f : loader A) (k : A -> loader B) bs P Q :
  loads f bs P -> (forall x, P x -> loads (k x) [] Q) -> loads (lbind f k) bs Q.
Proof. intros Hf Hk. rewrite <- (app_nil_r bs). by apply (loads_bind f k bs [] P). Qed.

Lemma loads_llift {A B} (o : option A) x (k : A -> loader B) bs Q : o = Some x -> loads (k x) bs Q -> loads (lbind (llift o) k) bs Q.
Proof. intros Ho Hk. apply (loads_bind _ _ [] bs (fun y => y = x)); [by eapply loads_lift|by intros y ->]. Qed.

Lemma loads_read n bs : zlen bs = n -> loads (fun rdb => rioRead rdb n) bs (fun x => x = bs).
Proof.
  intros Hn r Hr. split.
  - intros tl Htl. exists bs. split; [|done]. rewrite <- Hn. by apply (rioRead_ok r bs tl).
  - intros b suf ->. apply rioRead_short; [done|]. rewrite <- Hn, zlen_app, zlen_cons. pose proof (zlen_nonneg suf). lia.
Qed.

(** A reader of one number. *)
Lemma loads_reader {A} n (f : bytes -> option A) (g : reader A) err bs x :
  zlen bs = n -> (forall r, g r = '(buf, r) ← rioRead r n; match buf with None => Some (err, r) | Some buf => x ← f buf; Some (x, r) end) ->
  f bs = Some x -> forall r, rio_ok r ->
    (forall tl, unread r = bs ++ tl -> g r = Some (x, after r bs)) /\
    (forall b suf, bs = unread r ++ b :: suf -> exists r', g r = Some (err, r')).
Proof.
  intros Hn Hg Hf r Hr. destruct (loads_read n bs Hn r Hr) as [H1 H2]. rewrite Hg. split.
  - intros tl Htl. destruct (H1 tl Htl) as (y & -> & ->). cbn [mbind option_bind]. by rewrite Hf.
  - intros b suf Heq. destruct (H2 b suf Heq) as (r' & ->). cbn [mbind option_bind]. eauto.
Qed.

Lemma loads_unless (g : reader Z) err bs x : x <> err ->
  (forall r, rio_ok r -> (forall tl, unread r = bs ++ tl -> g r = Some (x, after r bs)) /\
    (forall b suf, bs = unread r ++ b :: suf -> exists r', g r = Some (err, r'))) ->
  loads (unless err g) bs (fun y => y = x).
Proof.
  intros Hx Hg r Hr. destruct (Hg r Hr) as [H1 H2]. unfold unless. split.
  - intros tl Htl. rewrite (H1 tl Htl). cbn [mbind option_bind]. destruct (Z.eqb_spec x err); [done|]. eauto.
  - intros b suf Heq. destruct (H2 b suf Heq) as (r' & ->). cbn [mbind option_bind]. rewrite Z.eqb_refl. eauto.
Qed.

(** ** Types and times *)

Lemma saves_type t : saves (rdbSaveType t) 1 [u8 t].
Proof. apply (saves_eq _ (zlen [u8 t]) [u8 t]); [apply saves_raw; [|done]|done|done]. constructor; [apply (uwrap_range 8); lia|constructor]. Qed.

Lemma loads_type t : 0 <= t < 256 -> loads (unless (-1) rdbLoadType) [t] (fun x => x = t).
Proof. intros Ht. apply loads_unless; [lia|]. by apply (loads_reader 1 (fun buf => rd buf 0)). Qed.

Lemma saves_ms t : saves (rdbSaveMillisecondTime t) 8 (le_bytes 8 t).
Proof. apply (saves_eq _ (zlen (le_bytes 8 t)) (le_bytes 8 t)); [apply saves_raw; [apply le_bytes_ok|done]|done|done]. Qed.

Lemma loads_ms t : sfits 64 t -> t <> -1 -> loads (unless (-1) rdbLoadMillisecondTime) (le_bytes 8 t) (fun x => x = t).
Proof.
  intros Ht Hne. apply loads_unless; [done|]. apply (loads_reader 8 (fun buf => Some (s64 (le_val buf)))); [done| |].
  - intros r. unfold rdbLoadMillisecondTime. destruct (rioRead r 8) as [[[buf|] r']|]; done.
  - rewrite le_val_uwrap. change (8 * Z.of_nat 8) with 64. rewrite swrap_uwrap by lia. by rewrite swrap_small.
Qed.

(** ** Lengths *)

Definition len_enc (len : Z) : bytes :=
  if len <? 64 then [len]
  else if len <? 16384 then [Z.lor (Z.shiftr len 8) 64; Z.land len 255]
  else 128 :: be_bytes 4 len.

(** [rdbLoadLen] with its failures as those of a loader. *)
Definition len_loader : loader (Z * bool) :=
  buf ⟵ (fun rdb => rioRead rdb 1);
  b0 ⟵ llift (rd buf 0);
  let type := Z.shiftr (Z.land b0 192) 6 in
  if type =? REDIS_RDB_ENCVAL then lret (Z.land b0 63, true)
  else if type =? REDIS_RDB_6BITLEN then lret (Z.land b0 63, false)
  else if type =? REDIS_RDB_14BITLEN then
    buf ⟵ (fun rdb => rioRead rdb 1);
    b1 ⟵ llift (rd buf 0);
    lret (Z.lor (Z.shiftl (Z.land b0 63) 8) b1, false)
  else
    len ⟵ (fun rdb => rioRead rdb 4);
    lret (ntohl (le_val len), false).

Lemma loadLen_loader r : rdbLoadLen r = '(x, r) ← len_loader r; Some (default (REDIS_RDB_LENERR, false) x, r).
Proof.
  unfold rdbLoadLen, len_loader, lbind, llift, lret. destruct (rioRead r 1) as [[[buf|] r1]|]; cbn [mbind option_bind]; try done.
  destruct (rd buf 0) as [b0|]; cbn [mbind option_bind]; [|done]. destruct (_ =? REDIS_RDB_ENCVAL); [done|].
  destruct (_ =? REDIS_RDB_6BITLEN); [done|]. destruct (_ =? REDIS_RDB_14BITLEN).
  - destruct (rioRead r1 1) as [[[buf1|] r2]|]; cbn [mbind option_bind]; try done. by destruct (rd buf1 0).
  - destruct (rioRead r1 4) as [[[buf1|] r2]|]; cbn [mbind option_bind]; done.
Qed.


Lemma len_14bit hi : 0 <= hi < 64 -> byte_ok (Z.lor hi 64) /\ Z.shiftr (Z.land (Z.lor hi 64) 192) 6 = 1 /\ Z.land (Z.lor hi 64) 63 = hi.
Proof.
  intros Hx. pose proof (below (fun x => (0 <=? Z.lor x 64) && (Z.lor x 64 <? 256) && (Z.shiftr (Z.land (Z.lor x 64) 192) 6 =? 1) &&
    (Z.land (Z.lor x 64) 63 =? x)) 64 eq_refl hi Hx) as H. cbv beta in H. unfold byte_ok.
  rewrite !andb_true_iff, Z.leb_le, Z.ltb_lt, !Z.eqb_eq in H. tauto.
Qed.

Lemma len_6bit x : 0 <= x < 64 -> Z.shiftr (Z.land x 192) 6 = 0 /\ Z.land x 63 = x.
Proof.
  intros Hx. pose proof (below (fun x => (Z.shiftr (Z.land x 192) 6 =? 0) && (Z.land x 63 =? x)) 64 eq_refl x Hx) as H.
  cbv beta in H. lia.
Qed.

Lemma len_hi len : 0 <= len < 16384 -> 0 <= Z.shiftr len 8 < 64.
Proof. intros Hl. rewrite Z.shiftr_div_pow2 by lia. split; [apply Z.div_pos; lia|apply Z.div_lt_upper_bound; lia]. Qed.

Lemma len_enc_bytes len : 0 <= len < 2 ^ 32 -> bytes_ok (len_enc len).
Proof.
  intros Hl. unfold len_enc. destruct (Z.ltb_spec len 64); [repeat constructor; lia|].
  destruct (Z.ltb_spec len 16384); constructor.
  - apply (len_14bit (Z.shiftr len 8)), len_hi. lia.
  - constructor; [apply land_byte_ok|done].
  - unfold byte_ok. lia.
  - apply Forall_rev, le_bytes_ok.
Qed.

Lemma len_enc_zlen len : 1 <= zlen (len_enc len) <= 5.
Proof. unfold len_enc. destruct (_ <? 64); [done|]. destruct (_ <? 16384); [done|]. done. Qed.

Lemma htonl_bytes len : le_bytes 4 (htonl len) = be_bytes 4 len.
Proof.
  unfold htonl, be_bytes. set (l := rev (le_bytes 4 len)). assert (length l = 4%nat) as Hl by done. rewrite <- Hl at 1.
  apply le_bytes_val, Forall_rev, le_bytes_ok.
Qed.

Lemma ntohl_bytes len : 0 <= len < 2 ^ 32 -> ntohl (le_val (be_bytes 4 len)) = len.
Proof.
  intros Hl. unfold ntohl, htonl, be_bytes. set (l := rev (le_bytes 4 len)). assert (length l = 4%nat) as H4 by done.
  rewrite <- H4 at 1. rewrite le_bytes_val by apply Forall_rev, le_bytes_ok. unfold l. rewrite rev_involutive, le_val_uwrap.
  by apply uwrap_small.
Qed.

Lemma saves_len len : 0 <= len < 2 ^ 32 -> saves (rdbSaveLen len) (zlen (len_enc len)) (len_enc len).
Proof.
  intros Hl. pose proof (len_enc_bytes len Hl) as Hb. unfold rdbSaveLen, len_enc in *. rewrite uwrap_small by done.
  change (Z.shiftl 1 6) with 64. change (Z.shiftl 1 14) with 16384. destruct (Z.ltb_spec len 64).
  - assert (Z.lor (Z.land len 255) (Z.shiftl REDIS_RDB_6BITLEN 6) = len) as ->.
    { rewrite land_byte, Z.mod_small by lia. apply Z.lor_0_r. }
    apply (saves_last _ _ 1 [len]); [by apply (saves_raw [len])|by apply saves_ret].
  - destruct (Z.ltb_spec len 16384).
    + assert (Z.lor (Z.land (Z.shiftr len 8) 255) (Z.shiftl REDIS_RDB_14BITLEN 6) = Z.lor (Z.shiftr len 8) 64) as ->.
      { rewrite land_byte, Z.mod_small; [done|]. pose proof (len_hi len). lia. }
      eapply saves_eq; [eapply saves_bind; [apply saves_raw; [exact Hb|done]|by apply (saves_ret 2)]|done|apply app_nil_r].
    + inversion_clear Hb as [|? ? _ Hb']. change (Z.shiftl REDIS_RDB_32BITLEN 6) with 128. rewrite htonl_bytes.
      eapply saves_eq; [eapply saves_bind; [apply (saves_raw [128]); [|done]|eapply saves_bind; [by apply (saves_raw (be_bytes 4 len))|by apply (saves_ret (1 + 4))]]|done|].
      { constructor; [unfold byte_ok; lia|constructor]. }
      by rewrite app_nil_r.
Qed.

Lemma loads_len_loader len : 0 <= len < 2 ^ 32 -> loads len_loader (len_enc len) (fun x => x = (len, false)).
Proof.
  intros Hl. unfold len_loader, len_enc. destruct (Z.ltb_spec len 64); [|destruct (Z.ltb_spec len 16384)].
  - apply (loads_bind _ _ [len] [] _ _ (loads_read 1 [len] eq_refl)). intros buf ->. apply (loads_llift _ len); [done|].
    destruct (len_6bit len) as [-> ->]; [lia|]. by apply (loads_ret (len, false)).
  - destruct (len_14bit (Z.shiftr len 8)) as (_ & Ht & Hhi); [apply len_hi; lia|]. set (b0 := Z.lor (Z.shiftr len 8) 64) in *.
    apply (loads_bind _ _ [b0] [_] _ _ (loads_read 1 [b0] eq_refl)). intros buf ->. apply (loads_llift _ b0); [done|].
    rewrite Ht, Hhi. cbn [Z.eqb REDIS_RDB_ENCVAL REDIS_RDB_6BITLEN REDIS_RDB_14BITLEN].
    apply (loads_bind _ _ [Z.land len 255] [] _ _ (loads_read 1 [Z.land len 255] eq_refl)). intros buf ->.
    apply (loads_llift _ (Z.land len 255)); [done|]. apply loads_ret. f_equal. rewrite lor_add by (lia || apply land_byte_ok).
    rewrite land_byte, Z.shiftr_div_pow2 by lia. change (2 ^ 8) with 256. pose proof (Z.div_mod len 256). lia.
  - apply (loads_bind _ _ [128] (be_bytes 4 len) _ _ (loads_read 1 [128] eq_refl)). intros buf ->. apply (loads_llift _ 128); [done|].
    change (Z.shiftr (Z.land 128 192) 6) with 2. cbn [Z.eqb REDIS_RDB_ENCVAL REDIS_RDB_6BITLEN REDIS_RDB_14BITLEN].
    apply (loads_last _ _ _ _ _ (loads_read 4 (be_bytes 4 len) eq_refl)).
    intros buf ->. apply (loads_ret (ntohl (le_val (be_bytes 4 len)), false)). by rewrite ntohl_bytes.
Qed.

(** The length, or -1 as an unsigned number. *)
Lemma loadLen_ok len r : 0 <= len < 2 ^ 32 -> rio_ok r ->
  (forall tl, unread r = len_enc len ++ tl -> rdbLoadLen r = Some (len, false, after r (len_enc len))) /\
  (forall b suf, len_enc len = unread r ++ b :: suf -> exists r', rdbLoadLen r = Some (REDIS_RDB_LENERR, false, r')).
Proof.
  intros Hl Hr. destruct (loads_len_loader len Hl r Hr) as [H1 H2]. rewrite loadLen_loader. split.
  - intros tl Htl. by destruct (H1 tl Htl) as (x & -> & ->).
  - intros b suf Heq. destruct (H2 b suf Heq) as (r' & ->). by exists r'.
Qed.

Lemma loads_len len : 0 <= len < REDIS_RDB_LENERR -> loads (unless REDIS_RDB_LENERR rdbLoadLen_null) (len_enc len) (fun x => x = len).
Proof.
  unfold REDIS_RDB_LENERR. intros Hl. apply loads_unless; [lia|]. intros r Hr. destruct (loadLen_ok len r ltac:(lia) Hr) as [H1 H2].
  unfold rdbLoadLen_null. split.
  - intros tl Htl. by rewrite (H1 tl Htl).
  - intros b suf Heq. destruct (H2 b suf Heq) as (r' & ->). by exists r'.
Qed.

(** ** Integers *)

Lemma le_bytes_1 v : le_bytes 1 v = [Z.land v 255].
Proof. cbn [le_bytes]. by rewrite land_byte. Qed.

Lemma le_bytes_2 v : le_bytes 2 v = [Z.land v 255; Z.land (Z.shiftr v 8) 255].
Proof. cbn [le_bytes]. rewrite !land_byte, !Z.shiftr_div_pow2 by lia. done. Qed.

Lemma le_bytes_4 v : le_bytes 4 v = [Z.land v 255; Z.land (Z.shiftr v 8) 255; Z.land (Z.shiftr v 16) 255; Z.land (Z.shiftr v 24) 255].
Proof.
  cbn [le_bytes]. rewrite !land_byte, !Z.shiftr_div_pow2 by lia. rewrite !Z.div_div by lia. done.
Qed.

(** The bytes of a number joined by shifts. *)
Lemma lor_le a b k : 0 <= k -> 0 <= a < 2 ^ k -> Z.lor a (Z.shiftl b k) = a + b * 2 ^ k.
Proof. intros. rewrite Z.lor_comm, lor_add by done. lia. Qed.

Lemma join_2 e0 e1 : byte_ok e0 -> Z.lor e0 (Z.shiftl e1 8) = le_val [e0; e1].
Proof. intros H0. rewrite lor_le by done. cbn [le_val]. lia. Qed.

Lemma join_4 e0 e1 e2 e3 : byte_ok e0 -> byte_ok e1 -> byte_ok e2 ->
  Z.lor (Z.lor (Z.lor e0 (Z.shiftl e1 8)) (Z.shiftl e2 16)) (Z.shiftl e3 24) = le_val [e0; e1; e2; e3].
Proof.
  unfold byte_ok. intros H0 H1 H2. rewrite (lor_le e0) by lia. change (2 ^ 8) with 256. rewrite (lor_le (e0 + e1 * 256)) by lia.
  change (2 ^ 16) with 65536. rewrite lor_le by lia. change (2 ^ 24) with 16777216. cbn [le_val]. lia.
Qed.

(** The kind of an encoded integer and its payload. *)
Inductive int_code (v : Z) : Z -> bytes -> Prop :=
  | code_8 : sfits 8 v -> int_code v REDIS_RDB_ENC_INT8 (le_bytes 1 v)
  | code_16 : sfits 16 v -> int_code v REDIS_RDB_ENC_INT16 (le_bytes 2 v)
  | code_32 : sfits 32 v -> int_code v REDIS_RDB_ENC_INT32 (le_bytes 4 v).

Lemma encodeInteger_cases v buf : rdbEncodeInteger v = Some buf -> exists enctype payload,
  buf = 192 + enctype :: payload /\ int_code v enctype payload.
Proof.
  unfold rdbEncodeInteger. change (Z.shiftl 1 7) with 128. change (Z.shiftl 1 15) with 32768. change (Z.shiftl 1 31) with 2147483648.
  destruct ((v >=? Z.opp 128) && (v <=? 128 - 1)) eqn:H1;
    [|destruct ((v >=? Z.opp 32768) && (v <=? 32768 - 1)) eqn:H2;
      [|destruct ((v >=? Z.opp 2147483648) && (v <=? 2147483648 - 1)) eqn:H3; [|done]]]; intros [= <-].
  - exists REDIS_RDB_ENC_INT8, (le_bytes 1 v). split; [by rewrite le_bytes_1|]. constructor. unfold sfits. change (2 ^ (8 - 1)) with 128. lia.
  - exists REDIS_RDB_ENC_INT16, (le_bytes 2 v). split; [by rewrite le_bytes_2|]. constructor. unfold sfits. change (2 ^ (16 - 1)) with 32768. lia.
  - exists REDIS_RDB_ENC_INT32, (le_bytes 4 v). split; [by rewrite le_bytes_4|]. constructor. unfold sfits. change (2 ^ (32 - 1)) with 2147483648. lia.
Qed.

Lemma encodeInteger_large v : rdbEncodeInteger v = None -> ~ sfits 32 v.
Proof.
  unfold rdbEncodeInteger. change (Z.shiftl 1 31) with 2147483648. destruct ((v >=? - Z.shiftl 1 7) && _); [done|]. destruct ((v >=? - Z.shiftl 1 15) && _); [done|].
  destruct ((v >=? Z.opp 2147483648) && (v <=? 2147483648 - 1)) eqn:H3; [done|]. unfold sfits. change (2 ^ (32 - 1)) with 2147483648. lia.
Qed.

Lemma int_code_ok v t p : int_code v t p -> 0 <= t <= 2 /\ bytes_ok p /\ 1 <= zlen p <= 4 /\ sfits 64 v.
Proof. intros H. split; [|split; [|split]]; destruct H; try apply le_bytes_ok; try done; unfold sfits in *; lia. Qed.

(** A string that an object stands for; raw unless an encoding was asked for. *)
Definition is_str (encode : bool) (s : bytes) (o : robj) : Prop :=
  obj_ok o /\ getDecodedObject o = Some s /\ (encode = false -> o = StrRaw s).

Lemma is_str_raw encode s : is_str encode s (StrRaw s).
Proof. done. Qed.

Lemma fromlonglong_ok uninit v : sfits 64 v -> (s ← sdsfromlonglong uninit v; rd_block (sbuf s) 0 (sdslen s)) = Some (dec v).
Proof.
  intros Hv. unfold sdsfromlonglong. destruct (sdsll2str_spec v (ll_buf uninit) Hv) as (ds & junk & -> & Hn & Hl).
  { apply zlen_realloc. unfold SDS_LLSTR_SIZE. lia. }
  cbn [mbind option_bind]. destruct (sdsnewlen_spec uninit (ds ++ 0 :: junk) ds) as (s & -> & (rest & -> & _)).
  { by apply (rd_block_mid [] ds (0 :: junk)). } { unfold SDS_LIM. lia. }
  cbn [mbind option_bind sbuf sdslen slen]. rewrite (rd_block_mid [] ds (0 :: rest)) by done. f_equal. by apply dec_numeral.
Qed.

Lemma loads_int (env : rdb_env) encode v t p : int_code v t p ->
  loads (rdbLoadIntegerObject env t encode) p (is_str encode (dec v)).
Proof.
  intros H. pose proof (int_code_ok v t p H) as (_ & _ & _ & Hv). destruct (dec_spec v Hv) as (Hdec & _).
  assert (forall m, loads m p (fun x => x = v) -> loads (val ⟵ m;
    if encode then lret (createStringObjectFromLongLong val)
    else s ⟵ llift (s ← sdsfromlonglong (fresh (types env)) val; rd_block (sbuf s) 0 (sdslen s)); lret (StrRaw s)) p (is_str encode (dec v))) as Hend.
  { intros m Hm. apply (loads_last _ _ p _ _ Hm). intros x ->. destruct encode.
    - apply loads_ret. by split_and!.
    - eapply loads_llift; [by apply fromlonglong_ok|]. apply loads_ret, is_str_raw. }
  unfold rdbLoadIntegerObject. apply Hend. clear Hend Hdec. pose proof (fun x => land_byte_ok x) as Hb.
  destruct H as [Hf|Hf|Hf]; cbn [Z.eqb REDIS_RDB_ENC_INT8 REDIS_RDB_ENC_INT16 REDIS_RDB_ENC_INT32].
  - apply (loads_last _ _ _ _ _ (loads_read 1 (le_bytes 1 v) eq_refl)). intros enc ->.
    apply (loads_lift _ v); [|done]. change (Some (s8 (u8 v)) = Some v).
    by rewrite swrap_uwrap, swrap_small by (done || lia).
  - apply (loads_last _ _ _ _ _ (loads_read 2 (le_bytes 2 v) eq_refl)). intros enc ->.
    apply (loads_lift _ v); [|done]. rewrite le_bytes_2. cbn [mbind option_bind]. change (rd [?a; ?b] 0) with (Some a).
    change (rd [?a; ?b] 1) with (Some b). cbn [mbind option_bind]. rewrite join_2, <- le_bytes_2, le_val_uwrap by apply Hb.
    change (8 * Z.of_nat 2) with 16. rewrite !swrap_uwrap by lia. f_equal. by apply swrap_small.
  - apply (loads_last _ _ _ _ _ (loads_read 4 (le_bytes 4 v) eq_refl)). intros enc ->.
    apply (loads_lift _ v); [|done]. rewrite le_bytes_4. change (rd [?a; ?b; ?c; ?d] 0) with (Some a). change (rd [?a; ?b; ?c; ?d] 1) with (Some b).
    change (rd [?a; ?b; ?c; ?d] 2) with (Some c). change (rd [?a; ?b; ?c; ?d] 3) with (Some d). cbn [mbind option_bind].
    rewrite join_4, <- le_bytes_4, le_val_uwrap by apply Hb. change (8 * Z.of_nat 4) with 32. rewrite !swrap_uwrap by lia. f_equal. by apply swrap_small.
Qed.

(** ** Strings *)

Lemma len_tag t : 0 <= t < 64 -> byte_ok (192 + t) /\ Z.shiftr (Z.land (192 + t) 192) 6 = 3 /\ Z.land (192 + t) 63 = t.
Proof.
  intros Hx. pose proof (below (fun x => (Z.shiftr (Z.land (192 + x) 192) 6 =? 3) && (Z.land (192 + x) 63 =? x)) 64 eq_refl t Hx) as H.
  cbv beta in H. unfold byte_ok. lia.
Qed.

Lemma loads_tag t : 0 <= t < 64 -> loads len_loader [192 + t] (fun x => x = (t, true)).
Proof.
  intros Ht. destruct (len_tag t Ht) as (_ & H1 & H2). unfold len_loader.
  apply (loads_bind _ _ [192 + t] [] _ _ (loads_read 1 [192 + t] eq_refl)). intros buf ->.
  apply (loads_llift _ (192 + t)); [done|]. rewrite H1, H2. by apply (loads_ret (t, true)).
Qed.

(** What [rdbGenericLoadStringObject] does after the length. *)
Definition string_rest (env : rdb_env) (encode : bool) (x : Z * bool) : loader robj :=
  let '(len, isencoded) := x in
  if isencoded : bool then
    if (len =? REDIS_RDB_ENC_INT8) || (len =? REDIS_RDB_ENC_INT16) || (len =? REDIS_RDB_ENC_INT32)
    then rdbLoadIntegerObject env len encode
    else if len =? REDIS_RDB_ENC_LZF then rdbLoadLzfStringObject
    else (fun _ => None)
  else if len =? REDIS_RDB_LENERR then lfail
  else
    val ⟵ (fun rdb => if len =? 0 then Some (Some [], rdb) else rioRead rdb len);
    lret (StrRaw val).

Lemma loads_string env encode b1 x b2 P : loads len_loader b1 (fun y => y = x) -> loads (string_rest env encode x) b2 P ->
  loads (rdbGenericLoadStringObject env encode) (b1 ++ b2) P.
Proof.
  intros H1 H2. apply (loads_ext (lbind len_loader (string_rest env encode))); [|apply (loads_bind _ _ b1 b2 _ _ H1); by intros y ->].
  intros r. unfold rdbGenericLoadStringObject, lbind at 1 3. rewrite loadLen_loader.
  destruct (len_loader r) as [[[[len enc]|] r']|]; cbn [mbind option_bind default]; done.
Qed.

(** A string saved verbatim. *)
Lemma loads_verbatim env encode s : zlen s < 2 ^ 31 -> loads (rdbGenericLoadStringObject env encode) (len_enc (zlen s) ++ s) (is_str encode s).
Proof.
  intros Hs. pose proof (zlen_nonneg s). apply (loads_string _ _ _ (zlen s, false)); [apply loads_len_loader; lia|].
  cbn [string_rest]. unfold REDIS_RDB_LENERR. destruct (Z.eqb_spec (zlen s) 4294967295); [lia|].
  apply (loads_last _ _ _ (fun x => x = s)); [|intros x ->; apply loads_ret, is_str_raw].
  destruct (Z.eqb_spec (zlen s) 0) as [Hz|Hz]; [|by apply loads_read]. apply zlen_zero in Hz as ->. by apply (loads_ret []).
Qed.

Lemma saves_verbatim b len : 0 <= len <= zlen b -> len < 2 ^ 31 - 5 -> bytes_ok (take (Z.to_nat len) b) ->
  saves (save_verbatim b len) (zlen (len_enc len) + len) (len_enc len ++ take (Z.to_nat len) b).
Proof.
  intros Hl Hl2 Hb. pose proof (len_enc_zlen len). unfold save_verbatim. eapply saves_bind; [apply saves_len; lia|].
  destruct (Z.gtb_spec len 0).
  - eapply saves_lift; [apply rd_block_ok; lia|]. change (drop (Z.to_nat 0) b) with b.
    eapply saves_last; [apply saves_raw; [done|rewrite zlen_take; lia]|].
    rewrite swrap_small by (lia || (unfold sfits; lia)). apply saves_ret. lia.
  - assert (len = 0) as -> by lia. apply (saves_ret (zlen (len_enc 0) + 0)). done.
Qed.

(** An encoded integer. *)
Lemma int_code_enc (env : rdb_env) encode v buf : rdbEncodeInteger v = Some buf ->
  bytes_ok buf /\ 2 <= zlen buf <= 5 /\ loads (rdbGenericLoadStringObject env encode) buf (is_str encode (dec v)).
Proof.
  intros (t & p & -> & Hp)%encodeInteger_cases. destruct (int_code_ok v t p Hp) as (Ht & Hb & Hl & _).
  split; [constructor; [by apply len_tag; lia|done]|]. split; [rewrite zlen_cons; lia|].
  apply (loads_string _ _ [192 + t] (t, true) p); [apply loads_tag; lia|]. cbn [string_rest].
  assert ((t =? REDIS_RDB_ENC_INT8) || (t =? REDIS_RDB_ENC_INT16) || (t =? REDIS_RDB_ENC_INT32) = true) as ->; [|by apply loads_int].
  by destruct Hp.
Qed.

(** The bytes of a string are those of an integer when they are saved as one. *)
Lemma tryInteger_ok b p len : c_str b = Some p -> 0 <= len <= zlen b ->
  exists r, rdbTryIntegerEncoding b len = Some r /\
    forall buf, r = Some buf -> exists v, sfits 64 v /\ take (Z.to_nat len) b = dec v /\ rdbEncodeInteger v = Some buf.
Proof.
  intros Hp Hl. unfold rdbTryIntegerEncoding. rewrite Hp. cbn [mbind option_bind]. destruct (strtoll p) as [[v q] e] eqn:Hs.
  case_bool_decide; cbn [negb]; [|by exists None]. pose proof (strtoll_fits _ _ _ _ Hs) as Hv.
  destruct (ll_str_spec v Hv) as (ds & Hds & Hn & Hlen & ->). cbn [mbind option_bind].
  assert (strlen (ds ++ [0] ++ drop (S (length ds)) (replicate 32 0)) = Some (zlen ds)) as ->.
  { apply strlen_app. eapply Forall_impl; [by eapply signed_numeral_nonzero|]. by intros c []. }
  cbn [mbind option_bind]. destruct (Z.eqb_spec (zlen ds) len) as [<-|]; cbn [negb]; [|by exists None].
  assert (rd_block (ds ++ [0] ++ drop (S (length ds)) (replicate 32 0)) 0 (zlen ds) = Some ds) as -> by by eapply (rd_block_mid []).
  rewrite (rd_block_ok b) by lia.
  cbn [mbind option_bind]. change (drop (Z.to_nat 0) b) with b. eexists. split; [reflexivity|]. intros buf.
  case_bool_decide as Heq; [|done]. intros Hbuf. exists v. split; [done|]. split; [|done]. rewrite <- Heq. by apply dec_numeral.
Qed.

(** The configuration: any, with a table of pointers for the compressor. *)
Definition env_ok (env : rdb_env) : Prop := forall i, - 2 ^ 63 <= htab0 env i < 2 ^ 63.

(** The compressed form: nothing, or bytes that are decompressed. *)
Lemma lzf_ok env b len : env_ok env -> 0 <= len <= zlen b -> 20 < len < 2 ^ 31 - 16 -> bytes_ok (take (Z.to_nat len) b) ->
  saves (rdbSaveLzfStringObject env b len) 0 [] \/
  exists n bs, saves (rdbSaveLzfStringObject env b len) n bs /\ 0 < n <= len + 7 /\ zlen bs = n /\
    forall env' encode, loads (rdbGenericLoadStringObject env' encode) bs (is_str encode (take (Z.to_nat len) b)).
Proof.
  intros Henv Hl Hl2 Hb. unfold rdbSaveLzfStringObject. destruct (Z.leb_spec len 4); [lia|].
  set (s := take (Z.to_nat len) b) in *. assert (rd_block b 0 len = Some s) as Hs by (rewrite rd_block_ok by lia; done).
  assert (zlen s = len) as Hzs by (unfold s; apply zlen_take; lia).
  destruct (lzf_roundtrip_ok s (len - 4) (htab0 env) (realloc (fresh (types env)) [] (len - 4 + 1)) (replicate (Z.to_nat len) 0))
    as (r & out & Hrun & Hr & Hcase); [done|lia|lia|apply zlen_realloc; lia|done|rewrite zlen_replicate; lia|].
  destruct Hcase as [->|(Hr0 & Hcb & Hcz & Hdec)].
  { left. eapply saves_lift; [exact Hs|]. eapply saves_lift; [exact Hrun|]. cbn [Z.eqb]. by apply saves_ret. }
  right. set (c := take (Z.to_nat r) out) in *. pose proof (len_enc_zlen r). pose proof (len_enc_zlen len).
  exists (1 + zlen (len_enc r) + zlen (len_enc len) + r), ([192 + 3] ++ len_enc r ++ len_enc len ++ c ++ []). split; [|split; [lia|split]].
  - eapply saves_lift; [exact Hs|]. eapply saves_lift; [exact Hrun|]. cbv beta iota. destruct (Z.eqb_spec r 0); [lia|].
    assert (rd_block out 0 r = Some c) as Hc.
    { rewrite rd_block_ok; [done|lia|lia|]. unfold c, zlen in *. rewrite length_take in Hcz. lia. }
    eapply saves_bind; [apply (saves_raw [192 + 3]); [by repeat constructor|done]|].
    eapply saves_bind; [apply saves_len; lia|]. eapply saves_bind; [apply saves_len; lia|]. eapply saves_lift; [exact Hc|].
    eapply saves_bind; [apply saves_raw; [done|lia]|]. rewrite Hcz. change (zlen [192 + 3]) with 1.
    rewrite swrap_small by (lia || (unfold sfits; lia)). apply saves_ret. lia.
  - rewrite !zlen_app. change (zlen [192 + 3]) with 1. change (zlen (@nil Z)) with 0. lia.
  - intros env' encode. apply (loads_string _ _ [192 + 3] (3, true)); [by apply loads_tag|]. cbn [string_rest].
    change ((3 =? REDIS_RDB_ENC_INT8) || _ || _) with false. change (3 =? REDIS_RDB_ENC_LZF) with true. cbv iota.
    unfold rdbLoadLzfStringObject. eapply loads_bind; [apply loads_len; unfold REDIS_RDB_LENERR; lia|]. intros x ->.
    eapply loads_bind; [apply loads_len; unfold REDIS_RDB_LENERR; lia|]. intros x ->.
    rewrite app_nil_r. eapply loads_last; [by apply loads_read|]. intros x ->. rewrite Hzs in Hdec.
    eapply loads_llift; [exact Hdec|]. cbv iota beta. destruct (Z.eqb_spec len 0); [lia|]. apply loads_ret, is_str_raw.
Qed.

(** ** Objects that are strings *)

(** The writer saves the string [s] in at most seven bytes more than it has. *)
Definition string_codec (w : writer) (s : bytes) : Prop :=
  exists n bs, saves w n bs /\ 0 < n <= zlen s + 7 /\ zlen bs = n /\
    forall env encode, loads (rdbGenericLoadStringObject env encode) bs (is_str encode s).

Definition short_enough (s : bytes) : Prop := zlen s < 2 ^ 31 - 16.

Lemma verbatim_codec b s : zlen s <= zlen b -> take (Z.to_nat (zlen s)) b = s -> bytes_ok s -> short_enough s ->
  string_codec (save_verbatim b (zlen s)) s.
Proof.
  unfold short_enough. intros Hl Hs Hb Hlen. pose proof (zlen_nonneg s). pose proof (len_enc_zlen (zlen s)).
  exists (zlen (len_enc (zlen s)) + zlen s), (len_enc (zlen s) ++ s). split; [|split; [lia|split; [by rewrite zlen_app|]]].
  - eapply saves_eq; [apply (saves_verbatim b (zlen s)); [lia|lia|by rewrite Hs]|done|by rewrite Hs].
  - intros env encode. apply loads_verbatim. lia.
Qed.

Lemma raw_string_ok env b s : env_ok env -> zlen s <= zlen b -> take (Z.to_nat (zlen s)) b = s -> bytes_ok s -> short_enough s ->
  (zlen s <= 11 -> is_Some (c_str b)) -> string_codec (rdbSaveRawString env b (zlen s)) s.
Proof.
  intros Henv Hl Hs Hb Hlen Hc. pose proof (zlen_nonneg s) as H0. unfold rdbSaveRawString.
  assert (exists r, (if zlen s <=? 11 then rdbTryIntegerEncoding b (zlen s) else Some None) = Some r /\
    forall buf, r = Some buf -> exists v, sfits 64 v /\ s = dec v /\ rdbEncodeInteger v = Some buf) as (r & Hr & Hbuf).
  { destruct (Z.leb_spec (zlen s) 11); [|by exists None]. destruct (Hc ltac:(done)) as [p Hp].
    destruct (tryInteger_ok b p (zlen s) Hp) as (r & Hr & Hbuf); [lia|]. exists r. split; [done|]. by rewrite Hs in Hbuf. }
  destruct r as [buf|].
  - destruct (Hbuf buf eq_refl) as (v & Hv & -> & Henc). destruct (int_code_enc env true v buf Henc) as (Hok & Hz & _).
    exists (zlen buf), buf. split; [|split; [lia|split; [done|]]].
    + eapply saves_lift; [exact Hr|]. eapply saves_last; [apply saves_raw; [done|lia]|]. apply saves_ret. lia.
    + intros env' encode. by apply int_code_enc.
  - destruct (verbatim_codec b s Hl Hs Hb Hlen) as (n & bs & Hsave & Hn & Hz & Hload).
    destruct (rdb_compression env && (zlen s >? 20)) eqn:Hcomp.
    + apply andb_true_iff in Hcomp as [_ Hgt]. unfold short_enough in Hlen.
      destruct (lzf_ok env b (zlen s) Henv) as [Hz0|(m & cs & Hm & Hm0 & Hmz & Hmload)]; [lia|lia|by rewrite Hs| |].
      * exists n, bs. split; [|done]. eapply saves_lift; [exact Hr|]. apply (saves_bind _ _ 0 []); [exact Hz0|]. cbn [Z.gtb Z.compare]. exact Hsave.
      * exists m, cs. rewrite Hs in Hmload. split; [|done]. eapply saves_lift; [exact Hr|]. eapply saves_last; [exact Hm|].
        destruct (Z.gtb_spec m 0); [|lia]. apply saves_ret. lia.
    + exists n, bs. split; [|done]. eapply saves_lift; [exact Hr|]. apply (saves_bind _ _ 0 []); [by apply saves_ret|]. exact Hsave.
Qed.

Lemma longlong_ok v : sfits 64 v -> string_codec (rdbSaveLongLongAsStringObject v) (dec v).
Proof.
  intros Hv. destruct (dec_spec v Hv) as (_ & Hn & Hlen). unfold rdbSaveLongLongAsStringObject.
  destruct (rdbEncodeInteger v) as [buf|] eqn:Henc.
  - destruct (int_code_enc (mkRdbEnv (mkEnv 0 0 0 0 0 (fun _ => 0) true (fun _ => 0)) true true (fun _ => 0)) true v buf Henc) as (Hok & Hz & _).
    pose proof (zlen_nonneg (dec v)). exists (zlen buf), buf. split; [apply saves_raw; [done|lia]|]. split; [lia|]. split; [done|].
    intros env encode. by apply int_code_enc.
  - destruct (ll_str_spec v Hv) as (ds & Hds & Hnds & _ & Hrun). assert (ds = dec v) as -> by by apply dec_numeral.
    set (rest := [0] ++ drop (S (length (dec v))) (replicate 32 0)) in *. assert (bytes_ok (dec v)) as Hb.
    { eapply Forall_impl; [by eapply signed_numeral_nonzero|]. by intros c []. }
    set (d := dec v) in *. pose proof (len_enc_zlen (zlen d)). pose proof (zlen_nonneg d).
    exists (zlen (len_enc (zlen d)) + zlen d), (len_enc (zlen d) ++ d). split; [|split; [lia|split; [by rewrite zlen_app|]]].
    + eapply saves_lift; [exact Hrun|]. cbv beta iota. destruct (Z.ltb_spec (zlen d) 32); [|lia]. cbn [negb].
      eapply saves_bind; [apply saves_len; lia|]. eapply saves_lift; [by apply (rd_block_mid [] d rest)|].
      eapply saves_last; [apply saves_raw; [done|lia]|]. rewrite swrap_small by (lia || (unfold sfits; lia)). apply saves_ret. lia.
    + intros env encode. apply loads_verbatim. lia.
Qed.

Lemma string_object_ok env o s : env_ok env -> obj_ok o -> getDecodedObject o = Some s -> bytes_ok s -> short_enough s ->
  string_codec (rdbSaveStringObject env o) s.
Proof.
  intros Henv Ho Hs Hb Hlen. destruct o as [v|t| | | |]; try done; cbn [rdbSaveStringObject getDecodedObject obj_ok] in *.
  - destruct (dec_spec v Ho) as (Hd & _). rewrite Hd in Hs. injection Hs as <-. by apply longlong_ok.
  - injection Hs as ->. apply raw_string_ok; try done.
    + rewrite zlen_app. change (zlen [0]) with 1. lia.
    + unfold zlen. by rewrite Nat2Z.id, take_app_length.
    + intros _. destruct (c_str_total s) as [p Hp]. by exists p.
Qed.
