(* ===== verification/RdbObject.v ===== *)
(** * The dump format: values (src/redis-2.8.19/src/rdb.c)

    What [rdbSaveObject] writes for a value of any encoding, [rdbLoadObject] reads as
    a value with the same contents, for every configuration of the process that
    loads it. *)
From S2P Require Import Prelude Util Sds Object Intset Dict DictIter DictBound Ziplist ZiplistSpec HashType HashTypeSpec SetType ListType ListTypeSpec Rio Rdb RdbLoad RdbCodec.
Open Scope Z_scope.

(** ** Contents *)

Inductive contents :=
  | CString (s : bytes)
  | CList (l : list bytes)
  | CSet (s : gset bytes)
  | CHash (h : gmap bytes bytes).

Definition value_repr (env : type_env) (o : value) (c : contents) : Prop :=
  match o, c with
  | VString o, CString s => obj_ok o /\ getDecodedObject o = Some s
  | VList o, CList l => list_repr o l
  | VSet o, CSet s => set_repr env o s
  | VHash o, CHash h => hash_repr env o h
  | _, _ => False
  end.

(** The strings in it. *)
Definition strings_in (c : contents) : list bytes :=
  match c with
  | CString s => [s]
  | CList l => l
  | CSet s => elements s
  | CHash h => flat (map_to_list h)
  end.

(** Less than a gigabyte of bytes. *)
Definition contents_ok (c : contents) : Prop :=
  2 * weight (strings_in c) + 500 < 2 ^ 31 /\ Forall (Forall byte_ok) (strings_in c).

Definition string_ok (s : bytes) : Prop := bytes_ok s /\ short_enough s.

Lemma weight_perm l1 l2 : l1 ≡ₚ l2 -> weight l1 = weight l2.
Proof. induction 1; rewrite ?weight_cons; lia. Qed.

Lemma weight_elem s l : s ∈ l -> zlen s + 29 <= weight l.
Proof.
  induction 1 as [s l|s t l _ IH]; rewrite weight_cons; [pose proof (weight_zlen l); pose proof (zlen_nonneg l)|pose proof (zlen_nonneg t)]; lia.
Qed.

Lemma strings_short L : 2 * weight L + 500 < 2 ^ 31 -> Forall (Forall byte_ok) L -> Forall string_ok L.
Proof.
  rewrite !Forall_forall. intros Hw Hb s Hs. split; [by apply Hb|]. pose proof (weight_elem s L Hs). unfold short_enough. lia.
Qed.

(** ** Strings one after the other *)

Definition str_code (bs : bytes) (s : bytes) : Prop :=
  forall env encode, loads (rdbGenericLoadStringObject env encode) bs (is_str encode s).

Inductive strs_code : bytes -> list bytes -> Prop :=
  | strs_nil : strs_code [] []
  | strs_cons bs s cs L : str_code bs s -> strs_code cs L -> strs_code (bs ++ cs) (s :: L).

Lemma strs_app b1 L1 b2 L2 : strs_code b1 L1 -> strs_code b2 L2 -> strs_code (b1 ++ b2) (L1 ++ L2).
Proof. induction 1 as [|bs s cs L Hs _ IH]; intros H2; [done|]. rewrite <- app_assoc. by constructor; [|apply IH]. Qed.

(** An additive writer of the strings [L], on top of what was written. *)
Definition adds (m : Z -> writer) (L : list bytes) : Prop :=
  forall nw, 0 <= nw -> nw + weight L < 2 ^ 31 ->
    exists bs, saves (m nw) (nw + zlen bs) bs /\ zlen bs + 11 <= weight L /\ strs_code bs L.

Lemma s32_sum a b : 0 <= a -> 0 <= b -> a + b < 2 ^ 31 -> s32 (a + b) = a + b.
Proof. intros. apply swrap_small; [lia|]. unfold sfits. lia. Qed.

Lemma adds_nil : adds (fun nw => wret nw) [].
Proof.
  intros nw Hn _. exists []. split; [eapply saves_eq; [by apply (saves_ret nw)|change (zlen (@nil Z)) with 0; lia|done]|].
  split; [done|constructor].
Qed.

Lemma adds_cons w m s L : string_codec w s -> adds m L -> adds (fun nw => n ⇐ w; m (s32 (nw + n))) (s :: L).
Proof.
  intros (n & bs & Hw & Hn & Hz & Hload) Hm nw Hnw Hlen. rewrite weight_cons in Hlen. pose proof (weight_zlen L). pose proof (zlen_nonneg L).
  pose proof (zlen_nonneg s). destruct (Hm (nw + n)) as (cs & Hcs & Hz2 & Hcode); [lia|lia|].
  exists (bs ++ cs). rewrite zlen_app, weight_cons. split; [|split; [lia|by constructor]].
  eapply saves_eq; [|reflexivity|reflexivity]. rewrite Hz, Z.add_assoc. eapply saves_bind; [exact Hw|]. by rewrite s32_sum by lia.
Qed.

Lemma adds_ext m m' L : (forall nw, m nw = m' nw) -> adds m L -> adds m' L.
Proof. intros Heq Hm nw. rewrite <- Heq. apply Hm. Qed.

Section save.
Context (env : rdb_env) (Henv : env_ok env).

Lemma object_codec o s : obj_ok o -> getDecodedObject o = Some s -> string_ok s -> string_codec (rdbSaveStringObject env o) s.
Proof using Henv. intros Ho Hs [Hb Hl]. by apply string_object_ok. Qed.

Lemma save_list_adds l L : strings_of l L -> Forall string_ok L -> adds (save_list env l) L.
Proof using Henv.
  induction 1 as [|o s l L [Ho Hs] _ IH]; intros HL; [exact adds_nil|]. apply Forall_cons in HL as [Hsok HL].
  apply (adds_cons (rdbSaveStringObject env o)); [by apply object_codec|by apply IH].
Qed.

(** A step of an iterator that is not safe. *)
Lemma next_unsafe {K V} `{EqDecision K} (d : dict K V) di es : visiting d di es -> it_safe di = false ->
  exists di', dictNext d di = Some (head es, di', d) /\ it_safe di' = false /\ (es = [] \/ visiting d di' (tail es)).
Proof.
  intros Hv Hs. destruct (dictNext_ok d di es Hv) as (di' & Hrun & Hs' & _ & Hr).
  assert (guarded d di = d) as Hg by (unfold guarded; rewrite Hs, andb_false_r; cbn [b2z]; rewrite Z.add_0_r; by destruct d).
  rewrite Hg in Hrun, Hr. exists di'. split; [done|]. split; [congruence|done].
Qed.

Lemma wlift_eq {A} (o : option A) x k : o = Some x -> wlift o k = k x.
Proof. by intros ->. Qed.

Lemma save_set_adds d fuel : forall di es, visiting d di es -> it_safe di = false -> (length es < fuel)%nat ->
  Forall string_ok es.*1 -> adds (save_set env fuel d di) es.*1.
Proof using Henv.
  induction fuel as [|fuel IH]; intros di es Hv Hs Hf HL; [lia|]. destruct (next_unsafe d di es Hv Hs) as (di' & Hnext & Hs' & Hr).
  destruct es as [|[k u] es]; cbn [head tail length fmap list_fmap fst] in *.
  - eapply adds_ext; [|exact adds_nil]. intros nw. cbn [save_set]. by rewrite (wlift_eq _ _ _ Hnext).
  - destruct Hr as [|Hr]; [done|]. apply Forall_cons in HL as [Hk HL]. destruct (tryObjectEncoding_ok k) as (o & Ho & _ & Hok & Hd & _).
    eapply adds_ext; [|apply (adds_cons (rdbSaveStringObject env o)); [by apply object_codec|apply (IH di' es); [done|done|lia|done]]].
    intros nw. cbn [save_set]. rewrite (wlift_eq _ _ _ Hnext). cbv beta iota. by rewrite (wlift_eq _ _ _ Ho).
Qed.

(** The pairs that the entries of a dictionary of strings stand for. *)
Definition pairs_of (es : list (bytes * robj)) (l : list (bytes * bytes)) : Prop :=
  Forall2 (fun e p => e.1 = p.1 /\ obj_ok e.2 /\ getDecodedObject e.2 = Some p.2) es l.

Lemma save_hash_adds d fuel : forall di es l, visiting d di es -> it_safe di = false -> (length es < fuel)%nat -> pairs_of es l ->
  Forall string_ok (flat l) -> adds (save_hash env fuel d di) (flat l).
Proof using Henv.
  induction fuel as [|fuel IH]; intros di es l Hv Hs Hf Hp HL; [lia|]. destruct (next_unsafe d di es Hv Hs) as (di' & Hnext & Hs' & Hr).
  destruct Hp as [|[k v] [k' s] es l (Hk & Hvok & Hvs) Hp]; cbn [head tail length fst snd flat] in *.
  - eapply adds_ext; [|exact adds_nil]. intros nw. cbn [save_hash]. by rewrite (wlift_eq _ _ _ Hnext).
  - subst k'. destruct Hr as [|Hr]; [done|]. apply Forall_cons in HL as [Hkok HL]. apply Forall_cons in HL as [Hsok HL].
    destruct (tryObjectEncoding_ok k) as (o & Ho & _ & Hok & Hd & _). pose proof (object_codec o k Hok Hd Hkok) as Hc1.
    pose proof (object_codec v s Hvok Hvs Hsok) as Hc2. pose proof (IH di' es l Hr Hs' ltac:(lia) Hp HL) as Hrec.
    eapply adds_ext; [|exact (adds_cons _ _ _ _ Hc1 (adds_cons _ _ _ _ Hc2 Hrec))].
    intros nw. cbn [save_hash]. rewrite (wlift_eq _ _ _ Hnext). cbv beta iota. by rewrite (wlift_eq _ _ _ Ho).
Qed.
End save.

(** ** Loading the elements *)

Section load.
Context (env : rdb_env).

Lemma elem_step o L0 s ele : list_repr o L0 -> 2 * weight (L0 ++ [s]) + 500 < 2 ^ 31 -> is_str true s ele ->
  exists o1, match o, ele with
             | ListZiplist _, StrRaw s => if zlen s >? list_max_ziplist_value (types env) then listTypeConvert o else Some o
             | _, _ => Some o
             end = Some o1 /\
  exists o2, match o1 with
             | ListZiplist zl =>
                 dec ← getDecodedObject ele;
                 ListZiplist <$> ziplistPush (fresh (types env)) zl dec (zlen dec) ZIPLIST_TAIL
             | ListLinked l => ele ← encode_object ele; Some (ListLinked (l ++ [ele]))
             end = Some o2 /\ list_repr o2 (L0 ++ [s]).
Proof.
  intros Ho Hw (Hok & Hs & _). rewrite weight_app, weight_cons in Hw. change (weight []) with 11 in Hw.
  assert (exists o1, match o, ele with
    | ListZiplist _, StrRaw s => if zlen s >? list_max_ziplist_value (types env) then listTypeConvert o else Some o
    | _, _ => Some o end = Some o1 /\ list_repr o1 L0) as (o1 & -> & Ho1).
  { destruct o as [zl|l]; [|by exists (ListLinked l)]. destruct ele; try by exists (ListZiplist zl). destruct (_ >? _); [|by exists (ListZiplist zl)].
    destruct (list_convert_ok _ L0 Ho) as (l & -> & Hl). by exists (ListLinked l). }
  exists o1. split; [done|]. destruct o1 as [zl|l]; cbn [list_repr] in Ho1.
  - rewrite Hs. cbn [mbind option_bind]. pose proof (ziplist_ok_weight _ _ Ho1). pose proof (weight_zlen L0). pose proof (zlen_nonneg L0). pose proof (zlen_nonneg s).
    destruct (ziplistPush_ok (fresh (types env)) zl L0 s ZIPLIST_TAIL Ho1) as (zl' & -> & Hzl'); [lia|]. by exists (ListZiplist zl').
  - destruct (encode_object_ok ele s Hok Hs) as (e & -> & Hek & Hes). cbn [mbind option_bind]. eexists. split; [done|].
    cbn [list_repr]. apply Forall2_app; [done|]. by constructor.
Qed.

Lemma load_list_ok bs L : strs_code bs L -> forall o L0, list_repr o L0 -> 2 * weight (L0 ++ L) + 500 < 2 ^ 31 ->
  loads (load_list env (length L) o) bs (fun o' => list_repr o' (L0 ++ L)).
Proof.
  induction 1 as [|bs s cs L Hs _ IH]; intros o L0 Ho Hw; cbn [length load_list].
  - apply loads_ret. by rewrite app_nil_r.
  - eapply loads_bind; [apply Hs|]. intros ele Hele. assert (2 * weight (L0 ++ [s]) + 500 < 2 ^ 31) as Hw1.
    { rewrite !weight_app, !weight_cons in *. change (weight []) with 11. pose proof (weight_zlen L). pose proof (zlen_nonneg L). lia. }
    destruct (elem_step o L0 s ele Ho Hw1 Hele) as (o1 & H1 & o2 & H2 & Ho2).
    eapply loads_llift; [exact H1|]. eapply loads_llift; [exact H2|]. rewrite (cons_middle s L0 L), app_assoc in *. by apply IH.
Qed.

Lemma set_step o X s len ele : set_repr (types env) o X -> set_room X -> 0 <= len <= 2 ^ 30 -> is_str true s ele ->
  exists e, encode_object ele = Some e /\
  exists o1, match o with
             | SetIntset t =>
                 r ← isObjectRepresentableAsLongLong e;
                 match r with
                 | Some llval => '(t, _) ← intsetAdd (fresh (types env)) t llval; Some (SetIntset t)
                 | None =>
                     o ← setTypeConvert (types env) o;
                     match o with
                     | SetHT d => '(d, _) ← dictExpand d len; Some (SetHT d)
                     | SetIntset _ => None
                     end
                 end
             | SetHT _ => Some o
             end = Some o1 /\
  exists o2, match o1 with
             | SetHT d =>
                 key ← getDecodedObject e;
                 '(d, _) ← dictAdd (hash_fun (types env)) (can_resize (types env)) tt d key tt;
                 Some (SetHT d)
             | SetIntset _ => Some o1
             end = Some o2 /\ set_repr (types env) o2 ({[s]} ∪ X).
Proof.
  intros Ho Hroom Hlen (Hok & Hs & _). destruct (encode_object_ok ele s Hok Hs) as (e & He & Hek & Hes). exists e. split; [done|].
  assert (forall d, dict_inv (hash_fun (types env)) d -> dom (to_map d) = X -> exists o2,
    (key ← getDecodedObject e; '(d, _) ← dictAdd (hash_fun (types env)) (can_resize (types env)) tt d key tt; Some (SetHT d)) = Some o2 /\
    set_repr (types env) o2 ({[s]} ∪ X)) as Hadd.
  { intros d Hd Hdom. destruct (ht_add (types env) d s Hd) as (d' & st & Hrun & Hd' & Hdom' & _); [by rewrite Hdom; apply set_room_fits|].
    rewrite Hes. cbn [mbind option_bind]. rewrite Hrun. eexists. split; [done|]. rewrite <- Hdom, <- Hdom'. by constructor. }
  destruct Ho as [t l Ht Hl|d Hd]; [|exists (SetHT d); split; [done|by apply Hadd]].
  destruct (representable_ok e s Hek Hes) as (r & -> & Hr). cbn [mbind option_bind].
  pose proof (intset_room _ _ Ht Hl (set_room_fits _ Hroom)) as Hsm. destruct r as [v|].
  - destruct (proj1 (Hr v) eq_refl) as [Hv ->]. destruct (intsetAdd_ok (fresh (types env)) t l v Ht Hsm Hv) as (t' & -> & Ht').
    cbn [mbind option_bind]. eexists. split; [done|]. eexists. split; [done|]. rewrite <- numerals_insert. apply repr_intset; [done|].
    apply Forall_forall. intros w [->|Hw]%elem_of_insert_sorted; [done|]. by rewrite Forall_forall in Hl; apply Hl.
  - destruct (setTypeConvert_ok (types env) t l Ht Hl (set_room_fits _ Hroom)) as (d & -> & Hd & Hdom). cbn [mbind option_bind].
    destruct (dictExpand_inv (hash_fun (types env)) d len Hd Hlen) as (d' & st & -> & Hd' & Hm'). cbn [mbind option_bind].
    eexists. split; [done|]. apply Hadd; [done|]. by rewrite Hm'.
Qed.

Lemma load_set_ok len bs L : 0 <= len <= 2 ^ 30 -> strs_code bs L -> forall o X, set_repr (types env) o X -> NoDup L ->
  (forall s, s ∈ L -> s ∉ X) -> Z.of_nat (base.size X + length L) <= 2 ^ 28 ->
  loads (load_set env (length L) len o) bs (fun o' => set_repr (types env) o' (list_to_set L ∪ X)).
Proof.
  intros Hlen. induction 1 as [|bs s cs L Hs _ IH]; intros o X Ho Hn Hd Hsz; cbn [length load_set].
  - apply loads_ret. cbn [list_to_set]. by rewrite union_empty_l_L.
  - apply NoDup_cons in Hn as [Hnin Hn]. assert (set_room X) as Hroom by (unfold set_room; cbn [length] in Hsz; lia).
    eapply loads_bind; [apply Hs|]. intros ele Hele. destruct (set_step o X s len ele Ho Hroom Hlen Hele) as (e & He & o1 & H1 & o2 & H2 & Ho2).
    eapply loads_llift; [exact He|]. eapply loads_llift; [exact H1|]. eapply loads_llift; [exact H2|].
    assert (s ∉ X) as HsX by (apply Hd; left). eapply loads_mono; [apply IH; [exact Ho2|done| |]|].
    + intros t Ht [->%elem_of_singleton|HtX]%elem_of_union; [done|]. apply (Hd t); [by right|done].
    + rewrite size_union, size_singleton by set_solver. cbn [length] in Hsz. lia.
    + intros o' Ho'. cbn [list_to_set]. replace (({[s]} ∪ list_to_set L) ∪ X) with (list_to_set L ∪ ({[s]} ∪ X)) by set_solver. done.
Qed.

Lemma load_hash_ht_ok : forall l bs l0 d, strs_code bs (flat l) -> dict_inv (hash_fun (types env)) d -> strings_ok (to_map d) ->
  decoded (to_map d) = list_to_map l0 -> NoDup (l0 ++ l).*1 -> Z.of_nat (length (l0 ++ l)) <= 2 ^ 29 ->
  loads (load_hash_ht env (length l) d) bs (fun o => hash_repr (types env) o (list_to_map (l0 ++ l))).
Proof.
  induction l as [|[f v] l IH]; intros bs l0 d Hc Hd Hs Hm Hn Hlen; cbn [length load_hash_ht flat] in *.
  { inversion Hc; subst. apply loads_ret. rewrite app_nil_r, <- Hm. by constructor. }
  inversion Hc as [|b1 ? c1 ? Hf Hc1]; subst. inversion Hc1 as [|b2 ? c2 ? Hv Hc2]; subst.
  eapply loads_bind; [apply Hf|]. intros fo (Hfok & Hfs & _). eapply loads_bind; [apply Hv|]. intros vo (Hvok & Hvs & _).
  destruct (encode_object_ok fo f Hfok Hfs) as (fo' & Hfe & _ & Hfd). destruct (encode_object_ok vo v Hvok Hvs) as (vo' & Hve & Hvok' & Hvd).
  eapply loads_llift; [exact Hfe|]. eapply loads_llift; [exact Hve|].
  assert (f ∉ l0.*1) as Hnin.
  { rewrite fmap_app in Hn. apply NoDup_app in Hn as (_ & Hn & _). intros Hin. apply (Hn f Hin). by left. }
  assert (to_map d !! f = None) as Hnone by (apply decoded_none; [done|]; rewrite Hm; by apply not_elem_of_list_to_map).
  destruct (dictAdd_inv (hash_fun (types env)) (can_resize (types env)) vo' d f vo' Hd) as (d' & st & Hadd & Hd' & Hst).
  { unfold few. rewrite <- decoded_size, Hm by done. rewrite map_size_list_to_map; [rewrite length_app in Hlen; lia|].
    rewrite fmap_app in Hn. by apply NoDup_app in Hn as [? _]. }
  rewrite Hnone in Hst. destruct Hst as [-> Hm'].
  eapply loads_llift; [rewrite Hfd; cbn [mbind option_bind]; rewrite Hadd; reflexivity|].
  rewrite (cons_middle (f, v) l0 l), app_assoc in *. apply IH; try done.
  - rewrite Hm'. by apply (strings_insert _ _ _ v).
  - rewrite Hm', (decoded_insert _ _ _ v), Hm by done. symmetry. by apply list_to_map_snoc.
Qed.

Lemma lbind_assoc {A B C} (f : loader A) (k : A -> loader B) (K : B -> loader C) r :
  lbind (lbind f k) K r = lbind f (fun x => lbind (k x) K) r.
Proof. unfold lbind. destruct (f r) as [[[x|] r1]|]; done. Qed.

Lemma loads_bind_assoc {A B C} (f : loader A) (k : A -> loader B) (K : B -> loader C) b1 b2 P Q :
  loads f b1 P -> (forall x, P x -> loads (lbind (k x) K) b2 Q) -> loads (lbind (lbind f k) K) (b1 ++ b2) Q.
Proof.
  intros Hf Hk. apply (loads_ext (lbind f (fun x => lbind (k x) K))); [apply lbind_assoc|by eapply loads_bind].
Qed.

Lemma loads_llift_assoc {A B C} (o : option A) x (k : A -> loader B) (K : B -> loader C) bs Q :
  o = Some x -> loads (lbind (k x) K) bs Q -> loads (lbind (lbind (llift o) k) K) bs Q.
Proof.
  intros Ho Hk. apply (loads_ext (lbind (llift o) (fun x => lbind (k x) K))); [apply lbind_assoc|by eapply loads_llift].
Qed.

(** What follows the first loop of a hash. *)
Definition hash_tail (r : nat * hobj) : loader value :=
  let '(left_, o) := r in
  o ⟵ (match o with
       | HashHT d => load_hash_ht env left_ d
       | HashZiplist _ => if Nat.eqb left_ 0 then lret o else (fun _ => None)
       end);
  lret (VHash o).

Lemma raw_of_ok s o : is_str false s o -> raw_of o = Some s.
Proof. by intros (_ & _ & ->). Qed.

Lemma pairs_push f v l : pairs_weight (l ++ [(f, v)]) = pairs_weight l + zlen f + zlen v + 36.
Proof. unfold pairs_weight. rewrite flat_app, weight_app. cbn [flat]. rewrite !weight_cons. change (weight []) with 11. lia. Qed.

Lemma push_pair zl l f v : ziplist_ok zl (flat l) -> 2 * pairs_weight (l ++ [(f, v)]) + 500 < 2 ^ 31 ->
  exists zl1 zl2, ziplistPush (fresh (types env)) zl f (zlen f) ZIPLIST_TAIL = Some zl1 /\
    ziplistPush (fresh (types env)) zl1 v (zlen v) ZIPLIST_TAIL = Some zl2 /\ ziplist_ok zl2 (flat (l ++ [(f, v)])).
Proof.
  intros Hzl. rewrite pairs_push. unfold pairs_weight. intros Hw. pose proof (zlen_nonneg f). pose proof (zlen_nonneg v).
  pose proof (ziplist_ok_weight _ _ Hzl). pose proof (weight_zlen (flat l)). pose proof (zlen_nonneg (flat l)).
  destruct (ziplistPush_ok (fresh (types env)) zl (flat l) f ZIPLIST_TAIL Hzl) as (zl1 & Hp1 & Hzl1); [lia|].
  pose proof (ziplist_ok_weight _ _ Hzl1) as Hw1. rewrite weight_app, weight_cons in Hw1. change (weight []) with 11 in Hw1.
  destruct (ziplistPush_ok (fresh (types env)) zl1 (flat l ++ [f]) v ZIPLIST_TAIL Hzl1) as (zl2 & Hp2 & Hzl2).
  { rewrite zlen_app. change (zlen [f]) with 1. lia. }
  exists zl1, zl2. split; [done|]. split; [done|]. rewrite flat_app. cbn [flat]. by rewrite <- app_assoc in Hzl2.
Qed.

Lemma load_hash_zl_ok : forall l bs l0 zl, strs_code bs (flat l) -> ziplist_ok zl (flat l0) -> NoDup (l0 ++ l).*1 ->
  2 * pairs_weight (l0 ++ l) + 500 < 2 ^ 31 ->
  loads (lbind (load_hash_ziplist env (length l) zl) hash_tail) bs
    (fun o => value_repr (types env) o (CHash (list_to_map (l0 ++ l)))).
Proof.
  induction l as [|[f v] l IH]; intros bs l0 zl Hc Hzl Hn Hw; cbn [length load_hash_ziplist flat] in *.
  { inversion Hc; subst. rewrite app_nil_r in *. apply (loads_ret (VHash (HashZiplist zl))). by apply (repr_ziplist (types env)). }
  inversion Hc as [|b1 ? c1 ? Hf Hc1]; subst. inversion Hc1 as [|b2 ? c2 ? Hv Hc2]; subst.
  eapply loads_bind_assoc; [apply Hf|]. intros fo Hfo%raw_of_ok. eapply loads_llift_assoc; [exact Hfo|].
  eapply loads_bind_assoc; [apply Hv|]. intros vo Hvo%raw_of_ok. eapply loads_llift_assoc; [exact Hvo|].
  rewrite (cons_middle (f, v) l0 l), app_assoc in *.
  assert (2 * pairs_weight (l0 ++ [(f, v)]) + 500 < 2 ^ 31) as Hw1.
  { rewrite pairs_weight_app in Hw. pose proof (pairs_weight_zlen l). pose proof (zlen_nonneg l). lia. }
  destruct (push_pair zl l0 f v Hzl Hw1) as (zl1 & zl2 & H1 & H2 & Hzl2).
  eapply loads_llift_assoc; [exact H1|]. eapply loads_llift_assoc; [exact H2|].
  destruct (_ || _); [|by apply IH]. assert (NoDup (l0 ++ [(f, v)]).*1) as Hn1 by (rewrite fmap_app in Hn; by apply NoDup_app in Hn as [? _]).
  destruct (hash_convert_ht (types env) zl2 _ Hzl2 Hn1) as (d & Hd & Hinv & Hs & Hm); [lia|].
  eapply loads_llift_assoc; [exact Hd|].
  apply (loads_bind _ _ [] c2 (fun x => x = (length l, HashHT d))); [by apply (loads_ret (length l, HashHT d))|]. intros x ->.
  apply (loads_last _ _ _ (fun o => hash_repr (types env) o (list_to_map ((l0 ++ [(f, v)]) ++ l)))); [|intros o Ho; by apply (loads_ret (VHash o))].
  apply load_hash_ht_ok; try done.
  pose proof (pairs_weight_zlen ((l0 ++ [(f, v)]) ++ l)) as Hz. unfold zlen in Hz at 1. lia.
Qed.

(** ** Values in one block *)

Lemma blob_list zl L : ziplist_ok zl L ->
  exists o, load_blob env REDIS_RDB_TYPE_LIST_ZIPLIST zl = Some (VList o) /\ list_repr o L.
Proof.
  intros Hzl. change (load_blob env REDIS_RDB_TYPE_LIST_ZIPLIST zl) with ('(n, zl) ← ziplistLen zl;
    VList <$> (if n >? list_max_ziplist_entries (types env) then listTypeConvert (ListZiplist zl) else Some (ListZiplist zl))).
  destruct (ziplistLen_ok zl L Hzl) as (zl' & -> & Hzl'). cbn [mbind option_bind]. destruct (_ >? _).
  - destruct (list_convert_ok (ListZiplist zl') L Hzl') as (l & -> & Hl). by exists (ListLinked l).
  - by exists (ListZiplist zl').
Qed.

Lemma intset_block_ok s l : intset_repr s l -> zlen l < 2 ^ 28 ->
  intset_of_block (intset_block s) = Some s /\ zlen (intset_block s) = intsetBlobLen s /\ bytes_ok (intset_block s) /\
  zlen (intset_block s) = 8 + is_encoding s * zlen l.
Proof.
  intros [He Hlen Hc Hf _] Hl. pose proof (zlen_nonneg l). assert (2 <= is_encoding s <= 8) as He2 by (destruct He as [->|[->| ->]]; lia).
  assert (zlen (intset_block s) = 8 + is_encoding s * zlen l) as Hz.
  { unfold intset_block. rewrite !zlen_app, !zlen_le_bytes, Hc, zlen_cells. lia. }
  split; [|split; [|split; [|done]]].
  - unfold intset_of_block, intset_block. rewrite (rd_block_mid [] (le_bytes 4 (is_encoding s)) (le_bytes 4 (is_length s) ++ is_contents s) _ 0 4) by done.
    cbn [mbind option_bind]. rewrite (rd_block_mid (le_bytes 4 (is_encoding s)) (le_bytes 4 (is_length s)) (is_contents s) _ 4 4) by done.
    cbn [mbind option_bind]. change (drop 8 _) with (is_contents s). rewrite !le_val_uwrap, !uwrap_small by (rewrite ?Hlen; lia). by destruct s.
  - unfold intsetBlobLen, sizeof_intset. rewrite Hz, Hlen, uwrap_small by nia. lia.
  - unfold intset_block. rewrite Hc. repeat apply Forall_app_2; [apply le_bytes_ok..|apply cells_bytes_ok].
Qed.

Lemma blob_set s l : intset_repr s l -> Forall (sfits 64) l -> set_room (numerals l) -> zlen l < 2 ^ 28 ->
  exists o, load_blob env REDIS_RDB_TYPE_SET_INTSET (intset_block s) = Some (VSet o) /\ set_repr (types env) o (numerals l).
Proof.
  intros Hs Hl Hroom Hlen. change (load_blob env REDIS_RDB_TYPE_SET_INTSET (intset_block s)) with (s ← intset_of_block (intset_block s);
    VSet <$> (if intsetLen s >? set_max_intset_entries (types env) then setTypeConvert (types env) (SetIntset s) else Some (SetIntset s))).
  destruct (intset_block_ok s l Hs Hlen) as (-> & _). cbn [mbind option_bind]. destruct (_ >? _).
  - destruct (setTypeConvert_ok (types env) s l Hs Hl (set_room_fits _ Hroom)) as (d & -> & Hd & <-). eexists. split; [done|by constructor].
  - eexists. split; [done|by constructor].
Qed.

Lemma blob_hash zl l : ziplist_ok zl (flat l) -> NoDup l.*1 -> 2 * pairs_weight l < 2 ^ 32 ->
  exists o, load_blob env REDIS_RDB_TYPE_HASH_ZIPLIST zl = Some (VHash o) /\ hash_repr (types env) o (list_to_map l).
Proof.
  intros Hzl Hn Hw. change (load_blob env REDIS_RDB_TYPE_HASH_ZIPLIST zl) with ('(n, o) ← hashTypeLength (HashZiplist zl);
    VHash <$> (if n >? hash_max_ziplist_entries (types env) then hashTypeConvert (types env) o else Some o)).
  unfold hashTypeLength. destruct (ziplistLen_ok zl _ Hzl) as (zl' & -> & Hzl'). cbn [mbind option_bind]. destruct (_ >? _).
  - destruct (hash_convert_ok (types env) zl' l Hzl' Hn Hw) as (o & -> & Ho). by exists o.
  - eexists. split; [done|by apply repr_ziplist].
Qed.

(** The rdb types of blocks. *)
Definition block_type (t : Z) : Prop :=
  t = REDIS_RDB_TYPE_LIST_ZIPLIST \/ t = REDIS_RDB_TYPE_SET_INTSET \/ t = REDIS_RDB_TYPE_HASH_ZIPLIST.

Lemma loads_block t bs b v (P : value -> Prop) : block_type t -> str_code bs b -> load_blob env t b = Some v -> P v ->
  loads (rdbLoadObject env t) bs P.
Proof.
  intros Ht Hc Hv HP. assert (rdbLoadObject env t = (aux ⟵ rdbLoadStringObject env; aux ⟵ llift (raw_of aux); llift (load_blob env t aux))) as ->
    by (destruct Ht as [->|[->| ->]]; reflexivity).
  eapply loads_last; [apply Hc|]. intros o Ho%raw_of_ok. eapply loads_llift; [exact Ho|]. by eapply loads_lift.
Qed.
End load.

(** ** Saving in one block *)

Lemma c_str_zero b : 0 ∈ b -> is_Some (c_str b).
Proof.
  induction b as [|c b IH]; [by intros ?%not_elem_of_nil|]. intros Hin. cbn [c_str]. destruct (Z.eqb_spec c 0) as [|Hc]; [by exists []|].
  apply elem_of_cons in Hin as [Heq|Hin]; [congruence|]. destruct (IH Hin) as [u ->]. by exists (c :: u).
Qed.

Lemma block_codec env b : env_ok env -> bytes_ok b -> short_enough b -> (zlen b <= 11 -> 0 ∈ b) -> string_codec (rdbSaveRawString env b (zlen b)) b.
Proof.
  intros Henv Hb Hl H0. apply raw_string_ok; try done. - unfold zlen. by rewrite Nat2Z.id, take_ge by done. - intros. by apply c_str_zero, H0.
Qed.

Lemma ziplist_codec env zl L : env_ok env -> ziplist_ok zl L -> 2 * weight L + 500 < 2 ^ 31 -> Forall (Forall byte_ok) L ->
  string_codec (wlift (ziplistBlobLen zl) (fun l => rdbSaveRawString env zl l)) zl.
Proof.
  intros Henv Hzl Hw Hb. pose proof (ziplist_ok_weight _ _ Hzl). destruct (ziplist_ok_total _ _ Hzl) as (rest & Heq & Hlen).
  rewrite (wlift_eq _ _ _ Hlen). apply block_codec; [done|by eapply ziplist_ok_bytes|unfold short_enough; lia|]. intros H11. rewrite Heq.
  cbn [le_bytes app]. rewrite Z.div_small by (split; [apply zlen_nonneg|lia]). set_solver.
Qed.

Lemma intset_codec env s l : env_ok env -> intset_repr s l -> zlen l < 2 ^ 27 -> string_codec (rdbSaveRawString env (intset_block s) (intsetBlobLen s)) (intset_block s).
Proof.
  intros Henv Hs Hl. destruct (intset_block_ok s l Hs) as (_ & <- & Hb & Hz); [lia|]. pose proof (zlen_nonneg l).
  pose proof (repr_enc _ _ Hs) as He. apply block_codec; [done|done| |].
  - unfold short_enough. destruct He as [He|[He|He]]; rewrite He in Hz; lia.
  - intros _. unfold intset_block. cbn [le_bytes app]. destruct He as [->|[->| ->]]; set_solver.
Qed.

(** ** Values of every encoding *)

Definition rdb_type (o : value) : Z :=
  match o with
  | VString _ => REDIS_RDB_TYPE_STRING
  | VList (ListZiplist _) => REDIS_RDB_TYPE_LIST_ZIPLIST
  | VList (ListLinked _) => REDIS_RDB_TYPE_LIST
  | VSet (SetIntset _) => REDIS_RDB_TYPE_SET_INTSET
  | VSet (SetHT _) => REDIS_RDB_TYPE_SET
  | VHash (HashZiplist _) => REDIS_RDB_TYPE_HASH_ZIPLIST
  | VHash (HashHT _) => REDIS_RDB_TYPE_HASH
  end.

(** The value is saved, and loaded with the contents [c] by every process. *)
Definition value_codec (env : rdb_env) (o : value) (c : contents) : Prop :=
  exists n bs, saves (rdbSaveObject env o) n bs /\ 0 < n /\ zlen bs = n /\
    forall env', loads (rdbLoadObject env' (rdb_type o)) bs (fun o' => value_repr (types env') o' c).

Lemma block_value env o c w b : block_type (rdb_type o) -> rdbSaveObject env o = w -> string_codec w b ->
  (forall env', exists v, load_blob env' (rdb_type o) b = Some v /\ value_repr (types env') v c) -> value_codec env o c.
Proof.
  intros Ht Hw (n & bs & Hs & Hn & Hz & Hl) Hv. exists n, bs. rewrite Hw. split; [done|]. split; [lia|]. split; [done|]. intros env'.
  destruct (Hv env') as (v & Hblob & Hrepr). eapply loads_block; [done| |exact Hblob|done]. intros e encode. apply Hl.
Qed.

(** A value that is saved as a length and its strings. *)
Lemma strings_value env o c len (m : Z -> writer) L :
  rdbSaveObject env o = (n ⇐ rdbSaveLen len; m n) -> adds m L -> 0 <= len <= zlen L -> 2 * weight L + 500 < 2 ^ 31 ->
  (forall env' bs, strs_code bs L -> loads (rdbLoadObject env' (rdb_type o)) (len_enc len ++ bs) (fun o' => value_repr (types env') o' c)) ->
  value_codec env o c.
Proof.
  intros Hw Hm Hlen HwL Hload. pose proof (len_enc_zlen len). pose proof (weight_zlen L).
  destruct (Hm (zlen (len_enc len))) as (bs & Hs & Hz & Hc); [lia|lia|].
  exists (zlen (len_enc len) + zlen bs), (len_enc len ++ bs). pose proof (zlen_nonneg bs). split; [|split; [lia|split; [by rewrite zlen_app|by intros env'; apply Hload]]].
  rewrite Hw. eapply saves_bind; [apply saves_len; lia|exact Hs].
Qed.

Lemma flat_perm l1 l2 : l1 ≡ₚ l2 -> flat l1 ≡ₚ flat l2.
Proof. induction 1 as [|[f v] l1 l2 _ IH|[f v] [g w] l|l1 l2 l3 _ IH1 _ IH2]; cbn [flat]; [done|by rewrite IH|solve_Permutation|by rewrite IH1]. Qed.

Lemma flat_ok l : NoDup l.*1 -> contents_ok (CHash (list_to_map l)) -> 2 * pairs_weight l + 500 < 2 ^ 31 /\ Forall (Forall byte_ok) (flat l).
Proof.
  intros Hn [Hw Hb]. cbn [strings_in] in *. assert (map_to_list (list_to_map l : gmap bytes bytes) ≡ₚ l) as Hp by by apply map_to_list_to_map.
  apply flat_perm in Hp. rewrite (weight_perm _ _ Hp) in Hw. split; [exact Hw|by rewrite <- Hp].
Qed.

Lemma decode_entries es : map_Forall (fun _ v => obj_ok v /\ is_Some (getDecodedObject v)) (list_to_map es : gmap bytes robj) -> NoDup es.*1 ->
  exists l, pairs_of es l /\ l.*1 = es.*1 /\ list_to_map l = decoded (list_to_map es).
Proof.
  induction es as [|[k o] es IH]; intros Hm Hn; [by exists []; split; [constructor|]|]. cbn [fmap list_fmap fst] in Hn.
  apply NoDup_cons in Hn as [Hk Hn]. cbn [list_to_map foldr fst snd] in Hm. apply not_elem_of_list_to_map in Hk as Hnone.
  rewrite map_Forall_insert in Hm by done. destruct Hm as [[Hok [s Hs]] Hm].
  destruct (IH Hm Hn) as (l & Hp & Hkeys & Hl). exists ((k, s) :: l). split; [by constructor|]. split; [cbn; by rewrite Hkeys|].
  cbn [list_to_map foldr fst snd]. by rewrite (decoded_insert _ _ _ s), <- Hl.
Qed.

Section codec.
Context (env : rdb_env) (Henv : env_ok env).

Lemma linked_value l L : strings_of l L -> contents_ok (CList L) -> value_codec env (VList (ListLinked l)) (CList L).
Proof using Henv.
  intros Hl [Hw Hb]. cbn [strings_in] in *. pose proof (strings_length _ _ Hl) as Hz. pose proof (zlen_nonneg L).
  eapply (strings_value env _ _ (zlen l) (save_list env l) L); [done|apply save_list_adds; [done|done|by apply strings_short]|lia|done|].
  intros env' bs Hc. cbn [rdb_type]. change (rdbLoadObject env' REDIS_RDB_TYPE_LIST) with (
    len ⟵ unless REDIS_RDB_LENERR rdbLoadLen_null;
    o ⟵ llift (if len >? list_max_ziplist_entries (types env') then Some createListObject else createZiplistObject (types env'));
    o ⟵ load_list env' (Z.to_nat len) o;
    lret (VList o)). pose proof (weight_zlen L). rewrite Hz.
  eapply loads_bind; [apply loads_len; unfold REDIS_RDB_LENERR; lia|]. intros len ->.
  assert (exists o, (if zlen L >? list_max_ziplist_entries (types env') then Some createListObject else createZiplistObject (types env')) = Some o /\
    list_repr o []) as (o & Ho & Hrepr).
  { destruct (_ >? _); [exists (ListLinked []); split; [done|constructor]|]. destruct (new_ok (fresh (types env'))) as (zl & Hnew & Hzl).
    exists (ListZiplist zl). unfold createZiplistObject. by rewrite Hnew. }
  eapply loads_llift; [exact Ho|]. rewrite Z2Nat_inj_zlen. eapply loads_last; [by apply (load_list_ok env' bs L Hc o [])|].
  intros o' Ho'. by apply (loads_ret (VList o')).
Qed.

Lemma set_ht_value d : dict_inv (hash_fun (types env)) d -> contents_ok (CSet (dom (to_map d))) ->
  value_codec env (VSet (SetHT d)) (CSet (dom (to_map d))).
Proof using Henv.
  intros Hd [Hw Hb]. cbn [strings_in] in *. pose proof (entries_size (hash_fun (types env)) d (proj1 Hd)) as Hsz.
  assert (dom (to_map d) = list_to_set (entries d).*1) as Hdom by (unfold to_map; by rewrite dom_list_to_map_L).
  assert (NoDup (entries d).*1) as Hn by apply (proj1 Hd). assert (elements (dom (to_map d)) ≡ₚ (entries d).*1) as Hp.
  { rewrite Hdom. by apply elements_list_to_set. }
  rewrite (weight_perm _ _ Hp) in Hw. rewrite Hp in Hb. set (L := (entries d).*1) in *. assert (zlen L = dictSize d) as Hz.
  { unfold L, zlen. rewrite length_fmap. unfold zlen in Hsz. lia. }
  pose proof (weight_zlen L). pose proof (zlen_nonneg L).
  eapply (strings_value env _ _ (dictSize d) (save_set env (S (Z.to_nat (dictSize d))) d dictGetIterator) L);
    [done| |lia|done|].
  { apply save_set_adds; [done|by apply (visiting_start (hash_fun (types env)) false), Hd|done| |by apply strings_short].
    rewrite Hsz. unfold zlen. lia. }
  intros env' bs Hc. cbn [rdb_type]. change (rdbLoadObject env' REDIS_RDB_TYPE_SET) with (
    len ⟵ unless REDIS_RDB_LENERR rdbLoadLen_null;
    o ⟵ llift (if len >? set_max_intset_entries (types env') then
                 if len >? DICT_HT_INITIAL_SIZE then '(d, _) ← dictExpand dictCreate len; Some (SetHT d)
                 else Some createSetObject
               else Some createIntsetObject);
    o ⟵ load_set env' (Z.to_nat len) len o;
    lret (VSet o)). rewrite <- Hz.
  eapply loads_bind; [apply loads_len; unfold REDIS_RDB_LENERR; lia|]. intros len ->.
  assert (exists o, (if zlen L >? set_max_intset_entries (types env') then
      if zlen L >? DICT_HT_INITIAL_SIZE then '(d, _) ← dictExpand dictCreate (zlen L); Some (SetHT d) else Some createSetObject
      else Some createIntsetObject) = Some o /\ set_repr (types env') o ∅) as (o & Ho & Hrepr).
  { destruct (create_inv (V := unit) (hash_fun (types env'))) as [Hc1 Hm1].
    assert (forall d' : dict bytes unit, dict_inv (hash_fun (types env')) d' -> to_map d' = ∅ -> set_repr (types env') (SetHT d') ∅) as Hht.
    { intros d' Hd' Hm'. pose proof (repr_set_ht (types env') d' Hd') as Hr. by rewrite Hm', dom_empty_L in Hr. }
    destruct (_ >? _); [destruct (_ >? _)|].
    - destruct (dictExpand_inv (hash_fun (types env')) (dictCreate : dict bytes unit) (zlen L) Hc1) as (d' & st & -> & Hd' & Hm'); [lia|].
      eexists. split; [done|]. apply Hht; [done|]. by rewrite Hm', Hm1.
    - eexists. split; [done|]. by apply Hht.
    - eexists. split; [done|]. apply (repr_intset _ intsetNew []); [|constructor]. split; [by left|done|done|constructor|constructor]. }
  eapply loads_llift; [exact Ho|]. rewrite Z2Nat_inj_zlen. eapply loads_last.
  - apply (load_set_ok env' (zlen L) bs L); [lia|done|exact Hrepr|done|set_solver|]. rewrite size_empty. unfold zlen in *. lia.
  - intros o' Ho'. apply (loads_ret (VSet o')). rewrite union_empty_r_L in Ho'. cbn [value_repr]. by rewrite Hdom.
Qed.

Lemma hash_ht_value d : dict_inv (hash_fun (types env)) d -> strings_ok (to_map d) -> contents_ok (CHash (decoded (to_map d))) ->
  value_codec env (VHash (HashHT d)) (CHash (decoded (to_map d))).
Proof using Henv.
  intros Hd Hs Hc. pose proof (entries_size (hash_fun (types env)) d (proj1 Hd)) as Hsz.
  assert (NoDup (entries d).*1) as Hn by apply (proj1 Hd).
  destruct (decode_entries (entries d) Hs Hn) as (l & Hp & Hkeys & Hl). fold (to_map d) in Hl. rewrite <- Hl in *.
  rewrite <- Hkeys in Hn. destruct (flat_ok l Hn Hc) as [Hw Hb]. unfold pairs_weight in Hw.
  pose proof (Forall2_length _ _ _ Hp) as Hlen. pose proof (pairs_weight_zlen l) as Hpw. unfold pairs_weight in Hpw. pose proof (zlen_flat l).
  assert (zlen l = dictSize d) as Hz by (rewrite Hsz; unfold zlen; lia). pose proof (zlen_nonneg l).
  eapply (strings_value env _ _ (dictSize d) (save_hash env (S (Z.to_nat (dictSize d))) d dictGetIterator) (flat l));
    [done| |lia|done|].
  { apply (save_hash_adds env Henv d _ _ (entries d)); [by apply (visiting_start (hash_fun (types env)) false), Hd|done| |done|by apply strings_short].
    rewrite Hsz. unfold zlen. lia. }
  intros env' bs Hcode. cbn [rdb_type]. rewrite <- Hz.
  change (rdbLoadObject env' REDIS_RDB_TYPE_HASH) with (
    len ⟵ unless REDIS_RDB_LENERR rdbLoadLen_null;
    o ⟵ llift (o ← createHashObject (types env');
               if len >? hash_max_ziplist_entries (types env') then hashTypeConvert (types env') o else Some o);
    r ⟵ (match o with
          | HashZiplist zl => load_hash_ziplist env' (Z.to_nat len) zl
          | HashHT _ => lret (Z.to_nat len, o)
          end);
    hash_tail env' r).
  eapply loads_bind; [apply loads_len; unfold REDIS_RDB_LENERR; lia|]. intros len ->.
  destruct (new_ok (fresh (types env'))) as (zl & Hnew & Hzl). assert (createHashObject (types env') = Some (HashZiplist zl)) as Hcreate.
  { unfold createHashObject. by rewrite Hnew. }
  destruct (zlen l >? hash_max_ziplist_entries (types env')).
  - destruct (hash_convert_ht (types env') zl [] Hzl) as (d' & Hconv & Hd' & Hs' & Hm'); [constructor|done|].
    eapply loads_llift; [rewrite Hcreate; cbn [mbind option_bind]; exact Hconv|].
    rewrite Z2Nat_inj_zlen. apply (loads_bind _ _ [] bs (fun x => x = (length l, HashHT d'))); [by apply (loads_ret (length l, HashHT d'))|]. intros x ->.
    cbn [hash_tail]. apply (loads_last _ _ _ (fun o => hash_repr (types env') o (list_to_map l))); [|intros o Ho; by apply (loads_ret (VHash o))].
    apply (load_hash_ht_ok env' l bs []); try done. cbn [app]. unfold zlen in *. lia.
  - eapply loads_llift; [rewrite Hcreate; reflexivity|]. rewrite Z2Nat_inj_zlen.
    by apply (load_hash_zl_ok env' l bs [] zl).
Qed.

(** Whatever the encoding, what is saved is loaded by every process with the same contents. *)
Lemma value_codec_ok o c : value_repr (types env) o c -> contents_ok c -> value_codec env o c.
Proof using Henv.
  intros Ho Hc. destruct o as [o|[zl|l]|o|o], c as [s|L|X|m]; cbn [value_repr] in Ho; try done.
  - destruct Ho as [Hok Hs]. destruct Hc as [Hw Hb]. cbn [strings_in] in *. pose proof (strings_short _ Hw Hb) as Hshort.
    apply Forall_cons in Hshort as [Hs1 _]. destruct (object_codec env Henv o s Hok Hs Hs1) as (n & bs & Hsave & Hn & Hz & Hload).
    exists n, bs. split; [exact Hsave|]. split; [lia|]. split; [done|]. intros env'. cbn [rdb_type].
    change (rdbLoadObject env' REDIS_RDB_TYPE_STRING) with (o ⟵ rdbLoadEncodedStringObject env'; o ⟵ llift (encode_object o); lret (VString o)).
    eapply loads_last; [apply Hload|]. intros o' (Hok' & Hs' & _). destruct (encode_object_ok o' s Hok' Hs') as (e & He & Hek & Hes).
    eapply loads_llift; [exact He|]. by apply (loads_ret (VString e)).
  - destruct Hc as [Hw Hb]. eapply block_value; [by left|done|by eapply (ziplist_codec env zl L)|]. intros env'.
    destruct (blob_list env' zl L Ho) as (o & Hblob & Hrepr). by exists (VList o).
  - by apply linked_value.
  - destruct Ho as [s l Hs Hl|d Hd]; [|by apply set_ht_value]. destruct Hc as [Hw _]. cbn [strings_in] in Hw.
    pose proof (weight_zlen (elements (numerals l))) as Hz. assert (zlen (elements (numerals l)) = zlen l) as Hlen.
    { unfold zlen. change (length (elements (numerals l))) with (base.size (numerals l)). by rewrite numerals_size by (done || apply Hs). }
    eapply block_value; [by right; left|done|apply (intset_codec env s l); [done|done|lia]|]. intros env'.
    destruct (blob_set env' s l Hs Hl) as (o & Hblob & Hrepr); [|lia|by exists (VSet o)].
    unfold set_room. rewrite numerals_size by (done || apply Hs). unfold zlen in *. lia.
  - destruct Ho as [zl l Hzl Hn|d Hd Hs]; [|by apply hash_ht_value]. destruct (flat_ok l Hn Hc) as [Hw Hb].
    eapply block_value; [by right; right|done|by eapply (ziplist_codec env zl (flat l))|]. intros env'.
    destruct (blob_hash env' zl l Hzl Hn) as (o & Hblob & Hrepr); [lia|by exists (VHash o)].
Qed.
End codec.
