(* ===== verification/RdbSpec.v ===== *)
(** * The dump format: saving and loading databases (src/redis-2.8.19/src/rdb.c)

    A dump of the databases, loaded by a process of any configuration with as many
    databases, gives databases with the same contents and deadlines, less the keys
    that had expired; a dump that is cut is refused; a save that succeeds wrote the
    whole dump, one that fails met the end of the device. *)
From S2P Require Import Prelude Util Sds Object Crc64 Dict DictIter DictBound HashType HashTypeSpec Rio Rdb RdbLoad RdbCodec RdbObject.
Open Scope Z_scope.

(** ** The contents of a database *)

(** Every key with the contents of its value and its deadline. *)
Abbreviation dataset := (gmap bytes (contents * option Z)).

Record db_repr (env : type_env) (db : rdb_db) (D : dataset) : Prop := {
  dr_dict : dict_inv (hash_fun env) (rd_dict db);
  dr_expires : dict_inv (hash_fun env) (rd_expires db);
  dr_iterators : 0 <= iterators (rd_dict db);
  dr_keys : forall k, match to_map (rd_dict db) !! k, D !! k with
                      | Some v, Some (c, t) => value_repr env v c /\ to_map (rd_expires db) !! k = t
                      | None, None => to_map (rd_expires db) !! k = None
                      | _, _ => False
                      end
}.

Definition deadline_ok (t : option Z) : Prop := forall n, t = Some n -> 0 <= n < 2 ^ 63.

Definition key_ok (k : bytes) (x : contents * option Z) : Prop := string_ok k /\ contents_ok x.1 /\ deadline_ok x.2.

Definition dataset_ok (D : dataset) : Prop := map_Forall key_ok D /\ Z.of_nat (base.size D) <= 2 ^ 28.

(** Not yet expired. *)
Definition alive (now : Z) (t : option Z) : Prop := match t with None => True | Some n => now <= n end.

#[global] Instance alive_dec now t : Decision (alive now t).
Proof. destruct t; cbn [alive]; solve_decision. Defined.

(** ** What a dump is made of *)

Inductive item := ISelect (dbid : Z) | IPair (key : bytes) (c : contents) (t : option Z).

Definition expire_enc (t : option Z) : bytes :=
  match t with Some n => REDIS_RDB_OPCODE_EXPIRETIME_MS :: le_bytes 8 n | None => [] end.

Inductive item_code : item -> bytes -> Prop :=
  | select_code dbid : 0 <= dbid < REDIS_RDB_LENERR -> item_code (ISelect dbid) (REDIS_RDB_OPCODE_SELECTDB :: len_enc dbid)
  | pair_code k c t ty kb vb : deadline_ok t -> 0 <= ty <= 13 -> str_code kb k ->
      (forall env, loads (rdbLoadObject env ty) vb (fun o => value_repr (types env) o c)) ->
      item_code (IPair k c t) (expire_enc t ++ [ty] ++ kb ++ vb).

Inductive body_code : list item -> bytes -> Prop :=
  | body_nil : body_code [] []
  | body_cons it items bs cs : item_code it bs -> body_code items cs -> body_code (it :: items) (bs ++ cs).

Lemma body_app i1 b1 i2 b2 : body_code i1 b1 -> body_code i2 b2 -> body_code (i1 ++ i2) (b1 ++ b2).
Proof. induction 1 as [|it items bs cs Hit _ IH]; intros H2; [done|]. rewrite <- app_assoc. by constructor; [|apply IH]. Qed.

Definition kv_item (p : bytes * (contents * option Z)) : item := IPair p.1 p.2.1 p.2.2.

(** The pairs of a database that are written. *)
Definition saved (now : Z) (ps : list (bytes * (contents * option Z))) : list item :=
  kv_item <$> filter (fun p => alive now p.2.2) ps.

(** ** Saving *)

Section save.
Context (env : rdb_env) (Henv : env_ok env) (now : Z).

Lemma rdb_type_range o : 0 <= rdb_type o <= 13.
Proof. by destruct o as [o|[]|[]|[]]. Qed.

Lemma saves_object_type o : saves (rdbSaveObjectType o) 1 [rdb_type o].
Proof.
  assert (rdbSaveObjectType o = rdbSaveType (rdb_type o)) as -> by (by destruct o as [o|[]|[]|[]]).
  eapply saves_eq; [apply saves_type|done|]. f_equal. apply uwrap_small. pose proof (rdb_type_range o). lia.
Qed.

(** A key is left out, or written as an item. *)
Lemma save_pair_ok k v c t : value_repr (types env) v c -> key_ok k (c, t) ->
  exists n bs items, saves (rdbSaveKeyValuePair env (StrRaw k) v (default (-1) t) now) n bs /\
    saved now [(k, (c, t))] = items /\ body_code items bs.
Proof using Henv.
  intros Hv (Hk & Hc & Ht). cbn [fst snd] in *. destruct (object_codec env Henv (StrRaw k) k I eq_refl Hk) as (n1 & kb & Hkb & _ & _ & Hkl).
  destruct (value_codec_ok env Henv v c Hv Hc) as (n2 & vb & Hvb & _ & _ & Hvl).
  assert (saves (_ ⇐ rdbSaveObjectType v; _ ⇐ rdbSaveStringObject env (StrRaw k); _ ⇐ rdbSaveObject env v; wret 1) 1 ([rdb_type v] ++ kb ++ vb)) as Hsave.
  { eapply saves_bind; [apply saves_object_type|]. eapply saves_bind; [exact Hkb|]. eapply saves_last; [exact Hvb|]. by apply saves_ret. }
  assert (item_code (IPair k c t) (expire_enc t ++ [rdb_type v] ++ kb ++ vb)) as Hitem.
  { constructor; [done|apply rdb_type_range|exact Hkl|exact Hvl]. }
  unfold rdbSaveKeyValuePair, saved. destruct t as [e|]; cbn [default from_option id].
  - pose proof (Ht e eq_refl). assert ((e =? -1) = false) as -> by (apply Z.eqb_neq; lia). cbn [negb]. destruct (Z.ltb_spec e now).
    + exists 0, [], []. split; [by apply saves_ret|]. split; [|constructor]. rewrite filter_cons_False by (cbn; lia). done.
    + exists 1. eexists _, _. split; [eapply saves_bind; [apply saves_type|eapply saves_bind; [apply saves_ms|exact Hsave]]|].
      split; [reflexivity|]. rewrite filter_cons_True by (cbn; lia). rewrite <- (app_nil_r (_ ++ _)). constructor; [exact Hitem|constructor].
  - exists 1. eexists _, _. split; [exact Hsave|]. split; [reflexivity|]. rewrite filter_cons_True by done.
    rewrite <- (app_nil_r (_ ++ _)). constructor; [exact Hitem|constructor].
Qed.

Lemma saves_wrun m n bs r : saves m n bs -> sink r -> exists k r', wrun m r = Some (k, r') /\
  (k = n /\ wrote r bs r' /\ sink r' \/ k = -1 /\ ~ room_for (io r) (zlen bs)).
Proof.
  intros (_ & _ & _ & Hm) Hr. destruct (Hm r Hr) as (k & r' & Hrun & Hk). exists k, r'. unfold wrun. by rewrite Hrun.
Qed.

(** The entries of the dictionary with what they stand for. *)
Definition entries_repr (es : list (bytes * value)) (ps : list (bytes * (contents * option Z))) : Prop :=
  Forall2 (fun e p => e.1 = p.1 /\ value_repr (types env) e.2 p.2.1 /\ key_ok p.1 p.2) es ps.

Lemma getExpire_ok d ex k t : dict_inv (hash_fun (types env)) d -> iterators d <> 0 -> is_Some (to_map d !! k) ->
  dict_inv (hash_fun (types env)) ex -> to_map ex !! k = t ->
  exists ex', getExpire env (mkRdbDb d ex) k = Some (default (-1) t, mkRdbDb d ex') /\
    dict_inv (hash_fun (types env)) ex' /\ to_map ex' = to_map ex.
Proof.
  intros Hd Hit Hk Hex Ht. unfold getExpire. cbn [rd_dict rd_expires]. destruct (Z.eqb_spec (dictSize ex) 0) as [Hz|].
  - exists ex. split; [|done]. assert (to_map ex = ∅) as Hm.
    { apply map_size_empty_inv. pose proof (map_size (hash_fun (types env)) ex (proj1 Hex)). lia. }
    rewrite Hm, lookup_empty in Ht. by subst.
  - destruct (dictFind_spec (hash_fun (types env)) ex k (proj1 Hex)) as (ex1 & r & Hfind & _ & _ & Hr).
    destruct (dictFind_inv (hash_fun (types env)) ex k Hex) as (ex2 & r2 & Hfind2 & Hex2 & Hm2 & _).
    assert (ex2 = ex1 /\ r2 = r) as [-> ->] by (split; congruence). rewrite Hfind. cbn [mbind option_bind].
    destruct r as [r|].
    + destruct Hr as (e & He & Href). destruct (dictFind_inv (hash_fun (types env)) d k Hd) as (d' & rd' & Hfd & _ & _ & Hrd).
      rewrite Hfd. apply dictFind_frozen in Hfd as ->; [|done]. cbn [mbind option_bind]. apply Hrd in Hk.
      destruct rd'; [|done]. rewrite (dictGetVal_ref _ _ _ _ _ Href). cbn [mbind option_bind]. exists ex1.
      rewrite He in Ht. by subst.
    + exists ex1. rewrite Hr in Ht. by subst.
Qed.

(** The stream took the bytes, or was too small for them. *)
Definition done_writing (ok : bool) (r : rio) (bs : bytes) (r' : rio) : Prop :=
  if ok then wrote r bs r' /\ sink r' else ~ room_for (io r) (zlen bs).

Lemma done_trans r b1 r1 b2 ok r2 : sink r -> bytes_ok (b1 ++ b2) -> wrote r b1 r1 -> done_writing ok r1 b2 r2 -> done_writing ok r (b1 ++ b2) r2.
Proof.
  intros Hr Hb Hw. destruct ok; cbn [done_writing].
  - intros [Hw2 Hs2]. split; [|done]. eapply wrote_trans; [apply Hr|done|done|done].
  - rewrite zlen_app. by rewrite <- (wrote_room _ _ _ Hw).
Qed.

Lemma done_first r b1 b2 r1 : ~ room_for (io r) (zlen b1) -> done_writing false r (b1 ++ b2) r1.
Proof. intros Hno Hroom. apply Hno. eapply room_for_le; [done|]. rewrite zlen_app. pose proof (zlen_nonneg b2). lia. Qed.

Lemma save_keys_ok fuel : forall es ps d di, visiting d di es -> it_safe di = true -> iterators (guarded d di) <> 0 ->
  dict_inv (hash_fun (types env)) (guarded d di) -> entries_repr es ps -> Forall (fun e => is_Some (to_map d !! e.1)) es -> (length es < fuel)%nat ->
  exists bs, bytes_ok bs /\ body_code (saved now ps) bs /\ forall ex rdb, dict_inv (hash_fun (types env)) ex ->
    Forall (fun p => to_map ex !! p.1 = p.2.2) ps -> sink rdb ->
    exists ok rdb' ex' di', save_keys env fuel (mkRdbDb d ex) di now rdb = Some (ok, rdb', mkRdbDb (guarded d di) ex', di') /\
      it_safe di' = true /\ 0 <= it_index di' /\ dict_inv (hash_fun (types env)) ex' /\ to_map ex' = to_map ex /\ done_writing ok rdb bs rdb'.
Proof using Henv.
  induction fuel as [|fuel IH]; intros es ps d di Hv Hs Hit Hd Hes Hin Hf; [lia|].
  destruct (dictNext_ok d di es Hv) as (di1 & Hnext & Hs1 & Hi1 & Hr). rewrite Hs in Hs1. cbn [save_keys]. cbn [rd_dict rd_expires].
  destruct Hes as [|[k v] [k' [c t]] es ps (Hk & Hvc & Hok) Hes].
  { exists []. split; [constructor|]. split; [constructor|]. intros ex rdb Hex _ Hsink. rewrite Hnext. cbn [mbind option_bind head].
    exists true, rdb, ex, di1. do 5 (split; [done|]). split; [by apply wrote_nil, Hsink|done]. }
  cbn [fst snd head tail length] in *. subst k'. destruct Hr as [|Hr]; [done|]. apply Forall_cons in Hin as [Hkin Hin].
  destruct (save_pair_ok k v c t Hvc Hok) as (n & b1 & items & Hsave & Hitems & Hcode). pose proof Hsave as (Hn & Hb1 & _).
  destruct (IH es ps (guarded d di) di1 Hr Hs1) as (b2 & Hb2 & Hcode2 & Hrest); [by rewrite guarded_moved..|done|done|lia|].
  exists (b1 ++ b2). split; [by apply Forall_app_2|]. split.
  { change (saved now ((k, (c, t)) :: ps)) with (saved now ([(k, (c, t))] ++ ps)). unfold saved. rewrite filter_app, fmap_app.
    fold (saved now [(k, (c, t))]) (saved now ps). rewrite Hitems. by apply body_app. }
  intros ex rdb Hex [Hkt Hps]%Forall_cons Hsink. cbn [fst snd] in Hkt. rewrite Hnext. cbn [mbind option_bind].
  destruct (getExpire_ok (guarded d di) ex k t Hd Hit Hkin Hex Hkt) as (ex1 & -> & Hex1 & Hm1). cbn [mbind option_bind].
  destruct (saves_wrun _ n b1 rdb Hsave Hsink) as (j & r1 & -> & Hj). cbn [mbind option_bind].
  destruct Hj as [(-> & Hw & Hs2)|(-> & Hno)].
  - destruct (Z.eqb_spec n (-1)); [lia|]. rewrite <- Hm1 in Hps. destruct (Hrest ex1 r1 Hex1 Hps Hs2) as (ok & r2 & ex2 & di2 & Hrun & Hsafe & Hidx & Hex2 & Hm2 & Hdone).
    rewrite (guarded_moved (guarded d di) di1) in Hrun by done. exists ok, r2, ex2, di2. split; [exact Hrun|]. split; [done|]. split; [done|]. split; [done|].
    split; [congruence|]. eapply done_trans; [done|by apply Forall_app_2|done|done].
  - exists false, r1, ex1, di1. do 5 (split; [done|]). by apply done_first.
Qed.

Lemma guarded_inv {V} h (d : dict bytes V) di : dict_inv h d -> dict_inv h (guarded d di).
Proof. intros [[Hp Hn] Hc]. split; [split; [exact Hp|exact Hn]|exact Hc]. Qed.

Lemma release_safe {V} (d : dict bytes V) di : it_safe di = true -> 0 <= it_index di ->
  dictReleaseIterator (guarded d dictGetSafeIterator) di = d.
Proof.
  intros Hs Hi. unfold dictReleaseIterator. assert ((it_index di =? -1) = false) as -> by by apply Z.eqb_neq; lia.
  rewrite Hs. destruct d as [a b c n]. cbn. f_equal. lia.
Qed.

(** The pairs of a database, in the order of its dictionary. *)
Definition listing_of (D : dataset) (ps : list (bytes * (contents * option Z))) : Prop := list_to_map ps = D /\ NoDup ps.*1.

Lemma db_pairs db D : db_repr (types env) db D -> dataset_ok D -> exists ps, entries_repr (entries (rd_dict db)) ps /\ listing_of D ps /\
  Forall (fun p => to_map (rd_expires db) !! p.1 = p.2.2) ps.
Proof.
  intros [Hd Hex _ Hkeys] [Hok _]. set (es := entries (rd_dict db)) in *. assert (NoDup es.*1) as Hn by apply (proj1 Hd).
  assert (forall e, e ∈ es -> exists x, D !! e.1 = Some x /\ value_repr (types env) e.2 x.1 /\ key_ok e.1 x /\ to_map (rd_expires db) !! e.1 = x.2) as Hes.
  { intros [k v] He. apply (to_map_lookup (hash_fun (types env)) _ _ _ (proj1 Hd)) in He. cbn [fst snd]. specialize (Hkeys k). rewrite He in Hkeys.
    destruct (D !! k) as [[c t]|] eqn:HD; [|done]. exists (c, t). destruct Hkeys as [Hv Ht]. split; [done|]. split; [done|]. split; [by apply Hok|done]. }
  assert (exists ps, entries_repr es ps /\ ps.*1 = es.*1 /\ Forall (fun p => D !! p.1 = Some p.2 /\ to_map (rd_expires db) !! p.1 = p.2.2) ps) as (ps & Hrep & Hk & Hps).
  { clear Hn. induction es as [|e es IH]; [exists []; by repeat split; constructor|]. destruct IH as (ps & H1 & H2 & H3); [intros e' He'; apply Hes; by right|].
    destruct (Hes e) as (x & HD & Hv & Hko & Ht); [by left|]. exists ((e.1, x) :: ps). split; [by constructor|]. split; [cbn; by rewrite H2|by constructor]. }
  exists ps. split; [exact Hrep|]. split; [|eapply Forall_impl; [exact Hps|]; by intros p []]. split; [|by rewrite Hk].
  apply map_eq. intros k. destruct (decide (k ∈ ps.*1)) as [Hin|Hnin].
  - apply list_elem_of_fmap in Hin as (p & -> & Hp). rewrite Forall_forall in Hps. destruct (Hps p Hp) as [HDp _]; rewrite HDp. apply elem_of_list_to_map_1; [by rewrite Hk|by destruct p].
  - rewrite not_elem_of_list_to_map_1 by done. rewrite Hk in Hnin. specialize (Hkeys k). apply (to_map_None (rd_dict db)) in Hnin. rewrite Hnin in Hkeys. by destruct (D !! k) as [[? ?]|].
Qed.

(** The items of the databases from number [j] on. *)
Fixpoint dbs_items (j : Z) (pss : list (list (bytes * (contents * option Z)))) : list item :=
  match pss with
  | [] => []
  | [] :: pss => dbs_items (j + 1) pss
  | ps :: pss => (ISelect j :: saved now ps) ++ dbs_items (j + 1) pss
  end.

Lemma saves_select j : 0 <= j < REDIS_RDB_LENERR ->
  exists bs, saves (_ ⇐ rdbSaveType REDIS_RDB_OPCODE_SELECTDB; _ ⇐ rdbSaveLen j; wret 0) 0 bs /\ item_code (ISelect j) bs.
Proof.
  unfold REDIS_RDB_LENERR. intros Hj. exists ([254] ++ len_enc j). split; [|by constructor]. eapply saves_bind; [apply saves_type|].
  eapply saves_last; [apply saves_len; lia|]. by apply saves_ret.
Qed.

(** One database that is not empty. *)
Lemma save_db_ok db D : db_repr (types env) db D -> dataset_ok D ->
  exists ps bs, listing_of D ps /\ zlen ps = dictSize (rd_dict db) /\ bytes_ok bs /\ body_code (saved now ps) bs /\ forall rdb, sink rdb ->
    exists ok rdb' db1 di db', save_keys env (S (Z.to_nat (dictSize (rd_dict db)))) db dictGetSafeIterator now rdb = Some (ok, rdb', db1, di) /\
      db' = mkRdbDb (dictReleaseIterator (rd_dict db1) di) (rd_expires db1) /\ db_repr (types env) db' D /\ done_writing ok rdb bs rdb'.
Proof using Henv.
  intros Hdb HD. destruct (db_pairs db D Hdb HD) as (ps & Hes & Hlist & Hex). destruct Hdb as [Hd Hexi Hit Hkeys]. destruct db as [d ex].
  cbn [rd_dict rd_expires] in *. pose proof (visiting_start (hash_fun (types env)) true d (proj1 Hd)) as Hv. cbn iota in Hv.
  pose proof (entries_size (hash_fun (types env)) d (proj1 Hd)) as Hsz.
  destruct (save_keys_ok (S (Z.to_nat (dictSize d))) (entries d) ps d dictGetSafeIterator Hv eq_refl) as (bs & Hb & Hcode & Hrun);
    [cbn; lia|by apply guarded_inv|done| |rewrite Hsz; unfold zlen; lia|].
  { apply Forall_forall. intros [k v] He. exists v. by apply (to_map_lookup (hash_fun (types env)) _ _ _ (proj1 Hd)). }
  exists ps, bs. split; [done|]. split; [rewrite Hsz; unfold zlen; by rewrite (Forall2_length _ _ _ Hes)|]. split; [done|]. split; [done|].
  intros rdb Hsink. destruct (Hrun ex rdb Hexi Hex Hsink) as (ok & rdb' & ex' & di' & Hk & Hs & Hi & Hex' & Hm & Hdone).
  eexists ok, rdb', _, di', _. split; [exact Hk|]. split; [reflexivity|]. cbn [rd_dict rd_expires]. rewrite release_safe by done.
  split; [|exact Hdone]. split; cbn [rd_dict rd_expires]; [done|done|done|by rewrite Hm].
Qed.

Lemma save_dbs_ok : forall dbs Ds j, Forall2 (db_repr (types env)) dbs Ds -> Forall dataset_ok Ds -> 0 <= j -> j + zlen dbs <= REDIS_RDB_LENERR ->
  exists pss bs, Forall2 listing_of Ds pss /\ bytes_ok bs /\ body_code (dbs_items j pss) bs /\ forall rdb, sink rdb ->
    exists ok rdb' dbs', save_dbs env j dbs now rdb = Some (ok, rdb', dbs') /\ Forall2 (db_repr (types env)) dbs' Ds /\ done_writing ok rdb bs rdb'.
Proof using Henv.
  induction dbs as [|db dbs IH]; intros Ds j Hdbs HDs Hj Hlen; inversion Hdbs as [|? D ? Ds' Hdb Hdbs']; subst.
  { exists [], []. do 3 (split; [constructor|]). intros rdb Hsink. exists true, rdb, []. split; [done|]. split; [constructor|].
    split; [by apply wrote_nil, Hsink|done]. }
  apply Forall_cons in HDs as [HD HDs]. rewrite zlen_cons in Hlen. pose proof (zlen_nonneg dbs).
  destruct (IH Ds' (j + 1) Hdbs' HDs) as (pss & b2 & Hpss & Hb2 & Hcode2 & Hrest); [lia|lia|].
  destruct (save_db_ok db D Hdb HD) as (ps & b1 & Hps & Hz & Hb1 & Hcode1 & Hone).
  destruct (saves_select j) as (b0 & Hsel & Hcode0); [lia|]. pose proof Hsel as (_ & Hb0 & _). exists (ps :: pss). cbn [save_dbs].
  destruct (Z.eqb_spec (dictSize (rd_dict db)) 0) as [H0|H0].
  - rewrite H0 in Hz. apply zlen_zero in Hz as ->. exists b2. split; [by constructor|]. split; [done|]. split; [done|]. intros rdb Hsink.
    destruct (Hrest rdb Hsink) as (ok & rdb' & dbs' & -> & Hdbs1 & Hdone). cbn [mbind option_bind]. exists ok, rdb', (db :: dbs').
    split; [done|]. split; [by constructor|done].
  - exists ((b0 ++ b1) ++ b2). split; [by constructor|]. split; [by repeat apply Forall_app_2|]. split.
    { destruct ps as [|p ps]; [change (zlen []) with 0 in Hz; lia|]. cbn [dbs_items]. apply body_app; [|exact Hcode2]. by constructor. }
    intros rdb Hsink. destruct (saves_wrun _ 0 b0 rdb Hsel Hsink) as (k & r1 & -> & Hk). cbn [mbind option_bind].
    destruct Hk as [(-> & Hw0 & Hs1)|(-> & Hno)]; cbn [Z.eqb].
    2: { exists false, r1, (db :: dbs). split; [done|]. split; [by constructor|]. rewrite <- app_assoc. by apply done_first. }
    destruct (Hone r1 Hs1) as (ok & r2 & db1 & di & db' & -> & Hdb' & Hrepr & Hdone). cbn [mbind option_bind]. rewrite <- Hdb'.
    assert (bytes_ok (b0 ++ b1)) as Hb01 by by apply Forall_app_2. pose proof (done_trans rdb b0 r1 b1 ok r2 Hsink Hb01 Hw0 Hdone) as Hdone1.
    destruct ok.
    + destruct Hdone1 as [Hw1 _], Hdone as [_ Hs2]. destruct (Hrest r2 Hs2) as (ok & rdb' & dbs' & -> & Hdbs1 & Hdone2). cbn [mbind option_bind].
      exists ok, rdb', (db' :: dbs'). split; [done|]. split; [by constructor|]. by eapply done_trans; [|apply Forall_app_2| |].
    + exists false, r2, (db' :: dbs). split; [done|]. split; [by constructor|]. by apply done_first.
Qed.

(** The file: signature, items, end and checksum, which is zero when it is not computed. *)
Definition dump_data (body : bytes) : bytes := rdb_magic ++ body ++ [REDIS_RDB_OPCODE_EOF].

Definition dump_file (body : bytes) : bytes :=
  dump_data body ++ le_bytes 8 (if rdb_checksum env then crc_of 0 (dump_data body) else 0).

Lemma dump_data_bytes body : bytes_ok body -> bytes_ok (dump_data body).
Proof. intros Hb. unfold dump_data. apply Forall_app_2; [by repeat constructor|]. apply Forall_app_2; [done|by repeat constructor]. Qed.

(** A stream that nothing was written to. *)
Definition fresh_stream (r : rio) : Prop := sink r /\ update_cksum r = false /\ cksum r = 0.

(** The whole dump of some contents: the items are those of a listing of every database. *)
Definition whole_dump (Ds : list dataset) (file : bytes) : Prop :=
  exists pss body, file = dump_file body /\ Forall2 listing_of Ds pss /\ bytes_ok body /\ body_code (dbs_items 0 pss) body.

Lemma save_rio_ok dbs Ds : Forall2 (db_repr (types env)) dbs Ds -> Forall dataset_ok Ds -> zlen dbs <= REDIS_RDB_LENERR ->
  exists pss body, Forall2 listing_of Ds pss /\ bytes_ok body /\ body_code (dbs_items 0 pss) body /\
  forall rdb, fresh_stream rdb -> exists ok rdb' dbs', rdbSaveRio env dbs now rdb = Some (ok, rdb', dbs') /\ Forall2 (db_repr (types env)) dbs' Ds /\
    if (ok : bool) then content (io rdb') = content (io rdb) ++ dump_file body else ~ room_for (io rdb) (zlen (dump_file body)).
Proof using Henv.
  intros Hdbs HDs Hlen. destruct (save_dbs_ok dbs Ds 0 Hdbs HDs) as (pss & body & Hpss & Hb & Hcode & Hsave); [done|lia|].
  exists pss, body. split; [done|]. split; [done|]. split; [done|]. intros rdb (Hsink & Hup & Hck). unfold rdbSaveRio.
  set (r0 := if rdb_checksum env then set_update_cksum rdb else rdb). assert (io r0 = io rdb) as Hio by (unfold r0; by destruct (rdb_checksum env)).
  assert (update_cksum r0 = rdb_checksum env /\ cksum r0 = 0) as [Hup0 Hck0] by (unfold r0; by destruct (rdb_checksum env)).
  assert (sink r0) as Hs0 by (unfold r0; destruct (rdb_checksum env); [|done]; destruct Hsink as [H1 H2 H3]; by split). clearbody r0.
  rewrite <- Hio. unfold dump_file, dump_data. set (ck := if rdb_checksum env then _ else _).
  assert (saves (rdbWriteRaw rdb_magic) 9 rdb_magic) as Hmagic by (apply (saves_raw rdb_magic); [by repeat constructor|done]).
  destruct (saves_wrun _ 9 rdb_magic r0 Hmagic Hs0) as (k & r1 & -> & Hk). cbn [mbind option_bind]. rewrite <- !app_assoc.
  destruct Hk as [(-> & Hw1 & Hs1)|(-> & Hno)]; cbn [Z.eqb].
  2: { exists false, r1, dbs. split; [done|]. split; [done|]. exact (done_first r0 _ _ r1 Hno). }
  destruct (Hsave r1 Hs1) as (ok & r2 & dbs' & -> & Hdbs' & Hdone). cbn [mbind option_bind]. assert (bytes_ok rdb_magic) as Hmb by by repeat constructor.
  assert (bytes_ok (rdb_magic ++ body)) as Hmb2 by by apply Forall_app_2. pose proof (done_trans r0 _ r1 body ok r2 Hs0 Hmb2 Hw1 Hdone) as Hdone2.
  rewrite (app_assoc rdb_magic). destruct ok; cbn [negb]; [|exists false, r2, dbs'; split; [done|]; split; [done|exact (done_first r0 _ _ r2 Hdone2)]].
  destruct Hdone2 as [Hw2 _], Hdone as [_ Hs2].
  destruct (saves_wrun _ 1 [REDIS_RDB_OPCODE_EOF] r2 (saves_type REDIS_RDB_OPCODE_EOF) Hs2) as (k & r3 & -> & Hk). cbn [mbind option_bind].
  assert (bytes_ok ((rdb_magic ++ body) ++ [REDIS_RDB_OPCODE_EOF])) as Hmb3 by (apply Forall_app_2; [done|by repeat constructor]).
  destruct Hk as [(-> & Hw3 & Hs3)|(-> & Hno)]; cbn [Z.eqb].
  2: { exists false, r3, dbs'. split; [done|]. split; [done|].
       assert (bytes_ok ((rdb_magic ++ body) ++ [REDIS_RDB_OPCODE_EOF] ++ le_bytes 8 ck)) as Hall by (rewrite app_assoc; apply Forall_app_2; [done|apply le_bytes_ok]).
       exact (done_trans r0 _ r2 _ false r3 Hs0 Hall Hw2 (done_first r2 _ _ r3 Hno)). }
  pose proof (wrote_trans r0 _ r2 _ r3 (sink_cksum _ Hs0) Hmb3 Hw2 Hw3) as Hw. assert (cksum r3 = ck) as Hcks.
  { rewrite (wrote_cksum _ _ _ Hw), Hup0, Hck0. unfold ck. by rewrite <- app_assoc. }
  rewrite Hcks. destruct (rioWrite_ok r3 (le_bytes 8 ck) Hs3 (le_bytes_ok _ _)) as (r4 & ok & -> & Hok). cbn [mbind option_bind].
  exists ok, r4, dbs'. split; [done|]. split; [done|]. rewrite (app_assoc (rdb_magic ++ body)). destruct ok.
  - destruct Hok as [Hw4 _]. by rewrite (wrote_content _ _ _ Hw4), (wrote_content _ _ _ Hw), <- app_assoc.
  - rewrite zlen_app. by rewrite <- (wrote_room _ _ _ Hw).
Qed.
End save.
