(* ===== verification/RdbReload.v ===== *)
(** * The dump format: loading what was saved (src/redis-2.8.19/src/rdb.c)

    The loop of [rdbLoad] on the items of a dump, and the theorems on a save followed
    by a load, of the databases and of one value with DUMP and RESTORE (migrate.c). *)
From S2P Require Import Prelude Util Sds Object Crc64 Intset Dict DictIter DictBound Ziplist HashType HashTypeSpec SetType ListType ListTypeSpec Rio Rdb RdbLoad RdbCodec RdbObject RdbSpec.
Open Scope Z_scope.

Section reload.
Context (env : rdb_env) (masterhost : bool) (now : Z).

(** ** What an item does to the databases *)

(** A master drops what has expired, a slave leaves it to its master. *)
Definition kept (t : option Z) : Prop := masterhost = true \/ alive now t.

#[global] Instance kept_dec t : Decision (kept t).
Proof. unfold kept. solve_decision. Defined.

(** Key [k] bound in the database number [i]. *)
Definition bind_in (i : nat) (k : bytes) (x : contents * option Z) (Ds : list dataset) : list dataset :=
  match Ds !! i with Some D => <[i := <[k := x]> D]> Ds | None => Ds end.

Definition item_apply (st : Z * list dataset) (it : item) : Z * list dataset :=
  match it with
  | ISelect dbid => (dbid, st.2)
  | IPair k c t => (st.1, if decide (kept t) then bind_in (Z.to_nat st.1) k (c, t) st.2 else st.2)
  end.

Definition item_fits (st : Z * list dataset) (it : item) : Prop :=
  match it with
  | ISelect dbid => dbid < zlen st.2
  | IPair k c t => exists D, rd st.2 st.1 = Some D /\ D !! k = None /\ Z.of_nat (base.size D) < 2 ^ 28
  end.

Fixpoint items_fit (st : Z * list dataset) (items : list item) : Prop :=
  match items with [] => True | it :: items => item_fits st it /\ items_fit (item_apply st it) items end.

Lemma dbAdd_ok db D k v c t : db_repr (types env) db D -> value_repr (types env) v c -> D !! k = None ->
  Z.of_nat (base.size D) < 2 ^ 28 -> deadline_ok t ->
  exists db1 db2, rdb_dbAdd env db k v = Some db1 /\
    (if negb (default (-1) t =? -1) then rdb_setExpire env db1 k (default (-1) t) else Some db1) = Some db2 /\
    db_repr (types env) db2 (<[k := (c, t)]> D).
Proof.
  intros [Hd Hex Hit Hkeys] Hv HD Hsz Ht. set (h := hash_fun (types env)) in *.
  assert (dom D = dom (to_map (rd_dict db))) as Hdom.
  { apply sets.set_eq. intros x. specialize (Hkeys x). rewrite !elem_of_dom. destruct (to_map (rd_dict db) !! x), (D !! x) as [[? ?]|]; try done; by split; intros []. }
  assert (few (to_map (rd_dict db))) as Hfew by (unfold few; rewrite <- size_dom, <- Hdom, size_dom; lia).
  assert (few (to_map (rd_expires db))) as Hfewx.
  { unfold few. assert (dom (to_map (rd_expires db)) ⊆ dom D) as Hsub.
    { intros x [y Hx]%elem_of_dom. rewrite Hdom. apply elem_of_dom. specialize (Hkeys x). destruct (to_map (rd_dict db) !! x); [done|].
      destruct (D !! x) as [[? ?]|]; [done|congruence]. }
    apply subseteq_size in Hsub. rewrite !size_dom in Hsub. lia. }
  destruct (dictAdd_inv h (can_resize (types env)) v (rd_dict db) k v Hd Hfew) as (d1 & st & Hadd & Hd1 & Hst).
  pose proof (Hkeys k) as Hk. rewrite HD in Hk. destruct (to_map (rd_dict db) !! k) eqn:Hnone; [done|]. destruct Hst as [-> Hm1].
  unfold rdb_dbAdd. fold h. rewrite Hadd. cbn [mbind option_bind]. pose proof (add_iters _ _ _ _ _ _ _ _ Hadd) as Hit1.
  exists (mkRdbDb d1 (rd_expires db)). destruct t as [e|]; cbn [default from_option id].
  - pose proof (Ht e eq_refl). assert ((e =? -1) = false) as -> by (apply Z.eqb_neq; lia). cbn [negb]. unfold rdb_setExpire. cbn [rd_dict rd_expires]. fold h.
    destruct (dictFind_inv h d1 k Hd1) as (d2 & r & Hfind & Hd2 & Hm2 & Hr). rewrite Hfind. cbn [mbind option_bind]. pose proof (find_iters _ _ _ _ _ Hfind) as Hit2.
    destruct r as [r|]; [|exfalso; apply Hr; [|done]; rewrite Hm1, lookup_insert_eq; by eexists].
    destruct (dictReplaceRaw_inv h (can_resize (types env)) e (rd_expires db) k e Hex Hfewx) as (ex1 & r1 & ex2 & -> & Hset & Hex2 & Hmx).
    cbn [mbind option_bind]. rewrite Hset. cbn [mbind option_bind]. eexists. split; [done|]. split; [done|]. split; cbn [rd_dict rd_expires]; [done|done|lia|].
    intros x. rewrite Hm2, Hm1, Hmx. destruct (decide (k = x)) as [<-|Hne]; [by rewrite !lookup_insert_eq|]. rewrite !lookup_insert_ne by done. apply Hkeys.
  - eexists. split; [done|]. split; [done|]. split; cbn [rd_dict rd_expires]; [done|done|lia|].
    intros x. rewrite Hm1. destruct (decide (k = x)) as [<-|Hne]; [by rewrite !lookup_insert_eq|]. rewrite !lookup_insert_ne by done. apply Hkeys.
Qed.

Lemma load_expire_ok t ty : deadline_ok t -> 0 <= ty <= 13 ->
  loads load_expire (expire_enc t ++ [ty]) (fun x => x = (ty, default (-1) t)).
Proof.
  intros Ht Hty. unfold load_expire. destruct t as [e|]; cbn [expire_enc default from_option id app].
  - pose proof (Ht e eq_refl). apply (loads_bind _ _ [252] (le_bytes 8 e ++ [ty]) _ _ (loads_type 252 ltac:(lia))). intros x ->.
    change (252 =? REDIS_RDB_OPCODE_EXPIRETIME) with false. change (252 =? REDIS_RDB_OPCODE_EXPIRETIME_MS) with true. cbv iota.
    eapply loads_bind; [apply loads_ms; [unfold sfits|]; lia|]. intros x ->. eapply loads_last; [apply loads_type; lia|]. intros x ->. by apply (loads_ret (ty, e)).
  - apply (loads_last _ _ [ty] _ _ (loads_type ty ltac:(lia))). intros x ->. unfold REDIS_RDB_OPCODE_EXPIRETIME, REDIS_RDB_OPCODE_EXPIRETIME_MS.
    destruct (Z.eqb_spec ty 253), (Z.eqb_spec ty 252); try lia. by apply (loads_ret (ty, -1)).
Qed.

Lemma expired_test t : deadline_ok t -> negb masterhost && negb (default (-1) t =? -1) && (default (-1) t <? now) = negb (bool_decide (kept t)).
Proof.
  intros Ht. assert ((default (-1) t =? -1) = bool_decide (t = None) /\ (default (-1) t <? now) = negb (bool_decide (alive now t)) \/ t = None) as He.
  { destruct t as [e|]; [left|by right]. cbn [default from_option id alive]. pose proof (Ht e eq_refl). rewrite bool_decide_eq_false_2 by done.
    split; [apply Z.eqb_neq; lia|]. case_bool_decide; destruct (Z.ltb_spec e now); done || lia. }
  destruct (decide (kept t)) as [Hk|Hk]; [rewrite (bool_decide_eq_true_2 (kept t)) by done|rewrite (bool_decide_eq_false_2 (kept t)) by done]; unfold kept in Hk.
  - destruct masterhost; [done|]. destruct Hk as [?|Hk]; [done|]. destruct He as [[_ ->]| ->]; [|done]. rewrite bool_decide_eq_true_2 by done. by rewrite andb_false_r.
  - destruct masterhost; [by destruct Hk; left|]. destruct He as [[-> ->]| ->]; [|by destruct Hk; right].
    rewrite !bool_decide_eq_false_2; [done| |]; [intros Ha; apply Hk; by right|intros ->; apply Hk; by right].
Qed.

Lemma load_item_ok it bs dbid dbs Ds : item_code it bs -> item_fits (dbid, Ds) it -> Forall2 (db_repr (types env)) dbs Ds ->
  loads (load_turn_ env masterhost now dbid dbs) bs
    (fun t => exists dbs', t = TurnDb (item_apply (dbid, Ds) it).1 dbs' /\ Forall2 (db_repr (types env)) dbs' (item_apply (dbid, Ds) it).2).
Proof.
  intros Hcode Hfit Hdbs. destruct Hcode as [id Hid|k c t ty kb vb Ht Hty Hk Hv]; cbn [item_apply item_fits fst snd] in *; unfold load_turn_.
  - apply (loads_bind _ _ [REDIS_RDB_OPCODE_SELECTDB] (len_enc id) (fun x => x = (REDIS_RDB_OPCODE_SELECTDB, -1))).
    { apply (loads_last _ _ _ _ _ (loads_type REDIS_RDB_OPCODE_SELECTDB ltac:(by unfold REDIS_RDB_OPCODE_SELECTDB))). intros x ->.
      by apply (loads_ret (REDIS_RDB_OPCODE_SELECTDB, -1)). }
    intros x ->. change (REDIS_RDB_OPCODE_SELECTDB =? REDIS_RDB_OPCODE_EOF) with false. rewrite Z.eqb_refl. cbv iota.
    eapply loads_last; [by apply loads_len|]. intros x ->. assert (zlen dbs = zlen Ds) as Hz by (unfold zlen; by rewrite (Forall2_length _ _ _ Hdbs)).
    rewrite Z.geb_leb. destruct (Z.leb_spec (zlen dbs) id); [lia|]. apply (loads_ret (TurnDb id dbs)). by exists dbs.
  - rewrite app_assoc. eapply loads_bind; [by apply load_expire_ok|]. intros x ->. unfold REDIS_RDB_OPCODE_EOF, REDIS_RDB_OPCODE_SELECTDB.
    destruct (Z.eqb_spec ty 255), (Z.eqb_spec ty 254); try lia. unfold load_pair. eapply loads_bind; [apply Hk|]. intros ko Hko%raw_of_ok.
    eapply loads_llift; [exact Hko|]. eapply loads_last; [apply Hv|]. intros v Hvc. cbv beta in Hvc. rewrite (expired_test t Ht).
    destruct (decide (kept t)) as [Hkept|Hexp].
    2: { rewrite bool_decide_eq_false_2 by done. apply (loads_ret (TurnDb dbid dbs)). by exists dbs. }
    rewrite bool_decide_eq_true_2 by done. cbn [negb]. destruct Hfit as (D & HD & HDk & Hsz). pose proof (rd_Some_bound _ _ _ HD) as Hb.
    assert (Ds !! Z.to_nat dbid = Some D) as HDn by (unfold rd in HD; destruct (Z.leb_spec 0 dbid); [done|lia]).
    destruct (Forall2_lookup_r _ _ _ _ _ Hdbs HDn) as (db & Hdbn & Hdb).
    assert (rd dbs dbid = Some db) as Hrd by (unfold rd; destruct (Z.leb_spec 0 dbid); [done|lia]).
    destruct (dbAdd_ok db D k v c t Hdb Hvc HDk Hsz Ht) as (db1 & db2 & Hadd & Hset & Hdb2).
    assert (wr dbs dbid db2 = Some (<[Z.to_nat dbid := db2]> dbs)) as Hwr by (apply wr_ok; by eapply rd_Some_bound).
    eapply loads_llift; [rewrite Hrd; cbn [mbind option_bind]; rewrite Hadd; cbn [mbind option_bind]; rewrite Hset; cbn [mbind option_bind]; exact Hwr|].
    apply (loads_ret (TurnDb dbid _)). eexists. split; [done|]. unfold bind_in. rewrite HDn. by apply Forall2_insert.
Qed.

(** ** The loop *)

Lemma item_code_nonempty it bs : item_code it bs -> bs <> [].
Proof. by intros [| ? ? [] ? ? ? ? ? ?]. Qed.

(** The items, then the end. *)
Lemma load_loop_ok items bs : body_code items bs -> forall fuel dbid dbs Ds r, items_fit (dbid, Ds) items -> Forall2 (db_repr (types env)) dbs Ds ->
  rio_ok r -> (length (unread r) < fuel)%nat ->
  loads_at r (load_loop env masterhost now fuel dbid dbs) (bs ++ [REDIS_RDB_OPCODE_EOF])
    (fun x => exists dbs', x = Some dbs' /\ Forall2 (db_repr (types env)) dbs' (foldl item_apply (dbid, Ds) items).2).
Proof.
  induction 1 as [|it items b1 b2 Hit _ IH]; intros fuel dbid dbs Ds r Hfit Hdbs Hr Hfuel; (destruct fuel as [|fuel]; [lia|]); cbn [load_loop foldl app].
  - rewrite <- (app_nil_r [REDIS_RDB_OPCODE_EOF]). apply (loads_at_bind _ _ _ [REDIS_RDB_OPCODE_EOF] [] (fun x => x = TurnEof)); [done| |].
    + unfold load_turn_. apply (loads_last _ _ _ (fun x => x = (REDIS_RDB_OPCODE_EOF, -1))); [|intros x ->; by apply (loads_ret TurnEof)|done].
      apply (loads_last _ _ _ _ _ (loads_type REDIS_RDB_OPCODE_EOF ltac:(by unfold REDIS_RDB_OPCODE_EOF))). intros x ->. by apply (loads_ret (REDIS_RDB_OPCODE_EOF, -1)).
    + intros x tl Htl ->. apply (loads_ret (Some dbs)); [by exists dbs|by eapply after_ok].
  - cbn [items_fit] in Hfit. destruct Hfit as [Hf1 Hf2]. rewrite <- app_assoc.
    eapply loads_at_bind; [done|by apply (load_item_ok it b1 dbid dbs Ds)|]. intros x tl Htl (dbs' & -> & Hdbs'). cbn beta iota.
    destruct (item_apply (dbid, Ds) it) as [dbid' Ds'] eqn:Happ. apply IH; [done|done|by eapply after_ok|].
    rewrite (after_unread r b1 tl Hr Htl). rewrite Htl, length_app in Hfuel. pose proof (item_code_nonempty _ _ Hit). destruct b1; [done|]. cbn [length] in Hfuel. lia.
Qed.

(** ** What is left of the databases *)

(** Of a database saved at the time [snow]: what had not expired then, nor now. *)
Definition reloaded (snow : Z) (D : dataset) : dataset := filter (fun p => alive snow p.2.2 /\ kept p.2.2) D.

Lemma pairs_apply snow ps : forall L i D0, rd L i = Some D0 -> NoDup ps.*1 -> (forall k, k ∈ ps.*1 -> D0 !! k = None) ->
  Z.of_nat (base.size D0 + length ps) <= 2 ^ 28 ->
  items_fit (i, L) (saved snow ps) /\
  foldl item_apply (i, L) (saved snow ps) = (i, <[Z.to_nat i := D0 ∪ reloaded snow (list_to_map ps)]> L).
Proof.
  induction ps as [|[k [c t]] ps IH]; intros L i D0 Hi Hn Hd Hsz.
  { split; [done|]. change (saved snow []) with (@nil item). cbn [foldl list_to_map foldr]. unfold reloaded. rewrite map_filter_empty, (right_id_L ∅ (∪)).
    f_equal. symmetry. apply list_insert_id. unfold rd in Hi. by destruct (0 <=? i). }
  cbn [fmap list_fmap fst] in Hn. apply NoDup_cons in Hn as [Hk Hn]. pose proof (Hd k ltac:(by left)) as HDk. cbn [length] in Hsz.
  assert (L !! Z.to_nat i = Some D0 /\ 0 <= i) as [HL Hi0] by (unfold rd in Hi; destruct (Z.leb_spec 0 i); [by split|done]).
  apply not_elem_of_list_to_map_1 in Hk as Hnone. unfold reloaded in *. cbn [list_to_map foldr fst snd]. unfold saved. destruct (decide (alive snow t)) as [Ha|Ha].
  2: { rewrite filter_cons_False by done. rewrite map_filter_insert_False by (intros [? _]; done). rewrite delete_id by done.
       apply IH; [done|done| |lia]. intros k' Hk'. apply Hd. by right. }
  rewrite filter_cons_True by done. cbn [fmap list_fmap foldl items_fit]. fold (saved snow ps). unfold kv_item at 1 2 3. cbn [fst snd item_apply item_fits].
  destruct (decide (kept t)) as [Hkt|Hkt].
  - assert (bind_in (Z.to_nat i) k (c, t) L = <[Z.to_nat i := <[k := (c, t)]> D0]> L) as -> by (unfold bind_in; by rewrite HL).
    destruct (IH (<[Z.to_nat i := <[k := (c, t)]> D0]> L) i (<[k := (c, t)]> D0)) as [Hf Hfold]; [| done | | |].
    + unfold rd. destruct (Z.leb_spec 0 i); [|lia]. apply list_lookup_insert_eq. by eapply lookup_lt_Some.
    + intros k' Hk'. rewrite lookup_insert_ne by (intros <-; done). apply Hd. by right.
    + rewrite map_size_insert_None by done. lia.
    + split; [split; [exists D0; split; [done|split; [done|lia]]|exact Hf]|]. rewrite Hfold. f_equal. rewrite list_insert_insert_eq. f_equal.
      rewrite map_filter_insert_True by done. rewrite <- insert_union_l, insert_union_r by done. done.
  - destruct (IH L i D0 Hi Hn) as [Hf Hfold]; [intros k' Hk'; apply Hd; by right|lia|].
    split; [split; [exists D0; split; [done|split; [done|lia]]|exact Hf]|]. rewrite Hfold. rewrite map_filter_insert_False by (intros [_ ?]; done). by rewrite delete_id.
Qed.

Lemma dbs_apply snow : forall pss Ds L1 m i, Forall2 listing_of Ds pss -> Forall dataset_ok Ds -> (length Ds <= m)%nat ->
  let st := (i, L1 ++ replicate m ∅) in
  items_fit st (dbs_items snow (zlen L1) pss) /\
  (foldl item_apply st (dbs_items snow (zlen L1) pss)).2 = L1 ++ (reloaded snow <$> Ds) ++ replicate (m - length Ds) ∅.
Proof.
  induction pss as [|ps pss IH]; intros Ds L1 m i Hpss HDs Hm; inversion Hpss as [|D ? Ds' ? [Hmap Hn] Hpss']; subst.
  { split; [done|]. cbn [dbs_items foldl snd fmap list_fmap app length]. by rewrite Nat.sub_0_r. }
  apply Forall_cons in HDs as [HD HDs]. cbn [length] in Hm. destruct m as [|m]; [lia|]. cbn [replicate length fmap list_fmap].
  assert (forall D1, zlen (L1 ++ [D1 : dataset]) = zlen L1 + 1) as Hz by (intros D1; by rewrite zlen_app).
  assert (forall D1 i', items_fit (i', L1 ++ D1 :: replicate m ∅) (dbs_items snow (zlen L1 + 1) pss) /\
    (foldl item_apply (i', L1 ++ D1 :: replicate m ∅) (dbs_items snow (zlen L1 + 1) pss)).2 = L1 ++ D1 :: (reloaded snow <$> Ds') ++ replicate (m - length Ds') ∅) as Hnext.
  { intros D1 i'. destruct (IH Ds' (L1 ++ [D1]) m i' Hpss' HDs ltac:(lia)) as [Hf Hr]. rewrite Hz, <- !app_assoc in *. by split. }
  destruct ps as [|p ps].
  { cbn [dbs_items list_to_map foldr]. unfold reloaded at 1. rewrite map_filter_empty. apply Hnext. }
  remember (p :: ps) as ps' eqn:Hps'. assert (dbs_items snow (zlen L1) (ps' :: pss) = (ISelect (zlen L1) :: saved snow ps') ++ dbs_items snow (zlen L1 + 1) pss) as -> by by subst ps'.
  destruct (pairs_apply snow ps' (L1 ++ ∅ :: replicate m ∅) (zlen L1) ∅) as [Hf Hfold]; [by rewrite rd_at|done|by intros; apply lookup_empty| |].
  { rewrite map_size_empty. destruct HD as [_ HD]. rewrite map_size_list_to_map in HD by done. lia. }
  rewrite (left_id_L ∅ (∪)) in Hfold. assert (Z.to_nat (zlen L1) = length L1 + 0)%nat as Hl by (unfold zlen; lia).
  rewrite Hl, insert_app_r in Hfold. cbn [insert list_insert] in Hfold. destruct (Hnext (reloaded snow (list_to_map ps')) (zlen L1)) as [Hf2 Hr2].
  rewrite foldl_app. cbn [foldl item_apply snd]. rewrite Hfold. split; [|exact Hr2]. cbn [app items_fit item_fits item_apply snd]. split; [rewrite zlen_app, zlen_cons; pose proof (zlen_nonneg (replicate m (∅ : dataset))); lia|].
  clear - Hf Hfold Hf2. revert Hf Hfold. generalize (zlen L1, L1 ++ ∅ :: replicate m (∅ : dataset)) as st. intros st. generalize (saved snow ps') as its.
  intros its. revert st. induction its as [|it its IH]; intros st; cbn [app items_fit foldl]; [by intros _ ->|]. intros [H1 H2] Hfold. split; [done|by apply IH].
Qed.
End reload.
