(* ===== verification/RdbFile.v ===== *)
(** * The dump format: files and payloads (src/redis-2.8.19/src/rdb.c, migrate.c)

    A save followed by a load, for the databases; what happens when a dump is cut;
    and the payload of DUMP, restored, changed or cut. *)
From S2P Require Import Prelude Util Sds Object Crc64 Intset Dict DictIter DictBound Ziplist HashType HashTypeSpec SetType ListType ListTypeSpec ZiplistSpec Rio Rdb RdbLoad RdbCodec RdbObject RdbSpec RdbReload.
Open Scope Z_scope.

Section file.
Context (env : rdb_env) (masterhost : bool) (now : Z).

(** [rdbLoad] on a file with the right signature, as one loader. *)
Definition load_all (fuel : nat) (dbs : list rdb_db) : loader (option (list rdb_db)) :=
  _ ⟵ (fun r => rioRead r 9);
  x ⟵ load_loop env masterhost now fuel 0 dbs;
  match x with
  | None => lret None
  | Some dbs => ok ⟵ load_verify env REDIS_RDB_VERSION; lret (if ok : bool then Some dbs else None)
  end.

(** What follows the data: read when the checksum is verified. *)
Definition read_tail (ck : Z) : bytes := if rdb_checksum env then le_bytes 8 ck else [].

Definition file_rio (fp : bytes) (interval : Z) : rio := mkRio (RioFile fp 0 0 0 0) (rdb_checksum env) 0 0 interval.

Lemma file_rio_ok fp interval : bytes_ok fp -> 0 <= interval -> rio_ok (file_rio fp interval).
Proof. intros Hb Hi. pose proof (zlen_nonneg fp). split; cbn; [lia|done|by unfold word|done]. Qed.

Lemma file_rio_unread fp interval : unread (file_rio fp interval) = fp.
Proof. done. Qed.

Lemma rdbLoad_all fp interval dbs : bytes_ok fp -> 0 <= interval -> (9 <= length fp)%nat -> take 9 fp = rdb_magic ->
  rdbLoad env masterhost now fp interval dbs =
  '(x, _) ← load_all (S (length fp)) dbs (file_rio fp interval); Some (match x with Some (Some dbs) => LoadOk dbs | _ => LoadExit end).
Proof.
  intros Hb Hi Hl Hm. unfold rdbLoad, load_all, lbind, llift, lret. fold (file_rio fp interval).
  assert (zlen (take 9 fp) = 9) as Hz by (unfold zlen; rewrite length_take; lia).
  pose proof (rioRead_ok (file_rio fp interval) (take 9 fp) (drop 9 fp) (file_rio_ok fp interval Hb Hi)) as Hread. rewrite Hz in Hread.
  rewrite Hread by by rewrite file_rio_unread, take_drop. cbn [mbind option_bind]. rewrite Hm.
  change (rd_block rdb_magic 0 5) with (Some (zs "REDIS")). cbn [mbind option_bind]. rewrite bool_decide_eq_true_2 by done. cbn [negb].
  change (c_str (drop 5 (rdb_magic ++ [0]))) with (Some (zs "0006")). cbn [mbind option_bind]. change (atoi (zs "0006")) with 6.
  change ((6 <? 1) || (6 >? REDIS_RDB_VERSION)) with false. cbv iota. change REDIS_RDB_VERSION with 6.
  destruct (load_loop _ _ _ _ _ _ _) as [[[[dbs1|]|] r1]|]; cbn [mbind option_bind]; try done.
  destruct (load_verify _ _ _) as [[[[]|] r2]|]; done.
Qed.

Lemma load_verify_ok r data ck : rio_ok r -> cksum r = 0 -> update_cksum r = rdb_checksum env -> ck = 0 \/ ck = crc_of 0 data -> word ck ->
  forall tl, unread r = data ++ tl -> loads_at (after r data) (load_verify env REDIS_RDB_VERSION) (read_tail ck) (fun ok => ok = true).
Proof.
  intros Hr Hc Hu Hck Hw tl Htl. unfold load_verify, read_tail. change (REDIS_RDB_VERSION >=? 5) with true. cbn [andb]. pose proof (after_ok _ _ _ Hr Htl) as Ha.
  destruct (rdb_checksum env) eqn:He; [|by apply (loads_ret true)].
  assert (cksum (after r data) = crc_of 0 data) as Hcks by (unfold after; cbn [cksum]; by rewrite Hu, Hc).
  assert (zlen (le_bytes 8 ck) = 8) as Hz by done. destruct (loads_read 8 _ Hz (after r data) Ha) as [H1 H2]. split; rewrite Hcks.
  - intros tl2 Htl2. destruct (H1 tl2 Htl2) as (y & -> & ->). cbn [mbind option_bind]. rewrite le_val_uwrap. change (8 * Z.of_nat 8) with 64.
    rewrite uwrap_small by exact Hw. eexists. split; [done|]. destruct Hck as [->| ->]; [done|]. by rewrite Z.eqb_refl, orb_true_r.
  - intros b suf Heq. destruct (H2 b suf Heq) as (r' & ->). cbn [mbind option_bind]. eauto.
Qed.

Lemma load_all_ok items body fuel dbs Ds r ck : body_code items body -> items_fit masterhost now (0, Ds) items ->
  Forall2 (db_repr (types env)) dbs Ds -> rio_ok r -> cksum r = 0 -> update_cksum r = rdb_checksum env ->
  (length (unread r) < fuel)%nat -> ck = 0 \/ ck = crc_of 0 (dump_data body) -> word ck ->
  loads_at r (load_all fuel dbs) (dump_data body ++ read_tail ck)
    (fun x => exists dbs', x = Some dbs' /\ Forall2 (db_repr (types env)) dbs' (foldl (item_apply masterhost now) (0, Ds) items).2).
Proof.
  intros Hcode Hfit Hdbs Hr Hc Hu Hfuel Hck Hw. unfold load_all. unfold dump_data at 1. rewrite <- app_assoc.
  eapply loads_at_bind; [done|by apply (loads_read 9 rdb_magic)|]. intros x tl Htl ->. pose proof (after_ok _ _ _ Hr Htl) as Hr1.
  eapply loads_at_bind; [done|apply (load_loop_ok env masterhost now items body Hcode); try done|].
  { rewrite (after_unread r rdb_magic tl Hr Htl). rewrite Htl, length_app in Hfuel. lia. }
  intros x tl2 Htl2 (dbs' & -> & Hdbs'). cbn beta iota. rewrite after_after; [|apply Hr|].
  2: { pose proof (unread_bytes r Hr) as Hb. rewrite Htl in Hb. rewrite (after_unread r rdb_magic tl Hr Htl) in Htl2. rewrite Htl2, app_assoc in Hb. by apply Forall_app in Hb as []. }
  fold (dump_data body). rewrite (after_unread r rdb_magic tl Hr Htl) in Htl2.
  assert (unread r = dump_data body ++ tl2) as Hun by (unfold dump_data; by rewrite Htl, Htl2, !app_assoc).
  rewrite <- (app_nil_r (read_tail ck)). eapply loads_at_bind; [by eapply after_ok|by eapply load_verify_ok|].
  intros x tl3 Htl3 ->. apply (loads_ret (Some dbs')); [by exists dbs'|]. eapply after_ok; [by eapply after_ok|]. exact Htl3.
Qed.

(** ** A file that is whole, and one that is not *)

Lemma load_file items body dbs Ds ck interval rest : body_code items body -> items_fit masterhost now (0, Ds) items ->
  Forall2 (db_repr (types env)) dbs Ds -> bytes_ok body -> bytes_ok rest -> 0 <= interval -> ck = 0 \/ ck = crc_of 0 (dump_data body) -> word ck ->
  (exists tl, rest = read_tail ck ++ tl) ->
  exists dbs', rdbLoad env masterhost now (dump_data body ++ rest) interval dbs = Some (LoadOk dbs') /\
    Forall2 (db_repr (types env)) dbs' (foldl (item_apply masterhost now) (0, Ds) items).2.
Proof.
  intros Hcode Hfit Hdbs Hb Hrest Hi Hck Hw [tl ->]. set (fp := dump_data body ++ read_tail ck ++ tl).
  assert (bytes_ok fp) as Hfp by (apply Forall_app_2; [by apply dump_data_bytes|done]).
  rewrite rdbLoad_all; [|done|done|unfold fp, dump_data; rewrite !length_app; change (length rdb_magic) with 9%nat; lia|by unfold fp, dump_data].
  destruct (load_all_ok items body (S (length fp)) dbs Ds (file_rio fp interval) ck) as [H1 _]; try done; [by (apply file_rio_ok || (rewrite file_rio_unread; lia)).. |].
  destruct (H1 tl) as (x & -> & dbs' & -> & Hdbs'); [rewrite file_rio_unread; unfold fp; by rewrite <- app_assoc|]. by exists dbs'.
Qed.

Lemma load_cut items body dbs Ds ck interval p b suf : body_code items body -> items_fit masterhost now (0, Ds) items ->
  Forall2 (db_repr (types env)) dbs Ds -> bytes_ok body -> 0 <= interval -> ck = 0 \/ ck = crc_of 0 (dump_data body) -> word ck ->
  dump_data body ++ read_tail ck = p ++ b :: suf -> rdbLoad env masterhost now p interval dbs = Some LoadExit.
Proof.
  intros Hcode Hfit Hdbs Hb Hi Hck Hw Hp. assert (bytes_ok p) as Hbp.
  { assert (bytes_ok (dump_data body ++ read_tail ck)) as Ha.
    { apply Forall_app_2; [by apply dump_data_bytes|]. unfold read_tail. destruct (rdb_checksum env); [apply le_bytes_ok|constructor]. }
    rewrite Hp in Ha. by apply Forall_app in Ha as []. }
  destruct (decide (9 <= length p)%nat) as [Hl|Hl].
  - rewrite rdbLoad_all; [|done|done|done|].
    2: { apply (f_equal (take 9)) in Hp. rewrite (take_app_le p) in Hp by done. by rewrite <- Hp. }
    destruct (load_all_ok items body (S (length p)) dbs Ds (file_rio p interval) ck) as [_ H2]; try done; [by (apply file_rio_ok || (rewrite file_rio_unread; lia)).. |].
    destruct (H2 b suf Hp) as (r' & ->). done.
  - unfold rdbLoad. fold (file_rio p interval). destruct (rioRead_short (file_rio p interval) 9) as (r' & ->); [by apply file_rio_ok| |done].
    rewrite file_rio_unread. unfold zlen. lia.
Qed.
End file.

(** ** Databases *)

Definition empty_db : rdb_db := mkRdbDb dictCreate dictCreate.

Lemma empty_repr env n : Forall2 (db_repr env) (replicate n empty_db) (replicate n (∅ : dataset)).
Proof.
  assert (db_repr env empty_db ∅) as He.
  { destruct (create_inv (V := value) (hash_fun env)) as [Hd _], (create_inv (V := Z) (hash_fun env)) as [Hx _]. by split. }
  induction n; by constructor.
Qed.

(** What a process reads in a dump made at the time [snow]. *)
Definition after_reload (masterhost : bool) (now snow : Z) (n : nat) (Ds : list dataset) : list dataset :=
  (reloaded masterhost now snow <$> Ds) ++ replicate (n - length Ds) ∅.

Lemma dump_words env body : bytes_ok body ->
  let ck := if rdb_checksum env then crc_of 0 (dump_data body) else 0 in (ck = 0 \/ ck = crc_of 0 (dump_data body)) /\ word ck.
Proof.
  intros Hb ck. unfold ck. assert (word 0) by by unfold word. destruct (rdb_checksum env); [|by auto]. split; [by right|].
  apply crc_of_ok; [done|by apply dump_data_bytes].
Qed.

(** A save that succeeds wrote a file, the same for all who load it. *)
Lemma save_then_load env snow dbs Ds r r' dbs' : env_ok env -> Forall2 (db_repr (types env)) dbs Ds -> Forall dataset_ok Ds ->
  zlen dbs <= REDIS_RDB_LENERR -> fresh_stream r -> content (io r) = [] -> rdbSaveRio env dbs snow r = Some (true, r', dbs') ->
  whole_dump env snow Ds (content (io r')).
Proof.
  intros Henv Hdbs HDs Hlen Hr Hempty Hsave.
  destruct (save_rio_ok env Henv snow dbs Ds Hdbs HDs Hlen) as (pss & body & Hpss & Hb & Hcode & Hsaves).
  destruct (Hsaves r Hr) as (ok & r1 & dbs1 & Hrun & _ & Hok). rewrite Hrun in Hsave. injection Hsave as -> -> ->. rewrite Hempty in Hok. by exists pss, body.
Qed.

Lemma reload_items masterhost now snow Ds pss n : Forall2 listing_of Ds pss -> Forall dataset_ok Ds -> (length Ds <= n)%nat ->
  items_fit masterhost now (0, replicate n ∅) (dbs_items snow 0 pss) /\
  (foldl (item_apply masterhost now) (0, replicate n ∅) (dbs_items snow 0 pss)).2 = after_reload masterhost now snow n Ds.
Proof. intros Hpss HDs Hn. exact (dbs_apply masterhost now snow pss Ds [] n 0 Hpss HDs Hn). Qed.

(** *** Two databases, for the examples *)

Definition demo_env (compression checksum : bool) : rdb_env :=
  mkRdbEnv (mkEnv 512 64 512 512 64 (fun k => zlen k) true (fun _ => 0)) compression checksum (fun _ => 0).

Definition demo_db : rdb_db :=
  default empty_db (
    db ← rdb_dbAdd (demo_env true true) empty_db (zs "greeting") (VString (StrRaw (zs "hello hello hello hello hello")));
    db ← rdb_setExpire (demo_env true true) db (zs "greeting") 2000;
    rdb_dbAdd (demo_env true true) db (zs "n") (VString (StrInt 42))).

Definition demo_data : dataset :=
  <[zs "n" := (CString (zs "42"), None)]> {[zs "greeting" := (CString (zs "hello hello hello hello hello"), Some 2000)]}.

Lemma demo_repr : Forall2 (db_repr (types (demo_env true true))) [demo_db; empty_db] [demo_data; ∅].
Proof.
  pose proof (empty_repr (types (demo_env true true)) 1) as He. inversion_clear He as [|? ? ? ? Hempty _]. constructor; [|constructor; [done|constructor]].
  destruct (dbAdd_ok (demo_env true true) empty_db ∅ (zs "greeting") (VString (StrRaw (zs "hello hello hello hello hello")))
    (CString (zs "hello hello hello hello hello")) (Some 2000) Hempty) as (db1 & db2 & H1 & H2 & Hdb2); [done|done|done|by intros n [= <-]|].
  destruct (dbAdd_ok (demo_env true true) db2 {[zs "greeting" := (CString (zs "hello hello hello hello hello"), Some 2000)]} (zs "n") (VString (StrInt 42))
    (CString (zs "42")) None Hdb2) as (db3 & db4 & H3 & H4 & Hdb4); [split; [done|by vm_compute]|by rewrite lookup_singleton_ne|by rewrite map_size_singleton|done|].
  injection H4 as <-. assert (demo_db = db3) as -> by (unfold demo_db; rewrite H1; cbn [mbind option_bind]; change (rdb_setExpire (demo_env true true) db1 (zs "greeting") 2000 = Some db2) in H2; rewrite H2; cbn [mbind option_bind]; by rewrite H3).
  exact Hdb4.
Qed.

Lemma demo_data_ok : Forall dataset_ok [demo_data; ∅].
Proof.
  assert (forall t : bytes, Forall byte_ok t -> zlen t <= 100 -> string_ok t /\ contents_ok (CString t)) as Hs.
  { intros t Hb Ht. unfold string_ok, contents_ok, short_enough. cbn [strings_in]. rewrite weight_cons. change (weight []) with 11. split; [split; [done|lia]|split; [lia|by constructor]]. }
  assert (forall t : bytes, forallb (fun b => (0 <=? b) && (b <? 256)) t = true -> Forall byte_ok t) as Hb.
  { intros t Ht. apply Forall_forall. intros b Hin. rewrite forallb_forall in Ht. specialize (Ht b). unfold byte_ok. rewrite andb_true_iff, Z.leb_le, Z.ltb_lt in Ht. by apply Ht, list_elem_of_In. }
  constructor; [|constructor; [|constructor]]; (split; [|]).
  - apply map_Forall_insert_2; [|apply map_Forall_singleton]; (split; [|split]); cbn [fst snd]; try (by apply Hs; [apply Hb|]); intros n [= <-]; lia.
  - unfold demo_data. rewrite map_size_insert_None by (by rewrite lookup_singleton_ne). by rewrite map_size_singleton.
  - apply map_Forall_empty.
  - by rewrite map_size_empty.
Qed.

Lemma fresh_file room : fresh_stream (rioInitWithFile [] 0 room).
Proof. split; [|by split]. split; cbn; [done|by unfold word|done]. Qed.

Lemma demo_env_ok compression checksum : env_ok (demo_env compression checksum).
Proof. intros i. cbn. lia. Qed.

(** C8: a dump of the databases that was written without an error is loaded, by a
    process of any configuration that has as many databases and whatever the size of
    the chunks it reads, as databases with the same keys, values and deadlines: a key
    is left out only when it had expired at the time of the dump, or when it has at the
    time of the load and the process is not a slave. *)
Theorem rdb_roundtrip env env' masterhost snow now interval dbs Ds n r r' dbs' :
  env_ok env -> Forall2 (db_repr (types env)) dbs Ds -> Forall dataset_ok Ds -> zlen dbs <= REDIS_RDB_LENERR -> (length dbs <= n)%nat ->
  fresh_stream r -> content (io r) = [] -> 0 <= interval -> rdbSaveRio env dbs snow r = Some (true, r', dbs') ->
  exists dbs2, rdbLoad env' masterhost now (content (io r')) interval (replicate n empty_db) = Some (LoadOk dbs2) /\
    Forall2 (db_repr (types env')) dbs2 (after_reload masterhost now snow n Ds).
Proof.
  intros Henv Hdbs HDs Hlen Hn Hr Hempty Hi Hsave. rewrite (Forall2_length _ _ _ Hdbs) in Hn.
  destruct (save_then_load env snow dbs Ds r r' dbs' Henv Hdbs HDs Hlen Hr Hempty Hsave) as (pss & body & -> & Hpss & Hb & Hcode).
  destruct (reload_items masterhost now snow Ds pss n Hpss HDs Hn) as [Hfit <-]. destruct (dump_words env body Hb) as [Hck Hw].
  apply (load_file env' masterhost now _ body _ _ _ interval _ Hcode Hfit (empty_repr _ n) Hb (le_bytes_ok _ _) Hi Hck Hw).
  unfold read_tail. destruct (rdb_checksum env'); [exists []; by rewrite app_nil_r|by eexists].
Qed.

Lemma rdb_roundtrip_witness : exists r' dbs' dbs2,
  rdbSaveRio (demo_env true true) [demo_db; empty_db] 1500 (rioInitWithFile [] 0 1000) = Some (true, r', dbs') /\
  rdbLoad (demo_env false true) false 3000 (content (io r')) 3 (replicate 3 empty_db) = Some (LoadOk dbs2) /\
  Forall2 (db_repr (types (demo_env false true))) dbs2 (after_reload false 3000 1500 3 [demo_data; ∅]).
Proof.
  assert (exists r' dbs', rdbSaveRio (demo_env true true) [demo_db; empty_db] 1500 (rioInitWithFile [] 0 1000) = Some (true, r', dbs')) as (r' & dbs' & Hsave)
    by (eexists _, _; vm_compute; reflexivity).
  exists r', dbs'. destruct (rdb_roundtrip (demo_env true true) (demo_env false true) false 1500 3000 3 [demo_db; empty_db] [demo_data; ∅] 3
    (rioInitWithFile [] 0 1000) r' dbs') as (dbs2 & Hload & Hrepr); [apply demo_env_ok|apply demo_repr|apply demo_data_ok|done|simpl; lia|apply fresh_file|done|done|exact Hsave|].
  exists dbs2. split; [exact Hsave|]. split; [exact Hload|exact Hrepr].
Defined.

(** C9: a dump that was cut is never loaded as if it were whole: the process exits,
    wherever the cut is among the bytes that it reads, that is anywhere when it
    verifies checksums and before the checksum when it does not. *)
Theorem rdb_truncated env env' masterhost snow now interval dbs Ds n r r' dbs' p b suf :
  env_ok env -> Forall2 (db_repr (types env)) dbs Ds -> Forall dataset_ok Ds -> zlen dbs <= REDIS_RDB_LENERR -> (length dbs <= n)%nat ->
  fresh_stream r -> content (io r) = [] -> 0 <= interval -> rdbSaveRio env dbs snow r = Some (true, r', dbs') ->
  content (io r') = p ++ b :: suf -> (rdb_checksum env' = true \/ 8 <= zlen suf) ->
  rdbLoad env' masterhost now p interval (replicate n empty_db) = Some LoadExit.
Proof.
  intros Henv Hdbs HDs Hlen Hn Hr Hempty Hi Hsave Hcut Hsuf. rewrite (Forall2_length _ _ _ Hdbs) in Hn.
  destruct (save_then_load env snow dbs Ds r r' dbs' Henv Hdbs HDs Hlen Hr Hempty Hsave) as (pss & body & Hfile & Hpss & Hb & Hcode).
  destruct (reload_items masterhost now snow Ds pss n Hpss HDs Hn) as [Hfit _]. destruct (dump_words env body Hb) as [Hck Hw]. rewrite Hfile in Hcut. unfold dump_file in Hcut.
  destruct (rdb_checksum env') eqn:He.
  - apply (load_cut env' masterhost now _ body _ _ _ interval p b suf Hcode Hfit (empty_repr _ n) Hb Hi Hck Hw). unfold read_tail. by rewrite He.
  - destruct Hsuf as [?|Hsuf]; [done|]. set (ck := if rdb_checksum env then _ else _) in *.
    assert (exists suf', dump_data body = p ++ b :: suf') as [suf' Hd].
    { exists (take (length suf - 8) suf). pose proof (f_equal length Hcut) as Hl. rewrite !length_app in Hl. change (length (le_bytes 8 ck)) with 8%nat in Hl. cbn [length] in Hl. unfold zlen in Hsuf.
      apply (f_equal (take (length (dump_data body)))) in Hcut. rewrite take_app_length in Hcut. rewrite Hcut, take_app_ge by lia. f_equal.
      replace (length (dump_data body) - length p)%nat with (S (length suf - 8)) by lia. done. }
    apply (load_cut env' masterhost now _ body _ _ _ interval p b suf' Hcode Hfit (empty_repr _ n) Hb Hi Hck Hw). unfold read_tail. by rewrite He, app_nil_r.
Qed.

Lemma rdb_truncated_witness : exists r' dbs' p,
  rdbSaveRio (demo_env true true) [demo_db; empty_db] 1500 (rioInitWithFile [] 0 1000) = Some (true, r', dbs') /\
  p = take 40 (content (io r')) /\ zlen p = 40 /\ rdbLoad (demo_env false true) false 1600 p 0 (replicate 2 empty_db) = Some LoadExit.
Proof.
  assert (exists r' dbs', rdbSaveRio (demo_env true true) [demo_db; empty_db] 1500 (rioInitWithFile [] 0 1000) = Some (true, r', dbs') /\
    exists b suf, content (io r') = take 40 (content (io r')) ++ (b :: suf) /\ zlen (take 40 (content (io r'))) = 40) as (r' & dbs' & Hsave & b & suf & Hcut & Hl)
    by (eexists _, _; split; [vm_compute; reflexivity|]; eexists _, _; vm_compute; split; reflexivity).
  exists r', dbs', (take 40 (content (io r'))). split; [exact Hsave|]. split; [reflexivity|]. split; [exact Hl|].
  apply (rdb_truncated (demo_env true true) (demo_env false true) false 1500 1600 0 [demo_db; empty_db] [demo_data; ∅] 2
    (rioInitWithFile [] 0 1000) r' dbs' (take 40 (content (io r'))) b suf); [apply demo_env_ok|apply demo_repr|apply demo_data_ok|done|simpl; lia|apply fresh_file|done|done|exact Hsave|exact Hcut|by left].
Defined.

(** C10: the databases have one whole dump, a file whose items are all their keys with the
    values and deadlines; saving always comes to an end, keeps what the databases hold,
    and either reports success after that file, and nothing else, was written, or reports
    an error on a device without room for it. *)
Theorem rdb_save_complete env snow dbs Ds : env_ok env -> Forall2 (db_repr (types env)) dbs Ds -> Forall dataset_ok Ds ->
  zlen dbs <= REDIS_RDB_LENERR ->
  exists file, whole_dump env snow Ds file /\
  forall r, fresh_stream r -> exists ok r' dbs', rdbSaveRio env dbs snow r = Some (ok, r', dbs') /\ Forall2 (db_repr (types env)) dbs' Ds /\
    if (ok : bool) then content (io r') = content (io r) ++ file else ~ room_for (io r) (zlen file).
Proof.
  intros Henv Hdbs HDs Hlen. destruct (save_rio_ok env Henv snow dbs Ds Hdbs HDs Hlen) as (pss & body & Hpss & Hb & Hcode & Hsaves).
  exists (dump_file env body). split; [by exists pss, body|exact Hsaves].
Qed.

Lemma rdb_save_complete_witness : exists file, whole_dump (demo_env true true) 1500 [demo_data; ∅] file /\
  forall room, exists ok r' dbs',
    rdbSaveRio (demo_env true true) [demo_db; empty_db] 1500 (rioInitWithFile [] 0 room) = Some (ok, r', dbs') /\
    Forall2 (db_repr (types (demo_env true true))) dbs' [demo_data; ∅] /\
    if (ok : bool) then content (io r') = file else ~ room_for (RioFile [] 0 room 0 0) (zlen file).
Proof.
  destruct (rdb_save_complete (demo_env true true) 1500 [demo_db; empty_db] [demo_data; ∅]) as (file & Hfile & H);
    [apply demo_env_ok|apply demo_repr|apply demo_data_ok|done|].
  exists file. split; [exact Hfile|]. intros room. exact (H _ (fresh_file room)).
Defined.

(** ** The payload of DUMP *)

Lemma loads_object_type o : loads (unless (-1) rdbLoadObjectType) [rdb_type o] (fun t => t = rdb_type o).
Proof.
  pose proof (rdb_type_range o). apply loads_unless; [lia|]. unfold rdbLoadObjectType.
  pose proof (loads_reader 1 (fun buf => rd buf 0) rdbLoadType (-1) [rdb_type o] (rdb_type o) eq_refl (fun r => eq_refl) eq_refl) as Hread.
  intros r Hr. destruct (Hread r Hr) as [H1 H2]. split.
  - intros tl Htl. rewrite (H1 tl Htl). cbn [mbind option_bind]. destruct (Z.eqb_spec (rdb_type o) (-1)); [lia|].
    assert (rdbIsObjectType (rdb_type o) = true) as -> by by destruct o as [|[]|[]|[]]. done.
  - intros b suf Heq. destruct (H2 b suf Heq) as (r' & ->). cbn [mbind option_bind]. by eexists.
Qed.

Lemma buffer_sink s : sink (rioInitWithBuffer []) /\ (bytes_ok s -> rio_ok (rioInitWithBuffer s)).
Proof. split; [by split|]. intros Hs. pose proof (zlen_nonneg s). split; cbn; [lia|done|done|done]. Qed.

Lemma buffer_wrun m n bs r : saves m n bs -> sink r -> room_for (io r) (zlen bs) -> exists r', wrun m r = Some (n, r') /\ wrote r bs r' /\ sink r'.
Proof. intros Hm Hr Hroom. destruct (saves_wrun m n bs r Hm Hr) as (k & r' & Hrun & [(-> & Hw & Hs)|(-> & Hno)]); [by exists r'|done]. Qed.

(** The payload of a value. *)
Definition payload_data (o : value) (vb : bytes) : bytes := [rdb_type o] ++ vb ++ [REDIS_RDB_VERSION; 0].

Definition payload_of (o : value) (vb : bytes) : bytes := payload_data o vb ++ le_bytes 8 (crc_of 0 (payload_data o vb)).

Lemma payload_data_ok o vb : bytes_ok vb -> bytes_ok (payload_data o vb).
Proof. intros Hb. unfold payload_data. pose proof (rdb_type_range o). repeat apply Forall_app_2; [repeat constructor; lia|done|by repeat constructor]. Qed.

Lemma createDumpPayload_ok env o c : env_ok env -> value_repr (types env) o c -> contents_ok c ->
  exists vb, createDumpPayload env o = Some (payload_of o vb) /\ bytes_ok vb /\ rdbSavedObjectLen env o = Some (zlen vb) /\
    forall env', loads (rdbLoadObject env' (rdb_type o)) vb (fun o' => value_repr (types env') o' c).
Proof.
  intros Henv Ho Hc. destruct (value_codec_ok env Henv o c Ho Hc) as (n & vb & Hs & Hn & Hz & Hl). exists vb. pose proof Hs as (_ & Hb & Hnull & _).
  split; [|split; [done|split; [unfold rdbSavedObjectLen; rewrite Hnull; cbn [mbind option_bind]; destruct (Z.eqb_spec n (-1)); [lia|by rewrite Hz]|exact Hl]]].
  destruct (buffer_sink []) as [Hsink _]. unfold createDumpPayload. destruct (buffer_wrun _ _ _ _ (saves_object_type o) Hsink I) as (r1 & -> & Hw1 & Hs1).
  cbn [mbind option_bind]. change (1 =? 0) with false. cbv iota. destruct (buffer_wrun _ _ _ _ Hs Hs1) as (r2 & -> & Hw2 & _).
  { apply (wrote_room _ _ _ Hw1). done. }
  cbn [mbind option_bind]. destruct (Z.eqb_spec n 0); [lia|]. change (Z.land REDIS_RDB_VERSION 255) with 6. change (Z.land (Z.shiftr REDIS_RDB_VERSION 8) 255) with 0.
  rewrite (wrote_content _ _ _ Hw2), (wrote_content _ _ _ Hw1). change (content (io (rioInitWithBuffer []))) with (@nil Z).
  assert (([] ++ [rdb_type o]) ++ vb = [rdb_type o] ++ vb) as -> by done. rewrite <- app_assoc. change ([rdb_type o] ++ vb ++ [6; 0]) with (payload_data o vb).
  destruct (crc_of_ok 0 (payload_data o vb) ltac:(by unfold word) (payload_data_ok o vb Hb)) as [-> _]. done.
Qed.

(** The test of a payload is that it is some data with its checksum. *)
Lemma verify_ok data x : bytes_ok data -> 2 <= zlen data -> word x ->
  verifyDumpPayload (data ++ le_bytes 8 x) (zlen data + 8) =
  Some (bool_decide (drop (length data - 2) data = [REDIS_RDB_VERSION; 0]) && (x =? crc_of 0 data)).
Proof.
  intros Hd Hl Hx. unfold verifyDumpPayload. destruct (Z.ltb_spec (zlen data + 8) 10); [lia|].
  assert (exists d0 f0 f1, data = d0 ++ [f0; f1]) as (d0 & f0 & f1 & ->).
  { unfold zlen in Hl. exists (take (length data - 2) data). pose proof (take_drop (length data - 2) data) as Htd. assert (length (drop (length data - 2) data) = 2)%nat as Hld by (rewrite length_drop; lia).
    destruct (drop (length data - 2) data) as [|f0 [|f1 [|]]]; cbn [length] in Hld; try lia. by exists f0, f1. }
  rewrite zlen_app in *. change (zlen [f0; f1]) with 2 in *. replace (zlen d0 + 2 + 8 - 10) with (zlen d0) by lia.
  replace (zlen d0 + 2 + 8 - 8) with (zlen d0 + 2) by lia. rewrite <- app_assoc. cbn [app]. rewrite rd_at. cbn [mbind option_bind].
  assert (forall t, d0 ++ f0 :: f1 :: t = (d0 ++ [f0]) ++ f1 :: t) as Hs by (intros t; by rewrite <- app_assoc).
  assert (rd (d0 ++ f0 :: f1 :: le_bytes 8 x) (zlen d0 + 1) = Some f1) as -> by (rewrite Hs; apply rd_here; by rewrite zlen_app).
  cbn [mbind option_bind]. apply Forall_app in Hd as Hdd. destruct Hdd as [Hd0 Hf]. inversion_clear Hf as [|? ? Hf0 Hf']. inversion_clear Hf' as [|? ? Hf1 _].
  assert (rd_block (d0 ++ f0 :: f1 :: le_bytes 8 x) 0 (zlen d0 + 2) = Some (d0 ++ [f0; f1])) as ->.
  { apply (rd_block_mid [] (d0 ++ [f0; f1]) (le_bytes 8 x)); [by rewrite <- app_assoc|done|by rewrite zlen_app]. }
  assert (rd_block (d0 ++ f0 :: f1 :: le_bytes 8 x) (zlen d0 + 2) 8 = Some (le_bytes 8 x)) as ->.
  { apply (rd_block_mid (d0 ++ [f0; f1]) (le_bytes 8 x) []); [by rewrite <- app_assoc, app_nil_r|by rewrite zlen_app|done]. }
  cbn [mbind option_bind]. destruct (crc_of_ok 0 (d0 ++ [f0; f1]) ltac:(by unfold word) Hd) as [-> Hw]. cbn [mbind option_bind].
  assert (length (d0 ++ [f0; f1]) - 2 = length d0)%nat as -> by (rewrite length_app; cbn; lia). rewrite drop_app_length.
  assert ((Z.lor (Z.shiftl f1 8) f0 =? REDIS_RDB_VERSION) = bool_decide ([f0; f1] = [REDIS_RDB_VERSION; 0])) as ->.
  { unfold byte_ok in *. rewrite lor_add by lia. case_bool_decide as Hf; [injection Hf as -> ->; done|]. apply Z.eqb_neq.
    unfold REDIS_RDB_VERSION in *. intros Heq. apply Hf. assert (f1 = 0) as -> by lia. f_equal; lia. }
  case_bool_decide; cbn [negb andb]; [|done]. f_equal. destruct (Z.eqb_spec x (crc_of 0 (d0 ++ [f0; f1]))) as [->|Hne]; [by apply bool_decide_eq_true_2|].
  apply bool_decide_eq_false_2. intros Heq. apply Hne. apply (f_equal le_val) in Heq. rewrite !le_val_uwrap in Heq. change (8 * Z.of_nat 8) with 64 in Heq.
  rewrite !uwrap_small in Heq by done. done.
Qed.

(** The register is zero after data and its checksum. *)
Lemma zero_residue s : bytes_ok s -> crc64 0 (s ++ le_bytes 8 (crc_of 0 s)) = Some 0.
Proof.
  intros Hs. destruct (crc_of_ok 0 s ltac:(by unfold word) Hs) as [Hc Hw]. rewrite crc64_app, Hc. cbn [mbind option_bind].
  rewrite crc64_ok by apply le_bytes_ok. rewrite le_val_uwrap. change (8 * Z.of_nat 8) with 64. rewrite uwrap_small by done. by rewrite Z.lxor_nilpotent, crc_bits_0.
Qed.

(** C11: DUMP gives a payload for a value of any encoding, and RESTORE of that payload, by
    a process of any configuration, gives a value with the same contents. *)
Theorem dump_restore env env' o c : env_ok env -> value_repr (types env) o c -> contents_ok c ->
  exists p o', createDumpPayload env o = Some p /\ restore_object env' p = Some (Some o') /\ value_repr (types env') o' c.
Proof.
  intros Henv Ho Hc. destruct (createDumpPayload_ok env o c Henv Ho Hc) as (vb & Hdump & Hb & _ & Hl). exists (payload_of o vb).
  pose proof (payload_data_ok o vb Hb) as Hd. destruct (crc_of_ok 0 _ ltac:(by unfold word) Hd) as [_ Hw].
  assert (bytes_ok (payload_of o vb)) as Hp by (apply Forall_app_2; [done|apply le_bytes_ok]).
  assert (2 <= zlen (payload_data o vb)) as Hlen.
  { unfold payload_data. rewrite !zlen_app. change (zlen [rdb_type o]) with 1. change (zlen [REDIS_RDB_VERSION; 0]) with 2. pose proof (zlen_nonneg vb). lia. }
  unfold restore_object. assert (zlen (payload_of o vb) = zlen (payload_data o vb) + 8) as -> by (unfold payload_of; by rewrite zlen_app).
  pose proof (verify_ok _ (crc_of 0 (payload_data o vb)) Hd Hlen Hw) as Hver. fold (payload_of o vb) in Hver. rewrite Hver, bool_decide_eq_true_2, Z.eqb_refl.
  2: { unfold payload_data. rewrite app_assoc, length_app. cbn [length]. rewrite Nat.add_sub. apply drop_app_length. }
  cbn [andb negb mbind option_bind].
  assert (loads (type ⟵ unless (-1) rdbLoadObjectType; rdbLoadObject env' type) ([rdb_type o] ++ vb) (fun o' => value_repr (types env') o' c)) as Hload.
  { eapply loads_bind; [apply loads_object_type|]. intros t ->. apply Hl. }
  destruct (Hload (rioInitWithBuffer (payload_of o vb)) (proj2 (buffer_sink _) Hp)) as [H1 _].
  destruct (H1 ([REDIS_RDB_VERSION; 0] ++ le_bytes 8 (crc_of 0 (payload_data o vb)))) as (o' & -> & Ho').
  { unfold unread, rioInitWithBuffer. cbn [io pos_of content]. change (drop (Z.to_nat 0) (payload_of o vb)) with (payload_of o vb). unfold payload_of, payload_data at 1. by rewrite <- !app_assoc. }
  by exists o'.
Qed.

Lemma dump_restore_witness : exists p o',
  createDumpPayload (demo_env true true) (VString (StrInt 42)) = Some p /\
  restore_object (demo_env false false) p = Some (Some o') /\ value_repr (types (demo_env false false)) o' (CString (zs "42")).
Proof.
  apply (dump_restore (demo_env true true) (demo_env false false) (VString (StrInt 42)) (CString (zs "42"))); [apply demo_env_ok|split; [done|by vm_compute]|].
  split; [by vm_compute|]. repeat constructor; by vm_compute.
Defined.

(** C12: a payload in which some bytes among eight that follow each other were changed is
    refused. *)
Theorem dump_tamper env env' o c p pre w1 w2 post : env_ok env -> value_repr (types env) o c -> contents_ok c ->
  createDumpPayload env o = Some p -> p = pre ++ w1 ++ post -> bytes_ok w2 -> length w2 = length w1 -> (length w1 <= 8)%nat -> w2 <> w1 ->
  restore_object env' (pre ++ w2 ++ post) = Some None.
Proof.
  intros Henv Ho Hc Hdump Hp Hw2 Hl H8 Hne. destruct (createDumpPayload_ok env o c Henv Ho Hc) as (vb & Hdump2 & Hb & _ & _).
  rewrite Hdump in Hdump2. injection Hdump2 as ->. pose proof (payload_data_ok o vb Hb) as Hd.
  assert (zlen (payload_of o vb) = zlen vb + 11) as Hz by (unfold payload_of, payload_data; rewrite !zlen_app; change (zlen [rdb_type o]) with 1; change (zlen [REDIS_RDB_VERSION; 0]) with 2; change (zlen (le_bytes 8 (crc_of 0 ([rdb_type o] ++ vb ++ [REDIS_RDB_VERSION; 0])))) with 8; lia).
  assert (zlen (pre ++ w2 ++ post) = zlen vb + 11) as Hz2 by (rewrite <- Hz, Hp; unfold zlen; rewrite !length_app; lia).
  assert (bytes_ok (payload_of o vb)) as Hpb by (apply Forall_app_2; [done|apply le_bytes_ok]).
  pose proof (zero_residue (payload_data o vb) Hd) as H0. fold (payload_of o vb) in H0. rewrite Hp in Hpb, H0. pose proof Hpb as [Hb1 [_ Hb3]%Forall_app]%Forall_app.
  assert (crc64 0 (pre ++ w2 ++ post) <> Some 0) as Hbad.
  { rewrite <- H0. apply not_eq_sym, (crc64_detects_ok 0 pre w1 w2 post); [by unfold word|done|done|done|done|done]. }
  assert (bytes_ok (pre ++ w2 ++ post)) as Hq by (by repeat apply Forall_app_2). set (q := pre ++ w2 ++ post) in *. clearbody q. pose proof (zlen_nonneg vb).
  set (data := take (length q - 8) q). assert (length data = length q - 8)%nat as Hld by (unfold data; rewrite length_take; lia).
  assert (q = data ++ le_bytes 8 (le_val (drop (length q - 8) q)) /\ word (le_val (drop (length q - 8) q))) as [Hqd Hw].
  { assert (length (drop (length q - 8) q) = 8)%nat as H8' by (rewrite length_drop; unfold zlen in Hz2; lia). assert (bytes_ok (drop (length q - 8) q)) as Hdb by by apply Forall_drop. split.
    - unfold data. rewrite <- H8' at 2. rewrite le_bytes_val by done. by rewrite take_drop.
    - pose proof (le_val_range (drop (length q - 8) q) Hdb) as Hv. unfold word, zlen in *. rewrite H8' in Hv. exact Hv. }
  set (x := le_val _) in *. clearbody x. assert (bytes_ok data) as Hdata by by apply Forall_take.
  unfold restore_object. assert (zlen q = zlen data + 8) as -> by (unfold zlen in *; lia). rewrite Hqd at 1. rewrite verify_ok; [|done|unfold zlen in *; lia|done].
  destruct (Z.eqb_spec x (crc_of 0 data)) as [->|]; [|by rewrite andb_false_r]. exfalso. apply Hbad. rewrite Hqd. by apply zero_residue.
Qed.

Lemma dump_tamper_witness : exists p,
  createDumpPayload (demo_env true true) (VString (StrInt 42)) = Some ([0; 192; 42; 6; 0] ++ p) /\
  restore_object (demo_env false false) ([0; 192] ++ [43] ++ [6; 0] ++ p) = Some None.
Proof.
  assert (exists p, createDumpPayload (demo_env true true) (VString (StrInt 42)) = Some ([0; 192; 42; 6; 0] ++ p) /\ p = p) as (p & Hp & _)
    by (eexists; split; [vm_compute; reflexivity|reflexivity]).
  exists p. split; [exact Hp|].
  apply (dump_tamper (demo_env true true) (demo_env false false) (VString (StrInt 42)) (CString (zs "42")) ([0; 192; 42; 6; 0] ++ p) [0; 192] [42] [43] ([6; 0] ++ p));
    [apply demo_env_ok|split; [done|by vm_compute]| |exact Hp|done|by repeat constructor|done|simpl; lia|done].
  split; [by vm_compute|]. repeat constructor; by vm_compute.
Defined.
