(* ===== verification/Server.v ===== *)
(** * The server state shared by the commands (src/redis-2.8.19/src/redis.h, redis.c,
    networking.c)

    The part of [struct redisServer], [redisDb] and [redisClient] that the key
    space, transaction and Pub/Sub commands read and write, a state monad whose
    [None] is a failed assertion or a read out of bounds, and the replies.
    The clock is a field: it does not advance during a command. *)
From S2P Require Import Prelude Util Object.
Open Scope Z_scope.

(** ** Replies *)

(** One element of the protocol written to a client. *)
Inductive reply :=
  | RStatus (s : bytes)
  | RError (s : bytes)
  | RInt (n : Z)
  | RBulk (b : bytes)
  | RNullBulk
  | RMulti (n : Z)
  | RNullMulti.

#[global] Instance reply_eq_dec : EqDecision reply.
Proof. solve_decision. Defined.

(** ** State *)

(** A client is its identifier. *)
Abbreviation cid := Z.

Record redisDb := mkDb {
  dict : gmap bytes robj;
  expires : gmap bytes Z;
  watched_keys : gmap bytes (list cid);
  blocking_keys : gmap bytes (list cid);
  ready : gset bytes
}.

(** The client flags the commands use. *)
Record cflags := mkFlags {
  REDIS_MULTI : bool;
  REDIS_DIRTY_CAS : bool;
  REDIS_DIRTY_EXEC : bool;
  REDIS_PUBSUB : bool;
  REDIS_FORCE_REPL : bool;
  REDIS_FORCE_AOF : bool;
  REDIS_MASTER : bool;
  REDIS_CLOSE_AFTER_REPLY : bool
}.

Definition no_flags : cflags := mkFlags false false false false false false false false.

Record client := mkClient {
  db : Z;
  flags : cflags;
  argv : list bytes;
  mstate : list (list bytes);
  watched : list (Z * bytes);
  channels : gset bytes;
  patterns : list bytes;
  authenticated : bool;
  replies : list reply
}.

(** A command sent to the AOF or to the slaves. *)
Record propagated := mkProp { p_db : Z; p_argv : list bytes; p_aof : bool; p_repl : bool }.

Record server := mkServer {
  dbs : list redisDb;
  clients : gmap cid client;
  dirty : Z;
  stat_keyspace_hits : Z;
  stat_keyspace_misses : Z;
  stat_expiredkeys : Z;
  stat_numcommands : Z;
  pubsub_channels : gmap bytes (list cid);
  pubsub_patterns : list (cid * bytes);
  ready_keys : list (Z * bytes);
  fed : list propagated;
  notify_keyspace_events : Z;
  mstime : Z;
  loading : bool;
  masterhost : bool;
  lua_time_start : option Z;
  aof_on : bool
}.

(** Field updates. *)
Definition set_dbs (f : list redisDb -> list redisDb) (s : server) : server :=
  mkServer (f (dbs s)) (clients s) (dirty s) (stat_keyspace_hits s) (stat_keyspace_misses s)
    (stat_expiredkeys s) (stat_numcommands s) (pubsub_channels s) (pubsub_patterns s) (ready_keys s)
    (fed s) (notify_keyspace_events s) (mstime s) (loading s) (masterhost s) (lua_time_start s) (aof_on s).
Definition set_clients (f : gmap cid client -> gmap cid client) (s : server) : server :=
  mkServer (dbs s) (f (clients s)) (dirty s) (stat_keyspace_hits s) (stat_keyspace_misses s)
    (stat_expiredkeys s) (stat_numcommands s) (pubsub_channels s) (pubsub_patterns s) (ready_keys s)
    (fed s) (notify_keyspace_events s) (mstime s) (loading s) (masterhost s) (lua_time_start s) (aof_on s).
Definition set_dirty (f : Z -> Z) (s : server) : server :=
  mkServer (dbs s) (clients s) (f (dirty s)) (stat_keyspace_hits s) (stat_keyspace_misses s)
    (stat_expiredkeys s) (stat_numcommands s) (pubsub_channels s) (pubsub_patterns s) (ready_keys s)
    (fed s) (notify_keyspace_events s) (mstime s) (loading s) (masterhost s) (lua_time_start s) (aof_on s).
Definition set_stats (h m e n : Z) (s : server) : server :=
  mkServer (dbs s) (clients s) (dirty s) (stat_keyspace_hits s + h) (stat_keyspace_misses s + m)
    (stat_expiredkeys s + e) (stat_numcommands s + n) (pubsub_channels s) (pubsub_patterns s) (ready_keys s)
    (fed s) (notify_keyspace_events s) (mstime s) (loading s) (masterhost s) (lua_time_start s) (aof_on s).
Definition set_pubsub_channels (f : gmap bytes (list cid) -> gmap bytes (list cid)) (s : server) : server :=
  mkServer (dbs s) (clients s) (dirty s) (stat_keyspace_hits s) (stat_keyspace_misses s)
    (stat_expiredkeys s) (stat_numcommands s) (f (pubsub_channels s)) (pubsub_patterns s) (ready_keys s)
    (fed s) (notify_keyspace_events s) (mstime s) (loading s) (masterhost s) (lua_time_start s) (aof_on s).
Definition set_pubsub_patterns (f : list (cid * bytes) -> list (cid * bytes)) (s : server) : server :=
  mkServer (dbs s) (clients s) (dirty s) (stat_keyspace_hits s) (stat_keyspace_misses s)
    (stat_expiredkeys s) (stat_numcommands s) (pubsub_channels s) (f (pubsub_patterns s)) (ready_keys s)
    (fed s) (notify_keyspace_events s) (mstime s) (loading s) (masterhost s) (lua_time_start s) (aof_on s).
Definition set_ready_keys (f : list (Z * bytes) -> list (Z * bytes)) (s : server) : server :=
  mkServer (dbs s) (clients s) (dirty s) (stat_keyspace_hits s) (stat_keyspace_misses s)
    (stat_expiredkeys s) (stat_numcommands s) (pubsub_channels s) (pubsub_patterns s) (f (ready_keys s))
    (fed s) (notify_keyspace_events s) (mstime s) (loading s) (masterhost s) (lua_time_start s) (aof_on s).
Definition set_fed (f : list propagated -> list propagated) (s : server) : server :=
  mkServer (dbs s) (clients s) (dirty s) (stat_keyspace_hits s) (stat_keyspace_misses s)
    (stat_expiredkeys s) (stat_numcommands s) (pubsub_channels s) (pubsub_patterns s) (ready_keys s)
    (f (fed s)) (notify_keyspace_events s) (mstime s) (loading s) (masterhost s) (lua_time_start s) (aof_on s).

Definition set_dict (f : gmap bytes robj -> gmap bytes robj) (d : redisDb) : redisDb :=
  mkDb (f (dict d)) (expires d) (watched_keys d) (blocking_keys d) (ready d).
Definition set_expires (f : gmap bytes Z -> gmap bytes Z) (d : redisDb) : redisDb :=
  mkDb (dict d) (f (expires d)) (watched_keys d) (blocking_keys d) (ready d).
Definition set_watched_keys (f : gmap bytes (list cid) -> gmap bytes (list cid)) (d : redisDb) : redisDb :=
  mkDb (dict d) (expires d) (f (watched_keys d)) (blocking_keys d) (ready d).
Definition set_ready (f : gset bytes -> gset bytes) (d : redisDb) : redisDb :=
  mkDb (dict d) (expires d) (watched_keys d) (blocking_keys d) (f (ready d)).

Definition set_db (v : Z) (c : client) : client :=
  mkClient v (flags c) (argv c) (mstate c) (watched c) (channels c) (patterns c) (authenticated c) (replies c).
Definition set_flags (f : cflags -> cflags) (c : client) : client :=
  mkClient (db c) (f (flags c)) (argv c) (mstate c) (watched c) (channels c) (patterns c) (authenticated c) (replies c).
Definition set_argv (v : list bytes) (c : client) : client :=
  mkClient (db c) (flags c) v (mstate c) (watched c) (channels c) (patterns c) (authenticated c) (replies c).
Definition set_mstate (f : list (list bytes) -> list (list bytes)) (c : client) : client :=
  mkClient (db c) (flags c) (argv c) (f (mstate c)) (watched c) (channels c) (patterns c) (authenticated c) (replies c).
Definition set_watched (f : list (Z * bytes) -> list (Z * bytes)) (c : client) : client :=
  mkClient (db c) (flags c) (argv c) (mstate c) (f (watched c)) (channels c) (patterns c) (authenticated c) (replies c).
Definition set_channels (f : gset bytes -> gset bytes) (c : client) : client :=
  mkClient (db c) (flags c) (argv c) (mstate c) (watched c) (f (channels c)) (patterns c) (authenticated c) (replies c).
Definition set_patterns (f : list bytes -> list bytes) (c : client) : client :=
  mkClient (db c) (flags c) (argv c) (mstate c) (watched c) (channels c) (f (patterns c)) (authenticated c) (replies c).
Definition set_authenticated (v : bool) (c : client) : client :=
  mkClient (db c) (flags c) (argv c) (mstate c) (watched c) (channels c) (patterns c) v (replies c).
Definition set_replies (f : list reply -> list reply) (c : client) : client :=
  mkClient (db c) (flags c) (argv c) (mstate c) (watched c) (channels c) (patterns c) (authenticated c) (f (replies c)).

Definition set_MULTI (b : bool) (f : cflags) : cflags :=
  mkFlags b (REDIS_DIRTY_CAS f) (REDIS_DIRTY_EXEC f) (REDIS_PUBSUB f) (REDIS_FORCE_REPL f) (REDIS_FORCE_AOF f)
    (REDIS_MASTER f) (REDIS_CLOSE_AFTER_REPLY f).
Definition set_DIRTY_CAS (b : bool) (f : cflags) : cflags :=
  mkFlags (REDIS_MULTI f) b (REDIS_DIRTY_EXEC f) (REDIS_PUBSUB f) (REDIS_FORCE_REPL f) (REDIS_FORCE_AOF f)
    (REDIS_MASTER f) (REDIS_CLOSE_AFTER_REPLY f).
Definition set_DIRTY_EXEC (b : bool) (f : cflags) : cflags :=
  mkFlags (REDIS_MULTI f) (REDIS_DIRTY_CAS f) b (REDIS_PUBSUB f) (REDIS_FORCE_REPL f) (REDIS_FORCE_AOF f)
    (REDIS_MASTER f) (REDIS_CLOSE_AFTER_REPLY f).
Definition set_PUBSUB (b : bool) (f : cflags) : cflags :=
  mkFlags (REDIS_MULTI f) (REDIS_DIRTY_CAS f) (REDIS_DIRTY_EXEC f) b (REDIS_FORCE_REPL f) (REDIS_FORCE_AOF f)
    (REDIS_MASTER f) (REDIS_CLOSE_AFTER_REPLY f).
Definition set_FORCE (repl aof : bool) (f : cflags) : cflags :=
  mkFlags (REDIS_MULTI f) (REDIS_DIRTY_CAS f) (REDIS_DIRTY_EXEC f) (REDIS_PUBSUB f) repl aof
    (REDIS_MASTER f) (REDIS_CLOSE_AFTER_REPLY f).
Definition set_CLOSE_AFTER_REPLY (b : bool) (f : cflags) : cflags :=
  mkFlags (REDIS_MULTI f) (REDIS_DIRTY_CAS f) (REDIS_DIRTY_EXEC f) (REDIS_PUBSUB f) (REDIS_FORCE_REPL f)
    (REDIS_FORCE_AOF f) (REDIS_MASTER f) b.

(** ** The monad *)

Definition M (A : Type) : Type := server -> option (A * server).

#[global] Instance M_ret : MRet M := fun A a s => Some (a, s).
#[global] Instance M_bind : MBind M := fun A B f m s =>
  match m s with Some (a, s) => f a s | None => None end.

(** A run of a sequence, step by step. *)
Lemma bind_run {A B} (m : M A) (f : A -> M B) s b s' :
  (m ≫= f) s = Some (b, s') -> exists a s1, m s = Some (a, s1) /\ f a s1 = Some (b, s').
Proof. unfold mbind, M_bind. destruct (m s) as [[a s1]|]; [eauto|done]. Qed.

Definition gets {A} (f : server -> A) : M A := fun s => Some (f s, s).
Definition modify (f : server -> server) : M unit := fun s => Some (tt, f s).
Definition crash {A} : M A := fun _ => None.
Definition lift {A} (o : option A) : M A := fun s => match o with Some a => Some (a, s) | None => None end.

(** [redisAssert]. *)
Definition redisAssert (b : bool) : M unit := if b then mret tt else crash.

Definition get_db (id : Z) : M redisDb := fun s => match rd (dbs s) id with Some d => Some (d, s) | None => None end.
Definition update_db (id : Z) (f : redisDb -> redisDb) : M unit := fun s =>
  match rd (dbs s) id with
  | Some d => Some (tt, set_dbs (fun l => <[Z.to_nat id := f d]> l) s)
  | None => None
  end.
Definition get_client (c : cid) : M client := fun s =>
  match clients s !! c with Some x => Some (x, s) | None => None end.
Definition update_client (c : cid) (f : client -> client) : M unit := fun s =>
  match clients s !! c with
  | Some x => Some (tt, set_clients (<[c := f x]>) s)
  | None => None
  end.

(** [for] over a list. *)
Fixpoint mfor {A} (l : list A) (f : A -> M unit) : M unit :=
  match l with
  | [] => mret tt
  | x :: l => _ ← f x; mfor l f
  end.

(** The sum of the results. *)
Fixpoint mfor_sum {A} (l : list A) (f : A -> M Z) : M Z :=
  match l with
  | [] => mret 0
  | x :: l => n ← f x; m ← mfor_sum l f; mret (n + m)
  end.

(** ** Writing replies *)

Definition addReply (c : cid) (r : reply) : M unit := update_client c (set_replies (fun l => l ++ [r])).
Definition addReplyLongLong (c : cid) (n : Z) : M unit := addReply c (RInt n).
Definition addReplyMultiBulkLen (c : cid) (n : Z) : M unit := addReply c (RMulti n).
Definition addReplyStatus (c : cid) (s : bytes) : M unit := addReply c (RStatus s).

(** Newlines would break the protocol. *)
Definition no_newline (s : bytes) : bytes :=
  map (fun x => if (x =? 13) || (x =? 10) then 32 else x) s.

Definition addReplyError (c : cid) (e : bytes) : M unit := addReply c (RError (zs "ERR " ++ e)).
Definition addReplyErrorFormat (c : cid) (e : bytes) : M unit :=
  addReply c (RError (zs "ERR " ++ no_newline e)).

(** [addReplyBulk] on a string object. *)
Definition addReplyBulk (c : cid) (o : robj) : M unit :=
  b ← lift (getDecodedObject o); addReply c (RBulk b).
Definition addReplyBulkRaw (c : cid) (b : bytes) : M unit := addReply c (RBulk b).

(** Shared replies. *)
Definition shared_ok : reply := RStatus (zs "OK").
Definition shared_czero : reply := RInt 0.
Definition shared_cone : reply := RInt 1.
Definition shared_nullbulk : reply := RNullBulk.
Definition shared_emptybulk : reply := RBulk [].
Definition shared_nullmultibulk : reply := RNullMulti.
Definition shared_queued : reply := RStatus (zs "QUEUED").
Definition shared_wrongtypeerr : reply :=
  RError (zs "WRONGTYPE Operation against a key holding the wrong kind of value").
Definition shared_nokeyerr : reply := RError (zs "ERR no such key").
Definition shared_syntaxerr : reply := RError (zs "ERR syntax error").
Definition shared_sameobjecterr : reply := RError (zs "ERR source and destination objects are the same").
Definition shared_outofrangeerr : reply := RError (zs "ERR index out of range").
Definition shared_execaborterr : reply :=
  RError (zs "EXECABORT Transaction discarded because of previous errors.").

Definition checkType (c : cid) (o : robj) (t : rtype) : M bool :=
  if bool_decide (obj_type o = t) then mret false
  else _ ← addReply c shared_wrongtypeerr; mret true.

(** [None]: an error was sent. *)
Definition getLongLongFromObjectOrReply (c : cid) (o : option robj) (msg : option bytes) : M (option Z) :=
  r ← lift (getLongLongFromObject o);
  match r with
  | None =>
      _ ← addReplyError c (match msg with
                           | Some m => m
                           | None => zs "value is not an integer or out of range"
                           end);
      mret None
  | Some v => mret (Some v)
  end.

Definition getLongFromObjectOrReply (c : cid) (o : option robj) (msg : option bytes) : M (option Z) :=
  r ← getLongLongFromObjectOrReply c o msg;
  match r with
  | None => mret None
  | Some value =>
      if (value <? LLONG_MIN) || (value >? LLONG_MAX) then
        _ ← addReplyError c (match msg with Some m => m | None => zs "value is out of range" end);
        mret None
      else mret (Some value)
  end.

Definition client_db (c : cid) : M Z := x ← get_client c; mret (db x).
Definition client_argv (c : cid) : M (list bytes) := x ← get_client c; mret (argv x).

(** [c->argv[i]]; an access past [argc] is not defined. *)
Definition arg (c : cid) (i : Z) : M bytes := l ← client_argv c; lift (rd l i).

(** The C string at the start of an sds, and [!strcasecmp(s, w)]. *)
Definition cstr (s : bytes) : bytes := default [] (c_str (s ++ [0])).
Definition strcasecmp_eq (s w : bytes) : bool := strcase_eq (cstr s) w.

(** ** Reasoning about the monad *)

(** Total correctness: the command ends without a failed assertion, and [Q]. *)
Definition wp {A} (m : M A) (Q : A -> server -> Prop) (s : server) : Prop :=
  match m s with Some (a, s') => Q a s' | None => False end.

Section wp.
Context {A B : Type}.
Implicit Types (m : M A) (s : server).

Lemma wp_ret (a : A) Q s : Q a s -> wp (mret a) Q s.
Proof. done. Qed.

Lemma wp_bind m (f : A -> M B) Q s : wp m (fun a s' => wp (f a) Q s') s -> wp (m ≫= f) Q s.
Proof. unfold wp, mbind, M_bind. by destruct (m s) as [[a s']|]. Qed.

Lemma wp_mono m (P Q : A -> server -> Prop) s :
  wp m P s -> (forall a s', P a s' -> Q a s') -> wp m Q s.
Proof. unfold wp. destruct (m s) as [[a s']|]; auto. Qed.

Lemma wp_lift (o : option A) Q s a : o = Some a -> Q a s -> wp (lift o) Q s.
Proof. by intros ->. Qed.

Lemma wp_run m Q s : wp m Q s <-> exists a s', m s = Some (a, s') /\ Q a s'.
Proof.
  unfold wp. destruct (m s) as [[a s']|]; split.
  - eauto.
  - by intros (a' & s'' & [= -> ->] & ?).
  - done.
  - by intros (a' & s'' & ? & _).
Qed.
End wp.

Lemma wp_gets {A} (f : server -> A) (Q : A -> server -> Prop) s : Q (f s) s -> wp (gets f) Q s.
Proof. done. Qed.

Lemma wp_modify f (Q : unit -> server -> Prop) s : Q tt (f s) -> wp (modify f) Q s.
Proof. done. Qed.

Lemma wp_get_db id (Q : redisDb -> server -> Prop) s d :
  rd (dbs s) id = Some d -> Q d s -> wp (get_db id) Q s.
Proof. unfold wp, get_db. by intros ->. Qed.

Lemma wp_update_db id f (Q : unit -> server -> Prop) s d :
  rd (dbs s) id = Some d -> Q tt (set_dbs (fun l => <[Z.to_nat id := f d]> l) s) ->
  wp (update_db id f) Q s.
Proof. unfold wp, update_db. by intros ->. Qed.

Lemma wp_get_client c (Q : client -> server -> Prop) s x :
  clients s !! c = Some x -> Q x s -> wp (get_client c) Q s.
Proof. unfold wp, get_client. by intros ->. Qed.

Lemma wp_update_client c f (Q : unit -> server -> Prop) s x :
  clients s !! c = Some x -> Q tt (set_clients (<[c := f x]>) s) -> wp (update_client c f) Q s.
Proof. unfold wp, update_client. by intros ->. Qed.
