(* ===== verification/Pubsub.v ===== *)
(** * Publish/Subscribe and keyspace notifications (src/redis-2.8.19/src/pubsub.c,
    notify.c)

    Channels and patterns are byte strings. A dictionary iteration visits the
    keys in the order of [elements]; which order that is does not matter here. *)
From S2P Require Import Prelude Util Glob Object Server.
Open Scope Z_scope.

(** Deleting the first node that holds [x]. *)
Fixpoint del_first {A} `{EqDecision A} (x : A) (l : list A) : list A :=
  match l with
  | [] => []
  | y :: l => if decide (x = y) then l else y :: del_first x l
  end.

(** [stringmatchlen] on two sds strings, whose buffers end with NUL. *)
Definition sds_match (pattern string : bytes) : option bool :=
  stringmatchlen (pattern ++ [0]) (zlen pattern) (string ++ [0]) (zlen string) false.

Definition subscriptions (x : client) : Z := Z.of_nat (size (channels x)) + zlen (patterns x).

Definition clientSubscriptionsCount (c : cid) : M Z := x ← get_client c; mret (subscriptions x).

Definition pubsubSubscribeChannel (c : cid) (channel : bytes) : M Z :=
  x ← get_client c;
  retval ← (if decide (channel ∈ channels x) then mret 0
            else
              _ ← update_client c (set_channels (union {[channel]}));
              _ ← modify (set_pubsub_channels (fun m =>
                    <[channel := default [] (m !! channel) ++ [c]]> m));
              mret 1);
  _ ← addReply c (RMulti 3);
  _ ← addReply c (RBulk (zs "subscribe"));
  _ ← addReply c (RBulk channel);
  n ← clientSubscriptionsCount c;
  _ ← addReplyLongLong c n;
  mret retval.

Definition pubsubUnsubscribeChannel (c : cid) (channel : bytes) (notify : bool) : M Z :=
  x ← get_client c;
  retval ← (if decide (channel ∈ channels x) then
              _ ← update_client c (set_channels (fun m => m ∖ {[channel]}));
              m ← gets pubsub_channels;
              match m !! channel with
              | None => crash
              | Some clients =>
                  _ ← redisAssert (bool_decide (c ∈ clients));
                  let clients := del_first c clients in
                  _ ← modify (set_pubsub_channels
                        (if bool_decide (clients = []) then delete channel
                         else insert channel clients));
                  mret 1
              end
            else mret 0);
  _ ← (if notify : bool then
         _ ← addReply c (RMulti 3);
         _ ← addReply c (RBulk (zs "unsubscribe"));
         _ ← addReply c (RBulk channel);
         n ← clientSubscriptionsCount c;
         addReplyLongLong c n
       else mret tt);
  mret retval.

Definition pubsubSubscribePattern (c : cid) (pattern : bytes) : M Z :=
  x ← get_client c;
  retval ← (if decide (pattern ∈ patterns x) then mret 0
            else
              _ ← update_client c (set_patterns (fun l => l ++ [pattern]));
              _ ← modify (set_pubsub_patterns (fun l => l ++ [(c, pattern)]));
              mret 1);
  _ ← addReply c (RMulti 3);
  _ ← addReply c (RBulk (zs "psubscribe"));
  _ ← addReply c (RBulk pattern);
  n ← clientSubscriptionsCount c;
  _ ← addReplyLongLong c n;
  mret retval.

Definition pubsubUnsubscribePattern (c : cid) (pattern : bytes) (notify : bool) : M Z :=
  x ← get_client c;
  retval ← (if decide (pattern ∈ patterns x) then
              _ ← update_client c (set_patterns (del_first pattern));
              l ← gets pubsub_patterns;
              _ ← redisAssert (bool_decide ((c, pattern) ∈ l));
              _ ← modify (set_pubsub_patterns (del_first (c, pattern)));
              mret 1
            else mret 0);
  _ ← (if notify : bool then
         _ ← addReply c (RMulti 3);
         _ ← addReply c (RBulk (zs "punsubscribe"));
         _ ← addReply c (RBulk pattern);
         n ← clientSubscriptionsCount c;
         addReplyLongLong c n
       else mret tt);
  mret retval.

(** The reply to an unsubscription from nothing. *)
Definition nothing_reply (c : cid) (kind : bytes) : M unit :=
  _ ← addReply c (RMulti 3);
  _ ← addReply c (RBulk kind);
  _ ← addReply c shared_nullbulk;
  n ← clientSubscriptionsCount c;
  addReplyLongLong c n.

Definition pubsubUnsubscribeAllChannels (c : cid) (notify : bool) : M Z :=
  x ← get_client c;
  count ← mfor_sum (elements (channels x)) (fun channel => pubsubUnsubscribeChannel c channel notify);
  _ ← (if notify && (count =? 0) then nothing_reply c (zs "unsubscribe") else mret tt);
  mret count.

Definition pubsubUnsubscribeAllPatterns (c : cid) (notify : bool) : M Z :=
  x ← get_client c;
  count ← mfor_sum (patterns x) (fun pattern => pubsubUnsubscribePattern c pattern notify);
  _ ← (if notify && (count =? 0) then nothing_reply c (zs "punsubscribe") else mret tt);
  mret count.

Definition send_message (channel message : bytes) (c : cid) : M unit :=
  _ ← addReply c (RMulti 3);
  _ ← addReply c (RBulk (zs "message"));
  _ ← addReply c (RBulk channel);
  addReply c (RBulk message).

Definition send_pmessage (channel message : bytes) (p : cid * bytes) : M Z :=
  b ← lift (sds_match p.2 channel);
  if b : bool then
    _ ← addReply p.1 (RMulti 4);
    _ ← addReply p.1 (RBulk (zs "pmessage"));
    _ ← addReply p.1 (RBulk p.2);
    _ ← addReply p.1 (RBulk channel);
    _ ← addReply p.1 (RBulk message);
    mret 1
  else mret 0.

Definition pubsubPublishMessage (channel message : bytes) : M Z :=
  m ← gets pubsub_channels;
  let clients := default [] (m !! channel) in
  _ ← mfor clients (send_message channel message);
  l ← gets pubsub_patterns;
  n ← mfor_sum l (send_pmessage channel message);
  mret (zlen clients + n).

(** ** Commands *)

Definition clear_PUBSUB (c : cid) : M unit :=
  n ← clientSubscriptionsCount c;
  if n =? 0 then update_client c (set_flags (set_PUBSUB false)) else mret tt.

Definition subscribeCommand (c : cid) : M unit :=
  l ← client_argv c;
  _ ← mfor_sum (drop 1 l) (pubsubSubscribeChannel c);
  update_client c (set_flags (set_PUBSUB true)).

Definition unsubscribeCommand (c : cid) : M unit :=
  l ← client_argv c;
  _ ← (if zlen l =? 1 then pubsubUnsubscribeAllChannels c true
       else mfor_sum (drop 1 l) (fun channel => pubsubUnsubscribeChannel c channel true));
  clear_PUBSUB c.

Definition psubscribeCommand (c : cid) : M unit :=
  l ← client_argv c;
  _ ← mfor_sum (drop 1 l) (pubsubSubscribePattern c);
  update_client c (set_flags (set_PUBSUB true)).

Definition punsubscribeCommand (c : cid) : M unit :=
  l ← client_argv c;
  _ ← (if zlen l =? 1 then pubsubUnsubscribeAllPatterns c true
       else mfor_sum (drop 1 l) (fun pattern => pubsubUnsubscribePattern c pattern true));
  clear_PUBSUB c.

Definition forceCommandPropagation (c : cid) (repl aof : bool) : M unit :=
  update_client c (set_flags (fun f =>
    set_FORCE (REDIS_FORCE_REPL f || repl) (REDIS_FORCE_AOF f || aof) f)).

Definition publishCommand (c : cid) : M unit :=
  channel ← arg c 1;
  message ← arg c 2;
  receivers ← pubsubPublishMessage channel message;
  _ ← forceCommandPropagation c true false;
  addReplyLongLong c receivers.

Definition pubsub_channels_loop (c : cid) (pat : option bytes) (l : list bytes) : M Z :=
  mfor_sum l (fun channel =>
    b ← match pat with None => mret true | Some p => lift (sds_match p channel) end;
    if b : bool then _ ← addReply c (RBulk channel); mret 1 else mret 0).

(** The deferred length is written in front of the elements. *)
Definition set_deferred_len (c : cid) (pos : nat) (n : Z) : M unit :=
  update_client c (set_replies (fun l => take pos l ++ RMulti n :: drop pos l)).

Definition pubsubCommand (c : cid) : M unit :=
  l ← client_argv c;
  sub ← arg c 1;
  let argc := zlen l in
  if strcasecmp_eq sub (zs "channels") && ((argc =? 2) || (argc =? 3)) then
    pat ← (if argc =? 2 then mret None else p ← arg c 2; mret (Some p));
    x ← get_client c;
    m ← gets pubsub_channels;
    mblen ← pubsub_channels_loop c pat (map_to_list m).*1;
    set_deferred_len c (length (replies x)) mblen
  else if strcasecmp_eq sub (zs "numsub") && (argc >=? 2) then
    _ ← addReplyMultiBulkLen c ((argc - 2) * 2);
    m ← gets pubsub_channels;
    mfor (drop 2 l) (fun channel =>
      _ ← addReply c (RBulk channel);
      addReplyLongLong c (zlen (default [] (m !! channel))))
  else if strcasecmp_eq sub (zs "numpat") && (argc =? 2) then
    p ← gets pubsub_patterns;
    addReplyLongLong c (zlen p)
  else
    addReplyErrorFormat c (zs "Unknown PUBSUB subcommand or wrong number of arguments for '" ++
      cstr sub ++ zs "'").

(** ** Keyspace notifications *)

Definition REDIS_NOTIFY_KEYSPACE : Z := 1.
Definition REDIS_NOTIFY_KEYEVENT : Z := 2.
Definition REDIS_NOTIFY_GENERIC : Z := 4.
Definition REDIS_NOTIFY_STRING : Z := 8.
Definition REDIS_NOTIFY_LIST : Z := 16.
Definition REDIS_NOTIFY_SET : Z := 32.
Definition REDIS_NOTIFY_HASH : Z := 64.
Definition REDIS_NOTIFY_ZSET : Z := 128.
Definition REDIS_NOTIFY_EXPIRED : Z := 256.
Definition REDIS_NOTIFY_EVICTED : Z := 512.
Definition REDIS_NOTIFY_ALL : Z := 1020.

(** The classes and the letters that select them. *)
Definition notify_classes : list (Z * Z) :=
  [(103, REDIS_NOTIFY_GENERIC); (36, REDIS_NOTIFY_STRING); (108, REDIS_NOTIFY_LIST);
   (115, REDIS_NOTIFY_SET); (104, REDIS_NOTIFY_HASH); (122, REDIS_NOTIFY_ZSET);
   (120, REDIS_NOTIFY_EXPIRED); (101, REDIS_NOTIFY_EVICTED)].

Definition class_flag (c : Z) : option Z :=
  if c =? 65 then Some REDIS_NOTIFY_ALL
  else if c =? 75 then Some REDIS_NOTIFY_KEYSPACE
  else if c =? 69 then Some REDIS_NOTIFY_KEYEVENT
  else snd <$> list_find (fun p => p.1 = c) notify_classes ≫= fun p => Some p.2.

Fixpoint flags_loop (p : bytes) (flags : Z) : Z :=
  match p with
  | [] => flags
  | c :: p => match class_flag c with Some f => flags_loop p (Z.lor flags f) | None => -1 end
  end.

(** [classes] is a C string: its characters, without the terminator. *)
Definition keyspaceEventsStringToFlags (classes : bytes) : Z := flags_loop classes 0.

Definition has (flags f : Z) : bool := negb (Z.land flags f =? 0).

Definition keyspaceEventsFlagsToString (flags : Z) : bytes :=
  (if Z.land flags REDIS_NOTIFY_ALL =? REDIS_NOTIFY_ALL then [65]
   else flat_map (fun p : Z * Z => if has flags p.2 then [p.1] else []) notify_classes) ++
  (if has flags REDIS_NOTIFY_KEYSPACE then [75] else []) ++
  (if has flags REDIS_NOTIFY_KEYEVENT then [69] else []).

Definition notifyKeyspaceEvent (type : Z) (event key : bytes) (dbid : Z) : M unit :=
  n ← gets notify_keyspace_events;
  if negb (has n type) then mret tt
  else
    _ ← (if has n REDIS_NOTIFY_KEYSPACE then
           d ← lift (ll_str dbid);
           _ ← pubsubPublishMessage (zs "__keyspace@" ++ d ++ zs "__:" ++ key) event; mret tt
         else mret tt);
    if has n REDIS_NOTIFY_KEYEVENT then
      d ← lift (ll_str dbid);
      _ ← pubsubPublishMessage (zs "__keyevent@" ++ d ++ zs "__:" ++ event) key; mret tt
    else mret tt.

Example flags_AKE : keyspaceEventsStringToFlags (zs "AKE") = 1023.
Proof. reflexivity. Qed.
Example flags_gx : keyspaceEventsStringToFlags (zs "gxK") = 261.
Proof. reflexivity. Qed.
