(* ===== verification/Watch.v ===== *)
(** * WATCH and the bookkeeping of transactions (src/redis-2.8.19/src/multi.c)

    Every database maps a watched key to the clients that watch it; every client
    lists the keys it watches. EXEC itself is with the dispatcher, in Exec.v. *)
From S2P Require Import Prelude Util Object Server Pubsub.
Open Scope Z_scope.

Definition initClientMultiState (c : cid) : M unit := update_client c (set_mstate (fun _ => [])).

Definition queueMultiCommand (c : cid) : M unit :=
  l ← client_argv c; update_client c (set_mstate (fun q => q ++ [l])).

Definition watchForKey (c : cid) (key : bytes) : M unit :=
  x ← get_client c;
  if decide ((db x, key) ∈ watched x) then mret tt
  else
    d ← get_db (db x);
    _ ← update_db (db x) (set_watched_keys (fun m => <[key := default [] (m !! key) ++ [c]]> m));
    update_client c (set_watched (fun l => l ++ [(db x, key)])).

(** One turn of the loop of [unwatchAllKeys]. *)
Definition unwatch_key (c : cid) (wk : Z * bytes) : M unit :=
  d ← get_db wk.1;
  match watched_keys d !! wk.2 with
  | None => crash
  | Some clients =>
      _ ← redisAssert (bool_decide (c ∈ clients));
      let clients := del_first c clients in
      _ ← update_db wk.1 (set_watched_keys (fun m =>
            if bool_decide (clients = []) then delete wk.2 m else <[wk.2 := clients]> m));
      update_client c (set_watched (del_first wk))
  end.

Definition unwatchAllKeys (c : cid) : M unit :=
  x ← get_client c; mfor (watched x) (unwatch_key c).

Definition touchWatchedKey (id : Z) (key : bytes) : M unit :=
  d ← get_db id;
  match watched_keys d !! key with
  | None => mret tt
  | Some clients => mfor clients (fun c => update_client c (set_flags (set_DIRTY_CAS true)))
  end.

(** [None] is the [dbid] -1. *)
Definition touchWatchedKeysOnFlush (dbid : option Z) : M unit :=
  m ← gets clients;
  mfor (map_to_list m).*1 (fun c =>
    x ← get_client c;
    mfor (watched x) (fun wk =>
      if (match dbid with None => true | Some id => wk.1 =? id end) then
        d ← get_db wk.1;
        match dict d !! wk.2 with
        | Some _ => update_client c (set_flags (set_DIRTY_CAS true))
        | None => mret tt
        end
      else mret tt)).

Definition discardTransaction (c : cid) : M unit :=
  _ ← initClientMultiState c;
  _ ← update_client c (set_flags (fun f => set_MULTI false (set_DIRTY_CAS false (set_DIRTY_EXEC false f))));
  unwatchAllKeys c.

Definition flagTransaction (c : cid) : M unit :=
  update_client c (set_flags (fun f => if REDIS_MULTI f then set_DIRTY_EXEC true f else f)).

Definition multiCommand (c : cid) : M unit :=
  x ← get_client c;
  if REDIS_MULTI (flags x) then addReplyError c (zs "MULTI calls can not be nested")
  else
    _ ← update_client c (set_flags (set_MULTI true));
    addReply c shared_ok.

Definition discardCommand (c : cid) : M unit :=
  x ← get_client c;
  if negb (REDIS_MULTI (flags x)) then addReplyError c (zs "DISCARD without MULTI")
  else
    _ ← discardTransaction c;
    addReply c shared_ok.

Definition watchCommand (c : cid) : M unit :=
  x ← get_client c;
  if REDIS_MULTI (flags x) then addReplyError c (zs "WATCH inside MULTI is not allowed")
  else
    _ ← mfor (drop 1 (argv x)) (watchForKey c);
    addReply c shared_ok.

Definition unwatchCommand (c : cid) : M unit :=
  _ ← unwatchAllKeys c;
  _ ← update_client c (set_flags (set_DIRTY_CAS false));
  addReply c shared_ok.
