(* ===== verification/Db.v ===== *)
(** * The key space (src/redis-2.8.19/src/db.c)

    Lookups with lazy expiration, the operations on keys, and the commands that
    do not depend on the type of the value. Random numbers and the cursor scan
    over the table are in other files; shutting down is not modelled. *)
From S2P Require Import Prelude Util Glob Object Server Pubsub Watch.
Open Scope Z_scope.

Definition dbnum : M Z := l ← gets dbs; mret (zlen l).

(** [dictFind] in the dictionary of the keys. *)
Definition lookupKey (id : Z) (key : bytes) : M (option robj) :=
  d ← get_db id; mret (dict d !! key).

Definition signalModifiedKey (id : Z) (key : bytes) : M unit := touchWatchedKey id key.

Definition signalListAsReady (id : Z) (key : bytes) : M unit :=
  d ← get_db id;
  match blocking_keys d !! key with
  | None => mret tt
  | Some _ =>
      if decide (key ∈ ready d) then mret tt
      else
        _ ← modify (set_ready_keys (fun l => l ++ [(id, key)]));
        update_db id (set_ready (union {[key]}))
  end.

Definition dbAdd (id : Z) (key : bytes) (val : robj) : M unit :=
  d ← get_db id;
  _ ← redisAssert (bool_decide (dict d !! key = None));
  _ ← update_db id (set_dict (insert key val));
  if bool_decide (obj_type val = REDIS_LIST) then signalListAsReady id key else mret tt.

Definition dbOverwrite (id : Z) (key : bytes) (val : robj) : M unit :=
  d ← get_db id;
  _ ← redisAssert (negb (bool_decide (dict d !! key = None)));
  update_db id (set_dict (insert key val)).

Definition dbExists (id : Z) (key : bytes) : M bool :=
  o ← lookupKey id key; mret (negb (bool_decide (o = None))).

Definition dbDelete (id : Z) (key : bytes) : M bool :=
  _ ← update_db id (set_expires (delete key));
  o ← lookupKey id key;
  match o with
  | Some _ => _ ← update_db id (set_dict (delete key)); mret true
  | None => mret false
  end.

(** ** Expires *)

Definition removeExpire (id : Z) (key : bytes) : M bool :=
  d ← get_db id;
  _ ← redisAssert (negb (bool_decide (dict d !! key = None)));
  match expires d !! key with
  | Some _ => _ ← update_db id (set_expires (delete key)); mret true
  | None => mret false
  end.

Definition setExpire (id : Z) (key : bytes) (when : Z) : M unit :=
  d ← get_db id;
  _ ← redisAssert (negb (bool_decide (dict d !! key = None)));
  update_db id (set_expires (insert key when)).

Definition getExpire (id : Z) (key : bytes) : M Z :=
  d ← get_db id;
  match expires d !! key with
  | None => mret (-1)
  | Some when =>
      _ ← redisAssert (negb (bool_decide (dict d !! key = None)));
      mret when
  end.

Definition propagateExpire (id : Z) (key : bytes) : M unit :=
  aof ← gets aof_on;
  modify (set_fed (fun l => l ++ [mkProp id [zs "DEL"; key] aof true])).

Definition expireIfNeeded (id : Z) (key : bytes) : M bool :=
  when ← getExpire id key;
  if when <? 0 then mret false
  else
    is_loading ← gets loading;
    if is_loading : bool then mret false
    else
      now ← gets (fun s => match lua_time_start s with Some t => t | None => mstime s end);
      slave ← gets masterhost;
      if slave : bool then mret (now >? when)
      else if now <=? when then mret false
      else
        _ ← modify (set_stats 0 0 1 0);
        _ ← propagateExpire id key;
        _ ← notifyKeyspaceEvent REDIS_NOTIFY_EXPIRED (zs "expired") key id;
        dbDelete id key.

(** ** Lookups *)

Definition lookupKeyRead (id : Z) (key : bytes) : M (option robj) :=
  _ ← expireIfNeeded id key;
  val ← lookupKey id key;
  _ ← modify (match val with None => set_stats 0 1 0 0 | Some _ => set_stats 1 0 0 0 end);
  mret val.

Definition lookupKeyWrite (id : Z) (key : bytes) : M (option robj) :=
  _ ← expireIfNeeded id key;
  lookupKey id key.

Definition lookupKeyReadOrReply (c : cid) (key : bytes) (r : reply) : M (option robj) :=
  id ← client_db c;
  o ← lookupKeyRead id key;
  _ ← match o with None => addReply c r | Some _ => mret tt end;
  mret o.

Definition lookupKeyWriteOrReply (c : cid) (key : bytes) (r : reply) : M (option robj) :=
  id ← client_db c;
  o ← lookupKeyWrite id key;
  _ ← match o with None => addReply c r | Some _ => mret tt end;
  mret o.

Definition setKey (id : Z) (key : bytes) (val : robj) : M unit :=
  o ← lookupKeyWrite id key;
  _ ← match o with None => dbAdd id key val | Some _ => dbOverwrite id key val end;
  _ ← removeExpire id key;
  signalModifiedKey id key.

(** The unshared raw copy that a command is about to modify; the caller stores
    the modified bytes with [store_string]. *)
Definition dbUnshareStringValue (id : Z) (key : bytes) (o : robj) : M bytes :=
  _ ← redisAssert (bool_decide (obj_type o = REDIS_STRING));
  match o with
  | StrRaw s => mret s
  | _ => s ← lift (getDecodedObject o); _ ← dbOverwrite id key (StrRaw s); mret s
  end.

(** The effect of writing through [o->ptr] on the stored object. *)
Definition store_string (id : Z) (key : bytes) (s : bytes) : M unit :=
  update_db id (set_dict (insert key (StrRaw s))).

Definition selectDb (c : cid) (id : Z) : M bool :=
  n ← dbnum;
  if (id <? 0) || (id >=? n) then mret false
  else _ ← update_client c (set_db id); mret true.

Definition emptyDb : M Z :=
  l ← gets dbs;
  _ ← modify (set_dbs (map (fun d => set_dict (fun _ => ∅) (set_expires (fun _ => ∅) d))));
  mret (foldr (fun d n => Z.of_nat (size (dict d)) + n) 0 l).

(** ** Commands on keys *)

Definition flushdbCommand (c : cid) : M unit :=
  id ← client_db c;
  d ← get_db id;
  _ ← modify (set_dirty (fun n => n + Z.of_nat (size (dict d))));
  _ ← touchWatchedKeysOnFlush (Some id);
  _ ← update_db id (set_dict (fun _ => ∅));
  _ ← update_db id (set_expires (fun _ => ∅));
  addReply c shared_ok.

(** Without the background save that is killed and the snapshot that is written,
    which do not change the key space. *)
Definition flushallCommand (c : cid) : M unit :=
  _ ← touchWatchedKeysOnFlush None;
  n ← emptyDb;
  _ ← modify (set_dirty (fun d => d + n));
  _ ← addReply c shared_ok;
  modify (set_dirty (fun d => d + 1)).

Definition delCommand (c : cid) : M unit :=
  id ← client_db c;
  l ← client_argv c;
  deleted ← mfor_sum (drop 1 l) (fun key =>
    _ ← expireIfNeeded id key;
    b ← dbDelete id key;
    if b : bool then
      _ ← signalModifiedKey id key;
      _ ← notifyKeyspaceEvent REDIS_NOTIFY_GENERIC (zs "del") key id;
      _ ← modify (set_dirty (fun n => n + 1));
      mret 1
    else mret 0);
  addReplyLongLong c deleted.

Definition existsCommand (c : cid) : M unit :=
  id ← client_db c;
  key ← arg c 1;
  _ ← expireIfNeeded id key;
  b ← dbExists id key;
  addReply c (if b : bool then shared_cone else shared_czero).

Definition selectCommand (c : cid) : M unit :=
  a ← arg c 1;
  id ← getLongFromObjectOrReply c (Some (StrRaw a)) (Some (zs "invalid DB index"));
  match id with
  | None => mret tt
  | Some id =>
      b ← selectDb c (s32 id);
      if b : bool then addReply c shared_ok else addReplyError c (zs "invalid DB index")
  end.

Definition keys_loop (c : cid) (id : Z) (pattern : bytes) (allkeys : bool) (l : list bytes) : M Z :=
  mfor_sum l (fun key =>
    b ← (if allkeys then mret true else lift (sds_match pattern key));
    if b : bool then
      e ← expireIfNeeded id key;
      if e : bool then mret 0 else _ ← addReply c (RBulk key); mret 1
    else mret 0).

Definition keysCommand (c : cid) : M unit :=
  id ← client_db c;
  pattern ← arg c 1;
  x ← get_client c;
  d ← get_db id;
  let allkeys := bool_decide (cstr pattern = [42]) in
  numkeys ← keys_loop c id pattern allkeys (map_to_list (dict d)).*1;
  set_deferred_len c (length (replies x)) numkeys.

Definition dbsizeCommand (c : cid) : M unit :=
  id ← client_db c; d ← get_db id; addReplyLongLong c (Z.of_nat (size (dict d))).

Definition typeCommand (c : cid) : M unit :=
  id ← client_db c;
  key ← arg c 1;
  o ← lookupKeyRead id key;
  addReplyStatus c
    match o with
    | None => zs "none"
    | Some o =>
        match obj_type o with
        | REDIS_STRING => zs "string"
        | REDIS_LIST => zs "list"
        | REDIS_SET => zs "set"
        | REDIS_ZSET => zs "zset"
        | REDIS_HASH => zs "hash"
        end
    end.

Definition renameGenericCommand (c : cid) (nx : bool) : M unit :=
  src ← arg c 1;
  dst ← arg c 2;
  if decide (src = dst) then addReply c shared_sameobjecterr
  else
    o ← lookupKeyWriteOrReply c src shared_nokeyerr;
    match o with
    | None => mret tt
    | Some o =>
        id ← client_db c;
        expire ← getExpire id src;
        old ← lookupKeyWrite id dst;
        if nx && negb (bool_decide (old = None)) then addReply c shared_czero
        else
          _ ← match old with None => mret tt | Some _ => _ ← dbDelete id dst; mret tt end;
          _ ← dbAdd id dst o;
          _ ← (if negb (expire =? -1) then setExpire id dst expire else mret tt);
          _ ← dbDelete id src;
          _ ← signalModifiedKey id src;
          _ ← signalModifiedKey id dst;
          _ ← notifyKeyspaceEvent REDIS_NOTIFY_GENERIC (zs "rename_from") src id;
          _ ← notifyKeyspaceEvent REDIS_NOTIFY_GENERIC (zs "rename_to") dst id;
          _ ← modify (set_dirty (fun n => n + 1));
          addReply c (if nx then shared_cone else shared_ok)
    end.

Definition renameCommand (c : cid) : M unit := renameGenericCommand c false.
Definition renamenxCommand (c : cid) : M unit := renameGenericCommand c true.

Definition moveCommand (c : cid) : M unit :=
  key ← arg c 1;
  a ← arg c 2;
  srcid ← client_db c;
  r ← lift (getLongLongFromObject (Some (StrRaw a)));
  ok ← match r with
       | None => mret false
       | Some dbid =>
           if (dbid <? INT32_MIN) || (dbid >? INT32_MAX) then mret false else selectDb c dbid
       end;
  if negb ok then addReply c shared_outofrangeerr
  else
    dst ← client_db c;
    _ ← selectDb c srcid;
    if srcid =? dst then addReply c shared_sameobjecterr
    else
      o ← lookupKeyWrite srcid key;
      match o with
      | None => addReply c shared_czero
      | Some o =>
          t ← lookupKeyWrite dst key;
          match t with
          | Some _ => addReply c shared_czero
          | None =>
              _ ← dbAdd dst key o;
              _ ← dbDelete srcid key;
              _ ← modify (set_dirty (fun n => n + 1));
              addReply c shared_cone
          end
      end.

(** ** Commands on expires *)

Inductive time_unit := UNIT_SECONDS | UNIT_MILLISECONDS.

Definition rewriteClientCommandVector (c : cid) (l : list bytes) : M unit := update_client c (set_argv l).

(** The signed overflows of [when] wrap around, as compiled. *)
Definition expireGenericCommand (c : cid) (basetime : Z) (u : time_unit) : M unit :=
  id ← client_db c;
  key ← arg c 1;
  param ← arg c 2;
  r ← getLongLongFromObjectOrReply c (Some (StrRaw param)) None;
  match r with
  | None => mret tt
  | Some when =>
      let when := match u with UNIT_SECONDS => s64 (when * 1000) | UNIT_MILLISECONDS => when end in
      let when := s64 (when + basetime) in
      o ← lookupKeyRead id key;
      match o with
      | None => addReply c shared_czero
      | Some _ =>
          now ← gets mstime;
          is_loading ← gets loading;
          slave ← gets masterhost;
          if (when <=? now) && negb is_loading && negb slave then
            b ← dbDelete id key;
            _ ← redisAssert b;
            _ ← modify (set_dirty (fun n => n + 1));
            _ ← rewriteClientCommandVector c [zs "DEL"; key];
            _ ← signalModifiedKey id key;
            _ ← notifyKeyspaceEvent REDIS_NOTIFY_GENERIC (zs "del") key id;
            addReply c shared_cone
          else
            _ ← setExpire id key when;
            _ ← addReply c shared_cone;
            _ ← signalModifiedKey id key;
            _ ← notifyKeyspaceEvent REDIS_NOTIFY_GENERIC (zs "expire") key id;
            modify (set_dirty (fun n => n + 1))
      end
  end.

Definition expireCommand (c : cid) : M unit := now ← gets mstime; expireGenericCommand c now UNIT_SECONDS.
Definition expireatCommand (c : cid) : M unit := expireGenericCommand c 0 UNIT_SECONDS.
Definition pexpireCommand (c : cid) : M unit := now ← gets mstime; expireGenericCommand c now UNIT_MILLISECONDS.
Definition pexpireatCommand (c : cid) : M unit := expireGenericCommand c 0 UNIT_MILLISECONDS.

Definition ttlGenericCommand (c : cid) (output_ms : bool) : M unit :=
  id ← client_db c;
  key ← arg c 1;
  o ← lookupKeyRead id key;
  match o with
  | None => addReplyLongLong c (-2)
  | Some _ =>
      expire ← getExpire id key;
      now ← gets mstime;
      let ttl := if negb (expire =? -1) then
                   let ttl := s64 (expire - now) in if ttl <? 0 then 0 else ttl
                 else -1 in
      addReplyLongLong c
        (if ttl =? -1 then -1 else if output_ms then ttl else Z.quot (s64 (ttl + 500)) 1000)
  end.

Definition ttlCommand (c : cid) : M unit := ttlGenericCommand c false.
Definition pttlCommand (c : cid) : M unit := ttlGenericCommand c true.

Definition persistCommand (c : cid) : M unit :=
  id ← client_db c;
  key ← arg c 1;
  o ← lookupKey id key;
  match o with
  | None => addReply c shared_czero
  | Some _ =>
      b ← removeExpire id key;
      if b : bool then
        _ ← addReply c shared_cone;
        modify (set_dirty (fun n => n + 1))
      else addReply c shared_czero
  end.
