(* ===== verification/TString.v ===== *)
(** * String commands (src/redis-2.8.19/src/t_string.c)

    INCRBYFLOAT is not modelled (C's long double). A value is stored in the
    encoding [tryObjectEncoding] picks; the command that modifies a string in
    place stores the new bytes as a raw string, as the code does. *)
From S2P Require Import Prelude Util Object Server Pubsub Watch Db.
From S2P Require Sds.
Open Scope Z_scope.

(** [true] is REDIS_OK. *)
Definition checkStringLength (c : cid) (size : Z) : M bool :=
  if size >? 512 * 1024 * 1024 then
    _ ← addReplyError c (zs "string exceeds maximum allowed size (512MB)"); mret false
  else mret true.

Record set_flags_t := mkSetFlags { REDIS_SET_NX : bool; REDIS_SET_XX : bool }.
Definition REDIS_SET_NO_FLAGS : set_flags_t := mkSetFlags false false.

(** [expire] in milliseconds; the outer [None]: an error was sent. The product by
    1000 wraps around. [cmd_name] is [c->cmd->name]. *)
Definition parse_expire (c : cid) (cmd_name : bytes) (expire : option bytes) (u : time_unit) :
    M (option (option Z)) :=
  match expire with
  | None => mret (Some None)
  | Some e =>
      r ← getLongLongFromObjectOrReply c (Some (StrRaw e)) None;
      match r with
      | None => mret None
      | Some milliseconds =>
          if milliseconds <=? 0 then
            _ ← addReplyErrorFormat c (zs "invalid expire time in " ++ cmd_name); mret None
          else
            mret (Some (Some (match u with UNIT_SECONDS => s64 (milliseconds * 1000)
                              | UNIT_MILLISECONDS => milliseconds end)))
      end
  end.

(** The condition of NX and XX. *)
Definition set_condition_fails (id : Z) (fl : set_flags_t) (key : bytes) : M bool :=
  a ← (if REDIS_SET_NX fl then o ← lookupKeyWrite id key; mret (negb (bool_decide (o = None)))
       else mret false);
  if a : bool then mret true
  else if REDIS_SET_XX fl then o ← lookupKeyWrite id key; mret (bool_decide (o = None))
  else mret false.

Definition setGenericCommand (c : cid) (cmd_name : bytes) (fl : set_flags_t) (key : bytes) (val : robj)
    (expire : option bytes) (u : time_unit) (ok_reply abort_reply : option reply) : M unit :=
  e ← parse_expire c cmd_name expire u;
  match e with
  | None => mret tt
  | Some milliseconds =>
      id ← client_db c;
      b ← set_condition_fails id fl key;
      if b : bool then addReply c (default shared_nullbulk abort_reply)
      else
        _ ← setKey id key val;
        _ ← modify (set_dirty (fun n => n + 1));
        now ← gets mstime;
        _ ← match milliseconds with
            | Some ms => setExpire id key (s64 (now + ms))
            | None => mret tt
            end;
        _ ← notifyKeyspaceEvent REDIS_NOTIFY_STRING (zs "set") key id;
        _ ← match milliseconds with
            | Some _ => notifyKeyspaceEvent REDIS_NOTIFY_GENERIC (zs "expire") key id
            | None => mret tt
            end;
        addReply c (default shared_ok ok_reply)
  end.

(** [(a[0] == l0 || a[0] == u0) && (a[1] == l1 || a[1] == u1) && a[2] == 0] on an sds. *)
Definition option_is (a : bytes) (l0 u0 l1 u1 : Z) : bool :=
  match a ++ [0] with
  | x :: y :: z :: _ => ((x =? l0) || (x =? u0)) && ((y =? l1) || (y =? u1)) && (z =? 0)
  | _ => false
  end.

Record set_options := mkSetOptions { so_flags : set_flags_t; so_expire : option bytes; so_unit : time_unit }.

(** The arguments from the third on; [None] is the syntax error. *)
Fixpoint set_options_loop (l : list bytes) (o : set_options) : option set_options :=
  match l with
  | [] => Some o
  | a :: next =>
      if option_is a 110 78 120 88 then
        set_options_loop next (mkSetOptions (mkSetFlags true (REDIS_SET_XX (so_flags o))) (so_expire o) (so_unit o))
      else if option_is a 120 88 120 88 then
        set_options_loop next (mkSetOptions (mkSetFlags (REDIS_SET_NX (so_flags o)) true) (so_expire o) (so_unit o))
      else
        match next with
        | e :: next' =>
            if option_is a 101 69 120 88 then
              set_options_loop next' (mkSetOptions (so_flags o) (Some e) UNIT_SECONDS)
            else if option_is a 112 80 120 88 then
              set_options_loop next' (mkSetOptions (so_flags o) (Some e) UNIT_MILLISECONDS)
            else None
        | [] => None
        end
  end.

Definition setCommand (c : cid) : M unit :=
  l ← client_argv c;
  match set_options_loop (drop 3 l) (mkSetOptions REDIS_SET_NO_FLAGS None UNIT_SECONDS) with
  | None => addReply c shared_syntaxerr
  | Some o =>
      key ← arg c 1;
      v ← arg c 2;
      val ← lift (tryObjectEncoding v);
      setGenericCommand c (zs "set") (so_flags o) key val (so_expire o) (so_unit o) None None
  end.

Definition setnxCommand (c : cid) : M unit :=
  key ← arg c 1;
  v ← arg c 2;
  val ← lift (tryObjectEncoding v);
  setGenericCommand c (zs "setnx") (mkSetFlags true false) key val None UNIT_SECONDS
    (Some shared_cone) (Some shared_czero).

Definition setexCommand (c : cid) : M unit :=
  key ← arg c 1;
  e ← arg c 2;
  v ← arg c 3;
  val ← lift (tryObjectEncoding v);
  setGenericCommand c (zs "setex") REDIS_SET_NO_FLAGS key val (Some e) UNIT_SECONDS None None.

Definition psetexCommand (c : cid) : M unit :=
  key ← arg c 1;
  e ← arg c 2;
  v ← arg c 3;
  val ← lift (tryObjectEncoding v);
  setGenericCommand c (zs "psetex") REDIS_SET_NO_FLAGS key val (Some e) UNIT_MILLISECONDS None None.

(** [true] is REDIS_OK. *)
Definition getGenericCommand (c : cid) : M bool :=
  key ← arg c 1;
  o ← lookupKeyReadOrReply c key shared_nullbulk;
  match o with
  | None => mret true
  | Some o =>
      if negb (bool_decide (obj_type o = REDIS_STRING)) then _ ← addReply c shared_wrongtypeerr; mret false
      else _ ← addReplyBulk c o; mret true
  end.

Definition getCommand (c : cid) : M unit := _ ← getGenericCommand c; mret tt.

Definition getsetCommand (c : cid) : M unit :=
  ok ← getGenericCommand c;
  if negb ok then mret tt
  else
    key ← arg c 1;
    v ← arg c 2;
    val ← lift (tryObjectEncoding v);
    id ← client_db c;
    _ ← setKey id key val;
    _ ← notifyKeyspaceEvent REDIS_NOTIFY_STRING (zs "set") key id;
    modify (set_dirty (fun n => n + 1)).

(** [sdsgrowzero], then the copy of [value] at [offset]. A length that an sds
    cannot have exhausts the memory. *)
Definition setrange_bytes (s : bytes) (offset : Z) (value : bytes) : option bytes :=
  let len := offset + zlen value in
  if len >=? Sds.SDS_LIM then None
  else wr_block (s ++ replicate (Z.to_nat (len - zlen s)) 0) offset value.

(** The end of SETRANGE, on the unshared string [s]. *)
Definition setrange_write (c : cid) (id : Z) (key s : bytes) (offset : Z) (value : bytes) : M unit :=
  s ← lift (setrange_bytes s offset value);
  _ ← store_string id key s;
  _ ← signalModifiedKey id key;
  _ ← notifyKeyspaceEvent REDIS_NOTIFY_STRING (zs "setrange") key id;
  _ ← modify (set_dirty (fun n => n + 1));
  addReplyLongLong c (zlen s).

Definition setrangeCommand (c : cid) : M unit :=
  value ← arg c 3;
  a ← arg c 2;
  r ← getLongFromObjectOrReply c (Some (StrRaw a)) None;
  match r with
  | None => mret tt
  | Some offset =>
      if offset <? 0 then addReplyError c (zs "offset is out of range")
      else
        id ← client_db c;
        key ← arg c 1;
        o ← lookupKeyWrite id key;
        match o with
        | None =>
            if zlen value =? 0 then addReply c shared_czero
            else
              ok ← checkStringLength c (s64 (offset + zlen value));
              if negb ok then mret tt
              else
                _ ← dbAdd id key (StrRaw []);
                setrange_write c id key [] offset value
        | Some o =>
            bad ← checkType c o REDIS_STRING;
            if bad : bool then mret tt
            else
              olen ← lift (stringObjectLen o);
              if zlen value =? 0 then addReplyLongLong c olen
              else
                ok ← checkStringLength c (s64 (offset + zlen value));
                if negb ok then mret tt
                else
                  s ← dbUnshareStringValue id key o;
                  setrange_write c id key s offset value
        end
  end.

(** The range of GETRANGE in a string of [len] bytes: the first and last index. *)
Definition getrange_bounds (len start end_ : Z) : Z * Z :=
  let start := if start <? 0 then s64 (len + start) else start in
  let end_ := if end_ <? 0 then s64 (len + end_) else end_ in
  let start := if start <? 0 then 0 else start in
  let end_ := if end_ <? 0 then 0 else end_ in
  let end_ := if u64 end_ >=? len then s64 (len - 1) else end_ in
  (start, end_).

Definition getrange_bytes (str : bytes) (start end_ : Z) : option bytes :=
  let '(start, end_) := getrange_bounds (zlen str) start end_ in
  if (start >? end_) || (zlen str =? 0) then Some []
  else rd_block str start (end_ - start + 1).

Definition getrangeCommand (c : cid) : M unit :=
  a ← arg c 2;
  r ← getLongLongFromObjectOrReply c (Some (StrRaw a)) None;
  match r with
  | None => mret tt
  | Some start =>
      b ← arg c 3;
      r ← getLongLongFromObjectOrReply c (Some (StrRaw b)) None;
      match r with
      | None => mret tt
      | Some end_ =>
          key ← arg c 1;
          o ← lookupKeyReadOrReply c key shared_emptybulk;
          match o with
          | None => mret tt
          | Some o =>
              bad ← checkType c o REDIS_STRING;
              if bad : bool then mret tt
              else
                str ← lift (getDecodedObject o);
                r ← lift (getrange_bytes str start end_);
                addReply c (RBulk r)
          end
      end
  end.

Definition mget_one (c : cid) (key : bytes) : M unit :=
  id ← client_db c;
  o ← lookupKeyRead id key;
  match o with
  | None => addReply c shared_nullbulk
  | Some o =>
      if negb (bool_decide (obj_type o = REDIS_STRING)) then addReply c shared_nullbulk
      else addReplyBulk c o
  end.

Definition mgetCommand (c : cid) : M unit :=
  l ← client_argv c;
  _ ← addReplyMultiBulkLen c (zlen l - 1);
  mfor (drop 1 l) (mget_one c).

(** The arguments of MSET, two by two. *)
Fixpoint pairs_of (l : list bytes) : list (bytes * bytes) :=
  match l with
  | k :: v :: l => (k, v) :: pairs_of l
  | _ => []
  end.

Definition mset_busykeys (id : Z) (l : list (bytes * bytes)) : M Z :=
  mfor_sum l (fun p => o ← lookupKeyWrite id p.1; mret (match o with Some _ => 1 | None => 0 end)).

Definition msetGenericCommand (c : cid) (nx : bool) : M unit :=
  l ← client_argv c;
  if zlen l mod 2 =? 0 then addReplyError c (zs "wrong number of arguments for MSET")
  else
    id ← client_db c;
    let kvs := pairs_of (drop 1 l) in
    busykeys ← (if nx then mset_busykeys id kvs else mret 0);
    if negb (busykeys =? 0) then addReply c shared_czero
    else
      _ ← mfor kvs (fun p =>
        val ← lift (tryObjectEncoding p.2);
        _ ← setKey id p.1 val;
        notifyKeyspaceEvent REDIS_NOTIFY_STRING (zs "set") p.1 id);
      _ ← modify (set_dirty (fun n => n + (zlen l - 1) / 2));
      addReply c (if nx then shared_cone else shared_ok).

Definition msetCommand (c : cid) : M unit := msetGenericCommand c false.
Definition msetnxCommand (c : cid) : M unit := msetGenericCommand c true.

(** The guard of INCRBY; the subtractions do not overflow where they are read. *)
Definition incr_overflows (oldvalue incr : Z) : bool :=
  ((incr <? 0) && (oldvalue <? 0) && (incr <? s64 (LLONG_MIN - oldvalue))) ||
  ((incr >? 0) && (oldvalue >? 0) && (incr >? s64 (LLONG_MAX - oldvalue))).

Definition incrDecrCommand (c : cid) (incr : Z) : M unit :=
  id ← client_db c;
  key ← arg c 1;
  o ← lookupKeyWrite id key;
  bad ← match o with Some o => checkType c o REDIS_STRING | None => mret false end;
  if bad : bool then mret tt
  else
    r ← getLongLongFromObjectOrReply c o None;
    match r with
    | None => mret tt
    | Some oldvalue =>
        if incr_overflows oldvalue incr then
          addReplyError c (zs "increment or decrement would overflow")
        else
          let value := s64 (oldvalue + incr) in
          let new := createStringObjectFromLongLong value in
          _ ← match o with Some _ => dbOverwrite id key new | None => dbAdd id key new end;
          _ ← signalModifiedKey id key;
          _ ← notifyKeyspaceEvent REDIS_NOTIFY_STRING (zs "incrby") key id;
          _ ← modify (set_dirty (fun n => n + 1));
          addReplyLongLong c value
    end.

Definition incrCommand (c : cid) : M unit := incrDecrCommand c 1.
Definition decrCommand (c : cid) : M unit := incrDecrCommand c (-1).

Definition incrbyCommand (c : cid) : M unit :=
  a ← arg c 2;
  r ← getLongLongFromObjectOrReply c (Some (StrRaw a)) None;
  match r with None => mret tt | Some incr => incrDecrCommand c incr end.

(** The negation of LLONG_MIN wraps around. *)
Definition decrbyCommand (c : cid) : M unit :=
  a ← arg c 2;
  r ← getLongLongFromObjectOrReply c (Some (StrRaw a)) None;
  match r with None => mret tt | Some incr => incrDecrCommand c (s64 (- incr)) end.

(** The end of APPEND. *)
Definition append_done (c : cid) (id : Z) (key : bytes) (totlen : Z) : M unit :=
  _ ← signalModifiedKey id key;
  _ ← notifyKeyspaceEvent REDIS_NOTIFY_STRING (zs "append") key id;
  _ ← modify (set_dirty (fun n => n + 1));
  addReplyLongLong c totlen.

Definition appendCommand (c : cid) : M unit :=
  id ← client_db c;
  key ← arg c 1;
  append ← arg c 2;
  o ← lookupKeyWrite id key;
  match o with
  | None =>
      val ← lift (tryObjectEncoding append);
      _ ← dbAdd id key val;
      totlen ← lift (stringObjectLen val);
      append_done c id key totlen
  | Some o =>
      bad ← checkType c o REDIS_STRING;
      if bad : bool then mret tt
      else
        n ← lift (stringObjectLen o);
        ok ← checkStringLength c (n + zlen append);
        if negb ok then mret tt
        else
          s ← dbUnshareStringValue id key o;
          _ ← store_string id key (s ++ append);
          append_done c id key (zlen (s ++ append))
  end.

Definition strlenCommand (c : cid) : M unit :=
  key ← arg c 1;
  o ← lookupKeyReadOrReply c key shared_czero;
  match o with
  | None => mret tt
  | Some o =>
      bad ← checkType c o REDIS_STRING;
      if bad : bool then mret tt
      else n ← lift (stringObjectLen o); addReplyLongLong c n
  end.
