(* ===== verification/Table.v ===== *)
(** * The command table (src/redis-2.8.19/src/redis.c)

    Every command of [redisCommandTable] with its arity, flags and key positions.
    A command whose function another file models has a tag of its own in [proc_t];
    [OtherCommand] names the C function of the others. The key extraction function
    of a few commands and the run time statistics are left out. *)
From S2P Require Import Prelude Util Object Server.
Open Scope Z_scope.

Inductive proc_t :=
  | P_getCommand | P_setCommand | P_setnxCommand | P_setexCommand
  | P_psetexCommand | P_appendCommand | P_strlenCommand | P_delCommand
  | P_existsCommand | P_setrangeCommand | P_getrangeCommand | P_incrCommand
  | P_decrCommand | P_mgetCommand | P_incrbyCommand | P_decrbyCommand
  | P_getsetCommand | P_msetCommand | P_msetnxCommand | P_selectCommand
  | P_moveCommand | P_renameCommand | P_renamenxCommand | P_expireCommand
  | P_expireatCommand | P_pexpireCommand | P_pexpireatCommand | P_keysCommand
  | P_dbsizeCommand | P_authCommand | P_pingCommand | P_echoCommand
  | P_typeCommand | P_multiCommand | P_execCommand | P_discardCommand
  | P_flushdbCommand | P_flushallCommand | P_ttlCommand | P_pttlCommand
  | P_persistCommand | P_subscribeCommand | P_unsubscribeCommand | P_psubscribeCommand
  | P_punsubscribeCommand | P_publishCommand | P_pubsubCommand | P_watchCommand
  | P_unwatchCommand
  | OtherCommand (name : bytes).

#[global] Instance proc_t_eq_dec : EqDecision proc_t.
Proof. solve_decision. Defined.

Record redisCommand := mkCmd {
  name : bytes;
  proc : proc_t;
  arity : Z;
  sflags : bytes;
  firstkey : Z;
  lastkey : Z;
  keystep : Z
}.

(** The flags are the letters of [sflags]; any other letter is a panic at startup. *)
Definition flag_letters : bytes := zs "wrmapsRSltMF".
Definition sflags_ok (cmd : redisCommand) : bool := forallb (fun f => bool_decide (f ∈ flag_letters)) (sflags cmd).
Definition cmd_flag (f : Z) (cmd : redisCommand) : bool := bool_decide (f ∈ sflags cmd).
Definition REDIS_CMD_WRITE : redisCommand -> bool := cmd_flag 119.
Definition REDIS_CMD_READONLY : redisCommand -> bool := cmd_flag 114.
Definition REDIS_CMD_DENYOOM : redisCommand -> bool := cmd_flag 109.
Definition REDIS_CMD_LOADING : redisCommand -> bool := cmd_flag 108.
Definition REDIS_CMD_STALE : redisCommand -> bool := cmd_flag 116.

Definition redisCommandTable : list redisCommand :=
  [mkCmd (zs "get") P_getCommand 2 (zs "rF") 1 1 1;
   mkCmd (zs "set") P_setCommand (-3) (zs "wm") 1 1 1;
   mkCmd (zs "setnx") P_setnxCommand 3 (zs "wmF") 1 1 1;
   mkCmd (zs "setex") P_setexCommand 4 (zs "wm") 1 1 1;
   mkCmd (zs "psetex") P_psetexCommand 4 (zs "wm") 1 1 1;
   mkCmd (zs "append") P_appendCommand 3 (zs "wm") 1 1 1;
   mkCmd (zs "strlen") P_strlenCommand 2 (zs "rF") 1 1 1;
   mkCmd (zs "del") P_delCommand (-2) (zs "w") 1 (-1) 1;
   mkCmd (zs "exists") P_existsCommand 2 (zs "rF") 1 1 1;
   mkCmd (zs "setbit") (OtherCommand (zs "setbitCommand")) 4 (zs "wm") 1 1 1;
   mkCmd (zs "getbit") (OtherCommand (zs "getbitCommand")) 3 (zs "rF") 1 1 1;
   mkCmd (zs "setrange") P_setrangeCommand 4 (zs "wm") 1 1 1;
   mkCmd (zs "getrange") P_getrangeCommand 4 (zs "r") 1 1 1;
   mkCmd (zs "substr") P_getrangeCommand 4 (zs "r") 1 1 1;
   mkCmd (zs "incr") P_incrCommand 2 (zs "wmF") 1 1 1;
   mkCmd (zs "decr") P_decrCommand 2 (zs "wmF") 1 1 1;
   mkCmd (zs "mget") P_mgetCommand (-2) (zs "r") 1 (-1) 1;
   mkCmd (zs "rpush") (OtherCommand (zs "rpushCommand")) (-3) (zs "wmF") 1 1 1;
   mkCmd (zs "lpush") (OtherCommand (zs "lpushCommand")) (-3) (zs "wmF") 1 1 1;
   mkCmd (zs "rpushx") (OtherCommand (zs "rpushxCommand")) 3 (zs "wmF") 1 1 1;
   mkCmd (zs "lpushx") (OtherCommand (zs "lpushxCommand")) 3 (zs "wmF") 1 1 1;
   mkCmd (zs "linsert") (OtherCommand (zs "linsertCommand")) 5 (zs "wm") 1 1 1;
   mkCmd (zs "rpop") (OtherCommand (zs "rpopCommand")) 2 (zs "wF") 1 1 1;
   mkCmd (zs "lpop") (OtherCommand (zs "lpopCommand")) 2 (zs "wF") 1 1 1;
   mkCmd (zs "brpop") (OtherCommand (zs "brpopCommand")) (-3) (zs "ws") 1 1 1;
   mkCmd (zs "brpoplpush") (OtherCommand (zs "brpoplpushCommand")) 4 (zs "wms") 1 2 1;
   mkCmd (zs "blpop") (OtherCommand (zs "blpopCommand")) (-3) (zs "ws") 1 (-2) 1;
   mkCmd (zs "llen") (OtherCommand (zs "llenCommand")) 2 (zs "rF") 1 1 1;
   mkCmd (zs "lindex") (OtherCommand (zs "lindexCommand")) 3 (zs "r") 1 1 1;
   mkCmd (zs "lset") (OtherCommand (zs "lsetCommand")) 4 (zs "wm") 1 1 1;
   mkCmd (zs "lrange") (OtherCommand (zs "lrangeCommand")) 4 (zs "r") 1 1 1;
   mkCmd (zs "ltrim") (OtherCommand (zs "ltrimCommand")) 4 (zs "w") 1 1 1;
   mkCmd (zs "lrem") (OtherCommand (zs "lremCommand")) 4 (zs "w") 1 1 1;
   mkCmd (zs "rpoplpush") (OtherCommand (zs "rpoplpushCommand")) 3 (zs "wm") 1 2 1;
   mkCmd (zs "sadd") (OtherCommand (zs "saddCommand")) (-3) (zs "wmF") 1 1 1;
   mkCmd (zs "srem") (OtherCommand (zs "sremCommand")) (-3) (zs "wF") 1 1 1;
   mkCmd (zs "smove") (OtherCommand (zs "smoveCommand")) 4 (zs "wF") 1 2 1;
   mkCmd (zs "sismember") (OtherCommand (zs "sismemberCommand")) 3 (zs "rF") 1 1 1;
   mkCmd (zs "scard") (OtherCommand (zs "scardCommand")) 2 (zs "rF") 1 1 1;
   mkCmd (zs "spop") (OtherCommand (zs "spopCommand")) 2 (zs "wRsF") 1 1 1;
   mkCmd (zs "srandmember") (OtherCommand (zs "srandmemberCommand")) (-2) (zs "rR") 1 1 1;
   mkCmd (zs "sinter") (OtherCommand (zs "sinterCommand")) (-2) (zs "rS") 1 (-1) 1;
   mkCmd (zs "sinterstore") (OtherCommand (zs "sinterstoreCommand")) (-3) (zs "wm") 1 (-1) 1;
   mkCmd (zs "sunion") (OtherCommand (zs "sunionCommand")) (-2) (zs "rS") 1 (-1) 1;
   mkCmd (zs "sunionstore") (OtherCommand (zs "sunionstoreCommand")) (-3) (zs "wm") 1 (-1) 1;
   mkCmd (zs "sdiff") (OtherCommand (zs "sdiffCommand")) (-2) (zs "rS") 1 (-1) 1;
   mkCmd (zs "sdiffstore") (OtherCommand (zs "sdiffstoreCommand")) (-3) (zs "wm") 1 (-1) 1;
   mkCmd (zs "smembers") (OtherCommand (zs "sinterCommand")) 2 (zs "rS") 1 1 1;
   mkCmd (zs "sscan") (OtherCommand (zs "sscanCommand")) (-3) (zs "rR") 1 1 1;
   mkCmd (zs "zadd") (OtherCommand (zs "zaddCommand")) (-4) (zs "wmF") 1 1 1;
   mkCmd (zs "zincrby") (OtherCommand (zs "zincrbyCommand")) 4 (zs "wmF") 1 1 1;
   mkCmd (zs "zrem") (OtherCommand (zs "zremCommand")) (-3) (zs "wF") 1 1 1;
   mkCmd (zs "zremrangebyscore") (OtherCommand (zs "zremrangebyscoreCommand")) 4 (zs "w") 1 1 1;
   mkCmd (zs "zremrangebyrank") (OtherCommand (zs "zremrangebyrankCommand")) 4 (zs "w") 1 1 1;
   mkCmd (zs "zremrangebylex") (OtherCommand (zs "zremrangebylexCommand")) 4 (zs "w") 1 1 1;
   mkCmd (zs "zunionstore") (OtherCommand (zs "zunionstoreCommand")) (-4) (zs "wm") 0 0 0;
   mkCmd (zs "zinterstore") (OtherCommand (zs "zinterstoreCommand")) (-4) (zs "wm") 0 0 0;
   mkCmd (zs "zrange") (OtherCommand (zs "zrangeCommand")) (-4) (zs "r") 1 1 1;
   mkCmd (zs "zrangebyscore") (OtherCommand (zs "zrangebyscoreCommand")) (-4) (zs "r") 1 1 1;
   mkCmd (zs "zrevrangebyscore") (OtherCommand (zs "zrevrangebyscoreCommand")) (-4) (zs "r") 1 1 1;
   mkCmd (zs "zrangebylex") (OtherCommand (zs "zrangebylexCommand")) (-4) (zs "r") 1 1 1;
   mkCmd (zs "zrevrangebylex") (OtherCommand (zs "zrevrangebylexCommand")) (-4) (zs "r") 1 1 1;
   mkCmd (zs "zcount") (OtherCommand (zs "zcountCommand")) 4 (zs "rF") 1 1 1;
   mkCmd (zs "zlexcount") (OtherCommand (zs "zlexcountCommand")) 4 (zs "rF") 1 1 1;
   mkCmd (zs "zrevrange") (OtherCommand (zs "zrevrangeCommand")) (-4) (zs "r") 1 1 1;
   mkCmd (zs "zcard") (OtherCommand (zs "zcardCommand")) 2 (zs "rF") 1 1 1;
   mkCmd (zs "zscore") (OtherCommand (zs "zscoreCommand")) 3 (zs "rF") 1 1 1;
   mkCmd (zs "zrank") (OtherCommand (zs "zrankCommand")) 3 (zs "rF") 1 1 1;
   mkCmd (zs "zrevrank") (OtherCommand (zs "zrevrankCommand")) 3 (zs "rF") 1 1 1;
   mkCmd (zs "zscan") (OtherCommand (zs "zscanCommand")) (-3) (zs "rR") 1 1 1;
   mkCmd (zs "hset") (OtherCommand (zs "hsetCommand")) 4 (zs "wmF") 1 1 1;
   mkCmd (zs "hsetnx") (OtherCommand (zs "hsetnxCommand")) 4 (zs "wmF") 1 1 1;
   mkCmd (zs "hget") (OtherCommand (zs "hgetCommand")) 3 (zs "rF") 1 1 1;
   mkCmd (zs "hmset") (OtherCommand (zs "hmsetCommand")) (-4) (zs "wm") 1 1 1;
   mkCmd (zs "hmget") (OtherCommand (zs "hmgetCommand")) (-3) (zs "r") 1 1 1;
   mkCmd (zs "hincrby") (OtherCommand (zs "hincrbyCommand")) 4 (zs "wmF") 1 1 1;
   mkCmd (zs "hincrbyfloat") (OtherCommand (zs "hincrbyfloatCommand")) 4 (zs "wmF") 1 1 1;
   mkCmd (zs "hdel") (OtherCommand (zs "hdelCommand")) (-3) (zs "wF") 1 1 1;
   mkCmd (zs "hlen") (OtherCommand (zs "hlenCommand")) 2 (zs "rF") 1 1 1;
   mkCmd (zs "hkeys") (OtherCommand (zs "hkeysCommand")) 2 (zs "rS") 1 1 1;
   mkCmd (zs "hvals") (OtherCommand (zs "hvalsCommand")) 2 (zs "rS") 1 1 1;
   mkCmd (zs "hgetall") (OtherCommand (zs "hgetallCommand")) 2 (zs "r") 1 1 1;
   mkCmd (zs "hexists") (OtherCommand (zs "hexistsCommand")) 3 (zs "rF") 1 1 1;
   mkCmd (zs "hscan") (OtherCommand (zs "hscanCommand")) (-3) (zs "rR") 1 1 1;
   mkCmd (zs "incrby") P_incrbyCommand 3 (zs "wmF") 1 1 1;
   mkCmd (zs "decrby") P_decrbyCommand 3 (zs "wmF") 1 1 1;
   mkCmd (zs "incrbyfloat") (OtherCommand (zs "incrbyfloatCommand")) 3 (zs "wmF") 1 1 1;
   mkCmd (zs "getset") P_getsetCommand 3 (zs "wm") 1 1 1;
   mkCmd (zs "mset") P_msetCommand (-3) (zs "wm") 1 (-1) 2;
   mkCmd (zs "msetnx") P_msetnxCommand (-3) (zs "wm") 1 (-1) 2;
   mkCmd (zs "randomkey") (OtherCommand (zs "randomkeyCommand")) 1 (zs "rR") 0 0 0;
   mkCmd (zs "select") P_selectCommand 2 (zs "rlF") 0 0 0;
   mkCmd (zs "move") P_moveCommand 3 (zs "wF") 1 1 1;
   mkCmd (zs "rename") P_renameCommand 3 (zs "w") 1 2 1;
   mkCmd (zs "renamenx") P_renamenxCommand 3 (zs "wF") 1 2 1;
   mkCmd (zs "expire") P_expireCommand 3 (zs "wF") 1 1 1;
   mkCmd (zs "expireat") P_expireatCommand 3 (zs "wF") 1 1 1;
   mkCmd (zs "pexpire") P_pexpireCommand 3 (zs "wF") 1 1 1;
   mkCmd (zs "pexpireat") P_pexpireatCommand 3 (zs "wF") 1 1 1;
   mkCmd (zs "keys") P_keysCommand 2 (zs "rS") 0 0 0;
   mkCmd (zs "scan") (OtherCommand (zs "scanCommand")) (-2) (zs "rR") 0 0 0;
   mkCmd (zs "dbsize") P_dbsizeCommand 1 (zs "rF") 0 0 0;
   mkCmd (zs "auth") P_authCommand 2 (zs "rsltF") 0 0 0;
   mkCmd (zs "ping") P_pingCommand (-1) (zs "rtF") 0 0 0;
   mkCmd (zs "echo") P_echoCommand 2 (zs "rF") 0 0 0;
   mkCmd (zs "save") (OtherCommand (zs "saveCommand")) 1 (zs "ars") 0 0 0;
   mkCmd (zs "bgsave") (OtherCommand (zs "bgsaveCommand")) 1 (zs "ar") 0 0 0;
   mkCmd (zs "bgrewriteaof") (OtherCommand (zs "bgrewriteaofCommand")) 1 (zs "ar") 0 0 0;
   mkCmd (zs "shutdown") (OtherCommand (zs "shutdownCommand")) (-1) (zs "arlt") 0 0 0;
   mkCmd (zs "lastsave") (OtherCommand (zs "lastsaveCommand")) 1 (zs "rRF") 0 0 0;
   mkCmd (zs "type") P_typeCommand 2 (zs "rF") 1 1 1;
   mkCmd (zs "multi") P_multiCommand 1 (zs "rsF") 0 0 0;
   mkCmd (zs "exec") P_execCommand 1 (zs "sM") 0 0 0;
   mkCmd (zs "discard") P_discardCommand 1 (zs "rsF") 0 0 0;
   mkCmd (zs "sync") (OtherCommand (zs "syncCommand")) 1 (zs "ars") 0 0 0;
   mkCmd (zs "psync") (OtherCommand (zs "syncCommand")) 3 (zs "ars") 0 0 0;
   mkCmd (zs "replconf") (OtherCommand (zs "replconfCommand")) (-1) (zs "arslt") 0 0 0;
   mkCmd (zs "flushdb") P_flushdbCommand 1 (zs "w") 0 0 0;
   mkCmd (zs "flushall") P_flushallCommand 1 (zs "w") 0 0 0;
   mkCmd (zs "sort") (OtherCommand (zs "sortCommand")) (-2) (zs "wm") 1 1 1;
   mkCmd (zs "info") (OtherCommand (zs "infoCommand")) (-1) (zs "rlt") 0 0 0;
   mkCmd (zs "monitor") (OtherCommand (zs "monitorCommand")) 1 (zs "ars") 0 0 0;
   mkCmd (zs "ttl") P_ttlCommand 2 (zs "rF") 1 1 1;
   mkCmd (zs "pttl") P_pttlCommand 2 (zs "rF") 1 1 1;
   mkCmd (zs "persist") P_persistCommand 2 (zs "wF") 1 1 1;
   mkCmd (zs "slaveof") (OtherCommand (zs "slaveofCommand")) 3 (zs "ast") 0 0 0;
   mkCmd (zs "role") (OtherCommand (zs "roleCommand")) 1 (zs "lst") 0 0 0;
   mkCmd (zs "debug") (OtherCommand (zs "debugCommand")) (-2) (zs "as") 0 0 0;
   mkCmd (zs "config") (OtherCommand (zs "configCommand")) (-2) (zs "art") 0 0 0;
   mkCmd (zs "subscribe") P_subscribeCommand (-2) (zs "rpslt") 0 0 0;
   mkCmd (zs "unsubscribe") P_unsubscribeCommand (-1) (zs "rpslt") 0 0 0;
   mkCmd (zs "psubscribe") P_psubscribeCommand (-2) (zs "rpslt") 0 0 0;
   mkCmd (zs "punsubscribe") P_punsubscribeCommand (-1) (zs "rpslt") 0 0 0;
   mkCmd (zs "publish") P_publishCommand 3 (zs "pltrF") 0 0 0;
   mkCmd (zs "pubsub") P_pubsubCommand (-2) (zs "pltrR") 0 0 0;
   mkCmd (zs "watch") P_watchCommand (-2) (zs "rsF") 1 (-1) 1;
   mkCmd (zs "unwatch") P_unwatchCommand 1 (zs "rsF") 0 0 0;
   mkCmd (zs "restore") (OtherCommand (zs "restoreCommand")) 4 (zs "wm") 1 1 1;
   mkCmd (zs "migrate") (OtherCommand (zs "migrateCommand")) 6 (zs "w") 0 0 0;
   mkCmd (zs "dump") (OtherCommand (zs "dumpCommand")) 2 (zs "r") 1 1 1;
   mkCmd (zs "object") (OtherCommand (zs "objectCommand")) 3 (zs "r") 2 2 2;
   mkCmd (zs "client") (OtherCommand (zs "clientCommand")) (-2) (zs "rs") 0 0 0;
   mkCmd (zs "eval") (OtherCommand (zs "evalCommand")) (-3) (zs "s") 0 0 0;
   mkCmd (zs "evalsha") (OtherCommand (zs "evalShaCommand")) (-3) (zs "s") 0 0 0;
   mkCmd (zs "slowlog") (OtherCommand (zs "slowlogCommand")) (-2) (zs "r") 0 0 0;
   mkCmd (zs "script") (OtherCommand (zs "scriptCommand")) (-2) (zs "rs") 0 0 0;
   mkCmd (zs "time") (OtherCommand (zs "timeCommand")) 1 (zs "rRF") 0 0 0;
   mkCmd (zs "bitop") (OtherCommand (zs "bitopCommand")) (-4) (zs "wm") 2 (-1) 1;
   mkCmd (zs "bitcount") (OtherCommand (zs "bitcountCommand")) (-2) (zs "r") 1 1 1;
   mkCmd (zs "bitpos") (OtherCommand (zs "bitposCommand")) (-3) (zs "r") 1 1 1;
   mkCmd (zs "command") (OtherCommand (zs "commandCommand")) 0 (zs "rlt") 0 0 0;
   mkCmd (zs "pfselftest") (OtherCommand (zs "pfselftestCommand")) 1 (zs "r") 0 0 0;
   mkCmd (zs "pfadd") (OtherCommand (zs "pfaddCommand")) (-2) (zs "wmF") 1 1 1;
   mkCmd (zs "pfcount") (OtherCommand (zs "pfcountCommand")) (-2) (zs "r") 1 1 1;
   mkCmd (zs "pfmerge") (OtherCommand (zs "pfmergeCommand")) (-2) (zs "wm") 1 (-1) 1;
   mkCmd (zs "pfdebug") (OtherCommand (zs "pfdebugCommand")) (-3) (zs "w") 0 0 0;
   mkCmd (zs "latency") (OtherCommand (zs "latencyCommand")) (-2) (zs "arslt") 0 0 0].

(** [tolower] in the C locale. *)
Definition lower (s : bytes) : bytes := map to_lower s.

(** The dictionary of the commands hashes and compares names without regard to
    case. Its comparison stops at a NUL byte; names with one are taken not to be
    in the table. *)
Definition lookupCommand (s : bytes) : option redisCommand :=
  list_find (fun cmd => name cmd = lower s) redisCommandTable ≫= fun p => Some p.2.
