(* ===== verification/Exec.v ===== *)
(** * Dispatch and transactions (src/redis-2.8.19/src/redis.c, multi.c)

    [processCommand], [call] and [execCommand]. The checks of [processCommand] that
    read the configuration find it in [config]. [freeMemoryIfNeeded] evicts keys; the
    allocator, the buffers, the idle times and the random draws are in [memory].
    [processCommand] takes it, the commands of other files and the service of the
    clients blocked on lists as arguments. The count of evicted keys, the MONITOR feed, the slow log, the latency samples and Lua clients are left out,
    and so is [also_propagate], to which no command of this version appends. *)
From S2P Require Import Prelude Util Object Server Pubsub Watch Db TString Table.
Open Scope Z_scope.

Record config := mkConfig {
  requirepass : option bytes;
  maxmemory : bool;
  bgsave_err : bool;
  aof_write_err : option bytes;
  few_good_slaves : bool;
  repl_slave_ro : bool;
  repl_connected : bool;
  repl_serve_stale_data : bool;
  lua_timedout : bool
}.

Definition shared_pong : reply := RStatus (zs "PONG").
Definition shared_loadingerr : reply := RError (zs "LOADING Redis is loading the dataset in memory").
Definition shared_slowscripterr : reply :=
  RError (zs "BUSY Redis is busy running a script. You can only call SCRIPT KILL or SHUTDOWN NOSAVE.").
Definition shared_masterdownerr : reply :=
  RError (zs "MASTERDOWN Link with MASTER is down and slave-serve-stale-data is set to 'no'.").
Definition shared_bgsaveerr : reply :=
  RError (zs "MISCONF Redis is configured to save RDB snapshots, but is currently not able to persist on disk. Commands that may modify the data set are disabled. Please check Redis logs for details about the error.").
Definition shared_roslaveerr : reply := RError (zs "READONLY You can't write against a read only slave.").
Definition shared_noautherr : reply := RError (zs "NOAUTH Authentication required.").
Definition shared_oomerr : reply := RError (zs "OOM command not allowed when used memory > 'maxmemory'.").
Definition shared_noreplicaserr : reply := RError (zs "NOREPLICAS Not enough good slaves to write.").

(** [propagate]: to the append only file, when it is on, and to the slaves. *)
Definition propagate (dbid : Z) (l : list bytes) (aof repl : bool) : M unit :=
  on ← gets aof_on;
  modify (set_fed (fun f => f ++ [mkProp dbid l (on && aof) repl])).

Definition execCommandPropagateMulti (c : cid) : M unit :=
  id ← client_db c; propagate id [zs "MULTI"] true true.

(** [call] with [REDIS_CALL_FULL], around the command function [run]. *)
Definition call (run : M unit) (c : cid) : M unit :=
  old ← get_client c;
  _ ← update_client c (set_flags (set_FORCE false false));
  before ← gets dirty;
  _ ← run;
  after ← gets dirty;
  let n := Z.max 0 (after - before) in
  x ← get_client c;
  let repl := REDIS_FORCE_REPL (flags x) || negb (n =? 0) in
  let aof := REDIS_FORCE_AOF (flags x) || negb (n =? 0) in
  _ ← (if repl || aof then propagate (db x) (argv x) aof repl else mret tt);
  _ ← update_client c (set_flags (set_FORCE (REDIS_FORCE_REPL (flags old)) (REDIS_FORCE_AOF (flags old))));
  modify (set_stats 0 0 0 1).

(** ** Eviction *)

Inductive maxmemory_policy_t :=
  | REDIS_MAXMEMORY_VOLATILE_LRU | REDIS_MAXMEMORY_VOLATILE_TTL | REDIS_MAXMEMORY_VOLATILE_RANDOM
  | REDIS_MAXMEMORY_ALLKEYS_LRU | REDIS_MAXMEMORY_ALLKEYS_RANDOM | REDIS_MAXMEMORY_NO_EVICTION.

#[global] Instance maxmemory_policy_t_eq_dec : EqDecision maxmemory_policy_t.
Proof. solve_decision. Defined.

(** The limit, and what the code asks of the allocator, of the buffers of the slaves and
    of the append only file, of the LRU clock and of the random number generator:
    [random i] is the draw number [i]. *)
Record memory := mkMemory {
  maxmemory_limit : Z;
  maxmemory_policy : maxmemory_policy_t;
  maxmemory_samples : nat;
  zmalloc_used_memory : server -> Z;
  slave_obuf_bytes : list Z;
  aof_buf_bytes : Z;
  aof_rewrite_bytes : Z;
  estimateObjectIdleTime : Z -> bytes -> Z;
  random : nat -> nat
}.

Section eviction.
Context (e : memory).

(** The memory in use but for the buffers, as a [size_t]. *)
Definition mem_used : M Z :=
  used ← gets (zmalloc_used_memory e);
  let used := foldl (fun used obuf => if obuf >? used then 0 else used - obuf) used (slave_obuf_bytes e) in
  on ← gets aof_on;
  mret (if on : bool then u64 (u64 (used - aof_buf_bytes e) - aof_rewrite_bytes e) else used).

(** [dictGetRandomKey] on a table that is not empty; [i] is the number of the draw. *)
Definition random_key {A} (i : nat) (d : gmap bytes A) : option bytes :=
  (map_to_list d).*1 !! (random e i mod base.size d)%nat.

(** The best of [k] keys drawn from [d], with its value, and the next draw. *)
Fixpoint sample_keys {A} (k i : nat) (d : gmap bytes A) (value : bytes -> M Z) (better : Z -> Z -> bool)
    (best : option (bytes * Z)) : M (option (bytes * Z) * nat) :=
  match k with
  | O => mret (best, i)
  | S k =>
      thiskey ← lift (random_key i d);
      thisval ← value thiskey;
      sample_keys k (S i) d value better
        match best with
        | Some (_, bestval) => if better thisval bestval then Some (thiskey, thisval) else best
        | None => Some (thiskey, thisval)
        end
  end.

(** The key of database [j] to evict, from [d], the keys or the deadlines. *)
Definition best_key {A} (j : Z) (i : nat) (db : redisDb) (d : gmap bytes A) : M (option bytes * nat) :=
  match maxmemory_policy e with
  | REDIS_MAXMEMORY_ALLKEYS_RANDOM | REDIS_MAXMEMORY_VOLATILE_RANDOM =>
      key ← lift (random_key i d); mret (Some key, S i)
  | REDIS_MAXMEMORY_ALLKEYS_LRU | REDIS_MAXMEMORY_VOLATILE_LRU =>
      '(best, i) ← sample_keys (maxmemory_samples e) i d
        (fun key => _ ← lift (dict db !! key); mret (estimateObjectIdleTime e j key)) Z.gtb None;
      mret (fst <$> best, i)
  | REDIS_MAXMEMORY_VOLATILE_TTL =>
      '(best, i) ← sample_keys (maxmemory_samples e) i d (fun key => lift (expires db !! key)) Z.ltb None;
      mret (fst <$> best, i)
  | REDIS_MAXMEMORY_NO_EVICTION => mret (None, i)
  end.

(** [Some delta]: a key was deleted. *)
Definition evict_one (j : Z) (i : nat) : M (option Z * nat) :=
  db ← get_db j;
  let allkeys := bool_decide (maxmemory_policy e = REDIS_MAXMEMORY_ALLKEYS_LRU) ||
                 bool_decide (maxmemory_policy e = REDIS_MAXMEMORY_ALLKEYS_RANDOM) in
  if ((if allkeys then base.size (dict db) else base.size (expires db)) =? 0)%nat then mret (None, i)
  else
    '(bestkey, i) ← (if allkeys then best_key j i db (dict db) else best_key j i db (expires db));
    match bestkey with
    | None => mret (None, i)
    | Some key =>
        _ ← propagateExpire j key;
        before ← gets (zmalloc_used_memory e);
        _ ← dbDelete j key;
        after ← gets (zmalloc_used_memory e);
        _ ← notifyKeyspaceEvent REDIS_NOTIFY_EVICTED (zs "evicted") key j;
        mret (Some (before - after), i)
    end.

(** The [for] over the databases: the memory freed and the keys deleted. *)
Fixpoint evict_round (js : list Z) (mem_freed keys_freed : Z) (i : nat) : M (Z * Z * nat) :=
  match js with
  | [] => mret (mem_freed, keys_freed, i)
  | j :: js =>
      '(r, i) ← evict_one j i;
      match r with
      | Some delta => evict_round js (u64 (mem_freed + delta)) (keys_freed + 1) i
      | None => evict_round js mem_freed keys_freed i
      end
  end.

Fixpoint evict_loop (fuel : nat) (mem_tofree mem_freed : Z) (i : nat) : M bool :=
  if mem_freed <? mem_tofree then
    match fuel with
    | O => crash
    | S fuel =>
        n ← dbnum;
        '(mem_freed, keys_freed, i) ← evict_round (seqZ 0 n) mem_freed 0 i;
        if keys_freed =? 0 then mret false else evict_loop fuel mem_tofree mem_freed i
    end
  else mret true.

Definition total_keys (s : server) : nat := sum_list_with (fun d => base.size (dict d)) (dbs s).

(** [false] is REDIS_ERR. A turn of the loop that frees nothing is the last. *)
Definition freeMemoryIfNeeded : M bool :=
  used ← mem_used;
  if used <=? maxmemory_limit e then mret true
  else if bool_decide (maxmemory_policy e = REDIS_MAXMEMORY_NO_EVICTION) then mret false
  else
    n ← gets total_keys;
    evict_loop (S n) (used - maxmemory_limit e) 0 0.
End eviction.

(** ** Connection commands *)

Definition REDIS_AUTHPASS_MAX_LEN : Z := 512.

(** The buffers hold the strings followed by zeros; the or of the differences. *)
Definition buf_diff (a b : bytes) : Z :=
  foldl Z.lor 0 (zip_with Z.lxor a b).

(** [a] and [b] are C strings without their terminator. *)
Definition time_independent_strcmp (a b : bytes) : Z :=
  let alen := zlen a in
  let blen := zlen b in
  if (alen >? REDIS_AUTHPASS_MAX_LEN) || (blen >? REDIS_AUTHPASS_MAX_LEN) then 1
  else
    let pad u := u ++ replicate (Z.to_nat (REDIS_AUTHPASS_MAX_LEN - zlen u)) 0 in
    Z.lor (buf_diff (pad a) (pad b)) (Z.lxor alen blen).

Section Exec.
Context (cfg : config).
(** Evicts keys; [false] is REDIS_ERR. *)
Context (freeMemoryIfNeeded : M bool).
Context (handleClientsBlockedOnLists : M unit).
(** The function of a command that is not modelled, by its name. *)
Context (other : bytes -> cid -> M unit).

Definition authCommand (c : cid) : M unit :=
  match requirepass cfg with
  | None => addReplyError c (zs "Client sent AUTH, but no password is set")
  | Some pass =>
      a ← arg c 1;
      if time_independent_strcmp (cstr a) pass =? 0 then
        _ ← update_client c (set_authenticated true); addReply c shared_ok
      else
        _ ← update_client c (set_authenticated false); addReplyError c (zs "invalid password")
  end.

Definition pingCommand (c : cid) : M unit :=
  x ← get_client c;
  let argc := zlen (argv x) in
  if argc >? 2 then addReplyErrorFormat c (zs "wrong number of arguments for 'ping' command")
  else if REDIS_PUBSUB (flags x) then
    _ ← addReply c (RMulti 2);
    _ ← addReply c (RBulk (zs "pong"));
    if argc =? 1 then addReply c (RBulk []) else a ← arg c 1; addReply c (RBulk a)
  else if argc =? 1 then addReply c shared_pong
  else a ← arg c 1; addReply c (RBulk a).

Definition echoCommand (c : cid) : M unit := a ← arg c 1; addReply c (RBulk a).

(** The function of a command; [exec] is EXEC's. *)
Definition run_proc (exec : cid -> M unit) (p : proc_t) (c : cid) : M unit :=
  match p with
  | P_getCommand => getCommand c
  | P_setCommand => setCommand c
  | P_setnxCommand => setnxCommand c
  | P_setexCommand => setexCommand c
  | P_psetexCommand => psetexCommand c
  | P_appendCommand => appendCommand c
  | P_strlenCommand => strlenCommand c
  | P_delCommand => delCommand c
  | P_existsCommand => existsCommand c
  | P_setrangeCommand => setrangeCommand c
  | P_getrangeCommand => getrangeCommand c
  | P_incrCommand => incrCommand c
  | P_decrCommand => decrCommand c
  | P_mgetCommand => mgetCommand c
  | P_incrbyCommand => incrbyCommand c
  | P_decrbyCommand => decrbyCommand c
  | P_getsetCommand => getsetCommand c
  | P_msetCommand => msetCommand c
  | P_msetnxCommand => msetnxCommand c
  | P_selectCommand => selectCommand c
  | P_moveCommand => moveCommand c
  | P_renameCommand => renameCommand c
  | P_renamenxCommand => renamenxCommand c
  | P_expireCommand => expireCommand c
  | P_expireatCommand => expireatCommand c
  | P_pexpireCommand => pexpireCommand c
  | P_pexpireatCommand => pexpireatCommand c
  | P_keysCommand => keysCommand c
  | P_dbsizeCommand => dbsizeCommand c
  | P_authCommand => authCommand c
  | P_pingCommand => pingCommand c
  | P_echoCommand => echoCommand c
  | P_typeCommand => typeCommand c
  | P_multiCommand => multiCommand c
  | P_execCommand => exec c
  | P_discardCommand => discardCommand c
  | P_flushdbCommand => flushdbCommand c
  | P_flushallCommand => flushallCommand c
  | P_ttlCommand => ttlCommand c
  | P_pttlCommand => pttlCommand c
  | P_persistCommand => persistCommand c
  | P_subscribeCommand => subscribeCommand c
  | P_unsubscribeCommand => unsubscribeCommand c
  | P_psubscribeCommand => psubscribeCommand c
  | P_punsubscribeCommand => punsubscribeCommand c
  | P_publishCommand => publishCommand c
  | P_pubsubCommand => pubsubCommand c
  | P_watchCommand => watchCommand c
  | P_unwatchCommand => unwatchCommand c
  | OtherCommand n => other n c
  end.

(** ** EXEC *)

(** One queued command. [processCommand] never queues EXEC, which would run
    the queue again without end. *)
Definition exec_one (c : cid) (must_propagate : bool) (j : nat) (l : list bytes) : M bool :=
  _ ← update_client c (set_argv l);
  a0 ← arg c 0;
  cmd ← lift (lookupCommand a0);
  must ← (if negb must_propagate && negb (REDIS_CMD_READONLY cmd) then
            _ ← execCommandPropagateMulti c; mret true
          else mret must_propagate);
  _ ← call (run_proc (fun _ => crash) (proc cmd) c) c;
  x ← get_client c;
  _ ← update_client c (set_mstate (fun q => <[j := argv x]> q));
  mret must.

Fixpoint exec_loop (c : cid) (must_propagate : bool) (j : nat) (q : list (list bytes)) : M bool :=
  match q with
  | [] => mret must_propagate
  | l :: q => must ← exec_one c must_propagate j l; exec_loop c must (S j) q
  end.

Definition execCommand (c : cid) : M unit :=
  x ← get_client c;
  if negb (REDIS_MULTI (flags x)) then addReplyError c (zs "EXEC without MULTI")
  else if REDIS_DIRTY_CAS (flags x) || REDIS_DIRTY_EXEC (flags x) then
    _ ← addReply c (if REDIS_DIRTY_EXEC (flags x) then shared_execaborterr else shared_nullmultibulk);
    discardTransaction c
  else
    _ ← unwatchAllKeys c;
    _ ← addReplyMultiBulkLen c (zlen (mstate x));
    must ← exec_loop c false 0 (mstate x);
    _ ← update_client c (set_argv (argv x));
    _ ← discardTransaction c;
    if must : bool then modify (set_dirty (fun n => n + 1)) else mret tt.

Definition proc_of (p : proc_t) (c : cid) : M unit := run_proc execCommand p c.

(** ** processCommand *)

Definition arity_ok (cmd : redisCommand) (argc : Z) : bool :=
  negb (((arity cmd >? 0) && negb (arity cmd =? argc)) || (argc <? - arity cmd)).

(** [c->cmd->proc] is one of the functions. *)
Definition proc_in (cmd : redisCommand) (l : list proc_t) : bool := bool_decide (proc cmd ∈ l).

(** The first letter of the second argument, for SHUTDOWN NOSAVE and SCRIPT KILL. *)
Definition arg1_starts (l : list bytes) (letter : Z) : bool :=
  match l with
  | [_; a] => match a ++ [0] with x :: _ => to_lower x =? letter | [] => false end
  | _ => false
  end.

Definition script_allowed (cmd : redisCommand) (l : list bytes) : bool :=
  proc_in cmd [P_authCommand; OtherCommand (zs "replconfCommand")] ||
  (proc_in cmd [OtherCommand (zs "shutdownCommand")] && arg1_starts l 110) ||
  (proc_in cmd [OtherCommand (zs "scriptCommand")] && arg1_starts l 107).

(** A command refused: whether the transaction is flagged, and the error. *)
Record refusal := mkRefusal { r_flag : bool; r_error : reply }.

(** The checks after the arity, in the order of the code; [oom] is the failure of
    [freeMemoryIfNeeded]. *)
Definition command_refused (s : server) (x : client) (cmd : redisCommand) (oom : bool) : option refusal :=
  if bool_decide (requirepass cfg <> None) && negb (authenticated x) && negb (proc_in cmd [P_authCommand])
  then Some (mkRefusal true shared_noautherr)
  else if oom && REDIS_CMD_DENYOOM cmd then Some (mkRefusal true shared_oomerr)
  else if (bgsave_err cfg || bool_decide (aof_write_err cfg <> None)) && negb (masterhost s) &&
          (REDIS_CMD_WRITE cmd || proc_in cmd [P_pingCommand])
  then Some (mkRefusal true
               match aof_write_err cfg with
               | None => shared_bgsaveerr
               | Some e => RError (zs "MISCONF Errors writing to the AOF file: " ++ e)
               end)
  else if negb (masterhost s) && few_good_slaves cfg && REDIS_CMD_WRITE cmd
  then Some (mkRefusal true shared_noreplicaserr)
  else if masterhost s && repl_slave_ro cfg && negb (REDIS_MASTER (flags x)) && REDIS_CMD_WRITE cmd
  then Some (mkRefusal false shared_roslaveerr)
  else if REDIS_PUBSUB (flags x) &&
          negb (proc_in cmd [P_pingCommand; P_subscribeCommand; P_unsubscribeCommand;
                             P_psubscribeCommand; P_punsubscribeCommand])
  then Some (mkRefusal false
               (RError (zs "ERR only (P)SUBSCRIBE / (P)UNSUBSCRIBE / QUIT allowed in this context")))
  else if masterhost s && negb (repl_connected cfg) && negb (repl_serve_stale_data cfg) &&
          negb (REDIS_CMD_STALE cmd)
  then Some (mkRefusal true shared_masterdownerr)
  else if loading s && negb (REDIS_CMD_LOADING cmd) then Some (mkRefusal false shared_loadingerr)
  else if lua_timedout cfg && negb (script_allowed cmd (argv x))
  then Some (mkRefusal true shared_slowscripterr)
  else None.

(** Whether [freeMemoryIfNeeded] is called, and fails: it is reached only by an
    authenticated client. *)
Definition free_memory (x : client) (cmd : redisCommand) : M bool :=
  if bool_decide (requirepass cfg <> None) && negb (authenticated x) && negb (proc_in cmd [P_authCommand])
  then mret false
  else if maxmemory cfg then ok ← freeMemoryIfNeeded; mret (negb ok)
  else mret false.

Definition queued_in_multi (cmd : redisCommand) : bool :=
  negb (proc_in cmd [P_execCommand; P_discardCommand; P_multiCommand; P_watchCommand]).

(** [false] is REDIS_ERR: the client is to be closed. *)
Definition processCommand (c : cid) : M bool :=
  a0 ← arg c 0;
  if strcasecmp_eq a0 (zs "quit") then
    _ ← addReply c shared_ok;
    _ ← update_client c (set_flags (set_CLOSE_AFTER_REPLY true));
    mret false
  else
    x ← get_client c;
    match lookupCommand a0 with
    | None =>
        _ ← flagTransaction c;
        _ ← addReplyErrorFormat c (zs "unknown command '" ++ cstr a0 ++ zs "'");
        mret true
    | Some cmd =>
        if negb (arity_ok cmd (zlen (argv x))) then
          _ ← flagTransaction c;
          _ ← addReplyErrorFormat c (zs "wrong number of arguments for '" ++ name cmd ++ zs "' command");
          mret true
        else
          oom ← free_memory x cmd;
          x ← get_client c;
          r ← gets (fun s => command_refused s x cmd oom);
          match r with
          | Some r =>
              _ ← (if r_flag r then flagTransaction c else mret tt);
              _ ← addReply c (r_error r);
              mret true
          | None =>
              if REDIS_MULTI (flags x) && queued_in_multi cmd then
                _ ← queueMultiCommand c;
                _ ← addReply c shared_queued;
                mret true
              else
                _ ← call (proc_of (proc cmd) c) c;
                l ← gets ready_keys;
                _ ← (if bool_decide (l = []) then mret tt else handleClientsBlockedOnLists);
                mret true
          end
    end.

End Exec.
