(* ===== verification/Request.v ===== *)
(** * Reading requests (src/redis-2.8.19/src/networking.c, aof.c)

    The two request formats, the buffer they arrive in, and the loop that executes
    what is complete (no client is in a blocking operation here). The buffer is the
    contents of the sds (Sds.v has the bytes behind it); the socket is not modelled:
    [received] appends what was read. [catAppendOnlyGenericCommand] writes the
    format that the server reads. *)
From S2P Require Import Prelude Util Object Server Exec.
From S2P Require Sds.
Open Scope Z_scope.

Definition REDIS_INLINE_MAX_SIZE : Z := 1024 * 64.
Definition REDIS_MBULK_BIG_ARG : Z := 1024 * 32.

Inductive req_t := REDIS_REQ_INLINE | REDIS_REQ_MULTIBULK.

(** The fields of the client that belong to the request being read. *)
Record reader := mkReader {
  querybuf : bytes;
  reqtype : option req_t;
  multibulklen : Z;
  bulklen : Z;
  args : list bytes
}.

(** REDIS_OK; REDIS_ERR for want of data; REDIS_ERR with the text of an error
    reply, after which the connection is closed. *)
Inductive outcome := Ready | More | ProtocolError (e : bytes).

Definition set_querybuf (q : bytes) (r : reader) : reader :=
  mkReader q (reqtype r) (multibulklen r) (bulklen r) (args r).
Definition set_bulklen (n : Z) (r : reader) : reader :=
  mkReader (querybuf r) (reqtype r) (multibulklen r) n (args r).

(** [strchr] on a C string: the index of [c]. *)
Fixpoint strchr (c : Z) (l : bytes) : option Z :=
  match l with
  | [] => None
  | x :: l => if x =? c then Some 0 else if x =? 0 then None else (fun i => i + 1) <$> strchr c l
  end.

(** [sdsrange(s, pos, -1)]. *)
Definition sds_from (pos : Z) (s : bytes) : bytes := drop (Z.to_nat pos) s.

(** The bytes of [q] from [i], [n] of them. *)
Definition piece (q : bytes) (i n : Z) : bytes := take (Z.to_nat n) (drop (Z.to_nat i) q).

Definition resetClient (r : reader) : reader := mkReader (querybuf r) None 0 (-1) [].

(** ** Inline requests *)

Section inline.
Context (uninit : nat -> Z).

Definition processInlineBuffer (r : reader) : option (outcome * reader) :=
  match strchr 10 (querybuf r) with
  | None =>
      Some (if zlen (querybuf r) >? REDIS_INLINE_MAX_SIZE
            then ProtocolError (zs "Protocol error: too big inline request") else More, r)
  | Some newline =>
      let querylen := if negb (newline =? 0) && bool_decide (rd (querybuf r) (newline - 1) = Some 13)
                      then newline - 1 else newline in
      argv ← Sds.sdssplitargs uninit (piece (querybuf r) 0 querylen ++ [0]);
      match argv with
      | None => Some (ProtocolError (zs "Protocol error: unbalanced quotes in request"), r)
      | Some argv =>
          let l := map (fun a => piece (Sds.sbuf a) 0 (Sds.sdslen a)) argv in
          Some (Ready, mkReader (sds_from (querylen + 2) (querybuf r)) (reqtype r) (multibulklen r) (bulklen r)
                         (filter (fun a => a <> []) l))
      end
  end.
End inline.

(** ** Multi bulk requests *)

(** The request line: [inl] when the function returns there. *)
Definition mb_header (r : reader) : option ((outcome * reader) + (reader * Z)) :=
  if negb (bool_decide (args r = [])) then None
  else
    match strchr 13 (querybuf r) with
    | None =>
        Some (inl (if zlen (querybuf r) >? REDIS_INLINE_MAX_SIZE
                   then ProtocolError (zs "Protocol error: too big mbulk count string") else More, r))
    | Some newline =>
        if newline >? zlen (querybuf r) - 2 then Some (inl (More, r))
        else if negb (bool_decide (head (querybuf r) = Some 42)) then None
        else
          ok ← string2ll (piece (querybuf r) 1 (newline - 1)) (newline - 1);
          match ok with
          | Some ll =>
              if ll >? 1024 * 1024 then Some (inl (ProtocolError (zs "Protocol error: invalid multibulk length"), r))
              else if ll <=? 0 then Some (inl (Ready, set_querybuf (sds_from (newline + 2) (querybuf r)) r))
              else Some (inr (mkReader (querybuf r) (reqtype r) ll (bulklen r) [], newline + 2))
          | None => Some (inl (ProtocolError (zs "Protocol error: invalid multibulk length"), r))
          end
    end.

(** The length of an argument. [inl]: [break], or the error. *)
Definition mb_bulk_header (r : reader) (pos : Z) : option ((outcome * reader * Z) + (reader * Z)) :=
  match strchr 13 (sds_from pos (querybuf r)) with
  | None =>
      if zlen (querybuf r) >? REDIS_INLINE_MAX_SIZE
      then Some (inl (ProtocolError (zs "Protocol error: too big bulk count string"), r, 0))
      else Some (inl (More, r, pos))
  | Some i =>
      if pos + i >? zlen (querybuf r) - 2 then Some (inl (More, r, pos))
      else
        first ← rd (querybuf r) pos;
        if negb (first =? 36) then
          Some (inl (ProtocolError (no_newline (zs "Protocol error: expected '$', got '" ++ [first] ++ zs "'")), r, pos))
        else
          ok ← string2ll (piece (querybuf r) (pos + 1) (i - 1)) (i - 1);
          match ok with
          | Some ll =>
              if (ll <? 0) || (ll >? 512 * 1024 * 1024) then
                Some (inl (ProtocolError (zs "Protocol error: invalid bulk length"), r, pos))
              else
                let pos := pos + i + 2 in
                if ll >=? REDIS_MBULK_BIG_ARG then
                  Some (inr (set_bulklen ll (set_querybuf (sds_from pos (querybuf r)) r), 0))
                else Some (inr (set_bulklen ll r, pos))
          | None => Some (inl (ProtocolError (zs "Protocol error: invalid bulk length"), r, pos))
          end
  end.

(** The argument itself, when it is complete. The first case gives the buffer to
    the new object. *)
Definition mb_argument (r : reader) (pos : Z) : reader * Z :=
  if (pos =? 0) && (bulklen r >=? REDIS_MBULK_BIG_ARG) && (zlen (querybuf r) =? bulklen r + 2) then
    (mkReader [] (reqtype r) (multibulklen r - 1) (-1)
       (args r ++ [piece (querybuf r) 0 (zlen (querybuf r) - 2)]), 0)
  else
    (mkReader (querybuf r) (reqtype r) (multibulklen r - 1) (-1) (args r ++ [piece (querybuf r) pos (bulklen r)]),
     pos + bulklen r + 2).

(** The arguments that are left, [n] of them. *)
Fixpoint mb_loop (n : nat) (r : reader) (pos : Z) : option (outcome * reader * Z) :=
  match n with
  | O => Some (Ready, r, pos)
  | S n =>
      b ← (if bulklen r =? -1 then mb_bulk_header r pos else Some (inr (r, pos)));
      match b with
      | inl stop => Some stop
      | inr (r, pos) =>
          if zlen (querybuf r) - pos <? bulklen r + 2 then Some (More, r, pos)
          else let '(r, pos) := mb_argument r pos in mb_loop n r pos
      end
  end.

Definition processMultibulkBuffer (r : reader) : option (outcome * reader) :=
  h ← (if multibulklen r =? 0 then mb_header r else Some (inr (r, 0)));
  match h with
  | inl done => Some done
  | inr (r, pos) =>
      if negb (multibulklen r >? 0) then None
      else
        '(o, r, pos) ← mb_loop (Z.to_nat (multibulklen r)) r pos;
        Some (o, set_querybuf (sds_from pos (querybuf r)) r)
  end.

(** ** The loop *)

Definition received (data : bytes) (r : reader) : reader := set_querybuf (querybuf r ++ data) r.

Section input.
Context (uninit : nat -> Z).
(** [processCommand]. *)
Context (processCommand : cid -> M bool).

Definition request_type (r : reader) : req_t :=
  match reqtype r with
  | Some t => t
  | None => if bool_decide (head (querybuf r) = Some 42) then REDIS_REQ_MULTIBULK else REDIS_REQ_INLINE
  end.

Definition setProtocolError (c : cid) (e : bytes) : M unit :=
  _ ← addReplyError c e; update_client c (set_flags (set_CLOSE_AFTER_REPLY true)).

(** One turn; [true] to go on. *)
Definition input_turn (c : cid) (r : reader) : M (bool * reader) :=
  let t := request_type r in
  let r := mkReader (querybuf r) (Some t) (multibulklen r) (bulklen r) (args r) in
  p ← lift (match t with
            | REDIS_REQ_INLINE => processInlineBuffer uninit r
            | REDIS_REQ_MULTIBULK => processMultibulkBuffer r
            end);
  match p with
  | (More, r) => mret (false, r)
  | (ProtocolError e, r) => _ ← setProtocolError c e; mret (false, r)
  | (Ready, r) =>
      if bool_decide (args r = []) then mret (true, resetClient r)
      else
        _ ← update_client c (set_argv (args r));
        ok ← processCommand c;
        mret (true, if ok : bool then resetClient r else r)
  end.

(** [fuel] bounds the turns; a turn that goes on takes at least one byte off the
    buffer, or closes the connection. *)
Fixpoint processInputBuffer (fuel : nat) (c : cid) (r : reader) : M reader :=
  if zlen (querybuf r) =? 0 then mret r
  else
    x ← get_client c;
    if REDIS_CLOSE_AFTER_REPLY (flags x) then mret r
    else
      match fuel with
      | O => crash
      | S fuel =>
          '(go, r) ← input_turn c r;
          if go : bool then processInputBuffer fuel c r else mret r
      end.
End input.

(** ** Writing requests *)

(** A letter, a number and the end of the line, through the 32-byte buffer. *)
Definition count_line (letter n : Z) : option bytes :=
  buf ← wr (replicate 32 0) 0 letter;
  '(b, len) ← ll2string (drop 1 buf) 31 n;
  buf ← wr (take 1 buf ++ b) (1 + len) 13;
  buf ← wr buf (2 + len) 10;
  rd_block buf 0 (3 + len).

Fixpoint cat_args (l : list bytes) : option bytes :=
  match l with
  | [] => Some []
  | o :: l => h ← count_line 36 (zlen o); t ← cat_args l; Some (h ++ o ++ [13; 10] ++ t)
  end.

Definition catAppendOnlyGenericCommand (dst : bytes) (argv : list bytes) : option bytes :=
  h ← count_line 42 (zlen argv);
  b ← cat_args argv;
  Some (dst ++ h ++ b).

Example set_bytes :
  catAppendOnlyGenericCommand [] [zs "SET"; zs "k"; [0; 13; 10]] =
    Some (zs "*3" ++ [13; 10] ++ zs "$3" ++ [13; 10] ++ zs "SET" ++ [13; 10] ++ zs "$1" ++ [13; 10] ++ zs "k" ++
          [13; 10] ++ zs "$3" ++ [13; 10] ++ [0; 13; 10] ++ [13; 10]).
Proof. reflexivity. Qed.

Definition fresh (q : bytes) : reader := mkReader q None 0 (-1) [].

Example set_read :
  (b ← catAppendOnlyGenericCommand [] [zs "SET"; zs "k"; [0; 13; 10]]; processMultibulkBuffer (fresh (b ++ zs "*1"))) =
    Some (Ready, mkReader (zs "*1") None 0 (-1) [zs "SET"; zs "k"; [0; 13; 10]]).
Proof. vm_compute. reflexivity. Qed.
