(* ===== verification/Invariant.v ===== *)
(** * The server invariant and the quiet steps

    Two states are [quiet]ly equal when they differ at most by what commands
    write for others to read: replies, the statistics, what was sent to the AOF
    and the slaves, and the REDIS_DIRTY_CAS flag. The invariant, the key space and
    the subscriptions do not depend on those, so the effect of a command is stated
    up to this equivalence. [server_ok] is the consistency of the tables that
    refer to each other: expires to keys, watched keys and subscriptions to the
    clients and back. *)
From S2P Require Import Prelude Util Glob Object Server Pubsub Watch Db.
Open Scope Z_scope.

Declare Scope server_scope.
Open Scope server_scope.

(** ** Quiet equality *)

Definition client_core (x : client) : client :=
  set_replies (fun _ => []) (set_flags (set_DIRTY_CAS false) x).

Definition core (s : server) : server :=
  mkServer (dbs s) (client_core <$> clients s) 0 0 0 0 0 (pubsub_channels s) (pubsub_patterns s) (ready_keys s)
    [] (notify_keyspace_events s) (mstime s) (loading s) (masterhost s) (lua_time_start s) (aof_on s).

Record quiet (s t : server) : Prop := Quiet { quiet_core : core s = core t }.
Infix "≈" := quiet (at level 70) : server_scope.

#[global] Instance quiet_equiv : Equivalence quiet.
Proof. split; [done|by intros ?? []|intros ??? [] []]. constructor. congruence. Qed.

#[export] Hint Extern 0 (quiet ?x ?x) => reflexivity : core.

Lemma client_core_idemp x : client_core (client_core x) = client_core x.
Proof. by destruct x as [? []]. Qed.

Lemma core_idemp s : core (core s) = core s.
Proof.
  unfold core. simpl. f_equal. rewrite <- map_fmap_compose. apply map_fmap_ext.
  intros c x _. apply client_core_idemp.
Qed.

(** What quiet states share. *)
Lemma quiet_dbs s t : s ≈ t -> dbs s = dbs t.
Proof. by intros [[=]]. Qed.
Lemma quiet_clients s t : s ≈ t -> client_core <$> clients s = client_core <$> clients t.
Proof. by intros [[=]]. Qed.
Lemma quiet_channels s t : s ≈ t -> pubsub_channels s = pubsub_channels t.
Proof. by intros [[=]]. Qed.
Lemma quiet_patterns s t : s ≈ t -> pubsub_patterns s = pubsub_patterns t.
Proof. by intros [[=]]. Qed.
Lemma quiet_notify s t : s ≈ t -> notify_keyspace_events s = notify_keyspace_events t.
Proof. by intros [[=]]. Qed.
Lemma quiet_mstime s t : s ≈ t -> mstime s = mstime t.
Proof. by intros [[=]]. Qed.
Lemma quiet_loading s t : s ≈ t -> loading s = loading t.
Proof. by intros [[=]]. Qed.
Lemma quiet_masterhost s t : s ≈ t -> masterhost s = masterhost t.
Proof. by intros [[=]]. Qed.
Lemma quiet_lua s t : s ≈ t -> lua_time_start s = lua_time_start t.
Proof. by intros [[=]]. Qed.

Lemma quiet_client s t c x :
  s ≈ t -> clients s !! c = Some x -> exists y, clients t !! c = Some y /\ client_core x = client_core y.
Proof.
  intros Hq Hx. apply quiet_clients in Hq. apply (f_equal (lookup c)) in Hq.
  rewrite !lookup_fmap, Hx in Hq. simpl in Hq. symmetry in Hq.
  apply fmap_Some in Hq as (y & -> & ->). eauto.
Qed.

Lemma client_core_eq x y :
  client_core x = client_core y ->
  db x = db y /\ argv x = argv y /\ mstate x = mstate y /\ watched x = watched y /\ channels x = channels y /\
  patterns x = patterns y /\ authenticated x = authenticated y /\ set_DIRTY_CAS false (flags x) = set_DIRTY_CAS false (flags y).
Proof.
  intros H. repeat split;
    [apply (f_equal db) in H|apply (f_equal argv) in H|apply (f_equal mstate) in H|apply (f_equal watched) in H
    |apply (f_equal channels) in H|apply (f_equal patterns) in H|apply (f_equal authenticated) in H
    |apply (f_equal flags) in H]; exact H.
Qed.

(** Writes that keep states quietly equal. *)
Definition quiet_write (f : client -> client) : Prop := forall x, client_core (f x) = client_core x.

Lemma quiet_set_clients c f x s :
  quiet_write f -> clients s !! c = Some x -> set_clients (<[c := f x]>) s ≈ s.
Proof.
  intros Hf Hx. constructor. unfold core. simpl. f_equal. rewrite fmap_insert, Hf.
  apply insert_id. by rewrite lookup_fmap, Hx.
Qed.

Lemma quiet_write_replies g : quiet_write (set_replies g).
Proof. by intros [? []]. Qed.
Lemma quiet_write_dirty b : quiet_write (set_flags (set_DIRTY_CAS b)).
Proof. by intros [? []]. Qed.

(** The writes to the data respect the equivalence. *)
#[global] Instance set_dbs_proper f : Proper (quiet ==> quiet) (set_dbs f).
Proof. intros s t [[=]]. constructor. unfold core. simpl. f_equal; congruence. Qed.
#[global] Instance set_ready_keys_proper f : Proper (quiet ==> quiet) (set_ready_keys f).
Proof. intros s t [[=]]. constructor. unfold core. simpl. f_equal; congruence. Qed.
#[global] Instance set_channels_proper f : Proper (quiet ==> quiet) (set_pubsub_channels f).
Proof. intros s t [[=]]. constructor. unfold core. simpl. f_equal; congruence. Qed.
#[global] Instance set_patterns_proper f : Proper (quiet ==> quiet) (set_pubsub_patterns f).
Proof. intros s t [[=]]. constructor. unfold core. simpl. f_equal; congruence. Qed.

Lemma set_clients_quiet c x y s t :
  s ≈ t -> client_core x = client_core y -> set_clients (<[c := x]>) s ≈ set_clients (<[c := y]>) t.
Proof.
  intros [[=]] Hxy. constructor. unfold core. simpl. rewrite !fmap_insert. f_equal; congruence.
Qed.

(** ** The invariant *)

Definition alive (c : cid) (s : server) : Prop := is_Some (clients s !! c).

(** [c] watches [key] in database [id], by its own list. *)
Definition watches (s : server) (c : cid) (id : Z) (key : bytes) : Prop :=
  exists x, clients s !! c = Some x /\ (id, key) ∈ watched x.
Definition subscribed (s : server) (c : cid) (ch : bytes) : Prop :=
  exists x, clients s !! c = Some x /\ ch ∈ channels x.
Definition psubscribed (s : server) (c : cid) (p : bytes) : Prop :=
  exists x, clients s !! c = Some x /\ p ∈ patterns x.

(** The patterns [stringmatchlen] reads without leaving its buffers. *)
Definition pattern_ok (p : bytes) : Prop :=
  no_final_backslash p /\ forall a, head p = Some a -> a ∉ [0; 91; 92].

(** The two-way tables: a list of clients per key. *)
Definition table_ok {K} `{Countable K} (m : gmap K (list cid)) (rel : cid -> K -> Prop) : Prop :=
  forall k, (forall c, c ∈ default [] (m !! k) <-> rel c k) /\
    (forall l, m !! k = Some l -> l <> [] /\ NoDup l).

Record db_ok (s : server) (id : Z) (d : redisDb) : Prop := {
  db_expires : forall k w, expires d !! k = Some w -> is_Some (dict d !! k);
  db_objs : forall k o, dict d !! k = Some o -> obj_ok o;
  db_watch : table_ok (watched_keys d) (fun c k => watches s c id k)
}.

Record client_ok (s : server) (x : client) : Prop := {
  cl_db : 0 <= db x < zlen (dbs s);
  cl_watched : NoDup (watched x);
  cl_watched_db : forall id k, (id, k) ∈ watched x -> 0 <= id < zlen (dbs s);
  cl_patterns : NoDup (patterns x)
}.

Record server_ok (s : server) : Prop := {
  ok_dbnum : 0 < zlen (dbs s) <= INT32_MAX;
  ok_dbs : forall id d, rd (dbs s) id = Some d -> db_ok s id d;
  ok_clients : forall c x, clients s !! c = Some x -> client_ok s x;
  ok_channels : table_ok (pubsub_channels s) (subscribed s);
  ok_patterns : NoDup (pubsub_patterns s);
  ok_psubscribed : forall c p, (c, p) ∈ pubsub_patterns s <-> psubscribed s c p;
  ok_pattern : forall c p, (c, p) ∈ pubsub_patterns s -> pattern_ok p
}.

#[global] Instance alive_proper c : Proper (quiet ==> iff) (alive c).
Proof.
  assert (forall s t, s ≈ t -> alive c s -> alive c t) as H.
  { intros s t Hq [x Hx]. destruct (quiet_client s t c x Hq Hx) as (y & ? & _). by exists y. }
  intros s t Hq. split; apply H; [done|by symmetry].
Qed.

Lemma quiet_client_prop (P : client -> Prop) s t c :
  (forall x y, client_core x = client_core y -> P x -> P y) -> s ≈ t ->
  (exists x, clients s !! c = Some x /\ P x) -> exists x, clients t !! c = Some x /\ P x.
Proof.
  intros HP Hq (x & Hx & HPx). destruct (quiet_client s t c x Hq Hx) as (y & ? & ?). eauto.
Qed.

Ltac quiet_rel :=
  let s := fresh in let t := fresh in let Hq := fresh in
  intros s t Hq; split; apply quiet_client_prop; [|done| |by symmetry];
  intros x y (?&?&?&Hw&Hc&Hp&_)%client_core_eq; by rewrite ?Hw, ?Hc, ?Hp.

#[global] Instance watches_proper : Proper (quiet ==> eq ==> eq ==> eq ==> iff) watches.
Proof. intros s t Hq c ? <- id ? <- k ? <-. revert s t Hq. unfold watches. quiet_rel. Qed.
#[global] Instance subscribed_proper : Proper (quiet ==> eq ==> eq ==> iff) subscribed.
Proof. intros s t Hq c ? <- k ? <-. revert s t Hq. unfold subscribed. quiet_rel. Qed.
#[global] Instance psubscribed_proper : Proper (quiet ==> eq ==> eq ==> iff) psubscribed.
Proof. intros s t Hq c ? <- k ? <-. revert s t Hq. unfold psubscribed. quiet_rel. Qed.

Lemma table_ok_ext {K} `{Countable K} (m : gmap K (list cid)) R R' :
  (forall c k, R c k <-> R' c k) -> table_ok m R -> table_ok m R'.
Proof. intros HR Hm k. destruct (Hm k) as [Hc Hl]. split; [|done]. intros c. by rewrite Hc. Qed.

Lemma server_ok_quiet s t : s ≈ t -> server_ok s -> server_ok t.
Proof.
  intros Hq Hs. pose proof (quiet_dbs _ _ Hq) as Hd. destruct Hs as [Hn Hdb Hcl Hch Hnd Hps Hpo].
  split; try rewrite <- ?Hd, <- ?(quiet_channels _ _ Hq), <- ?(quiet_patterns _ _ Hq); try done.
  - intros id d Hr. destruct (Hdb id d Hr) as [He Ho Hw]. split; [done|done|].
    eapply table_ok_ext; [|exact Hw]. intros c k. simpl. by rewrite Hq.
  - intros c x Hx. symmetry in Hq. destruct (quiet_client _ _ _ _ Hq Hx) as (y & Hy & Hxy).
    destruct (Hcl c y Hy) as [????]. apply client_core_eq in Hxy as (Hb&_&_&Hw&_&Hp&_).
    split; rewrite ?Hb, ?Hw, ?Hp, <- ?Hd; done.
  - eapply table_ok_ext; [|exact Hch]. intros c k. by rewrite Hq.
  - intros c p. by rewrite <- Hq.
Qed.

#[global] Instance server_ok_proper : Proper (quiet ==> iff) server_ok.
Proof. intros s t Hq. split; apply server_ok_quiet; [done|by symmetry]. Qed.

#[export] Hint Extern 1 (server_ok _) => (eapply server_ok_quiet; [|eassumption]; symmetry; eassumption) : core.
