(* ===== verification/Steps.v ===== *)
(** * Steps: what the shared operations do to a consistent server

    For every operation the commands are made of: it runs without a failed
    assertion on a state that satisfies [server_ok], and its effect, up to
    [quiet], is a function of the state. The state before is given up to [quiet]
    too: [s] is the state the operation runs in, [t] the one the reasoning has
    reached. *)
From S2P Require Import Prelude Util Glob Object Server Pubsub Watch Db Invariant.
Open Scope Z_scope.
Open Scope server_scope.

Create HintDb server.
#[export] Hint Resolve quiet_write_replies quiet_write_dirty : server.

(** ** Rules *)

Lemma wp_seq {A B} (m : M A) (f : A -> M B) (P : A -> server -> Prop) Q s :
  wp m P s -> (forall a s', P a s' -> wp (f a) Q s') -> wp (m ≫= f) Q s.
Proof. intros Hm Hf. apply wp_bind. eapply wp_mono; [exact Hm|exact Hf]. Qed.

Lemma wp_mfor {A} (l : list A) f (I : server -> Prop) s :
  (forall x s, x ∈ l -> I s -> wp (f x) (fun _ s' => I s') s) -> I s -> wp (mfor l f) (fun _ s' => I s') s.
Proof.
  revert s. induction l as [|x l IH]; intros s Hf Hs; [done|].
  eapply wp_seq; [apply Hf; [left|done]|]. simpl. intros _ s' Hs'.
  apply IH; [|done]. intros y s'' Hy. apply Hf. by right.
Qed.

(** [g x] is what the turn for [x] adds. *)
Lemma wp_mfor_sum {A} (l : list A) (f : A -> M Z) (g : A -> Z) (I : server -> Prop) s :
  (forall x s, x ∈ l -> I s -> wp (f x) (fun n s' => n = g x /\ I s') s) -> I s ->
  wp (mfor_sum l f) (fun n s' => n = foldr (fun x n => g x + n) 0 l /\ I s') s.
Proof.
  revert s. induction l as [|x l IH]; intros s Hf Hs; [done|].
  eapply wp_seq; [apply Hf; [left|done]|]. simpl. intros n s' [-> Hs'].
  eapply wp_seq; [apply IH; [|done]|].
  { intros y s'' Hy. apply Hf. by right. }
  simpl. intros m s'' [-> ?]. done.
Qed.

(** The run in place of the rule. *)
Lemma wp_of_run {A} (m : M A) Q s a s' : m s = Some (a, s') -> Q a s' -> wp m Q s.
Proof. unfold wp. by intros ->. Qed.

(** ** Replies *)

(** The last reply written to [c]. *)
Definition replied (c : cid) (r : reply) (s : server) : Prop :=
  exists x, clients s !! c = Some x /\ last (replies x) = Some r.

Lemma update_client_quiet c f s t :
  quiet_write f -> s ≈ t -> alive c t -> wp (update_client c f) (fun _ s' => s' ≈ t) s.
Proof.
  intros Hf Hq Ha. rewrite <- Hq in Ha. destruct Ha as [x Hx].
  eapply wp_update_client; [done|]. by rewrite quiet_set_clients.
Qed.

Lemma addReply_spec c r s t :
  s ≈ t -> alive c t -> wp (addReply c r) (fun _ s' => s' ≈ t /\ replied c r s') s.
Proof.
  intros Hq Ha. rewrite <- Hq in Ha. destruct Ha as [x Hx].
  eapply wp_update_client; [done|].
  split; [by rewrite quiet_set_clients; [|apply quiet_write_replies|]|]. exists (set_replies (fun l => l ++ [r]) x). simpl.
  rewrite lookup_insert_eq, last_snoc. done.
Qed.

Lemma addReply_quiet c r s t :
  s ≈ t -> alive c t -> wp (addReply c r) (fun _ s' => s' ≈ t) s.
Proof. intros. eapply wp_mono; [by eapply addReply_spec|]. by intros ?? []. Qed.

Lemma mfor_quiet {A} (l : list A) (f : A -> M unit) s t :
  (forall x s, x ∈ l -> s ≈ t -> wp (f x) (fun _ s' => s' ≈ t) s) -> s ≈ t ->
  wp (mfor l f) (fun _ s' => s' ≈ t) s.
Proof. intros Hf. by apply (wp_mfor l f (fun s => s ≈ t)). Qed.

Lemma modify_quiet f s t : (f s) ≈ s -> s ≈ t -> wp (modify f) (fun _ s' => s' ≈ t) s.
Proof. intros ??. apply wp_modify. by etrans. Qed.

(** ** Publishing *)

Lemma sds_match_ok p ch : pattern_ok p -> exists b, sds_match p ch = Some b /\ (b = true <-> glob false p ch).
Proof. intros [Hp Hh]. apply stringmatchlen_ok; [done|by right]. Qed.

Lemma ok_channel_alive s ch c :
  server_ok s -> c ∈ default [] (pubsub_channels s !! ch) -> alive c s.
Proof. intros Hs Hc. apply (ok_channels s Hs ch) in Hc as (x & ? & _). by exists x. Qed.

Lemma ok_pattern_alive s p : server_ok s -> p ∈ pubsub_patterns s -> alive p.1 s /\ pattern_ok p.2.
Proof.
  intros Hs Hp. destruct p as [c p]. split; [|by eapply ok_pattern].
  apply ok_psubscribed in Hp as (x & ? & _); [|done]. by exists x.
Qed.

Lemma send_message_quiet ch msg c s t :
  s ≈ t -> alive c t -> wp (send_message ch msg c) (fun _ s' => s' ≈ t) s.
Proof.
  intros Hq Ha. unfold send_message.
  do 3 (eapply wp_seq; [by apply addReply_quiet|]; simpl; clear dependent s; intros _ s Hq).
  by apply addReply_quiet.
Qed.

(** Whether the pattern of a subscription matches the channel. *)
Definition matches (ch : bytes) (p : cid * bytes) : bool := default false (sds_match p.2 ch).

Lemma send_pmessage_quiet ch msg p s t :
  s ≈ t -> alive p.1 t -> pattern_ok p.2 ->
  wp (send_pmessage ch msg p) (fun n s' => n = (if matches ch p then 1 else 0) /\ s' ≈ t) s.
Proof.
  intros Hq Ha Hp. unfold send_pmessage, matches. destruct (sds_match_ok p.2 ch Hp) as (b & Hb & _).
  rewrite Hb. eapply wp_bind, wp_lift; [done|]. simpl.
  destruct b; [|done].
  do 5 (eapply wp_seq; [by apply addReply_quiet|]; simpl; clear dependent s; intros _ s Hq).
  done.
Qed.

(** What PUBLISH returns: the subscribers of the channel and the matching patterns. *)
Definition receivers (s : server) (ch : bytes) : Z :=
  zlen (default [] (pubsub_channels s !! ch)) +
  foldr (fun p n => (if matches ch p then 1 else 0) + n) 0 (pubsub_patterns s).

Lemma publish_quiet ch msg s t :
  s ≈ t -> server_ok t ->
  wp (pubsubPublishMessage ch msg) (fun n s' => n = receivers t ch /\ s' ≈ t) s.
Proof.
  intros Hq Ht. unfold pubsubPublishMessage, receivers. apply wp_bind, wp_gets.
  rewrite (quiet_channels _ _ Hq). eapply wp_seq.
  { apply mfor_quiet; [|done]. intros c s' Hc Hs'. apply send_message_quiet; [done|].
    by eapply ok_channel_alive. }
  simpl. intros _ s' Hq'. apply wp_bind, wp_gets. rewrite (quiet_patterns _ _ Hq').
  eapply wp_seq.
  { apply (wp_mfor_sum _ _ (fun p => if matches ch p then 1 else 0) (fun s => s ≈ t)); [|done].
    intros p s'' Hp Hs''. destruct (ok_pattern_alive t p Ht Hp). by apply send_pmessage_quiet. }
  simpl. by intros n s'' [-> ?].
Qed.

(** A database number prints. *)
Definition valid (s : server) (id : Z) : Prop := 0 <= id < zlen (dbs s).

Lemma valid_ll_str s id : server_ok s -> valid s id -> exists d, ll_str id = Some d.
Proof.
  intros Hs Hv. pose proof (ok_dbnum s Hs) as Hn. unfold INT32_MAX in Hn.
  destruct (ll_str_spec id) as (d & ? & _); [|by exists d].
  unfold valid in Hv. split; lia.
Qed.

Lemma notify_quiet ty ev key id s t :
  s ≈ t -> server_ok t -> valid t id ->
  wp (notifyKeyspaceEvent ty ev key id) (fun _ s' => s' ≈ t) s.
Proof.
  intros Hq Ht Hv. destruct (valid_ll_str t id Ht Hv) as [d Hd].
  unfold notifyKeyspaceEvent. apply wp_bind, wp_gets. destruct (negb _); [done|].
  eapply (wp_seq _ _ (fun _ s' => s' ≈ t)).
  - destruct (has _ REDIS_NOTIFY_KEYSPACE); [|done]. eapply wp_bind, wp_lift; [exact Hd|].
    eapply wp_seq; [by apply publish_quiet|]. simpl. by intros ? s' [_ ?].
  - intros _ s' Hs'. destruct (has _ REDIS_NOTIFY_KEYEVENT); [|done]. eapply wp_bind, wp_lift; [exact Hd|].
    eapply wp_seq; [by apply publish_quiet|]. simpl. by intros ? ? [_ ?].
Qed.

Lemma quiet_stats h m e n s : set_stats h m e n s ≈ s.
Proof. by constructor. Qed.
Lemma quiet_fed f s : set_fed f s ≈ s.
Proof. by constructor. Qed.
Lemma quiet_dirty f s : set_dirty f s ≈ s.
Proof. by constructor. Qed.
#[export] Hint Resolve quiet_stats quiet_fed quiet_dirty : core.

(** ** Databases *)

Definition empty_db : redisDb := mkDb ∅ ∅ ∅ ∅ ∅.

Definition db_at (s : server) (id : Z) : redisDb := default empty_db (rd (dbs s) id).
Definition key_of (s : server) (id : Z) (k : bytes) : option robj := dict (db_at s id) !! k.
Definition expire_of (s : server) (id : Z) (k : bytes) : option Z := expires (db_at s id) !! k.

Lemma db_at_valid s id : valid s id -> rd (dbs s) id = Some (db_at s id).
Proof. intros Hv. unfold db_at. by destruct (rd_is_Some (dbs s) id Hv) as [d ->]. Qed.

Lemma db_at_ok s id : server_ok s -> valid s id -> db_ok s id (db_at s id).
Proof. intros Hs Hv. apply (ok_dbs s Hs). by apply db_at_valid. Qed.

(** The state with database [id] changed. *)
Definition at_db (id : Z) (f : redisDb -> redisDb) (s : server) : server :=
  set_dbs (alter f (Z.to_nat id)) s.

Lemma rd_alter {A} (f : A -> A) (l : list A) i : 0 <= i -> rd (alter f (Z.to_nat i) l) i = f <$> rd l i.
Proof. intros. unfold rd. destruct (Z.leb_spec 0 i); [|lia]. apply list_lookup_alter_eq. Qed.

Lemma rd_alter_ne {A} (f : A -> A) (l : list A) i j : 0 <= i -> i <> j -> rd (alter f (Z.to_nat i) l) j = rd l j.
Proof.
  intros. unfold rd. destruct (Z.leb_spec 0 j); [|done]. apply list_lookup_alter_ne. lia.
Qed.

Lemma at_db_at id f s : valid s id -> db_at (at_db id f s) id = f (db_at s id).
Proof.
  intros Hv. unfold db_at at 1, at_db. simpl. rewrite rd_alter by apply Hv. by rewrite db_at_valid.
Qed.

Lemma at_db_at_ne id id' f s : valid s id -> id <> id' -> db_at (at_db id f s) id' = db_at s id'.
Proof. intros Hv Hne. unfold db_at, at_db. simpl. rewrite rd_alter_ne; [done|apply Hv|done]. Qed.

Lemma zlen_alter {A} (f : A -> A) i l : zlen (alter f i l) = zlen l.
Proof. unfold zlen. by rewrite length_alter. Qed.

Lemma valid_at_db id f s id' : valid (at_db id f s) id' <-> valid s id'.
Proof. unfold valid, at_db. simpl. by rewrite zlen_alter. Qed.

Lemma at_db_compose id f g s : at_db id f (at_db id g s) = at_db id (fun d => f (g d)) s.
Proof. unfold at_db, set_dbs. simpl. f_equal. by rewrite list_alter_alter_eq. Qed.

Lemma at_db_ext id f g s : f (db_at s id) = g (db_at s id) -> valid s id -> at_db id f s = at_db id g s.
Proof.
  intros Hfg Hv. unfold at_db, set_dbs. f_equal. apply list_alter_ext; [|done].
  intros d Hd. pose proof (db_at_valid s id Hv) as Hr. unfold rd in Hr.
  destruct (Z.leb_spec 0 id); [|done]. rewrite Hd in Hr. injection Hr as ->. done.
Qed.

Lemma at_db_id id f s : f (db_at s id) = db_at s id -> valid s id -> at_db id f s = s.
Proof.
  intros Hf Hv. transitivity (at_db id (fun d => d) s); [by apply at_db_ext|].
  unfold at_db, set_dbs. destruct s; simpl. f_equal. apply list_alter_id. done.
Qed.

Lemma quiet_valid s t id : s ≈ t -> valid t id -> valid s id.
Proof. intros Hq. unfold valid. by rewrite (quiet_dbs _ _ Hq). Qed.

Lemma quiet_db_at s t id : s ≈ t -> db_at s id = db_at t id.
Proof. intros Hq. unfold db_at. by rewrite (quiet_dbs _ _ Hq). Qed.

#[global] Instance at_db_proper id f : Proper (quiet ==> quiet) (at_db id f).
Proof. apply set_dbs_proper. Qed.

Lemma get_db_spec id s t :
  s ≈ t -> valid t id -> wp (get_db id) (fun d s' => d = db_at t id /\ s' ≈ t) s.
Proof.
  intros Hq Hv. eapply wp_get_db; [by apply db_at_valid; eapply quiet_valid|].
  split; [by apply quiet_db_at|done].
Qed.

Lemma insert_alter {A} (f : A -> A) (l : list A) (i : nat) x : l !! i = Some x -> <[i:=f x]> l = alter f i l.
Proof.
  revert i. induction l as [|y l IH]; intros [|i]; simpl; [done..|by intros [= ->]|].
  intros Hi. f_equal. by apply IH.
Qed.

Lemma update_db_spec id f s t :
  s ≈ t -> valid t id -> wp (update_db id f) (fun _ s' => s' ≈ at_db id f t) s.
Proof.
  intros Hq Hv. pose proof (db_at_valid s id (quiet_valid _ _ _ Hq Hv)) as Hr.
  eapply wp_update_db; [exact Hr|]. rewrite <- Hq. unfold at_db, set_dbs.
  rewrite (insert_alter f); [done|]. unfold rd in Hr. by destruct (Z.leb_spec 0 id).
Qed.

(** ** The invariant under changes of a database *)

(** [f] touches the keys and the expires only. *)
Definition keeps_watched (f : redisDb -> redisDb) : Prop := forall d, watched_keys (f d) = watched_keys d.

(** The part of [db_ok] that is about the keys. *)
Definition keys_ok (d : redisDb) : Prop :=
  (forall k w, expires d !! k = Some w -> is_Some (dict d !! k)) /\
  (forall k o, dict d !! k = Some o -> obj_ok o).

Lemma at_db_server_ok id f s :
  server_ok s -> valid s id -> keeps_watched f -> keys_ok (f (db_at s id)) -> server_ok (at_db id f s).
Proof.
  intros Hs Hv Hw [He Ho]. pose proof Hs as [Hn Hdb Hcl Hch Hnd Hps Hpo].
  split; try done.
  - unfold at_db. simpl. by rewrite zlen_alter.
  - intros id' d. unfold at_db. simpl. destruct (decide (id = id')) as [<-|Hne].
    + rewrite rd_alter by apply Hv. rewrite (db_at_valid s id Hv). intros [= <-]. split; [done|done|].
      rewrite Hw. apply (db_at_ok s id Hs Hv).
    + rewrite rd_alter_ne; [|apply Hv|done]. intros Hd. destruct (Hdb id' d Hd) as [???]. by split.
  - intros c x Hx. destruct (Hcl c x Hx) as [????].
    split; unfold at_db; simpl; rewrite ?zlen_alter; done.
Qed.

Lemma db_keys_ok s id : server_ok s -> valid s id -> keys_ok (db_at s id).
Proof. intros Hs Hv. by destruct (db_at_ok s id Hs Hv). Qed.

(** The changes the operations make. *)
Definition db_del (k : bytes) (d : redisDb) : redisDb := set_dict (delete k) (set_expires (delete k) d).
Definition db_put (k : bytes) (v : robj) (d : redisDb) : redisDb := set_dict (insert k v) d.
Definition db_set (k : bytes) (v : robj) (d : redisDb) : redisDb :=
  set_dict (insert k v) (set_expires (delete k) d).
Definition db_persist (k : bytes) (d : redisDb) : redisDb := set_expires (delete k) d.
Definition db_expire (k : bytes) (w : Z) (d : redisDb) : redisDb := set_expires (insert k w) d.

Lemma keys_ok_del k d : keys_ok d -> keys_ok (db_del k d).
Proof.
  intros [He Ho]. split; simpl.
  - intros k' w [? Hw]%lookup_delete_Some. rewrite lookup_delete_ne by done. by eapply He.
  - intros k' o [? Hk]%lookup_delete_Some. by eapply Ho.
Qed.

Lemma keys_ok_put k v d : obj_ok v -> keys_ok d -> keys_ok (db_put k v d).
Proof.
  intros Hv [He Ho]. split; simpl.
  - intros k' w Hw. apply lookup_insert_is_Some'. right. by eapply He.
  - intros k' o [[<- <-]|[? Hk]]%lookup_insert_Some; [done|by eapply Ho].
Qed.

Lemma keys_ok_persist k d : keys_ok d -> keys_ok (db_persist k d).
Proof.
  intros [He Ho]. split; simpl; [|done].
  intros k' w [? Hw]%lookup_delete_Some. by eapply He.
Qed.

Lemma keys_ok_set k v d : obj_ok v -> keys_ok d -> keys_ok (db_set k v d).
Proof. intros Hv Hd. by apply (keys_ok_put k v (db_persist k d)), keys_ok_persist. Qed.

Lemma keys_ok_expire k w d : is_Some (dict d !! k) -> keys_ok d -> keys_ok (db_expire k w d).
Proof.
  intros Hk [He Ho]. split; simpl; [|done].
  intros k' w' [[<- <-]|[? Hw]]%lookup_insert_Some; [done|by eapply He].
Qed.

Lemma keys_ok_ready g d : keys_ok d -> keys_ok (set_ready g d).
Proof. done. Qed.

#[export] Hint Resolve at_db_server_ok db_keys_ok keys_ok_del keys_ok_put keys_ok_persist keys_ok_set
  keys_ok_expire keys_ok_ready : server.
#[export] Hint Extern 1 (keeps_watched _) => done : server.
#[export] Hint Extern 1 (valid (at_db _ _ _) _) => apply valid_at_db : server.
#[export] Hint Extern 1 (alive _ (at_db _ _ ?s)) => change (alive _ s) : server.

Lemma put_ok id k v s : server_ok s -> valid s id -> obj_ok v -> server_ok (at_db id (db_put k v) s).
Proof. auto with server. Qed.
Lemma del_ok id k s : server_ok s -> valid s id -> server_ok (at_db id (db_del k) s).
Proof. auto with server. Qed.
Lemma persist_ok id k s : server_ok s -> valid s id -> server_ok (at_db id (db_persist k) s).
Proof. auto with server. Qed.
#[export] Hint Resolve put_ok del_ok persist_ok : server.

(** ** Watched keys *)

Lemma ok_watcher_alive s id k c :
  server_ok s -> valid s id -> c ∈ default [] (watched_keys (db_at s id) !! k) -> alive c s.
Proof.
  intros Hs Hv Hc. apply (db_watch s id _ (db_at_ok s id Hs Hv) k) in Hc as (x & ? & _). by exists x.
Qed.

Lemma touch_quiet id k s t :
  s ≈ t -> server_ok t -> valid t id -> wp (touchWatchedKey id k) (fun _ s' => s' ≈ t) s.
Proof.
  intros Hq Ht Hv. unfold touchWatchedKey.
  eapply wp_seq; [by eapply get_db_spec|]. simpl. intros d s' [-> Hs'].
  destruct (watched_keys (db_at t id) !! k) as [l|] eqn:Hl; [|done].
  apply mfor_quiet; [|done]. intros c s'' Hc Hs''. apply update_client_quiet; [auto with server|done|].
  eapply (ok_watcher_alive t id k); [done|done|]. by rewrite Hl.
Qed.

Lemma signal_quiet id k s t :
  s ≈ t -> server_ok t -> valid t id -> wp (signalModifiedKey id k) (fun _ s' => s' ≈ t) s.
Proof. apply touch_quiet. Qed.

(** ** Keys *)

Lemma lookupKey_spec id k s t :
  s ≈ t -> valid t id -> wp (lookupKey id k) (fun o s' => o = key_of t id k /\ s' ≈ t) s.
Proof.
  intros Hq Hv. eapply wp_seq; [by eapply get_db_spec|]. simpl. by intros d s' [-> ?].
Qed.

Lemma dbDelete_spec id k s t :
  s ≈ t -> valid t id ->
  wp (dbDelete id k) (fun b s' => b = bool_decide (is_Some (key_of t id k)) /\ s' ≈ at_db id (db_del k) t) s.
Proof.
  intros Hq Hv. unfold dbDelete.
  eapply wp_seq; [by eapply update_db_spec|]. simpl. intros _ s1 Hs1.
  eapply wp_seq; [eapply lookupKey_spec; [done|by apply valid_at_db]|]. simpl.
  intros o s2 [-> Hs2]. unfold key_of at 1. rewrite at_db_at by done. simpl. fold (key_of t id k).
  destruct (key_of t id k) as [o|] eqn:Ho.
  - eapply wp_seq; [eapply update_db_spec; [done|by apply valid_at_db]|]. simpl. intros _ s3 Hs3.
    rewrite at_db_compose in Hs3. done.
  - split; [done|]. rewrite Hs2.
    erewrite at_db_ext; [done| |done]. unfold db_del, set_dict. simpl. unfold set_expires.
    by rewrite (delete_id (dict _)).
Qed.

Lemma getExpire_spec id k s t :
  s ≈ t -> server_ok t -> valid t id ->
  wp (getExpire id k) (fun w s' => w = default (-1) (expire_of t id k) /\ s' ≈ t) s.
Proof.
  intros Hq Ht Hv. unfold getExpire. eapply wp_seq; [by eapply get_db_spec|]. simpl. intros d s' [-> Hs'].
  unfold expire_of. destruct (expires (db_at t id) !! k) as [w|] eqn:Hw; [|done].
  destruct (db_expires t id _ (db_at_ok t id Ht Hv) k w Hw) as [o ->]. done.
Qed.

(** The key of an assertion is there. *)
Lemma assert_spec b s t : s ≈ t -> b = true -> wp (redisAssert b) (fun _ s' => s' ≈ t) s.
Proof. by intros ? ->. Qed.

Lemma removeExpire_spec id k s t :
  s ≈ t -> valid t id -> is_Some (key_of t id k) ->
  wp (removeExpire id k) (fun b s' => b = bool_decide (is_Some (expire_of t id k)) /\
                                      s' ≈ at_db id (db_persist k) t) s.
Proof.
  intros Hq Hv [o Ho]. unfold removeExpire.
  eapply wp_seq; [by eapply get_db_spec|]. simpl. intros d s1 [-> Hs1].
  unfold key_of in Ho. rewrite Ho. eapply wp_seq; [by eapply assert_spec|]. simpl. intros _ s2 Hs2.
  unfold expire_of. destruct (expires (db_at t id) !! k) as [w|] eqn:Hw.
  - eapply wp_seq; [by eapply update_db_spec|]. simpl. intros _ s3 Hs3.
    done.
  - split; [done|]. rewrite at_db_id; [done| |done].
    unfold db_persist, set_expires. rewrite delete_id by done. by destruct (db_at t id).
Qed.

Lemma setExpire_spec id k w s t :
  s ≈ t -> valid t id -> is_Some (key_of t id k) ->
  wp (setExpire id k w) (fun _ s' => s' ≈ at_db id (db_expire k w) t) s.
Proof.
  intros Hq Hv [o Ho]. unfold setExpire.
  eapply wp_seq; [by eapply get_db_spec|]. simpl. intros d s1 [-> Hs1].
  unfold key_of in Ho. rewrite Ho. eapply wp_seq; [by eapply assert_spec|]. simpl. intros _ s2 Hs2.
  by apply update_db_spec.
Qed.

(** What [signalListAsReady] writes. *)
Definition list_ready (id : Z) (k : bytes) (s : server) : server :=
  match blocking_keys (db_at s id) !! k with
  | None => s
  | Some _ =>
      if decide (k ∈ ready (db_at s id)) then s
      else at_db id (set_ready (union {[k]})) (set_ready_keys (fun l => l ++ [(id, k)]) s)
  end.

Definition key_add (id : Z) (k : bytes) (v : robj) (s : server) : server :=
  let s := at_db id (db_put k v) s in
  if bool_decide (obj_type v = REDIS_LIST) then list_ready id k s else s.

#[global] Instance list_ready_proper id k : Proper (quiet ==> quiet) (list_ready id k).
Proof.
  intros s t Hq. unfold list_ready. rewrite (quiet_db_at _ _ id Hq).
  destruct (blocking_keys (db_at t id) !! k); [|done]. case_decide; [done|]. by rewrite Hq.
Qed.

#[global] Instance key_add_proper id k v : Proper (quiet ==> quiet) (key_add id k v).
Proof. intros s t Hq. unfold key_add. case_bool_decide; by rewrite Hq. Qed.

Lemma list_ready_cases id k s (P : server -> Prop) :
  P s -> P (at_db id (set_ready (union {[k]})) (set_ready_keys (fun l => l ++ [(id, k)]) s)) -> P (list_ready id k s).
Proof.
  intros H0 H1. unfold list_ready. destruct (blocking_keys (db_at s id) !! k); [|done]. by case_decide.
Qed.

(** No client waits for a list: there is nothing to serve. *)
Definition idle (s : server) : Prop := ready_keys s = [] /\ Forall (fun d => blocking_keys d = ∅) (dbs s).

Definition keeps_blocking (f : redisDb -> redisDb) : Prop := forall d, blocking_keys (f d) = blocking_keys d.

Lemma idle_quiet s t : s ≈ t -> idle t -> idle s.
Proof. intros [[=]] [Hr Hb]. split; congruence. Qed.

Lemma idle_at_db id f s : keeps_blocking f -> idle s -> idle (at_db id f s).
Proof.
  intros Hf [Hr Hb]. split; [done|]. unfold at_db. simpl. rewrite Forall_lookup in *. intros i d.
  destruct (decide (i = Z.to_nat id)) as [->|].
  - rewrite list_lookup_alter_eq. intros (d' & Hd & ->)%fmap_Some. rewrite Hf. by eapply Hb.
  - rewrite list_lookup_alter_ne by done. apply Hb.
Qed.

Lemma idle_db_at s id : idle s -> blocking_keys (db_at s id) = ∅.
Proof.
  intros [_ Hb]. unfold db_at. destruct (rd (dbs s) id) as [d|] eqn:Hd; [|done]. simpl.
  exact (rd_Forall _ _ _ _ Hb Hd).
Qed.

Lemma idle_list_ready id k s : idle s -> list_ready id k s = s.
Proof. intros Hs. unfold list_ready. by rewrite idle_db_at, lookup_empty. Qed.

Lemma idle_key_add id k v s : idle s -> idle (key_add id k v s).
Proof.
  intros Hs. assert (idle (at_db id (db_put k v) s)) as H by by apply idle_at_db. unfold key_add.
  case_bool_decide; [|done]. by rewrite idle_list_ready.
Qed.

Lemma ready_keys_ok f s : server_ok s -> server_ok (set_ready_keys f s).
Proof.
  intros [Hn Hdb Hcl Hch Hnd Hps Hpo]. split; try done; [|].
  - intros id d Hd. destruct (Hdb id d Hd). by split.
  - intros c x Hx. destruct (Hcl c x Hx). by split.
Qed.

Lemma list_ready_ok id k s : server_ok s -> valid s id -> server_ok (list_ready id k s).
Proof.
  intros Hs Hv. apply list_ready_cases; [done|].
  apply at_db_server_ok; [by apply ready_keys_ok|done|done|]. by apply keys_ok_ready, (db_keys_ok s id).
Qed.

Lemma key_add_ok id k v s : server_ok s -> valid s id -> obj_ok v -> server_ok (key_add id k v s).
Proof.
  intros Hs Hv Ho. assert (server_ok (at_db id (db_put k v) s)) by auto with server.
  unfold key_add. case_bool_decide; [|done]. apply list_ready_ok; auto with server.
Qed.

Lemma key_add_string id k v s : obj_type v = REDIS_STRING -> key_add id k v s = at_db id (db_put k v) s.
Proof. intros Hv. unfold key_add. by rewrite Hv. Qed.

Lemma list_ready_db id k s id' :
  valid s id -> valid (list_ready id k s) id' = valid s id' /\
  dict (db_at (list_ready id k s) id') = dict (db_at s id') /\
  expires (db_at (list_ready id k s) id') = expires (db_at s id') /\ clients (list_ready id k s) = clients s.
Proof.
  intros Hv. apply list_ready_cases; [done|]. set (s' := set_ready_keys _ s).
  assert (valid s' id) by done. split_and!.
  - unfold valid, at_db. simpl. by rewrite zlen_alter.
  - destruct (decide (id = id')) as [<-|]; [by rewrite at_db_at|by rewrite at_db_at_ne].
  - destruct (decide (id = id')) as [<-|]; [by rewrite at_db_at|by rewrite at_db_at_ne].
  - done.
Qed.

Lemma key_add_db id k v s id' :
  valid s id -> (valid (key_add id k v s) id' <-> valid s id') /\
  key_of (key_add id k v s) id' = key_of (at_db id (db_put k v) s) id' /\
  expire_of (key_add id k v s) id' = expire_of (at_db id (db_put k v) s) id' /\
  clients (key_add id k v s) = clients s.
Proof.
  intros Hv. unfold key_add. assert (valid (at_db id (db_put k v) s) id) by by apply valid_at_db.
  case_bool_decide; [|split_and!; [apply valid_at_db|done|done|done]].
  destruct (list_ready_db id k (at_db id (db_put k v) s) id') as (-> & Hd & He & ->); [done|].
  unfold key_of, expire_of. rewrite Hd, He. split_and!; [apply valid_at_db|done|done|done].
Qed.

Lemma signalListAsReady_spec id k s t :
  s ≈ t -> valid t id -> wp (signalListAsReady id k) (fun _ s' => s' ≈ list_ready id k t) s.
Proof.
  intros Hq Hv. unfold signalListAsReady, list_ready.
  eapply wp_seq; [by eapply get_db_spec|]. simpl. intros d s1 [-> Hs1].
  destruct (blocking_keys (db_at t id) !! k); [|done]. case_decide; [done|].
  apply wp_bind, wp_modify. apply update_db_spec; [by rewrite Hs1|done].
Qed.

Lemma dbAdd_spec id k v s t :
  s ≈ t -> valid t id -> key_of t id k = None ->
  wp (dbAdd id k v) (fun _ s' => s' ≈ key_add id k v t) s.
Proof.
  intros Hq Hv Hk. unfold dbAdd, key_add. eapply wp_seq; [by eapply get_db_spec|]. simpl. intros d s1 [-> Hs1].
  unfold key_of in Hk. rewrite Hk. eapply wp_seq; [by eapply assert_spec|]. simpl. intros _ s2 Hs2.
  eapply wp_seq; [by eapply update_db_spec|]. simpl. intros _ s3 Hs3.
  case_bool_decide; [|done]. apply signalListAsReady_spec; [done|by apply valid_at_db].
Qed.

Lemma dbOverwrite_spec id k v s t :
  s ≈ t -> valid t id -> is_Some (key_of t id k) ->
  wp (dbOverwrite id k v) (fun _ s' => s' ≈ at_db id (db_put k v) t) s.
Proof.
  intros Hq Hv [o Hk]. unfold dbOverwrite. eapply wp_seq; [by eapply get_db_spec|]. simpl. intros d s1 [-> Hs1].
  unfold key_of in Hk. rewrite Hk. eapply wp_seq; [by eapply assert_spec|]. simpl. intros _ s2 Hs2.
  by apply update_db_spec.
Qed.

(** ** Expiration *)

(** The clock [expireIfNeeded] reads: frozen while a script runs. *)
Definition clock (s : server) : Z := match lua_time_start s with Some t => t | None => mstime s end.

(** The key is logically expired. *)
Definition due (s : server) (id : Z) (k : bytes) : bool :=
  match expire_of s id k with
  | Some w => (0 <=? w) && negb (loading s) && (clock s >? w)
  | None => false
  end.

(** A due key is deleted, except on a slave. *)
Definition purge (id : Z) (k : bytes) (s : server) : server :=
  if due s id k && negb (masterhost s) then at_db id (db_del k) s else s.

Lemma due_proper s t id k : s ≈ t -> due s id k = due t id k.
Proof.
  intros Hq. unfold due, expire_of, clock.
  by rewrite (quiet_db_at _ _ id Hq), (quiet_loading _ _ Hq), (quiet_lua _ _ Hq), (quiet_mstime _ _ Hq).
Qed.

#[global] Instance purge_proper id k : Proper (quiet ==> quiet) (purge id k).
Proof.
  intros s t Hq. unfold purge. rewrite (due_proper _ _ id k Hq), (quiet_masterhost _ _ Hq).
  destruct (_ && _); by rewrite ?Hq.
Qed.

Lemma purge_ok id k s : server_ok s -> valid s id -> server_ok (purge id k s).
Proof. intros. unfold purge. destruct (_ && _); auto with server. Qed.

Lemma purge_clients id k s : clients (purge id k s) = clients s.
Proof. unfold purge. by destruct (_ && _). Qed.

Lemma idle_purge id k s : idle s -> idle (purge id k s).
Proof. intros. unfold purge. destruct (_ && _); [by apply idle_at_db|done]. Qed.

Lemma purge_valid id k s id' : valid (purge id k s) id' <-> valid s id'.
Proof. unfold purge. destruct (_ && _); [apply valid_at_db|done]. Qed.

Lemma propagateExpire_quiet id k s t : s ≈ t -> wp (propagateExpire id k) (fun _ s' => s' ≈ t) s.
Proof. intros Hq. apply wp_bind, wp_gets. by apply modify_quiet. Qed.

Lemma expireIfNeeded_spec id k s t :
  s ≈ t -> server_ok t -> valid t id ->
  wp (expireIfNeeded id k) (fun b s' => b = due t id k /\ s' ≈ purge id k t) s.
Proof.
  intros Hq Ht Hv. unfold expireIfNeeded, purge, due.
  eapply wp_seq; [by eapply getExpire_spec|]. simpl. intros w s1 [-> Hs1].
  destruct (expire_of t id k) as [w|] eqn:Hw; simpl; [|done].
  destruct (Z.ltb_spec w 0); [destruct (Z.leb_spec 0 w); [lia|done]|].
  destruct (Z.leb_spec 0 w); [|lia]. simpl. apply wp_bind, wp_gets. rewrite (quiet_loading _ _ Hs1).
  destruct (loading t); simpl; [done|]. do 2 apply wp_bind, wp_gets.
  fold (clock s1). replace (clock s1) with (clock t) by
    (unfold clock; by rewrite (quiet_lua _ _ Hs1), (quiet_mstime _ _ Hs1)).
  rewrite (quiet_masterhost _ _ Hs1). destruct (masterhost t); [by rewrite andb_false_r|].
  rewrite andb_true_r. destruct (Z.leb_spec (clock t) w), (Z.gtb_spec (clock t) w); try lia; [done|].
  eapply wp_seq; [by apply modify_quiet|]. simpl. intros _ s2 Hs2.
  eapply wp_seq; [by apply propagateExpire_quiet|]. simpl. intros _ s3 Hs3.
  eapply wp_seq; [by apply notify_quiet|]. simpl. intros _ s4 Hs4.
  eapply wp_mono; [by apply dbDelete_spec|]. simpl. intros b s5 [-> Hs5]. split; [|done].
  destruct (db_expires t id _ (db_at_ok t id Ht Hv) k w Hw) as [o Ho].
  unfold key_of. by rewrite Ho.
Qed.

(** What a lookup with lazy expiration finds. *)
Definition live (s : server) (id : Z) (k : bytes) : option robj := key_of (purge id k s) id k.

Lemma live_proper s t id k : s ≈ t -> live s id k = live t id k.
Proof. intros Hq. unfold live, key_of. by rewrite (quiet_db_at _ (purge id k t) id) by by rewrite Hq. Qed.

Lemma lookupKeyWrite_spec id k s t :
  s ≈ t -> server_ok t -> valid t id ->
  wp (lookupKeyWrite id k) (fun o s' => o = live t id k /\ s' ≈ purge id k t) s.
Proof.
  intros Hq Ht Hv. eapply wp_seq; [by apply expireIfNeeded_spec|]. simpl. intros _ s1 [_ Hs1].
  apply lookupKey_spec; [done|by apply purge_valid].
Qed.

Lemma lookupKeyRead_spec id k s t :
  s ≈ t -> server_ok t -> valid t id ->
  wp (lookupKeyRead id k) (fun o s' => o = live t id k /\ s' ≈ purge id k t) s.
Proof.
  intros Hq Ht Hv. eapply wp_seq; [by apply expireIfNeeded_spec|]. simpl. intros _ s1 [_ Hs1].
  eapply wp_seq; [apply lookupKey_spec; [done|by apply purge_valid]|]. simpl. intros o s2 [-> Hs2].
  eapply (wp_seq _ _ (fun _ s' => s' ≈ purge id k t)); [|done].
  destruct (key_of _ _ _); by apply modify_quiet.
Qed.

(** A live key was not due, or the server is a slave. *)
Lemma live_Some s id k o : valid s id -> live s id k = Some o -> purge id k s = s /\ key_of s id k = Some o.
Proof.
  unfold live, purge. intros Hv. destruct (_ && _); [|done]. unfold key_of. rewrite at_db_at by done.
  simpl. by rewrite lookup_delete_eq.
Qed.

Lemma live_not_due s id k : due s id k = false -> live s id k = key_of s id k.
Proof. unfold live, purge. by intros ->. Qed.

Lemma live_due s id k : valid s id -> due s id k = true -> masterhost s = false -> live s id k = None.
Proof.
  unfold live, purge. intros Hv -> ->. simpl. unfold key_of. rewrite at_db_at by done.
  simpl. by rewrite lookup_delete_eq.
Qed.

Lemma purge_cases id k s (P : server -> Prop) :
  (due s id k = false \/ masterhost s = true -> P s) ->
  (due s id k = true -> masterhost s = false -> P (at_db id (db_del k) s)) -> P (purge id k s).
Proof. unfold purge. destruct (due s id k), (masterhost s); simpl; auto. Qed.

Lemma purge_idemp id k s : valid s id -> purge id k (purge id k s) = purge id k s.
Proof.
  intros Hv. destruct (due s id k && negb (masterhost s)) eqn:E.
  - assert (purge id k s = at_db id (db_del k) s) as -> by (unfold purge; by rewrite E).
    unfold purge, due, expire_of. rewrite at_db_at by done. simpl. by rewrite lookup_delete_eq.
  - assert (purge id k s = s) as H by (unfold purge; by rewrite E). by rewrite !H.
Qed.

Lemma live_purge id k s : valid s id -> live (purge id k s) id k = live s id k.
Proof. intros Hv. unfold live. by rewrite purge_idemp. Qed.

(** [setKey] replaces the value and drops the expire. *)
Definition key_set (id : Z) (k : bytes) (v : robj) (s : server) : server := at_db id (db_set k v) s.

Lemma key_set_purge id k v s :
  valid s id -> at_db id (db_persist k) (at_db id (db_put k v) (purge id k s)) = key_set id k v s.
Proof.
  intros Hv. rewrite at_db_compose. unfold key_set, purge. destruct (_ && _); [|done].
  rewrite at_db_compose. apply at_db_ext; [|done]. unfold db_persist, db_put, db_del, db_set, set_dict, set_expires.
  simpl. by rewrite insert_delete_eq, delete_delete_eq.
Qed.

Lemma setKey_spec id k v s t :
  s ≈ t -> server_ok t -> valid t id -> obj_type v = REDIS_STRING -> obj_ok v ->
  wp (setKey id k v) (fun _ s' => s' ≈ key_set id k v t) s.
Proof.
  intros Hq Ht Hv Hty Hov. unfold setKey. eapply wp_seq; [by apply lookupKeyWrite_spec|]. simpl.
  intros o s1 [-> Hs1].
  assert (valid (purge id k t) id) as Hvp by by apply purge_valid.
  eapply (wp_seq _ _ (fun _ s' => s' ≈ at_db id (db_put k v) (purge id k t))).
  { destruct (live t id k) eqn:Hl; [by apply dbOverwrite_spec|].
    rewrite <- (key_add_string id k v) by done. by apply dbAdd_spec. }
  intros _ s2 Hs2. eapply wp_seq.
  { apply removeExpire_spec; [done|by apply valid_at_db|]. unfold key_of. rewrite at_db_at by done.
    simpl. by rewrite lookup_insert_eq. }
  simpl. intros _ s3 [_ Hs3]. rewrite key_set_purge in Hs3 by done.
  apply signal_quiet; unfold key_set; auto with server.
Qed.

Lemma key_set_purged id k v s : valid s id -> key_set id k v (purge id k s) = key_set id k v s.
Proof. intros Hv. rewrite <- !key_set_purge by (try apply purge_valid; done). by rewrite purge_idemp. Qed.

(** Strings that are about to be modified. *)
Lemma decoded_ok o : obj_type o = REDIS_STRING -> obj_ok o -> exists b, getDecodedObject o = Some b.
Proof.
  destruct o as [v|b| | | |]; try done; [|by exists b]. intros _ Hv.
  destruct (ll_str_spec v Hv) as (b & ? & _). by exists b.
Qed.

Lemma stored_decoded o b : obj_type o = REDIS_STRING -> getDecodedObject o = Some b -> obj_ok o ->
  stringObjectLen o = Some (zlen b).
Proof.
  destruct o as [v|c| | | |]; try done; [|by intros _ [= ->]].
  intros _ Hb Hv. destruct (ll_str_spec v Hv) as (b' & Hb' & _ & _ & Hr). unfold stringObjectLen.
  rewrite Hr. unfold getDecodedObject in Hb. rewrite Hb' in Hb. by injection Hb as ->.
Qed.

(** [dbUnshareStringValue] leaves the bytes; the caller overwrites them. *)
Definition key_raw (id : Z) (k : bytes) (o : robj) (b : bytes) (s : server) : server :=
  match o with StrRaw _ => s | _ => at_db id (db_put k (StrRaw b)) s end.

Lemma dbUnshare_spec id k o b s t :
  s ≈ t -> valid t id -> key_of t id k = Some o -> obj_type o = REDIS_STRING ->
  getDecodedObject o = Some b ->
  wp (dbUnshareStringValue id k o) (fun r s' => r = b /\ s' ≈ key_raw id k o b t) s.
Proof.
  intros Hq Hv Hk Hty Hb. unfold dbUnshareStringValue. rewrite Hty.
  eapply wp_seq; [by eapply assert_spec|]. simpl. intros _ s1 Hs1.
  destruct o as [v|c| | | |]; try done; [|by injection Hb as ->].
  eapply wp_bind, wp_lift; [exact Hb|]. eapply wp_seq; [by eapply dbOverwrite_spec|].
  simpl. by intros _ s2 Hs2.
Qed.

Lemma store_string_spec id k b s t :
  s ≈ t -> valid t id -> wp (store_string id k b) (fun _ s' => s' ≈ at_db id (db_put k (StrRaw b)) t) s.
Proof. apply update_db_spec. Qed.

Lemma put_key_raw id k o b v s :
  valid s id -> at_db id (db_put k v) (key_raw id k o b s) = at_db id (db_put k v) s.
Proof.
  intros Hv. unfold key_raw. destruct o; try done; rewrite at_db_compose; apply at_db_ext; try done;
    unfold db_put, set_dict; simpl; by rewrite insert_insert_eq.
Qed.

(** ** The client of a command *)

Lemma get_client_spec c y s t :
  s ≈ t -> clients t !! c = Some y ->
  wp (get_client c) (fun x s' => client_core x = client_core y /\ s' ≈ t) s.
Proof.
  intros Hq Hy. symmetry in Hq. destruct (quiet_client _ _ _ _ Hq Hy) as (x & Hx & Hc).
  eapply wp_get_client; [done|]. by symmetry in Hq.
Qed.

Lemma client_db_spec c y s t :
  s ≈ t -> clients t !! c = Some y -> wp (client_db c) (fun id s' => id = db y /\ s' ≈ t) s.
Proof.
  intros Hq Hy. eapply wp_seq; [by eapply get_client_spec|]. simpl.
  intros x s' [(->&_)%client_core_eq ?]. done.
Qed.

Lemma client_argv_spec c y s t :
  s ≈ t -> clients t !! c = Some y -> wp (client_argv c) (fun l s' => l = argv y /\ s' ≈ t) s.
Proof.
  intros Hq Hy. eapply wp_seq; [by eapply get_client_spec|]. simpl.
  intros x s' [(_&->&_)%client_core_eq ?]. done.
Qed.

Lemma arg_spec c y i a s t :
  s ≈ t -> clients t !! c = Some y -> rd (argv y) i = Some a -> wp (arg c i) (fun b s' => b = a /\ s' ≈ t) s.
Proof.
  intros Hq Hy Ha. eapply wp_seq; [by eapply client_argv_spec|]. simpl. intros l s' [-> Hs'].
  by eapply wp_lift.
Qed.

Lemma ok_client_db s c y : server_ok s -> clients s !! c = Some y -> valid s (db y).
Proof. intros Hs Hy. by destruct (ok_clients s Hs c y Hy). Qed.

Lemma cl_at_db id f c y s : clients s !! c = Some y -> clients (at_db id f s) !! c = Some y.
Proof. done. Qed.
Lemma cl_purge id k c y s : clients s !! c = Some y -> clients (purge id k s) !! c = Some y.
Proof. by rewrite purge_clients. Qed.
Lemma cl_key_add id k v c y s :
  valid s id -> clients s !! c = Some y -> clients (key_add id k v s) !! c = Some y.
Proof. intros Hv. by destruct (key_add_db id k v s id Hv) as (_ & _ & _ & ->). Qed.
Lemma cl_key_raw id k o b c y s : clients s !! c = Some y -> clients (key_raw id k o b s) !! c = Some y.
Proof. by destruct o. Qed.
Lemma alive_cl c y s : clients s !! c = Some y -> alive c s.
Proof. by exists y. Qed.

Lemma valid_at_db' id f s id' : valid s id' -> valid (at_db id f s) id'.
Proof. apply valid_at_db. Qed.
Lemma valid_purge' id k s id' : valid s id' -> valid (purge id k s) id'.
Proof. apply purge_valid. Qed.
Lemma valid_key_add' id k v s id' : valid s id -> valid s id' -> valid (key_add id k v s) id'.
Proof. intros Hv ?. by apply (key_add_db id k v s id' Hv). Qed.
Lemma valid_key_raw' id k o b s id' : valid s id' -> valid (key_raw id k o b s) id'.
Proof. destruct o; try apply valid_at_db; done. Qed.
Lemma key_set_ok id k v s : server_ok s -> valid s id -> obj_ok v -> server_ok (key_set id k v s).
Proof. intros. unfold key_set. auto with server. Qed.
Lemma valid_key_set' id k v s id' : valid s id' -> valid (key_set id k v s) id'.
Proof. apply valid_at_db. Qed.
Lemma cl_key_set id k v c y s : clients s !! c = Some y -> clients (key_set id k v s) !! c = Some y.
Proof. done. Qed.

Lemma key_raw_ok id k o b s : server_ok s -> valid s id -> server_ok (key_raw id k o b s).
Proof. intros. destruct o; try apply put_ok; done. Qed.

#[export] Hint Resolve key_raw_ok cl_at_db cl_purge cl_key_add cl_key_raw cl_key_set alive_cl valid_at_db' valid_purge'
  valid_key_add' valid_key_raw' valid_key_set' purge_ok key_add_ok key_set_ok ok_client_db : server.

Lemma alive_at_db id f c s : alive c s -> alive c (at_db id f s).
Proof. done. Qed.
Lemma alive_purge id k c s : alive c s -> alive c (purge id k s).
Proof. unfold alive. by rewrite purge_clients. Qed.
Lemma alive_key_raw id k o b c s : alive c s -> alive c (key_raw id k o b s).
Proof. by destruct o. Qed.
#[export] Hint Resolve alive_at_db alive_purge alive_key_raw : server.

(** Many lookups: the expired keys go. *)
Definition purge_all (id : Z) (ks : list bytes) (t : server) : server := foldl (fun t k => purge id k t) t ks.

Lemma purge_all_ok id ks t :
  server_ok t -> valid t id ->
  server_ok (purge_all id ks t) /\ valid (purge_all id ks t) id /\ clients (purge_all id ks t) = clients t.
Proof.
  revert t. induction ks as [|k ks IH]; intros t Ht Hv; [done|]. simpl.
  destruct (IH (purge id k t)) as (? & ? & ->); auto with server. by rewrite purge_clients.
Qed.

Lemma idle_purge_all id ks t : idle t -> idle (purge_all id ks t).
Proof. revert t. induction ks as [|k ks IH]; intros t Ht; [done|]. apply IH. by apply idle_purge. Qed.

Lemma live_purge_any id k k' t : valid t id -> live (purge id k' t) id k = live t id k.
Proof.
  intros Hv. destruct (decide (k = k')) as [->|Hne]; [by apply live_purge|].
  unfold purge at 1. destruct (due t id k' && negb (masterhost t)); [|done].
  assert (due (at_db id (db_del k') t) id k = due t id k) as Hd.
  { unfold due, expire_of. rewrite at_db_at by done. simpl. by rewrite lookup_delete_ne. }
  unfold live, purge. rewrite Hd. change (masterhost (at_db id (db_del k') t)) with (masterhost t).
  destruct (due t id k && negb (masterhost t)); unfold key_of.
  - rewrite !at_db_at by (try apply valid_at_db; done). simpl. by rewrite !lookup_delete_eq.
  - rewrite at_db_at by done. simpl. by rewrite lookup_delete_ne.
Qed.

(** ** Replies of the command helpers *)

(** An error was the last thing written to [c]. *)
Definition failed (c : cid) (s : server) : Prop := exists e, replied c (RError e) s.

Lemma fail_spec c e s t :
  s ≈ t -> alive c t -> wp (addReplyError c e) (fun _ s' => s' ≈ t /\ failed c s') s.
Proof.
  intros. eapply wp_mono; [by apply addReply_spec|]. intros _ s' [? ?]. split; [done|]. by eexists.
Qed.

Lemma failf_spec c e s t :
  s ≈ t -> alive c t -> wp (addReplyErrorFormat c e) (fun _ s' => s' ≈ t /\ failed c s') s.
Proof.
  intros. eapply wp_mono; [by apply addReply_spec|]. intros _ s' [? ?]. split; [done|]. by eexists.
Qed.

(** The integer a string argument denotes, as [strtoll] reads it. *)
Definition ll_of (o : option robj) : option Z := default None (getLongLongFromObject o).

Lemma getLongLong_total o :
  (forall v, o = Some v -> obj_type v = REDIS_STRING) -> getLongLongFromObject o = Some (ll_of o).
Proof.
  intros Hs. destruct o as [[v|b| | | |]|]; try done; try by specialize (Hs _ eq_refl).
  unfold ll_of, getLongLongFromObject. destruct (c_str_total b) as [p ->]. cbn [mbind option_bind].
  by destruct (strtoll p) as [[? ?] ?].
Qed.

Lemma getLongLongReply_spec c o msg s t :
  s ≈ t -> alive c t -> (forall v, o = Some v -> obj_type v = REDIS_STRING) ->
  wp (getLongLongFromObjectOrReply c o msg) (fun r s' => r = ll_of o /\ s' ≈ t /\ (r = None -> failed c s')) s.
Proof.
  intros Hq Ha Hty. unfold getLongLongFromObjectOrReply.
  eapply wp_bind, wp_lift; [by apply getLongLong_total|]. destruct (ll_of o); [done|].
  eapply wp_seq; [by apply fail_spec|]. simpl. by intros _ s' [? ?].
Qed.

(** The integers read fit 64 bits. *)
Lemma ll_of_fits o n : (forall v, o = Some v -> obj_ok v) -> ll_of o = Some n -> sfits 64 n.
Proof.
  unfold ll_of, getLongLongFromObject. destruct o as [[v|b| | | |]|]; simpl; intros Ho; try done;
    try (intros [= <-]); [by apply (Ho _ eq_refl)| |done].
  destruct (c_str_total b) as [p ->]. cbn [mbind option_bind].
  destruct (strtoll p) as [[v q] e] eqn:Hp. simpl. destruct (_ || _ || _); [done|].
  intros [= <-]. by eapply strtoll_fits.
Qed.

Lemma getLongReply_spec c o msg s t :
  s ≈ t -> alive c t -> (forall v, o = Some v -> obj_type v = REDIS_STRING /\ obj_ok v) ->
  wp (getLongFromObjectOrReply c o msg) (fun r s' => r = ll_of o /\ s' ≈ t /\ (r = None -> failed c s')) s.
Proof.
  intros Hq Ha Hty. unfold getLongFromObjectOrReply.
  eapply wp_seq; [apply getLongLongReply_spec; [done|done|by intros v ?; apply Hty]|]. simpl.
  intros r s' (-> & Hs' & Hf). destruct (ll_of o) as [n|] eqn:Hn; [|by apply wp_ret; auto].
  pose proof (ll_of_fits o n ltac:(intros v ?; by apply Hty) Hn) as [? ?].
  unfold LLONG_MIN, LLONG_MAX.
  destruct (Z.ltb_spec n (-9223372036854775808)); [lia|].
  destruct (Z.gtb_spec n 9223372036854775807); [lia|]. by apply wp_ret.
Qed.

Lemma checkType_spec c o ty s t :
  s ≈ t -> alive c t ->
  wp (checkType c o ty) (fun b s' => b = negb (bool_decide (obj_type o = ty)) /\ s' ≈ t /\
                                     (b = true -> replied c shared_wrongtypeerr s')) s.
Proof.
  intros Hq Ha. unfold checkType. case_bool_decide; simpl; [by apply wp_ret|].
  eapply wp_seq; [by apply addReply_spec|]. simpl. by intros _ s' [? ?].
Qed.

Lemma addReplyBulk_spec c o b s t :
  s ≈ t -> alive c t -> getDecodedObject o = Some b ->
  wp (addReplyBulk c o) (fun _ s' => s' ≈ t /\ replied c (RBulk b) s') s.
Proof. intros. eapply wp_bind, wp_lift; [done|]. by apply addReply_spec. Qed.

Lemma lookupReadReply_spec c y k r s t :
  s ≈ t -> server_ok t -> clients t !! c = Some y ->
  wp (lookupKeyReadOrReply c k r) (fun o s' => o = live t (db y) k /\ s' ≈ purge (db y) k t /\
                                    (o = None -> replied c r s')) s.
Proof.
  intros Hq Ht Hy. eapply wp_seq; [by eapply client_db_spec|]. simpl. intros id s1 [-> Hs1].
  eapply wp_seq; [apply lookupKeyRead_spec; eauto with server|]. simpl. intros o s2 [-> Hs2].
  destruct (live t (db y) k) as [o|].
  - apply wp_bind, wp_ret. by apply wp_ret.
  - eapply wp_seq; [apply addReply_spec; eauto with server|]. simpl. by intros _ s3 [? ?].
Qed.

Lemma lookupWriteReply_spec c y k r s t :
  s ≈ t -> server_ok t -> clients t !! c = Some y ->
  wp (lookupKeyWriteOrReply c k r) (fun o s' => o = live t (db y) k /\ s' ≈ purge (db y) k t /\
                                    (o = None -> replied c r s')) s.
Proof.
  intros Hq Ht Hy. eapply wp_seq; [by eapply client_db_spec|]. simpl. intros id s1 [-> Hs1].
  eapply wp_seq; [apply lookupKeyWrite_spec; eauto with server|]. simpl. intros o s2 [-> Hs2].
  destruct (live t (db y) k) as [o|].
  - apply wp_bind, wp_ret. by apply wp_ret.
  - eapply wp_seq; [apply addReply_spec; eauto with server|]. simpl. by intros _ s3 [? ?].
Qed.

(** What is found is well formed. *)
Lemma live_ok s id k o : server_ok s -> valid s id -> live s id k = Some o -> obj_ok o.
Proof.
  intros Hs Hv Hl. apply live_Some in Hl as [_ Hk]; [|done].
  by apply (db_objs s id _ (db_at_ok s id Hs Hv) k).
Qed.
#[export] Hint Resolve live_ok : server.

(** ** Automation *)

(** The specification of an operation, with its side conditions. *)
Ltac spec_of m :=
  lazymatch m with
  | get_db _ => eapply get_db_spec
  | update_db _ _ => eapply update_db_spec
  | get_client _ => eapply get_client_spec
  | client_db _ => eapply client_db_spec
  | client_argv _ => eapply client_argv_spec
  | arg _ _ => eapply arg_spec
  | addReply _ _ => eapply addReply_spec
  | addReplyLongLong _ _ => eapply addReply_spec
  | addReplyStatus _ _ => eapply addReply_spec
  | addReplyMultiBulkLen _ _ => eapply addReply_spec
  | addReplyError _ _ => eapply fail_spec
  | addReplyErrorFormat _ _ => eapply failf_spec
  | addReplyBulk _ _ => eapply addReplyBulk_spec
  | getLongLongFromObjectOrReply _ _ _ => eapply getLongLongReply_spec
  | getLongFromObjectOrReply _ _ _ => eapply getLongReply_spec
  | checkType _ _ _ => eapply checkType_spec
  | lookupKey _ _ => eapply lookupKey_spec
  | lookupKeyRead _ _ => eapply lookupKeyRead_spec
  | lookupKeyWrite _ _ => eapply lookupKeyWrite_spec
  | lookupKeyReadOrReply _ _ _ => eapply lookupReadReply_spec
  | lookupKeyWriteOrReply _ _ _ => eapply lookupWriteReply_spec
  | expireIfNeeded _ _ => eapply expireIfNeeded_spec
  | dbDelete _ _ => eapply dbDelete_spec
  | dbAdd _ _ _ => eapply dbAdd_spec
  | dbOverwrite _ _ _ => eapply dbOverwrite_spec
  | getExpire _ _ => eapply getExpire_spec
  | setExpire _ _ _ => eapply setExpire_spec
  | removeExpire _ _ => eapply removeExpire_spec
  | setKey _ _ _ => eapply setKey_spec
  | dbUnshareStringValue _ _ _ => eapply dbUnshare_spec
  | store_string _ _ _ => eapply store_string_spec
  | signalModifiedKey _ _ => eapply signal_quiet
  | notifyKeyspaceEvent _ _ _ _ => eapply notify_quiet
  | modify (set_dirty _) => eapply modify_quiet
  | modify (set_stats _ _ _ _) => eapply modify_quiet
  end.

(** After a step: the new state takes the place of the old one. *)
Ltac step_intro s :=
  let r := fresh "r" in let s' := fresh "s" in let H := fresh "H" in
  intros r s' H; cbv beta in H;
  repeat (lazymatch goal with
          | H : _ /\ _ |- _ => let H1 := fresh "H" in destruct H as [H1 H]
          end);
  try subst r; try clear dependent s;
  try (lazymatch goal with H : s' ≈ _ |- _ => let Hq := fresh "Hq" in rename H into Hq end).

Ltac step_with tac :=
  lazymatch goal with
  | |- wp (mbind _ _) _ ?s => eapply wp_seq; [tac; eauto with server|cbv beta; step_intro s]
  | |- wp _ _ ?s => eapply wp_mono; [tac; eauto with server|cbv beta; step_intro s]
  end.

Tactic Notation "step" "by" uconstr(lem) := step_with ltac:(idtac; eapply lem).

(** A step whose state is given: its run is proved apart. *)
Ltac step_to t :=
  lazymatch goal with
  | |- wp (mbind _ _) _ ?s => eapply (wp_seq _ _ (fun _ s' => s' ≈ t)); [|cbv beta; step_intro s]
  end.

Ltac step :=
  lazymatch goal with
  | |- wp (mret _ ≫= _) _ _ => apply wp_bind, wp_ret; cbv beta
  | |- wp (gets _ ≫= _) _ _ => apply wp_bind, wp_gets; cbv beta
  | |- wp (mret _) _ _ => apply wp_ret
  | |- wp (?m ≫= _) _ _ => step_with ltac:(idtac; spec_of m)
  | |- wp ?m _ _ => step_with ltac:(idtac; spec_of m)
  end.
