(* ===== verification/StringSpec.v ===== *)
(** * What the string commands promise

    The effect of every command on the keys, up to [quiet], and the reply, as
    functions of the state it starts in. *)
From S2P Require Import Prelude Util Object Server Pubsub Watch Db TString Invariant Steps.
Open Scope Z_scope.
Open Scope server_scope.

(** ** SET *)

(** The expire argument in milliseconds; [None] when it is refused. *)
Definition expire_arg (e : option bytes) (u : time_unit) : option (option Z) :=
  match e with
  | None => Some None
  | Some e =>
      match ll_of (Some (StrRaw e)) with
      | None => None
      | Some n => if n <=? 0 then None
                  else Some (Some (match u with UNIT_SECONDS => s64 (n * 1000) | UNIT_MILLISECONDS => n end))
      end
  end.

Lemma string_arg_ok a v : Some (StrRaw a) = Some v -> obj_type v = REDIS_STRING /\ obj_ok v.
Proof. by intros [= <-]. Qed.
Lemma string_arg_type a v : Some (StrRaw a) = Some v -> obj_type v = REDIS_STRING.
Proof. by intros [= <-]. Qed.
#[export] Hint Resolve string_arg_ok string_arg_type : server.

Lemma parse_expire_spec c nm e u s t :
  s ≈ t -> alive c t ->
  wp (parse_expire c nm e u) (fun r s' => r = expire_arg e u /\ s' ≈ t /\ (r = None -> failed c s')) s.
Proof.
  intros Hq Ha. unfold parse_expire, expire_arg. destruct e as [e|]; [|by apply wp_ret].
  step. destruct (ll_of _) as [n|]; [|apply wp_ret; auto].
  destruct (n <=? 0); [|by apply wp_ret]. step. by apply wp_ret.
Qed.

(** Whether NX or XX forbids the write, on the live value. *)
Definition cond_fails (fl : set_flags_t) (o : option robj) : bool :=
  (REDIS_SET_NX fl && bool_decide (is_Some o)) || (REDIS_SET_XX fl && bool_decide (o = None)).

(** The conditions look the key up, and so delete it when it is expired. *)
Definition after_cond (fl : set_flags_t) (id : Z) (k : bytes) (t : server) : server :=
  if REDIS_SET_NX fl || REDIS_SET_XX fl then purge id k t else t.

Lemma bool_decide_None_negb {A} `{EqDecision A} (o : option A) : negb (bool_decide (o = None)) = bool_decide (is_Some o).
Proof. by destruct o. Qed.

Lemma set_condition_spec id fl k s t :
  s ≈ t -> server_ok t -> valid t id ->
  wp (set_condition_fails id fl k)
    (fun b s' => b = cond_fails fl (live t id k) /\ s' ≈ after_cond fl id k t) s.
Proof.
  intros Hq Ht Hv. unfold set_condition_fails, cond_fails, after_cond. destruct fl as [[] xx]; simpl.
  - apply wp_bind. step. step. rewrite bool_decide_None_negb. destruct (live t id k) eqn:Hl; simpl; [done|].
    destruct xx; [|by apply wp_ret]. step. step. by rewrite live_purge, Hl, purge_idemp in *.
  - step. destruct xx; [|by apply wp_ret]. step. by step.
Qed.

(** The state after a SET that goes through. *)
Definition set_state (id : Z) (k : bytes) (v : robj) (ms : option Z) (t : server) : server :=
  match ms with
  | None => key_set id k v t
  | Some ms => at_db id (db_expire k (s64 (mstime t + ms))) (key_set id k v t)
  end.

Lemma key_set_key id k v s : valid s id -> key_of (key_set id k v s) id k = Some v.
Proof. intros Hv. unfold key_of, key_set. rewrite at_db_at by done. apply lookup_insert_eq. Qed.

Lemma set_state_ok id k v ms s :
  server_ok s -> valid s id -> obj_ok v -> server_ok (set_state id k v ms s).
Proof.
  intros Hs Hv Ho. destruct ms as [ms|]; simpl; [|by apply key_set_ok].
  apply at_db_server_ok; [by apply key_set_ok|by apply valid_key_set'|done|].
  apply keys_ok_expire; [|eauto with server]. exists v. by apply (key_set_key id k v s).
Qed.

Lemma set_state_valid id k v ms s id' : valid s id' -> valid (set_state id k v ms s) id'.
Proof. intros. destruct ms; simpl; auto with server. Qed.
Lemma set_state_cl id k v ms c y s : clients s !! c = Some y -> clients (set_state id k v ms s) !! c = Some y.
Proof. by destruct ms. Qed.
Lemma after_cond_ok fl id k s : server_ok s -> valid s id -> server_ok (after_cond fl id k s).
Proof. unfold after_cond. destruct (_ || _); auto with server. Qed.
Lemma after_cond_valid fl id k s id' : valid s id' -> valid (after_cond fl id k s) id'.
Proof. unfold after_cond. destruct (_ || _); auto with server. Qed.
Lemma after_cond_cl fl id k c y s : clients s !! c = Some y -> clients (after_cond fl id k s) !! c = Some y.
Proof. unfold after_cond. destruct (_ || _); auto with server. Qed.
#[export] Hint Resolve set_state_ok set_state_valid set_state_cl after_cond_ok after_cond_valid after_cond_cl : server.

Lemma key_set_after_cond fl id k v s : valid s id -> key_set id k v (after_cond fl id k s) = key_set id k v s.
Proof. intros. unfold after_cond. destruct (_ || _); [by apply key_set_purged|done]. Qed.

(** The outcome of a SET variant. *)
Definition set_outcome (c : cid) (id : Z) (fl : set_flags_t) (k : bytes) (v : robj) (e : option (option Z))
    (ok_reply abort_reply : reply) (t s' : server) : Prop :=
  match e with
  | None => s' ≈ t /\ failed c s'
  | Some ms =>
      if cond_fails fl (live t id k) then s' ≈ after_cond fl id k t /\ replied c abort_reply s'
      else s' ≈ set_state id k v ms t /\ replied c ok_reply s'
  end.

Lemma setGeneric_spec c y nm fl k v e u okr abr s t :
  s ≈ t -> server_ok t -> clients t !! c = Some y -> obj_type v = REDIS_STRING -> obj_ok v ->
  wp (setGenericCommand c nm fl k v e u okr abr)
    (fun _ s' => set_outcome c (db y) fl k v (expire_arg e u) (default shared_ok okr) (default shared_nullbulk abr) t s') s.
Proof.
  intros Hq Ht Hy Hty Hov. assert (valid t (db y)) as Hv by eauto with server.
  unfold setGenericCommand, set_outcome. step by parse_expire_spec.
  destruct (expire_arg e u) as [ms|]; [|apply wp_ret; auto].
  step. step by set_condition_spec. destruct (cond_fails _ _); [by step|].
  step. rewrite key_set_after_cond in Hq by done. step. step.
  step_to (set_state (db y) k v ms t).
  { destruct ms as [ms|]; [|by apply wp_ret]. simpl. rewrite (quiet_mstime _ _ Hq).
    apply setExpire_spec; [done|eauto with server|]. by rewrite key_set_key. }
  step. step_to (set_state (db y) k v ms t).
  { destruct ms; [by step|by apply wp_ret]. }
  by step.
Qed.

(** The object a string argument is stored as. *)
Definition enc (v : bytes) : robj := default (StrRaw v) (tryObjectEncoding v).

Lemma enc_ok v :
  tryObjectEncoding v = Some (enc v) /\ obj_type (enc v) = REDIS_STRING /\ obj_ok (enc v) /\
  getDecodedObject (enc v) = Some v /\ stringObjectLen (enc v) = Some (zlen v).
Proof. unfold enc. destruct (tryObjectEncoding_ok v) as (o & -> & ?). done. Qed.

Lemma enc_type v : obj_type (enc v) = REDIS_STRING.
Proof. apply enc_ok. Qed.
Lemma enc_obj_ok v : obj_ok (enc v).
Proof. apply enc_ok. Qed.
Lemma raw_obj_ok b : obj_ok (StrRaw b).
Proof. done. Qed.
#[export] Hint Resolve enc_type enc_obj_ok raw_obj_ok : server.

Lemma encode_spec v s t :
  s ≈ t -> wp (lift (tryObjectEncoding v)) (fun o s' => o = enc v /\ s' ≈ t) s.
Proof. intros. eapply wp_lift; [apply enc_ok|done]. Qed.

Lemma set_ok c y k v s t :
  s ≈ t -> server_ok t -> clients t !! c = Some y -> rd (argv y) 1 = Some k -> rd (argv y) 2 = Some v ->
  wp (setCommand c)
    (fun _ s' =>
       match set_options_loop (drop 3 (argv y)) (mkSetOptions REDIS_SET_NO_FLAGS None UNIT_SECONDS) with
       | None => s' ≈ t /\ replied c shared_syntaxerr s'
       | Some o => set_outcome c (db y) (so_flags o) k (enc v) (expire_arg (so_expire o) (so_unit o))
                     shared_ok shared_nullbulk t s'
       end) s.
Proof.
  intros Hq Ht Hy Hk Hv. unfold setCommand. step.
  destruct (set_options_loop _ _) as [o|]; [|by step].
  step. step. step by encode_spec. apply (setGeneric_spec c y); eauto with server.
Qed.

Lemma setnx_ok c y k v s t :
  s ≈ t -> server_ok t -> clients t !! c = Some y -> rd (argv y) 1 = Some k -> rd (argv y) 2 = Some v ->
  wp (setnxCommand c) (fun _ s' =>
    set_outcome c (db y) (mkSetFlags true false) k (enc v) (Some None) shared_cone shared_czero t s') s.
Proof.
  intros Hq Ht Hy Hk Hv. unfold setnxCommand. do 2 step. step by encode_spec.
  apply (setGeneric_spec c y _ _ _ _ None); eauto with server.
Qed.

Lemma setex_ok c y k e v s t :
  s ≈ t -> server_ok t -> clients t !! c = Some y ->
  rd (argv y) 1 = Some k -> rd (argv y) 2 = Some e -> rd (argv y) 3 = Some v ->
  wp (setexCommand c) (fun _ s' => set_outcome c (db y) REDIS_SET_NO_FLAGS k (enc v)
    (expire_arg (Some e) UNIT_SECONDS) shared_ok shared_nullbulk t s') s.
Proof.
  intros Hq Ht Hy Hk He Hv. unfold setexCommand. do 3 step. step by encode_spec.
  apply (setGeneric_spec c y); eauto with server.
Qed.

Lemma psetex_ok c y k e v s t :
  s ≈ t -> server_ok t -> clients t !! c = Some y ->
  rd (argv y) 1 = Some k -> rd (argv y) 2 = Some e -> rd (argv y) 3 = Some v ->
  wp (psetexCommand c) (fun _ s' => set_outcome c (db y) REDIS_SET_NO_FLAGS k (enc v)
    (expire_arg (Some e) UNIT_MILLISECONDS) shared_ok shared_nullbulk t s') s.
Proof.
  intros Hq Ht Hy Hk He Hv. unfold psetexCommand. do 3 step. step by encode_spec.
  apply (setGeneric_spec c y); eauto with server.
Qed.

(** ** GET and GETSET *)

(** The reply to GET for the live value. *)
Definition get_reply (o : option robj) : reply :=
  match o with
  | None => shared_nullbulk
  | Some o => match getDecodedObject o with Some b => RBulk b | None => shared_wrongtypeerr end
  end.

Lemma not_string_decoded o : obj_type o <> REDIS_STRING -> getDecodedObject o = None.
Proof. by destruct o. Qed.

(** [is_string]: the value GET can read. *)
Definition is_string (o : option robj) : bool :=
  match o with Some o => bool_decide (obj_type o = REDIS_STRING) | None => true end.

Lemma getGeneric_spec c y k s t :
  s ≈ t -> server_ok t -> clients t !! c = Some y -> rd (argv y) 1 = Some k ->
  wp (getGenericCommand c) (fun b s' => b = is_string (live t (db y) k) /\ s' ≈ purge (db y) k t /\
                                        replied c (get_reply (live t (db y) k)) s') s.
Proof.
  intros Hq Ht Hy Hk. unfold getGenericCommand. step. step.
  destruct (live t (db y) k) as [o|] eqn:Hl; [|apply wp_ret; auto]. simpl.
  assert (obj_ok o) by eauto with server. case_bool_decide; simpl.
  - destruct (decoded_ok o) as [b Hb]; [done..|]. step. apply wp_ret. by rewrite Hb.
  - step. apply wp_ret. by rewrite not_string_decoded.
Qed.

Lemma get_ok c y k s t :
  s ≈ t -> server_ok t -> clients t !! c = Some y -> rd (argv y) 1 = Some k ->
  wp (getCommand c) (fun _ s' => s' ≈ purge (db y) k t /\ replied c (get_reply (live t (db y) k)) s') s.
Proof. intros Hq Ht Hy Hk. unfold getCommand. step by getGeneric_spec. by apply wp_ret. Qed.

Lemma getset_ok c y k v s t :
  s ≈ t -> server_ok t -> clients t !! c = Some y -> rd (argv y) 1 = Some k -> rd (argv y) 2 = Some v ->
  wp (getsetCommand c) (fun _ s' =>
    if is_string (live t (db y) k) then s' ≈ key_set (db y) k (enc v) t
    else s' ≈ purge (db y) k t /\ replied c shared_wrongtypeerr s') s.
Proof.
  intros Hq Ht Hy Hk Hv. unfold getsetCommand. assert (valid t (db y)) by eauto with server.
  step by getGeneric_spec. destruct (is_string (live t (db y) k)) eqn:Hs; simpl.
  - do 2 step. step by encode_spec. do 2 step. rewrite key_set_purged in Hq by done. step. by step.
  - apply wp_ret. split; [done|]. destruct (live t (db y) k) as [o|]; [|done].
    simpl in *. apply bool_decide_eq_false in Hs. by rewrite not_string_decoded in H0.
Qed.

(** ** STRLEN *)

Definition string_len (o : robj) : Z := default 0 (stringObjectLen o).

Lemma stringObjectLen_ok o b : getDecodedObject o = Some b -> obj_ok o -> stringObjectLen o = Some (zlen b).
Proof. intros Hb Ho. apply stored_decoded; [by destruct o|done|done]. Qed.

Lemma strlen_ok c y k s t :
  s ≈ t -> server_ok t -> clients t !! c = Some y -> rd (argv y) 1 = Some k ->
  wp (strlenCommand c) (fun _ s' => s' ≈ purge (db y) k t /\
    replied c match live t (db y) k with
              | None => RInt 0
              | Some o => match getDecodedObject o with Some b => RInt (zlen b) | None => shared_wrongtypeerr end
              end s') s.
Proof.
  intros Hq Ht Hy Hk. unfold strlenCommand. do 2 step.
  destruct (live t (db y) k) as [o|] eqn:Hl; [|apply wp_ret; auto].
  assert (obj_ok o) by eauto with server. step. case_bool_decide; simpl.
  - destruct (decoded_ok o) as [b Hb]; [done..|].
    eapply wp_bind, wp_lift; [by apply stringObjectLen_ok|]. step. by rewrite Hb.
  - apply wp_ret. split; [done|]. rewrite not_string_decoded by done. auto.
Qed.

(** ** INCR and its variants *)

Definition incr_outcome (c : cid) (id : Z) (k : bytes) (incr : Z) (t s' : server) : Prop :=
  if is_string (live t id k) then
    match ll_of (live t id k) with
    | None => s' ≈ purge id k t /\ failed c s'
    | Some old =>
        if (LLONG_MIN <=? old + incr) && (old + incr <=? LLONG_MAX) then
          s' ≈ at_db id (db_put k (StrInt (old + incr))) (purge id k t) /\ replied c (RInt (old + incr)) s'
        else s' ≈ purge id k t /\ failed c s'
    end
  else s' ≈ purge id k t /\ replied c shared_wrongtypeerr s'.

Lemma sfits_range n : sfits 64 n -> LLONG_MIN <= n <= LLONG_MAX.
Proof. unfold sfits, LLONG_MIN, LLONG_MAX. lia. Qed.

(** The guard is the overflow of the sum. *)
Lemma incr_overflows_iff old incr :
  sfits 64 old -> sfits 64 incr ->
  incr_overflows old incr = negb ((LLONG_MIN <=? old + incr) && (old + incr <=? LLONG_MAX)).
Proof.
  intros Ho%sfits_range Hi%sfits_range. unfold incr_overflows, LLONG_MIN, LLONG_MAX in *.
  assert (forall z, -9223372036854775808 <= z <= 9223372036854775807 -> s64 z = z) as Hs.
  { intros z Hz. apply swrap_small; [lia|]. split; lia. }
  assert (old < 0 -> s64 (-9223372036854775808 - old) = -9223372036854775808 - old) by (intros; apply Hs; lia).
  assert (0 < old -> s64 (9223372036854775807 - old) = 9223372036854775807 - old) by (intros; apply Hs; lia).
  apply eq_true_iff_eq.
  rewrite orb_true_iff, !andb_true_iff, negb_true_iff, andb_false_iff, !Z.ltb_lt, !Z.gtb_lt, !Z.leb_gt.
  destruct (Z.lt_trichotomy old 0) as [|[|]]; lia.
Qed.

Lemma incrDecr_spec c y k incr s t :
  s ≈ t -> server_ok t -> clients t !! c = Some y -> rd (argv y) 1 = Some k -> sfits 64 incr ->
  wp (incrDecrCommand c incr) (fun _ s' => incr_outcome c (db y) k incr t s') s.
Proof.
  intros Hq Ht Hy Hk Hi. unfold incrDecrCommand, incr_outcome. assert (valid t (db y)) as Hv by eauto with server.
  do 3 step. eapply wp_seq with (P := fun b s' => b = negb (is_string (live t (db y) k)) /\ s' ≈ purge (db y) k t /\
    (b = true -> replied c shared_wrongtypeerr s')).
  { destruct (live t (db y) k); [by step|by apply wp_ret]. }
  cbv beta. step_intro s1. destruct (is_string (live t (db y) k)) eqn:Hs; simpl; [|by apply wp_ret; auto].
  assert (forall o, live t (db y) k = Some o -> obj_type o = REDIS_STRING /\ obj_ok o) as Hlo.
  { intros o Ho. split; [|eauto with server]. rewrite Ho in Hs. simpl in Hs. by apply bool_decide_eq_true in Hs. }
  step by getLongLongReply_spec; [by intros o Ho; apply Hlo|].
  destruct (ll_of (live t (db y) k)) as [old|] eqn:Hold; [|apply wp_ret; auto].
  assert (sfits 64 old) as Hof by (eapply ll_of_fits; [by intros o Ho; apply Hlo|done]).
  rewrite incr_overflows_iff by done. destruct (_ && _) eqn:Hfit; simpl; [|by step].
  rewrite andb_true_iff, !Z.leb_le in Hfit. unfold LLONG_MIN, LLONG_MAX in Hfit.
  replace (s64 (old + incr)) with (old + incr) by (symmetry; apply swrap_small; [lia|split; lia]).
  assert (obj_ok (StrInt (old + incr))) by (split; lia).
  step_to (at_db (db y) (db_put k (StrInt (old + incr))) (purge (db y) k t)).
  { destruct (live t (db y) k) as [o|] eqn:Hl; [by apply dbOverwrite_spec; [|eauto with server|]|].
    rewrite <- key_add_string by done. by apply dbAdd_spec; [|eauto with server|]. }
  do 3 step. by step.
Qed.

Lemma incrby_ok c y k a s t :
  s ≈ t -> server_ok t -> clients t !! c = Some y -> rd (argv y) 1 = Some k -> rd (argv y) 2 = Some a ->
  wp (incrbyCommand c) (fun _ s' => match ll_of (Some (StrRaw a)) with
    | None => s' ≈ t /\ failed c s'
    | Some incr => incr_outcome c (db y) k incr t s'
    end) s.
Proof.
  intros Hq Ht Hy Hk Ha. unfold incrbyCommand. do 2 step. destruct (ll_of _) as [n|] eqn:Hn; [|apply wp_ret; auto].
  apply incrDecr_spec; try done. apply (ll_of_fits (Some (StrRaw a))); [|done]. intros v Hv. by apply (string_arg_ok a).
Qed.

Lemma sfits_s64 z : sfits 64 (s64 z).
Proof. apply swrap_fits. lia. Qed.

Lemma decrby_ok c y k a s t :
  s ≈ t -> server_ok t -> clients t !! c = Some y -> rd (argv y) 1 = Some k -> rd (argv y) 2 = Some a ->
  wp (decrbyCommand c) (fun _ s' => match ll_of (Some (StrRaw a)) with
    | None => s' ≈ t /\ failed c s'
    | Some decr => incr_outcome c (db y) k (s64 (- decr)) t s'
    end) s.
Proof.
  intros Hq Ht Hy Hk Ha. unfold decrbyCommand. do 2 step. destruct (ll_of _) as [n|] eqn:Hn; [|apply wp_ret; auto].
  apply incrDecr_spec; try done. apply sfits_s64.
Qed.

(** ** APPEND *)

Definition MAX_STRING : Z := 512 * 1024 * 1024.

Lemma checkLength_spec c n s t :
  s ≈ t -> alive c t ->
  wp (checkStringLength c n) (fun b s' => b = (n <=? MAX_STRING) /\ s' ≈ t /\ (b = false -> failed c s')) s.
Proof.
  intros Hq Ha. unfold checkStringLength, MAX_STRING.
  destruct (Z.gtb_spec n (512 * 1024 * 1024)), (Z.leb_spec n (512 * 1024 * 1024)); try lia; [|by apply wp_ret].
  step. by apply wp_ret.
Qed.

Lemma append_done_spec c id k n s t :
  s ≈ t -> server_ok t -> valid t id -> alive c t ->
  wp (append_done c id k n) (fun _ s' => s' ≈ t /\ replied c (RInt n) s') s.
Proof. intros Hq Ht Hv Ha. unfold append_done. do 3 step. by step. Qed.

Lemma append_ok c y k a s t :
  s ≈ t -> server_ok t -> clients t !! c = Some y -> rd (argv y) 1 = Some k -> rd (argv y) 2 = Some a ->
  wp (appendCommand c) (fun _ s' =>
    match live t (db y) k with
    | None => s' ≈ at_db (db y) (db_put k (enc a)) (purge (db y) k t) /\ replied c (RInt (zlen a)) s'
    | Some o =>
        match getDecodedObject o with
        | None => s' ≈ purge (db y) k t /\ replied c shared_wrongtypeerr s'
        | Some b =>
            if zlen b + zlen a <=? MAX_STRING then
              s' ≈ at_db (db y) (db_put k (StrRaw (b ++ a))) (purge (db y) k t) /\
              replied c (RInt (zlen b + zlen a)) s'
            else s' ≈ purge (db y) k t /\ failed c s'
        end
    end) s.
Proof.
  intros Hq Ht Hy Hk Ha. unfold appendCommand. assert (valid t (db y)) as Hv by eauto with server.
  do 4 step. destruct (live t (db y) k) as [o|] eqn:Hl.
  - assert (obj_ok o) by eauto with server. step. case_bool_decide; simpl.
    + destruct (decoded_ok o) as [b Hb]; [done..|]. rewrite Hb.
      eapply wp_bind, wp_lift; [by apply stringObjectLen_ok|].
      step by checkLength_spec. destruct (_ <=? _); simpl; [|by apply wp_ret; auto].
      step. step. rewrite put_key_raw in Hq by auto with server. rewrite <- zlen_app.
      apply append_done_spec; eauto with server.
    + apply wp_ret. rewrite not_string_decoded by done. auto.
  - step by encode_spec. step. rewrite key_add_string in Hq by apply enc_type.
    eapply wp_bind, wp_lift; [apply enc_ok|]. apply append_done_spec; eauto with server.
Qed.

(** ** SETRANGE *)

Lemma zlen_replicate_nat {A} n (x : A) : zlen (replicate n x) = Z.of_nat n.
Proof. unfold zlen. by rewrite length_replicate. Qed.

(** [b] padded with zeros and [v] written at [off]. *)
Definition patch (b : bytes) (off : Z) (v : bytes) : bytes :=
  let p := b ++ replicate (Z.to_nat (off + zlen v - zlen b)) 0 in
  take (Z.to_nat off) p ++ v ++ drop (Z.to_nat (off + zlen v)) p.

Lemma setrange_bytes_ok b off v :
  0 <= off -> off + zlen v < Sds.SDS_LIM -> setrange_bytes b off v = Some (patch b off v).
Proof.
  intros Ho Hl. unfold setrange_bytes. destruct (Z.geb_spec (off + zlen v) Sds.SDS_LIM); [lia|].
  pose proof (zlen_nonneg v). unfold wr_block, patch. set (p := b ++ _).
  assert (off + zlen v <= zlen p).
  { unfold p. rewrite zlen_app, zlen_replicate_nat. lia. }
  by destruct (Z.leb_spec 0 off), (Z.leb_spec (off + zlen v) (zlen p)); try lia.
Qed.

Lemma zlen_patch b off v : 0 <= off -> zlen (patch b off v) = Z.max (zlen b) (off + zlen v).
Proof.
  intros Ho. unfold patch. pose proof (zlen_nonneg v). pose proof (zlen_nonneg b).
  set (p := b ++ _).
  assert (zlen p = Z.max (zlen b) (off + zlen v)) as Hp by (unfold p; rewrite zlen_app, zlen_replicate_nat; lia).
  rewrite !zlen_app, zlen_take, zlen_drop by lia. lia.
Qed.

(** The bytes of the result: the value at the offset, the old string around it,
    and zeros in the gap. *)
Lemma patch_lookup b off v i :
  0 <= off -> 0 <= i < Z.max (zlen b) (off + zlen v) ->
  rd (patch b off v) i =
    Some (if (off <=? i) && (i <? off + zlen v) then default 0 (rd v (i - off))
          else if i <? zlen b then default 0 (rd b i) else 0).
Proof.
  intros Ho Hi. unfold patch. set (p := b ++ _).
  assert (zlen p = Z.max (zlen b) (off + zlen v)) as Hp by (unfold p; rewrite zlen_app, zlen_replicate_nat; lia).
  pose proof (zlen_nonneg v). pose proof (zlen_nonneg b).
  assert (rd p i = Some (if i <? zlen b then default 0 (rd b i) else 0)) as Hpi.
  { unfold p. destruct (Z.ltb_spec i (zlen b)).
    - rewrite rd_app_l by lia. destruct (rd_is_Some b i) as [x ->]; [lia|done].
    - rewrite rd_app_r by lia. unfold rd. destruct (Z.leb_spec 0 (i - zlen b)); [|lia].
      apply lookup_replicate_2. lia. }
  assert (zlen (take (Z.to_nat off) p) = off) as Ht by (apply zlen_take; lia).
  destruct (Z.leb_spec off i); simpl.
  - rewrite rd_app_r, Ht by lia. destruct (Z.ltb_spec i (off + zlen v)).
    + rewrite rd_app_l by lia. destruct (rd_is_Some v (i - off)) as [x ->]; [lia|done].
    + rewrite rd_app_r by lia. rewrite <- Hpi. unfold rd.
      destruct (Z.leb_spec 0 (i - off - zlen v)), (Z.leb_spec 0 i); try lia.
      rewrite lookup_drop. f_equal. lia.
  - rewrite rd_app_l by lia. rewrite <- Hpi. unfold rd. destruct (Z.leb_spec 0 i); [|done].
    apply lookup_take_lt. lia.
Qed.

Lemma setrange_write_spec c id k b off v s t :
  s ≈ t -> server_ok t -> valid t id -> alive c t -> 0 <= off -> off + zlen v < Sds.SDS_LIM ->
  wp (setrange_write c id k b off v) (fun _ s' =>
    s' ≈ at_db id (db_put k (StrRaw (patch b off v))) t /\ replied c (RInt (zlen (patch b off v))) s') s.
Proof.
  intros Hq Ht Hv Ha Ho Hl. unfold setrange_write.
  eapply wp_bind, wp_lift; [by apply setrange_bytes_ok|]. do 4 step. by step.
Qed.

(** The sum of the offset and the length overflows; otherwise: *)
Definition setrange_outcome (c : cid) (id : Z) (k : bytes) (off : Z) (v : bytes) (t s' : server) : Prop :=
  let t1 := purge id k t in
  match match live t id k with None => Some [] | Some o => getDecodedObject o end with
  | None => s' ≈ t1 /\ replied c shared_wrongtypeerr s'
  | Some b =>
      if zlen v =? 0 then s' ≈ t1 /\ replied c (RInt (zlen b)) s'
      else if off + zlen v <=? MAX_STRING then
        s' ≈ at_db id (db_put k (StrRaw (patch b off v))) t1 /\ replied c (RInt (Z.max (zlen b) (off + zlen v))) s'
      else s' ≈ t1 /\ failed c s'
  end.

Lemma setrange_ok c y k a v s t :
  s ≈ t -> server_ok t -> clients t !! c = Some y ->
  rd (argv y) 1 = Some k -> rd (argv y) 2 = Some a -> rd (argv y) 3 = Some v ->
  (forall off, ll_of (Some (StrRaw a)) = Some off -> off + zlen v <= LLONG_MAX) ->
  wp (setrangeCommand c) (fun _ s' => match ll_of (Some (StrRaw a)) with
    | None => s' ≈ t /\ failed c s'
    | Some off => if off <? 0 then s' ≈ t /\ failed c s' else setrange_outcome c (db y) k off v t s'
    end) s.
Proof.
  intros Hq Ht Hy Hk Ha Hv Hov. unfold setrangeCommand, setrange_outcome.
  assert (valid t (db y)) as Hval by eauto with server.
  do 3 step. destruct (ll_of _) as [off|] eqn:Hoff; [|apply wp_ret; auto]. specialize (Hov off eq_refl).
  destruct (Z.ltb_spec off 0); [by step|]. do 3 step. pose proof (zlen_nonneg v).
  assert (s64 (off + zlen v) = off + zlen v) as ->
    by (apply swrap_small; [lia|]; unfold LLONG_MAX in Hov; split; lia).
  destruct (live t (db y) k) as [o|] eqn:Hl.
  - assert (obj_ok o) by eauto with server. step. case_bool_decide; simpl.
    + destruct (decoded_ok o) as [b Hb]; [done..|]. rewrite Hb.
      eapply wp_bind, wp_lift; [by apply stringObjectLen_ok|].
      destruct (zlen v =? 0); [by step|].
      step by checkLength_spec. destruct (Z.leb_spec (off + zlen v) MAX_STRING); simpl; [|by apply wp_ret; auto].
      step. rewrite <- zlen_patch, <- (put_key_raw (db y) k o b) by auto with server.
      apply setrange_write_spec; eauto with server. all: unfold MAX_STRING, Sds.SDS_LIM in *; lia.
    + apply wp_ret. rewrite not_string_decoded by done. auto.
  - destruct (zlen v =? 0); [by step|].
    step by checkLength_spec. destruct (Z.leb_spec (off + zlen v) MAX_STRING); simpl; [|by apply wp_ret; auto].
    step. rewrite key_add_string in Hq by done.
    eapply wp_mono; [apply setrange_write_spec; eauto with server; unfold MAX_STRING, Sds.SDS_LIM in *; lia|].
    simpl. intros _ s' [Hs' Hr]. rewrite at_db_compose in Hs'. rewrite <- (zlen_patch []) by done.
    split; [|done]. rewrite Hs'. erewrite at_db_ext; [done| |auto with server].
    unfold db_put, set_dict. simpl. by rewrite insert_insert_eq.
Qed.

(** ** GETRANGE *)

(** The substring from [start] to [end_], both included, negative from the end. *)
Definition substring (b : bytes) (start end_ : Z) : bytes :=
  let n := zlen b in
  let start := if start <? 0 then Z.max 0 (n + start) else start in
  let end_ := Z.min (if end_ <? 0 then Z.max 0 (n + end_) else end_) (n - 1) in
  take (Z.to_nat (end_ - start + 1)) (drop (Z.to_nat start) b).

Lemma s64_small z : LLONG_MIN <= z <= LLONG_MAX -> s64 z = z.
Proof. unfold LLONG_MIN, LLONG_MAX. intros. apply swrap_small; [lia|]. split; lia. Qed.

Lemma u64_small z : 0 <= z <= LLONG_MAX -> u64 z = z.
Proof. unfold LLONG_MAX. intros. apply uwrap_small; lia. Qed.

Lemma getrange_bounds_ok n start end_ :
  0 < n <= LLONG_MAX -> sfits 64 start -> sfits 64 end_ ->
  getrange_bounds n start end_ =
    (if start <? 0 then Z.max 0 (n + start) else start,
     Z.min (if end_ <? 0 then Z.max 0 (n + end_) else end_) (n - 1)).
Proof.
  intros Hn Hs%sfits_range He%sfits_range. unfold getrange_bounds. unfold LLONG_MIN, LLONG_MAX in *.
  assert (forall z, z < 0 -> -9223372036854775808 <= z -> s64 (n + z) = n + z) as Hw.
  { intros z ? ?. apply s64_small. unfold LLONG_MIN, LLONG_MAX. lia. }
  rewrite (s64_small (n - 1)) by (unfold LLONG_MIN, LLONG_MAX; lia). f_equal.
  - destruct (Z.ltb_spec start 0).
    + rewrite Hw by lia. destruct (Z.ltb_spec (n + start) 0); lia.
    + destruct (Z.ltb_spec start 0); lia.
  - set (e := if end_ <? 0 then s64 (n + end_) else end_).
    set (e1 := if e <? 0 then 0 else e).
    assert (e1 = if end_ <? 0 then Z.max 0 (n + end_) else end_) as <-.
    { unfold e1, e. destruct (Z.ltb_spec end_ 0).
      - rewrite Hw by lia. destruct (Z.ltb_spec (n + end_) 0); lia.
      - destruct (Z.ltb_spec end_ 0); lia. }
    assert (0 <= e1 <= 9223372036854775807).
    { unfold e1, e. destruct (Z.ltb_spec end_ 0); [rewrite Hw by lia|].
      - destruct (Z.ltb_spec (n + end_) 0); lia.
      - destruct (Z.ltb_spec end_ 0); lia. }
    rewrite u64_small by (unfold LLONG_MAX; lia). destruct (Z.geb_spec e1 n); lia.
Qed.

Lemma getrange_bytes_ok b start end_ :
  zlen b <= LLONG_MAX -> sfits 64 start -> sfits 64 end_ ->
  getrange_bytes b start end_ = Some (substring b start end_).
Proof.
  intros Hb Hs He. unfold getrange_bytes, substring. pose proof (zlen_nonneg b).
  destruct (Z.eqb_spec (zlen b) 0) as [Hz|Hz].
  { destruct (getrange_bounds _ _ _). rewrite orb_true_r. apply zlen_zero in Hz as ->. by rewrite drop_nil, take_nil. }
  rewrite getrange_bounds_ok by (done || lia). rewrite orb_false_r.
  set (st := if start <? 0 then _ else _). set (en := Z.min _ _).
  assert (0 <= st) by (unfold st; destruct (Z.ltb_spec start 0); lia).
  assert (en <= zlen b - 1) by (unfold en; lia).
  destruct (Z.gtb_spec st en).
  - rewrite (Z2Nat.nonpos (en - st + 1)) by lia. done.
  - unfold rd_block. destruct (Z.leb_spec 0 st), (Z.leb_spec 0 (en - st + 1)),
      (Z.leb_spec (st + (en - st + 1)) (zlen b)); try lia. done.
Qed.

Lemma s64_le z : 0 <= z -> s64 z <= z.
Proof.
  intros Hz. unfold s64, swrap. pose proof (Z.mod_le (z + 2 ^ (64 - 1)) (2 ^ 64) ltac:(lia) ltac:(lia)). lia.
Qed.

(** Whatever the length of the string, nothing is read outside it. *)
Lemma getrange_bytes_total b start end_ : sfits 64 end_ -> exists r, getrange_bytes b start end_ = Some r.
Proof.
  intros Hend%sfits_range. unfold getrange_bytes. destruct (getrange_bounds (zlen b) start end_) as [st en] eqn:Hb.
  destruct (Z.eqb_spec (zlen b) 0) as [|Hz]; [rewrite orb_true_r; by eexists|]. rewrite orb_false_r.
  destruct (Z.gtb_spec st en); [by eexists|]. pose proof (zlen_nonneg b).
  assert (0 <= st /\ en <= zlen b - 1) as [? ?].
  { unfold getrange_bounds in Hb. injection Hb as <- <-. split.
    { by destruct (Z.ltb_spec (if start <? 0 then s64 (zlen b + start) else start) 0). }
    set (e0 := if end_ <? 0 then s64 (zlen b + end_) else end_).
    pose proof (sfits_range _ (sfits_s64 (zlen b + end_))).
    assert (e0 <= LLONG_MAX) by (unfold e0; destruct (end_ <? 0); lia).
    set (e := if e0 <? 0 then 0 else e0).
    assert (0 <= e <= LLONG_MAX) by (unfold e, LLONG_MAX in *; destruct (Z.ltb_spec e0 0); lia).
    rewrite u64_small by done. destruct (Z.geb_spec e (zlen b)); [apply s64_le; lia|lia]. }
  unfold rd_block. destruct (Z.leb_spec 0 st), (Z.leb_spec 0 (en - st + 1)),
      (Z.leb_spec (st + (en - st + 1)) (zlen b)); try lia. by eexists.
Qed.

Lemma getrange_ok c y k a b s t :
  s ≈ t -> server_ok t -> clients t !! c = Some y ->
  rd (argv y) 1 = Some k -> rd (argv y) 2 = Some a -> rd (argv y) 3 = Some b ->
  wp (getrangeCommand c) (fun _ s' => match ll_of (Some (StrRaw a)), ll_of (Some (StrRaw b)) with
    | Some start, Some end_ => s' ≈ purge (db y) k t /\
        match live t (db y) k with
        | None => replied c (RBulk []) s'
        | Some o => match getDecodedObject o with
                    | None => replied c shared_wrongtypeerr s'
                    | Some str => zlen str <= LLONG_MAX -> replied c (RBulk (substring str start end_)) s'
                    end
        end
    | _, _ => s' ≈ t /\ failed c s'
    end) s.
Proof.
  intros Hq Ht Hy Hk Ha Hb. unfold getrangeCommand. assert (valid t (db y)) as Hv by eauto with server.
  do 2 step. destruct (ll_of (Some (StrRaw a))) as [start|] eqn:Hs; [|apply wp_ret; auto].
  do 2 step. destruct (ll_of (Some (StrRaw b))) as [end_|] eqn:He; [|apply wp_ret; auto].
  assert (sfits 64 start /\ sfits 64 end_) as [? ?].
  { split; (eapply ll_of_fits; [|eassumption]); intros v Hv'; by eapply string_arg_ok. }
  do 2 step. destruct (live t (db y) k) as [o|] eqn:Hl; [|apply wp_ret; auto].
  assert (obj_ok o) by eauto with server. step. case_bool_decide; simpl.
  - destruct (decoded_ok o) as [str Hstr]; [done..|]. rewrite Hstr. eapply wp_bind, wp_lift; [done|].
    destruct (getrange_bytes_total str start end_) as [r Hr]; [done|].
    eapply wp_bind, wp_lift; [done|]. step. split; [done|]. intros Hlen.
    rewrite getrange_bytes_ok in Hr by done. by injection Hr as ->.
  - apply wp_ret. rewrite not_string_decoded by done. auto.
Qed.

(** ** MSET and MGET *)

Definition mset_state (id : Z) (kvs : list (bytes * bytes)) (t : server) : server :=
  foldl (fun t p => key_set id p.1 (enc p.2) t) t kvs.

Lemma mset_state_ok id kvs t :
  server_ok t -> valid t id ->
  server_ok (mset_state id kvs t) /\ valid (mset_state id kvs t) id /\ clients (mset_state id kvs t) = clients t.
Proof.
  revert t. induction kvs as [|p kvs IH]; intros t Ht Hv; [done|]. simpl.
  destruct (IH (key_set id p.1 (enc p.2) t)) as (? & ? & ->); auto with server.
Qed.

Lemma mset_loop_spec id kvs s t :
  s ≈ t -> server_ok t -> valid t id ->
  wp (mfor kvs (fun p =>
        val ← lift (tryObjectEncoding p.2);
        _ ← setKey id p.1 val;
        notifyKeyspaceEvent REDIS_NOTIFY_STRING (zs "set") p.1 id))
    (fun _ s' => s' ≈ mset_state id kvs t) s.
Proof.
  revert s t. induction kvs as [|p kvs IH]; intros s t Hq Ht Hv; [done|]. simpl.
  step_to (key_set id p.1 (enc p.2) t).
  { step by encode_spec. step. by step. }
  apply IH; auto with server.
Qed.

Definition any_live (t : server) (id : Z) (ks : list bytes) : bool :=
  existsb (fun k => bool_decide (is_Some (live t id k))) ks.

Lemma any_live_purge t id k ks : valid t id -> any_live (purge id k t) id ks = any_live t id ks.
Proof.
  intros Hv. unfold any_live. induction ks as [|k' ks IH]; [done|]. simpl. by rewrite live_purge_any, IH.
Qed.

Lemma mset_busykeys_spec id kvs s t :
  s ≈ t -> server_ok t -> valid t id ->
  wp (mset_busykeys id kvs) (fun n s' => 0 <= n /\ (n =? 0) = negb (any_live t id kvs.*1) /\
                                         s' ≈ purge_all id kvs.*1 t) s.
Proof.
  revert s t. induction kvs as [|p kvs IH]; intros s t Hq Ht Hv; [done|]. unfold mset_busykeys. cbn [mfor_sum].
  eapply (wp_seq _ _ (fun n s' => n = (if bool_decide (is_Some (live t id p.1)) then 1 else 0) /\ s' ≈ purge id p.1 t)).
  { step. step. by destruct (live t id p.1). }
  cbv beta. step_intro s.
  eapply wp_seq; [apply IH; [done|auto with server..]|]. cbv beta. intros m s' (Hm & Hz & Hs'). step.
  rewrite any_live_purge in Hz by done. simpl. unfold any_live in *. simpl. case_bool_decide; simpl.
  - split_and!; [lia| |done]. by destruct (Z.eqb_spec (1 + m) 0); [lia|].
  - done.
Qed.

Lemma mset_ok c y nx s t :
  s ≈ t -> server_ok t -> clients t !! c = Some y ->
  wp (msetGenericCommand c nx) (fun _ s' =>
    let kvs := pairs_of (drop 1 (argv y)) in
    let t1 := if nx then purge_all (db y) kvs.*1 t else t in
    if zlen (argv y) mod 2 =? 0 then s' ≈ t /\ failed c s'
    else if nx && any_live t (db y) kvs.*1 then s' ≈ t1 /\ replied c (RInt 0) s'
    else s' ≈ mset_state (db y) kvs t1 /\ replied c (if nx then RInt 1 else shared_ok) s') s.
Proof.
  intros Hq Ht Hy. unfold msetGenericCommand. assert (valid t (db y)) as Hv by eauto with server. step.
  destruct (zlen (argv y) mod 2 =? 0); [by step|]. step. cbv zeta. set (kvs := pairs_of _).
  set (t1 := if nx then _ else t).
  destruct (purge_all_ok (db y) kvs.*1 t Ht Hv) as (Hp & Hpv & Hpc).
  assert (server_ok t1 /\ valid t1 (db y) /\ clients t1 = clients t) as (Ht1 & Hv1 & Hc1) by by destruct nx.
  eapply (wp_seq _ _ (fun n s' => (n =? 0) = negb (nx && any_live t (db y) kvs.*1) /\ s' ≈ t1)).
  { destruct nx; [|by apply wp_ret]. eapply wp_mono; [by apply mset_busykeys_spec|]. by intros n s' (_ & -> & ?). }
  cbv beta. intros n s' [-> Hs']. rewrite negb_involutive. destruct (nx && _).
  - assert (alive c t1) by (unfold alive; rewrite Hc1; eauto). by step.
  - step by mset_loop_spec. step. assert (alive c (mset_state (db y) kvs t1)).
    { destruct (mset_state_ok (db y) kvs t1 Ht1 Hv1) as (_ & _ & Hc). unfold alive. rewrite Hc, Hc1. eauto. }
    by step.
Qed.

Definition mget_reply (o : option robj) : reply :=
  match o ≫= getDecodedObject with Some b => RBulk b | None => RNullBulk end.

Lemma mget_one_spec c y k s t :
  s ≈ t -> server_ok t -> clients t !! c = Some y ->
  wp (mget_one c k) (fun _ s' => s' ≈ purge (db y) k t /\ replied c (mget_reply (live t (db y) k)) s') s.
Proof.
  intros Hq Ht Hy. unfold mget_one. do 2 step. unfold mget_reply.
  destruct (live t (db y) k) as [o|] eqn:Hl; [|by step]. assert (obj_ok o) by eauto with server.
  case_bool_decide; simpl.
  - destruct (decoded_ok o) as [b Hb]; [done..|]. rewrite Hb. by step.
  - rewrite not_string_decoded by done. by step.
Qed.

Lemma mget_ok c y s t :
  s ≈ t -> server_ok t -> clients t !! c = Some y ->
  wp (mgetCommand c) (fun _ s' => s' ≈ purge_all (db y) (drop 1 (argv y)) t) s.
Proof.
  intros Hq Ht Hy. unfold mgetCommand. do 2 step. clear H. revert s t Ht Hy Hq. generalize (drop 1 (argv y)) as ks.
  intros ks. induction ks as [|k ks IH]; intros s t Ht Hy Hq; [done|]. simpl.
  step by mget_one_spec. apply IH; eauto with server.
Qed.
