(* ===== verification/KeySpec.v ===== *)
(** * What the key space commands promise

    DEL, EXISTS, TYPE, RENAME, MOVE, EXPIRE, TTL, PERSIST, SELECT, KEYS, DBSIZE and
    the flushes: the effect on the keys, up to [quiet], and the reply. *)
From S2P Require Import Prelude Util Glob Object Server Pubsub Watch Db Invariant Steps.
Open Scope Z_scope.
Open Scope server_scope.

(** ** DEL *)

Definition key_del (id : Z) (k : bytes) (s : server) : server := at_db id (db_del k) s.

Lemma key_del_ok id k s : server_ok s -> valid s id -> server_ok (key_del id k s).
Proof. apply del_ok. Qed.
Lemma key_del_valid id k s id' : valid s id' -> valid (key_del id k s) id'.
Proof. apply valid_at_db. Qed.
#[export] Hint Resolve key_del_ok key_del_valid : server.

Lemma key_del_purge id k s : valid s id -> at_db id (db_del k) (purge id k s) = key_del id k s.
Proof.
  intros Hv. unfold purge, key_del. destruct (_ && _); [|done]. rewrite at_db_compose.
  apply at_db_ext; [|done]. unfold db_del, set_dict, set_expires. simpl. by rewrite !delete_delete_eq.
Qed.

(** The number of keys deleted and the state. *)
Fixpoint del_all (id : Z) (ks : list bytes) (t : server) : Z * server :=
  match ks with
  | [] => (0, t)
  | k :: ks =>
      let '(n, t') := del_all id ks (key_del id k t) in
      ((if bool_decide (is_Some (live t id k)) then 1 else 0) + n, t')
  end.

Lemma del_all_ok id ks t :
  server_ok t -> valid t id -> server_ok (del_all id ks t).2 /\ valid (del_all id ks t).2 id /\
  clients (del_all id ks t).2 = clients t.
Proof.
  revert t. induction ks as [|k ks IH]; intros t Ht Hv; [done|]. simpl.
  destruct (IH (key_del id k t)) as (? & ? & Hc); [auto with server..|].
  by destruct (del_all id ks (key_del id k t)).
Qed.

Lemma del_loop_spec id ks s t :
  s ≈ t -> server_ok t -> valid t id ->
  wp (mfor_sum ks (fun key =>
        _ ← expireIfNeeded id key;
        b ← dbDelete id key;
        if b : bool then
          _ ← signalModifiedKey id key;
          _ ← notifyKeyspaceEvent REDIS_NOTIFY_GENERIC (zs "del") key id;
          _ ← modify (set_dirty (fun n => n + 1));
          mret 1
        else mret 0))
    (fun n s' => n = (del_all id ks t).1 /\ s' ≈ (del_all id ks t).2) s.
Proof.
  revert s t. induction ks as [|k ks IH]; intros s t Hq Ht Hv; [done|]. cbn [mfor_sum].
  eapply (wp_seq _ _ (fun n s' => n = (if bool_decide (is_Some (live t id k)) then 1 else 0) /\ s' ≈ key_del id k t)).
  { step. step. rewrite key_del_purge in Hq by done. fold (live t id k). case_bool_decide; [|by step].
    do 3 step. by step. }
  cbv beta. step_intro s. eapply wp_seq; [apply IH; [done|auto with server..]|]. cbv beta.
  intros m s' [-> Hs']. step. simpl. by destruct (del_all id ks (key_del id k t)).
Qed.

Lemma del_command_ok c y s t :
  s ≈ t -> server_ok t -> clients t !! c = Some y ->
  wp (delCommand c) (fun _ s' => s' ≈ (del_all (db y) (drop 1 (argv y)) t).2 /\
    replied c (RInt (del_all (db y) (drop 1 (argv y)) t).1) s') s.
Proof.
  intros Hq Ht Hy. unfold delCommand. assert (valid t (db y)) as Hv by eauto with server. do 2 step.
  step by del_loop_spec. destruct (del_all_ok (db y) (drop 1 (argv y)) t Ht Hv) as (? & ? & Hc).
  assert (alive c (del_all (db y) (drop 1 (argv y)) t).2) by (unfold alive; rewrite Hc; eauto). by step.
Qed.

(** ** EXISTS, TYPE, DBSIZE, SELECT *)

Lemma dbExists_spec id k s t :
  s ≈ t -> valid t id -> wp (dbExists id k) (fun b s' => b = bool_decide (is_Some (key_of t id k)) /\ s' ≈ t) s.
Proof. intros Hq Hv. unfold dbExists. step. apply wp_ret. by destruct (key_of t id k). Qed.

Lemma exists_ok c y k s t :
  s ≈ t -> server_ok t -> clients t !! c = Some y -> rd (argv y) 1 = Some k ->
  wp (existsCommand c) (fun _ s' => s' ≈ purge (db y) k t /\
    replied c (RInt (if bool_decide (is_Some (live t (db y) k)) then 1 else 0)) s') s.
Proof.
  intros Hq Ht Hy Hk. unfold existsCommand. do 3 step. step by dbExists_spec.
  fold (live t (db y) k). case_bool_decide; by step.
Qed.

Lemma type_ok c y k s t :
  s ≈ t -> server_ok t -> clients t !! c = Some y -> rd (argv y) 1 = Some k ->
  wp (typeCommand c) (fun _ s' => s' ≈ purge (db y) k t) s.
Proof. intros Hq Ht Hy Hk. unfold typeCommand. do 3 step. by step. Qed.

Lemma dbsize_ok c y s t :
  s ≈ t -> server_ok t -> clients t !! c = Some y ->
  wp (dbsizeCommand c) (fun _ s' => s' ≈ t /\ replied c (RInt (Z.of_nat (size (dict (db_at t (db y)))))) s') s.
Proof. intros Hq Ht Hy. unfold dbsizeCommand. do 2 step. by step. Qed.

(** A client is moved to another database. *)
Definition client_at (c : cid) (f : client -> client) (s : server) : server := set_clients (alter f c) s.

Definition core_write (f : client -> client) : Prop :=
  forall x y, client_core x = client_core y -> client_core (f x) = client_core (f y).

Lemma alter_insert_map (m : gmap cid client) c (f : client -> client) x :
  m !! c = Some x -> alter f c m = <[c := f x]> m.
Proof. intros Hx. apply map_eq. intros c'. destruct (decide (c = c')) as [<-|Hne].
  - by rewrite lookup_alter_eq, lookup_insert_eq, Hx.
  - by rewrite lookup_alter_ne, lookup_insert_ne.
Qed.

Lemma client_at_insert c f x s :
  clients s !! c = Some x -> client_at c f s = set_clients (<[c := f x]>) s.
Proof. intros Hx. unfold client_at, set_clients. f_equal. by apply alter_insert_map. Qed.

Lemma update_client_spec c f y s t :
  core_write f -> s ≈ t -> clients t !! c = Some y ->
  wp (update_client c f) (fun _ s' => s' ≈ client_at c f t) s.
Proof.
  intros Hf Hq Hy. destruct (quiet_client t s c y ltac:(by symmetry) Hy) as (x & Hx & Hxy).
  eapply wp_update_client; [done|]. rewrite (client_at_insert _ _ y) by done.
  apply set_clients_quiet; [done|]. by apply Hf.
Qed.

Lemma core_write_comm f : (forall x, client_core (f x) = f (client_core x)) -> core_write f.
Proof. intros Hf x y H. by rewrite !Hf, H. Qed.

Lemma core_write_db id : core_write (set_db id).
Proof. by apply core_write_comm. Qed.

#[global] Instance client_at_proper c f : core_write f -> Proper (quiet ==> quiet) (client_at c f).
Proof.
  intros Hf s t Hq. destruct (clients s !! c) as [x|] eqn:Hx.
  - destruct (quiet_client s t c x Hq Hx) as (y & Hy & Hxy).
    rewrite (client_at_insert _ _ x), (client_at_insert _ _ y) by done.
    apply set_clients_quiet; [done|by apply Hf].
  - assert (clients t !! c = None) as Hy.
    { apply eq_None_not_Some. intros Ha. apply (alive_proper c s t Hq) in Ha as [? Ha]. congruence. }
    assert (forall u, clients u !! c = None -> client_at c f u = u) as Hid.
    { intros u Hu. unfold client_at, set_clients. destruct u; simpl in *. f_equal.
      apply map_eq. intros c'. destruct (decide (c = c')) as [<-|]; [|by rewrite lookup_alter_ne].
      by rewrite lookup_alter_eq, Hu. }
    by rewrite !Hid.
Qed.

Lemma client_at_lookup c f y s : clients s !! c = Some y -> clients (client_at c f s) !! c = Some (f y).
Proof. intros Hy. unfold client_at. simpl. by rewrite lookup_alter_eq, Hy. Qed.

#[global] Instance valid_dec s id : Decision (valid s id).
Proof. unfold valid. apply _. Defined.

(** A write that leaves the watched keys and the subscriptions alone. *)
Definition same_links (f : client -> client) : Prop :=
  forall x, watched (f x) = watched x /\ channels (f x) = channels x /\ patterns (f x) = patterns x.

Lemma client_at_inv c f s c' x' :
  clients (client_at c f s) !! c' = Some x' ->
  exists x, clients s !! c' = Some x /\ x' = (if decide (c = c') then f x else x).
Proof.
  unfold client_at. simpl. destruct (decide (c = c')) as [<-|Hne].
  - rewrite lookup_alter_eq. intros (x & -> & ?)%fmap_Some. eauto.
  - rewrite lookup_alter_ne by done. eauto.
Qed.

Lemma client_at_fwd c f s c' x :
  clients s !! c' = Some x -> clients (client_at c f s) !! c' = Some (if decide (c = c') then f x else x).
Proof.
  intros Hx. unfold client_at. simpl. destruct (decide (c = c')) as [<-|Hne].
  - by rewrite lookup_alter_eq, Hx.
  - by rewrite lookup_alter_ne.
Qed.

Lemma client_at_rel (P : client -> Prop) c f s c' :
  (forall x, P (f x) <-> P x) ->
  (exists x, clients (client_at c f s) !! c' = Some x /\ P x) <-> (exists x, clients s !! c' = Some x /\ P x).
Proof.
  intros HP. split.
  - intros (x' & (x & Hx & ->)%client_at_inv & Hp). exists x. split; [done|].
    case_decide; [by apply HP|done].
  - intros (x & Hx & Hp). eexists. split; [by apply client_at_fwd|]. case_decide; [by apply HP|done].
Qed.

Lemma client_at_server_ok c f s y :
  server_ok s -> same_links f -> clients s !! c = Some y -> valid s (db (f y)) -> server_ok (client_at c f s).
Proof.
  intros Hs Hf Hy Hv. pose proof Hs as [Hn Hdb Hcl Hch Hnd Hps Hpo].
  assert (forall c' id k, watches (client_at c f s) c' id k <-> watches s c' id k) as Hw.
  { intros. apply client_at_rel. intros x. by destruct (Hf x) as (-> & _). }
  split; try done.
  - intros id d Hd. destruct (Hdb id d Hd) as [? ? Htab]. split; [done|done|].
    eapply table_ok_ext; [|exact Htab]. intros c' k. by rewrite Hw.
  - intros c' x' (x & Hx & ->)%client_at_inv. destruct (Hcl c' x Hx) as [????].
    case_decide; [|by split]. subst c'. simplify_eq. destruct (Hf y) as (Hw' & _ & Hp').
    split; rewrite ?Hw', ?Hp'; done.
  - eapply table_ok_ext; [|exact Hch]. intros c' k. symmetry. apply client_at_rel.
    intros x. by destruct (Hf x) as (_ & -> & _).
  - intros c' p. rewrite Hps. symmetry. apply client_at_rel. intros x. by destruct (Hf x) as (_ & _ & ->).
Qed.

(** The state after SELECT. *)
Lemma selectDb_spec c y id s t :
  s ≈ t -> clients t !! c = Some y ->
  wp (selectDb c id) (fun b s' => b = bool_decide (valid t id) /\ s' ≈ (if bool_decide (valid t id) then client_at c (set_db id) t else t)) s.
Proof.
  intros Hq Hy. unfold selectDb, dbnum, valid. apply wp_bind, wp_bind, wp_gets, wp_ret. rewrite (quiet_dbs _ _ Hq).
  destruct (Z.ltb_spec id 0), (Z.geb_spec id (zlen (dbs t))); simpl.
  1-3: apply wp_ret; rewrite bool_decide_eq_false_2 by lia; done.
  rewrite bool_decide_eq_true_2 by lia. step by update_client_spec; [apply core_write_db|]. by apply wp_ret.
Qed.

Lemma select_ok c y a s t :
  s ≈ t -> server_ok t -> clients t !! c = Some y -> rd (argv y) 1 = Some a ->
  wp (selectCommand c) (fun _ s' => match ll_of (Some (StrRaw a)) with
    | None => s' ≈ t /\ failed c s'
    | Some n => if bool_decide (valid t (s32 n)) then s' ≈ client_at c (set_db (s32 n)) t /\ replied c shared_ok s'
                else s' ≈ t /\ failed c s'
    end) s.
Proof.
  intros Hq Ht Hy Ha. unfold selectCommand. step. step; [by intros v [= <-]|].
  destruct (ll_of _) as [n|]; [|apply wp_ret; auto]. step by selectDb_spec.
  case_bool_decide; [|by step].
  assert (alive c (client_at c (set_db (s32 n)) t)) by (eexists; by apply client_at_lookup). by step.
Qed.

(** ** PERSIST, TTL *)

Lemma persist_ok' c y k s t :
  s ≈ t -> server_ok t -> clients t !! c = Some y -> rd (argv y) 1 = Some k ->
  wp (persistCommand c) (fun _ s' =>
    s' ≈ at_db (db y) (db_persist k) t /\
    replied c (match expire_of t (db y) k with None => RInt 0 | Some _ => RInt 1 end) s') s.
Proof.
  intros Hq Ht Hy Hk. unfold persistCommand. assert (valid t (db y)) as Hv by eauto with server. do 3 step.
  assert (expire_of t (db y) k = None -> at_db (db y) (db_persist k) t = t) as Hid.
  { intros He. apply at_db_id; [|done]. unfold db_persist, set_expires. unfold expire_of in He.
    rewrite delete_id by done. by destruct (db_at t (db y)). }
  destruct (key_of t (db y) k) as [o|] eqn:Ho.
  - step. destruct (expire_of t (db y) k) as [w|] eqn:Hw; simpl.
    + step. apply wp_modify. split; [|done]. etrans; [apply quiet_dirty|done].
    + by step.
  - assert (expire_of t (db y) k = None) as Hn.
    { apply eq_None_not_Some. intros [w Hw]. unfold key_of, expire_of in *.
      destruct (db_expires t (db y) _ (db_at_ok t (db y) Ht Hv) k w Hw) as [? ?]. congruence. }
    rewrite Hid, Hn by done. by step.
Qed.

(** The milliseconds left, from the stored deadline. *)
Definition ttl_of (t : server) (id : Z) (k : bytes) : Z :=
  match expire_of t id k with
  | None => -1
  | Some w => if w =? -1 then -1 else Z.max 0 (s64 (w - mstime t))
  end.

Definition ttl_reply (output_ms : bool) (ttl : Z) : Z :=
  if ttl =? -1 then -1 else if output_ms then ttl else Z.quot (s64 (ttl + 500)) 1000.

Lemma purge_mstime id k t : mstime (purge id k t) = mstime t.
Proof. unfold purge. by destruct (_ && _). Qed.

Lemma ttl_ok c y k ms s t :
  s ≈ t -> server_ok t -> clients t !! c = Some y -> rd (argv y) 1 = Some k ->
  wp (ttlGenericCommand c ms) (fun _ s' => s' ≈ purge (db y) k t /\
    replied c (RInt (match live t (db y) k with
                     | None => -2
                     | Some _ => ttl_reply ms (ttl_of t (db y) k)
                     end)) s') s.
Proof.
  intros Hq Ht Hy Hk. unfold ttlGenericCommand. assert (valid t (db y)) as Hv by eauto with server. do 3 step.
  destruct (live t (db y) k) as [o|] eqn:Hl; [|by step].
  destruct (live_Some _ _ _ _ Hv Hl) as [Hp _]. rewrite Hp in *. do 2 step.
  rewrite (quiet_mstime _ _ Hq). step. split; [done|].
  match goal with H : replied c ?r ?s |- replied c ?r' ?s => replace r' with r; [done|] end. f_equal.
  unfold ttl_reply, ttl_of. destruct (expire_of t (db y) k) as [w|]; [|done]. simpl.
  destruct (Z.eqb_spec w (-1)) as [->|]; [done|]. simpl.
  destruct (Z.ltb_spec (s64 (w - mstime t)) 0).
  - by rewrite Z.max_l by lia.
  - by rewrite Z.max_r by lia.
Qed.

(** ** EXPIRE *)

Definition deadline (u : time_unit) (basetime n : Z) : Z :=
  s64 (match u with UNIT_SECONDS => s64 (n * 1000) | UNIT_MILLISECONDS => n end + basetime).

Lemma core_write_argv l : core_write (set_argv l).
Proof. by apply core_write_comm. Qed.

Definition expire_outcome (c : cid) (id : Z) (k : bytes) (basetime : Z) (u : time_unit) (a : bytes)
    (t s' : server) : Prop :=
  match ll_of (Some (StrRaw a)) with
  | None => s' ≈ t /\ failed c s'
  | Some n =>
      let when := deadline u basetime n in
      match live t id k with
      | None => s' ≈ purge id k t /\ replied c (RInt 0) s'
      | Some _ =>
          if (when <=? mstime t) && negb (loading t) && negb (masterhost t)
          then s' ≈ client_at c (set_argv [zs "DEL"; k]) (key_del id k t) /\ replied c (RInt 1) s'
          else s' ≈ at_db id (db_expire k when) t
      end
  end.

Lemma expire_ok' id k w s : server_ok s -> valid s id -> is_Some (key_of s id k) -> server_ok (at_db id (db_expire k w) s).
Proof. intros. apply at_db_server_ok; auto with server. Qed.
#[export] Hint Resolve expire_ok' : server.

Lemma expireGeneric_ok c y k a basetime u s t :
  s ≈ t -> server_ok t -> clients t !! c = Some y -> rd (argv y) 1 = Some k -> rd (argv y) 2 = Some a ->
  wp (expireGenericCommand c basetime u) (fun _ s' => expire_outcome c (db y) k basetime u a t s') s.
Proof.
  intros Hq Ht Hy Hk Ha. unfold expireGenericCommand, expire_outcome.
  assert (valid t (db y)) as Hv by eauto with server. do 3 step. step; [by intros v [= <-]|].
  destruct (ll_of _) as [n|]; [|apply wp_ret; auto]. cbv zeta. fold (deadline u basetime n).
  step. destruct (live t (db y) k) as [o|] eqn:Hl; [|by step].
  destruct (live_Some _ _ _ _ Hv Hl) as [Hp Hko]. rewrite Hp in *.
  do 3 step. rewrite (quiet_mstime _ _ Hq), (quiet_loading _ _ Hq), (quiet_masterhost _ _ Hq).
  destruct (_ && _).
  - step. rewrite Hko. eapply wp_seq; [by apply assert_spec|]. cbv beta. step_intro s1. step.
    eapply wp_seq; [eapply update_client_spec; [apply core_write_argv|eassumption|exact Hy]|]. cbv beta. step_intro s1.
    assert (server_ok (client_at c (set_argv [zs "DEL"; k]) (key_del (db y) k t))) as Hok.
    { eapply (client_at_server_ok _ _ _ y); [by apply key_del_ok|done|done|]. by apply valid_at_db. }
    assert (valid (client_at c (set_argv [zs "DEL"; k]) (key_del (db y) k t)) (db y)) by by apply valid_at_db.
    assert (alive c (client_at c (set_argv [zs "DEL"; k]) (key_del (db y) k t))) by
      (eexists; by apply client_at_lookup).
    do 2 step. by step.
  - do 4 step. by step.
Qed.

(** ** RENAME *)

(** What a successful rename leaves: [o] at [dst] with the deadline [w] of [src]. *)
Definition rename_state (id : Z) (src dst : bytes) (o : robj) (w : Z) (t : server) : server :=
  let t := purge id dst t in
  let t := match live t id dst with Some _ => key_del id dst t | None => t end in
  let t := key_add id dst o t in
  key_del id src (if w =? -1 then t else at_db id (db_expire dst w) t).

Definition rename_outcome (c : cid) (id : Z) (nx : bool) (src dst : bytes) (t s' : server) : Prop :=
  if decide (src = dst) then s' ≈ t /\ replied c shared_sameobjecterr s'
  else match live t id src with
       | None => s' ≈ purge id src t /\ replied c shared_nokeyerr s'
       | Some o =>
           if nx && bool_decide (is_Some (live t id dst)) then s' ≈ purge id dst t /\ replied c (RInt 0) s'
           else s' ≈ rename_state id src dst o (default (-1) (expire_of t id src)) t /\
                replied c (if nx then RInt 1 else shared_ok) s'
       end.

Lemma key_add_key id k o s : valid s id -> key_of (key_add id k o s) id k = Some o.
Proof.
  intros Hv. destruct (key_add_db id k o s id Hv) as (_ & -> & _). unfold key_of.
  rewrite at_db_at by done. apply lookup_insert_eq.
Qed.

(** The destination is free: it was not live, or it was deleted. *)
Lemma rename_free id dst t :
  valid t id ->
  key_of (match live (purge id dst t) id dst with Some _ => key_del id dst (purge id dst t)
          | None => purge id dst t end) id dst = None.
Proof.
  intros Hv. rewrite live_purge by done. destruct (live t id dst) as [o|] eqn:Hl; [|done].
  unfold key_of, key_del. rewrite at_db_at by (by apply purge_valid). apply lookup_delete_eq.
Qed.

Lemma rename_mid_ok id dst t :
  server_ok t -> valid t id ->
  let t' := match live (purge id dst t) id dst with Some _ => key_del id dst (purge id dst t)
            | None => purge id dst t end in
  server_ok t' /\ valid t' id /\ clients t' = clients t.
Proof.
  intros Ht Hv. cbv zeta. destruct (live _ _ _).
  - split_and!; auto with server. apply purge_clients.
  - split_and!; auto with server. apply purge_clients.
Qed.

Lemma rename_state_ok id src dst o w t :
  server_ok t -> valid t id -> obj_ok o ->
  server_ok (rename_state id src dst o w t) /\ valid (rename_state id src dst o w t) id /\
  clients (rename_state id src dst o w t) = clients t.
Proof.
  intros Ht Hv Ho. unfold rename_state. destruct (rename_mid_ok id dst t Ht Hv) as (Ht1 & Hv1 & Hc1).
  set (t1 := match _ with Some _ => _ | None => _ end) in *.
  assert (server_ok (key_add id dst o t1)) by auto with server.
  destruct (key_add_db id dst o t1 id Hv1) as (Hv2 & _ & _ & Hc2). apply Hv2 in Hv1 as Hv3.
  assert (is_Some (key_of (key_add id dst o t1) id dst)) by (rewrite key_add_key by done; eauto).
  destruct (w =? -1); split_and!; auto with server; unfold key_del, at_db; simpl; by rewrite Hc2.
Qed.

Lemma rename_ok c y nx src dst s t :
  s ≈ t -> server_ok t -> clients t !! c = Some y -> rd (argv y) 1 = Some src -> rd (argv y) 2 = Some dst ->
  wp (renameGenericCommand c nx) (fun _ s' => rename_outcome c (db y) nx src dst t s') s.
Proof.
  intros Hq Ht Hy Hsrc Hdst. unfold renameGenericCommand, rename_outcome.
  assert (valid t (db y)) as Hv by eauto with server. do 2 step.
  destruct (decide (src = dst)) as [|Hne]; [by step|]. step.
  destruct (live t (db y) src) as [o|] eqn:Hl; [|apply wp_ret; auto].
  assert (obj_ok o) as Ho by eauto with server.
  destruct (live_Some _ _ _ _ Hv Hl) as [Hp _]. rewrite Hp in *. do 3 step.
  replace (negb (bool_decide (live t (db y) dst = None))) with (bool_decide (is_Some (live t (db y) dst)))
    by by destruct (live t (db y) dst).
  destruct (nx && _); [by step|].
  destruct (rename_mid_ok (db y) dst t Ht Hv) as (Ht1 & Hv1 & Hc1).
  pose proof (rename_free (db y) dst t Hv) as Hfree.
  destruct (rename_state_ok (db y) src dst o (default (-1) (expire_of t (db y) src)) t Ht Hv Ho) as (Hok & Hvr & Hcr).
  unfold rename_state in *. rewrite live_purge in * by done.
  set (t1 := match live t (db y) dst with Some _ => _ | None => _ end) in *.
  set (t2 := if _ =? -1 then _ else _) in *.
  step_to t1.
  { unfold t1. destruct (live t (db y) dst); [|by apply wp_ret]. step. by step. }
  step. step_to t2.
  { unfold t2. destruct (_ =? -1); simpl; [by apply wp_ret|].
    apply setExpire_spec; [done|auto with server|]. by rewrite key_add_key. }
  step. { unfold t2. destruct (_ =? -1); auto with server. }
  fold (key_del (db y) src t2) in *.
  assert (alive c (key_del (db y) src t2)) by (unfold alive; rewrite Hcr; eauto).
  do 5 step. destruct nx; by step.
Qed.

(** ** MOVE *)

Lemma client_at_back c id y t :
  clients t !! c = Some y -> client_at c (set_db (db y)) (client_at c (set_db id) t) = t.
Proof.
  intros Hy. unfold client_at, set_clients. simpl. destruct t; simpl in *. f_equal.
  apply map_eq. intros c'. destruct (decide (c = c')) as [<-|].
  - rewrite !lookup_alter_eq, Hy. by destruct y.
  - by rewrite !lookup_alter_ne.
Qed.

(** The value is added to the other database, without its expire. *)
Definition move_state (src dst : Z) (k : bytes) (o : robj) (t : server) : server :=
  key_del src k (key_add dst k o (purge dst k t)).

Definition move_outcome (c : cid) (src : Z) (k a : bytes) (t s' : server) : Prop :=
  match ll_of (Some (StrRaw a)) with
  | Some dst =>
      if bool_decide (valid t dst) then
        if src =? dst then s' ≈ t /\ replied c shared_sameobjecterr s'
        else match live t src k with
             | None => s' ≈ purge src k t /\ replied c (RInt 0) s'
             | Some o =>
                 match live t dst k with
                 | Some _ => s' ≈ t /\ replied c (RInt 0) s'
                 | None => s' ≈ move_state src dst k o t /\ replied c (RInt 1) s'
                 end
             end
      else s' ≈ t /\ replied c shared_outofrangeerr s'
  | None => s' ≈ t /\ replied c shared_outofrangeerr s'
  end.

Lemma move_state_ok src dst k o t :
  server_ok t -> valid t src -> valid t dst -> obj_ok o ->
  server_ok (move_state src dst k o t) /\ clients (move_state src dst k o t) = clients t.
Proof.
  intros Ht Hs Hd Ho. unfold move_state. split; [auto 10 with server|].
  destruct (key_add_db dst k o (purge dst k t) dst) as (_ & _ & _ & Hc); [auto with server|].
  unfold key_del, at_db. simpl. by rewrite Hc, purge_clients.
Qed.

Lemma move_ok c y k a s t :
  s ≈ t -> server_ok t -> clients t !! c = Some y -> rd (argv y) 1 = Some k -> rd (argv y) 2 = Some a ->
  wp (moveCommand c) (fun _ s' => move_outcome c (db y) k a t s') s.
Proof.
  intros Hq Ht Hy Hk Ha. unfold moveCommand, move_outcome.
  assert (valid t (db y)) as Hv by eauto with server. do 3 step.
  eapply wp_bind, wp_lift; [apply getLongLong_total; by intros v [= <-]|].
  destruct (ll_of _) as [dst|]; [|step; simpl; by step].
  eapply (wp_seq _ _ (fun b s' => b = bool_decide (valid t dst) /\
    s' ≈ (if bool_decide (valid t dst) then client_at c (set_db dst) t else t))).
  { destruct ((dst <? INT32_MIN) || (dst >? INT32_MAX)) eqn:Hr; [|by eapply selectDb_spec].
    apply wp_ret. rewrite bool_decide_eq_false_2; [done|]. unfold valid. pose proof (ok_dbnum t Ht).
    unfold INT32_MIN, INT32_MAX in *.
    apply orb_true_iff in Hr as [?%Z.ltb_lt|?%Z.gtb_lt]; lia. }
  cbv beta. step_intro s0. case_bool_decide as Hvd; simpl; [|by step].
  assert (clients (client_at c (set_db dst) t) !! c = Some (set_db dst y)) as Hy' by by apply client_at_lookup.
  step. simpl. step by selectDb_spec. rewrite bool_decide_eq_true_2 in Hq by done.
  rewrite (client_at_back c dst y t Hy) in Hq.
  destruct (db y =? dst) eqn:Hd; [by step|]. apply Z.eqb_neq in Hd.
  step. destruct (live t (db y) k) as [o|] eqn:Hl; [|by step].
  assert (obj_ok o) as Ho by eauto with server.
  destruct (live_Some _ _ _ _ Hv Hl) as [Hp _]. rewrite Hp in *. step.
  destruct (live t dst k) as [o'|] eqn:Hld.
  - destruct (live_Some _ _ _ _ Hvd Hld) as [Hp' _]. rewrite Hp' in *. by step.
  - destruct (move_state_ok (db y) dst k o t Ht Hv Hvd Ho) as [? Hc]. unfold move_state, key_del in *.
    do 3 step. assert (alive c (at_db (db y) (db_del k) (key_add dst k o (purge dst k t)))) by
      (unfold alive; rewrite Hc; eauto). by step.
Qed.

(** ** FLUSHDB and FLUSHALL *)

Definition db_flush (d : redisDb) : redisDb := set_expires (fun _ => ∅) (set_dict (fun _ => ∅) d).

Lemma keys_ok_flush d : keys_ok (db_flush d).
Proof. split; simpl; intros k x; by rewrite lookup_empty. Qed.
#[export] Hint Resolve keys_ok_flush : server.

Lemma touchFlush_quiet dbid s t :
  s ≈ t -> server_ok t -> wp (touchWatchedKeysOnFlush dbid) (fun _ s' => s' ≈ t) s.
Proof.
  intros Hq Ht. unfold touchWatchedKeysOnFlush. apply wp_bind, wp_gets. apply mfor_quiet; [|done].
  intros c s' Hc Hs'. apply list_elem_of_fmap in Hc as ([c' x] & -> & Hx%elem_of_map_to_list). simpl.
  destruct (quiet_client s t c' x Hq Hx) as (y & Hy & _). step.
  apply client_core_eq in H0 as (_ & _ & _ & Hw & _). rewrite Hw.
  apply mfor_quiet; [|done]. intros [id k] s' Hk Hs'. simpl. destruct (match dbid with None => _ | Some _ => _ end); [|done].
  assert (valid t id) by (destruct (ok_clients t Ht c' y Hy) as [_ _ Hwd _]; by apply (Hwd id k)).
  step. destruct (dict _ !! k); [|by apply wp_ret]. apply update_client_quiet; eauto with server.
Qed.

Lemma flushdb_ok c y s t :
  s ≈ t -> server_ok t -> clients t !! c = Some y ->
  wp (flushdbCommand c) (fun _ s' => s' ≈ at_db (db y) db_flush t /\ replied c shared_ok s') s.
Proof.
  intros Hq Ht Hy. unfold flushdbCommand. do 3 step. step by touchFlush_quiet. do 2 step. rewrite at_db_compose in Hq.
  by step.
Qed.

Definition flush_all (s : server) : server :=
  set_dbs (map (fun d => set_dict (fun _ => ∅) (set_expires (fun _ => ∅) d))) s.

Lemma rd_map {A B} (f : A -> B) l i : rd (map f l) i = f <$> rd l i.
Proof. unfold rd. destruct (0 <=? i); [|done]. apply list_lookup_fmap. Qed.

Lemma flush_all_ok s : server_ok s -> server_ok (flush_all s).
Proof.
  intros Hs. pose proof Hs as [Hn Hdb Hcl Hch Hnd Hps Hpo]. split; try done.
  - unfold flush_all. simpl. unfold zlen in *. by rewrite length_map.
  - intros id d. unfold flush_all. simpl. rewrite rd_map. intros (d' & Hd & ->)%fmap_Some.
    destruct (Hdb id d' Hd). split; simpl; [by intros k x; rewrite lookup_empty..|done].
  - intros c x Hx. destruct (Hcl c x Hx) as [????].
    split; try done; unfold flush_all; simpl; unfold zlen in *; by rewrite length_map.
Qed.

Lemma flushall_ok c y s t :
  s ≈ t -> server_ok t -> clients t !! c = Some y ->
  wp (flushallCommand c) (fun _ s' => s' ≈ flush_all t) s.
Proof.
  intros Hq Ht Hy. unfold flushallCommand, emptyDb. step by touchFlush_quiet.
  apply wp_bind, wp_bind, wp_gets, wp_bind, wp_modify, wp_ret. fold (flush_all s0).
  assert (flush_all s0 ≈ flush_all t) by by apply set_dbs_proper.
  assert (alive c (flush_all t)) by eauto with server. step. step. by step.
Qed.

(** ** KEYS *)

(** The state is [t] without some expired keys. *)
Definition purged_from (id : Z) (t s' : server) : Prop := exists ks, s' ≈ purge_all id ks t.

Lemma wp_mfor_sum_inv {A} (l : list A) (f : A -> M Z) (I : server -> Prop) s :
  (forall x s, x ∈ l -> I s -> wp (f x) (fun _ s' => I s') s) -> I s -> wp (mfor_sum l f) (fun _ s' => I s') s.
Proof.
  revert s. induction l as [|x l IH]; intros s Hf Hs; [done|].
  eapply wp_seq; [apply Hf; [left|done]|]. cbv beta. intros n s' Hs'.
  eapply wp_seq; [apply IH; [|done]|]; [|by intros m s'' ?].
  intros y s'' Hy. apply Hf. by right.
Qed.

Lemma purge_all_snoc id ks k t : purge_all id (ks ++ [k]) t = purge id k (purge_all id ks t).
Proof. unfold purge_all. by rewrite foldl_app. Qed.

Lemma set_deferred_len_quiet c n m s t :
  s ≈ t -> alive c t -> wp (set_deferred_len c n m) (fun _ s' => s' ≈ t) s.
Proof. intros. apply update_client_quiet; auto with server. Qed.

Lemma keys_ok' c y p s t :
  s ≈ t -> server_ok t -> clients t !! c = Some y -> rd (argv y) 1 = Some p -> pattern_ok p ->
  wp (keysCommand c) (fun _ s' => purged_from (db y) t s') s.
Proof.
  intros Hq Ht Hy Hp Hpo. unfold keysCommand. assert (valid t (db y)) as Hv by eauto with server. do 4 step.
  eapply wp_seq.
  { apply (wp_mfor_sum_inv _ _ (purged_from (db y) t)); [|by exists []].
    intros k s' _ [ks Hs']. destruct (purge_all_ok (db y) ks t Ht Hv) as (Hok & Hv' & Hc).
    assert (alive c (purge_all (db y) ks t)) by (unfold alive; rewrite Hc; eauto).
    eapply (wp_seq _ _ (fun _ s'' => s'' ≈ purge_all (db y) ks t)).
    { destruct (bool_decide _); [by apply wp_ret|]. destruct (sds_match_ok p k Hpo) as (b & -> & _). done. }
    cbv beta. intros [] s'' Hs''; [|by apply wp_ret; exists ks].
    step by expireIfNeeded_spec.
    destruct (due _ _ _); [|step]; apply wp_ret; exists (ks ++ [k]); by rewrite purge_all_snoc. }
  cbv beta. intros n s' [ks Hs']. destruct (purge_all_ok (db y) ks t Ht Hv) as (Hok & Hv' & Hc).
  eapply wp_mono; [apply set_deferred_len_quiet; [done|unfold alive; rewrite Hc; eauto]|].
  cbv beta. intros _ s'' ?. by exists ks.
Qed.
