(* ===== verification/View.v ===== *)
(** * The key space as the clients see it

    A key maps to its live value and deadline. The commands are functions on this
    abstract map: the lemmas give the view of the states that the specifications of
    StringSpec.v and KeySpec.v end in. *)
From S2P Require Import Prelude Util Object Server Pubsub Watch Db TString Invariant Steps StringSpec KeySpec.
Open Scope Z_scope.
Open Scope server_scope.

(** The deadline -1 is no deadline, as in [getExpire]. *)
Definition view (s : server) (id : Z) (k : bytes) : option (robj * Z) :=
  o ← live s id k; Some (o, default (-1) (expire_of s id k)).

(** The view with some keys changed. *)
Definition update (f : Z -> bytes -> option (robj * Z)) (id : Z) (k : bytes) (v : option (robj * Z)) :
    Z -> bytes -> option (robj * Z) :=
  fun id' k' => if decide (id' = id /\ k' = k) then v else f id' k'.

Definition views (s : server) (f : Z -> bytes -> option (robj * Z)) : Prop :=
  forall id k, valid s id -> view s id k = f id k.

Lemma update_eq f id k v : update f id k v id k = v.
Proof. unfold update. case_decide; [done|tauto]. Qed.

Lemma update_ne f id k v id' k' : (id', k') <> (id, k) -> update f id k v id' k' = f id' k'.
Proof. unfold update. intros. case_decide; [|done]. naive_solver. Qed.

Lemma update_cases f id k v id' k' (P : option (robj * Z) -> Prop) :
  (id' = id -> k' = k -> P v) -> ((id', k') <> (id, k) -> P (f id' k')) -> P (update f id k v id' k').
Proof. unfold update. intros. case_decide; naive_solver. Qed.

(** ** The view is a function of the data *)

Lemma view_raw s id k :
  valid s id ->
  view s id k = if due s id k && negb (masterhost s) then None
                else o ← key_of s id k; Some (o, default (-1) (expire_of s id k)).
Proof.
  intros Hv. unfold view, live, purge. destruct (_ && _); [|done].
  unfold key_of. rewrite at_db_at by done. unfold db_del. cbn [dict set_dict set_expires].
  by rewrite lookup_delete_eq.
Qed.

Lemma view_ext s t id k :
  valid s id -> valid t id -> key_of s id k = key_of t id k -> expire_of s id k = expire_of t id k ->
  clock s = clock t -> loading s = loading t -> masterhost s = masterhost t -> view s id k = view t id k.
Proof.
  intros Hs Ht Hk He Hc Hl Hm. rewrite !view_raw by done. unfold due.
  by rewrite Hk, He, Hc, Hl, Hm.
Qed.

#[global] Instance views_proper : Proper (quiet ==> eq ==> iff) views.
Proof.
  assert (forall s t id k, s ≈ t -> valid t id -> view s id k = view t id k) as H.
  { intros s t id k Hq Hv. unfold view. rewrite (live_proper s t id k Hq).
    unfold expire_of. by rewrite (quiet_db_at s t id Hq). }
  intros s t Hq f ? <-. unfold views. split; intros Hf id k Hv.
  - rewrite <- (H s t) by done. apply Hf. by apply (quiet_valid s t).
  - assert (valid t id) by (apply (quiet_valid t s); [by symmetry|done]). rewrite (H s t) by done. by apply Hf.
Qed.

Lemma views_refl s : views s (view s).
Proof. by intros id k. Qed.

Lemma live_view s id k : live s id k = fst <$> view s id k.
Proof. unfold view. by destruct (live s id k). Qed.

Lemma valid_at_db_inv id g s id' : valid (at_db id g s) id' -> valid s id'.
Proof. by rewrite valid_at_db. Qed.

(** ** Changing one key *)

(** [g] changes only the key [k]. *)
Definition only_key (k : bytes) (g : redisDb -> redisDb) : Prop :=
  forall d k', k' <> k -> dict (g d) !! k' = dict d !! k' /\ expires (g d) !! k' = expires d !! k'.

Lemma only_key_set k v : only_key k (db_set k v).
Proof. intros d k' Hne. simpl. by rewrite lookup_insert_ne, lookup_delete_ne. Qed.
Lemma only_key_put k v : only_key k (db_put k v).
Proof. intros d k' Hne. simpl. by rewrite lookup_insert_ne. Qed.
Lemma only_key_del k : only_key k (db_del k).
Proof. intros d k' Hne. simpl. by rewrite !lookup_delete_ne. Qed.
Lemma only_key_expire k w : only_key k (db_expire k w).
Proof. intros d k' Hne. simpl. by rewrite lookup_insert_ne. Qed.
Lemma only_key_persist k : only_key k (db_persist k).
Proof. intros d k' Hne. simpl. by rewrite lookup_delete_ne. Qed.

Lemma at_db_other id g s id' k' k :
  valid s id -> only_key k g -> (id', k') <> (id, k) ->
  key_of (at_db id g s) id' k' = key_of s id' k' /\ expire_of (at_db id g s) id' k' = expire_of s id' k'.
Proof.
  intros Hv Hg Hne. unfold key_of, expire_of. destruct (decide (id' = id)) as [->|].
  - rewrite at_db_at by done. apply Hg. naive_solver.
  - by rewrite at_db_at_ne.
Qed.

Lemma views_at_db id k g s f :
  valid s id -> only_key k g -> views s f -> views (at_db id g s) (update f id k (view (at_db id g s) id k)).
Proof.
  intros Hv Hg Hf id' k' Hv'. apply valid_at_db_inv in Hv'. apply update_cases; [by intros -> ->|].
  intros Hne. destruct (at_db_other id g s id' k' k Hv Hg Hne).
  rewrite <- Hf by done. apply view_ext; by rewrite ?valid_at_db.
Qed.

Lemma view_at_db id k g s :
  valid s id ->
  let d := g (db_at s id) in
  view (at_db id g s) id k =
    (if (match expires d !! k with Some w => (0 <=? w) && negb (loading s) && (clock s >? w) | None => false end) &&
        negb (masterhost s) then None
     else o ← dict d !! k; Some (o, default (-1) (expires d !! k))).
Proof.
  intros Hv d. rewrite view_raw by by apply valid_at_db. unfold due, key_of, expire_of.
  by rewrite !at_db_at.
Qed.

Lemma views_purge id k s f : valid s id -> views s f -> views (purge id k s) f.
Proof.
  intros Hv Hf. apply purge_cases; [done|]. intros Hd Hm id' k' Hv'. apply valid_at_db_inv in Hv'.
  rewrite <- Hf by done. destruct (decide ((id', k') = (id, k))) as [[= -> ->]|Hne].
  - rewrite view_at_db by done. simpl. rewrite !lookup_delete_eq. simpl.
    rewrite view_raw, Hd, Hm by done. done.
  - destruct (at_db_other id (db_del k) s id' k' k Hv (only_key_del k) Hne).
    by apply view_ext; rewrite ?valid_at_db.
Qed.

Lemma views_key_set id k v s f :
  valid s id -> views s f -> views (key_set id k v s) (update f id k (Some (v, -1))).
Proof.
  intros Hv Hf. unfold key_set. pose proof (views_at_db id k _ s f Hv (only_key_set k v) Hf) as H.
  rewrite view_at_db in H by done. simpl in H. by rewrite lookup_delete_eq, lookup_insert_eq in H.
Qed.

Lemma views_key_del id k s f :
  valid s id -> views s f -> views (at_db id (db_del k) s) (update f id k None).
Proof.
  intros Hv Hf. pose proof (views_at_db id k _ s f Hv (only_key_del k) Hf) as H.
  rewrite view_at_db in H by done. simpl in H. by rewrite !lookup_delete_eq in H.
Qed.

(** Overwriting a live value keeps its deadline. *)
Lemma views_put id k v s f :
  server_ok s -> valid s id -> views s f ->
  views (at_db id (db_put k v) (purge id k s)) (update f id k (Some (v, default (-1) (snd <$> view s id k)))).
Proof.
  intros Hs Hv Hf. assert (valid (purge id k s) id) as Hvp by by apply purge_valid.
  pose proof (views_at_db id k _ _ f Hvp (only_key_put k v) (views_purge id k s f Hv Hf)) as H.
  rewrite view_at_db in H by done. cbn [dict expires db_put set_dict] in H. rewrite lookup_insert_eq in H.
  assert (forall b e, b = false -> e = default (-1) (snd <$> view s id k) ->
    (if b : bool then None else Some (v, e)) = Some (v, default (-1) (snd <$> view s id k))) as Heq
    by by intros ? ? -> ->.
  cbn [mbind option_bind] in H. rewrite Heq in H; [done| |].
  - change (match expires (db_at (purge id k s) id) !! k with
            | Some w => (0 <=? w) && negb (loading (purge id k s)) && (clock (purge id k s) >? w)
            | None => false end) with (due (purge id k s) id k).
    apply purge_cases; [intros [-> | ->]; by rewrite ?andb_false_r|].
    intros _ _. unfold due, expire_of. rewrite at_db_at by done. simpl. by rewrite lookup_delete_eq.
  - rewrite view_raw by done. unfold purge. destruct (due s id k && negb (masterhost s)).
    + rewrite at_db_at by done. simpl. by rewrite lookup_delete_eq.
    + fold (expire_of s id k). destruct (key_of s id k) eqn:Hk; [done|]. simpl.
      destruct (expire_of s id k) as [w|] eqn:He; [|done].
      destruct (db_expires _ _ _ (db_at_ok s id Hs Hv) k w He) as [o Ho]. unfold key_of in Hk. congruence.
Qed.

(** A deadline that has not passed, or is not enforced. *)
Lemma views_expire id k w o s f :
  valid s id -> views s f -> key_of s id k = Some o -> w < 0 \/ clock s <= w \/ loading s = true \/ masterhost s = true ->
  views (at_db id (db_expire k w) s) (update f id k (Some (o, w))).
Proof.
  intros Hv Hf Hk Hw. pose proof (views_at_db id k _ s f Hv (only_key_expire k w) Hf) as H.
  rewrite view_at_db in H by done. simpl in H. rewrite lookup_insert_eq in H. unfold key_of in Hk.
  rewrite Hk in H. simpl in H.
  assert ((0 <=? w) && negb (loading s) && (clock s >? w) && negb (masterhost s) = false) as Hf'.
  { destruct Hw as [?|[?|[-> | ->]]]; [by destruct (Z.leb_spec 0 w); [lia|]| |by rewrite andb_false_r|by rewrite andb_false_r].
    destruct (Z.gtb_spec (clock s) w); [lia|]. by rewrite andb_false_r. }
  by rewrite Hf' in H.
Qed.

(** The settings the view depends on besides the keys. *)
Definition same_settings (s t : server) : Prop :=
  clock s = clock t /\ loading s = loading t /\ masterhost s = masterhost t.

Lemma purge_settings id k s : same_settings (purge id k s) s.
Proof. unfold purge, same_settings. by destruct (_ && _). Qed.

Lemma key_add_settings id k v s : same_settings (key_add id k v s) s.
Proof. unfold key_add, list_ready, same_settings. by repeat case_match. Qed.

(** A live key's deadline is not enforced yet. *)
Lemma live_deadline s id k o :
  valid s id -> live s id k = Some o -> let w := default (-1) (expire_of s id k) in
  w < 0 \/ clock s <= w \/ loading s = true \/ masterhost s = true.
Proof.
  intros Hv Ho. cbv zeta. assert (due s id k && negb (masterhost s) = false) as Hnd.
  { destruct (due s id k) eqn:Hd, (masterhost s) eqn:Hm; try done. by rewrite (live_due s id k) in Ho. }
  unfold due in Hnd. destruct (expire_of s id k) as [x|]; simpl in *; [|lia].
  destruct (loading s), (masterhost s); try tauto. rewrite !andb_true_r in Hnd.
  destruct (Z.leb_spec 0 x); simpl in Hnd; [right; left; destruct (Z.gtb_spec (clock s) x); done || lia|by left].
Qed.

(** Adding a key that is not there. *)
Lemma views_add id k v s f :
  server_ok s -> valid s id -> key_of s id k = None -> views s f ->
  views (key_add id k v s) (update f id k (Some (v, -1))).
Proof.
  intros Hs Hv Hk Hf. assert (expire_of s id k = None) as He.
  { destruct (expire_of s id k) as [w|] eqn:He; [|done].
    destruct (db_expires _ _ _ (db_at_ok s id Hs Hv) k w He) as [o' Ho']. unfold key_of in Hk. congruence. }
  destruct (key_add_settings id k v s) as (Hc & Hl & Hm). intros id' k' Hv'.
  destruct (key_add_db id k v s id' Hv) as (Hvi & Hki & Hxi & _).
  assert (valid (at_db id (db_put k v) s) id') as Hvp by by apply valid_at_db, Hvi.
  rewrite (view_ext _ (at_db id (db_put k v) s)) by (done || by rewrite ?Hki, ?Hxi).
  rewrite (views_at_db id k _ s f Hv (only_key_put k v) Hf id' k' Hvp).
  apply update_cases; [intros -> ->|intros Hn; by rewrite update_ne].
  rewrite update_eq, view_at_db by done. unfold db_put. cbn [dict expires set_dict]. rewrite lookup_insert_eq.
  unfold expire_of in He. by rewrite He.
Qed.

(** Freeing the destination of RENAME. *)
Lemma views_freed id k s f :
  valid s id -> views s f ->
  views (match live (purge id k s) id k with Some _ => key_del id k (purge id k s) | None => purge id k s end)
    (update f id k None).
Proof.
  intros Hv Hf. pose proof (views_purge id k s f Hv Hf) as Hp. assert (valid (purge id k s) id) by auto with server.
  destruct (live (purge id k s) id k) eqn:Hl; [by apply views_key_del|].
  intros id' k' Hv'. apply update_cases; [intros -> ->|by intros; apply Hp]. unfold view. by rewrite Hl.
Qed.

(** RENAME moves the value and the deadline. *)
Lemma views_rename id src dst o t f :
  server_ok t -> valid t id -> src <> dst -> live t id src = Some o -> views t f ->
  views (rename_state id src dst o (default (-1) (expire_of t id src)) t)
    (update (update f id dst (Some (o, default (-1) (expire_of t id src)))) id src None).
Proof.
  intros Ht Hv Hne Ho Hf. unfold rename_state. pose proof (live_deadline t id src o Hv Ho) as Hw. cbv zeta in Hw.
  destruct (rename_mid_ok id dst t Ht Hv) as (Ht1 & Hv1 & _). pose proof (rename_free id dst t Hv) as Hfree.
  pose proof (views_freed id dst t f Hv Hf) as Hf1. destruct (purge_settings id dst t) as (Hc & Hl & Hm).
  set (t1 := match live (purge id dst t) id dst with Some _ => _ | None => _ end) in *.
  assert (same_settings t1 t) as (Hc1 & Hl1 & Hm1) by (unfold t1; by case_match).
  pose proof (views_add id dst o t1 _ Ht1 Hv1 Hfree Hf1) as Hf2.
  destruct (key_add_settings id dst o t1) as (Hc2 & Hl2 & Hm2).
  set (t2 := key_add id dst o t1) in *. set (w := default (-1) (expire_of t id src)) in *.
  assert (valid t2 id) as Hv2 by by apply key_add_db.
  assert (forall v id' k', update (update (update f id dst None) id dst (Some v)) id src None id' k' =
    update (update f id dst (Some v)) id src None id' k') as Hdup.
  { intros v id' k'. apply update_cases; [by intros -> ->; rewrite update_eq|]. intros Hn.
    rewrite (update_ne _ id src) by done. apply update_cases; [by intros -> ->; rewrite update_eq|].
    intros Hn'. by rewrite !update_ne. }
  unfold key_del. destruct (Z.eqb_spec w (-1)) as [Heq|Hne1].
  - intros id' k' Hv'. rewrite Heq, <- Hdup. by apply views_key_del.
  - intros id' k' Hv'. rewrite <- Hdup. pose proof (key_add_key id dst o t1 Hv1) as Hko.
    rewrite (views_key_del id src _ _ (proj2 (valid_at_db _ _ _ _) Hv2)
      (views_expire id dst w o t2 _ Hv2 Hf2 Hko ltac:(rewrite Hc2, Hl2, Hm2, Hc1, Hl1, Hm1; exact Hw)) id' k' Hv').
    apply update_cases; [by intros -> ->; rewrite update_eq|]. intros Hn. rewrite (update_ne _ id src) by done.
    apply update_cases; [by intros -> ->; rewrite update_eq|]. intros Hn'. by rewrite !update_ne.
Qed.
