(* ===== verification/Links.v ===== *)
(** * Watched keys and subscriptions

    The tables that map keys, channels and patterns to clients, and the lists of
    the clients that mirror them: every operation of multi.c and pubsub.c that
    writes them keeps the two sides equal, and its assertions hold. *)
From S2P Require Import Prelude Util Glob Object Server Pubsub Watch Db Invariant Steps KeySpec.
Open Scope Z_scope.
Open Scope server_scope.

(** ** Deleting one occurrence *)

Lemma del_first_elem {A} `{EqDecision A} (x y : A) l : y ∈ del_first x l -> y ∈ l.
Proof.
  induction l as [|z l IH]; [done|]. simpl. case_decide; [intros; by right|].
  rewrite !elem_of_cons. tauto.
Qed.

Lemma del_first_NoDup {A} `{EqDecision A} (x : A) l : NoDup l -> NoDup (del_first x l).
Proof.
  induction 1 as [|z l Hz Hl IH]; [constructor|]. simpl. case_decide; [done|].
  constructor; [|done]. intros ?%del_first_elem. done.
Qed.

Lemma del_first_spec {A} `{EqDecision A} (x y : A) l : NoDup l -> y ∈ del_first x l <-> y ∈ l /\ y <> x.
Proof.
  induction 1 as [|z l Hz Hl IH]; simpl; [set_solver|]. case_decide as Hxz; [set_solver|].
  rewrite !elem_of_cons, IH. split; [|tauto]. intros [->|[??]]; [|tauto]. split; [by left|congruence].
Qed.

(** ** Tables *)

Section tables.
Context {K : Type} `{Countable K}.
Implicit Types (m : gmap K (list cid)) (R : cid -> K -> Prop).

Definition table_add (c : cid) (k : K) m : gmap K (list cid) := <[k := default [] (m !! k) ++ [c]]> m.

Definition table_remove (c : cid) (k : K) m : gmap K (list cid) :=
  let l := del_first c (default [] (m !! k)) in
  if bool_decide (l = []) then delete k m else <[k := l]> m.

Lemma table_NoDup m R k : table_ok m R -> NoDup (default [] (m !! k)).
Proof.
  intros Hm. destruct (m !! k) as [l|] eqn:Hl; [|constructor]. by apply (proj2 (Hm k) l).
Qed.

Lemma table_add_ok m R R' c k :
  table_ok m R -> ~ R c k -> (forall c' k', R' c' k' <-> R c' k' \/ (c' = c /\ k' = k)) ->
  table_ok (table_add c k m) R'.
Proof.
  intros Hm Hn HR k'. unfold table_add. destruct (decide (k = k')) as [<-|Hne].
  - rewrite lookup_insert_eq. simpl. split.
    + intros c'. rewrite elem_of_app, list_elem_of_singleton, HR, (proj1 (Hm k)). naive_solver.
    + intros l [= <-]. split; [by intros []%app_eq_nil|]. apply NoDup_app. split; [by eapply table_NoDup|].
      split; [|apply NoDup_singleton]. intros c' Hc' ->%list_elem_of_singleton. by apply Hn, (Hm k).
  - rewrite lookup_insert_ne by done. split; [|apply Hm].
    intros c'. rewrite HR, (proj1 (Hm k')). naive_solver.
Qed.

Lemma table_remove_ok m R R' c k :
  table_ok m R -> (forall c' k', R' c' k' <-> R c' k' /\ ~ (c' = c /\ k' = k)) ->
  table_ok (table_remove c k m) R'.
Proof.
  intros Hm HR k'. unfold table_remove. set (l := del_first c (default [] (m !! k))).
  assert (forall c', c' ∈ l <-> R' c' k) as Hl.
  { intros c'. unfold l. rewrite del_first_spec by by eapply table_NoDup.
    rewrite HR, (proj1 (Hm k)). naive_solver. }
  assert (NoDup l) by (apply del_first_NoDup; by eapply table_NoDup).
  destruct (decide (k = k')) as [<-|Hne].
  - case_bool_decide as Hnil.
    + rewrite lookup_delete_eq. split; [|done]. intros c'. simpl. by rewrite <- Hl, Hnil.
    + rewrite lookup_insert_eq. split; [done|]. by intros ? [= <-].
  - assert ((if bool_decide (l = []) then delete k m else <[k := l]> m) !! k' = m !! k') as ->.
    { case_bool_decide; [by rewrite lookup_delete_ne|by rewrite lookup_insert_ne]. }
    split; [|apply Hm]. intros c'. rewrite HR, (proj1 (Hm k')). naive_solver.
Qed.

Lemma table_lookup m R c k : table_ok m R -> R c k -> exists l, m !! k = Some l /\ c ∈ l.
Proof.
  intros Hm HR%(proj1 (Hm k)). destruct (m !! k) as [l|]; [by exists l|]. by apply elem_of_nil in HR.
Qed.
End tables.

(** ** The invariant under a change of one client and one table *)

Lemma rel_at (P : client -> Prop) c f s y c' :
  clients s !! c = Some y ->
  (exists x, clients (client_at c f s) !! c' = Some x /\ P x) <->
  (if decide (c' = c) then P (f y) else exists x, clients s !! c' = Some x /\ P x).
Proof.
  intros Hy. split.
  - intros (x' & (x & Hx & ->)%client_at_inv & Hp). case_decide as E; case_decide as E'; subst; try done.
    + by simplify_eq.
    + by exists x.
  - case_decide as E.
    + subst c'. intros Hp. exists (f y). split; [by apply client_at_lookup|done].
    + intros (x & Hx & Hp). exists x. split; [|done]. rewrite (client_at_fwd c f s c' x Hx).
      by rewrite decide_False by congruence.
Qed.

Lemma rel_same (P : client -> Prop) c f s y c' :
  clients s !! c = Some y -> (P (f y) <-> P y) ->
  (exists x, clients (client_at c f s) !! c' = Some x /\ P x) <-> (exists x, clients s !! c' = Some x /\ P x).
Proof.
  intros Hy HP. rewrite (rel_at P c f s y c' Hy). case_decide; [|done]. subst. rewrite HP.
  split; [eauto|]. intros (x & Hx & ?). by simplify_eq.
Qed.

(** The clients after a change of [c]. *)
Lemma clients_at_ok c f s y :
  clients s !! c = Some y -> (forall c' x, clients s !! c' = Some x -> client_ok s x) -> client_ok s (f y) ->
  forall c' x, clients (client_at c f s) !! c' = Some x -> client_ok s x.
Proof.
  intros Hy Hcl Hf c' x' (x & Hx & ->)%client_at_inv. case_decide; [|by eapply Hcl]. subst. by simplify_eq.
Qed.

Lemma client_ok_dbs s s' x : zlen (dbs s) = zlen (dbs s') -> client_ok s x -> client_ok s' x.
Proof. intros Hd [????]. split; rewrite <- ?Hd; done. Qed.

Lemma watch_change_ok s id c f g y :
  server_ok s -> valid s id -> clients s !! c = Some y -> client_ok s (f y) ->
  channels (f y) = channels y -> patterns (f y) = patterns y ->
  (forall d, dict (g d) = dict d /\ expires (g d) = expires d) ->
  (forall id' k, id' <> id -> (id', k) ∈ watched (f y) <-> (id', k) ∈ watched y) ->
  table_ok (watched_keys (g (db_at s id)))
    (fun c' k => if decide (c' = c) then (id, k) ∈ watched (f y) else watches s c' id k) ->
  server_ok (client_at c f (at_db id g s)).
Proof.
  intros Hs Hv Hy Hfy Hch Hpa Hg Hw Htab. pose proof Hs as [Hn Hdb Hcl Hc Hnd Hps Hpo].
  assert (zlen (dbs (at_db id g s)) = zlen (dbs s)) as Hz by apply zlen_alter.
  split; try done.
  - change (0 < zlen (dbs (at_db id g s)) <= INT32_MAX). by rewrite Hz.
  - intros id' d. simpl. destruct (decide (id = id')) as [<-|Hne].
    + unfold at_db. simpl. rewrite rd_alter by apply Hv. rewrite (db_at_valid s id Hv). intros [= <-].
      destruct (db_at_ok s id Hs Hv) as [He Ho _]. destruct (Hg (db_at s id)) as [Hg1 Hg2].
      split; [by rewrite Hg1, Hg2|by rewrite Hg1|].
      eapply table_ok_ext; [|exact Htab]. intros c' k. symmetry.
      apply (rel_at (fun x => (id, k) ∈ watched x) c f (at_db id g s) y c' Hy).
    + unfold at_db. simpl. rewrite rd_alter_ne; [|apply Hv|done]. intros Hd.
      destruct (Hdb id' d Hd) as [He Ho Ht]. split; [done|done|].
      eapply table_ok_ext; [|exact Ht]. intros c' k. symmetry.
      apply (rel_same (fun x => (id', k) ∈ watched x) c f (at_db id g s) y c' Hy). by apply Hw.
  - intros c' x Hx. apply (client_ok_dbs s); [done|].
    by apply (clients_at_ok c f s y Hy Hcl Hfy c').
  - eapply table_ok_ext; [|exact Hc]. intros c' ch. symmetry.
    apply (rel_same (fun x => ch ∈ channels x) c f (at_db id g s) y c' Hy). by rewrite Hch.
  - intros c' p. rewrite Hps. symmetry.
    apply (rel_same (fun x => p ∈ patterns x) c f (at_db id g s) y c' Hy). by rewrite Hpa.
Qed.

(** A database keeps its invariant when the watched keys are the same. *)
Lemma dbs_ok_same s s' :
  dbs s' = dbs s -> (forall c id k, watches s' c id k <-> watches s c id k) ->
  (forall id d, rd (dbs s) id = Some d -> db_ok s id d) -> forall id d, rd (dbs s') id = Some d -> db_ok s' id d.
Proof.
  intros Hd Hw Hdb id d. rewrite Hd. intros Hr. destruct (Hdb id d Hr) as [He Ho Ht]. split; [done|done|].
  eapply table_ok_ext; [|exact Ht]. intros c k. symmetry. apply Hw.
Qed.

Lemma channel_change_ok s c f h y :
  server_ok s -> clients s !! c = Some y -> client_ok s (f y) ->
  watched (f y) = watched y -> patterns (f y) = patterns y ->
  table_ok (h (pubsub_channels s))
    (fun c' ch => if decide (c' = c) then ch ∈ channels (f y) else subscribed s c' ch) ->
  server_ok (client_at c f (set_pubsub_channels h s)).
Proof.
  intros Hs Hy Hfy Hw Hpa Htab. pose proof Hs as [Hn Hdb Hcl Hc Hnd Hps Hpo]. split; try done.
  - apply (dbs_ok_same s); [done| |done]. intros c' id k.
    apply (rel_same (fun x => (id, k) ∈ watched x) c f (set_pubsub_channels h s) y c' Hy). by rewrite Hw.
  - intros c' x Hx. apply (client_ok_dbs s); [done|]. by apply (clients_at_ok c f s y Hy Hcl Hfy c').
  - eapply table_ok_ext; [|exact Htab]. intros c' ch. symmetry.
    apply (rel_at (fun x => ch ∈ channels x) c f (set_pubsub_channels h s) y c' Hy).
  - intros c' p. rewrite Hps. symmetry.
    apply (rel_same (fun x => p ∈ patterns x) c f (set_pubsub_channels h s) y c' Hy). by rewrite Hpa.
Qed.

Lemma pattern_change_ok s c f h y :
  server_ok s -> clients s !! c = Some y -> client_ok s (f y) ->
  watched (f y) = watched y -> channels (f y) = channels y -> NoDup (h (pubsub_patterns s)) ->
  (forall c' p, (c', p) ∈ h (pubsub_patterns s) <->
    if decide (c' = c) then p ∈ patterns (f y) else psubscribed s c' p) ->
  (forall c' p, (c', p) ∈ h (pubsub_patterns s) -> pattern_ok p) ->
  server_ok (client_at c f (set_pubsub_patterns h s)).
Proof.
  intros Hs Hy Hfy Hw Hch Hnd' Hrel Hpo'. pose proof Hs as [Hn Hdb Hcl Hc Hnd Hps Hpo]. split; try done.
  - apply (dbs_ok_same s); [done| |done]. intros c' id k.
    apply (rel_same (fun x => (id, k) ∈ watched x) c f (set_pubsub_patterns h s) y c' Hy). by rewrite Hw.
  - intros c' x Hx. apply (client_ok_dbs s); [done|]. by apply (clients_at_ok c f s y Hy Hcl Hfy c').
  - eapply table_ok_ext; [|exact Hc]. intros c' ch. symmetry.
    apply (rel_same (fun x => ch ∈ channels x) c f (set_pubsub_patterns h s) y c' Hy). by rewrite Hch.
  - intros c' p. simpl. rewrite Hrel. symmetry.
    apply (rel_at (fun x => p ∈ patterns x) c f (set_pubsub_patterns h s) y c' Hy).
Qed.

(** ** WATCH and UNWATCH *)

Definition watch_one (c : cid) (id : Z) (k : bytes) (t : server) : server :=
  client_at c (set_watched (fun l => l ++ [(id, k)])) (at_db id (set_watched_keys (table_add c k)) t).

Definition unwatch_one (c : cid) (wk : Z * bytes) (t : server) : server :=
  client_at c (set_watched (del_first wk)) (at_db wk.1 (set_watched_keys (table_remove c wk.2)) t).

Lemma core_write_watched g : core_write (set_watched g).
Proof. by apply core_write_comm. Qed.

Lemma watch_one_ok c id k y t :
  server_ok t -> valid t id -> clients t !! c = Some y -> (id, k) ∉ watched y -> server_ok (watch_one c id k t).
Proof.
  intros Ht Hv Hy Hn. destruct (ok_clients t Ht c y Hy) as [Hdb Hnd Hwd Hp].
  eapply watch_change_ok; try done.
  - split; simpl; [done| |intros id' k'|done].
    + apply NoDup_app. split; [done|]. split; [|apply NoDup_singleton]. by intros wk Hwk ->%list_elem_of_singleton.
    + rewrite elem_of_app, list_elem_of_singleton. intros [?|[= -> ->]]; [by eapply Hwd|done].
  - intros id' k' Hne. simpl. rewrite elem_of_app, list_elem_of_singleton. naive_solver.
  - simpl. eapply table_add_ok; [apply (db_watch t id _ (db_at_ok t id Ht Hv))| |].
    + intros (x & Hx & Hin). simplify_eq. done.
    + intros c' k'. unfold watches. case_decide as E; simpl.
      * subst c'. rewrite elem_of_app, list_elem_of_singleton. naive_solver.
      * naive_solver.
Qed.

Lemma watchForKey_spec c y k s t :
  s ≈ t -> server_ok t -> clients t !! c = Some y ->
  wp (watchForKey c k) (fun _ s' => s' ≈ (if decide ((db y, k) ∈ watched y) then t else watch_one c (db y) k t)) s.
Proof.
  intros Hq Ht Hy. unfold watchForKey. assert (valid t (db y)) as Hv by eauto with server.
  eapply wp_seq; [by eapply get_client_spec|]. cbv beta.
  intros x s1 [(-> & _ & _ & -> & _)%client_core_eq Hs1]. case_decide; [by apply wp_ret|].
  do 2 step. eapply update_client_spec; [apply core_write_watched|done|done].
Qed.

Lemma unwatch_one_ok c wk y t :
  server_ok t -> clients t !! c = Some y -> wk ∈ watched y -> server_ok (unwatch_one c wk t).
Proof.
  intros Ht Hy Hin. destruct (ok_clients t Ht c y Hy) as [Hdb Hnd Hwd Hp]. destruct wk as [id k].
  assert (valid t id) as Hv by by eapply Hwd. eapply watch_change_ok; try done.
  - split; simpl; [done|by apply del_first_NoDup| |done]. intros id' k' Hk. apply del_first_elem in Hk. by eapply Hwd.
  - intros id' k' Hne. simpl. rewrite del_first_spec by done. simpl in Hne. naive_solver.
  - simpl. eapply table_remove_ok; [apply (db_watch t id _ (db_at_ok t id Ht Hv))|].
    intros c' k'. unfold watches. case_decide as E; simpl.
    + subst c'. rewrite del_first_spec by done. naive_solver.
    + naive_solver.
Qed.

Lemma unwatch_key_spec c y wk s t :
  s ≈ t -> server_ok t -> clients t !! c = Some y -> wk ∈ watched y ->
  wp (unwatch_key c wk) (fun _ s' => s' ≈ unwatch_one c wk t) s.
Proof.
  intros Hq Ht Hy Hin. destruct wk as [id k]. unfold unwatch_key. simpl.
  assert (valid t id) as Hv by (destruct (ok_clients t Ht c y Hy) as [_ _ Hwd _]; by eapply Hwd).
  step. pose proof (db_watch t id _ (db_at_ok t id Ht Hv)) as Htab.
  destruct (table_lookup _ _ c k Htab) as (l & Hl & Hcl); [by exists y|]. rewrite Hl.
  eapply wp_seq; [apply assert_spec; [done|by apply bool_decide_eq_true]|]. cbv beta. step_intro s0.
  eapply (wp_seq _ _ (fun _ s' => s' ≈ at_db id (set_watched_keys (table_remove c k)) t)).
  { eapply wp_mono; [by eapply update_db_spec|]. cbv beta. intros _ s' Hs'. rewrite Hs'.
    erewrite at_db_ext; [done| |done]. unfold set_watched_keys, table_remove. simpl. by rewrite Hl. }
  cbv beta. intros _ s' Hs'. eapply update_client_spec; [apply core_write_watched|done|done].
Qed.

(** Two states with the same keys, deadlines, and clock. *)
Record same_data (t t' : server) : Prop := {
  sd_valid : forall id, valid t' id <-> valid t id;
  sd_dict : forall id, dict (db_at t' id) = dict (db_at t id);
  sd_expires : forall id, expires (db_at t' id) = expires (db_at t id);
  sd_mstime : mstime t' = mstime t;
  sd_loading : loading t' = loading t;
  sd_masterhost : masterhost t' = masterhost t;
  sd_lua : lua_time_start t' = lua_time_start t
}.

#[global] Instance same_data_refl : Reflexive same_data.
Proof. by split. Qed.
#[global] Instance same_data_trans : Transitive same_data.
Proof.
  intros a b d [V1 D1 E1 M1 L1 H1 U1] [V2 D2 E2 M2 L2 H2 U2].
  split; try congruence. intros id. by rewrite V2.
Qed.

Lemma same_data_client_at c f t : same_data t (client_at c f t).
Proof. by split. Qed.

Lemma same_data_watched id g t : valid t id -> same_data t (at_db id (set_watched_keys g) t).
Proof.
  intros Hv. split; try done.
  - intros id'. apply valid_at_db.
  - intros id'. destruct (decide (id = id')) as [<-|]; [by rewrite at_db_at|by rewrite at_db_at_ne].
  - intros id'. destruct (decide (id = id')) as [<-|]; [by rewrite at_db_at|by rewrite at_db_at_ne].
Qed.

(** [unwatchAllKeys] empties the list of the client, and nothing else of it. *)
Definition unwatched (c : cid) (t t' : server) : Prop :=
  server_ok t' /\ same_data t t' /\ clients t' = alter (set_watched (fun _ => [])) c (clients t) /\
  pubsub_channels t' = pubsub_channels t /\ pubsub_patterns t' = pubsub_patterns t /\ (idle t -> idle t').

Lemma unwatch_loop_spec c y s t :
  s ≈ t -> server_ok t -> clients t !! c = Some y ->
  wp (mfor (watched y) (unwatch_key c)) (fun _ s' => exists t', s' ≈ t' /\ unwatched c t t') s.
Proof.
  remember (watched y) as l eqn:Hl. symmetry in Hl. revert y s t Hl.
  induction l as [|wk l IH]; intros y s t Hl Hq Ht Hy; simpl.
  - exists t. split; [done|]. split_and!; try done.
    apply map_eq. intros c'. destruct (decide (c = c')) as [<-|]; [|by rewrite lookup_alter_ne].
    rewrite lookup_alter_eq, Hy. simpl. f_equal. destruct y; simpl in *. by subst.
  - assert (wk ∈ watched y) as Hin by (rewrite Hl; left).
    eapply wp_seq; [by eapply unwatch_key_spec|]. cbv beta. intros _ s1 Hs1.
    assert (server_ok (unwatch_one c wk t)) as Hok by by eapply unwatch_one_ok.
    assert (clients (unwatch_one c wk t) !! c = Some (set_watched (del_first wk) y)) as Hy'.
    { unfold unwatch_one. by apply client_at_lookup. }
    eapply wp_mono; [eapply (IH _ s1 _); [|done|done|exact Hy']|].
    { simpl. rewrite Hl. simpl. by rewrite decide_True. }
    cbv beta. intros _ s2 (t' & Hs2 & Hok' & Hsd & Hc & Hch & Hpa & Hi). exists t'. split; [done|]. split_and!; try done.
    + etrans; [|exact Hsd]. etrans; [|apply same_data_client_at]. apply same_data_watched.
      destruct (ok_clients t Ht c y Hy) as [_ _ Hwd _]. destruct wk. by eapply Hwd.
    + rewrite Hc. simpl. apply map_eq. intros c'. destruct (decide (c = c')) as [<-|].
      * rewrite !lookup_alter_eq, Hy. done.
      * by rewrite !lookup_alter_ne.
    + intros Hit. by apply Hi, (idle_at_db wk.1 (set_watched_keys (table_remove c wk.2)) t).
Qed.

Lemma unwatchAllKeys_spec c y s t :
  s ≈ t -> server_ok t -> clients t !! c = Some y ->
  wp (unwatchAllKeys c) (fun _ s' => exists t', s' ≈ t' /\ unwatched c t t') s.
Proof.
  intros Hq Ht Hy. unfold unwatchAllKeys. eapply wp_seq; [by eapply get_client_spec|]. cbv beta.
  intros x s1 [(_ & _ & _ & -> & _)%client_core_eq Hs1]. by eapply unwatch_loop_spec.
Qed.

(** ** Channels *)

Lemma core_write_channels g : core_write (set_channels g).
Proof. by apply core_write_comm. Qed.
Lemma core_write_patterns g : core_write (set_patterns g).
Proof. by apply core_write_comm. Qed.

Definition subscribe_one (c : cid) (ch : bytes) (t : server) : server :=
  client_at c (set_channels (union {[ch]})) (set_pubsub_channels (table_add c ch) t).

Definition unsubscribe_one (c : cid) (ch : bytes) (t : server) : server :=
  client_at c (set_channels (fun m => m ∖ {[ch]})) (set_pubsub_channels (table_remove c ch) t).

Lemma subscribe_one_ok c ch y t :
  server_ok t -> clients t !! c = Some y -> ch ∉ channels y -> server_ok (subscribe_one c ch t).
Proof.
  intros Ht Hy Hn. destruct (ok_clients t Ht c y Hy) as [Hdb Hnd Hwd Hp].
  eapply channel_change_ok; try done.
  eapply table_add_ok; [apply (ok_channels t Ht)|intros (x & Hx & ?); by simplify_eq|].
  intros c' k'. unfold subscribed. case_decide; simpl; [subst c'; rewrite elem_of_union, elem_of_singleton|]; naive_solver.
Qed.

Lemma unsubscribe_one_ok c ch y t :
  server_ok t -> clients t !! c = Some y -> server_ok (unsubscribe_one c ch t).
Proof.
  intros Ht Hy. destruct (ok_clients t Ht c y Hy) as [Hdb Hnd Hwd Hp].
  eapply channel_change_ok; try done.
  eapply table_remove_ok; [apply (ok_channels t Ht)|].
  intros c' k'. unfold subscribed. case_decide; simpl; [subst c'; rewrite elem_of_difference, elem_of_singleton|]; naive_solver.
Qed.

(** The four or five elements of a confirmation. *)
Lemma count_spec c s t : s ≈ t -> alive c t -> wp (clientSubscriptionsCount c) (fun _ s' => s' ≈ t) s.
Proof.
  intros Hq [y Hy]. unfold clientSubscriptionsCount. eapply wp_seq; [by eapply get_client_spec|]. cbv beta.
  by intros x s' [_ ?].
Qed.

Lemma confirmation_quiet c kind what s t :
  s ≈ t -> alive c t ->
  wp (_ ← addReply c (RMulti 3);
      _ ← addReply c (RBulk kind);
      _ ← addReply c what;
      n ← clientSubscriptionsCount c;
      addReplyLongLong c n) (fun _ s' => s' ≈ t) s.
Proof.
  intros Hq Ha. do 3 step. step by count_spec. by apply addReply_quiet.
Qed.

(** The same, when the result follows. *)
Lemma confirmed_quiet {A} c kind what (r : A) s t :
  s ≈ t -> alive c t ->
  wp (_ ← addReply c (RMulti 3);
      _ ← addReply c (RBulk kind);
      _ ← addReply c what;
      n ← clientSubscriptionsCount c;
      _ ← addReplyLongLong c n; mret r) (fun r' s' => r' = r /\ s' ≈ t) s.
Proof.
  intros Hq Ha. do 3 step. step by count_spec. step. by apply wp_ret.
Qed.

Lemma subscribe_spec c y ch s t :
  s ≈ t -> server_ok t -> clients t !! c = Some y ->
  wp (pubsubSubscribeChannel c ch)
    (fun n s' => n = (if decide (ch ∈ channels y) then 0 else 1) /\
                 s' ≈ (if decide (ch ∈ channels y) then t else subscribe_one c ch t)) s.
Proof.
  intros Hq Ht Hy. unfold pubsubSubscribeChannel. eapply wp_seq; [by eapply get_client_spec|]. cbv beta.
  intros x s1 [(_ & _ & _ & _ & -> & _)%client_core_eq Hs1]. case_decide.
  - apply wp_bind, wp_ret. apply confirmed_quiet; [done|by exists y].
  - assert (alive c (subscribe_one c ch t)) by (eexists; by apply client_at_lookup).
    eapply (wp_seq _ _ (fun n s' => n = 1 /\ s' ≈ subscribe_one c ch t)).
    + eapply wp_seq; [eapply (update_client_spec c _ y); [apply core_write_channels|done|done]|]. cbv beta.
      intros _ s2 Hs2. apply wp_bind, wp_modify, wp_ret. split; [done|]. by rewrite Hs2.
    + cbv beta. intros n s2 [-> Hs2]. by apply confirmed_quiet.
Qed.

(** Unsubscribing, with or without the notification. *)
Definition unsub_notify (c : cid) (notify : bool) (kind what : bytes) : M unit :=
  if notify : bool then
    _ ← addReply c (RMulti 3);
    _ ← addReply c (RBulk kind);
    _ ← addReply c (RBulk what);
    n ← clientSubscriptionsCount c;
    addReplyLongLong c n
  else mret tt.

Lemma unsub_notify_quiet c notify kind what s t :
  s ≈ t -> alive c t -> wp (unsub_notify c notify kind what) (fun _ s' => s' ≈ t) s.
Proof. intros. destruct notify; [by apply confirmation_quiet|by apply wp_ret]. Qed.

Lemma unsubscribe_spec c y ch notify s t :
  s ≈ t -> server_ok t -> clients t !! c = Some y ->
  wp (pubsubUnsubscribeChannel c ch notify)
    (fun n s' => n = (if decide (ch ∈ channels y) then 1 else 0) /\
                 s' ≈ (if decide (ch ∈ channels y) then unsubscribe_one c ch t else t)) s.
Proof.
  intros Hq Ht Hy. unfold pubsubUnsubscribeChannel. fold (unsub_notify c notify (zs "unsubscribe") ch).
  eapply wp_seq; [by eapply get_client_spec|]. cbv beta.
  intros x s1 [(_ & _ & _ & _ & -> & _)%client_core_eq Hs1]. case_decide as Hin.
  - assert (alive c (unsubscribe_one c ch t)) by (eexists; by apply client_at_lookup).
    eapply (wp_seq _ _ (fun n s' => n = 1 /\ s' ≈ unsubscribe_one c ch t)).
    + eapply wp_seq; [eapply (update_client_spec c _ y); [apply core_write_channels|done|done]|]. cbv beta.
      intros _ s2 Hs2. apply wp_bind, wp_gets. rewrite (quiet_channels _ _ Hs2). simpl.
      destruct (table_lookup _ _ c ch (ok_channels t Ht)) as (l & Hl & Hcl); [by exists y|]. rewrite Hl.
      eapply wp_seq; [apply assert_spec; [done|by apply bool_decide_eq_true]|]. cbv beta. intros _ s3 Hs3.
      apply wp_bind, wp_modify, wp_ret. split; [done|]. rewrite Hs3.
      unfold unsubscribe_one, table_remove, client_at, set_pubsub_channels, set_clients. simpl. rewrite Hl. simpl.
      by case_bool_decide.
    + cbv beta. intros n s2 [-> Hs2]. eapply wp_seq; [by apply unsub_notify_quiet|]. cbv beta.
      intros _ s3 Hs3. by apply wp_ret.
  - apply wp_bind, wp_ret. eapply wp_seq; [apply unsub_notify_quiet; [done|by exists y]|]. cbv beta.
    intros _ s3 Hs3. by apply wp_ret.
Qed.

(** ** Patterns *)

Definition psubscribe_one (c : cid) (p : bytes) (t : server) : server :=
  client_at c (set_patterns (fun l => l ++ [p])) (set_pubsub_patterns (fun l => l ++ [(c, p)]) t).

Definition punsubscribe_one (c : cid) (p : bytes) (t : server) : server :=
  client_at c (set_patterns (del_first p)) (set_pubsub_patterns (del_first (c, p)) t).

Lemma psubscribe_one_ok c p y t :
  server_ok t -> clients t !! c = Some y -> p ∉ patterns y -> pattern_ok p -> server_ok (psubscribe_one c p t).
Proof.
  intros Ht Hy Hn Hpo. destruct (ok_clients t Ht c y Hy) as [Hdb Hnd Hwd Hp].
  assert (~ psubscribed t c p) as Hnp by (intros (x & Hx & ?); by simplify_eq).
  eapply pattern_change_ok; try done.
  - split; simpl; [done|done|done|]. apply NoDup_app. split; [done|]. split; [|apply NoDup_singleton].
    by intros q Hq ->%list_elem_of_singleton.
  - apply NoDup_app. split; [by apply ok_patterns|]. split; [|apply NoDup_singleton].
    intros q Hq ->%list_elem_of_singleton. by apply (ok_psubscribed t Ht) in Hq.
  - intros c' q. rewrite elem_of_app, list_elem_of_singleton, (ok_psubscribed t Ht). unfold psubscribed.
    case_decide; simpl; [subst c'; rewrite elem_of_app, list_elem_of_singleton|]; naive_solver.
  - intros c' q. rewrite elem_of_app, list_elem_of_singleton. intros [?|[= -> ->]]; [by eapply ok_pattern|done].
Qed.

Lemma punsubscribe_one_ok c p y t :
  server_ok t -> clients t !! c = Some y -> server_ok (punsubscribe_one c p t).
Proof.
  intros Ht Hy. destruct (ok_clients t Ht c y Hy) as [Hdb Hnd Hwd Hp].
  pose proof (ok_patterns t Ht) as Hnd'. eapply pattern_change_ok; try done.
  - split; simpl; [done|done|done|by apply del_first_NoDup].
  - by apply del_first_NoDup.
  - intros c' q. rewrite del_first_spec by done. rewrite (ok_psubscribed t Ht). unfold psubscribed.
    case_decide; simpl; [subst c'; rewrite del_first_spec by done|]; naive_solver.
  - intros c' q Hq%del_first_elem. by eapply ok_pattern.
Qed.

Lemma psubscribe_spec c y p s t :
  s ≈ t -> server_ok t -> clients t !! c = Some y ->
  wp (pubsubSubscribePattern c p)
    (fun n s' => n = (if decide (p ∈ patterns y) then 0 else 1) /\
                 s' ≈ (if decide (p ∈ patterns y) then t else psubscribe_one c p t)) s.
Proof.
  intros Hq Ht Hy. unfold pubsubSubscribePattern. eapply wp_seq; [by eapply get_client_spec|]. cbv beta.
  intros x s1 [(_ & _ & _ & _ & _ & -> & _)%client_core_eq Hs1]. case_decide.
  - apply wp_bind, wp_ret. apply confirmed_quiet; [done|by exists y].
  - assert (alive c (psubscribe_one c p t)) by (eexists; by apply client_at_lookup).
    eapply (wp_seq _ _ (fun n s' => n = 1 /\ s' ≈ psubscribe_one c p t)).
    + eapply wp_seq; [eapply (update_client_spec c _ y); [apply core_write_patterns|done|done]|]. cbv beta.
      intros _ s2 Hs2. apply wp_bind, wp_modify, wp_ret. split; [done|]. by rewrite Hs2.
    + cbv beta. intros n s2 [-> Hs2]. by apply confirmed_quiet.
Qed.

Lemma punsubscribe_spec c y p notify s t :
  s ≈ t -> server_ok t -> clients t !! c = Some y ->
  wp (pubsubUnsubscribePattern c p notify)
    (fun n s' => n = (if decide (p ∈ patterns y) then 1 else 0) /\
                 s' ≈ (if decide (p ∈ patterns y) then punsubscribe_one c p t else t)) s.
Proof.
  intros Hq Ht Hy. unfold pubsubUnsubscribePattern. fold (unsub_notify c notify (zs "punsubscribe") p).
  eapply wp_seq; [by eapply get_client_spec|]. cbv beta.
  intros x s1 [(_ & _ & _ & _ & _ & -> & _)%client_core_eq Hs1]. case_decide as Hin.
  - assert (alive c (punsubscribe_one c p t)) by (eexists; by apply client_at_lookup).
    eapply (wp_seq _ _ (fun n s' => n = 1 /\ s' ≈ punsubscribe_one c p t)).
    + eapply wp_seq; [eapply (update_client_spec c _ y); [apply core_write_patterns|done|done]|]. cbv beta.
      intros _ s2 Hs2. apply wp_bind, wp_gets. rewrite (quiet_patterns _ _ Hs2). simpl.
      eapply wp_seq; [apply assert_spec; [done|]|]; [apply bool_decide_eq_true, (ok_psubscribed t Ht); by exists y|].
      cbv beta. intros _ s3 Hs3. apply wp_bind, wp_modify, wp_ret. split; [done|]. by rewrite Hs3.
    + cbv beta. intros n s2 [-> Hs2]. eapply wp_seq; [by apply unsub_notify_quiet|]. cbv beta.
      intros _ s3 Hs3. by apply wp_ret.
  - apply wp_bind, wp_ret. eapply wp_seq; [apply unsub_notify_quiet; [done|by exists y]|]. cbv beta.
    intros _ s3 Hs3. by apply wp_ret.
Qed.
