(* ===== verification/Safety.v ===== *)
(** * Safety of the commands

    [safe c m]: on a consistent server where client [c] is connected, [m] runs
    without a failed assertion or a read out of bounds, and leaves a consistent
    server with the same clients, whose queues are as before or empty. *)
From S2P Require Import Prelude Util Glob Object Server Pubsub Watch Db TString Invariant Steps StringSpec KeySpec Links.
Open Scope Z_scope.
Open Scope server_scope.

Record evolves (t t' : server) : Prop := {
  ev_ok : server_ok t';
  ev_alive : forall c, alive c t' <-> alive c t;
  ev_queue : forall c x x', clients t !! c = Some x -> clients t' !! c = Some x' ->
    mstate x' = mstate x \/ mstate x' = [];
  ev_idle : idle t -> idle t'
}.

Lemma evolves_refl t : server_ok t -> evolves t t.
Proof. intros Ht. split; [done|done| |done]. intros c x x' Hx Hx'. simplify_eq. by left. Qed.

Lemma evolves_trans t t1 t2 : evolves t t1 -> evolves t1 t2 -> evolves t t2.
Proof.
  intros [_ A1 Q1 I1] [H2 A2 Q2 I2]. split; [done|intros c; by rewrite A2| |by auto].
  intros c x x' Hx Hx'. assert (alive c t1) as [z Hz] by (apply A1; eauto with server).
  destruct (Q2 c z x' Hz Hx') as [->| ->]; [by eapply Q1|by right].
Qed.

(** Quiet steps before and after. *)
Lemma evolves_quiet s s' t t' : s ≈ t -> s' ≈ t' -> evolves t t' -> evolves s s'.
Proof.
  intros Hs Hs' [Ht A Q I]. split; [by rewrite Hs'|intros c; by rewrite Hs, Hs'| |].
  2: { intros Hi. apply (idle_quiet _ _ Hs'), I. by apply (idle_quiet t s). }
  intros c x x' Hx Hx'. destruct (quiet_client _ _ _ _ Hs Hx) as (z & Hz & Hxz).
  destruct (quiet_client _ _ _ _ Hs' Hx') as (z' & Hz' & Hxz').
  apply client_core_eq in Hxz as (_&_&->&_). apply client_core_eq in Hxz' as (_&_&->&_). by eapply Q.
Qed.

Lemma evolves_clients t t' : server_ok t' -> clients t' = clients t -> (idle t -> idle t') -> evolves t t'.
Proof.
  intros Ht Hc Hi. split; [done|intros c; unfold alive; by rewrite Hc| |done].
  rewrite Hc. intros c x x' Hx Hx'. simplify_eq. by left.
Qed.

Lemma evolves_client_at c f t t' :
  server_ok (client_at c f t') -> clients t' = clients t ->
  (forall x, mstate (f x) = mstate x \/ mstate (f x) = []) -> (idle t -> idle t') -> evolves t (client_at c f t').
Proof.
  intros Ht Hc Hf Hi. split; [done| | |done].
  - intros c'. unfold alive, client_at. simpl. rewrite Hc. destruct (decide (c = c')) as [<-|].
    + by rewrite lookup_alter_eq, fmap_is_Some.
    + by rewrite lookup_alter_ne.
  - intros c' x x' Hx (z & Hz & ->)%client_at_inv. rewrite Hc, Hx in Hz. simplify_eq.
    case_decide; [by apply Hf|by left].
Qed.

Definition safe {A} (c : cid) (m : M A) : Prop :=
  forall s, server_ok s -> alive c s -> wp m (fun _ s' => evolves s s') s.

Section rules.
Context {A B : Type} (c : cid).
Implicit Types (m : M A).

Lemma safe_bind m (f : A -> M B) : safe c m -> (forall a, safe c (f a)) -> safe c (m ≫= f).
Proof.
  intros Hm Hf s Hs Ha. eapply wp_seq; [by apply Hm|]. cbv beta. intros a s1 He.
  eapply wp_mono; [apply Hf; [by destruct He|by apply (ev_alive _ _ He)]|]. cbv beta. intros b s2 He'.
  by eapply evolves_trans.
Qed.

Lemma safe_ret (a : A) : safe c (mret a).
Proof. intros s Hs Ha. by apply wp_ret, evolves_refl. Qed.

Lemma safe_gets (f : server -> A) : safe c (gets f).
Proof. intros s Hs Ha. by apply wp_gets, evolves_refl. Qed.

Lemma safe_lift (o : option A) : is_Some o -> safe c (lift o).
Proof. intros [a ->] s Hs Ha. by eapply wp_lift, evolves_refl. Qed.

Lemma safe_if (b : bool) m m' : safe c m -> safe c m' -> safe c (if b then m else m').
Proof. by destruct b. Qed.

Lemma safe_get_client : safe c (get_client c).
Proof. intros s Hs [x Hx]. by eapply wp_get_client, evolves_refl. Qed.

(** From a specification whose effect is a known state. *)
Lemma safe_spec m (F : server -> server) (R : A -> server -> Prop) :
  (forall s, server_ok s -> alive c s -> wp m (fun a s' => R a s' /\ s' ≈ F s) s) ->
  (forall s, server_ok s -> alive c s -> evolves s (F s)) -> safe c m.
Proof.
  intros Hm HF s Hs Ha. eapply wp_mono; [by apply Hm|]. cbv beta. intros a s' [_ Hq].
  eapply evolves_quiet; [reflexivity|exact Hq|by apply HF].
Qed.
End rules.

Lemma safe_quiet {A} c (m : M A) :
  (forall s, server_ok s -> alive c s -> wp m (fun _ s' => s' ≈ s) s) -> safe c m.
Proof.
  intros Hm s Hs Ha. eapply wp_mono; [by apply Hm|]. cbv beta. intros a s' Hq.
  eapply evolves_quiet; [reflexivity|exact Hq|by apply evolves_refl].
Qed.

Lemma safe_addReply c r : safe c (addReply c r).
Proof. apply safe_quiet. intros. by apply addReply_quiet. Qed.

Lemma safe_mfor {A} c (l : list A) f : (forall x, x ∈ l -> safe c (f x)) -> safe c (mfor l f).
Proof.
  intros Hf. induction l as [|x l IH]; [apply safe_ret|]. simpl.
  apply safe_bind; [apply Hf; left|]. intros _. apply IH. intros. apply Hf. by right.
Qed.

Lemma safe_mfor_sum {A} c (l : list A) f : (forall x, x ∈ l -> safe c (f x)) -> safe c (mfor_sum l f).
Proof.
  intros Hf. induction l as [|x l IH]; [apply safe_ret|]. simpl.
  apply safe_bind; [apply Hf; left|]. intros n.
  apply safe_bind; [apply IH; intros; apply Hf; by right|]. intros m. apply safe_ret.
Qed.

Create HintDb safe.
#[export] Hint Resolve safe_ret safe_gets safe_lift safe_get_client safe_addReply : safe.
#[export] Hint Extern 0 (safe _ (addReplyLongLong _ _)) => apply safe_addReply : safe.
#[export] Hint Extern 0 (safe _ (addReplyMultiBulkLen _ _)) => apply safe_addReply : safe.
#[export] Hint Extern 0 (safe _ (addReplyError _ _)) => apply safe_addReply : safe.
#[export] Hint Extern 0 (safe _ (addReplyErrorFormat _ _)) => apply safe_addReply : safe.
#[export] Hint Extern 0 (safe _ (addReplyStatus _ _)) => apply safe_addReply : safe.
#[export] Hint Extern 2 (safe _ (_ ≫= _)) => apply safe_bind; [|intros ?] : safe.
#[export] Hint Extern 2 (safe _ (if _ then _ else _)) => apply safe_if : safe.

Lemma safe_client_write c f :
  core_write f -> (forall x, mstate (f x) = mstate x \/ mstate (f x) = []) -> same_links f ->
  (forall x, db (f x) = db x) -> safe c (update_client c f).
Proof.
  intros Hf Hm Hl Hd s Hs [y Hy]. eapply wp_mono; [by eapply update_client_spec|]. cbv beta. intros _ s' Hq.
  eapply evolves_quiet; [reflexivity|exact Hq|]. apply evolves_client_at; [|done|done|done].
  eapply client_at_server_ok; [done|done|done|]. rewrite Hd. eauto with server.
Qed.

(** ** Publish/Subscribe *)

Lemma safe_subscribe c ch : safe c (pubsubSubscribeChannel c ch).
Proof.
  intros s Hs [y Hy]. eapply wp_mono; [by eapply subscribe_spec|]. cbv beta. intros n s' [_ Hq].
  eapply evolves_quiet; [reflexivity|exact Hq|]. case_decide; [by apply evolves_refl|].
  apply evolves_client_at; [by eapply subscribe_one_ok|done|by left|done].
Qed.

Lemma safe_unsubscribe c ch notify : safe c (pubsubUnsubscribeChannel c ch notify).
Proof.
  intros s Hs [y Hy]. eapply wp_mono; [by eapply unsubscribe_spec|]. cbv beta. intros n s' [_ Hq].
  eapply evolves_quiet; [reflexivity|exact Hq|]. case_decide; [|by apply evolves_refl].
  apply evolves_client_at; [by eapply unsubscribe_one_ok|done|by left|done].
Qed.

Lemma safe_psubscribe c p : pattern_ok p -> safe c (pubsubSubscribePattern c p).
Proof.
  intros Hp s Hs [y Hy]. eapply wp_mono; [by eapply psubscribe_spec|]. cbv beta. intros n s' [_ Hq].
  eapply evolves_quiet; [reflexivity|exact Hq|]. case_decide; [by apply evolves_refl|].
  apply evolves_client_at; [by eapply psubscribe_one_ok|done|by left|done].
Qed.

Lemma safe_punsubscribe c p notify : safe c (pubsubUnsubscribePattern c p notify).
Proof.
  intros s Hs [y Hy]. eapply wp_mono; [by eapply punsubscribe_spec|]. cbv beta. intros n s' [_ Hq].
  eapply evolves_quiet; [reflexivity|exact Hq|]. case_decide; [|by apply evolves_refl].
  apply evolves_client_at; [by eapply punsubscribe_one_ok|done|by left|done].
Qed.

#[export] Hint Resolve safe_subscribe safe_unsubscribe safe_psubscribe safe_punsubscribe : safe.

(** The writes of the flags. *)
Lemma core_write_flags g :
  (forall f, set_DIRTY_CAS false (g f) = set_DIRTY_CAS false (g (set_DIRTY_CAS false f))) -> core_write (set_flags g).
Proof.
  intros Hg x y H. pose proof (client_core_eq x y H) as (H1&H2&H3&H4&H5&H6&H7&Hf).
  destruct x as [? fx], y as [? fy]; simpl in *. subst. unfold client_core, set_replies, set_flags. simpl.
  by rewrite Hg, Hf, <- Hg.
Qed.

Lemma safe_flags c g :
  (forall f, set_DIRTY_CAS false (g f) = set_DIRTY_CAS false (g (set_DIRTY_CAS false f))) ->
  safe c (update_client c (set_flags g)).
Proof. intros Hg. apply safe_client_write; [by apply core_write_flags|by left|done|done]. Qed.

Ltac flags_comm := let f := fresh "f" in intros f; destruct f as [[] ? ? ? ? ? ? ?]; done.

#[export] Hint Extern 1 (safe _ (update_client _ (set_flags _))) => (apply safe_flags; flags_comm) : safe.

Lemma safe_clear_PUBSUB c : safe c (clear_PUBSUB c).
Proof. unfold clear_PUBSUB, clientSubscriptionsCount. auto 10 with safe. Qed.

#[export] Hint Resolve safe_clear_PUBSUB : safe.

Lemma safe_client_argv c : safe c (client_argv c).
Proof. unfold client_argv. auto with safe. Qed.
Lemma safe_client_db c : safe c (client_db c).
Proof. unfold client_db. auto with safe. Qed.
Lemma safe_count c : safe c (clientSubscriptionsCount c).
Proof. unfold clientSubscriptionsCount. auto with safe. Qed.
#[export] Hint Resolve safe_client_argv safe_client_db safe_count safe_mfor safe_mfor_sum : safe.

Lemma subscribe_safe c : safe c (subscribeCommand c).
Proof. unfold subscribeCommand. auto 10 with safe. Qed.

Lemma nothing_reply_safe c kind : safe c (nothing_reply c kind).
Proof. unfold nothing_reply. auto 10 with safe. Qed.
#[export] Hint Resolve nothing_reply_safe : safe.

Lemma unsubscribeAll_safe c notify : safe c (pubsubUnsubscribeAllChannels c notify).
Proof. unfold pubsubUnsubscribeAllChannels. auto 10 with safe. Qed.
Lemma punsubscribeAll_safe c notify : safe c (pubsubUnsubscribeAllPatterns c notify).
Proof. unfold pubsubUnsubscribeAllPatterns. auto 10 with safe. Qed.
#[export] Hint Resolve unsubscribeAll_safe punsubscribeAll_safe : safe.

Lemma unsubscribe_safe c : safe c (unsubscribeCommand c).
Proof. unfold unsubscribeCommand. auto 10 with safe. Qed.
Lemma punsubscribe_safe c : safe c (punsubscribeCommand c).
Proof. unfold punsubscribeCommand. auto 10 with safe. Qed.

Lemma publish_safe c ch msg : safe c (pubsubPublishMessage ch msg).
Proof.
  apply safe_quiet. intros s Hs Ha. eapply wp_mono; [by apply publish_quiet|]. by intros n s' [_ ?].
Qed.
#[export] Hint Resolve publish_safe : safe.

(** ** Commands that read their arguments *)

Definition safe_args {A} (c : cid) (P : list bytes -> Prop) (m : M A) : Prop :=
  forall s y, server_ok s -> clients s !! c = Some y -> P (argv y) -> wp m (fun _ s' => evolves s s') s.

Lemma safe_args_of {A} c P (m : M A) : safe c m -> safe_args c P m.
Proof. intros Hm s y Hs Hy _. apply Hm; eauto with server. Qed.

Definition at_least (n : Z) (l : list bytes) : Prop := n <= zlen l.

Lemma at_least_rd n l i : at_least n l -> 0 <= i < n -> exists a, rd l i = Some a.
Proof. unfold at_least. intros. apply rd_is_Some. lia. Qed.

(** The state reached up to [quiet]. *)
Lemma evolves_to s s' t' : s' ≈ t' -> evolves s t' -> evolves s s'.
Proof. intros Hq. by eapply evolves_quiet. Qed.

Lemma evolves_purge s id k : server_ok s -> valid s id -> evolves s (purge id k s).
Proof. intros. apply evolves_clients; [auto with server|apply purge_clients|apply idle_purge]. Qed.
Lemma evolves_at_db s s1 id f :
  server_ok (at_db id f s1) -> evolves s s1 -> keeps_blocking f -> evolves s (at_db id f s1).
Proof. intros Hok He Hf. eapply evolves_trans; [exact He|]. apply evolves_clients; [done|done|]. by apply idle_at_db. Qed.
Lemma evolves_key_set s id k v : server_ok s -> valid s id -> obj_ok v -> evolves s (key_set id k v s).
Proof. intros. apply evolves_clients; [auto with server..|]. by apply idle_at_db. Qed.
Lemma evolves_set_state s id k v ms :
  server_ok s -> valid s id -> obj_ok v -> evolves s (set_state id k v ms s).
Proof. intros. apply evolves_clients; [auto with server|by destruct ms|]. intros. destruct ms; repeat (apply idle_at_db; [done|]); done. Qed.
Lemma evolves_after_cond s fl id k : server_ok s -> valid s id -> evolves s (after_cond fl id k s).
Proof. intros. unfold after_cond. destruct (_ || _); [by apply evolves_purge|by apply evolves_refl]. Qed.
Lemma evolves_purge_all s id ks : server_ok s -> valid s id -> evolves s (purge_all id ks s).
Proof. intros Hs Hv. destruct (purge_all_ok id ks s Hs Hv) as (? & _ & ?). apply evolves_clients; [done|done|]. apply idle_purge_all. Qed.
Lemma idle_mset_state id kvs t : idle t -> idle (mset_state id kvs t).
Proof. revert t. induction kvs as [|p kvs IH]; intros t Ht; [done|]. apply IH. by apply idle_at_db. Qed.

Lemma evolves_mset_state s s1 id kvs : evolves s s1 -> valid s1 id -> evolves s (mset_state id kvs s1).
Proof.
  intros He Hv. destruct (mset_state_ok id kvs s1 (ev_ok _ _ He) Hv) as (? & _ & ?).
  eapply evolves_trans; [exact He|]. apply evolves_clients; [done|done|]. apply idle_mset_state.
Qed.

Lemma evolves_put s id k v :
  server_ok s -> valid s id -> obj_ok v -> evolves s (at_db id (db_put k v) (purge id k s)).
Proof. intros. apply evolves_at_db; [|by apply evolves_purge|done]. apply put_ok; auto with server. Qed.

Ltac evolves_tac :=
  first [apply evolves_refl | apply evolves_purge | apply evolves_put | apply evolves_key_set
        | apply evolves_set_state | apply evolves_after_cond | apply evolves_purge_all
        | apply evolves_mset_state; [evolves_tac|] | apply evolves_at_db; [|evolves_tac|done]];
  eauto with server.

(** Closes [evolves s s'] from the state that [s'] is quietly equal to. *)
Ltac evolve :=
  repeat match goal with H : _ /\ _ |- _ => destruct H end;
  match goal with H : ?s' ≈ _ |- evolves _ ?s' => apply (evolves_to _ _ _ H) end; evolves_tac.

(** Runs a specification; [evolve] closes what the case analysis leaves. *)
Ltac by_spec lem :=
  eapply wp_mono; [eapply lem; eassumption || reflexivity|cbv beta; intros ? ? ?].

Ltac split_cases :=
  repeat match goal with
         | H : context [match ?x with _ => _ end] |- _ =>
             lazymatch x with context [match _ with _ => _ end] => fail | _ => destruct x eqn:? end
         end.

Section string_commands.
Context (c : cid).

Lemma set_outcome_evolves id fl k v e ok ab t s' :
  server_ok t -> valid t id -> obj_ok v -> set_outcome c id fl k v e ok ab t s' -> evolves t s'.
Proof. unfold set_outcome. intros Ht Hv Ho H. split_cases; evolve. Qed.

Lemma incr_outcome_evolves id k n t s' :
  server_ok t -> valid t id -> incr_outcome c id k n t s' -> evolves t s'.
Proof.
  unfold incr_outcome. intros Ht Hv H. destruct (is_string _); [|evolve].
  destruct (ll_of _) as [z|]; [|evolve]. destruct (_ && _) eqn:E; [|evolve].
  rewrite andb_true_iff, !Z.leb_le in E. unfold LLONG_MIN, LLONG_MAX in E.
  assert (obj_ok (StrInt (z + n))) by (split; lia). evolve.
Qed.

Lemma set_safe : safe_args c (at_least 3) (setCommand c).
Proof.
  intros s y Hs Hy Hl. destruct (at_least_rd 3 _ 1 Hl) as [k Hk]; [lia|].
  destruct (at_least_rd 3 _ 2 Hl) as [v Hv]; [lia|]. by_spec set_ok.
  destruct (set_options_loop _ _); [|evolve]. eapply set_outcome_evolves; [..|eassumption]; eauto with server.
Qed.

Lemma setnx_safe : safe_args c (at_least 3) (setnxCommand c).
Proof.
  intros s y Hs Hy Hl. destruct (at_least_rd 3 _ 1 Hl) as [k Hk]; [lia|].
  destruct (at_least_rd 3 _ 2 Hl) as [v Hv]; [lia|]. by_spec setnx_ok. eapply set_outcome_evolves; [..|eassumption]; eauto with server.
Qed.

Lemma setex_safe : safe_args c (at_least 4) (setexCommand c).
Proof.
  intros s y Hs Hy Hl. destruct (at_least_rd 4 _ 1 Hl) as [k Hk]; [lia|].
  destruct (at_least_rd 4 _ 2 Hl) as [e He]; [lia|]. destruct (at_least_rd 4 _ 3 Hl) as [v Hv]; [lia|].
  by_spec setex_ok. eapply set_outcome_evolves; [..|eassumption]; eauto with server.
Qed.

Lemma psetex_safe : safe_args c (at_least 4) (psetexCommand c).
Proof.
  intros s y Hs Hy Hl. destruct (at_least_rd 4 _ 1 Hl) as [k Hk]; [lia|].
  destruct (at_least_rd 4 _ 2 Hl) as [e He]; [lia|]. destruct (at_least_rd 4 _ 3 Hl) as [v Hv]; [lia|].
  by_spec psetex_ok. eapply set_outcome_evolves; [..|eassumption]; eauto with server.
Qed.

Lemma get_safe : safe_args c (at_least 2) (getCommand c).
Proof. intros s y Hs Hy Hl. destruct (at_least_rd 2 _ 1 Hl) as [k Hk]; [lia|]. by_spec get_ok. evolve. Qed.

Lemma getset_safe : safe_args c (at_least 3) (getsetCommand c).
Proof.
  intros s y Hs Hy Hl. destruct (at_least_rd 3 _ 1 Hl) as [k Hk]; [lia|].
  destruct (at_least_rd 3 _ 2 Hl) as [v Hv]; [lia|]. by_spec getset_ok. split_cases; evolve.
Qed.

Lemma strlen_safe : safe_args c (at_least 2) (strlenCommand c).
Proof. intros s y Hs Hy Hl. destruct (at_least_rd 2 _ 1 Hl) as [k Hk]; [lia|]. by_spec strlen_ok. evolve. Qed.

Lemma incrDecr_safe n : sfits 64 n -> safe_args c (at_least 2) (incrDecrCommand c n).
Proof.
  intros Hn s y Hs Hy Hl. destruct (at_least_rd 2 _ 1 Hl) as [k Hk]; [lia|]. by_spec incrDecr_spec.
  eapply incr_outcome_evolves; [..|eassumption]; eauto with server.
Qed.

Lemma incrby_safe : safe_args c (at_least 3) (incrbyCommand c).
Proof.
  intros s y Hs Hy Hl. destruct (at_least_rd 3 _ 1 Hl) as [k Hk]; [lia|].
  destruct (at_least_rd 3 _ 2 Hl) as [v Hv]; [lia|]. by_spec incrby_ok. destruct (ll_of _); [|evolve].
  eapply incr_outcome_evolves; [..|eassumption]; eauto with server.
Qed.

Lemma decrby_safe : safe_args c (at_least 3) (decrbyCommand c).
Proof.
  intros s y Hs Hy Hl. destruct (at_least_rd 3 _ 1 Hl) as [k Hk]; [lia|].
  destruct (at_least_rd 3 _ 2 Hl) as [v Hv]; [lia|]. by_spec decrby_ok. destruct (ll_of _); [|evolve].
  eapply incr_outcome_evolves; [..|eassumption]; eauto with server.
Qed.

Lemma append_safe : safe_args c (at_least 3) (appendCommand c).
Proof.
  intros s y Hs Hy Hl. destruct (at_least_rd 3 _ 1 Hl) as [k Hk]; [lia|].
  destruct (at_least_rd 3 _ 2 Hl) as [v Hv]; [lia|]. by_spec append_ok. split_cases; evolve.
Qed.

(** SETRANGE is safe when the offset plus the length does not overflow. *)
Definition setrange_args (l : list bytes) : Prop :=
  at_least 4 l /\ forall a v off, rd l 2 = Some a -> rd l 3 = Some v ->
    ll_of (Some (StrRaw a)) = Some off -> off + zlen v <= LLONG_MAX.

Lemma setrange_safe : safe_args c setrange_args (setrangeCommand c).
Proof.
  intros s y Hs Hy [Hl Hov]. destruct (at_least_rd 4 _ 1 Hl) as [k Hk]; [lia|].
  destruct (at_least_rd 4 _ 2 Hl) as [a Ha]; [lia|]. destruct (at_least_rd 4 _ 3 Hl) as [v Hv]; [lia|].
  eapply wp_mono; [eapply setrange_ok; try eassumption; [reflexivity|by intros off; apply Hov]|].
  cbv beta. unfold setrange_outcome. intros _ s' H. split_cases; evolve.
Qed.

Lemma getrange_safe : safe_args c (at_least 4) (getrangeCommand c).
Proof.
  intros s y Hs Hy Hl. destruct (at_least_rd 4 _ 1 Hl) as [k Hk]; [lia|].
  destruct (at_least_rd 4 _ 2 Hl) as [a Ha]; [lia|]. destruct (at_least_rd 4 _ 3 Hl) as [v Hv]; [lia|].
  by_spec getrange_ok. destruct (ll_of _); [|evolve]. destruct (ll_of _); evolve.
Qed.

Lemma mget_safe : safe c (mgetCommand c).
Proof. intros s Hs [y Hy]. by_spec mget_ok. evolve. Qed.

Lemma mset_safe nx : safe c (msetGenericCommand c nx).
Proof.
  intros s Hs [y Hy]. assert (valid s (db y)) as Hv by eauto with server. by_spec mset_ok. cbv zeta in *.
  destruct (purge_all_ok (db y) (pairs_of (drop 1 (argv y))).*1 s Hs Hv) as (? & ? & ?).
  split_cases; evolve.
Qed.
End string_commands.

Section key_commands.
Context (c : cid).

Lemma idle_del_all id ks t : idle t -> idle (del_all id ks t).2.
Proof.
  revert t. induction ks as [|k ks IH]; intros t Ht; [done|]. simpl. specialize (IH (key_del id k t)).
  destruct (del_all id ks (key_del id k t)). apply IH. by apply idle_at_db.
Qed.

Lemma del_safe : safe c (delCommand c).
Proof.
  intros s Hs [y Hy]. assert (valid s (db y)) as Hv by eauto with server. by_spec del_command_ok.
  destruct H as [Hq _]. apply (evolves_to _ _ _ Hq).
  destruct (del_all_ok (db y) (drop 1 (argv y)) s Hs Hv) as (? & _ & ?). apply evolves_clients; [done|done|]. apply idle_del_all.
Qed.

Lemma exists_safe : safe_args c (at_least 2) (existsCommand c).
Proof. intros s y Hs Hy Hl. destruct (at_least_rd 2 _ 1 Hl) as [k Hk]; [lia|]. by_spec exists_ok. evolve. Qed.

Lemma type_safe : safe_args c (at_least 2) (typeCommand c).
Proof. intros s y Hs Hy Hl. destruct (at_least_rd 2 _ 1 Hl) as [k Hk]; [lia|]. by_spec type_ok. evolve. Qed.

Lemma dbsize_safe : safe c (dbsizeCommand c).
Proof. intros s Hs [y Hy]. by_spec dbsize_ok. evolve. Qed.

Lemma evolves_set_db s y id : server_ok s -> clients s !! c = Some y -> valid s id -> evolves s (client_at c (set_db id) s).
Proof.
  intros Hs Hy Hv. apply evolves_client_at; [|done|by left|done]. by eapply client_at_server_ok.
Qed.

Lemma select_safe : safe_args c (at_least 2) (selectCommand c).
Proof.
  intros s y Hs Hy Hl. destruct (at_least_rd 2 _ 1 Hl) as [k Hk]; [lia|]. by_spec select_ok.
  destruct (ll_of _); [|evolve]. case_bool_decide; [|evolve]. destruct H as [Hq _].
  apply (evolves_to _ _ _ Hq). by eapply evolves_set_db.
Qed.

Lemma persist_safe : safe_args c (at_least 2) (persistCommand c).
Proof. intros s y Hs Hy Hl. destruct (at_least_rd 2 _ 1 Hl) as [k Hk]; [lia|]. by_spec persist_ok'. evolve. Qed.

Lemma ttl_safe ms : safe_args c (at_least 2) (ttlGenericCommand c ms).
Proof. intros s y Hs Hy Hl. destruct (at_least_rd 2 _ 1 Hl) as [k Hk]; [lia|]. by_spec ttl_ok. evolve. Qed.

Lemma evolves_argv s s1 l y :
  evolves s s1 -> clients s1 = clients s -> clients s !! c = Some y -> evolves s (client_at c (set_argv l) s1).
Proof.
  intros He Hc Hy. apply evolves_client_at; [|done|by left|by apply He]. eapply (client_at_server_ok _ _ _ y).
  - by destruct He.
  - done.
  - by rewrite Hc.
  - change (valid s1 (db y)). apply (ok_client_db s1 c); [by destruct He|by rewrite Hc].
Qed.

Lemma expire_safe bt u : safe_args c (at_least 3) (expireGenericCommand c bt u).
Proof.
  intros s y Hs Hy Hl. destruct (at_least_rd 3 _ 1 Hl) as [k Hk]; [lia|].
  destruct (at_least_rd 3 _ 2 Hl) as [a Ha]; [lia|]. by_spec expireGeneric_ok. unfold expire_outcome in *.
  assert (valid s (db y)) as Hv by eauto with server.
  destruct (ll_of _) as [n|]; [|evolve]. cbv zeta in *. destruct (live s (db y) k) as [o|] eqn:Hlive; [|evolve].
  destruct (live_Some _ _ _ _ Hv Hlive) as [_ Hko]. destruct (_ && _).
  - destruct H as [Hq _]. apply (evolves_to _ _ _ Hq). eapply evolves_argv; [|done|done].
    apply evolves_clients; [auto with server..|]. by apply idle_at_db.
  - apply (evolves_to _ _ _ H). apply evolves_at_db; [|by apply evolves_refl|done]. apply expire_ok'; [done..|by exists o].
Qed.

Lemma idle_rename_state id src dst o w t : idle t -> idle (rename_state id src dst o w t).
Proof.
  intros Ht. unfold rename_state. cbv zeta. apply idle_at_db; [done|].
  assert (idle (key_add id dst o match live (purge id dst t) id dst with Some _ => key_del id dst (purge id dst t) | None => purge id dst t end)) as H.
  { apply idle_key_add. pose proof (idle_purge id dst t Ht). case_match; [by apply idle_at_db|done]. }
  destruct (w =? -1); [done|by apply idle_at_db].
Qed.

Lemma rename_safe nx : safe_args c (at_least 3) (renameGenericCommand c nx).
Proof.
  intros s y Hs Hy Hl. destruct (at_least_rd 3 _ 1 Hl) as [src Hsrc]; [lia|].
  destruct (at_least_rd 3 _ 2 Hl) as [dst Hdst]; [lia|]. by_spec rename_ok. unfold rename_outcome in *.
  assert (valid s (db y)) as Hv by eauto with server.
  case_decide; [evolve|]. destruct (live s (db y) src) as [o|] eqn:Hlive; [|evolve].
  destruct (_ && _); [evolve|]. destruct H as [Hq _]. apply (evolves_to _ _ _ Hq).
  destruct (rename_state_ok (db y) src dst o (default (-1) (expire_of s (db y) src)) s Hs Hv) as (? & _ & ?);
    [eauto with server|]. apply evolves_clients; [done|done|]. apply idle_rename_state.
Qed.

Lemma move_safe : safe_args c (at_least 3) (moveCommand c).
Proof.
  intros s y Hs Hy Hl. destruct (at_least_rd 3 _ 1 Hl) as [k Hk]; [lia|].
  destruct (at_least_rd 3 _ 2 Hl) as [a Ha]; [lia|]. by_spec move_ok. unfold move_outcome in *.
  assert (valid s (db y)) as Hv by eauto with server.
  destruct (ll_of _) as [dst|]; [|evolve]. case_bool_decide; [|evolve]. destruct (_ =? _); [evolve|].
  destruct (live s (db y) k) as [o|] eqn:Hlive; [|evolve]. destruct (live s dst k); [evolve|].
  destruct H as [Hq _]. apply (evolves_to _ _ _ Hq).
  destruct (move_state_ok (db y) dst k o s Hs Hv) as (? & ?); [done|eauto with server|]. apply evolves_clients; [done|done|].
  intros. apply idle_at_db; [done|]. by apply idle_key_add, idle_purge.
Qed.

Lemma flushdb_safe : safe c (flushdbCommand c).
Proof. intros s Hs [y Hy]. by_spec flushdb_ok. destruct H as [Hq _]. apply (evolves_to _ _ _ Hq).
  apply evolves_at_db; [|by apply evolves_refl|done]. apply at_db_server_ok; eauto with server. Qed.

Lemma flushall_safe : safe c (flushallCommand c).
Proof.
  intros s Hs [y Hy]. by_spec flushall_ok. apply (evolves_to _ _ _ H). apply evolves_clients; [by apply flush_all_ok|done|].
  intros [Hr Hb]. split; [done|]. apply Forall_map. exact Hb.
Qed.

Definition keys_args (l : list bytes) : Prop := at_least 2 l /\ Forall pattern_ok (drop 1 l).

Lemma drop_rd {A} (l : list A) i x : rd l (Z.of_nat i) = Some x -> x ∈ drop i l.
Proof.
  rewrite rd_nat. intros Hx. apply list_elem_of_lookup. exists O. by rewrite lookup_drop, Nat.add_0_r.
Qed.

Lemma keys_safe : safe_args c keys_args (keysCommand c).
Proof.
  intros s y Hs Hy [Hl Hp]. destruct (at_least_rd 2 _ 1 Hl) as [k Hk]; [lia|].
  assert (pattern_ok k). { rewrite Forall_forall in Hp. by apply Hp, (drop_rd _ 1). }
  by_spec keys_ok'. destruct H0 as [ks Hq]. apply (evolves_to _ _ _ Hq). evolves_tac.
Qed.

(** ** Transactions *)

Lemma evolves_unwatched s t' y : clients s !! c = Some y -> unwatched c s t' -> evolves s t'.
Proof.
  intros Hy (Hok & _ & Hc & _ & _ & Hi). split; [done| | |done].
  - intros c'. unfold alive. rewrite Hc. destruct (decide (c = c')) as [<-|].
    + by rewrite lookup_alter_eq, fmap_is_Some.
    + by rewrite lookup_alter_ne.
  - intros c' x x' Hx. rewrite Hc. destruct (decide (c = c')) as [<-|].
    + rewrite lookup_alter_eq, Hx. intros [= <-]. by left.
    + rewrite lookup_alter_ne by done. intros. simplify_eq. by left.
Qed.

Lemma unwatchAll_safe : safe c (unwatchAllKeys c).
Proof.
  intros s Hs [y Hy]. by_spec unwatchAllKeys_spec. destruct H as (t' & Hq & Hu).
  apply (evolves_to _ _ _ Hq). by eapply evolves_unwatched.
Qed.

Lemma watchForKey_safe k : safe c (watchForKey c k).
Proof.
  intros s Hs [y Hy]. by_spec watchForKey_spec. apply (evolves_to _ _ _ H).
  case_decide; [by apply evolves_refl|]. unfold watch_one.
  apply evolves_client_at; [|done|by left|by apply idle_at_db]. eapply watch_one_ok; eauto with server.
Qed.
#[local] Hint Resolve unwatchAll_safe watchForKey_safe : safe.

Lemma init_mstate_safe : safe c (initClientMultiState c).
Proof. apply safe_client_write; [by apply core_write_comm|by right|done|done]. Qed.
#[local] Hint Resolve init_mstate_safe : safe.

Lemma discardTransaction_safe : safe c (discardTransaction c).
Proof. unfold discardTransaction. auto 10 with safe. Qed.
#[local] Hint Resolve discardTransaction_safe : safe.

Lemma flagTransaction_safe : safe c (flagTransaction c).
Proof.
  apply safe_flags. intros f. destruct f as [[] ? ? ? ? ? ? ?]; done.
Qed.

Lemma multi_safe : safe c (multiCommand c).
Proof. unfold multiCommand. auto 10 with safe. Qed.
Lemma discard_safe : safe c (discardCommand c).
Proof. unfold discardCommand. auto 10 with safe. Qed.
Lemma watch_safe : safe c (watchCommand c).
Proof. unfold watchCommand. auto 10 with safe. Qed.
Lemma unwatch_safe : safe c (unwatchCommand c).
Proof. unfold unwatchCommand. auto 10 with safe. Qed.

(** ** The other Pub/Sub commands *)

Lemma psubscribe_cmd_safe : safe_args c (fun l => Forall pattern_ok (drop 1 l)) (psubscribeCommand c).
Proof.
  intros s y Hs Hy Hp. unfold psubscribeCommand. eapply wp_seq; [by eapply (client_argv_spec c y s s)|].
  cbv beta. intros l s1 [-> Hq].
  assert (safe c (_ ← mfor_sum (drop 1 (argv y)) (pubsubSubscribePattern c);
                  update_client c (set_flags (set_PUBSUB true)))) as Hsafe.
  { apply safe_bind; [|auto with safe]. apply safe_mfor_sum. intros p Hin. apply safe_psubscribe.
    rewrite Forall_forall in Hp. by apply Hp. }
  eapply wp_mono; [apply Hsafe; [by rewrite Hq|rewrite Hq; eauto with server]|]. cbv beta.
  intros _ s2 He. eapply evolves_trans; [|exact He]. apply (evolves_to _ _ _ Hq). by apply evolves_refl.
Qed.

(** The rest of a command after it has read an argument. *)
Lemma safe_after_arg {A} i a s y (f : bytes -> M A) :
  server_ok s -> clients s !! c = Some y -> rd (argv y) i = Some a ->
  (forall s1, s1 ≈ s -> wp (f a) (fun _ s' => evolves s1 s') s1) ->
  wp (a ← arg c i; f a) (fun _ s' => evolves s s') s.
Proof.
  intros Hs Hy Ha Hf. eapply wp_seq; [by eapply (arg_spec c y i a s s)|]. cbv beta. intros b s1 [-> Hq].
  eapply wp_mono; [by apply Hf|]. cbv beta. intros r s2 He.
  eapply evolves_trans; [|exact He]. apply (evolves_to _ _ _ Hq). by apply evolves_refl.
Qed.

Lemma publish_cmd_safe : safe_args c (at_least 3) (publishCommand c).
Proof.
  intros s y Hs Hy Hl. destruct (at_least_rd 3 _ 1 Hl) as [ch Hch]; [lia|].
  destruct (at_least_rd 3 _ 2 Hl) as [msg Hmsg]; [lia|]. unfold publishCommand, forceCommandPropagation.
  eapply safe_after_arg; [done..|]. intros s1 Hq1. destruct (quiet_client s s1 c y ltac:(by symmetry) Hy) as (y1 & Hy1 & Hc1).
  apply client_core_eq in Hc1 as (_ & Hc1 & _).
  eapply safe_after_arg; [by rewrite Hq1|done|by rewrite <- Hc1|]. intros s2 Hq2.
  assert (safe c (receivers ← pubsubPublishMessage ch msg;
     _ ← update_client c (set_flags (fun f => set_FORCE (REDIS_FORCE_REPL f || true) (REDIS_FORCE_AOF f || false) f));
     addReplyLongLong c receivers)) as Hsafe by auto 10 with safe.
  apply Hsafe; [by rewrite Hq2, Hq1|]. rewrite Hq2, Hq1. eauto with server.
Qed.

Definition pubsub_args (l : list bytes) : Prop := at_least 2 l /\ Forall pattern_ok (drop 2 l).

Lemma set_deferred_safe n m : safe c (set_deferred_len c n m).
Proof. apply safe_quiet. intros. by apply set_deferred_len_quiet. Qed.
#[local] Hint Resolve set_deferred_safe : safe.

Lemma pubsub_channels_safe p l :
  (forall q, p = Some q -> pattern_ok q) -> safe c (pubsub_channels_loop c p l).
Proof.
  intros Hp. unfold pubsub_channels_loop. apply safe_mfor_sum. intros ch _. apply safe_bind.
  - destruct p as [q|]; [|auto with safe]. apply safe_lift. destruct (sds_match_ok q ch (Hp q eq_refl)) as (b & -> & _). eauto.
  - intros []; auto with safe.
Qed.
(** The argument of a quietly equal state. *)
Lemma arg_quiet i a s t y (Q : bytes -> server -> Prop) :
  s ≈ t -> clients t !! c = Some y -> rd (argv y) i = Some a -> (forall s', s' ≈ t -> Q a s') -> wp (arg c i) Q s.
Proof.
  intros Hq Hy Ha HQ. eapply wp_mono; [by eapply (arg_spec c y i a s t)|]. cbv beta. intros b s' [-> ?]. by apply HQ.
Qed.

Lemma safe_at {A} (m : M A) s t : safe c m -> s ≈ t -> server_ok t -> alive c t -> wp m (fun _ s' => evolves t s') s.
Proof.
  intros Hm Hq Ht Ha. eapply wp_mono; [apply Hm; by rewrite Hq|]. cbv beta. intros a s' He.
  eapply evolves_quiet; [symmetry; exact Hq|reflexivity|exact He].
Qed.

Lemma pubsub_safe : safe_args c pubsub_args (pubsubCommand c).
Proof.
  intros s y Hs Hy [Hl Hp]. destruct (at_least_rd 2 _ 1 Hl) as [sub Hsub]; [lia|].
  assert (alive c s) as Ha by by exists y. unfold pubsubCommand.
  eapply wp_seq; [by eapply (client_argv_spec c y s s)|]. cbv beta. intros l s1 [-> Hq1].
  apply wp_bind. eapply arg_quiet; [done..|]. intros s2 Hq2. cbv zeta.
  destruct (strcasecmp_eq sub (zs "channels") && _) eqn:Hcase.
  - assert (wp (if zlen (argv y) =? 2 then mret None else p ← arg c 2; mret (Some p))
      (fun p s' => (forall q, p = Some q -> pattern_ok q) /\ s' ≈ s) s2) as Hpat.
    { destruct (zlen (argv y) =? 2) eqn:Hz; [by apply wp_ret|].
      apply andb_true_iff in Hcase as [_ Hcase]. simpl in Hcase. apply Z.eqb_eq in Hcase.
      destruct (rd_is_Some (argv y) 2) as [p Hpr]; [lia|]. apply wp_bind. eapply arg_quiet; [done..|].
      intros s' Hs'. apply wp_ret. split; [|done]. intros q [= <-]. rewrite Forall_forall in Hp. by apply Hp, (drop_rd _ 2). }
    eapply wp_seq; [exact Hpat|]. cbv beta. intros p s3 [Hpo Hq3].
    apply safe_at; [|done..]. pose proof (pubsub_channels_safe p) as Hps. auto 10 with safe.
  - destruct (_ && _); [|destruct (_ && _)]; (apply safe_at; [|done..]); auto 12 with safe.
Qed.
End key_commands.
