(* ===== verification/ExecSafe.v ===== *)
(** * Every request is safe (src/redis-2.8.19/src/redis.c, multi.c)

    [processCommand] runs without a failed assertion or a read out of bounds on a
    consistent server, and leaves a consistent server, for every request that is
    [harmless]; the transactions that are queued stay executable. *)
From S2P Require Import Prelude Util Glob Object Server Pubsub Watch Db TString Table Exec.
From S2P Require Import Invariant Steps StringSpec KeySpec Links Safety.
Open Scope Z_scope.
Open Scope server_scope.

(** ** Arguments *)

(** What the function of a command reads: the arity of the table. *)
Definition proc_arity (p : proc_t) : Z :=
  match p with
  | P_setexCommand | P_psetexCommand | P_setrangeCommand | P_getrangeCommand => 4
  | P_setCommand | P_setnxCommand | P_appendCommand | P_incrbyCommand | P_decrbyCommand | P_getsetCommand
  | P_moveCommand | P_renameCommand | P_renamenxCommand | P_expireCommand | P_expireatCommand
  | P_pexpireCommand | P_pexpireatCommand | P_publishCommand => 3
  | P_getCommand | P_strlenCommand | P_existsCommand | P_incrCommand | P_decrCommand | P_selectCommand
  | P_keysCommand | P_authCommand | P_echoCommand | P_typeCommand | P_ttlCommand | P_pttlCommand
  | P_persistCommand | P_pubsubCommand => 2
  | _ => 1
  end.

Lemma table_arity : Forall (fun cmd => proc_arity (proc cmd) <= Z.max 1 (Z.abs (arity cmd))) redisCommandTable.
Proof. repeat (constructor; [vm_compute; discriminate|]). constructor. Qed.

Lemma lookupCommand_In a cmd : lookupCommand a = Some cmd -> cmd ∈ redisCommandTable.
Proof.
  unfold lookupCommand. intros H. apply bind_Some in H as ([i cmd'] & Hf & [= ->]).
  apply list_find_Some in Hf as (Hi & _). by eapply list_elem_of_lookup_2.
Qed.

Lemma arity_ok_args a cmd l :
  lookupCommand a = Some cmd -> l <> [] -> arity_ok cmd (zlen l) = true -> at_least (proc_arity (proc cmd)) l.
Proof.
  intros Hc%lookupCommand_In Hl Ha. pose proof table_arity as Ht. rewrite Forall_forall in Ht.
  specialize (Ht cmd Hc). cbv beta in Ht. unfold at_least, arity_ok in *.
  assert (1 <= zlen l) by (destruct l as [|b l]; [done|rewrite zlen_cons; pose proof (zlen_nonneg l); lia]).
  apply negb_true_iff, orb_false_iff in Ha as [Ha1 Ha2]. apply Z.ltb_ge in Ha2.
  apply andb_false_iff in Ha1 as [Ha1|Ha1]; [|apply negb_false_iff, Z.eqb_eq in Ha1; lia].
  destruct (Z.gtb_spec (arity cmd) 0); [done|lia].
Qed.

(** The requests for commands that are modelled and that the known defects do not
    concern: no overflow of the length in SETRANGE, no pattern that makes the matcher
    read past its string. *)
Definition harmless (p : proc_t) (l : list bytes) : Prop :=
  match p with
  | P_setrangeCommand => forall a v off, rd l 2 = Some a -> rd l 3 = Some v ->
      ll_of (Some (StrRaw a)) = Some off -> off + zlen v <= LLONG_MAX
  | P_keysCommand | P_psubscribeCommand => Forall pattern_ok (drop 1 l)
  | P_pubsubCommand => Forall pattern_ok (drop 2 l)
  | OtherCommand _ => False
  | _ => True
  end.

Definition proc_ready (p : proc_t) (l : list bytes) : Prop := at_least (proc_arity p) l /\ harmless p l.

(** A command that waits in a transaction. *)
Definition queueable (l : list bytes) : Prop :=
  exists a cmd, rd l 0 = Some a /\ lookupCommand a = Some cmd /\ queued_in_multi cmd = true /\ proc_ready (proc cmd) l.

Definition queues_ok (s : server) : Prop := forall c x, clients s !! c = Some x -> Forall queueable (mstate x).

(** ** Eviction *)

(** What the dispatcher expects of [freeMemoryIfNeeded]: it may delete keys. *)
Class EvictionSafe (freeMemoryIfNeeded : M bool) : Prop :=
  free_safe : forall s, server_ok s ->
    wp freeMemoryIfNeeded (fun _ s' => exists t', s' ≈ t' /\ server_ok t' /\ clients t' = clients s /\ (idle s -> idle t')) s.

Section eviction.
Context (e : memory).

Lemma random_key_ok {A} (i : nat) (d : gmap bytes A) : base.size d <> 0%nat -> exists k, random_key e i d = Some k /\ is_Some (d !! k).
Proof.
  intros Hd. unfold random_key.
  assert (length (map_to_list d) <> 0%nat) as Hl by by rewrite length_map_to_list.
  destruct (lookup_lt_is_Some_2 (map_to_list d) (random e i mod base.size d)) as [[k x] Hk].
  { rewrite length_map_to_list. by apply Nat.mod_upper_bound. }
  exists k. split; [by rewrite list_lookup_fmap, Hk|]. exists x. by eapply elem_of_map_to_list, list_elem_of_lookup_2.
Qed.

Lemma sample_keys_ok {A} (k i : nat) (d : gmap bytes A) (value : bytes -> M Z) better best (s : server) :
  base.size d <> 0%nat -> (forall key, is_Some (d !! key) -> wp (value key) (fun _ s' => s' = s) s) ->
  (forall key v, best = Some (key, v) -> is_Some (d !! key)) ->
  wp (sample_keys e k i d value better best) (fun r s' => s' = s /\ forall key v, r.1 = Some (key, v) -> is_Some (d !! key)) s.
Proof.
  intros Hd Hv. revert i best. induction k as [|k IH]; intros i best Hb; simpl; [by apply wp_ret|].
  destruct (random_key_ok i d Hd) as (key & Hk & Hin). eapply wp_bind, wp_lift; [exact Hk|].
  eapply wp_seq; [by apply Hv|]. cbv beta. intros v s' ->. apply IH. intros key' v'.
  destruct best as [[bk bv]|]; [|by intros [= <- <-]]. destruct (better v bv); [by intros [= <- <-]|apply Hb].
Qed.

Lemma best_key_ok {A} (j : Z) (i : nat) (db : redisDb) (d : gmap bytes A) (s : server) :
  base.size d <> 0%nat -> (forall k, is_Some (d !! k) -> is_Some (dict db !! k)) ->
  (maxmemory_policy e = REDIS_MAXMEMORY_VOLATILE_TTL -> forall k, is_Some (d !! k) -> is_Some (expires db !! k)) ->
  wp (best_key e j i db d) (fun r s' => s' = s /\ forall k, r.1 = Some k -> is_Some (d !! k)) s.
Proof.
  intros Hd Hdict Hexp. unfold best_key.
  assert (forall m : M (option (bytes * Z) * nat),
    wp m (fun r s' => s' = s /\ forall key v, r.1 = Some (key, v) -> is_Some (d !! key)) s ->
    wp ('(best, i) ← m; mret (fst <$> best, i)) (fun r s' => s' = s /\ forall k, r.1 = Some k -> is_Some (d !! k)) s) as Hend.
  { intros m Hm. eapply wp_seq; [exact Hm|]. cbv beta. intros [best i'] s' [-> Hb]. apply wp_ret. split; [done|]. simpl.
    intros k Hk. apply fmap_Some in Hk as ([k' v] & Hbk & ->). by eapply Hb. }
  assert (wp (key ← lift (random_key e i d); mret (Some key, S i)) (fun r s' => s' = s /\ forall k, r.1 = Some k -> is_Some (d !! k)) s) as Hrandom.
  { destruct (random_key_ok i d Hd) as (key & Hk & Hin). eapply wp_bind, wp_lift; [exact Hk|]. apply wp_ret.
    split; [done|]. by intros k [= <-]. }
  assert (wp ('(best, i) ← sample_keys e (maxmemory_samples e) i d
        (fun key => _ ← lift (dict db !! key); mret (estimateObjectIdleTime e j key)) Z.gtb None;
      mret (fst <$> best, i)) (fun r s' => s' = s /\ forall k, r.1 = Some k -> is_Some (d !! k)) s) as Hlru.
  { apply Hend, sample_keys_ok; [done| |done]. intros key Hk. destruct (Hdict key Hk) as [o Ho].
    eapply wp_bind, wp_lift; [exact Ho|]. by apply wp_ret. }
  destruct (maxmemory_policy e) eqn:Hp; try done.
  apply Hend, sample_keys_ok; [done| |done]. intros key Hk. destruct (Hexp eq_refl key Hk) as [w Hw].
  by eapply wp_lift.
Qed.

Lemma evict_one_ok j i s t :
  s ≈ t -> server_ok t -> valid t j ->
  wp (evict_one e j i) (fun r s' => match r.1 with None => s' ≈ t
    | Some _ => exists k, is_Some (key_of t j k) /\ s' ≈ at_db j (db_del k) t end) s.
Proof.
  intros Hq Ht Hv. unfold evict_one. eapply wp_seq; [by eapply get_db_spec|]. cbv beta. intros db s1 [-> Hq1]. cbv zeta.
  set (allkeys := _ || _). set (n := if allkeys then _ else _). destruct (Nat.eqb_spec n 0); [by apply wp_ret|].
  assert (wp (if allkeys then best_key e j i (db_at t j) (dict (db_at t j)) else best_key e j i (db_at t j) (expires (db_at t j)))
    (fun r s' => s' = s1 /\ forall k, r.1 = Some k -> is_Some (key_of t j k)) s1) as Hbest.
  { subst n. destruct allkeys eqn:Ha.
    - eapply wp_mono; [apply best_key_ok; [done|done|]|done]. intros Hp. subst allkeys. by rewrite Hp in Ha.
    - assert (forall k, is_Some (expires (db_at t j) !! k) -> is_Some (dict (db_at t j) !! k)) as Hin.
      { intros k [w Hw]. by eapply (db_expires _ _ _ (db_at_ok t j Ht Hv)). }
      eapply wp_mono; [by apply best_key_ok|]. cbv beta. intros r s' [-> Hr]. split; [done|]. intros k Hk. by apply Hin, Hr. }
  eapply wp_seq; [exact Hbest|]. cbv beta. intros [[key|] i'] s2 [-> Hk]; [|by apply wp_ret]. specialize (Hk key eq_refl).
  eapply wp_seq; [by apply propagateExpire_quiet|]. cbv beta. intros _ s3 Hq3. apply wp_bind, wp_gets.
  eapply wp_seq; [by apply dbDelete_spec|]. cbv beta. intros b s4 [_ Hq4]. apply wp_bind, wp_gets.
  eapply wp_seq; [eapply notify_quiet; [exact Hq4|auto with server|by apply valid_at_db]|]. cbv beta. intros _ s5 Hq5.
  apply wp_ret. simpl. by exists key.
Qed.

(** What eviction leaves: [n] keys less. *)
Definition evicted (n : nat) (t t' : server) : Prop :=
  server_ok t' /\ clients t' = clients t /\ zlen (dbs t') = zlen (dbs t) /\ (idle t -> idle t') /\ (total_keys t' + n = total_keys t)%nat.

Lemma evicted_refl t : server_ok t -> evicted 0 t t.
Proof. intros. split_and!; (done || lia). Qed.

Lemma evicted_trans n m t t1 t2 : evicted n t t1 -> evicted m t1 t2 -> evicted (m + n) t t2.
Proof. intros (O1 & C1 & L1 & I1 & T1) (O2 & C2 & L2 & I2 & T2). split_and!; [done|congruence|congruence|by auto|lia]. Qed.

Lemma evicted_del t j k : server_ok t -> valid t j -> is_Some (key_of t j k) -> evicted 1 t (at_db j (db_del k) t).
Proof.
  intros Ht Hv Hk. split_and!; [auto with server|done|apply zlen_alter|by apply idle_at_db|].
  unfold total_keys, at_db. simpl. unfold key_of in Hk. revert Hk.
  unfold db_at, valid, rd in *. destruct (Z.leb_spec 0 j); [|lia]. generalize (dbs t) as l, (Z.to_nat j) as n. clear.
  induction l as [|d l IH]; intros [|n]; cbn; [by intros [? ?]|by intros [? ?]| |].
  - intros Hk. rewrite map_size_delete. destruct (dict d !! k) as [o|] eqn:E; [|by destruct Hk].
    assert (base.size (dict d) <> 0%nat); [|lia]. intros Hd%map_size_empty_inv. by rewrite Hd, lookup_empty in E.
  - intros Hk. specialize (IH n Hk). lia.
Qed.

Lemma total_keys_quiet s t : s ≈ t -> total_keys s = total_keys t.
Proof. intros Hq. unfold total_keys. by rewrite (quiet_dbs _ _ Hq). Qed.

Lemma evict_round_ok js freed keys i s t :
  s ≈ t -> server_ok t -> 0 <= keys -> Forall (valid t) js ->
  wp (evict_round e js freed keys i) (fun r s' => exists n t', s' ≈ t' /\ evicted n t t' /\ r.1.2 = keys + Z.of_nat n) s.
Proof.
  revert freed keys i s t. induction js as [|j js IH]; intros freed keys i s t Hq Ht Hk Hjs; simpl.
  - apply wp_ret. exists 0%nat, t. simpl. split_and!; [done|by apply evicted_refl|lia].
  - apply Forall_cons in Hjs as [Hj Hjs]. eapply wp_seq; [by apply (evict_one_ok j i s t)|]. cbv beta.
    intros [[delta|] i'] s1; simpl; [|intros Hq1; by apply IH]. intros (k & Hkey & Hq1).
    pose proof (evicted_del t j k Ht Hj Hkey) as He. pose proof He as (Ht1 & _ & Hl1 & _).
    eapply wp_mono; [apply (IH _ (keys + 1) _ _ (at_db j (db_del k) t)); [done|done|lia|]|].
    { eapply Forall_impl; [exact Hjs|]. intros j'. by apply valid_at_db. }
    cbv beta. intros r s2 (n & t' & Hq2 & He2 & Hn). exists (n + 1)%nat, t'. split_and!; [done|by eapply evicted_trans|lia].
Qed.

Lemma evict_loop_ok fuel tofree freed i s t :
  s ≈ t -> server_ok t -> (total_keys t < fuel)%nat ->
  wp (evict_loop e fuel tofree freed i) (fun _ s' => exists n t', s' ≈ t' /\ evicted n t t') s.
Proof.
  revert freed i s t. induction fuel as [|fuel IH]; intros freed i s t Hq Ht Hf; [lia|]. simpl.
  assert (exists n t', s ≈ t' /\ evicted n t t') as Hdone by (exists 0%nat, t; split; [done|by apply evicted_refl]).
  destruct (freed <? tofree); [|by apply wp_ret].
  unfold dbnum. apply wp_bind, wp_bind, wp_gets, wp_ret.
  eapply wp_seq; [apply (evict_round_ok (seqZ 0 (zlen (dbs s))) freed 0 i s t); [done|done|lia|]|].
  { rewrite (quiet_dbs _ _ Hq). apply Forall_forall. intros j [Hj1 Hj2]%elem_of_seqZ. unfold valid. lia. }
  cbv beta. intros [[freed' keys] i'] s1 (n & t1 & Hq1 & He1 & Hn). simpl in Hn.
  destruct (Z.eqb_spec keys 0); [apply wp_ret; by exists n, t1|]. pose proof He1 as (Ht1 & _ & _ & _ & Hk1).
  eapply wp_mono; [apply (IH freed' i' s1 t1); [done|done|lia]|]. cbv beta. intros _ s2 (m & t2 & Hq2 & He2).
  exists (m + n)%nat, t2. split; [done|]. by eapply evicted_trans.
Qed.

#[export] Instance freeMemory_safe : EvictionSafe (freeMemoryIfNeeded e).
Proof.
  intros s Hs. unfold freeMemoryIfNeeded, mem_used. apply wp_bind, wp_bind, wp_gets, wp_bind, wp_gets, wp_ret.
  assert (wp (n ← gets total_keys; evict_loop e (S n)
    ((if aof_on s then u64 (u64 (foldl (fun used obuf => if obuf >? used then 0 else used - obuf) (zmalloc_used_memory e s) (slave_obuf_bytes e) -
        aof_buf_bytes e) - aof_rewrite_bytes e)
      else foldl (fun used obuf => if obuf >? used then 0 else used - obuf) (zmalloc_used_memory e s) (slave_obuf_bytes e)) - maxmemory_limit e) 0 0)
    (fun _ s' => exists t', s' ≈ t' /\ server_ok t' /\ clients t' = clients s /\ (idle s -> idle t')) s) as Hloop.
  { apply wp_bind, wp_gets. eapply wp_mono; [apply (evict_loop_ok _ _ _ _ s s); [done|done|lia]|]. cbv beta.
    intros _ s' (n & t' & Hq & (? & ? & _ & ? & _)). by exists t'. }
  destruct (_ <=? _); [apply wp_ret; by exists s|]. destruct (bool_decide _); [apply wp_ret; by exists s|]. exact Hloop.
Qed.
End eviction.

Section dispatch.
Context (cfg : config) (freeMemoryIfNeeded : M bool) (handleClientsBlockedOnLists : M unit).
Context (other : bytes -> cid -> M unit).
Context `{Hfree : !EvictionSafe freeMemoryIfNeeded}.

Lemma auth_safe c : safe_args c (at_least 2) (authCommand cfg c).
Proof.
  intros s y Hs Hy Hl. destruct (at_least_rd 2 _ 1 Hl) as [a Ha]; [lia|]. unfold authCommand.
  destruct (requirepass cfg) as [pass|]; [|by apply safe_addReply; [|exists y]].
  eapply safe_after_arg; [done..|]. intros s1 Hq.
  assert (forall b, safe c (update_client c (set_authenticated b))) as Hw.
  { intros b. apply safe_client_write; [by apply core_write_comm|by left|done|done]. }
  assert (safe c (if time_independent_strcmp (cstr a) pass =? 0 then
    _ ← update_client c (set_authenticated true); addReply c shared_ok
    else _ ← update_client c (set_authenticated false); addReplyError c (zs "invalid password"))) as Hsafe
    by auto 10 with safe.
  apply Hsafe; rewrite Hq; [done|by exists y].
Qed.

Lemma echo_safe c : safe_args c (at_least 2) (echoCommand c).
Proof.
  intros s y Hs Hy Hl. destruct (at_least_rd 2 _ 1 Hl) as [a Ha]; [lia|].
  eapply safe_after_arg; [done..|]. intros s1 Hq. apply safe_addReply; rewrite Hq; [done|by exists y].
Qed.

Lemma ping_safe c : safe_args c (at_least 1) (pingCommand c).
Proof.
  intros s y Hs Hy Hl. assert (alive c s) as Ha by by exists y. unfold at_least in Hl. unfold pingCommand.
  eapply wp_seq; [by eapply (get_client_spec c y s s)|]. cbv beta.
  intros x s1 [(_ & -> & _ & _ & _ & _ & _)%client_core_eq Hq]. cbv zeta.
  destruct (Z.gtb_spec (zlen (argv y)) 2); [apply (safe_at c); auto with safe|].
  assert (zlen (argv y) <> 1 -> exists a, rd (argv y) 1 = Some a) as Hrd by (intros; apply rd_is_Some; lia).
  assert (forall s2, s2 ≈ s -> zlen (argv y) <> 1 ->
    wp (a ← arg c 1; addReply c (RBulk a)) (fun _ s' => evolves s s') s2) as Htail.
  { intros s2 Hq2 Hz. destruct (Hrd Hz) as [a Har]. apply wp_bind. eapply arg_quiet; [done..|].
    intros s3 Hq3. apply (safe_at c); auto with safe. }
  destruct (REDIS_PUBSUB (flags x)).
  - step. step. destruct (Z.eqb_spec (zlen (argv y)) 1); [apply (safe_at c); auto with safe|by apply Htail].
  - destruct (Z.eqb_spec (zlen (argv y)) 1); [apply (safe_at c); auto with safe|by apply Htail].
Qed.

(** ** The function of every command *)

(** The lemma of a command, by its head. *)
Ltac command_safe c s y :=
  lazymatch goal with
  | |- wp (getCommand _) _ _ => by apply (get_safe c s y)
  | |- wp (setCommand _) _ _ => by apply (set_safe c s y)
  | |- wp (setnxCommand _) _ _ => by apply (setnx_safe c s y)
  | |- wp (setexCommand _) _ _ => by apply (setex_safe c s y)
  | |- wp (psetexCommand _) _ _ => by apply (psetex_safe c s y)
  | |- wp (appendCommand _) _ _ => by apply (append_safe c s y)
  | |- wp (strlenCommand _) _ _ => by apply (strlen_safe c s y)
  | |- wp (existsCommand _) _ _ => by apply (exists_safe c s y)
  | |- wp (setrangeCommand _) _ _ => by apply (setrange_safe c s y)
  | |- wp (getrangeCommand _) _ _ => by apply (getrange_safe c s y)
  | |- wp (incrCommand _) _ _ => by apply (incrDecr_safe c 1 ltac:(split; lia) s y)
  | |- wp (decrCommand _) _ _ => by apply (incrDecr_safe c (-1) ltac:(split; lia) s y)
  | |- wp (incrbyCommand _) _ _ => by apply (incrby_safe c s y)
  | |- wp (decrbyCommand _) _ _ => by apply (decrby_safe c s y)
  | |- wp (getsetCommand _) _ _ => by apply (getset_safe c s y)
  | |- wp (selectCommand _) _ _ => by apply (select_safe c s y)
  | |- wp (moveCommand _) _ _ => by apply (move_safe c s y)
  | |- wp (renameCommand _) _ _ => by apply (rename_safe c false s y)
  | |- wp (renamenxCommand _) _ _ => by apply (rename_safe c true s y)
  | |- wp (expireCommand _) _ _ => apply wp_bind, wp_gets; by apply (expire_safe c _ _ s y)
  | |- wp (pexpireCommand _) _ _ => apply wp_bind, wp_gets; by apply (expire_safe c _ _ s y)
  | |- wp (expireatCommand _) _ _ => by apply (expire_safe c _ _ s y)
  | |- wp (pexpireatCommand _) _ _ => by apply (expire_safe c _ _ s y)
  | |- wp (keysCommand _) _ _ => by apply (keys_safe c s y)
  | |- wp (authCommand _ _) _ _ => by apply (auth_safe c s y)
  | |- wp (echoCommand _) _ _ => by apply (echo_safe c s y)
  | |- wp (pingCommand _) _ _ => by apply (ping_safe c s y)
  | |- wp (typeCommand _) _ _ => by apply (type_safe c s y)
  | |- wp (ttlCommand _) _ _ => by apply (ttl_safe c false s y)
  | |- wp (pttlCommand _) _ _ => by apply (ttl_safe c true s y)
  | |- wp (persistCommand _) _ _ => by apply (persist_safe c s y)
  | |- wp (publishCommand _) _ _ => by apply (publish_cmd_safe c s y)
  | |- wp (pubsubCommand _) _ _ => by apply (pubsub_safe c s y)
  | |- wp (psubscribeCommand _) _ _ => by apply (psubscribe_cmd_safe c s y)
  | |- wp (delCommand _) _ _ => by apply (del_safe c s)
  | |- wp (mgetCommand _) _ _ => by apply (mget_safe c s)
  | |- wp (msetCommand _) _ _ => by apply (mset_safe c false s)
  | |- wp (msetnxCommand _) _ _ => by apply (mset_safe c true s)
  | |- wp (dbsizeCommand _) _ _ => by apply (dbsize_safe c s)
  | |- wp (multiCommand _) _ _ => by apply (multi_safe c s)
  | |- wp (discardCommand _) _ _ => by apply (discard_safe c s)
  | |- wp (flushdbCommand _) _ _ => by apply (flushdb_safe c s)
  | |- wp (flushallCommand _) _ _ => by apply (flushall_safe c s)
  | |- wp (subscribeCommand _) _ _ => by apply (subscribe_safe c s)
  | |- wp (unsubscribeCommand _) _ _ => by apply (unsubscribe_safe c s)
  | |- wp (punsubscribeCommand _) _ _ => by apply (punsubscribe_safe c s)
  | |- wp (watchCommand _) _ _ => by apply (watch_safe c s)
  | |- wp (unwatchCommand _) _ _ => by apply (unwatch_safe c s)
  end.

Lemma run_proc_safe exec p c :
  (p = P_execCommand -> safe c (exec c)) -> safe_args c (proc_ready p) (run_proc cfg other exec p c).
Proof using Type*.
  intros He s y Hs Hy [Hl Hh]. assert (alive c s) as Ha by by exists y.
  destruct p; cbn [run_proc proc_arity harmless] in *; try command_safe c s y.
  - by apply He.
  - done.
Qed.

(** ** [call] *)

Lemma set_FORCE_links r a : same_links (set_flags (set_FORCE r a)).
Proof. done. Qed.

Lemma set_FORCE_write r a : core_write (set_flags (set_FORCE r a)).
Proof. apply core_write_flags. intros f. by destruct f. Qed.

Lemma propagate_quiet id l a r s t : s ≈ t -> wp (propagate id l a r) (fun _ s' => s' ≈ t) s.
Proof. intros Hq. apply wp_bind, wp_gets. by apply modify_quiet. Qed.

Lemma safe_FORCE c r a : safe c (update_client c (set_flags (set_FORCE r a))).
Proof. apply safe_client_write; [apply set_FORCE_write|by left|done|done]. Qed.

Lemma safe_modify_stats c h m e n : safe c (modify (set_stats h m e n)).
Proof. apply safe_quiet. intros. by apply modify_quiet. Qed.

Lemma safe_propagate c id l a r : safe c (propagate id l a r).
Proof. apply safe_quiet. intros. by apply propagate_quiet. Qed.
#[local] Hint Resolve safe_FORCE safe_modify_stats safe_propagate : safe.

(** [I] is what the command needs of the state besides [server_ok]. *)
Lemma call_safe c P (I : server -> Prop) run s y :
  (forall s s', evolves s s' -> I s -> I s') ->
  (forall s y, server_ok s -> I s -> clients s !! c = Some y -> P (argv y) -> wp run (fun _ s' => evolves s s') s) ->
  server_ok s -> I s -> clients s !! c = Some y -> P (argv y) -> wp (call run c) (fun _ s' => evolves s s') s.
Proof.
  intros HI Hrun Hs Hi Hy HP. unfold call. eapply wp_seq; [by eapply (get_client_spec c y s s)|]. cbv beta.
  intros old s1 [_ Hq1]. eapply wp_seq; [eapply (update_client_spec c _ y s1 s); [apply set_FORCE_write|done|done]|].
  cbv beta. intros _ s2 Hq2. apply wp_bind, wp_gets.
  set (t := client_at c (set_flags (set_FORCE false false)) s) in *.
  assert (evolves s t) as He.
  { apply evolves_client_at; [|done|by left|done]. eapply (client_at_server_ok _ _ _ y); [done..|]. change (valid s (db y)); by apply (ok_client_db s c). }
  destruct (quiet_client t s2 c (set_flags (set_FORCE false false) y)) as (y2 & Hy2 & Hc2);
    [by symmetry|by apply client_at_lookup|].
  assert (evolves s s2) as He2 by by eapply evolves_to.
  assert (argv y2 = argv y) as Hargv by (apply client_core_eq in Hc2 as (_ & Hc2 & _); by rewrite <- Hc2).
  eapply wp_seq; [apply (Hrun s2 y2); [apply He2|by eapply HI|done|by rewrite Hargv]|]. cbv beta. intros _ s3 He3.
  assert (evolves s s3) as He13 by by eapply evolves_trans.
  assert (alive c s3) as Ha3 by (apply (ev_alive _ _ He13); by exists y).
  assert (safe c (after ← gets dirty;
     x ← get_client c;
     _ ← (if (REDIS_FORCE_REPL (flags x) || negb (Z.max 0 (after - dirty s2) =? 0)) ||
             (REDIS_FORCE_AOF (flags x) || negb (Z.max 0 (after - dirty s2) =? 0))
          then propagate (db x) (argv x) (REDIS_FORCE_AOF (flags x) || negb (Z.max 0 (after - dirty s2) =? 0))
                 (REDIS_FORCE_REPL (flags x) || negb (Z.max 0 (after - dirty s2) =? 0)) else mret tt);
     _ ← update_client c (set_flags (set_FORCE (REDIS_FORCE_REPL (flags old)) (REDIS_FORCE_AOF (flags old))));
     modify (set_stats 0 0 0 1))) as Htail by auto 12 with safe.
  eapply wp_mono; [apply Htail; [apply He13|done]|]. cbv beta. intros _ s4 He4. by eapply evolves_trans.
Qed.

(** ** EXEC *)

(** [evolves], but for the queue of [c]. *)
Record evolves_but (c : cid) (t t' : server) : Prop := {
  eb_ok : server_ok t';
  eb_alive : forall c', alive c' t' <-> alive c' t;
  eb_queue : forall c' x x', c' <> c -> clients t !! c' = Some x -> clients t' !! c' = Some x' ->
    mstate x' = mstate x \/ mstate x' = [];
  eb_idle : idle t -> idle t'
}.

Lemma evolves_but_of c t t' : evolves t t' -> evolves_but c t t'.
Proof. intros [? ? Q I]. split; [done|done| |done]. intros c' x x' _. apply Q. Qed.

Lemma evolves_but_trans c t t1 t2 : evolves_but c t t1 -> evolves_but c t1 t2 -> evolves_but c t t2.
Proof.
  intros [_ A1 Q1 I1] [H2 A2 Q2 I2]. split; [done|intros c'; by rewrite A2| |by auto].
  intros c' x x' Hne Hx Hx'. assert (alive c' t1) as [z Hz] by (apply A1; by exists x).
  destruct (Q2 c' z x' Hne Hz Hx') as [->| ->]; [by eapply Q1|by right].
Qed.

Lemma client_write_but c f s :
  core_write f -> same_links f -> (forall x, db (f x) = db x) -> server_ok s -> alive c s ->
  wp (update_client c f) (fun _ s' => evolves_but c s s' /\ s' ≈ client_at c f s) s.
Proof.
  intros Hf Hl Hd Hs [y Hy]. eapply wp_mono; [by eapply update_client_spec|]. cbv beta. intros _ s' Hq.
  split; [|done].
  assert (server_ok (client_at c f s)) as Hok.
  { eapply client_at_server_ok; [done|done|done|]. rewrite Hd. eauto with server. }
  split; [by rewrite Hq| | |intros Hi; by apply (idle_quiet _ _ Hq)].
  - intros c'. rewrite Hq. unfold alive, client_at. simpl. destruct (decide (c = c')) as [<-|].
    + by rewrite lookup_alter_eq, fmap_is_Some.
    + by rewrite lookup_alter_ne.
  - intros c' x x' Hne Hx Hx'. destruct (quiet_client _ _ _ _ Hq Hx') as (z & Hz & Hxz).
    apply client_core_eq in Hxz as (_ & _ & -> & _). unfold client_at in Hz. simpl in Hz.
    rewrite lookup_alter_ne in Hz by done. simplify_eq. by left.
Qed.

Lemma exec_one_safe c must j l s :
  server_ok s -> alive c s -> queueable l -> wp (exec_one cfg other c must j l) (fun _ s' => evolves_but c s s') s.
Proof using Type*.
  intros Hs Ha (a & cmd & Hrd & Hcmd & Hq & Hready). unfold exec_one.
  eapply wp_seq; [by apply (client_write_but c (set_argv l)); [apply core_write_argv| | | |]|]. cbv beta.
  intros _ s1 [He1 Hq1]. destruct Ha as [y Hy].
  assert (clients (client_at c (set_argv l) s) !! c = Some (set_argv l y)) as Hy1 by by apply client_at_lookup.
  eapply wp_seq; [by eapply (arg_spec c _ 0 a _ _ Hq1 Hy1)|]. cbv beta. intros b s2 [-> Hq2].
  eapply wp_bind, wp_lift; [done|].
  eapply (wp_seq _ _ (fun _ s' => s' ≈ client_at c (set_argv l) s)).
  { destruct (_ && _); [|by apply wp_ret]. unfold execCommandPropagateMulti.
    eapply (wp_seq _ _ (fun _ s' => s' ≈ client_at c (set_argv l) s)); [|cbv beta; intros _ s' ?; by apply wp_ret].
    eapply wp_seq; [by eapply client_db_spec|]. cbv beta. intros id s' [_ Hs']. by apply propagate_quiet. }
  cbv beta. intros must' s3 Hq3. symmetry in Hq3. destruct (quiet_client _ _ _ _ Hq3 Hy1) as (y3 & Hy3 & Hc3).
  symmetry in Hq3.
  assert (evolves_but c s s3) as He3.
  { assert (s3 ≈ s1) as Hq31 by by rewrite Hq3, Hq1. eapply evolves_but_trans; [exact He1|].
    apply evolves_but_of, (evolves_to _ _ _ Hq31), evolves_refl. apply He1. }
  assert (argv y3 = l) as Hargv by (apply client_core_eq in Hc3 as (_ & Hc3 & _); by rewrite <- Hc3).
  eapply wp_seq.
  { eapply (call_safe c (proc_ready (proc cmd)) (fun _ => True)); [done| |apply He3|done|exact Hy3|by rewrite Hargv].
    intros s' y' Hs' _. apply run_proc_safe; [|done].
    intros Hp. unfold queued_in_multi, proc_in in Hq. rewrite Hp in Hq. done. }
  cbv beta. intros _ s4 He4.
  assert (evolves_but c s s4) as He14 by (eapply evolves_but_trans; [exact He3|by apply evolves_but_of]).
  assert (alive c s4) as [y4 Hy4] by (apply (eb_alive _ _ _ He14); by exists y).
  eapply wp_bind, wp_get_client; [done|].
  eapply wp_seq; [apply client_write_but; [by apply core_write_comm|done|done|apply He14|by exists y4]|].
  cbv beta. intros _ s5 [He5 _]. apply wp_ret. by eapply evolves_but_trans.
Qed.

Lemma exec_loop_safe c q must j s :
  server_ok s -> alive c s -> Forall queueable q ->
  wp (exec_loop cfg other c must j q) (fun _ s' => evolves_but c s s') s.
Proof using Type*.
  revert must j s. induction q as [|l q IH]; intros must j s Hs Ha Hall; simpl.
  - apply wp_ret, evolves_but_of. by apply evolves_refl.
  - apply Forall_cons in Hall as [Hl Hall].
    eapply wp_seq; [by apply exec_one_safe|]. cbv beta. intros m s1 He1.
    eapply wp_mono; [apply IH; [apply He1|by apply (eb_alive _ _ _ He1)|done]|]. cbv beta. intros r s2 He2.
    by eapply evolves_but_trans.
Qed.
(** The end of a transaction: the queue is empty. *)
Lemma discard_empties c s :
  server_ok s -> alive c s ->
  wp (discardTransaction c) (fun _ s' => evolves s s' /\ forall x, clients s' !! c = Some x -> mstate x = []) s.
Proof.
  intros Hs [y Hy]. unfold discardTransaction, initClientMultiState.
  eapply wp_seq; [eapply (update_client_spec c _ y s s); [by apply core_write_comm|done|done]|]. cbv beta.
  intros _ s1 Hq1. assert (evolves s s1) as He1.
  { apply (evolves_to _ _ _ Hq1), evolves_client_at; [|done|by right|done]. eapply client_at_server_ok; [done..|].
    by apply (ok_client_db s c y). }
  assert (alive c s1) as Ha1 by (apply (ev_alive _ _ He1); by exists y).
  assert (safe c (_ ← update_client c (set_flags (fun f => set_MULTI false (set_DIRTY_CAS false (set_DIRTY_EXEC false f))));
                  unwatchAllKeys c)) as Hsafe.
  { pose proof (unwatchAll_safe c). auto 10 with safe. }
  eapply wp_mono; [by apply Hsafe; [apply He1|]|]. cbv beta. intros _ s2 He2.
  split; [by eapply evolves_trans|]. intros x Hx. destruct Ha1 as [x1 Hx1].
  destruct (quiet_client _ _ _ _ Hq1 Hx1) as (z & Hz & Hxz). rewrite (client_at_lookup _ _ _ _ Hy) in Hz.
  injection Hz as <-. apply client_core_eq in Hxz as (_ & _ & Hm & _). simpl in Hm.
  destruct (ev_queue _ _ He2 c x1 x Hx1 Hx) as [->|]; done.
Qed.

Lemma exec_safe c s :
  server_ok s -> queues_ok s -> alive c s -> wp (execCommand cfg other c) (fun _ s' => evolves s s') s.
Proof using Type*.
  intros Hs Hqs Ha. unfold execCommand. pose proof Ha as [y Hy]. eapply wp_bind, wp_get_client; [done|].
  assert (safe c (discardTransaction c)) as Hdisc.
  { intros s' Hs' Ha'. eapply wp_mono; [by apply discard_empties|]. by intros _ s'' [? _]. }
  destruct (negb _); [by apply safe_addReply|].
  destruct (_ || _).
  { assert (forall r, safe c (_ ← addReply c r; discardTransaction c)) as Hsafe by auto with safe. by apply Hsafe. }
  eapply wp_seq; [by apply unwatchAll_safe|]. cbv beta. intros _ s1 He1.
  assert (alive c s1) as Ha1 by by apply (ev_alive _ _ He1).
  eapply wp_seq; [apply (safe_addReply c); [apply He1|done]|]. cbv beta. intros _ s2 He2.
  assert (alive c s2) as Ha2 by by apply (ev_alive _ _ He2).
  eapply wp_seq; [apply exec_loop_safe; [apply He2|done|by apply (Hqs c y)]|]. cbv beta. intros must s3 He3.
  assert (alive c s3) as Ha3 by by apply (eb_alive _ _ _ He3).
  eapply wp_seq; [by apply client_write_but; [apply core_write_argv|done|done|apply He3|done]|]. cbv beta.
  intros _ s4 [He4 _]. assert (alive c s4) as Ha4 by by apply (eb_alive _ _ _ He4).
  eapply wp_seq; [by apply discard_empties; [apply He4|]|]. cbv beta. intros _ s5 [He5 Hnil].
  assert (evolves_but c s s5) as Hbut.
  { eapply evolves_but_trans; [apply evolves_but_of, He1|]. eapply evolves_but_trans; [apply evolves_but_of, He2|].
    eapply evolves_but_trans; [exact He3|]. eapply evolves_but_trans; [exact He4|]. by apply evolves_but_of. }
  assert (evolves s s5) as He.
  { destruct Hbut as [? ? Q I]. split; [done|done| |done]. intros c' x x' Hx Hx'.
    destruct (decide (c' = c)) as [->|]; [right; by apply Hnil|by eapply Q]. }
  destruct must; [|by apply wp_ret]. eapply wp_mono; [by apply modify_quiet|]. cbv beta. intros _ s6 Hq6.
  by apply (evolves_to _ _ _ Hq6).
Qed.

(** ** Requests *)

(** What a client may send. *)
Definition request_ok (l : list bytes) : Prop :=
  l <> [] /\ forall a cmd, rd l 0 = Some a -> lookupCommand a = Some cmd -> harmless (proc cmd) l.

Lemma evolves_queues s s' : evolves s s' -> queues_ok s -> queues_ok s'.
Proof.
  intros He Hq c x' Hx'. assert (alive c s) as [x Hx] by (apply (ev_alive _ _ He); by exists x').
  destruct (ev_queue _ _ He c x x' Hx Hx') as [-> | ->]; [by eapply Hq|constructor].
Qed.

(** Adding a command to the queue. *)
Lemma queue_safe c y s t :
  s ≈ t -> server_ok t -> clients t !! c = Some y -> queueable (argv y) -> queues_ok t ->
  wp (queueMultiCommand c) (fun _ s' => server_ok s' /\ queues_ok s' /\ alive c s' /\ (idle t -> idle s')) s.
Proof.
  intros Hq Ht Hy Hl Hqs. unfold queueMultiCommand. eapply wp_seq; [by eapply client_argv_spec|]. cbv beta.
  intros l s1 [-> Hq1]. eapply wp_mono; [eapply (update_client_spec c _ y); [by apply core_write_comm|done|done]|].
  cbv beta. intros _ s2 Hq2. split_and!.
  - rewrite Hq2. eapply client_at_server_ok; [done..|]. by apply (ok_client_db t c y).
  - intros c' x Hx. destruct (quiet_client _ _ _ _ Hq2 Hx) as (z & Hz & Hxz).
    apply client_core_eq in Hxz as (_ & _ & -> & _).
    apply client_at_inv in Hz as (z' & Hz' & ->). case_decide; [|by eapply Hqs]. subst c'. simplify_eq. simpl.
    apply Forall_app. split; [by eapply Hqs|by constructor].
  - rewrite Hq2. eexists. by apply client_at_lookup.
  - intros Hi. by apply (idle_quiet _ _ Hq2).
Qed.

(** The invariant of the server between two requests. *)
Definition good (s : server) : Prop := server_ok s /\ queues_ok s /\ idle s.

Lemma good_safe {A} c (m : M A) s t :
  safe c m -> s ≈ t -> good t -> alive c t -> wp m (fun _ s' => good s') s.
Proof.
  intros Hm Hq (Ht & Hqs & Hi) Ha. eapply wp_mono; [by apply (safe_at c m s t)|]. cbv beta. intros a s' He.
  split_and!; [apply He|by eapply evolves_queues|by apply He].
Qed.
Lemma good_quiet s t : s ≈ t -> good t -> good s.
Proof.
  intros Hq (Ht & Hqs & Hi). split_and!; [by rewrite Hq| |by apply (idle_quiet _ _ Hq)]. apply (evolves_queues t); [|done].
  apply (evolves_to _ _ _ Hq). by apply evolves_refl.
Qed.

(** [free_memory] touches no client. *)
Lemma free_memory_good c x cmd y s t :
  s ≈ t -> good t -> clients t !! c = Some y ->
  wp (free_memory cfg freeMemoryIfNeeded x cmd)
    (fun _ s' => good s' /\ exists y', clients s' !! c = Some y' /\ argv y' = argv y) s.
Proof using Type*.
  intros Hq Hg Hy. assert (good s) as (Hs & Hqs & Hi) by by eapply good_quiet.
  destruct (quiet_client t s c y ltac:(by symmetry) Hy) as (z & Hz & (_ & Hzv & _)%client_core_eq).
  assert (good s /\ exists y', clients s !! c = Some y' /\ argv y' = argv y) as Hend by (split; [done|by exists z]).
  unfold free_memory. destruct (_ && _); [by apply wp_ret|]. destruct (maxmemory cfg); [|by apply wp_ret].
  eapply wp_seq; [by apply Hfree|]. cbv beta.
  intros b s1 (t' & Hq' & Ht' & Hc' & Hi'). apply wp_ret.
  assert (good t') as Hg' by (split_and!; [done|unfold queues_ok; by rewrite Hc'|by apply Hi']).
  split; [by eapply good_quiet|]. rewrite <- Hc' in Hz.
  destruct (quiet_client t' s1 c z ltac:(by symmetry) Hz) as (z1 & Hz1 & (_ & Hz1v & _)%client_core_eq).
  exists z1. split; [done|]. congruence.
Qed.

(** A command that is run. *)
Lemma call_proc_safe c y a cmd s :
  good s -> clients s !! c = Some y -> rd (argv y) 0 = Some a -> lookupCommand a = Some cmd ->
  arity_ok cmd (zlen (argv y)) = true -> request_ok (argv y) ->
  wp (call (proc_of cfg other (proc cmd) c) c) (fun _ s' => evolves s s') s.
Proof using Type*.
  intros (Hs & Hqs & Hi) Hy Ha Hcmd Har [Hne Hharm].
  eapply (call_safe c (proc_ready (proc cmd)) queues_ok); [by apply evolves_queues| |done..|].
  - intros s' y' Hs' Hqs' Hy' Hr'. unfold proc_of.
    destruct (decide (proc cmd = P_execCommand)) as [Hp|Hp]; [|by eapply run_proc_safe].
    rewrite Hp. apply exec_safe; [done|done|by exists y'].
  - split; [by eapply arity_ok_args|by eapply Hharm].
Qed.

(** A command that is accepted: queued or run. *)
Lemma accepted_good c y a cmd s :
  good s -> clients s !! c = Some y -> rd (argv y) 0 = Some a -> lookupCommand a = Some cmd ->
  arity_ok cmd (zlen (argv y)) = true -> request_ok (argv y) ->
  wp (if REDIS_MULTI (flags y) && queued_in_multi cmd then
        _ ← queueMultiCommand c; _ ← addReply c shared_queued; mret true
      else
        _ ← call (proc_of cfg other (proc cmd) c) c;
        l ← gets ready_keys;
        _ ← (if bool_decide (l = []) then mret tt else handleClientsBlockedOnLists);
        mret true) (fun _ s' => good s') s.
Proof using Type*.
  intros Hg Hy Ha Hcmd Har Hreq. pose proof Hg as (Hs & Hqs & Hi). pose proof Hreq as [Hne Hharm].
  assert (proc_ready (proc cmd) (argv y)) as Hready by (split; [by eapply arity_ok_args|by eapply Hharm]).
  destruct (REDIS_MULTI (flags y) && queued_in_multi cmd) eqn:Hm.
  - apply andb_true_iff in Hm as [_ Hm].
    eapply wp_seq; [by apply (queue_safe c y s s); [done|done|done|exists a, cmd|]|]. cbv beta.
    intros _ s1 (Hs1 & Hqs1 & Ha1 & Hi1). apply (good_safe c _ s1 s1); [auto with safe|done| |done]. split_and!; [done|done|by apply Hi1].
  - eapply wp_seq; [by eapply call_proc_safe|].
    cbv beta. intros _ s1 He1. apply wp_bind, wp_gets.
    assert (idle s1) as Hi1 by by apply He1.
    rewrite bool_decide_true by apply Hi1. apply wp_bind, wp_ret, wp_ret. split_and!; [apply He1|by eapply evolves_queues|done].
Qed.

Lemma processCommand_good c y s :
  good s -> clients s !! c = Some y -> request_ok (argv y) ->
  wp (processCommand cfg freeMemoryIfNeeded handleClientsBlockedOnLists other c) (fun _ s' => good s') s.
Proof using Type*.
  intros Hg Hy Hreq. pose proof Hg as (Hs & Hqs & Hi). assert (alive c s) as Ha by by exists y.
  assert (exists a, rd (argv y) 0 = Some a) as [a Hrd].
  { destruct Hreq as [Hne _]. destruct (argv y) as [|a l]; [done|]. by exists a. }
  assert (forall (m : M bool) s', safe c m -> s' ≈ s -> wp m (fun _ s' => good s') s') as Hsafe.
  { intros m s' Hm Hq. by eapply (good_safe c m s' s). }
  pose proof (flagTransaction_safe c) as Hflag.
  unfold processCommand. apply wp_bind. eapply arg_quiet; [done..|]. intros s1 Hq1.
  destruct (strcasecmp_eq a (zs "quit")); [apply Hsafe; [auto 10 with safe|done]|].
  eapply wp_seq; [by eapply get_client_spec|]. cbv beta. intros x s2 [Hcx Hq2].
  destruct (lookupCommand a) as [cmd|] eqn:Hcmd; [|apply Hsafe; [auto 10 with safe|done]].
  apply client_core_eq in Hcx as (_ & Hxv & _). rewrite Hxv.
  destruct (arity_ok cmd (zlen (argv y))) eqn:Har; simpl; [|apply Hsafe; [auto 10 with safe|done]].
  eapply wp_seq; [by eapply free_memory_good|]. cbv beta. intros oom s3 (Hg3 & y3 & Hy3 & Hv3).
  eapply wp_bind, wp_get_client; [done|]. apply wp_bind, wp_gets.
  destruct (command_refused cfg s3 y3 cmd oom) as [r|].
  - apply (good_safe c _ s3 s3); [|done|done|by exists y3].
    apply safe_bind; [by apply safe_if; [|auto with safe]|]. auto with safe.
  - rewrite <- Hv3 in *. by eapply accepted_good.
Qed.
End dispatch.
