(* ===== verification/Reach.v ===== *)
(** * The server as a state machine (src/redis-2.8.19/src/networking.c, redis.c)

    Clients connect, send requests for the commands that are modelled and disconnect
    while the clock advances. Every reachable state satisfies the invariant, and no
    harmless request that arrives in one fails an assertion. Eviction is that of
    redis.c for any limit, policy and memory in use; nothing is assumed of the commands
    that are not modelled and of the service of blocked clients, which are not reached. *)
From S2P Require Import Prelude Util Glob Object Server Pubsub Watch Db TString Table Exec.
From S2P Require Import Invariant Steps StringSpec KeySpec Links Safety ExecSafe.
Open Scope Z_scope.
Open Scope server_scope.

(** ** Clients come and go *)

(** A connected client, as [createClient] fills it. *)
Definition new_client : client := mkClient 0 no_flags [] [] [] ∅ [] false [].

Definition createClient (c : cid) : M unit := modify (set_clients (<[c := new_client]>)).

(** The parts that are about the tables of the server: a client that is blocked, a
    slave, a monitor or the master has more to release. *)
Definition freeClient (c : cid) : M unit :=
  _ ← unwatchAllKeys c;
  _ ← pubsubUnsubscribeAllChannels c false;
  _ ← pubsubUnsubscribeAllPatterns c false;
  x ← get_client c;
  modify (set_clients (delete c)).

(** The server at startup: empty databases, no client. *)
Definition init_server (dbnum : nat) (notify now : Z) (aof : bool) : server :=
  mkServer (replicate dbnum empty_db) ∅ 0 0 0 0 0 ∅ [] [] [] notify now false false None aof.

Lemma init_good n notify now aof : 0 < Z.of_nat n <= INT32_MAX -> good (init_server n notify now aof).
Proof.
  intros Hn. set (s := init_server n notify now aof).
  assert (forall c, clients s !! c = None) as Hno by (intros; apply lookup_empty).
  split_and!.
  - split; simpl.
    + unfold zlen. by rewrite length_replicate.
    + intros id d Hd. assert (d = empty_db) as ->.
      { unfold rd in Hd. destruct (0 <=? id); [|done]. by apply lookup_replicate in Hd as [-> _]. }
      split; simpl; [by intros k w; rewrite lookup_empty..|]. intros k. rewrite lookup_empty. split; [|done].
      intros c. simpl. split; [by intros ?%elem_of_nil|]. intros (x & Hx & _). by rewrite Hno in Hx.
    + intros c x. by rewrite lookup_empty.
    + intros k. rewrite lookup_empty. split; [|done]. intros c. simpl. split; [by intros ?%elem_of_nil|].
      intros (x & Hx & _). by rewrite Hno in Hx.
    + constructor.
    + intros c p. split; [by intros ?%elem_of_nil|]. intros (x & Hx & _). by rewrite Hno in Hx.
    + by intros c p ?%elem_of_nil.
  - intros c x. simpl. by rewrite lookup_empty.
  - split; [done|]. by apply Forall_replicate.
Qed.

(** A relation to the clients is the same when a client without links is added or removed. *)
Lemma rel_insert (P : client -> Prop) (m : gmap cid client) c x0 c' :
  m !! c = None -> ~ P x0 ->
  (exists x, <[c := x0]> m !! c' = Some x /\ P x) <-> (exists x, m !! c' = Some x /\ P x).
Proof.
  intros Hc Hn. destruct (decide (c = c')) as [<-|Hne].
  - rewrite lookup_insert_eq, Hc. naive_solver.
  - by rewrite lookup_insert_ne.
Qed.

Lemma rel_delete (P : client -> Prop) (m : gmap cid client) c x0 c' :
  m !! c = Some x0 -> ~ P x0 ->
  (exists x, delete c m !! c' = Some x /\ P x) <-> (exists x, m !! c' = Some x /\ P x).
Proof.
  intros Hc Hn. destruct (decide (c = c')) as [<-|Hne].
  - rewrite lookup_delete_eq, Hc. naive_solver.
  - by rewrite lookup_delete_ne.
Qed.

(** Changing the clients while every link is kept. *)
Lemma set_clients_ok f s :
  server_ok s ->
  (forall c x, f (clients s) !! c = Some x -> client_ok s x) ->
  (forall c id k, watches (set_clients f s) c id k <-> watches s c id k) ->
  (forall c ch, subscribed (set_clients f s) c ch <-> subscribed s c ch) ->
  (forall c p, psubscribed (set_clients f s) c p <-> psubscribed s c p) -> server_ok (set_clients f s).
Proof.
  intros [Hn Hdb Hcl Hch Hnd Hps Hpo] Hf Hw Hc Hp. split; try done.
  - intros id d Hd. destruct (Hdb id d Hd) as [He Ho Ht]. split; [done|done|].
    eapply table_ok_ext; [|exact Ht]. intros c k. symmetry. apply Hw.
  - intros c x Hx. destruct (Hf c x Hx). by split.
  - eapply table_ok_ext; [|exact Hch]. intros c k. symmetry. apply Hc.
  - intros c p. rewrite Hps. symmetry. apply Hp.
Qed.

(** A new client starts in database 0. *)
Lemma createClient_good c s :
  good s -> clients s !! c = None -> wp (createClient c) (fun _ s' => good s' /\ alive c s') s.
Proof.
  intros (Hs & Hqs & Hi) Hc. apply wp_modify.
  assert (valid s 0) as Hv by (pose proof (ok_dbnum s Hs); unfold valid; lia). split; [split_and!|].
  - apply set_clients_ok; [done|..].
    + intros c' x [[<- <-]|[_ Hx]]%lookup_insert_Some; [|by eapply ok_clients].
      split; simpl; [done|constructor|by intros id k ?%elem_of_nil|constructor].
    + intros. apply rel_insert; [done|apply not_elem_of_nil].
    + intros. apply rel_insert; [done|set_solver].
    + intros. apply rel_insert; [done|apply not_elem_of_nil].
  - intros c' x. simpl. intros [[<- <-]|[_ Hx]]%lookup_insert_Some; [constructor|by eapply Hqs].
  - done.
  - exists new_client. simpl. apply lookup_insert_eq.
Qed.

(** ** Disconnection releases every link *)

Lemma unsub_loop_empties c l s y :
  server_ok s -> clients s !! c = Some y -> (forall ch, ch ∈ channels y -> ch ∈ l) ->
  wp (mfor_sum l (fun ch => pubsubUnsubscribeChannel c ch false))
    (fun _ s' => evolves s s' /\ exists y', clients s' !! c = Some y' /\ channels y' = ∅ /\
       watched y' = watched y /\ patterns y' = patterns y) s.
Proof.
  revert s y. induction l as [|ch l IH]; intros s y Hs Hy Hl; cbn [mfor_sum].
  - apply wp_ret. split; [by apply evolves_refl|]. exists y. split_and!; [done| |done..].
    apply set_eq. intros ch. split; [|by intros ?%elem_of_empty]. by intros ?%Hl%elem_of_nil.
  - assert (alive c s) as Ha by by exists y.
    eapply wp_seq.
    { eapply wp_mono; [by eapply (unsubscribe_spec c y ch false s s)|]. cbv beta. intros n s1 [_ Hq1].
      assert (evolves s s1) as He.
      { apply (evolves_to _ _ _ Hq1). case_decide; [|by apply evolves_refl].
        apply evolves_client_at; [by eapply unsubscribe_one_ok|done|by left|done]. }
      assert (exists y1, clients s1 !! c = Some y1 /\ watched y1 = watched y /\ patterns y1 = patterns y /\
                (forall ch', ch' ∈ channels y1 -> ch' ∈ l)) as Hy1.
      { case_decide as Hin.
        - destruct (quiet_client _ s1 c (set_channels (fun m => m ∖ {[ch]}) y) ltac:(by symmetry)) as (y1 & Hy1 & Hc1);
            [by apply (client_at_lookup c)|].
          exists y1. apply client_core_eq in Hc1 as (_ & _ & _ & <- & <- & <- & _). simpl. split_and!; try done.
          intros ch' [Hch' Hne]%elem_of_difference. apply Hl, elem_of_cons in Hch' as [->|]; [|done].
          by destruct Hne; apply elem_of_singleton.
        - destruct (quiet_client s s1 c y ltac:(by symmetry) Hy) as (y1 & Hy1 & Hc1).
          exists y1. apply client_core_eq in Hc1 as (_ & _ & _ & <- & <- & <- & _). split_and!; try done.
          intros ch' Hch'. pose proof (Hl ch' Hch') as [->|]%elem_of_cons; [done|done]. }
      exact (conj He Hy1). }
    cbv beta. intros n s1 (He1 & y1 & Hy1 & Hw1 & Hp1 & Hl1).
    eapply wp_seq; [by eapply IH; [apply He1|done|]|]. cbv beta.
    intros m s2 (He2 & y2 & Hy2 & Hc2 & Hw2 & Hp2). apply wp_ret. split; [by eapply evolves_trans|].
    exists y2. split_and!; congruence.
Qed.

Lemma punsub_loop_empties c l s y :
  server_ok s -> clients s !! c = Some y -> (forall p, p ∈ patterns y -> p ∈ l) ->
  wp (mfor_sum l (fun p => pubsubUnsubscribePattern c p false))
    (fun _ s' => evolves s s' /\ exists y', clients s' !! c = Some y' /\ patterns y' = [] /\
       watched y' = watched y /\ channels y' = channels y) s.
Proof.
  revert s y. induction l as [|p l IH]; intros s y Hs Hy Hl; cbn [mfor_sum].
  - apply wp_ret. split; [by apply evolves_refl|]. exists y. split_and!; [done| |done..].
    destruct (patterns y) as [|p l] eqn:Hp; [done|]. destruct (not_elem_of_nil p). apply Hl. left.
  - assert (alive c s) as Ha by by exists y. pose proof (cl_patterns _ _ (ok_clients s Hs c y Hy)) as Hnd.
    eapply wp_seq.
    { eapply wp_mono; [by eapply (punsubscribe_spec c y p false s s)|]. cbv beta. intros n s1 [_ Hq1].
      assert (evolves s s1) as He.
      { apply (evolves_to _ _ _ Hq1). case_decide; [|by apply evolves_refl].
        apply evolves_client_at; [by eapply punsubscribe_one_ok|done|by left|done]. }
      assert (exists y1, clients s1 !! c = Some y1 /\ watched y1 = watched y /\ channels y1 = channels y /\
                (forall q, q ∈ patterns y1 -> q ∈ l)) as Hy1.
      { case_decide as Hin.
        - destruct (quiet_client _ s1 c (set_patterns (del_first p) y) ltac:(by symmetry)) as (y1 & Hy1 & Hc1);
            [by apply (client_at_lookup c)|].
          exists y1. apply client_core_eq in Hc1 as (_ & _ & _ & <- & <- & <- & _). simpl. split_and!; try done.
          intros q. rewrite del_first_spec by done. intros [Hq Hne]. apply Hl, elem_of_cons in Hq as [->|]; done.
        - destruct (quiet_client s s1 c y ltac:(by symmetry) Hy) as (y1 & Hy1 & Hc1).
          exists y1. apply client_core_eq in Hc1 as (_ & _ & _ & <- & <- & <- & _). split_and!; try done.
          intros q Hq. pose proof (Hl q Hq) as [->|]%elem_of_cons; done. }
      exact (conj He Hy1). }
    cbv beta. intros n s1 (He1 & y1 & Hy1 & Hw1 & Hp1 & Hl1).
    eapply wp_seq; [by eapply IH; [apply He1|done|]|]. cbv beta.
    intros m s2 (He2 & y2 & Hy2 & Hc2 & Hw2 & Hp2). apply wp_ret. split; [by eapply evolves_trans|].
    exists y2. split_and!; congruence.
Qed.

(** The client is gone, and only it. *)
Lemma freeClient_good c s :
  good s -> alive c s ->
  wp (freeClient c) (fun _ s' => good s' /\ forall c', alive c' s' <-> alive c' s /\ c' <> c) s.
Proof.
  intros (Hs & Hqs & Hi) [y Hy]. unfold freeClient.
  eapply wp_seq; [by eapply (unwatchAllKeys_spec c y s s)|]. cbv beta. intros _ s1 (t1 & Hq1 & Hu).
  assert (evolves s s1) as He1 by (apply (evolves_to _ _ _ Hq1); by eapply evolves_unwatched).
  destruct Hu as (_ & _ & Hcl & _).
  destruct (quiet_client t1 s1 c (set_watched (fun _ => []) y) ltac:(by symmetry)) as (y1 & Hy1 & Hc1);
    [by rewrite Hcl, lookup_alter_eq, Hy|]. apply client_core_eq in Hc1 as (_ & _ & _ & Hw1 & _). simpl in Hw1.
  unfold pubsubUnsubscribeAllChannels. apply wp_bind. eapply wp_bind, wp_get_client; [exact Hy1|].
  eapply wp_seq; [apply (unsub_loop_empties c _ s1 y1); [apply He1|done|]|].
  { intros ch. by rewrite elem_of_elements. }
  cbv beta. intros n s2 (He2 & y2 & Hy2 & Hch2 & Hw2 & _). apply wp_bind, wp_ret, wp_ret.
  unfold pubsubUnsubscribeAllPatterns. apply wp_bind. eapply wp_bind, wp_get_client; [exact Hy2|].
  eapply wp_seq; [by apply (punsub_loop_empties c _ s2 y2); [apply He2|done|]|].
  cbv beta. intros m s3 (He3 & y3 & Hy3 & Hp3 & Hw3 & Hch3). apply wp_bind, wp_ret, wp_ret.
  eapply wp_bind, wp_get_client; [exact Hy3|]. apply wp_modify.
  assert (evolves s s3) as He by (eapply evolves_trans; [exact He1|by eapply evolves_trans]).
  assert (watched y3 = []) as Hw by congruence. assert (channels y3 = ∅) as Hch by congruence.
  split; [split_and!|].
  - apply set_clients_ok; [apply He|..].
    + intros c' x [_ Hx]%lookup_delete_Some. by eapply ok_clients; [apply He|].
    + intros. apply (rel_delete _ _ _ y3); [done|]. rewrite Hw. apply not_elem_of_nil.
    + intros. apply (rel_delete _ _ _ y3); [done|]. rewrite Hch. apply not_elem_of_empty.
    + intros. apply (rel_delete _ _ _ y3); [done|]. rewrite Hp3. apply not_elem_of_nil.
  - pose proof (evolves_queues _ _ He Hqs) as Hqs3. intros c' x Hx.
    apply (lookup_delete_Some (clients s3)) in Hx as [_ Hx]. by eapply Hqs3.
  - by apply (ev_idle _ _ He).
  - intros c'. rewrite <- (ev_alive _ _ He c'). unfold alive. simpl. rewrite lookup_delete_is_Some. naive_solver.
Qed.

(** ** The state machine *)

Definition set_mstime (now : Z) (s : server) : server :=
  mkServer (dbs s) (clients s) (dirty s) (stat_keyspace_hits s) (stat_keyspace_misses s)
    (stat_expiredkeys s) (stat_numcommands s) (pubsub_channels s) (pubsub_patterns s) (ready_keys s)
    (fed s) (notify_keyspace_events s) now (loading s) (masterhost s) (lua_time_start s) (aof_on s).

Lemma set_mstime_ok now s : server_ok s -> server_ok (set_mstime now s).
Proof.
  intros [Hn Hdb Hcl Hch Hnd Hps Hpo]. split; try done.
  - intros id d Hd. destruct (Hdb id d Hd). by split.
  - intros c x Hx. destruct (Hcl c x Hx). by split.
Qed.

Lemma set_mstime_good now s : good s -> good (set_mstime now s).
Proof. intros (Hs & Hqs & Hi). split_and!; [by apply set_mstime_ok|done|done]. Qed.

(** A request arrives: its arguments are the client's. *)
Definition receive (c : cid) (l : list bytes) (s : server) : server := client_at c (set_argv l) s.

Lemma receive_good c l s : good s -> alive c s -> good (receive c l s).
Proof.
  intros (Hs & Hqs & Hi) [y Hy]. split_and!; [| |done].
  - eapply client_at_server_ok; [done..|]. by apply (ok_client_db s c y).
  - intros c' x (z & Hz & ->)%client_at_inv. case_decide; apply (Hqs c' z Hz).
Qed.

Section machine.
Context (cfg : config) (freeMemoryIfNeeded : M bool) (handleClientsBlockedOnLists : M unit).
Context (other : bytes -> cid -> M unit).

Inductive step : server -> server -> Prop :=
  | step_connect c s s' : clients s !! c = None -> createClient c s = Some (tt, s') -> step s s'
  | step_request c l b s s' :
      alive c s -> request_ok l ->
      processCommand cfg freeMemoryIfNeeded handleClientsBlockedOnLists other c (receive c l s) = Some (b, s') ->
      step s s'
  | step_disconnect c s s' : alive c s -> freeClient c s = Some (tt, s') -> step s s'
  | step_tick now s : mstime s <= now -> step s (set_mstime now s).

Lemma wp_result {A} (m : M A) Q s a s' : wp m Q s -> m s = Some (a, s') -> Q a s'.
Proof. unfold wp. intros H Hr. by rewrite Hr in H. Qed.

Context `{Hfree : !EvictionSafe freeMemoryIfNeeded}.

Lemma request_good c l s :
  good s -> alive c s -> request_ok l ->
  wp (processCommand cfg freeMemoryIfNeeded handleClientsBlockedOnLists other c) (fun _ s' => good s') (receive c l s).
Proof using Type*.
  intros Hg Ha Hreq. pose proof Ha as [y Hy].
  apply (processCommand_good cfg _ _ _ c (set_argv l y)); [by apply receive_good|by apply client_at_lookup|done].
Qed.

Lemma step_good s s' : step s s' -> good s -> good s'.
Proof using Type*.
  destruct 1 as [c s s' Hc Hrun|c l b s s' Ha Hreq Hrun|c s s' Ha Hrun|now s Hnow]; intros Hg.
  - by apply (wp_result _ _ _ _ _ (createClient_good c s Hg Hc) Hrun).
  - by apply (wp_result _ _ _ _ _ (request_good c l s Hg Ha Hreq) Hrun).
  - by apply (wp_result _ _ _ _ _ (freeClient_good c s Hg Ha) Hrun).
  - by apply set_mstime_good.
Qed.

Lemma steps_good s s' : rtc step s s' -> good s -> good s'.
Proof using Type*. induction 1; [done|]. intros. eauto using step_good. Qed.

End machine.

(** C2: From a server that has just started, every state reached by clients that connect,
    disconnect and send harmless requests for modelled commands satisfies the invariant,
    whatever is evicted: the tables of watched keys, of channels and of patterns agree
    with the lists of the clients, every deadline belongs to a key, what waits in a
    transaction can be executed, and no client is blocked. *)
Theorem reachable_good cfg e handleClientsBlockedOnLists other n notify now aof s :
  0 < Z.of_nat n <= INT32_MAX ->
  rtc (step cfg (freeMemoryIfNeeded e) handleClientsBlockedOnLists other) (init_server n notify now aof) s -> good s.
Proof. intros Hn Hr. by eapply steps_good, init_good; [apply _|..]. Qed.

(** C1: In such a state every harmless request of a connected client for a modelled
    command is processed to its end: no assertion fails, no pattern match reads out of
    bounds, eviction comes to an end, and the state after it satisfies the invariant
    again. *)
Theorem reachable_request cfg e handleClientsBlockedOnLists other n notify now aof s c l :
  0 < Z.of_nat n <= INT32_MAX ->
  rtc (step cfg (freeMemoryIfNeeded e) handleClientsBlockedOnLists other) (init_server n notify now aof) s ->
  alive c s -> request_ok l ->
  exists b s', processCommand cfg (freeMemoryIfNeeded e) handleClientsBlockedOnLists other c (receive c l s) = Some (b, s') /\
    good s'.
Proof.
  intros Hn Hr Ha Hreq. apply wp_run, request_good; [apply _| |done..]. by eapply steps_good, init_good; [apply _|..].
Qed.

(** ** An instance *)

(** Each database and each key uses 100 bytes; two keys too many are there. *)
Definition small_memory : memory :=
  mkMemory 250 REDIS_MAXMEMORY_ALLKEYS_LRU 3 (fun s => 100 * Z.of_nat (total_keys s)) [] 0 0 (fun _ k => zlen k) (fun i => i).

Definition no_eviction : M bool := mret true.
Definition no_blocked : M unit := mret tt.
Definition unknown (name : bytes) (c : cid) : M unit := addReplyError c name.

#[global] Instance no_eviction_safe : EvictionSafe no_eviction.
Proof. intros s Hs. apply wp_ret. by exists s. Qed.

Definition no_config : config := mkConfig None false false None false false false true false.

(** Two clients on two databases. *)
Definition demo : server :=
  set_clients (fun _ => <[1 := new_client]> (<[2 := new_client]> ∅)) (init_server 2 0 1000 false).

Lemma demo_reachable : rtc (step no_config no_eviction no_blocked unknown) (init_server 2 0 1000 false) demo.
Proof.
  eapply rtc_l; [by apply (step_connect _ _ _ _ 2)|].
  eapply rtc_l; [by apply (step_connect _ _ _ _ 1)|]. apply rtc_refl.
Qed.

(** A server that evicts: three keys are set, and one of them is gone. *)
Definition memory_config : config := mkConfig None true false None false false false true false.
Definition evicting (c : cid) (l : list bytes) (s : server) : option (bool * server) :=
  processCommand memory_config (freeMemoryIfNeeded small_memory) no_blocked unknown c (receive c l s).
Definition state_of (r : option (bool * server)) : server := match r with Some (_, s) => s | None => init_server 1 0 0 false end.

Definition set_key (k : string) (s : server) : server := state_of (evicting 1 [zs "set"; zs k; zs "12"] s).
Definition demo_full : server := set_key "c" (set_key "bb" (set_key "aaa" demo)).

Lemma demo_evicting_reachable : rtc (step memory_config (freeMemoryIfNeeded small_memory) no_blocked unknown) (init_server 2 0 1000 false) demo.
Proof.
  eapply rtc_l; [by apply (step_connect _ _ _ _ 2)|].
  eapply rtc_l; [by apply (step_connect _ _ _ _ 1)|]. apply rtc_refl.
Qed.

Lemma demo_set_step k s :
  alive 1 s -> (exists b, evicting 1 [zs "set"; zs k; zs "12"] s = Some (b, set_key k s)) ->
  step memory_config (freeMemoryIfNeeded small_memory) no_blocked unknown s (set_key k s).
Proof.
  intros Ha [b Hr]. apply (step_request _ _ _ _ 1 [zs "set"; zs k; zs "12"] b); [done| |exact Hr].
  split; [done|]. intros a cmd [= <-] [= <-]. done.
Qed.

Lemma demo_full_reachable : rtc (step memory_config (freeMemoryIfNeeded small_memory) no_blocked unknown) (init_server 2 0 1000 false) demo_full.
Proof.
  etrans; [apply demo_evicting_reachable|].
  do 3 (eapply rtc_r; [|apply demo_set_step; eexists; vm_compute; reflexivity]). apply rtc_refl.
Qed.

Example demo_full_evicts :
  total_keys demo_full = 3%nat /\ key_of (state_of (evicting 1 [zs "get"; zs "c"] demo_full)) 0 (zs "aaa") = None /\
  key_of (state_of (evicting 1 [zs "get"; zs "c"] demo_full)) 0 (zs "c") <> None.
Proof. vm_compute. done. Qed.

Lemma reachable_good_witness : good demo_full.
Proof.
  apply (reachable_good memory_config small_memory no_blocked unknown 2 0 1000 false); [done|apply demo_full_reachable].
Defined.

Lemma reachable_request_witness :
  exists b s', processCommand memory_config (freeMemoryIfNeeded small_memory) no_blocked unknown 1
    (receive 1 [zs "set"; zs "key"; zs "12"] demo_full) = Some (b, s') /\ good s'.
Proof.
  apply (reachable_request memory_config small_memory no_blocked unknown 2 0 1000 false demo_full).
  - done.
  - apply demo_full_reachable.
  - eexists. vm_compute. reflexivity.
  - split; [done|]. intros a cmd [= <-] [= <-]. done.
Defined.

(** What a request leads to. *)
Definition after (c : cid) (l : list bytes) (s : server) : server :=
  match processCommand no_config no_eviction no_blocked unknown c (receive c l s) with Some (_, s') => s' | None => s end.

Lemma after_good c l s : good s -> alive c s -> request_ok l -> good (after c l s).
Proof.
  intros Hs Ha Hl. unfold after.
  pose proof (request_good no_config no_eviction no_blocked unknown c l s Hs Ha Hl) as H.
  unfold wp in H. by destruct (processCommand _ _ _ _ _ _) as [[? ?]|].
Qed.

Lemma after_simple s c l : good s -> alive c s -> l <> [] ->
  (forall a cmd, rd l 0 = Some a -> lookupCommand a = Some cmd -> harmless (proc cmd) l) -> good (after c l s).
Proof. intros Hs Ha Hl Hh. by apply after_good. Qed.

Definition client_of (s : server) (c : cid) : client := default new_client (clients s !! c).

Lemma demo_good : good demo.
Proof.
  apply (steps_good no_config no_eviction no_blocked unknown _ _ demo_reachable). by apply init_good.
Qed.
