(* ===== verification/RequestSpec.v ===== *)
(** * Requests are read back as they were written

    The parser of the multi bulk format against the writer of aof.c: a request is
    read back exactly, in one piece or in any pieces, and a pipeline of requests is
    executed one by one. *)
From S2P Require Import Prelude Util Object Server Exec Request Reach.
From S2P Require Sds.
Open Scope Z_scope.

(** Appends to the right, without their heads. *)
Ltac app_norm := cbn [app]; repeat (rewrite <- app_assoc; cbn [app]); try done.

(** ** Characters *)

Lemma strchr_bound c l i : strchr c l = Some i -> 0 <= i < zlen l.
Proof.
  revert i. induction l as [|x l IH]; intros i; simpl; [done|]. rewrite zlen_cons.
  destruct (x =? c); [intros [= <-]; pose proof (zlen_nonneg l); lia|]. destruct (x =? 0); [done|].
  destruct (strchr c l) as [j|]; [|done]. intros [= <-]. specialize (IH j eq_refl). lia.
Qed.

Lemma strchr_app c l k i : strchr c l = Some i -> strchr c (l ++ k) = Some i.
Proof.
  revert i. induction l as [|x l IH]; intros i; simpl; [done|]. destruct (x =? c); [done|]. destruct (x =? 0); [done|].
  destruct (strchr c l) as [j|]; [|done]. intros [= <-]. by rewrite (IH j).
Qed.

Lemma strchr_here c l k : c <> 0 -> Forall (fun x => x <> c /\ x <> 0) l -> strchr c (l ++ c :: k) = Some (zlen l).
Proof.
  intros Hc Hl. induction Hl as [|x l [Hx Hx0] _ IH]; simpl; [by rewrite Z.eqb_refl|].
  destruct (Z.eqb_spec x c); [done|]. destruct (Z.eqb_spec x 0); [done|]. rewrite IH, zlen_cons. simpl. f_equal. lia.
Qed.

Lemma piece_mid a b k i n : i = zlen a -> n = zlen b -> piece (a ++ b ++ k) i n = b.
Proof.
  intros -> ->. unfold piece, zlen. rewrite !Nat2Z.id, drop_app_length, take_app_length. done.
Qed.

Lemma piece_app q k i n : 0 <= i -> 0 <= n -> i + n <= zlen q -> piece (q ++ k) i n = piece q i n.
Proof.
  intros Hi Hn Hl. unfold piece, zlen in *. rewrite drop_app_le by lia. rewrite take_app_le; [done|].
  rewrite length_drop. lia.
Qed.

Lemma zlen_piece q i n : 0 <= i -> 0 <= n -> i + n <= zlen q -> zlen (piece q i n) = n.
Proof. intros. unfold piece, zlen in *. rewrite length_take, length_drop. lia. Qed.

Lemma sds_from_app pos q k : 0 <= pos <= zlen q -> sds_from pos (q ++ k) = sds_from pos q ++ k.
Proof. intros. unfold sds_from, zlen in *. rewrite drop_app_le by lia. done. Qed.

Lemma sds_from_from a b q : 0 <= a -> 0 <= b -> sds_from b (sds_from a q) = sds_from (a + b) q.
Proof. intros. unfold sds_from. rewrite drop_drop. f_equal. lia. Qed.

Lemma sds_from_0 q : sds_from 0 q = q.
Proof. done. Qed.

Lemma zlen_from pos q : 0 <= pos <= zlen q -> zlen (sds_from pos q) = zlen q - pos.
Proof. intros. unfold sds_from, zlen in *. rewrite length_drop. lia. Qed.

Lemma piece_from q pos i n : 0 <= pos -> 0 <= i -> piece (sds_from pos q) i n = piece q (pos + i) n.
Proof. intros. unfold piece, sds_from. rewrite drop_drop. do 2 f_equal. lia. Qed.

Lemma from_mid a k pos : pos = zlen a -> sds_from pos (a ++ k) = k.
Proof. intros ->. unfold sds_from, zlen. by rewrite Nat2Z.id, drop_app_length. Qed.

(** ** The writer *)

Lemma numeral_no_cr ds n : numeral ds n -> Forall (fun x => x <> 13 /\ x <> 0) ds.
Proof. intros (_ & Hd & _). eapply Forall_impl; [exact Hd|]. simpl. intros. lia. Qed.

Lemma nonneg_numeral ds n : 0 <= n -> signed_numeral ds n -> numeral ds n.
Proof. intros Hn [[_ H]|[? _]]; [done|lia]. Qed.

Lemma count_line_ok letter n :
  0 <= n <= LLONG_MAX -> exists ds, count_line letter n = Some (letter :: ds ++ [13; 10]) /\ numeral ds n.
Proof.
  intros Hn. assert (sfits 64 n) as Hf by (unfold sfits, LLONG_MAX in *; lia).
  destruct (ll2string_ok (replicate 31 0) 31 n Hf eq_refl) as (ds & Hs & Hrun).
  pose proof (signed_numeral_len ds n Hf Hs) as Hl. destruct (Z.ltb_spec (zlen ds) 31); [|lia].
  exists ds. split; [|apply nonneg_numeral; [lia|done]]. unfold count_line.
  change (replicate 32 0) with (0 :: replicate 31 0). rewrite wr_head. cbn [mbind option_bind drop take].
  rewrite drop_0, take_0, Hrun. cbn [mbind option_bind app].
  set (k := drop (S (length ds)) (replicate 31 0)).
  assert (exists y k', k = y :: k') as (y & k' & Hk).
  { destruct k as [|y k'] eqn:Hk; [|eauto]. apply (f_equal (@length Z)) in Hk. unfold k in Hk.
    rewrite length_drop, length_replicate in Hk. unfold zlen in Hl. simpl in Hk. lia. }
  rewrite Hk. change (letter :: ds ++ 0 :: y :: k') with ((letter :: ds) ++ 0 :: y :: k').
  rewrite wr_here by (rewrite zlen_cons; lia). cbn [mbind option_bind].
  replace ((letter :: ds) ++ 13 :: y :: k') with ((letter :: ds ++ [13]) ++ y :: k') by (simpl; by rewrite <- app_assoc).
  rewrite wr_here by (rewrite zlen_cons, zlen_app; change (zlen [13]) with 1; lia). cbn [mbind option_bind].
  apply (rd_block_mid [] (letter :: ds ++ [13; 10]) k').
  - simpl. by rewrite <- !app_assoc.
  - done.
  - rewrite zlen_cons, zlen_app. change (zlen [13; 10]) with 2. lia.
Qed.

(** The format. *)
Inductive encodes_args : bytes -> list bytes -> Prop :=
  | encodes_nil : encodes_args [] []
  | encodes_cons ds o b l : numeral ds (zlen o) -> encodes_args b l ->
      encodes_args (36 :: ds ++ [13; 10] ++ o ++ [13; 10] ++ b) (o :: l).

Definition encodes (b : bytes) (l : list bytes) : Prop :=
  exists ds body, b = 42 :: ds ++ [13; 10] ++ body /\ numeral ds (zlen l) /\ encodes_args body l.

(** What the protocol admits. *)
Definition request_fits (l : list bytes) : Prop :=
  l <> [] /\ zlen l <= 1024 * 1024 /\ Forall (fun o => zlen o <= 512 * 1024 * 1024) l.

Lemma cat_args_ok l :
  Forall (fun o => zlen o <= 512 * 1024 * 1024) l -> exists b, cat_args l = Some b /\ encodes_args b l.
Proof.
  induction 1 as [|o l Ho _ (b & Hb & He)]; [exists []; split; [done|constructor]|].
  destruct (count_line_ok 36 (zlen o)) as (ds & Hc & Hn); [pose proof (zlen_nonneg o); unfold LLONG_MAX; lia|].
  cbn [cat_args]. rewrite Hc, Hb. cbn [mbind option_bind]. eexists. split; [done|].
  replace ((36 :: ds ++ [13; 10]) ++ o ++ [13; 10] ++ b) with (36 :: ds ++ [13; 10] ++ o ++ [13; 10] ++ b)
    by (simpl; by rewrite <- app_assoc). by constructor.
Qed.

Lemma catAppend_ok dst l :
  request_fits l -> exists b, catAppendOnlyGenericCommand dst l = Some (dst ++ b) /\ encodes b l.
Proof.
  intros (_ & Hl & Hf). destruct (cat_args_ok l Hf) as (b & Hb & He).
  destruct (count_line_ok 42 (zlen l)) as (ds & Hc & Hn); [pose proof (zlen_nonneg l); unfold LLONG_MAX; lia|].
  unfold catAppendOnlyGenericCommand. rewrite Hc, Hb. cbn [mbind option_bind].
  exists (42 :: ds ++ [13; 10] ++ b). split; [simpl; by rewrite <- app_assoc|]. by exists ds, b.
Qed.

(** ** The reader, from the front of the buffer *)

Definition trim (p : outcome * reader * Z) : outcome * reader :=
  let '(o, r, pos) := p in (o, set_querybuf (sds_from pos (querybuf r)) r).

(** The length of an argument at the front of the buffer. *)
Definition front_header (r : reader) : option ((outcome * reader) + reader) :=
  match strchr 13 (querybuf r) with
  | None => Some (inl (More, r))
  | Some i =>
      if i >? zlen (querybuf r) - 2 then Some (inl (More, r))
      else
        first ← rd (querybuf r) 0;
        if negb (first =? 36) then
          Some (inl (ProtocolError (no_newline (zs "Protocol error: expected '$', got '" ++ [first] ++ zs "'")), r))
        else
          ok ← string2ll (piece (querybuf r) 1 (i - 1)) (i - 1);
          match ok with
          | Some ll =>
              if (ll <? 0) || (ll >? 512 * 1024 * 1024) then
                Some (inl (ProtocolError (zs "Protocol error: invalid bulk length"), r))
              else Some (inr (set_bulklen ll (set_querybuf (sds_from (i + 2) (querybuf r)) r)))
          | None => Some (inl (ProtocolError (zs "Protocol error: invalid bulk length"), r))
          end
  end.

Definition front_argument (r : reader) : reader :=
  mkReader (sds_from (bulklen r + 2) (querybuf r)) (reqtype r) (multibulklen r - 1) (-1)
    (args r ++ [piece (querybuf r) 0 (bulklen r)]).

(** The loop that takes what it has read off the buffer at once. *)
Fixpoint front_loop (n : nat) (r : reader) : option (outcome * reader) :=
  match n with
  | O => Some (Ready, r)
  | S n =>
      b ← (if bulklen r =? -1 then front_header r else Some (inr r));
      match b with
      | inl stop => Some stop
      | inr r => if zlen (querybuf r) <? bulklen r + 2 then Some (More, r) else front_loop n (front_argument r)
      end
  end.

(** Whether the length check on a line that does not end cannot fire. *)
Definition no_overflow (r : reader) (p : option (outcome * reader)) : Prop :=
  zlen (querybuf r) <= REDIS_INLINE_MAX_SIZE \/ exists r', p = Some (Ready, r').

Lemma reader_eta r : mkReader (querybuf r) (reqtype r) (multibulklen r) (bulklen r) (args r) = r.
Proof. by destruct r. Qed.

(** The reader that starts at [pos]. *)
Definition at_pos (r : reader) (pos : Z) : reader := set_querybuf (sds_from pos (querybuf r)) r.

Lemma rd_from q pos : 0 <= pos -> rd (sds_from pos q) 0 = rd q pos.
Proof.
  intros Hp. unfold rd, sds_from. destruct (Z.leb_spec 0 pos); [|lia]. cbn [Z.leb Z.compare]. rewrite lookup_drop. f_equal.
  simpl. lia.
Qed.

(** One length line: in place, and from the front. *)
Lemma header_front r pos :
  0 <= pos <= zlen (querybuf r) -> zlen (querybuf r) <= REDIS_INLINE_MAX_SIZE \/ strchr 13 (sds_from pos (querybuf r)) <> None ->
  match mb_bulk_header r pos, front_header (at_pos r pos) with
  | None, None => True
  | Some (inl p), Some (inl q) => trim p = q
  | Some (inr (r', pos')), Some (inr q) =>
      at_pos r' pos' = q /\ 0 <= pos' <= zlen (querybuf r') /\ zlen (querybuf r') <= zlen (querybuf r)
  | _, _ => False
  end.
Proof.
  intros Hpos Hov. unfold mb_bulk_header, front_header, at_pos. cbn [querybuf set_querybuf].
  destruct (strchr 13 (sds_from pos (querybuf r))) as [i|] eqn:Hi.
  - pose proof (strchr_bound _ _ _ Hi) as Hb. rewrite zlen_from in * by done.
    replace (i >? zlen (querybuf r) - pos - 2) with (pos + i >? zlen (querybuf r) - 2)
      by (destruct (Z.gtb_spec (pos + i) (zlen (querybuf r) - 2)), (Z.gtb_spec i (zlen (querybuf r) - pos - 2)); done || lia).
    destruct (Z.gtb_spec (pos + i) (zlen (querybuf r) - 2)); [done|]. rewrite rd_from by lia.
    destruct (rd (querybuf r) pos) as [first|]; [|done]. cbn [mbind option_bind].
    destruct (negb (first =? 36)); [done|]. rewrite piece_from by lia.
    destruct (string2ll _ _) as [[ll|]|]; [|done|done]. cbn [mbind option_bind].
    destruct (_ || _); [done|]. rewrite sds_from_from by lia. replace (pos + (i + 2)) with (pos + i + 2) by lia.
    destruct (ll >=? REDIS_MBULK_BIG_ARG).
    + cbn [querybuf set_querybuf set_bulklen]. rewrite zlen_from by lia. split; [done|]. lia.
    + cbn [querybuf set_querybuf set_bulklen]. split; [done|]. lia.
  - destruct Hov as [Hle|]; [|done]. destruct (Z.gtb_spec (zlen (querybuf r)) REDIS_INLINE_MAX_SIZE); [lia|done].
Qed.

Lemma argument_front r pos :
  0 <= bulklen r -> 0 <= pos -> pos + bulklen r + 2 <= zlen (querybuf r) ->
  let '(r', pos') := mb_argument r pos in
  at_pos r' pos' = front_argument (at_pos r pos) /\ 0 <= pos' <= zlen (querybuf r') /\
  zlen (querybuf r') <= zlen (querybuf r).
Proof.
  intros Hb Hp Hl. unfold mb_argument, front_argument, at_pos.
  destruct (Z.eqb_spec pos 0) as [->|]; cbn [andb];
    [destruct (bulklen r >=? REDIS_MBULK_BIG_ARG); cbn [andb];
     [destruct (Z.eqb_spec (zlen (querybuf r)) (bulklen r + 2)) as [Heq|]|]|].
  - cbn [querybuf set_querybuf reqtype multibulklen bulklen args]. rewrite !sds_from_0.
    change (zlen (@nil Z)) with 0. split; [|lia].
    assert (sds_from (bulklen r + 2) (querybuf r) = []) as ->
      by (apply zlen_zero; rewrite zlen_from; lia). unfold set_querybuf. simpl. by replace (zlen (querybuf r) - 2) with (bulklen r) by lia.
  - cbn [querybuf set_querybuf reqtype multibulklen bulklen args]. rewrite sds_from_0. split; [done|lia].
  - cbn [querybuf set_querybuf reqtype multibulklen bulklen args]. rewrite sds_from_0. split; [done|lia].
  - cbn [querybuf set_querybuf reqtype multibulklen bulklen args]. rewrite sds_from_from, piece_from by lia.
    unfold set_querybuf. cbn [querybuf reqtype multibulklen bulklen args].
    replace (pos + (bulklen r + 2)) with (pos + bulklen r + 2) by lia. replace (pos + 0) with pos by lia. split; [done|lia].
Qed.

Lemma loop_front n : forall r pos,
  -1 <= bulklen r -> 0 <= pos <= zlen (querybuf r) -> no_overflow r (front_loop n (at_pos r pos)) ->
  trim <$> mb_loop n r pos = front_loop n (at_pos r pos).
Proof.
  induction n as [|n IH]; intros r pos Hb Hpos Hov; [done|]. cbn [mb_loop front_loop] in *.
  change (bulklen (at_pos r pos)) with (bulklen r) in *.
  assert (forall r pos, 0 <= bulklen r -> 0 <= pos <= zlen (querybuf r) ->
    no_overflow r (if zlen (querybuf (at_pos r pos)) <? bulklen r + 2 then Some (More, at_pos r pos)
                   else front_loop n (front_argument (at_pos r pos))) ->
    trim <$> (if zlen (querybuf r) - pos <? bulklen r + 2 then Some (More, r, pos)
              else let '(r, pos) := mb_argument r pos in mb_loop n r pos) =
    (if zlen (querybuf (at_pos r pos)) <? bulklen r + 2 then Some (More, at_pos r pos)
     else front_loop n (front_argument (at_pos r pos)))) as Harg.
  { clear r pos Hb Hpos Hov. intros r pos Hb Hpos Hov. unfold at_pos at 1 in Hov. unfold at_pos at 1.
    cbn [querybuf set_querybuf] in *. rewrite zlen_from in * by done.
    destruct (Z.ltb_spec (zlen (querybuf r) - pos) (bulklen r + 2)); [done|].
    pose proof (argument_front r pos Hb) as Ha. destruct (mb_argument r pos) as [r' pos'].
    destruct Ha as (Heq & Hpos' & Hlen); [lia|lia|]. rewrite <- Heq in *. apply IH; [|done|].
    - change (-1 <= bulklen (at_pos r' pos')). rewrite Heq. simpl. lia.
    - destruct Hov as [?|?]; [left; lia|by right]. }
  destruct (Z.eqb_spec (bulklen r) (-1)) as [Hm1|Hm1]; [|cbn [mbind option_bind] in *; apply (Harg r pos); [lia|done|exact Hov]].
  pose proof (header_front r pos Hpos) as Hh.
  assert (zlen (querybuf r) <= REDIS_INLINE_MAX_SIZE \/ strchr 13 (sds_from pos (querybuf r)) <> None) as Hor.
  { destruct (strchr 13 (sds_from pos (querybuf r))) eqn:Hi; [by right|]. left. destruct Hov as [|[r' Hov]]; [done|].
    unfold front_header, at_pos in Hov. cbn [querybuf set_querybuf] in Hov. by rewrite Hi in Hov. }
  specialize (Hh Hor). destruct (mb_bulk_header r pos) as [[p|[r' pos']]|], (front_header (at_pos r pos)) as [[q|q]|] eqn:Hfh;
    try done; cbn [mbind option_bind] in *; [by rewrite <- Hh|].
  destruct Hh as (<- & Hpos' & Hlen).
  assert (0 <= bulklen r') as Hb'.
  { unfold front_header in Hfh. destruct (strchr _ _); [|done]. destruct (_ >? _); [done|]. destruct (rd _ _); [|done].
    cbn [mbind option_bind] in Hfh. destruct (negb _); [done|]. destruct (string2ll _ _) as [[ll|]|]; [|done|done].
    cbn [mbind option_bind] in Hfh. destruct (Z.ltb_spec ll 0); [done|]. destruct (_ || _); [done|].
    apply (f_equal (fun o => match o with Some (inr q) => bulklen q | _ => 0 end)) in Hfh. simpl in Hfh. lia. }
  change (bulklen (at_pos r' pos')) with (bulklen r') in *. apply (Harg r' pos'); [done|done|].
  destruct Hov as [?|?]; [left; lia|by right].
Qed.

(** ** Reading what was written *)

Lemma string2ll_numeral ds n : 0 <= n <= LLONG_MAX -> numeral ds n -> string2ll ds (zlen ds) = Some (Some n).
Proof.
  intros Hn Hd. destruct (string2ll_ok ds) as (r & Hr & Hiff). rewrite Hr. f_equal. apply Hiff.
  split; [unfold sfits, LLONG_MAX in *; lia|]. left. split; [lia|done].
Qed.

Lemma front_encodes b l : encodes_args b l -> forall r rest,
  Forall (fun o => zlen o <= 512 * 1024 * 1024) l -> querybuf r = b ++ rest -> bulklen r = -1 ->
  front_loop (length l) r = Some (Ready, mkReader rest (reqtype r) (multibulklen r - zlen l) (-1) (args r ++ l)).
Proof.
  induction 1 as [|ds o b l Hn _ IH]; intros r rest Hf Hq Hb.
  { simpl in Hq. cbn [length front_loop]. rewrite <- Hq, app_nil_r, <- Hb. change (zlen (@nil bytes)) with 0.
    by rewrite Z.sub_0_r, reader_eta. }
  apply Forall_cons in Hf as [Ho Hf]. cbn [length front_loop]. rewrite Hb. cbn [Z.eqb Pos.eqb].
  set (tail := o ++ [13; 10] ++ b ++ rest).
  assert (querybuf r = (36 :: ds) ++ 13 :: 10 :: tail) as Hq'
    by (rewrite Hq; unfold tail; app_norm).
  pose proof (zlen_nonneg o) as Ho0. pose proof (zlen_nonneg tail) as Ht0.
  assert (front_header r = Some (inr (set_bulklen (zlen o) (set_querybuf tail r)))) as ->.
  { unfold front_header. rewrite Hq', strchr_here; [|done|].
    2: { constructor; [lia|]. by eapply numeral_no_cr. }
    rewrite zlen_app, !zlen_cons. destruct (Z.gtb_spec (1 + zlen ds) (1 + zlen ds + (1 + (1 + zlen tail)) - 2)); [lia|].
    cbn [app]. change (rd (36 :: ds ++ 13 :: 10 :: tail) 0) with (Some 36). cbn [mbind option_bind]. cbn [Z.eqb Pos.eqb negb].
    change (36 :: ds ++ 13 :: 10 :: tail) with ([36] ++ ds ++ 13 :: 10 :: tail).
    rewrite piece_mid by (done || lia). replace (1 + zlen ds - 1) with (zlen ds) by lia.
    rewrite (string2ll_numeral ds (zlen o)) by (done || unfold LLONG_MAX; lia). cbn [mbind option_bind].
    destruct (Z.ltb_spec (zlen o) 0); [lia|]. destruct (Z.gtb_spec (zlen o) (512 * 1024 * 1024)); [lia|]. cbn [orb].
    replace ([36] ++ ds ++ 13 :: 10 :: tail) with ((36 :: ds ++ [13; 10]) ++ tail) by app_norm.
    rewrite from_mid; [done|]. rewrite zlen_cons, zlen_app. change (zlen [13; 10]) with 2. lia. }
  cbn [mbind option_bind querybuf set_querybuf set_bulklen bulklen].
  assert (zlen tail = zlen o + 2 + zlen (b ++ rest)) as Hlt
    by (unfold tail; rewrite !zlen_app; change (zlen [13; 10]) with 2; lia).
  pose proof (zlen_nonneg (b ++ rest)). destruct (Z.ltb_spec (zlen tail) (zlen o + 2)); [lia|].
  unfold front_argument. cbn [querybuf set_querybuf set_bulklen bulklen reqtype multibulklen args].
  assert (tail = [] ++ o ++ [13; 10] ++ b ++ rest) as Htl by done. rewrite Htl, piece_mid by done. cbn [app].
  replace (o ++ 13 :: 10 :: b ++ rest) with ((o ++ [13; 10]) ++ b ++ rest) by app_norm.
  rewrite from_mid by (rewrite zlen_app; done).
  rewrite (IH _ rest Hf) by done. cbn [reqtype multibulklen args]. rewrite <- app_assoc, zlen_cons.
  do 3 f_equal. lia.
Qed.

(** The header line. *)
Lemma header_encodes ds n body rest t :
  0 < n <= 1024 * 1024 -> numeral ds n ->
  mb_header (mkReader (42 :: ds ++ [13; 10] ++ body ++ rest) t 0 (-1) []) =
    Some (inr (mkReader (42 :: ds ++ [13; 10] ++ body ++ rest) t n (-1) [], zlen ds + 3)).
Proof.
  intros Hn Hd. unfold mb_header. cbn [args querybuf reqtype bulklen]. rewrite bool_decide_true by done. cbn [negb].
  change (42 :: ds ++ [13; 10] ++ body ++ rest) with ((42 :: ds) ++ 13 :: 10 :: body ++ rest) at 1.
  rewrite strchr_here; [|done|].
  2: { constructor; [lia|]. by eapply numeral_no_cr. }
  pose proof (zlen_nonneg (body ++ rest)).
  rewrite !zlen_cons, zlen_app. change ([13; 10] ++ body ++ rest) with (13 :: 10 :: body ++ rest). rewrite !zlen_cons.
  destruct (Z.gtb_spec (1 + zlen ds) (1 + (zlen ds + (1 + (1 + zlen (body ++ rest)))) - 2)); [lia|].
  cbn [head]. rewrite bool_decide_true by done. cbn [negb].
  assert (piece (42 :: ds ++ 13 :: 10 :: body ++ rest) 1 (1 + zlen ds - 1) = ds) as ->
    by (apply (piece_mid [42] ds (13 :: 10 :: body ++ rest)); [done|lia]). replace (1 + zlen ds - 1) with (zlen ds) by lia.
  rewrite (string2ll_numeral ds n) by (done || unfold LLONG_MAX; lia). cbn [mbind option_bind].
  destruct (Z.gtb_spec n (1024 * 1024)); [lia|]. destruct (Z.leb_spec n 0); [lia|]. do 3 f_equal. lia.
Qed.

Lemma read_written b l rest t :
  encodes b l -> request_fits l ->
  processMultibulkBuffer (mkReader (b ++ rest) t 0 (-1) []) = Some (Ready, mkReader rest t 0 (-1) l).
Proof.
  intros (ds & body & -> & Hd & He) (Hne & Hl & Hf).
  assert (0 < zlen l) as Hpos by (destruct l as [|o l']; [done|rewrite zlen_cons; pose proof (zlen_nonneg l'); lia]).
  replace ((42 :: ds ++ [13; 10] ++ body) ++ rest) with (42 :: ds ++ [13; 10] ++ body ++ rest)
    by app_norm.
  unfold processMultibulkBuffer. cbn [multibulklen Z.eqb]. rewrite (header_encodes ds (zlen l)) by (done || lia). cbn [mbind option_bind].
  set (r := mkReader _ t (zlen l) (-1) []). cbn [multibulklen]. change (multibulklen r) with (zlen l).
  destruct (Z.gtb_spec (zlen l) 0); [cbn [negb]|lia].
  assert (at_pos r (zlen ds + 3) = mkReader (body ++ rest) t (zlen l) (-1) []) as Hat.
  { unfold at_pos, set_querybuf, r. cbn [querybuf reqtype multibulklen bulklen args]. f_equal.
    replace (42 :: ds ++ [13; 10] ++ body ++ rest) with ((42 :: ds ++ [13; 10]) ++ body ++ rest) by app_norm.
    apply from_mid. rewrite zlen_cons, zlen_app. change (zlen [13; 10]) with 2. lia. }
  pose proof (front_encodes body l He (at_pos r (zlen ds + 3)) rest Hf) as Hfront. rewrite Hat in Hfront.
  cbn [querybuf bulklen reqtype multibulklen args] in Hfront. rewrite Z.sub_diag in Hfront. specialize (Hfront eq_refl eq_refl).
  replace (Z.to_nat (zlen l)) with (length l) by (unfold zlen; lia).
  assert (trim <$> mb_loop (length l) r (zlen ds + 3) = Some (Ready, mkReader rest t 0 (-1) l)) as Hloop.
  { rewrite loop_front; rewrite ?Hat, ?Hfront; [done|done| |right; eauto]. pose proof (zlen_nonneg ds). split; [lia|].
    unfold r. cbn [querybuf]. rewrite zlen_cons, !zlen_app. change (zlen [13; 10]) with 2.
    pose proof (zlen_nonneg body). pose proof (zlen_nonneg rest). lia. }
  by destruct (mb_loop (length l) r (zlen ds + 3)) as [[[o r'] pos']|].
Qed.

(** C7: A request written by [catAppendOnlyGenericCommand] is read back exactly: the
    same arguments, whatever bytes they hold, and whatever follows stays in the
    buffer; the writer stays in its 32-byte buffer and the reader in the query
    buffer. *)
Theorem request_roundtrip l rest :
  request_fits l ->
  exists b, catAppendOnlyGenericCommand [] l = Some b /\
    processMultibulkBuffer (fresh (b ++ rest)) = Some (Ready, mkReader rest None 0 (-1) l).
Proof.
  intros Hl. destruct (catAppend_ok [] l Hl) as (b & Hb & He). exists b. split; [done|]. by apply read_written.
Qed.

(** ** Requests in pieces *)

Lemma strchr_hit c l i : strchr c l = Some i -> rd l i = Some c.
Proof.
  revert i. induction l as [|x l IH]; intros i; simpl; [done|].
  destruct (Z.eqb_spec x c) as [->|]; [by intros [= <-]|]. destruct (x =? 0); [done|].
  destruct (strchr c l) as [j|] eqn:Hj; [|done]. intros [= <-]. pose proof (strchr_bound _ _ _ Hj).
  specialize (IH j eq_refl). unfold rd in *. destruct (Z.leb_spec 0 j); [|lia]. destruct (Z.leb_spec 0 (j + 1)); [|lia].
  replace (Z.to_nat (j + 1)) with (S (Z.to_nat j)) by lia. done.
Qed.

Lemma header_received r b r' :
  front_header r = Some (inr r') ->
  front_header (received b r) = Some (inr (received b r')) /\ 0 <= bulklen r' /\
  zlen (querybuf r') <= zlen (querybuf r) /\ multibulklen r' = multibulklen r.
Proof.
  unfold front_header, received. cbn [querybuf set_querybuf]. destruct (strchr 13 (querybuf r)) as [i|] eqn:Hi; [|done].
  rewrite (strchr_app _ _ b _ Hi). pose proof (strchr_bound _ _ _ Hi) as Hb. rewrite zlen_app. pose proof (zlen_nonneg b).
  destruct (Z.gtb_spec i (zlen (querybuf r) - 2)); [done|].
  destruct (Z.gtb_spec i (zlen (querybuf r) + zlen b - 2)); [lia|].
  rewrite rd_app_l by lia. destruct (rd (querybuf r) 0) as [first|] eqn:Hrd; [|done]. cbn [mbind option_bind].
  destruct (Z.eqb_spec first 36) as [->|]; [|done]. cbn [negb].
  assert (i <> 0) by (intros ->; apply strchr_hit in Hi; congruence). rewrite piece_app by lia.
  destruct (string2ll _ _) as [[ll|]|]; [|done|done]. cbn [mbind option_bind]. destruct (Z.ltb_spec ll 0); [done|].
  destruct (_ || _); [done|]. intros [= <-]. cbn [querybuf set_querybuf set_bulklen bulklen multibulklen].
  rewrite sds_from_app, zlen_from by lia. repeat split; lia.
Qed.

Lemma argument_received r b :
  0 <= bulklen r -> bulklen r + 2 <= zlen (querybuf r) ->
  front_argument (received b r) = received b (front_argument r) /\
  zlen (querybuf (front_argument r)) <= zlen (querybuf r).
Proof.
  intros Hb Hl. unfold front_argument, received, set_querybuf. cbn [querybuf reqtype multibulklen bulklen args].
  rewrite sds_from_app, piece_app, zlen_from by lia. split; [done|lia].
Qed.

(** Where the loop stopped for want of data it goes on when the data is there. *)
Lemma front_resume b r1 n : forall r,
  -1 <= bulklen r -> multibulklen r = Z.of_nat n -> front_loop n r = Some (More, r1) ->
  front_loop n (received b r) = front_loop (Z.to_nat (multibulklen r1)) (received b r1) /\
  -1 <= bulklen r1 /\ 0 < multibulklen r1 /\ zlen (querybuf r1) <= zlen (querybuf r).
Proof.
  induction n as [|n IH]; intros r Hb Hm Hrun; [done|].
  assert (forall r0, 0 <= bulklen r0 -> multibulklen r0 = Z.of_nat (S n) ->
    (if zlen (querybuf r0) <? bulklen r0 + 2 then Some (More, r0) else front_loop n (front_argument r0)) = Some (More, r1) ->
    (if zlen (querybuf (received b r0)) <? bulklen r0 + 2 then Some (More, received b r0)
     else front_loop n (front_argument (received b r0))) = front_loop (Z.to_nat (multibulklen r1)) (received b r1) /\
    -1 <= bulklen r1 /\ 0 < multibulklen r1 /\ zlen (querybuf r1) <= zlen (querybuf r0)) as Harg.
  { clear r Hb Hm Hrun. intros r Hb Hm. destruct (Z.ltb_spec (zlen (querybuf r)) (bulklen r + 2)) as [Hlt|Hge].
    - intros [= <-]. split; [|lia]. rewrite Hm, Nat2Z.id. cbn [front_loop].
      change (bulklen (received b r)) with (bulklen r). destruct (Z.eqb_spec (bulklen r) (-1)); [lia|done].
    - intros Hrun. destruct (argument_received r b Hb) as [Heq Hlen]; [lia|]. rewrite Heq.
      unfold received at 1. cbn [querybuf set_querybuf]. rewrite zlen_app. pose proof (zlen_nonneg b).
      destruct (Z.ltb_spec (zlen (querybuf r) + zlen b) (bulklen r + 2)); [lia|].
      destruct (IH (front_argument r)) as (H1 & H2 & H3 & H4); [simpl; lia|simpl; lia|done|]. repeat split; [done|lia..]. }
  cbn [front_loop] in Hrun |- *. change (bulklen (received b r)) with (bulklen r).
  destruct (Z.eqb_spec (bulklen r) (-1)) as [Hm1|]; [|cbn [mbind option_bind] in *; apply (Harg r); [lia|done|done]].
  destruct (front_header r) as [[[o r0]|r0]|] eqn:Hh; [| |done].
  - cbn [mbind option_bind] in Hrun. injection Hrun as -> <-.
    assert (r0 = r) as ->.
    { unfold front_header in Hh. destruct (strchr _ _); [|congruence]. destruct (_ >? _); [congruence|]. destruct (rd _ _); [|done].
      cbn [mbind option_bind] in Hh. destruct (negb _); [done|]. destruct (string2ll _ _) as [[ll|]|]; [|done|done].
      cbn [mbind option_bind] in Hh. by destruct (_ || _). }
    rewrite Hm, Nat2Z.id. cbn [front_loop]. change (bulklen (received b r)) with (bulklen r). rewrite Hm1.
    split; [done|]. lia.
  - destruct (header_received r b r0 Hh) as (Hh' & Hb0 & Hlen & Hmul). rewrite Hh'. cbn [mbind option_bind] in *.
    destruct (Harg r0) as (H1 & H2 & H3 & H4); [done|lia|done|]. repeat split; [done|lia..].
Qed.

(** The reader between two calls. *)
Definition reader_ok (r : reader) : Prop := -1 <= bulklen r /\ 0 <= multibulklen r /\ (multibulklen r = 0 -> args r = [] /\ bulklen r = -1).

Lemma mb_header_received r b r' pos :
  mb_header r = Some (inr (r', pos)) ->
  mb_header (received b r) = Some (inr (received b r', pos)) /\ 0 < multibulklen r' /\ bulklen r' = bulklen r /\
  0 <= pos <= zlen (querybuf r') /\ querybuf r' = querybuf r.
Proof.
  unfold mb_header, received. cbn [querybuf set_querybuf args reqtype bulklen].
  destruct (bool_decide (args r = [])); [cbn [negb]|done].
  destruct (strchr 13 (querybuf r)) as [i|] eqn:Hi; [|done].
  rewrite (strchr_app _ _ b _ Hi). pose proof (strchr_bound _ _ _ Hi) as Hb. rewrite zlen_app. pose proof (zlen_nonneg b).
  destruct (Z.gtb_spec i (zlen (querybuf r) - 2)); [done|].
  destruct (Z.gtb_spec i (zlen (querybuf r) + zlen b - 2)); [lia|].
  case_bool_decide as Hhd; [|done]. cbn [negb].
  assert (head (querybuf r ++ b) = Some 42) as Hhd' by (destruct (querybuf r); [done|exact Hhd]).
  rewrite bool_decide_true by done. cbn [negb].
  assert (i <> 0).
  { intros ->. apply strchr_hit in Hi. destruct (querybuf r) as [|x q]; [done|]. injection Hhd as ->. done. }
  rewrite piece_app by lia. destruct (string2ll _ _) as [[ll|]|]; [|done|done]. cbn [mbind option_bind].
  destruct (_ >? _); [done|]. destruct (Z.leb_spec ll 0); [done|]. intros [= <- <-].
  cbn [querybuf multibulklen bulklen]. repeat split; lia.
Qed.

Lemma loop_resume b n r pos o r1 pos1 :
  -1 <= bulklen r -> multibulklen r = Z.of_nat n -> 0 <= pos <= zlen (querybuf r) ->
  zlen (querybuf r ++ b) <= REDIS_INLINE_MAX_SIZE -> mb_loop n r pos = Some (o, r1, pos1) -> o = More ->
  trim <$> mb_loop n (received b r) pos = trim <$> mb_loop (Z.to_nat (multibulklen r1)) (received b (at_pos r1 pos1)) 0 /\
  0 < multibulklen r1.
Proof.
  intros Hb Hm Hpos Hsz Hrun ->. rewrite zlen_app in Hsz. pose proof (zlen_nonneg b).
  assert (at_pos (received b r) pos = received b (at_pos r pos)) as Heq.
  { unfold at_pos, received, set_querybuf. cbn [querybuf reqtype multibulklen bulklen args]. by rewrite sds_from_app by lia. }
  pose proof (loop_front n r pos Hb Hpos ltac:(left; lia)) as Hfront. rewrite Hrun in Hfront. symmetry in Hfront.
  change (front_loop n (at_pos r pos) = Some (More, at_pos r1 pos1)) in Hfront.
  destruct (front_resume b (at_pos r1 pos1) n (at_pos r pos)) as (H1 & H2 & H3 & H4); [exact Hb|exact Hm|done|].
  change (multibulklen (at_pos r1 pos1)) with (multibulklen r1) in *. split; [|lia].
  change (zlen (querybuf (at_pos r pos))) with (zlen (sds_from pos (querybuf r))) in H4. rewrite zlen_from in H4 by lia.
  set (r2 := at_pos r1 pos1) in *. pose proof (zlen_nonneg (querybuf r2)).
  assert (forall r, zlen (querybuf (received b r)) = zlen (querybuf r) + zlen b) as Hlen by (intros ?; apply zlen_app).
  assert (at_pos (received b r2) 0 = received b r2) as Hr2 by (by destruct r2).
  rewrite !loop_front; [by rewrite Heq, Hr2|exact H2| |left; rewrite Hlen; lia|exact Hb| |left; rewrite Hlen; lia];
    rewrite Hlen; lia.
Qed.

(** A request may arrive in pieces: where the parser stops for want of data, it
    goes on with the next piece as if the request had been complete from the
    start, as long as the buffer stays below the length that lines may have. *)
Theorem request_resumes r b r1 :
  reader_ok r -> zlen (querybuf r ++ b) <= REDIS_INLINE_MAX_SIZE ->
  processMultibulkBuffer r = Some (More, r1) ->
  processMultibulkBuffer (received b r1) = processMultibulkBuffer (received b r).
Proof.
  intros (Hb & Hm & _) Hsz. unfold processMultibulkBuffer.
  assert (forall r0 pos, -1 <= bulklen r0 -> 0 < multibulklen r0 -> 0 <= pos <= zlen (querybuf r0) ->
    zlen (querybuf r0 ++ b) <= REDIS_INLINE_MAX_SIZE ->
    (p ← mb_loop (Z.to_nat (multibulklen r0)) r0 pos;
     let '(o, r, pos) := p in Some (o, set_querybuf (sds_from pos (querybuf r)) r)) = Some (More, r1) ->
    (h ← (if multibulklen r1 =? 0 then mb_header (received b r1) else Some (inr (received b r1, 0)));
     match h with
     | inl done => Some done
     | inr (r, pos) =>
         if negb (multibulklen r >? 0) then None
         else p ← mb_loop (Z.to_nat (multibulklen r)) r pos;
           let '(o, r, pos) := p in Some (o, set_querybuf (sds_from pos (querybuf r)) r)
     end) =
    (p ← mb_loop (Z.to_nat (multibulklen r0)) (received b r0) pos;
     let '(o, r, pos) := p in Some (o, set_querybuf (sds_from pos (querybuf r)) r))) as Hloop.
  { clear Hb Hm Hsz. intros r0 pos Hb Hm Hpos Hsz Hrun.
    destruct (mb_loop _ r0 pos) as [[[o r2] pos2]|] eqn:Hl; [|done]. cbn [mbind option_bind] in Hrun. injection Hrun as -> <-.
    destruct (loop_resume b (Z.to_nat (multibulklen r0)) r0 pos More r2 pos2) as [Heq Hpos2]; [done|lia|done|done|done|done|].
    change (multibulklen (set_querybuf _ r2)) with (multibulklen r2).
    destruct (Z.eqb_spec (multibulklen r2) 0); [lia|]. cbn [mbind option_bind].
    change (set_querybuf (sds_from pos2 (querybuf r2)) r2) with (at_pos r2 pos2).
    change (multibulklen (received b (at_pos r2 pos2))) with (multibulklen r2).
    destruct (Z.gtb_spec (multibulklen r2) 0); [cbn [negb]|lia].
    destruct (mb_loop _ (received b r0) pos) as [[[? ?] ?]|], (mb_loop _ (received b (at_pos r2 pos2)) 0) as [[[? ?] ?]|]; done. }
  change (multibulklen (received b r)) with (multibulklen r). change (multibulklen (received b r1)) with (multibulklen r1).
  destruct (Z.eqb_spec (multibulklen r) 0) as [Hz|Hz].
  - destruct (mb_header r) as [[[o r']|[r' pos]]|] eqn:Hh; [| |done].
    + cbn [mbind option_bind]. intros [= -> <-].
      assert (r' = r) as ->.
      { unfold mb_header in Hh. destruct (negb _); [done|]. destruct (strchr _ _); [|destruct (_ >? _); congruence].
        destruct (_ >? _); [congruence|]. destruct (negb _); [done|]. destruct (string2ll _ _) as [[ll|]|]; [|done|done].
        cbn [mbind option_bind] in Hh. destruct (_ >? _); [done|]. by destruct (_ <=? _). }
      by rewrite Hz.
    + destruct (mb_header_received r b r' pos Hh) as (-> & Hm' & Hb' & Hpos & Hq). cbn [mbind option_bind].
      change (multibulklen (received b r')) with (multibulklen r').
      destruct (Z.gtb_spec (multibulklen r') 0); [cbn [negb]; intros Hrun|lia].
      apply (Hloop r' pos); [lia|done|done|by rewrite Hq|exact Hrun].
  - cbn [mbind option_bind]. change (multibulklen (received b r)) with (multibulklen r).
    destruct (Z.gtb_spec (multibulklen r) 0); [cbn [negb]; intros Hrun|lia]. apply (Hloop r 0); [done|lia|pose proof (zlen_nonneg (querybuf r)); lia|done|done].
Qed.

Definition two_pieces : bytes := zs "*2" ++ [13; 10] ++ zs "$3" ++ [13; 10] ++ zs "GE".

Definition half : reader := match processMultibulkBuffer (fresh two_pieces) with Some (_, r) => r | None => fresh [] end.

Lemma request_resumes_witness :
  half = mkReader (zs "GE") None 2 3 [] /\
  processMultibulkBuffer (received (zs "T" ++ [13; 10] ++ zs "$1" ++ [13; 10] ++ zs "k" ++ [13; 10]) half) =
    processMultibulkBuffer (received (zs "T" ++ [13; 10] ++ zs "$1" ++ [13; 10] ++ zs "k" ++ [13; 10]) (fresh two_pieces)).
Proof.
  split; [reflexivity|]. apply (request_resumes (fresh two_pieces) _ half); [|done|reflexivity]. split; [|split]; [done|done|done].
Defined.

Lemma request_roundtrip_witness :
  exists b, catAppendOnlyGenericCommand [] [zs "SET"; [0; 13]; []] = Some b /\
    processMultibulkBuffer (fresh (b ++ zs "*")) = Some (Ready, mkReader (zs "*") None 0 (-1) [zs "SET"; [0; 13]; []]).
Proof.
  apply (request_roundtrip [zs "SET"; [0; 13]; []] (zs "*")).
  split; [done|]. split; [done|]. repeat constructor; done.
Defined.

(** ** Pipelines *)

Lemma encodes_nonempty b l : encodes b l -> exists q, b = 42 :: q.
Proof. intros (ds & body & -> & _). eauto. Qed.

(** The requests, one after the other. *)
Fixpoint write_all (dst : bytes) (ls : list (list bytes)) : option bytes :=
  match ls with
  | [] => Some dst
  | l :: ls => b ← catAppendOnlyGenericCommand dst l; write_all b ls
  end.

Lemma write_all_ok ls : Forall request_fits ls -> forall dst,
  exists bs, write_all dst ls = Some (dst ++ concat bs) /\ Forall2 encodes bs ls.
Proof.
  induction 1 as [|l ls Hl _ IH]; intros dst; [exists []; by rewrite app_nil_r|].
  destruct (catAppend_ok dst l Hl) as (b & Hb & He). destruct (IH (dst ++ b)) as (bs & Hbs & Hf).
  exists (b :: bs). cbn [write_all concat]. rewrite Hb. cbn [mbind option_bind]. by rewrite Hbs, <- app_assoc; auto.
Qed.

Section requests.
Context (uninit : nat -> Z) (cfg : config) (freeMemoryIfNeeded : M bool) (handleClientsBlockedOnLists : M unit).
Context (other : bytes -> cid -> M unit).
#[local] Abbreviation run := (processCommand cfg freeMemoryIfNeeded handleClientsBlockedOnLists other).

(** One request after the other, until the connection is to be closed. *)
Fixpoint execute (c : cid) (ls : list (list bytes)) : M unit :=
  match ls with
  | [] => mret tt
  | l :: ls =>
      x ← get_client c;
      if REDIS_CLOSE_AFTER_REPLY (flags x) then mret tt
      else _ ← update_client c (set_argv l); _ ← run c; execute c ls
  end.

Lemma refused_closes c s s' :
  run c s = Some (false, s') -> exists x, clients s' !! c = Some x /\ REDIS_CLOSE_AFTER_REPLY (flags x) = true.
Proof.
  unfold processCommand. intros Hr. apply bind_run in Hr as (a0 & s1 & _ & Hr).
  destruct (strcasecmp_eq a0 (zs "quit")).
  - apply bind_run in Hr as (? & s2 & _ & Hr). apply bind_run in Hr as (? & s3 & Hu & Hr). injection Hr as <-.
    unfold update_client in Hu. destruct (clients s2 !! c) as [y|]; [|done]. injection Hu as _ <-. eexists. split; [apply lookup_insert_eq|done].
  - exfalso.
    repeat first [ discriminate Hr
                 | match type of Hr with context [match ?m with _ => _ end] => destruct m end
                 | let y := fresh in apply bind_run in Hr as (y & ? & _ & Hr) ].
Qed.

Lemma pipeline_run c ls bs : Forall2 encodes bs ls -> Forall request_fits ls -> forall n s, (length ls <= n)%nat ->
   (snd <$> (processInputBuffer uninit run n c (fresh (concat bs)) s)) = (snd <$> (execute c ls s)).
Proof.
  induction 1 as [|b l bs ls He Hes IH]; intros Hfits n s Hn; [destruct n; reflexivity|].
  apply Forall_cons in Hfits as [Hl Hls]. destruct n as [|n]; [simpl in Hn; lia|].
  destruct (encodes_nonempty b l He) as [q Hq]. cbn [concat processInputBuffer execute fresh querybuf].
  assert ((zlen (b ++ concat bs) =? 0) = false) as ->.
  { apply Z.eqb_neq. rewrite Hq. cbn [app]. rewrite zlen_cons. pose proof (zlen_nonneg (q ++ concat bs)). lia. }
  unfold mbind, M_bind, get_client. destruct (clients s !! c) as [x|]; [|done].
  destruct (REDIS_CLOSE_AFTER_REPLY (flags x)); [done|].
  assert (request_type (fresh (b ++ concat bs)) = REDIS_REQ_MULTIBULK) as Ht
    by (unfold request_type, fresh; cbn [reqtype querybuf]; by rewrite Hq).
  unfold input_turn. fold (fresh (b ++ concat bs)). rewrite Ht. cbn [fresh querybuf multibulklen bulklen args].
  rewrite (read_written b l (concat bs) (Some REDIS_REQ_MULTIBULK) He Hl). cbn [lift].
  unfold mbind, M_bind, lift. cbn beta iota. cbn [args]. rewrite bool_decide_false by apply Hl.
  destruct (update_client c (set_argv l) s) as [[[] s1]|]; [|done].
  destruct (run c s1) as [[[] s2]|] eqn:Hrun; [| |done].
  - unfold resetClient. cbn [querybuf mret M_ret]. fold (fresh (concat bs)). by apply IH; [|simpl in Hn; lia].
  - destruct (refused_closes c s1 s2 Hrun) as (y & Hy & Hclose). cbn [mret M_ret]. destruct ls as [|l2 ls2].
    + apply Forall2_nil_inv_r in Hes as ->. destruct n; reflexivity.
    + destruct n as [|n]; [simpl in Hn; lia|]. cbn [processInputBuffer execute]. unfold mbind, M_bind, get_client.
      cbn [querybuf]. destruct (zlen (concat bs) =? 0); by rewrite Hy, Hclose.
Qed.

(** C6: A pipeline of requests, written one after the other, is executed request by
    request in that order, up to the one that closes the connection: the turns of
    the loop are at most as many as the requests. *)
Theorem pipeline c ls n s :
  Forall request_fits ls -> (length ls <= n)%nat ->
  exists b, write_all [] ls = Some b /\
    (snd <$> (processInputBuffer uninit run n c (fresh b) s)) = (snd <$> (execute c ls s)).
Proof.
  intros Hls Hn. destruct (write_all_ok ls Hls []) as (bs & Hb & He). exists (concat bs). split; [exact Hb|].
  by apply pipeline_run.
Qed.
End requests.

(** Two requests and a third that is not reached. *)
Definition ping_quit : list (list bytes) := [[zs "PING"]; [zs "quit"]; [zs "PING"]].

Lemma pipeline_witness :
  exists b, write_all [] ping_quit = Some b /\
    (snd <$> (processInputBuffer (fun _ => 0) (processCommand no_config no_eviction no_blocked unknown) 3 1 (fresh b) demo)) =
    (snd <$> (execute no_config no_eviction no_blocked unknown 1 ping_quit demo)).
Proof.
  apply (pipeline (fun _ => 0) no_config no_eviction no_blocked unknown 1 ping_quit 3 demo); [|simpl; lia].
  repeat constructor; done.
Defined.

(** ** Inline requests *)

Lemma inline_at uninit a rest :
  Forall (fun x => x <> 10 /\ x <> 0) a ->
  processInlineBuffer uninit (fresh (a ++ 10 :: rest)) =
    (let n := if bool_decide (last a = Some 13) then zlen a - 1 else zlen a in
     argv ← Sds.sdssplitargs uninit (piece (a ++ 10 :: rest) 0 n ++ [0]);
     Some match argv with
          | None => (ProtocolError (zs "Protocol error: unbalanced quotes in request"), fresh (a ++ 10 :: rest))
          | Some argv =>
              (Ready, mkReader (sds_from (n + 2) (a ++ 10 :: rest)) None 0 (-1)
                 (filter (fun a => a <> []) (map (fun a => piece (Sds.sbuf a) 0 (Sds.sdslen a)) argv)))
          end).
Proof.
  intros Ha. unfold processInlineBuffer. cbn [fresh querybuf reqtype multibulklen bulklen]. rewrite strchr_here by done.
  assert (negb (zlen a =? 0) && bool_decide (rd (a ++ 10 :: rest) (zlen a - 1) = Some 13) =
    bool_decide (last a = Some 13)) as ->.
  { induction a as [|z a' _] using rev_ind; [done|]. rewrite last_snoc, <- app_assoc, zlen_app.
    cbn [app]. change (zlen [z]) with 1. rewrite rd_here by lia.
    destruct (Z.eqb_spec (zlen a' + 1) 0); [pose proof (zlen_nonneg a'); lia|done]. }
  cbn zeta. destruct (bool_decide _); (destruct (Sds.sdssplitargs _ _) as [[?|]|]; reflexivity).
Qed.

(** A line may end in a bare LF, and is read as the line that ends in CR LF. But
    the two bytes of a CR LF are taken off the buffer in either case: after a bare
    LF the first byte of the next request is lost. *)
Theorem inline_newline_drops uninit a x rest r :
  Forall (fun y => y <> 10 /\ y <> 0) a -> last a <> Some 13 ->
  processInlineBuffer uninit (fresh (a ++ [10; x] ++ rest)) = Some (Ready, r) ->
  processInlineBuffer uninit (fresh (a ++ [13; 10] ++ rest)) = Some (Ready, r) /\ querybuf r = rest.
Proof.
  intros Ha Hl. change (a ++ [10; x] ++ rest) with (a ++ 10 :: x :: rest). rewrite inline_at by done.
  replace (a ++ [13; 10] ++ rest) with ((a ++ [13]) ++ 10 :: rest) by app_norm.
  rewrite inline_at by (apply Forall_app; split; [done|by repeat constructor]).
  rewrite last_snoc, bool_decide_false, bool_decide_true by done. cbn zeta. rewrite zlen_app. change (zlen [13]) with 1.
  replace (zlen a + 1 - 1) with (zlen a) by lia.
  assert (forall k, piece (a ++ k) 0 (zlen a) = a) as Hp by (intros k; by apply (piece_mid [] a)).
  rewrite <- app_assoc, !Hp. destruct (Sds.sdssplitargs uninit (a ++ [0])) as [[argv|]|]; [|done|done].
  cbn [mbind option_bind].
  replace (a ++ 10 :: x :: rest) with ((a ++ [10; x]) ++ rest) by app_norm.
  replace (a ++ [13] ++ 10 :: rest) with ((a ++ [13; 10]) ++ rest) by app_norm.
  rewrite !from_mid by (rewrite zlen_app; done). by intros [= <-].
Qed.

Definition two_lines : bytes := zs "PING" ++ [10] ++ zs "PING" ++ [13; 10].

Lemma inline_newline_drops_witness :
  processInlineBuffer (fun _ => 0) (fresh two_lines) =
    Some (Ready, mkReader (zs "ING" ++ [13; 10]) None 0 (-1) [zs "PING"]) /\
  processInlineBuffer (fun _ => 0) (fresh (zs "PING" ++ [13; 10] ++ zs "ING" ++ [13; 10])) =
    Some (Ready, mkReader (zs "ING" ++ [13; 10]) None 0 (-1) [zs "PING"]) /\
  querybuf (mkReader (zs "ING" ++ [13; 10]) None 0 (-1) [zs "PING"]) = zs "ING" ++ [13; 10].
Proof.
  split; [vm_compute; reflexivity|].
  apply (inline_newline_drops (fun _ => 0) (zs "PING") 80 (zs "ING" ++ [13; 10])); [by repeat constructor|done|].
  vm_compute. reflexivity.
Defined.
