(* ===== verification/Messages.v ===== *)
(** * Who receives what (src/redis-2.8.19/src/pubsub.c, notify.c)

    PUBLISH writes to each client exactly the messages of its subscriptions, in
    order, and changes nothing else; the letters of notify-keyspace-events stand for
    the sets of classes and back. *)
From S2P Require Import Prelude Util Glob Object Server Pubsub Table Exec Invariant Steps ExecSafe Reach.
Open Scope Z_scope.
Open Scope server_scope.

(** ** Output *)

Definition append (l : list reply) (x : client) : client := set_replies (fun r => r ++ l) x.

(** The state with [out c] appended to the replies of every client [c]. *)
Definition send (out : cid -> list reply) (s : server) : server :=
  set_clients (map_imap (fun c x => Some (append (out c) x))) s.

Lemma client_eta x : mkClient (db x) (flags x) (argv x) (mstate x) (watched x) (channels x) (patterns x)
  (authenticated x) (replies x) = x.
Proof. by destruct x. Qed.

Lemma append_nil x : append [] x = x.
Proof. unfold append, set_replies. rewrite app_nil_r. apply client_eta. Qed.

Lemma append_app a b x : append b (append a x) = append (a ++ b) x.
Proof. unfold append, set_replies. simpl. by rewrite app_assoc. Qed.

Lemma send_lookup out s c : clients (send out s) !! c = append (out c) <$> clients s !! c.
Proof. unfold send. simpl. rewrite map_lookup_imap. by destruct (clients s !! c). Qed.

Lemma set_clients_ext f s s' : f (clients s) = clients s' -> set_clients (fun _ => clients s) s' = s -> set_clients f s = s'.
Proof. intros Hf <-. unfold set_clients in *. simpl in *. rewrite Hf. by destruct s'. Qed.

Lemma send_nil s : send (fun _ => []) s = s.
Proof.
  apply set_clients_ext; [|by destruct s]. apply map_eq. intros c. rewrite map_lookup_imap.
  destruct (clients s !! c); simpl; by rewrite ?append_nil.
Qed.

Lemma send_send a b s : send b (send a s) = send (fun c => a c ++ b c) s.
Proof.
  unfold send at 1 3, set_clients. simpl. f_equal. apply map_eq. intros c. rewrite !map_lookup_imap.
  destruct (clients s !! c); simpl; [by rewrite append_app|done].
Qed.

Lemma send_ext a b s : (forall c, a c = b c) -> send a s = send b s.
Proof. intros H. unfold send, set_clients. f_equal. apply map_imap_ext. intros. by rewrite H. Qed.

(** To one client. *)
Definition to (c : cid) (l : list reply) : cid -> list reply := fun c' => if decide (c' = c) then l else [].

Lemma addReply_sends c r s :
  alive c s -> addReply c r s = Some (tt, send (to c [r]) s).
Proof.
  intros [x Hx]. unfold addReply, update_client. rewrite Hx. f_equal. f_equal. unfold send, set_clients. f_equal.
  apply map_eq. intros c'. rewrite map_lookup_imap. unfold to. destruct (decide (c' = c)) as [->|Hne].
  - by rewrite lookup_insert_eq, Hx.
  - rewrite lookup_insert_ne by done. destruct (clients s !! c'); simpl; by rewrite ?append_nil.
Qed.

Lemma alive_send out s c : alive c (send out s) <-> alive c s.
Proof. unfold alive. rewrite send_lookup. apply fmap_is_Some. Qed.

Lemma wp_addReply_send c r out s Q :
  alive c s -> Q tt (send (fun c' => out c' ++ to c [r] c') s) -> wp (addReply c r) Q (send out s).
Proof.
  intros Ha HQ. eapply wp_of_run; [by apply addReply_sends, alive_send|]. by rewrite send_send.
Qed.

Lemma to_app c a b c' : to c a c' ++ to c b c' = to c (a ++ b) c'.
Proof. unfold to. by case_decide. Qed.

(** ** PUBLISH *)

Definition message (ch msg : bytes) : list reply := [RMulti 3; RBulk (zs "message"); RBulk ch; RBulk msg].
Definition pmessage (p ch msg : bytes) : list reply :=
  [RMulti 4; RBulk (zs "pmessage"); RBulk p; RBulk ch; RBulk msg].

Definition subscribed_to (s : server) (ch : bytes) (c : cid) : bool :=
  match clients s !! c with Some x => bool_decide (ch ∈ channels x) | None => false end.

Lemma subscribed_to_iff s ch c : subscribed_to s ch c = true <-> subscribed s c ch.
Proof.
  unfold subscribed_to, subscribed. destruct (clients s !! c) as [x|].
  - rewrite bool_decide_eq_true. split; [eauto|]. by intros (x' & [= <-] & ?).
  - split; [done|]. by intros (x' & ? & _).
Qed.

(** What the client [c] receives: one message when it is subscribed to the channel,
    then one for each of its patterns that match. *)
Definition received (s : server) (ch msg : bytes) (c : cid) : list reply :=
  (if subscribed_to s ch c then message ch msg else []) ++
  flat_map (fun p => if matches ch p then to p.1 (pmessage p.2 ch msg) c else []) (pubsub_patterns s).

Ltac send_step := apply wp_bind; apply wp_addReply_send; [done|].

Lemma send_message_sends ch msg c out s :
  alive c s -> wp (send_message ch msg c) (fun _ s' => s' = send (fun c' => out c' ++ to c (message ch msg) c') s) (send out s).
Proof.
  intros Ha. unfold send_message. do 3 send_step. apply wp_addReply_send; [done|].
  apply send_ext. intros c'. by rewrite <- !app_assoc, !to_app.
Qed.

Lemma send_pmessage_sends ch msg p out s :
  alive p.1 s -> pattern_ok p.2 ->
  wp (send_pmessage ch msg p) (fun n s' => n = (if matches ch p then 1 else 0) /\
    s' = send (fun c' => out c' ++ if matches ch p then to p.1 (pmessage p.2 ch msg) c' else []) s) (send out s).
Proof.
  intros Ha Hp. destruct (sds_match_ok p.2 ch Hp) as (b & Hb & _). unfold send_pmessage, matches. rewrite Hb.
  apply wp_bind. eapply wp_lift; [done|]. simpl. destruct b.
  - do 5 send_step. apply wp_ret. split; [done|]. apply send_ext. intros c'. by rewrite <- !app_assoc, !to_app.
  - apply wp_ret. split; [done|]. apply send_ext. intros c'. by rewrite app_nil_r.
Qed.

(** Sending to each client of a list. *)
Lemma mfor_sends ch msg l : forall out s, Forall (fun c => alive c s) l ->
  wp (mfor l (send_message ch msg)) (fun _ s' => s' = send (fun c' => out c' ++ flat_map (fun c => to c (message ch msg) c') l) s)
    (send out s).
Proof.
  induction l as [|c l IH]; intros out s Hl; simpl.
  { apply wp_ret, send_ext. intros c'. by rewrite app_nil_r. }
  apply Forall_cons in Hl as [Hc Hl]. eapply wp_seq; [by apply send_message_sends|]. cbv beta. intros _ s' ->.
  eapply wp_mono; [by apply IH|]. cbv beta. intros _ s' ->. apply send_ext. intros c'. by rewrite <- app_assoc.
Qed.

Lemma mfor_sum_sends ch msg l : forall out s, Forall (fun p => alive p.1 s /\ pattern_ok p.2) l ->
  wp (mfor_sum l (send_pmessage ch msg)) (fun n s' =>
    n = foldr (fun p n => (if matches ch p then 1 else 0) + n) 0 l /\
    s' = send (fun c' => out c' ++ flat_map (fun p => if matches ch p then to p.1 (pmessage p.2 ch msg) c' else []) l) s)
    (send out s).
Proof.
  induction l as [|p l IH]; intros out s Hl; simpl.
  { apply wp_ret. split; [done|]. apply send_ext. intros c'. by rewrite app_nil_r. }
  apply Forall_cons in Hl as [[Hc Hp] Hl]. eapply wp_seq; [by apply send_pmessage_sends|]. cbv beta. intros n s' [-> ->].
  eapply wp_seq; [by apply IH|]. cbv beta. intros m s' [-> ->]. apply wp_ret. split; [done|].
  apply send_ext. intros c'. by rewrite <- app_assoc.
Qed.

Lemma to_nodup c l r :
  NoDup l -> flat_map (fun c' => to c' r c) l = if decide (c ∈ l) then r else [].
Proof.
  induction 1 as [|c' l Hn _ IH]; cbn [flat_map]; [by rewrite decide_False by apply not_elem_of_nil|].
  rewrite IH. unfold to. destruct (decide (c = c')) as [->|Hne].
  - case_decide; [done|]. rewrite app_nil_r. by rewrite decide_True by by left.
  - cbn [app]. apply decide_ext. rewrite elem_of_cons. naive_solver.
Qed.

(** C17: PUBLISH is delivered exactly: each client gets one message if it is subscribed
    to the channel, and one for each of its matching patterns, in the order it
    subscribed, at the end of its output; nothing else in the server changes; and
    the result is the number of messages. *)
Theorem publish_delivers ch msg s :
  server_ok s ->
  wp (pubsubPublishMessage ch msg) (fun n s' => s' = send (received s ch msg) s /\
    n = zlen (default [] (pubsub_channels s !! ch)) + zlen (filter (fun p => matches ch p = true) (pubsub_patterns s))) s.
Proof.
  intros Hs. unfold pubsubPublishMessage. apply wp_bind, wp_gets. cbv beta. rewrite <- (send_nil s) at 2.
  eapply wp_seq.
  { apply mfor_sends. apply Forall_forall. intros c Hc. by eapply ok_channel_alive. }
  cbv beta. intros _ s' ->. apply wp_bind, wp_gets. cbv beta.
  change (pubsub_patterns (send _ s)) with (pubsub_patterns s). eapply wp_seq.
  { apply mfor_sum_sends. apply Forall_forall. intros p Hp. by apply ok_pattern_alive. }
  cbv beta. intros n s' [-> ->]. apply wp_ret. split.
  - apply send_ext. intros c. cbn [app]. unfold received. f_equal.
    destruct (ok_channels s Hs ch) as [Hel Hnd]. rewrite to_nodup.
    + destruct (subscribed_to s ch c) eqn:Hsub.
      * by rewrite decide_True by by apply Hel, subscribed_to_iff.
      * rewrite decide_False; [done|]. intros Hin%Hel%subscribed_to_iff. congruence.
    + destruct (_ !! _) as [l|]; [by apply Hnd|constructor].
  - f_equal. clear. induction (pubsub_patterns s) as [|p l IH]; [done|]. simpl. rewrite filter_cons, IH.
    destruct (matches ch p); [by rewrite decide_True, zlen_cons|by rewrite decide_False].
Qed.

(** The first client is subscribed to a channel, the second to two patterns. *)
Definition demo_news : server :=
  after 2 [zs "psubscribe"; zs "n*"; zs "x"] (after 1 [zs "subscribe"; zs "news"] demo).

Lemma demo_news_good : good demo_news.
Proof.
  apply after_simple; [apply after_simple; [apply demo_good|by exists new_client|done|by intros a cmd [= <-] [= <-]]|by eexists|done|].
  intros a cmd [= <-] [= <-]. simpl. repeat constructor; try done; intros a [= <-]; by apply (bool_decide_unpack _).
Qed.

Lemma publish_delivers_witness :
  wp (pubsubPublishMessage (zs "news") (zs "hi")) (fun n s' => s' = send (received demo_news (zs "news") (zs "hi")) demo_news /\ n = 2)
    demo_news.
Proof. apply (publish_delivers (zs "news") (zs "hi") demo_news). apply demo_news_good. Defined.

Example demo_news_counts :
  match pubsubPublishMessage (zs "news") (zs "hi") demo_news with
  | Some (n, s') => n = 2 /\ (replies <$> clients s' !! 2) = ((fun x => replies x ++ pmessage (zs "n*") (zs "news") (zs "hi")) <$> clients demo_news !! 2)
  | None => False
  end.
Proof. vm_compute. done. Qed.

(** ** Notification classes *)

(** Printing the set of notification classes and reading it back, as CONFIG GET,
    CONFIG REWRITE and CONFIG SET do, gives the same set, for every set. *)
Theorem notify_flags_roundtrip flags :
  0 <= flags < 1024 -> keyspaceEventsStringToFlags (keyspaceEventsFlagsToString flags) = flags.
Proof.
  assert (forallb (fun n => keyspaceEventsStringToFlags (keyspaceEventsFlagsToString (Z.of_nat n)) =? Z.of_nat n)
    (seq 0 1024) = true) as Hall by (vm_compute; done).
  intros Hf. rewrite forallb_forall in Hall. specialize (Hall (Z.to_nat flags)).
  rewrite Z2Nat.id, Z.eqb_eq in Hall by lia. apply Hall, in_seq. lia.
Qed.

Lemma notify_flags_roundtrip_witness : keyspaceEventsStringToFlags (keyspaceEventsFlagsToString 261) = 261.
Proof. apply (notify_flags_roundtrip 261). lia. Defined.
