(* ===== verification/Access.v ===== *)
(** * Which commands run (src/redis-2.8.19/src/redis.c)

    The command table, the password and the refusals of [processCommand]. *)
From S2P Require Import Prelude Util Object Server Pubsub Watch Db TString Table Exec.
From S2P Require Import Invariant Steps KeySpec View Links Safety ExecSafe Reach.
Open Scope Z_scope.
Open Scope server_scope.

(** ** The command table *)

#[global] Instance redisCommand_eq_dec : EqDecision redisCommand.
Proof. solve_decision. Defined.

Lemma table_entries :
  forallb (fun cmd => sflags_ok cmd && bool_decide (lookupCommand (name cmd) = Some cmd) &&
                      bool_decide (lower (name cmd) = name cmd)) redisCommandTable = true.
Proof. vm_compute. done. Qed.

(** The table is well formed: every flag letter is known, so
    [populateCommandTable] does not panic, the names are distinct, every command
    is found under its name in any mix of cases, and nothing else is found. *)
Theorem command_table s cmd :
  lookupCommand s = Some cmd <-> cmd ∈ redisCommandTable /\ strcase_eq s (name cmd) = true /\ sflags_ok cmd = true.
Proof.
  pose proof table_entries as Hall. rewrite forallb_forall in Hall.
  assert (forall cmd, cmd ∈ redisCommandTable ->
    sflags_ok cmd = true /\ lookupCommand (name cmd) = Some cmd /\ lower (name cmd) = name cmd) as Hcmd.
  { intros cmd' Hin. specialize (Hall cmd' (proj1 (list_elem_of_In _ _) Hin)).
    rewrite !andb_true_iff, !bool_decide_eq_true in Hall. tauto. }
  clear Hall. unfold strcase_eq. rewrite bool_decide_eq_true. fold (lower s). fold (lower (name cmd)). split.
  - intros Hl. pose proof Hl as Hf. unfold lookupCommand in Hf. destruct (list_find _ _) as [[i cmd']|] eqn:He; [|done].
    simpl in Hf. injection Hf as ->. apply list_find_Some in He as (Hi & Hn & _).
    apply list_elem_of_lookup_2 in Hi. destruct (Hcmd cmd Hi) as (? & _ & Hlow). by rewrite Hlow.
  - intros (Hin & Heq & _). destruct (Hcmd cmd Hin) as (_ & Hl & Hlow). rewrite <- Hl. unfold lookupCommand.
    by rewrite Heq, Hlow.
Qed.

(** ** The password *)

Lemma foldl_lor l : forall a, foldl Z.lor a l = 0 <-> a = 0 /\ Forall (fun x => x = 0) l.
Proof.
  induction l as [|x l IH]; intros a; simpl; [split; [by split|tauto]|].
  rewrite IH, Z.lor_eq_0_iff, Forall_cons. tauto.
Qed.

Lemma buf_diff_zero a : forall b, length a = length b -> buf_diff a b = 0 <-> a = b.
Proof.
  intros b Hl. unfold buf_diff. rewrite foldl_lor. revert b Hl.
  induction a as [|x a IH]; intros [|y b] Hl; try done. simpl in *. rewrite Forall_cons, Z.lxor_eq_0_iff.
  specialize (IH b ltac:(lia)). split.
  - intros (_ & -> & ?). f_equal. by apply IH.
  - intros [= -> ->]. split_and!; [done|done|]. by apply IH.
Qed.

(** The comparison of passwords, which takes the same time whatever the strings
    are, says equal exactly when they are equal and fit its buffers. *)
Theorem time_independent_strcmp_equal a b :
  time_independent_strcmp a b = 0 <-> a = b /\ zlen a <= REDIS_AUTHPASS_MAX_LEN.
Proof.
  unfold time_independent_strcmp, REDIS_AUTHPASS_MAX_LEN.
  destruct (Z.gtb_spec (zlen a) 512), (Z.gtb_spec (zlen b) 512); simpl; try (split; [done|intros [<- ?]; lia]).
  rewrite Z.lor_eq_0_iff, Z.lxor_eq_0_iff. split.
  - intros [Hd Hlen]. rewrite buf_diff_zero in Hd.
    + apply app_inj_1 in Hd as [-> _]; [done|]. unfold zlen in Hlen. lia.
    + rewrite !length_app, !length_replicate. unfold zlen in *. lia.
  - intros [<- _]. split; [|done]. by apply buf_diff_zero.
Qed.

(** C16: Until a client has sent the right password, a server that requires one refuses
    every command but AUTH (and QUIT): the reply is an error and no key, no client
    and no table of the server changes; the clients keep what they have queued, and
    an open transaction will be discarded. *)
Theorem password_required cfg freeMemoryIfNeeded handleClientsBlockedOnLists other c y a cmd s :
  clients s !! c = Some y -> authenticated y = false -> requirepass cfg <> None ->
  rd (argv y) 0 = Some a -> strcasecmp_eq a (zs "quit") = false ->
  lookupCommand a = Some cmd -> proc cmd <> P_authCommand -> arity_ok cmd (zlen (argv y)) = true ->
  processCommand cfg freeMemoryIfNeeded handleClientsBlockedOnLists other c s =
    Some (true, set_clients (<[c := set_replies (fun l => l ++ [shared_noautherr])
      (set_flags (fun f => if REDIS_MULTI f then set_DIRTY_EXEC true f else f) y)]>) s).
Proof.
  intros Hy Hau Hreq Ha Hquit Hcmd Hp Har. unfold processCommand, arg, client_argv.
  assert (proc_in cmd [P_authCommand] = false) as Hin
    by (unfold proc_in; apply bool_decide_eq_false; intros Hel%list_elem_of_singleton; done).
  assert (forall s x, requirepass cfg <> None -> authenticated x = false ->
    command_refused cfg s x cmd false = Some (mkRefusal true shared_noautherr)) as Href.
  { intros s' x' _ Hx'. unfold command_refused. by rewrite bool_decide_true, Hx', Hin. }
  unfold mbind, M_bind, get_client, lift, mret, M_ret, gets. rewrite Hy, Ha, Hquit. simpl. rewrite Hy, Hcmd, Har. simpl.
  unfold free_memory. rewrite bool_decide_true, Hau, Hin by done. simpl. unfold mret, M_ret. rewrite Hy, Href by done. simpl.
  unfold flagTransaction, update_client. rewrite Hy. unfold addReply, update_client, set_clients. simpl.
  rewrite lookup_insert_eq. unfold set_clients. simpl. by rewrite insert_insert_eq.
Qed.

Definition locked : config := mkConfig (Some (zs "secret")) false false None false false false true false.

Lemma password_required_witness :
  let s := receive 1 [zs "FLUSHALL"] demo in
  processCommand locked no_eviction no_blocked unknown 1 s =
    Some (true, set_clients (<[1 := set_replies (fun l => l ++ [shared_noautherr])
      (set_flags (fun f => if REDIS_MULTI f then set_DIRTY_EXEC true f else f) (client_of s 1))]>) s).
Proof.
  intros s. apply (password_required locked no_eviction no_blocked unknown 1 (client_of s 1) (zs "FLUSHALL")
    (mkCmd (zs "flushall") P_flushallCommand 1 (zs "w") 0 0 0) s); try done; vm_compute; reflexivity.
Defined.
