(* ===== verification/Marking.v ===== *)
(** * Which commands signal what they change (src/redis-2.8.19/src/multi.c)

    The judgements behind the soundness of WATCH. A run of a command is followed
    from its start: a key that has changed is pending until [signalModifiedKey] marks
    the clients that watch it. Every command of t_string.c, db.c, pubsub.c and
    multi.c but MOVE and PERSIST ends with nothing pending. *)
From S2P Require Import Prelude Util Glob Object Server Pubsub Watch Db TString Table Exec.
From S2P Require Import Invariant Steps KeySpec Links View.
Open Scope Z_scope.

(** The clients that watch a key, in the table of the database. *)
Definition watchers (s : server) (id : Z) (k : bytes) : list cid :=
  default [] (watched_keys (db_at s id) !! k).

Definition dirty_cas (x : client) : bool := REDIS_DIRTY_CAS (flags x).

(** The value at a key, in any database; [live] where the database exists. *)
Definition value (s : server) (id : Z) (k : bytes) : option robj :=
  if due s id k && negb (masterhost s) then None else key_of s id k.

Lemma value_live s id k : valid s id -> value s id k = live s id k.
Proof.
  intros Hv. unfold value, live, purge. destruct (_ && _); [|done].
  unfold key_of. rewrite at_db_at by done. simpl. by rewrite lookup_delete_eq.
Qed.

Lemma value_ext s t id k :
  key_of s id k = key_of t id k -> expire_of s id k = expire_of t id k -> same_settings s t ->
  value s id k = value t id k.
Proof. intros Hk He (Hc & Hl & Hm). unfold value, due. by rewrite Hk, He, Hc, Hl, Hm. Qed.

Section acting.
(** The client that acts. *)
Context (c : cid).

(** [s'] has the data of [s], and of the other clients the watched keys, the
    entries in the tables and, when they were marked, the marks. *)
Record softly (s s' : server) : Prop := {
  so_len : zlen (dbs s') = zlen (dbs s);
  so_dict : forall id, dict (db_at s' id) = dict (db_at s id);
  so_expires : forall id, expires (db_at s' id) = expires (db_at s id);
  so_watchers : forall id k c', c' <> c -> c' ∈ watchers s id k -> c' ∈ watchers s' id k;
  so_clients : forall c' x', c' <> c -> clients s' !! c' = Some x' ->
    exists x, clients s !! c' = Some x /\ watched x' = watched x /\ (dirty_cas x = true -> dirty_cas x' = true);
  so_settings : same_settings s' s
}.

#[global] Instance softly_refl : Reflexive softly.
Proof. intros s. by split; eauto. Qed.

#[global] Instance softly_trans : Transitive softly.
Proof.
  intros s t u [L1 D1 E1 W1 C1 (S1 & S2 & S3)] [L2 D2 E2 W2 C2 (T1 & T2 & T3)]. split; [congruence|congruence|congruence|auto| |].
  - intros c' x'' Hc Hx. destruct (C2 c' x'' Hc Hx) as (x' & Hx' & Hw & Hd).
    destruct (C1 c' x' Hc Hx') as (x & Hx0 & Hw0 & Hd0). exists x. split_and!; [done|congruence|auto].
  - split_and!; congruence.
Qed.

Definition soft {A} (m : M A) : Prop := forall s a s', m s = Some (a, s') -> softly s s'.

(** A key whose watchers are all marked. *)
Definition marked (s : server) (id : Z) (k : bytes) : Prop :=
  forall c' x, c' <> c -> clients s !! c' = Some x -> (id, k) ∈ watched x -> dirty_cas x = true.

(** The keys changed and not yet signalled. *)
Abbreviation pending := (Z -> bytes -> Prop).
Definition none : pending := fun _ _ => False.
Definition plus (P : pending) (id : Z) (k : bytes) : pending := fun id' k' => (id' = id /\ k' = k) \/ P id' k'.

(** From [s0] to [s] every change is pending or has been signalled. *)
Record tracked (P : pending) (s0 s : server) : Prop := {
  tr_settings : same_settings s s0;
  tr_len : zlen (dbs s) = zlen (dbs s0);
  tr_watched : forall c' x', c' <> c -> clients s !! c' = Some x' ->
    exists x, clients s0 !! c' = Some x /\ watched x' = watched x;
  tr_link : forall c' x id k, c' <> c -> clients s !! c' = Some x -> (id, k) ∈ watched x -> c' ∈ watchers s id k;
  tr_marked : forall id k, value s id k <> value s0 id k -> P id k \/ marked s id k
}.

Definition tri {A} (P : pending) (m : M A) (Q : A -> pending) : Prop :=
  forall s0 s a s', tracked P s0 s -> m s = Some (a, s') -> tracked (Q a) s0 s'.

(** The command changes nothing without signalling it. *)
Definition signals {A} (m : M A) : Prop := forall P, tri P m (fun _ => P).

(** ** The rules *)

Lemma soft_bind {A B} (m : M A) (f : A -> M B) : soft m -> (forall a, soft (f a)) -> soft (m ≫= f).
Proof. intros Hm Hf s b s' (a & s1 & H1 & H2)%bind_run. etrans; [by eapply Hm|by eapply Hf]. Qed.

(** Operations that only read. *)
Definition reads {A} (m : M A) : Prop := forall s a s', m s = Some (a, s') -> s' = s.

Lemma soft_reads {A} (m : M A) : reads m -> soft m.
Proof. intros Hm s a s' Hr. by rewrite (Hm s a s' Hr). Qed.

Lemma reads_ret {A} (a : A) : reads (mret a).
Proof. by intros s b s' [= _ <-]. Qed.
Lemma reads_gets {A} (f : server -> A) : reads (gets f).
Proof. by intros s b s' [= _ <-]. Qed.
Lemma reads_lift {A} (o : option A) : reads (lift o).
Proof. intros s a s'. unfold lift. destruct o; [by intros [= _ <-]|done]. Qed.
Lemma reads_crash {A} : reads (crash : M A).
Proof. done. Qed.
Lemma reads_assert b : reads (redisAssert b).
Proof. destruct b; [apply reads_ret|apply reads_crash]. Qed.
Lemma reads_get_db id : reads (get_db id).
Proof. intros s a s'. unfold get_db. destruct (rd _ _); [by intros [= _ <-]|done]. Qed.
Lemma reads_get_client c' : reads (get_client c').
Proof. intros s a s'. unfold get_client. destruct (_ !! _); [by intros [= _ <-]|done]. Qed.
Lemma reads_bind {A B} (m : M A) (f : A -> M B) : reads m -> (forall a, reads (f a)) -> reads (m ≫= f).
Proof. intros Hm Hf s b s' (a & s1 & H1 & H2)%bind_run. apply Hm in H1 as ->. by eapply Hf. Qed.

(** Updates of the other fields of the server. *)
Definition inert (f : server -> server) : Prop :=
  forall s, dbs (f s) = dbs s /\ clients (f s) = clients s /\ same_settings (f s) s.

Lemma soft_modify f : inert f -> soft (modify f).
Proof.
  intros Hf s a s' [= _ <-]. destruct (Hf s) as (Hd & Hc & Hs). split; [by rewrite Hd|..|done].
  1,2: intros id; unfold db_at; by rewrite Hd.
  - intros id k c' _. unfold watchers, db_at. by rewrite Hd.
  - intros c' x' _. rewrite Hc. eauto.
Qed.

(** Updates of a client: the acting one, or one that keeps what it watches. *)
Definition gentle (f : client -> client) : Prop :=
  forall x, watched (f x) = watched x /\ (dirty_cas x = true -> dirty_cas (f x) = true).

Lemma soft_update_client c' f : c' = c \/ gentle f -> soft (update_client c' f).
Proof.
  intros Hf s a s'. unfold update_client. destruct (clients s !! c') as [x|] eqn:Hx; [|done].
  intros [= _ <-]. split; try done. intros d x' Hd. simpl. destruct (decide (d = c')) as [->|Hne].
  - rewrite lookup_insert_eq. intros [= <-]. destruct Hf as [->|Hf]; [done|]. exists x. split; [done|apply Hf].
  - rewrite lookup_insert_ne by done. eauto.
Qed.

(** Updates of a database that keep the keys and the other watchers. *)
Definition gentle_db (f : redisDb -> redisDb) : Prop :=
  forall d, dict (f d) = dict d /\ expires (f d) = expires d /\
    forall k c', c' <> c -> c' ∈ default [] (watched_keys d !! k) -> c' ∈ default [] (watched_keys (f d) !! k).

Lemma update_db_run id f s a s' : update_db id f s = Some (a, s') -> valid s id /\ s' = at_db id f s.
Proof.
  unfold update_db. destruct (rd (dbs s) id) as [d|] eqn:Hd; [|done]. intros [= _ <-].
  unfold rd in Hd. destruct (Z.leb_spec 0 id); [|done]. split.
  - split; [done|]. apply lookup_lt_Some in Hd. unfold zlen. lia.
  - unfold at_db, set_dbs. f_equal. by apply insert_alter.
Qed.

Lemma db_at_cases id f s id' : valid s id -> db_at (at_db id f s) id' = if decide (id' = id) then f (db_at s id) else db_at s id'.
Proof. intros Hv. case_decide as Hd; [subst; by apply at_db_at|]. by apply at_db_at_ne; auto. Qed.

Lemma soft_update_db id f : gentle_db f -> soft (update_db id f).
Proof.
  intros Hf s a s' [Hv ->]%update_db_run. split; [apply zlen_alter|..].
  1,2: intros id'; rewrite db_at_cases by done; case_decide; [subst; apply Hf|done].
  - intros id' k c' Hc. unfold watchers. rewrite db_at_cases by done. case_decide; [subst; by apply Hf|done].
  - eauto.
  - done.
Qed.

Lemma soft_mfor {A} (l : list A) f : (forall x, soft (f x)) -> soft (mfor l f).
Proof. intros Hf. induction l; simpl; [apply soft_reads, reads_ret|]. by apply soft_bind. Qed.

Lemma soft_mfor_sum {A} (l : list A) f : (forall x, soft (f x)) -> soft (mfor_sum l f).
Proof.
  intros Hf. induction l; simpl; [apply soft_reads, reads_ret|]. apply soft_bind; [done|]. intros n.
  apply soft_bind; [done|]. intros n'. apply soft_reads, reads_ret.
Qed.

(** ** Tracking *)

Lemma softly_value s s' id k : softly s s' -> value s' id k = value s id k.
Proof.
  intros H. apply value_ext; [unfold key_of; by rewrite (so_dict _ _ H)|unfold expire_of; by rewrite (so_expires _ _ H)|].
  apply (so_settings _ _ H).
Qed.

Lemma softly_marked s s' id k : softly s s' -> marked s id k -> marked s' id k.
Proof.
  intros H Hm c' x' Hc Hx' Hw. destruct (so_clients _ _ H c' x' Hc Hx') as (x & Hx & Heq & Hd).
  apply Hd, (Hm c' x Hc Hx). by rewrite <- Heq.
Qed.

Lemma tracked_soft P s0 s s' : tracked P s0 s -> softly s s' -> tracked P s0 s'.
Proof.
  intros [(S1 & S2 & S3) Hlen Hwt Hl Hm] H. pose proof (so_settings _ _ H) as (T1 & T2 & T3). split.
  - split_and!; congruence.
  - rewrite <- Hlen. apply H.
  - intros c' x' Hc Hx'. destruct (so_clients _ _ H c' x' Hc Hx') as (x & Hx & Heq & _). rewrite Heq. eauto.
  - intros c' x' id k Hc Hx' Hw. destruct (so_clients _ _ H c' x' Hc Hx') as (x & Hx & Heq & _).
    apply (so_watchers _ _ H); [done|]. apply (Hl c' x); [done..|by rewrite <- Heq].
  - intros id k Hne. rewrite (softly_value s s') in Hne by done.
    destruct (Hm id k Hne); [by left|right; by eapply softly_marked].
Qed.

Lemma tri_soft {A} (m : M A) P : soft m -> tri P m (fun _ => P).
Proof. intros Hm s0 s a s' Ht Hr. eapply tracked_soft; [done|by eapply Hm]. Qed.

Lemma tri_bind {A B} P (m : M A) Q (f : A -> M B) R :
  tri P m Q -> (forall a, tri (Q a) (f a) R) -> tri P (m ≫= f) R.
Proof. intros Hm Hf s0 s b s' Ht (a & s1 & H1 & H2)%bind_run. eapply Hf; [|done]. by eapply Hm. Qed.

Lemma tri_soft_bind {A B} P (m : M A) (f : A -> M B) R :
  soft m -> (forall a, tri P (f a) R) -> tri P (m ≫= f) R.
Proof. intros Hm Hf. eapply tri_bind; [by apply tri_soft|done]. Qed.

Lemma tri_signals_bind {A B} P (m : M A) (f : A -> M B) R :
  signals m -> (forall a, tri P (f a) R) -> tri P (m ≫= f) R.
Proof. intros Hm Hf. eapply tri_bind; [apply Hm|done]. Qed.

Lemma signals_soft {A} (m : M A) : soft m -> signals m.
Proof. intros Hm P. by apply tri_soft. Qed.

Lemma signals_bind {A B} (m : M A) (f : A -> M B) : signals m -> (forall a, signals (f a)) -> signals (m ≫= f).
Proof. intros Hm Hf P. eapply tri_bind; [apply Hm|]. intros a. apply Hf. Qed.

Lemma signals_mfor {A} (l : list A) f : (forall x, signals (f x)) -> signals (mfor l f).
Proof. intros Hf. induction l; simpl; [apply signals_soft, soft_reads, reads_ret|]. by apply signals_bind. Qed.

Lemma signals_mfor_sum {A} (l : list A) f : (forall x, signals (f x)) -> signals (mfor_sum l f).
Proof.
  intros Hf. induction l; simpl; [apply signals_soft, soft_reads, reads_ret|]. apply signals_bind; [done|]. intros n.
  apply signals_bind; [done|]. intros n'. apply signals_soft, soft_reads, reads_ret.
Qed.

(** A change of data: only the keys of [Q], or with marked watchers. *)
Lemma tracked_change P Q s0 s s' :
  tracked P s0 s -> clients s' = clients s -> same_settings s' s -> zlen (dbs s') = zlen (dbs s) ->
  (forall id k, watchers s' id k = watchers s id k) ->
  (forall id k, value s' id k <> value s id k -> Q id k \/ marked s id k) ->
  (forall id k, P id k -> Q id k) -> tracked Q s0 s'.
Proof.
  intros [(S1 & S2 & S3) Hlen Hwt Hl Hm] Hc (T1 & T2 & T3) Hlen' Hw Hv Hpq. split.
  - split_and!; congruence.
  - congruence.
  - by rewrite Hc.
  - intros c' x id k Hne. rewrite Hc, Hw. by apply Hl.
  - intros id k Hne. assert (marked s id k -> marked s' id k) as Hmm by (unfold marked; by rewrite Hc).
    destruct (decide (value s' id k = value s id k)) as [Heq|Hch].
    + rewrite Heq in Hne. destruct (Hm id k Hne); auto.
    + destruct (Hv id k Hch); auto.
Qed.

(** An update of one key of a database. *)
Lemma tracked_at_db P Q s0 s id k f :
  tracked P s0 s -> valid s id -> keeps_watched f -> only_key k f ->
  (value (at_db id f s) id k <> value s id k -> Q id k) -> (forall id k, P id k -> Q id k) ->
  tracked Q s0 (at_db id f s).
Proof.
  intros Ht Hv Hw Hk Hch Hpq. eapply tracked_change; [done|done|done|apply zlen_alter| | |done].
  - intros id' k'. unfold watchers. rewrite db_at_cases by done. by case_decide; [subst; rewrite Hw|].
  - intros id' k' Hne. destruct (decide ((id', k') = (id, k))) as [[= -> ->]|Hn]; [auto|].
    destruct Hne. destruct (at_db_other id f s id' k' k Hv Hk Hn). by apply value_ext.
Qed.

Lemma tri_update_db P id k f :
  keeps_watched f -> only_key k f -> tri P (update_db id f) (fun _ => plus P id k).
Proof.
  intros Hw Hk s0 s a s' Ht [Hv ->]%update_db_run.
  eapply tracked_at_db; [done..| |]; [by left; auto|by right].
Qed.

Lemma only_key_del_dict k : only_key k (set_dict (delete k)).
Proof. intros d k' Hne. simpl. by rewrite lookup_delete_ne. Qed.

Lemma lookupKey_run id k s o s' : lookupKey id k s = Some (o, s') -> valid s id /\ s' = s /\ o = key_of s id k.
Proof.
  unfold lookupKey. intros (d & s1 & H1 & [= <- <-])%bind_run. unfold get_db in H1.
  destruct (rd (dbs s) id) as [d'|] eqn:Hd; [|done]. injection H1 as -> ->.
  unfold key_of, db_at. rewrite Hd. split_and!; try done. unfold rd in Hd.
  destruct (Z.leb_spec 0 id); [|done]. apply lookup_lt_Some in Hd. split; [done|]. unfold zlen. lia.
Qed.

Lemma dbDelete_run id k s b s' :
  dbDelete id k s = Some (b, s') ->
  valid s id /\ b = bool_decide (is_Some (key_of s id k)) /\ s' = at_db id (db_del k) s.
Proof.
  unfold dbDelete. intros ([] & s1 & [Hv ->]%update_db_run & (o & s2 & (_ & -> & Ho)%lookupKey_run & Hr)%bind_run)%bind_run.
  unfold key_of in Ho. rewrite at_db_at in Ho by done. cbn [dict set_expires] in Ho. fold (key_of s id k) in Ho.
  split; [done|]. destruct (key_of s id k) eqn:Hk; subst o.
  - apply bind_run in Hr as ([] & s3 & [_ ->]%update_db_run & [= <- <-]). split; [done|].
    rewrite at_db_compose. done.
  - injection Hr as <- <-. split; [done|]. apply at_db_ext; [|done]. unfold db_del, set_dict, set_expires. simpl.
    f_equal. by rewrite delete_id.
Qed.

Lemma tri_dbDelete P id k : tri P (dbDelete id k) (fun b => if b : bool then plus P id k else P).
Proof.
  intros s0 s b s' Ht (Hv & -> & ->)%dbDelete_run. case_bool_decide as Hk.
  - eapply tracked_at_db; [done|done|done|apply only_key_del| |]; [by left; auto|by right].
  - eapply tracked_at_db; [done|done|done|apply only_key_del| |done]. intros [].
    apply eq_None_not_Some in Hk. unfold value, key_of. rewrite at_db_at by done. simpl. rewrite lookup_delete_eq.
    unfold key_of in Hk. rewrite Hk. by repeat case_match.
Qed.

Lemma tri_dbDelete_plus P id k : tri P (dbDelete id k) (fun _ => plus P id k).
Proof.
  intros s0 s b s' Ht Hr. pose proof (tri_dbDelete P id k s0 s b s' Ht Hr) as H. destruct b; [done|].
  destruct H as [? ? ? ? Hm]. split; [done..|]. intros id' k' Hne. destruct (Hm id' k' Hne); [by left; right|by right].
Qed.

(** ** Signalling *)

Lemma mark_all_run l : forall s a s',
  mfor l (fun c' => update_client c' (set_flags (set_DIRTY_CAS true))) s = Some (a, s') ->
  softly s s' /\ forall c' x, c' <> c -> c' ∈ l -> clients s' !! c' = Some x -> dirty_cas x = true.
Proof.
  assert (gentle (set_flags (set_DIRTY_CAS true))) as Hg by by intros x.
  induction l as [|d l IH]; intros s a s'; simpl.
  { intros [= _ <-]. split; [done|]. by intros c' x _ ?%elem_of_nil. }
  intros ([] & s1 & H1 & H2)%bind_run. pose proof (soft_update_client d _ (or_intror Hg) _ _ _ H1) as Hs1.
  destruct (IH _ _ _ H2) as [Hs2 Hall]. split; [by etrans|]. intros c' x Hc [->|Hin]%elem_of_cons Hx; [|eauto].
  destruct (so_clients _ _ Hs2 d x Hc Hx) as (x1 & Hx1 & _ & Hd). apply Hd. unfold update_client in H1.
  destruct (clients s !! d) as [z|]; [|done]. injection H1 as <-. simpl in Hx1.
  rewrite lookup_insert_eq in Hx1. by injection Hx1 as <-.
Qed.

(** [signalModifiedKey] settles a pending key. *)
Lemma tri_signal P id k : tri (plus P id k) (signalModifiedKey id k) (fun _ => P).
Proof.
  intros s0 s a s' Ht. unfold signalModifiedKey, touchWatchedKey. intros (d & s1 & H1 & Hr)%bind_run.
  assert (s1 = s /\ d = db_at s id) as [-> ->].
  { unfold get_db in H1. unfold db_at. destruct (rd (dbs s) id); [by injection H1 as -> ->|done]. }
  assert (softly s s' /\ marked s' id k) as [Hs Hm].
  { destruct (watched_keys (db_at s id) !! k) as [l|] eqn:Hk.
    - destruct (mark_all_run _ _ _ _ Hr) as [Hs Hall]. split; [done|]. intros c' x Hc Hx Hw.
      apply (Hall c' x Hc); [|done]. destruct (so_clients _ _ Hs c' x Hc Hx) as (y & Hy & Heq & _).
      rewrite Heq in Hw. pose proof (tr_link _ _ _ Ht c' y id k Hc Hy Hw) as Hin. unfold watchers in Hin.
      by rewrite Hk in Hin.
    - injection Hr as _ <-. split; [done|]. intros c' x Hc Hx Hw.
      pose proof (tr_link _ _ _ Ht c' x id k Hc Hx Hw) as Hin. unfold watchers in Hin. rewrite Hk in Hin.
      by apply elem_of_nil in Hin. }
  destruct (tracked_soft _ _ _ _ Ht Hs) as [? ? ? ? Hmk]. split; [done..|]. intros id' k' Hne.
  destruct (Hmk id' k' Hne) as [[[-> ->]|]|]; auto.
Qed.

Lemma soft_signal id k : soft (signalModifiedKey id k).
Proof.
  intros s a s'. unfold signalModifiedKey, touchWatchedKey. intros (d & s1 & ->%reads_get_db & Hr)%bind_run.
  destruct (_ !! _); [by apply mark_all_run in Hr as [? _]|by injection Hr as _ <-].
Qed.

(** ** Automation *)

Lemma gentle_replies f : gentle (set_replies f).
Proof. by intros x. Qed.
Lemma gentle_mark : gentle (set_flags (set_DIRTY_CAS true)).
Proof. by intros x. Qed.
Lemma soft_addReply c' r : soft (addReply c' r).
Proof. apply soft_update_client. right. apply gentle_replies. Qed.
End acting.

Create HintDb soft discriminated.
#[export] Hint Resolve reads_ret reads_gets reads_lift reads_crash reads_assert reads_get_db reads_get_client : soft.

(** Reads one command down to its primitive operations. *)
Ltac soften :=
  intros;
  lazymatch goal with
  | |- soft _ (_ ≫= _) => apply soft_bind; soften
  | |- soft _ (match ?x with _ => _ end) => destruct x; soften
  | |- soft _ (mfor _ _) => apply soft_mfor; soften
  | |- soft _ (mfor_sum _ _) => apply soft_mfor_sum; soften
  | |- soft _ (mret _) => apply soft_reads, reads_ret
  | |- soft _ (gets _) => apply soft_reads, reads_gets
  | |- soft _ (lift _) => apply soft_reads, reads_lift
  | |- soft _ crash => apply soft_reads, reads_crash
  | |- soft _ (redisAssert _) => apply soft_reads, reads_assert
  | |- soft _ (get_db _) => apply soft_reads, reads_get_db
  | |- soft _ (get_client _) => apply soft_reads, reads_get_client
  | |- soft _ (modify _) => apply soft_modify; intros ?; by repeat case_match
  | |- soft _ (update_client _ _) => apply soft_update_client; first [by left|by right; intros ?]
  | |- _ => auto with soft
  end.

#[export] Hint Resolve soft_addReply soft_signal : soft.

Section soft_ops.
Context (c : cid).

Lemma soft_fail c' e : soft c (addReplyError c' e).
Proof. apply soft_addReply. Qed.
Lemma soft_failf c' e : soft c (addReplyErrorFormat c' e).
Proof. apply soft_addReply. Qed.
Lemma soft_longlong c' n : soft c (addReplyLongLong c' n).
Proof. apply soft_addReply. Qed.
Lemma soft_multibulk c' n : soft c (addReplyMultiBulkLen c' n).
Proof. apply soft_addReply. Qed.
Lemma soft_status c' e : soft c (addReplyStatus c' e).
Proof. apply soft_addReply. Qed.
#[local] Hint Resolve soft_fail soft_failf soft_longlong soft_multibulk soft_status : soft.
Lemma soft_bulk c' o : soft c (addReplyBulk c' o).
Proof. unfold addReplyBulk. soften. Qed.
Lemma soft_arg c' i : soft c (arg c' i).
Proof. unfold arg, client_argv. soften. Qed.
Lemma soft_client_db c' : soft c (client_db c').
Proof. unfold client_db. soften. Qed.
Lemma soft_client_argv c' : soft c (client_argv c').
Proof. unfold client_argv. soften. Qed.
Lemma soft_checkType c' o t : soft c (checkType c' o t).
Proof. unfold checkType. soften. Qed.
Lemma soft_getLongLong c' o msg : soft c (getLongLongFromObjectOrReply c' o msg).
Proof. unfold getLongLongFromObjectOrReply. soften. Qed.
#[local] Hint Resolve soft_bulk soft_arg soft_client_db soft_client_argv soft_checkType soft_getLongLong : soft.
Lemma soft_getLong c' o msg : soft c (getLongFromObjectOrReply c' o msg).
Proof. unfold getLongFromObjectOrReply. soften. Qed.
Lemma soft_checkLength c' n : soft c (checkStringLength c' n).
Proof. unfold checkStringLength. soften. Qed.
Lemma soft_lookupKey id k : soft c (lookupKey id k).
Proof. unfold lookupKey. soften. Qed.
Lemma soft_publish ch msg : soft c (pubsubPublishMessage ch msg).
Proof. unfold pubsubPublishMessage, send_message, send_pmessage, addReplyBulkRaw. soften. Qed.
#[local] Hint Resolve soft_publish : soft.
Lemma soft_notify ty ev k id : soft c (notifyKeyspaceEvent ty ev k id).
Proof. unfold notifyKeyspaceEvent. soften. Qed.
Lemma soft_propagateExpire id k : soft c (propagateExpire id k).
Proof. unfold propagateExpire. soften. Qed.
Lemma soft_getExpire id k : soft c (getExpire id k).
Proof. unfold getExpire. soften. Qed.
End soft_ops.

#[export] Hint Resolve soft_fail soft_failf soft_longlong soft_multibulk soft_status soft_bulk soft_arg soft_client_db
  soft_client_argv soft_checkType soft_getLongLong soft_getLong soft_checkLength soft_lookupKey soft_publish soft_notify
  soft_propagateExpire soft_getExpire : soft.

(** Reads a command down to operations that signal what they change. *)
Ltac signal :=
  intros;
  lazymatch goal with
  | |- signals _ (_ ≫= _) => apply signals_bind; signal
  | |- signals _ (match ?x with _ => _ end) => destruct x; signal
  | |- signals _ (mfor _ _) => apply signals_mfor; signal
  | |- signals _ (mfor_sum _ _) => apply signals_mfor_sum; signal
  | |- signals _ (signalModifiedKey _ _) => apply signals_soft, soft_signal
  | |- signals _ (mret _) => apply signals_soft, soft_reads, reads_ret
  | |- _ => first [solve [auto with signal]|apply signals_soft; solve [soften]]
  end.
Create HintDb signal discriminated.

Section data.
Context (c : cid).

Lemma getExpire_run id k s w s' :
  getExpire id k s = Some (w, s') -> valid s id /\ s' = s /\ w = default (-1) (expire_of s id k).
Proof.
  unfold getExpire. intros (d & s1 & H1 & Hr)%bind_run. unfold get_db in H1.
  destruct (rd (dbs s) id) as [d'|] eqn:Hd; [|done]. injection H1 as -> ->.
  assert (valid s1 id) as Hv.
  { unfold rd in Hd. destruct (Z.leb_spec 0 id); [|done]. apply lookup_lt_Some in Hd. split; [done|]. unfold zlen. lia. }
  unfold expire_of, db_at. rewrite Hd. split; [done|]. simpl. destruct (expires d !! k) as [x|].
  - apply bind_run in Hr as ([] & s2 & ->%reads_assert & [= <- <-]). done.
  - by injection Hr as <- <-.
Qed.

Lemma signals_expireIfNeeded id k : signals c (expireIfNeeded id k).
Proof.
  intros P s0 s b s' Ht. unfold expireIfNeeded. intros (w & s1 & (Hv & -> & ->)%getExpire_run & Hr)%bind_run.
  destruct (Z.ltb_spec (default (-1) (expire_of s id k)) 0) as [|Hw]; [by injection Hr as _ <-|].
  destruct (expire_of s id k) as [w|] eqn:He; [|done]. simpl in Hr, Hw.
  apply bind_run in Hr as (ld & s1 & [= <- <-] & Hr). destruct (loading s) eqn:Hld; [by injection Hr as _ <-|].
  apply bind_run in Hr as (now & s1 & [= <- <-] & Hr). apply bind_run in Hr as (sl & s1 & [= <- <-] & Hr).
  destruct (masterhost s) eqn:Hm; [by injection Hr as _ <-|]. fold (clock s) in Hr.
  destruct (Z.leb_spec (clock s) w); [by injection Hr as _ <-|].
  assert (exists s1, softly c s s1 /\ dbDelete id k s1 = Some (b, s')) as (s1 & Hs & Hdel).
  { apply bind_run in Hr as ([] & s1 & H1 & Hr). apply bind_run in Hr as ([] & s2 & H2 & Hr).
    apply bind_run in Hr as ([] & s3 & H3 & Hr). exists s3. split; [|done].
    assert (soft c (modify (set_stats 0 0 1 0))) as Hst by soften. etrans; [by eapply Hst|].
    etrans; [apply (soft_propagateExpire c _ _ _ _ _ H2)|apply (soft_notify c _ _ _ _ _ _ _ H3)]. }
  apply dbDelete_run in Hdel as (Hv1 & _ & ->).
  eapply tracked_at_db; [by eapply tracked_soft|done|done|apply only_key_del| |done].
  intros []. rewrite (softly_value c s s1) by done. unfold value at 2, due. rewrite He, Hld, Hm.
  destruct (Z.leb_spec 0 w); [|lia]. destruct (Z.gtb_spec (clock s) w); [|lia]. simpl.
  unfold value, key_of. rewrite at_db_at by done. simpl. rewrite lookup_delete_eq. by case_match.
Qed.
#[local] Hint Resolve signals_expireIfNeeded : signal.

Lemma signals_lookupKeyRead id k : signals c (lookupKeyRead id k).
Proof. unfold lookupKeyRead. signal. Qed.
Lemma signals_lookupKeyWrite id k : signals c (lookupKeyWrite id k).
Proof. unfold lookupKeyWrite. signal. Qed.
#[local] Hint Resolve signals_lookupKeyRead signals_lookupKeyWrite : signal.
Lemma signals_lookupKeyReadOrReply c' k r : signals c (lookupKeyReadOrReply c' k r).
Proof. unfold lookupKeyReadOrReply. signal. Qed.
Lemma signals_lookupKeyWriteOrReply c' k r : signals c (lookupKeyWriteOrReply c' k r).
Proof. unfold lookupKeyWriteOrReply. signal. Qed.

Lemma soft_listReady id k : soft c (signalListAsReady id k).
Proof.
  unfold signalListAsReady. soften. apply soft_update_db. intros d. split_and!; [done|done|]. by intros.
Qed.

(** *** Changes *)

Lemma tri_weaken {A} P P' (m : M A) Q Q' :
  tri c P m Q -> (forall id k, P' id k -> P id k) -> (forall a id k, Q a id k -> Q' a id k) -> tri c P' m Q'.
Proof.
  intros Hm HP HQ s0 s a s' [? ? ? ? Hmk] Hr.
  destruct (Hm s0 s a s' ltac:(split; [done..|]; intros id k Hne; destruct (Hmk id k Hne); auto) Hr) as [? ? ? ? Hmk'].
  split; [done..|]. intros id k Hne. destruct (Hmk' id k Hne); auto.
Qed.

Lemma tri_later {A} P (m : M A) id k : tri c P m (fun _ => P) -> tri c P m (fun _ => plus P id k).
Proof. intros Hm. eapply tri_weaken; [exact Hm|done|]. by right. Qed.

(** A pending key changes again. *)
Lemma tri_update_again P id k f :
  keeps_watched f -> only_key k f -> tri c (plus P id k) (update_db id f) (fun _ => plus P id k).
Proof.
  intros Hw Hk. eapply tri_weaken; [by apply (tri_update_db c (plus P id k) id k f)|done|].
  intros a id' k'. unfold plus. tauto.
Qed.

Lemma tri_dbAdd P id k v : tri c P (dbAdd id k v) (fun _ => plus P id k).
Proof.
  unfold dbAdd. apply tri_soft_bind; [soften|]. intros d. apply tri_soft_bind; [soften|]. intros ?.
  eapply tri_bind; [by apply tri_update_db; [|apply only_key_put]|]. intros ?. apply tri_soft.
  pose proof soft_listReady. soften.
Qed.

Lemma tri_dbOverwrite P id k v : tri c P (dbOverwrite id k v) (fun _ => plus P id k).
Proof.
  unfold dbOverwrite. apply tri_soft_bind; [soften|]. intros d. apply tri_soft_bind; [soften|]. intros ?.
  by apply tri_update_db; [|apply only_key_put].
Qed.

Lemma only_key_clear k : only_key k (set_expires (delete k)).
Proof. apply only_key_persist. Qed.

Lemma tri_removeExpire P id k : tri c (plus P id k) (removeExpire id k) (fun _ => plus P id k).
Proof.
  unfold removeExpire. apply tri_soft_bind; [soften|]. intros d. apply tri_soft_bind; [soften|]. intros ?.
  destruct (_ !! _); [|by apply tri_soft, soft_reads, reads_ret].
  eapply tri_bind; [by apply tri_update_again; [|apply only_key_clear]|]. intros ?. by apply tri_soft, soft_reads, reads_ret.
Qed.

Lemma tri_setExpire P id k w : tri c (plus P id k) (setExpire id k w) (fun _ => plus P id k).
Proof.
  unfold setExpire. apply tri_soft_bind; [soften|]. intros d. apply tri_soft_bind; [soften|]. intros ?.
  by apply tri_update_again; [|apply only_key_expire].
Qed.

Lemma tri_setExpire_first P id k w : tri c P (setExpire id k w) (fun _ => plus P id k).
Proof. eapply tri_weaken; [apply tri_setExpire|by right|done]. Qed.

Lemma tri_store P id k b : tri c (plus P id k) (store_string id k b) (fun _ => plus P id k).
Proof. by apply tri_update_again; [|apply only_key_put]. Qed.

Lemma tri_unshare P id k o : tri c P (dbUnshareStringValue id k o) (fun _ => plus P id k).
Proof.
  unfold dbUnshareStringValue. apply tri_soft_bind; [soften|]. intros ?.
  destruct o; try (apply tri_soft_bind; [soften|]; intros b; eapply tri_bind; [apply tri_dbOverwrite|]; intros ?;
    by apply tri_soft, soft_reads, reads_ret).
  by apply tri_later, tri_soft, soft_reads, reads_ret.
Qed.

Lemma signals_setKey id k v : signals c (setKey id k v).
Proof.
  unfold setKey. intros P. apply tri_signals_bind; [signal|]. intros o.
  eapply (tri_bind _ _ _ (fun _ => plus P id k)); [destruct o; [apply tri_dbOverwrite|apply tri_dbAdd]|]. intros ?.
  eapply tri_bind; [apply tri_removeExpire|]. intros ?. apply tri_signal.
Qed.
End data.

#[export] Hint Resolve signals_expireIfNeeded signals_lookupKeyRead signals_lookupKeyWrite signals_lookupKeyReadOrReply
  signals_lookupKeyWriteOrReply signals_setKey : signal.

(** ** The commands *)

Section commands.
Context (c : cid).

(** *** Strings *)

Lemma signal_marks P s0 s id k a s' :
  tracked c P s0 s -> signalModifiedKey id k s = Some (a, s') -> marked c s' id k.
Proof.
  intros Ht Hr. unfold signalModifiedKey, touchWatchedKey in Hr. apply bind_run in Hr as (d & s1 & H1 & Hr).
  assert (s1 = s /\ d = db_at s id) as [-> ->].
  { unfold get_db in H1. unfold db_at. destruct (rd (dbs s) id); [by injection H1 as -> ->|done]. }
  assert (softly c s s') as Hs.
  { destruct (watched_keys (db_at s id) !! k); [by apply (mark_all_run c) in Hr as [? _]|by injection Hr as _ <-]. }
  intros c' x Hc Hx Hw. destruct (so_clients _ _ _ Hs c' x Hc Hx) as (y & Hy & Heq & _). rewrite Heq in Hw.
  pose proof (tr_link _ _ _ _ Ht c' y id k Hc Hy Hw) as Hin. unfold watchers in Hin.
  destruct (watched_keys (db_at s id) !! k) as [l|] eqn:Hk; [|by apply elem_of_nil in Hin].
  apply (mark_all_run c) in Hr as [_ Hall]. by apply (Hall c' x).
Qed.

(** A key that has been signalled may change again within the command. *)
Lemma setExpire_marked P s0 s id k w a s' :
  tracked c P s0 s -> marked c s id k -> setExpire id k w s = Some (a, s') -> tracked c P s0 s'.
Proof.
  intros Ht Hm Hr. pose proof (tri_setExpire_first c P id k w s0 s a s' Ht Hr) as [S L W K M].
  unfold setExpire in Hr. apply bind_run in Hr as (d & s1 & ->%reads_get_db & Hr).
  apply bind_run in Hr as ([] & s1 & ->%reads_assert & [Hv ->]%update_db_run).
  split; [done..|]. intros id' k' Hne. destruct (M id' k' Hne) as [[[-> ->]|]|]; [by right|by left|by right].
Qed.

Lemma soft_parse_expire nm e u : soft c (parse_expire c nm e u).
Proof. unfold parse_expire. soften. Qed.

Lemma signals_set_condition id fl k : signals c (set_condition_fails id fl k).
Proof. unfold set_condition_fails. signal. Qed.

Lemma setKey_run id k v s a s' :
  setKey id k v s = Some (a, s') -> exists s1, signalModifiedKey id k s1 = Some (a, s') /\
    forall P s0, tracked c P s0 s -> tracked c (plus P id k) s0 s1.
Proof.
  unfold setKey. intros (o & s1 & H1 & Hr)%bind_run. apply bind_run in Hr as ([] & s2 & H2 & Hr).
  apply bind_run in Hr as (b & s3 & H3 & Hr). exists s3. split; [done|]. intros P s0 Ht.
  eapply tri_removeExpire; [|exact H3]. pose proof (signals_lookupKeyWrite c id k P s0 s o s1 Ht H1) as Ht1.
  destruct o; [by eapply tri_dbOverwrite|by eapply tri_dbAdd].
Qed.

Lemma signals_setGeneric nm fl k v e u okr abr : signals c (setGenericCommand c nm fl k v e u okr abr).
Proof.
  unfold setGenericCommand. apply signals_bind; [apply signals_soft, soft_parse_expire|]. intros [ms|]; [|signal].
  apply signals_bind; [signal|]. intros id. apply signals_bind; [apply signals_set_condition|]. intros [|]; [signal|].
  intros P s0 s a s' Ht Hr. apply bind_run in Hr as ([] & s1 & H1 & Hr).
  assert (tracked c P s0 s1 /\ marked c s1 id k) as [Ht1 Hm1].
  { destruct (setKey_run _ _ _ _ _ _ H1) as (s2 & H2 & Ht2). split; [by eapply tri_signal; [apply Ht2|]|].
    by eapply signal_marks; [apply Ht2|]. }
  apply bind_run in Hr as ([] & s2 & H2 & Hr). apply bind_run in Hr as (now & s3 & ->%reads_gets & Hr).
  assert (softly c s1 s2) as Hs by (eapply (soft_modify c); [|exact H2]; by intros ?).
  apply bind_run in Hr as ([] & s3 & H3 & Hr).
  assert (tracked c P s0 s3) as Ht3.
  { destruct ms as [ms|]; [|injection H3 as <-; by eapply tracked_soft].
    eapply setExpire_marked; [by eapply tracked_soft|by eapply softly_marked|exact H3]. }
  eapply tracked_soft; [exact Ht3|]. assert (forall m : M unit, soft c m -> m s3 = Some (a, s') -> softly c s3 s') as Hso by (intros m Hm; apply Hm).
  apply Hso in Hr; [done|]. soften.
Qed.
#[local] Hint Resolve signals_setGeneric : signal.

Lemma signals_set : signals c (setCommand c).
Proof. unfold setCommand. signal. Qed.
Lemma signals_setnx : signals c (setnxCommand c).
Proof. unfold setnxCommand. signal. Qed.
Lemma signals_setex : signals c (setexCommand c).
Proof. unfold setexCommand. signal. Qed.
Lemma signals_psetex : signals c (psetexCommand c).
Proof. unfold psetexCommand. signal. Qed.
Lemma signals_getGeneric : signals c (getGenericCommand c).
Proof. unfold getGenericCommand. signal. Qed.
#[local] Hint Resolve signals_getGeneric : signal.
Lemma signals_get : signals c (getCommand c).
Proof. unfold getCommand. signal. Qed.
Lemma signals_getset : signals c (getsetCommand c).
Proof. unfold getsetCommand. signal. Qed.
Lemma signals_strlen : signals c (strlenCommand c).
Proof. unfold strlenCommand. signal. Qed.
Lemma signals_getrange : signals c (getrangeCommand c).
Proof. unfold getrangeCommand. signal. Qed.
Lemma signals_mget : signals c (mgetCommand c).
Proof. unfold mgetCommand, mget_one. signal. Qed.
Lemma signals_mset nx : signals c (msetGenericCommand c nx).
Proof. unfold msetGenericCommand, mset_busykeys. signal. Qed.

(** SETRANGE, INCR and APPEND change the key, then signal it. *)
Lemma tri_setrange_write P id k b off v :
  tri c (plus P id k) (setrange_write c id k b off v) (fun _ => P).
Proof.
  unfold setrange_write. apply tri_soft_bind; [soften|]. intros r. eapply tri_bind; [apply tri_store|]. intros ?.
  eapply tri_bind; [apply tri_signal|]. intros ?. apply tri_soft. soften.
Qed.

Lemma signals_setrange : signals c (setrangeCommand c).
Proof.
  unfold setrangeCommand. do 3 (apply signals_bind; [signal|]; intros ?). case_match; [|signal]. case_match; [signal|].
  do 3 (apply signals_bind; [signal|]; intros ?). case_match; [|case_match; [signal|]].
  - apply signals_bind; [signal|]. intros [|]; [signal|]. apply signals_bind; [signal|]. intros olen.
    case_match; [signal|]. apply signals_bind; [signal|]. intros ok. destruct (negb ok); [signal|].
    intros P. eapply tri_bind; [apply tri_unshare|]. intros b. apply tri_setrange_write.
  - apply signals_bind; [signal|]. intros ok. destruct (negb ok); [signal|].
    intros P. eapply tri_bind; [apply tri_dbAdd|]. intros ?. apply tri_setrange_write.
Qed.

Lemma signals_incrDecr incr : signals c (incrDecrCommand c incr).
Proof.
  unfold incrDecrCommand. apply signals_bind; [signal|]. intros id. apply signals_bind; [signal|]. intros key.
  apply signals_bind; [signal|]. intros o. apply signals_bind; [signal|]. intros [|]; [signal|].
  apply signals_bind; [signal|]. intros [old|]; [|signal]. case_match; [signal|]. cbv zeta. intros P.
  eapply (tri_bind _ _ _ (fun _ => plus P id key)); [case_match; [apply tri_dbOverwrite|apply tri_dbAdd]|]. intros ?.
  eapply tri_bind; [apply tri_signal|]. intros ?. apply tri_soft. soften.
Qed.
#[local] Hint Resolve signals_incrDecr : signal.

Lemma signals_incrby : signals c (incrbyCommand c).
Proof. unfold incrbyCommand. signal. Qed.
Lemma signals_decrby : signals c (decrbyCommand c).
Proof. unfold decrbyCommand. signal. Qed.

Lemma tri_append_done P id k n : tri c (plus P id k) (append_done c id k n) (fun _ => P).
Proof. unfold append_done. eapply tri_bind; [apply tri_signal|]. intros ?. apply tri_soft. soften. Qed.

Lemma signals_append : signals c (appendCommand c).
Proof.
  unfold appendCommand. do 4 (apply signals_bind; [signal|]; intros ?). case_match.
  - apply signals_bind; [signal|]. intros [|]; [signal|]. do 2 (apply signals_bind; [signal|]; intros ?).
    case_match; [signal|]. intros P. eapply tri_bind; [apply tri_unshare|]. intros b.
    eapply tri_bind; [apply tri_store|]. intros ?. apply tri_append_done.
  - apply signals_bind; [signal|]. intros val P. eapply tri_bind; [apply tri_dbAdd|]. intros ?.
    apply tri_soft_bind; [soften|]. intros n. apply tri_append_done.
Qed.
End commands.

#[export] Hint Resolve signals_set signals_setnx signals_setex signals_psetex signals_get signals_getset signals_strlen
  signals_getrange signals_mget signals_mset signals_setrange signals_incrDecr signals_incrby signals_decrby
  signals_append : signal.

(** *** Keys *)

Section keys.
Context (c : cid).

Lemma signals_del : signals c (delCommand c).
Proof.
  unfold delCommand. do 2 (apply signals_bind; [signal|]; intros ?). apply signals_bind; [|signal].
  apply signals_mfor_sum. intros key. apply signals_bind; [signal|]. intros e P.
  eapply tri_bind; [apply tri_dbDelete|]. intros [|]; [|apply tri_soft; soften].
  eapply tri_bind; [apply tri_signal|]. intros ?. apply tri_soft. soften.
Qed.

Lemma signals_exists : signals c (existsCommand c).
Proof. unfold existsCommand, dbExists. signal. Qed.
Lemma soft_selectDb id : soft c (selectDb c id).
Proof. unfold selectDb, dbnum. soften. Qed.
#[local] Hint Resolve soft_selectDb : soft.
Lemma signals_select : signals c (selectCommand c).
Proof. unfold selectCommand. signal. Qed.
Lemma signals_keys : signals c (keysCommand c).
Proof. unfold keysCommand, keys_loop, set_deferred_len. signal. Qed.
Lemma signals_dbsize : signals c (dbsizeCommand c).
Proof. unfold dbsizeCommand. signal. Qed.
Lemma signals_type : signals c (typeCommand c).
Proof. unfold typeCommand. signal. Qed.
Lemma signals_ttl ms : signals c (ttlGenericCommand c ms).
Proof. unfold ttlGenericCommand. signal. Qed.

Lemma signals_expireGeneric base u : signals c (expireGenericCommand c base u).
Proof.
  unfold expireGenericCommand. apply signals_bind; [signal|]. intros id. apply signals_bind; [signal|]. intros key.
  do 2 (apply signals_bind; [signal|]; intros ?). case_match; [|signal]. cbv zeta. apply signals_bind; [signal|].
  intros [|]; [|signal]. do 3 (apply signals_bind; [signal|]; intros ?). case_match; intros P.
  - eapply tri_bind; [apply tri_dbDelete_plus|]. intros b. do 3 (apply tri_soft_bind; [unfold rewriteClientCommandVector; soften|]; intros ?).
    eapply tri_bind; [apply tri_signal|]. intros ?. apply tri_soft. soften.
  - eapply tri_bind; [apply tri_setExpire_first|]. intros ?. apply tri_soft_bind; [soften|]. intros ?.
    eapply tri_bind; [apply tri_signal|]. intros ?. apply tri_soft. soften.
Qed.

(** RENAME leaves two keys pending until the end. *)
Lemma tri_pending_again {A} P (m : M A) id k :
  (forall Q, tri c Q m (fun _ => plus Q id k)) -> tri c (plus P id k) m (fun _ => plus P id k).
Proof.
  intros Hm. eapply tri_weaken; [apply (Hm (plus P id k))|done|]. intros a id' k'. unfold plus. tauto.
Qed.

Lemma signals_rename nx : signals c (renameGenericCommand c nx).
Proof.
  unfold renameGenericCommand. apply signals_bind; [signal|]. intros src. apply signals_bind; [signal|]. intros dst.
  case_match; [signal|]. apply signals_bind; [signal|]. intros [o|]; [|signal].
  apply signals_bind; [signal|]. intros id. do 2 (apply signals_bind; [signal|]; intros ?). case_match; [signal|].
  intros P. eapply (tri_bind _ _ _ (fun _ => plus P id dst)).
  { case_match; [|by apply tri_later, tri_soft, soft_reads, reads_ret].
    eapply tri_bind; [apply tri_dbDelete_plus|]. intros b. apply tri_soft. soften. }
  intros ?. eapply tri_bind; [apply tri_pending_again; intros Q; apply tri_dbAdd|]. intros ?.
  eapply (tri_bind _ _ _ (fun _ => plus P id dst)); [case_match; [apply tri_setExpire|apply tri_soft; soften]|]. intros ?.
  eapply tri_bind; [apply tri_dbDelete_plus|]. intros b. eapply tri_bind; [apply tri_signal|]. intros ?.
  eapply tri_bind; [apply tri_signal|]. intros ?. apply tri_soft. soften.
Qed.

(** *** Flushing *)

(** A turn of a loop. *)
Lemma mfor_turn {A} (l : list A) f x s a s' :
  (forall y, soft c (f y)) -> x ∈ l -> mfor l f s = Some (a, s') ->
  exists s1 s2, softly c s s1 /\ f x s1 = Some (tt, s2) /\ softly c s2 s'.
Proof.
  intros Hf. revert s. induction l as [|y l IH]; intros s Hx; [by apply elem_of_nil in Hx|]. simpl.
  intros ([] & s1 & H1 & H2)%bind_run. apply elem_of_cons in Hx as [->|Hx].
  - exists s, s1. split_and!; [done|done|]. by eapply (soft_mfor c l f).
  - destruct (IH s1 Hx H2) as (s2 & s3 & Ha & Hb & Hd). exists s2, s3. split_and!; [|done..]. etrans; [by eapply Hf|done].
Qed.

Lemma get_client_run c' s x s' : get_client c' s = Some (x, s') -> s' = s /\ clients s !! c' = Some x.
Proof. unfold get_client. destruct (clients s !! c'); [by intros [= -> ->]|done]. Qed.

Lemma get_db_run id s d s' : get_db id s = Some (d, s') -> s' = s /\ d = db_at s id.
Proof. unfold get_db, db_at. destruct (rd (dbs s) id); [by intros [= -> ->]|done]. Qed.

(** FLUSHDB and FLUSHALL mark the clients before they delete the keys. *)
Lemma touchFlush_run dbid s a s' :
  touchWatchedKeysOnFlush dbid s = Some (a, s') -> softly c s s' /\
  forall id k, (match dbid with None => True | Some i => id = i end) -> key_of s id k <> None -> marked c s' id k.
Proof.
  unfold touchWatchedKeysOnFlush. intros (m & s0 & [= <- <-] & Hr)%bind_run. set (f := fun c' : cid => _) in Hr.
  assert (forall c' wk, soft c (if (match dbid with None => true | Some id => wk.1 =? id end) then
      d ← get_db wk.1; match dict d !! wk.2 with
                       | Some _ => update_client c' (set_flags (set_DIRTY_CAS true)) | None => mret tt end
      else mret tt)) as Hg by (intros c' wk; case_match; soften).
  assert (forall c', soft c (f c')) as Hf.
  { intros c'. apply soft_bind; [soften|]. intros x. apply soft_mfor. apply Hg. }
  split; [by eapply (soft_mfor c _ f)|]. intros id k Hid Hk c' x' Hc Hx' Hw.
  assert (c' ∈ (map_to_list (clients s)).*1) as Hin.
  { destruct (so_clients _ _ _ (soft_mfor c _ f Hf _ _ _ Hr) c' x' Hc Hx') as (x & Hx & _).
    apply list_elem_of_fmap. exists (c', x). split; [done|]. by apply elem_of_map_to_list. }
  destruct (mfor_turn _ _ _ _ _ _ Hf Hin Hr) as (s1 & s2 & H1 & Hrun & H2).
  unfold f in Hrun. apply bind_run in Hrun as (x & s3 & [-> Hx]%get_client_run & Hrun).
  destruct (so_clients _ _ _ H2 c' x' Hc Hx') as (x2 & Hx2 & Hw2 & Hd2). apply Hd2.
  destruct (so_clients _ _ _ (soft_mfor c _ _ (Hg c') _ _ _ Hrun) c' x2 Hc Hx2) as (x1 & Hx1 & Hw1 & _).
  assert (x1 = x) as -> by congruence.
  assert ((id, k) ∈ watched x) as Hwx by by rewrite <- Hw1, <- Hw2.
  destruct (mfor_turn _ _ _ _ _ _ (Hg c') Hwx Hrun) as (s4 & s5 & H4 & Hrun' & H5). cbn [fst snd] in Hrun'.
  assert ((match dbid with None => true | Some i => id =? i end) = true) as Hm
    by (destruct dbid; [subst; apply Z.eqb_refl|done]).
  rewrite Hm in Hrun'. apply bind_run in Hrun' as (d & s6 & [-> ->]%get_db_run & Hrun').
  assert (dict (db_at s4 id) !! k = key_of s id k) as Hk4.
  { rewrite (so_dict _ _ _ H4). unfold key_of. by rewrite (so_dict _ _ _ H1). }
  rewrite Hk4 in Hrun'. destruct (key_of s id k); [|done].
  destruct (so_clients _ _ _ H5 c' x2 Hc Hx2) as (x5 & Hx5 & _ & Hd5). apply Hd5.
  unfold update_client in Hrun'. destruct (clients s4 !! c') as [z|]; [|done]. injection Hrun' as <-.
  simpl in Hx5. rewrite lookup_insert_eq in Hx5. by injection Hx5 as <-.
Qed.

(** Deleting keys whose watchers are marked. *)
Lemma tracked_flushed P s0 s s' :
  tracked c P s0 s -> clients s' = clients s -> same_settings s' s -> zlen (dbs s') = zlen (dbs s) ->
  (forall id k, watchers s' id k = watchers s id k) ->
  (forall id k, value s' id k = value s id k \/ (value s' id k = None /\ (key_of s id k <> None -> marked c s id k))) ->
  tracked c P s0 s'.
Proof.
  intros Ht Hc Hs Hlen Hw Hv. eapply tracked_change; [done..| |done]. intros id k Hne. right.
  destruct (Hv id k) as [|[Hn Hm]]; [done|]. apply Hm. intros Hk. apply Hne. rewrite Hn. unfold value. rewrite Hk.
  by case_match.
Qed.

Lemma value_no_key s id k : key_of s id k = None -> value s id k = None.
Proof. unfold value. intros ->. by case_match. Qed.

Lemma signals_flushdb : signals c (flushdbCommand c).
Proof.
  unfold flushdbCommand. apply signals_bind; [signal|]. intros id. do 2 (apply signals_bind; [signal|]; intros ?).
  intros P s0 s b s' Ht Hr. apply bind_run in Hr as ([] & s1 & [Hs Hm]%touchFlush_run & Hr).
  apply bind_run in Hr as ([] & s2 & [Hv ->]%update_db_run & Hr).
  apply bind_run in Hr as ([] & s2 & [_ ->]%update_db_run & Hr). eapply tracked_soft; [|by eapply soft_addReply].
  rewrite at_db_compose. eapply tracked_flushed; [by eapply tracked_soft|done|done|apply zlen_alter| |].
  - intros id' k. unfold watchers. rewrite db_at_cases by done. by case_decide; subst.
  - intros id' k. destruct (decide (id' = id)) as [->|Hne].
    + right. split.
      * apply value_no_key. unfold key_of. rewrite at_db_at by done. simpl. apply lookup_empty.
      * unfold key_of. rewrite (so_dict _ _ _ Hs). by apply Hm.
    + left. apply value_ext; [| |done]; unfold key_of, expire_of; by rewrite db_at_cases, decide_False by done.
Qed.

Lemma emptyDb_at s id :
  db_at (set_dbs (map (fun d => set_dict (fun _ => ∅) (set_expires (fun _ => ∅) d))) s) id =
    set_dict (fun _ => ∅) (set_expires (fun _ => ∅) (db_at s id)).
Proof. unfold db_at, set_dbs. cbn [dbs]. rewrite rd_map. by destruct (rd (dbs s) id). Qed.

Lemma signals_flushall : signals c (flushallCommand c).
Proof.
  intros P s0 s b s' Ht. unfold flushallCommand, emptyDb. intros ([] & s1 & [Hs Hm]%touchFlush_run & Hr)%bind_run.
  apply bind_run in Hr as (n & s2 & H2 & Hr). apply bind_run in H2 as (l & s3 & [= <- <-] & H2).
  apply bind_run in H2 as ([] & s3 & [= <-] & [= _ <-]).
  assert (forall (t : server) (m : M unit), soft c m -> tracked c P s0 t -> m t = Some (b, s') -> tracked c P s0 s') as Hso
    by (intros t m Hm' Ht' Hr'; eapply tracked_soft; [exact Ht'|by eapply Hm']).
  eapply Hso; [|clear Hso|exact Hr]; [soften|].
  eapply tracked_flushed; [by eapply tracked_soft|done|done| | |].
  - unfold zlen, set_dbs. cbn [dbs]. by rewrite length_map.
  - intros id k. unfold watchers. by rewrite emptyDb_at.
  - intros id k. right. split.
    + apply value_no_key. unfold key_of. rewrite emptyDb_at. apply lookup_empty.
    + unfold key_of. rewrite (so_dict _ _ _ Hs). by apply Hm.
Qed.
End keys.

#[export] Hint Resolve signals_del signals_exists signals_select signals_keys signals_dbsize signals_type signals_ttl
  signals_expireGeneric signals_rename signals_flushdb signals_flushall : signal.

(** *** Transactions, Pub/Sub and the connection *)

Section links.
Context (c : cid).

Lemma soft_own (f : client -> client) : soft c (update_client c f).
Proof. apply soft_update_client. by left. Qed.

Lemma soft_watchForKey key : soft c (watchForKey c key).
Proof.
  unfold watchForKey. apply soft_bind; [soften|]. intros x. case_match; [soften|]. apply soft_bind; [soften|]. intros d.
  apply soft_bind; [|intros ?; apply soft_own]. apply soft_update_db. intros d'. split_and!; [done..|].
  intros k c' _ Hin. simpl. destruct (decide (k = key)) as [->|]; [|by rewrite lookup_insert_ne].
  rewrite lookup_insert_eq. simpl. apply elem_of_app. by left.
Qed.

Lemma soft_unwatch_key wk : soft c (unwatch_key c wk).
Proof.
  unfold unwatch_key. intros s a s' (d & s1 & [-> ->]%get_db_run & Hr)%bind_run.
  destruct (watched_keys (db_at s wk.1) !! wk.2) as [l|] eqn:Hl; [|done].
  apply bind_run in Hr as ([] & s2 & ->%reads_assert & Hr). apply bind_run in Hr as ([] & s2 & H2 & Hr).
  etrans; [|by eapply soft_own]. apply update_db_run in H2 as [Hv ->]. split; [apply zlen_alter|..]; [| | |eauto|done].
  1,2: intros id; rewrite db_at_cases by done; by case_decide; subst.
  intros id k c' Hc Hin. unfold watchers in *. rewrite db_at_cases by done. case_decide; [subst id|done]. simpl.
  destruct (decide (k = wk.2)) as [->|Hne].
  - rewrite Hl in Hin. simpl in Hin. assert (c' ∈ del_first c l) as Hin'.
    { clear -Hc Hin. induction l as [|y l IH]; [done|]. simpl. case_decide; [subst|].
      - by apply elem_of_cons in Hin as [->|].
      - apply elem_of_cons in Hin as [->|]; apply elem_of_cons; [by left|right; auto]. }
    case_bool_decide as He; [rewrite He in Hin'; by apply elem_of_nil in Hin'|]. by rewrite lookup_insert_eq.
  - case_bool_decide; [by rewrite lookup_delete_ne|by rewrite lookup_insert_ne].
Qed.
#[local] Hint Resolve soft_own soft_watchForKey soft_unwatch_key : soft.

Lemma soft_unwatchAllKeys : soft c (unwatchAllKeys c).
Proof. unfold unwatchAllKeys. soften. Qed.
#[local] Hint Resolve soft_unwatchAllKeys : soft.
Lemma soft_discardTransaction : soft c (discardTransaction c).
Proof. unfold discardTransaction, initClientMultiState. soften. Qed.
#[local] Hint Resolve soft_discardTransaction : soft.
Lemma soft_watch : soft c (watchCommand c).
Proof. unfold watchCommand. soften. Qed.
Lemma soft_unwatch : soft c (unwatchCommand c).
Proof. unfold unwatchCommand. soften. Qed.
Lemma soft_multi : soft c (multiCommand c).
Proof. unfold multiCommand. soften. Qed.
Lemma soft_discard : soft c (discardCommand c).
Proof. unfold discardCommand. soften. Qed.
Lemma soft_queue : soft c (queueMultiCommand c).
Proof. unfold queueMultiCommand. soften. Qed.
Lemma soft_flagTransaction : soft c (flagTransaction c).
Proof. unfold flagTransaction. soften. Qed.

Lemma soft_count : soft c (clientSubscriptionsCount c).
Proof. unfold clientSubscriptionsCount. soften. Qed.
Lemma soft_nothing kind : soft c (nothing_reply c kind).
Proof. pose proof soft_count. unfold nothing_reply, addReplyBulkRaw. soften. Qed.
#[local] Hint Resolve soft_count soft_nothing : soft.
Lemma soft_subscribe1 ch : soft c (pubsubSubscribeChannel c ch).
Proof. unfold pubsubSubscribeChannel, addReplyBulkRaw. soften. Qed.
Lemma soft_unsubscribe1 ch n : soft c (pubsubUnsubscribeChannel c ch n).
Proof. unfold pubsubUnsubscribeChannel, addReplyBulkRaw. soften. Qed.
Lemma soft_psubscribe1 p : soft c (pubsubSubscribePattern c p).
Proof. unfold pubsubSubscribePattern, addReplyBulkRaw. soften. Qed.
Lemma soft_punsubscribe1 p n : soft c (pubsubUnsubscribePattern c p n).
Proof. unfold pubsubUnsubscribePattern, addReplyBulkRaw. soften. Qed.
#[local] Hint Resolve soft_subscribe1 soft_unsubscribe1 soft_psubscribe1 soft_punsubscribe1 : soft.
Lemma soft_subscribe : soft c (subscribeCommand c).
Proof. unfold subscribeCommand. soften. Qed.
Lemma soft_unsubscribe : soft c (unsubscribeCommand c).
Proof. unfold unsubscribeCommand, pubsubUnsubscribeAllChannels, clear_PUBSUB. soften. Qed.
Lemma soft_psubscribe : soft c (psubscribeCommand c).
Proof. unfold psubscribeCommand. soften. Qed.
Lemma soft_punsubscribe : soft c (punsubscribeCommand c).
Proof. unfold punsubscribeCommand, pubsubUnsubscribeAllPatterns, clear_PUBSUB. soften. Qed.
Lemma soft_publishCommand : soft c (publishCommand c).
Proof. unfold publishCommand, forceCommandPropagation. soften. Qed.
Lemma soft_pubsub : soft c (pubsubCommand c).
Proof. unfold pubsubCommand, pubsub_channels_loop, set_deferred_len, addReplyBulkRaw. soften. Qed.
End links.

#[export] Hint Resolve soft_own soft_unwatchAllKeys soft_discardTransaction soft_watch soft_unwatch soft_multi soft_discard
  soft_queue soft_flagTransaction soft_subscribe soft_unsubscribe soft_psubscribe soft_punsubscribe soft_publishCommand
  soft_pubsub : soft.
