(* ===== verification/WatchSound.v ===== *)
(** * WATCH is sound (src/redis-2.8.19/src/multi.c, redis.c)

    A request of one client that changes the value of a key marks every other
    client that watches the key, so that its EXEC fails; and an EXEC that fails
    executes nothing. *)
From S2P Require Import Prelude Util Glob Object Server Pubsub Watch Db TString Table Exec.
From S2P Require Import Invariant Steps KeySpec View Links Marking Safety ExecSafe Reach.
Open Scope Z_scope.

(** ** Dispatch *)

(** MOVE and PERSIST are the modelled commands that do not call [signalModifiedKey]. *)
Definition signalling (p : proc_t) : Prop :=
  match p with P_moveCommand | P_persistCommand | OtherCommand _ => False | _ => True end.

Definition signalling_args (l : list bytes) : Prop :=
  forall a cmd, rd l 0 = Some a -> lookupCommand a = Some cmd -> signalling (proc cmd).

(** In a state of the server nothing is pending. *)
Lemma tracked_start c s : server_ok s -> tracked c none s s.
Proof.
  intros Hs. split; [done|done|eauto| |done]. intros c' x id k _ Hx Hw.
  assert (valid s id) as Hv by (eapply cl_watched_db; [by eapply ok_clients|done]).
  apply (db_watch _ _ _ (db_at_ok s id Hs Hv) k). by exists x.
Qed.

Section dispatch.
Context (cfg : config) (freeMemoryIfNeeded : M bool) (handleClientsBlockedOnLists : M unit).
Context (other : bytes -> cid -> M unit) (c : cid).

Lemma soft_auth : soft c (authCommand cfg c).
Proof. unfold authCommand. soften. Qed.
Lemma soft_ping : soft c (pingCommand c).
Proof. unfold pingCommand. soften. Qed.
Lemma soft_echo : soft c (echoCommand c).
Proof. unfold echoCommand. soften. Qed.

Lemma signals_run_proc exec p : signalling p -> signals c (exec c) -> signals c (run_proc cfg other exec p c).
Proof using Type.
  intros Hp He. pose proof soft_auth. pose proof soft_ping. pose proof soft_echo.
  destruct p; simpl; try done; try (solve [auto with signal|by apply signals_soft; auto with soft]).
  all: try (unfold incrCommand, decrCommand, msetCommand, msetnxCommand, renameCommand, renamenxCommand, expireCommand,
    expireatCommand, pexpireCommand, pexpireatCommand, ttlCommand, pttlCommand; signal).
Qed.

Lemma signals_call run : signals c run -> signals c (call run c).
Proof.
  intros Hr. unfold call. do 3 (apply signals_bind; [signal|]; intros ?). apply signals_bind; [done|]. intros ?.
  unfold propagate. signal.
Qed.

Lemma exec_one_tracked P s0 s must j l b s' :
  tracked c P s0 s -> signalling_args l -> exec_one cfg other c must j l s = Some (b, s') -> tracked c P s0 s'.
Proof using Type.
  intros Ht Hl Hr. unfold exec_one in Hr. apply bind_run in Hr as ([] & s1 & H1 & Hr).
  pose proof (soft_own c _ _ _ _ H1) as Hs1. apply bind_run in Hr as (a0 & s2 & H2 & Hr).
  assert (rd l 0 = Some a0 /\ s2 = s1) as [Ha ->].
  { unfold update_client in H1. destruct (clients s !! c) as [x|]; [|done]. injection H1 as <-.
    unfold arg, client_argv in H2. apply bind_run in H2 as (l' & s3 & H3 & H2).
    apply bind_run in H3 as (y & s4 & [-> Hy]%get_client_run & [= <- <-]). simpl in Hy.
    rewrite lookup_insert_eq in Hy. injection Hy as <-. simpl in H2. unfold lift in H2.
    destruct (rd l 0); [by injection H2 as -> ->|done]. }
  apply bind_run in Hr as (cmd & s2 & H3 & Hr). unfold lift in H3.
  destruct (lookupCommand a0) as [cmd'|] eqn:Hc; [|done]. injection H3 as -> <-.
  assert (signals c (must0 ← (if negb must && negb (REDIS_CMD_READONLY cmd) then
      _ ← execCommandPropagateMulti c; mret true else mret must);
    _ ← call (run_proc cfg other (fun _ => crash) (proc cmd) c) c;
    x ← get_client c;
    _ ← update_client c (set_mstate (fun q => <[j := argv x]> q));
    mret must0)) as Hsig.
  { apply signals_bind; [unfold execCommandPropagateMulti, propagate; signal|]. intros m.
    apply signals_bind; [|signal]. apply signals_call, signals_run_proc; [by eapply Hl|signal]. }
  eapply Hsig; [|exact Hr]. by eapply tracked_soft.
Qed.

Lemma exec_loop_tracked P s0 q : Forall signalling_args q -> forall s must j b s',
  tracked c P s0 s -> exec_loop cfg other c must j q s = Some (b, s') -> tracked c P s0 s'.
Proof using Type.
  induction 1 as [|l q Hl _ IH]; intros s must j b s' Ht; simpl; [by intros [= _ <-]|].
  intros (m & s1 & H1 & H2)%bind_run. eapply IH; [|exact H2]. by eapply exec_one_tracked.
Qed.

Lemma tracked_then {A} P s0 s (m : M A) a s' :
  tracked c P s0 s -> signals c m -> m s = Some (a, s') -> tracked c P s0 s'.
Proof. intros Ht Hm. by apply Hm. Qed.

Lemma exec_tracked P s0 s a s' :
  tracked c P s0 s -> (forall x, clients s !! c = Some x -> Forall signalling_args (mstate x)) ->
  execCommand cfg other c s = Some (a, s') -> tracked c P s0 s'.
Proof using Type.
  intros Ht Hq Hr. unfold execCommand in Hr. apply bind_run in Hr as (x & s1 & [-> Hx]%get_client_run & Hr).
  destruct (negb _); [eapply tracked_then; [exact Ht| |exact Hr]; signal|].
  destruct (_ || _); [eapply tracked_then; [exact Ht| |exact Hr]; signal|].
  apply bind_run in Hr as ([] & s1 & H1 & Hr). apply bind_run in Hr as ([] & s2 & H2 & Hr).
  apply bind_run in Hr as (must & s3 & H3 & Hr).
  assert (tracked c P s0 s3) as Ht3.
  { eapply exec_loop_tracked; [by apply Hq| |exact H3]. eapply tracked_soft; [|by eapply soft_multibulk].
    eapply tracked_soft; [done|by eapply soft_unwatchAllKeys]. }
  eapply tracked_then; [exact Ht3| |exact Hr]. signal.
Qed.

(** [call] around EXEC. *)
Lemma call_exec_tracked P s0 s a s' :
  tracked c P s0 s -> (forall x, clients s !! c = Some x -> Forall signalling_args (mstate x)) ->
  call (execCommand cfg other c) c s = Some (a, s') -> tracked c P s0 s'.
Proof using Type.
  intros Ht Hq Hr. unfold call in Hr. apply bind_run in Hr as (x & s1 & [-> Hx]%get_client_run & Hr).
  apply bind_run in Hr as ([] & s1 & H1 & Hr). apply bind_run in Hr as (d & s2 & ->%reads_gets & Hr).
  apply bind_run in Hr as ([] & s2 & H2 & Hr). eapply tracked_then; [|clear Hr|exact Hr]; [|unfold propagate; signal].
  eapply exec_tracked; [| |exact H2]; [eapply tracked_soft; [done|by eapply soft_own]|].
  intros y Hy. unfold update_client in H1. rewrite Hx in H1. injection H1 as <-. simpl in Hy.
  rewrite lookup_insert_eq in Hy. injection Hy as <-. exact (Hq x Hx).
Qed.

(** What a client may send: no MOVE, no PERSIST, now or in its transaction. *)
Definition signalling_client (x : client) : Prop := signalling_args (argv x) /\ Forall signalling_args (mstate x).

Lemma processCommand_tracked s b s' x :
  maxmemory cfg = false -> good s -> clients s !! c = Some x -> request_ok (argv x) -> signalling_client x ->
  processCommand cfg freeMemoryIfNeeded handleClientsBlockedOnLists other c s = Some (b, s') -> tracked c none s s'.
Proof using Type.
  intros Hmax Hg Hx Hreq [Hl Hq] Hr. pose proof (tracked_start c s (proj1 Hg)) as Ht. unfold processCommand in Hr. apply bind_run in Hr as (a0 & s1 & H1 & Hr).
  assert (s1 = s /\ rd (argv x) 0 = Some a0) as [-> Ha].
  { unfold arg, client_argv in H1. apply bind_run in H1 as (l & s2 & H2 & H1).
    apply bind_run in H2 as (y & s3 & [-> Hy]%get_client_run & [= <- <-]). rewrite Hx in Hy. injection Hy as <-.
    unfold lift in H1. destruct (rd (argv x) 0); [by injection H1 as -> ->|done]. }
  destruct (strcasecmp_eq a0 _); [eapply tracked_then; [exact Ht| |exact Hr]; signal|].
  apply bind_run in Hr as (y & s1 & [-> Hy]%get_client_run & Hr). rewrite Hx in Hy. injection Hy as <-.
  destruct (lookupCommand a0) as [cmd|] eqn:Hc; [|eapply tracked_then; [exact Ht| |exact Hr]; signal].
  destruct (arity_ok _ _) eqn:Harity; simpl in Hr; [|eapply tracked_then; [exact Ht| |exact Hr]; signal].
  assert (free_memory cfg freeMemoryIfNeeded x cmd = mret false) as Hfree
    by (unfold free_memory; rewrite Hmax; by case_match).
  rewrite Hfree in Hr. apply bind_run in Hr as (oom & s1 & [= <- <-] & Hr).
  apply bind_run in Hr as (y & s1 & [-> Hy]%get_client_run & Hr). rewrite Hx in Hy. injection Hy as <-.
  apply bind_run in Hr as (r & s1 & ->%reads_gets & Hr).
  destruct r as [r|]; [eapply tracked_then; [exact Ht| |exact Hr]; signal|].
  destruct (_ && _); [eapply tracked_then; [exact Ht| |exact Hr]; signal|].
  apply bind_run in Hr as ([] & s1 & H2 & Hr).
  assert (tracked c none s s1) as Ht1.
  { destruct (decide (proc cmd = P_execCommand)) as [He|Hne].
    - rewrite He in H2. eapply call_exec_tracked; [exact Ht| |exact H2]. intros y. rewrite Hx. by intros [= <-].
    - eapply tracked_then; [exact Ht| |exact H2]. apply signals_call. unfold proc_of.
      assert (run_proc cfg other (execCommand cfg other) (proc cmd) c = run_proc cfg other (fun _ => crash) (proc cmd) c) as ->
        by by destruct (proc cmd).
      apply signals_run_proc; [by eapply Hl|]. signal. }
  pose proof (call_proc_safe cfg other c x a0 cmd s Hg Hx Ha Hc Harity Hreq) as Hsafe. unfold wp in Hsafe. rewrite H2 in Hsafe.
  assert (ready_keys s1 = []) as Hready by (apply (ev_idle _ _ Hsafe), Hg).
  apply bind_run in Hr as (l & s2 & [= <- <-] & Hr). rewrite bool_decide_true in Hr by done. by injection Hr as _ <-.
Qed.
End dispatch.

(** C3: WATCH is sound: in a reachable state, when a harmless request of another client for
    a modelled command, a transaction included, changes the value of a key that a client
    watches, that client is marked and its EXEC will fail; MOVE, PERSIST and eviction,
    which do not mark, are excepted. *)
Theorem watch_sound cfg freeMemoryIfNeeded handleClientsBlockedOnLists other c c' s b s' x y y' id k :
  maxmemory cfg = false -> good s -> clients s !! c = Some x -> request_ok (argv x) -> signalling_client x ->
  processCommand cfg freeMemoryIfNeeded handleClientsBlockedOnLists other c s = Some (b, s') ->
  c' <> c -> clients s !! c' = Some y -> (id, k) ∈ watched y -> clients s' !! c' = Some y' ->
  live s' id k <> live s id k -> REDIS_DIRTY_CAS (flags y') = true.
Proof.
  intros Hmax Hg Hx Hreq Hsx Hr Hne Hy Hw Hy' Hch. pose proof Hg as (Hs & _).
  pose proof (processCommand_tracked cfg freeMemoryIfNeeded _ other c s b s' x Hmax Hg Hx Hreq Hsx Hr) as Ht.
  assert (valid s id) as Hv by (eapply cl_watched_db; [by eapply ok_clients|done]).
  assert (valid s' id) as Hv' by (unfold valid; by rewrite (tr_len _ _ _ _ Ht)).
  rewrite <- !value_live in Hch by done. destruct (tr_marked _ _ _ _ Ht id k Hch) as [[]|Hm].
  apply (Hm c' y' Hne Hy'). destruct (tr_watched _ _ _ _ Ht c' y' Hne Hy') as (z & Hz & ->).
  by assert (z = y) as -> by congruence.
Qed.

(** ** EXEC of a marked client *)

(** The acting client keeps everything but its watched keys. *)
Definition own_same (x x' : client) : Prop :=
  replies x' = replies x /\ flags x' = flags x /\ mstate x' = mstate x.

Lemma unwatch_key_own c wk s a s' x :
  unwatch_key c wk s = Some (a, s') -> clients s !! c = Some x ->
  exists x', clients s' !! c = Some x' /\ own_same x x'.
Proof.
  unfold unwatch_key. intros (d & s1 & [-> ->]%get_db_run & Hr)%bind_run Hx.
  destruct (watched_keys (db_at s wk.1) !! wk.2) as [l|]; [|done].
  apply bind_run in Hr as ([] & s2 & ->%reads_assert & Hr). apply bind_run in Hr as ([] & s2 & [_ ->]%update_db_run & Hr).
  unfold update_client in Hr. simpl in Hr. rewrite Hx in Hr. injection Hr as _ <-. eexists. split; [apply lookup_insert_eq|done].
Qed.

Lemma unwatch_all_own c s a s' x :
  unwatchAllKeys c s = Some (a, s') -> clients s !! c = Some x ->
  exists x', clients s' !! c = Some x' /\ own_same x x'.
Proof.
  unfold unwatchAllKeys. intros (y & s1 & [-> _]%get_client_run & Hr)%bind_run Hx. revert s x Hx Hr.
  induction (watched y) as [|wk l IH]; intros s x Hx; simpl; [intros [= _ <-]; by exists x|].
  intros ([] & s1 & H1 & H2)%bind_run. destruct (unwatch_key_own _ _ _ _ _ _ H1 Hx) as (x1 & Hx1 & R1 & F1 & M1).
  destruct (IH s1 x1 Hx1 H2) as (x2 & Hx2 & R2 & F2 & M2). exists x2. split; [done|]. split_and!; congruence.
Qed.

(** No table of watched keys lists the client. *)
Definition watches_nothing (c : cid) (s : server) : Prop :=
  (forall x, clients s !! c = Some x -> watched x = []) /\
  forall id d k l, rd (dbs s) id = Some d -> watched_keys d !! k = Some l -> c ∉ l.

Lemma discard_unwatches c s : server_ok s -> alive c s -> wp (discardTransaction c) (fun _ s' => server_ok s' /\ watches_nothing c s') s.
Proof.
  intros Hs Ha. unfold discardTransaction.
  eapply wp_seq; [by apply init_mstate_safe|]. cbv beta. intros _ s1 He1.
  eapply wp_seq; [apply (safe_flags c (fun f => set_MULTI false (set_DIRTY_CAS false (set_DIRTY_EXEC false f))));
    [by intros []|apply He1|by apply (ev_alive _ _ He1)]|]. cbv beta. intros _ s2 He2.
  assert (alive c s2) as [y Hy] by (apply (ev_alive _ _ He2), (ev_alive _ _ He1), Ha).
  eapply wp_mono; [eapply (unwatchAllKeys_spec c y s2 s2); [done|apply He2|done]|]. cbv beta.
  intros _ s3 (t & Hq & Hok & _ & Hc & _). assert (server_ok s3) as Hok3 by by rewrite Hq.
  assert (forall x, clients s3 !! c = Some x -> watched x = []) as Hnone.
  { intros x Hx. destruct (quiet_client _ _ _ _ Hq Hx) as (z & Hz & (_ & _ & _ & -> & _)%client_core_eq).
    rewrite Hc, lookup_alter_eq, Hy in Hz. by injection Hz as <-. }
  split; [done|]. split; [done|]. intros id d k l Hd Hl Hin.
  destruct (ok_dbs s3 Hok3 id d Hd) as [_ _ Hw]. specialize (Hw k) as [Hw _]. rewrite Hl in Hw. apply Hw in Hin as (x & Hx & Hin).
  rewrite (Hnone x Hx) in Hin. by apply not_elem_of_nil in Hin.
Qed.

Definition no_transaction (f : cflags) : cflags := set_MULTI false (set_DIRTY_CAS false (set_DIRTY_EXEC false f)).

Lemma discard_own c s a s' x :
  discardTransaction c s = Some (a, s') -> clients s !! c = Some x ->
  exists x', clients s' !! c = Some x' /\ replies x' = replies x /\ flags x' = no_transaction (flags x) /\ mstate x' = [].
Proof.
  unfold discardTransaction, initClientMultiState. intros ([] & s1 & H1 & Hr)%bind_run Hx.
  unfold update_client in H1. rewrite Hx in H1. injection H1 as <-. apply bind_run in Hr as ([] & s2 & H2 & Hr).
  unfold update_client in H2. simpl in H2. rewrite lookup_insert_eq in H2. injection H2 as <-.
  destruct (unwatch_all_own _ _ _ _ _ Hr (lookup_insert_eq _ _ _)) as (x' & Hx' & R & F & M). eauto.
Qed.

Lemma softly_views c s s' : softly c s s' -> views s' (view s).
Proof.
  intros H id k Hv. pose proof (so_settings _ _ _ H) as (? & ? & ?). apply view_ext; try done.
  - unfold valid. by rewrite <- (so_len _ _ _ H).
  - unfold key_of. by rewrite (so_dict _ _ _ H).
  - unfold expire_of. by rewrite (so_expires _ _ _ H).
Qed.

(** C4: An EXEC whose client has been marked, or has had an error while queueing,
    executes nothing: the key space is as before, the reply is the null reply, or
    EXECABORT after an error, the transaction is over and the client watches nothing: its
    list is empty and no table of watched keys lists it. *)
Theorem exec_aborts cfg other c y s :
  server_ok s -> clients s !! c = Some y -> REDIS_MULTI (flags y) = true ->
  REDIS_DIRTY_CAS (flags y) || REDIS_DIRTY_EXEC (flags y) = true ->
  wp (execCommand cfg other c) (fun _ s' => views s' (view s) /\
    replied c (if REDIS_DIRTY_EXEC (flags y) then shared_execaborterr else shared_nullmultibulk) s' /\
    watches_nothing c s' /\
    exists y', clients s' !! c = Some y' /\ flags y' = no_transaction (flags y) /\ mstate y' = [] /\ watched y' = []) s.
Proof.
  intros Hs Hy Hmulti Hdirty. unfold execCommand.
  set (m := _ ← addReply c (if REDIS_DIRTY_EXEC (flags y) then shared_execaborterr else shared_nullmultibulk);
            discardTransaction c).
  apply wp_bind. eapply wp_get_client; [done|]. rewrite Hmulti, Hdirty. change (wp m (fun _ s' => views s' (view s) /\
    replied c (if REDIS_DIRTY_EXEC (flags y) then shared_execaborterr else shared_nullmultibulk) s' /\
    watches_nothing c s' /\
    exists y', clients s' !! c = Some y' /\ flags y' = no_transaction (flags y) /\ mstate y' = [] /\ watched y' = []) s).
  assert (soft c m) as Hsoft by (unfold m; soften).
  assert (wp m (fun _ s' => server_ok s' /\ watches_nothing c s') s) as Hrun.
  { unfold m. eapply wp_seq; [apply (safe_addReply c); [done|by exists y]|]. cbv beta. intros _ s1 He.
    apply discard_unwatches; [apply He|]. apply (ev_alive _ _ He). by exists y. }
  apply wp_run in Hrun as (a & s' & Hr & _ & Hnone).
  apply wp_run. exists a, s'. split; [done|]. split; [by eapply softly_views, Hsoft|].
  unfold m in Hr. apply bind_run in Hr as ([] & s1 & H1 & Hr). unfold addReply, update_client in H1.
  rewrite Hy in H1. injection H1 as <-.
  destruct (discard_own _ _ _ _ _ Hr (lookup_insert_eq _ _ _)) as (y' & Hy' & R & F & M). split_and!; [|done|].
  - exists y'. split; [done|]. rewrite R. simpl. by rewrite last_snoc.
  - exists y'. split_and!; [done..|]. by apply Hnone.
Qed.

(** ** An instance *)

(** The second client watches the key [k]; then the first one sets it. *)
Definition demo_watch : server := after 2 [zs "watch"; zs "k"] demo.
Definition demo_set : server := after 1 [zs "set"; zs "k"; zs "1"] demo_watch.

Lemma demo_watch_good : good demo_watch.
Proof. apply after_simple; [apply demo_good|by exists new_client|done|by intros a cmd [= <-] [= <-]]. Qed.

Lemma watch_sound_witness : REDIS_DIRTY_CAS (flags (client_of demo_set 2)) = true.
Proof.
  apply (watch_sound no_config no_eviction no_blocked unknown 1 2
    (receive 1 [zs "set"; zs "k"; zs "1"] demo_watch) true demo_set
    (client_of (receive 1 [zs "set"; zs "k"; zs "1"] demo_watch) 1) (client_of demo_watch 2) _ 0 (zs "k")).
  - reflexivity.
  - apply (receive_good 1 _ demo_watch demo_watch_good). by eexists.
  - vm_compute. reflexivity.
  - split; [done|]. intros a cmd [= <-] [= <-]. done.
  - assert (mstate (client_of (receive 1 [zs "set"; zs "k"; zs "1"] demo_watch) 1) = []) as Hm by (vm_compute; reflexivity).
    split; [|by rewrite Hm]. intros a cmd [= <-] [= <-]. done.
  - vm_compute. reflexivity.
  - done.
  - vm_compute. reflexivity.
  - by left.
  - vm_compute. reflexivity.
  - vm_compute. discriminate.
Defined.

(** The second client opens its transaction after the first one has set the key. *)
Definition demo_multi : server := after 2 [zs "multi"] demo_set.

Lemma demo_multi_good : good demo_multi.
Proof.
  do 2 (apply after_simple; [|by eexists|done|by intros a cmd [= <-] [= <-]]). apply demo_watch_good.
Qed.

Lemma exec_aborts_witness :
  wp (execCommand no_config unknown 2) (fun _ s' => views s' (view demo_multi) /\ replied 2 shared_nullmultibulk s' /\
    watches_nothing 2 s' /\
    exists y', clients s' !! 2 = Some y' /\ flags y' = no_transaction (flags (client_of demo_multi 2)) /\ mstate y' = [] /\ watched y' = [])
    demo_multi.
Proof.
  apply (exec_aborts no_config unknown 2 (client_of demo_multi 2) demo_multi).
  - apply demo_multi_good.
  - vm_compute. reflexivity.
  - vm_compute. reflexivity.
  - vm_compute. reflexivity.
Defined.

(** ** What is not signalled *)

(** The key [k] of database 0 holds 10. *)
Definition demo_key : server := after 1 [zs "set"; zs "k"; zs "10"] demo.

(** MOVE takes a watched key away without marking the client that watches it:
    its transaction is executed although the key it depends on has changed. *)
Theorem move_unnoticed :
  let s0 := after 2 [zs "watch"; zs "k"] demo_key in
  let s := after 2 [zs "multi"] (after 1 [zs "move"; zs "k"; zs "1"] s0) in
  let s' := after 2 [zs "exec"] (after 2 [zs "set"; zs "done"; zs "1"] s) in
  live s0 0 (zs "k") = Some (StrInt 10) /\ live s 0 (zs "k") = None /\
  REDIS_DIRTY_CAS (flags (client_of s 2)) = false /\ live s' 0 (zs "done") = Some (StrInt 1).
Proof. vm_compute. done. Qed.

(** C40: PERSIST does not look at the deadline it removes: a key that has expired and has
    not been deleted yet, whatever its value, is alive again with that value and without
    a deadline, and the reply is 1. *)
Theorem persist_revives c y k o s :
  server_ok s -> clients s !! c = Some y -> rd (argv y) 1 = Some k ->
  key_of s (db y) k = Some o -> due s (db y) k = true -> masterhost s = false ->
  live s (db y) k = None /\
  wp (persistCommand c) (fun _ s' => live s' (db y) k = Some o /\ expire_of s' (db y) k = None /\ replied c shared_cone s') s.
Proof.
  intros Hs Hy Hk Ho Hdue Hm. assert (valid s (db y)) as Hv by eauto with server. split; [by apply live_due|].
  eapply wp_mono; [by apply (persist_ok' c y k s s)|]. cbv beta. intros _ s' [Hq Hr].
  assert (expire_of (at_db (db y) (db_persist k) s) (db y) k = None) as He.
  { unfold expire_of. rewrite at_db_at by done. apply lookup_delete_eq. }
  assert (expire_of s' (db y) k = None) as He' by (unfold expire_of in *; by rewrite (quiet_db_at _ _ _ Hq)).
  split_and!; [|done|].
  - rewrite live_not_due by (unfold due; by rewrite He'). unfold key_of. rewrite (quiet_db_at _ _ _ Hq), at_db_at by done. exact Ho.
  - unfold due in Hdue. by destruct (expire_of s (db y) k).
Qed.

Lemma demo_expired_good : good (set_mstime 2000 (after 1 [zs "pexpire"; zs "k"; zs "500"] demo_key)).
Proof.
  apply set_mstime_good. do 2 (apply after_simple; [|by eexists|done|by intros a cmd [= <-] [= <-]]). apply demo_good.
Qed.

Lemma persist_revives_witness :
  let s0 := receive 1 [zs "persist"; zs "k"] (set_mstime 2000 (after 1 [zs "pexpire"; zs "k"; zs "500"] demo_key)) in
  live s0 0 (zs "k") = None /\
  wp (persistCommand 1) (fun _ s' => live s' 0 (zs "k") = Some (StrInt 10) /\ expire_of s' 0 (zs "k") = None /\ replied 1 shared_cone s') s0.
Proof.
  intros s0. apply (persist_revives 1 (client_of s0 1) (zs "k") (StrInt 10) s0).
  - apply (receive_good 1 [zs "persist"; zs "k"] _ demo_expired_good). by eexists.
  - vm_compute. reflexivity.
  - vm_compute. reflexivity.
  - vm_compute. reflexivity.
  - vm_compute. reflexivity.
  - vm_compute. reflexivity.
Defined.
