(* ===== verification/Commands.v ===== *)
(** * The commands, as a client sees them

    The theorems on the key space commands: what a later command observes of an
    earlier one, the bounds of the integers and of the strings, what happens to the
    deadlines, and the defects that the model shows. *)
From S2P Require Import Prelude Util Glob Object Server Pubsub Watch Db TString Table Exec.
From S2P Require Import Invariant Steps StringSpec KeySpec View Links Safety ExecSafe Reach.
Open Scope Z_scope.
Open Scope server_scope.

(** Runs of two commands: the second one's arguments arrive in between. *)
Definition then_by (m : M unit) (c : cid) (l : list bytes) (m' : M unit) : M unit :=
  _ ← m; _ ← modify (receive c l); m'.

Lemma wp_then_by m c l m' t Q s :
  wp m (fun _ s' => s' ≈ t) s -> (forall s', s' ≈ receive c l t -> wp m' Q s') -> wp (then_by m c l m') Q s.
Proof.
  intros Hm Hm'. unfold then_by. eapply wp_seq; [exact Hm|]. cbv beta. intros _ s1 Hq.
  apply wp_bind, wp_modify, Hm'. unfold receive.
  by apply (client_at_proper c (set_argv l) (core_write_argv l)).
Qed.

Lemma receive_client c l y s : clients s !! c = Some y -> clients (receive c l s) !! c = Some (set_argv l y).
Proof. apply client_at_lookup. Qed.

Lemma receive_ok c l y s : server_ok s -> clients s !! c = Some y -> server_ok (receive c l s).
Proof.
  intros Hs Hy. eapply client_at_server_ok; [done..|]. by apply (ok_client_db s c y).
Qed.

(** Receiving leaves the keys. *)
Lemma receive_live c l s id k : live (receive c l s) id k = live s id k.
Proof.
  unfold live, purge, due, clock. change (expire_of (receive c l s) id k) with (expire_of s id k).
  simpl. by destruct (_ && _).
Qed.

Lemma client_other c l y c' y' s :
  clients s !! c = Some y -> clients s !! c' = Some y' ->
  exists z, clients (receive c l s) !! c' = Some z /\ db z = db y'.
Proof.
  intros Hy Hy'. unfold receive. rewrite (client_at_fwd c _ s c' y' Hy'). case_decide; eauto.
Qed.

(** ** SET, then GET *)

Lemma live_key_set s id k v : valid s id -> live (key_set id k v s) id k = Some v.
Proof.
  intros Hv. rewrite live_not_due; [by apply key_set_key|].
  unfold due, expire_of, key_set. rewrite at_db_at by done. simpl. by rewrite lookup_delete_eq.
Qed.

(** C5: After a plain SET by one client, a GET of the key by any client on the same
    database replies with exactly the bytes that were set, whatever was there
    before, of whatever type, expired or not. *)
Theorem set_get c c' y y' k v s :
  server_ok s -> clients s !! c = Some y -> argv y = [zs "set"; k; v] ->
  clients s !! c' = Some y' -> db y' = db y ->
  wp (then_by (setCommand c) c' [zs "get"; k] (getCommand c'))
    (fun _ s' => replied c' (RBulk v) s' /\ live s' (db y) k = Some (enc v)) s.
Proof.
  intros Hs Hy Hl Hy' Hdb. assert (valid s (db y)) as Hv by eauto with server.
  eapply (wp_then_by _ _ _ _ (key_set (db y) k (enc v) s)).
  - eapply wp_mono; [eapply (set_ok c y k v s s); rewrite ?Hl; done|].
    cbv beta. rewrite Hl. simpl. by intros _ s' [Hq _].
  - intros s1 Hq. set (t := key_set (db y) k (enc v) s) in *.
    assert (server_ok t) as Ht by (apply key_set_ok; auto with server).
    assert (live (receive c' [zs "get"; k] t) (db y) k = Some (enc v)) as Hlive
      by (rewrite receive_live; by apply live_key_set).
    assert (valid (receive c' [zs "get"; k] t) (db y)) as Hv' by by apply valid_key_set'.
    eapply wp_mono; [eapply (get_ok c' (set_argv [zs "get"; k] y') k); [exact Hq| | |done]|].
    + by eapply receive_ok.
    + by apply receive_client.
    + cbv beta. simpl. rewrite Hdb, Hlive. intros _ s' [Hq' Hr].
      destruct (live_Some _ _ _ _ Hv' Hlive) as [Hp _]. rewrite Hp in Hq'. split.
      * destruct (enc_ok v) as (_ & _ & _ & He & _). unfold get_reply in Hr. by rewrite He in Hr.
      * by rewrite (live_proper _ _ (db y) k Hq').
Qed.

(** ** The commands on the abstract key space *)

(** [c] runs a command with the arguments [l] on the database [id]. *)
Definition runs (c : cid) (id : Z) (l : list bytes) (s : server) : Prop :=
  server_ok s /\ exists y, clients s !! c = Some y /\ argv y = l /\ db y = id.

Lemma runs_valid c id l s : runs c id l s -> valid s id.
Proof. intros (Hs & y & Hy & _ & <-). eauto with server. Qed.

(** C18: INCRBY adds exactly: when the value and the increment are integers and the
    sum is a 64-bit integer, the key holds the sum, with its deadline, and the reply
    is the sum; otherwise there is an error and the key space is as before. No
    intermediate computation overflows. *)
Theorem incrby_exact c id k a n old s :
  runs c id [zs "incrby"; k; a] s -> ll_of (Some (StrRaw a)) = Some n ->
  is_string (live s id k) = true -> ll_of (live s id k) = Some old ->
  wp (incrbyCommand c) (fun _ s' =>
    if (LLONG_MIN <=? old + n) && (old + n <=? LLONG_MAX) then
      views s' (update (view s) id k (Some (StrInt (old + n), default (-1) (snd <$> view s id k)))) /\
      replied c (RInt (old + n)) s'
    else views s' (view s) /\ failed c s') s.
Proof.
  intros (Hs & y & Hy & Hl & <-) Hn Hstr Hold. assert (valid s (db y)) as Hv by eauto with server.
  eapply wp_mono; [eapply (incrby_ok c y k a s s); rewrite ?Hl; done|]. cbv beta. intros _ s'.
  rewrite Hn. unfold incr_outcome. rewrite Hstr, Hold. destruct (_ && _); intros [Hq Hr].
  - split; [|done]. rewrite Hq. apply views_put; [done..|apply views_refl].
  - split; [|done]. rewrite Hq. apply views_purge; [done|apply views_refl].
Qed.

(** MSETNX is all or nothing: if one of the keys is live nothing changes and the
    reply is 0, otherwise every key ends bound to the last value given for it, and
    the reply is 1. *)
Theorem msetnx_atomic c id kvs s :
  runs c id (zs "msetnx" :: flat_map (fun p => [p.1; p.2]) kvs) s ->
  wp (msetnxCommand c) (fun _ s' =>
    if any_live s id kvs.*1 then views s' (view s) /\ replied c (RInt 0) s'
    else views s' (foldl (fun f p => update f id p.1 (Some (enc p.2, -1))) (view s) kvs) /\
         replied c (RInt 1) s') s.
Proof.
  intros (Hs & y & Hy & Hl & <-). assert (valid s (db y)) as Hv by eauto with server.
  assert (forall l : list (bytes * bytes), pairs_of (flat_map (fun p => [p.1; p.2]) l) = l) as Hpairs
    by by induction l as [|[u w] l IH]; [|simpl; rewrite IH].
  assert ((zlen (argv y) mod 2 =? 0) = false) as Hodd.
  { rewrite Hl, zlen_cons. apply Z.eqb_neq. clear. induction kvs as [|p kvs IH]; [done|].
    cbn [flat_map app]. rewrite !zlen_cons.
    replace (1 + (1 + (1 + _))) with (1 + zlen (flat_map (fun p => [p.1; p.2]) kvs) + 1 * 2) by lia.
    by rewrite Z.mod_add. }
  eapply wp_mono; [by apply (mset_ok c y true s s)|]. cbv beta zeta. intros _ s'.
  rewrite Hodd, Hl. cbn [drop]. rewrite drop_0, Hpairs. cbn [andb].
  assert (forall ks t, valid t (db y) -> views t (view s) -> views (purge_all (db y) ks t) (view s)) as Hpurge.
  { induction ks as [|k ks IH]; intros t Ht Hvt; [done|]. apply IH; [auto with server|]. by apply views_purge. }
  destruct (any_live s (db y) kvs.*1); intros [Hq Hr]; (split; [|done]); rewrite Hq.
  - apply Hpurge; [done|apply views_refl].
  - destruct (purge_all_ok (db y) kvs.*1 s Hs Hv) as (_ & Hv1 & _).
    pose proof (Hpurge kvs.*1 s Hv (views_refl s)) as Hvs. clear Hq Hpurge Hl. unfold mset_state.
    revert Hv1 Hvs. generalize (purge_all (db y) kvs.*1 s), (view s). induction kvs as [|p kvs IH]; intros t f Ht Hf; [done|].
    simpl. apply IH; [auto with server|]. by apply views_key_set.
Qed.

(** RENAME moves the value with its deadline to the new name, replacing what was
    there, and removes the old name; RENAMENX does so only when the new name is
    free. A name that does not exist is an error and nothing changes. *)
Theorem rename_moves c id src dst nx s :
  runs c id [zs "rename"; src; dst] s -> src <> dst ->
  wp (renameGenericCommand c nx) (fun _ s' =>
    match view s id src with
    | None => views s' (view s) /\ replied c shared_nokeyerr s'
    | Some v =>
        if nx && bool_decide (is_Some (view s id dst)) then views s' (view s) /\ replied c (RInt 0) s'
        else views s' (update (update (view s) id dst (Some v)) id src None) /\
             replied c (if nx then RInt 1 else shared_ok) s'
    end) s.
Proof.
  intros (Hs & y & Hy & Hl & <-) Hne. assert (valid s (db y)) as Hv by eauto with server.
  eapply wp_mono; [eapply (rename_ok c y nx src dst s s); rewrite ?Hl; done|]. cbv beta. intros _ s'.
  unfold rename_outcome, view at 1. rewrite decide_False by done.
  assert (is_Some (view s (db y) dst) <-> is_Some (live s (db y) dst)) as Hdst
    by (rewrite live_view, fmap_is_Some; done).
  rewrite (bool_decide_ext _ _ Hdst).
  destruct (live s (db y) src) as [o|] eqn:Ho; cbn [mbind option_bind]; [|intros [Hq Hr]].
  - destruct (nx && _); intros [Hq Hr]; (split; [|done]); rewrite Hq.
    + apply views_purge; [done|apply views_refl].
    + apply views_rename; [done..|apply views_refl].
  - split; [|done]. rewrite Hq. apply views_purge; [done|apply views_refl].
Qed.

(** MOVE moves the value to the other database when the key is free there, but
    not the deadline: a volatile key never expires after the move. *)
Theorem move_persists c id k a dst o w s :
  runs c id [zs "move"; k; a] s -> ll_of (Some (StrRaw a)) = Some dst -> valid s dst -> id <> dst ->
  view s id k = Some (o, w) -> view s dst k = None ->
  wp (moveCommand c) (fun _ s' =>
    views s' (update (update (view s) dst k (Some (o, -1))) id k None) /\ replied c (RInt 1) s') s.
Proof.
  intros (Hs & y & Hy & Hl & <-) Hd Hvd Hne Hsrc Hdst. assert (valid s (db y)) as Hv by eauto with server.
  assert (live s (db y) k = Some o) as Ho by by rewrite live_view, Hsrc.
  assert (live s dst k = None) as Hn by by rewrite live_view, Hdst.
  eapply wp_mono; [eapply (move_ok c y k a s s); rewrite ?Hl; done|]. cbv beta. intros _ s'.
  unfold move_outcome. rewrite Hd, bool_decide_true by done. destruct (Z.eqb_spec (db y) dst); [done|].
  rewrite Ho, Hn. intros [Hq Hr]. split; [|done]. rewrite Hq. unfold move_state, key_del.
  assert (valid (purge dst k s) dst) by auto with server. apply views_key_del; [auto with server|].
  apply views_add; [auto with server|done| |apply views_purge; [done|apply views_refl]]. exact Hn.
Qed.

(** DEL removes exactly the keys it names and counts those that were live. *)
Theorem del_removes c id ks s :
  runs c id (zs "del" :: ks) s -> NoDup ks ->
  wp (delCommand c) (fun _ s' =>
    views s' (foldl (fun f k => update f id k None) (view s) ks) /\
    replied c (RInt (zlen (filter (fun k => is_Some (view s id k)) ks))) s') s.
Proof.
  intros (Hs & y & Hy & Hl & <-) Hnd. assert (valid s (db y)) as Hv by eauto with server.
  eapply wp_mono; [by apply (del_command_ok c y s s)|]. cbv beta. rewrite Hl. cbn [drop]. rewrite drop_0.
  intros _ s' [Hq Hr]. assert (forall t f, valid t (db y) -> views t f ->
    (forall k, k ∈ ks -> live t (db y) k = live s (db y) k) ->
    views (del_all (db y) ks t).2 (foldl (fun f k => update f (db y) k None) f ks) /\
    (del_all (db y) ks t).1 = zlen (filter (fun k => is_Some (view s (db y) k)) ks)) as Hall.
  { clear Hq Hr Hl. induction Hnd as [|k ks Hk Hnd IH]; intros t f Ht Hf Hlive; [done|]. simpl.
    assert (views (key_del (db y) k t) (update f (db y) k None)) as Hf' by by apply views_key_del.
    destruct (IH (key_del (db y) k t) _ (key_del_valid (db y) k t _ Ht) Hf') as [Hv2 Hn].
    { intros k' Hk'. rewrite <- Hlive by by right. rewrite !live_view. f_equal.
      rewrite Hf', Hf, update_ne by (auto with server || intros [= ->]; done). done. }
    destruct (del_all _ ks _) as [n t'] eqn:Hd. simpl in *. split; [done|]. subst n.
    rewrite Hlive by by left. rewrite filter_cons, live_view.
    case_bool_decide as Hb; rewrite fmap_is_Some in Hb; case_decide; try done; by rewrite ?zlen_cons. }
  destruct (Hall s (view s) Hv (views_refl s)) as [Hvs Hn]; [done|]. rewrite Hn in Hr. split; [by rewrite Hq|done].
Qed.

(** The bytes of the string at a key; a key that is not there is an empty string. *)
Definition string_at (s : server) (id : Z) (k : bytes) : option bytes :=
  match live s id k with None => Some [] | Some o => getDecodedObject o end.

(** SETRANGE within the limit, on a string or on nothing. *)
Lemma setrange_run c y k a v off b s :
  server_ok s -> clients s !! c = Some y -> argv y = [zs "setrange"; k; a; v] ->
  ll_of (Some (StrRaw a)) = Some off -> string_at s (db y) k = Some b -> 0 <= off -> v <> [] ->
  off + zlen v <= MAX_STRING ->
  wp (setrangeCommand c) (fun _ s' =>
    s' ≈ at_db (db y) (db_put k (StrRaw (patch b off v))) (purge (db y) k s) /\
    replied c (RInt (zlen (patch b off v))) s') s.
Proof.
  intros Hs Hy Hl Ha Hb Hoff Hv Hmax. assert (off + zlen v <= LLONG_MAX) by (unfold MAX_STRING, LLONG_MAX in *; lia).
  eapply wp_mono; [eapply (setrange_ok c y k a v s s); rewrite ?Hl; try done; by intros ? [= <-]%(eq_trans (eq_sym Ha))|].
  cbv beta. intros _ s'. rewrite Ha. destruct (Z.ltb_spec off 0); [lia|]. unfold setrange_outcome.
  unfold string_at in Hb. rewrite Hb. destruct (Z.eqb_spec (zlen v) 0) as [Hz|_]; [by apply zlen_zero in Hz|].
  destruct (Z.leb_spec (off + zlen v) MAX_STRING); [|lia]. by rewrite zlen_patch.
Qed.

(** SETRANGE overwrites exactly the bytes from the offset on, fills a gap with
    zeros and keeps every other byte and the deadline; the reply is the new length. *)
Theorem setrange_writes c id k a v off b s :
  runs c id [zs "setrange"; k; a; v] s -> ll_of (Some (StrRaw a)) = Some off -> string_at s id k = Some b ->
  0 <= off -> v <> [] -> off + zlen v <= MAX_STRING ->
  wp (setrangeCommand c) (fun _ s' => exists r,
    views s' (update (view s) id k (Some (StrRaw r, default (-1) (snd <$> view s id k)))) /\
    replied c (RInt (zlen r)) s' /\ zlen r = Z.max (zlen b) (off + zlen v) /\
    forall i, 0 <= i < zlen r -> rd r i =
      Some (if (off <=? i) && (i <? off + zlen v) then default 0 (rd v (i - off))
            else if i <? zlen b then default 0 (rd b i) else 0)) s.
Proof.
  intros (Hs & y & Hy & Hl & <-) Ha Hb Hoff Hv Hmax. assert (valid s (db y)) as Hvd by eauto with server.
  eapply wp_mono; [by apply (setrange_run c y k a v off b s)|]. cbv beta. intros _ s' [Hq Hr].
  exists (patch b off v). rewrite zlen_patch in * by done. split_and!; [|done|done|intros i Hi; by apply patch_lookup].
  rewrite Hq. apply views_put; [done..|apply views_refl].
Qed.

(** The bytes written at an offset are read back by GETRANGE over their range. *)
Lemma substring_patch b off v :
  0 <= off -> v <> [] -> substring (patch b off v) off (off + zlen v - 1) = v.
Proof.
  intros Hoff Hv. unfold substring. rewrite zlen_patch by done.
  assert (0 < zlen v) by (destruct v; [done|rewrite zlen_cons; pose proof (zlen_nonneg v); lia]).
  destruct (Z.ltb_spec off 0); [lia|]. destruct (Z.ltb_spec (off + zlen v - 1) 0); [lia|].
  replace (Z.to_nat _) with (length v) by (unfold zlen in *; lia). unfold patch. cbv zeta.
  set (p := b ++ _). assert (length (take (Z.to_nat off) p) = Z.to_nat off) as Hp.
  { rewrite length_take. unfold p. rewrite length_app, length_replicate. unfold zlen in *. lia. }
  rewrite drop_app_length' by done. by rewrite take_app_length.
Qed.

(** After SETRANGE, a GETRANGE over the range that was written returns exactly the
    bytes written, for any client of the database. *)
Theorem setrange_getrange c c' y' id k a v off b a1 a2 s :
  runs c id [zs "setrange"; k; a; v] s -> clients s !! c' = Some y' -> db y' = id ->
  ll_of (Some (StrRaw a)) = Some off -> string_at s id k = Some b -> 0 <= off -> v <> [] ->
  off + zlen v <= MAX_STRING ->
  zlen b <= MAX_STRING -> ll_of (Some (StrRaw a1)) = Some off -> ll_of (Some (StrRaw a2)) = Some (off + zlen v - 1) ->
  wp (then_by (setrangeCommand c) c' [zs "getrange"; k; a1; a2] (getrangeCommand c'))
    (fun _ s' => replied c' (RBulk v) s') s.
Proof.
  intros (Hs & y & Hy & Hl & <-) Hy' Hdb Ha Hb Hoff Hv Hmax Hbm Ha1 Ha2.
  assert (valid s (db y)) as Hvd by eauto with server.
  set (t := at_db (db y) (db_put k (StrRaw (patch b off v))) (purge (db y) k s)).
  assert (server_ok t) as Ht by (apply put_ok; auto with server; done).
  assert (clients t !! c' = Some y') as Hc' by by apply cl_at_db, cl_purge.
  eapply (wp_then_by _ _ _ _ t).
  - eapply wp_mono; [by apply (setrange_run c y k a v off b s)|]. cbv beta. by intros _ s' [Hq _].
  - intros s1 Hq. eapply wp_mono; [eapply (getrange_ok c' (set_argv [zs "getrange"; k; a1; a2] y') k a1 a2);
      [exact Hq|by eapply receive_ok|by apply receive_client|done..]|].
    cbv beta. intros _ s'. rewrite Ha1, Ha2. simpl. rewrite Hdb, receive_live.
    assert (valid t (db y)) as Hvt by (unfold t; auto with server).
    pose proof (views_put (db y) k (StrRaw (patch b off v)) s (view s) Hs Hvd (views_refl s) (db y) k Hvt) as Hview.
    fold t in Hview. rewrite update_eq in Hview. rewrite live_view, Hview. simpl. intros [_ Hr].
    rewrite substring_patch in Hr by done. apply Hr. rewrite zlen_patch by done. unfold MAX_STRING, LLONG_MAX in *. lia.
Qed.

(** ** Time *)

#[global] Instance set_mstime_proper now : Proper (quiet ==> quiet) (set_mstime now).
Proof.
  intros s t [Hc]. split.
  change (core (set_mstime now s)) with (set_mstime now (core s)).
  change (core (set_mstime now t)) with (set_mstime now (core t)). by rewrite Hc.
Qed.

(** A running master: expired keys are deleted. *)
Definition master (s : server) : Prop := loading s = false /\ masterhost s = false /\ lua_time_start s = None.

Lemma pexpire_run c y k a n o s :
  server_ok s -> clients s !! c = Some y -> argv y = [zs "pexpire"; k; a] -> live s (db y) k = Some o ->
  ll_of (Some (StrRaw a)) = Some n -> 0 < n -> 0 <= mstime s -> mstime s + n <= LLONG_MAX ->
  wp (pexpireCommand c) (fun _ s' => s' ≈ at_db (db y) (db_expire k (mstime s + n)) s) s.
Proof.
  intros Hs Hy Hl Ho Hn Hpos Hnow Hmax. unfold pexpireCommand. apply wp_bind, wp_gets. cbv beta.
  eapply wp_mono; [eapply (expireGeneric_ok c y k a); rewrite ?Hl; done|]. cbv beta. intros _ s1.
  unfold expire_outcome. rewrite Hn, Ho. unfold deadline.
  rewrite s64_small by (unfold LLONG_MIN; lia). destruct (Z.leb_spec (n + mstime s) (mstime s)); [lia|].
  cbn [andb]. by rewrite (Z.add_comm n).
Qed.

(** What TTL sees of a key whose deadline is [w]. *)
Lemma ttl_seen u id k o w :
  valid u id -> master u -> key_of u id k = Some o -> expire_of u id k = Some w ->
  0 <= mstime u -> 0 <= w <= LLONG_MAX ->
  live u id k = (if mstime u <=? w then Some o else None) /\
  (mstime u <= w -> ttl_reply true (ttl_of u id k) = w - mstime u).
Proof.
  intros Hv (Hld & Hm & Hlua) Hk He Hnow Hw.
  assert (due u id k = negb (mstime u <=? w)) as Hdue.
  { unfold due, clock. rewrite He, Hlua, Hld. destruct (Z.leb_spec 0 w); [|lia].
    destruct (Z.gtb_spec (mstime u) w), (Z.leb_spec (mstime u) w); done || lia. }
  split.
  - destruct (mstime u <=? w); [by rewrite live_not_due|by apply live_due].
  - intros Hle. unfold ttl_of, ttl_reply. rewrite He. destruct (Z.eqb_spec w (-1)); [lia|].
    rewrite s64_small, Z.max_r by (unfold LLONG_MIN, LLONG_MAX in *; lia).
    by destruct (Z.eqb_spec (w - mstime u) (-1)); [lia|].
Qed.

(** C19: The deadline that PEXPIRE sets is the one PTTL reports, in the milliseconds
    that are left, to any client and at any later time; once it has passed the key
    is gone. *)
Theorem pexpire_pttl c c' y' id k a n o dt s :
  runs c id [zs "pexpire"; k; a] s -> clients s !! c' = Some y' -> db y' = id -> master s ->
  live s id k = Some o -> ll_of (Some (StrRaw a)) = Some n -> 0 < n -> 0 <= mstime s ->
  mstime s + n <= LLONG_MAX -> 0 <= dt ->
  wp (_ ← pexpireCommand c;
      _ ← modify (set_mstime (mstime s + dt));
      _ ← modify (receive c' [zs "pttl"; k]);
      pttlCommand c') (fun _ s' =>
    if dt <=? n then live s' id k = Some o /\ replied c' (RInt (n - dt)) s'
    else live s' id k = None /\ replied c' (RInt (-2)) s') s.
Proof.
  intros (Hs & y & Hy & Hl & <-) Hy' Hdb (Hld & Hm & Hlua) Ho Hn Hpos Hnow Hmax Hdt.
  assert (valid s (db y)) as Hv by eauto with server. destruct (live_Some _ _ _ _ Hv Ho) as [_ Hko].
  set (t := at_db (db y) (db_expire k (mstime s + n)) s).
  assert (server_ok t) as Ht by (apply expire_ok'; eauto).
  eapply (wp_seq _ _ (fun _ s' => s' ≈ t)); [by apply (pexpire_run c y k a n o s)|]. cbv beta. intros _ s1 Hq1.
  apply wp_bind, wp_modify, wp_bind, wp_modify.
  set (u := receive c' [zs "pttl"; k] (set_mstime (mstime s + dt) t)).
  assert (receive c' [zs "pttl"; k] (set_mstime (mstime s + dt) s1) ≈ u) as Hqu
    by (apply (client_at_proper c' _ (core_write_argv _)); by rewrite Hq1).
  assert (clients t !! c' = Some y') as Hct by done. pose proof (set_mstime_ok (mstime s + dt) t Ht).
  unfold pttlCommand. eapply wp_mono; [eapply (ttl_ok c' (set_argv [zs "pttl"; k] y') k);
    [exact Hqu|by eapply receive_ok|by apply receive_client|done]|].
  cbv beta. cbn [db set_argv]. rewrite Hdb. intros _ s' [Hq Hr].
  assert (valid u (db y)) as Hvu by by apply valid_at_db.
  rewrite (live_proper _ _ (db y) k Hq), live_purge by done.
  destruct (ttl_seen u (db y) k o (mstime s + n) Hvu) as [Hlive Httl]; [by split| | | |lia|].
  - change (key_of t (db y) k = Some o). unfold t, key_of. by rewrite at_db_at.
  - change (expire_of t (db y) k = Some (mstime s + n)). unfold t, expire_of. rewrite at_db_at by done. apply lookup_insert_eq.
  - change (0 <= mstime s + dt). lia.
  - change (mstime u) with (mstime s + dt) in *. rewrite Hlive in *.
    destruct (Z.leb_spec dt n), (Z.leb_spec (mstime s + dt) (mstime s + n)); try lia; [|done]. split; [done|].
    rewrite Httl in Hr by done. by replace (mstime s + n - (mstime s + dt)) with (n - dt) in Hr by lia.
Qed.

Definition demo2 (l : list bytes) : server := receive 1 l demo.

Lemma demo_ok : server_ok demo.
Proof. apply demo_good. Qed.

Lemma demo2_ok l : server_ok (demo2 l).
Proof. by apply (receive_ok 1 l new_client); [apply demo_ok|]. Qed.

Lemma set_get_witness :
  wp (then_by (setCommand 1) 2 [zs "get"; zs "k"] (getCommand 2))
    (fun _ s' => replied 2 (RBulk (zs "007")) s' /\ live s' 0 (zs "k") = Some (enc (zs "007")))
    (demo2 [zs "set"; zs "k"; zs "007"]).
Proof.
  apply (set_get 1 2 (set_argv [zs "set"; zs "k"; zs "007"] new_client) new_client); [apply demo2_ok|done..].
Defined.

(** The key [k] holds 10, and the first client has a request. *)
Definition demo10 (l : list bytes) : server := receive 1 l (key_set 0 (zs "k") (StrInt 10) demo).

Lemma demo10_runs l : runs 1 0 l (demo10 l).
Proof.
  assert (server_ok (key_set 0 (zs "k") (StrInt 10) demo)) as Hs by (apply key_set_ok; [apply demo_ok|done|done]).
  split; [by apply (receive_ok 1 l new_client)|]. by exists (set_argv l new_client).
Qed.

Lemma incrby_exact_witness :
  wp (incrbyCommand 1) (fun _ s' =>
    views s' (update (view (demo10 [zs "incrby"; zs "k"; zs "-4"])) 0 (zs "k") (Some (StrInt 6, -1))) /\
    replied 1 (RInt 6) s') (demo10 [zs "incrby"; zs "k"; zs "-4"]).
Proof. apply (incrby_exact 1 0 (zs "k") (zs "-4") (-4) 10); [apply demo10_runs|done..]. Defined.

Lemma msetnx_atomic_witness :
  wp (msetnxCommand 1) (fun _ s' =>
    views s' (view (demo10 [zs "msetnx"; zs "a"; zs "1"; zs "k"; zs "2"])) /\ replied 1 (RInt 0) s')
    (demo10 [zs "msetnx"; zs "a"; zs "1"; zs "k"; zs "2"]).
Proof. apply (msetnx_atomic 1 0 [(zs "a", zs "1"); (zs "k", zs "2")]). apply demo10_runs. Defined.

Lemma rename_moves_witness :
  wp (renameGenericCommand 1 false) (fun _ s' =>
    views s' (update (update (view (demo10 [zs "rename"; zs "k"; zs "j"])) 0 (zs "j") (Some (StrInt 10, -1))) 0 (zs "k") None) /\
    replied 1 shared_ok s') (demo10 [zs "rename"; zs "k"; zs "j"]).
Proof. apply (rename_moves 1 0 (zs "k") (zs "j") false); [apply demo10_runs|done]. Defined.

(** The key [k] holds 10 and has a deadline. *)
Definition demo_deadline (l : list bytes) : server := at_db 0 (db_expire (zs "k") 5000) (demo10 l).

Lemma demo_deadline_runs l : runs 1 0 l (demo_deadline l).
Proof.
  destruct (demo10_runs l) as (Hs & y & Hy & Hl & Hdb). split; [|by exists y].
  apply expire_ok'; [done|by rewrite <- Hdb; apply (ok_client_db _ 1)|by exists (StrInt 10)].
Qed.

Lemma move_persists_witness :
  wp (moveCommand 1) (fun _ s' =>
    views s' (update (update (view (demo_deadline [zs "move"; zs "k"; zs "1"])) 1 (zs "k") (Some (StrInt 10, -1))) 0 (zs "k") None) /\
    replied 1 (RInt 1) s') (demo_deadline [zs "move"; zs "k"; zs "1"]).
Proof. apply (move_persists 1 0 (zs "k") (zs "1") 1 (StrInt 10) 5000); [apply demo_deadline_runs|done..]. Defined.

Lemma del_removes_witness :
  wp (delCommand 1) (fun _ s' =>
    views s' (update (update (view (demo10 [zs "del"; zs "j"; zs "k"])) 0 (zs "j") None) 0 (zs "k") None) /\
    replied 1 (RInt 1) s') (demo10 [zs "del"; zs "j"; zs "k"]).
Proof. apply (del_removes 1 0 [zs "j"; zs "k"]); [apply demo10_runs|]. by apply (bool_decide_unpack _). Defined.

Lemma setrange_writes_witness :
  wp (setrangeCommand 1) (fun _ s' => exists r,
    views s' (update (view (demo10 [zs "setrange"; zs "k"; zs "3"; zs "ab"])) 0 (zs "k") (Some (StrRaw r, -1))) /\
    replied 1 (RInt (zlen r)) s' /\ zlen r = 5 /\
    forall i, 0 <= i < zlen r -> rd r i =
      Some (if (3 <=? i) && (i <? 5) then default 0 (rd (zs "ab") (i - 3))
            else if i <? 2 then default 0 (rd (zs "10") i) else 0))
    (demo10 [zs "setrange"; zs "k"; zs "3"; zs "ab"]).
Proof. apply (setrange_writes 1 0 (zs "k") (zs "3") (zs "ab") 3 (zs "10")); [apply demo10_runs|done..]. Defined.

Lemma setrange_getrange_witness :
  wp (then_by (setrangeCommand 1) 2 [zs "getrange"; zs "k"; zs "3"; zs "4"] (getrangeCommand 2))
    (fun _ s' => replied 2 (RBulk (zs "ab")) s') (demo10 [zs "setrange"; zs "k"; zs "3"; zs "ab"]).
Proof.
  apply (setrange_getrange 1 2 new_client 0 (zs "k") (zs "3") (zs "ab") 3 (zs "10")); [apply demo10_runs|done..].
Defined.

Lemma pexpire_pttl_witness :
  wp (_ ← pexpireCommand 1;
      _ ← modify (set_mstime (1000 + 30));
      _ ← modify (receive 2 [zs "pttl"; zs "k"]);
      pttlCommand 2) (fun _ s' => live s' 0 (zs "k") = Some (StrInt 10) /\ replied 2 (RInt 70) s')
    (demo10 [zs "pexpire"; zs "k"; zs "100"]).
Proof.
  apply (pexpire_pttl 1 2 new_client 0 (zs "k") (zs "100") 100 (StrInt 10) 30); [apply demo10_runs|done..].
Defined.
