(* ===== verification/Sentinel.v ===== *)
(** * Sentinel (src/redis-2.8.19/src/sentinel.c)

    The state a sentinel keeps for the masters it monitors, with their slaves and the
    other sentinels, and the acting half of its work: failure detection, votes and
    the election of a leader, the failover and its timer, the messages between
    sentinels. The links, the PING and INFO commands and the parsing of their answers,
    the scripts and the configuration file are not modelled; the time is the same
    during one call. A dictionary of instances is the list of its entries in the order
    of an iteration; an assertion or a null pointer that is followed is [None]. *)
From S2P Require Import Prelude Util Object Dict DictIter.
Open Scope Z_scope.

Definition SRI_MASTER : Z := Z.shiftl 1 0.
Definition SRI_SLAVE : Z := Z.shiftl 1 1.
Definition SRI_SENTINEL : Z := Z.shiftl 1 2.
Definition SRI_DISCONNECTED : Z := Z.shiftl 1 3.
Definition SRI_S_DOWN : Z := Z.shiftl 1 4.
Definition SRI_O_DOWN : Z := Z.shiftl 1 5.
Definition SRI_MASTER_DOWN : Z := Z.shiftl 1 6.
Definition SRI_FAILOVER_IN_PROGRESS : Z := Z.shiftl 1 7.
Definition SRI_PROMOTED : Z := Z.shiftl 1 8.
Definition SRI_RECONF_SENT : Z := Z.shiftl 1 9.
Definition SRI_RECONF_INPROG : Z := Z.shiftl 1 10.
Definition SRI_RECONF_DONE : Z := Z.shiftl 1 11.
Definition SRI_FORCE_FAILOVER : Z := Z.shiftl 1 12.
Definition SRI_SCRIPT_KILL_SENT : Z := Z.shiftl 1 13.
Definition SENTINEL_INFO_PERIOD : Z := 10000.
Definition SENTINEL_PING_PERIOD : Z := 1000.
Definition SENTINEL_ASK_PERIOD : Z := 1000.
Definition SENTINEL_TILT_TRIGGER : Z := 2000.
Definition SENTINEL_TILT_PERIOD : Z := SENTINEL_PING_PERIOD*30.
Definition SENTINEL_DEFAULT_SLAVE_PRIORITY : Z := 100.
Definition SENTINEL_SLAVE_RECONF_TIMEOUT : Z := 10000.
Definition SENTINEL_ELECTION_TIMEOUT : Z := 10000.
Definition SENTINEL_MAX_DESYNC : Z := 1000.
Definition SENTINEL_FAILOVER_STATE_NONE : Z := 0.
Definition SENTINEL_FAILOVER_STATE_WAIT_START : Z := 1.
Definition SENTINEL_FAILOVER_STATE_SELECT_SLAVE : Z := 2.
Definition SENTINEL_FAILOVER_STATE_SEND_SLAVEOF_NOONE : Z := 3.
Definition SENTINEL_FAILOVER_STATE_WAIT_PROMOTION : Z := 4.
Definition SENTINEL_FAILOVER_STATE_RECONF_SLAVES : Z := 5.
Definition SENTINEL_FAILOVER_STATE_UPDATE_CONFIG : Z := 6.
Definition SENTINEL_MASTER_LINK_STATUS_UP : Z := 0.
Definition SENTINEL_MASTER_LINK_STATUS_DOWN : Z := 1.

Record sentinelAddr := mkAddr { ip : bytes; port : Z }.

(** The fields of a [sentinelRedisInstance] that are used of masters, slaves and
    sentinels alike, then those of a master, and the state of the process. *)
Record instance := mkInstance {
  flags : Z;
  runid : option bytes;
  addr : sentinelAddr;
  last_master_down_reply_time : Z;
  last_ping_time : Z;
  last_avail_time : Z;
  s_down_since_time : Z;
  o_down_since_time : Z;
  down_after_period : Z;
  info_refresh : Z;
  role_reported : Z;
  role_reported_time : Z;
  master_link_down_time : Z;
  slave_priority : Z;
  slave_reconf_sent_time : Z;
  slave_repl_offset : Z;
  slave_master_host : option bytes;
  slave_master_port : Z;
  slave_master_link_status : Z;
  slave_conf_change_time : Z;
  last_hello_time : Z;
  leader : option bytes;
  leader_epoch : Z
}.

Definition set_flags (x : Z) (ri : instance) : instance :=
  mkInstance x (runid ri) (addr ri) (last_master_down_reply_time ri) (last_ping_time ri) (last_avail_time
    ri) (s_down_since_time ri) (o_down_since_time ri) (down_after_period ri) (info_refresh ri)
    (role_reported ri) (role_reported_time ri) (master_link_down_time ri) (slave_priority ri)
    (slave_reconf_sent_time ri) (slave_repl_offset ri) (slave_master_host ri) (slave_master_port ri)
    (slave_master_link_status ri) (slave_conf_change_time ri) (last_hello_time ri) (leader ri) (leader_epoch
    ri).
Definition set_runid (x : option bytes) (ri : instance) : instance :=
  mkInstance (flags ri) x (addr ri) (last_master_down_reply_time ri) (last_ping_time ri) (last_avail_time
    ri) (s_down_since_time ri) (o_down_since_time ri) (down_after_period ri) (info_refresh ri)
    (role_reported ri) (role_reported_time ri) (master_link_down_time ri) (slave_priority ri)
    (slave_reconf_sent_time ri) (slave_repl_offset ri) (slave_master_host ri) (slave_master_port ri)
    (slave_master_link_status ri) (slave_conf_change_time ri) (last_hello_time ri) (leader ri) (leader_epoch
    ri).
Definition set_addr (x : sentinelAddr) (ri : instance) : instance :=
  mkInstance (flags ri) (runid ri) x (last_master_down_reply_time ri) (last_ping_time ri) (last_avail_time
    ri) (s_down_since_time ri) (o_down_since_time ri) (down_after_period ri) (info_refresh ri)
    (role_reported ri) (role_reported_time ri) (master_link_down_time ri) (slave_priority ri)
    (slave_reconf_sent_time ri) (slave_repl_offset ri) (slave_master_host ri) (slave_master_port ri)
    (slave_master_link_status ri) (slave_conf_change_time ri) (last_hello_time ri) (leader ri) (leader_epoch
    ri).
Definition set_last_master_down_reply_time (x : Z) (ri : instance) : instance :=
  mkInstance (flags ri) (runid ri) (addr ri) x (last_ping_time ri) (last_avail_time ri) (s_down_since_time
    ri) (o_down_since_time ri) (down_after_period ri) (info_refresh ri) (role_reported ri)
    (role_reported_time ri) (master_link_down_time ri) (slave_priority ri) (slave_reconf_sent_time ri)
    (slave_repl_offset ri) (slave_master_host ri) (slave_master_port ri) (slave_master_link_status ri)
    (slave_conf_change_time ri) (last_hello_time ri) (leader ri) (leader_epoch ri).
Definition set_last_ping_time (x : Z) (ri : instance) : instance :=
  mkInstance (flags ri) (runid ri) (addr ri) (last_master_down_reply_time ri) x (last_avail_time ri)
    (s_down_since_time ri) (o_down_since_time ri) (down_after_period ri) (info_refresh ri) (role_reported
    ri) (role_reported_time ri) (master_link_down_time ri) (slave_priority ri) (slave_reconf_sent_time ri)
    (slave_repl_offset ri) (slave_master_host ri) (slave_master_port ri) (slave_master_link_status ri)
    (slave_conf_change_time ri) (last_hello_time ri) (leader ri) (leader_epoch ri).
Definition set_last_avail_time (x : Z) (ri : instance) : instance :=
  mkInstance (flags ri) (runid ri) (addr ri) (last_master_down_reply_time ri) (last_ping_time ri) x
    (s_down_since_time ri) (o_down_since_time ri) (down_after_period ri) (info_refresh ri) (role_reported
    ri) (role_reported_time ri) (master_link_down_time ri) (slave_priority ri) (slave_reconf_sent_time ri)
    (slave_repl_offset ri) (slave_master_host ri) (slave_master_port ri) (slave_master_link_status ri)
    (slave_conf_change_time ri) (last_hello_time ri) (leader ri) (leader_epoch ri).
Definition set_s_down_since_time (x : Z) (ri : instance) : instance :=
  mkInstance (flags ri) (runid ri) (addr ri) (last_master_down_reply_time ri) (last_ping_time ri)
    (last_avail_time ri) x (o_down_since_time ri) (down_after_period ri) (info_refresh ri) (role_reported
    ri) (role_reported_time ri) (master_link_down_time ri) (slave_priority ri) (slave_reconf_sent_time ri)
    (slave_repl_offset ri) (slave_master_host ri) (slave_master_port ri) (slave_master_link_status ri)
    (slave_conf_change_time ri) (last_hello_time ri) (leader ri) (leader_epoch ri).
Definition set_o_down_since_time (x : Z) (ri : instance) : instance :=
  mkInstance (flags ri) (runid ri) (addr ri) (last_master_down_reply_time ri) (last_ping_time ri)
    (last_avail_time ri) (s_down_since_time ri) x (down_after_period ri) (info_refresh ri) (role_reported
    ri) (role_reported_time ri) (master_link_down_time ri) (slave_priority ri) (slave_reconf_sent_time ri)
    (slave_repl_offset ri) (slave_master_host ri) (slave_master_port ri) (slave_master_link_status ri)
    (slave_conf_change_time ri) (last_hello_time ri) (leader ri) (leader_epoch ri).
Definition set_role_reported (x : Z) (ri : instance) : instance :=
  mkInstance (flags ri) (runid ri) (addr ri) (last_master_down_reply_time ri) (last_ping_time ri)
    (last_avail_time ri) (s_down_since_time ri) (o_down_since_time ri) (down_after_period ri) (info_refresh
    ri) x (role_reported_time ri) (master_link_down_time ri) (slave_priority ri) (slave_reconf_sent_time ri)
    (slave_repl_offset ri) (slave_master_host ri) (slave_master_port ri) (slave_master_link_status ri)
    (slave_conf_change_time ri) (last_hello_time ri) (leader ri) (leader_epoch ri).
Definition set_role_reported_time (x : Z) (ri : instance) : instance :=
  mkInstance (flags ri) (runid ri) (addr ri) (last_master_down_reply_time ri) (last_ping_time ri)
    (last_avail_time ri) (s_down_since_time ri) (o_down_since_time ri) (down_after_period ri) (info_refresh
    ri) (role_reported ri) x (master_link_down_time ri) (slave_priority ri) (slave_reconf_sent_time ri)
    (slave_repl_offset ri) (slave_master_host ri) (slave_master_port ri) (slave_master_link_status ri)
    (slave_conf_change_time ri) (last_hello_time ri) (leader ri) (leader_epoch ri).
Definition set_slave_reconf_sent_time (x : Z) (ri : instance) : instance :=
  mkInstance (flags ri) (runid ri) (addr ri) (last_master_down_reply_time ri) (last_ping_time ri)
    (last_avail_time ri) (s_down_since_time ri) (o_down_since_time ri) (down_after_period ri) (info_refresh
    ri) (role_reported ri) (role_reported_time ri) (master_link_down_time ri) (slave_priority ri) x
    (slave_repl_offset ri) (slave_master_host ri) (slave_master_port ri) (slave_master_link_status ri)
    (slave_conf_change_time ri) (last_hello_time ri) (leader ri) (leader_epoch ri).
Definition set_slave_master_host (x : option bytes) (ri : instance) : instance :=
  mkInstance (flags ri) (runid ri) (addr ri) (last_master_down_reply_time ri) (last_ping_time ri)
    (last_avail_time ri) (s_down_since_time ri) (o_down_since_time ri) (down_after_period ri) (info_refresh
    ri) (role_reported ri) (role_reported_time ri) (master_link_down_time ri) (slave_priority ri)
    (slave_reconf_sent_time ri) (slave_repl_offset ri) x (slave_master_port ri) (slave_master_link_status
    ri) (slave_conf_change_time ri) (last_hello_time ri) (leader ri) (leader_epoch ri).
Definition set_last_hello_time (x : Z) (ri : instance) : instance :=
  mkInstance (flags ri) (runid ri) (addr ri) (last_master_down_reply_time ri) (last_ping_time ri)
    (last_avail_time ri) (s_down_since_time ri) (o_down_since_time ri) (down_after_period ri) (info_refresh
    ri) (role_reported ri) (role_reported_time ri) (master_link_down_time ri) (slave_priority ri)
    (slave_reconf_sent_time ri) (slave_repl_offset ri) (slave_master_host ri) (slave_master_port ri)
    (slave_master_link_status ri) (slave_conf_change_time ri) x (leader ri) (leader_epoch ri).
Definition set_leader (x : option bytes) (ri : instance) : instance :=
  mkInstance (flags ri) (runid ri) (addr ri) (last_master_down_reply_time ri) (last_ping_time ri)
    (last_avail_time ri) (s_down_since_time ri) (o_down_since_time ri) (down_after_period ri) (info_refresh
    ri) (role_reported ri) (role_reported_time ri) (master_link_down_time ri) (slave_priority ri)
    (slave_reconf_sent_time ri) (slave_repl_offset ri) (slave_master_host ri) (slave_master_port ri)
    (slave_master_link_status ri) (slave_conf_change_time ri) (last_hello_time ri) x (leader_epoch ri).
Definition set_leader_epoch (x : Z) (ri : instance) : instance :=
  mkInstance (flags ri) (runid ri) (addr ri) (last_master_down_reply_time ri) (last_ping_time ri)
    (last_avail_time ri) (s_down_since_time ri) (o_down_since_time ri) (down_after_period ri) (info_refresh
    ri) (role_reported ri) (role_reported_time ri) (master_link_down_time ri) (slave_priority ri)
    (slave_reconf_sent_time ri) (slave_repl_offset ri) (slave_master_host ri) (slave_master_port ri)
    (slave_master_link_status ri) (slave_conf_change_time ri) (last_hello_time ri) (leader ri) x.

Record master := mkMaster {
  m_inst : instance;
  m_name : bytes;
  config_epoch : Z;
  sentinels : list (bytes * instance);
  slaves : list (bytes * instance);
  quorum : Z;
  parallel_syncs : Z;
  failover_epoch : Z;
  failover_state : Z;
  failover_state_change_time : Z;
  failover_start_time : Z;
  failover_timeout : Z;
  promoted_slave : option bytes
}.

Definition set_m_inst (x : instance) (m : master) : master :=
  mkMaster x (m_name m) (config_epoch m) (sentinels m) (slaves m) (quorum m) (parallel_syncs m)
    (failover_epoch m) (failover_state m) (failover_state_change_time m) (failover_start_time m)
    (failover_timeout m) (promoted_slave m).
Definition set_config_epoch (x : Z) (m : master) : master :=
  mkMaster (m_inst m) (m_name m) x (sentinels m) (slaves m) (quorum m) (parallel_syncs m) (failover_epoch m)
    (failover_state m) (failover_state_change_time m) (failover_start_time m) (failover_timeout m)
    (promoted_slave m).
Definition set_sentinels (x : list (bytes * instance)) (m : master) : master :=
  mkMaster (m_inst m) (m_name m) (config_epoch m) x (slaves m) (quorum m) (parallel_syncs m) (failover_epoch
    m) (failover_state m) (failover_state_change_time m) (failover_start_time m) (failover_timeout m)
    (promoted_slave m).
Definition set_slaves (x : list (bytes * instance)) (m : master) : master :=
  mkMaster (m_inst m) (m_name m) (config_epoch m) (sentinels m) x (quorum m) (parallel_syncs m)
    (failover_epoch m) (failover_state m) (failover_state_change_time m) (failover_start_time m)
    (failover_timeout m) (promoted_slave m).
Definition set_failover_epoch (x : Z) (m : master) : master :=
  mkMaster (m_inst m) (m_name m) (config_epoch m) (sentinels m) (slaves m) (quorum m) (parallel_syncs m) x
    (failover_state m) (failover_state_change_time m) (failover_start_time m) (failover_timeout m)
    (promoted_slave m).
Definition set_failover_state (x : Z) (m : master) : master :=
  mkMaster (m_inst m) (m_name m) (config_epoch m) (sentinels m) (slaves m) (quorum m) (parallel_syncs m)
    (failover_epoch m) x (failover_state_change_time m) (failover_start_time m) (failover_timeout m)
    (promoted_slave m).
Definition set_failover_state_change_time (x : Z) (m : master) : master :=
  mkMaster (m_inst m) (m_name m) (config_epoch m) (sentinels m) (slaves m) (quorum m) (parallel_syncs m)
    (failover_epoch m) (failover_state m) x (failover_start_time m) (failover_timeout m) (promoted_slave m).
Definition set_failover_start_time (x : Z) (m : master) : master :=
  mkMaster (m_inst m) (m_name m) (config_epoch m) (sentinels m) (slaves m) (quorum m) (parallel_syncs m)
    (failover_epoch m) (failover_state m) (failover_state_change_time m) x (failover_timeout m)
    (promoted_slave m).
Definition set_promoted_slave (x : option bytes) (m : master) : master :=
  mkMaster (m_inst m) (m_name m) (config_epoch m) (sentinels m) (slaves m) (quorum m) (parallel_syncs m)
    (failover_epoch m) (failover_state m) (failover_state_change_time m) (failover_start_time m)
    (failover_timeout m) x.

Record sentinelState := mkState {
  server_runid : bytes;
  current_epoch : Z;
  masters : list (bytes * master);
  tilt : bool;
  tilt_start_time : Z;
  previous_time : Z
}.

Definition set_current_epoch (x : Z) (st : sentinelState) : sentinelState :=
  mkState (server_runid st) x (masters st) (tilt st) (tilt_start_time st) (previous_time st).
Definition set_masters (x : list (bytes * master)) (st : sentinelState) : sentinelState :=
  mkState (server_runid st) (current_epoch st) x (tilt st) (tilt_start_time st) (previous_time st).
Definition set_tilt (x : bool) (st : sentinelState) : sentinelState :=
  mkState (server_runid st) (current_epoch st) (masters st) x (tilt_start_time st) (previous_time st).
Definition set_tilt_start_time (x : Z) (st : sentinelState) : sentinelState :=
  mkState (server_runid st) (current_epoch st) (masters st) (tilt st) x (previous_time st).
Definition set_previous_time (x : Z) (st : sentinelState) : sentinelState :=
  mkState (server_runid st) (current_epoch st) (masters st) (tilt st) (tilt_start_time st) x.

(** ** Lookups *)

Definition strcmp_eq (a b : bytes) : bool := bool_decide (a = b).

Definition fetch {A} (key : bytes) (l : list (bytes * A)) : option A :=
  snd <$> find (fun p => strcmp_eq p.1 key) l.

Definition store {A} (key : bytes) (x : A) (l : list (bytes * A)) : list (bytes * A) :=
  map (fun p => if strcmp_eq p.1 key then (p.1, x) else p) l.

(** [ri->flags & mask], and the bits set and cleared. *)
Definition has (ri : instance) (mask : Z) : bool := negb (Z.land (flags ri) mask =? 0).
Definition raise (mask : Z) (ri : instance) : instance := set_flags (Z.lor (flags ri) mask) ri.
Definition clear (mask : Z) (ri : instance) : instance := set_flags (Z.ldiff (flags ri) mask) ri.

Definition m_has (m : master) (mask : Z) : bool := has (m_inst m) mask.
Definition m_raise (mask : Z) (m : master) : master := set_m_inst (raise mask (m_inst m)) m.
Definition m_clear (mask : Z) (m : master) : master := set_m_inst (clear mask (m_inst m)) m.

Definition m_leader (m : master) : option bytes := leader (m_inst m).
Definition m_leader_epoch (m : master) : Z := leader_epoch (m_inst m).

(** The name of a slave or of a sentinel, in a buffer of 128 bytes. *)
Definition instance_name (a : sentinelAddr) : bytes :=
  take 127 ((if bool_decide (58 ∈ ip a) then [91] ++ ip a ++ [93] else ip a) ++ [58] ++ dec (port a)).

(** What is sent: [is-master-down-by-addr], and the transaction with SLAVEOF, whose
    target is null for NO ONE. *)
Inductive command :=
  | IsMasterDownByAddr (to : bytes) (ip : bytes) (port : Z) (epoch : Z) (runid : bytes)
  | SlaveOf (to : bytes) (target : option sentinelAddr).

(** The clock, the random numbers of a master (for a vote and for a failover), whether
    the link with an instance takes a command, the resolver, and the dictionary of
    votes. *)
Record senv := mkSenv {
  mstime : Z;
  rand_vote : bytes -> Z;
  rand_start : bytes -> Z;
  accepts : bytes -> bool;
  resolve : bytes -> option bytes;
  votes_hash : bytes -> Z;
  votes_resize : bool
}.

Section sentinel.
Context (env : senv).

Definition createSentinelAddr (hostname : bytes) (port : Z) : option sentinelAddr :=
  if (port <=? 0) || (port >? 65535) then None
  else ip ← resolve env hostname; Some (mkAddr ip port).

Definition sentinelAddrIsEqual (a b : sentinelAddr) : bool := (port a =? port b) && strcase_eq (ip a) (ip b).

(** [createSentinelRedisInstance] for a slave or a sentinel of [m], whose tables are
    [table]: the new table, or null. *)
Definition createSentinelRedisInstance (fl : Z) (hostname : bytes) (port : Z) (m : master)
    (table : list (bytes * instance)) : option (list (bytes * instance)) :=
  a ← createSentinelAddr hostname port;
  let name := instance_name (mkAddr hostname port) in
  match fetch name table with
  | Some _ => None
  | None =>
      let now := mstime env in
      Some (table ++ [(name, mkInstance (Z.lor fl SRI_DISCONNECTED) None a now now now 0 0 (down_after_period (m_inst m)) 0
        (Z.land (Z.lor fl SRI_DISCONNECTED) (Z.lor SRI_MASTER SRI_SLAVE)) now 0 SENTINEL_DEFAULT_SLAVE_PRIORITY 0 0
        None 0 SENTINEL_MASTER_LINK_STATUS_DOWN now now None 0)])
  end.

Definition getSentinelRedisInstanceByAddrAndRunID (instances : list (bytes * instance)) (a : sentinelAddr) (id : bytes)
  : option (bytes * instance) :=
  find (fun p => match runid p.2 with
                 | None => false
                 | Some r => strcmp_eq r id && strcmp_eq (ip (addr p.2)) (ip a) && (port (addr p.2) =? port a)
                 end) instances.

(** The same with no [runid]. *)
Definition master_by_addr (l : list (bytes * master)) (a : sentinelAddr) : option (bytes * master) :=
  find (fun p => strcmp_eq (ip (addr (m_inst p.2))) (ip a) && (port (addr (m_inst p.2)) =? port a)) l.

Definition removeMatchingSentinelsFromMaster (m : master) (a : sentinelAddr) (id : bytes) : master :=
  set_sentinels (List.filter (fun p =>
    negb (match runid p.2 with Some r => strcmp_eq r id | None => false end ||
          (strcmp_eq (ip (addr p.2)) (ip a) && (port a =? port (addr p.2))))) (sentinels m)) m.

(** ** Resetting a master *)

(** The links are not modelled; [flags] is SENTINEL_RESET_NO_SENTINELS. *)
Definition sentinelResetMaster (no_sentinels : bool) (m : master) : option master :=
  if negb (m_has m SRI_MASTER) then None
  else
    let now := mstime env in
    let ri := m_inst m in
    let m := set_slaves [] m in
    let m := if no_sentinels then m else set_sentinels [] m in
    let ri := set_flags (Z.land (flags ri) (Z.lor SRI_MASTER SRI_DISCONNECTED)) ri in
    let ri := set_leader None ri in
    let m := set_failover_state SENTINEL_FAILOVER_STATE_NONE m in
    let m := set_failover_state_change_time 0 m in
    let m := set_failover_start_time 0 m in
    let m := set_promoted_slave None m in
    let ri := set_slave_master_host None (set_runid None ri) in
    let ri := set_last_ping_time now (set_last_avail_time now ri) in
    let ri := set_role_reported SRI_MASTER (set_role_reported_time now ri) in
    Some (set_m_inst ri m).

(** The addresses that are made slaves again; an address that cannot be made is a null
    pointer that is followed. *)
Fixpoint keep_slaves (newaddr : sentinelAddr) (l : list (bytes * instance)) : option (list sentinelAddr) :=
  match l with
  | [] => Some []
  | (_, slave) :: l =>
      if sentinelAddrIsEqual (addr slave) newaddr then keep_slaves newaddr l
      else
        a ← createSentinelAddr (ip (addr slave)) (port (addr slave));
        rest ← keep_slaves newaddr l;
        Some (a :: rest)
  end.

Fixpoint add_slaves (l : list sentinelAddr) (m : master) : master :=
  match l with
  | [] => m
  | a :: l =>
      match createSentinelRedisInstance SRI_SLAVE (ip a) (port a) m (slaves m) with
      | Some t => add_slaves l (set_slaves t m)
      | None => add_slaves l m
      end
  end.

(** The flag is whether the result is [REDIS_OK]. *)
Definition sentinelResetMasterAndChangeAddress (m : master) (a : sentinelAddr) : option (master * bool) :=
  match createSentinelAddr (ip a) (port a) with
  | None => Some (m, false)
  | Some newaddr =>
      kept ← keep_slaves newaddr (slaves m);
      kept ← (if negb (sentinelAddrIsEqual newaddr (addr (m_inst m)))
              then old ← createSentinelAddr (ip (addr (m_inst m))) (port (addr (m_inst m))); Some (kept ++ [old])
              else Some kept);
      m ← sentinelResetMaster true m;
      let m := set_m_inst (set_addr newaddr (set_o_down_since_time 0 (set_s_down_since_time 0 (m_inst m)))) m in
      Some (add_slaves kept m, true)
  end.

Definition sentinelRedisInstanceNoDownFor (ri : instance) (ms : Z) : bool :=
  let most_recent := s_down_since_time ri in
  let most_recent := if o_down_since_time ri >? most_recent then o_down_since_time ri else most_recent in
  (most_recent =? 0) || (mstime env - most_recent >? ms).

(** The promoted slave; a null pointer when there is none. *)
Definition promoted (m : master) : option instance := key ← promoted_slave m; fetch key (slaves m).

Definition sentinelGetCurrentMasterAddress (m : master) : option sentinelAddr :=
  if m_has m SRI_FAILOVER_IN_PROGRESS && negb (bool_decide (promoted_slave m = None)) &&
     (failover_state m >=? SENTINEL_FAILOVER_STATE_RECONF_SLAVES)
  then addr <$> promoted m
  else Some (addr (m_inst m)).

(** ** Failure detection *)

(** The flags of [sentinelCheckSubjectivelyDown]; the links it may kill are not modelled. *)
Definition sentinelCheckSubjectivelyDown (ri : instance) : instance :=
  let now := mstime env in
  let elapsed := if last_ping_time ri =? 0 then 0 else now - last_ping_time ri in
  if (elapsed >? down_after_period ri) ||
     (has ri SRI_MASTER && (role_reported ri =? SRI_SLAVE) &&
      (now - role_reported_time ri >? down_after_period ri + SENTINEL_INFO_PERIOD * 2))
  then if negb (has ri SRI_S_DOWN) then raise SRI_S_DOWN (set_s_down_since_time now ri) else ri
  else if has ri SRI_S_DOWN then clear (Z.lor SRI_S_DOWN SRI_SCRIPT_KILL_SENT) ri else ri.

Definition sentinelCheckObjectivelyDown (m : master) : master :=
  let count := u32 (1 + zlen (List.filter (fun p => has p.2 SRI_MASTER_DOWN) (sentinels m))) in
  let odown := m_has m SRI_S_DOWN && (count >=? quorum m) in
  if odown : bool then
    if negb (m_has m SRI_O_DOWN)
    then set_m_inst (raise SRI_O_DOWN (set_o_down_since_time (mstime env) (m_inst m))) m else m
  else if m_has m SRI_O_DOWN then m_clear SRI_O_DOWN m else m.

(** A reply that has the expected type. *)
Record down_reply := mkReply { re_down : Z; re_leader : bytes; re_epoch : Z }.

Definition sentinelReceiveIsMasterDownReply (r : down_reply) (ri : instance) : instance :=
  let ri := set_last_master_down_reply_time (mstime env) ri in
  let ri := if re_down r =? 1 then raise SRI_MASTER_DOWN ri else clear SRI_MASTER_DOWN ri in
  if negb (strcmp_eq (re_leader r) (zs "*"))
  then set_leader_epoch (u64 (re_epoch r)) (set_leader (Some (re_leader r)) ri) else ri.

(** One turn of the loop over the other sentinels. *)
Definition ask_one (me : bytes) (epoch : Z) (m : master) (forced : bool) (p : bytes * instance)
  : bytes * instance * list command :=
  let '(name, ri) := p in
  let elapsed := mstime env - last_master_down_reply_time ri in
  let ri := if elapsed >? SENTINEL_ASK_PERIOD * 5 then set_leader None (clear SRI_MASTER_DOWN ri) else ri in
  if negb (m_has m SRI_S_DOWN) then (name, ri, [])
  else if has ri SRI_DISCONNECTED then (name, ri, [])
  else if negb forced && (mstime env - last_master_down_reply_time ri <? SENTINEL_ASK_PERIOD) then (name, ri, [])
  else
    (name, ri,
     if accepts env name
     then [IsMasterDownByAddr name (ip (addr (m_inst m))) (port (addr (m_inst m))) epoch
             (if failover_state m >? SENTINEL_FAILOVER_STATE_NONE then me else zs "*")]
     else []).

Definition sentinelAskMasterStateToOtherSentinels (me : bytes) (epoch : Z) (m : master) (forced : bool)
  : master * list command :=
  let l := map (ask_one me epoch m forced) (sentinels m) in
  (set_sentinels (map fst l) m, concat (map snd l)).

(** ** Votes *)

(** The current epoch, the master, the vote and its epoch. *)
Definition sentinelVoteLeader (me : bytes) (epoch : Z) (m : master) (req_epoch : Z) (req_runid : bytes)
  : Z * master * option bytes * Z :=
  let epoch := if req_epoch >? epoch then req_epoch else epoch in
  let m :=
    if (m_leader_epoch m <? req_epoch) && (epoch <=? req_epoch) then
      let m := set_m_inst (set_leader_epoch epoch (set_leader (Some req_runid) (m_inst m))) m in
      if negb (strcase_eq req_runid me)
      then set_failover_start_time (mstime env + rand_vote env (m_name m) mod SENTINEL_MAX_DESYNC) m else m
    else m in
  (epoch, m, m_leader m, m_leader_epoch m).

(** A new entry of the dictionary of votes is set at once. *)
Definition sentinelLeaderIncr (counters : dict bytes Z) (id : bytes) : option (dict bytes Z * Z) :=
  '(counters, de) ← dictFind (votes_hash env) counters id;
  match de with
  | Some de =>
      oldval ← dictGetVal counters de;
      counters ← dictSetVal counters de (u64 (oldval + 1));
      Some (counters, s32 (oldval + 1))
  | None =>
      '(counters, de) ← dictAddRaw (votes_hash env) (votes_resize env) 0 counters id;
      de ← de;
      counters ← dictSetVal counters de 1;
      Some (counters, 1)
  end.

(** "Count other sentinels votes". *)
Fixpoint count_votes (epoch : Z) (l : list (bytes * instance)) (counters : dict bytes Z) : option (dict bytes Z) :=
  match l with
  | [] => Some counters
  | (_, ri) :: l =>
      counters ← (match leader ri with
                  | Some r => if leader_epoch ri =? epoch then fst <$> sentinelLeaderIncr counters r else Some counters
                  | None => Some counters
                  end);
      count_votes epoch l counters
  end.

(** "Check what's the winner". *)
Fixpoint find_winner (fuel : nat) (counters : dict bytes Z) (di : dictIterator bytes Z) (winner : option bytes) (max_votes : Z)
  : option (option bytes * Z) :=
  match fuel with
  | O => None
  | S fuel =>
      '(de, di, counters) ← dictNext counters di;
      match de with
      | None => Some (winner, max_votes)
      | Some (id, votes) =>
          if votes >? max_votes then find_winner fuel counters di (Some id) votes
          else find_winner fuel counters di winner max_votes
      end
  end.

(** The current epoch, the master and the leader. *)
Definition sentinelGetLeader (me : bytes) (epoch : Z) (m : master) (req_epoch : Z) : option (Z * master * option bytes) :=
  if negb (m_has m (Z.lor SRI_O_DOWN SRI_FAILOVER_IN_PROGRESS)) then None
  else
    let voters := u32 (zlen (sentinels m) + 1) in
    counters ← count_votes epoch (sentinels m) dictCreate;
    '(winner, max_votes) ← find_winner (S (Z.to_nat (dictSize counters))) counters dictGetIterator None 0;
    let '(epoch, m, myvote, vote_epoch) :=
      sentinelVoteLeader me epoch m req_epoch (match winner with Some w => w | None => me end) in
    '(winner, max_votes) ← (
      match myvote with
      | Some v =>
          if vote_epoch =? req_epoch then
            '(_, votes) ← sentinelLeaderIncr counters v;
            let votes := u64 votes in
            Some (if votes >? max_votes then (Some v, votes) else (winner, max_votes))
          else Some (winner, max_votes)
      | None => Some (winner, max_votes)
      end);
    let voters_quorum := voters / 2 + 1 in
    let winner := if (max_votes <? voters_quorum) || (max_votes <? quorum m) then None else winner in
    Some (epoch, m, winner).

(** The answer to [is-master-down-by-addr]: the epoch is a number that a [long long]
    holds, or the answer is an error. *)
Definition is_master_down_by_addr (me : bytes) (tilting : bool) (epoch : Z) (l : list (bytes * master)) (a : sentinelAddr)
    (req_epoch : Z) (req_runid : bytes) : option (Z * list (bytes * master) * down_reply) :=
  if negb ((LLONG_MIN <=? req_epoch) && (req_epoch <=? LLONG_MAX)) then None
  else
    match master_by_addr l a with
    | None => Some (epoch, l, mkReply 0 (zs "*") 0)
    | Some (name, m) =>
        let isdown := negb tilting && m_has m SRI_S_DOWN && m_has m SRI_MASTER in
        if m_has m SRI_MASTER && negb (strcase_eq req_runid (zs "*")) then
          let '(epoch, m, vote, vote_epoch) := sentinelVoteLeader me epoch m (u64 req_epoch) req_runid in
          Some (epoch, store name m l, mkReply (b2z isdown) (match vote with Some r => r | None => zs "*" end) (s64 vote_epoch))
        else Some (epoch, l, mkReply (b2z isdown) (zs "*") 0)
    end.

(** ** Failover *)

(** Whether SLAVEOF could be sent, and what was: the link takes the commands of the
    transaction together or refuses the first of them. *)
Definition sentinelSendSlaveOf (name : bytes) (target : option sentinelAddr) : bool * list command :=
  if accepts env name then (true, [SlaveOf name target]) else (false, []).

Definition sentinelStartFailover (epoch : Z) (m : master) : option (Z * master) :=
  if negb (m_has m SRI_MASTER) then None
  else
    let now := mstime env in
    let m := set_failover_state SENTINEL_FAILOVER_STATE_WAIT_START m in
    let m := m_raise SRI_FAILOVER_IN_PROGRESS m in
    let epoch := u64 (epoch + 1) in
    let m := set_failover_epoch epoch m in
    let m := set_failover_start_time (now + rand_start env (m_name m) mod SENTINEL_MAX_DESYNC) m in
    Some (epoch, set_failover_state_change_time now m).

Definition sentinelStartFailoverIfNeeded (epoch : Z) (m : master) : option (Z * master * bool) :=
  if negb (m_has m SRI_O_DOWN) then Some (epoch, m, false)
  else if m_has m SRI_FAILOVER_IN_PROGRESS then Some (epoch, m, false)
  else if mstime env - failover_start_time m <? failover_timeout m * 2 then Some (epoch, m, false)
  else '(epoch, m) ← sentinelStartFailover epoch m; Some (epoch, m, true).

(** A negative, null or positive number as the names are ordered. *)
Fixpoint strcasecmp (a b : bytes) : Z :=
  match a, b with
  | [], [] => 0
  | [], _ => -1
  | _, [] => 1
  | x :: a, y :: b => if to_lower x =? to_lower y then strcasecmp a b else to_lower x - to_lower y
  end.

Definition compareSlavesForPromotion (a b : instance) : Z :=
  if negb (slave_priority a =? slave_priority b) then s32 (slave_priority a - slave_priority b)
  else if slave_repl_offset a >? slave_repl_offset b then -1
  else if slave_repl_offset a <? slave_repl_offset b then 1
  else
    match runid a, runid b with
    | None, None => 0
    | None, Some _ => 1
    | Some _, None => -1
    | Some x, Some y => strcasecmp x y
    end.

(** [qsort], as a stable sort. *)
Fixpoint sort_in (p : bytes * instance) (l : list (bytes * instance)) : list (bytes * instance) :=
  match l with
  | [] => [p]
  | q :: l => if compareSlavesForPromotion p.2 q.2 <=? 0 then p :: q :: l else q :: sort_in p l
  end.

Definition qsort (l : list (bytes * instance)) : list (bytes * instance) := foldr sort_in [] l.

(** The tests of the loop of [sentinelSelectSlave]. *)
Definition suitable (m : master) (slave : instance) : bool :=
  let now := mstime env in
  let max_master_down_time := (if m_has m SRI_S_DOWN then now - s_down_since_time (m_inst m) else 0) + down_after_period (m_inst m) * 10 in
  let info_validity_time := if m_has m SRI_S_DOWN then SENTINEL_PING_PERIOD * 5 else SENTINEL_INFO_PERIOD * 3 in
  negb (has slave (Z.lor SRI_S_DOWN (Z.lor SRI_O_DOWN SRI_DISCONNECTED))) &&
  negb (now - last_avail_time slave >? SENTINEL_PING_PERIOD * 5) &&
  negb (slave_priority slave =? 0) &&
  negb (now - info_refresh slave >? info_validity_time) &&
  negb (master_link_down_time slave >? max_master_down_time).

Definition sentinelSelectSlave (m : master) : option (bytes * instance) :=
  head (qsort (List.filter (fun p => suitable m p.2) (slaves m))).

Definition sentinelAbortFailover (m : master) : option master :=
  if negb (m_has m SRI_FAILOVER_IN_PROGRESS) then None
  else if negb (failover_state m <=? SENTINEL_FAILOVER_STATE_WAIT_PROMOTION) then None
  else
    let m := m_clear (Z.lor SRI_FAILOVER_IN_PROGRESS SRI_FORCE_FAILOVER) m in
    let m := set_failover_state SENTINEL_FAILOVER_STATE_NONE m in
    let m := set_failover_state_change_time (mstime env) m in
    match promoted_slave m with
    | None => Some m
    | Some key =>
        slave ← fetch key (slaves m);
        Some (set_promoted_slave None (set_slaves (store key (clear SRI_PROMOTED slave) (slaves m)) m))
    end.

Definition sentinelFailoverWaitStart (me : bytes) (epoch : Z) (m : master) : option (Z * master) :=
  '(epoch, m, winner) ← sentinelGetLeader me epoch m (failover_epoch m);
  let isleader := match winner with Some r => strcase_eq r me | None => false end in
  if negb isleader && negb (m_has m SRI_FORCE_FAILOVER) then
    let election_timeout := SENTINEL_ELECTION_TIMEOUT in
    let election_timeout := if election_timeout >? failover_timeout m then s32 (failover_timeout m) else election_timeout in
    if mstime env - failover_start_time m >? election_timeout
    then m ← sentinelAbortFailover m; Some (epoch, m)
    else Some (epoch, m)
  else
    let m := set_failover_state SENTINEL_FAILOVER_STATE_SELECT_SLAVE m in
    Some (epoch, set_failover_state_change_time (mstime env) m).

Definition sentinelFailoverSelectSlave (m : master) : option master :=
  match sentinelSelectSlave m with
  | None => sentinelAbortFailover m
  | Some (name, slave) =>
      let m := set_slaves (store name (raise SRI_PROMOTED slave) (slaves m)) m in
      let m := set_promoted_slave (Some name) m in
      let m := set_failover_state SENTINEL_FAILOVER_STATE_SEND_SLAVEOF_NOONE m in
      Some (set_failover_state_change_time (mstime env) m)
  end.

Definition sentinelFailoverSendSlaveOfNoOne (m : master) : option (master * list command) :=
  slave ← promoted m;
  if has slave SRI_DISCONNECTED then
    if mstime env - failover_state_change_time m >? failover_timeout m
    then m ← sentinelAbortFailover m; Some (m, [])
    else Some (m, [])
  else
    name ← promoted_slave m;
    let '(ok, out) := sentinelSendSlaveOf name None in
    if negb ok then Some (m, out)
    else
      let m := set_failover_state SENTINEL_FAILOVER_STATE_WAIT_PROMOTION m in
      Some (set_failover_state_change_time (mstime env) m, out).

Definition sentinelFailoverWaitPromotion (m : master) : option master :=
  if mstime env - failover_state_change_time m >? failover_timeout m then sentinelAbortFailover m else Some m.

(** The last loop of [sentinelFailoverDetectEnd]. *)
Fixpoint reconf_best_effort (target : sentinelAddr) (l : list (bytes * instance)) : list (bytes * instance) * list command :=
  match l with
  | [] => ([], [])
  | (name, slave) :: l =>
      let '(rest, out) := reconf_best_effort target l in
      if has slave (Z.lor SRI_RECONF_DONE (Z.lor SRI_RECONF_SENT SRI_DISCONNECTED)) then ((name, slave) :: rest, out)
      else
        let '(ok, sent) := sentinelSendSlaveOf name (Some target) in
        ((name, if ok : bool then raise SRI_RECONF_SENT slave else slave) :: rest, sent ++ out)
  end.

Definition sentinelFailoverDetectEnd (m : master) : option (master * list command) :=
  let elapsed := mstime env - failover_state_change_time m in
  match promoted_slave m with
  | None => Some (m, [])
  | Some name =>
      slave ← fetch name (slaves m);
      if has slave SRI_S_DOWN then Some (m, [])
      else
        let not_reconfigured := zlen (List.filter (fun p =>
          negb (has p.2 (Z.lor SRI_PROMOTED SRI_RECONF_DONE)) && negb (has p.2 SRI_S_DOWN)) (slaves m)) in
        let timeout := elapsed >? failover_timeout m in
        let m :=
          if timeout || (not_reconfigured =? 0)
          then set_failover_state_change_time (mstime env) (set_failover_state SENTINEL_FAILOVER_STATE_UPDATE_CONFIG m)
          else m in
        if timeout : bool then
          let '(l, out) := reconf_best_effort (addr slave) (slaves m) in Some (set_slaves l m, out)
        else Some (m, [])
  end.

(** The second loop of [sentinelFailoverReconfNextSlave]; it ends when as many slaves
    are being reconfigured as may be. *)
Fixpoint reconf_loop (m : master) (in_progress : Z) (l : list (bytes * instance)) : option (list (bytes * instance) * list command) :=
  match l with
  | [] => Some ([], [])
  | (name, slave) :: l =>
      if negb (in_progress <? parallel_syncs m) then Some ((name, slave) :: l, [])
      else if has slave (Z.lor SRI_PROMOTED SRI_RECONF_DONE) then
        '(rest, out) ← reconf_loop m in_progress l; Some ((name, slave) :: rest, out)
      else
        let slave :=
          if has slave SRI_RECONF_SENT && (mstime env - slave_reconf_sent_time slave >? SENTINEL_SLAVE_RECONF_TIMEOUT)
          then raise SRI_RECONF_DONE (clear SRI_RECONF_SENT slave) else slave in
        if has slave (Z.lor SRI_DISCONNECTED (Z.lor SRI_RECONF_SENT SRI_RECONF_INPROG)) then
          '(rest, out) ← reconf_loop m in_progress l; Some ((name, slave) :: rest, out)
        else
          target ← promoted m;
          let '(ok, sent) := sentinelSendSlaveOf name (Some (addr target)) in
          let slave := if ok : bool then set_slave_reconf_sent_time (mstime env) (raise SRI_RECONF_SENT slave) else slave in
          '(rest, out) ← reconf_loop m (if ok : bool then in_progress + 1 else in_progress) l;
          Some ((name, slave) :: rest, sent ++ out)
  end.

Definition sentinelFailoverReconfNextSlave (m : master) : option (master * list command) :=
  let in_progress := zlen (List.filter (fun p => has p.2 (Z.lor SRI_RECONF_SENT SRI_RECONF_INPROG)) (slaves m)) in
  '(l, out) ← reconf_loop m in_progress (slaves m);
  '(m, out') ← sentinelFailoverDetectEnd (set_slaves l m);
  Some (m, out ++ out').

Definition sentinelFailoverStateMachine (me : bytes) (epoch : Z) (m : master) : option (Z * master * list command) :=
  if negb (m_has m SRI_MASTER) then None
  else if negb (m_has m SRI_FAILOVER_IN_PROGRESS) then Some (epoch, m, [])
  else
    let s := failover_state m in
    if s =? SENTINEL_FAILOVER_STATE_WAIT_START then '(epoch, m) ← sentinelFailoverWaitStart me epoch m; Some (epoch, m, [])
    else if s =? SENTINEL_FAILOVER_STATE_SELECT_SLAVE then m ← sentinelFailoverSelectSlave m; Some (epoch, m, [])
    else if s =? SENTINEL_FAILOVER_STATE_SEND_SLAVEOF_NOONE then '(m, out) ← sentinelFailoverSendSlaveOfNoOne m; Some (epoch, m, out)
    else if s =? SENTINEL_FAILOVER_STATE_WAIT_PROMOTION then m ← sentinelFailoverWaitPromotion m; Some (epoch, m, [])
    else if s =? SENTINEL_FAILOVER_STATE_RECONF_SLAVES then '(m, out) ← sentinelFailoverReconfNextSlave m; Some (epoch, m, out)
    else Some (epoch, m, []).

Definition sentinelFailoverSwitchToPromotedSlave (m : master) : option master :=
  a ← (match promoted_slave m with None => Some (addr (m_inst m)) | Some _ => addr <$> promoted m end);
  '(m, _) ← sentinelResetMasterAndChangeAddress m a;
  Some m.

(** ** The timer *)

(** [sentinelHandleRedisInstance] for a master, then its slaves and the other
    sentinels; the acting half is left out in TILT mode. *)
Definition sentinelHandleMaster (acting : bool) (me : bytes) (epoch : Z) (m : master) : option (Z * master * list command) :=
  if negb acting then Some (epoch, m, [])
  else
  let m := set_m_inst (sentinelCheckSubjectivelyDown (m_inst m)) m in
  if negb (m_has m SRI_MASTER) then Some (epoch, m, [])
  else
    let m := sentinelCheckObjectivelyDown m in
    '(epoch, m, started) ← sentinelStartFailoverIfNeeded epoch m;
    let '(m, out1) := if started : bool then sentinelAskMasterStateToOtherSentinels me epoch m true else (m, []) in
    '(epoch, m, out2) ← sentinelFailoverStateMachine me epoch m;
    let '(m, out3) := sentinelAskMasterStateToOtherSentinels me epoch m false in
    let check l := map (fun p => (p.1, sentinelCheckSubjectivelyDown p.2)) l in
    let m := set_sentinels (check (sentinels m)) (set_slaves (check (slaves m)) m) in
    Some (epoch, m, out1 ++ out2 ++ out3).

(** [sentinelHandleDictOfRedisInstances] on the masters; the last one that has finished
    its failover is switched. *)
Fixpoint handle_masters (acting : bool) (me : bytes) (epoch : Z) (l : list (bytes * master)) (switch_to_promoted : option bytes)
  : option (Z * list (bytes * master) * list command * option bytes) :=
  match l with
  | [] => Some (epoch, [], [], switch_to_promoted)
  | (name, m) :: l =>
      '(epoch, m, out1) ← sentinelHandleMaster acting me epoch m;
      let switch := if m_has m SRI_MASTER && (failover_state m =? SENTINEL_FAILOVER_STATE_UPDATE_CONFIG)
                    then Some name else switch_to_promoted in
      '(epoch, l, out2, switch) ← handle_masters acting me epoch l switch;
      Some (epoch, (name, m) :: l, out1 ++ out2, switch)
  end.

Definition sentinelHandleDictOfRedisInstances (acting : bool) (me : bytes) (epoch : Z) (l : list (bytes * master))
  : option (Z * list (bytes * master) * list command) :=
  '(epoch, l, out, switch) ← handle_masters acting me epoch l None;
  match switch with
  | None => Some (epoch, l, out)
  | Some name =>
      m ← fetch name l;
      m ← sentinelFailoverSwitchToPromotedSlave m;
      Some (epoch, store name m l, out)
  end.

Definition sentinelCheckTiltCondition (st : sentinelState) : sentinelState :=
  let now := mstime env in
  let delta := now - previous_time st in
  let st := if (delta <? 0) || (delta >? SENTINEL_TILT_TRIGGER) then set_tilt true (set_tilt_start_time now st) else st in
  set_previous_time now st.

(** The timer; the monitoring half (links, PING, INFO) and the scripts are not modelled.
    TILT mode is left by the first instance that is handled after its period. *)
Definition sentinelTimer (st : sentinelState) : option (sentinelState * list command) :=
  let st := sentinelCheckTiltCondition st in
  let acting := negb (tilt st && (mstime env - tilt_start_time st <? SENTINEL_TILT_PERIOD)) in
  let st := if acting && negb (bool_decide (length (masters st) = 0%nat)) then set_tilt false st else st in
  '(epoch, l, out) ← sentinelHandleDictOfRedisInstances acting (server_runid st) (current_epoch st) (masters st);
  Some (set_current_epoch epoch (set_masters l st), out).

(** SENTINEL FAILOVER on a master; [None] in the answer is an error that is replied. *)
Definition sentinel_failover (epoch : Z) (m : master) : option (option (Z * master)) :=
  if m_has m SRI_FAILOVER_IN_PROGRESS then Some None
  else
    match sentinelSelectSlave m with
    | None => Some None
    | Some _ => '(epoch, m) ← sentinelStartFailover epoch m; Some (Some (epoch, m_raise SRI_FORCE_FAILOVER m))
    end.

(** ** What is heard from others *)

(** A message of the hello channel, its eight fields read. *)
Record hello := mkHello {
  h_addr : sentinelAddr;
  h_runid : bytes;
  h_current_epoch : Z;
  h_master_name : bytes;
  h_master_addr : sentinelAddr;
  h_master_config_epoch : Z
}.

Definition sentinelProcessHelloMessage (h : hello) (st : sentinelState) : option sentinelState :=
  match fetch (h_master_name h) (masters st) with
  | None => Some st
  | Some m =>
      let '(m, name) :=
        match getSentinelRedisInstanceByAddrAndRunID (sentinels m) (h_addr h) (h_runid h) with
        | Some (name, _) => (m, Some name)
        | None =>
            let m := removeMatchingSentinelsFromMaster m (h_addr h) (h_runid h) in
            let name := instance_name (h_addr h) in
            match createSentinelRedisInstance SRI_SENTINEL (ip (h_addr h)) (port (h_addr h)) m (sentinels m) with
            | Some t =>
                (set_sentinels (map (fun p => if strcmp_eq p.1 name then (p.1, set_runid (Some (h_runid h)) p.2) else p) t) m, Some name)
            | None => (m, None)
            end
        end in
      let st := if h_current_epoch h >? current_epoch st then set_current_epoch (h_current_epoch h) st else st in
      m ← (if config_epoch m <? h_master_config_epoch h then
             let m := set_config_epoch (h_master_config_epoch h) m in
             if negb (port (h_master_addr h) =? port (addr (m_inst m))) || negb (strcmp_eq (ip (addr (m_inst m))) (ip (h_master_addr h)))
             then fst <$> sentinelResetMasterAndChangeAddress m (h_master_addr h)
             else Some m
           else Some m);
      let m := match name with
               | Some name => set_sentinels (map (fun p => if strcmp_eq p.1 name then (p.1, set_last_hello_time (mstime env) p.2) else p) (sentinels m)) m
               | None => m
               end in
      Some (set_masters (store (h_master_name h) m (masters st)) st)
  end.

(** What is said on that channel of a master. *)
Definition sentinelSendHello (a : sentinelAddr) (st : sentinelState) (m : master) : option hello :=
  master_addr ← sentinelGetCurrentMasterAddress m;
  Some (mkHello a (server_runid st) (current_epoch st) (m_name m) master_addr (config_epoch m)).

(** The acting half of [sentinelRefreshInstanceInfo] for a slave that reports to be a
    master, and is the one that was promoted. *)
Definition slave_promoted (m : master) (slave : instance) : master :=
  if has slave SRI_PROMOTED && m_has m SRI_FAILOVER_IN_PROGRESS && (failover_state m =? SENTINEL_FAILOVER_STATE_WAIT_PROMOTION)
  then
    let m := set_config_epoch (failover_epoch m) m in
    let m := set_failover_state SENTINEL_FAILOVER_STATE_RECONF_SLAVES m in
    set_failover_state_change_time (mstime env) m
  else m.

(** The same for a slave that is being reconfigured. *)
Definition slave_reconfigured (m : master) (slave : instance) : option instance :=
  if has slave SRI_SLAVE && has slave (Z.lor SRI_RECONF_SENT SRI_RECONF_INPROG) then
    slave ← (if has slave SRI_RECONF_SENT then
               match slave_master_host slave with
               | None => Some slave
               | Some host =>
                   p ← promoted m;
                   Some (if strcmp_eq host (ip (addr p)) && (slave_master_port slave =? port (addr p))
                         then raise SRI_RECONF_INPROG (clear SRI_RECONF_SENT slave) else slave)
               end
             else Some slave);
    Some (if has slave SRI_RECONF_INPROG && (slave_master_link_status slave =? SENTINEL_MASTER_LINK_STATUS_UP)
          then raise SRI_RECONF_DONE (clear SRI_RECONF_INPROG slave) else slave)
  else Some slave.
End sentinel.
