(* ===== verification/SentinelNet.v ===== *)
(** * Sentinels that talk to each other (src/redis-2.8.19/src/sentinel.c)

    A network of sentinels that monitor one master. Every message that was ever sent
    can be delivered, at any time, any number of times or never; clocks and random
    numbers are those of each call; what a sentinel observes of the master, the slaves
    and the other sentinels, other than votes, is arbitrary. The sentinels know each
    other and none is restarted. *)
From S2P Require Import Prelude Util Object Dict DictIter Sentinel.
Open Scope Z_scope.

Inductive packet :=
  | Request (from to : bytes) (a : sentinelAddr) (epoch : Z) (id : bytes)
  | Reply (from to : bytes) (r : down_reply)
  | Hello (h : hello).

(** The sentinels by their run id, all that was sent, and the history of the elections:
    who won, the epoch of the failover and the current epoch of the winner. *)
Record world := mkWorld {
  procs : gmap bytes sentinelState;
  soup : list packet;
  led : list (bytes * Z * Z)
}.

Inductive event :=
  | Timer (a : bytes) (env : senv)
  | Deliver (a : bytes) (i : nat) (env : senv)
  | SayHello (a : bytes)
  | UserFailover (a : bytes) (env : senv)
  | Promoted (a : bytes) (slave : bytes) (env : senv)
  | Observe (a : bytes) (seen : instance -> instance) (slaves : list (bytes * instance)).

(** What an observation leaves alone: votes, names and addresses, and the flags of a
    master that belong to a failover. *)
Definition keep_votes (ri seen : instance) : instance :=
  let mask := Z.lor SRI_MASTER (Z.lor SRI_FAILOVER_IN_PROGRESS SRI_FORCE_FAILOVER) in
  let seen := set_flags (Z.lor (Z.ldiff (flags seen) mask) (Z.land (flags ri) mask)) seen in
  set_leader (leader ri) (set_leader_epoch (leader_epoch ri) (set_runid (runid ri) (set_addr (addr ri) seen))).

Definition observe (seen : instance -> instance) (l : list (bytes * instance)) (m : master) : master :=
  set_m_inst (keep_votes (m_inst m) (seen (m_inst m)))
    (set_sentinels (map (fun p => (p.1, keep_votes p.2 (seen p.2))) (sentinels m)) (set_slaves l m)).

(** The master that a sentinel monitors. *)
Definition monitored (st : sentinelState) : option master :=
  match masters st with [(_, m)] => Some m | _ => None end.

(** The elections that are won between two states. *)
Definition newly_led (a : bytes) (st st' : sentinelState) : list (bytes * Z * Z) :=
  match monitored st, monitored st' with
  | Some m, Some m' =>
      if (failover_state m' =? SENTINEL_FAILOVER_STATE_SELECT_SLAVE) &&
         negb (failover_state m =? SENTINEL_FAILOVER_STATE_SELECT_SLAVE) && negb (m_has m' SRI_FORCE_FAILOVER)
      then [(a, failover_epoch m', current_epoch st')] else []
  | _, _ => []
  end.

Section world.
Context (members : list (bytes * sentinelAddr)).

Definition node_named (name : bytes) : option bytes :=
  fst <$> find (fun q => strcmp_eq (instance_name q.2) name) members.

Definition node_addr (a : bytes) : option sentinelAddr :=
  snd <$> find (fun q => strcmp_eq q.1 a) members.

Definition packet_of (a : bytes) (c : command) : option packet :=
  match c with
  | IsMasterDownByAddr to i p epoch id => b ← node_named to; Some (Request a b (mkAddr i p) epoch id)
  | SlaveOf _ _ => None
  end.

Definition send (l : list packet) (w : world) : world := mkWorld (procs w) (soup w ++ l) (led w).
Definition put (a : bytes) (st : sentinelState) (w : world) : world := mkWorld (<[a := st]> (procs w)) (soup w) (led w).

(** The answer of the sentinel [a] is heard. *)
Definition heard_from (env : senv) (a : bytes) (r : down_reply) (m : master) : master :=
  set_sentinels (map (fun p => match runid p.2 with
                               | Some id => if strcmp_eq id a then (p.1, sentinelReceiveIsMasterDownReply env r p.2) else p
                               | None => p
                               end) (sentinels m)) m.

Definition deliver (env : senv) (a : bytes) (pk : packet) (w : world) : option world :=
  st ← procs w !! a;
  match pk with
  | Request from to ad epoch id =>
      if negb (strcmp_eq to a) then None
      else
        '(epoch, l, r) ← is_master_down_by_addr env a (tilt st) (current_epoch st) (masters st) ad epoch id;
        Some (send [Reply a from r] (put a (set_current_epoch epoch (set_masters l st)) w))
  | Reply from to r =>
      if negb (strcmp_eq to a) then None
      else m ← monitored st; Some (put a (set_masters (store (m_name m) (heard_from env from r m) (masters st)) st) w)
  | Hello h =>
      if strcmp_eq (h_runid h) a then None
      else st ← sentinelProcessHelloMessage env h st; Some (put a st w)
  end.

Definition exec (ev : event) (w : world) : option world :=
  match ev with
  | Timer a env =>
      st ← procs w !! a;
      '(st', out) ← sentinelTimer env st;
      let w := send (omap (packet_of a) out) (put a st' w) in
      Some (mkWorld (procs w) (soup w) (led w ++ newly_led a st st'))
  | Deliver a i env => pk ← soup w !! i; deliver env a pk w
  | SayHello a =>
      st ← procs w !! a;
      m ← monitored st;
      ad ← node_addr a;
      h ← sentinelSendHello ad st m;
      Some (send [Hello h] w)
  | UserFailover a env =>
      st ← procs w !! a;
      m ← monitored st;
      r ← sentinel_failover env (current_epoch st) m;
      '(epoch, m) ← r;
      Some (put a (set_current_epoch epoch (set_masters (store (m_name m) m (masters st)) st)) w)
  | Promoted a key env =>
      st ← procs w !! a;
      m ← monitored st;
      slave ← fetch key (slaves m);
      Some (put a (set_masters (store (m_name m) (slave_promoted env m slave) (masters st)) st) w)
  | Observe a seen l =>
      st ← procs w !! a;
      m ← monitored st;
      Some (put a (set_masters (store (m_name m) (observe seen l m) (masters st)) st) w)
  end.

Definition step (w w' : world) : Prop := exists ev, exec ev w = Some w'.

Fixpoint run (l : list event) (w : world) : option world :=
  match l with [] => Some w | ev :: l => w ← exec ev w; run l w end.

Lemma run_reaches l : forall w w', run l w = Some w' -> rtc step w w'.
Proof.
  induction l as [|ev l IH]; intros w w'; cbn [run]; [by intros [= ->]|].
  destruct (exec ev w) as [w1|] eqn:He; [|done]. cbn [mbind option_bind]. intros Hr. eapply rtc_l; [by exists ev|by apply IH].
Qed.
End world.
