(* ===== verification/SentinelSpec.v ===== *)
(** * Sentinel: votes and elections (src/redis-2.8.19/src/sentinel.c)

    A sentinel votes once in an epoch. Among sentinels that know each other, at most
    one is elected in an epoch by votes of that epoch; but the votes that are counted
    are those of the current epoch, not those of the epoch of the failover, and two
    sentinels can be elected for the same failover epoch. *)
From S2P Require Import Prelude Util Object Dict DictIter DictBound Sentinel SentinelNet.
Open Scope Z_scope.

(** ** What must not change: votes and names *)

(** Another sentinel as it is known, and the vote it is known to have cast. *)
Definition face (p : bytes * instance) : bytes * option bytes * sentinelAddr := (p.1, runid p.2, addr p.2).

(** A vote is as it was, or forgotten. *)
Definition fade (ri ri' : instance) : Prop :=
  (leader ri' = leader ri \/ leader ri' = None) /\ leader_epoch ri' = leader_epoch ri.

Record fades (m m' : master) : Prop := {
  fa_own : fade (m_inst m) (m_inst m');
  fa_peers : Forall2 (fun p p' => face p' = face p /\ fade p.2 p'.2) (sentinels m) (sentinels m');
  fa_name : m_name m' = m_name m
}.

#[global] Instance fade_refl : Reflexive fade.
Proof. intros ri. split; [by left|done]. Qed.

#[global] Instance fade_trans : Transitive fade.
Proof. intros a b c [H1 E1] [H2 E2]. split; [|congruence]. destruct H2 as [->| ->]; [done|by right]. Qed.

#[global] Instance fades_refl : Reflexive fades.
Proof. intros m. split; [done| |done]. by apply Forall_Forall2_diag, Forall_forall. Qed.

#[global] Instance fades_trans : Transitive fades.
Proof.
  intros a b c [H1 E1 N1] [H2 E2 N2]. split; [by etrans| |congruence]. revert E2. generalize (sentinels c). clear - E1.
  induction E1 as [|p q l l' [Hf Hv] _ IH]; intros l2 E2; inversion E2 as [|? r ? ? [Hf2 Hv2] E3]; subst; constructor; [|by apply IH].
  split; [congruence|by etrans].
Qed.

(** The fields that a step of the failover changes are others. *)
Lemma fades_fields m m' : fade (m_inst m) (m_inst m') -> sentinels m' = sentinels m -> m_name m' = m_name m -> fades m m'.
Proof. intros H1 H2 H3. split; [done| |done]. rewrite H2. apply (fades_refl m). Qed.

Ltac fade_solve := apply fades_fields; [split; [first [by left|by right]|done]|done|done].

Section handlers.
Context (env : senv).

Lemma check_down_same ri : let ri' := sentinelCheckSubjectivelyDown env ri in
  leader ri' = leader ri /\ leader_epoch ri' = leader_epoch ri /\ runid ri' = runid ri /\ addr ri' = addr ri.
Proof. unfold sentinelCheckSubjectivelyDown. repeat case_match; done. Qed.

Lemma objectively_fades m : fades m (sentinelCheckObjectivelyDown env m) /\
  failover_state (sentinelCheckObjectivelyDown env m) = failover_state m /\
  failover_epoch (sentinelCheckObjectivelyDown env m) = failover_epoch m.
Proof. unfold sentinelCheckObjectivelyDown. repeat case_match; (split; [|done]); by fade_solve. Qed.

Lemma ask_fades me epoch m forced m' out : sentinelAskMasterStateToOtherSentinels env me epoch m forced = (m', out) ->
  fades m m' /\ failover_state m' = failover_state m /\ failover_epoch m' = failover_epoch m /\ m_inst m' = m_inst m /\
  Forall (fun c => exists to i p id, c = IsMasterDownByAddr to i p epoch id /\ (id = me \/ id = zs "*")) out.
Proof.
  unfold sentinelAskMasterStateToOtherSentinels. intros [= <- <-]. split; [|split; [done|split; [done|split; [done|]]]].
  - split; [done| |done]. cbn [sentinels set_sentinels]. induction (sentinels m) as [|[n ri] l IH]; cbn [map]; constructor; [|done].
    unfold ask_one. repeat case_match; cbn [fst snd]; (split; [done|]); split; auto.
  - apply Forall_concat, Forall_fmap, Forall_fmap, Forall_forall. intros [n ri] _. unfold compose, ask_one.
    repeat case_match; constructor; try done; eexists _, _, _, _; (split; [reflexivity|]); auto.
Qed.

Lemma abort_fades m m' : sentinelAbortFailover env m = Some m' ->
  fades m m' /\ failover_state m' = SENTINEL_FAILOVER_STATE_NONE /\ failover_epoch m' = failover_epoch m.
Proof.
  unfold sentinelAbortFailover. destruct (negb _); [done|]. destruct (negb _); [done|]. cbn [set_failover_state_change_time promoted_slave set_failover_state m_clear set_m_inst].
  destruct (promoted_slave m) as [key|]; [|intros [= <-]; (split; [|done]); fade_solve].
  intros (slave & _ & [= <-])%bind_Some. (split; [|done]). fade_solve.
Qed.

Lemma start_fades epoch m epoch' m' : sentinelStartFailover env epoch m = Some (epoch', m') ->
  fades m m' /\ failover_state m' = SENTINEL_FAILOVER_STATE_WAIT_START /\ failover_epoch m' = epoch' /\ epoch' = u64 (epoch + 1).
Proof. unfold sentinelStartFailover. destruct (negb _); [done|]. intros [= <- <-]. (split; [|done]). fade_solve. Qed.

Lemma start_if_needed_fades epoch m epoch' m' b : sentinelStartFailoverIfNeeded env epoch m = Some (epoch', m', b) ->
  fades m m' /\ (epoch' = epoch /\ m' = m \/
                 failover_state m' = SENTINEL_FAILOVER_STATE_WAIT_START /\ failover_epoch m' = epoch' /\ epoch' = u64 (epoch + 1)).
Proof.
  unfold sentinelStartFailoverIfNeeded. destruct (negb _); [intros [= <- <- <-]; (split; [done|by left])|]. destruct (m_has _ _); [intros [= <- <- <-]; (split; [done|by left])|].
  destruct (_ <? _); [intros [= <- <- <-]; (split; [done|by left])|]. intros ([e1 m1] & Hs & [= <- <- <-])%bind_Some. apply start_fades in Hs as [Hf Hr]. split; [done|by right].
Qed.

Lemma select_slave_fades m m' : sentinelFailoverSelectSlave env m = Some m' ->
  fades m m' /\ failover_state m' <> SENTINEL_FAILOVER_STATE_SELECT_SLAVE /\ failover_epoch m' = failover_epoch m.
Proof.
  unfold sentinelFailoverSelectSlave. destruct (sentinelSelectSlave env m) as [[name slave]|].
  - intros [= <-]. (split; [|done]). fade_solve.
  - intros (Hf & Hs & He)%abort_fades. split; [done|]. by rewrite Hs.
Qed.

Lemma slaveof_no_one_fades m m' out : sentinelFailoverSendSlaveOfNoOne env m = Some (m', out) ->
  fades m m' /\ (failover_state m' = SENTINEL_FAILOVER_STATE_SELECT_SLAVE -> failover_state m = SENTINEL_FAILOVER_STATE_SELECT_SLAVE) /\
  failover_epoch m' = failover_epoch m.
Proof.
  unfold sentinelFailoverSendSlaveOfNoOne. intros (slave & _ & H)%bind_Some. destruct (has slave _).
  - destruct (_ >? _); [|by injection H as <- _]. apply bind_Some in H as (m1 & (Hf & Hs & He)%abort_fades & [= <- _]). split; [done|]. by rewrite Hs.
  - apply bind_Some in H as (name & _ & H). destruct (sentinelSendSlaveOf env name None) as [[] o]; injection H as <- _; (split; [by fade_solve|done]).
Qed.

Lemma wait_promotion_fades m m' : sentinelFailoverWaitPromotion env m = Some m' ->
  fades m m' /\ (failover_state m' = SENTINEL_FAILOVER_STATE_SELECT_SLAVE -> failover_state m = SENTINEL_FAILOVER_STATE_SELECT_SLAVE) /\
  failover_epoch m' = failover_epoch m.
Proof.
  unfold sentinelFailoverWaitPromotion. destruct (_ >? _); [|by intros [= <-]]. intros (Hf & Hs & He)%abort_fades. split; [done|]. by rewrite Hs.
Qed.

Lemma detect_end_fades m m' out : sentinelFailoverDetectEnd env m = Some (m', out) ->
  fades m m' /\ (failover_state m' = SENTINEL_FAILOVER_STATE_SELECT_SLAVE -> failover_state m = SENTINEL_FAILOVER_STATE_SELECT_SLAVE) /\
  failover_epoch m' = failover_epoch m /\ Forall (fun c => exists to t, c = SlaveOf to t) out.
Proof.
  unfold sentinelFailoverDetectEnd. destruct (promoted_slave m) as [key|]; [|by intros [= <- <-]]. intros (slave & _ & H)%bind_Some.
  destruct (has slave _); [by injection H as <- <-|].
  assert (forall t l l' o, reconf_best_effort env t l = (l', o) -> Forall (fun c => exists to t, c = SlaveOf to t) o) as Hbest.
  { intros t sl. clear - sl. induction sl as [|[n s] sl IH]; cbn [reconf_best_effort]; intros l' o; [by intros [= _ <-]|].
    destruct (reconf_best_effort env t sl) as [rest o1] eqn:Hr. specialize (IH _ _ eq_refl). destruct (has s _); [by intros [= _ <-]|].
    unfold sentinelSendSlaveOf. destruct (accepts env n); intros [= _ <-]; [constructor; [by eexists _, _|done]|done]. }
  set (m1 := if _ || _ then _ else _) in H. assert (fades m m1 /\ (failover_state m1 = SENTINEL_FAILOVER_STATE_SELECT_SLAVE -> failover_state m = SENTINEL_FAILOVER_STATE_SELECT_SLAVE) /\ failover_epoch m1 = failover_epoch m) as (Hf & Hs & He).
  { unfold m1. destruct (_ || _); [|done]. split; [by fade_solve|done]. }
  clearbody m1. destruct (_ >? _); [|by injection H as <- <-]. destruct (reconf_best_effort env (addr slave) (slaves m1)) as [l o] eqn:Hr.
  injection H as <- <-. split; [etrans; [exact Hf|fade_solve]|]. split; [done|]. split; [done|by eapply Hbest].
Qed.

Lemma reconf_next_fades m m' out : sentinelFailoverReconfNextSlave env m = Some (m', out) ->
  fades m m' /\ (failover_state m' = SENTINEL_FAILOVER_STATE_SELECT_SLAVE -> failover_state m = SENTINEL_FAILOVER_STATE_SELECT_SLAVE) /\
  failover_epoch m' = failover_epoch m /\ Forall (fun c => exists to t, c = SlaveOf to t) out.
Proof.
  unfold sentinelFailoverReconfNextSlave. intros ([l o] & Hl & ([m1 o'] & Hd & [= <- <-])%bind_Some)%bind_Some. apply detect_end_fades in Hd as (Hf & Hs & He & Ho).
  split; [etrans; [|exact Hf]; fade_solve|]. split; [exact Hs|]. split; [exact He|]. apply Forall_app_2; [|done]. clear - Hl.
  revert Hl. generalize (zlen (List.filter (fun p => has p.2 (Z.lor SRI_RECONF_SENT SRI_RECONF_INPROG)) (slaves m))) as k.
  revert l o. induction (slaves m) as [|[n s] sl IH]; intros l o k; cbn [reconf_loop]; [by intros [= _ <-]|].
  destruct (negb _); [by intros [= _ <-]|]. destruct (has s _); [intros ([? ?] & Hr & [= _ <-])%bind_Some; by eapply IH|].
  destruct (has _ _); [intros ([? ?] & Hr & [= _ <-])%bind_Some; by eapply IH|].
  intros (t & _ & H)%bind_Some. unfold sentinelSendSlaveOf in H. destruct (accepts env n); apply bind_Some in H as ([? ?] & Hr & [= _ <-]).
  - constructor; [by eexists _, _|by eapply IH].
  - by eapply IH.
Qed.

Lemma add_slaves_fades l : forall m, fades m (add_slaves env l m) /\ failover_state (add_slaves env l m) = failover_state m /\
  failover_epoch (add_slaves env l m) = failover_epoch m.
Proof.
  induction l as [|a l IH]; intros m; cbn [add_slaves]; [done|]. destruct (createSentinelRedisInstance env _ _ _ _ _) as [t|]; [|apply IH].
  destruct (IH (set_slaves t m)) as (Hf & Hs & He). split; [etrans; [|exact Hf]; fade_solve|done].
Qed.

(** A change of the address of the master. *)
Lemma change_address_fades m a m' b : sentinelResetMasterAndChangeAddress env m a = Some (m', b) ->
  fades m m' /\ failover_epoch m' = failover_epoch m /\ (failover_state m' = failover_state m \/ failover_state m' = SENTINEL_FAILOVER_STATE_NONE).
Proof.
  unfold sentinelResetMasterAndChangeAddress. destruct (createSentinelAddr env (ip a) (port a)) as [na|]; [|intros [= <- _]; (split; [done|split; [done|by left]])].
  intros (kept & _ & (kept' & _ & (m1 & Hr & [= <- _])%bind_Some)%bind_Some)%bind_Some. unfold sentinelResetMaster in Hr.
  destruct (negb _); [done|]. injection Hr as <-. set (m2 := set_m_inst _ _). destruct (add_slaves_fades kept' m2) as (Hf & Hs & He).
  assert (fades m m2) as Hm2 by fade_solve. split; [by etrans|]. rewrite Hs, He. split; [done|by right].
Qed.
End handlers.

(** ** Votes *)

(** Who voted for whom in which epoch. *)
Abbreviation votes_t := (gmap (bytes * Z) bytes).

Definition epoch_ok (e : Z) : Prop := 0 <= e < 2 ^ 64.

Section votes.
Context (members : list (bytes * sentinelAddr)).

Definition ids : list bytes := members.*1.

(** The sentinels have names and run ids of their own, none of which is "*". *)
Record members_ok : Prop := {
  mo_names : NoDup (map (fun q => instance_name q.2) members);
  mo_ids : NoDup (map (map to_lower) ids);
  mo_star : Forall (fun r => strcase_eq r (zs "*") = false) ids;
  mo_size : zlen members < 2 ^ 28
}.

Definition others (a : bytes) : list (bytes * option bytes * sentinelAddr) :=
  (fun q => (instance_name q.2, Some q.1, q.2)) <$> filter (fun q => q.1 <> a) members.

(** A vote that is known was cast. *)
Definition heard (votes : votes_t) (ri : instance) : Prop :=
  forall r, leader ri = Some r -> exists b, runid ri = Some b /\ votes !! (b, leader_epoch ri) = Some r.

Definition cands (votes : votes_t) : Prop := forall k r, votes !! k = Some r -> r ∈ ids.

(** What the sentinel [a] knows: its own vote, no vote of its own that is later, the
    other sentinels and what they voted. *)
Record local (votes : votes_t) (a : bytes) (epoch : Z) (m : master) : Prop := {
  lo_own : forall r, m_leader m = Some r -> votes !! (a, m_leader_epoch m) = Some r;
  lo_late : forall e r, votes !! (a, e) = Some r -> e <= m_leader_epoch m;
  lo_heard : Forall (fun p => heard votes p.2) (sentinels m);
  lo_peers : map face (sentinels m) ≡ₚ others a;
  lo_epoch : epoch_ok epoch;
  lo_vote_epoch : epoch_ok (m_leader_epoch m)
}.

(** More votes, all of them cast by [a]. *)
Definition ext (a : bytes) (votes votes' : votes_t) : Prop :=
  votes ⊆ votes' /\ forall b e, b <> a -> votes' !! (b, e) = votes !! (b, e).

#[global] Instance ext_refl a : Reflexive (ext a).
Proof. by split. Qed.

#[global] Instance ext_trans a : Transitive (ext a).
Proof. intros v1 v2 v3 [H1 E1] [H2 E2]. split; [by etrans|]. intros b e Hb. by rewrite E2, E1. Qed.

Lemma heard_mono votes votes' ri : votes ⊆ votes' -> heard votes ri -> heard votes' ri.
Proof. intros Hsub Hh r Hr. destruct (Hh r Hr) as (b & Hb & Hv). exists b. split; [done|]. by eapply lookup_weaken. Qed.

Lemma local_fades votes a epoch m m' : fades m m' -> local votes a epoch m -> local votes a epoch m'.
Proof.
  intros [[Hl He] Hp _] [H1 H2 H3 H4 H5 H6]. unfold m_leader, m_leader_epoch in *. split; unfold m_leader, m_leader_epoch; rewrite ?He; try done.
  - intros r Hr. apply H1. destruct Hl as [Hl|Hl]; congruence.
  - clear - Hp H3. induction Hp as [|p p' l l' [Hf [Hv Hev]] _ IH]; [constructor|]. apply Forall_cons in H3 as [Hh H3]. constructor; [|by apply IH].
    intros r Hr. destruct Hv as [Hv|Hv]; [|congruence]. rewrite Hv in Hr. unfold face in Hf. injection Hf as _ Hid _. rewrite Hid, Hev. by apply Hh.
  - rewrite <- H4. clear - Hp. induction Hp as [|p p' l l' [Hf _] _ IH]; [done|]. cbn [map]. by rewrite Hf, IH.
Qed.

Lemma local_mono a b votes votes' epoch m : ext a votes votes' -> b <> a -> local votes b epoch m -> local votes' b epoch m.
Proof.
  intros [Hsub Hext] Hb [H1 H2 H3 H4 H5 H6]. split; try done.
  - intros r Hr. eapply lookup_weaken; [by apply H1|done].
  - intros e r Hr. rewrite Hext in Hr by done. by eapply H2.
  - eapply Forall_impl; [exact H3|]. intros p. by apply heard_mono.
Qed.

Lemma local_epoch votes a epoch epoch' m : epoch_ok epoch' -> local votes a epoch m -> local votes a epoch' m.
Proof. intros He [H1 H2 H3 H4 H5 H6]. by split. Qed.

Section voting.
Context (env : senv).

Lemma vote_ok votes a epoch m req r epoch' m' v ve : local votes a epoch m -> cands votes -> r ∈ ids -> epoch_ok req ->
  sentinelVoteLeader env a epoch m req r = (epoch', m', v, ve) ->
  exists votes', ext a votes votes' /\ cands votes' /\ local votes' a epoch' m' /\ v = m_leader m' /\ ve = m_leader_epoch m' /\
    epoch' = Z.max epoch req /\ sentinels m' = sentinels m /\ failover_state m' = failover_state m /\ failover_epoch m' = failover_epoch m /\
    flags (m_inst m') = flags (m_inst m) /\ quorum m' = quorum m /\ m_name m' = m_name m.
Proof.
  intros Hl Hc Hr Hreq. pose proof (lo_epoch _ _ _ _ Hl) as Hep. unfold sentinelVoteLeader.
  set (e := if req >? epoch then req else epoch). assert (e = Z.max epoch req) as He by (unfold e; rewrite Z.gtb_ltb; destruct (Z.ltb_spec epoch req); lia).
  clearbody e. assert (epoch_ok e) as Heok by (subst e; unfold epoch_ok in *; lia).
  destruct ((m_leader_epoch m <? req) && (e <=? req)) eqn:Hvote.
  2: { intros [= <- <- <- <-]. exists votes. split; [done|]. split; [done|]. split; [by eapply local_epoch|done]. }
  apply andb_true_iff in Hvote as [Hlt%Z.ltb_lt Hle%Z.leb_le]. assert (e = req) as -> by lia.
  set (m1 := set_m_inst _ m). set (m2 := if negb _ then _ else _). intros [= <- <- <- <-].
  assert (m_inst m2 = m_inst m1 /\ sentinels m2 = sentinels m /\ failover_state m2 = failover_state m /\ failover_epoch m2 = failover_epoch m /\
    quorum m2 = quorum m /\ m_name m2 = m_name m) as (E1 & E2 & E3 & E4 & E5 & E6) by (unfold m2; by destruct (negb _)).
  clearbody m2. destruct Hl as [H1 H2 H3 H4 H5 H6].
  assert (votes !! (a, req) = None) as Hnew by (apply eq_None_not_Some; intros [x Hx]; specialize (H2 _ _ Hx); lia).
  assert (votes ⊆ <[(a, req) := r]> votes) as Hsub by by apply insert_subseteq.
  exists (<[(a, req) := r]> votes). split; [split; [exact Hsub|intros b e' Hb; by rewrite lookup_insert_ne by congruence]|].
  split; [intros k x; rewrite lookup_insert_Some; intros [[_ <-]|[_ Hx]]; [done|by eapply Hc]|].
  split; [|unfold m_leader, m_leader_epoch; rewrite E1; done]. split; unfold m_leader, m_leader_epoch; rewrite ?E1, ?E2.
  - intros x Hx. injection Hx as <-. by rewrite lookup_insert_eq.
  - intros e' x. rewrite lookup_insert_Some. cbn. intros [[[= <-] _]|[_ Hx]]; [lia|]. specialize (H2 _ _ Hx). lia.
  - eapply Forall_impl; [exact H3|]. intros p. by apply heard_mono.
  - done.
  - done.
  - done.
Qed.

(** ** Counting *)

Definition votes_for (epoch : Z) (r : bytes) (l : list (bytes * instance)) : Z :=
  zlen (filter (fun p => leader p.2 = Some r /\ leader_epoch p.2 = epoch) l).

Definition tally (d : dict bytes Z) (r : bytes) : Z := default 0 (to_map d !! r).

(** Numbers that fit, and that are positive where there are any. *)
Definition counts (d : dict bytes Z) : Prop :=
  dict_inv (votes_hash env) d /\ map_Forall (fun _ n => 0 < n) (to_map d).

Lemma incr_ok d r : counts d -> Z.of_nat (base.size (to_map d)) < 2 ^ 29 -> tally d r < 2 ^ 30 ->
  exists d', sentinelLeaderIncr env d r = Some (d', tally d r + 1) /\ counts d' /\ to_map d' = <[r := tally d r + 1]> (to_map d).
Proof.
  intros [Hd Hpos] Hsz Hb. assert (0 <= tally d r) as H0.
  { unfold tally. destruct (to_map d !! r) as [n|] eqn:Hn; cbn; [|done]. specialize (Hpos _ _ Hn). cbn in Hpos. lia. }
  unfold sentinelLeaderIncr. destruct Hd as [Hok Hcap]. destruct (dictFind_spec (votes_hash env) d r Hok) as (d1 & ref & Hf & Hok1 & Hm1 & Href).
  assert (map_Forall (fun _ n => 0 < n) (<[r := tally d r + 1]> (to_map d))) as Hpos' by (apply map_Forall_insert_2; [lia|done]).
  rewrite Hf. cbn [mbind option_bind]. destruct ref as [ref|].
  - destruct Href as (v & Hv & Hr). assert (tally d r = v) as Ht by (unfold tally; by rewrite Hv). rewrite Ht in *.
    rewrite (dictGetVal_ref _ _ _ _ _ Hr). cbn [mbind option_bind]. rewrite uwrap_small, swrap_small by (unfold sfits; lia).
    destruct (dictSetVal_spec (votes_hash env) d1 ref r v (v + 1) Hok1 Hr) as (d2 & Hset & Hok2 & Hm2). rewrite Hset. cbn [mbind option_bind].
    assert (to_map d2 = <[r := v + 1]> (to_map d)) as E by by rewrite Hm2, Hm1.
    exists d2. split; [done|]. split; [|exact E]. rewrite <- E in Hpos'. split; [|exact Hpos']. split; [done|].
    apply setval_cap in Hset. apply find_cap in Hf; [|done]. lia.
  - assert (tally d r = 0) as Ht by (unfold tally; by rewrite Href). rewrite Ht in *. change (0 + 1) with 1 in *.
    destruct (dictReplaceRaw_inv (votes_hash env) (votes_resize env) 0 d r 1) as (d2 & ref & d3 & Hraw & Hset & Hd3 & Hm3); [by split|unfold few; lia|].
    unfold dictReplaceRaw in Hraw. rewrite Hf in Hraw. cbn [mbind option_bind] in Hraw. rewrite Hraw. cbn [mbind option_bind]. rewrite Hset. cbn [mbind option_bind].
    exists d3. split; [done|]. rewrite <- Hm3 in Hpos'. by split.
Qed.

Lemma count_votes_ok epoch l : forall d, counts d -> Z.of_nat (base.size (to_map d)) + zlen l < 2 ^ 29 -> (forall r, tally d r + zlen l < 2 ^ 30) ->
  exists d', count_votes env epoch l d = Some d' /\ counts d' /\ Z.of_nat (base.size (to_map d')) <= Z.of_nat (base.size (to_map d)) + zlen l /\
    forall r, tally d' r = tally d r + votes_for epoch r l.
Proof.
  induction l as [|[n ri] l IH]; intros d Hd Hsz Hb; cbn [count_votes].
  { exists d. split; [done|]. split; [done|]. split; [unfold zlen; cbn; lia|]. intros r. change (votes_for epoch r []) with 0. lia. }
  rewrite zlen_cons in *. pose proof (zlen_nonneg l).
  assert (forall r, votes_for epoch r ((n, ri) :: l) = (if decide (leader ri = Some r /\ leader_epoch ri = epoch) then 1 else 0) + votes_for epoch r l) as Hcons.
  { intros r. unfold votes_for. destruct (decide _) as [Hd1|Hd1]; [rewrite filter_cons_True by done; rewrite zlen_cons; lia|by rewrite filter_cons_False]. }
  assert (leader ri = None \/ leader_epoch ri <> epoch \/ exists r, leader ri = Some r /\ leader_epoch ri = epoch) as Hcase.
  { destruct (leader ri) as [r|]; [|by left]. destruct (decide (leader_epoch ri = epoch)); [right; right; by exists r|by right; left]. }
  destruct Hcase as [Hn|[Hn|(r & Hr & He)]].
  - rewrite Hn. cbn [mbind option_bind]. destruct (IH d Hd) as (d' & -> & Hd' & Hs & Ht); [lia|intros x; specialize (Hb x); lia|].
    exists d'. split; [done|]. split; [done|]. split; [lia|]. intros x. rewrite Ht, Hcons, decide_False by (intros [? _]; congruence). lia.
  - assert ((match leader ri with Some r => if leader_epoch ri =? epoch then fst <$> sentinelLeaderIncr env d r else Some d | None => Some d end) = Some d) as ->.
    { destruct (leader ri); [|done]. by destruct (Z.eqb_spec (leader_epoch ri) epoch). }
    cbn [mbind option_bind]. destruct (IH d Hd) as (d' & -> & Hd' & Hs & Ht); [lia|intros x; specialize (Hb x); lia|].
    exists d'. split; [done|]. split; [done|]. split; [lia|]. intros x. rewrite Ht, Hcons, decide_False by (by intros [_ ?]). lia.
  - rewrite Hr, He, Z.eqb_refl. destruct (incr_ok d r Hd) as (d1 & -> & Hd1 & Hm1); [lia|specialize (Hb r); lia|]. cbn [fmap option_fmap option_map fst mbind option_bind].
    assert (forall x, tally d1 x = tally d x + if decide (r = x) then 1 else 0) as Ht1.
    { intros x. unfold tally at 1. rewrite Hm1. destruct (decide (r = x)) as [->|]; [by rewrite lookup_insert_eq|]. rewrite lookup_insert_ne by done. unfold tally. lia. }
    assert (Z.of_nat (base.size (to_map d1)) <= Z.of_nat (base.size (to_map d)) + 1) as Hs1.
    { rewrite Hm1, map_size_insert. destruct (to_map d !! r); cbn; lia. }
    destruct (IH d1 Hd1) as (d' & -> & Hd' & Hs & Ht); [lia|intros x; rewrite Ht1; specialize (Hb x); destruct (decide (r = x)); lia|].
    exists d'. split; [done|]. split; [done|]. split; [lia|]. intros x. rewrite Ht, Ht1, Hcons, Hr. destruct (decide (r = x)) as [->|Hx].
    + rewrite decide_True by done. lia.
    + rewrite decide_False by (intros [? _]; congruence). lia.
Qed.

Lemma find_winner_ok fuel : forall d di es winner mx, visiting d di es -> (length es < fuel)%nat ->
  exists w k, find_winner fuel d di winner mx = Some (w, k) /\ ((w, k) = (winner, mx) \/ exists r, w = Some r /\ (r, k) ∈ es).
Proof.
  induction fuel as [|fuel IH]; intros d di es winner mx Hv Hf; [lia|]. cbn [find_winner].
  destruct (dictNext_ok d di es Hv) as (di' & -> & _ & _ & Hr). cbn [mbind option_bind]. destruct es as [|[r k] es]; cbn [head]; [by exists winner, mx; auto|].
  destruct Hr as [?|Hr]; [done|]. cbn [tail length] in *. destruct (k >? mx).
  - destruct (IH _ di' es (Some r) k Hr ltac:(lia)) as (w & k' & -> & Hc). exists w, k'. split; [done|]. right. destruct Hc as [[= -> ->]|(x & -> & Hx)].
    + exists r. split; [done|by left].
    + exists x. split; [done|by right].
  - destruct (IH _ di' es winner mx Hr ltac:(lia)) as (w & k' & -> & Hc). exists w, k'. split; [done|]. destruct Hc as [->|(x & -> & Hx)]; [by left|].
    right. exists x. split; [done|by right].
Qed.

(** ** A majority *)

Definition elected (votes : votes_t) (r : bytes) (e : Z) : Prop :=
  exists Q : gset bytes, Q ⊆ list_to_set ids /\ zlen members / 2 + 1 <= Z.of_nat (base.size Q) /\ forall b, b ∈ Q -> votes !! (b, e) = Some r.

Lemma elected_mono votes votes' r e : votes ⊆ votes' -> elected votes r e -> elected votes' r e.
Proof. intros Hsub (Q & H1 & H2 & H3). exists Q. split; [done|]. split; [done|]. intros b Hb. eapply lookup_weaken; [by apply H3|done]. Qed.

Lemma ids_nodup : members_ok -> NoDup ids.
Proof. intros Hok. by apply (NoDup_fmap_1 (map to_lower)), Hok. Qed.

(** Two majorities have a voter in common. *)
Lemma elected_unique votes r1 r2 e : members_ok -> elected votes r1 e -> elected votes r2 e -> r1 = r2.
Proof.
  intros Hok (Q1 & S1 & N1 & V1) (Q2 & S2 & N2 & V2). destruct (decide (Q1 ∩ Q2 = ∅)) as [Hd|Hd].
  - exfalso. assert (Q1 ∪ Q2 ⊆ list_to_set ids) as Hsub by set_solver. apply subseteq_size in Hsub.
    rewrite size_union, size_list_to_set in Hsub by (apply ids_nodup, Hok || set_solver). unfold ids in Hsub. rewrite length_fmap in Hsub. unfold zlen in *.
    pose proof (Z.div_mod (Z.of_nat (length members)) 2 ltac:(lia)). pose proof (Z.mod_pos_bound (Z.of_nat (length members)) 2 ltac:(lia)). lia.
  - apply set_choose_L in Hd as [b Hb]. apply elem_of_intersection in Hb as [B1 B2]. specialize (V1 b B1). specialize (V2 b B2). congruence.
Qed.

Lemma elected_id votes r e : cands votes -> elected votes r e -> r ∈ ids.
Proof.
  intros Hc (Q & _ & HN & HV). destruct (decide (Q = ∅)) as [->|Hne].
  - rewrite size_empty in HN. pose proof (Z.div_pos (zlen members) 2 (zlen_nonneg _)). lia.
  - apply set_choose_L in Hne as [b Hb]. by eapply Hc, HV.
Qed.

Lemma peers_ids a l : map face l ≡ₚ others a -> map (fun p => runid p.2) l ≡ₚ Some <$> (filter (fun q => q.1 <> a) members).*1.
Proof.
  intros Hp. apply (Permutation_map (fun x => x.1.2)) in Hp. rewrite map_map in Hp. etrans; [exact Hp|]. unfold others.
  change (map (fun x : bytes * option bytes * sentinelAddr => x.1.2)) with (fmap (M := list) (fun x : bytes * option bytes * sentinelAddr => x.1.2)).
  rewrite <- !list_fmap_compose. done.
Qed.

Lemma peer_id a l p : map face l ≡ₚ others a -> p ∈ l -> exists b, runid p.2 = Some b /\ b ∈ ids /\ b <> a.
Proof.
  intros Hp%peers_ids Hin. assert (runid p.2 ∈ map (fun p => runid p.2) l) as Hr by by apply (list_elem_of_fmap_2 (fun p : bytes * instance => runid p.2)).
  rewrite Hp in Hr. apply list_elem_of_fmap in Hr as (b & -> & Hb). exists b. split; [done|]. apply list_elem_of_fmap in Hb as (q & -> & Hq).
  apply list_elem_of_filter in Hq as [Hne Hq]. split; [by apply list_elem_of_fmap_2|done].
Qed.

Lemma peers_nodup a l : members_ok -> map face l ≡ₚ others a -> NoDup (map (fun p => runid p.2) l).
Proof.
  intros Hok Hp%peers_ids. rewrite Hp. apply (NoDup_fmap_2 _). pose proof (ids_nodup Hok) as Hn. unfold ids in Hn. clear - Hn.
  induction members as [|q l IH]; [constructor|]. cbn [fmap list_fmap] in Hn. apply NoDup_cons in Hn as [Hq Hn]. specialize (IH Hn).
  destruct (decide (q.1 <> a)); [rewrite filter_cons_True by done|by rewrite filter_cons_False]. cbn [fmap list_fmap]. constructor; [|done].
  intros Hin. apply Hq. apply list_elem_of_fmap in Hin as (x & -> & Hx). apply list_elem_of_filter in Hx as [_ Hx]. by apply list_elem_of_fmap_2.
Qed.

Lemma peers_count a l : members_ok -> a ∈ ids -> map face l ≡ₚ others a -> zlen l + 1 = zlen members.
Proof.
  intros Hok Ha Hp. apply Permutation_length in Hp. rewrite length_map in Hp. unfold others in Hp. rewrite length_fmap in Hp. unfold zlen. rewrite Hp.
  pose proof (ids_nodup Hok) as Hn. unfold ids in *. clear - Ha Hn. induction members as [|q l IH]; [by inversion Ha|].
  cbn [fmap list_fmap] in *. apply NoDup_cons in Hn as [Hq Hn]. destruct (decide (q.1 = a)) as [Heq|Heq].
  - rewrite filter_cons_False by (intros ?; done). cbn [length]. assert (filter (fun q => q.1 <> a) l = l) as ->; [|lia].
    clear IH Ha Hn. induction l as [|x l IH]; [done|]. cbn [fmap list_fmap] in Hq. apply not_elem_of_cons in Hq as [H1 H2].
    rewrite filter_cons_True by congruence. f_equal. by apply IH.
  - rewrite filter_cons_True by done. cbn [length]. apply elem_of_cons in Ha as [Ha|Ha]; [congruence|]. specialize (IH Ha Hn). lia.
Qed.

(** Those who voted for [r], as a set. *)
Definition voters (epoch : Z) (r : bytes) (l : list (bytes * instance)) : gset bytes :=
  list_to_set (omap (fun p => runid p.2) (filter (fun p => leader p.2 = Some r /\ leader_epoch p.2 = epoch) l)).

Lemma elem_of_voters epoch r l b : b ∈ voters epoch r l <-> exists p, p ∈ l /\ runid p.2 = Some b /\ leader p.2 = Some r /\ leader_epoch p.2 = epoch.
Proof.
  unfold voters. rewrite elem_of_list_to_set, list_elem_of_omap. split.
  - intros (p & [[Hl He] Hp]%list_elem_of_filter & Hb). by exists p.
  - intros (p & Hp & Hb & Hl & He). exists p. split; [|done]. by apply list_elem_of_filter.
Qed.

Lemma voters_size a epoch r l : members_ok -> map face l ≡ₚ others a -> Z.of_nat (base.size (voters epoch r l)) = votes_for epoch r l.
Proof.
  intros Hok Hp. pose proof (peers_nodup a l Hok Hp) as Hn. assert (Forall (fun p => is_Some (runid p.2)) l) as Hid.
  { apply Forall_forall. intros p Hin. destruct (peer_id a l p Hp Hin) as (b & Hb & _). by exists b. }
  unfold voters, votes_for. clear Hp. assert (forall k, k = filter (fun p => leader p.2 = Some r /\ leader_epoch p.2 = epoch) l ->
    NoDup (map (fun p => runid p.2) k) /\ Forall (fun p => is_Some (runid p.2)) k) as Hk.
  { intros k ->. split; [|apply Forall_forall; intros p [_ Hin]%list_elem_of_filter; rewrite Forall_forall in Hid; by apply Hid].
    eapply sublist_NoDup; [exact Hn|]. apply (fmap_sublist (fun p : bytes * instance => runid p.2)), sublist_filter. }
  destruct (Hk _ eq_refl) as [Hn2 Hs2]. generalize dependent (filter (fun p => leader p.2 = Some r /\ leader_epoch p.2 = epoch) l). intros k _ Hn2 Hs2.
  rewrite size_list_to_set.
  - unfold zlen. f_equal. clear Hn2. induction Hs2 as [|p k [b Hb] _ IH]; [done|]. cbn [omap list_omap]. rewrite Hb. cbn [length]. by rewrite IH.
  - induction Hs2 as [|p k [b Hb] _ IH]; [constructor|]. cbn [omap list_omap map] in *. rewrite Hb in *. apply NoDup_cons in Hn2 as [Hp Hn2].
    constructor; [|by apply IH]. intros Hin. apply Hp. apply list_elem_of_omap in Hin as (q & Hq & Hqb). rewrite <- Hqb. by apply (list_elem_of_fmap_2 (fun p : bytes * instance => runid p.2)).
Qed.

(** *** The count of the votes *)

Lemma tally_new r : tally dictCreate r = 0.
Proof. done. Qed.

Lemma votes_for_bounds epoch r l : 0 <= votes_for epoch r l <= zlen l.
Proof. unfold votes_for, zlen. pose proof (length_filter (fun p => leader p.2 = Some r /\ leader_epoch p.2 = epoch) l). lia. Qed.

Lemma heard_voter votes epoch r l : Forall (fun p => heard votes p.2) l -> 0 < votes_for epoch r l -> exists b, votes !! (b, epoch) = Some r.
Proof.
  intros Hh Hpos. unfold votes_for in Hpos. destruct (filter _ l) as [|p k] eqn:Hf; [change (zlen (@nil (bytes * instance))) with 0 in Hpos; lia|].
  assert (p ∈ filter (fun p => leader p.2 = Some r /\ leader_epoch p.2 = epoch) l) as Hin by (rewrite Hf; by left).
  apply list_elem_of_filter in Hin as [[Hl He] Hin]. rewrite Forall_forall in Hh. destruct (Hh p Hin r Hl) as (b & _ & Hv). exists b. by rewrite <- He.
Qed.

Lemma leader_ok votes a epoch m req epoch' m' w : members_ok -> local votes a epoch m -> cands votes -> a ∈ ids -> epoch_ok req ->
  sentinelGetLeader env a epoch m req = Some (epoch', m', w) ->
  exists votes', ext a votes votes' /\ cands votes' /\ local votes' a epoch' m' /\ epoch' = Z.max epoch req /\ sentinels m' = sentinels m /\
    failover_state m' = failover_state m /\ failover_epoch m' = failover_epoch m /\ flags (m_inst m') = flags (m_inst m) /\ m_name m' = m_name m /\
    (req = epoch -> forall r, w = Some r -> elected votes' r epoch).
Proof.
  intros Hok Hl Hc Ha Hreq. unfold sentinelGetLeader. destruct (negb _); [done|]. pose proof (lo_peers _ _ _ _ Hl) as Hp. pose proof (lo_heard _ _ _ _ Hl) as Hh.
  pose proof (peers_count a _ Hok Ha Hp) as Hn. pose proof (mo_size Hok) as Hsz. pose proof (zlen_nonneg (sentinels m)) as Hz.
  assert (Z.of_nat (base.size (to_map (dictCreate : dict bytes Z))) = 0) as Hzero by done.
  assert (counts dictCreate) as Hnew by (split; [apply create_inv|apply map_Forall_empty]).
  destruct (count_votes_ok epoch (sentinels m) dictCreate Hnew) as (d & -> & Hd & Hds & Ht0); [lia|intros r; rewrite tally_new; lia|].
  assert (forall r, tally d r = votes_for epoch r (sentinels m)) as Ht by (intros r; by rewrite Ht0, tally_new). clear Ht0. cbn [mbind option_bind]. pose proof (proj1 (proj1 Hd)) as Hdok. pose proof (entries_size (votes_hash env) d Hdok) as Hes.
  destruct (find_winner_ok (S (Z.to_nat (dictSize d))) d dictGetIterator (entries d) None 0) as (w0 & k & -> & Hw0); [apply (visiting_start (votes_hash env) false d Hdok)|rewrite Hes; unfold zlen; lia|].
  cbn [mbind option_bind]. assert (forall r, w0 = Some r -> k = votes_for epoch r (sentinels m) /\ 0 < k) as Hwin.
  { intros r ->. destruct Hw0 as [?|(x & [= <-] & Hx)]; [done|]. apply (to_map_lookup (votes_hash env) _ _ _ Hdok) in Hx.
    specialize (Ht r). unfold tally in Ht. rewrite Hx in Ht. cbn [default from_option id] in Ht. pose proof (proj2 Hd _ _ Hx) as Hpos. cbv beta in Hpos. lia. }
  assert (match w0 with Some r => r | None => a end ∈ ids) as Hcand.
  { destruct w0 as [r|]; [|done]. destruct (Hwin r eq_refl) as [-> Hpos]. destruct (heard_voter _ _ _ _ Hh Hpos) as [b Hb]. by eapply Hc. }
  destruct (sentinelVoteLeader _ _ _ _ _ _) as [[[e1 m1] v] ve] eqn:Hvote.
  destruct (vote_ok votes a epoch m req _ e1 m1 v ve Hl Hc Hcand Hreq Hvote) as (votes' & Hext & Hc' & Hl' & -> & -> & -> & Es & Efs & Efe & Efl & Eq & En).
  intros Hrun. exists votes'. split; [done|]. split; [done|]. pose proof (proj1 Hext) as Hsub.
  apply bind_Some in Hrun as ([w1 k1] & Hown & [= <- <- Hw]).
  split; [done|]. split; [done|]. split; [done|]. split; [done|]. split; [done|]. split; [done|]. split; [done|]. intros Hre r ->. subst req.
  rewrite uwrap_small in Hw by lia.
  destruct ((k1 <? (zlen (sentinels m) + 1) / 2 + 1) || (k1 <? quorum m1)) eqn:Hq; [done|]. subst w1. apply orb_false_iff in Hq as [Hq%Z.ltb_ge _]. rewrite Hn in Hq.
  assert (forall x, votes_for epoch x (sentinels m) < 2 ^ 28) as Hvb by (intros x; pose proof (votes_for_bounds epoch x (sentinels m)); lia).
  (* either the winner among the others, or with the vote of this sentinel *)
  assert (w0 = Some r /\ k1 = k \/ m_leader m1 = Some r /\ m_leader_epoch m1 = epoch /\ k1 = votes_for epoch r (sentinels m) + 1) as Hcases.
  { destruct (m_leader m1) as [v|] eqn:Hv; [|injection Hown as <- <-; by left]. destruct (Z.eqb_spec (m_leader_epoch m1) epoch) as [He|]; [|injection Hown as <- <-; by left].
    pose proof (Hvb v). pose proof (votes_for_bounds epoch v (sentinels m)). specialize (Ht v).
    destruct (incr_ok d v Hd) as (d' & Hi & _ & _); [lia|lia|]. rewrite Hi in Hown. cbn [mbind option_bind] in Hown.
    rewrite uwrap_small in Hown by lia. rewrite Z.gtb_ltb in Hown. destruct (Z.ltb_spec k (tally d v + 1)); [|injection Hown as -> ->; by left].
    injection Hown as <- <-. right. split; [done|]. split; [done|]. lia. }
  destruct Hcases as [[-> ->]|(Hv & He & ->)].
  - destruct (Hwin r eq_refl) as [-> _]. exists (voters epoch r (sentinels m)). split; [|split].
    + intros b (p & Hin & Hb & _)%elem_of_voters. destruct (peer_id a _ p Hp Hin) as (b' & Hb' & Hid & _). rewrite elem_of_list_to_set. congruence.
    + rewrite (voters_size a) by done. lia.
    + intros b (p & Hin & Hb & Hpl & Hpe)%elem_of_voters. rewrite Forall_forall in Hh. destruct (Hh p Hin r Hpl) as (b' & Hb' & Hvt).
      eapply lookup_weaken; [|exact Hsub]. rewrite Hpe in Hvt. congruence.
  - exists ({[a]} ∪ voters epoch r (sentinels m)). split; [|split].
    + intros b [->%elem_of_singleton|(p & Hin & Hb & _)%elem_of_voters]%elem_of_union; [by rewrite elem_of_list_to_set|].
      destruct (peer_id a _ p Hp Hin) as (b' & Hb' & Hid & _). rewrite elem_of_list_to_set. congruence.
    + rewrite size_union; [rewrite size_singleton; pose proof (voters_size a epoch r (sentinels m) Hok Hp); lia|].
      intros b ->%elem_of_singleton (p & Hin & Hb & _)%elem_of_voters. destruct (peer_id a _ p Hp Hin) as (b' & Hb' & _ & Hne). congruence.
    + intros b [->%elem_of_singleton|(p & Hin & Hb & Hpl & Hpe)%elem_of_voters]%elem_of_union.
      * rewrite <- He. by apply (lo_own _ _ _ _ Hl').
      * rewrite Forall_forall in Hh. destruct (Hh p Hin r Hpl) as (b' & Hb' & Hvt). eapply lookup_weaken; [|exact Hsub]. rewrite Hpe in Hvt. congruence.
Qed.
End voting.
End votes.
