(* ===== verification/SentinelSafety.v ===== *)
(** * Sentinel: elections in a network (src/redis-2.8.19/src/sentinel.c)

    The invariant of a network of sentinels that know each other, and what it gives:
    two failovers that are decided in the epoch they belong to are led by the same
    sentinel. Without that restriction they need not be: a run is given. *)
From S2P Require Import Prelude Util Object Dict DictIter DictBound Sentinel SentinelNet SentinelSpec SentinelElection.
Open Scope Z_scope.

(** A sentinel that has just been started: it knows the master [name] and the others,
    and has neither voted nor heard of a vote. *)
Record started (members : list (bytes * sentinelAddr)) (name a : bytes) (st : sentinelState) (m : master) : Prop := {
  st_id : a ∈ ids members;
  st_runid : server_runid st = a;
  st_masters : masters st = [(name, m)];
  st_name : m_name m = name;
  st_leader : m_leader m = None;
  st_votes : Forall (fun p => leader p.2 = None) (sentinels m);
  st_peers : map face (sentinels m) ≡ₚ others members a;
  st_epoch : epoch_ok (current_epoch st);
  st_leader_epoch : m_leader_epoch m = 0;
  st_failover_epoch : 0 <= failover_epoch m <= current_epoch st
}.

Definition fresh (members : list (bytes * sentinelAddr)) (name : bytes) (w : world) : Prop :=
  map_Forall (fun a st => exists m, started members name a st m) (procs w) /\ soup w = [] /\ led w = [].

Section network.
Context (members : list (bytes * sentinelAddr)) (Hok : members_ok members) (name : bytes).
Abbreviation ids := (ids members).
Abbreviation cands := (cands members).
Abbreviation elected := (elected members).
Abbreviation ready := (ready members).

Definition node_ok (votes : votes_t) (a : bytes) (st : sentinelState) : Prop :=
  a ∈ ids /\ server_runid st = a /\ exists m, masters st = [(name, m)] /\ m_name m = name /\ ready votes a (current_epoch st) m.

Definition packet_ok (votes : votes_t) (pk : packet) : Prop :=
  match pk with
  | Request _ _ _ _ id => id ∈ ids \/ id = zs "*"
  | Reply from _ r => re_leader r <> zs "*" -> votes !! (from, u64 (re_epoch r)) = Some (re_leader r)
  | Hello h => epoch_ok (h_current_epoch h) /\ (h_runid h, h_addr h) ∈ members
  end.

Record inv (votes : votes_t) (w : world) : Prop := {
  in_procs : map_Forall (node_ok votes) (procs w);
  in_cands : cands votes;
  in_soup : Forall (packet_ok votes) (soup w);
  in_led : forall a e, (a, e, e) ∈ led w -> elected votes a e
}.

Lemma packet_mono votes votes' pk : votes ⊆ votes' -> packet_ok votes pk -> packet_ok votes' pk.
Proof. intros Hsub. destruct pk; cbn; try done. intros H Hr. eapply lookup_weaken; [by apply H|done]. Qed.

(** A step of one sentinel, which may vote, send and win. *)
Lemma inv_step votes votes' a st' m' out won w : inv votes w -> ext a votes votes' -> cands votes' -> a ∈ ids ->
  server_runid st' = a -> masters st' = [(name, m')] -> m_name m' = name -> ready votes' a (current_epoch st') m' ->
  Forall (packet_ok votes') out -> (forall b e, (b, e, e) ∈ won -> elected votes' b e) ->
  inv votes' (mkWorld (<[a := st']> (procs w)) (soup w ++ out) (led w ++ won)).
Proof.
  intros [Hp Hc Hs Hl] Hext Hc' Ha Hid Hm Hn Hr Ho Hw. pose proof (proj1 Hext) as Hsub. split; cbn [procs soup led]; [|done| |].
  - intros b st. destruct (decide (b = a)) as [->|Hb].
    + rewrite lookup_insert_eq. intros [= <-]. split; [done|]. split; [done|]. by exists m'.
    + rewrite lookup_insert_ne by done. intros H. destruct (Hp _ _ H) as (Hi & Hsr & m & E1 & E2 & E3). split; [done|]. split; [done|].
      exists m. split; [done|]. split; [done|]. by eapply ready_mono.
  - apply Forall_app_2; [|done]. eapply Forall_impl; [exact Hs|]. intros pk. by apply packet_mono.
  - intros b e [H|H]%elem_of_app; [eapply elected_mono; [done|by apply Hl]|by apply Hw].
Qed.

(** The same when it neither sends nor wins. *)
Lemma inv_quiet votes a st st' m m' w : inv votes w -> procs w !! a = Some st -> masters st = [(name, m)] ->
  server_runid st' = a -> masters st' = [(name, m')] -> m_name m' = name -> ready votes a (current_epoch st') m' ->
  inv votes (put a st' w).
Proof.
  intros Hi Hst Hm Hid Hm' Hn Hr. destruct (in_procs _ _ Hi _ _ Hst) as (Ha & _).
  unfold put. rewrite <- (app_nil_r (soup w)), <- (app_nil_r (led w)).
  apply (inv_step votes votes a st' m'); try done; [apply Hi|]. by intros b e Hin%elem_of_nil.
Qed.

Lemma ready_epoch votes a epoch epoch' m : epoch <= epoch' -> epoch_ok epoch' -> ready votes a epoch m -> ready votes a epoch' m.
Proof. intros H1 H2 [Hl Hf]. split; [by eapply local_epoch|lia]. Qed.

Lemma u64_s64 e : epoch_ok e -> u64 (s64 e) = e.
Proof. unfold epoch_ok, uwrap, swrap. intros He. rewrite Zminus_mod_idemp_l. replace (e + 2 ^ (64 - 1) - 2 ^ (64 - 1)) with e by lia. by apply Z.mod_small. Qed.

(** *** The answer to a request *)

Lemma request_ok votes a env w st from to ad epoch id e l r : inv votes w -> procs w !! a = Some st -> packet_ok votes (Request from to ad epoch id) ->
  is_master_down_by_addr env a (tilt st) (current_epoch st) (masters st) ad epoch id = Some (e, l, r) ->
  exists votes', inv votes' (send [Reply a from r] (put a (set_current_epoch e (set_masters l st)) w)).
Proof using Hok.
  intros Hi Hst Hpk. destruct (in_procs _ _ Hi _ _ Hst) as (Ha & Hid & m & Hm & Hn & Hr).
  assert (forall r, re_leader r = zs "*" -> inv votes (send [Reply a from r] (put a (set_current_epoch (current_epoch st) (set_masters (masters st) st)) w))) as Hnone.
  { intros r' Hstar. unfold send, put. cbn [procs soup led]. rewrite <- (app_nil_r (led w)).
    apply (inv_step votes votes a _ m); try done; [apply Hi| |by intros b e' Hin%elem_of_nil]. constructor; [|constructor]. cbn. by rewrite Hstar. }
  unfold is_master_down_by_addr. destruct (negb _) eqn:Hrange; [done|]. rewrite Hm. unfold master_by_addr. cbn [find snd].
  destruct (strcmp_eq _ _ && _); [|intros Heq; injection Heq as <- <- <-; exists votes; rewrite <- Hm; by apply Hnone].
  destruct (m_has m SRI_MASTER && negb (strcase_eq id (zs "*"))) eqn:Hv; [|intros Heq; injection Heq as <- <- <-; exists votes; rewrite <- Hm; by apply Hnone].
  apply andb_true_iff in Hv as [_ Hstar%negb_true_iff]. destruct Hpk as [Hcand| ->]; [|by vm_compute in Hstar].
  destruct (sentinelVoteLeader _ _ _ _ _ _) as [[[e1 m1] v] ve] eqn:Hvote. intros [= <- <- <-]. destruct Hr as [Hl Hf].
  assert (epoch_ok (u64 epoch)) as He by (apply uwrap_range; lia).
  destruct (vote_ok members env votes a _ m _ id e1 m1 v ve Hl (in_cands _ _ Hi) Hcand He Hvote)
    as (votes' & Hext & Hc' & Hl' & -> & -> & -> & _ & _ & Efe & _ & _ & En).
  exists votes'. unfold send, put. cbn [procs soup led]. unfold strcmp_eq. rewrite <- (app_nil_r (led w)), bool_decide_eq_true_2 by done.
  apply (inv_step votes votes' a _ m1); try done; [by rewrite En| | |by intros b e' Hin%elem_of_nil].
  - split; [done|]. rewrite Efe. cbn. lia.
  - constructor; [|constructor]. cbn [packet_ok re_leader re_epoch]. rewrite u64_s64 by apply Hl'.
    destruct (m_leader m1) as [x|] eqn:Hx; [|done]. intros _. by apply (lo_own _ _ _ _ _ Hl').
Qed.

(** *** What is heard *)

Lemma heard_from_ok votes a env from to r epoch m : packet_ok votes (Reply from to r) -> ready votes a epoch m -> ready votes a epoch (heard_from env from r m).
Proof.
  intros Hpk [[H1 H2 H3 H4 H5 H6] Hf]. split; [|exact Hf]. split; try done; cbn [heard_from sentinels set_sentinels].
  - apply Forall_map. eapply Forall_impl; [exact H3|]. intros [n ri] Hh. cbn [snd] in *. destruct (runid ri) as [id|] eqn:Hid; [|done].
    unfold strcmp_eq. destruct (bool_decide_reflect (id = from)) as [->|]; [|done]. cbn [snd].
    intros x Hx. exists from. unfold sentinelReceiveIsMasterDownReply in *. cbn in Hpk.
    destruct (bool_decide_reflect (re_leader r = zs "*")) as [Hstar|Hstar].
    + rewrite Hstar in *. unfold strcmp_eq in *. rewrite bool_decide_eq_true_2 in * by done. cbn [negb] in *.
      destruct (re_down r =? 1); cbn in *; destruct (Hh x Hx) as (b & Hb & Hv); (split; [done|]); congruence.
    + unfold strcmp_eq in *. rewrite bool_decide_eq_false_2 in * by done. cbn [negb] in *.
      destruct (re_down r =? 1); cbn in *; injection Hx as <-; (split; [done|by apply Hpk]).
  - rewrite <- H4, map_map. apply reflexive_eq, map_ext. intros [n ri]. cbn [snd]. destruct (runid ri) as [id|] eqn:Hid; [|done].
    destruct (strcmp_eq id from); [|done]. unfold face, sentinelReceiveIsMasterDownReply. cbn [fst snd].
    destruct (re_down r =? 1), (negb _); done.
Qed.

Lemma known votes a epoch m id ad : ready votes a epoch m -> (id, ad) ∈ members -> id <> a ->
  exists p, getSentinelRedisInstanceByAddrAndRunID (sentinels m) ad id = Some p.
Proof.
  intros [Hl _] Hin Hne. pose proof (lo_peers _ _ _ _ _ Hl) as Hp.
  assert ((instance_name ad, Some id, ad) ∈ map face (sentinels m)) as Hface.
  { rewrite Hp. apply (list_elem_of_fmap_2 (fun q : bytes * sentinelAddr => (instance_name q.2, Some q.1, q.2)) _ (id, ad)).
    by apply list_elem_of_filter. }
  apply list_elem_of_fmap in Hface as (p & Hfp & Hpin). unfold face in Hfp. injection Hfp as _ Hid Had.
  destruct (getSentinelRedisInstanceByAddrAndRunID (sentinels m) ad id) as [q|] eqn:Hg; [by exists q|]. exfalso.
  apply (find_none _ _ Hg p) in Hpin || apply list_elem_of_In, (find_none _ _ Hg) in Hpin. cbv beta in Hpin. rewrite <- Hid, <- Had in Hpin.
  unfold strcmp_eq in Hpin. rewrite !bool_decide_eq_true_2, Z.eqb_refl in Hpin by done. done.
Qed.

Lemma hello_time_fades env key m : fades m (set_sentinels (map (fun p => if strcmp_eq p.1 key then (p.1, set_last_hello_time (mstime env) p.2) else p) (sentinels m)) m).
Proof.
  split; [done| |done]. cbn [sentinels set_sentinels]. induction (sentinels m) as [|p l IH]; cbn [map]; constructor; [|done].
  destruct (strcmp_eq _ _); [|done]. split; [done|]. split; [by left|done].
Qed.

Lemma hello_ok votes a env w st st' h : inv votes w -> procs w !! a = Some st -> packet_ok votes (Hello h) -> h_runid h <> a ->
  sentinelProcessHelloMessage env h st = Some st' -> inv votes (put a st' w).
Proof.
  intros Hi Hst [Hep Hmem] Hne. destruct (in_procs _ _ Hi _ _ Hst) as (Ha & Hid & m & Hm & Hn & Hr).
  unfold sentinelProcessHelloMessage. rewrite Hm. unfold fetch. cbn [find fst]. unfold strcmp_eq at 1.
  destruct (bool_decide_reflect (name = h_master_name h)) as [Hname|]; cbn [fmap option_fmap option_map snd]; [|intros [= <-]; by apply (inv_quiet votes a st st m m)].
  destruct (known votes a _ m _ _ Hr Hmem Hne) as [[key p] Hp]. rewrite Hp.
  set (st1 := if h_current_epoch h >? current_epoch st then _ else st).
  assert (server_runid st1 = a /\ masters st1 = [(name, m)] /\ ready votes a (current_epoch st1) m) as (Hid1 & Hm1 & Hr1).
  { unfold st1. rewrite Z.gtb_ltb. destruct (Z.ltb_spec (current_epoch st) (h_current_epoch h)); [|by split_and!]. split; [done|]. split; [done|].
    apply (ready_epoch votes a (current_epoch st)); [cbn; lia|done|done]. }
  clearbody st1. intros (m2 & Hm2 & [= <-])%bind_Some.
  assert (fades m m2 /\ failover_epoch m2 = failover_epoch m) as [Hf2 He2].
  { destruct (_ <? _); [|by injection Hm2 as <-]. destruct (_ || _); [|injection Hm2 as <-; split; [by fade_solve|done]].
    apply fmap_Some in Hm2 as ([m3 b] & (Hf & He & _)%change_address_fades & ->). split; [etrans; [|exact Hf]; fade_solve|exact He]. }
  rewrite <- Hname, Hm1, store_one. set (m3 := set_sentinels _ m2). assert (fades m2 m3) as Hf3 by apply hello_time_fades.
  apply (inv_quiet votes a st _ m m3); try done.
  - by rewrite (fa_name _ _ Hf3), (fa_name _ _ Hf2).
  - apply (ready_fades members votes a _ m); [by etrans|by rewrite <- He2|done].
Qed.

(** *** Every event *)

Lemma timer_inv votes a env st st' out w : inv votes w -> procs w !! a = Some st -> sentinelTimer env st = Some (st', out) ->
  exists votes', inv votes' (mkWorld (<[a := st']> (procs w)) (soup w ++ omap (packet_of members a) out) (led w ++ newly_led a st st')).
Proof using Hok.
  intros Hi Hst Ht. destruct (in_procs _ _ Hi _ _ Hst) as (Ha & Hid & m & Hm & Hn & Hr).
  destruct (timer_ok members Hok env votes a st st' out name m Hm Hid Hr (in_cands _ _ Hi) Ha Ht) as (m' & Hm' & Hid' & Hn' & Ho & votes' & Hext & Hc' & Hr' & Hel).
  exists votes'. apply (inv_step votes votes' a st' m'); try done; [congruence| |].
  - apply Forall_forall. intros pk (c & Hc & Hpk)%list_elem_of_omap. rewrite Forall_forall in Ho. specialize (Ho c Hc).
    destruct c as [to i p e id|to t]; [|done]. apply bind_Some in Hpk as (b & _ & [= <-]). cbn in Ho |- *. destruct Ho as [->| ->]; [by left|by right].
  - intros b e Hin. assert (b = a) as ->; [|by apply Hel]. unfold newly_led in Hin. repeat case_match; try by apply elem_of_nil in Hin.
    apply list_elem_of_singleton in Hin. congruence.
Qed.

Lemma observe_fades seen l m : fades m (observe seen l m).
Proof.
  split; [split; [by left|done]| |done]. cbn [observe sentinels set_sentinels set_m_inst]. induction (sentinels m) as [|p k IH]; cbn [map]; constructor; [|done].
  split; [done|]. split; [by left|done].
Qed.

Lemma exec_inv votes ev w w' : inv votes w -> exec members ev w = Some w' -> exists votes', inv votes' w'.
Proof using Hok.
  intros Hi. destruct ev as [a env|a i env|a|a env|a key env|a seen l]; cbn [exec].
  - intros (st & Hst & ([st' out] & Ht & [= <-])%bind_Some)%bind_Some. by eapply timer_inv.
  - intros (pk & Hpk & (st & Hst & H)%bind_Some)%bind_Some. pose proof (Forall_lookup_1 _ _ _ _ (in_soup _ _ Hi) Hpk) as Hp.
    destruct (in_procs _ _ Hi _ _ Hst) as (Ha & Hid & m & Hm & Hn & Hr). destruct pk as [from to ad epoch id|from to r|h].
    + destruct (negb _); [done|]. apply bind_Some in H as ([[e l] r] & Hd & [= <-]). by eapply request_ok.
    + destruct (negb _); [done|]. unfold monitored in H. rewrite Hm in H. injection H as <-. exists votes. fold (store (A := master)). rewrite Hn.
      apply (inv_quiet votes a st _ m (heard_from env from r m)); try done; [by rewrite <- (store_one name m)|]. by eapply heard_from_ok.
    + unfold strcmp_eq in H. destruct (bool_decide_reflect (h_runid h = a)); [done|]. apply bind_Some in H as (st' & Hh & [= <-]).
      exists votes. by eapply hello_ok.
  - intros (st & Hst & (m & _ & (ad & Had & (h & Hh & [= <-])%bind_Some)%bind_Some)%bind_Some)%bind_Some. exists votes.
    destruct (in_procs _ _ Hi _ _ Hst) as (Ha & Hid & m1 & Hm & Hn & Hr). destruct Hi as [H1 H2 H3 H4]. split; try done. cbn [soup send].
    apply Forall_app_2; [done|]. constructor; [|constructor]. apply bind_Some in Hh as (ma & _ & [= <-]). cbn. split; [apply Hr|]. rewrite Hid.
    apply fmap_Some in Had as ([b ad'] & [Hin Heq]%find_some & ->). cbn [fst snd] in *. apply bool_decide_eq_true in Heq as ->. by apply list_elem_of_In.
  - intros (st & Hst & (m & Hmon & (r & Hf & ([epoch m'] & -> & [= <-])%bind_Some)%bind_Some)%bind_Some)%bind_Some. exists votes.
    destruct (in_procs _ _ Hi _ _ Hst) as (Ha & Hid & m1 & Hm & Hn & Hr). unfold monitored in Hmon. rewrite Hm in Hmon. injection Hmon as ->.
    unfold sentinel_failover in Hf. destruct (m_has _ _); [done|]. destruct (sentinelSelectSlave _ _); [|done].
    apply bind_Some in Hf as ([e2 m2] & (Hfa & _ & He & ->)%start_fades & [= <- <-]). pose proof (uwrap_range 64 (current_epoch st + 1) ltac:(lia)).
    assert (m_name m2 = name) as Hn2 by by rewrite (fa_name _ _ Hfa). set (m3 := m_raise _ m2). assert (fades m2 m3) as Hfa3 by fade_solve.
    change (m_name m3) with (m_name m2). rewrite Hn2. apply (inv_quiet votes a st _ m m3); try done.
    { cbn [masters set_current_epoch set_masters]. rewrite Hm. apply store_one. }
    destruct Hr as [Hl _]. split; [apply (local_fades members votes a _ m); [by etrans|by eapply local_epoch]|]. change (failover_epoch m3) with (failover_epoch m2). rewrite He. cbn. lia.
  - intros (st & Hst & (m & Hmon & (slave & _ & [= <-])%bind_Some)%bind_Some)%bind_Some. exists votes.
    destruct (in_procs _ _ Hi _ _ Hst) as (Ha & Hid & m1 & Hm & Hn & Hr). unfold monitored in Hmon. rewrite Hm in Hmon. injection Hmon as ->. rewrite Hm, Hn, store_one.
    set (m2 := slave_promoted env m slave). assert (fades m m2 /\ failover_epoch m2 = failover_epoch m) as [Hf He].
    { unfold m2, slave_promoted. destruct (_ && _); [|done]. split; [by fade_solve|done]. }
    apply (inv_quiet votes a st _ m m2); try done; [by rewrite (fa_name _ _ Hf)|]. by apply (ready_fades members votes a _ m).
  - intros (st & Hst & (m & Hmon & [= <-])%bind_Some)%bind_Some. exists votes.
    destruct (in_procs _ _ Hi _ _ Hst) as (Ha & Hid & m1 & Hm & Hn & Hr). unfold monitored in Hmon. rewrite Hm in Hmon. injection Hmon as ->. rewrite Hm, Hn, store_one.
    apply (inv_quiet votes a st _ m (observe seen l m)); try done. apply (ready_fades members votes a _ m); [apply observe_fades|done|done].
Qed.

Lemma fresh_inv w : fresh members name w -> inv ∅ w.
Proof.
  intros (Hp & Hs & Hl). split.
  - intros a st Hst. destruct (Hp a st Hst) as (m & [H1 H2 H3 H4 H5 H6 H7 H8 H9 H10]). split; [done|]. split; [done|]. exists m. split; [done|]. split; [done|].
    split; [|done]. split; try done.
    + intros r. by rewrite H5.
    + eapply Forall_impl; [exact H6|]. intros p Hp' r Hr. congruence.
    + rewrite H9. by split.
  - done.
  - rewrite Hs. constructor.
  - rewrite Hl. by intros a e ?%elem_of_nil.
Qed.

Lemma reachable_inv w w' : fresh members name w -> rtc (step members) w w' -> exists votes, inv votes w'.
Proof using Hok.
  intros Hf Hr. assert (exists votes, inv votes w) as Hi by (exists ∅; by apply fresh_inv). clear Hf.
  induction Hr as [|x y z [ev Hev] _ IH]; [done|]. destruct Hi as [votes Hi]. apply IH. by eapply exec_inv.
Qed.
End network.

(** ** Five sentinels *)

Definition five : list (bytes * sentinelAddr) :=
  map (fun i => ([97 + i], mkAddr (zs "10.0.0." ++ [49 + i]) 26379)) [0; 1; 2; 3; 4].

Definition new_instance (fl : Z) (id : option bytes) (a : sentinelAddr) : instance :=
  mkInstance fl id a 1000000 900000 900000 0 0 30000 900000 SRI_MASTER 900000 0 100 0 0 None 0 SENTINEL_MASTER_LINK_STATUS_DOWN 900000 900000 None 0.

Definition new_master (members : list (bytes * sentinelAddr)) (a : bytes) : master :=
  mkMaster (new_instance SRI_MASTER None (mkAddr (zs "10.0.0.9") 6379)) (zs "mymaster") 0
    (map (fun q => (instance_name q.2, new_instance SRI_SENTINEL (Some q.1) q.2)) (List.filter (fun q => negb (strcmp_eq q.1 a)) members))
    [] 1 1 0 SENTINEL_FAILOVER_STATE_NONE 0 0 180000 None.

(** The master answers no more; a quorum of one is configured. *)
Definition start (members : list (bytes * sentinelAddr)) : world :=
  mkWorld (list_to_map (map (fun q => (q.1, mkState q.1 0 [(zs "mymaster", new_master members q.1)] false 0 1000000)) members)) [] [].

Definition at_ (t : Z) : senv := mkSenv t (fun _ => 0) (fun _ => 0) (fun _ => true) (fun h => Some h) (fun k => zlen k) true.

(** [b] and [a] both start a failover, in epoch 1. *)
Definition both_start : list event := [Timer (zs "b") (at_ 1000000); Timer (zs "a") (at_ 1000000)].

(** [c] and [e] vote for [b]. *)
Definition b_wins : list event :=
  [Deliver (zs "c") 1 (at_ 1000050); Deliver (zs "e") 3 (at_ 1000050); Deliver (zs "b") 8 (at_ 1000060); Deliver (zs "b") 9 (at_ 1000060);
   Timer (zs "b") (at_ 1000100)].

(** [d] hears of epoch 1, starts a failover in epoch 2, and tells [a]. *)
Definition epoch_moves : list event :=
  [SayHello (zs "b"); Deliver (zs "d") 10 (at_ 1000150); Timer (zs "d") (at_ 1000200); SayHello (zs "d"); Deliver (zs "a") 15 (at_ 1000250)].

(** [a], still in the failover of epoch 1, asks for votes with epoch 2 and gets those of
    [c] and [e]. *)
Definition a_wins : list event :=
  [Timer (zs "a") (at_ 1001100); Deliver (zs "c") 17 (at_ 1001110); Deliver (zs "e") 19 (at_ 1001110);
   Deliver (zs "a") 20 (at_ 1001120); Deliver (zs "a") 21 (at_ 1001120); Timer (zs "a") (at_ 1001200)].

Lemma five_ok : members_ok five.
Proof. split; [apply (bool_decide_unpack _); by vm_compute..|done]. Qed.

Lemma five_fresh : fresh five (zs "mymaster") (start five).
Proof.
  split; [|done]. intros a st Hst. unfold start in Hst. cbn [procs] in Hst. apply elem_of_list_to_map_2 in Hst.
  exists (new_master five a). repeat (apply elem_of_cons in Hst as [Hst|Hst]; [injection Hst as -> ->; split; first [apply (bool_decide_unpack _); by vm_compute|by vm_compute|by repeat constructor]|]).
  by apply elem_of_nil in Hst.
Qed.

(** C13: Two sentinels that are elected leaders of a failover by votes of the epoch of that
    failover are the same sentinel, whatever messages are lost, repeated or delayed. *)
Theorem election_safe members name w0 w a b e : members_ok members -> fresh members name w0 -> rtc (step members) w0 w ->
  (a, e, e) ∈ led w -> (b, e, e) ∈ led w -> a = b.
Proof.
  intros Hok Hf Hr Ha Hb. destruct (reachable_inv members Hok name w0 w Hf Hr) as [votes Hi].
  eapply elected_unique; [done|by apply Hi|by apply Hi].
Qed.

Lemma b_led : exists w, run five (both_start ++ b_wins) (start five) = Some w /\ (zs "b", 1, 1) ∈ led w.
Proof. eexists. split; [vm_compute; reflexivity|]. by left. Qed.

Lemma election_safe_witness : exists w, (zs "b", 1, 1) ∈ led w /\ zs "b" = zs "b".
Proof.
  destruct b_led as (w & Hr & Hl). exists w. split; [done|].
  exact (election_safe five (zs "mymaster") (start five) w (zs "b") (zs "b") 1 five_ok five_fresh (run_reaches five _ _ _ Hr) Hl Hl).
Defined.

(** C38: The votes that decide a failover are those of the current epoch, which may have
    moved on since the failover began: two sentinels are elected for the same failover
    epoch. *)
Theorem two_leaders : members_ok five /\ fresh five (zs "mymaster") (start five) /\
  exists w, rtc (step five) (start five) w /\ (zs "b", 1, 1) ∈ led w /\ (zs "a", 1, 2) ∈ led w.
Proof.
  split; [apply five_ok|]. split; [apply five_fresh|].
  assert (exists w, run five (both_start ++ b_wins ++ epoch_moves ++ a_wins) (start five) = Some w /\ led w = [(zs "b", 1, 1); (zs "a", 1, 2)]) as (w & Hr & Hl).
  { eexists. split; [vm_compute; reflexivity|done]. }
  exists w. split; [by eapply run_reaches|]. rewrite Hl. split; [by left|right; by left].
Qed.
