(* ===== verification/SentinelSlave.v ===== *)
(** * Sentinel: the slave that is promoted (src/redis-2.8.19/src/sentinel.c)

    The slave that a failover selects is suitable, and no other suitable slave comes
    before it: lower priority, then larger replication offset, then smaller run id. *)
From S2P Require Import Prelude Util Object Dict Sentinel.
Open Scope Z_scope.

(** ** Run ids *)

Lemma strcasecmp_refl a : strcasecmp a a = 0.
Proof. induction a as [|x a IH]; cbn [strcasecmp]; [done|]. by rewrite Z.eqb_refl. Qed.

Lemma strcasecmp_total a : forall b, strcasecmp a b <= 0 \/ strcasecmp b a <= 0.
Proof.
  induction a as [|x a IH]; intros [|y b]; cbn [strcasecmp]; try lia.
  destruct (Z.eqb_spec (to_lower x) (to_lower y)) as [Hx|], (Z.eqb_spec (to_lower y) (to_lower x)); [apply IH|lia..].
Qed.

Lemma strcasecmp_trans a : forall b c, strcasecmp a b <= 0 -> strcasecmp b c <= 0 -> strcasecmp a c <= 0.
Proof.
  induction a as [|x a IH]; intros [|y b] [|z c]; cbn [strcasecmp]; try lia.
  destruct (Z.eqb_spec (to_lower x) (to_lower y)), (Z.eqb_spec (to_lower y) (to_lower z)), (Z.eqb_spec (to_lower x) (to_lower z)); try lia.
  apply IH.
Qed.

(** ** The order of the slaves *)

Definition id_le (a b : option bytes) : Prop :=
  match a, b with
  | _, None => True
  | None, Some _ => False
  | Some x, Some y => strcasecmp x y <= 0
  end.

(** [a] may be promoted rather than [b]. *)
Definition before (a b : instance) : Prop :=
  slave_priority a < slave_priority b \/
  slave_priority a = slave_priority b /\
    (slave_repl_offset b < slave_repl_offset a \/
     slave_repl_offset a = slave_repl_offset b /\ id_le (runid a) (runid b)).

(** A priority that is not negative. *)
Definition ranked (p : bytes * instance) : Prop := 0 <= slave_priority p.2 < 2 ^ 31.

Lemma compare_before a b : 0 <= slave_priority a < 2 ^ 31 -> 0 <= slave_priority b < 2 ^ 31 ->
  (compareSlavesForPromotion a b <=? 0) = true <-> before a b.
Proof.
  intros Ha Hb. unfold compareSlavesForPromotion, before. rewrite Z.leb_le.
  destruct (Z.eqb_spec (slave_priority a) (slave_priority b)); cbn [negb].
  - rewrite Z.gtb_ltb. destruct (Z.ltb_spec (slave_repl_offset b) (slave_repl_offset a)); [lia|].
    destruct (Z.ltb_spec (slave_repl_offset a) (slave_repl_offset b)); [lia|]. unfold id_le. destruct (runid a), (runid b); lia.
  - rewrite swrap_small by (unfold sfits; lia). lia.
Qed.

#[global] Instance before_trans : Transitive before.
Proof.
  intros a b c. unfold before. intros H1 H2.
  assert (id_le (runid a) (runid b) -> id_le (runid b) (runid c) -> id_le (runid a) (runid c)).
  { unfold id_le. destruct (runid a), (runid b), (runid c); try done. apply strcasecmp_trans. }
  destruct H1 as [|(? & [|[? ?]])], H2 as [|(? & [|[? ?]])]; try lia; right; (split; [lia|]); [left; lia..|right]. split; [lia|auto].
Qed.

Lemma before_total a b : before a b \/ before b a.
Proof.
  unfold before. assert (id_le (runid a) (runid b) \/ id_le (runid b) (runid a)) by (unfold id_le; destruct (runid a), (runid b); auto; apply strcasecmp_total).
  destruct (Z.lt_total (slave_priority a) (slave_priority b)) as [|[|]]; [lia| |lia].
  destruct (Z.lt_total (slave_repl_offset a) (slave_repl_offset b)) as [|[|]]; [lia| |lia]. naive_solver lia.
Qed.

(** ** The sort *)

Definition sorted_from (p : bytes * instance) (l : list (bytes * instance)) : Prop := Forall (fun q => before p.2 q.2) l.

Fixpoint in_order (l : list (bytes * instance)) : Prop :=
  match l with [] => True | p :: l => sorted_from p l /\ in_order l end.

Lemma sort_in_perm p l : sort_in p l ≡ₚ p :: l.
Proof. induction l as [|q l IH]; cbn [sort_in]; [done|]. destruct (_ <=? _); [done|]. rewrite IH. apply Permutation_swap. Qed.

Lemma sort_in_order p l : ranked p -> Forall ranked l -> in_order l -> in_order (sort_in p l).
Proof.
  intros Hp Hl. induction l as [|q l IH]; cbn [sort_in]; intros Ho; [by split; [constructor|]|]. apply Forall_cons in Hl as [Hq Hl]. destruct Ho as [Hs Ho].
  destruct (compareSlavesForPromotion p.2 q.2 <=? 0) eqn:Hc.
  - apply compare_before in Hc; [|done..]. split; [|done]. constructor; [done|]. eapply Forall_impl; [exact Hs|]. intros x Hx. by etrans.
  - split; [|by apply IH]. unfold sorted_from. rewrite sort_in_perm. constructor; [|done].
    destruct (before_total p.2 q.2) as [Hb|]; [|done]. apply compare_before in Hb; [congruence|done..].
Qed.

Lemma qsort_perm l : qsort l ≡ₚ l.
Proof. induction l as [|p l IH]; cbn [qsort foldr]; [done|]. fold (qsort l). by rewrite sort_in_perm, IH. Qed.

Lemma qsort_order l : Forall ranked l -> in_order (qsort l).
Proof.
  induction l as [|p l IH]; cbn [qsort foldr]; [done|]. intros [Hp Hl]%Forall_cons. fold (qsort l). apply sort_in_order; [done| |by apply IH].
  by rewrite qsort_perm.
Qed.

Lemma suitable_slaves env m q : q ∈ List.filter (fun p => suitable env m p.2) (slaves m) <-> q ∈ slaves m /\ suitable env m q.2 = true.
Proof. by rewrite !list_elem_of_In, filter_In. Qed.

(** C15: The slave selected for promotion is suitable, and comes before every other suitable
    slave; there is none only when no slave is suitable. Priorities are not negative. *)
Theorem select_slave_best env m : Forall ranked (slaves m) ->
  match sentinelSelectSlave env m with
  | None => Forall (fun q => suitable env m q.2 = false) (slaves m)
  | Some p => p ∈ slaves m /\ suitable env m p.2 = true /\
              Forall (fun q => suitable env m q.2 = true -> before p.2 q.2) (slaves m)
  end.
Proof.
  intros Hr. unfold sentinelSelectSlave. set (l := List.filter _ _).
  assert (Forall ranked l) as Hl by (rewrite Forall_forall in *; intros q [Hq _]%suitable_slaves; by apply Hr).
  pose proof (qsort_perm l) as Hp. pose proof (qsort_order l Hl) as Ho. destruct (qsort l) as [|p k]; cbn [head].
  - apply Permutation_nil in Hp. apply Forall_forall. intros q Hq. destruct (suitable env m q.2) eqn:Hs; [|done].
    assert (q ∈ l) as Hin by by apply suitable_slaves. rewrite Hp in Hin. by apply elem_of_nil in Hin.
  - assert (p ∈ l) as [Hin Hs]%suitable_slaves by (rewrite <- Hp; by left). split; [done|]. split; [done|].
    apply Forall_forall. intros q Hq Hqs. assert (q ∈ l) as Hql by by apply suitable_slaves. rewrite <- Hp in Hql. apply elem_of_cons in Hql as [->|Hk].
    + destruct (before_total p.2 p.2); done.
    + destruct Ho as [Ho _]. unfold sorted_from in Ho. rewrite Forall_forall in Ho. by apply Ho.
Qed.

(** A failover with three slaves: the one with the larger offset is disconnected. *)
Definition a_slave (fl prio off : Z) (i : Z) : bytes * instance :=
  ([48 + i], mkInstance fl (Some [48 + i]) (mkAddr (zs "10.0.0.1") (6379 + i)) 0 0 1000 0 0 30000 1000 SRI_SLAVE 1000 0 prio 0 off None 0
               SENTINEL_MASTER_LINK_STATUS_UP 1000 1000 None 0).

Definition three : list (bytes * instance) := [a_slave SRI_SLAVE 100 10 0; a_slave SRI_SLAVE 100 20 1; a_slave (SRI_SLAVE + SRI_DISCONNECTED) 100 30 2].

Definition failing : master :=
  mkMaster (mkInstance (SRI_MASTER + SRI_S_DOWN + SRI_O_DOWN + SRI_FAILOVER_IN_PROGRESS) None (mkAddr (zs "10.0.0.9") 6379) 0 1 1 900 900 100 0 SRI_MASTER 0 0 100
              0 0 None 0 SENTINEL_MASTER_LINK_STATUS_DOWN 0 0 None 0)
    (zs "m") 0 [] three 1 1 1 SENTINEL_FAILOVER_STATE_SELECT_SLAVE 0 0 180000 None.

Definition later : senv := mkSenv 1500 (fun _ => 0) (fun _ => 0) (fun _ => true) (fun h => Some h) (fun k => zlen k) true.

Lemma select_slave_best_witness :
  sentinelSelectSlave later failing = Some (a_slave SRI_SLAVE 100 20 1) /\
  Forall (fun q => suitable later failing q.2 = true -> before (a_slave SRI_SLAVE 100 20 1).2 q.2) (slaves failing).
Proof.
  split; [by vm_compute|]. pose proof (select_slave_best later failing ltac:(repeat constructor; unfold ranked; cbn; lia)) as H.
  assert (sentinelSelectSlave later failing = Some (a_slave SRI_SLAVE 100 20 1)) as Hs by by vm_compute.
  rewrite Hs in H. apply H.
Defined.
