(* ===== verification/SentinelLive.v ===== *)
(** * Sentinel: a failover ends (src/redis-2.8.19/src/sentinel.c)

    Whatever happens to the election, a failover that is in progress is over after five
    timers that are far enough apart: it is aborted, or the configuration is updated.
    No assertion fails and no null pointer is followed on the way. *)
From S2P Require Import Prelude Util Object Dict DictIter DictBound Sentinel SentinelNet SentinelSpec SentinelElection.
Open Scope Z_scope.

(** ** Flags *)

Lemma has_clear mask b ri : Z.land mask b = 0 -> has (clear mask ri) b = has ri b.
Proof.
  intros Hm. unfold has, clear, set_flags. cbn [flags]. do 2 f_equal. apply Z.bits_inj_iff'. intros n Hn.
  assert (Z.testbit (Z.land mask b) n = false) as Hb by by rewrite Hm, Z.bits_0. rewrite !Z.land_spec in *. rewrite Z.ldiff_spec.
  destruct (Z.testbit mask n), (Z.testbit b n), (Z.testbit (flags ri) n); done.
Qed.

Lemma has_raise mask b ri : Z.land mask b = 0 -> has (raise mask ri) b = has ri b.
Proof.
  intros Hm. unfold has, raise, set_flags. cbn [flags]. by rewrite Z.land_lor_distr_l, Hm, Z.lor_0_r.
Qed.

Lemma has_cleared mask b ri : Z.land mask b = b -> has (clear mask ri) b = false.
Proof.
  intros Hm. unfold has, clear, set_flags. cbn [flags]. apply negb_false_iff, Z.eqb_eq, Z.bits_inj_iff'. intros n Hn.
  assert (Z.testbit (Z.land mask b) n = Z.testbit b n) as Hb by by rewrite Hm. rewrite !Z.land_spec in *. rewrite Z.ldiff_spec, Z.bits_0.
  destruct (Z.testbit mask n), (Z.testbit b n), (Z.testbit (flags ri) n); done.
Qed.

(** ** Slaves by name *)

Lemma fetch_store {A} key (x y : A) l : fetch key l = Some y -> fetch key (store key x l) = Some x.
Proof.
  unfold fetch, store, strcmp_eq. induction l as [|[k z] l IH]; cbn [find map fst]; [done|].
  destruct (bool_decide_reflect (k = key)) as [->|Hk]; cbn [fst]; [by rewrite bool_decide_eq_true_2|].
  rewrite bool_decide_eq_false_2 by done. apply IH.
Qed.

Lemma fetch_in {A} (l : list (bytes * A)) p : p ∈ l -> exists y, fetch p.1 l = Some y.
Proof.
  unfold fetch, strcmp_eq. intros Hp. destruct (find _ l) as [q|] eqn:Hf; [by exists q.2|].
  apply list_elem_of_In, (find_none _ _ Hf) in Hp. cbv beta in Hp. by rewrite bool_decide_eq_true_2 in Hp.
Qed.

Lemma fetch_map {A} (P : A -> A -> Prop) key l l' x : Forall2 (fun p p' : bytes * A => p'.1 = p.1 /\ P p.2 p'.2) l l' ->
  fetch key l = Some x -> exists x', fetch key l' = Some x' /\ P x x'.
Proof.
  unfold fetch, strcmp_eq. induction 1 as [|[k y] [k' y'] l l' [Hk Hy] _ IH]; cbn [find fst snd] in *; [done|]. subst k'.
  destruct (bool_decide (k = key)); cbn; [|exact IH]. intros [= <-]. by exists y'.
Qed.

(** ** The states of a failover *)

Definition over (m : master) : Prop :=
  m_has m SRI_FAILOVER_IN_PROGRESS = false \/ failover_state m = SENTINEL_FAILOVER_STATE_UPDATE_CONFIG.

Definition going (m : master) : Prop :=
  m_has m SRI_FAILOVER_IN_PROGRESS = true /\ SENTINEL_FAILOVER_STATE_WAIT_START <= failover_state m <= SENTINEL_FAILOVER_STATE_RECONF_SLAVES.

(** A master whose failover is over or under way; the promoted slave is there when it
    has to be, and answers when the others are being reconfigured. *)
Record failover_ok (m : master) : Prop := {
  fo_master : m_has m SRI_MASTER = true;
  fo_state : over m \/ going m;
  fo_slave : promoted_slave m = None \/ is_Some (promoted m);
  fo_promoted : SENTINEL_FAILOVER_STATE_SEND_SLAVEOF_NOONE <= failover_state m -> is_Some (promoted m);
  fo_up : failover_state m = SENTINEL_FAILOVER_STATE_RECONF_SLAVES -> forall s, promoted m = Some s -> has s SRI_S_DOWN = false;
  fo_few : zlen (sentinels m) < 2 ^ 28;
  fo_timeout : 0 < failover_timeout m
}.

(** The clock of a master: nothing it waits for began after [t]. *)
Definition began (t : Z) (m : master) : Prop := failover_state_change_time m <= t /\ failover_start_time m <= t + SENTINEL_MAX_DESYNC.

(** The turns of the state machine that are left, if each comes late enough. *)
Definition turns (m : master) : Z :=
  if negb (m_has m SRI_FAILOVER_IN_PROGRESS) || (failover_state m =? SENTINEL_FAILOVER_STATE_UPDATE_CONFIG) then 0
  else if failover_state m =? SENTINEL_FAILOVER_STATE_WAIT_START then if m_leader_epoch m <? failover_epoch m then 5 else 4
  else if failover_state m =? SENTINEL_FAILOVER_STATE_SELECT_SLAVE then 3
  else if failover_state m =? SENTINEL_FAILOVER_STATE_SEND_SLAVEOF_NOONE then 2
  else 1.

Lemma turns_over m : turns m = 0 -> over m.
Proof.
  unfold turns, over. destruct (m_has _ _); cbn [negb orb]; [|by left]. destruct (Z.eqb_spec (failover_state m) SENTINEL_FAILOVER_STATE_UPDATE_CONFIG); [by right|].
  repeat case_match; done.
Qed.

Lemma over_turns m : over m -> turns m = 0.
Proof. unfold turns. intros [->| ->]; [done|]. by rewrite orb_true_r. Qed.

Lemma turns_bounds m : 0 <= turns m <= 5.
Proof. unfold turns. repeat case_match; lia. Qed.

Section machine.
Context (env : senv) (me : bytes).

(** What one turn has to achieve. *)
Definition turned (m m' : master) : Prop :=
  failover_ok m' /\ failover_timeout m' = failover_timeout m /\ began (mstime env) m' /\ turns m' <= Z.max 0 (turns m - 1).

Lemma abort_ok m : failover_ok m -> going m -> failover_state m <= SENTINEL_FAILOVER_STATE_WAIT_PROMOTION ->
  failover_start_time m <= mstime env + SENTINEL_MAX_DESYNC -> exists m', sentinelAbortFailover env m = Some m' /\ turned m m'.
Proof.
  intros [H1 H2 H3 H4 H5 H6 H7] [Hp Hs] Hle Hst. unfold sentinelAbortFailover. rewrite Hp, (proj2 (Z.leb_le _ _) Hle). cbn [negb].
  set (m0 := set_failover_state_change_time _ _).
  assert (forall m', m_inst m' = m_inst m0 -> failover_state m' = SENTINEL_FAILOVER_STATE_NONE -> promoted_slave m' = None ->
    sentinels m' = sentinels m -> failover_timeout m' = failover_timeout m -> failover_state_change_time m' = mstime env ->
    failover_start_time m' = failover_start_time m -> turned m m') as Hend.
  { intros m' E1 E2 E3 E4 E5 E6 E7. assert (m_has m' SRI_FAILOVER_IN_PROGRESS = false) as Hn by (unfold m_has; rewrite E1; by apply has_cleared).
    split; [|split; [done|]].
    - split; rewrite ?E2, ?E4, ?E5; try done; [|by left; left|by left]. unfold m_has. rewrite E1. cbn [m_inst]. unfold m0. rewrite <- H1. by apply has_clear.
    - split; [unfold began; rewrite E6, E7; lia|]. rewrite over_turns by (by left). lia. }
  change (promoted_slave m0) with (promoted_slave m). destruct H3 as [Hno|[s Hs']]; [rewrite Hno; exists m0; split; [done|by apply Hend]|].
  unfold promoted in Hs'. apply bind_Some in Hs' as (key & -> & Hf). change (slaves m0) with (slaves m). rewrite Hf. cbn [mbind option_bind].
  eexists. split; [done|]. by apply Hend.
Qed.

(** The election always has a result. *)
Lemma leader_some epoch m req : m_has m SRI_FAILOVER_IN_PROGRESS = true -> zlen (sentinels m) < 2 ^ 28 ->
  exists v w e ve m', sentinelGetLeader env me epoch m req = Some (e, m', w) /\ sentinelVoteLeader env me epoch m req v = (e, m', m_leader m', ve).
Proof.
  intros Hp Hn. unfold sentinelGetLeader. assert (m_has m (Z.lor SRI_O_DOWN SRI_FAILOVER_IN_PROGRESS) = true) as ->.
  { unfold m_has, has in *. apply negb_true_iff in Hp. apply negb_true_iff, Z.eqb_neq. apply Z.eqb_neq in Hp. intros H0. apply Hp.
    apply Z.bits_inj_iff'. intros n Hn'. assert (Z.testbit (Z.land (flags (m_inst m)) (Z.lor SRI_O_DOWN SRI_FAILOVER_IN_PROGRESS)) n = false) as Hb by by rewrite H0, Z.bits_0.
    rewrite Z.land_spec, Z.lor_spec in Hb. rewrite Z.land_spec, Z.bits_0. destruct (Z.testbit (flags _) n); [|done]. cbn in *. by apply orb_false_iff in Hb as [_ ->]. }
  cbn [negb]. assert (Z.of_nat (base.size (to_map (dictCreate : dict bytes Z))) = 0) as Hzero by done. pose proof (zlen_nonneg (sentinels m)) as Hz.
  assert (counts env dictCreate) as Hnew by (split; [apply create_inv|apply map_Forall_empty]).
  destruct (count_votes_ok env epoch (sentinels m) dictCreate Hnew) as (d & -> & Hd & Hds & Ht); [lia|intros r; rewrite tally_new; lia|]. cbn [mbind option_bind].
  pose proof (proj1 (proj1 Hd)) as Hdok. pose proof (entries_size (votes_hash env) d Hdok) as Hes.
  destruct (find_winner_ok (S (Z.to_nat (dictSize d))) d dictGetIterator (entries d) None 0) as (w0 & k & -> & _); [apply (visiting_start (votes_hash env) false d Hdok)|rewrite Hes; unfold zlen; lia|].
  cbn [mbind option_bind]. set (v := match w0 with Some w => w | None => me end). exists v.
  destruct (sentinelVoteLeader env me epoch m req v) as [[[e m1] lv] ve] eqn:Hvote.
  assert (lv = m_leader m1) as -> by (unfold sentinelVoteLeader in Hvote; by injection Hvote as _ <- <- _).
  destruct (m_leader m1) as [x|] eqn:Hx; cbn [mbind option_bind]; [|by eexists _, e, ve, m1; split; [|rewrite Hx]].
  destruct (ve =? req); cbn [mbind option_bind]; [|by eexists _, e, ve, m1; split; [|rewrite Hx]].
  pose proof (votes_for_bounds epoch x (sentinels m)). specialize (Ht x). rewrite tally_new in Ht.
  destruct (incr_ok env d x Hd) as (d' & -> & _); [lia|lia|]. cbn [mbind option_bind].
  destruct (_ >? _); by eexists _, e, ve, m1; split; [|rewrite Hx].
Qed.

(** A vote, if there is one, makes another one in the same epoch impossible. *)
Lemma vote_frame epoch m req v e m' lv ve : sentinelVoteLeader env me epoch m req v = (e, m', lv, ve) ->
  flags (m_inst m') = flags (m_inst m) /\ failover_state m' = failover_state m /\ promoted_slave m' = promoted_slave m /\ slaves m' = slaves m /\
  sentinels m' = sentinels m /\ failover_timeout m' = failover_timeout m /\ failover_state_change_time m' = failover_state_change_time m /\
  failover_epoch m' = failover_epoch m /\
  (failover_start_time m' = failover_start_time m /\ m_leader_epoch m' = m_leader_epoch m \/
   m_leader_epoch m < req <= m_leader_epoch m' /\ failover_start_time m' <= Z.max (failover_start_time m) (mstime env + SENTINEL_MAX_DESYNC)).
Proof.
  unfold sentinelVoteLeader. set (e0 := if req >? epoch then req else epoch).
  assert (req <= e0) as He0 by (unfold e0; rewrite Z.gtb_ltb; destruct (Z.ltb_spec epoch req); lia). clearbody e0.
  destruct (Z.ltb_spec (m_leader_epoch m) req) as [Hlt|]; cbn [andb]; [|intros [= _ <- _ _]; split_and!; by auto].
  destruct (Z.leb_spec e0 req); [|intros [= _ <- _ _]; split_and!; by auto].
  pose proof (Z.mod_pos_bound (rand_vote env (m_name m)) SENTINEL_MAX_DESYNC ltac:(done)).
  destruct (negb _); intros [= _ <- _ _]; (split_and!; try done); right; (split; [unfold m_leader_epoch in *; cbn [m_inst set_failover_start_time set_m_inst leader_epoch set_leader_epoch]; lia|]);
    cbn [failover_start_time set_failover_start_time set_m_inst m_name]; unfold m_name in *; cbn in *; lia.
Qed.

(** The same fields, the flags and the state but for what is said. *)
Lemma moved_ok m m' : failover_ok m -> m_has m' SRI_MASTER = true -> sentinels m' = sentinels m -> failover_timeout m' = failover_timeout m ->
  over m' \/ going m' -> promoted_slave m' = None \/ is_Some (promoted m') ->
  (SENTINEL_FAILOVER_STATE_SEND_SLAVEOF_NOONE <= failover_state m' -> is_Some (promoted m')) ->
  failover_state m' <> SENTINEL_FAILOVER_STATE_RECONF_SLAVES -> failover_ok m'.
Proof. intros [H1 H2 H3 H4 H5 H6 H7] ? Es Et ? ? ? ?. split; rewrite ?Es, ?Et; done. Qed.

Definition late (m : master) : Prop :=
  failover_state_change_time m + failover_timeout m < mstime env /\ failover_start_time m + SENTINEL_ELECTION_TIMEOUT < mstime env.

Lemma late_began m : failover_ok m -> late m -> began (mstime env) m.
Proof. intros [_ _ _ _ _ _ Ht] [H1 H2]. unfold began. change SENTINEL_ELECTION_TIMEOUT with 10000 in *. change SENTINEL_MAX_DESYNC with 1000. lia. Qed.

Lemma over_turn epoch m : failover_ok m -> late m -> over m ->
  sentinelFailoverStateMachine env me epoch m = Some (epoch, m, []) /\ turned m m.
Proof.
  intros Hok Hl Ho. split.
  - unfold sentinelFailoverStateMachine. rewrite (fo_master _ Hok). cbn [negb]. destruct Ho as [->| ->]; [done|]. by destruct (negb _).
  - split; [done|]. split; [done|]. split; [by apply late_began|]. rewrite over_turns by done. lia.
Qed.

Lemma wait_start_turn epoch m : failover_ok m -> late m -> going m -> failover_state m = SENTINEL_FAILOVER_STATE_WAIT_START ->
  exists e m', sentinelFailoverWaitStart env me epoch m = Some (e, m') /\ turned m m'.
Proof.
  intros Hok Hl Hg Hs. unfold sentinelFailoverWaitStart. destruct (leader_some epoch m (failover_epoch m) (proj1 Hg) (fo_few _ Hok)) as (v & w & e & ve & m1 & -> & Hv).
  cbn [mbind option_bind]. apply vote_frame in Hv as (E1 & E2 & E3 & E4 & E5 & E6 & E7 & E8 & Hstart). exists e.
  assert (promoted m1 = promoted m) as Ep by (unfold promoted; by rewrite E3, E4).
  assert (forall k, m_has m1 k = m_has m k) as Ef by (intros k; unfold m_has, has; by rewrite E1).
  assert (going m1) as Hg1 by (unfold going; by rewrite Ef, E2).
  assert (failover_ok m1) as Hok1.
  { destruct Hok as [H1 H2 H3 H4 H5 H6 H7]. split; rewrite ?Ef, ?E2, ?E3, ?E5, ?E6, ?Ep; try done. by right. }
  assert (turns m = 5 \/ turns m = 4) as Ht by (unfold turns; rewrite (proj1 Hg), Hs; cbn; destruct (_ <? _); auto).
  destruct (negb _ && negb _).
  - rewrite E6. set (et := if SENTINEL_ELECTION_TIMEOUT >? _ then _ else _). assert (et <= SENTINEL_ELECTION_TIMEOUT) as Het.
    { unfold et. rewrite Z.gtb_ltb. destruct (Z.ltb_spec (failover_timeout m) SENTINEL_ELECTION_TIMEOUT) as [Hlt|]; [|lia]. pose proof (fo_timeout _ Hok).
      change SENTINEL_ELECTION_TIMEOUT with 10000 in *. rewrite swrap_small by (unfold sfits; lia). lia. }
    assert (failover_start_time m1 <= mstime env + SENTINEL_MAX_DESYNC) as Hst.
    { destruct Hl as [_ Hl]. change SENTINEL_ELECTION_TIMEOUT with 10000 in *. change SENTINEL_MAX_DESYNC with 1000 in *. lia. }
    rewrite Z.gtb_ltb. destruct (Z.ltb_spec et (mstime env - failover_start_time m1)) as [Hlate|Hearly].
    + destruct (abort_ok m1 Hok1 Hg1) as (m2 & Ha & H1 & H2 & H3 & H4); [by rewrite E2, Hs|done|]. rewrite Ha. cbn [mbind option_bind].
      exists m2. split; [done|]. split; [done|]. split; [congruence|]. split; [done|].
      assert (turns m1 <= turns m); [|lia]. pose proof (turns_bounds m1). unfold turns in *. rewrite Ef, E2, E8, (proj1 Hg), Hs in *. cbn in *. repeat case_match; lia.
    + exists m1. split; [done|]. split; [done|]. split; [done|]. split; [split; [|done]|]; [destruct Hl; pose proof (fo_timeout _ Hok); lia|].
      destruct Hstart as [[Heq _]|[[H1 H2] _]]; [destruct Hl; lia|].
      unfold turns. rewrite Ef, E2, E8, (proj1 Hg), Hs. cbn. rewrite (proj2 (Z.ltb_lt _ _) H1), (proj2 (Z.ltb_ge _ _) H2). lia.
  - set (m2 := set_failover_state_change_time _ _). exists m2. split; [done|]. split; [|split; [done|split]].
    + apply (moved_ok m1 m2); try done; [by apply Hok1|right|by apply (fo_slave _ Hok1)]. split; [by apply Hg1|done].
    + split; [cbn; lia|]. change (failover_start_time m2) with (failover_start_time m1). destruct Hl as [_ Hl]. change SENTINEL_ELECTION_TIMEOUT with 10000 in *. change SENTINEL_MAX_DESYNC with 1000 in *. lia.
    + assert (turns m2 <= 3); [|lia]. unfold turns. change (failover_state m2) with SENTINEL_FAILOVER_STATE_SELECT_SLAVE. cbn. by destruct (negb _ || _).
Qed.

Lemma select_turn m : failover_ok m -> late m -> going m -> failover_state m = SENTINEL_FAILOVER_STATE_SELECT_SLAVE ->
  exists m', sentinelFailoverSelectSlave env m = Some m' /\ turned m m'.
Proof.
  intros Hok Hl Hg Hs. pose proof (late_began m Hok Hl) as Hb. unfold sentinelFailoverSelectSlave. destruct (sentinelSelectSlave env m) as [[name slave]|] eqn:Hsel.
  2: { apply abort_ok; try done; [by rewrite Hs|apply Hb]. }
  set (m2 := set_failover_state_change_time _ _). exists m2. split; [done|].
  assert (exists y, fetch name (slaves m) = Some y) as [y Hy].
  { apply (fetch_in (slaves m) (name, slave)). unfold sentinelSelectSlave in Hsel. apply head_Some_elem_of in Hsel.
    assert (forall l p, p ∈ qsort l -> p ∈ l) as Hq.
    { intros l p. induction l as [|q l IH]; [done|]. cbn [qsort foldr]. fold (qsort l). generalize dependent (qsort l). intros k.
      assert (forall q k, p ∈ sort_in q k -> p = q \/ p ∈ k) as Hin.
      { clear. intros q k. induction k as [|r k IHk]; cbn [sort_in]; [set_solver|]. destruct (_ <=? _); set_solver. }
      intros IH H%Hin. set_solver. }
    apply Hq, list_elem_of_In, filter_In in Hsel as [Hsel _]. by apply list_elem_of_In. }
  assert (is_Some (promoted m2)) as Hp by (exists (raise SRI_PROMOTED slave); apply (fetch_store name (raise SRI_PROMOTED slave) y), Hy).
  split; [|split; [done|split; [split; [cbn; lia|by apply Hb]|]]].
  - apply (moved_ok m m2); try done; [by apply Hok|right; split; [by apply Hg|done]|by right].
  - assert (turns m = 3) by (unfold turns; by rewrite (proj1 Hg), Hs). unfold turns at 1. change (m_has m2 SRI_FAILOVER_IN_PROGRESS) with (m_has m SRI_FAILOVER_IN_PROGRESS).
    rewrite (proj1 Hg). cbn. lia.
Qed.

Lemma slaveof_no_one_turn m : (forall h, accepts env h = true) -> failover_ok m -> late m -> going m ->
  failover_state m = SENTINEL_FAILOVER_STATE_SEND_SLAVEOF_NOONE ->
  exists m' out, sentinelFailoverSendSlaveOfNoOne env m = Some (m', out) /\ turned m m'.
Proof.
  intros Hacc Hok Hl Hg Hs. pose proof (late_began m Hok Hl) as Hb. unfold sentinelFailoverSendSlaveOfNoOne.
  destruct (fo_promoted _ Hok) as [s Hp]; [by rewrite Hs|]. rewrite Hp. cbn [mbind option_bind]. destruct (has s SRI_DISCONNECTED).
  - rewrite Z.gtb_ltb, (proj2 (Z.ltb_lt _ _)) by (destruct Hl; lia). destruct (abort_ok m Hok Hg) as (m' & Ha & Ht); [by rewrite Hs|apply Hb|].
    rewrite Ha. by exists m', [].
  - assert (exists key, promoted_slave m = Some key) as [key Hk] by (unfold promoted in Hp; apply bind_Some in Hp as (key & ? & _); by exists key).
    rewrite Hk. cbn [mbind option_bind]. unfold sentinelSendSlaveOf. rewrite Hacc. cbn [negb]. set (m2 := set_failover_state_change_time _ _). exists m2, [SlaveOf key None]. split; [done|].
    assert (is_Some (promoted m2)) as Hp2 by by exists s.
    split; [|split; [done|split; [split; [cbn; lia|by apply Hb]|]]].
    + apply (moved_ok m m2); try done; [by apply Hok|right; split; [by apply Hg|done]|by right].
    + assert (turns m = 2) by (unfold turns; by rewrite (proj1 Hg), Hs). unfold turns at 1. change (m_has m2 SRI_FAILOVER_IN_PROGRESS) with (m_has m SRI_FAILOVER_IN_PROGRESS).
      rewrite (proj1 Hg). cbn. lia.
Qed.

(** The slaves keep their names and whether they are down. *)
Definition alike (l l' : list (bytes * instance)) : Prop :=
  Forall2 (fun p p' : bytes * instance => p'.1 = p.1 /\ has p'.2 SRI_S_DOWN = has p.2 SRI_S_DOWN) l l'.

Lemma alike_refl l : alike l l.
Proof. by apply Forall_Forall2_diag, Forall_forall. Qed.

Lemma reconf_loop_some m l : is_Some (promoted m) -> forall k, exists l' out, reconf_loop env m k l = Some (l', out) /\ alike l l'.
Proof.
  intros [t Hp]. induction l as [|[n s] l IH]; intros k; cbn [reconf_loop]; [exists [], []; split; [done|constructor]|].
  destruct (negb _); [exists ((n, s) :: l), []; split; [done|apply alike_refl]|].
  destruct (has s (Z.lor SRI_PROMOTED SRI_RECONF_DONE)); [destruct (IH k) as (l' & o & -> & Hl); by exists ((n, s) :: l'), o; split; [|constructor]|].
  set (s1 := if has s SRI_RECONF_SENT && _ then _ else s).
  assert (has s1 SRI_S_DOWN = has s SRI_S_DOWN) as Hs1 by (unfold s1; destruct (_ && _); [|done]; rewrite has_raise by done; by apply has_clear). clearbody s1.
  destruct (has s1 (Z.lor SRI_DISCONNECTED _)); [destruct (IH k) as (l' & o & -> & Hl); by exists ((n, s1) :: l'), o; split; [|constructor]|].
  rewrite Hp. cbn [mbind option_bind]. unfold sentinelSendSlaveOf. destruct (accepts env n).
  - destruct (IH (k + 1)) as (l' & o & -> & Hl). eexists _, _. split; [reflexivity|]. constructor; [|done]. split; [done|]. cbn [snd]. rewrite <- Hs1. by apply has_raise.
  - destruct (IH k) as (l' & o & -> & Hl). eexists _, _. split; [reflexivity|]. by constructor.
Qed.

Lemma best_effort_alike a l : forall l' o, reconf_best_effort env a l = (l', o) -> alike l l'.
Proof.
  induction l as [|[n s] l IH]; cbn [reconf_best_effort]; intros l' o; [intros [= <- _]; constructor|].
  destruct (reconf_best_effort env a l) as [rest o1]. specialize (IH _ _ eq_refl). destruct (has s _); [intros [= <- _]; by constructor|].
  unfold sentinelSendSlaveOf. destruct (accepts env n); intros [= <- _]; constructor; try done. split; [done|]. by apply has_raise.
Qed.

Lemma reconf_turn m : failover_ok m -> late m -> going m -> failover_state m = SENTINEL_FAILOVER_STATE_RECONF_SLAVES ->
  exists m' out, sentinelFailoverReconfNextSlave env m = Some (m', out) /\ turned m m'.
Proof.
  intros Hok Hl Hg Hs. pose proof (late_began m Hok Hl) as Hb. destruct (fo_promoted _ Hok) as [s Hp]; [by rewrite Hs|]. pose proof (fo_up _ Hok Hs s Hp) as Hup.
  unfold sentinelFailoverReconfNextSlave. destruct (reconf_loop_some m (slaves m) ltac:(by exists s) (zlen (List.filter (fun p => has p.2 (Z.lor SRI_RECONF_SENT SRI_RECONF_INPROG)) (slaves m)))) as (l & o & -> & Hal).
  cbn [mbind option_bind]. unfold promoted in Hp. apply bind_Some in Hp as (key & Hk & Hf).
  destruct (fetch_map (fun x y => has y SRI_S_DOWN = has x SRI_S_DOWN) key _ _ s Hal Hf) as (s' & Hf' & Hd).
  unfold sentinelFailoverDetectEnd. cbn [promoted_slave set_slaves slaves failover_state_change_time failover_timeout]. rewrite Hk, Hf'. cbn [mbind option_bind]. rewrite Hd, Hup.
  rewrite Z.gtb_ltb, (proj2 (Z.ltb_lt _ _)) by (destruct Hl; lia). cbn [orb]. destruct (reconf_best_effort env (addr s') _) as [l2 o2] eqn:Hbest. cbn [mbind option_bind].
  set (m2 := set_slaves l2 _). exists m2, (o ++ o2). split; [done|].
  apply best_effort_alike in Hbest. destruct (fetch_map (fun x y => has y SRI_S_DOWN = has x SRI_S_DOWN) key _ _ s' Hbest Hf') as (s2 & Hf2 & _).
  assert (promoted m2 = Some s2) as Hp2 by (unfold promoted; cbn; by rewrite Hk).
  assert (over m2) as Ho by by right. split; [|split; [done|split; [split; [cbn; lia|by apply Hb]|]]].
  - apply (moved_ok m m2); try done; [by apply Hok|by left|by right; exists s2].
  - rewrite over_turns by done. lia.
Qed.

Lemma machine_turn epoch m : (forall h, accepts env h = true) -> failover_ok m -> late m ->
  exists e m' out, sentinelFailoverStateMachine env me epoch m = Some (e, m', out) /\ turned m m'.
Proof.
  intros Hacc Hok Hl. destruct (fo_state _ Hok) as [Ho|Hg]; [exists epoch, m, []; by apply over_turn|].
  unfold sentinelFailoverStateMachine. rewrite (fo_master _ Hok), (proj1 Hg). cbn [negb].
  destruct (Z.eqb_spec (failover_state m) SENTINEL_FAILOVER_STATE_WAIT_START) as [Hs|H1].
  { destruct (wait_start_turn epoch m Hok Hl Hg Hs) as (e & m' & -> & Ht). by exists e, m', []. }
  destruct (Z.eqb_spec (failover_state m) SENTINEL_FAILOVER_STATE_SELECT_SLAVE) as [Hs|H2].
  { destruct (select_turn m Hok Hl Hg Hs) as (m' & -> & Ht). by exists epoch, m', []. }
  destruct (Z.eqb_spec (failover_state m) SENTINEL_FAILOVER_STATE_SEND_SLAVEOF_NOONE) as [Hs|H3].
  { destruct (slaveof_no_one_turn m Hacc Hok Hl Hg Hs) as (m' & o & -> & Ht). by exists epoch, m', o. }
  destruct (Z.eqb_spec (failover_state m) SENTINEL_FAILOVER_STATE_WAIT_PROMOTION) as [Hs|H4].
  { unfold sentinelFailoverWaitPromotion. rewrite Z.gtb_ltb, (proj2 (Z.ltb_lt _ _)) by (destruct Hl; lia).
    destruct (abort_ok m Hok Hg) as (m' & -> & Ht); [by rewrite Hs|by apply late_began|]. by exists epoch, m', []. }
  destruct (Z.eqb_spec (failover_state m) SENTINEL_FAILOVER_STATE_RECONF_SLAVES) as [Hs|H5].
  { destruct (reconf_turn m Hok Hl Hg Hs) as (m' & o & -> & Ht). by exists epoch, m', o. }
  exfalso. destruct Hg as [_ Hg]. unfold SENTINEL_FAILOVER_STATE_WAIT_START, SENTINEL_FAILOVER_STATE_SELECT_SLAVE, SENTINEL_FAILOVER_STATE_SEND_SLAVEOF_NOONE,
    SENTINEL_FAILOVER_STATE_WAIT_PROMOTION, SENTINEL_FAILOVER_STATE_RECONF_SLAVES in *. lia.
Qed.
End machine.

(** ** One turn after the other *)

Fixpoint ticks (me : bytes) (envs : list senv) (epoch : Z) (m : master) : option (Z * master) :=
  match envs with
  | [] => Some (epoch, m)
  | env :: envs => '(epoch, m, _) ← sentinelFailoverStateMachine env me epoch m; ticks me envs epoch m
  end.

(** Turns more than [T] apart, the first one more than [T] after [t], when the links
    take commands. *)
Fixpoint spaced (T t : Z) (envs : list senv) : Prop :=
  match envs with
  | [] => True
  | env :: envs => t + T < mstime env /\ (forall h, accepts env h = true) /\ spaced T (mstime env) envs
  end.

Definition patience (m : master) : Z := Z.max (failover_timeout m) (SENTINEL_ELECTION_TIMEOUT + SENTINEL_MAX_DESYNC).

Lemma ticks_end me envs : forall t epoch m, failover_ok m -> began t m -> spaced (patience m) t envs -> turns m <= zlen envs ->
  exists e m', ticks me envs epoch m = Some (e, m') /\ failover_ok m' /\ over m'.
Proof.
  induction envs as [|env envs IH]; intros t epoch m Hok [Hb1 Hb2] Hsp Hn; cbn [ticks].
  - exists epoch, m. split; [done|]. split; [done|]. apply turns_over. pose proof (turns_bounds m). unfold zlen in Hn. cbn in Hn. lia.
  - destruct Hsp as (Ht & Hacc & Hsp). assert (late env m) as Hl.
    { unfold late, patience in *. change SENTINEL_ELECTION_TIMEOUT with 10000 in *. change SENTINEL_MAX_DESYNC with 1000 in *. lia. }
    destruct (machine_turn env me epoch m Hacc Hok Hl) as (e & m' & o & -> & Hok' & Hto & Hb' & Htu). cbn [mbind option_bind].
    rewrite zlen_cons in Hn. apply (IH (mstime env)); try done; [unfold patience in *; by rewrite Hto|pose proof (zlen_nonneg envs); lia].
Qed.

(** C14: A failover ends: after five turns of the state machine, each later than the one
    before by more than [patience], it has been aborted or the configuration is updated,
    whoever was elected and whatever state it is in; no assertion fails on the way. The
    links accept what is sent to the slaves, a promoted slave that the others are told to
    follow is not subjectively down ([fo_up]), and only the turns change the master. *)
Theorem failover_ends me envs t epoch m : failover_ok m -> began t m -> spaced (patience m) t envs -> zlen envs = 5 ->
  exists e m', ticks me envs epoch m = Some (e, m') /\ failover_ok m' /\ over m'.
Proof. intros Hok Hb Hsp Hn. eapply ticks_end; try done. pose proof (turns_bounds m). lia. Qed.

(** A failover that waits to start, with a slave and no other sentinel to vote. *)
Definition alone : master :=
  let ri := mkInstance (SRI_MASTER + SRI_S_DOWN + SRI_O_DOWN + SRI_FAILOVER_IN_PROGRESS) None (mkAddr (zs "10.0.0.9") 6379) 0 1 1 900 900 100 0 SRI_MASTER 0 0 100
    0 0 None 0 SENTINEL_MASTER_LINK_STATUS_DOWN 0 0 None 0 in
  mkMaster ri (zs "m") 0 [] [(zs "s", set_flags SRI_SLAVE ri)] 1 1 1 SENTINEL_FAILOVER_STATE_WAIT_START 1000 1500 20000 None.

Definition clock (t : Z) : senv := mkSenv t (fun _ => 0) (fun _ => 0) (fun _ => true) (fun h => Some h) (fun k => zlen k) true.

Lemma failover_ends_witness : exists e m',
  ticks (zs "me") (map clock [30000; 60000; 90000; 120000; 150000]) 1 alone = Some (e, m') /\ failover_ok m' /\ over m'.
Proof.
  apply (failover_ends (zs "me") _ 1000).
  - split; try done; [right; split; [done|by vm_compute]|by left].
  - by split.
  - by repeat (split; [done|]).
  - done.
Defined.
