(* ===== verification/Zskiplist.v ===== *)
(** * Skip lists (src/redis-2.8.19/src/t_zset.c)

    The nodes of a skip list live in a store of their own, by address; an access to a
    node that is not there or to a level it does not have is [None]. The object of a
    node is its decoded bytes, null in the header. A score is a double, of which only
    comparisons matter here: a finite one is the rational number it denotes. *)
From S2P Require Import Prelude Util Sds Object Dict.
From Stdlib Require Import QArith.
Open Scope Z_scope.

(** ** Scores *)

Inductive double := NaN | NegInf | Fin (q : Q) | PosInf.

Definition isnan (x : double) : bool := match x with NaN => true | _ => false end.

(** The operators < and == of C; those that follow are the others. *)
Definition dlt (x y : double) : bool :=
  match x, y with
  | NaN, _ | _, NaN => false
  | Fin a, Fin b => negb (Qle_bool b a)
  | NegInf, NegInf => false
  | NegInf, _ => true
  | _, PosInf => negb (match x with PosInf => true | _ => false end)
  | _, _ => false
  end.

Definition deq (x y : double) : bool :=
  match x, y with
  | Fin a, Fin b => Qeq_bool a b
  | NegInf, NegInf | PosInf, PosInf => true
  | _, _ => false
  end.

Definition dle (x y : double) : bool := dlt x y || deq x y.

(** [compareStringObjects] on the decoded bytes of two objects. *)
Definition compareDecoded (astr bstr : bytes) : Z :=
  let alen := zlen astr in
  let blen := zlen bstr in
  let minlen := Z.to_nat (if alen <? blen then alen else blen) in
  let cmp := memcmp (take minlen astr) (take minlen bstr) in
  if cmp =? 0 then s32 (alen - blen) else cmp.

(** ** Nodes *)

Definition ZSKIPLIST_MAXLEVEL : nat := 32.

Record zskiplistNode := mkNode {
  obj : option bytes;
  score : double;
  backward : option nat;
  level : list (option nat * Z)
}.

(** The level of a list, between 1 and 32, is a natural number. *)
Record zskiplist := mkZsl {
  heap : gmap nat zskiplistNode;
  header : nat;
  tail : option nat;
  length_ : Z;
  level_ : nat
}.

Definition set_level (l : list (option nat * Z)) (n : zskiplistNode) : zskiplistNode := mkNode (obj n) (score n) (backward n) l.
Definition set_backward (b : option nat) (n : zskiplistNode) : zskiplistNode := mkNode (obj n) (score n) b (level n).
Definition set_heap (h : gmap nat zskiplistNode) (zsl : zskiplist) : zskiplist := mkZsl h (header zsl) (tail zsl) (length_ zsl) (level_ zsl).
Definition set_tail (t : option nat) (zsl : zskiplist) : zskiplist := mkZsl (heap zsl) (header zsl) t (length_ zsl) (level_ zsl).
Definition set_length (n : Z) (zsl : zskiplist) : zskiplist := mkZsl (heap zsl) (header zsl) (tail zsl) n (level_ zsl).
Definition set_level_ (k : nat) (zsl : zskiplist) : zskiplist := mkZsl (heap zsl) (header zsl) (tail zsl) (length_ zsl) k.

(** [x->level[i]], its forward pointer and its span; and an assignment to it. *)
Definition lev (h : gmap nat zskiplistNode) (x i : nat) : option (option nat * Z) := n ← h !! x; level n !! i.

Definition set_lev (h : gmap nat zskiplistNode) (x i : nat) (v : option nat * Z) : option (gmap nat zskiplistNode) :=
  n ← h !! x;
  _ ← level n !! i;
  Some (<[x := set_level (<[i := v]> (level n)) n]> h).

(** [x->backward = b]. *)
Definition set_back (h : gmap nat zskiplistNode) (x : nat) (b : option nat) : option (gmap nat zskiplistNode) :=
  n ← h !! x; Some (<[x := set_backward b n]> h).

Section skiplist.
(** Memory that is not initialised. *)
Context (junk : option nat * Z).

Definition zslCreateNode (lvl : nat) (sc : double) (o : option bytes) : zskiplistNode := mkNode o sc junk.1 (replicate lvl junk).

(** [hd] is the address that is allocated. *)
Definition zslCreate (hd : nat) : zskiplist :=
  let node := zslCreateNode ZSKIPLIST_MAXLEVEL (Fin 0) None in
  let node := set_level (map (fun _ => (None, 0)) (level node)) node in
  let node := set_backward None node in
  mkZsl {[hd := node]} hd None 0 1.

Definition zslFreeNode (h : gmap nat zskiplistNode) (node : nat) : gmap nat zskiplistNode := delete node h.

(** The loop of [zslFree]. *)
Fixpoint free_nodes (fuel : nat) (h : gmap nat zskiplistNode) (node : option nat) : option (gmap nat zskiplistNode) :=
  match fuel, node with
  | _, None => Some h
  | O, _ => None
  | S fuel, Some x => '(next, _) ← lev h x 0; free_nodes fuel (zslFreeNode h x) next
  end.

(** What is left of the nodes. *)
Definition zslFree (zsl : zskiplist) : option (gmap nat zskiplistNode) :=
  '(node, _) ← lev (heap zsl) (header zsl) 0;
  free_nodes (S (base.size (heap zsl))) (delete (header zsl) (heap zsl)) node.

(** [random()] is a stream of numbers, [None] when it is too short. *)
Fixpoint random_level (rnd : list Z) (lvl : Z) : option Z :=
  match rnd with
  | [] => None
  | r :: rnd => if Z.land r 65535 * 4 <? 65535 then random_level rnd (s32 (lvl + 1)) else Some lvl
  end.

Definition zslRandomLevel (rnd : list Z) : option nat :=
  lvl ← random_level rnd 1;
  Some (if lvl <? Z.of_nat ZSKIPLIST_MAXLEVEL then Z.to_nat lvl else ZSKIPLIST_MAXLEVEL).

(** ** The search *)

(** The loop of every search on level [i]: [while (x->level[i].forward && ...)]. The test
    is on the next node and the rank it would have. *)
Fixpoint forward_while (w : Z) (test : Z -> zskiplistNode -> bool) (fuel : nat) (h : gmap nat zskiplistNode) (i x : nat) (rank : Z)
  : option (nat * Z) :=
  match fuel with
  | O => None
  | S fuel =>
      '(fwd, span) ← lev h x i;
      match fwd with
      | None => Some (x, rank)
      | Some y =>
          n ← h !! y;
          if test (uwrap w (rank + span)) n then forward_while w test fuel h i y (uwrap w (rank + span))
          else Some (x, rank)
      end
  end.

(** The loop over the levels, from [i - 1] down: the arrays [update] and [rank]. *)
Fixpoint descend (w : Z) (test : Z -> zskiplistNode -> bool) (fuel : nat) (h : gmap nat zskiplistNode) (i x : nat) (rank : Z)
  : option (list (nat * Z)) :=
  match i with
  | O => Some []
  | S i =>
      '(x, rank) ← forward_while w test fuel h i x rank;
      rest ← descend w test fuel h i x rank;
      Some (rest ++ [(x, rank)])
  end.

Definition search (w : Z) (test : Z -> zskiplistNode -> bool) (zsl : zskiplist) : option (list (nat * Z)) :=
  descend w test (S (base.size (heap zsl))) (heap zsl) (level_ zsl) (header zsl) 0.

(** The test of an insertion and of a deletion. *)
Definition before_elt (sc : double) (o : bytes) (n : zskiplistNode) : bool :=
  dlt (score n) sc || (deq (score n) sc && match obj n with Some x => compareDecoded x o <? 0 | None => false end).

(** ** Insertion *)

(** [for (i = zsl->level; i < level; i++)]: [k] turns, from level [i]. *)
Fixpoint grow_levels (k i : nat) (h : gmap nat zskiplistNode) (hd : nat) (len : Z) : option (gmap nat zskiplistNode) :=
  match k with
  | O => Some h
  | S k =>
      '(f, _) ← lev h hd i;
      h ← set_lev h hd i (f, u32 len);
      grow_levels k (S i) h hd len
  end.

(** [for (i = 0; i < level; i++)]. *)
Fixpoint insert_levels (i : nat) (ur : list (nat * Z)) (h : gmap nat zskiplistNode) (x : nat) (rank0 : Z) : option (gmap nat zskiplistNode) :=
  match ur with
  | [] => Some h
  | (u, r) :: ur =>
      '(f, s) ← lev h u i;
      h ← set_lev h x i (f, u32 (s - u32 (rank0 - r)));
      h ← set_lev h u i (Some x, u32 (u32 (rank0 - r) + 1));
      insert_levels (S i) ur h x rank0
  end.

(** [for (i = level; i < zsl->level; i++)]. *)
Fixpoint touch_levels (i : nat) (ur : list (nat * Z)) (h : gmap nat zskiplistNode) : option (gmap nat zskiplistNode) :=
  match ur with
  | [] => Some h
  | (u, _) :: ur =>
      '(f, s) ← lev h u i;
      h ← set_lev h u i (f, u32 (s + 1));
      touch_levels (S i) ur h
  end.

(** A node of [lvl] levels is made and linked; [x] is the address that is allocated. *)
Definition insert_node (x lvl : nat) (sc : double) (o : bytes) (ur : list (nat * Z)) (zsl : zskiplist) : option zskiplist :=
  _ ← (if decide (heap zsl !! x = None) then Some tt else None);
  let h := <[x := zslCreateNode lvl sc (Some o)]> (heap zsl) in
  '(update0, rank0) ← head ur;
  h ← insert_levels 0 (take lvl ur) h x rank0;
  h ← touch_levels lvl (drop lvl ur) h;
  h ← set_back h x (if (update0 =? header zsl)%nat then None else Some update0);
  '(f, _) ← lev h x 0;
  zsl ← match f with
        | Some y => h ← set_back h y (Some x); Some (set_heap h zsl)
        | None => Some (set_tail (Some x) (set_heap h zsl))
        end;
  Some (set_length (u64 (length_ zsl + 1)) zsl).

Definition zslInsert (rnd : list Z) (x : nat) (zsl : zskiplist) (sc : double) (o : bytes) : option zskiplist :=
  if isnan sc then None
  else
    ur ← search 32 (fun _ => before_elt sc o) zsl;
    lvl ← zslRandomLevel rnd;
    '(zsl, ur) ← (if (level_ zsl <? lvl)%nat then
                    h ← grow_levels (lvl - level_ zsl) (level_ zsl) (heap zsl) (header zsl) (length_ zsl);
                    Some (set_level_ lvl (set_heap h zsl), ur ++ replicate (lvl - level_ zsl) (header zsl, 0))
                  else Some (zsl, ur));
    insert_node x lvl sc o ur zsl.

(** ** Deletion *)

(** [for (i = 0; i < zsl->level; i++)]: [k] turns, from level [i]. *)
Fixpoint unlink_levels (k i : nat) (update : list nat) (h : gmap nat zskiplistNode) (x : nat) : option (gmap nat zskiplistNode) :=
  match k with
  | O => Some h
  | S k =>
      u ← update !! i;
      '(f, s) ← lev h u i;
      h ← (if decide (f = Some x) then
             '(xf, xs) ← lev h x i;
             set_lev h u i (xf, u32 (s + u32 (xs - 1)))
           else set_lev h u i (f, u32 (s - 1)));
      unlink_levels k (S i) update h x
  end.

(** [while(zsl->level > 1 && zsl->header->level[zsl->level-1].forward == NULL)]. *)
Fixpoint lower_level (k : nat) (h : gmap nat zskiplistNode) (hd : nat) : option nat :=
  match k with
  | S (S _ as k') =>
      '(f, _) ← lev h hd k';
      match f with None => lower_level k' h hd | Some _ => Some k end
  | _ => Some k
  end.

Definition zslDeleteNode (zsl : zskiplist) (x : nat) (update : list nat) : option zskiplist :=
  h ← unlink_levels (level_ zsl) 0 update (heap zsl) x;
  '(f, _) ← lev h x 0;
  n ← h !! x;
  zsl ← match f with
        | Some y => h ← set_back h y (backward n); Some (set_heap h zsl)
        | None => Some (set_tail (backward n) (set_heap h zsl))
        end;
  k ← lower_level (level_ zsl) (heap zsl) (header zsl);
  Some (set_length (u64 (length_ zsl - 1)) (set_level_ k zsl)).

(** The node that follows the last one of a search. *)
Definition after (h : gmap nat zskiplistNode) (ur : list (nat * Z)) : option (option nat) :=
  '(x, _) ← head ur;
  fst <$> lev h x 0.

Definition zslDelete (zsl : zskiplist) (sc : double) (o : bytes) : option (zskiplist * bool) :=
  ur ← search 64 (fun _ => before_elt sc o) zsl;
  x ← after (heap zsl) ur;
  match x with
  | None => Some (zsl, false)
  | Some x =>
      n ← heap zsl !! x;
      xo ← obj n;
      if deq sc (score n) && (compareDecoded xo o =? 0) then
        zsl ← zslDeleteNode zsl x (map fst ur);
        Some (set_heap (zslFreeNode (heap zsl) x) zsl, true)
      else Some (zsl, false)
  end.

(** ** Ranges *)

Record zrangespec := mkRange { min_ : double; max_ : double; minex : bool; maxex : bool }.

Definition zslValueGteMin (value : double) (spec : zrangespec) : bool :=
  if minex spec then dlt (min_ spec) value else dle (min_ spec) value.

Definition zslValueLteMax (value : double) (spec : zrangespec) : bool :=
  if maxex spec then dlt value (max_ spec) else dle value (max_ spec).

(** The range of [zrangespec] and that of [zlexrangespec] are searched in the same way:
    a test for each end, and a test for a range that is empty. *)
Record range := mkSearch {
  gte_min : zskiplistNode -> bool;
  lte_max : zskiplistNode -> bool;
  never : bool
}.

Definition score_range (r : zrangespec) : range :=
  mkSearch (fun n => zslValueGteMin (score n) r) (fun n => zslValueLteMax (score n) r)
    (dlt (max_ r) (min_ r) || (deq (min_ r) (max_ r) && (minex r || maxex r))).

(** An end of a range of strings: the shared objects [minstring] and [maxstring], or a
    string. *)
Inductive lexbound := MinString | MaxString | Str (s : bytes).

Record zlexrangespec := mkLex { lmin : lexbound; lmax : lexbound; lminex : bool; lmaxex : bool }.

Definition compareStringObjectsForLexRange (a b : lexbound) : Z :=
  match a, b with
  | MinString, MinString | MaxString, MaxString => 0
  | MinString, _ | _, MaxString => -1
  | MaxString, _ | _, MinString => 1
  | Str a, Str b => compareDecoded a b
  end.

Definition zslLexValueGteMin (value : bytes) (spec : zlexrangespec) : bool :=
  if lminex spec then compareStringObjectsForLexRange (Str value) (lmin spec) >? 0
  else compareStringObjectsForLexRange (Str value) (lmin spec) >=? 0.

Definition zslLexValueLteMax (value : bytes) (spec : zlexrangespec) : bool :=
  if lmaxex spec then compareStringObjectsForLexRange (Str value) (lmax spec) <? 0
  else compareStringObjectsForLexRange (Str value) (lmax spec) <=? 0.

(** The bytes of the shared objects, which [compareStringObjects] reads. *)
Definition bound_bytes (b : lexbound) : bytes :=
  match b with MinString => zs "minstring" | MaxString => zs "maxstring" | Str s => s end.

Definition lex_range (r : zlexrangespec) : range :=
  mkSearch (fun n => match obj n with Some o => zslLexValueGteMin o r | None => false end)
    (fun n => match obj n with Some o => zslLexValueLteMax o r | None => false end)
    ((compareStringObjectsForLexRange (lmin r) (lmax r) >? 1) ||
     ((compareDecoded (bound_bytes (lmin r)) (bound_bytes (lmax r)) =? 0) && (lminex r || lmaxex r))).

(** The body of [zslIsInRange] and [zslIsInLexRange]. *)
Definition is_in_range (zsl : zskiplist) (r : range) : option bool :=
  if never r then Some false
  else
    match tail zsl with
    | None => Some false
    | Some x =>
        n ← heap zsl !! x;
        if negb (gte_min r n) then Some false
        else
          '(f, _) ← lev (heap zsl) (header zsl) 0;
          match f with
          | None => Some false
          | Some y => n ← heap zsl !! y; Some (lte_max r n)
          end
    end.

(** The body of [zslFirstInRange] and [zslFirstInLexRange]. *)
Definition first_in_range (zsl : zskiplist) (r : range) : option (option nat) :=
  b ← is_in_range zsl r;
  if negb b then Some None
  else
    ur ← search 64 (fun _ n => negb (gte_min r n)) zsl;
    x ← after (heap zsl) ur;
    x ← x;
    n ← heap zsl !! x;
    Some (if negb (lte_max r n) then None else Some x).

(** The body of [zslLastInRange] and [zslLastInLexRange]. *)
Definition last_in_range (zsl : zskiplist) (r : range) : option (option nat) :=
  b ← is_in_range zsl r;
  if negb b then Some None
  else
    ur ← search 64 (fun _ => lte_max r) zsl;
    '(x, _) ← head ur;
    n ← heap zsl !! x;
    Some (if negb (gte_min r n) then None else Some x).

Definition zslIsInRange (zsl : zskiplist) (r : zrangespec) : option bool := is_in_range zsl (score_range r).
Definition zslFirstInRange (zsl : zskiplist) (r : zrangespec) : option (option nat) := first_in_range zsl (score_range r).
Definition zslLastInRange (zsl : zskiplist) (r : zrangespec) : option (option nat) := last_in_range zsl (score_range r).
Definition zslIsInLexRange (zsl : zskiplist) (r : zlexrangespec) : option bool := is_in_range zsl (lex_range r).
Definition zslFirstInLexRange (zsl : zskiplist) (r : zlexrangespec) : option (option nat) := first_in_range zsl (lex_range r).
Definition zslLastInLexRange (zsl : zskiplist) (r : zlexrangespec) : option (option nat) := last_in_range zsl (lex_range r).

(** *** Deletion of ranges *)

Section with_dict.
Context (hash : bytes -> Z).

(** The loop that deletes; the test is on the node and on the number of turns. *)
Fixpoint delete_while (test : Z -> zskiplistNode -> bool) (fuel : nat) (zsl : zskiplist) (update : list nat) (x : option nat) (d : dict bytes nat)
    (removed : Z) : option (zskiplist * dict bytes nat * Z) :=
  match fuel with
  | O => None
  | S fuel =>
      match x with
      | None => Some (zsl, d, removed)
      | Some x =>
          n ← heap zsl !! x;
          if test removed n then
            '(next, _) ← lev (heap zsl) x 0;
            zsl ← zslDeleteNode zsl x update;
            o ← obj n;
            '(d, _, _) ← dictDelete hash d o;
            delete_while test fuel (set_heap (zslFreeNode (heap zsl) x) zsl) update next d (u64 (removed + 1))
          else Some (zsl, d, removed)
      end
  end.

Definition delete_from (before : Z -> zskiplistNode -> bool) (test : Z -> Z -> zskiplistNode -> bool) (zsl : zskiplist) (d : dict bytes nat)
  : option (zskiplist * dict bytes nat * Z) :=
  ur ← search 64 before zsl;
  '(_, traversed) ← head ur;
  x ← after (heap zsl) ur;
  delete_while (test traversed) (S (base.size (heap zsl))) zsl (map fst ur) x d 0.

Definition zslDeleteRangeByScore (zsl : zskiplist) (r : zrangespec) (d : dict bytes nat) : option (zskiplist * dict bytes nat * Z) :=
  delete_from (fun _ n => if minex r then dle (score n) (min_ r) else dlt (score n) (min_ r))
    (fun _ _ n => if maxex r then dlt (score n) (max_ r) else dle (score n) (max_ r)) zsl d.

Definition zslDeleteRangeByLex (zsl : zskiplist) (r : zlexrangespec) (d : dict bytes nat) : option (zskiplist * dict bytes nat * Z) :=
  delete_from (fun _ n => negb (gte_min (lex_range r) n)) (fun _ _ => lte_max (lex_range r)) zsl d.

(** [start] and [end_] are unsigned ints; [traversed] counts the nodes from 1. *)
Definition zslDeleteRangeByRank (zsl : zskiplist) (start end_ : Z) (d : dict bytes nat) : option (zskiplist * dict bytes nat * Z) :=
  delete_from (fun rank _ => rank <? start)
    (fun traversed removed _ => u64 (u64 (traversed + 1) + removed) <=? end_) zsl d.
End with_dict.

(** ** Ranks *)

Fixpoint rank_levels (test : zskiplistNode -> bool) (o : bytes) (fuel : nat) (h : gmap nat zskiplistNode) (i x : nat) (rank : Z) : option Z :=
  match i with
  | O => Some 0
  | S i =>
      '(x, rank) ← forward_while 64 (fun _ => test) fuel h i x rank;
      n ← h !! x;
      if match obj n with Some xo => compareDecoded xo o =? 0 | None => false end then Some rank
      else rank_levels test o fuel h i x rank
  end.

Definition upto_elt (sc : double) (o : bytes) (n : zskiplistNode) : bool :=
  dlt (score n) sc || (deq (score n) sc && match obj n with Some x => compareDecoded x o <=? 0 | None => false end).

Definition zslGetRank (zsl : zskiplist) (sc : double) (o : bytes) : option Z :=
  rank_levels (upto_elt sc o) o (S (base.size (heap zsl))) (heap zsl) (level_ zsl) (header zsl) 0.

Fixpoint element_levels (rank : Z) (fuel : nat) (h : gmap nat zskiplistNode) (i x : nat) (traversed : Z) : option (option nat) :=
  match i with
  | O => Some None
  | S i =>
      '(x, traversed) ← forward_while 64 (fun r _ => r <=? rank) fuel h i x traversed;
      if traversed =? rank then Some (Some x) else element_levels rank fuel h i x traversed
  end.

Definition zslGetElementByRank (zsl : zskiplist) (rank : Z) : option (option nat) :=
  element_levels rank (S (base.size (heap zsl))) (heap zsl) (level_ zsl) (header zsl) 0.

(** ** The arguments of a range of strings *)

(** The item, its terminator included; [None] inside is [REDIS_ERR]. *)
Definition zslParseLexRangeItem (item : bytes) : option (lexbound * bool) :=
  match item with
  | c :: rest =>
      if c =? 43 then match rest with [] => Some (MaxString, false) | d :: _ => if d =? 0 then Some (MaxString, false) else None end
      else if c =? 45 then match rest with [] => Some (MinString, false) | d :: _ => if d =? 0 then Some (MinString, false) else None end
      else if c =? 40 then Some (Str rest, true)
      else if c =? 91 then Some (Str rest, false)
      else None
  | [] => None
  end.

(** An argument that is an integer object is refused. *)
Definition zslParseLexRange (min max : robj) : option zlexrangespec :=
  match min, max with
  | StrRaw min, StrRaw max =>
      '(lo, loex) ← zslParseLexRangeItem min;
      '(hi, hiex) ← zslParseLexRangeItem max;
      Some (mkLex lo hi loex hiex)
  | _, _ => None
  end.
End skiplist.
