(* ===== verification/ZskiplistSpec.v ===== *)
(** * Skip lists: the invariant (src/redis-2.8.19/src/t_zset.c)

    What a skip list is: the nodes in order, and for every level the distance to the
    next node that is that high. Insertion and deletion keep it; the search finds the
    last node before a position on every level. *)
From S2P Require Import Prelude Util Sds Object Dict Zskiplist.
Open Scope Z_scope.

(** ** What a store holds *)

(** Everything of a node but the contents of its levels. *)
Definition info (h : gmap nat zskiplistNode) (a : nat) : option (option bytes * double * option nat * nat) :=
  n ← h !! a; Some (obj n, score n, backward n, length (level n)).

Definition height (h : gmap nat zskiplistNode) (a : nat) : nat :=
  match h !! a with Some n => length (level n) | None => 0 end.

Lemma lev_height h a i : is_Some (lev h a i) <-> (i < height h a)%nat.
Proof.
  unfold lev, height. destruct (h !! a) as [n|]; cbn [mbind option_bind]; [apply lookup_lt_is_Some|].
  split; [by intros [? ?]|lia].
Qed.

Lemma info_height h a o s b k : info h a = Some (o, s, b, k) -> height h a = k.
Proof. unfold info, height. destruct (h !! a); [|done]. by intros [= _ _ _ <-]. Qed.

Lemma height_info h h' a : info h' a = info h a -> height h' a = height h a.
Proof. unfold info, height. destruct (h !! a), (h' !! a); cbn; congruence. Qed.

Lemma info_node h a o s b k : info h a = Some (o, s, b, k) -> exists n, h !! a = Some n /\ obj n = o /\ score n = s /\ backward n = b /\ length (level n) = k.
Proof. unfold info. intros (n & Hn & [= <- <- <- <-])%bind_Some. by exists n. Qed.

Lemma set_lev_ok h a i v : is_Some (lev h a i) -> exists h', set_lev h a i v = Some h' /\ (forall b, info h' b = info h b) /\
  forall b j, lev h' b j = if decide (b = a /\ j = i) then Some v else lev h b j.
Proof.
  intros [w Hw]. unfold lev in Hw. apply bind_Some in Hw as (n & Hn & Hl). unfold set_lev. rewrite Hn. cbn [mbind option_bind]. rewrite Hl. cbn [mbind option_bind].
  eexists. split; [done|]. split.
  - intros b. unfold info. destruct (decide (b = a)) as [->|Hb]; [|by rewrite lookup_insert_ne]. rewrite lookup_insert_eq, Hn. cbn. by rewrite length_insert.
  - intros b j. unfold lev. destruct (decide (b = a)) as [->|Hb]; [|rewrite lookup_insert_ne by done; by rewrite decide_False by naive_solver].
    rewrite lookup_insert_eq, Hn. cbn [mbind option_bind level set_level]. destruct (decide (j = i)) as [->|Hj].
    + rewrite decide_True by done. rewrite list_lookup_insert_eq; [done|]. by eapply lookup_lt_Some.
    + rewrite decide_False by naive_solver. by rewrite list_lookup_insert_ne.
Qed.

Lemma set_back_ok h a b : is_Some (h !! a) -> exists h', set_back h a b = Some h' /\ (forall x j, lev h' x j = lev h x j) /\
  forall x, info h' x = if decide (x = a) then (fun '(o, s, _, k) => (o, s, b, k)) <$> info h a else info h x.
Proof.
  intros [n Hn]. unfold set_back. rewrite Hn. cbn [mbind option_bind]. eexists. split; [done|]. split.
  - intros x j. unfold lev. destruct (decide (x = a)) as [->|]; [|by rewrite lookup_insert_ne]. by rewrite lookup_insert_eq, Hn.
  - intros x. unfold info. destruct (decide (x = a)) as [->|]; [|by rewrite lookup_insert_ne]. by rewrite lookup_insert_eq, Hn.
Qed.

Lemma lookup_info h a : is_Some (h !! a) <-> is_Some (info h a).
Proof. unfold info. destruct (h !! a); cbn; split; intros [? ?]; eauto; done. Qed.

(** ** The next node that is high enough *)

(** The next one, or null, and how far it is, or how many nodes follow. *)
Fixpoint next (ht : nat -> nat) (i : nat) (rest : list nat) : option nat * Z :=
  match rest with
  | [] => (None, 0)
  | b :: r => if (i <? ht b)%nat then (Some b, 1) else let '(f, s) := next ht i r in (f, s + 1)
  end.

Section next.
Context (ht : nat -> nat) (i : nat).
Abbreviation low := (Forall (fun a => (ht a <= i)%nat)).

Lemma next_low r1 r2 : low r1 -> next ht i (r1 ++ r2) = ((next ht i r2).1, zlen r1 + (next ht i r2).2).
Proof.
  induction 1 as [|a r Ha _ IH]; [cbn [app]; destruct (next ht i r2); cbn [fst snd]; change (zlen (@nil nat)) with 0; f_equal; lia|]. cbn [app next]. rewrite (proj2 (Nat.ltb_ge _ _) Ha), IH, zlen_cons. f_equal. lia.
Qed.

Lemma next_hit r1 y r2 : low r1 -> (i < ht y)%nat -> next ht i (r1 ++ y :: r2) = (Some y, zlen r1 + 1).
Proof. intros Hl Hy. rewrite next_low by done. cbn [next]. by rewrite (proj2 (Nat.ltb_lt _ _) Hy). Qed.

Lemma next_none r : low r -> next ht i r = (None, zlen r).
Proof. intros Hl. rewrite <- (app_nil_r r) at 1. rewrite next_low by done. cbn. f_equal. lia. Qed.

Lemma low_or_hit r : low r \/ exists r1 y r2, r = r1 ++ y :: r2 /\ low r1 /\ (i < ht y)%nat.
Proof.
  induction r as [|a r IH]; [by left|]. destruct (decide (ht a <= i)%nat) as [Ha|Ha]; [|right; exists [], a, r; split; [done|split; [done|lia]]].
  destruct IH as [IH|(r1 & y & r2 & -> & Hl & Hy)]; [left; by constructor|]. right. exists (a :: r1), y, r2. by split_and!; [|constructor|].
Qed.

Lemma next_app r1 r2 : Exists (fun a => (i < ht a)%nat) r1 -> next ht i (r1 ++ r2) = next ht i r1.
Proof.
  intros He. destruct (low_or_hit r1) as [Hl|(u & y & v & -> & Hl & Hy)].
  - exfalso. apply Exists_exists in He as (a & Ha & Hlt). rewrite Forall_forall in Hl. specialize (Hl a Ha). lia.
  - rewrite <- app_assoc. cbn [app]. by rewrite !next_hit.
Qed.

Lemma next_bounds r : 0 <= (next ht i r).2 <= zlen r.
Proof. induction r as [|a r IH]; cbn [next]; [done|]. rewrite zlen_cons. destruct (_ <? _)%nat; cbn; [pose proof (zlen_nonneg r); lia|]. destruct (next ht i r). cbn in *. lia. Qed.

Lemma next_in r y : (next ht i r).1 = Some y -> y ∈ r /\ (i < ht y)%nat.
Proof.
  induction r as [|a r IH]; cbn [next]; [done|]. destruct (Nat.ltb_spec i (ht a)); cbn; [intros [= ->]; split; [by left|done]|].
  destruct (next ht i r). cbn in *. intros Hy. destruct (IH Hy). split; [by right|done].
Qed.
End next.

Lemma next_ext ht ht' i r : Forall (fun a => ht' a = ht a) r -> next ht' i r = next ht i r.
Proof. induction 1 as [|a r Ha _ IH]; [done|]. cbn [next]. by rewrite Ha, IH. Qed.

(** ** The invariant *)

(** An element: its node, its score and its object. *)
Abbreviation elt := (nat * (double * bytes))%type.

Definition nodes (zsl : zskiplist) (l : list elt) : list nat := header zsl :: l.*1.

Lemma nodes_S zsl l i : nodes zsl l !! S i = fst <$> l !! i.
Proof. apply list_lookup_fmap. Qed.

Record zsl_ok (zsl : zskiplist) (l : list elt) : Prop := {
  zo_nodup : NoDup (nodes zsl l);
  zo_dom : forall a, is_Some (heap zsl !! a) <-> a ∈ nodes zsl l;
  zo_header : exists s, info (heap zsl) (header zsl) = Some (None, s, None, ZSKIPLIST_MAXLEVEL);
  zo_top : forall i, (level_ zsl <= i < ZSKIPLIST_MAXLEVEL)%nat -> fst <$> lev (heap zsl) (header zsl) i = Some None;
  zo_nodes : forall k a s o, l !! k = Some (a, (s, o)) -> exists ht,
    info (heap zsl) a = Some (Some o, s, match k with O => None | S k => fst <$> l !! k end, ht) /\ (1 <= ht <= level_ zsl)%nat;
  zo_links : forall k a i, nodes zsl l !! k = Some a -> (i < height (heap zsl) a)%nat -> (i < level_ zsl)%nat ->
    lev (heap zsl) a i = Some (next (height (heap zsl)) i (drop (S k) (nodes zsl l)));
  zo_tail : tail zsl = fst <$> last l;
  zo_length : length_ zsl = zlen l;
  zo_level : (1 <= level_ zsl <= ZSKIPLIST_MAXLEVEL)%nat;
  zo_few : zlen l < 2 ^ 31
}.

(** No level is kept that no node has. *)
Definition tight (zsl : zskiplist) (l : list elt) : Prop :=
  level_ zsl = 1%nat \/ exists a, a ∈ l.*1 /\ height (heap zsl) a = level_ zsl.

Section ok.
Context (zsl : zskiplist) (l : list elt) (Hok : zsl_ok zsl l).
Abbreviation h := (heap zsl).
Abbreviation ns := (nodes zsl l).
Abbreviation ht := (height (heap zsl)).

Lemma ok_size : base.size h = S (length l).
Proof using Hok.
  assert (dom h = list_to_set ns) as Hd.
  { apply set_eq. intros a. rewrite elem_of_dom, elem_of_list_to_set. apply Hok. }
  rewrite <- size_dom, Hd, size_list_to_set by apply Hok. unfold nodes. cbn. by rewrite length_fmap.
Qed.

Lemma ok_ns_length : length ns = S (length l).
Proof using Type. unfold nodes. cbn. by rewrite length_fmap. Qed.

Lemma ok_header_height : ht (header zsl) = ZSKIPLIST_MAXLEVEL.
Proof using Hok. destruct (zo_header _ _ Hok) as [s Hs]. by eapply info_height. Qed.

Lemma ok_node_height k a : ns !! S k = Some a -> (1 <= ht a <= level_ zsl)%nat.
Proof using Hok.
  unfold nodes. cbn [lookup list_lookup]. intros Ha. apply list_lookup_fmap_Some in Ha as ([b [s o]] & -> & Hl).
  destruct (zo_nodes _ _ Hok _ _ _ _ Hl) as (x & Hi & Hx). cbn [fst]. by rewrite (info_height _ _ _ _ _ _ Hi).
Qed.

Lemma ok_height k a : ns !! k = Some a -> (1 <= ht a)%nat.
Proof using Hok.
  destruct k as [|k]; [|intros Ha; apply (ok_node_height k a Ha)]. intros [= <-]. rewrite ok_header_height. unfold ZSKIPLIST_MAXLEVEL. lia.
Qed.

Lemma ok_header_high i : (i < level_ zsl)%nat -> (i < ht (header zsl))%nat.
Proof using Hok. rewrite ok_header_height. pose proof (zo_level _ _ Hok). lia. Qed.

(** ** The search *)

(** [q] is the last position up to [p] whose node is higher than [i]. *)
Definition last_high (i p q : nat) : Prop :=
  (q <= p)%nat /\ (exists a, ns !! q = Some a /\ (i < ht a)%nat) /\
  forall j a, (q < j <= p)%nat -> ns !! j = Some a -> (ht a <= i)%nat.

Lemma last_high_low i p q : last_high i p q -> Forall (fun a => (ht a <= i)%nat) (take (p - q) (drop (S q) ns)).
Proof using Type.
  intros (_ & _ & Hlow). apply Forall_lookup. intros j a Ha. apply lookup_take_Some in Ha as [Ha Hj]. rewrite lookup_drop in Ha.
  apply (Hlow (S q + j)%nat); [lia|done].
Qed.

Lemma last_high_unique i p q q' : last_high i p q -> last_high i p q' -> q = q'.
Proof using Type.
  intros (H1 & (a & Ha & Hha) & H2) (H1' & (a' & Ha' & Hha') & H2').
  destruct (Nat.lt_trichotomy q q') as [Hlt|[|Hlt]]; [|done|]; [specialize (H2 q' a' ltac:(lia) Ha')|specialize (H2' q a ltac:(lia) Ha)]; lia.
Qed.

Lemma last_high_0 p a : ns !! p = Some a -> last_high 0 p p.
Proof using Hok. intros Ha. split; [done|]. split; [exists a; split; [done|]; pose proof (ok_height p a Ha); lia|]. intros j b Hj. lia. Qed.

(** A test that holds up to position [p] exactly. *)
Definition test_at (test : Z -> zskiplistNode -> bool) (p : nat) : Prop :=
  (p <= length l)%nat /\
  forall q a n, ns !! S q = Some a -> h !! a = Some n -> test (Z.of_nat (S q)) n = bool_decide (S q <= p)%nat.

Lemma ns_at k : (k <= length l)%nat -> exists a, ns !! k = Some a /\ is_Some (h !! a).
Proof using Hok.
  intros Hk. destruct (lookup_lt_is_Some_2 ns k) as [a Ha]; [rewrite ok_ns_length; lia|]. exists a. split; [done|].
  apply (zo_dom _ _ Hok). by eapply list_elem_of_lookup_2.
Qed.

Lemma walk w test p i fuel : 32 <= w -> test_at test p -> (i < level_ zsl)%nat -> forall x q, ns !! q = Some x -> (i < ht x)%nat -> (q <= p)%nat -> (p - q < fuel)%nat ->
  exists y q', forward_while w test fuel h i x (Z.of_nat q) = Some (y, Z.of_nat q') /\ ns !! q' = Some y /\ (q <= q')%nat /\ last_high i p q'.
Proof using Hok.
  intros Hw [Hp Htest] Hi. assert (2 ^ 32 <= 2 ^ w) as Hpow by (apply Z.pow_le_mono_r; lia). pose proof (zo_few _ _ Hok) as Hfew. unfold zlen in Hfew.
  induction fuel as [|fuel IH]; intros x q Hx Hhx Hq Hf; [lia|]. cbn [forward_while].
  rewrite (zo_links _ _ Hok q x i Hx Hhx Hi). destruct (low_or_hit ht i (drop (S q) ns)) as [Hlow|(r1 & y & r2 & Heq & Hlow & Hy)].
  - rewrite next_none by done. cbn [mbind option_bind]. exists x, q. split; [done|]. split; [done|]. split; [done|]. split; [done|]. split; [by exists x|].
    intros j a Hj Ha. rewrite Forall_lookup in Hlow. apply (Hlow (j - S q)%nat). rewrite lookup_drop. by replace (S q + (j - S q))%nat with j by lia.
  - rewrite Heq, next_hit by done. cbn [mbind option_bind].
    assert (ns !! (S q + length r1)%nat = Some y) as Hat.
    { rewrite <- lookup_drop, Heq. by apply list_lookup_middle. }
    assert (S q + length r1 <= length l)%nat as Hlen by (apply lookup_lt_Some in Hat; rewrite ok_ns_length in Hat; lia).
    destruct (zo_dom _ _ Hok y) as [_ Hdom]. destruct Hdom as [n Hn]; [by eapply list_elem_of_lookup_2|]. rewrite Hn. cbn [mbind option_bind].
    assert (uwrap w (Z.of_nat q + (zlen r1 + 1)) = Z.of_nat (S (q + length r1))) as Hr by (unfold zlen; rewrite uwrap_small by lia; lia).
    rewrite Hr. rewrite (Htest (q + length r1)%nat y n) by (done || by replace (S (q + length r1)) with (S q + length r1)%nat by lia).
    destruct (bool_decide_reflect (S (q + length r1) <= p)%nat) as [Hle|Hgt].
    + destruct (IH y (S (q + length r1))) as (y' & q' & Hrun & Hy' & Hqq & Hlh); [by replace (S (q + length r1)) with (S q + length r1)%nat by lia|done|done|lia|].
      exists y', q'. split; [exact Hrun|]. split; [done|]. split; [lia|done].
    + exists x, q. split; [done|]. split; [done|]. split; [done|]. split; [done|]. split; [by exists x|].
      intros j a Hj Ha. rewrite Forall_lookup in Hlow. apply (Hlow (j - S q)%nat).
      assert (drop (S q) ns !! (j - S q)%nat = Some a) as Ha' by (rewrite lookup_drop; by replace (S q + (j - S q))%nat with j by lia).
      rewrite Heq, lookup_app_l in Ha' by lia. done.
Qed.

(** The arrays [update] and [rank] of a search that stops after position [p]. *)
Definition stops (ur : list (nat * Z)) (p : nat) : Prop :=
  forall j u r, ur !! j = Some (u, r) -> exists q, r = Z.of_nat q /\ ns !! q = Some u /\ last_high j p q.

Lemma descend_ok w test p fuel : 32 <= w -> test_at test p -> (p < fuel)%nat -> forall i x q, (i <= level_ zsl)%nat -> ns !! q = Some x -> (q <= p)%nat ->
  (forall j, (j < i)%nat -> (j < ht x)%nat) ->
  exists ur, descend w test fuel h i x (Z.of_nat q) = Some ur /\ length ur = i /\ stops ur p.
Proof using Hok.
  intros Hw Ht Hf. induction i as [|i IH]; intros x q Hi Hx Hq Hh; cbn [descend]; [exists []; split; [done|split; [done|by intros j u r]]|].
  destruct (walk w test p i fuel Hw Ht ltac:(lia) x q Hx (Hh i ltac:(lia)) Hq ltac:(lia)) as (y & q' & -> & Hy & Hqq & Hlh). cbn [mbind option_bind].
  destruct Hlh as (Hqp & (a & Ha & Hha) & Hlow). assert (a = y) as -> by congruence.
  destruct (IH y q') as (ur & -> & Hlen & Hst); [lia|done|done|intros j Hj; lia|]. cbn [mbind option_bind].
  eexists. split; [done|]. split; [rewrite length_app; cbn; lia|]. intros j u r Hj. apply lookup_app_Some in Hj as [Hj|[Hge Hj]]; [by apply Hst|].
  assert (j = i) as ->. { destruct (j - length ur)%nat eqn:E; [lia|done]. } rewrite Hlen, Nat.sub_diag in Hj. injection Hj as <- <-. exists q'. split; [done|]. split; [done|].
  split; [done|]. split; [by exists y|done].
Qed.

Lemma search_ok w test p : 32 <= w -> test_at test p -> exists ur, search w test zsl = Some ur /\ length ur = level_ zsl /\ stops ur p.
Proof using Hok.
  intros Hw Ht. unfold search. apply (descend_ok w test p _ Hw Ht) with (q := 0%nat); [rewrite ok_size; destruct Ht; lia|done|done|lia|].
  intros j Hj. by apply ok_header_high.
Qed.

(** The first entry is that of position [p] itself. *)
Lemma stops_head ur p : (p <= length l)%nat -> stops ur p -> (0 < length ur)%nat -> exists u, head ur = Some (u, Z.of_nat p) /\ ns !! p = Some u.
Proof using Hok.
  intros Hp Hs Hlen. destruct ur as [|[u r] ur]; [cbn in Hlen; lia|]. destruct (Hs 0%nat u r eq_refl) as (q & -> & Hu & Hq).
  destruct (ns_at p Hp) as (a & Ha & _). assert (q = p) as -> by (apply (last_high_unique 0 p q p); [done|by eapply last_high_0]).
  exists u. done.
Qed.

Lemma next_0 r : Forall (fun a => (1 <= ht a)%nat) r -> next ht 0 r = (head r, if r is [] then 0 else 1).
Proof using Type. destruct r as [|a r]; [done|]. intros [Ha _]%Forall_cons. cbn [next head]. by rewrite (proj2 (Nat.ltb_lt _ _)) by lia. Qed.

Lemma tail_high k : Forall (fun a => (1 <= ht a)%nat) (drop k ns).
Proof using Hok.
  apply Forall_lookup. intros j a Ha. rewrite lookup_drop in Ha. by eapply ok_height.
Qed.

Lemma lev_0 k a : ns !! k = Some a -> lev h a 0 = Some (ns !! S k, if drop (S k) ns is [] then 0 else 1).
Proof using Hok.
  intros Ha. rewrite (zo_links _ _ Hok k a 0 Ha).
  - rewrite next_0 by apply tail_high. by rewrite head_lookup, lookup_drop, Nat.add_0_r.
  - pose proof (ok_height k a Ha). lia.
  - apply (zo_level _ _ Hok).
Qed.

Lemma after_node_ok ur p : (p <= length l)%nat -> stops ur p -> (0 < length ur)%nat -> after h ur = Some (ns !! S p).
Proof using Hok.
  intros Hp Hs Hlen. destruct (stops_head ur p Hp Hs Hlen) as (u & Hh & Hu). unfold after. rewrite Hh. cbn [mbind option_bind]. by rewrite (lev_0 p u Hu).
Qed.
End ok.
