(* ===== verification/ZskiplistInsert.v ===== *)
(** * Skip lists: insertion (src/redis-2.8.19/src/t_zset.c)

    [zslInsert] puts a node at its place and keeps the invariant, whatever level is
    drawn for it. *)
From S2P Require Import Prelude Util Sds Object Dict Zskiplist ZskiplistSpec.
Open Scope Z_scope.

(** ** The loops *)

Lemma grow_levels_ok k : forall i h hd len, (forall j, (i <= j < i + k)%nat -> exists s, lev h hd j = Some (None, s)) ->
  exists h', grow_levels k i h hd len = Some h' /\ (forall a, info h' a = info h a) /\
    (forall j, (i <= j < i + k)%nat -> lev h' hd j = Some (None, u32 len)) /\
    (forall a j, ~ (a = hd /\ (i <= j < i + k)%nat) -> lev h' a j = lev h a j).
Proof.
  induction k as [|k IH]; intros i h hd len Hl; cbn [grow_levels]; [exists h; split_and!; [done|done|lia|done]|].
  destruct (Hl i ltac:(lia)) as [s Hs]. rewrite Hs. cbn [mbind option_bind].
  destruct (set_lev_ok h hd i (None, u32 len)) as (h1 & -> & Hi1 & Hl1); [by exists (None, s)|]. cbn [mbind option_bind].
  destruct (IH (S i) h1 hd len) as (h' & -> & Hi & Hin & Hout).
  { intros j Hj. rewrite Hl1, decide_False by lia. apply Hl. lia. }
  exists h'. split; [done|]. split; [intros a; by rewrite Hi|]. split.
  - intros j Hj. destruct (decide (j = i)) as [->|]; [|apply Hin; lia]. rewrite Hout by lia. by rewrite Hl1, decide_True.
  - intros a j Hn. rewrite Hout by lia. by rewrite Hl1, decide_False by lia.
Qed.

Lemma insert_levels_ok x rank0 ur : forall i h,
  (forall k u r, ur !! k = Some (u, r) -> u <> x /\ is_Some (lev h u (i + k)) /\ is_Some (lev h x (i + k))) ->
  exists h', insert_levels i ur h x rank0 = Some h' /\ (forall a, info h' a = info h a) /\
    (forall k u r f s, ur !! k = Some (u, r) -> lev h u (i + k) = Some (f, s) ->
       lev h' x (i + k) = Some (f, u32 (s - u32 (rank0 - r))) /\ lev h' u (i + k) = Some (Some x, u32 (u32 (rank0 - r) + 1))) /\
    (forall a j, (forall k u r, ur !! k = Some (u, r) -> j = (i + k)%nat -> a <> x /\ a <> u) -> lev h' a j = lev h a j).
Proof.
  induction ur as [|[u r] ur IH]; intros i h Hl; cbn [insert_levels]; [exists h; by split_and!|].
  destruct (Hl 0%nat u r eq_refl) as (Hux & [[f s] Hu] & Hx). rewrite Nat.add_0_r in *. rewrite Hu. cbn [mbind option_bind].
  destruct (set_lev_ok h x i (f, u32 (s - u32 (rank0 - r)))) as (h1 & -> & Hi1 & Hl1); [done|]. cbn [mbind option_bind].
  destruct (set_lev_ok h1 u i (Some x, u32 (u32 (rank0 - r) + 1))) as (h2 & -> & Hi2 & Hl2); [rewrite Hl1, decide_False by naive_solver; by exists (f, s)|]. cbn [mbind option_bind].
  assert (forall b j, j <> i -> lev h2 b j = lev h b j) as Hlater by (intros b j Hj; by rewrite Hl2, Hl1, !decide_False by naive_solver).
  destruct (IH (S i) h2) as (h' & -> & Hi & Hin & Hout).
  { intros k u' r' Hk. rewrite !Hlater by lia. destruct (Hl (S k) u' r' Hk) as (H1 & H2 & H3). by replace (S i + k)%nat with (i + S k)%nat by lia. }
  exists h'. split; [done|]. split; [intros a; by rewrite Hi, Hi2|]. split.
  - intros [|k] u' r' f' s' Hk Hf; cbn [lookup list_lookup] in Hk.
    + injection Hk as -> ->. rewrite Nat.add_0_r in *. rewrite Hu in Hf. injection Hf as -> ->. rewrite !Hout by (intros; lia).
      rewrite !Hl2, !Hl1. rewrite decide_False, decide_True, decide_True by naive_solver. done.
    + replace (i + S k)%nat with (S i + k)%nat in * by lia. apply (Hin k u' r' f' s' Hk). by rewrite Hlater by lia.
  - intros a j Hn. rewrite Hout; [|intros k u' r' Hk Hj; apply (Hn (S k) u' r' Hk); lia].
    destruct (decide (j = i)) as [->|]; [|by apply Hlater]. destruct (Hn 0%nat u r eq_refl ltac:(lia)) as [Hax Hau].
    by rewrite Hl2, Hl1, !decide_False by naive_solver.
Qed.

Lemma touch_levels_ok ur : forall i h, (forall k u r, ur !! k = Some (u, r) -> is_Some (lev h u (i + k))) ->
  exists h', touch_levels i ur h = Some h' /\ (forall a, info h' a = info h a) /\
    (forall k u r f s, ur !! k = Some (u, r) -> lev h u (i + k) = Some (f, s) -> lev h' u (i + k) = Some (f, u32 (s + 1))) /\
    (forall a j, (forall k u r, ur !! k = Some (u, r) -> j = (i + k)%nat -> a <> u) -> lev h' a j = lev h a j).
Proof.
  induction ur as [|[u r] ur IH]; intros i h Hl; cbn [touch_levels]; [exists h; by split_and!|].
  destruct (Hl 0%nat u r eq_refl) as [[f s] Hu]. rewrite Nat.add_0_r in *. rewrite Hu. cbn [mbind option_bind].
  destruct (set_lev_ok h u i (f, u32 (s + 1))) as (h1 & -> & Hi1 & Hl1); [by exists (f, s)|]. cbn [mbind option_bind].
  assert (forall b j, j <> i -> lev h1 b j = lev h b j) as Hlater by (intros b j Hj; by rewrite Hl1, decide_False by naive_solver).
  destruct (IH (S i) h1) as (h' & -> & Hi & Hin & Hout).
  { intros k u' r' Hk. rewrite Hlater by lia. replace (S i + k)%nat with (i + S k)%nat by lia. by eapply Hl. }
  exists h'. split; [done|]. split; [intros a; by rewrite Hi|]. split.
  - intros [|k] u' r' f' s' Hk Hf; cbn [lookup list_lookup] in Hk.
    + injection Hk as -> ->. rewrite Nat.add_0_r in *. rewrite Hu in Hf. injection Hf as -> ->. rewrite Hout by (intros; lia). by rewrite Hl1, decide_True.
    + replace (i + S k)%nat with (S i + k)%nat in * by lia. apply (Hin k u' r' f' s' Hk). by rewrite Hlater by lia.
  - intros a j Hn. rewrite Hout; [|intros k u' r' Hk Hj; apply (Hn (S k) u' r' Hk); lia].
    destruct (decide (j = i)) as [->|]; [|by apply Hlater]. rewrite Hl1, decide_False; [done|]. intros [-> _]. by apply (Hn 0%nat u r eq_refl ltac:(lia)).
Qed.

Lemma low_ext (ht ht' : nat -> nat) j r : Forall (fun b => ht' b = ht b) r -> Forall (fun b => (ht b <= j)%nat) r -> Forall (fun b => (ht' b <= j)%nat) r.
Proof. intros H1. induction 1 as [|b r Hb _ IH]; [constructor|]. apply Forall_cons in H1 as [H1 H1']. constructor; [by rewrite H1|by apply IH]. Qed.

(** ** More levels *)

Section grow.
Context (zsl : zskiplist) (l : list elt) (Hok : zsl_ok zsl l).

Lemma grow_ok lvl : (level_ zsl <= lvl <= ZSKIPLIST_MAXLEVEL)%nat ->
  exists h', grow_levels (lvl - level_ zsl) (level_ zsl) (heap zsl) (header zsl) (length_ zsl) = Some h' /\
    (forall a, info h' a = info (heap zsl) a) /\ zsl_ok (set_level_ lvl (set_heap h' zsl)) l.
Proof using Hok.
  intros Hlvl. pose proof (zo_level _ _ Hok) as Hlev. destruct (grow_levels_ok (lvl - level_ zsl) (level_ zsl) (heap zsl) (header zsl) (length_ zsl)) as (h' & -> & Hi & Hin & Hout).
  { intros j Hj. pose proof (zo_top _ _ Hok j ltac:(lia)) as Ht. apply fmap_Some in Ht as ([f s] & Hl & Hf). cbn [fst] in Hf. subst f. by exists s. }
  exists h'. split; [done|]. split; [done|].
  assert (forall a, height h' a = height (heap zsl) a) as Hht by (intros a; by apply height_info).
  destruct Hok as [H1 H2 H3 H4 H5 H6 H7 H8 H9 H10]. split; cbn [heap header tail length_ level_ set_level_ set_heap nodes] in *; try done.
  - intros a. by rewrite lookup_info, Hi, <- lookup_info, H2.
  - by rewrite Hi.
  - intros i Hi'. rewrite Hout by lia. apply H4. lia.
  - intros k a s o Hk. destruct (H5 k a s o Hk) as (ht & Hinf & Hht'). exists ht. rewrite Hi. split; [done|lia].
  - intros k a i Hk Hh Hlt. change (nodes (set_level_ lvl (set_heap h' zsl)) l) with (nodes zsl l) in *. rewrite Hht in Hh.
    rewrite (next_ext (height (heap zsl)) (height h')) by (apply Forall_forall; intros b _; apply Hht).
    destruct (decide (i < level_ zsl)%nat) as [Hold|Hnew]; [rewrite Hout by lia; by apply H6|].
    destruct k as [|k].
    + injection Hk as <-. rewrite Hin by lia. rewrite next_none; [rewrite H8|].
      * rewrite uwrap_small by (pose proof (zlen_nonneg l); lia). change (drop 1 (nodes zsl l)) with (l.*1). unfold zlen. by rewrite length_fmap.
      * apply Forall_lookup. intros j b Hb. rewrite lookup_drop in Hb. pose proof (ok_node_height zsl l (Build_zsl_ok _ _ H1 H2 H3 H4 H5 H6 H7 H8 H9 H10) j b Hb). lia.
    + pose proof (ok_node_height zsl l (Build_zsl_ok _ _ H1 H2 H3 H4 H5 H6 H7 H8 H9 H10) k a Hk). lia.
  - lia.
Qed.

Lemma grow_stops lvl h' ur p : (level_ zsl <= lvl <= ZSKIPLIST_MAXLEVEL)%nat -> (forall a, info h' a = info (heap zsl) a) -> length ur = level_ zsl ->
  stops zsl l ur p -> stops (set_level_ lvl (set_heap h' zsl)) l (ur ++ replicate (lvl - level_ zsl) (header zsl, 0)) p.
Proof using Hok.
  intros Hlvl Hi Hlen Hs j u r Hj. assert (forall a, height h' a = height (heap zsl) a) as Hht by (intros a; by apply height_info).
  unfold last_high. change (nodes (set_level_ lvl (set_heap h' zsl)) l) with (nodes zsl l). cbn [heap set_level_ set_heap].
  apply lookup_app_Some in Hj as [Hj|[Hge Hj]].
  - destruct (Hs j u r Hj) as (q & -> & Hu & Hqp & (a & Ha & Hha) & Hlow). exists q. split; [done|]. split; [done|]. split; [done|].
    split; [exists a; by rewrite Hht|]. intros i b Hib Hb. rewrite Hht. by eapply Hlow.
  - apply lookup_replicate in Hj as [[= -> ->] Hlt]. exists 0%nat. split; [done|]. split; [done|]. split; [lia|]. split.
    + exists (header zsl). rewrite Hht, (ok_header_height zsl l Hok). split; [done|]. lia.
    + intros i b Hib Hb. rewrite Hht. destruct i as [|i]; [lia|]. pose proof (ok_node_height zsl l Hok i b Hb). lia.
Qed.
End grow.

(** ** One node more *)

Section insert.
Context (junk : option nat * Z) (zsl : zskiplist) (l : list elt) (Hok : zsl_ok zsl l).
Context (p : nat) (Hp : (p <= length l)%nat) (ur : list (nat * Z)) (Hlen : length ur = level_ zsl) (Hst : stops zsl l ur p).
Context (x lvl : nat) (Hlvl : (1 <= lvl <= level_ zsl)%nat) (Hx : heap zsl !! x = None) (Hfew : zlen l + 1 < 2 ^ 31).
Context (sc : double) (o : bytes).
Abbreviation h := (heap zsl).
Abbreviation ns := (nodes zsl l).
Abbreviation ht := (height (heap zsl)).
Abbreviation h0 := (<[x := zslCreateNode junk lvl sc (Some o)]> (heap zsl)).
Abbreviation pre := (take (S p) (nodes zsl l)).
Abbreviation post := (drop (S p) (nodes zsl l)).

(** The nodes between the one that points beyond the place and the place. *)
Abbreviation mid q := (take (p - q) (drop (S q) (nodes zsl l))).

Lemma x_new a : a ∈ ns -> a <> x.
Proof using Hok Hx. intros Ha ->. apply (zo_dom _ _ Hok) in Ha as [n Hn]. congruence. Qed.

Lemma h0_info a : info h0 a = if decide (a = x) then Some (Some o, sc, junk.1, lvl) else info h a.
Proof using Type.
  unfold info. destruct (decide (a = x)) as [->|]; [|by rewrite lookup_insert_ne]. rewrite lookup_insert_eq. cbn. by rewrite length_replicate.
Qed.

Lemma h0_lev a j : a <> x -> lev h0 a j = lev h a j.
Proof using Type. intros Ha. unfold lev. by rewrite lookup_insert_ne. Qed.

Lemma h0_lev_x j : (j < lvl)%nat -> lev h0 x j = Some junk.
Proof using Type. intros Hj. unfold lev. rewrite lookup_insert_eq. cbn. by apply lookup_replicate_2. Qed.

(** What the search gives on level [j]. *)
Lemma stop_at j : (j < level_ zsl)%nat -> exists u q, ur !! j = Some (u, Z.of_nat q) /\ ns !! q = Some u /\ last_high zsl l j p q /\ u <> x /\ (j < ht u)%nat /\
  lev h u j = Some ((next ht j post).1, Z.of_nat (p - q) + (next ht j post).2).
Proof using Hok Hp Hlen Hst Hlvl Hx.
  intros Hj. destruct (lookup_lt_is_Some_2 ur j) as [[u r] Hu]; [lia|]. destruct (Hst j u r Hu) as (q & -> & Hq & Hlh). exists u, q. split; [done|]. split; [done|]. split; [done|].
  split; [apply x_new; by eapply list_elem_of_lookup_2|]. pose proof Hlh as (Hqp & (a & Ha & Hha) & _). assert (a = u) as -> by congruence. split; [done|].
  rewrite (zo_links _ _ Hok q u j Hq Hha Hj). assert (drop (S q) ns = mid q ++ post) as ->.
  { rewrite <- (take_drop (p - q) (drop (S q) ns)) at 1. rewrite drop_drop. do 2 f_equal. lia. }
  rewrite next_low by by apply (last_high_low zsl l). unfold zlen. rewrite length_take, length_drop, (ok_ns_length zsl l). do 2 f_equal. lia.
Qed.

Lemma levels_ok : exists h1 h2, insert_levels 0 (take lvl ur) h0 x (Z.of_nat p) = Some h1 /\ touch_levels lvl (drop lvl ur) h1 = Some h2 /\
  (forall a, info h2 a = info h0 a) /\
  (forall j u q, (j < level_ zsl)%nat -> ur !! j = Some (u, Z.of_nat q) -> (q <= p)%nat -> 
     lev h2 u j = Some (if (j <? lvl)%nat then (Some x, Z.of_nat (p - q) + 1) else ((next ht j post).1, Z.of_nat (p - q) + 1 + (next ht j post).2))) /\
  (forall j, (j < lvl)%nat -> lev h2 x j = Some (next ht j post)) /\
  (forall a j, a <> x -> (forall r, ur !! j <> Some (a, r)) -> lev h2 a j = lev h a j).
Proof using Hok Hp Hlen Hst Hlvl Hx Hfew.
  assert (forall j u r, ur !! j = Some (u, r) -> (j < level_ zsl)%nat) as Hlt by (intros j u r Hj; apply lookup_lt_Some in Hj; lia).
  pose proof (ok_ns_length zsl l) as Hns. assert (Z.of_nat (length l) + 1 < 2 ^ 31) as Hfew' by exact Hfew.
  assert (forall j, 0 <= (next ht j post).2 <= Z.of_nat (length l - p)) as Hnb.
  { intros j. pose proof (next_bounds ht j post) as Hb. unfold zlen in Hb. rewrite length_drop, Hns in Hb. lia. }
  destruct (insert_levels_ok x (Z.of_nat p) (take lvl ur) 0 h0) as (h1 & Hrun1 & Hi1 & Hin1 & Hout1).
  { intros k u r Hk. apply lookup_take_Some in Hk as [Hk Hkl]. destruct (stop_at k ltac:(by eapply Hlt)) as (u' & q & Hu' & _ & _ & Hux & _ & Hl).
    rewrite Hk in Hu'. injection Hu' as -> _. split; [done|]. cbn [Nat.add]. rewrite h0_lev, h0_lev_x, Hl by done. eauto. }
  assert (forall a j, (lvl <= j)%nat -> lev h1 a j = lev h0 a j) as Hhigh.
  { intros a j Hj. apply Hout1. intros k u r Hk ->. apply lookup_take_Some in Hk as [_ Hk]. lia. }
  destruct (touch_levels_ok (drop lvl ur) lvl h1) as (h2 & Hrun2 & Hi2 & Hin2 & Hout2).
  { intros k u r Hk. rewrite lookup_drop in Hk. destruct (stop_at (lvl + k) ltac:(by eapply Hlt)) as (u' & q & Hu' & _ & _ & Hux & _ & Hl).
    rewrite Hk in Hu'. injection Hu' as -> _. rewrite Hhigh, h0_lev, Hl by (done || lia). eauto. }
  assert (forall a j, (j < lvl)%nat -> lev h2 a j = lev h1 a j) as Hlow.
  { intros a j Hj. apply Hout2. intros k u r Hk ->. lia. }
  exists h1, h2. split; [done|]. split; [done|]. split; [intros a; by rewrite Hi2, Hi1|]. split; [|split].
  - intros j u q Hj Hu Hqp. destruct (stop_at j Hj) as (u' & q' & Hu' & _ & _ & Hux & _ & Hl). rewrite Hu in Hu'. injection Hu' as <- Hqq.
    assert (q' = q) as -> by lia. specialize (Hnb j). destruct (Nat.ltb_spec j lvl) as [Hjl|Hjl].
    + rewrite Hlow by done. destruct (Hin1 j u (Z.of_nat q) _ _ ltac:(by rewrite lookup_take_lt) ltac:(cbn [Nat.add]; by rewrite h0_lev)) as [_ E]. cbn [Nat.add] in E. rewrite E.
      rewrite (uwrap_small 32 (Z.of_nat p - Z.of_nat q)), uwrap_small by lia. do 2 f_equal. lia.
    + assert (drop lvl ur !! (j - lvl)%nat = Some (u, Z.of_nat q)) as Hd by (rewrite lookup_drop; by replace (lvl + (j - lvl))%nat with j by lia).
      pose proof (Hin2 (j - lvl)%nat u (Z.of_nat q)) as Hin. replace (lvl + (j - lvl))%nat with j in Hin by lia.
      rewrite (Hin _ _ Hd ltac:(by rewrite Hhigh, h0_lev by done)). rewrite uwrap_small by lia. do 2 f_equal. lia.
  - intros j Hj. destruct (stop_at j ltac:(lia)) as (u & q & Hu & _ & (Hqp & _) & Hux & _ & Hl). specialize (Hnb j). rewrite Hlow by done.
    destruct (Hin1 j u (Z.of_nat q) _ _ ltac:(by rewrite lookup_take_lt) ltac:(cbn [Nat.add]; by rewrite h0_lev)) as [E _]. cbn [Nat.add] in E. rewrite E.
    rewrite (uwrap_small 32 (Z.of_nat p - Z.of_nat q)), uwrap_small by lia. destruct (next ht j post). cbn [fst snd] in *. do 2 f_equal. lia.
  - intros a j Ha Hn. rewrite Hout2; [rewrite Hout1; [by apply h0_lev|]|].
    + intros k u r Hk ->. split; [done|]. intros ->. apply lookup_take_Some in Hk as [Hk _]. by eapply Hn.
    + intros k u r Hk -> ->. rewrite lookup_drop in Hk. by eapply Hn.
Qed.

Abbreviation l' := (take p l ++ (x, (sc, o)) :: drop p l).

Lemma ns_insert : header zsl :: l'.*1 = pre ++ x :: post.
Proof using Type. unfold nodes. cbn [take]. rewrite fmap_app. cbn [fmap list_fmap fst]. by rewrite fmap_take, fmap_drop. Qed.

(** The links of the longer list, once the heights are known. *)
Lemma links_insert h' k a j : (forall b, b ∈ ns -> height h' b = ht b) -> height h' x = lvl ->
  (forall j u q, (j < level_ zsl)%nat -> ur !! j = Some (u, Z.of_nat q) -> (q <= p)%nat ->
     lev h' u j = Some (if (j <? lvl)%nat then (Some x, Z.of_nat (p - q) + 1) else ((next ht j post).1, Z.of_nat (p - q) + 1 + (next ht j post).2))) ->
  (forall j, (j < lvl)%nat -> lev h' x j = Some (next ht j post)) ->
  (forall a j, a <> x -> (forall r, ur !! j <> Some (a, r)) -> lev h' a j = lev h a j) ->
  (pre ++ x :: post) !! k = Some a -> (j < height h' a)%nat -> (j < level_ zsl)%nat ->
  lev h' a j = Some (next (height h') j (drop (S k) (pre ++ x :: post))).
Proof using Hok Hp Hlen Hst Hlvl Hx.
  intros Hht Hhx Hupd Hxl Hold Hk Hh Hj. pose proof (ok_ns_length zsl l) as Hns. assert (length pre = S p) as Hpre by (rewrite length_take; lia).
  assert (forall k, Forall (fun b => height h' b = ht b) (drop k ns)) as Hdrop by (intros i; apply Forall_forall; intros b Hb; apply Hht; by eapply elem_of_drop_rev || (apply (sublist_subseteq _ _ (sublist_drop _ i)); done)).
  assert (forall q, Forall (fun b => height h' b = ht b) (mid q)) as Hmid by (intros i; by apply Forall_take).
  destruct (stop_at j Hj) as (u & q & Hu & Hq & Hlh & Hux & Hhu & Hl). pose proof Hlh as (Hqp & _ & Hlow).
  destruct (Nat.lt_trichotomy k (S p)) as [Hlt|[->|Hgt]].
  - rewrite lookup_app_l in Hk by lia. rewrite lookup_take_lt in Hk by lia. assert (a ∈ ns) as Hain by by eapply list_elem_of_lookup_2. rewrite Hht in Hh by done.
    assert (drop (S k) (pre ++ x :: post) = mid k ++ x :: post) as Hd.
    { rewrite drop_app_le by lia. f_equal. rewrite take_drop_commute. f_equal. f_equal. lia. }
    rewrite Hd. destruct (decide (k = q)) as [->|Hkq].
    + assert (a = u) as -> by congruence. rewrite (Hupd j u q Hj Hu Hqp). pose proof (last_high_low zsl l j p q Hlh) as Hml.
      assert (Forall (fun b => (height h' b <= j)%nat) (mid q)) as Hml' by by apply (low_ext ht).
      assert (length (mid q) = (p - q)%nat) as Hmlen by (rewrite length_take, length_drop; lia).
      destruct (Nat.ltb_spec j lvl) as [Hjl|Hjl].
      * rewrite next_hit by (done || lia). unfold zlen. by rewrite Hmlen.
      * rewrite next_low by done. cbn [next]. rewrite (proj2 (Nat.ltb_ge _ _)) by lia. rewrite (next_ext ht (height h')) by apply Hdrop.
        destruct (next ht j post). cbn [fst snd]. unfold zlen. rewrite Hmlen. do 2 f_equal. lia.
    + assert (k < q)%nat as Hkq' by (destruct (decide (k < q)%nat); [done|]; specialize (Hlow k a ltac:(lia) Hk); lia).
      rewrite Hold; [| by apply x_new|intros r Hr; rewrite Hu in Hr; injection Hr as -> _; pose proof (NoDup_lookup _ _ _ _ (zo_nodup _ _ Hok) Hk Hq); lia].
      rewrite (zo_links _ _ Hok k a j Hk Hh Hj). assert (u ∈ mid k) as Hum.
      { apply list_elem_of_lookup. exists (q - S k)%nat. rewrite lookup_take_lt by lia. rewrite lookup_drop. by replace (S k + (q - S k))%nat with q by lia. }
      specialize (Hmid k). remember (mid k) as md eqn:Emd. assert (drop (S k) ns = md ++ post) as ->.
      { rewrite Emd, <- (take_drop (p - k) (drop (S k) ns)) at 1. rewrite drop_drop. do 2 f_equal. lia. }
      rewrite (next_app (height h')), (next_app ht), (next_ext ht (height h')); [done|apply Hmid|apply Exists_exists; by exists u|].
      apply Exists_exists. exists u. rewrite Hht; [done|]. by eapply list_elem_of_lookup_2.
  - rewrite lookup_app_r in Hk by lia. rewrite Hpre, Nat.sub_diag in Hk. injection Hk as <-. rewrite Hhx in Hh. rewrite (Hxl j Hh).
    rewrite drop_app_ge by lia. rewrite Hpre. replace (S (S p) - S p)%nat with 1%nat by lia. cbn [drop]. by rewrite (next_ext ht (height h')) by apply Hdrop.
  - rewrite lookup_app_r in Hk by lia. rewrite Hpre in Hk. destruct (k - S p)%nat as [|i] eqn:Hi; [lia|]. change (post !! i = Some a) in Hk. rewrite lookup_drop in Hk.
    replace (S p + i)%nat with (k - 1)%nat in Hk by lia. assert (a ∈ ns) as Hain by by eapply list_elem_of_lookup_2. rewrite Hht in Hh by done.
    rewrite Hold; [|by apply x_new|intros r Hr; rewrite Hu in Hr; injection Hr as -> _; pose proof (NoDup_lookup _ _ _ _ (zo_nodup _ _ Hok) Hk Hq); lia].
    rewrite (zo_links _ _ Hok (k - 1)%nat a j Hk Hh Hj). rewrite drop_app_ge by lia. rewrite Hpre. replace (S k - S p)%nat with (S (k - S p))%nat by lia. cbn [drop].
    rewrite drop_drop. replace (S p + (k - S p))%nat with k by lia. replace (S (k - 1)) with k by lia. by rewrite (next_ext ht (height h')) by apply Hdrop.
Qed.

(** The links backward, and everything else of a node. *)
Definition info' (a : nat) : option (option bytes * double * option nat * nat) :=
  if decide (a = x) then Some (Some o, sc, if p is O then None else ns !! p, lvl)
  else if decide (head post = Some a) then (fun '(ob, s, _, k) => (ob, s, Some x, k)) <$> info h a
  else info h a.

Lemma info'_height h' a : (forall a, info h' a = info' a) -> height h' a = if decide (a = x) then lvl else ht a.
Proof using Type.
  intros Hi. unfold height. specialize (Hi a). unfold info, info' in Hi. destruct (decide (a = x)) as [->|Ha].
  - destruct (h' !! x) as [n|]; [|done]. by injection Hi as _ _ _ ->.
  - destruct (decide (head post = Some a)); unfold info in Hi; destruct (h' !! a), (h !! a); cbn in Hi; congruence.
Qed.

Lemma node_insert h' k a s ob : (forall a, info h' a = info' a) -> l' !! k = Some (a, (s, ob)) -> exists n,
  info h' a = Some (Some ob, s, match k with O => None | S k => fst <$> l' !! k end, n) /\ (1 <= n <= level_ zsl)%nat.
Proof using Hok Hp Hlen Hst Hlvl Hx.
  intros Hi Hk. rewrite Hi. unfold info'. assert (length (take p l) = p) as Hpl by (rewrite length_take; lia).
  assert (forall i e, l !! i = Some e -> ns !! S i = Some e.1) as Hnsl by (intros i e He; by rewrite nodes_S, He).
  assert (forall i e, l !! i = Some e -> e.1 <> x) as Hex by (intros i e He; apply x_new; eapply list_elem_of_lookup_2; by apply (Hnsl i)).
  assert (head post = fst <$> l !! p) as Hhead.
  { by rewrite head_lookup, lookup_drop, Nat.add_0_r, nodes_S. }
  assert (forall i e, l !! i = Some e -> i <> p -> head post <> Some e.1) as Hnp.
  { intros i e He Hip. rewrite Hhead. intros (e' & He' & Heq)%fmap_Some. apply Hip. apply Nat.succ_inj.
    apply (NoDup_lookup ns _ _ e.1); [apply Hok|by apply Hnsl|]. rewrite Heq. by apply Hnsl. }
  destruct (Nat.lt_trichotomy k p) as [Hlt|[->|Hgt]].
  - rewrite lookup_app_l, lookup_take_lt in Hk by lia. rewrite decide_False by (by apply (Hex k (a, (s, ob)))). rewrite decide_False by (by apply (Hnp k (a, (s, ob)) Hk ltac:(lia))).
    destruct (zo_nodes _ _ Hok _ _ _ _ Hk) as (n & -> & Hn). exists n. split; [|done]. destruct k as [|k]; [done|]. do 3 f_equal. by rewrite lookup_app_l, lookup_take_lt by lia.
  - rewrite lookup_app_r, Hpl, Nat.sub_diag in Hk by lia. injection Hk as <- <- <-. rewrite decide_True by done. exists lvl. split; [|done]. do 2 f_equal.
    destruct p as [|p']; [done|]. rewrite nodes_S. by rewrite lookup_app_l, lookup_take_lt by lia.
  - rewrite lookup_app_r, Hpl in Hk by lia. destruct (k - p)%nat as [|i] eqn:Hkp; [lia|]. change (drop p l !! i = Some (a, (s, ob))) in Hk. rewrite lookup_drop in Hk.
    rewrite decide_False by (by apply (Hex (p + i)%nat (a, (s, ob)))). destruct (zo_nodes _ _ Hok _ _ _ _ Hk) as (n & Hin & Hn). destruct k as [|k]; [lia|].
    assert (l' !! k = match i with O => Some (x, (sc, o)) | S i => l !! (p + i)%nat end) as Hl'.
    { rewrite lookup_app_r, Hpl by lia. destruct i as [|i]; [by replace (k - p)%nat with 0%nat by lia|].
      replace (k - p)%nat with (S i) by lia. change ((((x, (sc, o))) :: drop p l) !! S i) with (drop p l !! i). by rewrite lookup_drop. }
    rewrite Hl'. destruct i as [|i].
    + rewrite Nat.add_0_r in Hk. rewrite decide_True by (by rewrite Hhead, Hk). rewrite Hin. exists n. by split.
    + rewrite decide_False by (by apply (Hnp _ _ Hk ltac:(lia))). rewrite Hin. exists n. split; [|done]. by replace (p + S i)%nat with (S (p + i)) by lia.
Qed.

Lemma insert_node_ok : exists zsl', insert_node junk x lvl sc o ur zsl = Some zsl' /\ zsl_ok zsl' l' /\ header zsl' = header zsl /\ level_ zsl' = level_ zsl /\
  forall a, height (heap zsl') a = if decide (a = x) then lvl else ht a.
Proof using Hok Hp Hlen Hst Hlvl Hx Hfew.
  unfold insert_node. rewrite decide_True by done. cbn [mbind option_bind].
  destruct (stops_head zsl l Hok ur p Hp Hst) as (u0 & Hh & Hu0); [lia|]. rewrite Hh. cbn [mbind option_bind].
  destruct levels_ok as (h1 & h2 & -> & Hrun2 & Hi2 & Hupd & Hxl & Hold). cbn [mbind option_bind]. rewrite Hrun2. cbn [mbind option_bind].
  destruct (set_back_ok h2 x (if (u0 =? header zsl)%nat then None else Some u0)) as (h3 & -> & Hl3 & Hi3).
  { rewrite lookup_info, Hi2, h0_info, decide_True by done. eauto. }
  cbn [mbind option_bind]. rewrite Hl3, (Hxl 0%nat) by lia. pose proof (tail_high zsl l Hok (S p)) as Hth. rewrite (next_0 zsl) by done. cbn [mbind option_bind].
  assert ((if (u0 =? header zsl)%nat then None else Some u0) = if p is O then None else ns !! p) as Hb.
  { destruct p as [|p'] eqn:Ep; [injection Hu0 as <-; by rewrite Nat.eqb_refl|]. rewrite Hu0. destruct (Nat.eqb_spec u0 (header zsl)) as [->|]; [|done].
    pose proof (NoDup_lookup ns (S p') 0 _ (zo_nodup _ _ Hok) Hu0 eq_refl). done. }
  assert (forall y, head post = Some y -> y ∈ ns /\ y <> x) as Hy.
  { intros y Hy. rewrite head_lookup, lookup_drop in Hy. assert (y ∈ ns) by by eapply list_elem_of_lookup_2. split; [done|by apply x_new]. }
  assert (exists hF t, (match head post with
                        | Some y => h ← set_back h3 y (Some x); Some (set_heap h zsl)
                        | None => Some (set_tail (Some x) (set_heap h3 zsl))
                        end) = Some (set_tail t (set_heap hF zsl)) /\ t = fst <$> last l' /\ (forall a, info hF a = info' a) /\ (forall a j, lev hF a j = lev h2 a j))
    as (hF & t & Hrun & Ht & HiF & HlF).
  { rewrite last_app_cons. destruct (head post) as [y|] eqn:Hpost.
    - destruct (Hy y eq_refl) as [Hyin Hyx]. destruct (set_back_ok h3 y (Some x)) as (h4 & -> & Hl4 & Hi4).
      { rewrite lookup_info, Hi3, decide_False, Hi2, h0_info, decide_False by done. apply lookup_info. by apply (zo_dom _ _ Hok). }
      exists h4, (tail zsl). split; [done|]. split.
      + rewrite (zo_tail _ _ Hok). assert (exists e k, drop p l = e :: k) as (e & k & Hdl).
        { destruct (drop p l) as [|e k] eqn:E; [|by exists e, k]. exfalso. rewrite head_lookup, lookup_drop, Nat.add_0_r, nodes_S in Hpost. apply fmap_Some in Hpost as (e & Hpost & _). apply lookup_lt_Some in Hpost. apply (f_equal length) in E. rewrite length_drop in E. cbn in E. lia. }
        rewrite <- (take_drop p l) at 1. rewrite Hdl, last_app_cons. by rewrite last_cons_cons.
      + split; [|intros a j; by rewrite Hl4, Hl3]. intros a. rewrite Hi4. unfold info'. rewrite Hpost. destruct (decide (a = y)) as [->|Hay].
        * rewrite (decide_False (P := y = x)), decide_True, Hi3, decide_False, Hi2, h0_info, decide_False by done. done.
        * rewrite Hi3, (decide_False (P := Some y = Some a)) by congruence. destruct (decide (a = x)) as [->|]; rewrite Hi2, h0_info; [|by rewrite decide_False].
          rewrite decide_True by done. cbn. by rewrite Hb.
    - exists h3, (Some x). split; [done|]. split.
      + assert (drop p l = []) as ->; [|done]. rewrite head_None in Hpost. apply (f_equal length) in Hpost. rewrite length_drop, (ok_ns_length zsl l) in Hpost. cbn in Hpost.
        apply nil_length_inv. rewrite length_drop. lia.
      + split; [|intros a j; by rewrite Hl3]. intros a. rewrite Hi3. unfold info'. rewrite Hpost.
        rewrite (decide_False (P := None = Some a)) by done. destruct (decide (a = x)) as [->|]; rewrite Hi2, h0_info; [|by rewrite decide_False]. rewrite decide_True by done. cbn. by rewrite Hb. }
  rewrite Hrun. cbn [mbind option_bind]. eexists. split; [done|]. assert (forall a, height hF a = if decide (a = x) then lvl else ht a) as Hht by (intros a; by apply info'_height).
  split; [|by split_and!].
  assert (length_ zsl = Z.of_nat (length l)) as Hzl by apply Hok. assert (Z.of_nat (length l) + 1 < 2 ^ 31) as Hfew' by exact Hfew.
  split; cbn [heap header tail length_ level_ set_length set_tail set_heap].
  - unfold nodes. cbn [header set_length set_tail set_heap]. rewrite ns_insert. assert (ns ≡ₚ pre ++ post) as Hperm by by rewrite take_drop.
    rewrite <- Permutation_middle, <- Hperm. constructor; [|apply Hok]. intros Hin. by apply (x_new x Hin).
  - intros a. unfold nodes. cbn [header set_length set_tail set_heap]. rewrite ns_insert, <- Permutation_middle, take_drop, elem_of_cons, lookup_info, HiF.
    unfold info'. destruct (decide (a = x)) as [->|Ha]; [split; [by left|by intros _]|]. rewrite <- (zo_dom _ _ Hok a), lookup_info.
    destruct (decide _); [rewrite fmap_is_Some|]; naive_solver.
  - destruct (zo_header _ _ Hok) as [s Hs]. exists s. rewrite HiF. unfold info'. assert (header zsl ∈ ns) as Hhd by by left.
    rewrite decide_False by by apply x_new. rewrite decide_False; [done|]. rewrite head_lookup, lookup_drop. intros Hd.
    pose proof (NoDup_lookup ns (S p + 0)%nat 0%nat _ (zo_nodup _ _ Hok) Hd eq_refl). lia.
  - intros i Hi. rewrite HlF, Hold; [by apply Hok|apply x_new; by left|]. intros r Hr. apply lookup_lt_Some in Hr. lia.
  - intros k a s ob Hk. by eapply node_insert.
  - intros k a j. unfold nodes. cbn [header set_length set_tail set_heap]. rewrite ns_insert. intros Hk Hhk Hj.
    apply (links_insert hF k a j); try done.
    + intros b Hbin. rewrite Hht. rewrite decide_False; [done|by apply x_new].
    + by rewrite Hht, decide_True.
    + intros j' u q H1 H2 H3. rewrite HlF. by apply Hupd.
    + intros j' H1. rewrite HlF. by apply Hxl.
    + intros a' j' H1 H2. rewrite HlF. by apply Hold.
  - done.
  - rewrite Hzl, uwrap_small by lia. unfold zlen. rewrite length_app, length_take. cbn [length]. rewrite length_drop. lia.
  - apply Hok.
  - unfold zlen. rewrite length_app, length_take. cbn [length]. rewrite length_drop. lia.
Qed.
End insert.
