(* ===== verification/ZskiplistDelete.v ===== *)
(** * Skip lists: deletion (src/redis-2.8.19/src/t_zset.c)

    [zslDeleteNode] takes a node out of the list, given where the search for it stopped;
    the invariant holds again, and the search is still right for the nodes that follow. *)
From S2P Require Import Prelude Util Sds Object Dict Zskiplist ZskiplistSpec ZskiplistInsert.
Open Scope Z_scope.

(** ** The loops *)

Lemma unlink_levels_ok x update k : forall i h,
  (forall j, (i <= j < i + k)%nat -> exists u f s, update !! j = Some u /\ u <> x /\ lev h u j = Some (f, s) /\ (f = Some x -> is_Some (lev h x j))) ->
  exists h', unlink_levels k i update h x = Some h' /\ (forall a, info h' a = info h a) /\
    (forall j u f s xf xs, (i <= j < i + k)%nat -> update !! j = Some u -> lev h u j = Some (f, s) ->
       (f <> Some x -> lev h' u j = Some (f, u32 (s - 1))) /\
       (f = Some x -> lev h x j = Some (xf, xs) -> lev h' u j = Some (xf, u32 (s + u32 (xs - 1))))) /\
    (forall a j, ((i <= j < i + k)%nat -> update !! j <> Some a) -> lev h' a j = lev h a j).
Proof.
  induction k as [|k IH]; intros i h Hl; cbn [unlink_levels]; [exists h; split_and!; [done|done|intros; lia|done]|].
  destruct (Hl i ltac:(lia)) as (u & f & s & Hu & Hux & Hf & Hfx). rewrite Hu. cbn [mbind option_bind]. rewrite Hf. cbn [mbind option_bind].
  assert (exists v h1, (if decide (f = Some x) then '(xf, xs) ← lev h x i; set_lev h u i (xf, u32 (s + u32 (xs - 1))) else set_lev h u i (f, u32 (s - 1))) = Some h1 /\
    (forall b, info h1 b = info h b) /\ (forall b j, lev h1 b j = if decide (b = u /\ j = i) then Some v else lev h b j) /\
    (f <> Some x -> v = (f, u32 (s - 1))) /\ (forall xf xs, f = Some x -> lev h x i = Some (xf, xs) -> v = (xf, u32 (s + u32 (xs - 1)))))
    as (v & h1 & -> & Hi1 & Hl1 & Hv1 & Hv2).
  { destruct (decide (f = Some x)) as [Hfe|Hfe].
    - destruct (Hfx Hfe) as [[xf xs] Hxx]. rewrite Hxx. cbn [mbind option_bind]. destruct (set_lev_ok h u i (xf, u32 (s + u32 (xs - 1)))) as (h1 & -> & Hi1 & Hl1); [by exists (f, s)|].
      exists (xf, u32 (s + u32 (xs - 1))), h1. split_and!; try done. intros xf' xs' _ [= <- <-]. done.
    - destruct (set_lev_ok h u i (f, u32 (s - 1))) as (h1 & -> & Hi1 & Hl1); [by exists (f, s)|]. by exists (f, u32 (s - 1)), h1. }
  cbn [mbind option_bind]. assert (forall b j, j <> i -> lev h1 b j = lev h b j) as Hlater by (intros b j Hj; by rewrite Hl1, decide_False by naive_solver).
  destruct (IH (S i) h1) as (h' & -> & Hi & Hin & Hout).
  { intros j Hj. destruct (Hl j ltac:(lia)) as (u' & f' & s' & H1 & H2 & H3 & H4). exists u', f', s'. rewrite !Hlater by lia. done. }
  exists h'. split; [done|]. split; [intros a; by rewrite Hi|]. split.
  - intros j u' f' s' xf xs Hj Hu' Hf'. destruct (decide (j = i)) as [->|Hji].
    + rewrite Hu in Hu'. injection Hu' as <-. rewrite Hf in Hf'. injection Hf' as <- <-. rewrite !(Hout u i) by (intros; lia). rewrite Hl1, decide_True by done.
      split; [intros Hne; by rewrite Hv1|intros He Hx; by rewrite (Hv2 xf xs)].
    + rewrite <- (Hlater u' j) in Hf' by done. destruct (Hin j u' f' s' xf xs ltac:(lia) Hu' Hf') as [H1 H2]. split; [done|]. intros He Hx. apply H2; [done|]. by rewrite Hlater.
  - intros a j Hn. rewrite Hout by (intros; apply Hn; lia). rewrite Hl1, decide_False; [done|]. intros [-> ->]. by apply Hn; [lia|].
Qed.

Lemma lower_level_ok h hd k : (forall j, (j < k)%nat -> is_Some (lev h hd j)) -> (1 <= k)%nat ->
  exists k', lower_level k h hd = Some k' /\ (1 <= k' <= k)%nat /\ (forall j, (k' <= j < k)%nat -> exists s, lev h hd j = Some (None, s)) /\
    (k' = 1%nat \/ exists y s, lev h hd (k' - 1) = Some (Some y, s)).
Proof.
  intros Hl Hk. induction k as [|k IH]; [lia|]. destruct k as [|k]; [exists 1%nat; cbn; split_and!; by auto with lia|].
  change (lower_level (S (S k)) h hd) with ('(f, _) ← lev h hd (S k); match f with None => lower_level (S k) h hd | Some _ => Some (S (S k)) end).
  destruct (Hl (S k) ltac:(lia)) as [[f s] Hf]. rewrite Hf. cbn [mbind option_bind]. destruct f as [y|].
  - exists (S (S k)). split; [done|]. split; [lia|]. split; [intros j Hj; lia|]. right. exists y, s. by replace (S (S k) - 1)%nat with (S k) by lia.
  - destruct IH as (k' & -> & Hk' & Hn & Hc); [intros j Hj; apply Hl; lia|lia|]. exists k'. split; [done|]. split; [lia|]. split; [|done].
    intros j Hj. destruct (decide (j = S k)) as [->|]; [by exists s|]. apply Hn. lia.
Qed.

(** ** One node less *)

Section delete.
Context (zsl : zskiplist) (l : list elt) (Hok : zsl_ok zsl l).
Context (p : nat) (e : elt) (Hp : l !! p = Some e) (ur : list (nat * Z)) (Hlen : (level_ zsl <= length ur)%nat) (Hst : stops zsl l ur p).
Abbreviation x := (e.1).
Abbreviation h := (heap zsl).
Abbreviation ns := (nodes zsl l).
Abbreviation ht := (height (heap zsl)).
Abbreviation pre := (take (S p) (nodes zsl l)).
Abbreviation post := (drop (S (S p)) (nodes zsl l)).
Abbreviation mid q := (take (p - q) (drop (S q) (nodes zsl l))).
Abbreviation l' := (take p l ++ drop (S p) l).

Lemma x_at : ns !! S p = Some x.
Proof using Hp. by rewrite nodes_S, Hp. Qed.

Lemma ns_split : ns = pre ++ x :: post.
Proof using Hp. symmetry. apply take_drop_middle, x_at. Qed.

Lemma p_bound : (p < length l)%nat.
Proof using Hp. by eapply lookup_lt_Some. Qed.

Lemma x_once k : ns !! k = Some x -> k = S p.
Proof using Hok Hp. intros Hk. apply (NoDup_lookup ns _ _ x); [apply Hok|done|apply x_at]. Qed.

Lemma x_not_post : x ∉ post.
Proof using Hok Hp Hlen. intros [i Hi]%list_elem_of_lookup. rewrite lookup_drop in Hi. apply x_once in Hi. lia. Qed.

Lemma stop_del j : (j < level_ zsl)%nat -> exists u q, ur !! j = Some (u, Z.of_nat q) /\ ns !! q = Some u /\ last_high zsl l j p q /\ u <> x /\ (j < ht u)%nat /\
  lev h u j = Some (if (j <? ht x)%nat then (Some x, Z.of_nat (p - q) + 1) else ((next ht j post).1, Z.of_nat (p - q) + 1 + (next ht j post).2)).
Proof using Hok Hp Hlen Hst.
  intros Hj. destruct (lookup_lt_is_Some_2 ur j) as [[u r] Hu]; [lia|]. destruct (Hst j u r Hu) as (q & -> & Hq & Hlh). exists u, q. split; [done|]. split; [done|]. split; [done|].
  pose proof Hlh as (Hqp & (a & Ha & Hha) & _). assert (a = u) as -> by congruence. split; [intros ->; apply x_once in Hq; lia|]. split; [done|]. pose proof p_bound.
  rewrite (zo_links _ _ Hok q u j Hq Hha Hj). assert (drop (S q) ns = mid q ++ x :: post) as ->.
  { rewrite <- (take_drop (p - q) (drop (S q) ns)) at 1. rewrite drop_drop. f_equal. replace (S q + (p - q))%nat with (S p) by lia. by rewrite (drop_S _ _ _ x_at). }
  pose proof (last_high_low zsl l j p q Hlh) as Hlow. assert (zlen (mid q) = Z.of_nat (p - q)) as Hml by (unfold zlen; rewrite length_take, length_drop, (ok_ns_length zsl l); lia).
  destruct (Nat.ltb_spec j (ht x)) as [Hjx|Hjx]; [rewrite next_hit by done; by rewrite Hml|].
  rewrite next_low by done. cbn [next]. rewrite (proj2 (Nat.ltb_ge _ _)) by done. destruct (next ht j post). cbn [fst snd]. rewrite Hml. do 2 f_equal. lia.
Qed.

Lemma unlink_ok : exists h1, unlink_levels (level_ zsl) 0 (map fst ur) h x = Some h1 /\ (forall a, info h1 a = info h a) /\
  (forall j u q, (j < level_ zsl)%nat -> ur !! j = Some (u, Z.of_nat q) -> (q <= p)%nat ->
     lev h1 u j = Some ((next ht j post).1, Z.of_nat (p - q) + (next ht j post).2)) /\
  (forall a j, (forall r, (j < level_ zsl)%nat -> ur !! j <> Some (a, r)) -> lev h1 a j = lev h a j).
Proof using Hok Hp Hlen Hst.
  pose proof p_bound as Hpb. pose proof (zo_few _ _ Hok) as Hfew. unfold zlen in Hfew.
  assert (forall j, (j < level_ zsl)%nat -> (j < ht x)%nat -> lev h x j = Some (next ht j post)) as Hxl by (intros j H1 H2; exact (zo_links _ _ Hok (S p) x j x_at H2 H1)).
  assert (forall j, (next ht j post).1 <> Some x) as Hnx by (intros j [Hin _]%next_in; by apply x_not_post).
  assert (forall j, 0 <= (next ht j post).2 <= Z.of_nat (length l - S p)) as Hnb.
  { intros j. pose proof (next_bounds ht j post) as Hb. unfold zlen in Hb. rewrite length_drop, (ok_ns_length zsl l) in Hb. lia. }
  destruct (unlink_levels_ok x (map fst ur) (level_ zsl) 0 h) as (h1 & Hrun & Hi & Hin & Hout).
  { intros j Hj. destruct (stop_del j ltac:(lia)) as (u & q & Hu & _ & _ & Hux & _ & Hl). eexists u, _, _. split; [by rewrite list_lookup_fmap, Hu|]. split; [done|].
    split; [rewrite Hl; by apply f_equal, surjective_pairing|]. destruct (Nat.ltb_spec j (ht x)); cbn [fst]; [|by intros ?%Hnx]. intros _. rewrite Hxl by (done || lia). eauto. }
  exists h1. split; [done|]. split; [done|]. split.
  - intros j u q Hj Hu Hqp. destruct (stop_del j Hj) as (u' & q' & Hu' & _ & _ & _ & _ & Hl). rewrite Hu in Hu'. injection Hu' as <- Hqq. assert (q' = q) as -> by lia.
    specialize (Hnb j). assert (map fst ur !! j = Some u) as Hm by (by rewrite list_lookup_fmap, Hu). destruct (Nat.ltb_spec j (ht x)) as [Hjx|Hjx].
    + destruct (next ht j post) as [f s] eqn:Hn. destruct (Hin j u _ _ f s ltac:(lia) Hm Hl) as [_ H2]. rewrite H2 by (done || (rewrite Hxl by done; by rewrite Hn)).
      cbn [fst snd] in *. do 2 f_equal. unfold uwrap. rewrite Zplus_mod_idemp_r. rewrite Z.mod_small by lia. lia.
    + destruct (Hin j u _ _ None 0 ltac:(lia) Hm Hl) as [H1 _]. rewrite H1 by apply Hnx. do 2 f_equal. rewrite uwrap_small by lia. lia.
  - intros a j Hn. apply Hout. intros Hj Hm. rewrite list_lookup_fmap in Hm. apply fmap_Some in Hm as ([a' r] & Hr & ->). by apply (Hn r ltac:(lia)).
Qed.

Lemma ns_delete : header zsl :: l'.*1 = pre ++ post.
Proof using Type. unfold nodes. rewrite fmap_app, fmap_take, fmap_drop. done. Qed.

Lemma links_delete h' k a j : (forall b, b <> x -> height h' b = ht b) ->
  (forall j u q, (j < level_ zsl)%nat -> ur !! j = Some (u, Z.of_nat q) -> (q <= p)%nat ->
     lev h' u j = Some ((next ht j post).1, Z.of_nat (p - q) + (next ht j post).2)) ->
  (forall a j, a <> x -> (forall r, (j < level_ zsl)%nat -> ur !! j <> Some (a, r)) -> lev h' a j = lev h a j) ->
  (pre ++ post) !! k = Some a -> (j < height h' a)%nat -> (j < level_ zsl)%nat ->
  lev h' a j = Some (next (height h') j (drop (S k) (pre ++ post))).
Proof using Hok Hp Hlen Hst.
  intros Hht Hupd Hold Hk Hh Hj. pose proof p_bound as Hpb. pose proof (ok_ns_length zsl l) as Hns. assert (length pre = S p) as Hpre by (rewrite length_take; lia).
  assert (forall i, Forall (fun b => height h' b = ht b) (drop i post)) as Hpost.
  { intros i. apply Forall_forall. intros b Hb. apply Hht. intros ->. apply x_not_post. by apply (sublist_subseteq _ _ (sublist_drop _ i)). }
  assert (forall q, Forall (fun b => height h' b = ht b) (mid q)) as Hmid.
  { intros q. apply Forall_lookup. intros i b Hb. apply Hht. intros ->. apply lookup_take_Some in Hb as [Hb Hi]. rewrite lookup_drop in Hb. apply x_once in Hb. lia. }
  destruct (stop_del j Hj) as (u & q & Hu & Hq & Hlh & Hux & Hhu & Hl). pose proof Hlh as (Hqp & _ & Hlow).
  destruct (decide (k < S p)%nat) as [Hlt|Hge].
  - rewrite lookup_app_l, lookup_take_lt in Hk by lia. assert (a <> x) as Hax by (intros ->; apply x_once in Hk; lia). rewrite Hht in Hh by done.
    assert (drop (S k) (pre ++ post) = mid k ++ post) as Hd.
    { rewrite drop_app_le by lia. f_equal. rewrite take_drop_commute. do 2 f_equal. lia. }
    rewrite Hd. specialize (Hpost 0%nat). rewrite drop_0 in Hpost. destruct (decide (k = q)) as [->|Hkq].
    + assert (a = u) as -> by congruence. rewrite (Hupd j u q Hj Hu Hqp). pose proof (last_high_low zsl l j p q Hlh) as Hml.
      rewrite next_low by by apply (low_ext ht). rewrite (next_ext ht (height h')) by done. unfold zlen. rewrite length_take, length_drop. do 3 f_equal. lia.
    + assert (k < q)%nat as Hkq' by (destruct (decide (k < q)%nat); [done|]; specialize (Hlow k a ltac:(lia) Hk); lia).
      rewrite Hold; [|done|intros r _ Hr; rewrite Hu in Hr; injection Hr as -> _; pose proof (NoDup_lookup _ _ _ _ (zo_nodup _ _ Hok) Hk Hq); lia].
      rewrite (zo_links _ _ Hok k a j Hk Hh Hj). assert (u ∈ mid k) as Hum.
      { apply list_elem_of_lookup. exists (q - S k)%nat. rewrite lookup_take_lt by lia. rewrite lookup_drop. by replace (S k + (q - S k))%nat with q by lia. }
      specialize (Hmid k). remember (mid k) as md eqn:Emd. assert (drop (S k) ns = md ++ x :: post) as ->.
      { rewrite Emd, <- (take_drop (p - k) (drop (S k) ns)) at 1. rewrite drop_drop. f_equal. replace (S k + (p - k))%nat with (S p) by lia. by rewrite (drop_S _ _ _ x_at). }
      rewrite (next_app (height h')), (next_app ht), (next_ext ht (height h')); [done|apply Hmid|apply Exists_exists; by exists u|].
      apply Exists_exists. exists u. by rewrite Hht.
  - rewrite lookup_app_r in Hk by lia. rewrite Hpre, lookup_drop in Hk. replace (S (S p) + (k - S p))%nat with (S k) in Hk by lia.
    assert (a <> x) as Hax by (intros ->; apply x_once in Hk; lia). rewrite Hht in Hh by done.
    rewrite Hold; [|done|intros r _ Hr; rewrite Hu in Hr; injection Hr as -> _; pose proof (NoDup_lookup _ _ _ _ (zo_nodup _ _ Hok) Hk Hq); lia].
    rewrite (zo_links _ _ Hok (S k) a j Hk Hh Hj). rewrite drop_app_ge, Hpre by lia. specialize (Hpost (S k - S p)%nat). rewrite drop_drop in *.
    replace (S (S p) + (S k - S p))%nat with (S (S k)) in * by lia. by rewrite (next_ext ht (height h')).
Qed.

Definition unlinked (a : nat) : option (option bytes * double * option nat * nat) :=
  if decide (head post = Some a) then (fun '(ob, s, _, k) => (ob, s, if p is O then None else ns !! p, k)) <$> info h a
  else info h a.

Lemma unlinked_height h' a : info h' a = unlinked a -> height h' a = ht a.
Proof using Type.
  unfold unlinked, height, info. destruct (decide (head post = Some a)); destruct (h' !! a), (h !! a); cbn; congruence.
Qed.

Lemma head_post : head post = fst <$> l !! S p.
Proof using Type. by rewrite head_lookup, lookup_drop, Nat.add_0_r, nodes_S. Qed.

Lemma node_delete h' k a s ob : (forall a, a <> x -> info h' a = unlinked a) -> l' !! k = Some (a, (s, ob)) -> exists n,
  info h' a = Some (Some ob, s, match k with O => None | S k => fst <$> l' !! k end, n) /\ (1 <= n <= level_ zsl)%nat /\ a <> x.
Proof using Hok Hp Hlen Hst.
  intros Hi Hk. pose proof p_bound as Hpb. assert (length (take p l) = p) as Hpl by (rewrite length_take; lia).
  assert (forall i e', l !! i = Some e' -> i <> p -> e'.1 <> x) as Hex.
  { intros i e' He Hip Heq. apply Hip. apply Nat.succ_inj. apply x_once. by rewrite nodes_S, He, <- Heq. }
  assert (forall i e', l !! i = Some e' -> i <> S p -> head post <> Some e'.1) as Hnp.
  { intros i e' He Hip. rewrite head_post. intros (e2 & He2 & Heq)%fmap_Some. apply Hip. apply Nat.succ_inj.
    apply (NoDup_lookup ns _ _ e'.1); [apply Hok|by rewrite nodes_S, He|]. by rewrite nodes_S, He2, Heq. }
  destruct (decide (k < p)%nat) as [Hlt|Hge].
  - rewrite lookup_app_l, lookup_take_lt in Hk by lia. assert (a <> x) as Hax by (by apply (Hex k (a, (s, ob)) Hk ltac:(lia))). rewrite Hi by done.
    unfold unlinked. rewrite decide_False by (by apply (Hnp k (a, (s, ob)) Hk ltac:(lia))).
    destruct (zo_nodes _ _ Hok _ _ _ _ Hk) as (n & -> & Hn). exists n. split; [|done]. destruct k as [|k]; [done|]. do 3 f_equal. by rewrite lookup_app_l, lookup_take_lt by lia.
  - rewrite lookup_app_r, Hpl, lookup_drop in Hk by lia. replace (S p + (k - p))%nat with (S k) in Hk by lia.
    assert (a <> x) as Hax by (by apply (Hex (S k) (a, (s, ob)) Hk ltac:(lia))). rewrite Hi by done. unfold unlinked.
    destruct (zo_nodes _ _ Hok _ _ _ _ Hk) as (n & -> & Hn). exists n. split; [|done]. destruct (decide (k = p)) as [->|Hkp].
    + rewrite decide_True by (by rewrite head_post, Hk). cbn. do 2 f_equal. destruct p as [|p']; [done|]. rewrite nodes_S. by rewrite lookup_app_l, lookup_take_lt by lia.
    + rewrite decide_False by (by apply (Hnp (S k) (a, (s, ob)) Hk ltac:(lia))). destruct k as [|k]; [lia|]. do 3 f_equal.
      rewrite lookup_app_r, Hpl, lookup_drop by lia. by replace (S p + (k - p))%nat with (S k) by lia.
Qed.

Lemma last_delete : (if drop (S p) l is [] then (if p is O then None else ns !! p) else tail zsl) = fst <$> last l'.
Proof using Hok Hp Hlen Hst.
  pose proof p_bound as Hpb. destruct (drop (S p) l) as [|e' k] eqn:Hd.
  - rewrite app_nil_r. destruct p as [|p']; [done|]. rewrite nodes_S. rewrite last_lookup, length_take. replace (pred (S p' `min` length l)) with p' by lia. by rewrite lookup_take_lt by lia.
  - rewrite (zo_tail _ _ Hok). rewrite <- (take_drop (S p) l) at 1. rewrite Hd. by rewrite !last_app_cons.
Qed.

(** The store and the level after the node has been unlinked. *)
Lemma unlinked_heap : exists hF t k,
  zslDeleteNode zsl x (map fst ur) = Some (set_length (u64 (length_ zsl - 1)) (set_level_ k (set_tail t (set_heap hF zsl)))) /\
  t = fst <$> last l' /\ (forall a, info hF a = unlinked a) /\ (1 <= k <= level_ zsl)%nat /\
  (forall j u q, (j < level_ zsl)%nat -> ur !! j = Some (u, Z.of_nat q) -> (q <= p)%nat ->
     lev hF u j = Some ((next ht j post).1, Z.of_nat (p - q) + (next ht j post).2)) /\
  (forall a j, (forall r, (j < level_ zsl)%nat -> ur !! j <> Some (a, r)) -> lev hF a j = lev h a j) /\
  (forall j, (k <= j < level_ zsl)%nat -> exists s, lev hF (header zsl) j = Some (None, s)) /\
  (k = 1%nat \/ exists y s, lev hF (header zsl) (k - 1) = Some (Some y, s)).
Proof using Hok Hp Hlen Hst.
  pose proof p_bound as Hpb. unfold zslDeleteNode. destruct unlink_ok as (h1 & -> & Hi1 & Hupd & Hold). cbn [mbind option_bind].
  assert (forall j, lev h1 x j = lev h x j) as Hxl.
  { intros j. apply Hold. intros r Hj Hr. destruct (stop_del j Hj) as (u & q & Hu & _ & _ & Hux & _). congruence. }
  assert (lev h x 0 = Some (head post, if post is [] then 0 else 1)) as Hx0.
  { rewrite (lev_0 zsl l Hok (S p) x x_at). by rewrite head_lookup, lookup_drop, Nat.add_0_r. }
  rewrite Hxl, Hx0. cbn [mbind option_bind]. assert (exists s o, l !! p = Some (x, (s, o))) as (s & o & He) by (exists e.2.1, e.2.2; rewrite Hp; by destruct e as [? [? ?]]).
  destruct (zo_nodes _ _ Hok _ _ _ _ He) as (n & Hxi & Hn). rewrite <- Hi1 in Hxi. apply info_node in Hxi as (nd & Hnd & _ & _ & Hback & _). rewrite Hnd. cbn [mbind option_bind].
  assert (backward nd = if p is O then None else ns !! p) as Hb by (rewrite Hback; destruct p; [done|by rewrite nodes_S]).
  assert (exists hF t, (match head post with
                        | Some y => h ← set_back h1 y (backward nd); Some (set_heap h zsl)
                        | None => Some (set_tail (backward nd) (set_heap h1 zsl))
                        end) = Some (set_tail t (set_heap hF zsl)) /\ t = fst <$> last l' /\ (forall a, info hF a = unlinked a) /\ (forall a j, lev hF a j = lev h1 a j))
    as (hF & t & Hrun & Ht & HiF & HlF).
  { pose proof last_delete as Hlast. assert (head post = fst <$> head (drop (S p) l)) as Hhd by (rewrite head_post, head_lookup, lookup_drop; by rewrite Nat.add_0_r).
    unfold unlinked. destruct (drop (S p) l) as [|e' k]; cbn [head fmap option_fmap option_map] in Hhd; rewrite Hhd.
    - exists h1, (backward nd). split; [done|]. split; [congruence|]. split; [|done]. intros a. by rewrite decide_False.
    - assert (e'.1 ∈ ns) as Hyin by (rewrite head_lookup, lookup_drop in Hhd; by eapply list_elem_of_lookup_2).
      destruct (set_back_ok h1 e'.1 (backward nd)) as (h4 & -> & Hl4 & Hi4).
      { rewrite lookup_info, Hi1, <- lookup_info. by apply (zo_dom _ _ Hok). }
      exists h4, (tail zsl). split; [done|]. split; [done|]. split; [|done]. intros a. rewrite Hi4.
      destruct (decide (a = e'.1)) as [->|]; [rewrite decide_True by done|rewrite decide_False by congruence; by rewrite Hi1]. rewrite Hi1. by rewrite Hb. }
  rewrite Hrun. cbn [mbind option_bind heap set_tail set_heap level_ header].
  pose proof (zo_level _ _ Hok) as Hlv. destruct (lower_level_ok hF (header zsl) (level_ zsl)) as (k' & -> & Hk' & Hnone & Hsome); [|lia|].
  { intros j Hj. apply lev_height. rewrite (unlinked_height hF) by apply HiF. rewrite (ok_header_height zsl l Hok). lia. }
  cbn [mbind option_bind]. exists hF, t, k'. split; [done|]. split; [done|]. split; [done|]. split; [done|].
  split; [intros j u q H1 H2 H3; rewrite HlF; by apply Hupd|]. split; [intros a j H1; rewrite HlF; by apply Hold|]. done.
Qed.

Lemma delete_node_ok : exists zsl1, zslDeleteNode zsl x (map fst ur) = Some zsl1 /\
  let zsl' := set_heap (zslFreeNode (heap zsl1) x) zsl1 in
  zsl_ok zsl' l' /\ header zsl' = header zsl /\ (level_ zsl' <= level_ zsl)%nat /\ tight zsl' l' /\ stops zsl' l' ur p.
Proof using Hok Hp Hlen Hst.
  pose proof p_bound as Hpb. pose proof (ok_ns_length zsl l) as Hns. destruct unlinked_heap as (hF & t & k' & -> & Ht & HiF & Hk' & Hupd & Hold & Hnone & Hsome).
  eexists. split; [reflexivity|]. cbn zeta. unfold zslFreeNode. cbn [heap set_length set_level_ set_tail set_heap header tail length_ level_].
  set (hD := delete x hF). assert (forall a, a <> x -> info hD a = unlinked a) as HiD by (intros a Ha; unfold info, hD; rewrite lookup_delete_ne by done; apply HiF).
  assert (forall a j, a <> x -> lev hD a j = lev hF a j) as HlD by (intros a j Ha; unfold lev, hD; by rewrite lookup_delete_ne by done).
  assert (forall a, a <> x -> height hD a = ht a) as HhD by (intros a Ha; apply unlinked_height; by apply HiD).
  assert (header zsl <> x) as Hhx by (intros Heq; specialize (x_once 0%nat ltac:(by rewrite <- Heq)); lia).
  assert (forall k a j, (pre ++ post) !! k = Some a -> (j < height hD a)%nat -> (j < level_ zsl)%nat -> lev hD a j = Some (next (height hD) j (drop (S k) (pre ++ post)))) as Hlinks.
  { intros k a j. apply links_delete; [done| |intros b i H1 H2; rewrite HlD by done; by apply Hold].
    intros j' u q H1 H2 H3. rewrite HlD; [by apply Hupd|]. destruct (stop_del j' H1) as (u' & q' & Hu' & _ & _ & Hux & _). congruence. }
  assert (length pre = S p) as Hpre by (rewrite length_take; lia).
  assert (forall a, a ∈ pre ++ post <-> a ∈ ns /\ a <> x) as Hin.
  { intros a. assert (a ∈ ns <-> a ∈ pre \/ a = x \/ a ∈ post) as -> by (rewrite ns_split at 1; by rewrite elem_of_app, elem_of_cons).
    assert (x ∉ pre) by (intros [i Hi]%list_elem_of_lookup; apply lookup_take_Some in Hi as [Hi ?]; apply x_once in Hi; lia).
    pose proof x_not_post. rewrite elem_of_app. split; [|tauto]. intros [Ha|Ha]; (split; [tauto|]); by intros ->. }
  pose proof (ok_header_height zsl l Hok) as Hhh. pose proof (zo_level _ _ Hok) as Hlv.
  assert (forall a, a ∈ l'.*1 -> (1 <= height hD a <= level_ zsl)%nat) as Hnode.
  { intros a ([b [s o]] & -> & [i Hi]%list_elem_of_lookup)%list_elem_of_fmap. destruct (node_delete hD i b s o HiD Hi) as (n & Hin' & Hn & _). cbn [fst]. by rewrite (info_height _ _ _ _ _ _ Hin'). }
  assert (forall j, (j < level_ zsl)%nat -> lev hD (header zsl) j = Some (next (height hD) j l'.*1)) as Hheader.
  { intros j Hj. rewrite (Hlinks 0%nat (header zsl) j); [|done|rewrite HhD by done; lia|done]. rewrite <- ns_delete. done. }
  assert (forall a, a ∈ l'.*1 -> (height hD a <= k')%nat) as Hlow.
  { intros a Ha. destruct (decide (height hD a <= k')%nat) as [|Hgt]; [done|]. exfalso. pose proof (Hnode a Ha) as Hna.
    destruct (Hnone (height hD a - 1)%nat ltac:(lia)) as [s Hs]. rewrite <- HlD, Hheader in Hs by (done || lia).
    destruct (low_or_hit (height hD) (height hD a - 1) l'.*1) as [Hall|(r1 & y & r2 & Heq & Hr & Hy)].
    - rewrite Forall_forall in Hall. specialize (Hall a Ha). lia.
    - rewrite Heq, next_hit in Hs by done. done. }
  assert (length_ zsl = Z.of_nat (length l)) as Hzl by apply Hok. pose proof (zo_few _ _ Hok) as Hfew. unfold zlen in Hfew.
  assert (length l' = (length l - 1)%nat) as Hl' by (rewrite length_app, length_take, length_drop; lia).
  split; [|split; [done|split; [lia|split]]].
  - split; unfold nodes; cbn [heap set_length set_level_ set_tail set_heap header tail length_ level_].
    + rewrite ns_delete. assert (NoDup (x :: pre ++ post)) as Hnd by (rewrite Permutation_middle, <- ns_split; apply Hok). by apply NoDup_cons in Hnd as [_ Hnd].
    + intros a. rewrite ns_delete, Hin, <- (zo_dom _ _ Hok a). unfold hD. destruct (decide (a = x)) as [->|Ha]; [rewrite lookup_delete_eq; split; [by intros [? ?]|tauto]|].
      rewrite lookup_delete_ne, !lookup_info, HiF by done. unfold unlinked. destruct (decide _); [rewrite fmap_is_Some|]; tauto.
    + destruct (zo_header _ _ Hok) as [s Hs]. exists s. rewrite HiD by done. unfold unlinked. rewrite decide_False; [done|].
      rewrite head_lookup, lookup_drop. intros Hd. pose proof (NoDup_lookup ns _ 0%nat _ (zo_nodup _ _ Hok) Hd eq_refl). lia.
    + intros i Hi. destruct (decide (i < level_ zsl)%nat) as [Hil|Hil].
      * destruct (Hnone i ltac:(lia)) as [s Hs]. by rewrite HlD, Hs by done.
      * rewrite HlD, Hold by (done || lia). apply Hok. lia.
    + intros k a s ob Hk. destruct (node_delete hD k a s ob HiD Hk) as (n & Hn1 & Hn2 & Hn3). exists n. split; [done|]. split; [lia|].
      rewrite <- (info_height _ _ _ _ _ _ Hn1). apply Hlow. apply list_elem_of_fmap. exists (a, (s, ob)). split; [done|]. by eapply list_elem_of_lookup_2.
    + intros k a j. rewrite ns_delete. intros Hk Hhj Hj. apply Hlinks; [done|done|lia].
    + done.
    + rewrite Hzl. unfold zlen. rewrite Hl', uwrap_small by lia. lia.
    + lia.
    + unfold zlen. lia.
  - destruct Hsome as [->|(y & s & Hs)]; [by left|]. right. cbn [heap set_length set_level_ set_tail set_heap level_]. rewrite <- HlD, Hheader in Hs by (done || lia).
    injection Hs as Hs. assert ((next (height hD) (k' - 1) l'.*1).1 = Some y) as Hnx by by rewrite Hs. apply next_in in Hnx as [Hyin Hyh]. exists y. split; [done|].
    specialize (Hlow y Hyin). lia.
  - intros j u r Hj. destruct (Hst j u r Hj) as (q & -> & Hu & Hqp & (a & Ha & Hha) & Hlo). exists q. split; [done|].
    unfold last_high, nodes. cbn [heap set_length set_level_ set_tail set_heap header]. rewrite ns_delete.
    assert (forall i, (i <= p)%nat -> (pre ++ post) !! i = ns !! i) as Hsame by (intros i Hi; rewrite lookup_app_l, lookup_take_lt by lia; done).
    assert (forall i b, (i <= p)%nat -> ns !! i = Some b -> b <> x) as Hbx by (intros i b Hi Hb ->; apply x_once in Hb; lia).
    split; [by rewrite Hsame|]. split; [done|]. split; [exists a; rewrite Hsame, (HhD a (Hbx q a Hqp Ha)) by done; done|].
    intros i b Hi Hb. assert (i <= p)%nat as Hip by lia. rewrite Hsame in Hb by done. rewrite (HhD b (Hbx i b Hip Hb)). by apply (Hlo i).
Qed.
End delete.
