(* ===== verification/ZskiplistOrder.v ===== *)
(** * Skip lists: the order of the elements (src/redis-2.8.19/src/t_zset.c)

    Scores that are numbers are ordered, strings are ordered byte by byte, and the
    elements by score and then by string. A test that holds for an initial part of a
    sorted list is known by the length of that part. *)
From S2P Require Import Prelude Util Sds Object Dict Zskiplist ZskiplistSpec.
From Stdlib Require Import QArith Lqa.
Open Scope Z_scope.

(** ** Scores *)

Definition num (x : double) : Prop := isnan x = false.

Lemma Qlt_neg_le a b : negb (Qle_bool b a) = true <-> (a < b)%Q.
Proof. rewrite negb_true_iff. rewrite <- not_true_iff_false, Qle_bool_iff. split; [apply Qnot_le_lt|apply Qlt_not_le]. Qed.

Lemma dlt_irrefl x : dlt x x = false.
Proof. destruct x; try done. cbn. apply negb_false_iff, Qle_bool_iff, Qle_refl. Qed.

Lemma deq_refl x : num x -> deq x x = true.
Proof. destruct x; try done. intros _. cbn. by apply Qeq_bool_iff. Qed.

Lemma deq_sym x y : deq x y = true -> deq y x = true.
Proof. destruct x, y; try done. cbn. rewrite !Qeq_bool_iff. by intros ->. Qed.

Lemma deq_trans x y z : deq x y = true -> deq y z = true -> deq x z = true.
Proof. destruct x, y, z; try done. cbn. rewrite !Qeq_bool_iff. by intros -> ->. Qed.

Lemma dlt_trans x y z : dlt x y = true -> dlt y z = true -> dlt x z = true.
Proof. destruct x, y, z; try done. cbn. rewrite !Qlt_neg_le. apply Qlt_trans. Qed.

Lemma dlt_deq x y z : dlt x y = true -> deq y z = true -> dlt x z = true.
Proof. destruct x, y, z; try done. cbn. rewrite !Qlt_neg_le, Qeq_bool_iff. by intros H <-. Qed.

Lemma deq_dlt x y z : deq x y = true -> dlt y z = true -> dlt x z = true.
Proof. destruct x, y, z; try done. cbn. rewrite !Qlt_neg_le, Qeq_bool_iff. by intros ->. Qed.

Lemma dlt_deq_no x y : dlt x y = true -> deq x y = true -> False.
Proof. intros H1 H2. pose proof (dlt_deq x y x H1 (deq_sym _ _ H2)) as H. by rewrite dlt_irrefl in H. Qed.

Lemma dlt_asym x y : dlt x y = true -> dlt y x = true -> False.
Proof. intros H1 H2. pose proof (dlt_trans x y x H1 H2) as H. by rewrite dlt_irrefl in H. Qed.

Lemma d_trichotomy x y : num x -> num y -> dlt x y = true \/ deq x y = true \/ dlt y x = true.
Proof.
  destruct x as [| |a|], y as [| |b|]; intros Hx Hy; try done; try (by cbn; auto). cbn. rewrite !Qlt_neg_le, Qeq_bool_iff.
  destruct (Q_dec a b) as [[|]|]; auto.
Qed.

Lemma dle_total x y : num x -> num y -> dle x y = negb (dlt y x).
Proof.
  intros Hx Hy. unfold dle. destruct (dlt y x) eqn:H; cbn.
  - apply orb_false_iff. split; [by destruct (dlt x y) eqn:E; [exfalso; by eapply dlt_asym|]|].
    destruct (deq x y) eqn:E; [|done]. exfalso. by eapply dlt_deq_no, deq_sym.
  - destruct (d_trichotomy x y Hx Hy) as [->|[->|?]]; [done|by rewrite orb_true_r|congruence].
Qed.

(** ** Strings *)

Definition short (o : bytes) : Prop := zlen o < 2 ^ 31.

Lemma compareDecoded_lex a b : short a -> short b -> Z.compare (compareDecoded a b) 0 = lex_cmp a b.
Proof.
  unfold short, compareDecoded. intros Ha Hb. pose proof (zlen_nonneg a). pose proof (zlen_nonneg b).
  rewrite swrap_small by (unfold sfits; lia).
  assert (Z.to_nat (if zlen a <? zlen b then zlen a else zlen b) = Nat.min (length a) (length b)) as -> by (unfold zlen in *; destruct (Z.ltb_spec (Z.of_nat (length a)) (Z.of_nat (length b))); lia).
  clear. revert b. induction a as [|x a IH]; intros [|y b]; cbn [length Nat.min take memcmp lex_cmp Z.eqb].
  - done.
  - rewrite zlen_cons. change (zlen (@nil Z)) with 0. pose proof (zlen_nonneg b). apply Z.compare_lt_iff. lia.
  - rewrite zlen_cons. change (zlen (@nil Z)) with 0. pose proof (zlen_nonneg a). apply Z.compare_gt_iff. lia.
  - destruct (Z.eqb_spec x y) as [->|Hne].
    + rewrite Z.compare_refl, !zlen_cons, <- IH. by replace (1 + zlen a - (1 + zlen b)) with (zlen a - zlen b) by lia.
    + destruct (Z.eqb_spec (x - y) 0); [lia|]. destruct (Z.compare_spec x y); [lia|apply Z.compare_lt_iff; lia|apply Z.compare_gt_iff; lia].
Qed.

Lemma lex_eq a : forall b, lex_cmp a b = Eq <-> a = b.
Proof.
  induction a as [|x a IH]; intros [|y b]; cbn [lex_cmp]; try done. destruct (Z.compare_spec x y) as [->|H|H].
  - rewrite IH. split; [by intros ->|by intros [= ->]].
  - split; [done|]. intros [= -> _]. lia.
  - split; [done|]. intros [= -> _]. lia.
Qed.

Lemma lex_antisym a : forall b, lex_cmp b a = CompOpp (lex_cmp a b).
Proof. induction a as [|x a IH]; intros [|y b]; cbn [lex_cmp]; try done. rewrite (Z.compare_antisym x y). destruct (x ?= y); cbn; [apply IH|done|done]. Qed.

Lemma lex_trans a : forall b c, lex_cmp a b = Lt -> lex_cmp b c = Lt -> lex_cmp a c = Lt.
Proof.
  induction a as [|x a IH]; intros [|y b] [|z c]; cbn [lex_cmp]; try done.
  destruct (Z.compare_spec x y), (Z.compare_spec y z), (Z.compare_spec x z); subst; try done; try lia. apply IH.
Qed.

Lemma cmp_lt a b : short a -> short b -> (compareDecoded a b <? 0) = true <-> lex_cmp a b = Lt.
Proof. intros Ha Hb. rewrite <- compareDecoded_lex by done. rewrite Z.ltb_lt. split; apply Z.compare_lt_iff. Qed.

Lemma cmp_eq a b : short a -> short b -> (compareDecoded a b =? 0) = true <-> a = b.
Proof. intros Ha Hb. rewrite <- lex_eq, <- compareDecoded_lex by done. rewrite Z.eqb_eq. split; apply Z.compare_eq_iff. Qed.

(** ** Elements *)

Abbreviation pair := (double * bytes)%type.

Definition elt_ok (e : pair) : Prop := num e.1 /\ short e.2.

Definition lt_elt (a b : pair) : Prop := dlt a.1 b.1 = true \/ deq a.1 b.1 = true /\ lex_cmp a.2 b.2 = Lt.

#[global] Instance lt_elt_trans : Transitive lt_elt.
Proof.
  intros [s a] [t b] [u c]. unfold lt_elt. cbn. intros [H1|[H1 L1]] [H2|[H2 L2]].
  - left. by eapply dlt_trans.
  - left. by eapply dlt_deq.
  - left. by eapply deq_dlt.
  - right. split; [by eapply deq_trans|by eapply lex_trans].
Qed.

Lemma lt_elt_irrefl e : ~ lt_elt e e.
Proof. intros [H|[_ H]]; [by rewrite dlt_irrefl in H|]. assert (lex_cmp e.2 e.2 = Eq) by by apply lex_eq. congruence. Qed.

Lemma lt_elt_total a b : elt_ok a -> elt_ok b -> a.2 <> b.2 -> lt_elt a b \/ lt_elt b a.
Proof.
  intros [Ha _] [Hb _] Hne. unfold lt_elt. destruct (d_trichotomy a.1 b.1 Ha Hb) as [|[H|]]; [by left; left| |by right; left].
  destruct (lex_cmp a.2 b.2) eqn:L; [by apply lex_eq in L|left; right; done|]. right. right. split; [by apply deq_sym|]. by rewrite lex_antisym, L.
Qed.

(** The elements of a list are in order, and their strings distinct. *)
Record sorted (l : list pair) : Prop := {
  so_order : StronglySorted lt_elt l;
  so_ok : Forall elt_ok l;
  so_distinct : NoDup l.*2
}.

(** ** Tests that hold for an initial part *)

Fixpoint prefix_len {A} (f : A -> bool) (l : list A) : nat :=
  match l with
  | a :: l => if f a then S (prefix_len f l) else O
  | [] => O
  end.

Lemma prefix_len_bound {A} (f : A -> bool) l : (prefix_len f l <= length l)%nat.
Proof. induction l as [|a l IH]; cbn [prefix_len]; [done|]. destruct (f a); cbn; lia. Qed.

Lemma prefix_len_in {A} (f : A -> bool) l : forall q a, l !! q = Some a -> (q < prefix_len f l)%nat -> f a = true.
Proof.
  induction l as [|b l IH]; intros q a; cbn [prefix_len]; [done|]. destruct (f b) eqn:Hb; [|lia]. destruct q as [|q]; [by intros [= <-]|].
  intros Hq Hlt. apply (IH q a Hq). lia.
Qed.

Lemma prefix_len_stop {A} (f : A -> bool) l a : l !! prefix_len f l = Some a -> f a = false.
Proof. induction l as [|b l IH]; cbn [prefix_len]; [done|]. destruct (f b) eqn:Hb; [apply IH|]. by intros [= <-]. Qed.

(** A test that fails from some element on. *)
Definition downward (l : list pair) (f : pair -> bool) : Prop :=
  forall i j a b, (i < j)%nat -> l !! i = Some a -> l !! j = Some b -> f b = true -> f a = true.

Lemma prefix_len_iff l f q a : downward l f -> l !! q = Some a -> f a = bool_decide (q < prefix_len f l)%nat.
Proof.
  intros Hd Ha. destruct (bool_decide_reflect (q < prefix_len f l)%nat) as [Hlt|Hge]; [by eapply prefix_len_in|].
  destruct (f a) eqn:Hfa; [|done]. exfalso. destruct (lookup_lt_is_Some_2 l (prefix_len f l)) as [b Hb]; [apply lookup_lt_Some in Ha; lia|].
  pose proof (prefix_len_stop f l b Hb) as Hfb. destruct (decide (prefix_len f l = q)) as [Heq|Hne]; [congruence|].
  rewrite (Hd (prefix_len f l) q b a) in Hfb; [done|lia|done|done|done].
Qed.

Lemma sorted_lookup l i j a b : sorted l -> (i < j)%nat -> l !! i = Some a -> l !! j = Some b -> lt_elt a b.
Proof.
  intros [Hs _ _]. revert i j. induction Hs as [|c l Hs IH Hc]; intros i j Hij Hi Hj; [done|].
  destruct i as [|i]; [injection Hi as <-; destruct j as [|j]; [lia|]; rewrite Forall_lookup in Hc; by apply (Hc j)|].
  destruct j as [|j]; [lia|]. apply (IH i j); [lia|done|done].
Qed.

(** The test of the search for an element. *)
Definition before (sc : double) (o : bytes) (e : pair) : bool := dlt e.1 sc || (deq e.1 sc && (compareDecoded e.2 o <? 0)).

Lemma before_iff sc o e : elt_ok (sc, o) -> elt_ok e -> before sc o e = true <-> lt_elt e (sc, o).
Proof.
  intros [_ Ho] [_ He]. cbn in Ho. unfold before, lt_elt. rewrite orb_true_iff, andb_true_iff, cmp_lt by done. done.
Qed.

Lemma before_downward l sc o : sorted l -> elt_ok (sc, o) -> downward l (before sc o).
Proof.
  intros Hs Ho i j a b Hij Ha Hb Hf. pose proof (so_ok _ Hs) as Hok. rewrite Forall_lookup in Hok.
  apply before_iff in Hf; [|done|by eapply Hok]. apply before_iff; [done|by eapply Hok|]. etrans; [|exact Hf]. by eapply sorted_lookup.
Qed.

Lemma StronglySorted_split l p : StronglySorted lt_elt l -> StronglySorted lt_elt (take p l) /\ StronglySorted lt_elt (drop p l).
Proof. intros H. rewrite <- (take_drop p l) in H. apply StronglySorted_app in H. tauto. Qed.

(** A new element at its place. *)
Lemma sorted_insert l sc o : sorted l -> elt_ok (sc, o) -> o ∉ l.*2 ->
  sorted (take (prefix_len (before sc o) l) l ++ (sc, o) :: drop (prefix_len (before sc o) l) l).
Proof.
  intros Hs He Hn. set (p := prefix_len (before sc o) l). pose proof (so_ok _ Hs) as Hok. rewrite Forall_lookup in Hok.
  assert (forall q e, l !! q = Some e -> (q < p)%nat -> lt_elt e (sc, o)) as Hlo.
  { intros q e Hq Hlt. apply before_iff; [done|by eapply Hok|]. by eapply prefix_len_in. }
  assert (forall q e, l !! q = Some e -> (p <= q)%nat -> lt_elt (sc, o) e) as Hhi.
  { intros q e Hq Hge. destruct (lt_elt_total (sc, o) e) as [|Hlt]; [done|by eapply Hok| |done|].
    - cbn. intros ->. apply Hn. apply list_elem_of_fmap. exists e. split; [done|]. by eapply list_elem_of_lookup_2.
    - apply before_iff in Hlt; [|done|by eapply Hok]. rewrite (prefix_len_iff l (before sc o) q e) in Hlt by (done || by apply before_downward).
      apply bool_decide_eq_true in Hlt. fold p in Hlt. lia. }
  split.
  - apply StronglySorted_app_2; [|apply StronglySorted_split, Hs|constructor; [apply StronglySorted_split, Hs|]].
    + intros a b [i Ha]%list_elem_of_lookup Hb. apply lookup_take_Some in Ha as [Ha Hi]. specialize (Hlo i a Ha Hi). apply elem_of_cons in Hb as [->|[j Hb]%list_elem_of_lookup]; [done|].
      rewrite lookup_drop in Hb. etrans; [exact Hlo|]. apply (Hhi (p + j)%nat); [done|lia].
    + apply Forall_lookup. intros j b Hb. rewrite lookup_drop in Hb. apply (Hhi (p + j)%nat); [done|lia].
  - rewrite <- Permutation_middle, take_drop. constructor; [done|apply Hs].
  - rewrite <- Permutation_middle, take_drop. cbn [fmap list_fmap snd]. constructor; [done|apply Hs].
Qed.

Lemma sorted_sublist l k : k `sublist_of` l -> sorted l -> sorted k.
Proof.
  intros Hsub [H1 H2 H3]. split.
  - clear - H1 Hsub. induction Hsub as [|a k l Hsub IH|a k l Hsub IH]; [done| |]; apply StronglySorted_inv in H1 as [H1 Ha]; [|by apply IH].
    constructor; [by apply IH|]. rewrite Forall_forall in *. intros x Hx. apply Ha. by eapply sublist_subseteq.
  - rewrite Forall_forall in *. intros x Hx. apply H2. by eapply sublist_subseteq.
  - eapply sublist_NoDup; [exact H3|]. by apply fmap_sublist.
Qed.

Lemma cut_sublist {A} (l : list A) p m : take p l ++ drop (p + m) l `sublist_of` l.
Proof. rewrite <- (take_drop p l) at 3. apply sublist_app; [done|]. rewrite <- drop_drop. apply sublist_drop. Qed.

(** A part taken out. *)
Lemma sorted_remove l p m : sorted l -> sorted (take p l ++ drop (p + m) l).
Proof. apply sorted_sublist, cut_sublist. Qed.
