(* ===== verification/ZskiplistOps.v ===== *)
(** * Skip lists: what the operations do (src/redis-2.8.19/src/t_zset.c)

    A skip list is the sorted list of its elements: insertion, deletion, the ranks, the
    ends of a range and the deletion of a range are those of the list. *)
From S2P Require Import Prelude Util Sds Object Dict DictIter DictBound Zskiplist ZskiplistSpec ZskiplistInsert ZskiplistDelete ZskiplistOrder.
Open Scope Z_scope.

Record is_zsl (zsl : zskiplist) (l : list elt) : Prop := {
  iz_ok : zsl_ok zsl l;
  iz_tight : tight zsl l;
  iz_sorted : sorted l.*2
}.

Lemma create_ok junk hd : is_zsl (zslCreate junk hd) [].
Proof.
  split; [|by left|split; [constructor|constructor|constructor]]. unfold zslCreate. split; cbn [heap header tail length_ level_ nodes fmap list_fmap last].
  - apply NoDup_singleton.
  - intros a. rewrite lookup_singleton_is_Some. change (hd = a <-> a ∈ [hd]). rewrite list_elem_of_singleton. by split.
  - eexists. unfold info. by rewrite lookup_singleton_eq.
  - intros i Hi. unfold lev. rewrite lookup_singleton_eq. cbn [mbind option_bind level set_level set_backward zslCreateNode].
    rewrite list_lookup_fmap, lookup_replicate_2 by lia. done.
  - done.
  - intros [|k] a i; [|done]. intros [= <-] Hh Hi. unfold lev. rewrite lookup_singleton_eq. cbn [mbind option_bind level set_level set_backward zslCreateNode].
    rewrite list_lookup_fmap, lookup_replicate_2 by (unfold ZSKIPLIST_MAXLEVEL; lia). done.
  - done.
  - done.
  - unfold ZSKIPLIST_MAXLEVEL. lia.
  - done.
Qed.

Section ops.
Context (zsl : zskiplist) (l : list elt) (Hz : is_zsl zsl l).
Abbreviation h := (heap zsl).
Abbreviation ns := (nodes zsl l).

Lemma z_ok : zsl_ok zsl l.
Proof using Hz. apply Hz. Qed.

Lemma node_at q a s o : l !! q = Some (a, (s, o)) -> exists n, h !! a = Some n /\ obj n = Some o /\ score n = s.
Proof using Hz.
  intros Hq. destruct (zo_nodes _ _ z_ok _ _ _ _ Hq) as (ht & Hi & _). apply info_node in Hi as (n & Hn & Ho & Hs & _). by exists n.
Qed.

Lemma pair_at q e : l.*2 !! q = Some e -> exists a, l !! q = Some (a, e).
Proof using Type. intros (x & Hx & ->)%list_lookup_fmap_Some. exists x.1. rewrite Hx. by destruct x. Qed.

Lemma elt_ok_at q a e : l !! q = Some (a, e) -> elt_ok e.
Proof using Hz. intros Hq. pose proof (so_ok _ (iz_sorted _ _ Hz)) as Hok. rewrite Forall_lookup in Hok. apply (Hok q). by rewrite list_lookup_fmap, Hq. Qed.

(** A test of the elements, which holds for the first ones. *)
Lemma test_prefix f test : downward l.*2 f ->
  (forall q a s o n, l !! q = Some (a, (s, o)) -> h !! a = Some n -> obj n = Some o -> score n = s -> test (Z.of_nat (S q)) n = f (s, o)) ->
  test_at zsl l test (prefix_len f l.*2).
Proof using Hz.
  intros Hd Ht. split; [rewrite prefix_len_bound, length_fmap; done|]. intros q a n Hq Hn. rewrite nodes_S in Hq. apply fmap_Some in Hq as ([a' [s o]] & Hq & ->). cbn [fst] in *.
  destruct (node_at q a' s o Hq) as (n' & Hn' & Ho & Hs). assert (n' = n) as -> by congruence. rewrite (Ht q a' s o n Hq Hn Ho Hs).
  rewrite (prefix_len_iff l.*2 f q (s, o) Hd) by by rewrite list_lookup_fmap, Hq. apply bool_decide_ext. lia.
Qed.

Lemma before_test sc o : elt_ok (sc, o) -> test_at zsl l (fun _ => before_elt sc o) (prefix_len (before sc o) l.*2).
Proof using Hz.
  intros He. apply test_prefix; [apply before_downward; [apply Hz|done]|]. intros q a s ob n _ _ Ho Hs. unfold before_elt, before. by rewrite Ho, Hs.
Qed.

(** Where an element is, the search for it stops just before. *)
Lemma before_at q a s o sc : l !! q = Some (a, (s, o)) -> deq s sc = true -> prefix_len (before sc o) l.*2 = q.
Proof using Hz.
  intros Hq Hs. pose proof (elt_ok_at q a _ Hq) as [Hn Ho]. cbn in Hn, Ho. assert (elt_ok (sc, o)) as He by (split; [by destruct s, sc|done]).
  pose proof (before_downward _ sc o (iz_sorted _ _ Hz) He) as Hd. assert (l.*2 !! q = Some (s, o)) as Hq2 by by rewrite list_lookup_fmap, Hq.
  assert (before sc o (s, o) = false) as Hself.
  { apply not_true_iff_false. rewrite before_iff by done. unfold lt_elt. cbn. intros [Hlt|[_ Hlt]]; [by eapply dlt_deq_no|].
    assert (lex_cmp o o = Eq) by by apply lex_eq. congruence. }
  rewrite (prefix_len_iff _ _ q _ Hd Hq2) in Hself. apply bool_decide_eq_false in Hself.
  destruct (decide (prefix_len (before sc o) l.*2 < q)%nat) as [Hlt|]; [|lia]. exfalso.
  destruct (lookup_lt_is_Some_2 l.*2 (prefix_len (before sc o) l.*2)) as [b Hb]; [apply lookup_lt_Some in Hq2; lia|].
  pose proof (prefix_len_stop _ _ _ Hb) as Hfb. rewrite <- not_true_iff_false in Hfb. apply Hfb. pose proof (so_ok _ (iz_sorted _ _ Hz)) as Hok. rewrite Forall_lookup in Hok.
  apply before_iff; [done|by eapply Hok|]. pose proof (sorted_lookup _ _ _ _ _ (iz_sorted _ _ Hz) Hlt Hb Hq2) as [Hl|[Hl Hlx]]; [left; by eapply dlt_deq|right].
  split; [by eapply deq_trans|done].
Qed.

(** ** Insertion *)

Lemma random_level_ok rnd lvl : zslRandomLevel rnd = Some lvl -> (1 <= lvl <= ZSKIPLIST_MAXLEVEL)%nat \/ exists k, random_level rnd 1 = Some k /\ k <= 0.
Proof using Type.
  unfold zslRandomLevel. destruct (random_level rnd 1) as [k|]; [|done]. cbn. intros [= <-]. destruct (decide (k <= 0)) as [Hk|Hk]; [right; by exists k|left].
  change (Z.of_nat ZSKIPLIST_MAXLEVEL) with 32. unfold ZSKIPLIST_MAXLEVEL. destruct (Z.ltb_spec k 32); lia.
Qed.

Lemma random_level_pos rnd : forall k r, Z.of_nat (length rnd) + k < 2 ^ 31 -> 1 <= k -> random_level rnd k = Some r -> 1 <= r.
Proof using Type.
  induction rnd as [|x rnd IH]; intros k r Hb Hk; cbn [random_level length]; [done|]. destruct (_ <? _); [|by intros [= <-]].
  cbn [length] in Hb. rewrite swrap_small by (unfold sfits; lia). apply IH; lia.
Qed.

(** The list with an element at its place. *)
Definition placed (x : nat) (e : pair) (l : list elt) : list elt :=
  take (prefix_len (before e.1 e.2) l.*2) l ++ (x, e) :: drop (prefix_len (before e.1 e.2) l.*2) l.

Lemma placed_perm x e : placed x e l ≡ₚ (x, e) :: l.
Proof using Type. unfold placed. by rewrite <- Permutation_middle, take_drop. Qed.

Lemma insert_ok junk rnd x sc o lvl : elt_ok (sc, o) -> o ∉ l.*2.*2 -> h !! x = None -> zlen l + 1 < 2 ^ 31 -> zslRandomLevel rnd = Some lvl -> (1 <= lvl <= ZSKIPLIST_MAXLEVEL)%nat ->
  exists zsl', zslInsert junk rnd x zsl sc o = Some zsl' /\ is_zsl zsl' (placed x (sc, o) l) /\ header zsl' = header zsl.
Proof using Hz.
  intros He Hn Hx Hfew Hrnd Hlvl. unfold zslInsert. assert (isnan sc = false) as -> by (destruct He as [Hnum _]; by destruct sc). set (p := prefix_len (before sc o) l.*2).
  pose proof (before_test sc o He) as Ht. fold p in Ht. destruct Ht as [Hp Ht]. destruct (search_ok zsl l z_ok 32 (fun _ => before_elt sc o) p ltac:(lia) (conj Hp Ht)) as (ur & -> & Hlen & Hst).
  cbn [mbind option_bind]. rewrite Hrnd. cbn [mbind option_bind]. change (placed x (sc, o) l) with (take p l ++ (x, (sc, o)) :: drop p l). set (l' := take p l ++ (x, (sc, o)) :: drop p l).
  assert (l' ≡ₚ (x, (sc, o)) :: l) as Hperm by apply (placed_perm x (sc, o)).
  assert (sorted l'.*2) as Hs.
  { unfold l'. rewrite fmap_app, fmap_cons, fmap_take, fmap_drop. by apply sorted_insert; [apply Hz| |]. }
  destruct (Nat.ltb_spec (level_ zsl) lvl) as [Hgrow|Hsame].
  - destruct (grow_ok zsl l z_ok lvl ltac:(lia)) as (h1 & -> & Hi & Hok1). cbn [mbind option_bind].
    pose proof (grow_stops zsl l z_ok lvl h1 ur p ltac:(lia) Hi Hlen Hst) as Hst1. set (zsl1 := set_level_ lvl (set_heap h1 zsl)) in *.
    destruct (insert_node_ok junk zsl1 l Hok1 p Hp (ur ++ replicate (lvl - level_ zsl) (header zsl, 0)) ltac:(rewrite length_app, length_replicate, Hlen; cbn; lia) Hst1 x lvl ltac:(cbn; lia)) with (sc := sc) (o := o)
      as (zsl' & -> & Hok' & Hh' & Hl' & Hht); [|done|].
    { cbn [heap zsl1 set_level_ set_heap]. apply eq_None_not_Some. rewrite lookup_info, Hi, <- lookup_info. rewrite Hx. by intros [? ?]. }
    exists zsl'. split; [done|]. split; [split; [done| |done]|done]. right. exists x. split; [rewrite Hperm; by left|]. by rewrite Hht, decide_True, Hl'.
  - cbn [mbind option_bind]. destruct (insert_node_ok junk zsl l z_ok p Hp ur Hlen Hst x lvl ltac:(lia) Hx Hfew sc o) as (zsl' & -> & Hok' & Hh' & Hl' & Hht).
    exists zsl'. split; [done|]. split; [split; [done| |done]|done]. unfold tight. rewrite Hl'. destruct (iz_tight _ _ Hz) as [|(a & Ha & Hta)]; [by left|right].
    exists a. split; [rewrite Hperm; by right|]. rewrite Hht. rewrite decide_False; [done|]. intros ->.
    assert (x ∈ ns) as Hin by (by right). apply (zo_dom _ _ z_ok) in Hin as [? ?]. congruence.
Qed.

(** ** Deletion *)

Lemma delete_at q a s o : l !! q = Some (a, (s, o)) -> forall sc, deq sc s = true ->
  exists zsl', zslDelete zsl sc o = Some (zsl', true) /\ is_zsl zsl' (take q l ++ drop (S q) l) /\ header zsl' = header zsl /\ heap zsl' !! a = None.
Proof using Hz.
  intros Hq sc Hsc. pose proof (elt_ok_at q a _ Hq) as [Hn Ho]. cbn in Hn, Ho. assert (elt_ok (sc, o)) as He by (split; [by destruct s, sc|done]).
  unfold zslDelete. pose proof (before_test sc o He) as Ht. rewrite (before_at q a s o sc Hq (deq_sym _ _ Hsc)) in Ht.
  destruct (search_ok zsl l z_ok 64 _ q ltac:(lia) Ht) as (ur & -> & Hlen & Hst). cbn [mbind option_bind]. pose proof (zo_level _ _ z_ok) as Hlv.
  rewrite (after_node_ok zsl l z_ok ur q (proj1 Ht) Hst) by lia. cbn [mbind option_bind]. rewrite nodes_S, Hq. cbn [fmap option_fmap option_map fst].
  destruct (node_at q a s o Hq) as (n & -> & Hob & Hscn). cbn [mbind option_bind]. rewrite Hob. cbn [mbind option_bind]. rewrite Hscn. rewrite Hsc.
  assert ((compareDecoded o o =? 0) = true) as -> by by apply cmp_eq. cbn [andb].
  destruct (delete_node_ok zsl l z_ok q (a, (s, o)) Hq ur ltac:(lia) Hst) as (zsl1 & Hrun & Hok' & Hh' & _ & Htight & _). cbn [fst] in *. rewrite Hrun. cbn [mbind option_bind].
  eexists. split; [done|]. split; [split; [done|done|]|split; [done|unfold zslFreeNode; cbn; apply lookup_delete_eq]].
  rewrite fmap_app, fmap_take, fmap_drop. replace (S q) with (q + 1)%nat by lia. apply sorted_remove, Hz.
Qed.

Lemma delete_absent sc o : elt_ok (sc, o) -> (forall a s, (a, (s, o)) ∈ l -> deq sc s = false) -> zslDelete zsl sc o = Some (zsl, false).
Proof using Hz.
  intros He Hno. unfold zslDelete. pose proof (before_test sc o He) as Ht. set (p := prefix_len _ _) in Ht.
  destruct (search_ok zsl l z_ok 64 _ p ltac:(lia) Ht) as (ur & -> & Hlen & Hst). cbn [mbind option_bind]. pose proof (zo_level _ _ z_ok) as Hlv.
  rewrite (after_node_ok zsl l z_ok ur p (proj1 Ht) Hst) by lia. cbn [mbind option_bind]. rewrite nodes_S.
  destruct (l !! p) as [[a [s ob]]|] eqn:Hp; cbn [fmap option_fmap option_map fst]; [|done].
  destruct (node_at p a s ob Hp) as (n & -> & Hob & Hscn). cbn [mbind option_bind]. rewrite Hob. cbn [mbind option_bind]. rewrite Hscn.
  destruct (deq sc s && _) eqn:Heq; [|done]. apply andb_true_iff in Heq as [Hd Hc]. apply cmp_eq in Hc as ->; [|apply (elt_ok_at p a (s, ob) Hp)|apply He].
  rewrite (Hno a s) in Hd; [done|by eapply list_elem_of_lookup_2].
Qed.

(** ** Ranks *)

Lemma upto_test q a s o : l !! q = Some (a, (s, o)) -> forall sc, deq s sc = true -> test_at zsl l (fun _ => upto_elt sc o) (S q).
Proof using Hz.
  intros Hq sc Hsc. split; [apply lookup_lt_Some in Hq; lia|]. intros j b n Hj Hn. rewrite nodes_S in Hj. apply fmap_Some in Hj as ([b' [s' o']] & Hj & ->). cbn [fst] in *.
  destruct (node_at j b' s' o' Hj) as (n' & Hn' & Ho' & Hs'). assert (n' = n) as -> by congruence. unfold upto_elt. rewrite Ho', Hs'.
  pose proof (elt_ok_at q a _ Hq) as [Hnm Hsh]. pose proof (elt_ok_at j b' _ Hj) as [Hnm' Hsh']. cbn in *.
  assert (l.*2 !! q = Some (s, o)) as Hq2 by by rewrite list_lookup_fmap, Hq. assert (l.*2 !! j = Some (s', o')) as Hj2 by by rewrite list_lookup_fmap, Hj.
  assert ((compareDecoded o' o <=? 0) = negb (compareDecoded o o' <? 0)) as Hle.
  { apply eq_true_iff_eq. rewrite negb_true_iff, <- not_true_iff_false, cmp_lt, lex_antisym by done.
    rewrite Z.leb_le. pose proof (compareDecoded_lex o' o Hsh' Hsh) as Hcl. destruct (lex_cmp o' o); [rewrite Z.compare_eq_iff in Hcl|rewrite Z.compare_lt_iff in Hcl|rewrite Z.compare_gt_iff in Hcl]; cbn; split; intros Hv; try done; try lia; try (intros ?; lia); by destruct Hv. }
  rewrite Hle. destruct (bool_decide_reflect (S j <= S q)%nat) as [Hjq|Hjq].
  - destruct (decide (j = q)) as [->|Hne]; [rewrite Hq in Hj; injection Hj as -> -> ->|].
    + rewrite Hsc. assert ((compareDecoded o' o' <? 0) = false) as ->; [|by rewrite orb_true_r]. apply Z.ltb_ge. assert ((compareDecoded o' o' =? 0) = true) as Hz0 by by apply cmp_eq. lia.
    + destruct (sorted_lookup _ j q _ _ (iz_sorted _ _ Hz) ltac:(lia) Hj2 Hq2) as [Hlt|[Hd Hlx]]; cbn in *; [by rewrite (dlt_deq _ _ _ Hlt Hsc)|].
      rewrite (deq_trans _ _ _ Hd Hsc). assert ((compareDecoded o o' <? 0) = false) as ->; [|by rewrite orb_true_r]. apply not_true_iff_false. rewrite cmp_lt, lex_antisym, Hlx by done. done.
  - destruct (sorted_lookup _ q j _ _ (iz_sorted _ _ Hz) ltac:(lia) Hq2 Hj2) as [Hlt|[Hd Hlx]]; cbn in *.
    + assert (dlt sc s' = true) as Hlt' by (eapply deq_dlt; [by apply deq_sym|done]). apply orb_false_iff. split; [apply not_true_iff_false; intros ?; by eapply dlt_asym|].
      apply andb_false_iff. left. apply not_true_iff_false. intros Hd. by eapply dlt_deq_no, deq_sym.
    + assert ((compareDecoded o o' <? 0) = true) as -> by by apply cmp_lt. rewrite andb_false_r, orb_false_r. apply not_true_iff_false. intros Hlt. eapply dlt_deq_no; [exact Hlt|].
      apply deq_sym. eapply deq_trans; [by apply deq_sym|done].
Qed.

Lemma rank_levels_ok q a s o sc : l !! q = Some (a, (s, o)) -> deq s sc = true -> forall i x k, (0 < i <= level_ zsl)%nat -> ns !! k = Some x -> (k <= S q)%nat ->
  (forall j, (j < i)%nat -> (j < height h x)%nat) ->
  rank_levels (upto_elt sc o) o (S (base.size h)) h i x (Z.of_nat k) = Some (Z.of_nat (S q)).
Proof using Hz.
  intros Hq Hsc. pose proof (upto_test q a s o Hq sc Hsc) as Ht. pose proof (lookup_lt_Some _ _ _ Hq) as Hlen.
  induction i as [|i IH]; intros x k Hi Hx Hk Hh; [lia|]. cbn [rank_levels].
  destruct (walk zsl l z_ok 64 (fun _ => upto_elt sc o) (S q) i (S (base.size h)) ltac:(lia) Ht ltac:(lia) x k Hx (Hh i ltac:(lia)) Hk) as (y & k' & -> & Hy & Hkk & Hlh); [rewrite (ok_size zsl l z_ok); lia|].
  cbn [mbind option_bind]. pose proof Hlh as (Hkq & (y' & Hy' & Hhy) & Hlow). assert (y' = y) as -> by congruence.
  destruct (ns_at zsl l z_ok k') as (y2 & Hy2 & [n Hn]); [lia|]. assert (y2 = y) as -> by congruence. rewrite Hn. cbn [mbind option_bind].
  assert (match obj n with Some xo => compareDecoded xo o =? 0 | None => false end = bool_decide (k' = S q)) as ->.
  { destruct k' as [|k'].
    - injection Hy as <-. destruct (zo_header _ _ z_ok) as [sh Hi']. apply info_node in Hi' as (n' & Hn' & Ho' & _). assert (n' = n) as -> by congruence. by rewrite Ho', bool_decide_eq_false_2.
    - rewrite nodes_S in Hy. apply fmap_Some in Hy as ([b [s' o']] & Hl' & ->). cbn [fst] in *. destruct (node_at k' b s' o' Hl') as (n' & Hn' & Ho' & _). assert (n' = n) as -> by congruence. rewrite Ho'.
      apply eq_true_iff_eq. rewrite cmp_eq, bool_decide_eq_true by (apply (elt_ok_at k' b (s', o') Hl') || apply (elt_ok_at q a (s, o) Hq)). split; [|intros [= ->]; by rewrite Hq in Hl'; injection Hl'].
      intros ->. f_equal. apply (NoDup_lookup l.*2.*2 _ _ o); [apply Hz|by rewrite !list_lookup_fmap, Hl'|by rewrite !list_lookup_fmap, Hq]. }
  destruct (bool_decide_reflect (k' = S q)) as [->|Hne]; [done|]. destruct i as [|i].
  - exfalso. apply Hne. destruct (ns_at zsl l z_ok (S q)) as (z & Hzz & _); [lia|]. apply (last_high_unique zsl l 0 (S q)); [done|]. by eapply (last_high_0 zsl l z_ok).
  - apply IH; [lia|done|done|intros j Hj; lia].
Qed.

Lemma getrank_ok q a s o sc : l !! q = Some (a, (s, o)) -> deq s sc = true -> zslGetRank zsl sc o = Some (Z.of_nat (S q)).
Proof using Hz.
  intros Hq Hsc. unfold zslGetRank. apply (rank_levels_ok q a s o sc Hq Hsc _ (header zsl) 0%nat); [pose proof (zo_level _ _ z_ok); lia|done|lia|].
  intros j Hj. by apply (ok_header_high zsl l z_ok).
Qed.

Lemma element_levels_ok p : (p <= length l)%nat -> forall r, Z.of_nat p <= r < 2 ^ 63 -> (Z.of_nat p < r -> p = length l) -> forall i x k, (0 < i <= level_ zsl)%nat -> ns !! k = Some x -> (k <= p)%nat ->
  (forall j, (j < i)%nat -> (j < height h x)%nat) ->
  element_levels r (S (base.size h)) h i x (Z.of_nat k) = Some (if decide (Z.of_nat p = r) then ns !! p else None).
Proof using Hz.
  intros Hp r Hr Hbeyond. assert (test_at zsl l (fun k _ => k <=? r) p) as Ht.
  { split; [done|]. intros j a n Hj _. apply lookup_lt_Some in Hj. rewrite (ok_ns_length zsl l) in Hj. apply eq_true_iff_eq. rewrite Z.leb_le, bool_decide_eq_true.
    destruct (decide (Z.of_nat p = r)); [lia|]. specialize (Hbeyond ltac:(lia)). lia. }
  induction i as [|i IH]; intros x k Hi Hx Hk Hh; [lia|]. cbn [element_levels].
  destruct (walk zsl l z_ok 64 (fun k _ => k <=? r) p i (S (base.size h)) ltac:(lia) Ht ltac:(lia) x k Hx (Hh i ltac:(lia)) Hk) as (y & k' & -> & Hy & Hkk & Hlh); [rewrite (ok_size zsl l z_ok); lia|].
  cbn [mbind option_bind]. pose proof Hlh as (Hkq & (y' & Hy' & Hhy) & Hlow). assert (y' = y) as -> by congruence.
  destruct (Z.eqb_spec (Z.of_nat k') r) as [Heq|Hne]; [assert (k' = p) as -> by lia; by rewrite decide_True, Hy|].
  destruct i as [|i].
  - cbn [element_levels]. destruct (ns_at zsl l z_ok p Hp) as (z & Hzz & _). assert (k' = p) as -> by (apply (last_high_unique zsl l 0 p); [done|]; by eapply (last_high_0 zsl l z_ok)). by rewrite decide_False.
  - apply IH; [lia|done|done|intros j Hj; lia].
Qed.

Lemma element_ok r : 1 <= r < 2 ^ 63 -> zslGetElementByRank zsl r = Some (fst <$> l !! Z.to_nat (r - 1)).
Proof using Hz.
  intros Hr. unfold zslGetElementByRank. set (p := Nat.min (Z.to_nat r) (length l)).
  rewrite (element_levels_ok p ltac:(unfold p; lia) r ltac:(unfold p; lia) ltac:(unfold p; lia) _ (header zsl) 0%nat); [|pose proof (zo_level _ _ z_ok); lia|done|lia|intros j Hj; by apply (ok_header_high zsl l z_ok)].
  f_equal. destruct (decide (Z.of_nat p = r)) as [Heq|Hne].
  - destruct p as [|p'] eqn:Ep; [lia|]. rewrite nodes_S. by replace (Z.to_nat (r - 1)) with p' by lia.
  - rewrite lookup_ge_None_2; [done|]. unfold p in *. lia.
Qed.

(** ** Freeing *)

Lemma free_nodes_ok fuel : forall q h', (forall a, h' !! a = if decide (a ∈ drop (S q) ns) then h !! a else None) -> (length l - q < fuel)%nat ->
  free_nodes fuel h' (fst <$> l !! q) = Some ∅.
Proof using Hz.
  induction fuel as [|fuel IH]; intros q h' Hh Hf; [lia|]. cbn [free_nodes]. destruct (l !! q) as [[a [s o]]|] eqn:Hq; cbn [fmap option_fmap option_map fst].
  - assert (ns !! S q = Some a) as Ha by by rewrite nodes_S, Hq. pose proof (drop_S ns _ _ Ha) as Hd. apply lookup_lt_Some in Hq.
    assert (lev h' a 0 = lev h a 0) as ->. { unfold lev. rewrite Hh, decide_True; [done|]. rewrite Hd. by left. }
    rewrite (lev_0 zsl l z_ok (S q) a Ha). cbn [mbind option_bind]. rewrite nodes_S. apply IH; [|lia]. intros b. unfold zslFreeNode. destruct (decide (b = a)) as [->|Hb].
    + rewrite lookup_delete_eq. rewrite decide_False; [done|]. pose proof (zo_nodup _ _ z_ok) as Hnd. rewrite <- (take_drop (S q) ns), Hd in Hnd. apply NoDup_app in Hnd as (_ & _ & Hnd). by apply NoDup_cons in Hnd as [? _].
    + rewrite lookup_delete_ne, Hh by done. rewrite Hd. destruct (decide (b ∈ drop (S (S q)) ns)); [rewrite decide_True by (by right); done|]. rewrite decide_False; [done|]. rewrite elem_of_cons. tauto.
  - f_equal. apply map_empty. intros a. rewrite Hh, decide_False; [done|]. apply lookup_ge_None_1 in Hq. rewrite drop_ge by (rewrite (ok_ns_length zsl l); lia). apply not_elem_of_nil.
Qed.

(** No node is left. *)
Lemma free_ok : zslFree zsl = Some ∅.
Proof using Hz.
  unfold zslFree. rewrite (lev_0 zsl l z_ok 0 (header zsl) eq_refl). cbn [mbind option_bind]. rewrite nodes_S. apply free_nodes_ok; [|rewrite (ok_size zsl l z_ok); lia].
  intros a. change (drop 1 ns) with l.*1. pose proof (zo_nodup _ _ z_ok) as [Hh _]%NoDup_cons. destruct (decide (a = header zsl)) as [->|Ha]; [by rewrite lookup_delete_eq, decide_False|].
  rewrite lookup_delete_ne by done. destruct (decide (a ∈ l.*1)) as [Hin|Hin]; [done|]. apply eq_None_not_Some. rewrite (zo_dom _ _ z_ok). unfold nodes. rewrite elem_of_cons. tauto.
Qed.
End ops.
