(* ===== verification/ZskiplistRange.v ===== *)
(** * Skip lists: ranges (src/redis-2.8.19/src/t_zset.c)

    The elements in a range are a segment of the list. The first and the last of them
    are found, and the deletions of a range take exactly the segment out, of the skip
    list and of the dictionary. *)
From S2P Require Import Prelude Util Sds Object Dict DictIter DictBound Zskiplist ZskiplistSpec ZskiplistInsert ZskiplistDelete ZskiplistOrder ZskiplistOps.
Open Scope Z_scope.

(** ** Segments *)

Lemma filter_segment {A} (g f : A -> bool) l : forall p m,
  (forall q a, l !! q = Some a -> g a = bool_decide (p <= q)%nat) -> (forall q a, l !! q = Some a -> f a = bool_decide (q < m)%nat) ->
  List.filter (fun a => g a && f a) l = drop p (take m l).
Proof.
  induction l as [|a l IH]; intros p m Hg Hf; [by rewrite take_nil, drop_nil|]. cbn [List.filter]. rewrite (Hg 0%nat a), (Hf 0%nat a) by done.
  rewrite (IH (pred p) (pred m)).
  - destruct p as [|p], m as [|m]; cbn [pred take drop]; repeat ((rewrite bool_decide_eq_true_2 by lia) || (rewrite bool_decide_eq_false_2 by lia)); cbn [andb]; rewrite ?take_0, ?drop_0, ?drop_nil; done.
  - intros q b Hq. rewrite (Hg (S q) b) by done. apply bool_decide_ext. lia.
  - intros q b Hq. rewrite (Hf (S q) b) by done. apply bool_decide_ext. lia.
Qed.

Lemma head_segment {A} (l : list A) p m : head (drop p (take m l)) = if decide (p < m)%nat then l !! p else None.
Proof.
  rewrite head_lookup, lookup_drop, Nat.add_0_r. destruct (decide _); [by rewrite lookup_take_lt|by rewrite lookup_take_ge by lia].
Qed.

Lemma last_segment {A} (l : list A) p m : (m <= length l)%nat -> last (drop p (take m l)) = if decide (p < m)%nat then l !! (m - 1)%nat else None.
Proof.
  intros Hm. rewrite last_lookup, length_drop, length_take, lookup_drop. destruct (decide _); [rewrite lookup_take_lt by lia|rewrite lookup_take_ge by lia; done].
  f_equal. lia.
Qed.

Lemma downward_ext l f f' : (forall e, e ∈ l -> f e = f' e) -> downward l f -> downward l f'.
Proof.
  intros He Hd i j a b Hij Ha Hb. rewrite <- !He by by eapply list_elem_of_lookup_2. by eapply Hd.
Qed.

(** ** The tests of a range *)

(** [g] and [f] are the tests of a range, on the elements of a list. *)
Record range_ok (r : range) (l : list pair) (g f : pair -> bool) : Prop := {
  ro_gte : forall n o, obj n = Some o -> gte_min r n = g (score n, o);
  ro_lte : forall n o, obj n = Some o -> lte_max r n = f (score n, o);
  ro_up : downward l (fun e => negb (g e));
  ro_down : downward l f;
  ro_never : never r = true -> forall e, e ∈ l -> g e && f e = false
}.

Definition segment (g f : pair -> bool) (l : list elt) : list elt := List.filter (fun e => g e.2 && f e.2) l.

Section range.
Context (zsl : zskiplist) (l : list elt) (Hz : is_zsl zsl l) (r : range) (g f : pair -> bool) (Hr : range_ok r l.*2 g f).
Abbreviation h := (heap zsl).
Abbreviation ns := (nodes zsl l).
Abbreviation lo := (prefix_len (fun e => negb (g e)) l.*2).
Abbreviation hi := (prefix_len f l.*2).

Lemma g_at q e : l !! q = Some e -> g e.2 = bool_decide (lo <= q)%nat.
Proof using Hr.
  intros Hq. rewrite <- (negb_involutive (g e.2)). rewrite (prefix_len_iff l.*2 (fun e => negb (g e)) q e.2 (ro_up _ _ _ _ Hr)) by by rewrite list_lookup_fmap, Hq.
  rewrite <- bool_decide_not. apply bool_decide_ext. lia.
Qed.

Lemma f_at q e : l !! q = Some e -> f e.2 = bool_decide (q < hi)%nat.
Proof using Hr. intros Hq. apply prefix_len_iff; [apply Hr|]. by rewrite list_lookup_fmap, Hq. Qed.

Lemma segment_ok : segment g f l = drop lo (take hi l).
Proof using Hr. apply (filter_segment (fun e => g e.2) (fun e => f e.2)); [apply g_at|apply f_at]. Qed.

Lemma lo_test : test_at zsl l (fun _ n => negb (gte_min r n)) lo.
Proof using Hz Hr.
  apply (test_prefix zsl l Hz (fun e => negb (g e))); [apply Hr|]. intros q a s o n _ _ Ho <-. by rewrite (ro_gte _ _ _ _ Hr n o Ho).
Qed.

Lemma hi_test : test_at zsl l (fun _ => lte_max r) hi.
Proof using Hz Hr.
  apply (test_prefix zsl l Hz f); [apply Hr|]. intros q a s o n _ _ Ho <-. by rewrite (ro_lte _ _ _ _ Hr n o Ho).
Qed.

Lemma gte_at q e : l !! q = Some e -> exists n, h !! e.1 = Some n /\ obj n = Some e.2.2 /\ gte_min r n = g e.2 /\ lte_max r n = f e.2.
Proof using Hz Hr.
  destruct e as [a [s o]]. intros Hq. destruct (node_at zsl l Hz q a s o Hq) as (n & Hn & Ho & <-). exists n. split; [done|]. split; [done|].
  by rewrite (ro_gte _ _ _ _ Hr n o Ho), (ro_lte _ _ _ _ Hr n o Ho).
Qed.

Lemma is_in_range_ok : exists b, is_in_range zsl r = Some b /\ (if b then (lo < length l)%nat /\ (0 < hi)%nat else segment g f l = []).
Proof using Hz Hr.
  pose proof (z_ok zsl l Hz) as Hok. unfold is_in_range. destruct (never r) eqn:Hnv.
  - exists false. split; [done|]. unfold segment. assert (forall e, e ∈ l -> g e.2 && f e.2 = false) as He by (intros e Hin; apply (ro_never _ _ _ _ Hr Hnv), list_elem_of_fmap; eauto).
    clear - He. induction l as [|e k IH]; [done|]. cbn [List.filter]. rewrite (He e) by by left. apply IH. intros x Hx. apply He. by right.
  - rewrite (zo_tail _ _ Hok), last_lookup. rewrite segment_ok.
    destruct (decide (length l = 0)%nat) as [Hl|Hl].
    + apply nil_length_inv in Hl as ->. exists false. done.
    + destruct (lookup_lt_is_Some_2 l (pred (length l))) as [e Hel]; [lia|]. rewrite Hel. cbn [fmap option_fmap option_map].
      destruct (gte_at _ e Hel) as (n & -> & _ & Hg & _). cbn [mbind option_bind]. rewrite Hg, (g_at _ _ Hel). destruct (bool_decide_reflect (lo <= pred (length l))%nat) as [Hlo|Hlo]; cbn [negb].
      * rewrite (lev_0 zsl l Hok 0 (header zsl) eq_refl). cbn [mbind option_bind]. rewrite nodes_S. destruct (lookup_lt_is_Some_2 l 0) as [e0 He0]; [lia|]. rewrite He0. cbn [fmap option_fmap option_map].
        destruct (gte_at _ e0 He0) as (n0 & -> & _ & _ & Hf). cbn [mbind option_bind]. rewrite Hf, (f_at _ _ He0). destruct (bool_decide_reflect (0 < hi)%nat) as [Hh|Hh]; eexists; (split; [done|]).
        -- cbn [negb]; split; lia.
        -- replace hi with 0%nat by lia. by rewrite take_0, drop_nil.
      * exists false. split; [done|]. rewrite drop_ge; [done|]. rewrite length_take. lia.
Qed.

Lemma first_ok : first_in_range zsl r = Some (fst <$> head (segment g f l)).
Proof using Hz Hr.
  pose proof (z_ok zsl l Hz) as Hok. unfold first_in_range. destruct is_in_range_ok as (b & -> & Hb). cbn [mbind option_bind]. destruct b; cbn [negb]; [|by rewrite Hb].
  destruct Hb as [Hlo Hhi]. destruct (search_ok zsl l Hok 64 _ lo ltac:(lia) lo_test) as (ur & -> & Hlen & Hst). cbn [mbind option_bind]. pose proof (zo_level _ _ Hok) as Hlv.
  rewrite (after_node_ok zsl l Hok ur lo) by (done || lia). cbn [mbind option_bind]. rewrite nodes_S. destruct (lookup_lt_is_Some_2 l lo Hlo) as [e He].
  rewrite He. cbn [fmap option_fmap option_map mbind option_bind]. destruct (gte_at _ e He) as (n & -> & _ & _ & Hf). cbn [mbind option_bind]. rewrite Hf, (f_at _ _ He), segment_ok, head_segment, He.
  destruct (bool_decide_reflect (lo < hi)%nat); [by rewrite decide_True|by rewrite decide_False].
Qed.

Lemma last_ok : last_in_range zsl r = Some (fst <$> last (segment g f l)).
Proof using Hz Hr.
  pose proof (z_ok zsl l Hz) as Hok. unfold last_in_range. destruct is_in_range_ok as (b & -> & Hb). cbn [mbind option_bind]. destruct b; cbn [negb]; [|by rewrite Hb].
  destruct Hb as [Hlo Hhi]. destruct (search_ok zsl l Hok 64 _ hi ltac:(lia) hi_test) as (ur & -> & Hlen & Hst). cbn [mbind option_bind]. pose proof (zo_level _ _ Hok) as Hlv.
  pose proof (proj1 hi_test) as Hle. destruct (stops_head zsl l Hok ur hi Hle Hst) as (u & -> & Hu); [lia|]. cbn [mbind option_bind].
  destruct hi as [|m] eqn:Eh; [lia|]. rewrite nodes_S in Hu. apply fmap_Some in Hu as (e & He & ->).
  destruct (gte_at _ e He) as (n & -> & _ & Hg & _). cbn [mbind option_bind]. rewrite Hg, (g_at _ _ He), segment_ok, last_segment, Eh by lia. replace (S m - 1)%nat with m by lia. rewrite He.
  destruct (bool_decide_reflect (lo <= m)%nat); [by rewrite decide_True by lia|by rewrite decide_False by lia].
Qed.
End range.

(** ** Deletion *)

(** The first [m] elements from position [p], and the others. *)
Abbreviation slice p m l := (take m (drop p l)).
Abbreviation without p m l := (take p l ++ drop (p + m) l).

Definition forget {V} (ks : list bytes) (m : gmap bytes V) : gmap bytes V := foldl (fun m k => delete k m) m ks.

Lemma forget_lookup {V} ks : forall (m : gmap bytes V) k, forget ks m !! k = if decide (k ∈ ks) then None else m !! k.
Proof.
  unfold forget. induction ks as [|k' ks IH]; intros m k; cbn [foldl]; [by rewrite decide_False by apply not_elem_of_nil|]. rewrite IH.
  destruct (decide (k ∈ ks)) as [Hk|Hk]; [by rewrite decide_True by by right|]. destruct (decide (k = k')) as [->|Hne].
  - rewrite lookup_delete_eq. by rewrite decide_True by by left.
  - rewrite lookup_delete_ne by done. rewrite decide_False; [done|]. rewrite elem_of_cons. tauto.
Qed.

Section delete_range.
Context (hash : bytes -> Z) (test : Z -> zskiplistNode -> bool).

Lemma delete_while_ok m : forall zsl l p ur (d : dict bytes nat) removed fuel, is_zsl zsl l -> (p + m <= length l)%nat -> (level_ zsl <= length ur)%nat -> stops zsl l ur p ->
  dict_inv hash d -> 0 <= removed -> removed + zlen l < 2 ^ 32 ->
  (forall j e n, l !! (p + j)%nat = Some e -> obj n = Some e.2.2 -> score n = e.2.1 -> test (removed + Z.of_nat j) n = bool_decide (j < m)%nat) -> (m < fuel)%nat ->
  exists zsl' d', delete_while hash test fuel zsl (map fst ur) (nodes zsl l !! S p) d removed = Some (zsl', d', removed + Z.of_nat m) /\
    is_zsl zsl' (without p m l) /\ header zsl' = header zsl /\ dict_inv hash d' /\ to_map d' = forget (slice p m l).*2.*2 (to_map d).
Proof.
  induction m as [|m IH]; intros zsl l p ur d removed fuel Hz Hpm Hlen Hst Hd Hr0 Hr Ht Hf; (destruct fuel as [|fuel]; [lia|]); cbn [delete_while]; rewrite nodes_S.
  - exists zsl, d. rewrite Z.add_0_r, Nat.add_0_r, take_drop. split; [|done]. destruct (l !! p) as [[a [s o]]|] eqn:Hp; [|done]. cbn [fmap option_fmap option_map fst].
    destruct (node_at zsl l Hz p a s o Hp) as (n & -> & Ho & Hs). cbn [mbind option_bind]. rewrite <- (Z.add_0_r removed) at 1. change 0 with (Z.of_nat 0) at 1.
    rewrite (Ht 0%nat (a, (s, o)) n) by (rewrite ?Nat.add_0_r; done). done.
  - destruct (lookup_lt_is_Some_2 l p) as [[a [s o]] Hp]; [lia|]. rewrite Hp. cbn [fmap option_fmap option_map fst].
    destruct (node_at zsl l Hz p a s o Hp) as (n & Hn & Ho & Hs). rewrite Hn. cbn [mbind option_bind].
    assert (test removed n = true) as ->.
    { rewrite <- (Z.add_0_r removed). change 0 with (Z.of_nat 0). rewrite (Ht 0%nat (a, (s, o)) n) by (rewrite ?Nat.add_0_r; done). by apply bool_decide_eq_true_2; lia. }
    pose proof (z_ok zsl l Hz) as Hok. rewrite (lev_0 zsl l Hok (S p) a) by by rewrite nodes_S, Hp. cbn [mbind option_bind].
    destruct (delete_node_ok zsl l Hok p (a, (s, o)) Hp ur Hlen Hst) as (zsl1 & Hrun & Hok' & Hh' & Hlv' & Htight & Hst'). cbn [fst] in *. rewrite Hrun. cbn [mbind option_bind]. rewrite Ho. cbn [mbind option_bind].
    destruct (dictDelete_inv hash d o Hd) as (d1 & st & fr & -> & Hd1 & Hm1 & _). cbn [mbind option_bind].
    set (zsl2 := set_heap (zslFreeNode (heap zsl1) a) zsl1) in *. set (l1 := take p l ++ drop (S p) l) in *.
    assert (forall k, l1 !! (p + k)%nat = l !! (p + S k)%nat) as Hl1.
    { intros k. unfold l1. rewrite lookup_app_r by (rewrite length_take; lia). rewrite length_take, lookup_drop. f_equal. lia. }
    assert (length l1 = pred (length l)) as Hlen1 by (unfold l1; rewrite length_app, length_take, length_drop; lia).
    assert (is_zsl zsl2 l1) as Hz2. { split; [done|done|]. unfold l1. rewrite fmap_app, fmap_take, fmap_drop. replace (S p) with (p + 1)%nat by lia. apply sorted_remove, Hz. }
    assert (nodes zsl l !! S (S p) = nodes zsl2 l1 !! S p) as -> by (rewrite !nodes_S, <- (Nat.add_0_r p), Hl1; by replace (p + 1)%nat with (S (p + 0)) by lia).
    unfold zlen in Hr. rewrite uwrap_small by lia.
    destruct (IH zsl2 l1 p ur d1 (removed + 1) fuel) as (zsl' & d' & Hrun' & Hz' & Hhd & Hdi & Hmap); try done; try lia.
    { unfold zlen. rewrite Hlen1. lia. }
    { intros j e n' Hj Hoe Hse. rewrite Hl1 in Hj. replace (removed + 1 + Z.of_nat j) with (removed + Z.of_nat (S j)) by lia. rewrite (Ht (S j) e n' Hj Hoe Hse). apply bool_decide_ext. lia. }
    exists zsl', d'. rewrite Hrun'. split; [by do 2 f_equal; lia|]. split; [|split; [by rewrite Hhd|split; [done|]]].
    + assert (without p m l1 = without p (S m) l) as <-; [|done]. unfold l1. rewrite take_app_le, take_take, Nat.min_id by (rewrite length_take; lia). f_equal.
      rewrite drop_app_ge by (rewrite length_take; lia). rewrite length_take, drop_drop. f_equal. lia.
    + rewrite Hmap, Hm1. assert (slice p (S m) l = (a, (s, o)) :: slice p m l1) as ->; [|done]. rewrite (drop_S l _ p Hp). cbn [take]. do 2 f_equal.
      unfold l1. by rewrite drop_app_length' by (rewrite length_take; lia).
Qed.
End delete_range.

Lemma filter_segment_not {A} (g f : A -> bool) l : forall p m,
  (forall q a, l !! q = Some a -> g a = bool_decide (p <= q)%nat) -> (forall q a, l !! q = Some a -> f a = bool_decide (q < m)%nat) ->
  List.filter (fun a => negb (g a && f a)) l = without p (m - p) l.
Proof.
  induction l as [|a l IH]; intros p m Hg Hf; [by rewrite take_nil, drop_nil|]. cbn [List.filter]. rewrite (Hg 0%nat a), (Hf 0%nat a) by done.
  rewrite (IH (pred p) (pred m)).
  - destruct p as [|p], m as [|m]; cbn [pred]; repeat ((rewrite bool_decide_eq_true_2 by lia) || (rewrite bool_decide_eq_false_2 by lia)); cbn [andb negb].
    + cbn [Nat.sub Nat.add take drop app]. by rewrite drop_0.
    + cbn [Nat.sub Nat.add take drop app]. by rewrite Nat.sub_0_r.
    + cbn [Nat.sub Nat.add take drop app]. done.
    + cbn [Nat.sub Nat.add take drop app]. done.
  - intros q b Hq. rewrite (Hg (S q) b) by done. apply bool_decide_ext. lia.
  - intros q b Hq. rewrite (Hf (S q) b) by done. apply bool_decide_ext. lia.
Qed.

(** What a deletion of the elements [s] leaves in the skip list and in the dictionary. *)
Record deletes (hash : bytes -> Z) (zsl : zskiplist) (d : dict bytes nat) (l' s : list elt) (res : option (zskiplist * dict bytes nat * Z)) : Prop := {
  de_run : exists zsl' d', res = Some (zsl', d', zlen s) /\ is_zsl zsl' l' /\ header zsl' = header zsl /\ dict_inv hash d' /\ to_map d' = forget s.*2.*2 (to_map d)
}.

Section delete_ops.
Context (hash : bytes -> Z) (zsl : zskiplist) (l : list elt) (d : dict bytes nat) (Hz : is_zsl zsl l) (Hd : dict_inv hash d).

Lemma delete_from_ok before test p m : test_at zsl l before p -> (p + m <= length l)%nat ->
  (forall j e n, l !! (p + j)%nat = Some e -> obj n = Some e.2.2 -> score n = e.2.1 -> test (Z.of_nat p) (Z.of_nat j) n = bool_decide (j < m)%nat) ->
  deletes hash zsl d (without p m l) (slice p m l) (delete_from hash before test zsl d).
Proof using Hz Hd.
  intros Hb Hpm Ht. pose proof (z_ok zsl l Hz) as Hok. pose proof (zo_level _ _ Hok) as Hlv. pose proof (zo_few _ _ Hok) as Hfew.
  destruct (search_ok zsl l Hok 64 before p ltac:(lia) Hb) as (ur & Hs & Hlen & Hst). unfold delete_from. rewrite Hs. cbn [mbind option_bind].
  destruct (stops_head zsl l Hok ur p (proj1 Hb) Hst) as (u & Hh & Hu); [lia|]. rewrite Hh. cbn [mbind option_bind]. rewrite (after_node_ok zsl l Hok ur p (proj1 Hb) Hst) by lia. cbn [mbind option_bind].
  destruct (delete_while_ok hash (test (Z.of_nat p)) m zsl l p ur d 0 (S (base.size (heap zsl))) Hz Hpm ltac:(lia) Hst Hd ltac:(lia) ltac:(lia)) as (zsl' & d' & Hrun & Hz' & Hh' & Hd' & Hm').
  { intros j e n. rewrite Z.add_0_l. apply Ht. }
  { rewrite (ok_size zsl l Hok). lia. }
  split. exists zsl', d'. split; [|done]. rewrite Hrun. do 2 f_equal. unfold zlen. rewrite length_take, length_drop. lia.
Qed.

(** The deletion of a range, whose tests are those of [range_ok]. *)
Lemma delete_range_ok r g f before test : range_ok r l.*2 g f ->
  (forall n o, obj n = Some o -> isnan (score n) = false -> before n = negb (gte_min r n)) ->
  (forall n o, obj n = Some o -> isnan (score n) = false -> test n = lte_max r n) ->
  deletes hash zsl d (List.filter (fun e => negb (g e.2 && f e.2)) l) (segment g f l) (delete_from hash (fun _ => before) (fun _ _ => test) zsl d).
Proof using Hz Hd.
  intros Hr Hbe Hte. set (lo := prefix_len (fun e => negb (g e)) l.*2). set (hi := prefix_len f l.*2).
  assert ((lo <= length l)%nat /\ (hi <= length l)%nat) as [Hlo Hhi] by (unfold lo, hi; rewrite <- (length_fmap snd l); split; apply prefix_len_bound).
  rewrite (filter_segment_not (fun e => g e.2) (fun e => f e.2) l lo hi), (segment_ok l r g f Hr) by (apply (g_at l r g f Hr) || apply (f_at l r g f Hr)).
  assert (drop lo (take hi l) = slice lo (hi - lo) l) as Hsl.
  { destruct (decide (lo <= hi)%nat); [rewrite take_drop_commute; by replace (lo + (hi - lo))%nat with hi by lia|]. rewrite drop_ge by (rewrite length_take; lia). by replace (hi - lo)%nat with 0%nat by lia. }
  fold lo hi. rewrite Hsl. apply delete_from_ok; [|lia|].
  - pose proof (lo_test zsl l Hz r g f Hr) as Hlt. fold lo in Hlt. destruct Hlt as [H1 H2]. split; [done|]. intros q a n Hq Hn. rewrite <- (H2 q a n Hq Hn). rewrite nodes_S in Hq. apply fmap_Some in Hq as ([a' [s o]] & Hq & ->).
    destruct (node_at zsl l Hz q a' s o Hq) as (n' & Hn' & Ho & Hs). cbn [fst] in Hn. assert (n' = n) as -> by congruence. apply (Hbe n o Ho). rewrite Hs. apply (elt_ok_at zsl l Hz q a' _ Hq).
  - intros j e n Hj Ho Hs. destruct e as [a [s o]]. cbn [fst snd] in *. rewrite (Hte n o Ho); [|rewrite Hs; apply (elt_ok_at zsl l Hz _ a _ Hj)].
    rewrite (ro_lte _ _ _ _ Hr n o Ho), Hs. pose proof (f_at l r g f Hr _ _ Hj) as Hfa. cbn [snd] in Hfa. rewrite Hfa. apply bool_decide_ext. fold hi. lia.
Qed.

Lemma deleteRangeByRank_ok start end_ : 1 <= start <= end_ -> end_ < 2 ^ 32 ->
  deletes hash zsl d (take (Z.to_nat (start - 1)) l ++ drop (Z.to_nat end_) l) (drop (Z.to_nat (start - 1)) (take (Z.to_nat end_) l)) (zslDeleteRangeByRank hash zsl start end_ d).
Proof using Hz Hd.
  intros Hs He. set (p := Nat.min (Z.to_nat (start - 1)) (length l)). set (m := (Nat.min (Z.to_nat end_) (length l) - p)%nat).
  assert (take (Z.to_nat (start - 1)) l ++ drop (Z.to_nat end_) l = without p m l) as ->.
  { destruct (decide (Z.to_nat (start - 1) <= length l)%nat).
    - replace p with (Z.to_nat (start - 1)) by (unfold p; lia). f_equal. destruct (decide (Z.to_nat end_ <= length l)%nat); [f_equal; unfold m, p; lia|]. rewrite !drop_ge by (unfold m, p; lia). done.
    - rewrite (take_ge l (Z.to_nat (start - 1))), (drop_ge l (Z.to_nat end_)), (take_ge l p), (drop_ge l (p + m)%nat) by (unfold m, p; lia). done. }
  assert (drop (Z.to_nat (start - 1)) (take (Z.to_nat end_) l) = slice p m l) as ->.
  { destruct (decide (Z.to_nat (start - 1) <= length l)%nat).
    - replace p with (Z.to_nat (start - 1)) by (unfold p; lia). rewrite take_drop_commute. destruct (decide (Z.to_nat end_ <= length l)%nat); [do 2 f_equal; unfold m, p; lia|].
      rewrite !take_ge by (unfold m, p; lia). done.
    - rewrite drop_ge by (rewrite length_take; lia). rewrite (drop_ge l p) by (unfold p; lia). by rewrite take_nil. }
  pose proof (zo_few _ _ (z_ok zsl l Hz)) as Hfew. unfold zlen in Hfew. unfold zslDeleteRangeByRank. apply delete_from_ok.
  - split; [unfold p; lia|]. intros q a n Hq _. apply lookup_lt_Some in Hq. rewrite (ok_ns_length zsl l) in Hq. apply eq_true_iff_eq. rewrite Z.ltb_lt, bool_decide_eq_true. unfold p. lia.
  - unfold m, p. lia.
  - intros j e n Hj _ _. apply lookup_lt_Some in Hj. assert (p <= length l)%nat by (unfold p; lia). rewrite (uwrap_small 64 (Z.of_nat p + 1)), uwrap_small by lia.
    apply eq_true_iff_eq. rewrite Z.leb_le, bool_decide_eq_true. unfold m, p. lia.
Qed.
End delete_ops.

(** ** Ranges of scores *)

Lemma dle_iff x y : dle x y = true <-> dlt x y = true \/ deq x y = true.
Proof. unfold dle. apply orb_true_iff. Qed.

Lemma dle_trans x y z : dle x y = true -> dle y z = true -> dle x z = true.
Proof.
  rewrite !dle_iff. intros [H|H] [H'|H']; [left; by eapply dlt_trans|left; by eapply dlt_deq|left; by eapply deq_dlt|right; by eapply deq_trans].
Qed.

Lemma dle_dlt x y z : dle x y = true -> dlt y z = true -> dlt x z = true.
Proof. rewrite dle_iff. intros [H|H] H'; [by eapply dlt_trans|by eapply deq_dlt]. Qed.

Lemma dlt_dle x y z : dlt x y = true -> dle y z = true -> dlt x z = true.
Proof. rewrite dle_iff. intros H [H'|H']; [by eapply dlt_trans|by eapply dlt_deq]. Qed.

Lemma lt_elt_dle a b : lt_elt a b -> dle a.1 b.1 = true.
Proof. rewrite dle_iff. intros [|[? _]]; auto. Qed.

Definition score_gte (r : zrangespec) (e : pair) : bool := zslValueGteMin e.1 r.
Definition score_lte (r : zrangespec) (e : pair) : bool := zslValueLteMax e.1 r.

Lemma downward_up l g : (forall a b, lt_elt a b -> g a = true -> g b = true) -> sorted l -> downward l (fun e => negb (g e)).
Proof.
  intros Hg Hs i j a b Hij Ha Hb. rewrite !negb_true_iff, <- !not_true_iff_false. intros Hn Hga. apply Hn. eapply Hg, Hga. by eapply sorted_lookup.
Qed.

Lemma downward_down l f : (forall a b, lt_elt a b -> f b = true -> f a = true) -> sorted l -> downward l f.
Proof. intros Hf Hs i j a b Hij Ha Hb. apply Hf. by eapply sorted_lookup. Qed.

Lemma score_range_ok r l : sorted l -> range_ok (score_range r) l (score_gte r) (score_lte r).
Proof.
  intros Hs. split; [done|done|apply downward_up; [|done]|apply downward_down; [|done]|].
  - intros a b Hab%lt_elt_dle. unfold score_gte, zslValueGteMin. destruct (minex r); intros Ha; [by eapply dlt_dle|by eapply dle_trans].
  - intros a b Hab%lt_elt_dle. unfold score_lte, zslValueLteMax. destruct (maxex r); intros Ha; [by eapply dle_dlt|by eapply dle_trans].
  - cbn [never score_range]. intros Hn e _. apply not_true_iff_false. rewrite andb_true_iff. unfold score_gte, score_lte, zslValueGteMin, zslValueLteMax. intros [Hg Hf].
    assert (dle (min_ r) e.1 = true) as Hg' by (destruct (minex r); [by apply dle_iff; left|done]). assert (dle e.1 (max_ r) = true) as Hf' by (destruct (maxex r); [by apply dle_iff; left|done]).
    apply orb_true_iff in Hn as [Hn|Hn].
    + pose proof (dlt_dle _ _ _ (dlt_dle _ _ _ Hn Hg') Hf') as Hc. by rewrite dlt_irrefl in Hc.
    + apply andb_true_iff in Hn as [He Hx]. apply deq_sym in He. apply orb_true_iff in Hx as [Hx|Hx]; rewrite Hx in *.
      * eapply dlt_deq_no; [exact (dlt_dle _ _ _ Hg Hf')|by apply deq_sym].
      * eapply dlt_deq_no; [exact (dle_dlt _ _ _ Hg' Hf)|by apply deq_sym].
Qed.

Definition score_in (r : zrangespec) (e : elt) : bool := score_gte r e.2 && score_lte r e.2.

Lemma deleteRangeByScore_ok hash zsl l d r : is_zsl zsl l -> dict_inv hash d -> num (min_ r) ->
  deletes hash zsl d (List.filter (fun e => negb (score_in r e)) l) (List.filter (score_in r) l) (zslDeleteRangeByScore hash zsl r d).
Proof.
  intros Hz Hd Hmin. apply (delete_range_ok hash zsl l d Hz Hd (score_range r) (score_gte r) (score_lte r)); [apply score_range_ok, Hz| |done].
  intros n o _ Hn. cbn [gte_min score_range]. unfold zslValueGteMin. destruct (minex r).
  - by apply dle_total.
  - rewrite dle_total by done. by rewrite negb_involutive.
Qed.

(** ** Ranges of strings *)

(** The scores are all equal: the order is that of the strings. *)
Definition flat_scores (l : list pair) : Prop := forall a b, a ∈ l -> b ∈ l -> deq a.1 b.1 = true.

Definition bound_ok (b : lexbound) : Prop := match b with Str s => short s | _ => True end.

Record lex_ok (r : zlexrangespec) : Prop := {
  lx_min : bound_ok (lmin r);
  lx_max : bound_ok (lmax r);
  lx_clear : bound_bytes (lmin r) = bound_bytes (lmax r) -> lmin r = lmax r
}.

Definition lex_gte (r : zlexrangespec) (e : pair) : bool := zslLexValueGteMin e.2 r.
Definition lex_lte (r : zlexrangespec) (e : pair) : bool := zslLexValueLteMax e.2 r.
Definition lex_in (r : zlexrangespec) (e : elt) : bool := lex_gte r e.2 && lex_lte r e.2.

Lemma cmp_sign a b : short a -> short b -> match lex_cmp a b with Eq => compareDecoded a b = 0 | Lt => compareDecoded a b < 0 | Gt => compareDecoded a b > 0 end.
Proof.
  intros Ha Hb. rewrite <- compareDecoded_lex by done. destruct (Z.compare_spec (compareDecoded a b) 0); lia.
Qed.

Lemma lex_gte_up r a b : bound_ok (lmin r) -> short a.2 -> short b.2 -> lex_cmp a.2 b.2 = Lt -> lex_gte r a = true -> lex_gte r b = true.
Proof.
  intros Hb Ha Hb2 Hlt. unfold lex_gte, zslLexValueGteMin. destruct (lmin r) as [| |s]; [by destruct (lminex r)|by destruct (lminex r)|]. cbn [compareStringObjectsForLexRange bound_ok] in *.
  pose proof (cmp_sign a.2 s Ha Hb) as H1. pose proof (cmp_sign b.2 s Hb2 Hb) as H2.
  destruct (lex_cmp b.2 s) eqn:E; [apply lex_eq in E; rewrite E in Hlt|pose proof (lex_trans _ _ _ Hlt E) as Hlt'|]; rewrite ?Hlt, ?Hlt' in H1; destruct (lminex r); rewrite ?Z.gtb_lt, ?Z.geb_le; lia.
Qed.

Lemma lex_lte_down r a b : bound_ok (lmax r) -> short a.2 -> short b.2 -> lex_cmp a.2 b.2 = Lt -> lex_lte r b = true -> lex_lte r a = true.
Proof.
  intros Hb Ha Hb2 Hlt. unfold lex_lte, zslLexValueLteMax. destruct (lmax r) as [| |s]; [by destruct (lmaxex r)|by destruct (lmaxex r)|]. cbn [compareStringObjectsForLexRange bound_ok] in *.
  pose proof (cmp_sign a.2 s Ha Hb) as H1. pose proof (cmp_sign b.2 s Hb2 Hb) as H2.
  destruct (lex_cmp b.2 s) eqn:E; [apply lex_eq in E; rewrite E in Hlt|pose proof (lex_trans _ _ _ Hlt E) as Hlt'|]; rewrite ?Hlt, ?Hlt' in H1; destruct (lmaxex r); rewrite ?Z.ltb_lt, ?Z.leb_le; lia.
Qed.

Lemma lex_range_never r e : lex_ok r -> short e.2 -> never (lex_range r) = true -> lex_gte r e && lex_lte r e = false.
Proof.
  intros [Hlo Hhi Hc] He Hn. apply not_true_iff_false. rewrite andb_true_iff. unfold lex_gte, lex_lte, zslLexValueGteMin, zslLexValueLteMax. cbn [never lex_range] in Hn.
  apply orb_true_iff in Hn as [Hn|Hn].
  - destruct (lmin r) as [| |s], (lmax r) as [| |t]; try done. cbn [compareStringObjectsForLexRange bound_ok] in *. rewrite Z.gtb_lt in Hn.
    pose proof (cmp_sign s t Hlo Hhi) as H1. pose proof (cmp_sign e.2 s He Hlo) as H2. pose proof (cmp_sign e.2 t He Hhi) as H3. intros [Hg Hf].
    assert (lex_cmp t s = Lt) as Hts by (rewrite lex_antisym; destruct (lex_cmp s t); [lia|lia|done]).
    assert (lex_cmp e.2 s <> Lt) as Hes by (intros E; rewrite E in H2; destruct (lminex r); rewrite ?Z.gtb_lt, ?Z.geb_le in Hg; lia).
    assert (lex_cmp e.2 t <> Gt) as Het by (intros E; rewrite E in H3; destruct (lmaxex r); rewrite ?Z.ltb_lt, ?Z.leb_le in Hf; lia).
    destruct (lex_cmp e.2 t) eqn:E; [apply lex_eq in E; congruence|by apply Hes, (lex_trans _ t)|done].
  - apply andb_true_iff in Hn as [Heq Hx]. apply cmp_eq in Heq; [|by destruct (lmin r)|by destruct (lmax r)]. rewrite (Hc Heq) in *.
    destruct (lmax r) as [| |t]; cbn [compareStringObjectsForLexRange]; [by destruct (lminex r), (lmaxex r); intros []|by destruct (lminex r), (lmaxex r); intros []|].
    destruct (lminex r), (lmaxex r); rewrite ?Z.gtb_lt, ?Z.geb_le, ?Z.ltb_lt, ?Z.leb_le; try done; lia.
Qed.

Lemma flat_lt l a b : flat_scores l -> a ∈ l -> b ∈ l -> lt_elt a b -> lex_cmp a.2 b.2 = Lt.
Proof. intros Hf Ha Hb [Hlt|[_ Hlt]]; [|done]. exfalso. eapply dlt_deq_no; [exact Hlt|by apply Hf]. Qed.

Lemma lex_range_ok r l : sorted l -> flat_scores l -> lex_ok r -> range_ok (lex_range r) l (lex_gte r) (lex_lte r).
Proof.
  intros Hs Hf Hr. pose proof (so_ok _ Hs) as Hok. rewrite Forall_forall in Hok.
  split.
  - intros n o Ho. cbn [gte_min lex_range]. by rewrite Ho.
  - intros n o Ho. cbn [lte_max lex_range]. by rewrite Ho.
  - intros i j a b Hij Ha Hb. rewrite !negb_true_iff, <- !not_true_iff_false. intros Hn Hg. apply Hn. pose proof (list_elem_of_lookup_2 _ _ _ Ha) as Hai. pose proof (list_elem_of_lookup_2 _ _ _ Hb) as Hbi.
    apply (lex_gte_up r a b); [apply Hr|by apply Hok|by apply Hok| |done]. apply (flat_lt l); [done..|]. by eapply sorted_lookup.
  - intros i j a b Hij Ha Hb. pose proof (list_elem_of_lookup_2 _ _ _ Ha) as Hai. pose proof (list_elem_of_lookup_2 _ _ _ Hb) as Hbi.
    apply (lex_lte_down r a b); [apply Hr|by apply Hok|by apply Hok|]. apply (flat_lt l); [done..|]. by eapply sorted_lookup.
  - intros Hn e He. by apply lex_range_never; [|apply Hok|].
Qed.

Lemma deleteRangeByLex_ok hash zsl l d r : is_zsl zsl l -> dict_inv hash d -> flat_scores l.*2 -> lex_ok r ->
  deletes hash zsl d (List.filter (fun e => negb (lex_in r e)) l) (List.filter (lex_in r) l) (zslDeleteRangeByLex hash zsl r d).
Proof.
  intros Hz Hd Hf Hr. by apply (delete_range_ok hash zsl l d Hz Hd (lex_range r) (lex_gte r) (lex_lte r)); [apply lex_range_ok; [apply Hz| |]| |].
Qed.
