(* ===== verification/Zset.v ===== *)
(** * Sorted sets kept as skip lists (src/redis-2.8.19/src/t_zset.c)

    A sorted set is a skip list and a dictionary from its members to its nodes. What
    the commands do with one, between the lookup of the key and the reply. *)
From S2P Require Import Prelude Util Sds Object Dict HashType Zskiplist.
Open Scope Z_scope.

(** The value of an entry of the dictionary is [&node->score]: the node. *)
Record zset := mkZset { zdict : dict bytes nat; zsl : zskiplist }.

Definition set_zdict (d : dict bytes nat) (zs : zset) : zset := mkZset d (zsl zs).

(** ** The loops of the listings

    They are the same for nodes and for the pointers into a ziplist: [read] is what is
    replied of a place, [next] the move to the next place, null at the end. *)
Section loops.
Context {C : Type} (read : C -> option (bytes * double)) (next : C -> option (option C)).

(** [while (rangelen--)]. *)
Fixpoint range_loop (rangelen : nat) (ln : option C) : option (list (bytes * double)) :=
  match rangelen with
  | O => Some []
  | S rangelen =>
      ln ← ln;
      x ← read ln;
      ln ← next ln;
      rest ← range_loop rangelen ln;
      Some (x :: rest)
  end.

(** [while (ln && offset--)]. *)
Fixpoint offset_loop (fuel : nat) (offset : Z) (ln : option C) : option (option C) :=
  match fuel, ln with
  | _, None => Some None
  | O, _ => None
  | S fuel, Some x => if offset =? 0 then Some ln else ln ← next x; offset_loop fuel (s64 (offset - 1)) ln
  end.

(** [while (ln && limit--)]; [inside] is the test of the end that is ahead. *)
Fixpoint limit_loop (inside : C -> option bool) (fuel : nat) (limit : Z) (ln : option C) : option (list (bytes * double)) :=
  match fuel, ln with
  | _, None => Some []
  | O, _ => None
  | S fuel, Some ln =>
      if limit =? 0 then Some []
      else
        b ← inside ln;
        if negb b then Some []
        else
          x ← read ln;
          ln ← next ln;
          rest ← limit_loop inside fuel (s64 (limit - 1)) ln;
          Some (x :: rest)
  end.
End loops.

Inductive zadd_result := ZAdded | ZUpdated | ZSame | ZNotANumber.

Section zset.
Context (junk : option nat * Z) (hash : bytes -> Z) (can_resize : bool).
(** The address of a new block, and the sum of two doubles. *)
Context (alloc : gmap nat zskiplistNode -> nat) (fadd : double -> double -> double).

Definition createZsetObject : zset := mkZset dictCreate (zslCreate junk (alloc ∅)).

(** The score that the value of an entry points to. *)
Definition entry_score (zs : zset) (node : nat) : option double := score <$> heap (zsl zs) !! node.

Definition zsetLength (zs : zset) : Z := u32 (s32 (length_ (zsl zs))).

(** One turn of the loop of [zaddGenericCommand]; [rnd] is what [random] returns. *)
Definition zaddElement (incr : bool) (rnd : list Z) (zs : zset) (sc : double) (ele : bytes) : option (zset * double * zadd_result) :=
  '(d, de) ← dictFind hash (zdict zs) ele;
  let zs := set_zdict d zs in
  match de with
  | Some de =>
      '(curobj, node) ← dictGetEntry d de;
      curscore ← entry_score zs node;
      let sc := if incr then fadd sc curscore else sc in
      if incr && isnan sc then Some (zs, sc, ZNotANumber)
      else if negb (deq sc curscore) then
        '(zl, deleted) ← zslDelete (zsl zs) curscore curobj;
        if negb deleted then None
        else
          let znode := alloc (heap zl) in
          zl ← zslInsert junk rnd znode zl sc curobj;
          d ← dictSetVal d de znode;
          Some (mkZset d zl, sc, ZUpdated)
      else Some (zs, sc, ZSame)
  | None =>
      let znode := alloc (heap (zsl zs)) in
      zl ← zslInsert junk rnd znode (zsl zs) sc ele;
      '(d, st) ← dictAdd hash can_resize O d ele znode;
      match st with DICT_OK => Some (mkZset d zl, sc, ZAdded) | DICT_ERR => None end
  end.

Definition resize_zdict (zs : zset) : option zset :=
  if htNeedsResize (zdict zs) then '(d, _) ← dictResize can_resize (zdict zs); Some (set_zdict d zs) else Some zs.

(** One turn of the loop of [zremCommand]. *)
Definition zremElement (zs : zset) (ele : bytes) : option (zset * bool) :=
  '(d, de) ← dictFind hash (zdict zs) ele;
  let zs := set_zdict d zs in
  match de with
  | Some de =>
      '(_, node) ← dictGetEntry d de;
      sc ← entry_score zs node;
      '(zl, deleted) ← zslDelete (zsl zs) sc ele;
      if negb deleted then None
      else
        '(d, _, _) ← dictDelete hash d ele;
        zs ← resize_zdict (mkZset d zl);
        Some (zs, true)
  | None => Some (zs, false)
  end.

(** The range of indexes that [start] and [end_] name, with the negative ones counted
    from the end; [None] when it is empty. *)
Definition sanitize (llen start end_ : Z) : option (Z * Z) :=
  let start := if start <? 0 then llen + start else start in
  let end_ := if end_ <? 0 then llen + end_ else end_ in
  let start := if start <? 0 then 0 else start in
  if (start >? end_) || (start >=? llen) then None
  else Some (start, if end_ >=? llen then llen - 1 else end_).

Inductive zrange := ByRank (start end_ : Z) | ByScore (r : zrangespec) | ByLex (r : zlexrangespec).

(** [zremrangeGenericCommand]. *)
Definition zremrange (zs : zset) (rg : zrange) : option (zset * Z) :=
  res ← match rg with
        | ByRank start end_ =>
            match sanitize (zsetLength zs) start end_ with
            | None => Some None
            | Some (start, end_) => Some <$> zslDeleteRangeByRank hash (zsl zs) (u32 (start + 1)) (u32 (end_ + 1)) (zdict zs)
            end
        | ByScore r => Some <$> zslDeleteRangeByScore hash (zsl zs) r (zdict zs)
        | ByLex r => Some <$> zslDeleteRangeByLex hash (zsl zs) r (zdict zs)
        end;
  match res with
  | None => Some (zs, 0)
  | Some (zl, d, deleted) => zs ← resize_zdict (mkZset d zl); Some (zs, deleted)
  end.

(** [zscoreCommand] and [zrankGenericCommand]; a search may move a bucket. *)
Definition zscore (zs : zset) (ele : bytes) : option (zset * option double) :=
  '(d, node) ← dictFetchValue hash (zdict zs) ele;
  let zs := set_zdict d zs in
  match node with
  | None => Some (zs, None)
  | Some node => sc ← entry_score zs node; Some (zs, Some sc)
  end.

Definition zrank (reverse : bool) (zs : zset) (ele : bytes) : option (zset * option Z) :=
  let llen := zsetLength zs in
  '(d, node) ← dictFetchValue hash (zdict zs) ele;
  let zs := set_zdict d zs in
  match node with
  | None => Some (zs, None)
  | Some node =>
      sc ← entry_score zs node;
      rank ← zslGetRank (zsl zs) sc ele;
      if rank =? 0 then None else Some (zs, Some (if reverse then u64 (llen - rank) else u64 (rank - 1)))
  end.

(** ** Walks along the list *)

Definition next_node (reverse : bool) (zl : zskiplist) (ln : nat) : option (option nat) :=
  if reverse then backward <$> heap zl !! ln else fst <$> lev (heap zl) ln 0.

(** A node as it is replied. *)
Definition read_node (zl : zskiplist) (ln : nat) : option (bytes * double) :=
  n ← heap zl !! ln;
  ele ← obj n;
  Some (ele, score n).

(** [zrangeGenericCommand]. *)
Definition zrange_list (reverse : bool) (zs : zset) (start end_ : Z) : option (list (bytes * double)) :=
  let zl := zsl zs in
  let llen := s32 (zsetLength zs) in
  match sanitize llen start end_ with
  | None => Some []
  | Some (start, end_) =>
      let rangelen := s32 (end_ - start + 1) in
      ln ← (if reverse then
              if start >? 0 then zslGetElementByRank zl (u64 (llen - start)) else Some (tail zl)
            else if start >? 0 then zslGetElementByRank zl (u64 (start + 1)) else fst <$> lev (heap zl) (header zl) 0);
      range_loop (read_node zl) (next_node reverse zl) (Z.to_nat rangelen) ln
  end.

(** The part of [genericZrangebyscoreCommand] and of [genericZrangebylexCommand] that
    lists the elements. *)
Definition list_range (reverse : bool) (zl : zskiplist) (r : range) (offset limit : Z) : option (list (bytes * double)) :=
  ln ← (if reverse then last_in_range zl r else first_in_range zl r);
  match ln with
  | None => Some []
  | Some _ =>
      let fuel := S (base.size (heap zl)) in
      let inside ln := (if reverse then gte_min r else lte_max r) <$> heap zl !! ln in
      ln ← offset_loop (next_node reverse zl) fuel offset ln;
      limit_loop (read_node zl) (next_node reverse zl) inside fuel limit ln
  end.

Definition genericZrangebyscore (reverse : bool) (zs : zset) (r : zrangespec) (offset limit : Z) : option (list (bytes * double)) :=
  list_range reverse (zsl zs) (score_range r) offset limit.

Definition genericZrangebylex (reverse : bool) (zs : zset) (r : zlexrangespec) (offset limit : Z) : option (list (bytes * double)) :=
  list_range reverse (zsl zs) (lex_range r) offset limit.

(** [zcountCommand] and [zlexcountCommand]: from the ranks of the two ends. *)
Definition node_rank (zl : zskiplist) (zn : nat) : option Z :=
  n ← heap zl !! zn;
  o ← obj n;
  zslGetRank zl (score n) o.

Definition count_range (zl : zskiplist) (r : range) : option Z :=
  zn ← first_in_range zl r;
  match zn with
  | None => Some 0
  | Some zn =>
      rank ← node_rank zl zn;
      let count := s32 (u64 (length_ zl - u64 (rank - 1))) in
      zn ← last_in_range zl r;
      match zn with
      | None => Some count
      | Some zn => rank ← node_rank zl zn; Some (s32 (u64 (count - u64 (length_ zl - rank))))
      end
  end.

Definition zcount (zs : zset) (r : zrangespec) : option Z := count_range (zsl zs) (score_range r).
Definition zlexcount (zs : zset) (r : zlexrangespec) : option Z := count_range (zsl zs) (lex_range r).
End zset.
