(* ===== verification/ZsetSpec.v ===== *)
(** * Sorted sets are sorted lists (src/redis-2.8.19/src/t_zset.c)

    What every operation of a sorted set means for the sorted list of its scores and
    members, and that the skip list and the dictionary compute it. *)
From S2P Require Import Prelude Util Sds Object Dict DictIter DictBound HashType Zskiplist ZskiplistSpec ZskiplistInsert ZskiplistDelete ZskiplistOrder ZskiplistOps ZskiplistRange Zset.
Open Scope Z_scope.

(** ** The meaning of the operations *)

Section spec.
Context (fadd : double -> double -> double).

Definition spec_score (o : bytes) (L : list pair) : option double := fst <$> head (List.filter (fun e => bool_decide (e.2 = o)) L).

Definition spec_remove (o : bytes) (L : list pair) : list pair := List.filter (fun e => negb (bool_decide (e.2 = o))) L.

Definition spec_insert (sc : double) (o : bytes) (L : list pair) : list pair :=
  let p := prefix_len (before sc o) L in take p L ++ (sc, o) :: drop p L.

Definition spec_add (incr : bool) (sc : double) (o : bytes) (L : list pair) : list pair * (double * zadd_result) :=
  match spec_score o L with
  | None => (spec_insert sc o L, (sc, ZAdded))
  | Some cur =>
      let sc := if incr then fadd sc cur else sc in
      if incr && isnan sc then (L, (sc, ZNotANumber))
      else if deq sc cur then (L, (sc, ZSame))
      else (spec_insert sc o (spec_remove o L), (sc, ZUpdated))
  end.

Definition pair_score_in (r : zrangespec) (e : pair) : bool := score_gte r e && score_lte r e.
Definition pair_lex_in (r : zlexrangespec) (e : pair) : bool := lex_gte r e && lex_lte r e.

Definition spec_remrange (rg : zrange) (L : list pair) : list pair * Z :=
  match rg with
  | ByRank start end_ =>
      match sanitize (zlen L) start end_ with
      | None => (L, 0)
      | Some (i, j) => (take (Z.to_nat i) L ++ drop (Z.to_nat (j + 1)) L, j - i + 1)
      end
  | ByScore r => (List.filter (fun e => negb (pair_score_in r e)) L, zlen (List.filter (pair_score_in r) L))
  | ByLex r => (List.filter (fun e => negb (pair_lex_in r e)) L, zlen (List.filter (pair_lex_in r) L))
  end.

(** The position of a member. *)
Definition spec_index (o : bytes) (L : list pair) : option nat :=
  let p := prefix_len (fun e => negb (bool_decide (e.2 = o))) L in if (p <? length L)%nat then Some p else None.

Definition spec_rank (reverse : bool) (o : bytes) (L : list pair) : option Z :=
  (fun p => if reverse then zlen L - Z.of_nat p - 1 else Z.of_nat p) <$> spec_index o L.

Definition from_end {A} (reverse : bool) (L : list A) : list A := if reverse then list.reverse L else L.

Definition answer (L : list pair) : list (bytes * double) := prod_swap <$> L.

Definition spec_range (reverse : bool) (start end_ : Z) (L : list pair) : list (bytes * double) :=
  match sanitize (zlen L) start end_ with
  | None => []
  | Some (i, j) => answer (take (Z.to_nat (j - i + 1)) (drop (Z.to_nat i) (from_end reverse L)))
  end.

(** LIMIT: a negative offset skips everything, a negative limit stops nowhere. *)
Definition skipped {A} (offset : Z) (L : list A) : list A := if offset <? 0 then [] else drop (Z.to_nat offset) L.
Definition limited {A} (limit : Z) (L : list A) : list A := if limit <? 0 then L else take (Z.to_nat limit) L.

Definition spec_list (reverse : bool) (inside : pair -> bool) (offset limit : Z) (L : list pair) : list (bytes * double) :=
  limited limit (skipped offset (answer (from_end reverse (List.filter inside L)))).
End spec.

(** ** What a sorted set holds *)

Definition index (l : list elt) : gmap bytes nat := list_to_map ((fun e => (e.2.2, e.1)) <$> l).

Record zset_ok (hash : bytes -> Z) (zs : zset) (l : list elt) : Prop := {
  zk_zsl : is_zsl (zsl zs) l;
  zk_dict : dict_inv hash (zdict zs);
  zk_map : to_map (zdict zs) = index l
}.

(** A sorted set stands for a list of scores and members. *)
Definition zset_repr (hash : bytes -> Z) (zs : zset) (L : list pair) : Prop := exists l, zset_ok hash zs l /\ l.*2 = L.

Lemma index_keys l : ((fun e : elt => (e.2.2, e.1)) <$> l).*1 = l.*2.*2.
Proof. rewrite <- !list_fmap_compose. done. Qed.

Lemma index_lookup l o a : NoDup l.*2.*2 -> index l !! o = Some a <-> exists s, (a, (s, o)) ∈ l.
Proof.
  intros Hn. unfold index. rewrite <- elem_of_list_to_map by by rewrite index_keys. rewrite list_elem_of_fmap. split.
  - intros ([b [s o']] & [= -> ->] & H). by exists s.
  - intros [s H]. by exists (a, (s, o)).
Qed.

Lemma index_perm l1 l2 : NoDup l1.*2.*2 -> l1 ≡ₚ l2 -> index l1 = index l2.
Proof. intros Hn Hp. unfold index. apply list_to_map_proper; [by rewrite index_keys|by rewrite Hp]. Qed.

Lemma index_forget l s k : NoDup l.*2.*2 -> l ≡ₚ s ++ k -> forget s.*2.*2 (index l) = index k.
Proof.
  intros Hn Hp. assert (NoDup (s ++ k).*2.*2) as Hn' by by rewrite <- Hp. rewrite (index_perm _ _ Hn Hp). rewrite !fmap_app in Hn'. apply NoDup_app in Hn' as (_ & Hd & Hk).
  apply map_eq. intros o. rewrite forget_lookup. unfold index at 1. rewrite fmap_app, list_to_map_app. destruct (decide (o ∈ s.*2.*2)) as [Ho|Ho].
  - symmetry. apply not_elem_of_list_to_map. rewrite index_keys. by apply Hd.
  - rewrite lookup_union_r; [done|]. apply not_elem_of_list_to_map. by rewrite index_keys.
Qed.

Lemma index_size l : NoDup l.*2.*2 -> base.size (index l) = length l.
Proof.
  intros Hn. unfold index. rewrite <- (length_fmap (fun e : elt => (e.2.2, e.1)) l). generalize Hn. rewrite <- index_keys. generalize ((fun e : elt => (e.2.2, e.1)) <$> l). clear.
  induction l as [|[k v] l IH]; [done|]. cbn [fmap list_fmap fst list_to_map foldr length]. intros [Hk Hn]%NoDup_cons. rewrite map_size_insert_None by by apply not_elem_of_list_to_map. by rewrite IH.
Qed.

Lemma filter_split {A} (f : A -> bool) l : l ≡ₚ List.filter f l ++ List.filter (fun a => negb (f a)) l.
Proof. induction l as [|a l IH]; [done|]. cbn [List.filter]. destruct (f a); cbn [negb app]; [by rewrite <- IH|]. by rewrite <- Permutation_middle, <- IH. Qed.

Lemma cut_perm {A} i k (l : list A) : (i <= k)%nat -> l ≡ₚ drop i (take k l) ++ (take i l ++ drop k l).
Proof.
  intros Hik. rewrite app_assoc, (Permutation_app_comm (drop i _)). assert (take i l ++ drop i (take k l) = take k l) as ->; [|by rewrite take_drop].
  rewrite <- (take_drop i (take k l)) at 2. by rewrite take_take, Nat.min_l by lia.
Qed.

Lemma filter_pairs (f : pair -> bool) (l : list elt) : (List.filter (fun e => f e.2) l).*2 = List.filter f l.*2.
Proof. induction l as [|a l IH]; [done|]. cbn [List.filter fmap list_fmap]. destruct (f a.2); cbn [fmap list_fmap]; by rewrite <- IH. Qed.

Lemma zlen_pairs (l : list elt) : zlen l.*2 = zlen l.
Proof. unfold zlen. by rewrite length_fmap. Qed.

Lemma placed_pairs x e l : (placed x e l).*2 = spec_insert e.1 e.2 l.*2.
Proof. unfold placed, spec_insert. rewrite fmap_app, fmap_cons, fmap_take, fmap_drop. by destruct e. Qed.

(** The score of a member, and what is left without it. *)
Lemma member_cases o (l : list elt) : NoDup l.*2.*2 ->
  (spec_score o l.*2 = None /\ spec_index o l.*2 = None /\ o ∉ l.*2.*2) \/
  exists q a s, spec_score o l.*2 = Some s /\ spec_index o l.*2 = Some q /\ l !! q = Some (a, (s, o)) /\ (take q l ++ drop (S q) l).*2 = spec_remove o l.*2.
Proof.
  unfold spec_score, spec_index, spec_remove. induction l as [|[a [s o']] l IH]; [left; split; [done|split; [done|apply not_elem_of_nil]]|].
  cbn [fmap list_fmap fst snd List.filter prefix_len length]. intros [Ho Hn]%NoDup_cons. case_bool_decide as Heq; cbn [negb].
  - subst o'. right. exists 0%nat, a, s. split; [done|]. split; [done|]. split; [done|]. cbn [take drop app]. rewrite drop_0. clear - Ho. induction l as [|[a [s' o']] l IH]; [done|].
    cbn [fmap list_fmap snd List.filter] in *. apply not_elem_of_cons in Ho as [Hne Ho]. rewrite bool_decide_eq_false_2 by congruence. cbn [negb]. f_equal. by apply IH.
  - destruct (IH Hn) as [(H1 & H2 & H3)|(q & b & t & H1 & H2 & H3 & H4)].
    + left. split; [done|]. split; [|rewrite not_elem_of_cons; split; [congruence|done]]. change (S ?x <? S ?y)%nat with (x <? y)%nat. by destruct (_ <? _)%nat.
    + right. exists (S q), b, t. split; [done|]. split; [|split; [done|]].
      * change (S ?x <? S ?y)%nat with (x <? y)%nat. destruct (_ <? _)%nat; [|done]. by injection H2 as ->.
      * cbn [take drop app fmap list_fmap snd]. by rewrite H4.
Qed.

(** ** The operations that change it *)

Definition room (L : list pair) : Prop := zlen L < 2 ^ 29.

(** Enough random numbers for a level. *)
Definition rnd_ok (rnd : list Z) : Prop := is_Some (zslRandomLevel rnd) /\ zlen rnd < 2 ^ 30.

Lemma rnd_level rnd : rnd_ok rnd -> exists lvl, zslRandomLevel rnd = Some lvl /\ (1 <= lvl <= ZSKIPLIST_MAXLEVEL)%nat.
Proof.
  intros [[lvl Hl] Hlen]. exists lvl. split; [done|]. destruct (random_level_ok rnd lvl Hl) as [|(k & Hk & Hneg)]; [done|].
  unfold zlen in Hlen. pose proof (random_level_pos rnd 1 k ltac:(lia) ltac:(lia) Hk). lia.
Qed.

Section ops.
Context (junk : option nat * Z) (hash : bytes -> Z) (can_resize : bool) (alloc : gmap nat zskiplistNode -> nat) (fadd : double -> double -> double).
Context (alloc_fresh : forall h, h !! alloc h = None).

Lemma create_repr : zset_repr hash (createZsetObject junk alloc) [].
Proof using Type.
  exists []. split; [|done]. split; cbn [zsl zdict createZsetObject]; [apply create_ok|apply create_inv|]. by rewrite (proj2 (create_inv hash)).
Qed.

Lemma members_nodup zs l : zset_ok hash zs l -> NoDup l.*2.*2.
Proof using Type. intros H. apply H. Qed.

Lemma zset_few zs l : zset_ok hash zs l -> room l.*2 -> few (to_map (zdict zs)).
Proof using Type. intros H Hr. unfold few. rewrite (zk_map _ _ _ H), index_size by by apply (members_nodup zs). unfold room in Hr. rewrite zlen_pairs in Hr. unfold zlen in Hr. lia. Qed.

Lemma find_entry zs l o : zset_ok hash zs l -> exists d de, dictFind hash (zdict zs) o = Some (d, de) /\ zset_ok hash (set_zdict d zs) l /\
  match de with
  | None => o ∉ l.*2.*2
  | Some r => exists a, ref_ok hash d r o a /\ dictGetEntry d r = Some (o, a) /\ exists s, (a, (s, o)) ∈ l
  end.
Proof using Type.
  intros H. destruct (zk_dict _ _ _ H) as [Hok Hc]. destruct (dictFind_spec hash (zdict zs) o Hok) as (d & de & Hrun & Hok' & Hm & Hde). exists d, de. split; [done|].
  split; [split; cbn [zsl zdict set_zdict]; [apply H|split; [done|]|by rewrite Hm; apply H]; apply find_cap in Hrun; [lia|done]|]. rewrite (zk_map _ _ _ H) in Hde. destruct de as [r|].
  - destruct Hde as (a & Ha & Hr). exists a. split; [done|]. split; [|by apply index_lookup; [apply (members_nodup zs)|]].
    destruct r as [[t idx] pos]. destruct Hr as (_ & _ & _ & chain & Hch & Hp). unfold dictGetEntry. rewrite Hch. cbn [mbind option_bind]. by rewrite Hp.
  - intros ([s o'] & Ho & ([a e] & He & Hin)%list_elem_of_fmap)%list_elem_of_fmap. cbn [snd] in *. subst. apply eq_None_not_Some in Hde. apply Hde. exists a. apply index_lookup; [by apply (members_nodup zs)|]. by exists s.
Qed.

(** The search for a member, in the dictionary and in the list. *)
Lemma find_member zs l o : zset_ok hash zs l -> exists d de, dictFind hash (zdict zs) o = Some (d, de) /\ zset_ok hash (set_zdict d zs) l /\
  ((de = None /\ spec_score o l.*2 = None /\ spec_index o l.*2 = None /\ o ∉ l.*2.*2) \/
   exists r q a s, de = Some r /\ ref_ok hash d r o a /\ dictGetEntry d r = Some (o, a) /\ spec_score o l.*2 = Some s /\ spec_index o l.*2 = Some q /\
     l !! q = Some (a, (s, o)) /\ (take q l ++ drop (S q) l).*2 = spec_remove o l.*2).
Proof using Type.
  intros H. pose proof (members_nodup zs l H) as Hnd. destruct (find_entry zs l o H) as (d & de & Hrun & H1 & Hde). exists d, de. split; [done|]. split; [done|].
  destruct (member_cases o l Hnd) as [(Hs & Hi & Hout)|(q & a & s & Hs & Hi & Hq & Hrem)]; [left|right].
  - destruct de as [r|]; [|done]. destruct Hde as (a & _ & _ & s & Hin). exfalso. apply Hout, list_elem_of_fmap. exists (s, o). split; [done|]. apply list_elem_of_fmap. by exists (a, (s, o)).
  - pose proof (list_elem_of_lookup_2 _ _ _ Hq) as Hin. destruct de as [r|]; [|exfalso; apply Hde, list_elem_of_fmap; exists (s, o); split; [done|]; apply list_elem_of_fmap; by exists (a, (s, o))].
    destruct Hde as (a' & Href & Hget & s' & Hin'). assert (index l !! o = Some a') as E1 by (apply index_lookup; [done|by exists s']).
    assert (index l !! o = Some a) as E2 by (apply index_lookup; [done|by exists s]). assert (a' = a) as -> by congruence. by exists r, q, a, s.
Qed.

Lemma score_at zs l q a s o : zset_ok hash zs l -> l !! q = Some (a, (s, o)) -> entry_score zs a = Some s.
Proof using Type.
  intros H Hq. destruct (node_at (zsl zs) l (zk_zsl _ _ _ H) q a s o Hq) as (n & Hn & _ & <-). unfold entry_score. by rewrite Hn.
Qed.

Lemma room_few (l : list elt) : room l.*2 -> zlen l + 1 < 2 ^ 31.
Proof using Type. unfold room. rewrite zlen_pairs. lia. Qed.

(** A new node in a skip list, from its new address. *)
Lemma insert_alloc rnd zl l sc o : is_zsl zl l -> zlen l + 1 < 2 ^ 31 -> elt_ok (sc, o) -> o ∉ l.*2.*2 -> rnd_ok rnd ->
  exists zl', zslInsert junk rnd (alloc (heap zl)) zl sc o = Some zl' /\ is_zsl zl' (placed (alloc (heap zl)) (sc, o) l).
Proof using alloc_fresh.
  intros Hz Hr He Hn Hrnd. destruct (rnd_level rnd Hrnd) as (lvl & Hlvl & Hb).
  destruct (insert_ok zl l Hz junk rnd (alloc (heap zl)) sc o lvl He Hn (alloc_fresh _) Hr Hlvl Hb) as (zl' & Hrun & Hz' & _). by exists zl'.
Qed.

Lemma split_at (l : list elt) q e : l !! q = Some e -> l ≡ₚ [e] ++ take q l ++ drop (S q) l.
Proof using Type. intros Hq. rewrite <- (take_drop_middle l q e Hq) at 1. by rewrite <- Permutation_middle. Qed.

(** A new member in the skip list and in the dictionary. *)
Lemma add_new rnd zs l sc o : zset_ok hash zs l -> room l.*2 -> elt_ok (sc, o) -> o ∉ l.*2.*2 -> rnd_ok rnd ->
  let node := alloc (heap (zsl zs)) in
  exists zl' d', zslInsert junk rnd node (zsl zs) sc o = Some zl' /\ dictAdd hash can_resize O (zdict zs) o node = Some (d', DICT_OK) /\
    zset_ok hash (mkZset d' zl') (placed node (sc, o) l).
Proof using alloc_fresh.
  intros H Hr He Hout Hrnd node. pose proof (members_nodup zs l H) as Hnd. destruct (insert_alloc rnd (zsl zs) l sc o (zk_zsl _ _ _ H) (room_few l Hr) He Hout Hrnd) as (zl' & Hrun & Hz').
  destruct (dictAdd_inv hash can_resize O (zdict zs) o node (zk_dict _ _ _ H) (zset_few zs l H Hr)) as (d' & st & Hadd & Hd' & Hst).
  assert (index l !! o = None) as Hno by by apply not_elem_of_list_to_map; rewrite index_keys. rewrite (zk_map _ _ _ H), Hno in Hst. destruct Hst as [-> Hm'].
  exists zl', d'. split; [done|]. split; [done|]. split; cbn [zsl zdict]; [done|done|]. rewrite Hm'.
  change (<[o:=node]> (index l)) with (index ((node, (sc, o)) :: l)). apply index_perm; [by apply NoDup_cons|]. by rewrite placed_perm.
Qed.

Lemma zaddElement_ok incr rnd zs L sc o : zset_repr hash zs L -> room L -> elt_ok (sc, o) -> rnd_ok rnd ->
  exists zs', zaddElement junk hash can_resize alloc fadd incr rnd zs sc o = Some (zs', (spec_add fadd incr sc o L).2.1, (spec_add fadd incr sc o L).2.2) /\
    zset_repr hash zs' (spec_add fadd incr sc o L).1.
Proof using alloc_fresh.
  intros (l & H & <-) Hr He Hrnd. pose proof (members_nodup zs l H) as Hnd. pose proof (room_few l Hr) as Hfew. unfold zaddElement, spec_add. destruct (find_member zs l o H) as (d & de & -> & H1 & Hde). cbn [mbind option_bind].
  destruct Hde as [(-> & -> & _ & Hout)|(r & q & a & s & -> & Href & Hget & -> & _ & Hq & Hrem)].
  - destruct (add_new rnd _ l sc o H1 Hr He Hout Hrnd) as (zl' & d' & Hrun & Hadd & H'). cbn [zsl zdict set_zdict] in *. rewrite Hrun. cbn [mbind option_bind]. rewrite Hadd. cbn [mbind option_bind fst snd].
    eexists. split; [done|]. exists (placed (alloc (heap (zsl zs))) (sc, o) l). split; [done|by rewrite placed_pairs].
  - rewrite Hget. cbn [mbind option_bind]. rewrite (score_at _ l q a s o H1 Hq). cbn [mbind option_bind]. set (sc' := if incr then fadd sc s else sc).
    destruct (incr && isnan sc') eqn:Hnan; cbn [fst snd]; [eexists; split; [done|by exists l]|]. destruct (deq sc' s) eqn:Hdeq; cbn [negb fst snd]; [eexists; split; [done|by exists l]|].
    assert (elt_ok (s, o)) as Heo by apply (elt_ok_at (zsl zs) l (zk_zsl _ _ _ H) q a _ Hq).
    assert (elt_ok (sc', o)) as He' by (split; [unfold sc' in *; cbn; destruct incr; [done|apply He]|apply He]).
    destruct (delete_at (zsl zs) l (zk_zsl _ _ _ H) q a s o Hq s) as (zl1 & Hdel & Hz1 & _); [by apply deq_refl, Heo|]. cbn [zsl set_zdict]. rewrite Hdel. cbn [mbind option_bind negb].
    set (l1 := take q l ++ drop (S q) l) in *. pose proof (split_at l q _ Hq) as Hp. fold l1 in Hp. assert (NoDup (o :: l1.*2.*2)) as [Ho1 Hn1]%NoDup_cons by by rewrite Hp in Hnd.
    assert (zlen l = 1 + zlen l1) as Hl1 by (unfold zlen; rewrite Hp; cbn [length app]; lia).
    destruct (insert_alloc rnd zl1 l1 sc' o Hz1 ltac:(lia) He' Ho1 Hrnd) as (zl' & Hrun & Hz'). rewrite Hrun. cbn [mbind option_bind].
    pose proof (zk_dict _ _ _ H1) as [Hokd Hcap]. cbn [zdict set_zdict] in *. destruct (dictSetVal_spec hash d r o a (alloc (heap zl1)) Hokd Href) as (d' & Hset & Hok' & Hm'). rewrite Hset. cbn [mbind option_bind].
    eexists. split; [done|]. exists (placed (alloc (heap zl1)) (sc', o) l1). split; [|by rewrite placed_pairs, Hrem]. split; cbn [zsl zdict]; [done|split; [done|apply setval_cap in Hset; lia]|].
    rewrite Hm'. pose proof (zk_map _ _ _ H1) as Hm. cbn [zdict set_zdict] in Hm. rewrite Hm, (index_perm _ _ Hnd Hp).
    assert (<[o:=alloc (heap zl1)]> (index ([(a, (s, o))] ++ l1)) = index ((alloc (heap zl1), (sc', o)) :: l1)) as -> by (unfold index; cbn [app fmap list_fmap list_to_map foldr fst snd]; apply insert_insert_eq).
    apply index_perm; [by apply NoDup_cons|by rewrite placed_perm].
Qed.

Lemma resize_ok zs l : zset_ok hash zs l -> room l.*2 -> exists zs', resize_zdict can_resize zs = Some zs' /\ zset_ok hash zs' l.
Proof using Type.
  intros H Hr. unfold resize_zdict. destruct (htNeedsResize _); [|by exists zs].
  destruct (dictResize_inv hash can_resize (zdict zs) (zk_dict _ _ _ H) (zset_few zs l H Hr)) as (d & st & -> & Hd & Hm). cbn [mbind option_bind].
  eexists. split; [done|]. split; cbn [zsl zdict set_zdict]; [apply H|done|by rewrite Hm; apply H].
Qed.

Lemma zremElement_ok zs L o : zset_repr hash zs L -> room L ->
  exists zs', zremElement hash can_resize zs o = Some (zs', bool_decide (spec_score o L <> None)) /\ zset_repr hash zs' (spec_remove o L).
Proof using Type.
  intros (l & H & <-) Hr. pose proof (members_nodup zs l H) as Hnd. unfold zremElement. destruct (find_member zs l o H) as (d & de & -> & H1 & Hde). cbn [mbind option_bind].
  destruct Hde as [(-> & -> & _ & Hout)|(r & q & a & s & -> & Href & Hget & -> & _ & Hq & Hrem)].
  - eexists. split; [done|]. exists l. split; [done|]. unfold spec_remove. clear - Hout. induction l as [|[a [s o']] l IH]; [done|]. cbn [fmap list_fmap snd List.filter] in *.
    apply not_elem_of_cons in Hout as [Hne Ho]. rewrite bool_decide_eq_false_2 by congruence. cbn [negb]. f_equal. by apply IH.
  - rewrite Hget. cbn [mbind option_bind]. rewrite (score_at _ l q a s o H1 Hq). cbn [mbind option_bind]. assert (elt_ok (s, o)) as Heo by apply (elt_ok_at (zsl zs) l (zk_zsl _ _ _ H) q a _ Hq).
    destruct (delete_at (zsl zs) l (zk_zsl _ _ _ H) q a s o Hq s) as (zl1 & Hdel & Hz1 & _); [by apply deq_refl, Heo|]. cbn [zsl set_zdict]. rewrite Hdel. cbn [mbind option_bind negb].
    pose proof (zk_dict _ _ _ H1) as Hdi. cbn [zdict set_zdict] in Hdi. destruct (dictDelete_inv hash d o Hdi) as (d' & st & fr & -> & Hd' & Hm' & _). cbn [mbind option_bind].
    set (l1 := take q l ++ drop (S q) l) in *. pose proof (split_at l q _ Hq) as Hp. fold l1 in Hp.
    destruct (resize_ok (mkZset d' zl1) l1) as (zs' & -> & H').
    { split; cbn [zsl zdict]; [done|done|]. rewrite Hm'. pose proof (zk_map _ _ _ H1) as Hm. cbn [zdict set_zdict] in Hm. rewrite Hm. apply (index_forget l [(a, (s, o))] l1 Hnd Hp). }
    { unfold room in *. rewrite zlen_pairs in *. assert (zlen l = 1 + zlen l1) by (unfold zlen; rewrite Hp; cbn [length app]; lia). lia. }
    cbn [mbind option_bind]. exists zs'. split; [done|]. exists l1. done.
Qed.
Lemma deletes_repr zs l l' s res : zset_ok hash zs l -> room l.*2 -> l ≡ₚ s ++ l' -> deletes hash (zsl zs) (zdict zs) l' s res ->
  exists zl d zs', res = Some (zl, d, zlen s) /\ resize_zdict can_resize (mkZset d zl) = Some zs' /\ zset_ok hash zs' l'.
Proof using Type.
  intros H Hr Hp [(zl & d & -> & Hz & _ & Hd & Hm)]. destruct (resize_ok (mkZset d zl) l') as (zs' & Hrs & H').
  - split; cbn [zsl zdict]; [done|done|]. rewrite Hm, (zk_map _ _ _ H). apply index_forget; [by apply (members_nodup zs)|done].
  - unfold room in *. rewrite zlen_pairs in *. unfold zlen in *. rewrite Hp, length_app in Hr. lia.
  - by exists zl, d, zs'.
Qed.

Lemma sanitize_bounds n i j a b : sanitize n i j = Some (a, b) -> 0 <= a <= b /\ b < n.
Proof using Type.
  unfold sanitize. set (i' := if i <? 0 then n + i else i). set (j' := if j <? 0 then n + j else j). set (i2 := if i' <? 0 then 0 else i').
  assert (0 <= i2) as Hi by (unfold i2; destruct (Z.ltb_spec i' 0); lia). destruct (i2 >? j') eqn:E1; [done|]. destruct (i2 >=? n) eqn:E2; [done|]. cbn [orb].
  rewrite Z.gtb_ltb in E1. rewrite Z.geb_leb in E2. apply Z.ltb_ge in E1. apply Z.leb_gt in E2. destruct (j' >=? n) eqn:E3; intros [= <- <-]; rewrite Z.geb_leb in E3; [lia|apply Z.leb_gt in E3; lia].
Qed.

Lemma zsetLength_ok zs l : zset_ok hash zs l -> zsetLength zs = zlen l /\ zlen l < 2 ^ 31.
Proof using Type.
  intros H. pose proof (z_ok (zsl zs) l (zk_zsl _ _ _ H)) as Hok. pose proof (zo_few _ _ Hok) as Hf. pose proof (zlen_nonneg l). split; [|done]. unfold zsetLength.
  rewrite (zo_length _ _ Hok), swrap_small by (unfold sfits; lia). rewrite uwrap_small by lia. done.
Qed.

(** What the arguments of a range have to be. *)
Definition zrange_pre (rg : zrange) (L : list pair) : Prop :=
  match rg with
  | ByRank _ _ => True
  | ByScore r => num (min_ r)
  | ByLex r => flat_scores L /\ lex_ok r
  end.

Lemma zremrange_ok zs L rg : zset_repr hash zs L -> room L -> zrange_pre rg L ->
  exists zs', zremrange hash can_resize zs rg = Some (zs', (spec_remrange rg L).2) /\ zset_repr hash zs' (spec_remrange rg L).1.
Proof using Type.
  intros (l & H & <-) Hr Hpre. destruct (zsetLength_ok zs l H) as [Hlen Hl]. pose proof (zk_zsl _ _ _ H) as Hz. pose proof (zk_dict _ _ _ H) as Hd. unfold zremrange, spec_remrange. destruct rg as [i j|r|r]; cbn [zrange_pre] in Hpre.
  - rewrite Hlen, zlen_pairs. destruct (sanitize (zlen l) i j) as [[a b]|] eqn:Hs; cbn [mbind option_bind fst snd]; [|eexists; split; [done|by exists l]].
    apply sanitize_bounds in Hs. rewrite !uwrap_small by lia.
    destruct (deletes_repr zs l _ _ _ H Hr (cut_perm (Z.to_nat (a + 1 - 1)) (Z.to_nat (b + 1)) l ltac:(lia)) (deleteRangeByRank_ok hash (zsl zs) l (zdict zs) Hz Hd (a + 1) (b + 1) ltac:(lia) ltac:(lia))) as (zl & d & zs' & -> & Hrs & H').
    cbn [fmap option_fmap option_map mbind option_bind]. rewrite Hrs. cbn [mbind option_bind fst snd]. exists zs'. split.
    + do 2 f_equal. unfold zlen in *. rewrite length_drop, length_take. lia.
    + eexists. split; [exact H'|]. rewrite fmap_app, fmap_take, fmap_drop. by replace (a + 1 - 1) with a by lia.
  - destruct (deletes_repr zs l _ _ _ H Hr (filter_split (score_in r) l) (deleteRangeByScore_ok hash (zsl zs) l (zdict zs) r Hz Hd Hpre)) as (zl & d & zs' & -> & Hrs & H').
    cbn [fmap option_fmap option_map mbind option_bind]. rewrite Hrs. cbn [mbind option_bind fst snd]. exists zs'. rewrite <- (filter_pairs (pair_score_in r)), zlen_pairs. split; [done|].
    eexists. split; [exact H'|]. by rewrite <- (filter_pairs (fun e => negb (pair_score_in r e))).
  - destruct Hpre as [Hf Hlex]. destruct (deletes_repr zs l _ _ _ H Hr (filter_split (lex_in r) l) (deleteRangeByLex_ok hash (zsl zs) l (zdict zs) r Hz Hd Hf Hlex)) as (zl & d & zs' & -> & Hrs & H').
    cbn [fmap option_fmap option_map mbind option_bind]. rewrite Hrs. cbn [mbind option_bind fst snd]. exists zs'. rewrite <- (filter_pairs (pair_lex_in r)), zlen_pairs. split; [done|].
    eexists. split; [exact H'|]. by rewrite <- (filter_pairs (fun e => negb (pair_lex_in r e))).
Qed.

(** ** The questions about a member *)

Lemma fetch_member zs l o : zset_ok hash zs l -> exists d, dictFetchValue hash (zdict zs) o = Some (d, index l !! o) /\ zset_ok hash (set_zdict d zs) l.
Proof using Type.
  intros H. destruct (dictFetchValue_inv hash (zdict zs) o (zk_dict _ _ _ H)) as (d & Hrun & Hd & Hm). rewrite (zk_map _ _ _ H) in Hrun, Hm. exists d. split; [done|].
  split; cbn [zsl zdict set_zdict]; [apply H|done|done].
Qed.

(** The node of a member. *)
Lemma index_cases l o : NoDup l.*2.*2 ->
  (index l !! o = None /\ spec_score o l.*2 = None /\ spec_index o l.*2 = None) \/
  exists q a s, index l !! o = Some a /\ spec_score o l.*2 = Some s /\ spec_index o l.*2 = Some q /\ l !! q = Some (a, (s, o)).
Proof using Type.
  intros Hnd. destruct (member_cases o l Hnd) as [(Hs & Hi & Hout)|(q & a & s & Hs & Hi & Hq & _)]; [left|right; exists q, a, s].
  - split; [|done]. apply not_elem_of_list_to_map. by rewrite index_keys.
  - split; [|done]. apply index_lookup; [done|]. exists s. by eapply list_elem_of_lookup_2.
Qed.

Lemma zscore_ok zs L o : zset_repr hash zs L -> exists zs', zscore hash zs o = Some (zs', spec_score o L) /\ zset_repr hash zs' L.
Proof using Type.
  intros (l & H & <-). unfold zscore. destruct (fetch_member zs l o H) as (d & -> & H'). cbn [mbind option_bind].
  destruct (index_cases l o (members_nodup zs l H)) as [(-> & -> & _)|(q & a & s & -> & -> & _ & Hq)]; [eexists; split; [done|by exists l]|].
  rewrite (score_at _ l q a s o H' Hq). cbn [mbind option_bind]. eexists. split; [done|by exists l].
Qed.

Lemma zrank_ok reverse zs L o : zset_repr hash zs L -> exists zs', zrank hash reverse zs o = Some (zs', spec_rank reverse o L) /\ zset_repr hash zs' L.
Proof using Type.
  intros (l & H & <-). unfold zrank. destruct (zsetLength_ok zs l H) as [-> Hl]. destruct (fetch_member zs l o H) as (d & -> & H'). cbn [mbind option_bind]. unfold spec_rank.
  destruct (index_cases l o (members_nodup zs l H)) as [(-> & _ & ->)|(q & a & s & -> & _ & -> & Hq)]; [eexists; split; [done|by exists l]|].
  rewrite (score_at _ l q a s o H' Hq). cbn [mbind option_bind zsl set_zdict]. pose proof (zk_zsl _ _ _ H) as Hz.
  rewrite (getrank_ok (zsl zs) l Hz q a s o s Hq) by (apply deq_refl, (elt_ok_at (zsl zs) l Hz q a _ Hq)). cbn [mbind option_bind]. destruct (Z.eqb_spec (Z.of_nat (S q)) 0); [lia|].
  apply lookup_lt_Some in Hq. rewrite zlen_pairs. unfold zlen in *. exists (set_zdict d zs). split; [|by exists l]. cbn [fmap option_fmap option_map]. destruct reverse; rewrite uwrap_small by lia; do 3 f_equal; lia.
Qed.
End ops.
