(* ===== verification/ZsetRange.v ===== *)
(** * Sorted sets: the answers that list elements (src/redis-2.8.19/src/t_zset.c)

    The walks along the first level and along the backward pointers, by index, by score
    or by string, and the counts; then a whole session with a sorted set. *)
From S2P Require Import Prelude Util Sds Object Dict DictIter DictBound HashType Zskiplist ZskiplistSpec ZskiplistInsert ZskiplistDelete ZskiplistOrder ZskiplistOps ZskiplistRange Zset ZsetSpec.
Open Scope Z_scope.

Lemma answer_cons (a : nat) s o (L : list elt) : answer ((a, (s, o)) :: L).*2 = (o, s) :: answer L.*2.
Proof. done. Qed.

Lemma limited_0 {A} (L : list A) : limited 0 L = [].
Proof. done. Qed.

Lemma from_end_fmap {A B} (f : A -> B) b (L : list A) : f <$> from_end b L = from_end b (f <$> L).
Proof. destruct b; [apply fmap_reverse|done]. Qed.

Lemma from_end_length {A} b (L : list A) : length (from_end b L) = length L.
Proof. destruct b; [apply length_reverse|done]. Qed.

Lemma limited_nil {A} lim : limited lim (@nil A) = [].
Proof. unfold limited. destruct (_ <? _); [done|apply take_nil]. Qed.

(** A segment, seen from either end. *)
Definition seen_from {A} (reverse : bool) (l : list A) (lo hi : nat) : nat := if reverse then (length l - hi)%nat else lo.

Lemma from_end_segment {A} reverse (l : list A) lo hi : (lo <= length l)%nat -> (hi <= length l)%nat ->
  from_end reverse (drop lo (take hi l)) = drop (seen_from reverse l lo hi) (take (seen_from reverse l hi lo) (from_end reverse l)).
Proof.
  intros Hlo Hhi. destruct reverse; cbn [from_end seen_from]; [|done]. rewrite reverse_drop, reverse_take, length_take. destruct (decide (lo <= hi)%nat).
  - rewrite take_drop_commute. do 2 f_equal. lia.
  - rewrite (drop_ge (take _ _)) by (rewrite length_take; lia). by replace (hi `min` length l - lo)%nat with 0%nat by lia.
Qed.

(** ** The loops *)

(** [pts] is what is replied, in the order of the walk; [At q c] says that the place [c]
    is that of number [q]. *)
Section loops.
Context {C : Type} (read : C -> option (bytes * double)) (next : C -> option (option C)).
Context (pts : list (bytes * double)) (At : nat -> C -> Prop).

Definition at_opt (q : nat) (ln : option C) : Prop := match ln with Some c => At q c | None => (length pts <= q)%nat end.

Context (Hread : forall q c, At q c -> exists x, pts !! q = Some x /\ read c = Some x).
Context (Hnext : forall q c, At q c -> exists r, next c = Some r /\ at_opt (S q) r).

Lemma range_loop_ok n : forall q ln, at_opt q ln -> (q + n <= length pts)%nat -> range_loop read next n ln = Some (take n (drop q pts)).
Proof using Hread Hnext.
  induction n as [|n IH]; intros q ln Hat Hq; [done|]. cbn [range_loop]. destruct ln as [c|]; cbn [at_opt] in Hat; [|lia]. cbn [mbind option_bind].
  destruct (Hread q c Hat) as (x & Hx & ->). destruct (Hnext q c Hat) as (r & -> & Hr). cbn [mbind option_bind]. rewrite (IH (S q) r Hr) by lia. cbn [mbind option_bind].
  by rewrite (drop_S pts _ q Hx).
Qed.

(** Where the walk is after an offset. *)
Definition after_offset (q : nat) (off : Z) (ln : option C) : Prop :=
  if (off <? 0) || (zlen pts - Z.of_nat q <=? off) then ln = None else at_opt (q + Z.to_nat off) ln.

Lemma offset_loop_ok fuel : forall q off ln, at_opt q ln -> (length pts - q < fuel)%nat -> zlen pts < 2 ^ 31 -> sfits 64 off ->
  exists ln', offset_loop next fuel off ln = Some ln' /\ after_offset q off ln'.
Proof using Hread Hnext.
  unfold after_offset. induction fuel as [|fuel IH]; intros q off ln Hat Hf Hfew Hoff; [lia|]. cbn [offset_loop]. destruct ln as [c|]; cbn [at_opt] in Hat.
  - destruct (Hread q c Hat) as (x & Hx%lookup_lt_Some & _). destruct (Z.eqb_spec off 0) as [->|Hne].
    + exists (Some c). split; [done|]. cbn [orb]. destruct (Z.leb_spec (zlen pts - Z.of_nat q) 0); [unfold zlen in *; lia|]. cbn. by rewrite Nat.add_0_r.
    + destruct (Hnext q c Hat) as (r & -> & Hr). cbn [mbind option_bind]. unfold sfits, zlen in *. destruct (decide (off = -2 ^ 63)) as [->|Hmin].
      * assert (s64 (-2 ^ 63 - 1) = 2 ^ 63 - 1) as -> by reflexivity. destruct (IH (S q) (2 ^ 63 - 1) r Hr) as (ln' & -> & Hln); [lia|lia|lia|]. exists ln'. split; [done|].
        rewrite (proj2 (Z.leb_le (Z.of_nat (length pts) - Z.of_nat (S q)) _)), orb_true_r in Hln by lia. by rewrite (proj2 (Z.ltb_lt (-2 ^ 63) 0)) by lia.
      * rewrite swrap_small by (unfold sfits; lia). destruct (IH (S q) (off - 1) r Hr) as (ln' & -> & Hln); [lia|lia|lia|]. exists ln'. split; [done|].
        destruct (Z.ltb_spec off 0), (Z.ltb_spec (off - 1) 0), (Z.leb_spec (Z.of_nat (length pts) - Z.of_nat q) off), (Z.leb_spec (Z.of_nat (length pts) - Z.of_nat (S q)) (off - 1)); cbn [orb] in *; try done; try lia.
        by replace (q + Z.to_nat off)%nat with (S q + Z.to_nat (off - 1))%nat by lia.
  - exists None. split; [done|]. destruct (_ || _); [done|]. cbn [at_opt]. lia.
Qed.

Lemma limit_loop_ok inside fuel m : (forall q c, At q c -> inside c = Some (bool_decide (q < m)%nat)) ->
  forall q lim ln, at_opt q ln -> (length pts - q < fuel)%nat -> zlen pts < 2 ^ 31 -> sfits 64 lim ->
  limit_loop read next inside fuel lim ln = Some (limited lim (drop q (take m pts))).
Proof using Hread Hnext.
  intros Hin. induction fuel as [|fuel IH]; intros q lim ln Hat Hf Hfew Hlim; [lia|]. cbn [limit_loop]. destruct ln as [c|]; cbn [at_opt] in Hat.
  - destruct (Hread q c Hat) as (x & Hx & Hrd). apply lookup_lt_Some in Hx as Hlt. destruct (Z.eqb_spec lim 0) as [->|Hne]; [done|]. rewrite (Hin q c Hat). cbn [mbind option_bind].
    destruct (bool_decide_reflect (q < m)%nat) as [Hqm|Hqm]; cbn [negb].
    + rewrite Hrd. cbn [mbind option_bind]. destruct (Hnext q c Hat) as (r & -> & Hr). cbn [mbind option_bind]. assert (take m pts !! q = Some x) as Ht by by rewrite lookup_take_lt by lia.
      assert (limited (s64 (lim - 1)) (drop (S q) (take m pts)) = drop 1 (limited lim (drop q (take m pts)))) as Hlm.
      { rewrite (drop_S _ _ q Ht). unfold limited, sfits, zlen in *. destruct (decide (lim = -2 ^ 63)) as [->|Hmin].
        - assert (s64 (-2 ^ 63 - 1) = 2 ^ 63 - 1) as -> by reflexivity. rewrite (proj2 (Z.ltb_lt (-2 ^ 63) 0)) by lia. rewrite (proj2 (Z.ltb_ge (2 ^ 63 - 1) 0)) by lia.
          cbn [drop]. rewrite take_ge by (rewrite length_drop, length_take; lia). by rewrite drop_0.
        - rewrite swrap_small by (unfold sfits; lia). destruct (Z.ltb_spec lim 0), (Z.ltb_spec (lim - 1) 0); try lia; cbn [drop]; rewrite ?drop_0; [done|].
          replace (Z.to_nat lim) with (S (Z.to_nat (lim - 1))) by lia. cbn [take drop]. by rewrite drop_0. }
      rewrite (IH (S q) _ r Hr); [|lia|done|by apply swrap_fits]. rewrite Hlm. cbn [mbind option_bind]. rewrite (drop_S _ _ q Ht). unfold limited. destruct (Z.ltb_spec lim 0); cbn [drop]; rewrite ?drop_0; [done|].
      replace (Z.to_nat lim) with (S (Z.to_nat (lim - 1))) by lia. cbn [take drop]. by rewrite drop_0.
    + rewrite drop_ge by (rewrite length_take; lia). by rewrite limited_nil.
  - rewrite drop_ge by (rewrite length_take; lia). by rewrite limited_nil.
Qed.

(** Offset and limit together, from place [p], when the range ends before place [m]. *)
Lemma offset_limit_ok inside p m fuel off lim ln : (forall q c, At q c -> inside c = Some (bool_decide (q < m)%nat)) -> at_opt p ln -> (length pts < fuel)%nat -> zlen pts < 2 ^ 31 ->
  sfits 64 off -> sfits 64 lim ->
  (ln ← offset_loop next fuel off ln; limit_loop read next inside fuel lim ln) = Some (limited lim (skipped off (drop p (take m pts)))).
Proof using Hread Hnext.
  intros Hin Hat Hf Hfew Hoff Hlim. destruct (offset_loop_ok fuel p off ln Hat ltac:(lia) Hfew Hoff) as (ln' & -> & Hln). cbn [mbind option_bind]. unfold after_offset in Hln. unfold skipped.
  destruct (Z.ltb_spec off 0) as [Hneg|Hneg]; cbn [orb] in Hln.
  - subst ln'. rewrite limited_nil. by destruct fuel.
  - destruct (Z.leb_spec (zlen pts - Z.of_nat p) off) as [Hbig|Hbig].
    + subst ln'. rewrite (drop_ge (drop _ _)) by (rewrite length_drop, length_take; unfold zlen in *; lia). rewrite limited_nil. by destruct fuel.
    + rewrite (limit_loop_ok inside fuel m Hin (p + Z.to_nat off) lim ln' Hln) by (done || lia). by rewrite drop_drop.
Qed.
End loops.

(** ** Walks along a skip list *)

Section walk.
Context (zl : zskiplist) (l : list elt) (Hz : is_zsl zl l) (reverse : bool).
Abbreviation h := (heap zl).
Abbreviation s := (from_end reverse l).

Lemma s_at q e : s !! q = Some e -> l !! (if reverse then length l - S q else q)%nat = Some e.
Proof using Type. destruct reverse; [|done]. cbn [from_end]. by intros [Hq _]%reverse_lookup_Some. Qed.

(** The next node, whatever the direction, is the next one of the list in that order. *)
Lemma next_ok q e : s !! q = Some e -> exists n, h !! e.1 = Some n /\ obj n = Some e.2.2 /\ score n = e.2.1 /\ next_node reverse zl e.1 = Some (fst <$> s !! S q).
Proof using Hz.
  intros Hq. pose proof (s_at q e Hq) as Hl. destruct e as [a [sc o]]. pose proof (z_ok zl l Hz) as Hok. destruct (zo_nodes _ _ Hok _ _ _ _ Hl) as (ht & Hi & _).
  apply info_node in Hi as (n & Hn & Ho & Hs & Hb & _). exists n. split; [done|]. split; [done|]. split; [done|]. unfold next_node. cbn [fst]. destruct reverse.
  - rewrite Hn. cbn [fmap option_fmap option_map]. rewrite Hb. f_equal. cbn [from_end] in *. apply reverse_lookup_Some in Hq as [_ Hlt]. destruct (length l - S q)%nat as [|k] eqn:E.
    + by rewrite (lookup_ge_None_2 (list.reverse l)) by (rewrite length_reverse; lia).
    + rewrite reverse_lookup by lia. by replace (length l - S (S q))%nat with k by lia.
  - cbn [from_end] in *. rewrite (lev_0 zl l Hok (S q) a) by by rewrite nodes_S, Hq. cbn [fmap option_fmap option_map fst]. by rewrite nodes_S.
Qed.

(** The place of a node. *)
Definition node_place (q : nat) (x : nat) : Prop := exists e, s !! q = Some e /\ e.1 = x.

Abbreviation pts := (answer s.*2).

Lemma pts_length : length pts = length l.
Proof using Type. unfold answer. by rewrite !length_fmap, from_end_length. Qed.

Lemma node_opt q : at_opt pts node_place q (fst <$> s !! q).
Proof using Type. destruct (s !! q) as [e|] eqn:He; cbn; [by exists e|]. apply lookup_ge_None_1 in He. rewrite pts_length. by rewrite from_end_length in He. Qed.

Lemma node_read q x : node_place q x -> exists y, pts !! q = Some y /\ read_node zl x = Some y.
Proof using Hz.
  intros (e & He & <-). destruct (next_ok q e He) as (n & Hn & Ho & Hs & _). exists (e.2.2, e.2.1). split.
  - unfold answer. rewrite !list_lookup_fmap, He. done.
  - unfold read_node. rewrite Hn. cbn [mbind option_bind]. rewrite Ho. cbn [mbind option_bind]. by rewrite Hs.
Qed.

Lemma node_next q x : node_place q x -> exists r, next_node reverse zl x = Some r /\ at_opt pts node_place (S q) r.
Proof using Hz. intros (e & He & <-). destruct (next_ok q e He) as (_ & _ & _ & _ & ->). eexists. split; [done|apply node_opt]. Qed.
End walk.

Lemma limit_offset_nil {A} lim off : limited lim (skipped off (@nil A)) = [].
Proof. unfold skipped. rewrite drop_nil. destruct (_ <? _); by rewrite limited_nil. Qed.

Section lists.
Context (zl : zskiplist) (l : list elt) (Hz : is_zsl zl l) (reverse : bool).
Abbreviation s := (from_end reverse l).

(** The segment of a range, from either end. *)
Lemma segment_from_end r g f : range_ok r l.*2 g f -> exists p m,
  from_end reverse (segment g f l) = drop p (take m s) /\ (p <= length l)%nat /\
  (forall q e n, s !! q = Some e -> obj n = Some e.2.2 -> score n = e.2.1 -> (if reverse then gte_min r else lte_max r) n = bool_decide (q < m)%nat).
Proof using Type.
  intros Hr. rewrite (segment_ok l r g f Hr). set (lo := prefix_len (fun e => negb (g e)) l.*2). set (hi := prefix_len f l.*2).
  assert ((lo <= length l)%nat /\ (hi <= length l)%nat) as [Hlo Hhi] by (unfold lo, hi; rewrite <- (length_fmap snd l); split; apply prefix_len_bound).
  exists (seen_from reverse l lo hi), (seen_from reverse l hi lo). split; [by apply from_end_segment|]. pose proof (s_at l reverse) as Hsat. destruct reverse; cbn [from_end seen_from] in *; (split; [lia|]).
  - intros q e n Hq Ho Hs. apply lookup_lt_Some in Hq as Hlt. rewrite length_reverse in Hlt. rewrite (ro_gte _ _ _ _ Hr n e.2.2 Ho), Hs. rewrite <- surjective_pairing.
    rewrite (g_at l r g f Hr _ _ (Hsat q e Hq)). fold lo. apply bool_decide_ext. lia.
  - intros q e n Hq Ho Hs. rewrite (ro_lte _ _ _ _ Hr n e.2.2 Ho), Hs. rewrite <- surjective_pairing. by rewrite (f_at l r g f Hr _ _ Hq).
Qed.

Lemma list_range_ok r g f off lim : range_ok r l.*2 g f -> sfits 64 off -> sfits 64 lim ->
  list_range reverse zl r off lim = Some (limited lim (skipped off (answer (from_end reverse (segment g f l)).*2))).
Proof using Hz.
  intros Hr Hoff Hlim. pose proof (z_ok zl l Hz) as Hok. pose proof (zo_few _ _ Hok) as Hfew. unfold list_range.
  assert ((if reverse then last_in_range zl r else first_in_range zl r) = Some (fst <$> head (from_end reverse (segment g f l)))) as ->.
  { destruct reverse; cbn [from_end]; [rewrite head_reverse; by apply (last_ok zl l Hz)|by apply (first_ok zl l Hz)]. }
  cbn [mbind option_bind]. destruct (segment_from_end r g f Hr) as (p & m & Hseg & Hp & Hin). rewrite Hseg, head_segment. rewrite (ok_size zl l Hok).
  assert (answer (drop p (take m s)).*2 = drop p (take m (answer s.*2))) as Hans by (unfold answer; by rewrite !fmap_drop, !fmap_take). rewrite Hans.
  pose proof (pts_length l reverse) as Hpl. destruct (decide (p < m)%nat) as [Hpm|Hpm]; [|rewrite drop_ge by (rewrite length_take; lia); by rewrite limit_offset_nil].
  destruct (s !! p) as [e|] eqn:He; cbn [fmap option_fmap option_map]; [|apply lookup_ge_None_1 in He; rewrite drop_ge by (rewrite length_take, Hpl; rewrite from_end_length in He; lia); by rewrite limit_offset_nil].
  apply (offset_limit_ok _ _ (answer s.*2) (node_place l reverse) (node_read zl l Hz reverse) (node_next zl l Hz reverse)); [|by exists e|lia|unfold zlen in *; lia|done|done].
  intros q x (e' & He' & <-). destruct (next_ok zl l Hz reverse q e' He') as (n & Hn & Ho & Hs & _). rewrite Hn. cbn [fmap option_fmap option_map]. by rewrite (Hin q e' n He' Ho Hs).
Qed.

(** By index. *)
Lemma range_start i : 0 <= i < zlen l -> zlen l < 2 ^ 31 ->
  (if reverse then if i >? 0 then zslGetElementByRank zl (u64 (zlen l - i)) else Some (tail zl)
   else if i >? 0 then zslGetElementByRank zl (u64 (i + 1)) else fst <$> lev (heap zl) (header zl) 0) = Some (fst <$> s !! Z.to_nat i).
Proof using Hz.
  intros Hi Hfew. pose proof (z_ok zl l Hz) as Hok. unfold zlen in *. rewrite Z.gtb_ltb. destruct (Z.ltb_spec 0 i) as [Hpos|Hz0].
  - destruct reverse; cbn [from_end]; rewrite uwrap_small by lia; rewrite (element_ok zl l Hz) by lia.
    + rewrite reverse_lookup by lia. do 3 f_equal. lia.
    + do 3 f_equal. lia.
  - assert (i = 0) as -> by lia. destruct reverse; cbn [from_end].
    + rewrite (zo_tail _ _ Hok), <- head_reverse, head_lookup. done.
    + rewrite (lev_0 zl l Hok 0 (header zl) eq_refl). cbn [fmap option_fmap option_map fst]. by rewrite nodes_S.
Qed.
End lists.

Section count.
Context (zl : zskiplist) (l : list elt) (Hz : is_zsl zl l).

Lemma node_rank_ok q e : l !! q = Some e -> node_rank zl e.1 = Some (Z.of_nat (S q)).
Proof using Hz.
  destruct e as [a [sc o]]. intros Hq. destruct (node_at zl l Hz q a sc o Hq) as (n & Hn & Ho & Hs). unfold node_rank. cbn [fst]. rewrite Hn. cbn [mbind option_bind]. rewrite Ho. cbn [mbind option_bind]. rewrite Hs.
  apply (getrank_ok zl l Hz q a sc o); [done|]. apply deq_refl, (elt_ok_at zl l Hz q a _ Hq).
Qed.

Lemma count_range_ok r g f : range_ok r l.*2 g f -> count_range zl r = Some (zlen (segment g f l)).
Proof using Hz.
  intros Hr. pose proof (z_ok zl l Hz) as Hok. pose proof (zo_few _ _ Hok) as Hfew. pose proof (zo_length _ _ Hok) as Hlen. unfold count_range. rewrite (first_ok zl l Hz r g f Hr). cbn [mbind option_bind].
  rewrite (segment_ok l r g f Hr). set (lo := prefix_len (fun e => negb (g e)) l.*2). set (hi := prefix_len f l.*2). rewrite head_segment.
  assert (hi <= length l)%nat as Hhi by (unfold hi; rewrite <- (length_fmap snd l); apply prefix_len_bound).
  destruct (decide (lo < hi)%nat) as [Hlt|Hge]; cbn [fmap option_fmap option_map]; [|by rewrite drop_ge by (rewrite length_take; lia)].
  destruct (lookup_lt_is_Some_2 l lo) as [e He]; [lia|]. rewrite He. cbn [fmap option_fmap option_map]. rewrite (node_rank_ok lo e He). cbn [mbind option_bind].
  rewrite (last_ok zl l Hz r g f Hr). cbn [mbind option_bind]. rewrite (segment_ok l r g f Hr). fold lo hi. rewrite last_segment by done. rewrite decide_True by done.
  destruct (lookup_lt_is_Some_2 l (hi - 1)) as [e' He']; [lia|]. rewrite He'. cbn [fmap option_fmap option_map]. rewrite (node_rank_ok (hi - 1) e' He'). cbn [mbind option_bind]. f_equal.
  rewrite Hlen. unfold zlen in *. rewrite length_drop, length_take. rewrite (uwrap_small 64 (Z.of_nat (S lo) - 1)), (uwrap_small 64 (Z.of_nat (length l) - Z.of_nat (S (hi - 1)))) by lia.
  rewrite (uwrap_small 64 (Z.of_nat (length l) - _)) by lia. rewrite (swrap_small 32 (Z.of_nat (length l) - _)) by (unfold sfits; lia). rewrite uwrap_small by lia. rewrite swrap_small by (unfold sfits; lia). lia.
Qed.
End count.

(** ** A session with a sorted set *)

(** [rnds i] is what [random] returns for the insertion number [i] into a skip list; the
    conversion of a ziplist needs several. *)
Inductive zop :=
  | OAdd (incr : bool) (rnds : nat -> list Z) (sc : double) (ele : bytes)
  | ORem (ele : bytes)
  | ORemRange (rg : zrange)
  | OScore (ele : bytes)
  | ORank (reverse : bool) (ele : bytes)
  | ORange (reverse : bool) (start end_ : Z)
  | ORangeByScore (reverse : bool) (r : zrangespec) (offset limit : Z)
  | ORangeByLex (reverse : bool) (r : zlexrangespec) (offset limit : Z)
  | OCount (r : zrangespec)
  | OLexCount (r : zlexrangespec)
  | OCard.

Inductive zreply :=
  | RAdded (sc : double) (res : zadd_result)
  | RRemoved (b : bool)
  | RNumber (n : Z)
  | RScore (sc : option double)
  | RRank (rank : option Z)
  | RElements (l : list (bytes * double)).

Section session.
Context (junk : option nat * Z) (hash : bytes -> Z) (can_resize : bool) (alloc : gmap nat zskiplistNode -> nat) (fadd : double -> double -> double).

Definition zset_step (zs : zset) (op : zop) : option (zset * zreply) :=
  match op with
  | OAdd incr rnds sc ele => '(zs, sc, res) ← zaddElement junk hash can_resize alloc fadd incr (rnds 0%nat) zs sc ele; Some (zs, RAdded sc res)
  | ORem ele => '(zs, b) ← zremElement hash can_resize zs ele; Some (zs, RRemoved b)
  | ORemRange rg => '(zs, n) ← zremrange hash can_resize zs rg; Some (zs, RNumber n)
  | OScore ele => '(zs, sc) ← zscore hash zs ele; Some (zs, RScore sc)
  | ORank reverse ele => '(zs, r) ← zrank hash reverse zs ele; Some (zs, RRank r)
  | ORange reverse start end_ => l ← zrange_list reverse zs start end_; Some (zs, RElements l)
  | ORangeByScore reverse r offset limit => l ← genericZrangebyscore reverse zs r offset limit; Some (zs, RElements l)
  | ORangeByLex reverse r offset limit => l ← genericZrangebylex reverse zs r offset limit; Some (zs, RElements l)
  | OCount r => n ← zcount zs r; Some (zs, RNumber n)
  | OLexCount r => n ← zlexcount zs r; Some (zs, RNumber n)
  | OCard => Some (zs, RNumber (zsetLength zs))
  end.

Fixpoint zset_run (zs : zset) (ops : list zop) : option (zset * list zreply) :=
  match ops with
  | [] => Some (zs, [])
  | op :: ops => '(zs, r) ← zset_step zs op; '(zs, rs) ← zset_run zs ops; Some (zs, r :: rs)
  end.

Definition spec_step (L : list pair) (op : zop) : list pair * zreply :=
  match op with
  | OAdd incr _ sc ele => let '(L', (sc, res)) := spec_add fadd incr sc ele L in (L', RAdded sc res)
  | ORem ele => (spec_remove ele L, RRemoved (bool_decide (spec_score ele L <> None)))
  | ORemRange rg => let '(L', n) := spec_remrange rg L in (L', RNumber n)
  | OScore ele => (L, RScore (spec_score ele L))
  | ORank reverse ele => (L, RRank (spec_rank reverse ele L))
  | ORange reverse start end_ => (L, RElements (spec_range reverse start end_ L))
  | ORangeByScore reverse r offset limit => (L, RElements (spec_list reverse (pair_score_in r) offset limit L))
  | ORangeByLex reverse r offset limit => (L, RElements (spec_list reverse (pair_lex_in r) offset limit L))
  | OCount r => (L, RNumber (zlen (List.filter (pair_score_in r) L)))
  | OLexCount r => (L, RNumber (zlen (List.filter (pair_lex_in r) L)))
  | OCard => (L, RNumber (zlen L))
  end.

Fixpoint spec_run (L : list pair) (ops : list zop) : list pair * list zreply :=
  match ops with
  | [] => (L, [])
  | op :: ops => let '(L, r) := spec_step L op in let '(L, rs) := spec_run L ops in (L, r :: rs)
  end.

(** What the callers check, and what an order of strings needs. *)
Definition op_pre (L : list pair) (op : zop) : Prop :=
  room L /\
  match op with
  | OAdd _ rnds sc ele => elt_ok (sc, ele) /\ forall i, rnd_ok (rnds i)
  | ORemRange rg => zrange_pre rg L
  | ORangeByScore _ _ offset limit => sfits 64 offset /\ sfits 64 limit
  | ORangeByLex _ r offset limit => (flat_scores L /\ lex_ok r) /\ sfits 64 offset /\ sfits 64 limit
  | OLexCount r => flat_scores L /\ lex_ok r
  | _ => True
  end.

Fixpoint ops_pre (L : list pair) (ops : list zop) : Prop :=
  match ops with
  | [] => True
  | op :: ops => op_pre L op /\ ops_pre (spec_step L op).1 ops
  end.

Lemma zrange_list_ok reverse zs L i j : zset_repr hash zs L -> zrange_list reverse zs i j = Some (spec_range reverse i j L).
Proof using Type.
  intros (l & H & <-). destruct (zsetLength_ok hash zs l H) as [Hlen Hl]. pose proof (zk_zsl _ _ _ H) as Hz. unfold zrange_list, spec_range. rewrite Hlen, zlen_pairs.
  rewrite swrap_small by (pose proof (zlen_nonneg l); unfold sfits; lia). destruct (sanitize (zlen l) i j) as [[a b]|] eqn:Hs; [|done]. apply sanitize_bounds in Hs.
  rewrite (range_start (zsl zs) l Hz reverse a) by lia. cbn [mbind option_bind]. rewrite swrap_small by (unfold sfits; lia).
  rewrite (range_loop_ok _ _ _ _ (node_read (zsl zs) l Hz reverse) (node_next (zsl zs) l Hz reverse) _ _ _ (node_opt l reverse (Z.to_nat a))) by (rewrite (pts_length l reverse); unfold zlen in *; lia).
  unfold answer. by rewrite fmap_take, fmap_drop, <- from_end_fmap.
Qed.

Lemma list_range_repr reverse zl l r g f (inside : pair -> bool) off lim : is_zsl zl l -> range_ok r l.*2 g f -> (forall e, g e && f e = inside e) -> sfits 64 off -> sfits 64 lim ->
  list_range reverse zl r off lim = Some (spec_list reverse inside off lim l.*2).
Proof using Type.
  intros Hz Hr Hin Hoff Hlim. rewrite (list_range_ok zl l Hz reverse r g f off lim Hr Hoff Hlim). f_equal. unfold spec_list. do 2 f_equal.
  assert ((segment g f l).*2 = List.filter inside l.*2) as Hseg.
  { rewrite <- filter_pairs. unfold segment. f_equal. apply List.filter_ext. intros e. apply Hin. }
  by rewrite <- Hseg, <- from_end_fmap.
Qed.

Context (alloc_fresh : forall h, h !! alloc h = None).

Lemma zset_step_ok zs L op : zset_repr hash zs L -> op_pre L op -> exists zs', zset_step zs op = Some (zs', (spec_step L op).2) /\ zset_repr hash zs' (spec_step L op).1.
Proof using alloc_fresh.
  intros H [Hr Hpre]. destruct op as [incr rnd sc ele|ele|rg|ele|rev ele|rev i j|rev r off lim|rev r off lim|r|r|]; cbn [zset_step spec_step].
  - destruct Hpre as [He Hrnd]. destruct (zaddElement_ok junk hash can_resize alloc fadd alloc_fresh incr (rnd 0%nat) zs L sc ele H Hr He (Hrnd 0%nat)) as (zs' & -> & H'). cbn [mbind option_bind].
    destruct (spec_add _ _ _ _ _) as [L' [sc' res]]. by exists zs'.
  - destruct (zremElement_ok hash can_resize zs L ele H Hr) as (zs' & -> & H'). by exists zs'.
  - destruct (zremrange_ok hash can_resize zs L rg H Hr Hpre) as (zs' & -> & H'). cbn [mbind option_bind]. destruct (spec_remrange _ _). by exists zs'.
  - destruct (zscore_ok hash zs L ele H) as (zs' & -> & H'). by exists zs'.
  - destruct (zrank_ok hash rev zs L ele H) as (zs' & -> & H'). by exists zs'.
  - rewrite (zrange_list_ok rev zs L i j H). by exists zs.
  - destruct H as (l & H & <-). pose proof (zk_zsl _ _ _ H) as Hz. unfold genericZrangebyscore.
    rewrite (list_range_repr rev _ l _ (score_gte r) (score_lte r) (pair_score_in r)) by (done || apply score_range_ok, Hz || apply Hpre). exists zs. split; [done|by exists l].
  - destruct H as (l & H & <-). pose proof (zk_zsl _ _ _ H) as Hz. destruct Hpre as [[Hf Hlex] [Hoff Hlim]]. unfold genericZrangebylex.
    rewrite (list_range_repr rev _ l _ (lex_gte r) (lex_lte r) (pair_lex_in r)) by (done || (apply lex_range_ok; [apply Hz|done|done])). exists zs. split; [done|by exists l].
  - destruct H as (l & H & <-). pose proof (zk_zsl _ _ _ H) as Hz. unfold zcount. rewrite (count_range_ok (zsl zs) l Hz _ _ _ (score_range_ok r _ (iz_sorted _ _ Hz))). cbn [mbind option_bind].
    exists zs. split; [|by exists l]. do 3 f_equal. rewrite <- filter_pairs, zlen_pairs. done.
  - destruct H as (l & H & <-). pose proof (zk_zsl _ _ _ H) as Hz. destruct Hpre as [Hf Hlex]. unfold zlexcount. rewrite (count_range_ok (zsl zs) l Hz _ _ _ (lex_range_ok r _ (iz_sorted _ _ Hz) Hf Hlex)). cbn [mbind option_bind].
    exists zs. split; [|by exists l]. do 3 f_equal. rewrite <- filter_pairs, zlen_pairs. done.
  - exists zs. split; [|done]. destruct H as (l & H & <-). destruct (zsetLength_ok hash zs l H) as [-> _]. by rewrite zlen_pairs.
Qed.

Lemma zset_run_ok ops : forall zs L, zset_repr hash zs L -> ops_pre L ops -> exists zs', zset_run zs ops = Some (zs', (spec_run L ops).2) /\ zset_repr hash zs' (spec_run L ops).1.
Proof using alloc_fresh.
  induction ops as [|op ops IH]; intros zs L H Hpre; [by exists zs|]. destruct Hpre as [Hop Hpre]. cbn [zset_run spec_run].
  destruct (zset_step_ok zs L op H Hop) as (zs1 & -> & H1). cbn [mbind option_bind]. destruct (spec_step L op) as [L1 r]. cbn [fst snd] in *. destruct (IH zs1 L1 H1 Hpre) as (zs2 & -> & H2). cbn [mbind option_bind].
  destruct (spec_run L1 ops) as [L2 rs]. by exists zs2.
Qed.
End session.
