(* ===== verification/ZsetTheorems.v ===== *)
(** * Sorted sets: the theorems (src/redis-2.8.19/src/t_zset.c)

    A skip list is a sorted list under insertion and deletion, ranks and positions are
    inverse, a session with a sorted set is a session with a sorted list; and a range of
    strings that is empty by mistake. *)
From S2P Require Import Prelude Util Sds Object Dict DictIter DictBound HashType Zskiplist ZskiplistSpec ZskiplistOrder ZskiplistOps ZskiplistRange Zset ZsetSpec ZsetRange.
From Stdlib Require Import QArith.
Open Scope Z_scope.

(** ** A concrete sorted set *)

Definition new_addr (h : gmap nat zskiplistNode) : nat := infinite_fresh (elements (dom h)).

Lemma new_addr_fresh h : h !! new_addr h = None.
Proof. apply not_elem_of_dom. rewrite <- elem_of_elements. apply infinite_is_fresh. Qed.

Definition sum_bytes (b : bytes) : Z := foldr Z.add 0 b.

(** A sum of doubles, exact on the finite ones. *)
Definition add_exact (x y : double) : double :=
  match x, y with
  | Fin a, Fin b => Fin (Qred (a + b))
  | PosInf, NegInf | NegInf, PosInf | NaN, _ | _, NaN => NaN
  | Fin _, _ => y
  | _, _ => x
  end.

Definition no_link : option nat * Z := (None, 0).

Definition fruit : zskiplist := default (zslCreate no_link 0)
  (zl ← zslInsert no_link [0; 40000] 1 (zslCreate no_link 0) (Fin 2) (zs "pear");
   zl ← zslInsert no_link [50000] 2 zl (Fin 1) (zs "apple");
   zslInsert no_link [0; 0; 65535] 3 zl (Fin 2) (zs "fig")).

Definition fruit_list : list elt := [(2%nat, (Fin 1, zs "apple")); (3%nat, (Fin 2, zs "fig")); (1%nat, (Fin 2, zs "pear"))].

Lemma small_elt sc (o : bytes) : isnan sc = false -> (zlen o <? 2 ^ 31) = true -> elt_ok (sc, o).
Proof. intros H1 H2%Z.ltb_lt. done. Qed.

(** Three insertions, by the lemma on insertion. *)
Lemma fruit_ok : is_zsl fruit fruit_list.
Proof.
  destruct (insert_ok _ _ (create_ok no_link 0) no_link [0; 40000] 1 (Fin 2) (zs "pear") 2) as (z1 & E1 & H1 & _); [by apply small_elt|apply not_elem_of_nil|reflexivity|reflexivity|reflexivity|by vm_compute; lia|].
  destruct (insert_ok _ _ H1 no_link [50000] 2 (Fin 1) (zs "apple") 1) as (z2 & E2 & H2 & _); [by apply small_elt|by apply (bool_decide_unpack _); vm_compute| |reflexivity|reflexivity|by vm_compute; lia|].
  { vm_compute in E1. by injection E1 as <-. }
  destruct (insert_ok _ _ H2 no_link [0; 0; 65535] 3 (Fin 2) (zs "fig") 3) as (z3 & E3 & H3 & _); [by apply small_elt|by apply (bool_decide_unpack _); vm_compute| |reflexivity|reflexivity|by vm_compute; lia|].
  { vm_compute in E1. injection E1 as <-. vm_compute in E2. by injection E2 as <-. }
  assert (fruit = z3) as ->; [|exact H3]. unfold fruit. rewrite E1. cbn [mbind option_bind]. rewrite E2. cbn [mbind option_bind]. by rewrite E3.
Qed.

(** ** Skip lists *)

(** C30: [zslInsert] on a well-formed skip list, with enough random numbers, gives a
    well-formed one whose elements are the old ones and the new one, in order: every
    span and every pointer of every level is right again. *)
Theorem zslInsert_sorted junk zl l rnd x sc o : is_zsl zl l -> elt_ok (sc, o) -> o ∉ l.*2.*2 -> heap zl !! x = None -> zlen l + 1 < 2 ^ 31 -> rnd_ok rnd ->
  exists zl' l', zslInsert junk rnd x zl sc o = Some zl' /\ is_zsl zl' l' /\ l' ≡ₚ (x, (sc, o)) :: l /\ l'.*2 = spec_insert sc o l.*2.
Proof.
  intros Hz He Hn Hx Hfew Hrnd. destruct (rnd_level rnd Hrnd) as (lvl & Hlvl & Hb).
  destruct (insert_ok zl l Hz junk rnd x sc o lvl He Hn Hx Hfew Hlvl Hb) as (zl' & Hrun & Hz' & _). exists zl', (placed x (sc, o) l).
  split; [done|]. split; [done|]. split; [apply placed_perm|apply placed_pairs].
Qed.

Lemma zslInsert_sorted_witness : exists zl' l', zslInsert no_link [0; 0; 50000] 4 fruit (Fin 2) (zs "kiwi") = Some zl' /\ is_zsl zl' l' /\
  l' ≡ₚ (4%nat, (Fin 2, zs "kiwi")) :: fruit_list /\ l'.*2 = spec_insert (Fin 2) (zs "kiwi") fruit_list.*2.
Proof.
  apply zslInsert_sorted; [exact fruit_ok|by apply small_elt|by apply (bool_decide_unpack _); vm_compute|reflexivity|reflexivity|].
  split; [by eexists; vm_compute|reflexivity].
Defined.

(** [zslDelete] takes out the element with this score and this string and nothing
    else, frees its node and leaves a well-formed skip list without an empty level;
    when there is no such element, nothing changes. *)
Theorem zslDelete_exact zl l sc o : is_zsl zl l -> elt_ok (sc, o) ->
  (exists q a s zl', l !! q = Some (a, (s, o)) /\ deq s sc = true /\ zslDelete zl sc o = Some (zl', true) /\
     is_zsl zl' (take q l ++ drop (S q) l) /\ heap zl' !! a = None) \/
  ((forall a s, (a, (s, o)) ∈ l -> deq s sc = false) /\ zslDelete zl sc o = Some (zl, false)).
Proof.
  intros Hz He. destruct (decide (Exists (fun e => e.2.2 = o /\ deq e.2.1 sc = true) l)) as [Hex|Hno].
  - left. apply Exists_exists in Hex as ([a [s o']] & Hin & <- & Hd). cbn [fst snd] in *. apply list_elem_of_lookup in Hin as [q Hq].
    destruct (delete_at zl l Hz q a s o' Hq sc (deq_sym _ _ Hd)) as (zl' & Hrun & Hz' & _ & Hfree). by exists q, a, s, zl'.
  - right. assert (forall a s, (a, (s, o)) ∈ l -> deq s sc = false) as Hall.
    { intros a s Hin. apply not_true_iff_false. intros Hd. apply Hno, Exists_exists. by exists (a, (s, o)). }
    split; [done|]. apply (delete_absent zl l Hz sc o He). intros a s Hin. apply not_true_iff_false. intros Hd%deq_sym. specialize (Hall a s Hin). congruence.
Qed.

Lemma zslDelete_exact_witness :
  (exists q a s zl', fruit_list !! q = Some (a, (s, zs "fig")) /\ deq s (Fin (4 # 2)) = true /\ zslDelete fruit (Fin (4 # 2)) (zs "fig") = Some (zl', true) /\
     is_zsl zl' (take q fruit_list ++ drop (S q) fruit_list) /\ heap zl' !! a = None) \/
  ((forall a s, (a, (s, zs "fig")) ∈ fruit_list -> deq s (Fin (4 # 2)) = false) /\ zslDelete fruit (Fin (4 # 2)) (zs "fig") = Some (fruit, false)).
Proof. apply zslDelete_exact; [exact fruit_ok|by apply small_elt]. Defined.

(** The rank of an element is its position from 1, computed from the spans, and the
    element of that rank is its node: [zslGetElementByRank] undoes [zslGetRank]. *)
Theorem zsl_rank_roundtrip zl l q a s o : is_zsl zl l -> l !! q = Some (a, (s, o)) ->
  zslGetRank zl s o = Some (Z.of_nat (S q)) /\ zslGetElementByRank zl (Z.of_nat (S q)) = Some (Some a).
Proof.
  intros Hz Hq. split; [apply (getrank_ok zl l Hz q a s o s Hq), deq_refl, (elt_ok_at zl l Hz q a _ Hq)|].
  pose proof (zo_few _ _ (z_ok zl l Hz)) as Hfew. pose proof (lookup_lt_Some _ _ _ Hq) as Hlt. unfold zlen in Hfew.
  rewrite (element_ok zl l Hz) by lia. replace (Z.to_nat (Z.of_nat (S q) - 1)) with q by lia. by rewrite Hq.
Qed.

Lemma zsl_rank_roundtrip_witness : zslGetRank fruit (Fin 2) (zs "pear") = Some 3 /\ zslGetElementByRank fruit 3 = Some (Some 1%nat).
Proof. exact (zsl_rank_roundtrip fruit fruit_list 2 1 (Fin 2) (zs "pear") fruit_ok eq_refl). Defined.

(** ** Sessions *)

(** A session with a skip-list sorted set is a session with the sorted list of its scores and
    members: every addition, increment, removal, removal of a range by index, score or
    string, every rank, every listing from either end with an offset and a limit, and
    every count gives what the list gives, and none fails. *)
Theorem zset_session junk hash can_resize alloc fadd ops zs L :
  (forall h, h !! alloc h = None) -> zset_repr hash zs L -> ops_pre fadd L ops ->
  exists zs', zset_run junk hash can_resize alloc fadd zs ops = Some (zs', (spec_run fadd L ops).2) /\ zset_repr hash zs' (spec_run fadd L ops).1.
Proof. intros Ha H Hpre. by apply zset_run_ok. Qed.

Definition some_ops : list zop :=
  [OAdd false (fun _ => [0; 0; 40000]) (Fin 3) (zs "c"); OAdd false (fun _ => [50000]) (Fin 1) (zs "a"); OAdd false (fun _ => [0; 50000]) (Fin 2) (zs "b");
   OAdd true (fun _ => [0; 0; 0; 65535]) (Fin (5 # 2)) (zs "a"); ORank false (zs "a"); ORank true (zs "b"); OScore (zs "a");
   ORange true 0 (-2); OCount (mkRange (Fin 2) (Fin 3) true false); ORangeByScore true (mkRange NegInf PosInf false false) 1 (-1);
   ORemRange (ByScore (mkRange (Fin 2) (Fin 3) false true)); ORem (zs "a"); OCard; ORemRange (ByRank 0 (-1))].

(** The replies that follow the additions: "b" has 2, "c" has 3 and "a" has 1 + 2.5. *)
Example some_ops_replies : drop 4 (spec_run add_exact [] some_ops).2 =
  [RRank (Some 2); RRank (Some 2); RScore (Some (Fin (7 # 2))); RElements [(zs "a", Fin (7 # 2)); (zs "c", Fin 3)]; RNumber 1;
   RElements [(zs "c", Fin 3); (zs "b", Fin 2)]; RNumber 1; RRemoved true; RNumber 1; RNumber 1].
Proof. reflexivity. Qed.

Lemma zset_session_witness : exists zs',
  zset_run no_link sum_bytes true new_addr add_exact (createZsetObject no_link new_addr) some_ops = Some (zs', (spec_run add_exact [] some_ops).2) /\
  zset_repr sum_bytes zs' (spec_run add_exact [] some_ops).1.
Proof.
  apply zset_session; [exact new_addr_fresh|apply create_repr|].
  repeat (split; [split; [reflexivity|]|]); try exact I; try by apply small_elt.
  all: try reflexivity; try (intros _; split; [by eexists; vm_compute|reflexivity]); try (split; unfold sfits; lia); unfold sfits; lia.
Defined.

(** ** A range that is empty by mistake *)

Definition equal_scores : list zop :=
  [OAdd false (fun _ => [0; 40000]) (Fin 0) (zs "apple"); OAdd false (fun _ => [50000]) (Fin 0) (zs "fig"); OAdd false (fun _ => [50000]) (Fin 0) (zs "pear")].

(** ZRANGEBYLEX and ZLEXCOUNT on three elements of the same score. *)
Definition between (lo hi : bytes) : option (list (bytes * double) * Z) :=
  r ← zslParseLexRange (StrRaw lo) (StrRaw hi);
  '(z, _) ← zset_run no_link sum_bytes true new_addr add_exact (createZsetObject no_link new_addr) equal_scores;
  l ← genericZrangebylex false z r 0 (-1);
  n ← zlexcount z r;
  Some (l, n).

(** Two elements come before "minstrin" and before "minstrings", and no element before
    "minstring": [zslIsInLexRange] compares the end "-" with that string as if it were the
    string "minstring" itself, and calls the range empty. *)
Example lex_ranges_minstring :
  between (zs "-") (zs "(minstrin") = Some ([(zs "apple", Fin 0); (zs "fig", Fin 0)], 2) /\
  between (zs "-") (zs "(minstring") = Some ([], 0) /\
  between (zs "-") (zs "(minstrings") = Some ([(zs "apple", Fin 0); (zs "fig", Fin 0)], 2) /\
  between (zs "(maxstring") (zs "+") = Some ([], 0) /\
  between (zs "(maxstrin") (zs "+") = Some ([(zs "pear", Fin 0)], 1).
Proof. split_and!; vm_compute; reflexivity. Qed.
