(* ===== verification/Zzl.v ===== *)
(** * Sorted sets kept as ziplists (src/redis-2.8.19/src/t_zset.c)

    A ziplist of members and scores in turn, sorted. A score is written as a string
    and read back; the conversions of the C library are an interface, [Doubles]. Then
    the object with either encoding, the conversion from one to the other, and the
    branches of the commands. *)
From S2P Require Import Prelude Util Sds Object Dict Ziplist HashType Zskiplist Zset.
From Stdlib Require Import QArith.
Open Scope Z_scope.

(** ** Doubles as strings *)

(** [is_double] holds for the values a double takes that are numbers; a finite one is a
    fraction in lowest terms. [of_longlong] is the conversion of C; [strtod] and the
    conversion specification "%.17g" are those of its library: 17 digits are enough
    to get a double back, and both round a decimal integer in the same way. *)
Class Doubles := {
  is_double : double -> Prop;
  strtod : bytes -> double;
  of_longlong : Z -> double;
  printf_17g : Q -> bytes;
  is_double_num x : is_double x -> isnan x = false;
  is_double_reduced q : is_double (Fin q) -> Qred q = q;
  of_longlong_exact v : - 2 ^ 53 <= v <= 2 ^ 53 -> of_longlong v = Fin (inject_Z v);
  strtod_numeral s v : sfits 64 v -> signed_numeral s v -> strtod s = of_longlong v;
  strtod_inf : strtod (zs "inf") = PosInf /\ strtod (zs "-inf") = NegInf;
  strtod_17g q : is_double (Fin q) -> strtod (printf_17g q) = Fin q;
  printf_17g_short q : is_double (Fin q) -> zlen (printf_17g q) < 128
}.

(** The two zeros are one here: "0" stands for "-0" too. *)
Definition d2string {D : Doubles} (value : double) : option bytes :=
  match value with
  | NaN => Some (zs "nan")
  | NegInf => Some (zs "-inf")
  | PosInf => Some (zs "inf")
  | Fin q =>
      let t := Z.quot (Qnum q) (Zpos (Qden q)) in
      if Qeq_bool q 0 then Some (zs "0")
      else if dlt (Fin (inject_Z (-4503599627370495))) value && dlt value (Fin (inject_Z 4503599627370496)) && Qeq_bool q (inject_Z t) then ll_str t
      else Some (printf_17g q)
  end.

(** ** The ziplist *)

Inductive zobj := ZsetZiplist (zl : list Z) | ZsetSkiplist (zs : zset).

Section zzl.
Context {D : Doubles} (uninit : nat -> Z).

(** The string is copied to a buffer of 128 bytes. *)
Definition zzlGetScore (zl : list Z) (sptr : Z) : option double :=
  v ← ziplistGet zl (Some sptr);
  v ← v;
  match v with
  | inl vstr => if zlen vstr <? 128 then Some (strtod vstr) else None
  | inr vlong => Some (of_longlong vlong)
  end.

(** The bytes of an entry, as a string object has them or as a reply shows them. *)
Definition ziplistGetObject (zl : list Z) (p : Z) : option bytes :=
  v ← ziplistGet zl (Some p);
  v ← v;
  match v with inl vstr => Some vstr | inr vlong => ll_str vlong end.

Definition zzlCompareElements (zl : list Z) (eptr : Z) (cstr : bytes) : option Z :=
  vstr ← ziplistGetObject zl eptr;
  Some (compareDecoded vstr cstr).

Definition zzlLength (zl : list Z) : option (Z * list Z) :=
  '(n, zl) ← ziplistLen zl;
  Some (n / 2, zl).

(** The pointers to the next, or the previous, member and score. *)
Definition zzlNext (zl : list Z) (sptr : Z) : option (option (Z * Z)) :=
  eptr ← ziplistNext zl sptr;
  match eptr with
  | Some eptr => sptr ← ziplistNext zl eptr; sptr ← sptr; Some (Some (eptr, sptr))
  | None => Some None
  end.

Definition zzlPrev (zl : list Z) (eptr : Z) : option (option (Z * Z)) :=
  sptr ← ziplistPrev zl eptr;
  match sptr with
  | Some sptr => eptr ← ziplistPrev zl sptr; eptr ← eptr; Some (Some (eptr, sptr))
  | None => Some None
  end.

(** *** Ranges *)

(** A test of the score, or of the string, of the member at a pointer. *)
Definition score_test (f : double -> bool) (zl : list Z) (eptr : Z) : option bool :=
  sptr ← ziplistNext zl eptr;
  sptr ← sptr;
  sc ← zzlGetScore zl sptr;
  Some (f sc).

Definition lex_test (f : bytes -> bool) (zl : list Z) (eptr : Z) : option bool :=
  o ← ziplistGetObject zl eptr;
  Some (f o).

Definition zzlIsInRange (zl : list Z) (r : zrangespec) : option bool :=
  if never (score_range r) then Some false
  else
    p ← ziplistIndex zl (-1);
    match p with
    | None => Some false
    | Some p =>
        sc ← zzlGetScore zl p;
        if negb (zslValueGteMin sc r) then Some false
        else
          p ← ziplistIndex zl 1;
          p ← p;
          sc ← zzlGetScore zl p;
          Some (zslValueLteMax sc r)
    end.

Definition zzlIsInLexRange (zl : list Z) (r : zlexrangespec) : option bool :=
  if never (lex_range r) then Some false
  else
    p ← ziplistIndex zl (-2);
    match p with
    | None => Some false
    | Some p =>
        b ← lex_test (fun o => zslLexValueGteMin o r) zl p;
        if negb b then Some false
        else
          p ← ziplistIndex zl 0;
          p ← p;
          lex_test (fun o => zslLexValueLteMax o r) zl p
    end.

(** The loops of the searches from either end, with the tests of either kind of range. *)
Fixpoint first_loop (fuel : nat) (gte lte : list Z -> Z -> option bool) (zl : list Z) (eptr : option Z) : option (option Z) :=
  match fuel, eptr with
  | _, None => Some None
  | O, _ => None
  | S fuel, Some p =>
      ge ← gte zl p;
      if ge : bool then le ← lte zl p; Some (if le : bool then Some p else None)
      else sptr ← ziplistNext zl p; sptr ← sptr; eptr ← ziplistNext zl sptr; first_loop fuel gte lte zl eptr
  end.

Fixpoint last_loop (fuel : nat) (gte lte : list Z -> Z -> option bool) (zl : list Z) (eptr : option Z) : option (option Z) :=
  match fuel, eptr with
  | _, None => Some None
  | O, _ => None
  | S fuel, Some p =>
      le ← lte zl p;
      if le : bool then ge ← gte zl p; Some (if ge : bool then Some p else None)
      else
        sptr ← ziplistPrev zl p;
        match sptr with
        | Some sptr => eptr ← ziplistPrev zl sptr; eptr ← eptr; last_loop fuel gte lte zl (Some eptr)
        | None => last_loop fuel gte lte zl None
        end
  end.

Definition gte_score (r : zrangespec) := score_test (fun sc => zslValueGteMin sc r).
Definition lte_score (r : zrangespec) := score_test (fun sc => zslValueLteMax sc r).
Definition zzlLexValueGteMin (r : zlexrangespec) := lex_test (fun o => zslLexValueGteMin o r).
Definition zzlLexValueLteMax (r : zlexrangespec) := lex_test (fun o => zslLexValueLteMax o r).

Definition zzl_first (inside : option bool) (gte lte : list Z -> Z -> option bool) (zl : list Z) : option (option Z) :=
  eptr ← ziplistIndex zl 0;
  b ← inside;
  if negb b then Some None else first_loop (S (length zl)) gte lte zl eptr.

Definition zzl_last (inside : option bool) (gte lte : list Z -> Z -> option bool) (zl : list Z) : option (option Z) :=
  eptr ← ziplistIndex zl (-2);
  b ← inside;
  if negb b then Some None else last_loop (S (length zl)) gte lte zl eptr.

Definition zzlFirstInRange (zl : list Z) (r : zrangespec) := zzl_first (zzlIsInRange zl r) (gte_score r) (lte_score r) zl.
Definition zzlLastInRange (zl : list Z) (r : zrangespec) := zzl_last (zzlIsInRange zl r) (gte_score r) (lte_score r) zl.
Definition zzlFirstInLexRange (zl : list Z) (r : zlexrangespec) := zzl_first (zzlIsInLexRange zl r) (zzlLexValueGteMin r) (zzlLexValueLteMax r) zl.
Definition zzlLastInLexRange (zl : list Z) (r : zlexrangespec) := zzl_last (zzlIsInLexRange zl r) (zzlLexValueGteMin r) (zzlLexValueLteMax r) zl.

(** *** Search, deletion, insertion *)

Fixpoint zzl_find_loop (fuel : nat) (zl : list Z) (eptr : option Z) (ele : bytes) : option (option (Z * double)) :=
  match fuel, eptr with
  | _, None => Some None
  | O, _ => None
  | S fuel, Some p =>
      sptr ← ziplistNext zl p;
      sptr ← sptr;
      c ← ziplistCompare zl p ele (zlen ele);
      if c : bool then sc ← zzlGetScore zl sptr; Some (Some (p, sc))
      else eptr ← ziplistNext zl sptr; zzl_find_loop fuel zl eptr ele
  end.

Definition zzlFind (zl : list Z) (ele : bytes) : option (option (Z * double)) :=
  eptr ← ziplistIndex zl 0;
  zzl_find_loop (S (length zl)) zl eptr ele.

Definition zzlDelete (zl : list Z) (eptr : Z) : option (list Z) :=
  zl ← ziplistDelete uninit zl eptr;
  ziplistDelete uninit zl eptr.

Definition zzlInsertAt (zl : list Z) (eptr : option Z) (ele : bytes) (sc : double) : option (list Z) :=
  scorebuf ← d2string sc;
  match eptr with
  | None =>
      zl ← ziplistPush uninit zl ele (zlen ele) ZIPLIST_TAIL;
      ziplistPush uninit zl scorebuf (zlen scorebuf) ZIPLIST_TAIL
  | Some eptr =>
      zl ← ziplistInsert uninit zl eptr ele (zlen ele);
      sptr ← ziplistNext zl eptr;
      sptr ← sptr;
      ziplistInsert uninit zl sptr scorebuf (zlen scorebuf)
  end.

Fixpoint zzl_insert_loop (fuel : nat) (zl : list Z) (eptr : option Z) (ele : bytes) (sc : double) : option (list Z) :=
  match fuel, eptr with
  | _, None => zzlInsertAt zl None ele sc
  | O, _ => None
  | S fuel, Some p =>
      sptr ← ziplistNext zl p;
      sptr ← sptr;
      s ← zzlGetScore zl sptr;
      here ← (if dlt sc s then Some true
              else if deq s sc then c ← zzlCompareElements zl p ele; Some (c >? 0)
              else Some false);
      if here : bool then zzlInsertAt zl eptr ele sc
      else eptr ← ziplistNext zl sptr; zzl_insert_loop fuel zl eptr ele sc
  end.

Definition zzlInsert (zl : list Z) (ele : bytes) (sc : double) : option (list Z) :=
  eptr ← ziplistIndex zl 0;
  zzl_insert_loop (S (length zl)) zl eptr ele sc.

(** The loops that delete a range: the pointer stays, as the rest moves up to it. *)
Fixpoint zzl_delete_loop (fuel : nat) (lte : list Z -> Z -> option bool) (zl : list Z) (eptr : Z) (num : Z) : option (list Z * Z) :=
  match fuel with
  | O => None
  | S fuel =>
      sptr ← ziplistNext zl eptr;
      match sptr with
      | None => Some (zl, num)
      | Some _ =>
          le ← lte zl eptr;
          if le : bool then
            zl ← ziplistDelete uninit zl eptr;
            zl ← ziplistDelete uninit zl eptr;
            zzl_delete_loop fuel lte zl eptr (u64 (num + 1))
          else Some (zl, num)
      end
  end.

Definition zzl_delete_range (first : option (option Z)) (lte : list Z -> Z -> option bool) (zl : list Z) : option (list Z * Z) :=
  eptr ← first;
  match eptr with None => Some (zl, 0) | Some eptr => zzl_delete_loop (S (length zl)) lte zl eptr 0 end.

Definition zzlDeleteRangeByScore (zl : list Z) (r : zrangespec) := zzl_delete_range (zzlFirstInRange zl r) (lte_score r) zl.
Definition zzlDeleteRangeByLex (zl : list Z) (r : zlexrangespec) := zzl_delete_range (zzlFirstInLexRange zl r) (zzlLexValueLteMax r) zl.

(** [start] and [end_] are unsigned ints and count from 1. *)
Definition zzlDeleteRangeByRank (zl : list Z) (start end_ : Z) : option (list Z * Z) :=
  let num := u32 (u32 (end_ - start) + 1) in
  zl ← ziplistDeleteRange uninit zl (u32 (2 * u32 (start - 1))) (u32 (2 * num));
  Some (zl, num).
End zzl.

(** ** The object *)

Section object.
Context {D : Doubles} (uninit : nat -> Z).
Context (junk : option nat * Z) (hash : bytes -> Z) (can_resize : bool).
Context (alloc : gmap nat zskiplistNode -> nat) (fadd : double -> double -> double).
(** The limits of the configuration. *)
Context (max_entries max_value : Z).

Definition createZsetZiplistObject : option zobj := ZsetZiplist <$> ziplistNew uninit.

Definition zobjLength (o : zobj) : option (Z * zobj) :=
  match o with
  | ZsetZiplist zl => '(n, zl) ← zzlLength zl; Some (u32 (s32 n), ZsetZiplist zl)
  | ZsetSkiplist zs => Some (zsetLength zs, o)
  end.

(** The loops of [zsetConvert]. [rnds i] is what [random] returns for insertion [i]. *)
Fixpoint to_skiplist_loop (fuel i : nat) (rnds : nat -> list Z) (zl : list Z) (cur : option (Z * Z)) (zs : zset) : option zset :=
  match fuel, cur with
  | _, None => Some zs
  | O, _ => None
  | S fuel, Some (eptr, sptr) =>
      sc ← zzlGetScore zl sptr;
      ele ← ziplistGetObject zl eptr;
      let node := alloc (heap (zsl zs)) in
      l ← zslInsert junk (rnds i) node (zsl zs) sc ele;
      '(d, st) ← dictAdd hash can_resize O (zdict zs) ele node;
      match st with
      | DICT_OK => cur ← zzlNext zl sptr; to_skiplist_loop fuel (S i) rnds zl cur (mkZset d l)
      | DICT_ERR => None
      end
  end.

Fixpoint to_ziplist_loop (fuel : nat) (h : gmap nat zskiplistNode) (node : option nat) (zl : list Z) : option (list Z) :=
  match fuel, node with
  | _, None => Some zl
  | O, _ => None
  | S fuel, Some x =>
      n ← h !! x;
      ele ← obj n;
      zl ← zzlInsertAt uninit zl None ele (score n);
      '(next, _) ← lev h x 0;
      to_ziplist_loop fuel (zslFreeNode h x) next zl
  end.

Inductive zencoding := REDIS_ENCODING_ZIPLIST | REDIS_ENCODING_SKIPLIST.

Definition zsetConvert (rnds : nat -> list Z) (o : zobj) (enc : zencoding) : option zobj :=
  match o, enc with
  | ZsetZiplist _, REDIS_ENCODING_ZIPLIST | ZsetSkiplist _, REDIS_ENCODING_SKIPLIST => Some o
  | ZsetZiplist zl, REDIS_ENCODING_SKIPLIST =>
      let zs := createZsetObject junk alloc in
      eptr ← ziplistIndex zl 0;
      eptr ← eptr;
      sptr ← ziplistNext zl eptr;
      sptr ← sptr;
      ZsetSkiplist <$> to_skiplist_loop (S (length zl)) 0 rnds zl (Some (eptr, sptr)) zs
  | ZsetSkiplist zs, REDIS_ENCODING_ZIPLIST =>
      zl ← ziplistNew uninit;
      let l := zsl zs in
      '(node, _) ← lev (heap l) (header l) 0;
      ZsetZiplist <$> to_ziplist_loop (S (base.size (heap l))) (delete (header l) (heap l)) node zl
  end.

(** One turn of the loop of [zaddGenericCommand]. *)
Definition zobj_add (incr : bool) (rnds : nat -> list Z) (o : zobj) (sc : double) (ele : bytes) : option (zobj * double * zadd_result) :=
  match o with
  | ZsetZiplist zl =>
      found ← zzlFind zl ele;
      match found with
      | Some (eptr, curscore) =>
          let sc := if incr then fadd sc curscore else sc in
          if incr && isnan sc then Some (o, sc, ZNotANumber)
          else if negb (deq sc curscore) then
            zl ← zzlDelete uninit zl eptr;
            zl ← zzlInsert uninit zl ele sc;
            Some (ZsetZiplist zl, sc, ZUpdated)
          else Some (o, sc, ZSame)
      | None =>
          zl ← zzlInsert uninit zl ele sc;
          '(n, zl) ← zzlLength zl;
          o ← (if n >? max_entries then zsetConvert rnds (ZsetZiplist zl) REDIS_ENCODING_SKIPLIST else Some (ZsetZiplist zl));
          o ← (if zlen ele >? max_value then zsetConvert rnds o REDIS_ENCODING_SKIPLIST else Some o);
          Some (o, sc, ZAdded)
      end
  | ZsetSkiplist zs =>
      '(zs, sc, res) ← zaddElement junk hash can_resize alloc fadd incr (rnds 0%nat) zs sc ele;
      Some (ZsetSkiplist zs, sc, res)
  end.

(** One turn of the loop of [zremCommand]. *)
Definition zobj_rem (o : zobj) (ele : bytes) : option (zobj * bool) :=
  match o with
  | ZsetZiplist zl =>
      found ← zzlFind zl ele;
      match found with
      | Some (eptr, _) => zl ← zzlDelete uninit zl eptr; Some (ZsetZiplist zl, true)
      | None => Some (o, false)
      end
  | ZsetSkiplist zs => '(zs, b) ← zremElement hash can_resize zs ele; Some (ZsetSkiplist zs, b)
  end.

Definition zobj_remrange (o : zobj) (rg : zrange) : option (zobj * Z) :=
  match o with
  | ZsetZiplist zl =>
      match rg with
      | ByRank start end_ =>
          '(llen, zl) ← zzlLength zl;
          match sanitize (u32 (s32 llen)) start end_ with
          | None => Some (ZsetZiplist zl, 0)
          | Some (start, end_) => '(zl, n) ← zzlDeleteRangeByRank uninit zl (u32 (start + 1)) (u32 (end_ + 1)); Some (ZsetZiplist zl, n)
          end
      | ByScore r => '(zl, n) ← zzlDeleteRangeByScore uninit zl r; Some (ZsetZiplist zl, n)
      | ByLex r => '(zl, n) ← zzlDeleteRangeByLex uninit zl r; Some (ZsetZiplist zl, n)
      end
  | ZsetSkiplist zs => '(zs, n) ← zremrange hash can_resize zs rg; Some (ZsetSkiplist zs, n)
  end.

Definition zobj_score (o : zobj) (ele : bytes) : option (zobj * option double) :=
  match o with
  | ZsetZiplist zl => found ← zzlFind zl ele; Some (o, match found with Some (_, sc) => Some sc | None => None end)
  | ZsetSkiplist zs => '(zs, sc) ← zscore hash zs ele; Some (ZsetSkiplist zs, sc)
  end.

(** The loop of [zrankGenericCommand]; null when the member is not there. *)
Fixpoint rank_loop (fuel : nat) (zl : list Z) (cur : option (Z * Z)) (ele : bytes) (rank : Z) : option (option Z) :=
  match fuel, cur with
  | _, None => Some None
  | O, _ => None
  | S fuel, Some (eptr, sptr) =>
      c ← ziplistCompare zl eptr ele (zlen ele);
      if c : bool then Some (Some rank) else cur ← zzlNext zl sptr; rank_loop fuel zl cur ele (u64 (rank + 1))
  end.

Definition zobj_rank (reverse : bool) (o : zobj) (ele : bytes) : option (zobj * option Z) :=
  match o with
  | ZsetZiplist zl =>
      '(llen, zl) ← zzlLength zl;
      eptr ← ziplistIndex zl 0;
      eptr ← eptr;
      sptr ← ziplistNext zl eptr;
      sptr ← sptr;
      rank ← rank_loop (S (length zl)) zl (Some (eptr, sptr)) ele 1;
      Some (ZsetZiplist zl, match rank with
                            | Some rank => Some (if reverse then u64 (u32 (s32 llen) - rank) else u64 (rank - 1))
                            | None => None
                            end)
  | ZsetSkiplist zs => '(zs, r) ← zrank hash reverse zs ele; Some (ZsetSkiplist zs, r)
  end.

(** *** Walks along the ziplist *)

Definition zzl_move (reverse : bool) (zl : list Z) (cur : Z * Z) : option (option (Z * Z)) :=
  if reverse then zzlPrev zl cur.1 else zzlNext zl cur.2.

Definition zzl_read (zl : list Z) (cur : Z * Z) : option (bytes * double) :=
  ele ← ziplistGetObject zl cur.1;
  sc ← zzlGetScore zl cur.2;
  Some (ele, sc).

Definition zobj_range (reverse : bool) (o : zobj) (start end_ : Z) : option (zobj * list (bytes * double)) :=
  match o with
  | ZsetZiplist zl =>
      '(llen, zl) ← zzlLength zl;
      match sanitize (s32 (u32 (s32 llen))) start end_ with
      | None => Some (ZsetZiplist zl, [])
      | Some (start, end_) =>
          eptr ← ziplistIndex zl (s32 (if reverse then -2 - 2 * start else 2 * start));
          eptr ← eptr;
          sptr ← ziplistNext zl eptr;
          sptr ← sptr;
          l ← range_loop (zzl_read zl) (zzl_move reverse zl) (Z.to_nat (s32 (end_ - start + 1))) (Some (eptr, sptr));
          Some (ZsetZiplist zl, l)
      end
  | ZsetSkiplist zs => l ← zrange_list reverse zs start end_; Some (o, l)
  end.

Definition zzl_list_range (reverse : bool) (zl : list Z) (eptr : option (option Z)) (inside : list Z -> Z -> option bool) (offset limit : Z) : option (list (bytes * double)) :=
  eptr ← eptr;
  match eptr with
  | None => Some []
  | Some eptr =>
      sptr ← ziplistNext zl eptr;
      sptr ← sptr;
      cur ← offset_loop (zzl_move reverse zl) (S (length zl)) offset (Some (eptr, sptr));
      limit_loop (zzl_read zl) (zzl_move reverse zl) (fun cur => inside zl cur.1) (S (length zl)) limit cur
  end.

Definition zobj_rangebyscore (reverse : bool) (o : zobj) (r : zrangespec) (offset limit : Z) : option (list (bytes * double)) :=
  match o with
  | ZsetZiplist zl =>
      if reverse then zzl_list_range reverse zl (zzlLastInRange zl r) (gte_score r) offset limit
      else zzl_list_range reverse zl (zzlFirstInRange zl r) (lte_score r) offset limit
  | ZsetSkiplist zs => genericZrangebyscore reverse zs r offset limit
  end.

Definition zobj_rangebylex (reverse : bool) (o : zobj) (r : zlexrangespec) (offset limit : Z) : option (list (bytes * double)) :=
  match o with
  | ZsetZiplist zl =>
      if reverse then zzl_list_range reverse zl (zzlLastInLexRange zl r) (zzlLexValueGteMin r) offset limit
      else zzl_list_range reverse zl (zzlFirstInLexRange zl r) (zzlLexValueLteMax r) offset limit
  | ZsetSkiplist zs => genericZrangebylex reverse zs r offset limit
  end.

(** The loops of [zcountCommand] and [zlexcountCommand]; the count is an int. *)
Fixpoint zzl_count (fuel : nat) (lte : list Z -> Z -> option bool) (zl : list Z) (cur : option (Z * Z)) (count : Z) : option Z :=
  match fuel, cur with
  | _, None => Some count
  | O, _ => None
  | S fuel, Some (eptr, sptr) =>
      b ← lte zl eptr;
      if negb b then Some count else cur ← zzlNext zl sptr; zzl_count fuel lte zl cur (s32 (count + 1))
  end.

Definition zzl_count_range (zl : list Z) (eptr : option (option Z)) (lte : list Z -> Z -> option bool) : option Z :=
  eptr ← eptr;
  match eptr with
  | None => Some 0
  | Some eptr =>
      sptr ← ziplistNext zl eptr;
      sptr ← sptr;
      b ← lte zl eptr;
      if negb b then None else zzl_count (S (length zl)) lte zl (Some (eptr, sptr)) 0
  end.

Definition zobj_count (o : zobj) (r : zrangespec) : option Z :=
  match o with
  | ZsetZiplist zl => zzl_count_range zl (zzlFirstInRange zl r) (lte_score r)
  | ZsetSkiplist zs => zcount zs r
  end.

Definition zobj_lexcount (o : zobj) (r : zlexrangespec) : option Z :=
  match o with
  | ZsetZiplist zl => zzl_count_range zl (zzlFirstInLexRange zl r) (zzlLexValueLteMax r)
  | ZsetSkiplist zs => zlexcount zs r
  end.
End object.
