(* ===== verification/ZzlSpec.v ===== *)
(** * Sorted sets kept as ziplists: what a ziplist holds (src/redis-2.8.19/src/t_zset.c)

    The members and scores of a sorted list, in turn; the length field before a member
    is never wider than it has to be, which is why an insertion always has room. *)
From S2P Require Import Prelude Util Sds Object Dict DictIter DictBound Ziplist ZiplistSpec HashType HashTypeSpec Zskiplist ZskiplistSpec ZskiplistOrder ZskiplistOps ZskiplistRange Zset ZsetSpec ZsetRange Zzl.
From Stdlib Require Import QArith.
Open Scope Z_scope.

(** ** Places *)

(** The offset of the entry [k] is that of the bytes, whatever entries they are read as. *)
Lemma rep_offset zl n n' es es' k : rep zl n es -> rep zl n' es' -> (k <= length es)%nat -> (k <= length es')%nat ->
  zlen (layout (take k es)) = zlen (layout (take k es')).
Proof.
  intros H H'. induction k as [|k IH]; intros Hk Hk'; [done|]. specialize (IH ltac:(lia) ltac:(lia)).
  destruct (lookup_lt_is_Some_2 es k) as [e He]; [lia|]. destruct (lookup_lt_is_Some_2 es' k) as [e' He']; [lia|].
  assert (forall m l x, rep zl m l -> l !! k = Some x -> zipRawEntryLength zl (10 + zlen (layout (take k l))) = Some (size x)) as Hlen.
  { intros m l x Hl Hx. pose proof Hl as Hl'. rewrite <- (take_drop_middle l k x Hx) in Hl'. destruct (rep_split _ _ _ _ _ Hl') as (P & T & -> & Hz & Hok). rewrite <- Hz.
    apply zipRawEntryLength_at; [done|]. destruct (rep_fuel _ _ _ Hl') as [_ Hf]. rewrite layout_app, layout_cons, !zlen_app in Hf. fold (size x) in Hf.
    pose proof (zlen_nonneg (layout (take k l))). pose proof (zlen_nonneg (layout (drop (S k) l))). lia. }
  pose proof (Hlen _ _ _ H He) as E1. pose proof (Hlen _ _ _ H' He') as E2. rewrite <- IH in E2. assert (size e = size e') as Hs by congruence.
  rewrite (take_S_r _ _ _ He), (take_S_r _ _ _ He'), !layout_app, !zlen_app, IH. f_equal. unfold layout. cbn [map concat]. rewrite !app_nil_r. exact Hs.
Qed.

Lemma place_unique zl l1 l2 p p' : place zl l1 l2 p -> place zl l1 l2 p' -> p = p'.
Proof.
  intros (n & a & b & H & Ha & _ & ->) (n' & a' & b' & H' & Ha' & _ & ->). f_equal. assert (length a = length a') as Hl by (rewrite <- (length_map text a), <- (length_map text a'); congruence).
  pose proof (rep_offset zl n n' _ _ (length a) H H' ltac:(rewrite length_app; lia) ltac:(rewrite length_app; lia)) as Ho. rewrite take_app_length in Ho. by rewrite Hl, take_app_length in Ho.
Qed.

(** Past the last entry there is none. *)
Lemma next_end zl l p : place zl l [] p -> ziplistNext zl p = Some None.
Proof.
  intros (n & a & b & Hrep & _ & Hb & ->). destruct b; [|done]. destruct (rep_first _ _ _ _ Hrep) as (c & Hc & Hce). unfold ziplistNext. rewrite Hc. cbn [mbind option_bind].
  by rewrite (proj2 Hce eq_refl).
Qed.

(** ** Scores as strings *)

Section scores.
Context {D : Doubles}.

Definition stext (sc : double) : bytes := default [] (d2string sc).

Lemma reduced_int q z : Qred q = q -> Qeq_bool q (inject_Z z) = true -> q = inject_Z z.
Proof using Type.
  intros Hr He%Qeq_bool_iff. rewrite <- Hr, (Qred_complete _ _ He). clear. unfold inject_Z, Qred. pose proof (Z.ggcd_gcd z 1) as Hg. pose proof (Z.ggcd_correct_divisors z 1) as Hc.
  destruct (Z.ggcd z 1) as [g [a b]]. cbn in *. rewrite Z.gcd_1_r in Hg. subst g. rewrite !Z.mul_1_l in Hc. destruct Hc as [<- <-]. done.
Qed.

(** A score is read back as it was written. *)
Lemma d2string_ok x : is_double x -> d2string x = Some (stext x) /\ strtod (stext x) = x /\ zlen (stext x) < 128.
Proof using Type.
  intros Hx. pose proof (is_double_num x Hx) as Hn. destruct strtod_inf as [Hp Hm]. unfold stext. destruct x as [| |q|]; [done|by split; [|split; [exact Hm|reflexivity]]| |by split; [|split; [exact Hp|reflexivity]]].
  pose proof (is_double_reduced q Hx) as Hr. cbn [d2string]. destruct (Qeq_bool q 0) eqn:H0.
  - apply (reduced_int q 0 Hr) in H0 as ->. split; [done|]. split; [|reflexivity]. change (strtod (zs "0") = Fin (inject_Z 0)). rewrite (strtod_numeral (zs "0") 0); [|by unfold sfits|left; split; [done|exact (numeral_digit 0 ltac:(lia))]].
    by rewrite of_longlong_exact by lia.
  - set (t := Z.quot (Qnum q) (Zpos (Qden q))). destruct (_ && _ && Qeq_bool q (inject_Z t)) eqn:Hint; [|split; [done|split; [by apply strtod_17g|by apply printf_17g_short]]].
    apply andb_true_iff in Hint as [Hrange Hq]. apply (reduced_int q t Hr) in Hq. clearbody t. subst q. apply andb_true_iff in Hrange as [H1 H2]. cbn [dlt] in H1, H2. apply negb_true_iff in H1, H2.
    rewrite <- not_true_iff_false, Qle_bool_iff in H1, H2. rewrite <- Zle_Qle in H1, H2. destruct (ll_str_spec t) as (ds & -> & Hds & Hl & _); [unfold sfits; lia|]. change (default [] (Some ds)) with ds. split; [done|]. split; [|lia].
    rewrite (strtod_numeral ds t) by (done || (unfold sfits; lia)). by rewrite of_longlong_exact by lia.
Qed.

Definition zpair (e : pair) : bytes * bytes := (e.2, stext e.1).

(** The strings of a ziplist that holds a sorted set. *)
Definition texts (L : list pair) : list bytes := flat (zpair <$> L).

Definition doubles (L : list pair) : Prop := Forall (fun e => is_double e.1) L.

Lemma texts_cons e L : texts (e :: L) = e.2 :: stext e.1 :: texts L.
Proof using Type. done. Qed.

Lemma texts_app L1 L2 : texts (L1 ++ L2) = texts L1 ++ texts L2.
Proof using Type. unfold texts. by rewrite fmap_app, flat_app. Qed.

Lemma texts_snoc L e : texts (L ++ [e]) = (texts L ++ [e.2]) ++ [stext e.1].
Proof using Type. by rewrite texts_app, <- app_assoc. Qed.

Lemma texts_length L : length (texts L) = (2 * length L)%nat.
Proof using Type. unfold texts. by rewrite flat_length, length_fmap. Qed.

Lemma zlen_texts L : zlen (texts L) = 2 * zlen L.
Proof using Type. unfold zlen. rewrite texts_length. lia. Qed.

(** ** Reading *)

Lemma score_read zl l1 sc l2 p : is_double sc -> place zl l1 (stext sc :: l2) p -> zzlGetScore zl p = Some sc.
Proof using Type.
  intros Hd Hp. destruct (d2string_ok sc Hd) as (_ & Hs & Hl). unfold zzlGetScore. destruct (ziplistGet_ok zl l1 (stext sc :: l2) p Hp) as (r & -> & v & -> & Hv). cbn [mbind option_bind].
  destruct v as [t|v]; cbn [reads] in Hv; [subst t; by rewrite (proj2 (Z.ltb_lt _ _) Hl), Hs|]. destruct Hv as [Hf Hn]. by rewrite <- (strtod_numeral (stext sc) v Hf Hn), Hs.
Qed.

Lemma member_read zl l1 o l2 p : place zl l1 (o :: l2) p -> ziplistGetObject zl p = Some o.
Proof using Type.
  intros Hp. unfold ziplistGetObject. destruct (ziplistGet_ok zl l1 (o :: l2) p Hp) as (r & -> & v & -> & Hv). cbn [mbind option_bind].
  destruct v as [t|v]; cbn [reads] in Hv; [by subst t|]. destruct Hv as [Hf Hn]. destruct (ll_str_spec v Hf) as (ds & -> & Hds & _). f_equal. by apply (signed_numeral_unique ds o v).
Qed.

(** The pointers to the member and to the score at an index. *)
Definition at_index (zl : list Z) (L : list pair) (j : nat) (p sp : Z) : Prop :=
  exists e, L !! j = Some e /\ place zl (texts (take j L)) (texts (drop j L)) p /\
    place zl (texts (take j L) ++ [e.2]) (stext e.1 :: texts (drop (S j) L)) sp.

Definition cursor_at (zl : list Z) (L : list pair) (j : nat) (cur : option (Z * Z)) : Prop :=
  match cur with
  | Some (p, sp) => at_index zl L j p sp
  | None => (length L <= j)%nat
  end.

Section read.
Context (zl : list Z) (L : list pair) (Hd : doubles L).

(** From the place of a member: its score, and the next member. *)
Lemma at_place j e p : L !! j = Some e -> place zl (texts (take j L)) (texts (drop j L)) p ->
  exists sp, ziplistNext zl p = Some (Some sp) /\ at_index zl L j p sp.
Proof using Type.
  intros He Hp. pose proof Hp as Hp'. rewrite (drop_S L e j He), texts_cons in Hp'. destruct (proj1 (ziplist_walk zl _ _ _ _ Hp')) as (r & Hr & q & -> & Hq).
  exists q. split; [done|]. by exists e.
Qed.

Lemma at_reads j p sp : at_index zl L j p sp -> exists e, L !! j = Some e /\ ziplistNext zl p = Some (Some sp) /\ ziplistGetObject zl p = Some e.2 /\ zzlGetScore zl sp = Some e.1 /\
  forall t, ziplistCompare zl p t (zlen t) = Some (bool_decide (e.2 = t)).
Proof using Hd.
  intros (e & He & Hp & Hs). exists e. split; [done|]. pose proof Hp as Hp'. rewrite (drop_S L e j He), texts_cons in Hp'.
  destruct (at_place j e p He Hp) as (sp' & Hn & e' & He' & _ & Hs'). assert (e' = e) as -> by congruence.
  split. { rewrite Hn. f_equal. f_equal. eapply place_unique; [exact Hs'|exact Hs]. }
  split; [by eapply member_read|]. split; [|intros t; by eapply ziplistCompare_ok]. eapply score_read; [|exact Hs]. unfold doubles in Hd. rewrite Forall_lookup in Hd. by eapply Hd.
Qed.
Lemma length_drop_texts j : texts L = texts (take j L) ++ texts (drop j L).
Proof using Type. by rewrite <- texts_app, take_drop. Qed.

Lemma take_texts j : (j <= length L)%nat -> take (2 * j) (texts L) = texts (take j L) /\ drop (2 * j) (texts L) = texts (drop j L).
Proof using Type.
  intros Hj. rewrite (length_drop_texts j). assert (length (texts (take j L)) = 2 * j)%nat as Hl by (rewrite texts_length, length_take; lia).
  by rewrite take_app_length', drop_app_length' by done.
Qed.

(** The next member and score, and the previous ones. *)
Lemma next_cursor j p sp : at_index zl L j p sp -> exists r, zzlNext zl sp = Some r /\ cursor_at zl L (S j) r /\ ziplistNext zl sp = Some (fst <$> r).
Proof using Type.
  intros (e & He & _ & Hs). destruct (proj1 (ziplist_walk zl _ _ _ _ Hs)) as (r & Hr & Hq). unfold zzlNext. rewrite Hr. cbn [mbind option_bind].
  assert (texts (take (S j) L) = (texts (take j L) ++ [e.2]) ++ [stext e.1]) as Ht by by rewrite (take_S_r _ _ _ He), texts_snoc.
  destruct (L !! S j) as [x|] eqn:Hx.
  - rewrite (drop_S L x (S j) Hx), texts_cons in Hq. destruct Hq as (q & -> & Hq). rewrite <- Ht, <- texts_cons, <- (drop_S L x (S j) Hx) in Hq.
    destruct (at_place (S j) x q Hx Hq) as (sq & -> & Hat). cbn [mbind option_bind]. by exists (Some (q, sq)).
  - apply lookup_ge_None_1 in Hx. rewrite drop_ge in Hq by done. cbn in Hq. subst r. by exists None.
Qed.

Lemma prev_cursor j p sp : at_index zl L (S j) p sp -> exists p' sp', zzlPrev zl p = Some (Some (p', sp')) /\ at_index zl L j p' sp' /\ ziplistPrev zl p = Some (Some sp') /\ ziplistPrev zl sp' = Some (Some p').
Proof using Type.
  intros (e & He & Hp & _). rewrite (drop_S L e (S j) He), texts_cons in Hp. destruct (lookup_lt_is_Some_2 L j) as [x Hx]; [apply lookup_lt_Some in He; lia|].
  rewrite (take_S_r _ _ _ Hx), texts_snoc in Hp. destruct (proj2 (ziplist_walk zl _ _ _ _ Hp)) as (r & Hr & Hq). rewrite last_snoc in Hq. destruct Hq as (sp' & -> & Hs'). rewrite removelast_last in Hs'.
  destruct (proj2 (ziplist_walk zl _ _ _ _ Hs')) as (r & Hr' & Hq). rewrite last_snoc in Hq. destruct Hq as (p' & -> & Hp'). rewrite removelast_last in Hp'.
  exists p', sp'. unfold zzlPrev. rewrite Hr. cbn [mbind option_bind]. rewrite Hr'. cbn [mbind option_bind]. split; [done|]. split; [|done]. exists x. split; [done|].
  rewrite (drop_S L x j Hx), texts_cons, (drop_S L e (S j) He), texts_cons. done.
Qed.

Lemma prev_first p sp : at_index zl L 0 p sp -> zzlPrev zl p = Some None /\ ziplistPrev zl p = Some None.
Proof using Type.
  intros (e & He & Hp & _). rewrite (drop_S L e 0 He), texts_cons in Hp. destruct (proj2 (ziplist_walk zl _ _ _ _ Hp)) as (r & Hr & Hq). change (texts (take 0 L)) with (@nil bytes) in Hq. cbn in Hq. subst r.
  unfold zzlPrev. by rewrite Hr.
Qed.

(** *** By index *)

Context (Hzl : ziplist_ok zl (texts L)).

(** The index that [i] means. *)
Lemma index_member i j e : L !! j = Some e -> (if i <? 0 then 2 * zlen L + i else i) = 2 * Z.of_nat j ->
  exists p sp, ziplistIndex zl i = Some (Some p) /\ ziplistNext zl p = Some (Some sp) /\ at_index zl L j p sp.
Proof using Hzl.
  intros He Hi. apply lookup_lt_Some in He as Hj. destruct (ziplistIndex_ok zl _ i Hzl) as (r & -> & Hr). rewrite zlen_texts, Hi in Hr. unfold zlen in Hr. destruct r as [p|]; [|lia].
  destruct Hr as [_ Hp]. replace (Z.to_nat (2 * Z.of_nat j)) with (2 * j)%nat in Hp by lia. destruct (take_texts j) as [-> ->] in Hp; [lia|].
  destruct (at_place j e p He Hp) as (sp & Hn & Hat). by exists p, sp.
Qed.

Lemma index_score i j e : L !! j = Some e -> (if i <? 0 then 2 * zlen L + i else i) = 2 * Z.of_nat j + 1 ->
  exists p sp, ziplistIndex zl i = Some (Some sp) /\ at_index zl L j p sp.
Proof using Hzl.
  intros He Hi. apply lookup_lt_Some in He as Hj. destruct (ziplistIndex_ok zl _ i Hzl) as (r & -> & Hr). rewrite zlen_texts, Hi in Hr. unfold zlen in Hr. destruct r as [sp|]; [|lia].
  destruct Hr as [_ Hp]. replace (Z.to_nat (2 * Z.of_nat j + 1)) with (2 * j + 1)%nat in Hp by lia. rewrite (length_drop_texts j), (drop_S L e j He), texts_cons in Hp.
  assert (length (texts (take j L)) = 2 * j)%nat as Hl by (rewrite texts_length, length_take; lia). rewrite <- Hl, take_app_add, drop_app_add in Hp. cbn [take drop] in Hp.
  destruct (index_member (2 * Z.of_nat j) j e He) as (p & sp' & _ & _ & Hat); [destruct (Z.ltb_spec (2 * Z.of_nat j) 0); lia|]. exists p, sp. split; [done|].
  destruct Hat as (x & Hx & Hpx & _). assert (x = e) as -> by congruence. by exists e.
Qed.

Lemma index_none i : (if i <? 0 then 2 * zlen L + i else i) < 0 \/ 2 * zlen L <= (if i <? 0 then 2 * zlen L + i else i) -> ziplistIndex zl i = Some None.
Proof using Hzl.
  intros Hi. destruct (ziplistIndex_ok zl _ i Hzl) as (r & -> & Hr). rewrite zlen_texts in Hr. destruct r as [p|]; [|done]. destruct Hr as [Hr _]. lia.
Qed.

(** The first member. *)
Lemma index_first : exists cur, ziplistIndex zl 0 = Some (fst <$> cur) /\ cursor_at zl L 0 cur /\ (L <> [] -> exists p sp, cur = Some (p, sp) /\ ziplistNext zl p = Some (Some sp)).
Proof using Hzl.
  destruct (L !! 0%nat) as [e|] eqn:He.
  - destruct (index_member 0 0 e He eq_refl) as (p & sp & -> & Hn & Hat). exists (Some (p, sp)). split; [done|]. split; [done|]. intros _. by exists p, sp.
  - apply lookup_ge_None_1 in He. exists None. rewrite index_none; [split; [done|]; split; [done|]|unfold zlen; cbn; lia]. intros Hne. exfalso. apply Hne, nil_length_inv. lia.
Qed.

Lemma zzl_few : (length L < length zl)%nat /\ zlen L < 2 ^ 30.
Proof using Hzl.
  destruct (ziplist_fuel zl _ Hzl) as [H1 H2]. rewrite texts_length in H1. split; [lia|]. apply ziplist_ok_rep in Hzl as (n & es & Hrep & Hes). pose proof (layout_long es (rep_ok _ _ _ Hrep)) as Hll.
  pose proof (rep_small _ _ _ Hrep) as Hs. unfold total_of in Hs. change (zlen []) with 0 in Hs. apply (f_equal zlen) in Hes. rewrite zlen_map, zlen_texts in Hes. lia.
Qed.
End read.
End scores.
