(* ===== verification/ZzlRead.v ===== *)
(** * Sorted sets kept as ziplists: the questions (src/redis-2.8.19/src/t_zset.c)

    The search for a member, the first and the last element of a range, the listings
    and the counts give what the sorted list gives. *)
From S2P Require Import Prelude Util Sds Object Dict DictIter DictBound Ziplist ZiplistSpec HashType HashTypeSpec Zskiplist ZskiplistSpec ZskiplistOrder ZskiplistOps ZskiplistRange Zset ZsetSpec ZsetRange Zzl ZzlSpec.
Open Scope Z_scope.

Section read.
Context {D : Doubles} (zl : list Z) (L : list pair) (Hd : doubles L) (Hzl : ziplist_ok zl (texts L)).

(** ** The search for a member *)

Lemma index_at o q : spec_index o L = Some q -> exists s, L !! q = Some (s, o) /\ spec_score o L = Some s.
Proof using Type.
  clear. revert q. unfold spec_index, spec_score. induction L as [|[s o'] l IH]; intros q; [done|]. cbn [prefix_len length List.filter snd]. case_bool_decide as Heq; cbn [negb].
  - subst o'. intros [= <-]. by exists s.
  - change (S ?x <? S ?y)%nat with (x <? y)%nat. specialize (IH (pred q)). destruct (_ <? _)%nat eqn:Hlt; [|done]. intros [= <-]. destruct (IH eq_refl) as (s' & Hl & Hs). by exists s'.
Qed.

Lemma index_none_score o : spec_index o L = None -> spec_score o L = None.
Proof using Type.
  clear. unfold spec_index, spec_score. induction L as [|[s o'] l IH]; [done|]. cbn [prefix_len length List.filter snd]. case_bool_decide as Heq; cbn [negb]; [done|].
  change (S ?x <? S ?y)%nat with (x <? y)%nat. destruct (_ <? _)%nat; [done|]. by apply IH.
Qed.

(** Where the search stops. *)
Definition stop (o : bytes) : nat := prefix_len (fun e => negb (bool_decide (e.2 = o))) L.

Lemma stop_index o : spec_index o L = if decide (stop o < length L)%nat then Some (stop o) else None.
Proof using Type. unfold spec_index. fold (stop o). destruct (Nat.ltb_spec (stop o) (length L)); [by rewrite decide_True|by rewrite decide_False by lia]. Qed.

Lemma passed o j e : L !! j = Some e -> (j <= stop o)%nat -> bool_decide (e.2 = o) = bool_decide (j = stop o).
Proof using Type.
  intros He Hj. destruct (decide (j = stop o)) as [->|Hne].
  - rewrite (bool_decide_eq_true_2 (stop o = stop o)) by done. apply (prefix_len_stop _ _ _) in He. by apply negb_false_iff.
  - rewrite (bool_decide_eq_false_2 (j = stop o)) by done. apply negb_true_iff. apply (prefix_len_in (fun e => negb (bool_decide (e.2 = o))) L j e He). unfold stop in *. lia.
Qed.

Lemma find_loop_ok o fuel : forall j cur, cursor_at zl L j cur -> (j <= stop o)%nat -> (length L - j < fuel)%nat ->
  exists r, zzl_find_loop fuel zl (fst <$> cur) o = Some r /\
    match spec_index o L with
    | Some q => exists p sp e, L !! q = Some e /\ at_index zl L q p sp /\ r = Some (p, e.1)
    | None => r = None
    end.
Proof using Hd.
  induction fuel as [|fuel IH]; intros j cur Hc Hj Hf; [lia|]. rewrite stop_index. pose proof (prefix_len_bound (fun e => negb (bool_decide (e.2 = o))) L) as Hb. fold (stop o) in Hb.
  destruct cur as [[p sp]|]; cbn [cursor_at] in Hc.
  - destruct (at_reads zl L Hd j p sp Hc) as (e & He & Hn & _ & Hs & Hcmp). cbn [zzl_find_loop fmap option_fmap option_map fst]. rewrite Hn. cbn [mbind option_bind]. rewrite Hcmp. cbn [mbind option_bind].
    rewrite (passed o j e He Hj). apply lookup_lt_Some in He as Hlt. destruct (bool_decide_reflect (j = stop o)) as [->|Hne].
    + rewrite Hs. cbn [mbind option_bind]. eexists. split; [done|]. rewrite decide_True by done. by exists p, sp, e.
    + destruct (next_cursor zl L j p sp Hc) as (r & _ & Hr & ->). cbn [mbind option_bind]. rewrite <- stop_index. apply (IH (S j)); [done|lia|lia].
  - exists None. split; [by destruct fuel|]. by rewrite decide_False by lia.
Qed.

Lemma zzlFind_ok o : exists r, zzlFind zl o = Some r /\
  match spec_index o L with
  | Some q => exists p sp e, L !! q = Some e /\ at_index zl L q p sp /\ r = Some (p, e.1)
  | None => r = None
  end.
Proof using Hd Hzl.
  unfold zzlFind. destruct (index_first zl L Hzl) as (cur & -> & Hc & _). cbn [mbind option_bind]. apply (find_loop_ok o _ 0); [done|lia|]. pose proof (zzl_few zl L Hzl). lia.
Qed.

(** The rank of a member counts from 1. *)
Lemma rank_loop_ok o fuel : forall j cur, cursor_at zl L j cur -> (j <= stop o)%nat -> (length L - j < fuel)%nat ->
  rank_loop fuel zl cur o (Z.of_nat j + 1) = Some ((fun q => Z.of_nat q + 1) <$> spec_index o L).
Proof using Hd Hzl.
  pose proof (zzl_few zl L Hzl) as [_ Hfew]. unfold zlen in Hfew.
  induction fuel as [|fuel IH]; intros j cur Hc Hj Hf; [lia|]. rewrite stop_index. pose proof (prefix_len_bound (fun e => negb (bool_decide (e.2 = o))) L) as Hb. fold (stop o) in Hb.
  destruct cur as [[p sp]|]; cbn [cursor_at] in Hc.
  - destruct (at_reads zl L Hd j p sp Hc) as (e & He & _ & _ & _ & Hcmp). cbn [rank_loop]. rewrite Hcmp. cbn [mbind option_bind].
    rewrite (passed o j e He Hj). apply lookup_lt_Some in He as Hlt. destruct (bool_decide_reflect (j = stop o)) as [->|Hne]; [by rewrite decide_True|].
    destruct (next_cursor zl L j p sp Hc) as (r & -> & Hr & _). cbn [mbind option_bind]. rewrite <- stop_index, uwrap_small by lia. replace (Z.of_nat j + 1 + 1) with (Z.of_nat (S j) + 1) by lia. apply (IH (S j)); [done|lia|lia].
  - cbn [rank_loop]. rewrite decide_False by lia. done.
Qed.

(** ** The ends of a range *)

Section range.
Context (gte lte : list Z -> Z -> option bool) (g f : pair -> bool).
Context (Hgte : forall j p sp e, at_index zl L j p sp -> L !! j = Some e -> gte zl p = Some (g e)).
Context (Hlte : forall j p sp e, at_index zl L j p sp -> L !! j = Some e -> lte zl p = Some (f e)).
Context (Hup : downward L (fun e => negb (g e))) (Hdown : downward L f).
Abbreviation lo := (prefix_len (fun e => negb (g e)) L).
Abbreviation hi := (prefix_len f L).

Lemma g_here j e : L !! j = Some e -> g e = bool_decide (lo <= j)%nat.
Proof using Hup.
  intros Hj. rewrite <- (negb_involutive (g e)), (prefix_len_iff L (fun e => negb (g e)) j e Hup Hj). rewrite <- bool_decide_not. apply bool_decide_ext. lia.
Qed.

Lemma f_here j e : L !! j = Some e -> f e = bool_decide (j < hi)%nat.
Proof using Hdown. intros Hj. by apply prefix_len_iff. Qed.

Lemma inside_segment : List.filter (fun e => g e && f e) L = drop lo (take hi L).
Proof using Hup Hdown. apply filter_segment; [apply g_here|apply f_here]. Qed.

Lemma bounds : (lo <= length L)%nat /\ (hi <= length L)%nat.
Proof using Type. split; apply prefix_len_bound. Qed.

(** What a test for an empty range promises. *)
Definition inside_ok (inside : option bool) : Prop := exists b, inside = Some b /\ if b then (lo < length L)%nat /\ (0 < hi)%nat else (hi <= lo)%nat.

Definition first_found (r : option Z) : Prop := match r with Some p => (lo < hi)%nat /\ exists sp, at_index zl L lo p sp | None => (hi <= lo)%nat end.
Definition last_found (r : option Z) : Prop := match r with Some p => (lo < hi)%nat /\ exists sp, at_index zl L (hi - 1) p sp | None => (hi <= lo)%nat end.

Lemma first_loop_ok fuel : forall j cur, cursor_at zl L j cur -> (j <= lo)%nat -> (length L - j < fuel)%nat ->
  exists r, first_loop fuel gte lte zl (fst <$> cur) = Some r /\ first_found r.
Proof using Hd Hgte Hlte Hup Hdown.
  pose proof bounds as [Hlo Hhi]. induction fuel as [|fuel IH]; intros j cur Hc Hj Hf; [lia|]. destruct cur as [[p sp]|]; cbn [cursor_at] in Hc.
  - destruct (at_reads zl L Hd j p sp Hc) as (e & He & Hn & _). cbn [first_loop fmap option_fmap option_map fst]. rewrite (Hgte j p sp e Hc He). cbn [mbind option_bind]. rewrite (g_here j e He).
    apply lookup_lt_Some in He as Hlt. destruct (bool_decide_reflect (lo <= j)%nat) as [Hle|Hgt].
    + assert (j = lo) as -> by lia. rewrite (Hlte _ p sp e Hc He). cbn [mbind option_bind]. rewrite (f_here _ e He). eexists. split; [done|].
      destruct (bool_decide_reflect (lo < hi)%nat); cbn [first_found]; [split; [done|by exists sp]|lia].
    + rewrite Hn. cbn [mbind option_bind]. destruct (next_cursor zl L j p sp Hc) as (r & _ & Hr & ->). cbn [mbind option_bind]. apply (IH (S j)); [done|lia|lia].
  - exists None. split; [by destruct fuel|]. cbn [first_found]. lia.
Qed.

Lemma zzl_first_ok inside : inside_ok inside -> exists r, zzl_first inside gte lte zl = Some r /\ first_found r.
Proof using Hd Hzl Hgte Hlte Hup Hdown.
  intros (b & -> & Hb). unfold zzl_first. destruct (index_first zl L Hzl) as (cur & -> & Hc & _). cbn [mbind option_bind]. destruct b; cbn [negb]; [|by exists None].
  apply (first_loop_ok _ 0); [done|lia|]. pose proof (zzl_few zl L Hzl). lia.
Qed.

Lemma last_loop_ok fuel : forall j p sp, at_index zl L j p sp -> (hi <= S j)%nat -> (j < fuel)%nat -> (0 < hi)%nat ->
  exists r, last_loop fuel gte lte zl (Some p) = Some r /\ last_found r.
Proof using Hd Hgte Hlte Hup Hdown.
  pose proof bounds as [Hlo Hhi]. induction fuel as [|fuel IH]; intros j p sp Hc Hj Hf Hpos; [lia|].
  destruct (at_reads zl L Hd j p sp Hc) as (e & He & _). cbn [last_loop]. rewrite (Hlte j p sp e Hc He). cbn [mbind option_bind]. rewrite (f_here j e He). destruct (bool_decide_reflect (j < hi)%nat) as [Hlt|Hge].
  - assert (j = hi - 1)%nat as -> by lia. rewrite (Hgte _ p sp e Hc He). cbn [mbind option_bind]. rewrite (g_here _ e He). eexists. split; [done|].
    destruct (bool_decide_reflect (lo <= hi - 1)%nat); cbn [last_found]; [split; [lia|by exists sp]|lia].
  - destruct j as [|j]; [lia|]. destruct (prev_cursor zl L j p sp Hc) as (p' & sp' & _ & Hat & -> & Hp). cbn [mbind option_bind]. rewrite Hp. cbn [mbind option_bind]. apply (IH j p' sp'); [done|lia|lia|done].
Qed.

Lemma zzl_last_ok inside : inside_ok inside -> exists r, zzl_last inside gte lte zl = Some r /\ last_found r.
Proof using Hd Hzl Hgte Hlte Hup Hdown.
  intros (b & -> & Hb). unfold zzl_last. pose proof bounds as [Hlo Hhi]. destruct (decide (length L = 0)%nat) as [H0|Hne].
  - rewrite (index_none zl L Hzl) by (unfold zlen; rewrite H0; cbn; lia). cbn [mbind option_bind]. destruct b; cbn [negb]; [lia|by exists None].
  - destruct (lookup_lt_is_Some_2 L (length L - 1)) as [e He]; [lia|]. destruct (index_member zl L Hzl (-2) _ e He) as (p & sp & -> & _ & Hat); [unfold zlen; cbn; lia|].
    cbn [mbind option_bind]. destruct b; cbn [negb]; [|by exists None]. apply (last_loop_ok _ (length L - 1) p sp); [done|lia| |lia]. pose proof (zzl_few zl L Hzl). lia.
Qed.
End range.

(** ** The two kinds of ranges *)

Lemma score_test_ok h j p sp e : at_index zl L j p sp -> L !! j = Some e -> score_test h zl p = Some (h e.1).
Proof using Hd.
  intros Hat He. destruct (at_reads zl L Hd j p sp Hat) as (x & Hx & Hn & _ & Hs & _). assert (x = e) as -> by congruence. unfold score_test. rewrite Hn. cbn [mbind option_bind]. by rewrite Hs.
Qed.

Lemma lex_test_ok h j p sp e : at_index zl L j p sp -> L !! j = Some e -> lex_test h zl p = Some (h e.2).
Proof using Hd.
  intros Hat He. destruct (at_reads zl L Hd j p sp Hat) as (x & Hx & _ & Ho & _). assert (x = e) as -> by congruence. unfold lex_test. by rewrite Ho.
Qed.

Lemma never_inside r g f : range_ok r L g f -> never r = true -> inside_ok g f (Some false).
Proof using Type.
  intros Hr Hn. exists false. split; [done|]. apply Nat.nlt_ge. intros Hlt. pose proof (prefix_len_bound f L). destruct (lookup_lt_is_Some_2 L (prefix_len (fun e => negb (g e)) L)) as [e He]; [lia|].
  pose proof (ro_never _ _ _ _ Hr Hn e (list_elem_of_lookup_2 _ _ _ He)) as Hne. rewrite (g_here g (ro_up _ _ _ _ Hr) _ e He), (f_here f (ro_down _ _ _ _ Hr) _ e He) in Hne.
  rewrite !bool_decide_eq_true_2 in Hne by lia. done.
Qed.

(** The tests of the last and of the first element decide. *)
Lemma ends_inside r g f x y : range_ok r L g f -> last L = Some x -> head L = Some y -> inside_ok g f (Some (g x && f y)).
Proof using Type.
  intros Hr Hx Hy. pose proof (bounds g f) as [Hlo Hhi]. exists (g x && f y). split; [done|]. rewrite last_lookup in Hx. rewrite head_lookup in Hy. apply lookup_lt_Some in Hy as Hlen.
  rewrite (g_here g (ro_up _ _ _ _ Hr) _ x Hx), (f_here f (ro_down _ _ _ _ Hr) _ y Hy). destruct (bool_decide_reflect (prefix_len (fun e => negb (g e)) L <= pred (length L))%nat), (bool_decide_reflect (0 < prefix_len f L)%nat); cbn [andb]; lia.
Qed.

Lemma ends_at : L = [] \/ exists x y, last L = Some x /\ head L = Some y /\ L !! (length L - 1)%nat = Some x /\ L !! 0%nat = Some y.
Proof using Type.
  destruct (decide (length L = 0)%nat) as [H0|Hne]; [left; by apply nil_length_inv|right]. destruct (lookup_lt_is_Some_2 L (length L - 1)) as [x Hx]; [lia|]. destruct (lookup_lt_is_Some_2 L 0) as [y Hy]; [lia|].
  exists x, y. rewrite last_lookup, head_lookup. by replace (pred (length L)) with (length L - 1)%nat by lia.
Qed.

Lemma empty_inside g f : L = [] -> inside_ok g f (Some false).
Proof using Type. intros Hnil. exists false. by rewrite Hnil. Qed.

Lemma zzlIsInRange_ok r : range_ok (score_range r) L (score_gte r) (score_lte r) -> inside_ok (score_gte r) (score_lte r) (zzlIsInRange zl r).
Proof using Hd Hzl.
  intros Hr. unfold zzlIsInRange. destruct (never (score_range r)) eqn:Hnv; [by eapply never_inside|]. destruct ends_at as [Hnil|(x & y & Hlx & Hhy & Hx & Hy)].
  - rewrite (index_none zl L Hzl (-1)) by (unfold zlen; rewrite Hnil; cbn; lia). by apply empty_inside.
  - apply lookup_lt_Some in Hy as Hlen. destruct (index_score zl L Hzl (-1) _ x Hx) as (p & sp & -> & Hat); [unfold zlen; cbn; lia|]. cbn [mbind option_bind].
    destruct (at_reads zl L Hd _ p sp Hat) as (x' & Hx' & _ & _ & -> & _). assert (x' = x) as -> by congruence. cbn [mbind option_bind].
    change (zslValueGteMin x.1 r) with (score_gte r x). pose proof (ends_inside _ _ _ x y Hr Hlx Hhy) as He. destruct (score_gte r x); cbn [negb andb] in *; [|done].
    destruct (index_score zl L Hzl 1 _ y Hy) as (p0 & sp0 & -> & Hat0); [done|]. cbn [mbind option_bind].
    destruct (at_reads zl L Hd _ p0 sp0 Hat0) as (y' & Hy' & _ & _ & -> & _). assert (y' = y) as -> by congruence. done.
Qed.

Lemma zzlIsInLexRange_ok r : range_ok (lex_range r) L (lex_gte r) (lex_lte r) -> inside_ok (lex_gte r) (lex_lte r) (zzlIsInLexRange zl r).
Proof using Hd Hzl.
  intros Hr. unfold zzlIsInLexRange. destruct (never (lex_range r)) eqn:Hnv; [by eapply never_inside|]. destruct ends_at as [Hnil|(x & y & Hlx & Hhy & Hx & Hy)].
  - rewrite (index_none zl L Hzl (-2)) by (unfold zlen; rewrite Hnil; cbn; lia). by apply empty_inside.
  - apply lookup_lt_Some in Hy as Hlen. destruct (index_member zl L Hzl (-2) _ x Hx) as (p & sp & -> & _ & Hat); [unfold zlen; cbn; lia|]. cbn [mbind option_bind].
    rewrite (lex_test_ok _ _ p sp x Hat Hx). cbn [mbind option_bind].
    change (zslLexValueGteMin x.2 r) with (lex_gte r x). pose proof (ends_inside _ _ _ x y Hr Hlx Hhy) as He. destruct (lex_gte r x); cbn [negb andb] in *; [|done].
    destruct (index_member zl L Hzl 0 _ y Hy) as (p0 & sp0 & -> & _ & Hat0); [done|]. cbn [mbind option_bind].
    by rewrite (lex_test_ok _ _ p0 sp0 y Hat0 Hy).
Qed.

(** ** Listings and counts *)

Section walk.
Context (reverse : bool).
Abbreviation s := (from_end reverse L).
Abbreviation pts := (answer s).

(** The pair of pointers of number [q] in the order of the walk. *)
Definition zzl_place (q : nat) (cur : Z * Z) : Prop := (q < length L)%nat /\ at_index zl L (if reverse then length L - S q else q)%nat cur.1 cur.2.

Lemma answer_length : length pts = length L.
Proof using Type. unfold answer. by rewrite length_fmap, from_end_length. Qed.

Lemma zzl_read_ok q cur : zzl_place q cur -> exists x, pts !! q = Some x /\ zzl_read zl cur = Some x.
Proof using Hd.
  intros [Hq Hat]. destruct (at_reads zl L Hd _ _ _ Hat) as (e & He & _ & Ho & Hs & _). exists (e.2, e.1). unfold zzl_read. rewrite Ho. cbn [mbind option_bind]. rewrite Hs. split; [|done].
  unfold answer. rewrite list_lookup_fmap. destruct reverse; cbn [from_end]; [rewrite reverse_lookup by done|]; rewrite He; by destruct e.
Qed.

Lemma zzl_move_ok q cur : zzl_place q cur -> exists r, zzl_move reverse zl cur = Some r /\ at_opt pts zzl_place (S q) r.
Proof using Type.
  intros [Hq Hat]. unfold zzl_move, at_opt, zzl_place in *. rewrite answer_length. destruct reverse.
  - destruct (length L - S q)%nat as [|j] eqn:Hj.
    + destruct (prev_first zl L _ _ Hat) as [-> _]. exists None. split; [done|]. lia.
    + destruct (prev_cursor zl L j _ _ Hat) as (p' & sp' & -> & Hat' & _). exists (Some (p', sp')). split; [done|]. split; [lia|]. by replace (length L - S (S q))%nat with j by lia.
  - destruct (next_cursor zl L q _ _ Hat) as (r & -> & Hr & _). exists r. split; [done|]. destruct r as [[p sp]|]; [|done]. split; [|done]. destruct Hr as (e & He & _). by apply lookup_lt_Some in He.
Qed.

Lemma zzl_list_range_ok eptr inside g f off lim : downward L (fun e => negb (g e)) -> downward L f ->
  (if reverse then last_found g f eptr else first_found g f eptr) ->
  (forall j p sp e, at_index zl L j p sp -> L !! j = Some e -> inside zl p = Some ((if reverse then g else f) e)) -> sfits 64 off -> sfits 64 lim ->
  zzl_list_range reverse zl (Some eptr) inside off lim = Some (spec_list reverse (fun e => g e && f e) off lim L).
Proof using Hd Hzl.
  intros Hup Hdown Hfound Hin Hoff Hlim. set (lo := prefix_len (fun e => negb (g e)) L) in *. set (hi := prefix_len f L) in *. destruct (bounds g f) as [Hlo Hhi]. fold lo hi in Hlo, Hhi.
  unfold spec_list. rewrite (inside_segment g f Hup Hdown), from_end_segment by done. fold lo hi. unfold zzl_list_range. cbn [mbind option_bind]. unfold answer. rewrite fmap_drop, fmap_take. fold pts.
  destruct (zzl_few zl L Hzl) as [Hfuel Hfew]. assert (forall q e, s !! q = Some e -> (if reverse then g else f) e = bool_decide (q < seen_from reverse L hi lo)%nat) as Htest.
  { intros q e Hq. pose proof (lookup_lt_Some _ _ _ Hq) as Hlt. rewrite from_end_length in Hlt. destruct reverse; cbn [from_end seen_from] in *.
    - rewrite reverse_lookup in Hq by done. rewrite (g_here g Hup _ e Hq). apply bool_decide_ext. fold lo. lia.
    - by rewrite (f_here f Hdown _ e Hq). }
  assert (forall q cur, zzl_place q cur -> inside zl cur.1 = Some (bool_decide (q < seen_from reverse L hi lo)%nat)) as Hinside.
  { intros q [p sp] [Hq Hat]. cbn [fst snd] in *. pose proof Hat as (e & He & _). rewrite (Hin _ p sp e Hat He). f_equal. apply Htest. destruct reverse; cbn [from_end]; [by rewrite reverse_lookup|done]. }
  destruct eptr as [p|].
  - assert (lo < hi /\ exists sp, zzl_place (seen_from reverse L lo hi) (p, sp))%nat as (Hlt & sp & Hpl).
    { unfold zzl_place, last_found, first_found in *. destruct reverse; cbn [seen_from fst snd] in *; destruct Hfound as (Hlt & sp & Hat); (split; [done|]); exists sp; (split; [fold lo hi in Hlt; lia|]); [|done].
      fold hi in Hat. by replace (length L - S (length L - hi))%nat with (hi - 1)%nat by (fold lo hi in Hlt; lia). }
    destruct (at_reads zl L Hd _ _ _ (proj2 Hpl)) as (e & _ & Hn & _). cbn [fst snd] in Hn. rewrite Hn. cbn [mbind option_bind fst snd].
    apply (offset_limit_ok _ _ pts zzl_place zzl_read_ok zzl_move_ok); [done|exact Hpl|rewrite answer_length; lia|unfold zlen in *; rewrite answer_length; lia|done|done].
  - assert (hi <= lo)%nat as Hle by by destruct reverse. rewrite drop_ge by (rewrite length_take; unfold seen_from; destruct reverse; lia). by rewrite limit_offset_nil.
Qed.
End walk.

Lemma zzl_count_ok lte f : (forall j p sp e, at_index zl L j p sp -> L !! j = Some e -> lte zl p = Some (f e)) -> downward L f -> forall fuel j cur lo, cursor_at zl L j cur -> (lo <= j)%nat -> (j <= prefix_len f L)%nat -> (length L - j < fuel)%nat ->
  zzl_count fuel lte zl cur (Z.of_nat (j - lo)) = Some (Z.of_nat (prefix_len f L - lo)).
Proof using Hd Hzl.
  intros Hlte Hdown. destruct (zzl_few zl L Hzl) as [_ Hfew]. unfold zlen in Hfew. pose proof (prefix_len_bound f L) as Hhi. induction fuel as [|fuel IH]; intros j cur lo Hc Hlo Hj Hf; [lia|]. destruct cur as [[p sp]|]; cbn [cursor_at zzl_count] in *.
  - pose proof Hc as (e & He & _). rewrite (Hlte j p sp e Hc He). cbn [mbind option_bind]. rewrite (f_here f Hdown j e He). apply lookup_lt_Some in He. destruct (bool_decide_reflect (j < prefix_len f L)%nat) as [Hlt|Hge]; cbn [negb].
    + destruct (next_cursor zl L j p sp Hc) as (r & -> & Hr & _). cbn [mbind option_bind]. rewrite swrap_small by (unfold sfits; lia). replace (Z.of_nat (j - lo) + 1) with (Z.of_nat (S j - lo)) by lia.
      apply IH; [done|lia|lia|lia].
    + do 2 f_equal. lia.
  - do 2 f_equal. lia.
Qed.

Lemma zzl_count_range_ok eptr lte g f : downward L (fun e => negb (g e)) -> downward L f -> first_found g f eptr ->
  (forall j p sp e, at_index zl L j p sp -> L !! j = Some e -> lte zl p = Some (f e)) ->
  zzl_count_range zl (Some eptr) lte = Some (zlen (List.filter (fun e => g e && f e) L)).
Proof using Hd Hzl.
  intros Hup Hdown Hfound Hlte. destruct (bounds g f) as [Hlo Hhi]. rewrite (inside_segment g f Hup Hdown). unfold zzl_count_range. cbn [mbind option_bind]. unfold zlen. rewrite length_drop, length_take.
  destruct eptr as [p|]; cbn [first_found] in Hfound.
  - destruct Hfound as (Hlt & sp & Hat). destruct (at_reads zl L Hd _ _ _ Hat) as (e & He & -> & _). cbn [mbind option_bind]. rewrite (Hlte _ p sp e Hat He). cbn [mbind option_bind]. rewrite (f_here f Hdown _ e He), bool_decide_eq_true_2 by done. cbn [negb].
    set (lo := prefix_len (fun e => negb (g e)) L) in *. change 0 with (Z.of_nat 0). replace 0%nat with (lo - lo)%nat at 1 by lia.
    rewrite (zzl_count_ok lte f Hlte Hdown _ lo (Some (p, sp)) lo Hat) by (lia || (pose proof (zzl_few zl L Hzl); lia)). do 2 f_equal. lia.
  - do 2 f_equal. lia.
Qed.
End read.
