(* ===== verification/ZzlWrite.v ===== *)
(** * Sorted sets kept as ziplists: the changes (src/redis-2.8.19/src/t_zset.c)

    Insertions and deletions put a member and its score in, or take them out, at the
    place they belong. The length field before a member stays one byte wide, for the
    score before it is short: this is why every string fits in front of a member. *)
From S2P Require Import Prelude Util Sds Object Dict DictIter DictBound Ziplist ZiplistSpec HashType HashTypeSpec Zskiplist ZskiplistSpec ZskiplistOrder ZskiplistOps ZskiplistRange Zset ZsetSpec ZsetRange Zzl ZzlSpec ZzlRead.
Open Scope Z_scope.

(** ** Members and scores in turn *)

(** [b] says that the first entry is a member. *)
Fixpoint alt (b : bool) (es : list entry) : Prop :=
  match es with
  | [] => True
  | e :: es => (if b then ps e = 1 else zlen (text e) < 128) /\ alt (negb b) es
  end.

Lemma alt_app k : forall a c, length a = (2 * k)%nat -> alt true (a ++ c) <-> alt true a /\ alt true c.
Proof.
  induction k as [|k IH]; intros a c Ha; [apply nil_length_inv in Ha as ->; cbn; tauto|].
  destruct a as [|m [|s a]]; [done|cbn in Ha; lia|]. cbn [app alt negb]. rewrite IH by (cbn in Ha; lia). tauto.
Qed.

Lemma body_text s : zlen s < 128 -> zlen (body s) <= zlen s + 17.
Proof.
  intros Hs. assert (entry_ok (mkEntry 0 1 s)) as He by (split; [left; unfold ZIP_BIGLEN; cbn; lia|cbn; lia]).
  pose proof (size_text _ He) as Ht. rewrite size_body in Ht by done. cbn [ps text] in Ht. lia.
Qed.

Lemma size_score e : zlen (text e) < 128 -> size e < ZIP_BIGLEN.
Proof.
  intros Ht. pose proof (body_text (text e) Ht). unfold size, raw. rewrite zlen_app. unfold prev_bytes, ZIP_BIGLEN. destruct (_ =? _); [change (zlen [pv e]) with 1; lia|].
  rewrite zlen_cons. assert (zlen (le_bytes 4 (pv e)) = 4) as -> by done. lia.
Qed.

Lemma enc_size_short n : n < ZIP_BIGLEN -> enc_size n = 1.
Proof. intros Hn. destruct (enc_size_cases n); lia. Qed.

Lemma end_size_alt k : forall a prev, length a = (2 * k)%nat -> alt true a -> prev < ZIP_BIGLEN -> end_size prev a < ZIP_BIGLEN.
Proof.
  induction k as [|k IH]; intros a prev Ha Halt Hp; [by apply nil_length_inv in Ha as ->|]. destruct a as [|m [|s a]]; [done|cbn in Ha; lia|].
  rewrite !end_size_cons. destruct Halt as (_ & Hs & Halt). apply IH; [cbn in Ha; lia|done|by apply size_score].
Qed.

Lemma relink_alt es : forall b prev, Forall entry_ok es -> alt b es -> (b = true -> prev < ZIP_BIGLEN) -> alt b (relink prev es).
Proof.
  induction es as [|e l IH]; intros b prev Hok Halt Hp; [done|]. apply Forall_cons in Hok as [He Hok]. destruct Halt as [H1 Hl]. cbn [relink]. destruct (pv e =? prev); [done|].
  destruct (Z.ltb_spec (ps e) (enc_size prev)) as [Hlt|_]; [|done]. destruct b; [rewrite enc_size_short in Hlt by auto; lia|].
  split; [done|]. apply IH; [done|done|]. intros _. by apply size_score.
Qed.

Lemma settle_tail prev es : Forall entry_ok es -> alt false (List.tl es) -> alt false (List.tl (settle prev es)).
Proof. destruct es as [|e l]; [done|]. intros [_ Hok]%Forall_cons Halt. cbn [settle List.tl]. by apply relink_alt. Qed.

Lemma settle_alt prev es : prev < ZIP_BIGLEN -> Forall entry_ok es -> alt false (List.tl es) -> alt true (settle prev es).
Proof.
  intros Hp Hok Halt. pose proof (settle_tail prev es Hok Halt) as Ht. destruct es as [|e l]; [done|]. cbn [settle List.tl] in *. split; [|done]. by apply enc_size_short.
Qed.

Lemma alt_tail es : alt true es -> alt false (List.tl es).
Proof. destruct es; [done|]. by intros [_ ?]. Qed.

(** ** Two entries at a time *)

Section pair.
Context (uninit : nat -> Z).

Lemma insert_pair zl n a b k o t : rep zl n (a ++ b) -> length a = (2 * k)%nat -> alt true a -> alt true b -> zlen t < 128 ->
  2 * (weight (map text (a ++ b)) + zlen o) + 900 < 2 ^ 32 ->
  exists zl1 n1 m0 b1 zl2 n2 s0 b2,
    __ziplistInsert uninit zl (10 + zlen (layout a)) o (zlen o) = Some zl1 /\ rep zl1 n1 ((a ++ [m0]) ++ b1) /\ text m0 = o /\ map text b1 = map text b /\
    __ziplistInsert uninit zl1 (10 + zlen (layout (a ++ [m0]))) t (zlen t) = Some zl2 /\ rep zl2 n2 (a ++ m0 :: s0 :: b2) /\ text s0 = t /\ map text b2 = map text b /\ alt true (m0 :: s0 :: b2).
Proof using Type.
  intros Hrep Hk Ha Hb Ht Hmax. pose proof (end_size_alt k a 0 Hk Ha ltac:(done)) as Hes. pose proof (rep_end_size _ _ _ _ Hrep) as Hesb. pose proof (ziplist_ok_weight _ _ (rep_ziplist_ok _ _ _ Hrep)) as Hw. pose proof (weight_zlen (map text (a ++ b))) as Hwz.
  rewrite zlen_map in Hwz. pose proof (zlen_nonneg o). pose proof (zlen_nonneg t). pose proof (zlen_nonneg (a ++ b)).
  destruct (insert_entries uninit zl n a b o Hrep) as (zl1 & n1 & Hrun1 & Hrep1); [destruct b; [done|]; left; apply Hb|lia|]. unfold inserted in Hrep1. set (m0 := new_entry (end_size 0 a) o) in *.
  pose proof (rep_ok _ _ _ Hrep) as Hok. apply Forall_app in Hok as [_ Hokb]. set (b1 := settle (size m0) b) in *.
  assert (rep zl1 n1 ((a ++ [m0]) ++ b1)) as Hrep1' by by rewrite <- app_assoc. pose proof (ziplist_ok_weight _ _ (rep_ziplist_ok _ _ _ Hrep1)) as Hw1.
  assert (map text b1 = map text b) as Htb1 by apply settle_texts.
  assert (weight (map text (a ++ m0 :: b1)) = weight (map text (a ++ b)) + zlen o + 18) as Hwe.
  { rewrite !map_app. cbn [map]. rewrite Htb1, !weight_app, weight_cons. change (text m0) with o. lia. }
  assert (zlen (a ++ m0 :: b1) = zlen (a ++ b) + 1) as Hze. { rewrite <- (zlen_map text (a ++ m0 :: b1)), <- (zlen_map text (a ++ b)), !map_app. cbn [map]. rewrite Htb1, !zlen_app, zlen_cons. lia. }
  destruct (insert_entries uninit zl1 n1 (a ++ [m0]) b1 t Hrep1') as (zl2 & n2 & Hrun2 & Hrep2).
  { unfold b1. destruct b as [|x l]; [done|]. cbn [settle room ps]. unfold end_size. rewrite last_snoc. destruct (enc_size_cases (size m0)) as [[_ ->]|[_ E]]; [by left|right].
    change (4 <= zlen (raw (new_entry (size m0) t))). unfold raw. rewrite zlen_app, new_prev_bytes. fold (enc_size (size m0)). rewrite E. pose proof (zlen_nonneg (body (text (new_entry (size m0) t)))). lia. }
  { rewrite <- app_assoc. cbn [app]. lia. }
  unfold inserted in Hrep2. set (s0 := new_entry (end_size 0 (a ++ [m0])) t) in *. assert (size s0 < ZIP_BIGLEN) as Hs0 by by apply size_score.
  exists zl1, n1, m0, b1, zl2, n2, s0, (settle (size s0) b1). pose proof (rep_ok _ _ _ Hrep1') as Hok1. apply Forall_app in Hok1 as [_ Hok1].
  rewrite <- app_assoc in Hrep2. cbn [app] in Hrep2. do 7 (split; [done|]). split; [by rewrite settle_texts|]. split; [by apply enc_size_short|]. split; [done|].
  cbn [negb]. apply settle_alt; [done|done|]. apply settle_tail; [done|by apply alt_tail].
Qed.

Lemma delete_pair zl n a m s b k : rep zl n (a ++ m :: s :: b) -> length a = (2 * k)%nat -> alt true a -> alt true (m :: s :: b) ->
  weight (map text (a ++ m :: s :: b)) + 4 * zlen (a ++ m :: s :: b) + 8 < 2 ^ 32 ->
  exists zl1 zl2 n2 b2, __ziplistDelete uninit zl (10 + zlen (layout a)) 1 = Some zl1 /\ __ziplistDelete uninit zl1 (10 + zlen (layout a)) 1 = Some zl2 /\
    rep zl2 n2 (a ++ b2) /\ map text b2 = map text b /\ alt true b2.
Proof using Type.
  intros Hrep Hk Ha (_ & Hs & Hb) Hmax. pose proof (end_size_alt k a 0 Hk Ha ltac:(done)) as Hes. pose proof (rep_end_size _ _ _ _ Hrep) as Hesb. pose proof (ziplist_ok_weight _ _ (rep_ziplist_ok _ _ _ Hrep)) as Hw.
  destruct (delete_entries uninit zl n a [m] (s :: b) 1 Hrep) as (zl1 & n1 & Hrun1 & Hrep1); [done|done|by right|cbn [app]; lia|].
  pose proof (rep_ok _ _ _ Hrep) as Hok. apply Forall_app in Hok as [_ Hok]. apply Forall_cons in Hok as [_ Hok]. apply Forall_cons in Hok as [_ Hok].
  cbn [settle] in Hrep1. set (s' := mkEntry (end_size 0 a) (enc_size (end_size 0 a)) (text s)) in *. assert (size s' < ZIP_BIGLEN) as Hs' by by apply size_score.
  pose proof (ziplist_ok_weight _ _ (rep_ziplist_ok _ _ _ Hrep1)) as Hw1.
  assert (map text (a ++ m :: s :: b) = map text a ++ text m :: map text (s' :: relink (size s') b)) as Hte by (rewrite map_app; cbn [map]; by rewrite relink_texts).
  rewrite Hte in Hmax. rewrite map_app in Hw1. rewrite weight_app, weight_cons in Hmax. rewrite weight_app in Hw1. pose proof (zlen_nonneg (text m)).
  assert (zlen (a ++ s' :: relink (size s') b) + 1 = zlen (a ++ m :: s :: b)) as Hz by (rewrite <- (zlen_map text (a ++ m :: s :: b)), Hte, !zlen_app, !zlen_cons, !zlen_map, zlen_cons; lia).
  destruct (delete_entries uninit zl1 n1 a [s'] (relink (size s') b) 1 Hrep1) as (zl2 & n2 & Hrun2 & Hrep2); [done|done|by right|cbn [app]; lia|].
  pose proof (rep_ok _ _ _ Hrep1) as Hok1. apply Forall_app in Hok1 as [_ Hok1]. apply Forall_cons in Hok1 as [_ Hok1].
  exists zl1, zl2, n2, (settle (end_size 0 a) (relink (size s') b)). split; [done|]. split; [done|]. split; [done|]. split; [by rewrite settle_texts, relink_texts|].
  apply settle_alt; [done|done|]. apply alt_tail. by apply relink_alt.
Qed.
End pair.

(** ** What the ziplist of a sorted set is *)

Section writes.
Context {D : Doubles} (uninit : nat -> Z).

Definition zplace (zl : list Z) (L1 L2 : list pair) (p : Z) : Prop :=
  exists n a b, rep zl n (a ++ b) /\ map text a = texts L1 /\ map text b = texts L2 /\ alt true a /\ alt true b /\ p = 10 + zlen (layout a).

Definition zzl_ok (zl : list Z) (L : list pair) : Prop := exists n es, rep zl n es /\ map text es = texts L /\ alt true es.

Lemma zplace_place zl L1 L2 p : zplace zl L1 L2 p -> place zl (texts L1) (texts L2) p.
Proof using Type. intros (n & a & b & H & Ha & Hb & _ & _ & Hp). by exists n, a, b. Qed.

Lemma texts_even (a : list entry) L1 : map text a = texts L1 -> length a = (2 * length L1)%nat.
Proof using Type. intros Ha. by rewrite <- (length_map text), Ha, texts_length. Qed.

Lemma zplace_ok zl L1 L2 p : zplace zl L1 L2 p -> zzl_ok zl (L1 ++ L2).
Proof using Type.
  intros (n & a & b & H & Ha & Hb & Haa & Hab & _). exists n, (a ++ b). split; [done|]. rewrite map_app, texts_app, Ha, Hb. split; [done|]. by apply (alt_app (length L1) a b (texts_even a L1 Ha)).
Qed.

Lemma zzl_ok_list zl L : zzl_ok zl L -> ziplist_ok zl (texts L).
Proof using Type. intros (n & es & H & <- & _). by eapply rep_ziplist_ok. Qed.

Lemma zplace_of zl L1 L2 p : zzl_ok zl (L1 ++ L2) -> place zl (texts L1) (texts L2) p -> zplace zl L1 L2 p.
Proof using Type.
  intros (n & es & H & Hes & Halt) Hp. rewrite texts_app in Hes. apply map_eq_app in Hes as (a & b & -> & Ha & Hb).
  apply (alt_app (length L1) a b (texts_even a L1 Ha)) in Halt as [Haa Hab]. exists n, a, b. do 5 (split; [done|]). eapply place_unique; [exact Hp|]. rewrite <- Ha, <- Hb. by eapply rep_place.
Qed.

(** The bytes that a sorted set takes, at most, whatever its scores. *)
Definition zweight (L : list pair) : Z := foldr (fun e acc => zlen e.2 + 163 + acc) 11 L.

(** Room for the string [o]: the ziplist stays below 4 GB. *)
Definition zroom (L : list pair) (o : bytes) : Prop := 2 * (zweight L + zlen o) + 1000 < 2 ^ 32.

Lemma zweight_texts L : doubles L -> weight (texts L) <= zweight L.
Proof using Type.
  induction 1 as [|[s o] L Hs _ IH]; [done|]. rewrite texts_cons, !weight_cons. cbn [zweight foldr fst snd] in *. fold (zweight L). destruct (d2string_ok s Hs) as (_ & _ & Hl). lia.
Qed.

Lemma zweight_pos L : 11 + 163 * zlen L <= zweight L.
Proof using Type. induction L as [|e L IH]; [done|]. cbn [zweight foldr]. fold (zweight L). rewrite zlen_cons. pose proof (zlen_nonneg e.2). lia. Qed.

Lemma zweight_app L1 L2 : zweight (L1 ++ L2) = zweight L1 + zweight L2 - 11.
Proof using Type. induction L1 as [|e L1 IH]; [cbn [app]; change (zweight []) with 11; lia|]. cbn [app zweight foldr]. fold (zweight (L1 ++ L2)) (zweight L1). lia. Qed.

Lemma zweight_mid L1 e L2 : zweight (L1 ++ e :: L2) = zweight (L1 ++ L2) + zlen e.2 + 163.
Proof using Type. rewrite !zweight_app. cbn [zweight foldr]. fold (zweight L2). lia. Qed.

Lemma insert_room (es : list entry) L o : map text es = texts L -> doubles L -> zroom L o -> 2 * (weight (map text es) + zlen o) + 900 < 2 ^ 32.
Proof using Type. intros -> Hd Hr. pose proof (zweight_texts L Hd). unfold zroom in Hr. lia. Qed.

(** A member and its score go in, before a member or at the end. *)
Lemma insertAt_ok zl L1 e L2 p sc o : zplace zl L1 (e :: L2) p -> doubles (L1 ++ e :: L2) -> is_double sc -> zroom (L1 ++ e :: L2) o ->
  exists zl', zzlInsertAt uninit zl (Some p) o sc = Some zl' /\ zplace zl' L1 ((sc, o) :: e :: L2) p.
Proof using Type.
  intros (n & a & b & Hrep & Ha & Hb & Haa & Hab & ->) Hd Hsc Hr. destruct (d2string_ok sc Hsc) as (Hstr & _ & Hlen). unfold zzlInsertAt. rewrite Hstr. cbn [mbind option_bind].
  destruct (insert_pair uninit zl n a b (length L1) o (stext sc) Hrep (texts_even a L1 Ha) Haa Hab Hlen) as (zl1 & n1 & m0 & b1 & zl2 & n2 & s0 & b2 & Hrun1 & Hrep1 & Hm0 & Hb1 & Hrun2 & Hrep2 & Hs0 & Hb2 & Halt).
  { apply (insert_room _ (L1 ++ e :: L2)); [by rewrite map_app, texts_app, Ha, Hb|done|done]. }
  unfold ziplistInsert. rewrite Hrun1. cbn [mbind option_bind]. assert (place zl1 (map text a) (text m0 :: map text b1) (10 + zlen (layout a))) as Hp1.
  { apply (rep_place zl1 n1 a (m0 :: b1)). by rewrite <- app_assoc in Hrep1. }
  destruct (proj1 (ziplist_walk zl1 _ _ _ _ Hp1)) as (r & -> & Hq). rewrite Hb1, Hb, texts_cons in Hq. destruct Hq as (q & -> & Hq). cbn [mbind option_bind].
  pose proof (rep_place zl1 n1 _ _ Hrep1) as Hq'. rewrite map_app, Hb1, Hb, texts_cons in Hq'. rewrite (place_unique _ _ _ _ _ Hq Hq'), Hrun2. exists zl2. split; [done|].
  exists n2, a, (m0 :: s0 :: b2). split; [done|]. split; [done|]. split; [|done]. cbn [map]. by rewrite Hm0, Hs0, Hb2, Hb, texts_cons.
Qed.

Lemma appendAt_ok zl L sc o : zzl_ok zl L -> doubles L -> is_double sc -> zroom L o ->
  exists zl', zzlInsertAt uninit zl None o sc = Some zl' /\ zzl_ok zl' (L ++ [(sc, o)]).
Proof using Type.
  intros (n & es & Hrep & Hes & Halt) Hd Hsc Hr. destruct (d2string_ok sc Hsc) as (Hstr & _ & Hlen). unfold zzlInsertAt. rewrite Hstr. cbn [mbind option_bind].
  assert (rep zl n (es ++ [])) as Hrep0 by by rewrite app_nil_r.
  destruct (insert_pair uninit zl n es [] (length L) o (stext sc) Hrep0 (texts_even es L Hes) Halt I Hlen) as (zl1 & n1 & m0 & b1 & zl2 & n2 & s0 & b2 & Hrun1 & Hrep1 & Hm0 & Hb1 & Hrun2 & Hrep2 & Hs0 & Hb2 & Halt2).
  { apply (insert_room _ L); [by rewrite app_nil_r|done|done]. }
  apply map_eq_nil in Hb1 as ->. apply map_eq_nil in Hb2 as ->. rewrite app_nil_r in Hrep1. unfold ziplistPush. rewrite (entry_end_ok _ _ _ Hrep). cbn [mbind option_bind]. rewrite Hrun1. cbn [mbind option_bind].
  rewrite (entry_end_ok _ _ _ Hrep1). cbn [mbind option_bind]. rewrite Hrun2. exists zl2. split; [done|]. exists n2, (es ++ [m0; s0]). split; [done|]. split.
  - rewrite map_app. cbn [map]. by rewrite Hes, Hm0, Hs0, texts_app.
  - by apply (alt_app (length L) es _ (texts_even es L Hes)).
Qed.

Lemma zzlDelete_ok zl L1 e L2 p : zplace zl L1 (e :: L2) p -> doubles (L1 ++ e :: L2) -> zroom (L1 ++ e :: L2) [] ->
  exists zl', zzlDelete uninit zl p = Some zl' /\ zplace zl' L1 L2 p.
Proof using Type.
  intros (n & a & b & Hrep & Ha & Hb & Haa & Hab & ->) Hd Hr. rewrite texts_cons in Hb. destruct b as [|m [|s b]]; [done|done|]. injection Hb as Hm Hs Hb.
  destruct (delete_pair uninit zl n a m s b (length L1) Hrep (texts_even a L1 Ha) Haa Hab) as (zl1 & zl2 & n2 & b2 & Hrun1 & Hrun2 & Hrep2 & Hb2 & Halt).
  { assert (map text (a ++ m :: s :: b) = texts (L1 ++ e :: L2)) as Ht by (rewrite map_app, texts_app, texts_cons; cbn [map]; by rewrite Ha, Hm, Hs, Hb).
    rewrite <- (zlen_map text), Ht, zlen_texts. pose proof (zweight_texts _ Hd). pose proof (zweight_pos (L1 ++ e :: L2)). unfold zroom in Hr. change (zlen []) with 0 in Hr. lia. }
  unfold zzlDelete, ziplistDelete. rewrite Hrun1. cbn [mbind option_bind]. exists zl2. split; [done|]. exists n2, a, b2. rewrite Hb2. done.
Qed.

(** ** The insertion at its place *)

Lemma here_before sc o e : elt_ok (sc, o) -> elt_ok e -> e.2 <> o ->
  (if dlt sc e.1 then true else if deq e.1 sc then compareDecoded e.2 o >? 0 else false) = negb (before sc o e).
Proof using Type.
  intros [Hsc Ho] [He Heo] Hne. cbn [fst snd] in *. unfold before. destruct (d_trichotomy sc e.1 Hsc He) as [Hlt|[Heq|Hgt]].
  - rewrite Hlt. destruct (dlt e.1 sc) eqn:E; [pose proof (dlt_trans _ _ _ Hlt E) as Hx; by rewrite dlt_irrefl in Hx|]. destruct (deq e.1 sc) eqn:E2; [|done]. by destruct (dlt_deq_no _ _ Hlt (deq_sym _ _ E2)).
  - pose proof (deq_sym _ _ Heq) as Heq'. rewrite Heq'. destruct (dlt sc e.1) eqn:E1; [by destruct (dlt_deq_no _ _ E1 Heq)|]. destruct (dlt e.1 sc) eqn:E2; [by destruct (dlt_deq_no _ _ E2 Heq')|]. cbn [orb andb].
    pose proof (cmp_eq e.2 o Heo Ho) as Hc. rewrite Z.gtb_ltb. destruct (Z.ltb_spec 0 (compareDecoded e.2 o)), (Z.ltb_spec (compareDecoded e.2 o) 0); try done; [lia|]. exfalso. apply Hne, Hc, Z.eqb_eq. lia.
  - rewrite Hgt. destruct (dlt sc e.1) eqn:E; [pose proof (dlt_trans _ _ _ Hgt E) as Hx; by rewrite dlt_irrefl in Hx|]. destruct (deq e.1 sc) eqn:E2; [|done]. by destruct (dlt_deq_no _ _ Hgt E2).
Qed.

Section insert.
Context (zl : list Z) (L : list pair) (Hzl : zzl_ok zl L) (Hd : doubles L) (Hs : sorted L).
Context (sc : double) (o : bytes) (Hsc : is_double sc) (He : elt_ok (sc, o)) (Hn : o ∉ L.*2) (Hr : zroom L o).

Lemma insert_loop_ok fuel : forall j cur, cursor_at zl L j cur -> (j <= prefix_len (before sc o) L)%nat -> (length L - j < fuel)%nat ->
  exists zl', zzl_insert_loop uninit fuel zl (fst <$> cur) o sc = Some zl' /\ zzl_ok zl' (spec_insert sc o L).
Proof using Hzl Hd Hs Hsc He Hn Hr.
  pose proof (prefix_len_bound (before sc o) L) as Hb. unfold spec_insert. set (p := prefix_len (before sc o) L) in *. induction fuel as [|fuel IH]; intros j cur Hc Hj Hf; [lia|]. destruct cur as [[q sq]|]; cbn [cursor_at] in Hc.
  - destruct (at_reads zl L Hd j q sq Hc) as (e & Hje & Hnx & Ho & Hsc' & _). cbn [zzl_insert_loop fmap option_fmap option_map fst]. rewrite Hnx. cbn [mbind option_bind]. rewrite Hsc'. cbn [mbind option_bind].
    unfold zzlCompareElements. rewrite Ho. cbn [mbind option_bind]. pose proof (list_elem_of_lookup_2 _ _ _ Hje) as Hin. pose proof (so_ok _ Hs) as Hok. rewrite Forall_forall in Hok.
    assert (e.2 <> o) as Hne by (intros <-; apply Hn, list_elem_of_fmap; by exists e). pose proof (here_before sc o e He (Hok e Hin) Hne) as Hh.
    assert ((if dlt sc e.1 then Some true else if deq e.1 sc then Some (compareDecoded e.2 o >? 0) else Some false) = Some (negb (before sc o e))) as -> by (rewrite <- Hh; destruct (dlt sc e.1), (deq e.1 sc); done).
    cbn [mbind option_bind]. rewrite (prefix_len_iff L (before sc o) j e (before_downward L sc o Hs He) Hje). fold p. apply lookup_lt_Some in Hje as Hlt. destruct (bool_decide_reflect (j < p)%nat) as [Hjp|Hjp]; cbn [negb].
    + destruct (next_cursor zl L j q sq Hc) as (r & _ & Hr' & ->). cbn [mbind option_bind]. apply (IH (S j)); [done|lia|lia].
    + assert (j = p) as -> by lia. destruct Hc as (x & _ & Hp & _). rewrite <- (take_drop p L) in Hzl, Hd, Hr. apply (zplace_of zl _ _ q Hzl) in Hp. rewrite (drop_S L e p Hje) in *.
      destruct (insertAt_ok zl (take p L) e (drop (S p) L) q sc o Hp Hd Hsc Hr) as (zl' & -> & Hp'). exists zl'. split; [done|]. by eapply zplace_ok.
  - cbn [fmap option_fmap option_map zzl_insert_loop]. rewrite take_ge, drop_ge by lia. by apply appendAt_ok.
Qed.

Lemma zzlInsert_ok : exists zl', zzlInsert uninit zl o sc = Some zl' /\ zzl_ok zl' (spec_insert sc o L).
Proof using Hzl Hd Hs Hsc He Hn Hr.
  pose proof (zzl_ok_list zl L Hzl) as Hl. unfold zzlInsert. destruct (index_first zl L Hl) as (cur & -> & Hc & _). cbn [mbind option_bind].
  apply (insert_loop_ok _ 0); [done|lia|]. pose proof (zzl_few zl L Hl). lia.
Qed.
End insert.

(** ** The deletion of a range *)

Section delete.
Context (lte : list Z -> Z -> option bool) (f : pair -> bool).
Context (Hlte : forall zl L j p sp e, doubles L -> at_index zl L j p sp -> L !! j = Some e -> lte zl p = Some (f e)).

Lemma delete_loop_ok M : forall fuel zl L1 L2 p num, zplace zl L1 (M ++ L2) p -> doubles (L1 ++ M ++ L2) -> zroom (L1 ++ M ++ L2) [] ->
  Forall (fun e => f e = true) M -> (forall e, head L2 = Some e -> f e = false) -> (length M < fuel)%nat -> 0 <= num -> num + zlen M < 2 ^ 64 ->
  exists zl', zzl_delete_loop uninit fuel lte zl p num = Some (zl', num + zlen M) /\ zplace zl' L1 L2 p.
Proof using Hlte.
  induction M as [|e M IH]; intros fuel zl L1 L2 p num Hp Hd Hr HM HL2 Hf Hn Hnum; (destruct fuel as [|fuel]; [cbn in Hf; lia|]); cbn [zzl_delete_loop].
  - cbn [app] in *. change (zlen []) with 0. rewrite Z.add_0_r. exists zl. split; [|done]. destruct L2 as [|e L2]; [by rewrite (next_end zl _ p (zplace_place _ _ _ _ Hp))|].
    pose proof (zplace_place _ _ _ _ Hp) as Hpl. destruct (at_place zl (L1 ++ e :: L2) (length L1) e p) as (sp & -> & Hat); [by apply list_lookup_middle|by rewrite take_app_length, drop_app_length|]. cbn [mbind option_bind].
    rewrite (Hlte zl _ _ p sp e Hd Hat) by by apply list_lookup_middle. cbn [mbind option_bind]. by rewrite HL2.
  - apply Forall_cons in HM as [He HM]. cbn [app] in *. pose proof (zplace_place _ _ _ _ Hp) as Hpl. destruct (at_place zl (L1 ++ e :: M ++ L2) (length L1) e p) as (sp & -> & Hat); [by apply list_lookup_middle|by rewrite take_app_length, drop_app_length|]. cbn [mbind option_bind].
    rewrite (Hlte zl _ _ p sp e Hd Hat) by by apply list_lookup_middle. cbn [mbind option_bind]. rewrite He.
    destruct (zzlDelete_ok zl L1 e (M ++ L2) p Hp Hd Hr) as (zl1 & Hrun & Hp1). unfold zzlDelete in Hrun. apply bind_Some in Hrun as (zl0 & -> & Hrun). cbn [mbind option_bind]. rewrite Hrun. cbn [mbind option_bind].
    rewrite zlen_cons in *. pose proof (zlen_nonneg M). rewrite uwrap_small by lia. replace (num + (1 + zlen M)) with (num + 1 + zlen M) by lia. apply IH; try done; try lia.
    + unfold doubles in *. rewrite !Forall_app, ?Forall_cons, ?Forall_app in *. tauto.
    + unfold zroom in *. rewrite zweight_mid in Hr. pose proof (zlen_nonneg e.2). lia.
    + cbn in Hf. lia.
Qed.

Lemma delete_range_place zl L g eptr : zzl_ok zl L -> doubles L -> zroom L [] -> downward L (fun e => negb (g e)) -> downward L f -> first_found zl L g f eptr ->
  exists zl', zzl_delete_range uninit (Some eptr) lte zl = Some (zl', zlen (List.filter (fun e => g e && f e) L)) /\ zzl_ok zl' (List.filter (fun e => negb (g e && f e)) L).
Proof using Hlte.
  intros Hzl Hd Hr Hup Hdown Hfound. rewrite (filter_segment_not g f L _ _ (g_here L g Hup) (f_here L f Hdown)), (inside_segment L g f Hup Hdown). destruct (bounds L g f) as [Hlo Hhi].
  set (lo := prefix_len (fun e => negb (g e)) L) in *. set (hi := prefix_len f L) in *. unfold zzl_delete_range. cbn [mbind option_bind]. destruct eptr as [p|]; cbn [first_found] in Hfound; fold lo hi in Hfound.
  - destruct Hfound as (Hlt & sp & e & He & Hp & _). set (M := drop lo (take hi L)) in *. assert (L = take lo L ++ M ++ drop hi L) as HL.
    { rewrite <- (take_drop lo L) at 1. f_equal. unfold M. rewrite <- (take_drop (hi - lo) (drop lo L)), drop_drop at 1. rewrite take_drop_commute. do 2 f_equal; f_equal; lia. }
    assert (drop lo L = M ++ drop hi L) as Hdl by (rewrite HL at 1; by rewrite drop_app_length' by (rewrite length_take; lia)). rewrite Hdl in Hp.
    assert (length M = hi - lo)%nat as HlM by (unfold M; rewrite length_drop, length_take; lia). pose proof (zzl_few zl L (zzl_ok_list zl L Hzl)) as [Hfuel Hfew]. unfold zlen in Hfew.
    rewrite HL in Hzl, Hd, Hr. apply (zplace_of zl _ _ p Hzl) in Hp. destruct (delete_loop_ok M (S (length zl)) zl (take lo L) (drop hi L) p 0 Hp Hd Hr) as (zl' & -> & Hp').
    + apply Forall_lookup. intros i x Hi. unfold M in Hi. rewrite lookup_drop in Hi. apply lookup_take_Some in Hi as [Hi Hlt2]. rewrite (f_here L f Hdown _ x Hi). fold hi. by apply bool_decide_eq_true_2.
    + intros x Hx. rewrite head_lookup, lookup_drop in Hx. rewrite (f_here L f Hdown _ x Hx). fold hi. apply bool_decide_eq_false_2. lia.
    + lia.
    + lia.
    + unfold zlen. lia.
    + exists zl'. split; [done|]. replace (lo + (hi - lo))%nat with hi by lia. by apply zplace_ok in Hp'.
  - exists zl. rewrite drop_ge by (rewrite length_take; lia). split; [done|]. replace (hi - lo)%nat with 0%nat by lia. by rewrite Nat.add_0_r, take_drop.
Qed.
End delete.

Lemma zzlDeleteRangeByRank_ok zl L a b : zzl_ok zl L -> doubles L -> zroom L [] -> 0 <= a <= b -> b < zlen L -> room L ->
  exists zl', zzlDeleteRangeByRank uninit zl (a + 1) (b + 1) = Some (zl', b - a + 1) /\ zzl_ok zl' (take (Z.to_nat a) L ++ drop (Z.to_nat (b + 1)) L).
Proof using Type.
  intros Hzl Hd Hr Hab Hb Hroom. unfold room in Hroom. unfold zzlDeleteRangeByRank, ziplistDeleteRange. replace (a + 1 - 1) with a by lia. replace (b + 1 - (a + 1)) with (b - a) by lia.
  rewrite (uwrap_small 32 a), (uwrap_small 32 (b - a)), (uwrap_small 32 (b - a + 1)), (uwrap_small 32 (2 * a)), (uwrap_small 32 (2 * (b - a + 1))) by lia. rewrite swrap_small by (unfold sfits; lia).
  set (i := Z.to_nat a). set (k := Z.to_nat (b + 1)). assert (length L = i + (k - i) + (length L - k))%nat as HlL by (unfold i, k, zlen in *; lia).
  destruct (lookup_lt_is_Some_2 L i) as [e He]; [unfold i, k, zlen in *; lia|]. destruct (index_member zl L (zzl_ok_list zl L Hzl) (2 * a) i e He) as (p & sp & -> & _ & Hat); [unfold i; destruct (Z.ltb_spec (2 * a) 0); lia|].
  cbn [mbind option_bind]. destruct Hat as (x & _ & Hp & _). assert (zzl_ok zl (take i L ++ drop i L)) as Hzl' by by rewrite take_drop. apply (zplace_of zl _ _ p Hzl') in Hp as (n & ea & eb & Hrep & Hta & Htb & Haa & Hab' & ->).
  assert (length eb = 2 * (length L - i))%nat as Hleb by (rewrite <- (length_map text eb), Htb, texts_length, length_drop; lia).
  set (d := (2 * (k - i))%nat). rewrite <- (take_drop d eb) in Hrep, Hab'.
  assert (zlen (take d eb) = 2 * (b - a + 1)) as Hzd by (unfold zlen; rewrite length_take; unfold d, i, k, zlen in *; lia).
  destruct (delete_entries uninit zl n ea (take d eb) (drop d eb) (2 * (b - a + 1)) Hrep) as (zl' & n' & Hrun & Hrep').
  - intros H0. rewrite H0 in Hzd. change (zlen []) with 0 in Hzd. lia.
  - lia.
  - right. lia.
  - rewrite take_drop in *. pose proof (ziplist_ok_weight _ _ (rep_ziplist_ok _ _ _ Hrep)) as Hw. assert (map text (ea ++ eb) = texts L) as Ht by (rewrite map_app, Hta, Htb, <- texts_app, take_drop; done).
    rewrite Ht in Hw. rewrite <- (zlen_map text (ea ++ eb)), Ht, zlen_texts. pose proof (zweight_texts L Hd). pose proof (zweight_pos L). unfold zroom in Hr. change (zlen []) with 0 in Hr. lia.
  - rewrite Hrun. cbn [mbind option_bind]. exists zl'. split; [done|]. exists n', (ea ++ settle (end_size 0 ea) (drop d eb)). split; [done|].
    assert (map text (drop d eb) = texts (drop k L)) as Htd.
    { change (map text (drop d eb)) with (text <$> drop d eb). rewrite fmap_drop. change (text <$> eb) with (map text eb). rewrite Htb. unfold d. destruct (take_texts (drop i L) (k - i)) as [_ ->]; [rewrite length_drop; lia|].
      rewrite drop_drop. do 2 f_equal. unfold i, k. lia. }
    split; [by rewrite map_app, settle_texts, Hta, Htd, texts_app|]. pose proof (texts_even ea _ Hta) as Hev. apply (alt_app _ ea _ Hev). split; [done|].
    pose proof (rep_ok _ _ _ Hrep) as Hok. rewrite !Forall_app in Hok. apply settle_alt; [by eapply end_size_alt|apply Hok|]. apply alt_tail.
    apply (alt_app (k - i) (take d eb)) in Hab' as [_ Hx]; [done|]. rewrite length_take. unfold d, i, k, zlen in *. lia.
Qed.
End writes.
