(* ===== verification/ZzlObject.v ===== *)
(** * Sorted sets with either encoding (src/redis-2.8.19/src/t_zset.c)

    A ziplist or a skip list with its dictionary, and the conversions between them: both
    stand for a sorted list, and every operation of either is that of the list. *)
From S2P Require Import Prelude Util Sds Object Dict DictIter DictBound Ziplist ZiplistSpec HashType HashTypeSpec Zskiplist ZskiplistSpec ZskiplistOrder ZskiplistOps ZskiplistRange Zset ZsetSpec ZsetRange Zzl ZzlSpec ZzlRead ZzlWrite.
Open Scope Z_scope.

(** ** What stays in a list *)

Lemma filter_sublist {A} (f : A -> bool) l : List.filter f l `sublist_of` l.
Proof. induction l as [|a l IH]; [done|]. cbn [List.filter]. destruct (f a); [by apply sublist_skip|by apply sublist_cons]. Qed.

Lemma index_remove o L q : NoDup L.*2 -> spec_index o L = Some q -> take q L ++ drop (S q) L = spec_remove o L.
Proof.
  unfold spec_index, spec_remove. revert q. induction L as [|[s o'] l IH]; intros q; [done|]. cbn [fmap list_fmap snd prefix_len length List.filter]. intros [Ho Hn]%NoDup_cons. case_bool_decide as Heq; cbn [negb].
  - subst o'. intros [= <-]. cbn [take drop app]. rewrite drop_0. clear - Ho. induction l as [|[s' o'] l IH]; [done|].
    cbn [fmap list_fmap snd List.filter] in *. apply not_elem_of_cons in Ho as [Hne Ho]. rewrite bool_decide_eq_false_2 by congruence. cbn [negb]. f_equal. by apply IH.
  - change (S ?x <? S ?y)%nat with (x <? y)%nat. destruct (_ <? _)%nat eqn:Hlt; [|done]. intros [= <-]. cbn [take drop app]. f_equal. apply IH; [done|]. done.
Qed.

Lemma index_out o L : spec_index o L = None -> o ∉ L.*2.
Proof.
  unfold spec_index. induction L as [|[s o'] l IH]; [intros _; apply not_elem_of_nil|]. cbn [fmap list_fmap snd prefix_len length]. case_bool_decide as Heq; cbn [negb]; [done|].
  change (S ?x <? S ?y)%nat with (x <? y)%nat. destruct (_ <? _)%nat eqn:Hlt; [done|]. intros _. rewrite not_elem_of_cons. split; [congruence|]. apply IH. done.
Qed.

Lemma remove_out o L : o ∉ (spec_remove o L).*2.
Proof.
  unfold spec_remove. induction L as [|[s o'] l IH]; [apply not_elem_of_nil|]. cbn [List.filter snd]. case_bool_decide as Heq; cbn [negb]; [done|]. cbn [fmap list_fmap snd]. rewrite not_elem_of_cons. split; [congruence|done].
Qed.

Lemma remove_absent o L : o ∉ L.*2 -> spec_remove o L = L.
Proof.
  unfold spec_remove. induction L as [|[s o'] l IH]; [done|]. cbn [fmap list_fmap snd List.filter]. intros [Hne Ho]%not_elem_of_cons. rewrite bool_decide_eq_false_2 by congruence. cbn [negb]. f_equal. by apply IH.
Qed.

Lemma remrange_sublist rg L : (spec_remrange rg L).1 `sublist_of` L.
Proof.
  destruct rg as [i j|r|r]; cbn [spec_remrange]; [|apply filter_sublist..]. destruct (sanitize _ _ _) as [[a b]|] eqn:Hs; [|done]. apply sanitize_bounds in Hs. cbn [fst].
  replace (Z.to_nat (b + 1)) with (Z.to_nat a + (Z.to_nat (b + 1) - Z.to_nat a))%nat by lia. apply cut_sublist.
Qed.

(** A new last element. *)
Lemma insert_last_elt L e : sorted (L ++ [e]) -> spec_insert e.1 e.2 L = L ++ [e].
Proof.
  intros Hs. unfold spec_insert. assert (prefix_len (before e.1 e.2) L = length L) as ->.
  { pose proof (prefix_len_bound (before e.1 e.2) L) as Hb. destruct (decide (prefix_len (before e.1 e.2) L = length L)) as [|Hne]; [done|].
    destruct (lookup_lt_is_Some_2 L (prefix_len (before e.1 e.2) L)) as [x Hx]; [lia|]. pose proof (prefix_len_stop _ _ _ Hx) as Hf.
    pose proof (so_ok _ Hs) as Hok. rewrite Forall_app, Forall_cons in Hok. destruct Hok as (Hok & He & _). rewrite Forall_lookup in Hok.
    assert (before e.1 e.2 x = true) as Ht; [|by rewrite Ht in Hf]. apply before_iff; [by destruct e|by eapply Hok|]. rewrite <- surjective_pairing.
    apply (sorted_lookup (L ++ [e]) (prefix_len (before e.1 e.2) L) (length L) _ _ Hs); [lia|by apply lookup_app_l_Some|by apply list_lookup_middle]. }
  rewrite take_ge, drop_ge by done. by destruct e.
Qed.

Lemma sorted_prefix k L : sorted L -> sorted (take k L).
Proof. apply sorted_sublist, sublist_take. Qed.

Lemma zweight_sublist k L : k `sublist_of` L -> zweight k <= zweight L.
Proof. induction 1 as [|e k L _ IH|e k L _ IH]; [done| |]; cbn [zweight foldr]; fold (zweight k) (zweight L); pose proof (zlen_nonneg e.2); lia. Qed.

Lemma zroom_sublist k L o : k `sublist_of` L -> zroom L o -> zroom k o.
Proof. intros H%zweight_sublist. unfold zroom. lia. Qed.

Lemma zlen_sublist {A} (k L : list A) : k `sublist_of` L -> zlen k <= zlen L.
Proof. intros H%sublist_length. unfold zlen. lia. Qed.

Lemma Forall_sublist {A} (P : A -> Prop) k L : k `sublist_of` L -> Forall P L -> Forall P k.
Proof. intros H. rewrite !Forall_forall. intros HP x Hx. apply HP. by eapply sublist_subseteq. Qed.

Lemma insert_perm sc o L : spec_insert sc o L ≡ₚ (sc, o) :: L.
Proof. unfold spec_insert. by rewrite <- Permutation_middle, take_drop. Qed.

(** ** The object *)

Section object.
Context {D : Doubles} (uninit : nat -> Z).
Context (junk : option nat * Z) (hash : bytes -> Z) (can_resize : bool).
Context (alloc : gmap nat zskiplistNode -> nat) (fadd : double -> double -> double).
Context (max_entries max_value : Z).

(** A ziplist keeps to the limits of the configuration. *)
Definition limits (L : list pair) : Prop := zlen L <= max_entries /\ Forall (fun e => zlen e.2 <= max_value) L.

Inductive zobj_repr : zobj -> list pair -> Prop :=
  | repr_zl zl L : zzl_ok zl L -> sorted L -> doubles L -> limits L -> zobj_repr (ZsetZiplist zl) L
  | repr_sl zs L : zset_repr hash zs L -> doubles L -> zobj_repr (ZsetSkiplist zs) L.

Definition encoded (o : zobj) : zencoding := match o with ZsetZiplist _ => REDIS_ENCODING_ZIPLIST | ZsetSkiplist _ => REDIS_ENCODING_SKIPLIST end.

Lemma createZsetZiplist_ok : 0 <= max_entries -> exists o, createZsetZiplistObject uninit = Some o /\ zobj_repr o [].
Proof using Type.
  intros Hm. unfold createZsetZiplistObject. destruct (new_ok uninit) as (zl & -> & Hzl). eexists. split; [done|]. constructor; [|split; constructor|constructor|split; [done|constructor]].
  apply ziplist_ok_rep in Hzl as (n & es & H & Hes). apply map_eq_nil in Hes as ->. by exists n, [].
Qed.

Lemma zzlLength_ok zl L : zzl_ok zl L -> exists zl', zzlLength zl = Some (zlen L, zl') /\ zzl_ok zl' L.
Proof using Type.
  intros (n & es & H & Hes & Halt). unfold zzlLength. destruct (length_entries zl n es H) as (zl' & n' & -> & H'). cbn [mbind option_bind]. exists zl'. split; [|by exists n', es].
  rewrite <- (zlen_map text es), Hes, zlen_texts, Z.mul_comm, Z.div_mul by done. done.
Qed.

Lemma zset_repr_sorted zs L : zset_repr hash zs L -> sorted L.
Proof using Type. intros (l & H & <-). apply (iz_sorted _ _ (zk_zsl _ _ _ H)). Qed.

Context (alloc_fresh : forall h, h !! alloc h = None).

(** *** Conversions *)

Section to_skiplist.
Context (zl : list Z) (L : list pair) (Hzl : zzl_ok zl L) (Hs : sorted L) (Hd : doubles L) (Hfew : zlen L <= 2 ^ 29).
Context (rnds : nat -> list Z) (Hrnds : forall i, rnd_ok (rnds i)).

Lemma to_skiplist_loop_ok fuel : forall i j cur zs, cursor_at zl L j cur -> zset_repr hash zs (take j L) -> (length L - j < fuel)%nat ->
  exists zs', to_skiplist_loop junk hash can_resize alloc fuel i rnds zl cur zs = Some zs' /\ zset_repr hash zs' L.
Proof using Hs Hd Hfew Hrnds alloc_fresh.
  induction fuel as [|fuel IH]; intros i j cur zs Hc Hz Hf; [lia|]. destruct cur as [[p sp]|]; cbn [cursor_at to_skiplist_loop] in *.
  - destruct (at_reads zl L Hd j p sp Hc) as (e & He & _ & -> & -> & _). cbn [mbind option_bind]. destruct Hz as (l & Hz & Hl). pose proof (take_S_r _ _ _ He) as Ht. apply lookup_lt_Some in He as Hlt.
    assert (sorted (take j L ++ [e])) as Hse by (rewrite <- Ht; by apply sorted_prefix). assert (elt_ok (e.1, e.2) /\ e.2 ∉ l.*2.*2) as [Heok Hout].
    { pose proof (so_ok _ Hse) as Hok. rewrite Forall_app, Forall_cons in Hok. split; [rewrite <- surjective_pairing; apply Hok|]. pose proof (so_distinct _ Hse) as Hnd. rewrite fmap_app in Hnd. apply NoDup_app in Hnd as (_ & Hnd & _). rewrite Hl. intros Hin. apply (Hnd e.2 Hin). by left. }
    assert (room l.*2) as Hr by (rewrite Hl; unfold room, zlen in *; rewrite length_take; lia).
    destruct (add_new junk hash can_resize alloc alloc_fresh (rnds i) zs l e.1 e.2 Hz Hr Heok Hout (Hrnds i)) as (zl' & d' & -> & Hadd & H'). cbn [mbind option_bind]. rewrite Hadd. cbn [mbind option_bind].
    destruct (next_cursor zl L j p sp Hc) as (r & -> & Hr' & _). cbn [mbind option_bind]. apply (IH (S i) (S j)); [done| |lia].
    exists (placed (alloc (heap (zsl zs))) (e.1, e.2) l). split; [done|]. rewrite placed_pairs, Hl. cbn [fst snd]. by rewrite insert_last_elt, Ht.
  - exists zs. split; [done|]. by rewrite take_ge in Hz by done.
Qed.

Lemma to_skiplist_ok : L <> [] -> exists zs, zsetConvert uninit junk hash can_resize alloc rnds (ZsetZiplist zl) REDIS_ENCODING_SKIPLIST = Some (ZsetSkiplist zs) /\ zset_repr hash zs L.
Proof using Hzl Hs Hd Hfew Hrnds alloc_fresh.
  intros Hne. cbn [zsetConvert]. pose proof (zzl_ok_list zl L Hzl) as Hl. destruct (index_first zl L Hl) as (cur & -> & Hc & Hcur). destruct (Hcur Hne) as (p & sp & -> & Hn). cbn [fmap option_fmap option_map fst mbind option_bind].
  rewrite Hn. cbn [mbind option_bind]. destruct (to_skiplist_loop_ok (S (length zl)) 0 0 (Some (p, sp)) (createZsetObject junk alloc) Hc) as (zs & -> & H); [apply create_repr|pose proof (zzl_few zl L Hl); lia|].
  by exists zs.
Qed.
End to_skiplist.

Section to_ziplist.
Context (zs : zset) (l : list elt) (H : zset_ok hash zs l) (Hd : doubles l.*2) (Hr : zroom l.*2 []).
Abbreviation h := (heap (zsl zs)).

Lemma to_ziplist_loop_ok fuel : forall q h' z, (forall a, a ∈ drop q l.*1 -> h' !! a = h !! a) -> zzl_ok z (take q l.*2) -> (length l - q < fuel)%nat ->
  exists z', to_ziplist_loop uninit fuel h' (fst <$> l !! q) z = Some z' /\ zzl_ok z' l.*2.
Proof using H Hd Hr.
  pose proof (zk_zsl _ _ _ H) as Hz. pose proof (z_ok _ _ Hz) as Hok. induction fuel as [|fuel IH]; intros q h' z Hh Hzq Hf; [lia|]. destruct (l !! q) as [[a [s o]]|] eqn:Hq; cbn [fmap option_fmap option_map fst to_ziplist_loop].
  - assert (l.*1 !! q = Some a) as Ha by by rewrite list_lookup_fmap, Hq. pose proof (drop_S _ _ _ Ha) as Hda. rewrite Hda in Hh.
    destruct (node_at (zsl zs) l Hz q a s o Hq) as (n & Hn & Ho & Hsc). rewrite (Hh a), Hn by by left. cbn [mbind option_bind]. rewrite Ho. cbn [mbind option_bind]. rewrite Hsc.
    assert (l.*2 !! q = Some (s, o)) as Hp by by rewrite list_lookup_fmap, Hq. pose proof (take_S_r _ _ _ Hp) as Ht. apply lookup_lt_Some in Hq as Hlt.
    assert (doubles (take q l.*2)) as Hdq by by apply Forall_take. assert (is_double s) as Hsd by (unfold doubles in Hd; rewrite Forall_lookup in Hd; apply (Hd q _ Hp)).
    assert (zroom (take q l.*2) o) as Hrq.
    { assert (zweight (take (S q) l.*2) <= zweight l.*2) as Hw by apply zweight_sublist, sublist_take. rewrite Ht, zweight_mid, app_nil_r in Hw. unfold zroom in *. change (zlen []) with 0 in Hr. cbn [snd] in Hw. lia. }
    destruct (appendAt_ok uninit z _ s o Hzq Hdq Hsd Hrq) as (z' & -> & Hz'). cbn [mbind option_bind].
    assert (lev h' a 0 = lev h a 0) as -> by (unfold lev; rewrite (Hh a); [done|by left]). rewrite (lev_0 (zsl zs) l Hok (S q) a) by by rewrite nodes_S, Hq. cbn [mbind option_bind]. rewrite nodes_S.
    apply IH; [|by rewrite Ht|lia]. intros b Hb. unfold zslFreeNode. rewrite lookup_delete_ne; [apply Hh; by right|]. intros ->.
    pose proof (zo_nodup _ _ Hok) as [_ Hnd]%NoDup_cons. rewrite <- (take_drop q l.*1), Hda in Hnd. apply NoDup_app in Hnd as (_ & _ & Hnd). by apply NoDup_cons in Hnd as [? _].
  - exists z. split; [done|]. apply lookup_ge_None_1 in Hq. rewrite take_ge in Hzq; [done|]. by rewrite length_fmap.
Qed.

Lemma to_ziplist_ok rnds : exists zl, zsetConvert uninit junk hash can_resize alloc rnds (ZsetSkiplist zs) REDIS_ENCODING_ZIPLIST = Some (ZsetZiplist zl) /\ zzl_ok zl l.*2.
Proof using H Hd Hr.
  pose proof (zk_zsl _ _ _ H) as Hz. pose proof (z_ok _ _ Hz) as Hok. cbn [zsetConvert]. destruct (new_ok uninit) as (z & -> & Hz0). cbn [mbind option_bind]. rewrite (lev_0 (zsl zs) l Hok 0 (header (zsl zs)) eq_refl). cbn [mbind option_bind]. rewrite nodes_S.
  destruct (to_ziplist_loop_ok (S (base.size h)) 0 (delete (header (zsl zs)) h) z) as (z' & -> & H').
  - intros a Ha. rewrite lookup_delete_ne; [done|]. intros <-. pose proof (zo_nodup _ _ Hok) as [Hh _]%NoDup_cons. by rewrite drop_0 in Ha.
  - rewrite take_0. apply ziplist_ok_rep in Hz0 as (n & es & Hrep & Hes). apply map_eq_nil in Hes as ->. by exists n, [].
  - rewrite (ok_size _ _ Hok). lia.
  - by exists z'.
Qed.
End to_ziplist.

(** [zsetConvert] changes the encoding and nothing else. *)
Lemma zsetConvert_ok rnds o L enc : zobj_repr o L -> L <> [] -> zroom L [] -> zlen L <= 2 ^ 29 -> (forall i, rnd_ok (rnds i)) -> (enc = REDIS_ENCODING_ZIPLIST -> limits L) ->
  exists o', zsetConvert uninit junk hash can_resize alloc rnds o enc = Some o' /\ zobj_repr o' L /\ encoded o' = enc.
Proof using alloc_fresh.
  intros Ho Hne Hr Hfew Hrnds Hlim. destruct Ho as [zl L Hzl Hs Hd Hl|zs L Hz Hd], enc.
  - exists (ZsetZiplist zl). split; [done|]. by split; [constructor|].
  - destruct (to_skiplist_ok zl L Hzl Hs Hd Hfew rnds Hrnds Hne) as (zs & -> & Hz). exists (ZsetSkiplist zs). split; [done|]. by split; [constructor|].
  - pose proof (zset_repr_sorted zs L Hz) as Hs. destruct Hz as (l & Hz & <-). destruct (to_ziplist_ok zs l Hz Hd Hr rnds) as (zl & -> & Hzl). exists (ZsetZiplist zl). split; [done|]. split; [constructor; auto|done].
  - exists (ZsetSkiplist zs). split; [done|]. by split; [constructor|].
Qed.
End object.
