(* ===== verification/ZzlSession.v ===== *)
(** * Sorted sets with either encoding: the operations (src/redis-2.8.19/src/t_zset.c)

    The branches of the commands on a ziplist, each with what it does to the list, and a
    session with an object that changes its encoding on the way. *)
From S2P Require Import Prelude Util Sds Object Dict DictIter DictBound Ziplist ZiplistSpec HashType HashTypeSpec Zskiplist ZskiplistSpec ZskiplistOrder ZskiplistOps ZskiplistRange Zset ZsetSpec ZsetRange Zzl ZzlSpec ZzlRead ZzlWrite ZzlObject.
Open Scope Z_scope.

(** ** The ends of the two kinds of ranges *)

(** The tests of the model, in terms of the elements. *)
Section tests.
Context {D : Doubles} (zl : list Z) (L : list pair) (Hd : doubles L) (j : nat) (p sp : Z) (e : pair) (Hat : at_index zl L j p sp) (He : L !! j = Some e).

Lemma gte_score_at r : gte_score r zl p = Some (score_gte r e).
Proof using Hd Hat He. by apply (score_test_ok zl L Hd (fun sc => zslValueGteMin sc r) j p sp). Qed.

Lemma lte_score_at r : lte_score r zl p = Some (score_lte r e).
Proof using Hd Hat He. by apply (score_test_ok zl L Hd (fun sc => zslValueLteMax sc r) j p sp). Qed.

Lemma gte_lex_at r : zzlLexValueGteMin r zl p = Some (lex_gte r e).
Proof using Hd Hat He. by apply (lex_test_ok zl L Hd (fun o => zslLexValueGteMin o r) j p sp). Qed.

Lemma lte_lex_at r : zzlLexValueLteMax r zl p = Some (lex_lte r e).
Proof using Hd Hat He. by apply (lex_test_ok zl L Hd (fun o => zslLexValueLteMax o r) j p sp). Qed.
End tests.

Section ends.
Context {D : Doubles} (zl : list Z) (L : list pair) (Hd : doubles L) (Hzl : ziplist_ok zl (texts L)) (Hs : sorted L).

Lemma score_ends r : (exists e, zzlFirstInRange zl r = Some e /\ first_found zl L (score_gte r) (score_lte r) e) /\ (exists e, zzlLastInRange zl r = Some e /\ last_found zl L (score_gte r) (score_lte r) e).
Proof using Hd Hzl Hs.
  pose proof (score_range_ok r L Hs) as Hr. pose proof (zzlIsInRange_ok zl L Hd Hzl r Hr) as Hin. pose proof (ro_up _ _ _ _ Hr) as Hup. pose proof (ro_down _ _ _ _ Hr) as Hdown.
  split; [apply zzl_first_ok|apply zzl_last_ok]; try done; intros; (by eapply gte_score_at) || (by eapply lte_score_at).
Qed.

Lemma lex_ends r : flat_scores L -> lex_ok r ->
  (exists e, zzlFirstInLexRange zl r = Some e /\ first_found zl L (lex_gte r) (lex_lte r) e) /\ (exists e, zzlLastInLexRange zl r = Some e /\ last_found zl L (lex_gte r) (lex_lte r) e).
Proof using Hd Hzl Hs.
  intros Hf Hx. pose proof (lex_range_ok r L Hs Hf Hx) as Hr. pose proof (zzlIsInLexRange_ok zl L Hd Hzl r Hr) as Hin. pose proof (ro_up _ _ _ _ Hr) as Hup. pose proof (ro_down _ _ _ _ Hr) as Hdown.
  split; [apply zzl_first_ok|apply zzl_last_ok]; try done; intros; (by eapply gte_lex_at) || (by eapply lte_lex_at).
Qed.
End ends.

(** ** The operations *)

Section object.
Context {D : Doubles} (uninit : nat -> Z).
Context (junk : option nat * Z) (hash : bytes -> Z) (can_resize : bool).
Context (alloc : gmap nat zskiplistNode -> nat) (fadd : double -> double -> double).
Context (max_entries max_value : Z).
Context (alloc_fresh : forall h, h !! alloc h = None).
(** A sum of doubles is a double, or not a number. *)
Context (fadd_double : forall x y, is_double x -> is_double y -> isnan (fadd x y) = false -> is_double (fadd x y)).

Abbreviation repr := (zobj_repr hash max_entries max_value).

(** What the ziplist needs, besides what the sorted set needs. *)
Definition zobj_pre (L : list pair) (op : zop) : Prop :=
  op_pre L op /\ zroom L [] /\
  match op with
  | OAdd _ _ sc ele => is_double sc /\ zroom L ele
  | ORank _ _ => L <> []
  | _ => True
  end.

(** *** Additions *)

Lemma added_doubles sc o L : doubles L -> is_double sc -> doubles (spec_insert sc o L).
Proof using Type. intros Hd Hsc. unfold doubles. rewrite insert_perm. by constructor. Qed.

Lemma double_elt sc o : is_double sc -> short o -> elt_ok (sc, o).
Proof using Type. intros Hsc Ho. split; [by apply is_double_num|done]. Qed.

(** The score that a member gets. *)
Lemma new_score incr sc cur : is_double sc -> is_double cur -> let sc' := if incr : bool then fadd sc cur else sc in (incr && isnan sc' = true) \/ (incr && isnan sc' = false /\ is_double sc').
Proof using fadd_double.
  intros Hsc Hcur. destruct incr; cbn [andb]; [|by right]. destruct (isnan (fadd sc cur)) eqn:Hn; [by left|right]. split; [done|]. by apply fadd_double.
Qed.

Lemma zadd_doubles incr sc o L : doubles L -> is_double sc -> doubles (spec_add fadd incr sc o L).1.
Proof using fadd_double.
  intros Hd Hsc. unfold spec_add. destruct (spec_score o L) as [cur|] eqn:Hc; [|by apply added_doubles].
  assert (is_double cur) as Hcur.
  { unfold spec_score in Hc. apply fmap_Some in Hc as (e & He & ->). rewrite head_lookup in He. apply list_elem_of_lookup_2 in He. apply (sublist_subseteq _ _ (filter_sublist _ _)) in He. unfold doubles in Hd. rewrite Forall_forall in Hd. by apply Hd. }
  destruct (new_score incr sc cur Hsc Hcur) as [->|[-> Hd']]; [done|]. destruct (deq _ _); [done|]. apply added_doubles; [|done]. by eapply Forall_sublist; [apply filter_sublist|].
Qed.

(** The limits decide the encoding after an insertion. *)
Lemma after_insert rnds zl L o : zzl_ok zl L -> sorted L -> doubles L -> L <> [] -> zlen L <= 2 ^ 29 -> (forall i, rnd_ok (rnds i)) ->
  Forall (fun e => e.2 = o \/ zlen e.2 <= max_value) L ->
  exists zl' ob ob', zzlLength zl = Some (zlen L, zl') /\
    (if zlen L >? max_entries then zsetConvert uninit junk hash can_resize alloc rnds (ZsetZiplist zl') REDIS_ENCODING_SKIPLIST else Some (ZsetZiplist zl')) = Some ob /\
    (if zlen o >? max_value then zsetConvert uninit junk hash can_resize alloc rnds ob REDIS_ENCODING_SKIPLIST else Some ob) = Some ob' /\ repr ob' L.
Proof using alloc_fresh.
  intros Hzl Hs Hd Hne Hfew Hrnds Hv. destruct (zzlLength_ok zl L Hzl) as (zl' & Hlen & Hzl'). exists zl'. destruct (to_skiplist_ok uninit junk hash can_resize alloc alloc_fresh zl' L Hzl' Hs Hd Hfew rnds Hrnds Hne) as (zs & Hconv & Hz).
  destruct (Z.gtb_spec (zlen L) max_entries) as [Hbig|Hsmall].
  - exists (ZsetSkiplist zs), (ZsetSkiplist zs). split; [done|]. split; [done|]. split; [by destruct (_ >? _)|by constructor].
  - exists (ZsetZiplist zl'). destruct (Z.gtb_spec (zlen o) max_value) as [Hbig|Hle]; [exists (ZsetSkiplist zs)|exists (ZsetZiplist zl')]; (split; [done|]; split; [done|]; split; [done|]); constructor; try done.
    split; [done|]. eapply Forall_impl; [exact Hv|]. by intros e [->|He].
Qed.

Lemma zobj_add_ok incr rnds ob L sc o : repr ob L -> zobj_pre L (OAdd incr rnds sc o) ->
  exists ob', zobj_add uninit junk hash can_resize alloc fadd max_entries max_value incr rnds ob sc o = Some (ob', (spec_add fadd incr sc o L).2.1, (spec_add fadd incr sc o L).2.2) /\
    repr ob' (spec_add fadd incr sc o L).1.
Proof using alloc_fresh fadd_double.
  intros Ho ([Hroom [He Hrnds]] & Hr0 & Hsc & Hr). destruct Ho as [zl L Hzl Hs Hd Hlim|zs L Hz Hd]; cbn [zobj_add].
  - pose proof (zzl_ok_list zl L Hzl) as Hl. destruct (zzlFind_ok zl L Hd Hl o) as (r & -> & Hfound). cbn [mbind option_bind]. unfold spec_add. pose proof (so_distinct _ Hs) as Hnd. destruct (spec_index o L) as [q|] eqn:Hi.
    + destruct Hfound as (p & sp & e & Hq & Hat & ->). destruct (index_at L o q Hi) as (cur & Hq' & ->). assert (e = (cur, o)) as -> by congruence. cbn [fst].
      assert (is_double cur) as Hcur by (unfold doubles in Hd; rewrite Forall_lookup in Hd; apply (Hd q _ Hq)). pose proof (new_score incr sc cur Hsc Hcur) as Hnew. cbv zeta in *. set (sc' := if incr then fadd sc cur else sc) in *.
      destruct Hnew as [->|[-> Hd']]; cbn [fst snd]; [eexists; split; [done|by constructor]|]. destruct (deq sc' cur); cbn [negb fst snd]; [eexists; split; [done|by constructor]|].
      pose proof (index_remove o L q Hnd Hi) as Hrem. assert (spec_remove o L `sublist_of` L) as Hsub by apply filter_sublist.
      destruct Hat as (x & _ & Hp & _). assert (zzl_ok zl (take q L ++ drop q L)) as Hzl' by by rewrite take_drop. apply (zplace_of zl _ _ p Hzl') in Hp. pose proof (drop_S L _ q Hq) as Hdr. rewrite Hdr in Hp.
      destruct (zzlDelete_ok uninit zl (take q L) (cur, o) (drop (S q) L) p Hp) as (zl1 & -> & Hp1); [by rewrite <- Hdr, take_drop|by rewrite <- Hdr, take_drop|]. cbn [mbind option_bind]. apply zplace_ok in Hp1. rewrite Hrem in Hp1.
      destruct (zzlInsert_ok uninit zl1 (spec_remove o L) Hp1) with (sc := sc') (o := o) as (zl2 & -> & Hzl2); [by eapply Forall_sublist|by eapply sorted_sublist|done|by apply double_elt, He|apply remove_out|by eapply zroom_sublist|].
      cbn [mbind option_bind]. eexists. split; [done|]. constructor; [done|apply sorted_insert; [by eapply sorted_sublist|by apply double_elt, He|apply remove_out]|apply added_doubles; [by eapply Forall_sublist|done]|].
      destruct Hlim as [Hn Hv]. assert (spec_insert sc' o (spec_remove o L) ≡ₚ (sc', o) :: take q L ++ drop (S q) L) as Hperm by by rewrite insert_perm, Hrem. split.
      * unfold zlen in *. rewrite Hperm. rewrite <- (take_drop_middle L q _ Hq) in Hn at 1. rewrite length_app in Hn. cbn [length] in *. rewrite length_app. lia.
      * rewrite Hperm. rewrite <- (take_drop_middle L q _ Hq) in Hv at 1. rewrite Forall_app, Forall_cons in Hv. constructor; [apply Hv|]. rewrite Forall_app. tauto.
    + subst r. rewrite (index_none_score L o Hi). cbn [fst snd]. pose proof (index_out o L Hi) as Hout.
      destruct (zzlInsert_ok uninit zl L Hzl Hd Hs sc o Hsc He Hout Hr) as (zl1 & -> & Hzl1). cbn [mbind option_bind]. pose proof (insert_perm sc o L) as Hperm. set (L1 := spec_insert sc o L) in *.
      assert (zlen L1 = zlen L + 1) as Hlen1 by (unfold zlen; rewrite Hperm; cbn [length]; lia).
      destruct (after_insert rnds zl1 L1 o Hzl1) as (zl2 & ob & ob' & -> & Hob & Hob' & Hrep); [by apply sorted_insert|by apply added_doubles|intros H0; rewrite H0 in Hlen1; change (zlen []) with 0 in Hlen1; pose proof (zlen_nonneg L); lia|unfold room in Hroom; lia|done| |].
      * rewrite Hperm. constructor; [by left|]. eapply Forall_impl; [apply Hlim|]. intros e Hev. by right.
      * cbn [mbind option_bind]. rewrite Hob. cbn [mbind option_bind]. rewrite Hob'. cbn [mbind option_bind]. by exists ob'.
  - destruct (zaddElement_ok junk hash can_resize alloc fadd alloc_fresh incr (rnds 0%nat) zs L sc o Hz Hroom He (Hrnds 0%nat)) as (zs' & -> & Hz'). cbn [mbind option_bind]. eexists. split; [done|]. constructor; [done|]. by apply zadd_doubles.
Qed.

(** *** Removals *)

Lemma limits_sublist k L : k `sublist_of` L -> limits max_entries max_value L -> limits max_entries max_value k.
Proof using Type. intros Hsub [Hn Hv]. split; [pose proof (zlen_sublist _ _ Hsub); lia|by eapply Forall_sublist]. Qed.

(** What is left of a ziplist is one. *)
Lemma shorter zl k L : k `sublist_of` L -> zzl_ok zl k -> sorted L -> doubles L -> limits max_entries max_value L -> repr (ZsetZiplist zl) k.
Proof using Type. intros Hsub Hzl Hs Hd Hlim. constructor; [done|by eapply sorted_sublist|by eapply Forall_sublist|by eapply limits_sublist]. Qed.

Lemma zobj_rem_ok ob L o : repr ob L -> room L -> zroom L [] ->
  exists ob', zobj_rem uninit hash can_resize ob o = Some (ob', bool_decide (spec_score o L <> None)) /\ repr ob' (spec_remove o L).
Proof using Type.
  intros Ho Hroom Hr0. destruct Ho as [zl L Hzl Hs Hd Hlim|zs L Hz Hd]; cbn [zobj_rem].
  - pose proof (zzl_ok_list zl L Hzl) as Hl. destruct (zzlFind_ok zl L Hd Hl o) as (r & -> & Hfound). cbn [mbind option_bind]. destruct (spec_index o L) as [q|] eqn:Hi.
    + destruct Hfound as (p & sp & e & Hq & (x & _ & Hp & _) & ->). destruct (index_at L o q Hi) as (cur & _ & ->). assert (zzl_ok zl (take q L ++ drop q L)) as Hzl' by by rewrite take_drop.
      apply (zplace_of zl _ _ p Hzl') in Hp. pose proof (drop_S L _ q Hq) as Hdr. rewrite Hdr in Hp.
      destruct (zzlDelete_ok uninit zl (take q L) e (drop (S q) L) p Hp) as (zl1 & -> & Hp1); [by rewrite <- Hdr, take_drop|by rewrite <- Hdr, take_drop|]. cbn [mbind option_bind]. apply zplace_ok in Hp1. rewrite (index_remove o L q (so_distinct _ Hs) Hi) in Hp1.
      eexists. split; [done|]. by eapply shorter; [apply filter_sublist|..].
    + subst r. rewrite (index_none_score L o Hi), (remove_absent o L (index_out o L Hi)). eexists. split; [done|]. by constructor.
  - destruct (zremElement_ok hash can_resize zs L o Hz Hroom) as (zs' & -> & Hz'). cbn [mbind option_bind]. eexists. split; [done|]. constructor; [done|]. by eapply Forall_sublist; [apply filter_sublist|].
Qed.

(** The length of a ziplist, as a command keeps it. *)
Lemma llen_ok L : room L -> u32 (s32 (zlen L)) = zlen L /\ s32 (u32 (s32 (zlen L))) = zlen L.
Proof using Type.
  unfold room. intros Hr. pose proof (zlen_nonneg L). rewrite (swrap_small 32 (zlen L)) by (unfold sfits; lia). rewrite uwrap_small by lia. rewrite swrap_small by (unfold sfits; lia). done.
Qed.

Lemma zobj_remrange_ok ob L rg : repr ob L -> room L -> zroom L [] -> zrange_pre rg L ->
  exists ob', zobj_remrange uninit hash can_resize ob rg = Some (ob', (spec_remrange rg L).2) /\ repr ob' (spec_remrange rg L).1.
Proof using Type.
  intros Ho Hroom Hr0 Hpre. destruct Ho as [zl L Hzl Hs Hd Hlim|zs L Hz Hd]; cbn [zobj_remrange].
  - pose proof (zzl_ok_list zl L Hzl) as Hl. pose proof (remrange_sublist rg L) as Hsub. destruct rg as [i j|r|r]; cbn [zrange_pre spec_remrange] in *.
    + destruct (zzlLength_ok zl L Hzl) as (zl1 & -> & Hzl1). cbn [mbind option_bind]. rewrite (proj1 (llen_ok L Hroom)). destruct (sanitize (zlen L) i j) as [[a b]|] eqn:Hsan; cbn [fst snd] in *; [|eexists; split; [done|by constructor]].
      apply sanitize_bounds in Hsan. unfold room in Hroom. rewrite !uwrap_small by lia. destruct (zzlDeleteRangeByRank_ok uninit zl1 L a b Hzl1 Hd Hr0) as (zl' & -> & Hzl'); [lia|lia|done|]. cbn [mbind option_bind].
      eexists. split; [done|]. by eapply shorter.
    + destruct (score_ends zl L Hd Hl Hs r) as [(eptr & Hf & Hff) _]. pose proof (score_range_ok r L Hs) as Hr. unfold zzlDeleteRangeByScore. rewrite Hf.
      destruct (delete_range_place uninit (lte_score r) (score_lte r)) with (zl := zl) (L := L) (g := score_gte r) (eptr := eptr) as (zl' & -> & Hzl'); [intros; by eapply lte_score_at|done|done|done|apply Hr|apply Hr|done|].
      cbn [mbind option_bind]. eexists. split; [done|]. by eapply shorter.
    + destruct Hpre as [Hflat Hlex]. destruct (lex_ends zl L Hd Hl Hs r Hflat Hlex) as [(eptr & Hf & Hff) _]. pose proof (lex_range_ok r L Hs Hflat Hlex) as Hr. unfold zzlDeleteRangeByLex. rewrite Hf.
      destruct (delete_range_place uninit (zzlLexValueLteMax r) (lex_lte r)) with (zl := zl) (L := L) (g := lex_gte r) (eptr := eptr) as (zl' & -> & Hzl'); [intros; by eapply lte_lex_at|done|done|done|apply Hr|apply Hr|done|].
      cbn [mbind option_bind]. eexists. split; [done|]. by eapply shorter.
  - destruct (zremrange_ok hash can_resize zs L rg Hz Hroom Hpre) as (zs' & -> & Hz'). cbn [mbind option_bind]. eexists. split; [done|]. constructor; [done|]. by eapply Forall_sublist; [apply remrange_sublist|].
Qed.

(** *** Questions *)

Lemma zobj_score_ok ob L o : repr ob L -> exists ob', zobj_score hash ob o = Some (ob', spec_score o L) /\ repr ob' L.
Proof using Type.
  intros Ho. destruct Ho as [zl L Hzl Hs Hd Hlim|zs L Hz Hd]; cbn [zobj_score].
  - destruct (zzlFind_ok zl L Hd (zzl_ok_list zl L Hzl) o) as (r & -> & Hfound). cbn [mbind option_bind]. eexists. split; [|by constructor]. do 2 f_equal. destruct (spec_index o L) as [q|] eqn:Hi.
    + destruct Hfound as (p & sp & e & Hq & _ & ->). destruct (index_at L o q Hi) as (cur & Hq' & ->). assert (e = (cur, o)) as -> by congruence. done.
    + subst r. by rewrite (index_none_score L o Hi).
  - destruct (zscore_ok hash zs L o Hz) as (zs' & -> & Hz'). cbn [mbind option_bind]. eexists. split; [done|by constructor].
Qed.

Lemma zobj_rank_ok reverse ob L o : repr ob L -> room L -> L <> [] -> exists ob', zobj_rank hash reverse ob o = Some (ob', spec_rank reverse o L) /\ repr ob' L.
Proof using Type.
  intros Ho Hroom Hne. destruct Ho as [zl L Hzl Hs Hd Hlim|zs L Hz Hd]; cbn [zobj_rank].
  - destruct (zzlLength_ok zl L Hzl) as (zl1 & -> & Hzl1). cbn [mbind option_bind]. pose proof (zzl_ok_list zl1 L Hzl1) as Hl. destruct (index_first zl1 L Hl) as (cur & -> & Hc & Hcur). destruct (Hcur Hne) as (p & sp & -> & Hn).
    cbn [fmap option_fmap option_map fst mbind option_bind]. rewrite Hn. cbn [mbind option_bind]. pose proof (rank_loop_ok zl1 L Hd Hl o (S (length zl1)) 0 (Some (p, sp)) Hc ltac:(lia)) as Hrank. change (Z.of_nat 0 + 1) with 1 in Hrank.
    pose proof (zzl_few zl1 L Hl) as [Hfuel _]. rewrite Hrank by lia. cbn [mbind option_bind]. eexists. split; [|by constructor]. do 2 f_equal. unfold spec_rank. rewrite (proj1 (llen_ok L Hroom)).
    destruct (spec_index o L) as [q|] eqn:Hi; [|done]. cbn [fmap option_fmap option_map]. destruct (index_at L o q Hi) as (cur & Hq & _). apply lookup_lt_Some in Hq. unfold room, zlen in *. destruct reverse; rewrite uwrap_small by lia; f_equal; lia.
  - destruct (zrank_ok hash reverse zs L o Hz) as (zs' & -> & Hz'). cbn [mbind option_bind]. eexists. split; [done|by constructor].
Qed.

Lemma zobj_range_ok reverse ob L i j : repr ob L -> room L -> exists ob', zobj_range reverse ob i j = Some (ob', spec_range reverse i j L) /\ repr ob' L.
Proof using Type.
  intros Ho Hroom. destruct Ho as [zl L Hzl Hs Hd Hlim|zs L Hz Hd]; cbn [zobj_range].
  - destruct (zzlLength_ok zl L Hzl) as (zl1 & -> & Hzl1). cbn [mbind option_bind]. pose proof (zzl_ok_list zl1 L Hzl1) as Hl. rewrite (proj2 (llen_ok L Hroom)). unfold spec_range.
    destruct (sanitize (zlen L) i j) as [[a b]|] eqn:Hsan; [|eexists; split; [done|by constructor]]. apply sanitize_bounds in Hsan. unfold room in Hroom. rewrite (swrap_small 32 (b - a + 1)) by (unfold sfits; lia).
    set (q := (if reverse then length L - S (Z.to_nat a) else Z.to_nat a)%nat). destruct (lookup_lt_is_Some_2 L q) as [e He]; [unfold q, zlen in *; destruct reverse; lia|].
    destruct (index_member zl1 L Hl (s32 (if reverse then -2 - 2 * a else 2 * a)) q e He) as (p & sp & -> & Hn & Hat).
    { unfold q, zlen in *. destruct reverse; rewrite swrap_small by (unfold sfits; lia); [destruct (Z.ltb_spec (-2 - 2 * a) 0)|destruct (Z.ltb_spec (2 * a) 0)]; lia. }
    cbn [mbind option_bind]. rewrite Hn. cbn [mbind option_bind].
    assert (zzl_place zl1 L reverse (Z.to_nat a) (p, sp)) as Hpl by (split; [unfold zlen in *; lia|done]).
    rewrite (range_loop_ok _ _ _ _ (zzl_read_ok zl1 L Hd reverse) (zzl_move_ok zl1 L reverse) _ (Z.to_nat a) (Some (p, sp)) Hpl) by (rewrite answer_length; unfold zlen in *; lia).
    cbn [mbind option_bind]. eexists. split; [|by constructor]. unfold answer. by rewrite fmap_take, fmap_drop.
  - rewrite (zrange_list_ok hash reverse zs L i j Hz). cbn [mbind option_bind]. eexists. split; [done|by constructor].
Qed.

Lemma zobj_rangebyscore_ok reverse ob L r off lim : repr ob L -> sfits 64 off -> sfits 64 lim -> zobj_rangebyscore reverse ob r off lim = Some (spec_list reverse (pair_score_in r) off lim L).
Proof using Type.
  intros Ho Hoff Hlim. destruct Ho as [zl L Hzl Hs Hd _|zs L (l & H & <-) Hd]; cbn [zobj_rangebyscore].
  - pose proof (zzl_ok_list zl L Hzl) as Hl. destruct (score_ends zl L Hd Hl Hs r) as [(e1 & Hf & Hff) (e2 & Hla & Hlf)]. pose proof (score_range_ok r L Hs) as Hr. rewrite Hf, Hla.
    destruct reverse; (apply (zzl_list_range_ok zl L Hd Hl); [apply Hr|apply Hr|done| |done|done]); intros; [by eapply gte_score_at|by eapply lte_score_at].
  - unfold genericZrangebyscore. pose proof (zk_zsl _ _ _ H) as Hz. by apply (list_range_repr reverse _ l _ (score_gte r) (score_lte r)); [|apply score_range_ok, Hz|..].
Qed.

Lemma zobj_rangebylex_ok reverse ob L r off lim : repr ob L -> flat_scores L -> lex_ok r -> sfits 64 off -> sfits 64 lim ->
  zobj_rangebylex reverse ob r off lim = Some (spec_list reverse (pair_lex_in r) off lim L).
Proof using Type.
  intros Ho Hflat Hlex Hoff Hlim. destruct Ho as [zl L Hzl Hs Hd _|zs L (l & H & <-) Hd]; cbn [zobj_rangebylex].
  - pose proof (zzl_ok_list zl L Hzl) as Hl. destruct (lex_ends zl L Hd Hl Hs r Hflat Hlex) as [(e1 & Hf & Hff) (e2 & Hla & Hlf)]. pose proof (lex_range_ok r L Hs Hflat Hlex) as Hr. rewrite Hf, Hla.
    destruct reverse; (apply (zzl_list_range_ok zl L Hd Hl); [apply Hr|apply Hr|done| |done|done]); intros; [by eapply gte_lex_at|by eapply lte_lex_at].
  - unfold genericZrangebylex. pose proof (zk_zsl _ _ _ H) as Hz. by apply (list_range_repr reverse _ l _ (lex_gte r) (lex_lte r)); [|apply lex_range_ok; [apply Hz|..]|..].
Qed.

Lemma zobj_count_ok ob L r : repr ob L -> zobj_count ob r = Some (zlen (List.filter (pair_score_in r) L)).
Proof using Type.
  intros Ho. destruct Ho as [zl L Hzl Hs Hd _|zs L (l & H & <-) Hd]; cbn [zobj_count].
  - pose proof (zzl_ok_list zl L Hzl) as Hl. destruct (score_ends zl L Hd Hl Hs r) as [(e1 & Hf & Hff) _]. pose proof (score_range_ok r L Hs) as Hr. rewrite Hf.
    apply (zzl_count_range_ok zl L Hd Hl); [apply Hr|apply Hr|done|]. intros. by eapply lte_score_at.
  - pose proof (zk_zsl _ _ _ H) as Hz. unfold zcount. rewrite (count_range_ok (zsl zs) l Hz _ _ _ (score_range_ok r _ (iz_sorted _ _ Hz))). by rewrite <- filter_pairs, zlen_pairs.
Qed.

Lemma zobj_lexcount_ok ob L r : repr ob L -> flat_scores L -> lex_ok r -> zobj_lexcount ob r = Some (zlen (List.filter (pair_lex_in r) L)).
Proof using Type.
  intros Ho Hflat Hlex. destruct Ho as [zl L Hzl Hs Hd _|zs L (l & H & <-) Hd]; cbn [zobj_lexcount].
  - pose proof (zzl_ok_list zl L Hzl) as Hl. destruct (lex_ends zl L Hd Hl Hs r Hflat Hlex) as [(e1 & Hf & Hff) _]. pose proof (lex_range_ok r L Hs Hflat Hlex) as Hr. rewrite Hf.
    apply (zzl_count_range_ok zl L Hd Hl); [apply Hr|apply Hr|done|]. intros. by eapply lte_lex_at.
  - pose proof (zk_zsl _ _ _ H) as Hz. unfold zlexcount. rewrite (count_range_ok (zsl zs) l Hz _ _ _ (lex_range_ok r _ (iz_sorted _ _ Hz) Hflat Hlex)). by rewrite <- filter_pairs, zlen_pairs.
Qed.

Lemma zobjLength_ok ob L : repr ob L -> room L -> exists ob', zobjLength ob = Some (zlen L, ob') /\ repr ob' L.
Proof using Type.
  intros Ho Hroom. destruct Ho as [zl L Hzl Hs Hd Hlim|zs L Hz Hd]; cbn [zobjLength].
  - destruct (zzlLength_ok zl L Hzl) as (zl1 & -> & Hzl1). cbn [mbind option_bind]. rewrite (proj1 (llen_ok L Hroom)). eexists. split; [done|by constructor].
  - eexists. split; [|by constructor]. destruct Hz as (l & H & <-). by rewrite (proj1 (zsetLength_ok hash zs l H)), zlen_pairs.
Qed.

(** ** A session *)

Definition zobj_step (o : zobj) (op : zop) : option (zobj * zreply) :=
  match op with
  | OAdd incr rnds sc ele => '(o, sc, res) ← zobj_add uninit junk hash can_resize alloc fadd max_entries max_value incr rnds o sc ele; Some (o, RAdded sc res)
  | ORem ele => '(o, b) ← zobj_rem uninit hash can_resize o ele; Some (o, RRemoved b)
  | ORemRange rg => '(o, n) ← zobj_remrange uninit hash can_resize o rg; Some (o, RNumber n)
  | OScore ele => '(o, sc) ← zobj_score hash o ele; Some (o, RScore sc)
  | ORank reverse ele => '(o, r) ← zobj_rank hash reverse o ele; Some (o, RRank r)
  | ORange reverse start end_ => '(o, l) ← zobj_range reverse o start end_; Some (o, RElements l)
  | ORangeByScore reverse r offset limit => l ← zobj_rangebyscore reverse o r offset limit; Some (o, RElements l)
  | ORangeByLex reverse r offset limit => l ← zobj_rangebylex reverse o r offset limit; Some (o, RElements l)
  | OCount r => n ← zobj_count o r; Some (o, RNumber n)
  | OLexCount r => n ← zobj_lexcount o r; Some (o, RNumber n)
  | OCard => '(n, o) ← zobjLength o; Some (o, RNumber n)
  end.

Fixpoint zobj_run (o : zobj) (ops : list zop) : option (zobj * list zreply) :=
  match ops with
  | [] => Some (o, [])
  | op :: ops => '(o, r) ← zobj_step o op; '(o, rs) ← zobj_run o ops; Some (o, r :: rs)
  end.

Fixpoint zobj_ops_pre (L : list pair) (ops : list zop) : Prop :=
  match ops with
  | [] => True
  | op :: ops => zobj_pre L op /\ zobj_ops_pre (spec_step fadd L op).1 ops
  end.

Lemma zobj_step_ok o L op : repr o L -> zobj_pre L op -> exists o', zobj_step o op = Some (o', (spec_step fadd L op).2) /\ repr o' (spec_step fadd L op).1.
Proof using alloc_fresh fadd_double.
  intros H Hp. pose proof Hp as ([Hroom Hpre] & Hr0 & Hx). destruct op as [incr rnds sc ele|ele|rg|ele|rev ele|rev i j|rev r off lim|rev r off lim|r|r|]; cbn [zobj_step spec_step].
  - destruct (zobj_add_ok incr rnds o L sc ele H Hp) as (o' & -> & H'). cbn [mbind option_bind]. destruct (spec_add _ _ _ _ _) as [L' [sc' res]]. by exists o'.
  - destruct (zobj_rem_ok o L ele H Hroom Hr0) as (o' & -> & H'). by exists o'.
  - destruct (zobj_remrange_ok o L rg H Hroom Hr0 Hpre) as (o' & -> & H'). cbn [mbind option_bind]. destruct (spec_remrange _ _). by exists o'.
  - destruct (zobj_score_ok o L ele H) as (o' & -> & H'). by exists o'.
  - destruct (zobj_rank_ok rev o L ele H Hroom Hx) as (o' & -> & H'). by exists o'.
  - destruct (zobj_range_ok rev o L i j H Hroom) as (o' & -> & H'). by exists o'.
  - rewrite (zobj_rangebyscore_ok rev o L r off lim H) by apply Hpre. by exists o.
  - destruct Hpre as ([Hf Hlex] & Hoff & Hlim). rewrite (zobj_rangebylex_ok rev o L r off lim H) by done. by exists o.
  - rewrite (zobj_count_ok o L r H). by exists o.
  - destruct Hpre as [Hf Hlex]. rewrite (zobj_lexcount_ok o L r H) by done. by exists o.
  - destruct (zobjLength_ok o L H Hroom) as (o' & -> & H'). by exists o'.
Qed.

Lemma zobj_run_ok ops : forall o L, repr o L -> zobj_ops_pre L ops -> exists o', zobj_run o ops = Some (o', (spec_run fadd L ops).2) /\ repr o' (spec_run fadd L ops).1.
Proof using alloc_fresh fadd_double.
  induction ops as [|op ops IH]; intros o L H Hpre; [by exists o|]. destruct Hpre as [Hop Hpre]. cbn [zobj_run spec_run].
  destruct (zobj_step_ok o L op H Hop) as (o1 & -> & H1). cbn [mbind option_bind]. destruct (spec_step fadd L op) as [L1 r]. cbn [fst snd] in *. destruct (IH o1 L1 H1 Hpre) as (o2 & -> & H2). cbn [mbind option_bind].
  destruct (spec_run fadd L1 ops) as [L2 rs]. by exists o2.
Qed.
End object.
