(* ===== verification/ZzlTheorems.v ===== *)
(** * Sorted sets with either encoding: the theorems (src/redis-2.8.19/src/t_zset.c)

    A session that starts in a ziplist and may go on in a skip list is a session with a
    sorted list. The interface of doubles has an instance, with integers as doubles. *)
From S2P Require Import Prelude Util Sds Object Dict DictIter DictBound Ziplist ZiplistSpec HashType HashTypeSpec Zskiplist ZskiplistSpec ZskiplistOrder ZskiplistOps ZskiplistRange Zset ZsetSpec ZsetRange ZsetTheorems Zzl ZzlSpec ZzlRead ZzlWrite ZzlObject ZzlSession.
From Stdlib Require Import QArith.
Open Scope Z_scope.

(** ** Integers as doubles *)

Definition small_double (x : double) : Prop := match x with Fin q => exists z, q = inject_Z z /\ Z.abs z <= 2 ^ 52 | NaN => False | _ => True end.

Definition read_int (s : bytes) : double :=
  match default None (string2ll s (zlen s)) with
  | Some v => Fin (inject_Z v)
  | None => if bool_decide (s = zs "-inf") then NegInf else PosInf
  end.

Definition print_int (q : Q) : bytes := default [] (ll_str (Qnum q)).

Lemma print_int_spec z : Z.abs z <= 2 ^ 52 -> signed_numeral (print_int (inject_Z z)) z /\ zlen (print_int (inject_Z z)) < 128.
Proof. intros Hz. unfold print_int. destruct (ll_str_spec z) as (ds & Hrun & Hds & Hl & _); [unfold sfits; lia|]. change (Qnum (inject_Z z)) with z. rewrite Hrun. split; [done|cbn; lia]. Qed.

Lemma read_int_numeral s v : sfits 64 v -> signed_numeral s v -> read_int s = Fin (inject_Z v).
Proof. intros Hv Hs. unfold read_int. destruct (string2ll_ok s) as (r & -> & Hr). cbn [default]. by rewrite (proj2 (Hr v)). Qed.

Lemma inject_reduced z : Qred (inject_Z z) = inject_Z z.
Proof. unfold inject_Z, Qred. pose proof (Z.ggcd_gcd z 1) as Hg. pose proof (Z.ggcd_correct_divisors z 1) as Hc. destruct (Z.ggcd z 1) as [g [a b]]. cbn in *. rewrite Z.gcd_1_r in Hg. subst g. rewrite !Z.mul_1_l in Hc. by destruct Hc as [<- <-]. Qed.

#[local] Instance integers : Doubles.
Proof.
  refine (Build_Doubles small_double read_int (fun v => Fin (inject_Z v)) print_int _ _ _ _ _ _ _).
  - by intros [].
  - intros q (z & -> & _). apply inject_reduced.
  - done.
  - apply read_int_numeral.
  - done.
  - intros q (z & -> & Hz). apply read_int_numeral; [unfold sfits; lia|]. by apply print_int_spec.
  - intros q (z & -> & Hz). by apply print_int_spec.
Defined.

(** A sum that is too large is infinite. *)
Definition add_int (x y : double) : double :=
  match x, y with
  | Fin a, Fin b => let z := Qnum a + Qnum b in if Z.abs z <=? 2 ^ 52 then Fin (inject_Z z) else if 0 <? z then PosInf else NegInf
  | PosInf, NegInf | NegInf, PosInf | NaN, _ | _, NaN => NaN
  | Fin _, _ => y
  | _, _ => x
  end.

Lemma add_int_double x y : is_double x -> is_double y -> isnan (add_int x y) = false -> is_double (add_int x y).
Proof.
  intros Hx Hy. destruct x as [| |a|], y as [| |b|]; try done. cbn [add_int]. destruct (Z.leb_spec (Z.abs (Qnum a + Qnum b)) (2 ^ 52)); [|by destruct (_ <? _)].
  intros _. by exists (Qnum a + Qnum b).
Qed.

(** ** Sessions *)

(** C29: A session with a sorted set is a session with the sorted list of its scores and
    members, whether it is kept as a ziplist or as a skip list with a dictionary, and
    when it is converted on the way: every addition, increment, removal, removal of a
    range by index, score or string, every rank, every listing from either end with an
    offset and a limit, and every count gives what the list gives, and none fails. A
    ziplist never outgrows the limits of the configuration. Ranges of strings are asked
    for while the scores are equal, with two ends that are not read as the same bytes
    unless they are the same; scores are doubles, bounds are numbers, ranks are asked of
    a set that is not empty, and the sizes fit a ziplist. *)
Theorem zobj_session {D : Doubles} uninit junk hash can_resize alloc fadd max_entries max_value ops o L :
  (forall h, h !! alloc h = None) -> (forall x y, is_double x -> is_double y -> isnan (fadd x y) = false -> is_double (fadd x y)) ->
  zobj_repr hash max_entries max_value o L -> zobj_ops_pre fadd L ops ->
  exists o', zobj_run uninit junk hash can_resize alloc fadd max_entries max_value o ops = Some (o', (spec_run fadd L ops).2) /\
    zobj_repr hash max_entries max_value o' (spec_run fadd L ops).1.
Proof. intros Ha Hf H Hpre. by apply zobj_run_ok. Qed.

Definition int (z : Z) : double := Fin (inject_Z z).

(** Two elements fit the ziplist; the third one makes it a skip list. *)
Definition grow_ops : list zop :=
  let r := fun _ : nat => [0; 40000] in
  [OAdd false r (int 3) (zs "c"); OAdd false r (int (-1)) (zs "a"); OAdd true r (int 5) (zs "a"); ORank false (zs "a"); ORange true 0 (-1);
   ORangeByScore false (mkRange (int 3) PosInf true false) 0 (-1); OCount (mkRange NegInf (int 3) false false);
   OAdd false r (int 3) (zs "b"); ORange false 0 (-1); ORem (zs "c"); OScore (zs "b"); OCard].

Example grow_replies : drop 2 (spec_run add_int [] grow_ops).2 =
  [RAdded (int 4) ZUpdated; RRank (Some 1); RElements [(zs "a", int 4); (zs "c", int 3)]; RElements [(zs "a", int 4)]; RNumber 1;
   RAdded (int 3) ZAdded; RElements [(zs "b", int 3); (zs "c", int 3); (zs "a", int 4)]; RRemoved true; RScore (Some (int 3)); RNumber 2].
Proof. reflexivity. Qed.

(** The encodings after the first [n] steps. *)
Definition encoding_after (n : nat) : option zencoding :=
  o ← createZsetZiplistObject (fun _ => 0);
  '(o, _) ← zobj_run (fun _ => 0) no_link sum_bytes true new_addr add_int 2 64 o (take n grow_ops);
  Some (encoded o).

Example grow_encodings : encoding_after 7 = Some REDIS_ENCODING_ZIPLIST /\ encoding_after 8 = Some REDIS_ENCODING_SKIPLIST /\ encoding_after 12 = Some REDIS_ENCODING_SKIPLIST.
Proof. split_and!; vm_compute; reflexivity. Qed.

Lemma int_double z : (Z.abs z <=? 2 ^ 52) = true -> is_double (int z).
Proof. intros H%Z.leb_le. by exists z. Qed.

Lemma zobj_session_witness : exists o o',
  createZsetZiplistObject (fun _ => 0) = Some o /\
  zobj_run (fun _ => 0) no_link sum_bytes true new_addr add_int 2 64 o grow_ops = Some (o', (spec_run add_int [] grow_ops).2) /\
  zobj_repr sum_bytes 2 64 o' (spec_run add_int [] grow_ops).1.
Proof.
  destruct (createZsetZiplist_ok (fun _ => 0) sum_bytes 2 64 ltac:(done)) as (o & Hnew & Ho). exists o.
  destruct (zobj_session (fun _ => 0) no_link sum_bytes true new_addr add_int 2 64 grow_ops o [] new_addr_fresh add_int_double Ho) as (o' & Hrun & Ho'); [|by exists o'].
  repeat (split; [split; [split; [reflexivity|]|split; [reflexivity|]]|]); try exact I.
  all: try (split; [by apply int_double|reflexivity]).
  all: try (split; [by apply small_elt|intros _; split; [by eexists; vm_compute|reflexivity]]).
  all: try done.
Defined.

(** ** A range that is empty by mistake *)

(** [never]: a test of the code calls the range empty without looking at the set. *)
Lemma never_empty {D : Doubles} hash max_entries max_value o L r reverse offset limit :
  zobj_repr hash max_entries max_value o L -> never (lex_range r) = true ->
  zobj_rangebylex reverse o r offset limit = Some [] /\ zobj_lexcount o r = Some 0.
Proof.
  intros Ho Hr. destruct Ho as [zl L Hzl _ _ _|zs L _ _].
  - assert (forall i, exists p, ziplistIndex zl i = Some p) as Hidx.
    { intros i. destruct (ziplistIndex_ok zl _ i (zzl_ok_list zl L Hzl)) as (p & -> & _). by exists p. }
    destruct (Hidx 0) as [p Hp], (Hidx (-2)) as [q Hq].
    assert (zzlIsInLexRange zl r = Some false) as Hin by (unfold zzlIsInLexRange; by rewrite Hr).
    assert (zzlFirstInLexRange zl r = Some None) as Hfirst by (unfold zzlFirstInLexRange, zzl_first; by rewrite Hp, Hin).
    assert (zzlLastInLexRange zl r = Some None) as Hlast by (unfold zzlLastInLexRange, zzl_last; by rewrite Hq, Hin).
    cbn [zobj_rangebylex zobj_lexcount]. rewrite Hfirst, Hlast. by destruct reverse.
  - assert (is_in_range (zsl zs) (lex_range r) = Some false) as Hin by (unfold is_in_range; by rewrite Hr).
    cbn [zobj_rangebylex zobj_lexcount]. unfold genericZrangebylex, list_range, zlexcount, count_range, first_in_range, last_in_range.
    rewrite Hin. by destruct reverse.
Qed.

(** C39: Whatever a sorted set holds and in either encoding, ZRANGEBYLEX, ZREVRANGEBYLEX
    and ZLEXCOUNT find nothing from "-" to "(minstring" and from "(maxstring" to "+",
    although by the tests of the code on a member exactly the members before "minstring"
    are inside the one and those after "maxstring" inside the other: the two ends are
    compared as if "-" and "+" were these strings. *)
Theorem zlexrange_minstring {D : Doubles} hash max_entries max_value o L lo hi reverse offset limit :
  zobj_repr hash max_entries max_value o L -> (lo, hi) = (zs "-", zs "(minstring") \/ (lo, hi) = (zs "(maxstring", zs "+") ->
  exists r, zslParseLexRange (StrRaw lo) (StrRaw hi) = Some r /\
    zobj_rangebylex reverse o r offset limit = Some [] /\ zobj_lexcount o r = Some 0 /\
    forall m, zslLexValueGteMin m r && zslLexValueLteMax m r =
      (if bool_decide (lo = zs "-") then compareDecoded m (zs "minstring") <? 0 else compareDecoded m (zs "maxstring") >? 0).
Proof.
  intros Ho [[= -> ->]|[= -> ->]]; (eexists; split; [reflexivity|]); split_and!; try (by eapply never_empty); intros m.
  - done.
  - unfold zslLexValueGteMin, zslLexValueLteMax. cbn [lminex lmaxex lmin lmax compareStringObjectsForLexRange]. by rewrite andb_true_r.
Qed.

(** A ziplist with the members "apple" and "zoo". *)
Definition two_ops : list zop := [OAdd false (fun _ => [50000]) (int 0) (zs "apple"); OAdd false (fun _ => [50000]) (int 0) (zs "zoo")].

Lemma zlexrange_minstring_witness : exists o0 o,
  createZsetZiplistObject (fun _ => 0) = Some o0 /\
  zobj_run (fun _ => 0) no_link sum_bytes true new_addr add_int 2 64 o0 two_ops = Some (o, (spec_run add_int [] two_ops).2) /\
  exists r, zslParseLexRange (StrRaw (zs "-")) (StrRaw (zs "(minstring")) = Some r /\
    zobj_rangebylex false o r 0 (-1) = Some [] /\ zobj_lexcount o r = Some 0 /\
    forall m, zslLexValueGteMin m r && zslLexValueLteMax m r = (compareDecoded m (zs "minstring") <? 0).
Proof.
  destruct (createZsetZiplist_ok (fun _ => 0) sum_bytes 2 64 ltac:(done)) as (o0 & Hnew & Ho). exists o0.
  destruct (zobj_run_ok (fun _ => 0) no_link sum_bytes true new_addr add_int 2 64 new_addr_fresh add_int_double two_ops o0 [] Ho) as (o & Hrun & Ho').
  - repeat (split; [split; [split; [reflexivity|]|split; [reflexivity|]]|]); try exact I.
    all: try (split; [by apply int_double|reflexivity]).
    all: try (split; [by apply small_elt|intros _; split; [by eexists; vm_compute|reflexivity]]).
    all: done.
  - exists o. split_and!; [done|done|]. apply (zlexrange_minstring sum_bytes 2 64 o _ (zs "-") (zs "(minstring") false 0 (-1) Ho'). by left.
Defined.
